(* ===== verification/_CoqProject ===== *)
-Q . S2P
Prelude.v
Ring.v
Pipe.v
Bytes.v
Mac.v
MacGlob.v
MacParse.v
MacTable.v
MacProps.v
Table.v
Msg.v
MsgSpec.v
MsgInv.v
MsgRefine.v
MsgProps.v
FwPkt.v
FwConf.v
Fw.v
FwInv.v
FwFlow.v
FwSpec.v
FwAdmin.v
FwProps.v
Sha.v
ShaSpec.v
Users.v
UsersInv.v
UsersProps.v
Update.v
UpdateSpec.v
UpdateBoot.v
UpdateProps.v
Dynlink.v
DynlinkSpec.v
DynlinkMem.v
DynlinkProps.v
Journal.v
JournalDisk.v
JournalCrash.v
JournalTxn.v
JournalSpec.v
JournalProps.v
Fat.v
FatSpec.v
FatChain.v
FatDir.v
FatFiles.v
FatWrite.v
FatOps.v
FatProps.v
FatJournal.v
FatCrash.v
Shm.v
ShmHal.v
ShmInv.v
ShmOps.v
ShmGap.v
ShmMap.v
ShmLife.v
ShmFork.v
ShmSys.v
ShmProps.v
Tcp.v
TcpSeg.v
TcpCalls.v
TcpEvolve.v
TcpPackets.v
TcpWire.v
TcpStep.v
TcpEnds.v
TcpDiagram.v
TcpLive.v
TcpProps.v
Mixer.v
MixerStream.v
MixerInv.v
MixerMix.v
MixerCard.v
MixerCalls.v
MixerProps.v
