(* ===== verification/Prelude.v ===== *)
(** * A verification development for the kernel services of NovaOS

    NovaOS is a 32-bit x86 operating system whose drivers and process code are in C and
    whose newer services are in Rust ([src/kernel/rust]). This development models the
    services that the others trust: the ones that keep processes apart, carry bytes
    between them, keep the disk consistent and decide what may reach the machine. Each
    service is a state machine behind a handful of [rust_*] entry points which the C
    kernel calls with interrupts off, under one spinlock; so a call is one atomic step,
    and a run of the kernel is a sequence of calls.

    ** How the code is modelled

    The embedding is shallow. A Rust function is a Gallina function of the same name; a
    method that changes [self] takes the state and returns the new one; a loop is a
    [Fixpoint] on what it iterates over, or on a count that bounds it; a [struct] is a
    [Record] and an [enum] an inductive type.

    - [outcome]: what a call does. [Done] is a return; [Panic] is an array index out of
      range (or a failed slice), which aborts the kernel. Every read and write of an
      array goes through [index] and [store], so "the call returns" is a theorem each time.
    - Integers are [Z] at their width. The release build does not check overflow, so
      arithmetic wraps: [wrap32 (x + y)], also written [x +₃₂ y]. [usize] has 32 bits;
      indices and lengths that are bounded by an array are [nat].
    - [result] is Rust's [Result]; the parsers use the monad [comp] of Bytes.v, in which a
      computation returns, fails with a parse error, or panics.
    - A pointer argument is an option of the memory behind it, and what a call writes
      through a pointer is part of its result. Clocks are arguments.
    - What a service asks of the C kernel is a class of operations (the frame allocator
      and page tables of shared memory, with their laws), an argument of the call (the
      process table and clock of messages), or a model of the device (the disk under the
      journal).

    ** The parts

    Pipes ([kernel/rust/pipe.rs]; Pipe.v). The table of eight pipes with their ring
    buffers. Refinement to a table of bounded byte queues, answer by answer
    ([pipe_refines_queues]); what is read is what was written ([pipe_stream_integrity]).

    Shared memory ([kernel/rust/shm.rs]; Shm.v has the definitions, ShmHal.v the class of
    kernel operations, its laws and a reference kernel that satisfies them, ShmInv.v the
    invariant between objects, mapping records, frames and page tables, ShmOps.v,
    ShmGap.v, ShmMap.v, ShmLife.v and ShmFork.v the operations and the consistency check,
    ShmSys.v the entry points and runs of the kernel, ShmProps.v the theorems and
    examples). In every reachable state any call returns, no frame is lost or shared by
    two objects ([shm_safe]) and two processes reach a common frame through a common
    object only ([shm_isolation]); each operation does what it says and nothing else, also
    when it fails; a destroyed handle stays dead.

    Write-ahead journal ([kernel/rust/journal.rs] and the sector layer of
    [kernel/drivers/blockdev.c]; Journal.v the definitions, JournalDisk.v the descriptor
    block and the writes of a commit and a checkpoint, JournalCrash.v the disks
    a power cut can leave and what recovery makes of them, JournalTxn.v and JournalSpec.v
    transactions, JournalProps.v the theorems). The device writes one sector at a time, in
    order, and can stop between any two; a sector can be bad. After a power cut at any
    point of a transaction, recovery leaves the disk as if the transaction had happened
    entirely or not at all ([journal_crash_consistent]).

    FAT32 ([kernel/fs/fat32.c] and the file calls of [kernel/fs/vfs.c]; Fat.v the
    definitions, over the class [Blocks] of what the driver calls below it; FatSpec.v the
    laws of that class, table entries and clusters as functions of the sectors; FatChain.v
    table entries and clusters written, chains of clusters, allocation and release;
    FatDir.v the directory as a list of entries; FatFiles.v the invariant of a volume, its
    files as a finite map from 8.3 names to bytes, names and reading; FatWrite.v and
    FatOps.v the two transactions; FatProps.v the theorems; FatJournal.v the journal as an
    instance of [Blocks] and its laws; FatCrash.v power loss, examples and a transaction
    that is too long). Every call returns on a sound volume and refines the
    finite map: reading ([fat_read_correct]), listing ([fat_list_correct]), creation
    ([fat_write_correct]) and deletion ([fat_delete_correct]). Over the journal, a run of
    successful calls that loses power at any sector write is found after recovery as the
    first calls of it left the volume; so is a run whose last call reports failure, if
    clusters are single sectors ([fat_crash_consistent]). If they are not, a failed write
    can leave its entry behind, as the run [fat_failed_write_leaves_entry] shows.

    Hashing ([sha256.rs], [hmac_sha256.rs], [pbkdf2.rs], [pkgsign.rs] and
    [pkgsign_core.rs] of [kernel/rust]; Sha.v the definitions, ShaSpec.v SHA-256, HMAC and
    PBKDF2 as their standards define them, and the theorems). The streaming hasher
    computes the hash of the concatenated input ([sha_streaming_equiv]); PBKDF2
    ([pbkdf2_correct]) and the signature of packages ([pkg_signature_correct]) are the
    standard ones.

    Users ([kernel/rust/users.rs], [process_login] and [process_sudo] of
    [kernel/task/process.c]; Users.v, UsersInv.v and UsersProps.v). Who gets
    in ([users_login_correct], [users_sudo_correct]), the lockout ([users_lockout]) and
    the saved database ([users_save_load]).

    Updates ([kernel/rust/atomic_update.rs] and its part of [kernel/init/main.c]; Update.v
    the definitions, over the class [Vfs] of file calls, UpdateSpec.v packages, the laws
    of that class and the operations, UpdateBoot.v booting, UpdateProps.v the theorems).
    Only an authentic package changes anything, and then the slot that is not active
    ([update_apply_correct]). A trial does not survive a boot, though: the configuration is
    read back only if memory happens to spell its checksum ([update_config_reload]), and the
    self-test of every boot overwrites the other slot and selects slot A
    ([update_boot_overwrites]); nor does the running kernel survive a second update
    ([update_second_apply_overwrites]).

    Programs and libraries ([kernel/rust/dynlink.rs], [kernel/task/elf.c] and the loading
    part of [kernel/task/process.c]; Dynlink.v the definitions, over the classes [Vm] of
    frames and page tables and [Vfs] of files; DynlinkSpec.v the dynamic section, symbols
    and relocations as their formats define them; DynlinkMem.v the laws of [Vm], memory as
    a sequence of patches and the loaders; DynlinkProps.v the theorems, an address space
    that satisfies the laws, and examples). A program that starts finds in memory exactly
    what its files and the relocation formulas of the i386 ABI say ([dynlink_memory]), with
    the libraries it needs and no others ([dynlink_closure]); relocation succeeds exactly
    when it can be done right ([dynlink_relocates_iff]); a name means the first image that
    exports it ([dynlink_resolves_first]). A segment in the last page of the address space
    is copied without being mapped ([dynlink_wrap_unmapped]).

    Mandatory access control ([kernel/rust/mac.rs]; Mac.v the definitions, MacGlob.v
    patterns, MacParse.v the profile language, MacTable.v the profile table, MacProps.v
    the theorems). Every request is decided as the stack of profiles says
    ([mac_mandatory]), an exec can only add restrictions ([mac_confinement]), and the
    parser accepts exactly the grammar with its meaning ([mac_parse_correct]).

    Messages ([kernel/rust/msg.rs]; Table.v slot tables as finite maps, Msg.v the
    definitions, MsgSpec.v the abstract mail system, MsgInv.v the invariant, MsgRefine.v
    the simulation, MsgProps.v the self-check and the theorems). All runs of all
    entry points answer as a mail system of bounded first-in first-out inboxes and a
    finite map of names would ([msg_refines]); consequences are proved on either side of
    the refinement.

    Firewall ([kernel/rust/firewall.rs]; FwPkt.v packets and rules, FwConf.v the
    configuration language, Fw.v connection tracking, administration and entry points,
    FwInv.v the parsers stay inside their input, FwFlow.v one packet, FwSpec.v which packets
    may pass, in terms of flag bits, flows and rules, FwAdmin.v one call, FwProps.v the
    theorems). The firewall lets in what that specification lets in, and follows connections
    along its transitions ([fw_verdict]); no packet evicts a live flow ([fw_flows_kept]);
    under a configuration such as the built-in one every inbound packet answers one that
    went out ([fw_nothing_unasked]); a locked firewall cannot be changed ([fw_lock_final]).

    TCP ([kernel/rust/tcp.rs] and [net_checksum16] of [kernel/net/net.c]; Tcp.v the
    definitions, TcpSeg.v buffers and segments on the wire, TcpCalls.v the steps of one
    connection, TcpEvolve.v and TcpPackets.v that every call returns and consists of such
    steps, TcpWire.v two hosts and the network, TcpStep.v and TcpEnds.v the invariant of
    the two ends, TcpDiagram.v the transitions of a connection by their cause, TcpLive.v and
    TcpProps.v the theorems and runs). Whatever the
    network does with segments, each application reads a prefix of what the other writes,
    and all of it before the end of the stream ([tcp_end_to_end]); on a network that
    delivers, what is written arrives ([tcp_delivers]); each call and each segment takes a
    connection along the transition of the state diagram it stands for, and no other
    ([tcp_state_machine]); connections keep to their bounds ([tcp_safe]); segments survive
    the wire ([tcp_segment_correct]). The rest shows what connections do not survive: a lost
    acknowledgement, since data that arrives again is not answered
    ([tcp_stale_data_unanswered], with the run [tcp_lost_ack_kills]), a lost FIN
    ([tcp_fin_never_resent]), and in runs a refusal ([tcp_refused_connect_succeeds]) and a
    reset in the backlog ([tcp_stale_backlog]).

    Audio ([kernel/rust/mixer.rs]; Mixer.v the definitions, over the class [Hw] of what the
    mixer asks of the sound card; MixerStream.v one stream as a queue of frames and a
    reference resampler; MixerInv.v the invariant and the calls on streams; MixerMix.v one
    period of the mix; MixerCard.v the class [Card] of cards that play a ring of
    descriptors, and the card of the source's own tests as its instance; MixerCalls.v all
    calls; MixerProps.v the theorems and examples). What is heard is the mixed
    periods, in order, none lost and none repeated, whatever is called and however late the
    ticks are ([audio_playback]), and the mix is the saturated sum of the resampled
    streams ([audio_mix_correct]); calls return ([audio_safe]) and reach the streams of
    their own process only ([audio_isolation]); a card that is ticked in time does not run
    dry ([audio_gapless]); 48 kHz streams pass unchanged ([audio_exact_48k]) and a closed
    one is played to its end ([audio_close_drains]). [audio_write_correct] and
    [audio_tap_newest] are about writes and the recording tap.

    Ring.v has the ring buffers of pipes, TCP and audio, and Bytes.v has byte strings and the
    slice functions of [core] which the parsers use.

    ** How the services meet

    FAT32 stands on the journal, and its theorems are proved against an interface:
    [BlocksLaws] says what a read returns, that a failed write has written some first
    sectors, that what was written once can be written again and that opening a
    transaction changes nothing; [Commits] that a commit keeps what was seen.
    [journal_laws] of FatJournal.v discharges the first for every disk, [journal_commits]
    the second while power lasts, and FatCrash.v uses the journal's crash states in its
    place when it does not. Updates and program loading are proved against the interface
    [VfsLaws] of a file system, with a store of files as its instance, and program loading
    against [VmLaws] of an address space, with [Pages] as its instance; users and updates
    both use the functions of Sha.v.

    The other services do not call each other: the C kernel does, with a process id it has
    checked. What they share is the process table: an exit reaches pipes, shared
    memory, messages and audio through their [process_exit] entry points, all modelled. The
    classes
    [Hal], [ProcHal] and [HalLaws] of ShmHal.v state what the C side promises to shared
    memory; [Hal] of Msg.v is the view of the process table that messages take per call.

    ** Bounds and fuel

    Nothing is proved up to a bound. Loops that the code bounds by a table size recurse on
    that size; the pattern matcher of Mac.v, which is not structural, has fuel
    [glob_fuel], and MacGlob.v proves that it is always enough; [skip_while] of Bytes.v
    runs on the length of its input. A loop of Fat.v along a chain of clusters has as many
    steps as the table has entries and ends in [None] if they are used up, where the C
    code would go round for ever; chains of a sound volume are shorter ([chain_fuel]), and
    the theorems state that the calls return. Theorems about reachable states are by
    induction on the calls. Where a counter could wrap after 2^64 messages or a handle
    recur after 2^24 reuses of a slot, the bound is a hypothesis of the theorem and said
    in its comment; so is the 2 GiB that a TCP stream may have before sequence numbers
    recur. The search for a TCP port has one more step than there are sockets, which
    [pick_port_spec] shows to be enough, and the carries of a checksum are folded in three
    rounds ([fold_carries_spec]). The resampler takes exactly as many frames as its position
    has passed, so its loop recurses on that number; [consume] of the simulated card has
    the number of frames as fuel, each round playing at least one. A full stream is played
    out in 205 periods, which [audio_close_drains] proves; the loops of Dynlink.v have one
    round for each page or name, as their comments say; [audio_tap_newest] is about the
    first 2^32 frames, a day of sound, after which the counter it reads starts over.

    ** Not modelled

    - The spinlock and the interrupt state: each entry point is one step (each turn of
      their loops, for the two TCP calls that wait).
    - The C side of the entry points: copies between user memory and the kernel, the log
      lines of the firewall, the page-table walks behind the [Hal] of shared memory.
    - Volumes whose table has more entries than the partition has clusters: the driver
      takes the spare ones for free clusters, so the theorems assume that there are none.
      Sectors that cannot be read under a mounted volume, and the mount sequence of
      [vfs_init] with the read-only ext2 driver behind it.
    - The data race between a device and its driver, caching, and torn sectors: a sector
      write is atomic, and so is a tick of the mixer for the sound card.
    - The rest of the system: see the list of components in the manifest. Drivers and
      boot code are sequences of port and memory-mapped accesses whose meaning is the
      device's; the graphical programs are drawing code; the scheduler and the system-call
      layer work on raw memory, for which a shallow embedding would have to make up a
      memory model; ext2, the other network protocols, crash dumps, the log and the installer
      could be modelled like the parts above and are not yet. *)

From Stdlib Require Export ZArith Lia ZifyBool ZifyNat.
From stdpp Require Export prelude list gmap.

#[global] Set Default Goal Selector "!".

(** ** Outcomes: what a Rust function does when it is called

    [Panic] is the abort of an out-of-range array index (the kernel is built
    with [-C panic=abort -C opt-level=2]: array bounds are checked, integer
    overflow wraps). *)
Inductive outcome (A : Type) : Type :=
| Done (a : A)
| Panic.
Arguments Done {A} a.
Arguments Panic {A}.

#[global] Instance outcome_ret : MRet outcome := @Done.
#[global] Instance outcome_bind : MBind outcome :=
  fun A B f m => match m with Done a => f a | Panic => Panic end.

(** Rust's [Result<A, E>]. *)
Inductive result (A E : Type) : Type :=
| Ok (a : A)
| Err (e : E).
Arguments Ok {A E} a.
Arguments Err {A E} e.

(** ** Machine integers: values are integers, arithmetic wraps explicitly *)
Definition wrap8 (z : Z) : Z := (z mod 256)%Z.
Definition wrap16 (z : Z) : Z := (z mod 65536)%Z.
Definition wrap32 (z : Z) : Z := (z mod 4294967296)%Z.
Definition wrap64 (z : Z) : Z := (z mod 18446744073709551616)%Z.

(** [x.wrapping_add(y)] and the like on [u32], which is also what the operators do in
    a build without overflow checks. *)
Declare Scope machine_scope.
Notation "x +₃₂ y" := (wrap32 (x + y)%Z) (at level 50, left associativity) : machine_scope.
Notation "x -₃₂ y" := (wrap32 (x - y)%Z) (at level 50, left associativity) : machine_scope.
Notation "x *₃₂ y" := (wrap32 (x * y)%Z) (at level 40, left associativity) : machine_scope.

Definition is_u8 (z : Z) : Prop := (0 <= z < 256)%Z.
Definition is_u16 (z : Z) : Prop := (0 <= z < 65536)%Z.
Definition is_u32 (z : Z) : Prop := (0 <= z < 4294967296)%Z.
Definition is_u64 (z : Z) : Prop := (0 <= z < 18446744073709551616)%Z.
Definition is_i32 (z : Z) : Prop := (-2147483648 <= z < 2147483648)%Z.

(** ** Arrays: bounds-checked indexing and assignment *)
Definition index {A} (l : list A) (i : nat) : outcome A :=
  match l !! i with
  | Some x => Done x
  | None => Panic
  end.

Definition store {A} (l : list A) (i : nat) (x : A) : outcome (list A) :=
  if decide (i < length l)%nat then Done (<[i := x]> l) else Panic.

(** [iter().position(f)]: the first index whose element satisfies [f]. *)
Fixpoint position {A} (f : A -> bool) (l : list A) : option nat :=
  match l with
  | [] => None
  | x :: l' => if f x then Some 0%nat else S <$> position f l'
  end.

(** [iter().filter(f).count()]. *)
Fixpoint countb {A} (f : A -> bool) (l : list A) : nat :=
  match l with
  | [] => 0%nat
  | x :: l' => ((if f x then 1 else 0) + countb f l')%nat
  end.

(** One step of the monad, leaving the rest of the goal alone. *)
Ltac osimpl := cbn [mbind outcome_bind mret outcome_ret negb andb orb].

(** ** Lemmas *)
Lemma index_Done {A} (l : list A) i x : index l i = Done x <-> l !! i = Some x.
Proof. unfold index. destruct (l !! i); split; congruence. Qed.

Lemma index_at {A} {l : list A} {i x} : l !! i = Some x -> index l i = Done x.
Proof. apply index_Done. Qed.

Lemma store_Done {A} (l : list A) i x :
  (i < length l)%nat -> store l i x = Done (<[i := x]> l).
Proof. intros H. unfold store. by rewrite decide_True. Qed.

(** One array access of the code: the read that a lookup in the context answers, the
    write that stays in range. *)
Ltac oindex H := rewrite (index_at H); osimpl.
Ltac ostore :=
  rewrite store_Done by
    (done || lia || (by eapply lookup_lt_Some) || (rewrite ?length_insert; (done || lia))); osimpl.

Lemma bind_Done {A B} (f : A -> outcome B) m b :
  m ≫= f = Done b <-> exists a, m = Done a /\ f a = Done b.
Proof.
  destruct m as [a|]; simpl; split.
  - intros H. by exists a.
  - by intros (? & [= ->] & ?).
  - intros H. inversion H.
  - by intros (? & [=] & ?).
Qed.

Lemma position_Some {A} (f : A -> bool) l i :
  position f l = Some i <->
  exists x, l !! i = Some x /\ f x = true /\
            forall j y, (j < i)%nat -> l !! j = Some y -> f y = false.
Proof.
  revert i. induction l as [|x l IH]; intros i; simpl.
  { split; [done|]. by intros (? & ? & _). }
  destruct (f x) eqn:Hx.
  - split.
    + intros [= <-]. exists x. repeat split; [done|]. intros; lia.
    + intros (y & Hy & Hf & Hmin). destruct i as [|i]; [done|].
      specialize (Hmin 0%nat x ltac:(lia) eq_refl). congruence.
  - rewrite fmap_Some. split.
    + intros (k & Hk & ->). apply IH in Hk as (y & Hy & Hf & Hmin).
      exists y. split; [done|]. split; [done|].
      intros [|j] z Hj Hz; simpl in Hz; [congruence|].
      apply (Hmin j); [lia|done].
    + intros (y & Hy & Hf & Hmin). destruct i as [|i]; simpl in Hy; [congruence|].
      exists i. split; [|done]. apply IH. exists y. split; [done|]. split; [done|].
      intros j z Hj Hz. apply (Hmin (S j)); [lia|done].
Qed.

Lemma position_None {A} (f : A -> bool) l :
  position f l = None <-> forall i x, l !! i = Some x -> f x = false.
Proof.
  induction l as [|x l IH]; simpl; [done|].
  destruct (f x) eqn:Hx.
  - split; [done|]. intros H. specialize (H 0%nat x eq_refl). congruence.
  - rewrite fmap_None, IH. split.
    + intros H [|i] y Hy; simpl in Hy; [congruence|]. by apply (H i).
    + intros H i y Hy. by apply (H (S i)).
Qed.

Lemma countb_insert {A} (f : A -> bool) l i x y :
  l !! i = Some x ->
  (countb f (<[i := y]> l) + (if f x then 1 else 0) =
   countb f l + (if f y then 1 else 0))%nat.
Proof.
  revert i. induction l as [|z l IH]; intros [|i] Hi; simplify_eq/=; [lia|].
  specialize (IH i Hi). lia.
Qed.

Lemma countb_le_length {A} (f : A -> bool) l : (countb f l <= length l)%nat.
Proof. induction l; simpl; [lia|]. destruct (f a); lia. Qed.

Lemma countb_pos {A} (f : A -> bool) l i x :
  l !! i = Some x -> f x = true -> (0 < countb f l)%nat.
Proof.
  revert i. induction l as [|y l IH]; intros [|i] Hi Hf; simplify_eq/=.
  - rewrite Hf. lia.
  - specialize (IH i Hi Hf). lia.
Qed.

Lemma countb_pos_inv {A} (f : A -> bool) l :
  (0 < countb f l)%nat -> exists i x, l !! i = Some x /\ f x = true.
Proof.
  induction l as [|y l IH]; simpl; intros Hc; [lia|]. destruct (f y) eqn:Hy.
  - by exists 0%nat, y.
  - destruct IH as (i & x & Hi & Hx); [lia|]. by exists (S i), x.
Qed.

Lemma countb_none {A} (f : A -> bool) l :
  (forall i x, l !! i = Some x -> f x = false) -> countb f l = 0%nat.
Proof.
  induction l as [|x l IH]; intros Hf; simpl; [done|].
  rewrite (Hf 0%nat x eq_refl), IH; [done|]. intros i. apply (Hf (S i)).
Qed.

Lemma countb_app {A} (f : A -> bool) l1 l2 : countb f (l1 ++ l2) = (countb f l1 + countb f l2)%nat.
Proof. induction l1; simpl; lia. Qed.

Lemma countb_take_S {A} (f : A -> bool) l i x :
  l !! i = Some x ->
  countb f (take (S i) l) = (countb f (take i l) + (if f x then 1 else 0))%nat /\
  (countb f (take (S i) l) <= countb f l)%nat.
Proof.
  intros Hx. rewrite (take_S_r _ _ x Hx), countb_app. simpl. split; [lia|].
  assert (E : countb f (take i l ++ x :: drop (S i) l) = countb f l) by by rewrite take_drop_middle.
  rewrite countb_app in E. simpl in E. lia.
Qed.

(** Values at their width. The hint database [machine] proves ranges: those of wrapped
    values, and those that are arithmetic. *)
Lemma wrap8_id z : is_u8 z -> wrap8 z = z.
Proof. apply Z.mod_small. Qed.
Lemma wrap16_id z : is_u16 z -> wrap16 z = z.
Proof. apply Z.mod_small. Qed.
Lemma wrap32_id z : is_u32 z -> wrap32 z = z.
Proof. apply Z.mod_small. Qed.
Lemma wrap64_id z : is_u64 z -> wrap64 z = z.
Proof. apply Z.mod_small. Qed.

Lemma wrap8_u8 z : is_u8 (wrap8 z).
Proof. by apply Z.mod_pos_bound. Qed.
Lemma wrap16_u16 z : is_u16 (wrap16 z).
Proof. by apply Z.mod_pos_bound. Qed.
Lemma wrap32_u32 z : is_u32 (wrap32 z).
Proof. by apply Z.mod_pos_bound. Qed.
Lemma wrap64_u64 z : is_u64 (wrap64 z).
Proof. by apply Z.mod_pos_bound. Qed.

Create HintDb machine.
#[export] Hint Resolve wrap8_u8 wrap16_u16 wrap32_u32 wrap64_u64 : machine.
#[export] Hint Extern 2 (is_u8 _) => unfold is_u8; lia : machine.
#[export] Hint Extern 2 (is_u16 _) => unfold is_u16; lia : machine.
#[export] Hint Extern 2 (is_u32 _) => unfold is_u32; lia : machine.
#[export] Hint Extern 2 (is_u64 _) => unfold is_u64; lia : machine.

Lemma alter_insert {A} (f : A -> A) (l : list A) i x :
  l !! i = Some x -> alter f i l = <[i := f x]> l.
Proof.
  intros Hx. rewrite list_insert_alter. apply list_alter_ext; [|done].
  intros y Hy. by simplify_eq.
Qed.

Lemma Forall2_insert_diag {A} (R : A -> A -> Prop) l i x y :
  Forall (fun z => R z z) l -> l !! i = Some x -> R x y -> Forall2 R l (<[i := y]> l).
Proof.
  intros Hd Hx Hr. rewrite <- (list_insert_id l i x Hx) at 1.
  apply Forall2_insert; [|done]. by apply Forall_Forall2_diag.
Qed.

Lemma take_elem {A} (l : list A) k x : x ∈ take k l -> x ∈ l.
Proof. intros Hx. rewrite <- (take_drop k l). apply elem_of_app. by left. Qed.

(** Rule induction on a run: a property every step keeps holds wherever the run
    leads. *)
Lemma rtc_invariant {A} (R : relation A) (P : A -> Prop) :
  (forall x y, R x y -> P x -> P y) -> forall x y, rtc R x y -> P x -> P y.
Proof. intros Hstep x y Hr. induction Hr; eauto. Qed.
