(* ===== verification/Ring.v ===== *)
(** * Ring buffers

    What a ring of a given capacity holds, and what writing and consuming it does: shared by
    pipes, TCP connections and the audio mixer. *)

From S2P Require Import Prelude.
Local Open Scope Z_scope.

(** What a ring of the given capacity holds: [n] elements from position [r] on. *)
Definition ring `{Inhabited A} (cap : nat) (b : list A) (r n : nat) : list A :=
  (fun k => b !!! ((r + k) `mod` cap)%nat) <$> seq 0 n.

Section Ring.
Context `{Inhabited A} (cap : nat) (Hcap : (0 < cap)%nat).
Implicit Types (b : list A) (x : A) (r n : nat).

Lemma ring_length b r n : length (ring cap b r n) = n.
Proof. unfold ring. by rewrite length_fmap, length_seq. Qed.

Lemma ring_snoc b r n :
  ring cap b r (S n) = ring cap b r n ++ [b !!! ((r + n) `mod` cap)%nat].
Proof. unfold ring. by rewrite seq_S, fmap_app. Qed.

Lemma ring_cons b r n :
  (r < cap)%nat ->
  ring cap b r (S n) = b !!! r :: ring cap b ((r + 1) `mod` cap) n.
Proof.
  intros Hr. unfold ring. simpl. f_equal.
  - rewrite Nat.add_0_r. by rewrite Nat.mod_small.
  - rewrite <- fmap_S_seq, <- list_fmap_compose. apply list_fmap_ext.
    intros i k _. simpl. f_equal.
    rewrite Nat.Div0.add_mod_idemp_l. f_equal. lia.
Qed.

(** Distinct offsets below the capacity are distinct cells. *)
Lemma ring_cells_ne r i j :
  (i < j)%nat -> (j < cap)%nat -> ((r + i) `mod` cap <> (r + j) `mod` cap)%nat.
Proof.
  intros Hij Hj Heq.
  pose proof (Nat.div_mod_eq (r + i) cap). pose proof (Nat.div_mod_eq (r + j) cap).
  assert ((r + j) / cap = (r + i) / cap \/ (r + j) / cap >= (r + i) / cap + 1)%nat
    as [E|E].
  { pose proof (Nat.Div0.div_le_mono (r + i) (r + j) cap). lia. }
  - rewrite E in *. lia.
  - nia.
Qed.

Lemma ring_update_outside b r n x :
  (n < cap)%nat -> length b = cap ->
  ring cap (<[((r + n) `mod` cap)%nat := x]> b) r n = ring cap b r n.
Proof.
  intros Hn Hb. unfold ring. apply list_fmap_ext. intros i k Hk.
  apply lookup_seq in Hk as [-> Hi]. simpl.
  apply list_lookup_total_insert_ne. symmetry. by apply ring_cells_ne.
Qed.

Lemma ring_push b r n x :
  (n < cap)%nat -> length b = cap ->
  ring cap (<[((r + n) `mod` cap)%nat := x]> b) r (S n) = ring cap b r n ++ [x].
Proof.
  intros Hn Hb. rewrite ring_snoc, ring_update_outside by done. f_equal.
  rewrite list_lookup_total_insert_eq; [done|].
  rewrite Hb. apply Nat.mod_upper_bound. lia.
Qed.

Lemma ring_drop b r n k :
  (r < cap)%nat -> (k <= n)%nat ->
  drop k (ring cap b r n) = ring cap b ((r + k) `mod` cap) (n - k).
Proof.
  revert r n. induction k as [|k IH]; intros r n Hr Hk.
  - rewrite Nat.add_0_r, Nat.mod_small, Nat.sub_0_r by lia. done.
  - destruct n as [|n]; [lia|]. rewrite ring_cons by done. simpl.
    rewrite IH by (try apply Nat.mod_upper_bound; lia).
    rewrite Nat.Div0.add_mod_idemp_l. f_equal. f_equal. lia.
Qed.

Lemma ring_take b r n k : (k <= n)%nat -> take k (ring cap b r n) = ring cap b r k.
Proof.
  intros Hk. unfold ring. rewrite <- fmap_take. f_equal.
  replace n with (k + (n - k))%nat by lia.
  rewrite seq_app. rewrite take_app_length'; [done|]. by rewrite length_seq.
Qed.
End Ring.
