(* ===== verification/Pipe.v ===== *)
(** * Kernel pipes: [src/kernel/rust/pipe.rs]

    The eight statically allocated ring buffers behind [SYS_PIPE], with the
    four exported operations.  The table [PIPES] is a [list Pipe]; a C caller's
    buffer pointer is an [option (list Z)] ([None] for the null pointer, the
    readable bytes otherwise), and the bytes a read stores through its pointer
    are returned beside the return code.  The abstract specification is a table
    of byte queues ([Chan]); the theorems show that the ring-buffer arithmetic
    implements it and that what comes out of a pipe is what went in. *)

From S2P Require Import Prelude Ring.
Local Open Scope Z_scope.

(** ** The data *)
Definition MAX_PIPES : nat := 8.
Definition PIPE_CAPACITY : nat := 1024.

Record Pipe : Type := mkPipe {
  buf : list Z;
  read_pos : nat;
  write_pos : nat;
  count : nat;
  in_use : bool;
  reader_open : bool;
  writer_open : bool;
}.

Definition Pipe_new : Pipe :=
  mkPipe (replicate PIPE_CAPACITY 0) 0 0 0 false false false.

Definition PIPES : list Pipe := replicate MAX_PIPES Pipe_new.

(** ** The operations *)

(** The scan of [rust_pipe_create] from slot [i] on. *)
Fixpoint create_scan (i : nat) (pipes : list Pipe) : Z * list Pipe :=
  match pipes with
  | [] => (-1, [])
  | p :: ps =>
      if negb (in_use p)
      then (Z.of_nat i, mkPipe (buf p) 0 0 0 true true true :: ps)
      else let '(r, ps') := create_scan (S i) ps in (r, p :: ps')
  end.

Definition rust_pipe_create (pipes : list Pipe) : Z * list Pipe :=
  create_scan 0 pipes.

(** [for slot in out.iter_mut()]: [n] bytes copied out, and the read position
    after them. *)
Fixpoint read_loop (n : nat) (b : list Z) (rp : nat) : outcome (list Z * nat) :=
  match n with
  | O => Done ([], rp)
  | S n' =>
      x ← index b rp;
      '(out, rp') ← read_loop n' b ((rp + 1) `mod` PIPE_CAPACITY)%nat;
      Done (x :: out, rp')
  end.

Definition rust_pipe_read (pipes : list Pipe) (id : Z) (buf_is_null : bool)
    (max_len : Z) : outcome (Z * list Z * list Pipe) :=
  if (id <? 0) || (MAX_PIPES <=? Z.to_nat id)%nat || buf_is_null
  then Done (-1, [], pipes)
  else
    p ← index pipes (Z.to_nat id);
    if negb (in_use p) then Done (-1, [], pipes)
    else if (count p =? 0)%nat
    then Done (if writer_open p then -2 else 0, [], pipes)
    else
      let to_copy := (Z.to_nat max_len `min` count p)%nat in
      '(out, rp) ← read_loop to_copy (buf p) (read_pos p);
      pipes' ← store pipes (Z.to_nat id)
                 (mkPipe (buf p) rp (write_pos p) (count p - to_copy)%nat
                         (in_use p) (reader_open p) (writer_open p));
      Done (Z.of_nat to_copy, out, pipes').

(** [for &byte in input.iter()]. *)
Fixpoint write_loop (input : list Z) (b : list Z) (wp : nat) :
    outcome (list Z * nat) :=
  match input with
  | [] => Done (b, wp)
  | byte :: rest =>
      b' ← store b wp byte;
      write_loop rest b' ((wp + 1) `mod` PIPE_CAPACITY)%nat
  end.

Definition rust_pipe_write (pipes : list Pipe) (id : Z) (src : option (list Z))
    (len : Z) : outcome (Z * list Pipe) :=
  match src with
  | None => Done (-1, pipes)
  | Some bytes =>
      if (id <? 0) || (MAX_PIPES <=? Z.to_nat id)%nat
      then Done (-1, pipes)
      else
        p ← index pipes (Z.to_nat id);
        if negb (in_use p) || negb (reader_open p) then Done (-1, pipes)
        else
          let space := (PIPE_CAPACITY - count p)%nat in
          let to_copy := (Z.to_nat len `min` space)%nat in
          '(b, wp) ← write_loop (take to_copy bytes) (buf p) (write_pos p);
          pipes' ← store pipes (Z.to_nat id)
                     (mkPipe b (read_pos p) wp (count p + to_copy)%nat
                             (in_use p) (reader_open p) (writer_open p));
          Done (Z.of_nat to_copy, pipes')
  end.

Definition rust_pipe_close (pipes : list Pipe) (id : Z) (is_read_end : Z) :
    outcome (list Pipe) :=
  if (id <? 0) || (MAX_PIPES <=? Z.to_nat id)%nat then Done pipes
  else
    p ← index pipes (Z.to_nat id);
    if negb (in_use p) then Done pipes
    else
      let r := if negb (is_read_end =? 0) then false else reader_open p in
      let w := if negb (is_read_end =? 0) then writer_open p else false in
      let u := if negb r && negb w then false else in_use p in
      store pipes (Z.to_nat id)
        (mkPipe (buf p) (read_pos p) (write_pos p) (count p) u r w).

(** ** The abstract specification: a table of byte queues *)

Record Chan : Type := mkChan {
  queue : list Z;
  rd_open : bool;
  wr_open : bool;
}.

(** A valid, allocated channel id. *)
Definition chan_at (cs : list (option Chan)) (id : Z) : option Chan :=
  if (id <? 0) then None else mjoin (cs !! Z.to_nat id).

Definition spec_create (cs : list (option Chan)) : Z * list (option Chan) :=
  match position (fun c => bool_decide (c = None)) cs with
  | Some i => (Z.of_nat i, <[i := Some (mkChan [] true true)]> cs)
  | None => (-1, cs)
  end.

Definition spec_read (cs : list (option Chan)) (id : Z) (null : bool)
    (max_len : Z) : Z * list Z * list (option Chan) :=
  match chan_at cs id with
  | Some c =>
      if null then (-1, [], cs)
      else match queue c with
      | [] => (if wr_open c then -2 else 0, [], cs)
      | q =>
          let n := Z.to_nat max_len in
          (Z.of_nat (length (take n q)), take n q,
           <[Z.to_nat id := Some (mkChan (drop n q) (rd_open c) (wr_open c))]> cs)
      end
  | None => (-1, [], cs)
  end.

Definition spec_write (cs : list (option Chan)) (id : Z) (bytes : list Z) :
    Z * list (option Chan) :=
  match chan_at cs id with
  | Some c =>
      if rd_open c then
        let accepted := take (PIPE_CAPACITY - length (queue c)) bytes in
        (Z.of_nat (length accepted),
         <[Z.to_nat id :=
             Some (mkChan (queue c ++ accepted) (rd_open c) (wr_open c))]> cs)
      else (-1, cs)
  | None => (-1, cs)
  end.

Definition spec_close (cs : list (option Chan)) (id : Z) (read_end : bool) :
    list (option Chan) :=
  match chan_at cs id with
  | Some c =>
      let r := if read_end then false else rd_open c in
      let w := if read_end then wr_open c else false in
      <[Z.to_nat id :=
          if r || w then Some (mkChan (queue c) r w) else None]> cs
  | None => cs
  end.

(** One call into the module, and what the caller observes of it: the return
    code and the bytes stored through its pointer. *)
Inductive call : Type :=
| Create
| Read (id : Z) (buf_is_null : bool) (max_len : Z)
| Write (id : Z) (src : option (list Z)) (len : Z)
| Close (id : Z) (is_read_end : Z).

Definition exec (c : call) (t : list Pipe) : outcome (Z * list Z * list Pipe) :=
  match c with
  | Create => let '(r, t') := rust_pipe_create t in Done (r, [], t')
  | Read id null n => rust_pipe_read t id null n
  | Write id src len => '(r, t') ← rust_pipe_write t id src len; Done (r, [], t')
  | Close id e => t' ← rust_pipe_close t id e; Done (0, [], t')
  end.

Definition spec_exec (c : call) (t : list (option Chan)) :
    Z * list Z * list (option Chan) :=
  match c with
  | Create => let '(r, t') := spec_create t in (r, [], t')
  | Read id null n => spec_read t id null n
  | Write id None _ => (-1, [], t)
  | Write id (Some bytes) _ => let '(r, t') := spec_write t id bytes in (r, [], t')
  | Close id e => (0, [], spec_close t id (negb (e =? 0)))
  end.

(** The C contract of a call: a non-null source buffer has the stated length. *)
Definition call_ok (c : call) : Prop :=
  match c with
  | Write _ (Some bytes) len => Z.of_nat (length bytes) = len
  | _ => True
  end.

(** The table together with what each slot's current pipe has accepted and
    delivered since it was created. *)
Record World : Type := mkWorld {
  tbl : list Pipe;
  sent : list (list Z);
  got : list (list Z);
}.

Definition World_init : World :=
  mkWorld PIPES (replicate MAX_PIPES []) (replicate MAX_PIPES []).

Definition log_call (c : call) (r : Z) (out : list Z) (w : World) (t' : list Pipe) :
    World :=
  match c with
  | Create =>
      if r <? 0 then mkWorld t' (sent w) (got w)
      else mkWorld t' (<[Z.to_nat r := []]> (sent w)) (<[Z.to_nat r := []]> (got w))
  | Read id _ _ =>
      if r <=? 0 then mkWorld t' (sent w) (got w)
      else mkWorld t' (sent w) (alter (fun g => g ++ out) (Z.to_nat id) (got w))
  | Write id (Some bytes) _ =>
      if r <=? 0 then mkWorld t' (sent w) (got w)
      else mkWorld t' (alter (fun g => g ++ take (Z.to_nat r) bytes) (Z.to_nat id) (sent w))
                   (got w)
  | _ => mkWorld t' (sent w) (got w)
  end.

Inductive pipe_step : World -> World -> Prop :=
| pipe_step_call c w r out t' :
    call_ok c -> exec c (tbl w) = Done (r, out, t') ->
    pipe_step w (log_call c r out w t').

(** The executable form of a step. *)
Definition run_call (w : World) (c : call) : World :=
  match exec c (tbl w) with
  | Done (r, out, t') => log_call c r out w t'
  | Panic => w
  end.

Definition contents (p : Pipe) : list Z :=
  ring PIPE_CAPACITY (buf p) (read_pos p) (count p).

(** The queue a ring buffer stands for; a free slot is no channel. *)
Definition abs_pipe (p : Pipe) : option Chan :=
  if in_use p then Some (mkChan (contents p) (reader_open p) (writer_open p))
  else None.

(** Well-formedness of one pipe and of the table. *)
Record pipe_wf (p : Pipe) : Prop := {
  wf_buf : length (buf p) = PIPE_CAPACITY;
  wf_read : (read_pos p < PIPE_CAPACITY)%nat;
  wf_count : (count p <= PIPE_CAPACITY)%nat;
  wf_write : write_pos p = ((read_pos p + count p) `mod` PIPE_CAPACITY)%nat;
  wf_open : in_use p = reader_open p || writer_open p;
}.

Definition table_wf (pipes : list Pipe) : Prop :=
  length pipes = MAX_PIPES /\ Forall pipe_wf pipes.

#[global] Opaque PIPE_CAPACITY MAX_PIPES.

(** ** Ring-buffer arithmetic *)

Lemma cap_pos : (0 < PIPE_CAPACITY)%nat.
Proof. with_strategy transparent [PIPE_CAPACITY] (unfold PIPE_CAPACITY; lia). Qed.

(** ** The copy loops *)

Lemma read_loop_spec n b rp :
  length b = PIPE_CAPACITY -> (rp < PIPE_CAPACITY)%nat ->
  read_loop n b rp =
    Done (ring PIPE_CAPACITY b rp n, ((rp + n) `mod` PIPE_CAPACITY)%nat).
Proof.
  intros Hb. revert rp. induction n as [|n IH]; intros rp Hrp.
  - simpl. rewrite Nat.add_0_r, Nat.mod_small by done. done.
  - simpl read_loop.
    destruct (lookup_lt_is_Some_2 b rp) as [x Hx]; [lia|].
    rewrite (proj2 (index_Done b rp x) Hx). simpl.
    rewrite IH by (apply Nat.mod_upper_bound; pose proof cap_pos; lia). simpl.
    rewrite (ring_cons PIPE_CAPACITY cap_pos) by done.
    rewrite (list_lookup_total_correct b rp x Hx).
    rewrite Nat.Div0.add_mod_idemp_l. do 3 f_equal. lia.
Qed.

Lemma write_loop_spec input b rp n :
  length b = PIPE_CAPACITY -> (n + length input <= PIPE_CAPACITY)%nat ->
  exists b',
    write_loop input b ((rp + n) `mod` PIPE_CAPACITY)%nat =
      Done (b', ((rp + (n + length input)) `mod` PIPE_CAPACITY)%nat) /\
    length b' = PIPE_CAPACITY /\
    ring PIPE_CAPACITY b' rp (n + length input) =
      ring PIPE_CAPACITY b rp n ++ input.
Proof.
  pose proof cap_pos as Hpos.
  revert b n. induction input as [|x input IH]; intros b n Hb Hn; simpl in Hn.
  - exists b. simpl. rewrite Nat.add_0_r, app_nil_r. done.
  - simpl write_loop. rewrite store_Done.
    2: { rewrite Hb. apply Nat.mod_upper_bound. lia. }
    simpl. rewrite Nat.Div0.add_mod_idemp_l.
    replace (rp + n + 1)%nat with (rp + S n)%nat by lia.
    destruct (IH (<[((rp + n) `mod` PIPE_CAPACITY)%nat := x]> b) (S n))
      as (b' & Hrun & Hlen & Hring).
    { by rewrite length_insert. }
    { lia. }
    exists b'. replace (n + S (length input))%nat with (S n + length input)%nat by lia.
    split; [done|]. split; [done|].
    rewrite Hring, (ring_push PIPE_CAPACITY Hpos) by (done || lia).
    by rewrite <- app_assoc.
Qed.

(** ** The table *)

Lemma abs_lookup (t : list Pipe) i p :
  t !! i = Some p -> (abs_pipe <$> t) !! i = Some (abs_pipe p).
Proof. intros H. by rewrite list_lookup_fmap, H. Qed.

Lemma chan_at_abs (t : list Pipe) id p :
  0 <= id -> t !! Z.to_nat id = Some p -> chan_at (abs_pipe <$> t) id = abs_pipe p.
Proof.
  intros Hid Hp. unfold chan_at. destruct (id <? 0) eqn:E; [lia|].
  by rewrite (abs_lookup _ _ _ Hp).
Qed.

Lemma chan_at_bad (t : list Pipe) id :
  length t = MAX_PIPES -> (id <? 0) || (MAX_PIPES <=? Z.to_nat id)%nat = true ->
  chan_at (abs_pipe <$> t) id = None.
Proof.
  intros Hlen Hbad. unfold chan_at. destruct (id <? 0); [done|]. simpl in Hbad.
  rewrite list_lookup_fmap, lookup_ge_None_2; [done|].
  apply Nat.leb_le in Hbad. lia.
Qed.

(** A valid id names a well-formed pipe of the table. *)
Lemma table_lookup t id :
  table_wf t -> (id <? 0) || (MAX_PIPES <=? Z.to_nat id)%nat = false ->
  exists p, t !! Z.to_nat id = Some p /\ pipe_wf p /\ 0 <= id /\
            (Z.to_nat id < length t)%nat.
Proof.
  intros [Hlen Hwf] Hid. apply orb_false_iff in Hid as [Hid1 Hid2].
  apply Nat.leb_gt in Hid2.
  destruct (lookup_lt_is_Some_2 t (Z.to_nat id)) as [p Hp]; [lia|].
  exists p. split; [done|]. split; [|lia].
  by eapply Forall_lookup_1.
Qed.

Lemma table_insert t i p :
  table_wf t -> pipe_wf p -> table_wf (<[i := p]> t).
Proof.
  intros [Hlen Hwf] Hp. split; [by rewrite length_insert|].
  by apply Forall_insert.
Qed.

Lemma abs_insert (t : list Pipe) i p :
  abs_pipe <$> <[i := p]> t = <[i := abs_pipe p]> (abs_pipe <$> t).
Proof. apply list_fmap_insert. Qed.

Lemma contents_length p : length (contents p) = count p.
Proof. apply ring_length. Qed.

(** [create_scan] takes the first free slot. *)
Lemma create_scan_spec i t :
  create_scan i t =
    match position (fun p => negb (in_use p)) t with
    | Some k =>
        (Z.of_nat (i + k),
         alter (fun p => mkPipe (buf p) 0 0 0 true true true) k t)
    | None => (-1, t)
    end.
Proof.
  revert i. induction t as [|p t IH]; intros i; simpl; [done|].
  destruct (in_use p); simpl.
  - rewrite IH. destruct (position _ t); simpl; [|done].
    f_equal. lia.
  - by rewrite Nat.add_0_r.
Qed.

Lemma position_free t :
  position (fun c => bool_decide (c = None)) (abs_pipe <$> t) =
  position (fun p => negb (in_use p)) t.
Proof.
  induction t as [|p t IH]; csimpl; [done|]. rewrite IH.
  unfold abs_pipe. by destruct (in_use p).
Qed.

Lemma fresh_wf p :
  pipe_wf p -> pipe_wf (mkPipe (buf p) 0 0 0 true true true).
Proof.
  intros [Hb _ _ _ _]. pose proof cap_pos.
  split; simpl; [done|done|lia|by rewrite Nat.mod_small|done].
Qed.

Lemma create_refines t :
  table_wf t ->
  table_wf (rust_pipe_create t).2 /\
  spec_create (abs_pipe <$> t) =
    ((rust_pipe_create t).1, abs_pipe <$> (rust_pipe_create t).2).
Proof.
  intros Hwf. unfold rust_pipe_create, spec_create.
  rewrite create_scan_spec, position_free.
  destruct (position _ t) as [k|] eqn:Hk; simpl; [|done].
  apply position_Some in Hk as (p & Hp & _).
  rewrite (alter_insert _ _ _ _ Hp). split.
  - apply table_insert; [done|]. apply fresh_wf.
    by eapply (Forall_lookup_1 _ _ _ _ (proj2 Hwf)).
  - by rewrite abs_insert.
Qed.

(** Updating a slot to a pipe that stands for [c]. *)
Lemma store_refines t i p c :
  table_wf t -> (i < length t)%nat -> pipe_wf p -> abs_pipe p = c ->
  store t i p = Done (<[i := p]> t) /\ table_wf (<[i := p]> t) /\
  abs_pipe <$> <[i := p]> t = <[i := c]> (abs_pipe <$> t).
Proof.
  intros Hwf Hi Hp <-. rewrite store_Done by done.
  split; [done|]. split; [by apply table_insert|apply abs_insert].
Qed.

Lemma read_refines t id null n :
  table_wf t ->
  exists r out t',
    rust_pipe_read t id null n = Done (r, out, t') /\ table_wf t' /\
    spec_read (abs_pipe <$> t) id null n = (r, out, abs_pipe <$> t').
Proof.
  intros Hwf. unfold rust_pipe_read, spec_read.
  destruct ((id <? 0) || (MAX_PIPES <=? Z.to_nat id)%nat) eqn:Hid; simpl.
  { rewrite (chan_at_bad _ _ (proj1 Hwf) Hid). by eexists _, _, _. }
  destruct (table_lookup _ _ Hwf Hid) as (p & Hp & Hpwf & Hid0 & Hlt).
  rewrite (chan_at_abs _ _ _ Hid0 Hp), (index_at Hp).
  unfold abs_pipe at 1. destruct null; simpl.
  { destruct (in_use p); by eexists _, _, _. }
  destruct (in_use p) eqn:Huse; simpl; [|by eexists _, _, _].
  destruct (count p) as [|m] eqn:Hc; simpl Nat.eqb; cbv iota.
  { unfold contents. rewrite Hc. simpl. by eexists _, _, _. }
  destruct Hpwf as [Hb Hr Hcnt Hw Ho].
  set (k := (Z.to_nat n `min` S m)%nat).
  rewrite (read_loop_spec _ _ _ Hb Hr). simpl.
  pose proof (contents_length p) as Hcl. rewrite Hc in Hcl.
  assert (Htake : take (Z.to_nat n) (contents p) =
                  ring PIPE_CAPACITY (buf p) (read_pos p) k).
  { rewrite <- (ring_take PIPE_CAPACITY cap_pos (buf p) (read_pos p) (count p) k) by lia.
    fold (contents p). unfold k. destruct (decide (Z.to_nat n <= S m)%nat).
    - by rewrite Nat.min_l.
    - rewrite !take_ge; [done|lia|lia]. }
  assert (Hdrop : drop (Z.to_nat n) (contents p) =
    ring PIPE_CAPACITY (buf p) ((read_pos p + k) `mod` PIPE_CAPACITY) (S m - k)).
  { rewrite <- Hc, <- (ring_drop PIPE_CAPACITY cap_pos) by lia.
    fold (contents p). unfold k. destruct (decide (Z.to_nat n <= S m)%nat).
    - by rewrite Nat.min_l.
    - rewrite !drop_ge; [done|lia|lia]. }
  set (p' := mkPipe _ _ _ _ _ _ _).
  destruct (store_refines t (Z.to_nat id) p'
    (Some (mkChan (drop (Z.to_nat n) (contents p)) (reader_open p) (writer_open p))))
    as (-> & Hwf' & Habs); [done|done| | |].
  - pose proof cap_pos. split; simpl; [done| |lia| |congruence].
    + apply Nat.mod_upper_bound. lia.
    + rewrite Hw, Nat.Div0.add_mod_idemp_l. f_equal. lia.
  - unfold abs_pipe, contents, p'. simpl. by rewrite <- Hdrop.
  - simpl. eexists _, _, _. split; [done|]. split; [done|].
    rewrite Habs. destruct (contents p) eqn:Hq; [simpl in Hcl; lia|].
    rewrite <- Htake, length_take, Hcl. done.
Qed.

Lemma write_refines t id src len :
  table_wf t -> call_ok (Write id src len) ->
  exists r t',
    rust_pipe_write t id src len = Done (r, t') /\ table_wf t' /\
    spec_exec (Write id src len) (abs_pipe <$> t) = (r, [], abs_pipe <$> t').
Proof.
  intros Hwf Hok. destruct src as [bytes|]; simpl in *; [|by eexists _, _].
  unfold spec_write.
  destruct ((id <? 0) || (MAX_PIPES <=? Z.to_nat id)%nat) eqn:Hid; simpl.
  { rewrite (chan_at_bad _ _ (proj1 Hwf) Hid). by eexists _, _. }
  destruct (table_lookup _ _ Hwf Hid) as (p & Hp & Hpwf & Hid0 & Hlt).
  rewrite (chan_at_abs _ _ _ Hid0 Hp), (index_at Hp).
  unfold abs_pipe at 1. simpl.
  destruct (in_use p) eqn:Huse; simpl; [|by eexists _, _].
  destruct (reader_open p) eqn:Hrd; simpl; [|by eexists _, _].
  destruct Hpwf as [Hb Hr Hcnt Hw Ho]. rewrite contents_length.
  set (acc := take (PIPE_CAPACITY - count p) bytes).
  replace (Z.to_nat len `min` (PIPE_CAPACITY - count p))%nat with (length acc).
  2: { unfold acc. rewrite length_take. lia. }
  replace (take (length acc) bytes) with acc.
  2: { unfold acc at 2. rewrite length_take. unfold acc.
       destruct (decide (PIPE_CAPACITY - count p <= length bytes)%nat).
       - by rewrite Nat.min_l.
       - rewrite !take_ge; [done|lia|lia]. }
  destruct (write_loop_spec acc (buf p) (read_pos p) (count p) Hb)
    as (b' & Hrun & Hblen & Hring).
  { unfold acc. rewrite length_take. lia. }
  rewrite Hw, Hrun. simpl.
  set (p' := mkPipe _ _ _ _ _ _ _).
  destruct (store_refines t (Z.to_nat id) p'
    (Some (mkChan (contents p ++ acc) true (writer_open p))))
    as (-> & Hwf' & Habs); [done|done| | |].
  - split; simpl; [done|done| |done|done].
    unfold acc. rewrite length_take. lia.
  - unfold abs_pipe, contents, p'. simpl. by rewrite Hring.
  - simpl. eexists _, _. by rewrite Habs.
Qed.

Lemma close_refines t id e :
  table_wf t ->
  exists t',
    rust_pipe_close t id e = Done t' /\ table_wf t' /\
    spec_close (abs_pipe <$> t) id (negb (e =? 0)) = abs_pipe <$> t'.
Proof.
  intros Hwf. unfold rust_pipe_close, spec_close.
  destruct ((id <? 0) || (MAX_PIPES <=? Z.to_nat id)%nat) eqn:Hid; simpl.
  { rewrite (chan_at_bad _ _ (proj1 Hwf) Hid). by eexists. }
  destruct (table_lookup _ _ Hwf Hid) as (p & Hp & Hpwf & Hid0 & Hlt).
  rewrite (chan_at_abs _ _ _ Hid0 Hp), (index_at Hp).
  unfold abs_pipe at 1. simpl.
  destruct (in_use p) eqn:Huse; simpl; [|by eexists].
  set (r := if negb (e =? 0) then false else reader_open p).
  set (w := if negb (e =? 0) then writer_open p else false).
  set (p' := mkPipe _ _ _ _ _ _ _).
  destruct (store_refines t (Z.to_nat id) p'
    (if r || w then Some (mkChan (contents p) r w) else None))
    as (-> & Hwf' & Habs); [done|done| | |].
  - destruct Hpwf as [Hb Hr Hcnt Hw Ho]. split; simpl; try done.
    by destruct r, w.
  - unfold abs_pipe, contents, p'. simpl. by destruct r, w.
  - eexists. split; [done|]. split; [done|]. by rewrite Habs.
Qed.

(** C7: Every call into [pipe.rs] on a well-formed table returns without an
    out-of-range index, leaves the table well-formed, and returns the code, the
    bytes and the new table of the byte-queue specification: a read takes the
    oldest bytes and separates end-of-stream from would-block, a write appends
    what fits or refuses when no reader is left, create takes the first free
    slot, close frees a slot when its second end goes. *)
Theorem pipe_refines_queues (c : call) (t : list Pipe) :
  table_wf t -> call_ok c ->
  exists r out t',
    exec c t = Done (r, out, t') /\ table_wf t' /\
    spec_exec c (abs_pipe <$> t) = (r, out, abs_pipe <$> t').
Proof.
  intros Hwf Hok. destruct c as [|id null n|id src len|id e]; simpl exec.
  - destruct (create_refines t Hwf) as [Hwf' Hspec]. simpl. rewrite Hspec.
    destruct (rust_pipe_create t) as [r t']. by eexists _, _, _.
  - by apply read_refines.
  - destruct (write_refines t id src len Hwf Hok) as (r & t' & -> & Hwf' & Hspec).
    by eexists _, _, _.
  - destruct (close_refines t id e Hwf) as (t' & -> & Hwf' & Hspec). simpl.
    rewrite Hspec. by eexists _, _, _.
Qed.

Lemma init_wf : table_wf PIPES.
Proof.
  split; [apply length_replicate|]. apply Forall_replicate. pose proof cap_pos.
  split; simpl; [apply length_replicate|done|lia|by rewrite Nat.mod_small|done].
Qed.

Lemma pipe_refines_queues_witness :
  exists r out t',
    exec (Write 0 (Some [1; 2; 3]) 3) (rust_pipe_create PIPES).2 = Done (r, out, t') /\
    table_wf t' /\
    spec_exec (Write 0 (Some [1; 2; 3]) 3) (abs_pipe <$> (rust_pipe_create PIPES).2) =
      (r, out, abs_pipe <$> t').
Proof.
  apply pipe_refines_queues; [|reflexivity].
  apply create_refines, init_wf.
Defined.

(** ** Histories *)

(** What a slot's pipe accepted is what it delivered followed by what it still
    holds. *)
Definition stream_ok (cs : list (option Chan)) (snt rcv : list (list Z)) : Prop :=
  length snt = length cs /\ length rcv = length cs /\
  forall i c s g, cs !! i = Some (Some c) -> snt !! i = Some s -> rcv !! i = Some g ->
    s = g ++ queue c.

Lemma stream_update cs snt rcv i c c' :
  stream_ok cs snt rcv -> cs !! i = Some (Some c) -> queue c' = queue c ->
  stream_ok (<[i := Some c']> cs) snt rcv.
Proof.
  intros (Hs & Hg & Hq) Hc Heq. split; [by rewrite length_insert|].
  split; [by rewrite length_insert|]. intros j d s g Hd Hsj Hgj.
  apply list_lookup_insert_Some in Hd as [(<- & [= <-] & _)|(Hne & Hd)].
  - rewrite Heq. by eapply Hq.
  - by eapply Hq.
Qed.

Lemma stream_free cs snt rcv i :
  stream_ok cs snt rcv -> stream_ok (<[i := None]> cs) snt rcv.
Proof.
  intros (Hs & Hg & Hq). split; [by rewrite length_insert|].
  split; [by rewrite length_insert|]. intros j d s g Hd Hsj Hgj.
  apply list_lookup_insert_Some in Hd as [(_ & [=] & _)|(Hne & Hd)].
  by eapply Hq.
Qed.

Lemma stream_new cs snt rcv i b :
  stream_ok cs snt rcv -> b.(queue) = [] ->
  stream_ok (<[i := Some b]> cs) (<[i := []]> snt) (<[i := []]> rcv).
Proof.
  intros (Hs & Hg & Hq) Hb. split; [by rewrite !length_insert|].
  split; [by rewrite !length_insert|]. intros j d s g Hd Hsj Hgj.
  apply list_lookup_insert_Some in Hd as [(<- & [= <-] & _)|(Hne & Hd)].
  - apply list_lookup_insert_Some in Hsj as [(_ & <- & _)|(? & _)]; [|done].
    apply list_lookup_insert_Some in Hgj as [(_ & <- & _)|(? & _)]; [|done].
    by rewrite Hb.
  - rewrite list_lookup_insert_ne in Hsj by done.
    rewrite list_lookup_insert_ne in Hgj by done. by eapply Hq.
Qed.

(** Data leaving and entering the queue of slot [i]. *)
Lemma stream_take cs snt rcv i c k r w :
  stream_ok cs snt rcv -> cs !! i = Some (Some c) ->
  stream_ok (<[i := Some (mkChan (drop k (queue c)) r w)]> cs) snt
            (alter (fun g => g ++ take k (queue c)) i rcv).
Proof.
  intros (Hs & Hg & Hq) Hc. split; [by rewrite length_insert|].
  split; [by rewrite length_alter, length_insert|]. intros j d s g Hd Hsj Hgj.
  apply list_lookup_insert_Some in Hd as [(<- & [= <-] & _)|(Hne & Hd)].
  - rewrite list_lookup_alter_eq in Hgj. apply fmap_Some in Hgj as (g0 & Hg0 & ->).
    simpl. rewrite <- app_assoc, take_drop. by eapply Hq.
  - rewrite list_lookup_alter_ne in Hgj by done. by eapply Hq.
Qed.

Lemma stream_put cs snt rcv i c bytes r w :
  stream_ok cs snt rcv -> cs !! i = Some (Some c) ->
  stream_ok (<[i := Some (mkChan (queue c ++ bytes) r w)]> cs)
            (alter (fun s => s ++ bytes) i snt) rcv.
Proof.
  intros (Hs & Hg & Hq) Hc. split; [by rewrite length_alter, length_insert|].
  split; [by rewrite length_insert|]. intros j d s g Hd Hsj Hgj.
  apply list_lookup_insert_Some in Hd as [(<- & [= <-] & _)|(Hne & Hd)].
  - rewrite list_lookup_alter_eq in Hsj. apply fmap_Some in Hsj as (s0 & Hs0 & ->).
    simpl. rewrite app_assoc. f_equal. by eapply Hq.
  - rewrite list_lookup_alter_ne in Hsj by done. by eapply Hq.
Qed.

Lemma chan_at_Some cs id c :
  chan_at cs id = Some c -> cs !! Z.to_nat id = Some (Some c).
Proof.
  unfold chan_at. destruct (id <? 0); [done|].
  by destruct (cs !! Z.to_nat id) as [[?|]|]; intros [= ->].
Qed.

Lemma tbl_log_call c r out w t' : tbl (log_call c r out w t') = t'.
Proof. destruct c as [| |? [?|] ?|]; simpl; try destruct (_ <? _); by try destruct (_ <=? _). Qed.

(** The specification keeps histories and queues in step. *)
Lemma spec_stream c w r out t' :
  call_ok c -> stream_ok (abs_pipe <$> tbl w) (sent w) (got w) ->
  spec_exec c (abs_pipe <$> tbl w) = (r, out, abs_pipe <$> t') ->
  let w' := log_call c r out w t' in
  stream_ok (abs_pipe <$> tbl w') (sent w') (got w').
Proof.
  intros Hok Hst. simpl. rewrite tbl_log_call.
  destruct c as [|id null n|id [bytes|] len|id e]; simpl in *.
  - unfold spec_create. destruct (position _ _) as [i|]; intros [= <- <- <-].
    + destruct (Z.of_nat i <? 0) eqn:E; [lia|]. simpl. rewrite Nat2Z.id.
      by apply stream_new.
    + done.
  - unfold spec_read.
    destruct (chan_at _ id) as [c|] eqn:Hc; [|by intros [= <- <- <-]].
    apply chan_at_Some in Hc.
    destruct null; [by intros [= <- <- <-]|].
    destruct (queue c) as [|b q] eqn:Hq.
    { destruct (wr_open c); by intros [= <- <- <-]. }
    rewrite <- Hq. intros [= <- <- <-].
    destruct (_ <=? 0) eqn:E; simpl; [|by apply stream_take].
    replace (drop (Z.to_nat n) (queue c)) with (queue c); [by eapply stream_update|].
    rewrite length_take, Hq in E. simpl in E.
    replace (Z.to_nat n) with 0%nat by lia. done.
  - unfold spec_write.
    destruct (chan_at _ id) as [c|] eqn:Hc; [|by intros [= <- <- <-]].
    apply chan_at_Some in Hc.
    destruct (rd_open c); [|by intros [= <- <- <-]].
    intros [= <- <- <-]. set (acc := take _ bytes).
    destruct (_ <=? 0) eqn:E; simpl.
    + replace (queue c ++ acc) with (queue c); [by eapply stream_update|].
      destruct acc; [by rewrite app_nil_r|simpl in E; lia].
    + rewrite Nat2Z.id. replace (take (length acc) bytes) with acc.
      * by apply stream_put.
      * unfold acc. rewrite length_take.
        destruct (decide (PIPE_CAPACITY - length (queue c) <= length bytes)%nat).
        -- by rewrite Nat.min_l.
        -- rewrite !take_ge; [done|lia|lia].
  - by intros [= <- <- <-].
  - intros [= <- <- <-]. unfold spec_close.
    destruct (chan_at _ id) as [c|] eqn:Hc; [|done].
    apply chan_at_Some in Hc.
    destruct (_ || _); [by eapply stream_update|by apply stream_free].
Qed.

Lemma step_preserves w w' :
  pipe_step w w' ->
  table_wf (tbl w) -> stream_ok (abs_pipe <$> tbl w) (sent w) (got w) ->
  table_wf (tbl w') /\ stream_ok (abs_pipe <$> tbl w') (sent w') (got w').
Proof.
  intros [c w0 r out t' Hok Hrun] Hwf Hst.
  assert (table_wf t' /\ spec_exec c (abs_pipe <$> tbl w0) = (r, out, abs_pipe <$> t'))
    as [Hwf' Hspec].
  { destruct c as [|id null n|id src len|id e]; simpl exec in Hrun.
    - destruct (create_refines _ Hwf) as [Hwf' Hspec]. simpl. rewrite Hspec.
      destruct (rust_pipe_create (tbl w0)). by simplify_eq/=.
    - destruct (read_refines _ id null n Hwf) as (? & ? & ? & Hr & ? & ?).
      rewrite Hr in Hrun. by simplify_eq/=.
    - destruct (write_refines _ id src len Hwf Hok) as (? & ? & Hr & ? & ?).
      rewrite Hr in Hrun. by simplify_eq/=.
    - destruct (close_refines _ id e Hwf) as (? & Hr & ? & Hsp).
      rewrite Hr in Hrun. simplify_eq/=. by rewrite Hsp. }
  split; [by rewrite tbl_log_call|]. by apply spec_stream.
Qed.

Lemma run_call_step w c :
  call_ok c -> (if exec c (tbl w) is Done _ then true else false) = true ->
  pipe_step w (run_call w c).
Proof.
  intros Hok Hd. unfold run_call.
  destruct (exec c (tbl w)) as [[[r out] t']|] eqn:Hx; [|done].
  by apply pipe_step_call.
Qed.

(** C33: Stream integrity.  After any sequence of create, read, write and close
    calls from boot, the bytes an open pipe has accepted since it was created are
    exactly the bytes it has delivered, in order, followed by the bytes it still
    holds: nothing is lost, duplicated, reordered or leaked from another pipe or
    from the slot's previous use. *)
Theorem pipe_stream_integrity (w : World) :
  rtc pipe_step World_init w ->
  forall i p s g,
    tbl w !! i = Some p -> in_use p = true ->
    sent w !! i = Some s -> got w !! i = Some g ->
    s = g ++ contents p.
Proof.
  intros Hsteps.
  assert (table_wf (tbl w) /\ stream_ok (abs_pipe <$> tbl w) (sent w) (got w))
    as [_ (_ & _ & Hq)].
  { apply (rtc_invariant pipe_step (fun w => table_wf (tbl w) /\
        stream_ok (abs_pipe <$> tbl w) (sent w) (got w))
      ltac:(intros ? ? Hs [? ?]; by eapply step_preserves) _ _ Hsteps).
    split; [apply init_wf|]. split; [|split].
    - simpl. unfold PIPES. by rewrite length_fmap, !length_replicate.
    - simpl. unfold PIPES. by rewrite length_fmap, !length_replicate.
    - intros i c s g Hc _ _. simpl in Hc. unfold PIPES in Hc.
      rewrite fmap_replicate in Hc. apply lookup_replicate_1 in Hc as [Hc _]. done. }
  intros i p s g Hp Huse Hs Hg.
  assert (Habs : (abs_pipe <$> tbl w) !! i =
      Some (Some (mkChan (contents p) (reader_open p) (writer_open p)))).
  { rewrite (abs_lookup _ _ _ Hp). unfold abs_pipe. by rewrite Huse. }
  exact (Hq i _ s g Habs Hs Hg).
Qed.

(** A create, a three-byte write and a two-byte read from boot. *)
Definition demo_world : World :=
  run_call (run_call (run_call World_init Create) (Write 0 (Some [1; 2; 3]) 3))
    (Read 0 false 2).

Lemma pipe_stream_integrity_witness :
  sent demo_world !! 0%nat = Some [1; 2; 3] /\
  got demo_world !! 0%nat = Some [1; 2] /\
  exists p, tbl demo_world !! 0%nat = Some p /\ [1; 2; 3] = [1; 2] ++ contents p.
Proof.
  split; [vm_compute; reflexivity|]. split; [vm_compute; reflexivity|].
  destruct (tbl demo_world !! 0%nat) as [p|] eqn:Hp.
  2: { vm_compute in Hp. discriminate. }
  exists p. split; [reflexivity|].
  apply (pipe_stream_integrity demo_world) with (i := 0%nat).
  - apply (rtc_l _ _ (run_call World_init Create)).
    { apply run_call_step; [exact I|vm_compute; reflexivity]. }
    apply (rtc_l _ _ (run_call (run_call World_init Create) (Write 0 (Some [1; 2; 3]) 3))).
    { apply run_call_step; [reflexivity|vm_compute; reflexivity]. }
    apply rtc_once. apply run_call_step; [exact I|vm_compute; reflexivity].
  - exact Hp.
  - assert (Hu : in_use <$> tbl demo_world !! 0%nat = Some true)
      by (vm_compute; reflexivity).
    rewrite Hp in Hu. by injection Hu.
  - vm_compute. reflexivity.
  - vm_compute. reflexivity.
Defined.
