(* ===== verification/Bytes.v ===== *)
(** * Bytes and text

    Byte strings as the Rust sources write them, the [core] functions on slices the
    parsers use, and a monad for code that can fail or panic. *)

From Stdlib Require Ascii.
From S2P Require Import Prelude.
From stdpp Require Export strings.
Local Open Scope Z_scope.

(** ** Literals *)

(** [b"..."]. *)
Definition str (s : string) : list Z :=
  (fun a => Z.of_N (Ascii.N_of_ascii a)) <$> String.list_ascii_of_string s.

(** [b'c']. *)
Definition chr (s : string) : Z := default 0 (head (str s)).

Definition is_ascii_digit (b : Z) : bool := (48 <=? b) && (b <=? 57).
Definition is_ascii_uppercase (b : Z) : bool := (65 <=? b) && (b <=? 90).
Definition is_ascii_lowercase (b : Z) : bool := (97 <=? b) && (b <=? 122).
Definition is_ascii_alphanumeric (b : Z) : bool :=
  is_ascii_digit b || is_ascii_uppercase b || is_ascii_lowercase b.

(** ** Slices *)

(** [split(f)]: the pieces between the elements that satisfy [f], at least one. *)
Fixpoint split_on {A} (f : A -> bool) (l : list A) : list (list A) :=
  match l with
  | [] => [[]]
  | x :: l' =>
      if f x then [] :: split_on f l'
      else match split_on f l' with
           | [] => [[x]]
           | piece :: pieces => (x :: piece) :: pieces
           end
  end.

(** [iter().rposition(f)]: the last index whose element satisfies [f]. *)
Fixpoint rposition {A} (f : A -> bool) (l : list A) : option nat :=
  match l with
  | [] => None
  | x :: l' =>
      match rposition f l' with
      | Some i => Some (S i)
      | None => if f x then Some 0%nat else None
      end
  end.

(** [while pos < l.len() && f(l[pos]) { pos += 1 }], for at most [n] steps. *)
Fixpoint skip_while {A} (f : A -> bool) (n : nat) (l : list A) (pos : nat) : nat :=
  match n with
  | O => pos
  | S n' =>
      match l !! pos with
      | Some x => if f x then skip_while f n' l (S pos) else pos
      | None => pos
      end
  end.

(** [split_last()]. *)
Definition split_last {A} (l : list A) : option (A * list A) :=
  match last l with
  | Some x => Some (x, take (length l - 1) l)
  | None => None
  end.

(** [&l[..n]]. *)
Definition slice_to {A} (l : list A) (n : nat) : outcome (list A) :=
  if (n <=? length l)%nat then Done (take n l) else Panic.

(** [dst[..src.len()].copy_from_slice(src)]. *)
Definition copy_prefix {A} (dst src : list A) : outcome (list A) :=
  if (length src <=? length dst)%nat then Done (src ++ drop (length src) dst) else Panic.

(** [&l[a..b]]. *)
Definition range {A} (l : list A) (a b : nat) : outcome (list A) :=
  if (a <=? b)%nat && (b <=? length l)%nat then Done (take (b - a) (drop a l)) else Panic.

(** [dst[off..off + src.len()].copy_from_slice(src)]. *)
Definition write_at {A} (dst : list A) (off : nat) (src : list A) : outcome (list A) :=
  if (off + length src <=? length dst)%nat
  then Done (take off dst ++ src ++ drop (off + length src) dst)
  else Panic.

(** [assert!(c)], followed by the rest. *)
Definition assert (c : bool) : outcome unit := if c then Done tt else Panic.

(** [to_be_bytes()] and [to_le_bytes()]: the [n] bytes of a word. *)
Fixpoint be_bytes (n : nat) (v : Z) : list Z :=
  match n with
  | O => []
  | S n' => wrap8 (Z.shiftr v (8 * Z.of_nat n')) :: be_bytes n' v
  end.

Fixpoint le_bytes (n : nat) (v : Z) : list Z :=
  match n with
  | O => []
  | S n' => wrap8 v :: le_bytes n' (Z.shiftr v 8)
  end.

(** [from_le_bytes()]. *)
Fixpoint of_le_bytes (l : list Z) : Z :=
  match l with
  | [] => 0
  | b :: l' => b + 256 * of_le_bytes l'
  end.

(** ** Computations that return, fail or panic *)

Inductive comp (E A : Type) : Type :=
| Ret (a : A)
| Throw (e : E)
| Crash.
Arguments Ret {E A} a.
Arguments Throw {E A} e.
Arguments Crash {E A}.

#[global] Instance comp_ret E : MRet (comp E) := @Ret E.
#[global] Instance comp_bind E : MBind (comp E) :=
  fun A B f m => match m with Ret a => f a | Throw e => Throw e | Crash => Crash end.

(** Array accesses inside such a computation. *)
Definition lift {E A} (m : outcome A) : comp E A :=
  match m with Done a => Ret a | Panic => Crash end.

(** [ok_or(e)?]. *)
Definition ok_or {E A} (o : option A) (e : E) : comp E A :=
  match o with Some a => Ret a | None => Throw e end.

Ltac csteps := cbn [mbind comp_bind mret comp_ret lift ok_or negb andb orb].

(** ** Lemmas *)

Lemma comp_bind_Ret {E A B} (f : A -> comp E B) m b :
  m ≫= f = Ret b <-> exists a, m = Ret a /\ f a = Ret b.
Proof.
  destruct m as [a|e|]; simpl; split.
  - intros H. by exists a.
  - by intros (? & [= ->] & ?).
  - intros H. inversion H.
  - by intros (? & [=] & ?).
  - intros H. inversion H.
  - by intros (? & [=] & ?).
Qed.

Lemma slice_to_Done {A} (l : list A) n : (n <= length l)%nat -> slice_to l n = Done (take n l).
Proof. intros H. unfold slice_to. by replace (n <=? length l)%nat with true by lia. Qed.

Lemma copy_prefix_Done {A} (dst src : list A) :
  (length src <= length dst)%nat -> copy_prefix dst src = Done (src ++ drop (length src) dst).
Proof. intros H. unfold copy_prefix. by replace (length src <=? length dst)%nat with true by lia. Qed.

(** Where [skip_while] stops: everything passed satisfies [f], the next element does not. *)
Lemma skip_while_spec {A} (f : A -> bool) n l pos :
  (pos <= length l <= pos + n)%nat ->
  let q := skip_while f n l pos in
  (pos <= q <= length l)%nat /\ Forall (fun x => f x = true) (take (q - pos) (drop pos l)) /\
  (forall x, l !! q = Some x -> f x = false).
Proof.
  revert pos. induction n as [|n IH]; intros pos Hl; simpl.
  { rewrite Nat.sub_diag. split; [lia|]. split; [done|]. intros x Hx%lookup_lt_Some. lia. }
  assert (Hstop : (pos <= pos <= length l)%nat /\ Forall (fun x => f x = true) (take (pos - pos) (drop pos l)))
    by (rewrite Nat.sub_diag; split; [lia|done]).
  destruct (l !! pos) as [x|] eqn:Hx; [destruct (f x) eqn:Hf|].
  - apply lookup_lt_Some in Hx as Hlt. destruct (IH (S pos)) as (Hq & Hall & Hend); [lia|].
    split; [lia|]. split; [|done]. rewrite (drop_S _ _ _ Hx).
    replace (skip_while f n l (S pos) - pos)%nat with (S (skip_while f n l (S pos) - S pos)) by lia.
    simpl. by constructor.
  - destruct Hstop. split; [done|]. split; [done|]. intros y Hy. congruence.
  - destruct Hstop. split; [done|]. split; [done|]. intros y Hy. congruence.
Qed.

Lemma le_bytes_length n v : length (le_bytes n v) = n.
Proof. revert v. induction n as [|n IH]; intros v; simpl; [done|]. by rewrite IH. Qed.

Lemma of_le_bytes_le_bytes n v : 0 <= v < 256 ^ Z.of_nat n -> of_le_bytes (le_bytes n v) = v.
Proof.
  revert v. induction n as [|n IH]; intros v Hv.
  { simpl in *. lia. }
  cbn [le_bytes of_le_bytes]. rewrite Z.shiftr_div_pow2 by lia. change (2 ^ 8) with 256.
  rewrite Nat2Z.inj_succ, Z.pow_succ_r in Hv by lia. rewrite IH.
  - unfold wrap8. pose proof (Z.div_mod v 256). lia.
  - split; [apply Z.div_pos; lia|]. apply Z.div_lt_upper_bound; lia.
Qed.

Lemma of_le_bytes_u32 l : Forall is_u8 l -> length l = 4%nat -> is_u32 (of_le_bytes l).
Proof.
  intros Hl Hn. do 4 (destruct l as [|? l]; [done|]). destruct l; [|done].
  repeat (apply Forall_cons in Hl as [? Hl]). unfold is_u8, is_u32 in *. simpl. lia.
Qed.

Lemma bytes_check l : forallb (fun b => (0 <=? b) && (b <? 256)) l = true -> Forall is_u8 l.
Proof.
  intros H. apply Forall_forall. intros x Hx. apply list_elem_of_In in Hx.
  apply (proj1 (forallb_forall _ _) H) in Hx. unfold is_u8. lia.
Qed.
