(* ===== verification/Mac.v ===== *)
(** * Mandatory access control: [kernel/rust/mac.rs]

    Profiles, the pattern matcher, the profile parser, the profile table, the
    evaluation of a stack of profiles, and the kernel entry points. A byte is an
    integer from 0 to 255; a fixed-size array is a list of that length, an index or a
    slice out of range panics. *)

From S2P Require Import Prelude Bytes.
Local Open Scope Z_scope.
Local Open Scope machine_scope.

Definition MAX_PROFILES : nat := 32.
Definition MAX_STACK : nat := 4.
Definition MAX_FILE_RULES : nat := 16.
Definition MAX_NET_RULES : nat := 8.
Definition MAX_EXEC_RULES : nat := 8.
Definition NAME_LEN : nat := 16.
Definition PAT_LEN : nat := 24.
Definition MAX_PROFILE_TEXT : nat := 4096.
Definition MAX_LINE : nat := 256.
Definition SYSCALL_LIMIT : Z := 128.
Definition AUDIT_LEN : nat := 16.

#[global] Arguments MAX_PROFILES : simpl never.
#[global] Arguments MAX_STACK : simpl never.
#[global] Arguments MAX_FILE_RULES : simpl never.
#[global] Arguments MAX_NET_RULES : simpl never.
#[global] Arguments MAX_EXEC_RULES : simpl never.
#[global] Arguments NAME_LEN : simpl never.
#[global] Arguments PAT_LEN : simpl never.
#[global] Arguments MAX_PROFILE_TEXT : simpl never.
#[global] Arguments MAX_LINE : simpl never.
#[global] Arguments AUDIT_LEN : simpl never.

Definition EPERM : Z := 1.
Definition ENOENT : Z := 2.
Definition E2BIG : Z := 7.
Definition EINVAL : Z := 22.
Definition ENOSPC : Z := 28.

Definition FILE_READ : Z := 1.
Definition FILE_WRITE : Z := 2.
Definition FILE_DELETE : Z := 4.
Definition NET_CONNECT : Z := 1.
Definition NET_BIND : Z := 2.
Definition NET_SEND : Z := 4.

Definition KIND_SYSCALL : Z := 1.
Definition KIND_FILE : Z := 2.
Definition KIND_NET : Z := 3.
Definition KIND_EXEC : Z := 4.

Definition DENIER_INVALID : Z := 255.

Definition SYS_EXIT : Z := 2.
Definition SYS_MAC_INFO : Z := 71.

Definition SYSCALL_NAMES : list (list Z) :=
  [] :: (str <$> [
    "write"; "exit"; "yield"; "open"; "read"; "close"; "net_send"; "spawn"; "exec";
    "wait"; "sbrk"; "fork"; "read_key"; "list_files"; "rtc_read"; "lspci"; "beep";
    "write_file"; "delete_file"; "gfx_enter"; "gfx_exit"; "gfx_put_pixel";
    "gfx_fill_rect"; "mouse_read"; "ping_start"; "ping_poll"; "pipe"; "write_handle";
    "login"; "getuid"; "sudo"; "shutdown"; "socket"; "bind"; "listen"; "accept";
    "connect"; "exec_trusted"; "dns_resolve"; "tftp_fetch"; "wait_nonblock";
    "exec_env"; "exec_trusted_env"; "socket_udp"; "sendto"; "recvfrom"; "fb_info";
    "fb_acquire"; "fb_release"; "fb_create"; "fb_destroy"; "fb_present";
    "fb_readback"; "shm_create"; "shm_grant"; "shm_map"; "shm_unmap"; "shm_destroy";
    "shm_info"; "msg_open"; "msg_close"; "msg_send"; "msg_recv"; "msg_service";
    "msg_ctl"; "audio_open"; "audio_write"; "audio_ctl"; "audio_close"; "rlimit";
    "mac_info"; "mac_ctl"; "fw_info"; "fw_ctl"]%string).

(** ** Pattern matching *)

(** ASCII upper case. *)
Definition fold (b : Z) : Z := if is_ascii_lowercase b then b - 32 else b.

Definition STAR : Z := chr "*".
Definition QUERY : Z := chr "?".

(** The first [while] of [glob_match]: [star] is [None] where the source has
    [usize::MAX]; the result is [None] where the source returns [false], the final [p]
    otherwise. *)
Fixpoint glob_loop (fuel : nat) (pat text : list Z) (p t : nat) (star : option nat) (mark : nat) :
    option nat :=
  match fuel with
  | O => None
  | S fuel' =>
      match text !! t with
      | None => Some p
      | Some x =>
          match pat !! p with
          | Some c =>
              if c =? STAR then glob_loop fuel' pat text (S p) t (Some p) t
              else if (c =? QUERY) || (fold c =? fold x)
              then glob_loop fuel' pat text (S p) (S t) star mark
              else match star with
                   | Some s => glob_loop fuel' pat text (S s) (S mark) star (S mark)
                   | None => None
                   end
          | None =>
              match star with
              | Some s => glob_loop fuel' pat text (S s) (S mark) star (S mark)
              | None => None
              end
          end
      end
  end.

(** Steps enough for the first loop: every step advances [p], or advances [mark] and
    takes [p] back. *)
Definition glob_fuel (pat text : list Z) : nat :=
  ((S (length text)) * (S (length pat)) + S (length pat))%nat.

Definition glob_match (pat text : list Z) : bool :=
  match glob_loop (glob_fuel pat text) pat text 0 0 None 0 with
  | None => false
  | Some p => Nat.eqb (skip_while (fun c => c =? STAR) (length pat) pat p) (length pat)
  end.

Definition is_policy_file (name : list Z) : bool :=
  (4 <=? length name)%nat && glob_match (str "*.MAC") name.

(** ** Rules and policies *)

Record FileRule : Type := mkFileRule { f_pat : list Z; f_len : nat; f_perms : Z }.
Definition FileRule_EMPTY : FileRule := mkFileRule (replicate PAT_LEN 0) 0 0.

Record NetRule : Type := mkNetRule { any_ip : bool; r_ip : Z; r_ops : Z; port_lo : Z; port_hi : Z }.
Definition NetRule_EMPTY : NetRule := mkNetRule false 0 0 0 0.

Record ExecRule : Type := mkExecRule { e_pat : list Z; e_len : nat }.
Definition ExecRule_EMPTY : ExecRule := mkExecRule (replicate PAT_LEN 0) 0.

Record Policy : Type := mkPolicy {
  complain : bool;
  all_syscalls : bool;
  syscalls : list Z;
  files : list FileRule; nfiles : nat;
  nets : list NetRule; nnets : nat;
  execs : list ExecRule; nexecs : nat;
}.

Definition Policy_EMPTY : Policy :=
  mkPolicy false false (replicate 4 0)
    (replicate MAX_FILE_RULES FileRule_EMPTY) 0
    (replicate MAX_NET_RULES NetRule_EMPTY) 0
    (replicate MAX_EXEC_RULES ExecRule_EMPTY) 0.

#[global] Instance FileRule_eq_dec : EqDecision FileRule.
Proof. solve_decision. Defined.
#[global] Instance NetRule_eq_dec : EqDecision NetRule.
Proof. solve_decision. Defined.
#[global] Instance ExecRule_eq_dec : EqDecision ExecRule.
Proof. solve_decision. Defined.
#[global] Instance Policy_eq_dec : EqDecision Policy.
Proof. solve_decision. Defined.

Definition f_pattern (r : FileRule) : outcome (list Z) := slice_to (f_pat r) (f_len r).
Definition e_pattern (r : ExecRule) : outcome (list Z) := slice_to (e_pat r) (e_len r).

Definition allows_syscall (p : Policy) (n : Z) : outcome bool :=
  if (n =? SYS_EXIT) || (n =? SYS_MAC_INFO) then Done true
  else if SYSCALL_LIMIT <=? n then Done false
  else if all_syscalls p then Done true
  else
    w ← index (syscalls p) (Z.to_nat (n / 32));
    Done (Z.land (Z.shiftr w (n mod 32)) 1 =? 1).

(** The permissions of the rules that match, joined. *)
Fixpoint granted_perms (rules : list FileRule) (name : list Z) (acc : Z) : outcome Z :=
  match rules with
  | [] => Done acc
  | r :: rules' =>
      pat ← f_pattern r;
      granted_perms rules' name (if glob_match pat name then Z.lor acc (f_perms r) else acc)
  end.

Definition allows_file (p : Policy) (name : list Z) (op : Z) : outcome bool :=
  if op =? 0 then Done false
  else
    rules ← slice_to (files p) (nfiles p);
    granted ← granted_perms rules name 0;
    Done (Z.land granted op =? op).

Definition net_rule_allows (op ip port : Z) (r : NetRule) : bool :=
  negb (Z.land (r_ops r) op =? 0) && (any_ip r || (r_ip r =? ip))
  && (port_lo r <=? port) && (port <=? port_hi r).

Definition allows_net (p : Policy) (op ip port : Z) : outcome bool :=
  rules ← slice_to (nets p) (nnets p);
  Done (existsb (net_rule_allows op ip port) rules).

Fixpoint any_exec (rules : list ExecRule) (name : list Z) : outcome bool :=
  match rules with
  | [] => Done false
  | r :: rules' =>
      pat ← e_pattern r;
      if glob_match pat name then Done true else any_exec rules' name
  end.

Definition allows_exec (p : Policy) (name : list Z) : outcome bool :=
  rules ← slice_to (execs p) (nexecs p);
  any_exec rules name.

(** ** The parser *)

Inductive ParseError : Type :=
| TooLarge
| BadByte
| LineTooLong (line : Z)
| Syntax (line : Z)
| UnknownSyscall (line : Z)
| BadPattern (line : Z)
| BadAddress (line : Z)
| TooManyRules (line : Z)
| DuplicateMode (line : Z).

Definition is_ws (b : Z) : bool := (b =? chr " ") || (b =? 9).

(** The token and the position after it. *)
Definition next_token (line : list Z) (pos : nat) : option (list Z) * nat :=
  let pos := skip_while is_ws (length line) line pos in
  if (length line <=? pos)%nat then (None, pos)
  else
    let stop := skip_while (fun b => negb (is_ws b)) (length line) line pos in
    (Some (take (stop - pos) (drop pos line)), stop).

Definition pattern_byte (b : Z) : bool :=
  is_ascii_alphanumeric b || (b =? chr ".") || (b =? chr "_") || (b =? chr "-")
  || (b =? chr "~") || (b =? chr "$") || (b =? chr "*") || (b =? chr "?").

Definition valid_pattern (p : list Z) : bool :=
  negb (length p =? 0)%nat && (length p <=? PAT_LEN)%nat && forallb pattern_byte p.

Fixpoint dec_loop (s : list Z) (max v : Z) : option Z :=
  match s with
  | [] => Some v
  | b :: s' =>
      if negb (is_ascii_digit b) then None
      else
        let v := wrap64 (wrap64 (v * 10) + (b - 48)) in
        if max <? v then None else dec_loop s' max v
  end.

Definition parse_u32_dec (s : list Z) (max : Z) : option Z :=
  if (length s =? 0)%nat || (10 <? length s)%nat then None
  else wrap32 <$> dec_loop s max 0.

Fixpoint ip_loop (pieces : list (list Z)) (parts : nat) (ip : Z) : option (nat * Z) :=
  match pieces with
  | [] => Some (parts, ip)
  | part :: pieces' =>
      let parts := S parts in
      if (4 <? parts)%nat then None
      else
        v ← parse_u32_dec part 255;
        ip_loop pieces' parts (Z.lor (wrap32 (Z.shiftl ip 8)) v)
  end.

Definition parse_ip (s : list Z) : option Z :=
  '(parts, ip) ← ip_loop (split_on (fun b => b =? chr ".") s) 0 0;
  if (parts =? 4)%nat then Some ip else None.

Definition parse_ports (s : list Z) : option (Z * Z) :=
  if bool_decide (s = str "*") then Some (0, 65535)
  else
    match position (fun b => b =? chr "-") s with
    | None => v ← parse_u32_dec s 65535; Some (wrap16 v, wrap16 v)
    | Some i =>
        lo ← parse_u32_dec (take i s) 65535;
        hi ← parse_u32_dec (drop (S i) s) 65535;
        if wrap16 lo <=? wrap16 hi then Some (wrap16 lo, wrap16 hi) else None
    end.

Definition same_word (candidate name : list Z) : bool :=
  (length candidate =? length name)%nat
  && forallb (fun ab => fold ab.1 =? fold ab.2) (zip candidate name).

Definition lookup_syscall (name : list Z) : option Z :=
  i ← position (fun candidate => same_word candidate name) (drop 1 SYSCALL_NAMES);
  Some (Z.of_nat (S i)).

Definition set_complain (b : bool) (p : Policy) : Policy :=
  mkPolicy b (all_syscalls p) (syscalls p) (files p) (nfiles p) (nets p) (nnets p) (execs p) (nexecs p).
Definition set_all_syscalls (p : Policy) : Policy :=
  mkPolicy (complain p) true (syscalls p) (files p) (nfiles p) (nets p) (nnets p) (execs p) (nexecs p).
Definition set_syscalls (w : list Z) (p : Policy) : Policy :=
  mkPolicy (complain p) (all_syscalls p) w (files p) (nfiles p) (nets p) (nnets p) (execs p) (nexecs p).
Definition set_files (l : list FileRule) (n : nat) (p : Policy) : Policy :=
  mkPolicy (complain p) (all_syscalls p) (syscalls p) l n (nets p) (nnets p) (execs p) (nexecs p).
Definition set_nets (l : list NetRule) (n : nat) (p : Policy) : Policy :=
  mkPolicy (complain p) (all_syscalls p) (syscalls p) (files p) (nfiles p) l n (execs p) (nexecs p).
Definition set_execs (l : list ExecRule) (n : nat) (p : Policy) : Policy :=
  mkPolicy (complain p) (all_syscalls p) (syscalls p) (files p) (nfiles p) (nets p) (nnets p) l n.

(** One token of each kind of directive. *)

Definition add_syscall (ln : Z) (tok : list Z) (pol : Policy) : comp ParseError Policy :=
  if bool_decide (tok = str "*") then Ret (set_all_syscalls pol)
  else
    n ← ok_or (lookup_syscall tok) (UnknownSyscall ln);
    w ← lift (index (syscalls pol) (Z.to_nat (n / 32)));
    ws ← lift (store (syscalls pol) (Z.to_nat (n / 32)) (Z.lor w (wrap32 (Z.shiftl 1 (n mod 32)))));
    Ret (set_syscalls ws pol).

Definition add_file (ln perms : Z) (pat : list Z) (pol : Policy) : comp ParseError Policy :=
  if negb (valid_pattern pat) then Throw (BadPattern ln)
  else if (MAX_FILE_RULES <=? nfiles pol)%nat then Throw (TooManyRules ln)
  else
    buf ← lift (copy_prefix (f_pat FileRule_EMPTY) pat);
    rules ← lift (store (files pol) (nfiles pol) (mkFileRule buf (length pat) perms));
    Ret (set_files rules (S (nfiles pol)) pol).

Definition add_net (ln ops : Z) (addr : list Z) (pol : Policy) : comp ParseError Policy :=
  colon ← ok_or (rposition (fun b => b =? chr ":") addr) (BadAddress ln);
  let ip_s := take colon addr in
  let port_s := drop (S colon) addr in
  '(any, ip) ← (if bool_decide (ip_s = str "*") then Ret (true, 0)
                else ip ← ok_or (parse_ip ip_s) (BadAddress ln); Ret (false, ip));
  '(lo, hi) ← ok_or (parse_ports port_s) (BadAddress ln);
  if (MAX_NET_RULES <=? nnets pol)%nat then Throw (TooManyRules ln)
  else
    rules ← lift (store (nets pol) (nnets pol) (mkNetRule any ip ops lo hi));
    Ret (set_nets rules (S (nnets pol)) pol).

Definition add_exec (ln : Z) (pat : list Z) (pol : Policy) : comp ParseError Policy :=
  if negb (valid_pattern pat) then Throw (BadPattern ln)
  else if (MAX_EXEC_RULES <=? nexecs pol)%nat then Throw (TooManyRules ln)
  else
    buf ← lift (copy_prefix (e_pat ExecRule_EMPTY) pat);
    rules ← lift (store (execs pol) (nexecs pol) (mkExecRule buf (length pat)));
    Ret (set_execs rules (S (nexecs pol)) pol).

(** [while let Some(tok) = next_token(line, &mut pos) { any = true; .. }]; a token takes
    at least one byte, so [length line] rounds are enough. *)
Fixpoint token_loop (fuel : nat) (add : list Z -> Policy -> comp ParseError Policy)
    (line : list Z) (pos : nat) (any : bool) (pol : Policy) : comp ParseError (bool * Policy) :=
  match fuel with
  | O => Ret (any, pol)
  | S fuel' =>
      match next_token line pos with
      | (None, _) => Ret (any, pol)
      | (Some tok, pos') => pol ← add tok pol; token_loop fuel' add line pos' true pol
      end
  end.

(** A directive's tokens, at least one. *)
Definition token_list (ln : Z) (add : list Z -> Policy -> comp ParseError Policy)
    (line : list Z) (pos : nat) (pol : Policy) : comp ParseError Policy :=
  '(any, pol) ← token_loop (S (length line)) add line pos false pol;
  if negb any then Throw (Syntax ln) else Ret pol.

(** The letters of a permission or operation word. *)
Fixpoint letters (ln : Z) (code : Z -> option Z) (tok : list Z) (acc : Z) : comp ParseError Z :=
  match tok with
  | [] => Ret acc
  | c :: tok' => v ← ok_or (code c) (Syntax ln); letters ln code tok' (Z.lor acc v)
  end.

Definition file_letter (c : Z) : option Z :=
  if c =? chr "r" then Some FILE_READ
  else if c =? chr "w" then Some FILE_WRITE
  else if c =? chr "d" then Some FILE_DELETE else None.

Definition net_letter (c : Z) : option Z :=
  if c =? chr "c" then Some NET_CONNECT
  else if c =? chr "b" then Some NET_BIND
  else if c =? chr "s" then Some NET_SEND else None.

(** The line without its carriage return. *)
Definition strip_cr (raw : list Z) : list Z :=
  match split_last raw with
  | Some (b, rest) => if b =? 13 then rest else raw
  | None => raw
  end.

Definition strip_comment (line : list Z) : list Z :=
  match position (fun b => b =? chr "#") line with
  | Some i => take i line
  | None => line
  end.

Definition parse_mode (ln : Z) (line : list Z) (pos : nat) (pol : Policy) : comp ParseError Policy :=
  let '(arg, pos) := next_token line pos in
  arg ← ok_or arg (Syntax ln);
  mode ← (if bool_decide (arg = str "enforce") then Ret false
          else if bool_decide (arg = str "complain") then Ret true
          else Throw (Syntax ln));
  match next_token line pos with
  | (Some _, _) => Throw (Syntax ln)
  | (None, _) => Ret (set_complain mode pol)
  end.

Definition parse_allow (ln : Z) (line : list Z) (pos : nat) (pol : Policy) : comp ParseError Policy :=
  let '(kind, pos) := next_token line pos in
  kind ← ok_or kind (Syntax ln);
  if bool_decide (kind = str "syscall") then token_list ln (add_syscall ln) line pos pol
  else if bool_decide (kind = str "file") then
    let '(perm_tok, pos) := next_token line pos in
    perm_tok ← ok_or perm_tok (Syntax ln);
    perms ← letters ln file_letter perm_tok 0;
    token_list ln (add_file ln perms) line pos pol
  else if bool_decide (kind = str "net") then
    let '(op_tok, pos) := next_token line pos in
    op_tok ← ok_or op_tok (Syntax ln);
    ops ← letters ln net_letter op_tok 0;
    token_list ln (add_net ln ops) line pos pol
  else if bool_decide (kind = str "exec") then token_list ln (add_exec ln) line pos pol
  else Throw (Syntax ln).

(** One line: the policy and whether a mode has been seen. *)
Definition parse_line (ln : Z) (raw : list Z) (pol : Policy) (seen_mode : bool) :
    comp ParseError (Policy * bool) :=
  let line := strip_cr raw in
  if (MAX_LINE <? length line)%nat then Throw (LineTooLong ln)
  else
    let line := strip_comment line in
    match next_token line 0 with
    | (None, _) => Ret (pol, seen_mode)
    | (Some word, pos) =>
        if bool_decide (word = str "mode") then
          if seen_mode then Throw (DuplicateMode ln)
          else pol ← parse_mode ln line pos pol; Ret (pol, true)
        else if negb (bool_decide (word = str "allow")) then Throw (Syntax ln)
        else pol ← parse_allow ln line pos pol; Ret (pol, seen_mode)
    end.

Fixpoint parse_lines (raws : list (list Z)) (line_no : Z) (pol : Policy) (seen_mode : bool) :
    comp ParseError Policy :=
  match raws with
  | [] => Ret pol
  | raw :: raws' =>
      let line_no := Z.min 65535 (line_no + 1) in
      '(pol, seen_mode) ← parse_line line_no raw pol seen_mode;
      parse_lines raws' line_no pol seen_mode
  end.

Definition text_byte (b : Z) : bool :=
  (b =? 10) || (b =? 13) || (b =? 9) || ((0x20 <=? b) && (b <? 0x7f)).

Definition parse (text : list Z) : comp ParseError Policy :=
  if (MAX_PROFILE_TEXT <? length text)%nat then Throw TooLarge
  else if negb (forallb text_byte text) then Throw BadByte
  else parse_lines (split_on (fun b => b =? 10) text) 0 Policy_EMPTY false.

(** ** The profile table and the evaluation of a stack *)

Record Slot : Type := mkSlot {
  in_use : bool;
  s_name : list Z; s_name_len : nat;
  policy : Policy;
  s_allowed : Z; s_denied : Z; s_complained : Z;
}.

Definition Slot_EMPTY : Slot := mkSlot false (replicate NAME_LEN 0) 0 Policy_EMPTY 0 0 0.

Definition slot_name (s : Slot) : outcome (list Z) := slice_to (s_name s) (s_name_len s).

Record AuditRec : Type := mkAudit {
  a_kind : Z; a_complained : bool; a_pid : Z; a_profile : Z; a_a : Z; a_b : Z;
}.

Definition AuditRec_EMPTY : AuditRec := mkAudit 0 false 0 0 0 0.

Record Stack : Type := mkStack { ids : list Z; stack_n : nat }.

Record Mac : Type := mkMac {
  slots : list Slot;
  frozen : bool;
  total_allowed : Z; total_denied : Z; total_complained : Z;
  audit : list AuditRec;
  audit_next : Z;
}.

Inductive LoadError : Type :=
| BadName
| Parse (e : ParseError)
| Full
| Frozen.

Definition LoadError_errno (e : LoadError) : Z :=
  match e with
  | BadName | Parse _ => EINVAL
  | Full => ENOSPC
  | Frozen => EPERM
  end.

Definition name_byte (b : Z) : bool :=
  is_ascii_alphanumeric b || (b =? chr "_") || (b =? chr "-").

Definition valid_profile_name (n : list Z) : bool :=
  negb (length n =? 0)%nat && (length n <=? NAME_LEN)%nat && forallb name_byte n.

Definition Mac_new : Mac :=
  mkMac (replicate MAX_PROFILES Slot_EMPTY) false 0 0 0 (replicate AUDIT_LEN AuditRec_EMPTY) 0.

Definition is_frozen (m : Mac) : bool := frozen m.

Definition set_slots (l : list Slot) (m : Mac) : Mac :=
  mkMac l (frozen m) (total_allowed m) (total_denied m) (total_complained m) (audit m) (audit_next m).
Definition set_totals (a d c : Z) (m : Mac) : Mac :=
  mkMac (slots m) (frozen m) a d c (audit m) (audit_next m).

Definition freeze (m : Mac) : Mac :=
  mkMac (slots m) true (total_allowed m) (total_denied m) (total_complained m) (audit m) (audit_next m).

Definition loaded (m : Mac) : nat := countb in_use (slots m).

(** The slot from [i] on that holds this profile. *)
Fixpoint find_profile (l : list Slot) (i : nat) (name : list Z) (pol : Policy) :
    outcome (option nat) :=
  match l with
  | [] => Done None
  | s :: l' =>
      if in_use s then
        nm ← slot_name s;
        if bool_decide (nm = name) && bool_decide (policy s = pol) then Done (Some i)
        else find_profile l' (S i) name pol
      else find_profile l' (S i) name pol
  end.

Definition load (name text : list Z) (m : Mac) : outcome (result Z LoadError * Mac) :=
  if negb (valid_profile_name name) then Done (Err BadName, m)
  else
    match parse text with
    | Crash => Panic
    | Throw e => Done (Err (Parse e), m)
    | Ret pol =>
        r ← find_profile (slots m) 0 name pol;
        match r with
        | Some i => Done (Ok (wrap16 (Z.of_nat (i + 1))), m)
        | None =>
            if frozen m then Done (Err Frozen, m)
            else
              match position (fun s => negb (in_use s)) (slots m) with
              | None => Done (Err Full, m)
              | Some i =>
                  buf ← copy_prefix (s_name Slot_EMPTY) name;
                  l ← store (slots m) i (mkSlot true buf (length name) pol 0 0 0);
                  Done (Ok (wrap16 (Z.of_nat (i + 1))), set_slots l m)
              end
        end
    end.

Definition exec_stack (parent : list Z) (new_id : Z) : outcome (result Stack Z) :=
  if (MAX_STACK <? length parent)%nat then Done (Err E2BIG)
  else
    buf ← copy_prefix (replicate MAX_STACK 0) parent;
    let n := length parent in
    if negb (new_id =? 0) && negb (existsb (Z.eqb new_id) parent) then
      if (MAX_STACK <=? n)%nat then Done (Err E2BIG)
      else
        buf ← store buf n new_id;
        Done (Ok (mkStack buf (S n)))
    else Done (Ok (mkStack buf n)).

Definition record (kind : Z) (complained : bool) (pid profile a b : Z) (m : Mac) : outcome Mac :=
  let i := (Z.to_nat (audit_next m) mod AUDIT_LEN)%nat in
  l ← store (audit m) i (mkAudit kind complained pid profile a b);
  Done (mkMac (slots m) (frozen m) (total_allowed m) (total_denied m) (total_complained m) l
              (audit_next m +₃₂ 1)).

Definition audit_recent (i : nat) (m : Mac) : outcome (option AuditRec) :=
  if (AUDIT_LEN <=? i)%nat || (audit_next m <=? wrap32 (Z.of_nat i)) then Done None
  else
    let idx := Z.to_nat (wrap32 (audit_next m - 1 - Z.of_nat i) mod Z.of_nat AUDIT_LEN) in
    r ← index (audit m) idx;
    Done (Some r).

(** [total_denied += 1] and the like. *)
Definition bump_allowed (m : Mac) : Mac :=
  set_totals (total_allowed m +₃₂ 1) (total_denied m) (total_complained m) m.
Definition bump_denied (m : Mac) : Mac :=
  set_totals (total_allowed m) (total_denied m +₃₂ 1) (total_complained m) m.
Definition bump_complained (m : Mac) : Mac :=
  set_totals (total_allowed m) (total_denied m) (total_complained m +₃₂ 1) m.

Definition slot_allowed (s : Slot) : Slot :=
  mkSlot (in_use s) (s_name s) (s_name_len s) (policy s) (s_allowed s +₃₂ 1) (s_denied s) (s_complained s).
Definition slot_denied (s : Slot) : Slot :=
  mkSlot (in_use s) (s_name s) (s_name_len s) (policy s) (s_allowed s) (s_denied s +₃₂ 1) (s_complained s).
Definition slot_complained (s : Slot) : Slot :=
  mkSlot (in_use s) (s_name s) (s_name_len s) (policy s) (s_allowed s) (s_denied s) (s_complained s +₃₂ 1).

Definition put_slot (i : nat) (s : Slot) (m : Mac) : outcome Mac :=
  l ← store (slots m) i s; Done (set_slots l m).

(** The profiles of the stack, in turn. *)
Fixpoint eval_loop (stack : list Z) (kind pid a b : Z) (allowed : Policy -> outcome bool)
    (first_complain : Z) (m : Mac) : outcome (Z * Mac) :=
  match stack with
  | [] => Done (first_complain, bump_allowed m)
  | id :: stack' =>
      let idx := Z.to_nat id in
      let invalid := m ← record kind false pid 0 a b (bump_denied m); Done (- DENIER_INVALID, m) in
      if (idx =? 0)%nat || (MAX_PROFILES <? idx)%nat then invalid
      else
        s ← index (slots m) (idx - 1);
        if negb (in_use s) then invalid
        else
          ok ← allowed (policy s);
          if ok : bool then
            m ← put_slot (idx - 1) (slot_allowed s) m;
            eval_loop stack' kind pid a b allowed first_complain m
          else if complain (policy s) then
            m ← put_slot (idx - 1) (slot_complained s) m;
            m ← record kind true pid id a b (bump_complained m);
            eval_loop stack' kind pid a b allowed (if first_complain =? 0 then id else first_complain) m
          else
            m ← put_slot (idx - 1) (slot_denied s) m;
            m ← record kind false pid id a b (bump_denied m);
            Done (- id, m)
  end.

Definition eval (stack : list Z) (kind pid a b : Z) (allowed : Policy -> outcome bool) (m : Mac) :
    outcome (Z * Mac) :=
  if (length stack =? 0)%nat then Done (0, m)
  else if (MAX_STACK <? length stack)%nat then Done (- DENIER_INVALID, bump_denied m)
  else eval_loop stack kind pid a b allowed 0 m.

Definition check_syscall (stack : list Z) (pid sysno : Z) (m : Mac) : outcome (Z * Mac) :=
  eval stack KIND_SYSCALL pid sysno 0 (fun p => allows_syscall p sysno) m.

(** A name over 64 bytes counts as empty, and nothing matches the empty name. *)
Definition short_name (name : list Z) : list Z := if (64 <? length name)%nat then [] else name.

Definition check_file (stack : list Z) (pid : Z) (name : list Z) (op : Z) (m : Mac) :
    outcome (Z * Mac) :=
  let name := short_name name in
  eval stack KIND_FILE pid op (Z.of_nat (length name))
    (fun p => if negb (length name =? 0)%nat then allows_file p name op else Done false) m.

Definition check_net (stack : list Z) (pid op ip port : Z) (m : Mac) : outcome (Z * Mac) :=
  eval stack KIND_NET pid op (Z.lxor (wrap32 (Z.shiftl port 16)) (Z.shiftr ip 16))
    (fun p => allows_net p op ip port) m.

Definition check_exec (stack : list Z) (pid : Z) (name : list Z) (m : Mac) : outcome (Z * Mac) :=
  let name := short_name name in
  eval stack KIND_EXEC pid (Z.of_nat (length name)) 0
    (fun p => if negb (length name =? 0)%nat then allows_exec p name else Done false) m.

Definition profile_info (id : Z) (m : Mac) : outcome (option (list Z * Z * Z * Z)) :=
  let idx := Z.to_nat id in
  if (idx =? 0)%nat || (MAX_PROFILES <? idx)%nat then Done None
  else
    s ← index (slots m) (idx - 1);
    if negb (in_use s) then Done None
    else
      nm ← slot_name s;
      Done (Some (nm, s_allowed s, s_denied s, s_complained s)).

Definition totals (m : Mac) : Z * Z * Z := (total_allowed m, total_denied m, total_complained m).

(** ** The boot self-test *)

Definition SELFTEST_TEXT : list Z :=
  str "allow syscall write open" ++ [10] ++ str "allow file r DATA.TXT" ++ [10] ++
  str "allow net c 10.0.2.2:80" ++ [10] ++ str "allow exec HELLO.ELF" ++ [10].

(** [check]: one more attempted, one more held where [ok]. *)
Definition tally (ok : bool) (c : Z * Z) : Z * Z :=
  (if ok then c.1 +₃₂ 1 else c.1, c.2 +₃₂ 1).

Definition selftest : outcome (Z * Z) :=
  let c := tally (glob_match (str "*.LOG") (str "a.log") && negb (glob_match (str "*.LOG") (str "a.txt"))
                  && glob_match (str "A?C") (str "abc")) (0, 0) in
  '(r, m) ← load (str "selftest") SELFTEST_TEXT Mac_new;
  let id := match r with Ok id => id | Err _ => 0 end in
  let c := tally (id =? 1) c in
  let st := [id] in
  '(r, m) ← check_syscall st 1 1 m;
  let c := tally (r =? 0) c in
  '(r, m) ← check_syscall st 1 32 m;
  let c := tally (r <? 0) c in
  '(r, m) ← check_syscall st 1 2 m;
  let c := tally (r =? 0) c in
  '(r, m) ← check_file st 1 (str "data.txt") FILE_READ m;
  let c := tally (r =? 0) c in
  '(r, m) ← check_file st 1 (str "DATA.TXT") FILE_WRITE m;
  let c := tally (r <? 0) c in
  '(r, m) ← check_file st 1 (str "SECRET.TXT") FILE_READ m;
  let c := tally (r <? 0) c in
  '(r, m) ← check_net st 1 NET_CONNECT 0x0A000202 80 m;
  let c := tally (r =? 0) c in
  '(r, m) ← check_net st 1 NET_CONNECT 0x0A000202 81 m;
  let c := tally (r <? 0) c in
  '(r, m) ← check_exec st 1 (str "hello.elf") m;
  '(ok, m) ← (if r =? 0 then '(r', m) ← check_exec st 1 (str "EVIL.ELF") m; Done (r' <? 0, m)
              else Done (false, m));
  let c := tally ok c in
  '(r, m) ← check_syscall [99] 1 1 m;
  let c := tally (r <? 0) c in
  let c := tally (match parse (str "allow bogus x") with Throw _ => true | _ => false end) c in
  '(r, m) ← check_syscall [] 1 32 m;
  let c := tally (r =? 0) c in
  Done c.

(** ** The kernel entry points

    A pointer from the C side is [None] when null, else the memory behind it. *)

Definition stack_of (p : option (list Z)) (n : Z) : option (list Z) :=
  if n =? 0 then Some []
  else
    match p with
    | None => None
    | Some mem => if (Z.of_nat MAX_STACK <? n) then None else Some (take (Z.to_nat n) mem)
    end.

Definition bytes_of (p : option (list Z)) (n : Z) : option (list Z) :=
  if n =? 0 then Some []
  else
    match p with
    | None => None
    | Some mem => if (Z.of_nat MAX_PROFILE_TEXT <? n) then None else Some (take (Z.to_nat n) mem)
    end.

Definition rust_mac_load (name : option (list Z)) (name_len : Z) (text : option (list Z)) (text_len : Z)
    (m : Mac) : outcome (Z * Mac) :=
  match bytes_of name name_len, bytes_of text text_len with
  | Some n, Some t =>
      '(r, m) ← load n t m;
      Done (match r with Ok id => id | Err e => - LoadError_errno e end, m)
  | _, _ => Done (- EINVAL, m)
  end.

(** The kind and line of a parse error; [None] where nothing is written. *)
Definition rust_mac_explain (text : option (list Z)) (text_len : Z) : outcome (option (Z * Z)) :=
  match bytes_of text text_len with
  | None => Done None
  | Some t =>
      match parse t with
      | Crash => Panic
      | Ret _ => Done (Some (0, 0))
      | Throw TooLarge => Done (Some (1, 0))
      | Throw BadByte => Done (Some (2, 0))
      | Throw (LineTooLong l) => Done (Some (3, l))
      | Throw (Syntax l) => Done (Some (4, l))
      | Throw (UnknownSyscall l) => Done (Some (5, l))
      | Throw (BadPattern l) => Done (Some (6, l))
      | Throw (BadAddress l) => Done (Some (7, l))
      | Throw (TooManyRules l) => Done (Some (8, l))
      | Throw (DuplicateMode l) => Done (Some (9, l))
      end
  end.

(** The return value with the ids and count written to [out] and [out_n]. *)
Definition rust_mac_exec_stack (parent : option (list Z)) (parent_n new_id : Z) :
    outcome (Z * option (list Z * Z)) :=
  match stack_of parent parent_n with
  | None => Done (- E2BIG, None)
  | Some p =>
      if Z.of_nat MAX_PROFILES <? new_id then Done (- EINVAL, None)
      else
        r ← exec_stack p (wrap16 new_id);
        match r with
        | Ok st => Done (0, Some (ids st, Z.of_nat (stack_n st)))
        | Err e => Done (- e, None)
        end
  end.

Definition rust_mac_check_syscall (stack : option (list Z)) (n pid sysno : Z) (m : Mac) :
    outcome (Z * Mac) :=
  match stack_of stack n with
  | Some s => check_syscall s pid sysno m
  | None => Done (- DENIER_INVALID, m)
  end.

Definition rust_mac_check_file (stack : option (list Z)) (n pid : Z) (name : option (list Z))
    (name_len op : Z) (m : Mac) : outcome (Z * Mac) :=
  match stack_of stack n, bytes_of name name_len with
  | Some s, Some nm => check_file s pid nm (wrap8 op) m
  | _, _ => Done (- DENIER_INVALID, m)
  end.

Definition rust_mac_check_net (stack : option (list Z)) (n pid op ip port : Z) (m : Mac) :
    outcome (Z * Mac) :=
  match stack_of stack n with
  | Some s => check_net s pid (wrap8 op) ip (wrap16 (Z.land port 0xFFFF)) m
  | None => Done (- DENIER_INVALID, m)
  end.

Definition rust_mac_check_exec (stack : option (list Z)) (n pid : Z) (name : option (list Z))
    (name_len : Z) (m : Mac) : outcome (Z * Mac) :=
  match stack_of stack n, bytes_of name name_len with
  | Some s, Some nm => check_exec s pid nm m
  | _, _ => Done (- DENIER_INVALID, m)
  end.

Definition rust_mac_is_policy_file (name : option (list Z)) (name_len : Z) : Z :=
  match bytes_of name name_len with
  | Some n => Z.b2z (is_policy_file n)
  | None => 0
  end.

(** The return value with the bytes written to [buf] and the three counters. *)
Definition rust_mac_profile_info (id cap : Z) (m : Mac) :
    outcome (Z * option (list Z * (Z * Z * Z))) :=
  if (Z.of_nat MAX_PROFILES <? id) || (cap =? 0) then Done (- EINVAL, None)
  else
    r ← profile_info (wrap16 id) m;
    match r with
    | None => Done (- ENOENT, None)
    | Some (name, a, d, c) =>
        let n := Nat.min (length name) (Z.to_nat (cap - 1)) in
        Done (Z.of_nat n, Some (take n name ++ [0], (a, d, c)))
    end.

(** The newest audit record of a denial among the [n] from the [i]-th on. *)
Fixpoint last_deny (n i : nat) (m : Mac) : outcome (option AuditRec) :=
  match n with
  | O => Done None
  | S n' =>
      r ← audit_recent i m;
      match r with
      | Some rec => if negb (a_complained rec) then Done (Some rec) else last_deny n' (S i) m
      | None => last_deny n' (S i) m
      end
  end.

Definition rust_mac_global (m : Mac) : outcome (list Z) :=
  let '(a, d, c) := totals m in
  l ← last_deny AUDIT_LEN 0 m;
  Done [a; d; c; Z.b2z (is_frozen m); wrap32 (Z.of_nat (loaded m));
        match l with Some r => a_kind r | None => 0 end;
        match l with Some r => a_a r | None => 0 end;
        match l with Some r => a_b r | None => 0 end].

Definition rust_mac_freeze (m : Mac) : Mac := freeze m.

Definition rust_mac_is_frozen (m : Mac) : Z := Z.b2z (is_frozen m).

Definition rust_mac_selftest : outcome (Z * Z) := selftest.
