(* ===== verification/MacGlob.v ===== *)
(** * The pattern matcher

    [glob_match] decides the declarative reading of a pattern: a star stands for any
    run of bytes, a question mark for any one byte, every other byte for itself up to
    case. *)

From S2P Require Import Prelude Bytes Mac.
Local Open Scope Z_scope.

Inductive glob : list Z -> list Z -> Prop :=
| glob_nil : glob [] []
| glob_star pat skipped text : glob pat text -> glob (STAR :: pat) (skipped ++ text)
| glob_query x pat text : glob pat text -> glob (QUERY :: pat) (x :: text)
| glob_byte c x pat text : c <> STAR -> fold c = fold x -> glob pat text -> glob (c :: pat) (x :: text).

(** One pattern byte against one text byte. *)
Definition one (c x : Z) : Prop := c = QUERY \/ fold c = fold x.

Lemma glob_star_inv pat text : glob (STAR :: pat) text <-> exists k, glob pat (drop k text).
Proof.
  split.
  - inversion 1 as [|? skipped text' Hg| |]; simplify_eq.
    exists (length skipped). by rewrite drop_app_length.
  - intros [k Hk]. rewrite <- (take_drop k text). by constructor.
Qed.

Lemma glob_cons c x pat text :
  c <> STAR -> glob (c :: pat) (x :: text) <-> one c x /\ glob pat text.
Proof.
  intros Hc. split.
  - inversion 1; simplify_eq; (split; [by (left + right)|done]).
  - intros [[->|Hf] Hg]; [by constructor|by constructor].
Qed.

Lemma glob_cons_nil c pat : c <> STAR -> ~ glob (c :: pat) [].
Proof. intros Hc Hg. inversion Hg; simplify_eq. Qed.

Lemma glob_stars pat : glob pat [] <-> Forall (fun c => c = STAR) pat.
Proof.
  induction pat as [|c pat IH]; [split; [done|constructor]|]. rewrite Forall_cons, <- IH.
  destruct (decide (c = STAR)) as [->|Hc].
  - rewrite glob_star_inv. split; [intros [k Hk]; by rewrite drop_nil in Hk|]. intros [_ Hg]. by exists 0%nat.
  - split; [by intros Hg%glob_cons_nil|naive_solver].
Qed.

Section Loop.
Context (pat text : list Z).

(** [n] pattern bytes from [q], none of them a star, against the text from [u]. *)
Definition chunk (q u n : nat) : Prop :=
  forall i, (i < n)%nat -> exists c x, pat !! (q + i)%nat = Some c /\ c <> STAR /\
    text !! (u + i)%nat = Some x /\ one c x.

Lemma chunk_glob q u n :
  chunk q u n ->
  glob (drop q pat) (drop u text) <-> glob (drop (q + n) pat) (drop (u + n) text).
Proof.
  revert q u. induction n as [|n IH]; intros q u Hch; [by rewrite !Nat.add_0_r|].
  destruct (Hch 0%nat) as (c & x & Hc & Hns & Hx & Ho); [lia|]. rewrite Nat.add_0_r in Hc, Hx.
  rewrite (drop_S _ _ _ Hc), (drop_S _ _ _ Hx), glob_cons by done.
  replace (q + S n)%nat with (S q + n)%nat by lia. replace (u + S n)%nat with (S u + n)%nat by lia.
  rewrite <- IH; [naive_solver|]. intros i Hi. destruct (Hch (S i)) as (c' & x' & H); [lia|].
  exists c', x'. by rewrite !Nat.add_succ_comm.
Qed.

(** Wherever the chunk's pattern matches, it takes that many bytes. *)
Lemma chunk_advance q u k n :
  chunk q u n -> glob (drop q pat) (drop k text) ->
  glob (drop (q + n) pat) (drop (k + n) text) /\ (n = 0 \/ k + n <= length text)%nat.
Proof.
  revert q u k. induction n as [|n IH]; intros q u k Hch Hg; [rewrite !Nat.add_0_r; auto|].
  destruct (Hch 0%nat) as (c & x & Hc & Hns & _ & _); [lia|]. rewrite Nat.add_0_r in Hc.
  rewrite (drop_S _ _ _ Hc) in Hg.
  destruct (text !! k) as [y|] eqn:Hy.
  2:{ apply lookup_ge_None in Hy. rewrite (drop_ge text) in Hg by lia. by apply glob_cons_nil in Hg. }
  rewrite (drop_S _ _ _ Hy), glob_cons in Hg by done. destruct Hg as [_ Hg].
  destruct (IH (S q) (S u) (S k)) as [Hg' Hk].
  - intros i Hi. destruct (Hch (S i)) as (c' & x' & H); [lia|]. exists c', x'.
    by rewrite !Nat.add_succ_comm.
  - done.
  - apply lookup_lt_Some in Hy.
    replace (q + S n)%nat with (S q + n)%nat by lia. replace (k + S n)%nat with (S k + n)%nat by lia.
    split; [done|]. right. lia.
Qed.

(** The loop's invariant: where the search stands and what is left of it. *)
Definition glob_inv (p t : nat) (star : option nat) (mark : nat) : Prop :=
  (p <= length pat)%nat /\ (mark <= t <= length text)%nat /\
  match star with
  | None => glob pat text <-> glob (drop p pat) (drop t text)
  | Some s =>
      p = (S s + (t - mark))%nat /\ chunk (S s) mark (t - mark) /\
      (glob pat text <-> exists k, (mark <= k)%nat /\ glob (drop (S s) pat) (drop k text))
  end.

Lemma inv_match p t star mark c x :
  glob_inv p t star mark -> pat !! p = Some c -> text !! t = Some x -> c <> STAR -> one c x ->
  glob_inv (S p) (S t) star mark.
Proof.
  intros (Hp & Ht & Hs) Hc Hx Hns Ho.
  pose proof (lookup_lt_Some _ _ _ Hc). pose proof (lookup_lt_Some _ _ _ Hx).
  split; [lia|]. split; [lia|]. destruct star as [s|].
  - destruct Hs as (-> & Hch & Hg). split; [lia|]. split; [|done].
    intros i Hi. destruct (decide (i < t - mark)%nat) as [|Hge]; [by apply Hch|].
    exists c, x. replace (S s + i)%nat with (S s + (t - mark))%nat by lia.
    by replace (mark + i)%nat with t by lia.
  - rewrite Hs, (drop_S _ _ _ Hc), (drop_S _ _ _ Hx), glob_cons by done. naive_solver.
Qed.

Lemma inv_star p t star mark :
  glob_inv p t star mark -> pat !! p = Some STAR -> (t < length text)%nat ->
  glob_inv (S p) t (Some p) t.
Proof.
  intros (Hp & Ht & Hs) Hc Hlt. pose proof (lookup_lt_Some _ _ _ Hc).
  split; [lia|]. split; [lia|]. rewrite Nat.sub_diag, Nat.add_0_r. split; [done|].
  split; [intros i Hi; lia|].
  assert (Hrest : forall k, glob (drop p pat) (drop k text) <-> exists j, glob (drop (S p) pat) (drop (j + k) text)).
  { intros k. rewrite (drop_S _ _ _ Hc), glob_star_inv. setoid_rewrite drop_drop.
    split; intros [j Hj]; exists j; [by rewrite Nat.add_comm|by rewrite Nat.add_comm in Hj]. }
  destruct star as [s|].
  - destruct Hs as (Ep & Hch & ->). split.
    + intros (k & Hk & Hg). eapply chunk_advance in Hg as [Hg Hn]; [|done]. rewrite <- Ep in Hg.
      apply Hrest in Hg as [j Hg]. exists (j + (k + (t - mark)))%nat. split; [lia|done].
    + intros (k & Hk & Hg). exists mark. split; [lia|]. apply (chunk_glob _ _ _ Hch).
      rewrite <- Ep. replace (mark + (t - mark))%nat with t by lia. apply Hrest.
      exists (k - t)%nat. by replace (k - t + t)%nat with k by lia.
  - rewrite Hs, Hrest. split; intros [k Hk]; [exists (k + t)%nat; split; [lia|done]|].
    exists (k - t)%nat. destruct Hk as [? Hk]. by replace (k - t + t)%nat with k by lia.
Qed.

(** A mismatch: the current attempt fails, the next one starts a byte later. *)
Lemma inv_mismatch p t star mark x :
  glob_inv p t star mark -> text !! t = Some x ->
  (forall c, pat !! p = Some c -> c <> STAR /\ ~ one c x) ->
  match star with
  | None => ~ glob pat text
  | Some s => glob_inv (S s) (S mark) (Some s) (S mark)
  end.
Proof.
  intros (Hp & Ht & Hs) Hx Hmis. pose proof (lookup_lt_Some _ _ _ Hx).
  assert (Hno : ~ glob (drop p pat) (drop t text)).
  { rewrite (drop_S _ _ _ Hx). destruct (pat !! p) as [c|] eqn:Hc.
    - destruct (Hmis c eq_refl) as [Hns Ho]. rewrite (drop_S _ _ _ Hc), glob_cons by done. tauto.
    - apply lookup_ge_None in Hc. rewrite drop_ge by lia. intros Hg. inversion Hg. }
  destruct star as [s|]; [|by rewrite Hs]. destruct Hs as (-> & Hch & Hg).
  split; [lia|]. split; [lia|]. rewrite Nat.sub_diag. split; [lia|]. split; [intros i Hi; lia|].
  rewrite Hg. split; intros (k & Hk & Hgk).
  - exists k. split; [|done]. destruct (decide (k = mark)) as [->|]; [|lia].
    apply (chunk_glob _ _ _ Hch) in Hgk. by replace (mark + (t - mark))%nat with t in Hgk by lia.
  - exists k. split; [lia|done].
Qed.

Lemma inv_end p t star mark :
  glob_inv p t star mark -> t = length text ->
  glob pat text <-> Forall (fun c => c = STAR) (drop p pat).
Proof.
  intros (Hp & Ht & Hs) ->. rewrite <- glob_stars. destruct star as [s|].
  - destruct Hs as (-> & Hch & ->). split.
    + intros (k & Hk & Hg). eapply chunk_advance in Hg as [Hg Hn]; [|done].
      by rewrite (drop_ge text) in Hg by lia.
    + intros Hg. exists mark. split; [lia|]. apply (chunk_glob _ _ _ Hch).
      by rewrite (drop_ge text) by lia.
  - rewrite Hs. by rewrite (drop_ge text) by lia.
Qed.

Lemma glob_loop_spec fuel p t star mark :
  glob_inv p t star mark ->
  ((length text - mark) * S (length pat) + (length pat - p) < fuel)%nat ->
  match glob_loop fuel pat text p t star mark with
  | Some p' => (p' <= length pat)%nat /\ (glob pat text <-> Forall (fun c => c = STAR) (drop p' pat))
  | None => ~ glob pat text
  end.
Proof.
  revert p t star mark. induction fuel as [|fuel IH]; intros p t star mark Hinv Hfuel; [by apply Nat.nlt_0_r in Hfuel|].
  assert (Hback : forall x, text !! t = Some x -> (forall c, pat !! p = Some c -> c <> STAR /\ ~ one c x) ->
    match match star with
          | Some s => glob_loop fuel pat text (S s) (S mark) star (S mark)
          | None => None
          end with
    | Some p' => (p' <= length pat)%nat /\ (glob pat text <-> Forall (fun c => c = STAR) (drop p' pat))
    | None => ~ glob pat text
    end).
  { intros x Hx Hmis. pose proof (inv_mismatch _ _ _ _ _ Hinv Hx Hmis) as Hnext.
    pose proof (lookup_lt_Some _ _ _ Hx). destruct Hinv as (? & ? & _).
    destruct star as [s|]; [|done]. apply IH; [done|].
    destruct Hnext as (? & ? & _).
    replace (length text - mark)%nat with (S (length text - S mark)) in Hfuel by lia. lia. }
  cbn [glob_loop]. destruct (text !! t) as [x|] eqn:Hx.
  2:{ apply lookup_ge_None in Hx. destruct Hinv as (? & ? & ?). split; [done|].
      apply (inv_end p t star mark); [done|lia]. }
  pose proof (lookup_lt_Some _ _ _ Hx). destruct (pat !! p) as [c|] eqn:Hc.
  2:{ by apply (Hback x). }
  pose proof (lookup_lt_Some _ _ _ Hc).
  destruct (Z.eqb_spec c STAR) as [->|Hns].
  { apply IH; [by eapply inv_star|]. destruct Hinv as (? & ? & _).
    pose proof (Nat.mul_le_mono_r (length text - t) (length text - mark) (S (length pat))). lia. }
  destruct ((c =? QUERY) || (fold c =? fold x)) eqn:Ho.
  - apply IH; [|lia]. apply (inv_match p t star mark c x); try done. unfold one. lia.
  - apply (Hback x); [done|]. intros c' [= <-]. split; [done|]. unfold one. lia.
Qed.
End Loop.

Lemma skip_stars_end pat p :
  (p <= length pat)%nat ->
  skip_while (fun c => c =? STAR) (length pat) pat p = length pat <->
  Forall (fun c => c = STAR) (drop p pat).
Proof.
  intros Hp. destruct (skip_while_spec (fun c => c =? STAR) (length pat) pat p) as (Hq & Hall & Hend); [lia|].
  set (q := skip_while _ _ _ _) in *. split.
  - intros Eq. rewrite Eq, take_ge in Hall by (rewrite length_drop; lia).
    eapply Forall_impl; [exact Hall|]. simpl. intros c. lia.
  - intros Hf. destruct (decide (q = length pat)) as [|Hne]; [done|]. exfalso.
    destruct (lookup_lt_is_Some_2 pat q) as [c Hc]; [lia|].
    assert (Hc' : drop p pat !! (q - p)%nat = Some c) by (rewrite lookup_drop; by replace (p + (q - p))%nat with q by lia).
    specialize (Hend c Hc). pose proof (Forall_lookup_1 _ _ _ _ Hf Hc') as E. simpl in E. lia.
Qed.

(** [glob_match] decides the declarative meaning of a pattern, for every pattern and
    every text: the single backtrack point loses no match, and the loop ends within the
    product of the two lengths. *)
Theorem mac_glob_correct (pat text : list Z) : glob_match pat text = true <-> glob pat text.
Proof.
  unfold glob_match.
  pose proof (glob_loop_spec pat text (glob_fuel pat text) 0 0 None 0) as Hspec.
  destruct (glob_loop _ pat text 0 0 None 0) as [p|].
  - destruct Hspec as [Hp ->]; [split; [lia|]; split; [lia|done]|unfold glob_fuel; lia|].
    rewrite <- skip_stars_end by done. apply Nat.eqb_eq.
  - split; [done|]. intros Hg. exfalso.
    apply Hspec; [split; [lia|]; split; [lia|done]|unfold glob_fuel; lia|done].
Qed.
