(* ===== verification/MacParse.v ===== *)
(** * The meaning of a profile

    A reference reading of profile text (lines, words, directives, grants), and the
    theorem that [parse] accepts exactly the texts it reads and that the resulting policy
    allows exactly what the grants say. *)

From S2P Require Import Prelude Bytes Mac.
Local Open Scope Z_scope.

(** ** The reference reading *)

Inductive grant : Type :=
| GAll
| GSyscall (n : Z)
| GFile (perms : Z) (pat : list Z)
| GNet (r : NetRule)
| GExec (pat : list Z).

(** The words of a line. *)
Definition nonempty (w : list Z) : bool := negb (length w =? 0)%nat.
Definition words (line : list Z) : list (list Z) := List.filter nonempty (split_on is_ws line).

Definition syscall_grant (tok : list Z) : option grant :=
  if bool_decide (tok = str "*") then Some GAll else GSyscall <$> lookup_syscall tok.

Definition file_grant (perms : Z) (tok : list Z) : option grant :=
  if valid_pattern tok then Some (GFile perms tok) else None.

Definition net_grant (ops : Z) (tok : list Z) : option grant :=
  colon ← rposition (fun b => b =? chr ":") tok;
  '(any, ip) ← (if bool_decide (take colon tok = str "*") then Some (true, 0)
                else ip ← parse_ip (take colon tok); Some (false, ip));
  '(lo, hi) ← parse_ports (drop (S colon) tok);
  Some (GNet (mkNetRule any ip ops lo hi)).

Definition exec_grant (tok : list Z) : option grant :=
  if valid_pattern tok then Some (GExec tok) else None.

(** A list of at least one token. *)
Definition some_grants (g : list Z -> option grant) (toks : list (list Z)) : option (list grant) :=
  match toks with [] => None | _ => mapM g toks end.

(** The bits of a permission or operation word. *)
Definition letter_bits (code : Z -> option Z) (tok : list Z) : option Z :=
  foldl Z.lor 0 <$> mapM code tok.

Definition mode_of (args : list (list Z)) : option bool :=
  match args with
  | [arg] =>
      if bool_decide (arg = str "enforce") then Some false
      else if bool_decide (arg = str "complain") then Some true else None
  | _ => None
  end.

(** A permission or operation word and at least one token. *)
Definition lettered (code : Z -> option Z) (g : Z -> list Z -> option grant) (toks : list (list Z)) :
    option (list grant) :=
  match toks with
  | [] => None
  | word :: toks => bits ← letter_bits code word; some_grants (g bits) toks
  end.

Definition allow_grants (args : list (list Z)) : option (list grant) :=
  match args with
  | [] => None
  | kind :: toks =>
      if bool_decide (kind = str "syscall") then some_grants syscall_grant toks
      else if bool_decide (kind = str "file") then lettered file_letter file_grant toks
      else if bool_decide (kind = str "net") then lettered net_letter net_grant toks
      else if bool_decide (kind = str "exec") then some_grants exec_grant toks
      else None
  end.

(** The mode and the grants of a line. *)
Definition directive (ws : list (list Z)) : option (option bool * list grant) :=
  match ws with
  | [] => Some (None, [])
  | word :: args =>
      if bool_decide (word = str "mode") then (fun m => (Some m, [])) <$> mode_of args
      else if bool_decide (word = str "allow") then (fun gs => (None, gs)) <$> allow_grants args
      else None
  end.

Definition file_rules (gs : list grant) : list (Z * list Z) :=
  omap (fun g => match g with GFile perms pat => Some (perms, pat) | _ => None end) gs.
Definition net_rules (gs : list grant) : list NetRule :=
  omap (fun g => match g with GNet r => Some r | _ => None end) gs.
Definition exec_rules (gs : list grant) : list (list Z) :=
  omap (fun g => match g with GExec pat => Some pat | _ => None end) gs.

(** Within the sizes of the rule arrays. *)
Definition fits (gs : list grant) : Prop :=
  (length (file_rules gs) <= MAX_FILE_RULES)%nat /\ (length (net_rules gs) <= MAX_NET_RULES)%nat /\
  (length (exec_rules gs) <= MAX_EXEC_RULES)%nat.
#[global] Instance fits_dec gs : Decision (fits gs).
Proof. unfold fits. apply _. Defined.

(** A line within its length, without its comment, read as a directive. *)
Definition read_line (raw : list Z) : option (option bool * list grant) :=
  let line := strip_cr raw in
  if (MAX_LINE <? length line)%nat then None else directive (words (strip_comment line)).

(** The whole text: complain mode or not, and the grants in order. *)
Definition profile (text : list Z) : option (bool * list grant) :=
  if (MAX_PROFILE_TEXT <? length text)%nat || negb (forallb text_byte text) then None
  else
    ds ← mapM read_line (split_on (fun b => b =? 10) text);
    let gs := concat (ds.*2) in
    match omap fst ds with
    | [] => if decide (fits gs) then Some (false, gs) else None
    | [mode] => if decide (fits gs) then Some (mode, gs) else None
    | _ => None
    end.

(** What the grants allow: every bit of a file operation is granted by some matching
    rule, a network operation by one rule. *)
Record means (pol : Policy) (gs : list grant) : Prop := {
  means_syscall n : 0 <= n -> exists b, allows_syscall pol n = Done b /\
    (b = true <-> n = SYS_EXIT \/ n = SYS_MAC_INFO \/
                  n < SYSCALL_LIMIT /\ (GAll ∈ gs \/ GSyscall n ∈ gs));
  means_file name op : exists b, allows_file pol name op = Done b /\
    (b = true <-> op <> 0 /\ forall i, 0 <= i -> Z.testbit op i = true ->
       exists perms pat, GFile perms pat ∈ gs /\ glob_match pat name = true /\ Z.testbit perms i = true);
  means_net op ip port : exists b, allows_net pol op ip port = Done b /\
    (b = true <-> exists r, GNet r ∈ gs /\ Z.land (r_ops r) op <> 0 /\ (any_ip r = true \/ r_ip r = ip) /\
                    port_lo r <= port <= port_hi r);
  means_exec name : exists b, allows_exec pol name = Done b /\
    (b = true <-> exists pat, GExec pat ∈ gs /\ glob_match pat name = true);
}.

(** ** Tokens *)

Lemma split_on_nonnil {A} (f : A -> bool) l : split_on f l <> [].
Proof. destruct l as [|x l]; simpl; [done|]. destruct (f x); [done|]. by destruct (split_on f l). Qed.

Lemma words_ws ws line : Forall (fun b => is_ws b = true) ws -> words (ws ++ line) = words line.
Proof.
  intros Hws. induction Hws as [|b ws Hb _ IH]; [done|]. unfold words in *. simpl. by rewrite Hb.
Qed.

Lemma words_word tok line :
  tok <> [] -> Forall (fun b => negb (is_ws b) = true) tok ->
  (forall b, head line = Some b -> negb (is_ws b) = false) ->
  words (tok ++ line) = tok :: words line.
Proof.
  intros Hne Htok Hline.
  assert (Hsplit : split_on is_ws (tok ++ line) =
    match split_on is_ws line with [] => [] | piece :: pieces => (tok ++ piece) :: pieces end).
  { clear Hne. induction Htok as [|b tok Hb _ IH]; simpl.
    - by destruct (split_on is_ws line).
    - apply negb_true_iff in Hb. rewrite Hb, IH. pose proof (split_on_nonnil is_ws line).
      by destruct (split_on is_ws line). }
  unfold words. rewrite Hsplit.
  assert (Hhead : exists pieces, split_on is_ws line = [] :: pieces).
  { destruct line as [|b line]; simpl; [by exists []|].
    specialize (Hline b eq_refl). apply negb_false_iff in Hline. rewrite Hline. by eexists. }
  destruct Hhead as [pieces ->]. rewrite app_nil_r. simpl.
  unfold nonempty at 1. by destruct tok.
Qed.

Lemma next_token_spec line pos :
  (pos <= length line)%nat ->
  match next_token line pos with
  | (None, _) => words (drop pos line) = []
  | (Some tok, pos') => words (drop pos line) = tok :: words (drop pos' line) /\ (pos < pos' <= length line)%nat
  end.
Proof.
  intros Hpos. unfold next_token.
  destruct (skip_while_spec is_ws (length line) line pos) as (Hp & Hws & Hstop); [lia|].
  set (p := skip_while is_ws _ _ _) in *.
  assert (E : words (drop pos line) = words (drop p line)).
  { rewrite <- (take_drop (p - pos) (drop pos line)), drop_drop.
    replace (pos + (p - pos))%nat with p by lia. by apply words_ws. }
  destruct (Nat.leb_spec (length line) p) as [Hge|Hlt].
  { rewrite E, drop_ge by lia. done. }
  destruct (skip_while_spec (fun b => negb (is_ws b)) (length line) line p) as (Hq & Htok & Hend); [lia|].
  set (q := skip_while _ (length line) line p) in *.
  destruct (lookup_lt_is_Some_2 line p Hlt) as [b Hb].
  assert (Hpq : (p < q)%nat).
  { destruct (decide (q = p)) as [Eq|]; [|lia]. specialize (Hend b). rewrite Eq in Hend.
    specialize (Hend Hb). specialize (Hstop b Hb). simpl in Hend. by rewrite Hstop in Hend. }
  split; [|lia]. rewrite E, <- (take_drop (q - p) (drop p line)) at 1. rewrite drop_drop.
  replace (p + (q - p))%nat with q by lia. apply words_word; [|done|].
  - intros Hnil. apply (f_equal length) in Hnil. rewrite length_take, length_drop in Hnil. simpl in Hnil. lia.
  - intros c Hc. apply Hend. rewrite <- Hc. rewrite head_lookup, lookup_drop. by rewrite Nat.add_0_r.
Qed.

(** ** Policies built from grants *)

Definition padded (pat : list Z) : list Z := pat ++ drop (length pat) (replicate PAT_LEN 0).
Definition file_rule (r : Z * list Z) : FileRule := mkFileRule (padded r.2) (length r.2) r.1.
Definition exec_rule (pat : list Z) : ExecRule := mkExecRule (padded pat) (length pat).

Record reads (pol : Policy) (gs : list grant) : Prop := {
  rd_all : all_syscalls pol = true <-> GAll ∈ gs;
  rd_words : length (syscalls pol) = 4%nat;
  rd_bits n w : 0 <= n < 128 -> syscalls pol !! Z.to_nat (n / 32) = Some w ->
                Z.testbit w (n mod 32) = true <-> GSyscall n ∈ gs;
  rd_files : length (files pol) = MAX_FILE_RULES;
  rd_nets : length (nets pol) = MAX_NET_RULES;
  rd_execs : length (execs pol) = MAX_EXEC_RULES;
  rd_nfiles : nfiles pol = length (file_rules gs);
  rd_nnets : nnets pol = length (net_rules gs);
  rd_nexecs : nexecs pol = length (exec_rules gs);
  rd_file_rules : take (nfiles pol) (files pol) = file_rule <$> file_rules gs;
  rd_net_rules : take (nnets pol) (nets pol) = net_rules gs;
  rd_exec_rules : take (nexecs pol) (execs pol) = exec_rule <$> exec_rules gs;
  rd_file_pats : Forall (fun r => (length r.2 <= PAT_LEN)%nat) (file_rules gs);
  rd_exec_pats : Forall (fun p => (length p <= PAT_LEN)%nat) (exec_rules gs);
  rd_fits : fits gs;
}.

Lemma empty_reads : reads Policy_EMPTY [].
Proof.
  split; try done.
  - split; [done|by intros ?%elem_of_nil].
  - intros n w Hn Hw. apply lookup_replicate in Hw as [-> _]. rewrite Z.bits_0.
    split; [done|by intros ?%elem_of_nil].
  - unfold fits. simpl. lia.
Qed.

Lemma elem_snoc (gs : list grant) g h : g ∈ gs ++ [h] <-> g ∈ gs \/ g = h.
Proof. rewrite elem_of_app, list_elem_of_singleton. done. Qed.

Lemma fits_prefix gs new : fits (gs ++ new) -> fits gs.
Proof.
  unfold fits, file_rules, net_rules, exec_rules. rewrite !omap_app, !length_app. lia.
Qed.

Lemma fits_quiet gs g :
  fits gs -> file_rules [g] = [] -> net_rules [g] = [] -> exec_rules [g] = [] -> fits (gs ++ [g]).
Proof.
  unfold fits, file_rules, net_rules, exec_rules. intros Hf F N E.
  by rewrite !omap_app, F, N, E, !app_nil_r.
Qed.

(** A grant that leaves the rule arrays alone. *)
Lemma reads_quiet pol pol' gs g :
  reads pol gs -> file_rules [g] = [] -> net_rules [g] = [] -> exec_rules [g] = [] ->
  files pol' = files pol -> nfiles pol' = nfiles pol -> nets pol' = nets pol -> nnets pol' = nnets pol ->
  execs pol' = execs pol -> nexecs pol' = nexecs pol -> length (syscalls pol') = 4%nat ->
  (all_syscalls pol' = true <-> GAll ∈ gs ++ [g]) ->
  (forall n w, 0 <= n < 128 -> syscalls pol' !! Z.to_nat (n / 32) = Some w ->
               Z.testbit w (n mod 32) = true <-> GSyscall n ∈ gs ++ [g]) ->
  reads pol' (gs ++ [g]).
Proof.
  intros [] F N E E1 E2 E3 E4 E5 E6 Hl Ha Hb.
  assert (EF : file_rules (gs ++ [g]) = file_rules gs) by (unfold file_rules in *; by rewrite omap_app, F, app_nil_r).
  assert (EN : net_rules (gs ++ [g]) = net_rules gs) by (unfold net_rules in *; by rewrite omap_app, N, app_nil_r).
  assert (EE : exec_rules (gs ++ [g]) = exec_rules gs) by (unfold exec_rules in *; by rewrite omap_app, E, app_nil_r).
  split; rewrite ?E1, ?E2, ?E3, ?E4, ?E5, ?E6, ?EF, ?EN, ?EE; try done.
  unfold fits. by rewrite EF, EN, EE.
Qed.

Lemma lookup_syscall_range tok n : lookup_syscall tok = Some n -> 1 <= n < 75.
Proof.
  unfold lookup_syscall. intros (i & Hi & [= <-])%bind_Some.
  apply position_Some in Hi as (x & Hx & _). apply lookup_lt_Some in Hx.
  change (length (drop 1 SYSCALL_NAMES)) with 74%nat in Hx. lia.
Qed.

(** What handling a token may do: throw, or take in the grants the reference reads. *)
Definition takes_in (pol : Policy) (gs : list grant) (m : comp ParseError Policy)
    (new : option (list grant)) : Prop :=
  match new with
  | Some new =>
      if decide (fits (gs ++ new))
      then exists pol', m = Ret pol' /\ reads pol' (gs ++ new) /\ complain pol' = complain pol
      else exists e, m = Throw e
  | None => exists e, m = Throw e
  end.

Definition single (g : grant) : list grant := [g].

Lemma set_bit_spec w n m :
  0 <= n -> 0 <= m -> n / 32 = m / 32 ->
  Z.testbit (Z.lor w (wrap32 (Z.shiftl 1 (n mod 32)))) (m mod 32) = true <->
  Z.testbit w (m mod 32) = true \/ m = n.
Proof.
  intros Hn Hm Hd. pose proof (Z.mod_pos_bound n 32 ltac:(lia)). pose proof (Z.mod_pos_bound m 32 ltac:(lia)).
  rewrite Z.shiftl_1_l. assert (Hw : wrap32 (2 ^ (n mod 32)) = 2 ^ (n mod 32)).
  { apply wrap32_id. unfold is_u32. split; [apply Z.pow_nonneg; lia|].
    change 4294967296 with (2 ^ 32). apply Z.pow_lt_mono_r; lia. }
  rewrite Hw, Z.lor_spec, orb_true_iff, Z.pow2_bits_eqb by lia. rewrite Z.eqb_eq.
  assert (E : m = n <-> n mod 32 = m mod 32).
  { rewrite (Z.div_mod n 32), (Z.div_mod m 32) at 1 by lia. lia. }
  tauto.
Qed.

Lemma add_syscall_ok ln tok pol gs :
  reads pol gs -> takes_in pol gs (add_syscall ln tok pol) (single <$> syscall_grant tok).
Proof.
  intros Hr. unfold add_syscall, syscall_grant. case_bool_decide as Hstar.
  - cbn [fmap option_fmap option_map takes_in]. destruct (decide _) as [Hf|Hf].
    + eexists. split; [done|]. split; [|done]. destruct Hr.
      eapply reads_quiet; try done; simpl; intros; rewrite ?elem_snoc; [naive_solver|naive_solver].
    + destruct Hf. by apply fits_quiet; [apply Hr|..].
  - destruct (lookup_syscall tok) as [n|] eqn:Hn; [|by eexists].
    apply lookup_syscall_range in Hn. csteps.
    assert (Hw : exists w, syscalls pol !! Z.to_nat (n / 32) = Some w).
    { apply lookup_lt_is_Some_2. rewrite (rd_words _ _ Hr). 
      assert (n / 32 < 3) by (apply Z.div_lt_upper_bound; lia). lia. }
    destruct Hw as [w Hw]. rewrite (index_at Hw). csteps.
    rewrite store_Done by (by eapply lookup_lt_Some). csteps.
    cbn [fmap option_fmap option_map takes_in]. destruct (decide _) as [Hf|Hf].
    2:{ destruct Hf. by apply fits_quiet; [apply Hr|..]. }
    eexists. split; [done|]. split; [|done].
    eapply reads_quiet; try done; simpl; [by rewrite length_insert; apply Hr| |].
    + rewrite elem_snoc. rewrite (rd_all _ _ Hr). naive_solver.
    + intros m v Hm Hv. rewrite elem_snoc.
      destruct (decide (n / 32 = m / 32)) as [Ed|Ed].
      * rewrite <- Ed, list_lookup_insert_eq in Hv by (by eapply lookup_lt_Some).
        injection Hv as <-. rewrite set_bit_spec by lia. rewrite Ed in Hw.
        rewrite (rd_bits _ _ Hr m w Hm Hw). naive_solver.
      * rewrite list_lookup_insert_ne in Hv.
        -- rewrite (rd_bits _ _ Hr m v Hm Hv). naive_solver.
        -- intros E. apply Ed. apply Z2Nat.inj in E; [done| |]; apply Z.div_pos; lia.
Qed.

Ltac tsimpl :=
  cbn [mbind comp_bind option_bind mret comp_ret option_ret lift ok_or negb andb orb fmap option_fmap option_map takes_in].

(** The next free entry of a rule array. *)
Lemma take_append {A} (l : list A) n (x : A) :
  (n < length l)%nat -> take (S n) (<[n := x]> l) = take n l ++ [x].
Proof.
  intros Hn. rewrite (take_S_r _ _ x) by (by apply list_lookup_insert_eq).
  by rewrite take_insert_ge by lia.
Qed.

Lemma valid_pattern_len pat : valid_pattern pat = true -> (length pat <= PAT_LEN)%nat.
Proof. unfold valid_pattern. rewrite !andb_true_iff. intros [[_ Hl] _]. lia. Qed.

Lemma elem_quiet (gs : list grant) g h : g <> h -> g ∈ gs ++ [h] <-> g ∈ gs.
Proof. intros Hne. rewrite elem_snoc. naive_solver. Qed.

Lemma add_file_ok ln perms tok pol gs :
  reads pol gs -> takes_in pol gs (add_file ln perms tok pol) (single <$> file_grant perms tok).
Proof.
  intros Hr. unfold add_file, file_grant. destruct (valid_pattern tok) eqn:Hv; tsimpl; [|by eexists].
  apply valid_pattern_len in Hv. pose proof (rd_nfiles _ _ Hr) as En. pose proof (rd_files _ _ Hr) as El.
  assert (EF : file_rules (gs ++ [GFile perms tok]) = file_rules gs ++ [(perms, tok)])
    by (unfold file_rules; by rewrite omap_app).
  assert (EN : net_rules (gs ++ [GFile perms tok]) = net_rules gs) by (unfold net_rules; by rewrite omap_app, app_nil_r).
  assert (EE : exec_rules (gs ++ [GFile perms tok]) = exec_rules gs) by (unfold exec_rules; by rewrite omap_app, app_nil_r).
  destruct (decide _) as [Hf|Hf].
  - assert (Hlt : (nfiles pol < MAX_FILE_RULES)%nat).
    { destruct Hf as [Hf _]. unfold single in Hf. rewrite EF, length_app in Hf. simpl in Hf. lia. }
    replace (MAX_FILE_RULES <=? nfiles pol)%nat with false by lia.
    rewrite copy_prefix_Done by exact Hv. csteps.
    rewrite store_Done by lia. csteps. eexists. split; [done|]. split; [|done].
    destruct Hr. unfold single. split; simpl; rewrite ?EF, ?EN, ?EE, ?length_app, ?length_insert; try done.
    + by rewrite elem_quiet.
    + intros n w Hn Hw. rewrite elem_quiet by done. by apply rd_bits0.
    + simpl. lia.
    + rewrite take_append by lia. by rewrite rd_file_rules0, fmap_app.
    + apply Forall_app. split; [done|]. by apply Forall_singleton.
  - replace (MAX_FILE_RULES <=? nfiles pol)%nat with true; [by eexists|].
    symmetry. apply Nat.leb_le. destruct (decide (MAX_FILE_RULES <= nfiles pol)%nat); [done|]. destruct Hf.
    destruct (rd_fits _ _ Hr) as (? & ? & ?). unfold single, fits. rewrite EF, EN, EE, length_app. simpl. lia.
Qed.

Lemma add_exec_ok ln tok pol gs :
  reads pol gs -> takes_in pol gs (add_exec ln tok pol) (single <$> exec_grant tok).
Proof.
  intros Hr. unfold add_exec, exec_grant. destruct (valid_pattern tok) eqn:Hv; tsimpl; [|by eexists].
  apply valid_pattern_len in Hv. pose proof (rd_nexecs _ _ Hr) as En. pose proof (rd_execs _ _ Hr) as El.
  assert (EF : file_rules (gs ++ [GExec tok]) = file_rules gs) by (unfold file_rules; by rewrite omap_app, app_nil_r).
  assert (EN : net_rules (gs ++ [GExec tok]) = net_rules gs) by (unfold net_rules; by rewrite omap_app, app_nil_r).
  assert (EE : exec_rules (gs ++ [GExec tok]) = exec_rules gs ++ [tok]) by (unfold exec_rules; by rewrite omap_app).
  destruct (decide _) as [Hf|Hf].
  - assert (Hlt : (nexecs pol < MAX_EXEC_RULES)%nat).
    { destruct Hf as (_ & _ & Hf). unfold single in Hf. rewrite EE, length_app in Hf. simpl in Hf. lia. }
    replace (MAX_EXEC_RULES <=? nexecs pol)%nat with false by lia.
    rewrite copy_prefix_Done by exact Hv. csteps.
    rewrite store_Done by lia. csteps. eexists. split; [done|]. split; [|done].
    destruct Hr. unfold single. split; simpl; rewrite ?EF, ?EN, ?EE, ?length_app, ?length_insert; try done.
    + by rewrite elem_quiet.
    + intros n w Hn Hw. rewrite elem_quiet by done. by apply rd_bits0.
    + simpl. lia.
    + rewrite take_append by lia. by rewrite rd_exec_rules0, fmap_app.
    + apply Forall_app. split; [done|]. by apply Forall_singleton.
  - replace (MAX_EXEC_RULES <=? nexecs pol)%nat with true; [by eexists|].
    symmetry. apply Nat.leb_le. destruct (decide (MAX_EXEC_RULES <= nexecs pol)%nat); [done|]. destruct Hf.
    destruct (rd_fits _ _ Hr) as (? & ? & ?). unfold single, fits. rewrite EF, EN, EE, length_app. simpl. lia.
Qed.

Lemma add_net_ok ln ops tok pol gs :
  reads pol gs -> takes_in pol gs (add_net ln ops tok pol) (single <$> net_grant ops tok).
Proof.
  intros Hr. unfold add_net, net_grant.
  destruct (rposition _ tok) as [colon|]; tsimpl; [|by eexists].
  destruct (if bool_decide (take colon tok = str "*") then Some (true, 0)
            else ip ← parse_ip (take colon tok); Some (false, ip)) as [[any ip]|] eqn:Hip.
  2:{ case_bool_decide; [done|]. destruct (parse_ip _); [done|]. by eexists. }
  replace (if bool_decide (take colon tok = str "*") then Ret (true, 0)
           else ip ← ok_or (parse_ip (take colon tok)) (BadAddress ln); Ret (false, ip))
    with (@Ret ParseError _ (any, ip))
    by (case_bool_decide; [by simplify_eq|]; destruct (parse_ip _); by simplify_eq/=).
  tsimpl. destruct (parse_ports (drop (S colon) tok)) as [[lo hi]|]; tsimpl; [|by eexists].
  set (r := mkNetRule any ip ops lo hi). pose proof (rd_nnets _ _ Hr) as En. pose proof (rd_nets _ _ Hr) as El.
  assert (EF : file_rules (gs ++ [GNet r]) = file_rules gs) by (unfold file_rules; by rewrite omap_app, app_nil_r).
  assert (EN : net_rules (gs ++ [GNet r]) = net_rules gs ++ [r]) by (unfold net_rules; by rewrite omap_app).
  assert (EE : exec_rules (gs ++ [GNet r]) = exec_rules gs) by (unfold exec_rules; by rewrite omap_app, app_nil_r).
  destruct (decide _) as [Hf|Hf].
  - assert (Hlt : (nnets pol < MAX_NET_RULES)%nat).
    { destruct Hf as (_ & Hf & _). unfold single in Hf. rewrite EN, length_app in Hf. simpl in Hf. lia. }
    replace (MAX_NET_RULES <=? nnets pol)%nat with false by lia.
    rewrite store_Done by lia. csteps. eexists. split; [done|]. split; [|done].
    destruct Hr. unfold single. split; simpl; rewrite ?EF, ?EN, ?EE, ?length_app, ?length_insert; try done.
    + by rewrite elem_quiet.
    + intros n w Hn Hw. rewrite elem_quiet by done. by apply rd_bits0.
    + simpl. lia.
    + rewrite take_append by lia. by rewrite rd_net_rules0.
  - replace (MAX_NET_RULES <=? nnets pol)%nat with true; [by eexists|].
    symmetry. apply Nat.leb_le. destruct (decide (MAX_NET_RULES <= nnets pol)%nat); [done|]. destruct Hf.
    destruct (rd_fits _ _ Hr) as (? & ? & ?). unfold single, fits. rewrite EF, EN, EE, length_app. simpl. lia.
Qed.

(** ** Token lists, directives, lines *)

Section Tokens.
Context (add : list Z -> Policy -> comp ParseError Policy) (g : list Z -> option grant).
Hypothesis (Hadd : forall tok pol gs, reads pol gs -> takes_in pol gs (add tok pol) (single <$> g tok)).

Lemma token_loop_ok fuel line pos any pol gs :
  reads pol gs -> (pos <= length line)%nat -> (length line - pos < fuel)%nat ->
  let toks := words (drop pos line) in
  match mapM g toks with
  | Some new =>
      if decide (fits (gs ++ new))
      then exists pol', token_loop fuel add line pos any pol = Ret (any || negb (length toks =? 0)%nat, pol') /\
             reads pol' (gs ++ new) /\ complain pol' = complain pol
      else exists e, token_loop fuel add line pos any pol = Throw e
  | None => exists e, token_loop fuel add line pos any pol = Throw e
  end.
Proof.
  revert pos any pol gs. induction fuel as [|fuel IH]; intros pos any pol gs Hr Hpos Hfuel; [lia|].
  cbn [token_loop]. pose proof (next_token_spec line pos Hpos) as Hnext.
  destruct (next_token line pos) as [[tok|] pos'].
  2:{ cbv zeta. rewrite Hnext. cbn [mapM mret option_ret length Nat.eqb negb]. rewrite app_nil_r, orb_false_r.
      rewrite decide_True by apply Hr. by exists pol. }
  destruct Hnext as [-> Hpos']. cbn [mapM mret option_ret length Nat.eqb negb]. rewrite orb_true_r.
  specialize (Hadd tok pol gs Hr). unfold takes_in in Hadd.
  destruct (g tok) as [x|].
  2:{ destruct Hadd as [e ->]. tsimpl. by eexists. }
  cbn [fmap option_fmap option_map] in Hadd. destruct (decide (fits (gs ++ single x))) as [Hf|Hf].
  - destruct Hadd as (pol1 & -> & Hr1 & Hc1). tsimpl.
    specialize (IH pos' true pol1 _ Hr1 ltac:(lia) ltac:(lia)). cbv zeta in IH.
    destruct (mapM g (words (drop pos' line))) as [new|]; tsimpl; [|done].
    rewrite <- app_assoc in IH. cbn [single app] in IH. rewrite <- Hc1. exact IH.
  - destruct Hadd as [e ->]. tsimpl.
    destruct (mapM g (words (drop pos' line))) as [new|]; tsimpl; [|by eexists].
    rewrite decide_False; [by eexists|]. intros Hf'. apply Hf.
    change (x :: new) with (single x ++ new) in Hf'. rewrite app_assoc in Hf'. by eapply fits_prefix.
Qed.

Lemma token_list_ok ln line pos pol gs :
  reads pol gs -> (pos <= length line)%nat ->
  takes_in pol gs (token_list ln add line pos pol) (some_grants g (words (drop pos line))).
Proof.
  intros Hr Hpos. pose proof (token_loop_ok (S (length line)) line pos false pol gs Hr Hpos ltac:(lia)) as H.
  unfold token_list, some_grants. cbv zeta in H.
  destruct (words (drop pos line)) as [|tok toks] eqn:Ew.
  - cbn [mapM mret option_ret length Nat.eqb negb orb] in H. rewrite app_nil_r, decide_True in H by apply Hr.
    destruct H as (pol' & -> & _). tsimpl. by eexists.
  - unfold takes_in. destruct (mapM g (tok :: toks)) as [new|].
    2:{ destruct H as [e ->]. tsimpl. by eexists. }
    destruct (decide _); [|destruct H as [e ->]; tsimpl; by eexists].
    destruct H as (pol' & -> & Hr' & Hc'). tsimpl. by exists pol'.
Qed.
End Tokens.

Lemma letters_spec ln code tok acc :
  letters ln code tok acc =
    match mapM code tok with Some l => Ret (foldl Z.lor acc l) | None => Throw (Syntax ln) end.
Proof.
  revert acc. induction tok as [|c tok IH]; intros acc; cbn [letters mapM mret option_ret]; [done|].
  destruct (code c) as [v|]; tsimpl; [|done]. rewrite IH. by destruct (mapM code tok).
Qed.

Lemma lettered_ok ln code add g line pos pol gs :
  (forall bits tok pol gs, reads pol gs -> takes_in pol gs (add bits tok pol) (single <$> g bits tok)) ->
  reads pol gs -> (pos <= length line)%nat ->
  takes_in pol gs
    (let '(word, pos) := next_token line pos in
     word ← ok_or word (Syntax ln);
     bits ← letters ln code word 0;
     token_list ln (add bits) line pos pol)
    (lettered code g (words (drop pos line))).
Proof.
  intros Hadd Hr Hpos. pose proof (next_token_spec line pos Hpos) as Hnext.
  destruct (next_token line pos) as [[word|] pos']; tsimpl.
  2:{ rewrite Hnext. by eexists. }
  destruct Hnext as [-> Hpos']. rewrite letters_spec. unfold lettered, letter_bits.
  destruct (mapM code word) as [l|]; tsimpl; [|by eexists].
  apply token_list_ok; [by apply Hadd|done|lia].
Qed.

Lemma parse_allow_ok ln line pos pol gs :
  reads pol gs -> (pos <= length line)%nat ->
  takes_in pol gs (parse_allow ln line pos pol) (allow_grants (words (drop pos line))).
Proof.
  intros Hr Hpos. unfold parse_allow, allow_grants.
  pose proof (next_token_spec line pos Hpos) as Hnext.
  destruct (next_token line pos) as [[kind|] pos']; tsimpl.
  2:{ rewrite Hnext. by eexists. }
  destruct Hnext as [-> Hpos']. repeat case_bool_decide.
  - apply token_list_ok; [apply add_syscall_ok|done|lia].
  - apply (lettered_ok ln file_letter (add_file ln)); [apply add_file_ok|done|lia].
  - apply (lettered_ok ln net_letter (add_net ln)); [apply add_net_ok|done|lia].
  - apply token_list_ok; [apply add_exec_ok|done|lia].
  - by eexists.
Qed.

Lemma parse_mode_ok ln line pos pol :
  (pos <= length line)%nat ->
  match mode_of (words (drop pos line)) with
  | Some m => parse_mode ln line pos pol = Ret (set_complain m pol)
  | None => exists e, parse_mode ln line pos pol = Throw e
  end.
Proof.
  intros Hpos. unfold parse_mode. pose proof (next_token_spec line pos Hpos) as Hnext.
  destruct (next_token line pos) as [[arg|] pos']; tsimpl.
  2:{ rewrite Hnext. by eexists. }
  destruct Hnext as [-> Hpos']. unfold mode_of.
  pose proof (next_token_spec line pos' ltac:(lia)) as Hnext.
  destruct (next_token line pos') as [[arg2|] pos'']; [destruct Hnext as [-> _]|rewrite Hnext];
    repeat case_bool_decide; tsimpl; (done || by eexists).
Qed.

Lemma reads_complain m pol gs : reads pol gs -> reads (set_complain m pol) gs.
Proof. intros []. by split. Qed.

Lemma parse_line_ok ln raw pol seen gs :
  reads pol gs ->
  match read_line raw with
  | Some (m, new) =>
      if decide (fits (gs ++ new) /\ (m = None \/ seen = false)) then
        exists pol', parse_line ln raw pol seen = Ret (pol', match m with Some _ => true | None => seen end) /\
          reads pol' (gs ++ new) /\ complain pol' = default (complain pol) m
      else exists e, parse_line ln raw pol seen = Throw e
  | None => exists e, parse_line ln raw pol seen = Throw e
  end.
Proof.
  intros Hr. unfold read_line, parse_line. destruct (_ <? _)%nat; [by eexists|].
  set (line := strip_comment (strip_cr raw)). pose proof (next_token_spec line 0 ltac:(lia)) as Hnext.
  rewrite drop_0 in Hnext. destruct (next_token line 0) as [[word|] pos].
  2:{ rewrite Hnext. simpl. rewrite app_nil_r, decide_True; [by exists pol|]. split; [apply Hr|by left]. }
  destruct Hnext as [-> Hpos]. cbn [directive]. case_bool_decide.
  - pose proof (parse_mode_ok ln line pos pol ltac:(lia)) as Hm.
    destruct (mode_of (words (drop pos line))) as [m|]; cbn [fmap option_fmap option_map].
    2:{ destruct Hm as [e ->]. destruct seen; by eexists. }
    rewrite app_nil_r, Hm. destruct seen; tsimpl.
    + rewrite decide_False by naive_solver. by eexists.
    + rewrite decide_True by (split; [apply Hr|by right]). eexists. split; [done|].
      split; [by apply reads_complain|done].
  - case_bool_decide; cbn [negb]; [|by eexists].
    pose proof (parse_allow_ok ln line pos pol gs Hr ltac:(lia)) as Ha. unfold takes_in in Ha.
    destruct (allow_grants (words (drop pos line))) as [new|]; cbn [fmap option_fmap option_map].
    2:{ destruct Ha as [e ->]. by eexists. }
    destruct (decide (fits (gs ++ new))) as [Hf|Hf].
    + rewrite decide_True by naive_solver. destruct Ha as (pol' & -> & Hr' & Hc'). tsimpl. by exists pol'.
    + rewrite decide_False by naive_solver. destruct Ha as [e ->]. by eexists.
Qed.

Lemma parse_lines_ok raws ln pol seen gs :
  reads pol gs ->
  match mapM read_line raws with
  | Some ds =>
      let new := concat (ds.*2) in
      let modes := omap fst ds in
      if decide (fits (gs ++ new) /\ (length modes + (if seen : bool then 1 else 0) <= 1)%nat) then
        exists pol', parse_lines raws ln pol seen = Ret pol' /\ reads pol' (gs ++ new) /\
          complain pol' = default (complain pol) (head modes)
      else exists e, parse_lines raws ln pol seen = Throw e
  | None => exists e, parse_lines raws ln pol seen = Throw e
  end.
Proof.
  revert ln pol seen gs. induction raws as [|raw raws IH]; intros ln pol seen gs Hr.
  { simpl. rewrite app_nil_r, decide_True; [by exists pol|]. split; [apply Hr|]. destruct seen; lia. }
  cbn [parse_lines mapM]. pose proof (parse_line_ok (Z.min 65535 (ln + 1)) raw pol seen gs Hr) as Hl.
  destruct (read_line raw) as [[m new]|]; tsimpl.
  2:{ destruct Hl as [e ->]. by eexists. }
  destruct (decide (fits (gs ++ new) /\ (m = None \/ seen = false))) as [[Hf Hs]|Hbad].
  - destruct Hl as (pol1 & -> & Hr1 & Hc1). tsimpl.
    specialize (IH (Z.min 65535 (ln + 1)) pol1 (match m with Some _ => true | None => seen end) _ Hr1).
    destruct (mapM read_line raws) as [ds|]; tsimpl; [|done]. cbv zeta in *. csimpl.
    rewrite <- app_assoc in IH.
    assert (Hmodes : (length (omap fst ((m, new) :: ds)) + (if seen then 1 else 0))%nat =
      (length (omap fst ds) + (if match m with Some _ => true | None => seen end then 1 else 0))%nat).
    { destruct m; csimpl; [|done]. destruct Hs as [Hs | Hs]; [done|]. subst. lia. }
    csimpl in Hmodes. rewrite Hmodes. destruct (decide _) as [[Hf' Hm']|]; [|done].
    destruct IH as (pol' & E & Hr' & Hc'). exists pol'. split; [done|]. split; [done|].
    rewrite Hc', Hc1. destruct m as [m|]; csimpl; [|done].
    destruct (omap fst ds); csimpl in *; [done|lia].
  - destruct Hl as [e ->]. destruct (mapM read_line raws) as [ds|]; tsimpl; [|by eexists].
    cbv zeta. rewrite decide_False; [by eexists|]. csimpl. rewrite app_assoc. intros [Hf' Hm'].
    apply Hbad. split; [by eapply fits_prefix|]. destruct m; [|by left]. right.
    destruct seen; [simpl in Hm'; lia|done].
Qed.

(** ** What a policy allows *)

Lemma land_full g op : Z.land g op = op <-> forall i, 0 <= i -> Z.testbit op i = true -> Z.testbit g i = true.
Proof.
  split.
  - intros E i _ Hi. rewrite <- E, Z.land_spec in Hi. by apply andb_true_iff in Hi as [? _].
  - intros H. apply Z.bits_inj. intros i. rewrite Z.land_spec.
    destruct (decide (0 <= i)); [|by rewrite !Z.testbit_neg_r by lia].
    destruct (Z.testbit op i) eqn:Hi; [by rewrite H|apply andb_false_r].
Qed.

Lemma file_pattern r : (length r.2 <= PAT_LEN)%nat -> f_pattern (file_rule r) = Done r.2.
Proof.
  intros Hl. unfold f_pattern, file_rule. simpl. unfold padded.
  rewrite slice_to_Done by (rewrite length_app; lia). by rewrite take_app_length.
Qed.

Lemma exec_pattern p : (length p <= PAT_LEN)%nat -> e_pattern (exec_rule p) = Done p.
Proof.
  intros Hl. unfold e_pattern, exec_rule. simpl. unfold padded.
  rewrite slice_to_Done by (rewrite length_app; lia). by rewrite take_app_length.
Qed.

Lemma granted_perms_spec rules name acc :
  Forall (fun r => (length r.2 <= PAT_LEN)%nat) rules ->
  exists g, granted_perms (file_rule <$> rules) name acc = Done g /\
    forall i, 0 <= i -> Z.testbit g i = true <->
      Z.testbit acc i = true \/ exists r, r ∈ rules /\ glob_match r.2 name = true /\ Z.testbit r.1 i = true.
Proof.
  intros Hl. revert acc. induction Hl as [|r rules Hr _ IH]; intros acc.
  { exists acc. split; [done|]. intros i _. split; [by left|]. intros [|(r & Hin%elem_of_nil & _)]; done. }
  cbn [fmap list_fmap granted_perms]. rewrite file_pattern by done. osimpl.
  destruct (IH (if glob_match r.2 name then Z.lor acc (f_perms (file_rule r)) else acc)) as (g & -> & Hg).
  exists g. split; [done|]. intros i Hi. rewrite Hg by done.
  assert (Hex : (exists r', r' ∈ r :: rules /\ glob_match r'.2 name = true /\ Z.testbit r'.1 i = true) <->
    glob_match r.2 name = true /\ Z.testbit r.1 i = true \/
    exists r', r' ∈ rules /\ glob_match r'.2 name = true /\ Z.testbit r'.1 i = true).
  { split.
    - intros (r' & [->|Hin]%elem_of_cons & H1 & H2); [by left|right; by exists r'].
    - intros [[H1 H2]|(r' & Hin & H1 & H2)]; [exists r|exists r']; by rewrite elem_of_cons; auto. }
  rewrite Hex. destruct (glob_match r.2 name).
  - rewrite Z.lor_spec, orb_true_iff. change (f_perms (file_rule r)) with r.1. tauto.
  - split; [tauto|]. intros [|[[? _]|]]; [by left|done|by right].
Qed.

Lemma any_exec_spec rules name :
  Forall (fun p => (length p <= PAT_LEN)%nat) rules ->
  exists b, any_exec (exec_rule <$> rules) name = Done b /\
    (b = true <-> exists p, p ∈ rules /\ glob_match p name = true).
Proof.
  induction 1 as [|p rules Hp _ IH]; cbn [fmap list_fmap any_exec].
  { exists false. split; [done|]. split; [done|]. by intros (p & ?%elem_of_nil & _). }
  rewrite exec_pattern by done. osimpl. destruct (glob_match p name) eqn:Hm.
  { exists true. split; [done|]. split; [|done]. intros _. exists p. split; [by left|done]. }
  destruct IH as (b & -> & Hb). exists b. split; [done|]. rewrite Hb. split.
  - intros (p' & Hin & Hg). exists p'. split; [by right|done].
  - intros (p' & [->|Hin]%elem_of_cons & Hg); [congruence|by exists p'].
Qed.

Lemma elem_file_rules gs perms pat : (perms, pat) ∈ file_rules gs <-> GFile perms pat ∈ gs.
Proof.
  unfold file_rules. rewrite list_elem_of_omap. split; [|by eexists].
  intros (g & Hg & E). destruct g; by simplify_eq.
Qed.

Lemma elem_net_rules gs r : r ∈ net_rules gs <-> GNet r ∈ gs.
Proof.
  unfold net_rules. rewrite list_elem_of_omap. split; [|by eexists].
  intros (g & Hg & E). destruct g; by simplify_eq.
Qed.

Lemma elem_exec_rules gs pat : pat ∈ exec_rules gs <-> GExec pat ∈ gs.
Proof.
  unfold exec_rules. rewrite list_elem_of_omap. split; [|by eexists].
  intros (g & Hg & E). destruct g; by simplify_eq.
Qed.

Lemma reads_syscall pol gs n :
  reads pol gs -> 0 <= n -> exists b, allows_syscall pol n = Done b /\
    (b = true <-> n = SYS_EXIT \/ n = SYS_MAC_INFO \/ n < SYSCALL_LIMIT /\ (GAll ∈ gs \/ GSyscall n ∈ gs)).
Proof.
  intros Hr Hn. unfold allows_syscall, SYSCALL_LIMIT.
  destruct ((n =? SYS_EXIT) || (n =? SYS_MAC_INFO)) eqn:He.
  { exists true. split; [done|]. lia. }
  destruct (Z.leb_spec 128 n) as [Hge|Hlt]; [exists false; split; [done|]; split; [done|]; lia|].
  destruct (all_syscalls pol) eqn:Ha.
  { exists true. split; [done|]. apply (rd_all _ _ Hr) in Ha. split; [|done]. auto. }
  assert (Hna : ~ GAll ∈ gs) by (intros Hin%(rd_all _ _ Hr); congruence).
  destruct (lookup_lt_is_Some_2 (syscalls pol) (Z.to_nat (n / 32))) as [w Hw].
  { rewrite (rd_words _ _ Hr). assert (n / 32 < 4) by (apply Z.div_lt_upper_bound; lia). lia. }
  oindex Hw. eexists. split; [done|].
  assert (E : (Z.land (Z.shiftr w (n mod 32)) 1 =? 1) = Z.testbit w (n mod 32)).
  { rewrite Z.testbit_odd, (Z.land_ones _ 1) by lia. change (2 ^ 1) with 2.
    rewrite Zmod_odd. by destruct (Z.odd _). }
  rewrite E, (rd_bits _ _ Hr n w ltac:(lia) Hw). split; [by auto|].
  intros [->|[->|[_ [?|?]]]]; done.
Qed.

Lemma reads_means pol gs : reads pol gs -> means pol gs.
Proof.
  intros Hr. split.
  - intros n. by apply reads_syscall.
  - intros name op. unfold allows_file. destruct (Z.eqb_spec op 0) as [->|Hop].
    { exists false. split; [done|]. split; [done|]. by intros [? _]. }
    rewrite slice_to_Done by (rewrite (rd_files _ _ Hr), (rd_nfiles _ _ Hr); apply Hr). osimpl.
    rewrite (rd_file_rules _ _ Hr).
    destruct (granted_perms_spec (file_rules gs) name 0 (rd_file_pats _ _ Hr)) as (g & -> & Hg). osimpl.
    eexists. split; [done|]. rewrite Z.eqb_eq, land_full. split.
    + intros Hall. split; [done|]. intros i Hi Hbit. apply Hall in Hbit; [|done].
      apply Hg in Hbit as [Hz|([perms pat] & Hin & Hm & Hb)]; [by rewrite Z.bits_0 in Hz| |done].
      exists perms, pat. by rewrite <- elem_file_rules.
    + intros [_ Hall] i Hi Hbit. apply Hg; [done|]. right.
      destruct (Hall i Hi Hbit) as (perms & pat & Hin & Hm & Hb). exists (perms, pat).
      by rewrite elem_file_rules.
  - intros op ip port. unfold allows_net.
    rewrite slice_to_Done by (rewrite (rd_nets _ _ Hr), (rd_nnets _ _ Hr); apply Hr). osimpl.
    rewrite (rd_net_rules _ _ Hr). eexists. split; [done|]. rewrite existsb_exists. unfold net_rule_allows.
    split; intros (r & Hin & Hall); exists r.
    + split; [by apply elem_net_rules, list_elem_of_In|]. lia.
    + rewrite <- elem_net_rules, list_elem_of_In in Hin. split; [done|]. lia.
  - intros name. unfold allows_exec.
    rewrite slice_to_Done by (rewrite (rd_execs _ _ Hr), (rd_nexecs _ _ Hr); apply Hr). osimpl.
    rewrite (rd_exec_rules _ _ Hr).
    destruct (any_exec_spec (exec_rules gs) name (rd_exec_pats _ _ Hr)) as (b & -> & Hb).
    exists b. split; [done|]. rewrite Hb. by setoid_rewrite elem_exec_rules.
Qed.

Lemma parse_reads text :
  match parse text, profile text with
  | Ret pol, Some (mode, gs) => complain pol = mode /\ reads pol gs
  | Throw _, None => True
  | _, _ => False
  end.
Proof.
  unfold parse, profile. destruct (_ <? _)%nat; [done|]. destruct (forallb text_byte text); [|done].
  cbn [negb orb].
  pose proof (parse_lines_ok (split_on (fun b => b =? 10) text) 0 Policy_EMPTY false [] empty_reads) as H.
  destruct (mapM read_line _) as [ds|]; [|by destruct H as [e ->]].
  cbn [mbind option_bind]. cbv zeta in H. cbn [app] in H. rewrite Nat.add_0_r in H.
  destruct (omap fst ds) as [|m [|m' ms]]; cbn [length head] in H.
  - destruct (decide (fits (concat (ds.*2)))) as [Hf|Hf].
    + rewrite decide_True in H by (split; [done|lia]). by destruct H as (pol & -> & Hr & Hc).
    + rewrite decide_False in H by tauto. by destruct H as [e ->].
  - destruct (decide (fits (concat (ds.*2)))) as [Hf|Hf].
    + rewrite decide_True in H by (split; [done|lia]). by destruct H as (pol & -> & Hr & Hc).
    + rewrite decide_False in H by tauto. by destruct H as [e ->].
  - rewrite decide_False in H by lia. by destruct H as [e ->].
Qed.

(** C11: the profile parser is correct and default-deny: it accepts exactly the texts the
    reference reading accepts, never panics, and the policy it builds has the declared mode
    and allows a system call, file operation, network operation or program start exactly
    when some directive of the text grants it (exit and asking for the profile always). *)
Theorem mac_parse_correct (text : list Z) :
  match parse text, profile text with
  | Ret pol, Some (mode, gs) => complain pol = mode /\ means pol gs
  | Throw _, None => True
  | _, _ => False
  end.
Proof.
  pose proof (parse_reads text) as H. destruct (parse text) as [pol|e|], (profile text) as [[mode gs]|]; try done.
  destruct H as [? Hr]. split; [done|]. by apply reads_means.
Qed.
