(* ===== verification/MacTable.v ===== *)
(** * The profile table

    The invariant of the table, what evaluating a stack answers, that profiles never
    change once loaded, and that starting a program only adds confinement. *)

From S2P Require Import Prelude Bytes Mac MacParse.
Local Open Scope Z_scope.

(** ** Invariant *)

Record slot_ok (s : Slot) : Prop := {
  sl_name : length (s_name s) = NAME_LEN;
  sl_len : (s_name_len s <= NAME_LEN)%nat;
  sl_policy : exists gs, reads (policy s) gs;
}.

(** Name and policy, what identifies a profile. *)
Definition key (s : Slot) : list Z * Policy := (take (s_name_len s) (s_name s), policy s).

Record mac_inv (m : Mac) : Prop := {
  mi_slots : length (slots m) = MAX_PROFILES;
  mi_audit : length (audit m) = AUDIT_LEN;
  mi_next : is_u32 (audit_next m);
  mi_ok : Forall slot_ok (slots m);
  mi_unique i j s t : slots m !! i = Some s -> slots m !! j = Some t ->
    in_use s = true -> in_use t = true -> key s = key t -> i = j;
}.

Lemma empty_slot_ok : slot_ok Slot_EMPTY.
Proof.
  split; [apply length_replicate|apply Nat.le_0_l|]. exists []. apply empty_reads.
Qed.

Lemma new_inv : mac_inv Mac_new.
Proof.
  split; try apply length_replicate.
  - unfold is_u32. simpl. lia.
  - apply Forall_replicate, empty_slot_ok.
  - intros i j s t Hs Ht Hu. by apply lookup_replicate in Hs as [-> _].
Qed.

(** The same profiles: only counters and the audit log may differ. *)
Definition same_profile (s t : Slot) : Prop := in_use t = in_use s /\ s_name t = s_name s /\
  s_name_len t = s_name_len s /\ policy t = policy s.

Record same_profiles (m m' : Mac) : Prop := {
  sp_frozen : frozen m' = frozen m;
  sp_slots : Forall2 same_profile (slots m) (slots m');
}.

#[global] Instance same_profile_preorder : PreOrder same_profile.
Proof.
  split; [done|]. intros s t u (A1 & B1 & C1 & D1) (A2 & B2 & C2 & D2).
  split; [congruence|]. split; [congruence|]. split; congruence.
Qed.

Lemma same_profiles_refl m : same_profiles m m.
Proof. by split. Qed.

Lemma same_profiles_trans m1 m2 m3 : same_profiles m1 m2 -> same_profiles m2 m3 -> same_profiles m1 m3.
Proof.
  intros [F1 S1] [F2 S2]. split; [congruence|]. by etrans.
Qed.

Lemma same_profiles_inv m m' :
  mac_inv m -> same_profiles m m' -> length (audit m') = AUDIT_LEN -> is_u32 (audit_next m') -> mac_inv m'.
Proof.
  intros [L _ _ Ok Un] [_ Hs] La Hn. split; try done.
  - by rewrite <- (Forall2_length _ _ _ Hs).
  - apply Forall_lookup. intros i t Ht. destruct (Forall2_lookup_r _ _ _ _ _ Hs Ht) as (s & Es & (A & B & C & D)).
    destruct (Forall_lookup_1 _ _ _ _ Ok Es). split; by rewrite ?B, ?C, ?D.
  - intros i j s t Es Et Us Ut K.
    destruct (Forall2_lookup_r _ _ _ _ _ Hs Es) as (s0 & Es0 & (A & B & C & D)).
    destruct (Forall2_lookup_r _ _ _ _ _ Hs Et) as (t0 & Et0 & (A' & B' & C' & D')).
    apply (Un i j s0 t0); [done|done|congruence|congruence|].
    unfold key in *. by rewrite <- B, <- C, <- D, <- B', <- C', <- D'.
Qed.

(** ** Evaluation *)

(** The profile a stack entry names. *)
Definition profile_of (m : Mac) (id : Z) : option Policy :=
  if decide (0 < id <= Z.of_nat MAX_PROFILES) then
    s ← slots m !! (Z.to_nat id - 1)%nat;
    if in_use s then Some (policy s) else None
  else None.

Lemma profile_of_same m m' id : same_profiles m m' -> profile_of m' id = profile_of m id.
Proof.
  intros [_ Hs]. unfold profile_of. destruct (decide _); [|done].
  destruct (slots m !! (Z.to_nat id - 1)%nat) as [s|] eqn:E.
  - destruct (Forall2_lookup_l _ _ _ _ _ Hs E) as (t & -> & (A & _ & _ & D)). simpl. by rewrite A, D.
  - assert (slots m' !! (Z.to_nat id - 1)%nat = None) as ->; [|done].
    apply lookup_ge_None. apply lookup_ge_None in E. by rewrite <- (Forall2_length _ _ _ Hs).
Qed.

Inductive verdict : Type :=
| VAllow
| VComplain
| VDeny
| VInvalid.

(** What one stack entry says of an operation. *)
Definition verdict_of (allowed : Policy -> bool) (m : Mac) (id : Z) : verdict :=
  match profile_of m id with
  | None => VInvalid
  | Some p => if allowed p then VAllow else if complain p then VComplain else VDeny
  end.

(** The answer for a stack: the first entry that refuses decides, then the first that
    only complains. *)
Fixpoint answer (vs : list (Z * verdict)) (first : Z) : Z :=
  match vs with
  | [] => first
  | (id, VAllow) :: vs' => answer vs' first
  | (id, VComplain) :: vs' => answer vs' (if first =? 0 then id else first)
  | (id, VDeny) :: _ => - id
  | (id, VInvalid) :: _ => - DENIER_INVALID
  end.

Lemma record_spec kind c pid prof a b m :
  mac_inv m -> exists m', record kind c pid prof a b m = Done m' /\ mac_inv m' /\ same_profiles m m'.
Proof.
  intros Hi. pose proof Hi as [_ La _ _ _]. unfold record.
  assert (Hlt : (Z.to_nat (audit_next m) mod AUDIT_LEN < length (audit m))%nat)
    by (rewrite La; apply Nat.mod_upper_bound; done).
  ostore. eexists. split; [done|].
  assert (Hs : same_profiles m (mkMac (slots m) (frozen m) (total_allowed m) (total_denied m) (total_complained m)
    (<[(Z.to_nat (audit_next m) mod AUDIT_LEN)%nat := mkAudit kind c pid prof a b]> (audit m))
    (wrap32 (audit_next m + 1)))) by by split.
  split; [|done]. apply (same_profiles_inv m); [done|done|simpl; by rewrite length_insert|].
  simpl. unfold is_u32, wrap32. apply Z.mod_pos_bound. lia.
Qed.

Lemma totals_spec a d c m :
  mac_inv m -> mac_inv (set_totals a d c m) /\ same_profiles m (set_totals a d c m).
Proof. intros []. split; [by split|]. by split. Qed.

Lemma put_slot_spec i s t m :
  mac_inv m -> slots m !! i = Some s -> same_profile s t ->
  exists m', put_slot i t m = Done m' /\ mac_inv m' /\ same_profiles m m'.
Proof.
  intros Hi Hs Hst. unfold put_slot. ostore.
  eexists. split; [done|].
  assert (Hp : same_profiles m (set_slots (<[i := t]> (slots m)) m)).
  { split; [done|]. apply (Forall2_insert_diag _ _ _ s); [|done|done]. by apply Forall_true. }
  split; [|done]. apply (same_profiles_inv m); [done|done|apply Hi|apply Hi].
Qed.

Lemma eval_loop_spec stack kind pid a b allowed (permit : Policy -> bool) first m :
  mac_inv m -> Forall is_u16 stack ->
  (forall pol gs, reads pol gs -> allowed pol = Done (permit pol)) ->
  exists m', eval_loop stack kind pid a b allowed first m =
      Done (answer ((fun id => (id, verdict_of permit m id)) <$> stack) first, m') /\
    mac_inv m' /\ same_profiles m m'.
Proof.
  intros Hi Hst Hal. revert first m Hi. induction Hst as [|id stack Hid _ IH]; intros first m Hi.
  { destruct (totals_spec (wrap32 (total_allowed m + 1)) (total_denied m) (total_complained m) m Hi). by eexists. }
  cbn [fmap list_fmap eval_loop]. unfold is_u16 in Hid.
  assert (Hsame : forall m', same_profiles m m' ->
    (fun id => (id, verdict_of permit m' id)) <$> stack = (fun id => (id, verdict_of permit m id)) <$> stack).
  { intros m' Hs. apply list_fmap_ext. intros _ x _. unfold verdict_of. by rewrite (profile_of_same m). }
  assert (Hinv : exists m', (m ← record kind false pid 0 a b (bump_denied m); Done (- DENIER_INVALID, m))
      = Done (- DENIER_INVALID, m') /\ mac_inv m' /\ same_profiles m m').
  { destruct (totals_spec (total_allowed m) (wrap32 (total_denied m + 1)) (total_complained m) m Hi) as [Hi1 Hs1].
    destruct (record_spec kind false pid 0 a b _ Hi1) as (m' & E & Hi' & Hs'). unfold bump_denied. rewrite E.
    osimpl. exists m'. split; [done|]. split; [done|]. by eapply same_profiles_trans. }
  destruct ((Z.to_nat id =? 0)%nat || (MAX_PROFILES <? Z.to_nat id)%nat) eqn:Hr.
  { unfold verdict_of at 1, profile_of. rewrite decide_False by lia. exact Hinv. }
  destruct (lookup_lt_is_Some_2 (slots m) (Z.to_nat id - 1)) as [s Hs]; [rewrite (mi_slots _ Hi); lia|].
  oindex Hs.
  assert (Hprof : profile_of m id = if in_use s then Some (policy s) else None)
    by (unfold profile_of; rewrite decide_True by lia; by rewrite Hs).
  destruct (in_use s) eqn:Hu; cbn [negb]; unfold verdict_of at 1; rewrite Hprof; [|exact Hinv].
  destruct (sl_policy _ (Forall_lookup_1 _ _ _ _ (mi_ok _ Hi) Hs)) as [gs Hgs].
  rewrite (Hal _ _ Hgs). osimpl. destruct (permit (policy s)).
  - destruct (put_slot_spec _ s (slot_allowed s) m Hi Hs) as (m1 & -> & Hi1 & Hs1); [done|]. osimpl.
    destruct (IH first m1 Hi1) as (m' & -> & Hi' & Hs'). rewrite Hsame by done.
    exists m'. split; [done|]. split; [done|]. by eapply same_profiles_trans.
  - destruct (complain (policy s)).
    + destruct (put_slot_spec _ s (slot_complained s) m Hi Hs) as (m1 & -> & Hi1 & Hs1); [done|]. osimpl.
      destruct (totals_spec (total_allowed m1) (total_denied m1) (wrap32 (total_complained m1 + 1)) m1 Hi1) as [Hi2 Hs2].
      destruct (record_spec kind true pid id a b _ Hi2) as (m3 & E & Hi3 & Hs3).
      unfold bump_complained. rewrite E. osimpl.
      assert (Hs13 : same_profiles m m3) by (eapply same_profiles_trans; [|eapply same_profiles_trans]; done).
      destruct (IH (if first =? 0 then id else first) m3 Hi3) as (m' & -> & Hi' & Hs').
      rewrite Hsame by done. exists m'. split; [done|]. split; [done|]. by eapply same_profiles_trans.
    + destruct (put_slot_spec _ s (slot_denied s) m Hi Hs) as (m1 & -> & Hi1 & Hs1); [done|]. osimpl.
      destruct (totals_spec (total_allowed m1) (wrap32 (total_denied m1 + 1)) (total_complained m1) m1 Hi1) as [Hi2 Hs2].
      destruct (record_spec kind false pid id a b _ Hi2) as (m3 & E & Hi3 & Hs3).
      unfold bump_denied. rewrite E. osimpl. exists m3. split; [done|]. split; [done|].
      eapply same_profiles_trans; [|eapply same_profiles_trans]; done.
Qed.
