(* ===== verification/MacProps.v ===== *)
(** * The access control theorems

    Every reachable table answers every check, and answers as the profiles say; starting a
    program only adds confinement; profiles never change; freezing is final. *)

From S2P Require Import Prelude Bytes Mac MacParse MacTable.
Local Open Scope Z_scope.

(** ** Requests *)

Inductive request : Type :=
| RSyscall (n : Z)
| RFile (name : list Z) (op : Z)
| RNet (op ip port : Z)
| RExec (name : list Z).

Definition check (stack : list Z) (pid : Z) (req : request) (m : Mac) : outcome (Z * Mac) :=
  match req with
  | RSyscall n => check_syscall stack pid n m
  | RFile name op => check_file stack pid name op m
  | RNet op ip port => check_net stack pid op ip port m
  | RExec name => check_exec stack pid name m
  end.

(** What one profile says of a request. *)
Definition allowed_by (req : request) (p : Policy) : outcome bool :=
  match req with
  | RSyscall n => allows_syscall p n
  | RFile name op =>
      let name := short_name name in
      if negb (length name =? 0)%nat then allows_file p name op else Done false
  | RNet op ip port => allows_net p op ip port
  | RExec name =>
      let name := short_name name in
      if negb (length name =? 0)%nat then allows_exec p name else Done false
  end.

Definition permits (p : Policy) (req : request) : bool :=
  match allowed_by req p with Done b => b | Panic => false end.

(** A system call number is unsigned. *)
Definition valid_request (req : request) : Prop :=
  match req with RSyscall n => 0 <= n | _ => True end.

Lemma allowed_total req p gs :
  valid_request req -> reads p gs -> allowed_by req p = Done (permits p req).
Proof.
  intros Hv Hr. apply reads_means in Hr. unfold permits.
  assert (Ht : exists b, allowed_by req p = Done b); [|by destruct Ht as [b ->]].
  destruct req as [n|name op|op ip port|name]; simpl in *.
  - destruct (means_syscall _ _ Hr n Hv) as (b & ? & _). by exists b.
  - destruct (negb _); [|by eexists]. destruct (means_file _ _ Hr (short_name name) op) as (b & ? & _). by exists b.
  - destruct (means_net _ _ Hr op ip port) as (b & ? & _). by exists b.
  - destruct (negb _); [|by eexists]. destruct (means_exec _ _ Hr (short_name name)) as (b & ? & _). by exists b.
Qed.

(** The answer to a request, from the table and the stack alone. *)
Definition ruling (m : Mac) (stack : list Z) (req : request) : Z :=
  if (length stack =? 0)%nat then 0
  else if (MAX_STACK <? length stack)%nat then - DENIER_INVALID
  else answer ((fun id => (id, verdict_of (fun p => permits p req) m id)) <$> stack) 0.

Lemma check_spec stack pid req m :
  mac_inv m -> Forall is_u16 stack -> valid_request req ->
  exists m', check stack pid req m = Done (ruling m stack req, m') /\ mac_inv m' /\ same_profiles m m'.
Proof.
  intros Hi Hst Hv.
  assert (E : exists kind a b, check stack pid req m = eval stack kind pid a b (allowed_by req) m)
    by (destruct req; by eexists _, _, _).
  destruct E as (kind & a & b & ->). unfold eval, ruling.
  destruct (length stack =? 0)%nat; [exists m; split; [done|]; split; [done|by split]|].
  destruct (_ <? _)%nat.
  - destruct (totals_spec (total_allowed m) (wrap32 (total_denied m + 1)) (total_complained m) m Hi). by eexists.
  - apply eval_loop_spec; [done|done|]. intros p gs Hr. by eapply allowed_total.
Qed.

Definition entry_passes (m : Mac) (req : request) (id : Z) : Prop :=
  exists p, profile_of m id = Some p /\ (permits p req = true \/ complain p = true).

Lemma profile_of_range m id p : profile_of m id = Some p -> 0 < id <= 32.
Proof. unfold profile_of. destruct (decide _) as [H|]; [|done]. unfold MAX_PROFILES in H. lia. Qed.

Lemma verdict_cases m req id :
  match verdict_of (fun p => permits p req) m id with
  | VAllow => exists p, profile_of m id = Some p /\ permits p req = true
  | VComplain => exists p, profile_of m id = Some p /\ permits p req = false /\ complain p = true
  | VDeny => exists p, profile_of m id = Some p /\ permits p req = false /\ complain p = false
  | VInvalid => profile_of m id = None
  end.
Proof.
  unfold verdict_of. destruct (profile_of m id) as [p|]; [|done].
  destruct (permits p req) eqn:?; [by exists p|]. destruct (complain p) eqn:?; by exists p.
Qed.

Lemma answer_spec m req stack first :
  0 <= first ->
  let r := answer ((fun id => (id, verdict_of (fun p => permits p req) m id)) <$> stack) first in
  (0 <= r <-> forall id, id ∈ stack -> entry_passes m req id) /\
  (r = 0 <-> first = 0 /\ forall id, id ∈ stack -> exists p, profile_of m id = Some p /\ permits p req = true) /\
  (r < 0 -> r = - DENIER_INVALID /\ (exists id, id ∈ stack /\ profile_of m id = None) \/
     exists id p, id ∈ stack /\ r = - id /\ profile_of m id = Some p /\ permits p req = false /\ complain p = false).
Proof.
  revert first. induction stack as [|id stack IH]; intros first Hf.
  { simpl. split; [|split]; [|split; [|by intros [? _]]|lia].
    - split; [|lia]. intros _ id Hin. by apply elem_of_nil in Hin.
    - intros ->. split; [done|]. intros id Hin. by apply elem_of_nil in Hin. }
  pose proof (verdict_cases m req id) as Hv. cbn [fmap list_fmap answer].
  setoid_rewrite elem_of_cons.
  destruct (verdict_of _ m id).
  - destruct (IH first Hf) as (H1 & H2 & H3). destruct Hv as (p & Hp & Ha). split; [|split].
    + rewrite H1. split; [|by auto]. intros Hall id' [->|Hin]; [|by apply Hall]. exists p. by auto.
    + rewrite H2. split; [|by intuition]. intros [E H]. split; [done|].
      intros id' [->|Hin]; [by exists p|by apply H].
    + intros Hr. destruct (H3 Hr) as [(? & id' & ? & ?)|(id' & p' & ? & ? & ?)]; [left|right]; eauto 10.
  - destruct Hv as (p & Hp & Ha & Hc). pose proof (profile_of_range _ _ _ Hp).
    destruct (IH (if first =? 0 then id else first)) as (H1 & H2 & H3); [destruct (first =? 0); lia|]. split; [|split].
    + rewrite H1. split; [|by auto]. intros Hall id' [->|Hin]; [|by apply Hall]. exists p. by auto.
    + rewrite H2. split; [|intros [_ Hall]; destruct (Hall id) as (p' & ? & ?); [by left|congruence]].
      destruct (Z.eqb_spec first 0); lia.
    + intros Hr. destruct (H3 Hr) as [(? & id' & ? & ?)|(id' & p' & ? & ? & ?)]; [left|right]; eauto 10.
  - destruct Hv as (p & Hp & Ha & Hc). pose proof (profile_of_range _ _ _ Hp). split; [|split].
    + split; [lia|]. intros H'. destruct (H' id) as (p' & Hp' & Hpc); [by left|]. destruct Hpc; congruence.
    + split; [lia|]. intros [_ H']. destruct (H' id) as (p' & ? & ?); [by left|congruence].
    + intros _. right. exists id, p. by auto.
  - unfold DENIER_INVALID. split; [|split].
    + split; [lia|]. intros H'. destruct (H' id) as (p' & Hp' & _); [by left|congruence].
    + split; [lia|]. intros [_ H']. destruct (H' id) as (p' & ? & ?); [by left|congruence].
    + intros _. left. split; [done|]. exists id. by auto.
Qed.

(** ** Loading *)

Lemma find_profile_spec l i name pol :
  Forall slot_ok l ->
  exists r, find_profile l i name pol = Done r /\
    match r with
    | Some k => (i <= k)%nat /\ exists s, l !! (k - i)%nat = Some s /\ in_use s = true /\ key s = (name, pol)
    | None => forall j s, l !! j = Some s -> in_use s = true -> key s <> (name, pol)
    end.
Proof.
  intros Hl. revert i. induction Hl as [|s l [Hn Hlen _] _ IH]; intros i; cbn [find_profile]; [by exists None|].
  destruct (IH (S i)) as (r & Hr & Hspec).
  assert (Hskip : (in_use s = true -> key s <> (name, pol)) ->
    match r with
    | Some k => (i <= k)%nat /\ exists s0, (s :: l) !! (k - i)%nat = Some s0 /\ in_use s0 = true /\ key s0 = (name, pol)
    | None => forall j s0, (s :: l) !! j = Some s0 -> in_use s0 = true -> key s0 <> (name, pol)
    end).
  { intros Hne. destruct r as [k|].
    - destruct Hspec as (Hk & s0 & Hs0 & Hu). split; [lia|]. exists s0.
      by replace (k - i)%nat with (S (k - S i)) by lia.
    - intros [|j] s0 Hs0; simpl in Hs0; [by simplify_eq|by apply (Hspec j)]. }
  destruct (in_use s) eqn:Hu; [|exists r; split; [done|by apply Hskip]].
  unfold slot_name. rewrite slice_to_Done by lia. osimpl.
  destruct (bool_decide (take (s_name_len s) (s_name s) = name) && bool_decide (policy s = pol)) eqn:Hk.
  - apply andb_true_iff in Hk as [H1%bool_decide_eq_true H2%bool_decide_eq_true].
    exists (Some i). split; [done|]. split; [done|]. exists s. rewrite Nat.sub_diag. unfold key. by rewrite H1, H2.
  - exists r. split; [done|]. apply Hskip. intros _ E. unfold key in E. simplify_eq.
    by rewrite !bool_decide_eq_true_2 in Hk.
Qed.

Definition new_slot (name : list Z) (pol : Policy) : Slot :=
  mkSlot true (name ++ drop (length name) (replicate NAME_LEN 0)) (length name) pol 0 0 0.

Lemma new_slot_key name pol : key (new_slot name pol) = (name, pol).
Proof. unfold key, new_slot. simpl. by rewrite take_app_length. Qed.

(** The profile [name] with this policy is loaded under [id]. *)
Definition loaded_as (m : Mac) (id : Z) (name : list Z) (pol : Policy) : Prop :=
  1 <= id <= Z.of_nat MAX_PROFILES /\
  exists s, slots m !! (Z.to_nat id - 1)%nat = Some s /\ in_use s = true /\ key s = (name, pol).

(** What [load] does. *)
Inductive loads (name text : list Z) (m : Mac) : result Z LoadError -> Mac -> Prop :=
| loads_bad_name : valid_profile_name name = false -> loads name text m (Err BadName) m
| loads_parse e : valid_profile_name name = true -> parse text = Throw e -> loads name text m (Err (Parse e)) m
| loads_again pol id : valid_profile_name name = true -> parse text = Ret pol ->
    loaded_as m id name pol -> loads name text m (Ok id) m
| loads_frozen pol : valid_profile_name name = true -> parse text = Ret pol -> frozen m = true ->
    (forall id, ~ loaded_as m id name pol) -> loads name text m (Err Frozen) m
| loads_full pol : valid_profile_name name = true -> parse text = Ret pol -> frozen m = false ->
    (forall id, ~ loaded_as m id name pol) -> Forall (fun s => in_use s = true) (slots m) ->
    loads name text m (Err Full) m
| loads_new pol i s : valid_profile_name name = true -> parse text = Ret pol -> frozen m = false ->
    (forall id, ~ loaded_as m id name pol) -> slots m !! i = Some s -> in_use s = false ->
    loads name text m (Ok (Z.of_nat i + 1)) (set_slots (<[i := new_slot name pol]> (slots m)) m).

Lemma load_spec name text m :
  mac_inv m -> exists r m', load name text m = Done (r, m') /\ loads name text m r m'.
Proof.
  intros Hi. unfold load. destruct (valid_profile_name name) eqn:Hv; cbn [negb].
  2:{ eexists _, _. split; [done|]. by constructor. }
  pose proof (parse_reads text) as Hp. destruct (parse text) as [pol|e|] eqn:Hpt; [| |by destruct (profile text)].
  2:{ eexists _, _. split; [done|]. by constructor. }
  destruct (find_profile_spec (slots m) 0 name pol (mi_ok _ Hi)) as (r & -> & Hr). osimpl.
  destruct r as [k|].
  - destruct Hr as (_ & s & Hs & Hu & Hk). rewrite Nat.sub_0_r in Hs. apply lookup_lt_Some in Hs as Hlt.
    rewrite (mi_slots _ Hi) in Hlt. eexists _, _. split; [done|].
    assert (E : wrap16 (Z.of_nat (k + 1)) = Z.of_nat k + 1)
      by (unfold wrap16, MAX_PROFILES in *; rewrite Z.mod_small; lia).
    rewrite E. apply (loads_again _ _ _ pol); [done|done|]. split; [lia|].
    exists s. by replace (Z.to_nat (Z.of_nat k + 1) - 1)%nat with k by lia.
  - assert (Hno : forall id, ~ loaded_as m id name pol) by (intros id (_ & s & Hs & Hu & Hk); by eapply Hr).
    destruct (frozen m) eqn:Hf.
    { eexists _, _. split; [done|]. by apply (loads_frozen _ _ _ pol). }
    destruct (position (fun s => negb (in_use s)) (slots m)) as [i|] eqn:Hpos.
    + apply position_Some in Hpos as (s & Hs & Hu%negb_true_iff & _). apply lookup_lt_Some in Hs as Hlt.
      unfold valid_profile_name in Hv. rewrite !andb_true_iff in Hv. destruct Hv as [[Hv1 Hv2] Hv3].
      rewrite copy_prefix_Done by (change (length (s_name Slot_EMPTY)) with NAME_LEN; lia). osimpl.
      ostore. eexists _, _. split; [done|].
      rewrite (mi_slots _ Hi) in Hlt.
      assert (E : wrap16 (Z.of_nat (i + 1)) = Z.of_nat i + 1)
        by (unfold wrap16, MAX_PROFILES in *; rewrite Z.mod_small; lia).
      rewrite E. apply (loads_new _ _ _ pol i s); try done. unfold valid_profile_name. by rewrite Hv1, Hv2, Hv3.
    + eexists _, _. split; [done|]. apply (loads_full _ _ _ pol); try done.
      apply Forall_lookup. intros i s Hs. rewrite position_None in Hpos. specialize (Hpos i s Hs).
      by apply negb_false_iff in Hpos.
Qed.

Lemma loads_inv name text m r m' : mac_inv m -> loads name text m r m' -> mac_inv m'.
Proof.
  intros Hi Hl. destruct Hl as [| | | | |pol i s Hv Hp Hf Hno Hs Hu]; try done.
  pose proof Hi as [Ls La Ln Ok Un]. pose proof (lookup_lt_Some _ _ _ Hs) as Hlt.
  unfold valid_profile_name in Hv. rewrite !andb_true_iff in Hv. destruct Hv as [[Hv1 Hv2] Hv3].
  assert (Hnew : forall j t, slots m !! j = Some t -> in_use t = true -> key t <> (name, pol)).
  { intros j t Ht Hut Hk. apply (Hno (Z.of_nat j + 1)). pose proof (lookup_lt_Some _ _ _ Ht). split; [lia|].
    exists t. by replace (Z.to_nat (Z.of_nat j + 1) - 1)%nat with j by lia. }
  split; simpl; [by rewrite length_insert|done|done| |].
  - apply Forall_insert; [done|]. split; cbn [new_slot s_name s_name_len policy].
    + rewrite length_app, length_drop, length_replicate. lia.
    + lia.
    + pose proof (parse_reads text) as Hr. rewrite Hp in Hr. destruct (profile text) as [[mode gs]|]; [|done].
      exists gs. apply Hr.
  - intros a b t u Ht Hu' Hut Huu Hk. destruct (decide (a = i)) as [->|Ha], (decide (b = i)) as [->|Hb]; [done| | |].
    + rewrite list_lookup_insert_eq in Ht by done. rewrite list_lookup_insert_ne in Hu' by done.
      injection Ht as <-. rewrite new_slot_key in Hk. by destruct (Hnew b u).
    + rewrite list_lookup_insert_eq in Hu' by done. rewrite list_lookup_insert_ne in Ht by done.
      injection Hu' as <-. rewrite new_slot_key in Hk. by destruct (Hnew a t).
    + rewrite list_lookup_insert_ne in Ht, Hu' by done. by eapply Un.
Qed.

(** ** Steps of the table *)

Inductive mac_step (m : Mac) : Mac -> Prop :=
| step_load name text r m' : load name text m = Done (r, m') -> mac_step m m'
| step_check stack pid req r m' : Forall is_u16 stack -> valid_request req ->
    check stack pid req m = Done (r, m') -> mac_step m m'
| step_freeze : mac_step m (freeze m).

Lemma mac_step_inv m m' : mac_inv m -> mac_step m m' -> mac_inv m'.
Proof.
  intros Hi [name text r m1 E|stack pid req r m1 Hst Hv E|].
  - destruct (load_spec name text m Hi) as (r' & m2 & E' & Hl). rewrite E in E'. simplify_eq.
    by eapply loads_inv.
  - destruct (check_spec stack pid req m Hi Hst Hv) as (m2 & E' & Hi' & _). rewrite E in E'. by simplify_eq.
  - destruct Hi. by split.
Qed.

(** The states the kernel can be in. *)
Definition reachable (m : Mac) : Prop := rtc mac_step Mac_new m.

Lemma mac_reachable_inv m : reachable m -> mac_inv m.
Proof.
  intros Hr. eapply (rtc_invariant mac_step mac_inv); [|exact Hr|apply new_inv].
  intros x y Hxy Hx. by eapply mac_step_inv.
Qed.

(** ** Theorems *)

(** C8: mandatory access control decides as the profiles say. In every reachable state every
    check returns; it allows (a non-negative answer) exactly when the stack is within its
    bound and every entry names a loaded profile that grants the request or only complains;
    it answers 0 exactly when no profile would have refused; a refusal names a profile of
    the stack that enforces and does not grant, or reports an entry that names nothing; and
    a check changes no profile. *)
Theorem mac_mandatory (m : Mac) (stack : list Z) (pid : Z) (req : request)
    (Hm : reachable m) (Hst : Forall is_u16 stack) (Hreq : valid_request req) :
  exists r m', check stack pid req m = Done (r, m') /\ same_profiles m m' /\
    (0 <= r <-> (length stack <= MAX_STACK)%nat /\ forall id, id ∈ stack -> entry_passes m req id) /\
    (r = 0 <-> (length stack <= MAX_STACK)%nat /\
       forall id, id ∈ stack -> exists p, profile_of m id = Some p /\ permits p req = true) /\
    (r < 0 ->
       r = - DENIER_INVALID /\ ((MAX_STACK < length stack)%nat \/ exists id, id ∈ stack /\ profile_of m id = None) \/
       exists id p, id ∈ stack /\ r = - id /\ profile_of m id = Some p /\
                    permits p req = false /\ complain p = false).
Proof.
  destruct (check_spec stack pid req m (mac_reachable_inv m Hm) Hst Hreq) as (m' & E & _ & Hs).
  exists (ruling m stack req), m'. split; [done|]. split; [done|]. unfold ruling.
  destruct (Nat.eqb_spec (length stack) 0) as [E0|_].
  { apply nil_length_inv in E0. subst stack.
    split; [|split; [|lia]]; split; try done; intros _; (split; [simpl; lia|]); intros id Hin; by apply elem_of_nil in Hin. }
  destruct (Nat.ltb_spec MAX_STACK (length stack)) as [Hlt|Hge].
  { unfold DENIER_INVALID. split; [|split]; [lia|lia|]. intros _. left. auto. }
  destruct (answer_spec m req stack 0 ltac:(lia)) as (H1 & H2 & H3). split; [|split].
  - rewrite H1. tauto.
  - rewrite H2. tauto.
  - intros Hr. destruct (H3 Hr) as [(? & ?)|?]; [left|right]; auto.
Qed.

Definition denied (m : Mac) (stack : list Z) (pid : Z) (req : request) : Prop :=
  exists r m', check stack pid req m = Done (r, m') /\ r < 0.

(** Passing a stack, as the mandatory rule has it. *)
Lemma ruling_passes m stack req :
  0 <= ruling m stack req <->
  (length stack <= MAX_STACK)%nat /\ forall id, id ∈ stack -> entry_passes m req id.
Proof.
  unfold ruling. destruct (Nat.eqb_spec (length stack) 0) as [E0|_].
  { apply nil_length_inv in E0. subst stack. split; [|done]. intros _. split; [simpl; lia|].
    intros id Hin. by apply elem_of_nil in Hin. }
  destruct (Nat.ltb_spec MAX_STACK (length stack)); [unfold DENIER_INVALID; lia|].
  destruct (answer_spec m req stack 0 ltac:(lia)) as (-> & _). tauto.
Qed.

Lemma denied_ruling m stack pid req :
  mac_inv m -> Forall is_u16 stack -> valid_request req ->
  denied m stack pid req <-> ruling m stack req < 0.
Proof.
  intros Hi Hst Hv. destruct (check_spec stack pid req m Hi Hst Hv) as (m' & E & _). unfold denied.
  rewrite E. split; [by intros (r & m1 & [= <- _] & ?)|]. intros Hr. by eexists _, _.
Qed.

Lemma exec_stack_spec parent new_id :
  match exec_stack parent new_id with
  | Done (Ok st) =>
      length (ids st) = MAX_STACK /\ (length parent <= MAX_STACK)%nat /\ (stack_n st <= MAX_STACK)%nat /\
      take (stack_n st) (ids st) = if decide (new_id = 0 \/ new_id ∈ parent) then parent else parent ++ [new_id]
  | Done (Err e) => e = E2BIG /\ ((MAX_STACK < length parent)%nat \/
      length parent = MAX_STACK /\ new_id <> 0 /\ new_id ∉ parent)
  | Panic => False
  end.
Proof.
  unfold exec_stack. destruct (Nat.ltb_spec MAX_STACK (length parent)) as [Hlt|Hle]; [by auto|].
  rewrite copy_prefix_Done by (rewrite length_replicate; lia). osimpl.
  assert (Hl : length (parent ++ drop (length parent) (replicate MAX_STACK 0)) = MAX_STACK)
    by (rewrite length_app, length_drop, length_replicate; lia).
  assert (Hin : existsb (Z.eqb new_id) parent = true <-> new_id ∈ parent).
  { rewrite existsb_exists. setoid_rewrite <- list_elem_of_In. setoid_rewrite Z.eqb_eq. naive_solver. }
  destruct (Z.eqb_spec new_id 0) as [->|Hne]; cbn [negb andb].
  { split; [done|]. split; [done|]. split; [done|]. cbn [ids stack_n]. rewrite decide_True by auto. apply take_app_length. }
  destruct (existsb (Z.eqb new_id) parent); cbn [negb].
  { split; [done|]. split; [done|]. split; [done|]. cbn [ids stack_n]. rewrite decide_True by naive_solver. apply take_app_length. }
  destruct (Nat.leb_spec MAX_STACK (length parent)) as [Hge|Hlt].
  { split; [done|]. right. split; [lia|]. split; [done|]. by intros ?%Hin. }
  ostore. cbn [ids stack_n]. rewrite length_insert. split; [done|]. split; [done|]. split; [lia|].
  rewrite decide_False by (intros [|?%Hin]; done). rewrite take_append by lia. by rewrite take_app_length.
Qed.

Lemma elem_snoc_id (l : list Z) (x y : Z) : x ∈ l ++ [y] <-> x ∈ l \/ x = y.
Proof. by rewrite elem_of_app, list_elem_of_singleton. Qed.

(** The stack of a program with profile [new_id] that a process with stack [parent] starts. *)
Definition child_stack (parent : list Z) (new_id : Z) : list Z :=
  if decide (new_id = 0 \/ new_id ∈ parent) then parent else parent ++ [new_id].

(** C10: starting a program only adds confinement. The child gets the parent's stack with the
    program's own profile behind it, unless it has none or it is there already; the kernel
    refuses exactly when that stack would have more entries than there is room for. In every
    reachable state the child is denied exactly what the parent's stack denies or the
    program's own profile denies: a confined parent can not shed a profile by starting a more
    permissive program. *)
Theorem mac_confinement (parent : list Z) (new_id : Z)
    (Hp : Forall is_u16 parent) (Hn : is_u16 new_id) :
  match exec_stack parent new_id with
  | Done (Ok st) =>
      let child := take (stack_n st) (ids st) in
      child = child_stack parent new_id /\ (length child <= MAX_STACK)%nat /\
      forall m pid req, reachable m -> valid_request req ->
        denied m child pid req <-> denied m parent pid req \/ new_id <> 0 /\ denied m [new_id] pid req
  | Done (Err e) => e = E2BIG /\ (MAX_STACK < length (child_stack parent new_id))%nat
  | Panic => False
  end.
Proof.
  pose proof (exec_stack_spec parent new_id) as H. fold (child_stack parent new_id) in H.
  destruct (exec_stack parent new_id) as [[st|e]|]; [| |done].
  2: { destruct H as [-> H]. split; [done|]. unfold child_stack.
       destruct (decide _) as [Hd|Hd]; [|rewrite length_app; simpl; lia].
       destruct H as [?|(_ & ? & ?)]; [done|]. by destruct Hd. }
  destruct H as (Hl & Hpl & Hsn & Hch). split; [done|]. split; [rewrite length_take; lia|].
  assert (Hlen : (length (take (stack_n st) (ids st)) <= MAX_STACK)%nat) by (rewrite length_take; lia).
  rewrite Hch in *. unfold child_stack in *. intros m pid req Hm%mac_reachable_inv Hv.
  assert (Hchild : Forall is_u16 (if decide (new_id = 0 \/ new_id ∈ parent) then parent else parent ++ [new_id])).
  { destruct (decide _); [done|]. apply Forall_app. split; [done|]. by apply Forall_singleton. }
  rewrite !denied_ruling by (done || by apply Forall_singleton).
  pose proof (ruling_passes m parent req) as Pp. pose proof (ruling_passes m [new_id] req) as Pn.
  assert (Pn' : 0 <= ruling m [new_id] req <-> entry_passes m req new_id).
  { rewrite Pn. setoid_rewrite list_elem_of_singleton. split; [naive_solver|].
    intros He. split; [simpl; unfold MAX_STACK; lia|]. by intros id ->. }
  destruct (decide (new_id = 0 \/ new_id ∈ parent)) as [Hd|Hd].
  - destruct Hd as [->|Hin]; [split; [by left|]; intros [?|[? _]]; done|].
    split; [by left|]. intros [?|[_ Hneg]]; [done|].
    destruct (Z.lt_decidable (ruling m parent req) 0) as [|Hpos]; [done|].
    destruct Pp as [Pp _]. destruct (Pp ltac:(lia)) as [_ Hall]. apply Hall, Pn' in Hin. lia.
  - assert (Pc' : 0 <= ruling m (parent ++ [new_id]) req <-> 0 <= ruling m parent req /\ 0 <= ruling m [new_id] req).
    { rewrite (ruling_passes m (parent ++ [new_id])), Pp, Pn'. setoid_rewrite elem_snoc_id. naive_solver. }
    destruct (decide (new_id = 0)); [naive_solver|]. lia.
Qed.

(** Profiles persist from one state to the next; a frozen table gains none. *)
Definition keeps_profiles (m m' : Mac) : Prop :=
  (forall id name pol, loaded_as m id name pol -> loaded_as m' id name pol) /\
  (frozen m = true -> frozen m' = true /\
     forall id name pol, loaded_as m' id name pol -> loaded_as m id name pol).

Lemma same_profiles_loaded m m' id name pol :
  same_profiles m m' -> loaded_as m' id name pol <-> loaded_as m id name pol.
Proof.
  intros [_ Hs]. unfold loaded_as, key. split; intros (Hid & s & Hl & Hu & Hk); (split; [done|]).
  - destruct (Forall2_lookup_r _ _ _ _ _ Hs Hl) as (t & Ht & (A & B & C & D)). exists t.
    rewrite A, B, C, D in *. done.
  - destruct (Forall2_lookup_l _ _ _ _ _ Hs Hl) as (t & Ht & (A & B & C & D)). exists t.
    by rewrite A, B, C, D.
Qed.

Lemma loaded_insert m i s id n p pol name :
  slots m !! i = Some s -> in_use s = false ->
  loaded_as (set_slots (<[i := new_slot name pol]> (slots m)) m) id n p <->
  loaded_as m id n p \/ id = Z.of_nat i + 1 /\ n = name /\ p = pol /\ (i < MAX_PROFILES)%nat.
Proof.
  intros Hs Hu. apply lookup_lt_Some in Hs as Hlt. unfold loaded_as. simpl. split.
  - intros (Hid & t & Ht & Hut & Hk). destruct (decide ((Z.to_nat id - 1)%nat = i)) as [E|E].
    + rewrite E, list_lookup_insert_eq in Ht by done. injection Ht as <-. rewrite new_slot_key in Hk.
      right. simplify_eq. split; [lia|]. split; [done|]. split; [done|lia].
    + rewrite list_lookup_insert_ne in Ht by done. left. split; [done|]. by exists t.
  - intros [(Hid & t & Ht & Hut & Hk)|(-> & -> & -> & Hi)].
    + split; [done|]. exists t. rewrite list_lookup_insert_ne; [done|]. intros E. rewrite E in Hs. congruence.
    + split; [lia|]. exists (new_slot name pol).
      replace (Z.to_nat (Z.of_nat i + 1) - 1)%nat with i by lia. rewrite list_lookup_insert_eq by done.
      split; [done|]. split; [done|apply new_slot_key].
Qed.

Lemma step_keeps m m' : mac_inv m -> mac_step m m' -> keeps_profiles m m'.
Proof.
  intros Hi [name text r m1 E|stack pid req r m1 Hst Hv E|].
  - destruct (load_spec name text m Hi) as (r' & m2 & E' & Hl). rewrite E in E'. simplify_eq.
    destruct Hl as [| | | | |pol i s Hv Hp Hf Hno Hs Hu]; try by split.
    split; [|congruence]. intros id n p Hl. by apply (loaded_insert m i s); [..|left].
  - destruct (check_spec stack pid req m Hi Hst Hv) as (m2 & E' & Hi' & Hs). rewrite E in E'. simplify_eq.
    split; [|intros Hf; split; [by rewrite (sp_frozen _ _ Hs)|]]; intros id n p; by rewrite (same_profiles_loaded _ _ _ _ _ Hs).
  - by split.
Qed.

(** Profiles are immutable and freezing is final: whatever sequence of loads, checks and
    freezes follows, a loaded profile keeps its id, its name and its policy, and once the
    table is frozen it stays frozen and no profile is ever added. *)
Theorem mac_profiles_stable (m m' : Mac) (Hm : reachable m) (Hrun : rtc mac_step m m') :
  (forall id name pol, loaded_as m id name pol -> loaded_as m' id name pol) /\
  (frozen m = true -> frozen m' = true /\
     forall id name pol, loaded_as m' id name pol <-> loaded_as m id name pol).
Proof.
  apply mac_reachable_inv in Hm. induction Hrun as [m|m m1 m' Hstep _ IH]; [done|].
  destruct (step_keeps _ _ Hm Hstep) as [K1 K2]. destruct IH as [I1 I2]; [by eapply mac_step_inv|].
  split; [by auto|]. intros Hf. destruct (K2 Hf) as [Hf1 K3]. destruct (I2 Hf1) as [Hf' I3].
  split; [done|]. intros id name pol. rewrite I3. split; [by apply K3|by apply K1].
Qed.

Lemma loaded_unique m id id' name pol :
  mac_inv m -> loaded_as m id name pol -> loaded_as m id' name pol -> id = id'.
Proof.
  intros Hi (Hid & s & Hs & Hu & Hk) (Hid' & t & Ht & Hu' & Hk').
  pose proof (mi_unique _ Hi _ _ s t Hs Ht Hu Hu' ltac:(congruence)). lia.
Qed.

Lemma load_again m id name text pol :
  mac_inv m -> valid_profile_name name = true -> parse text = Ret pol -> loaded_as m id name pol ->
  load name text m = Done (Ok id, m).
Proof.
  intros Hi Hv Hp Hl. destruct (load_spec name text m Hi) as (r & m' & E & Hspec). rewrite E. clear E.
  destruct Hspec as [Hv'|e Hv' Hp'|p id' _ Hp' Hl'|p _ Hp' _ Hno|p _ Hp' _ Hno _|p i s _ Hp' _ Hno _ _];
    [congruence|congruence| | | |]; assert (p = pol) by congruence; subst p.
  - do 3 f_equal. by eapply loaded_unique.
  - by destruct (Hno id).
  - by destruct (Hno id).
  - by destruct (Hno id).
Qed.

(** Loading a profile. Success puts exactly the parsed policy under the name, at the id
    returned, beside the profiles already loaded, and loading the same text again returns
    the same id and changes nothing (a frozen table admits only that case). Every failure
    leaves the table as it was, for the reason it reports. *)
Theorem mac_load_correct (m : Mac) (name text : list Z) (Hm : reachable m) :
  exists r m', load name text m = Done (r, m') /\
    match r with
    | Ok id => exists pol, parse text = Ret pol /\
        (forall id' n p, loaded_as m' id' n p <-> loaded_as m id' n p \/ (id', n, p) = (id, name, pol)) /\
        load name text m' = Done (Ok id, m') /\ (frozen m = true -> m' = m)
    | Err e => m' = m /\
        match e with
        | BadName => valid_profile_name name = false
        | Parse pe => parse text = Throw pe
        | Frozen => frozen m = true /\ exists pol, parse text = Ret pol /\ forall id, ~ loaded_as m id name pol
        | Full => Forall (fun s => in_use s = true) (slots m) /\
                  exists pol, parse text = Ret pol /\ forall id, ~ loaded_as m id name pol
        end
    end.
Proof.
  apply mac_reachable_inv in Hm. destruct (load_spec name text m Hm) as (r & m' & E & Hl).
  exists r, m'. split; [done|]. pose proof (loads_inv _ _ _ _ _ Hm Hl) as Hm'.
  destruct Hl as [| |pol id Hv Hp Hl|pol|pol|pol i s Hv Hp Hf Hno Hs Hu]; eauto.
  - exists pol. split; [done|]. split; [|split; [by apply (load_again _ _ _ _ pol)|done]].
    intros id' n p. split; [by left|]. by intros [|[= -> -> ->]].
  - exists pol. split; [done|]. apply lookup_lt_Some in Hs as Hlt. rewrite (mi_slots _ Hm) in Hlt.
    assert (Hiff : forall id' n p, loaded_as (set_slots (<[i:=new_slot name pol]> (slots m)) m) id' n p <->
      loaded_as m id' n p \/ (id', n, p) = (Z.of_nat i + 1, name, pol)).
    { intros id' n p. rewrite (loaded_insert m i s) by done. split; intros [?|Hx]; [by left| |by left|].
      - right. by destruct Hx as (-> & -> & -> & _).
      - right. by simplify_eq. }
    split; [exact Hiff|]. split; [|congruence]. apply (load_again _ _ _ _ pol); try done.
    apply Hiff. by right.
Qed.

(** The audit log keeps the newest records: recording makes the new record the most
    recent, and shifts every earlier one still kept by one place, up to the ring's size
    (until the 32-bit sequence number wraps). *)
Theorem mac_audit_newest (m : Mac) (kind pid prof a b : Z) (c : bool)
    (Hm : reachable m) (Hw : audit_next m + 1 < 0x100000000) :
  exists m', record kind c pid prof a b m = Done m' /\
    audit_recent 0 m' = Done (Some (mkAudit kind c pid prof a b)) /\
    forall i, (i + 1 < AUDIT_LEN)%nat -> audit_recent (i + 1) m' = audit_recent i m.
Proof.
  apply mac_reachable_inv in Hm. pose proof Hm as [_ La Hn _ _]. unfold is_u32 in Hn.
  set (n := audit_next m) in *. unfold record. fold n.
  assert (Hlt : (Z.to_nat n mod AUDIT_LEN < length (audit m))%nat)
    by (rewrite La; apply Nat.mod_upper_bound; done).
  ostore. eexists. split; [done|].
  unfold audit_recent. cbn [audit audit_next]. fold n.
  rewrite (wrap32_id (n + 1)) by auto with machine.
  assert (Hidx : Z.to_nat (n mod Z.of_nat AUDIT_LEN) = (Z.to_nat n mod AUDIT_LEN)%nat)
    by (rewrite Z2Nat.inj_mod by (unfold AUDIT_LEN; lia); by rewrite Nat2Z.id).
  split.
  - change (wrap32 (Z.of_nat 0)) with 0. replace (n + 1 <=? 0) with false by lia.
    change (AUDIT_LEN <=? 0)%nat with false. cbn [orb].
    replace (n + 1 - 1 - Z.of_nat 0) with n by lia. rewrite wrap32_id by auto with machine.
    rewrite Hidx. rewrite (index_at (list_lookup_insert_eq _ _ _ Hlt)). done.
  - intros i Hi. rewrite !wrap32_id with (z := Z.of_nat _) by (unfold is_u32, AUDIT_LEN in *; lia).
    replace (AUDIT_LEN <=? i + 1)%nat with false by lia. replace (AUDIT_LEN <=? i)%nat with false by lia.
    cbn [orb]. destruct (Z.leb_spec n (Z.of_nat i)).
    { by replace (n + 1 <=? Z.of_nat (i + 1)) with true by lia. }
    replace (n + 1 <=? Z.of_nat (i + 1)) with false by lia.
    replace (n + 1 - 1 - Z.of_nat (i + 1)) with (n - 1 - Z.of_nat i) by lia.
    rewrite wrap32_id by auto with machine.
    unfold index. rewrite list_lookup_insert_ne; [done|]. intros E.
    rewrite <- Hidx in E. apply Z2Nat.inj in E; try (apply Z.mod_pos_bound; unfold AUDIT_LEN; lia).
    unfold AUDIT_LEN in *. change (Z.of_nat 16) with 16 in E.
    pose proof (Z.div_mod n 16). pose proof (Z.div_mod (n - 1 - Z.of_nat i) 16). lia.
Qed.

(** * Access control witnesses

    The access control theorems at a concrete table: one profile, loaded and then frozen. *)

Definition app_mac : Mac :=
  match load (str "app") SELFTEST_TEXT Mac_new with Done (_, m) => m | Panic => Mac_new end.

Definition app_policy : Policy :=
  match parse SELFTEST_TEXT with Ret p => p | _ => Policy_EMPTY end.

Lemma app_load : load (str "app") SELFTEST_TEXT Mac_new = Done (Ok 1, app_mac).
Proof. vm_compute. reflexivity. Qed.

Lemma app_reachable : reachable app_mac.
Proof. apply rtc_once. eapply step_load. exact app_load. Qed.

Lemma app_loaded : loaded_as app_mac 1 (str "app") app_policy.
Proof.
  split; [unfold MAX_PROFILES; lia|]. eexists. split; [vm_compute; reflexivity|].
  split; vm_compute; reflexivity.
Qed.

(** The profile does not list system call 32. *)
Lemma mac_mandatory_witness :
  exists r m', check [1] 7 (RSyscall 32) app_mac = Done (r, m') /\ same_profiles app_mac m' /\ r < 0.
Proof.
  destruct (mac_mandatory app_mac [1] 7 (RSyscall 32) app_reachable) as (r & m' & E & Hs & H0 & _).
  - apply Forall_singleton. unfold is_u16. lia.
  - simpl. lia.
  - exists r, m'. split; [exact E|]. split; [exact Hs|].
    destruct (Z.lt_ge_cases r 0) as [|Hge]; [done|]. apply H0 in Hge as [_ Hall].
    destruct (Hall 1) as (p & Hp & Hok); [by left|]. exfalso. revert Hp Hok. vm_compute.
    intros [= <-] [|]; done.
Defined.

(** A second profile, which allows every system call. *)
Definition two_mac : Mac :=
  match load (str "open") (str "allow syscall *") app_mac with Done (_, m) => m | Panic => app_mac end.

Lemma two_load : load (str "open") (str "allow syscall *") app_mac = Done (Ok 2, two_mac).
Proof. vm_compute. reflexivity. Qed.

Lemma two_reachable : reachable two_mac.
Proof. eapply rtc_r; [exact app_reachable|]. eapply step_load. exact two_load. Qed.

(** The program runs under the permissive profile and under its parent's, which denies the
    call; with four other profiles on the stack it is not started. *)
Lemma mac_confinement_witness :
  (exists st, exec_stack [1] 2 = Done (Ok st) /\ take (stack_n st) (ids st) = [1; 2]) /\
  denied two_mac [1; 2] 7 (RSyscall 32) /\ ~ denied two_mac [2] 7 (RSyscall 32) /\
  exec_stack [1; 3; 4; 5] 2 = Done (Err E2BIG).
Proof.
  assert (Hp : Forall is_u16 [1]) by (apply Forall_singleton; unfold is_u16; lia).
  assert (Hn : is_u16 2) by (unfold is_u16; lia).
  pose proof (mac_confinement [1] 2 Hp Hn) as H.
  destruct (exec_stack [1] 2) as [[st|e]|] eqn:E; [|discriminate E|discriminate E].
  destruct H as (Hc & _ & H). change (child_stack [1] 2) with [1; 2] in Hc. split; [exists st; split; [done|exact Hc]|].
  split; [|split].
  - rewrite <- Hc. apply (H two_mac 7 (RSyscall 32) two_reachable); [simpl; lia|]. left.
    unfold denied. vm_compute. eexists _, _. split; [reflexivity|reflexivity].
  - unfold denied. intros (r & m' & Hr & Hneg). vm_compute in Hr. injection Hr as <- _. lia.
  - reflexivity.
Defined.

Lemma mac_profiles_stable_witness :
  frozen (freeze app_mac) = true /\ loaded_as (freeze app_mac) 1 (str "app") app_policy.
Proof.
  split; [reflexivity|].
  apply (proj1 (mac_profiles_stable app_mac (freeze app_mac) app_reachable (rtc_once _ _ (step_freeze _)))).
  apply app_loaded.
Defined.

Lemma mac_load_correct_witness :
  exists r m', load (str "app") SELFTEST_TEXT app_mac = Done (r, m') /\
    match r with
    | Ok id => load (str "app") SELFTEST_TEXT m' = Done (Ok id, m')
    | Err _ => m' = app_mac
    end.
Proof.
  destruct (mac_load_correct app_mac (str "app") SELFTEST_TEXT app_reachable) as (r & m' & E & H).
  exists r, m'. split; [exact E|]. destruct r as [id|e].
  - destruct H as (pol & _ & _ & H & _). exact H.
  - destruct H as [H _]. exact H.
Defined.

Lemma mac_audit_newest_witness :
  exists m', record KIND_FILE false 7 1 FILE_WRITE 8 app_mac = Done m' /\
    audit_recent 0 m' = Done (Some (mkAudit KIND_FILE false 7 1 FILE_WRITE 8)).
Proof.
  destruct (mac_audit_newest app_mac KIND_FILE 7 1 FILE_WRITE 8 false app_reachable) as (m' & E & H & _).
  - vm_compute. reflexivity.
  - exists m'. split; [exact E|exact H].
Defined.
