(* ===== verification/Table.v ===== *)
(** * Slot tables as finite maps

    The kernel keeps its records in fixed arrays of slots. [entry] reads a slot as a key and
    a value, or as free; [table] is the finite map an array holds when no key occurs twice. *)

From S2P Require Import Prelude.

Section table.
  Context {A K V : Type} `{Countable K} (entry : A -> option (K * V)).
  Implicit Types (l : list A) (a : A).

Definition entries (l : list A) : list (K * V) := omap entry l.
Definition table (l : list A) : gmap K V := list_to_map (entries l).
Definition distinct (l : list A) : Prop := NoDup (entries l).*1.

(** What a slot adds to the entries. *)
Definition cell (a : A) : list (K * V) := option_list (entry a).

Lemma entries_cons a l : entries (a :: l) = cell a ++ entries l.
Proof. unfold entries, cell. simpl. by destruct (entry a). Qed.

Lemma entries_app l1 l2 : entries (l1 ++ l2) = entries l1 ++ entries l2.
Proof.
  induction l1 as [|a l1 IH]; [done|]. rewrite <- app_comm_cons, !entries_cons, IH.
  by rewrite (assoc_L (++)).
Qed.

Lemma entries_at l i a :
  l !! i = Some a -> entries l ≡ₚ cell a ++ entries (take i l) ++ entries (drop (S i) l).
Proof.
  intros Ha. rewrite <- (take_drop_middle _ _ _ Ha) at 1.
  rewrite entries_app, entries_cons. by rewrite (Permutation_app_swap_app (entries (take i l))).
Qed.

Lemma entries_insert l i a a' :
  l !! i = Some a ->
  entries (<[i := a']> l) ≡ₚ cell a' ++ entries (take i l) ++ entries (drop (S i) l).
Proof.
  intros Ha. apply lookup_lt_Some in Ha.
  rewrite (entries_at _ i a') by by rewrite list_lookup_insert_eq.
  by rewrite take_insert_ge, drop_insert_lt by lia.
Qed.

Lemma elem_of_entries l k v : (k, v) ∈ entries l <-> exists i a, l !! i = Some a /\ entry a = Some (k, v).
Proof.
  unfold entries. rewrite list_elem_of_omap. setoid_rewrite list_elem_of_lookup. naive_solver.
Qed.

Lemma table_lookup_Some l k v :
  distinct l -> table l !! k = Some v <-> exists i a, l !! i = Some a /\ entry a = Some (k, v).
Proof. intros Hd. rewrite <- elem_of_entries. symmetry. by apply elem_of_list_to_map. Qed.

Lemma table_at l i a k v : distinct l -> l !! i = Some a -> entry a = Some (k, v) -> table l !! k = Some v.
Proof. intros Hd Ha He. apply table_lookup_Some; eauto. Qed.

Lemma table_None l k :
  table l !! k = None <-> forall i a v, l !! i = Some a -> entry a ≠ Some (k, v).
Proof.
  unfold table. rewrite <- not_elem_of_list_to_map, list_elem_of_fmap. split.
  - intros Hn i a v Ha He. apply Hn. exists (k, v). split; [done|]. apply elem_of_entries. eauto.
  - intros Hn ([? v] & -> & (i & a & Ha & He)%elem_of_entries). by eapply Hn.
Qed.

(** A slot that holds an entry is the only one with its key. *)
Lemma distinct_inj l i j a b k v w :
  distinct l -> l !! i = Some a -> l !! j = Some b -> entry a = Some (k, v) -> entry b = Some (k, w) -> i = j.
Proof.
  unfold distinct. revert i j. induction l as [|c l IH]; intros i j Hd Ha Hb Hka Hkb; [done|].
  rewrite entries_cons, fmap_app in Hd. apply NoDup_app in Hd as (_ & Hx & Hd).
  assert (Hno : forall i a v, l !! i = Some a -> entry a = Some (k, v) -> k ∉ (cell c).*1).
  { intros i' a' v' Ha' Hk' Hin. apply (Hx _ Hin). apply list_elem_of_fmap. exists (k, v').
    split; [done|]. apply elem_of_entries. eauto. }
  destruct i as [|i], j as [|j]; simpl in *; [done| | |].
  - injection Ha as ->. exfalso. apply (Hno _ _ _ Hb Hkb). unfold cell. rewrite Hka. simpl. set_solver.
  - injection Hb as ->. exfalso. apply (Hno _ _ _ Ha Hka). unfold cell. rewrite Hkb. simpl. set_solver.
  - f_equal. by eapply IH.
Qed.

Lemma table_perm l xs : distinct l -> entries l ≡ₚ xs -> table l = list_to_map xs.
Proof. intros Hd Hp. by apply list_to_map_proper. Qed.

(** ** Assignments to a slot *)

Lemma table_fill l i a a' k v :
  distinct l -> l !! i = Some a -> entry a = None -> entry a' = Some (k, v) -> table l !! k = None ->
  distinct (<[i := a']> l) /\ table (<[i := a']> l) = <[k := v]> (table l).
Proof.
  intros Hd Ha He He' Hk.
  pose proof (entries_at _ _ _ Ha) as Hp. pose proof (entries_insert _ _ _ a' Ha) as Hp'.
  unfold cell in Hp, Hp'. rewrite He in Hp. rewrite He' in Hp'. simpl in Hp, Hp'.
  rewrite <- Hp in Hp'.
  assert (Hd' : distinct (<[i := a']> l)).
  { unfold distinct. rewrite Hp'. simpl. constructor; [|done]. by apply not_elem_of_list_to_map. }
  split; [done|]. by rewrite (table_perm _ _ Hd' Hp').
Qed.

Lemma table_clear l i a a' k v :
  distinct l -> l !! i = Some a -> entry a = Some (k, v) -> entry a' = None ->
  distinct (<[i := a']> l) /\ table (<[i := a']> l) = delete k (table l).
Proof.
  intros Hd Ha He He'.
  pose proof (entries_at _ _ _ Ha) as Hp. pose proof (entries_insert _ _ _ a' Ha) as Hp'.
  unfold cell in Hp, Hp'. rewrite He in Hp. rewrite He' in Hp'. simpl in Hp, Hp'.
  rewrite (table_perm _ _ Hd Hp). unfold distinct in Hd. rewrite Hp in Hd. simpl in Hd.
  apply NoDup_cons in Hd as [Hk Hd].
  assert (Hd' : distinct (<[i := a']> l)) by (unfold distinct; by rewrite Hp').
  split; [done|]. rewrite (table_perm _ _ Hd' Hp'). simpl. rewrite delete_insert_id; [done|].
  by apply not_elem_of_list_to_map.
Qed.

Lemma table_update l i a a' k v v' :
  distinct l -> l !! i = Some a -> entry a = Some (k, v) -> entry a' = Some (k, v') ->
  distinct (<[i := a']> l) /\ table (<[i := a']> l) = <[k := v']> (table l).
Proof.
  intros Hd Ha He He'.
  pose proof (entries_at _ _ _ Ha) as Hp. pose proof (entries_insert _ _ _ a' Ha) as Hp'.
  unfold cell in Hp, Hp'. rewrite He in Hp. rewrite He' in Hp'. simpl in Hp, Hp'.
  rewrite (table_perm _ _ Hd Hp). unfold distinct in Hd. rewrite Hp in Hd. simpl in Hd.
  assert (Hd' : distinct (<[i := a']> l)) by (unfold distinct; by rewrite Hp').
  split; [done|]. rewrite (table_perm _ _ Hd' Hp'). simpl. by rewrite insert_insert_eq.
Qed.

(** ** A pass over every slot *)

Lemma table_fmap (f : A -> A) (g : K -> V -> option V) l :
  (forall a, entry (f a) = entry a ≫= (fun '(k, v) => (k,.) <$> g k v)) -> distinct l ->
  distinct (f <$> l) /\ table (f <$> l) = map_imap g (table l).
Proof.
  intros Hf. unfold distinct, table. induction l as [|a l IH]; [done|].
  rewrite fmap_cons, !entries_cons. unfold cell. rewrite Hf.
  destruct (entry a) as [[k v]|]; simpl; [|done].
  intros [Hk Hd]%NoDup_cons. destruct (IH Hd) as [Hd' Ht].
  apply not_elem_of_list_to_map in Hk as Hk'.
  destruct (g k v) as [w|] eqn:Hg; simpl.
  - split.
    + constructor; [|done]. apply not_elem_of_list_to_map. rewrite Ht, map_lookup_imap, Hk'. done.
    + rewrite Ht. by rewrite map_imap_insert, Hg.
  - split; [done|]. rewrite Ht. rewrite map_imap_insert, Hg, delete_id; [done|].
    by rewrite map_lookup_imap, Hk'.
Qed.

(** ** Searches and counts *)

(** The linear search for a key. *)
Lemma table_find (f : A -> bool) l k :
  (forall a, f a = true <-> exists v, entry a = Some (k, v)) ->
  match position f l with
  | Some i => exists a v, l !! i = Some a /\ entry a = Some (k, v)
  | None => table l !! k = None
  end.
Proof.
  intros Hf. destruct (position f l) as [i|] eqn:Hp.
  - apply position_Some in Hp as (a & Ha & Hfa & _). apply Hf in Hfa as [v Hv]. eauto.
  - apply table_None. intros i a v Ha He. pose proof (proj1 (position_None _ _) Hp _ _ Ha) as Hn.
    enough (f a = true) by congruence. apply Hf. eauto.
Qed.

Lemma size_filter_table (P : K * V -> Prop) `{forall x, Decision (P x)} (f : A -> bool) l :
  (forall a, f a = true <-> exists kv, entry a = Some kv /\ P kv) -> distinct l ->
  size (filter P (table l)) = countb f l.
Proof.
  intros Hf. unfold distinct, table. induction l as [|a l IH]; [done|].
  rewrite entries_cons. unfold cell. simpl. specialize (Hf a) as Hfa.
  destruct (entry a) as [[k v]|] eqn:Ha; simpl.
  - intros [Hk Hd]%NoDup_cons. apply not_elem_of_list_to_map in Hk.
    destruct (decide (P (k, v))) as [HP|HP].
    + rewrite map_filter_insert_True by done.
      rewrite map_size_insert_None by (apply map_lookup_filter_None; by left).
      replace (f a) with true by (symmetry; apply Hfa; eauto). rewrite IH; auto.
    + rewrite map_filter_insert_False, delete_id by done.
      destruct (f a); [|by apply IH]. destruct Hfa as [(kv & [= <-] & ?) _]; done.
  - intros Hd. destruct (f a); [|by apply IH]. destruct Hfa as [(kv & [=] & ?) _]; done.
Qed.

Lemma size_table (f : A -> bool) l :
  (forall a, f a = true <-> exists kv, entry a = Some kv) -> distinct l -> size (table l) = countb f l.
Proof.
  intros Hf Hd. rewrite <- (size_filter_table (fun _ => True) f l); [|naive_solver|done].
  f_equal. symmetry. by apply map_filter_id.
Qed.

(** The search for a free slot. *)
Lemma table_free (f : A -> bool) l :
  (forall a, f a = true <-> exists kv, entry a = Some kv) -> distinct l ->
  match position (fun a => negb (f a)) l with
  | Some i => exists a, l !! i = Some a /\ entry a = None /\ (size (table l) < length l)%nat
  | None => size (table l) = length l
  end.
Proof.
  intros Hf Hd. rewrite (size_table f) by done.
  assert (Hc : forall l, (countb f l + countb (fun a => negb (f a)) l)%nat = length l).
  { clear. intros l. induction l as [|a l IH]; simpl; [done|]. destruct (f a); simpl; lia. }
  specialize (Hc l). destruct (position _ l) as [i|] eqn:Hp.
  - apply position_Some in Hp as (a & Ha & Hfa & _). exists a. split; [done|].
    pose proof (countb_pos (fun a => negb (f a)) _ _ _ Ha Hfa). split; [|lia].
    destruct (entry a) as [kv|] eqn:He; [|done].
    assert (f a = true) by (apply Hf; eauto). by destruct (f a).
  - rewrite (countb_none (fun a => negb (f a)) l) in Hc; [lia|]. by apply position_None.
Qed.
End table.
