(* ===== verification/Msg.v ===== *)
(** * Messages between processes: [kernel/rust/msg.rs]

    Inboxes, services and the kernel entry points. The [Hal] trait's answers about the
    process table and the clock are a record of functions, fixed during one call (a call
    runs with interrupts disabled). *)

From S2P Require Import Prelude Bytes.
Local Open Scope Z_scope.
Local Open Scope machine_scope.

Definition MAX_PAYLOAD : nat := 1024.
Definition QUEUE_DEPTH : nat := 16.
Definition MAX_PER_SENDER : Z := 8.
Definition MAX_INBOXES : nat := 32.
Definition MAX_SERVICES : nat := 32.
Definition MAX_NAMES_PER_PROC : Z := 4.
Definition MAX_ALLOW : nat := 8.
Definition NAME_MAX : nat := 31.
Definition TICK_HZ : Z := 100.

#[global] Arguments MAX_PAYLOAD : simpl never.
#[global] Arguments QUEUE_DEPTH : simpl never.
#[global] Arguments MAX_INBOXES : simpl never.
#[global] Arguments MAX_SERVICES : simpl never.
#[global] Arguments MAX_ALLOW : simpl never.
#[global] Arguments NAME_MAX : simpl never.

Definition ACCEPT_ANY : Z := 0.
Definition ACCEPT_SAME_UID : Z := 1.
Definition ACCEPT_ALLOWLIST : Z := 2.

Definition RECV_PEEK : Z := 1.
Definition RECV_MATCH_TAG : Z := 2.

Definition SVC_REGISTER : Z := 1.
Definition SVC_UNREGISTER : Z := 2.
Definition SVC_LOOKUP : Z := 3.

Definition CTL_STAT : Z := 1.
Definition CTL_ALLOW : Z := 2.
Definition CTL_DENY : Z := 3.
Definition CTL_POLICY : Z := 4.

Definition EPERM : Z := 1.
Definition ENOENT : Z := 2.
Definition ESRCH : Z := 3.
Definition E2BIG : Z := 7.
Definition EBADF : Z := 9.
Definition EAGAIN : Z := 11.
Definition EACCES : Z := 13.
Definition EEXIST : Z := 17.
Definition EINVAL : Z := 22.
Definition ENOSPC : Z := 28.

Record Hal : Type := mkHal {
  pid_is_live : Z -> bool;
  uid_of : Z -> option Z;
  ticks : Z;
}.

(** ** State *)

Record Slot : Type := mkSlot {
  used : bool;
  sender : Z; sender_uid : Z; mtype : Z; tag : Z; len : Z; tick : Z;
  seq : Z;
  data : list Z;
}.

Record Inbox : Type := mkInbox {
  in_use : bool;
  pid : Z;
  policy : Z;
  allow : list Z;
  count : Z;
  next_seq : Z;
  delivered : Z;
  refused : Z;
  slots : list Slot;
}.

Record Service : Type := mkService {
  s_in_use : bool;
  s_pid : Z;
  name_len : nat;
  name : list Z;
}.

Definition EMPTY_SLOT : Slot := mkSlot false 0 0 0 0 0 0 0 (replicate MAX_PAYLOAD 0).
Definition EMPTY_INBOX : Inbox :=
  mkInbox false 0 0 (replicate MAX_ALLOW 0) 0 0 0 0 (replicate QUEUE_DEPTH EMPTY_SLOT).
Definition EMPTY_SERVICE : Service := mkService false 0 0 (replicate 32 0).

Record Msg : Type := mkMsg {
  inboxes : list Inbox;
  services : list Service;
}.

Inductive Dest : Type :=
| DPid (p : Z)
| DName (n : list Z).

Record RecvInfo : Type := mkInfo {
  i_sender : Z; i_sender_uid : Z; i_mtype : Z; i_tag : Z; i_len : Z; i_tick : Z; i_pending : Z;
}.

Record Stat : Type := mkStat {
  st_queued : Z; st_capacity : Z; st_max_payload : Z; st_policy : Z; st_delivered : Z; st_refused : Z;
  st_next_len : Z; st_next_type : Z; st_next_sender : Z; st_now_tick : Z; st_tick_hz : Z;
}.

Definition name_char (c : Z) : bool :=
  is_ascii_alphanumeric c || (c =? chr ".") || (c =? chr "_") || (c =? chr "-").

Definition valid_name (n : list Z) : bool :=
  negb (length n =? 0)%nat && (length n <=? NAME_MAX)%nat && forallb name_char n.

Definition Msg_new : Msg :=
  mkMsg (replicate MAX_INBOXES EMPTY_INBOX) (replicate MAX_SERVICES EMPTY_SERVICE).

Definition set_inboxes (l : list Inbox) (m : Msg) : Msg := mkMsg l (services m).
Definition set_services (l : list Service) (m : Msg) : Msg := mkMsg (inboxes m) l.

Definition set_allow (l : list Z) (b : Inbox) : Inbox :=
  mkInbox (in_use b) (pid b) (policy b) l (count b) (next_seq b) (delivered b) (refused b) (slots b).
Definition set_policy_of (p : Z) (b : Inbox) : Inbox :=
  mkInbox (in_use b) (pid b) p (allow b) (count b) (next_seq b) (delivered b) (refused b) (slots b).
(** [refused = refused.wrapping_add(1)]. *)
Definition refuse (b : Inbox) : Inbox :=
  mkInbox (in_use b) (pid b) (policy b) (allow b) (count b) (next_seq b) (delivered b)
          (refused b +₃₂ 1) (slots b).

(** ** Lookup *)

Definition find_inbox (m : Msg) (p : Z) : option nat :=
  if p <=? 0 then None else position (fun b => in_use b && (pid b =? p)) (inboxes m).

(** [&s.name[..s.name_len]]. *)
Definition service_name (s : Service) : outcome (list Z) := slice_to (name s) (name_len s).

Fixpoint find_service_loop (l : list Service) (i : nat) (n : list Z) : outcome (option nat) :=
  match l with
  | [] => Done None
  | s :: l' =>
      if s_in_use s then
        sn ← service_name s;
        if bool_decide (sn = n) then Done (Some i) else find_service_loop l' (S i) n
      else find_service_loop l' (S i) n
  end.

Definition find_service (m : Msg) (n : list Z) : outcome (option nat) :=
  find_service_loop (services m) 0 n.

Definition names_of (m : Msg) (p : Z) : Z :=
  wrap32 (Z.of_nat (countb (fun s => s_in_use s && (s_pid s =? p)) (services m))).

(** ** Inbox lifetime *)

Definition fresh_inbox (p pol : Z) : Inbox :=
  mkInbox true p pol (allow EMPTY_INBOX) 0 0 0 0 (slots EMPTY_INBOX).

Definition open (p pol flags : Z) (m : Msg) : outcome (result (Z * Z) Z * Msg) :=
  if negb (flags =? 0) || (ACCEPT_ALLOWLIST <? pol) || (p <=? 0) then Done (Err EINVAL, m)
  else
    match find_inbox m p with
    | Some _ => Done (Err EEXIST, m)
    | None =>
        match position (fun b => negb (in_use b)) (inboxes m) with
        | None => Done (Err ENOSPC, m)
        | Some i =>
            l ← store (inboxes m) i (fresh_inbox p pol);
            Done (Ok (Z.of_nat QUEUE_DEPTH, Z.of_nat MAX_PAYLOAD), set_inboxes l m)
        end
    end.

Definition drop_service (p : Z) (s : Service) : Service :=
  if s_in_use s && (s_pid s =? p) then EMPTY_SERVICE else s.

(** [for a in list.iter_mut() { if *a == p { *a = 0 } }]. *)
Definition strike (p : Z) (l : list Z) : list Z := (fun a => if a =? p then 0 else a) <$> l.

Definition drop_inbox (p : Z) (b : Inbox) : Inbox :=
  if in_use b && (pid b =? p) then EMPTY_INBOX
  else if in_use b then set_allow (strike p (allow b)) b
  else b.

Definition drop_process (p : Z) (m : Msg) : Msg :=
  mkMsg (drop_inbox p <$> inboxes m) (drop_service p <$> services m).

Definition close (p : Z) (m : Msg) : result unit Z * Msg :=
  match find_inbox m p with
  | None => (Err EBADF, m)
  | Some _ => (Ok tt, drop_process p m)
  end.

Definition process_exit (p : Z) (m : Msg) : Msg := drop_process p m.

(** ** Sending *)

(** The receiver of a send; a name whose owner is gone is released. *)
Definition resolve (h : Hal) (dest : Dest) (m : Msg) : outcome (result Z Z * Msg) :=
  match dest with
  | DPid p => if p <=? 0 then Done (Err EINVAL, m) else Done (Ok p, m)
  | DName n =>
      if negb (valid_name n) then Done (Err EINVAL, m)
      else
        r ← find_service m n;
        match r with
        | None => Done (Err ENOENT, m)
        | Some si =>
            s ← index (services m) si;
            if negb (pid_is_live h (s_pid s)) then
              l ← store (services m) si EMPTY_SERVICE;
              Done (Err ENOENT, set_services l m)
            else Done (Ok (s_pid s), m)
        end
  end.

(** The receiver's policy: [Ok true] to go on, [Ok false] to refuse. *)
Definition accepts (h : Hal) (b : Inbox) (from from_uid to : Z) : result bool Z :=
  if policy b =? ACCEPT_SAME_UID then
    match uid_of h to with
    | None => Err ESRCH
    | Some ru => Ok (negb (negb (from_uid =? ru) && negb (from_uid =? 0)))
    end
  else if policy b =? ACCEPT_ALLOWLIST then Ok (existsb (fun a => a =? from) (allow b))
  else Ok true.

(** How many slots the sender holds, and the first free one. *)
Fixpoint send_scan (l : list Slot) (i : nat) (from mine : Z) (free : option nat) : Z * option nat :=
  match l with
  | [] => (mine, free)
  | s :: l' =>
      if used s then send_scan l' (S i) from (if sender s =? from then mine +₃₂ 1 else mine) free
      else send_scan l' (S i) from mine (match free with None => Some i | Some _ => free end)
  end.

Definition enqueue (b : Inbox) (i : nat) (s : Slot) : outcome Inbox :=
  l ← store (slots b) i s;
  Done (mkInbox (in_use b) (pid b) (policy b) (allow b) (count b +₃₂ 1) (wrap64 (next_seq b + 1))
                (delivered b) (refused b) l).

(** The second half of [send]: the message goes into the inbox of [to]. *)
Definition deliver (h : Hal) (from from_uid to mt tg : Z) (payload : list Z) (m : Msg) :
    outcome (result unit Z * Msg) :=
  if negb (pid_is_live h to) then Done (Err ESRCH, m)
  else
    match find_inbox m to with
    | None => Done (Err ENOENT, m)
    | Some ii =>
        b ← index (inboxes m) ii;
        match accepts h b from from_uid to with
        | Err e => Done (Err e, m)
        | Ok false =>
            l ← store (inboxes m) ii (refuse b);
            Done (Err EACCES, set_inboxes l m)
        | Ok true =>
            let '(mine, free) := send_scan (slots b) 0 from 0 None in
            match free with
            | Some fi =>
                if mine <? MAX_PER_SENDER then
                  old ← index (slots b) fi;
                  buf ← copy_prefix (data old) payload;
                  b' ← enqueue b fi (mkSlot true from from_uid mt tg (wrap32 (Z.of_nat (length payload)))
                                       (ticks h) (next_seq b) buf);
                  l ← store (inboxes m) ii b';
                  Done (Ok tt, set_inboxes l m)
                else
                  l ← store (inboxes m) ii (refuse b);
                  Done (Err EAGAIN, set_inboxes l m)
            | None =>
                l ← store (inboxes m) ii (refuse b);
                Done (Err EAGAIN, set_inboxes l m)
            end
        end
    end.

Definition send (h : Hal) (from from_uid : Z) (dest : Dest) (mt tg flags : Z) (payload : list Z) (m : Msg) :
    outcome (result unit Z * Msg) :=
  if negb (flags =? 0) || (mt =? 0) then Done (Err EINVAL, m)
  else if (MAX_PAYLOAD <? length payload)%nat then Done (Err E2BIG, m)
  else
    '(r, m) ← resolve h dest m;
    match r with
    | Err e => Done (Err e, m)
    | Ok to => deliver h from from_uid to mt tg payload m
    end.

(** ** Receiving *)

Definition wanted (flags match_sender match_type match_tag : Z) (s : Slot) : bool :=
  negb (negb (used s)
        || (negb (match_sender =? 0) && negb (sender s =? match_sender))
        || (negb (match_type =? 0) && negb (mtype s =? match_type))
        || (negb (Z.land flags RECV_MATCH_TAG =? 0) && negb (tag s =? match_tag))).

(** The slot with the smallest number among those that satisfy [f], from index [i] on;
    [all] is the whole array. *)
Fixpoint best_scan (f : Slot -> bool) (all l : list Slot) (i : nat) (best : option nat) :
    outcome (option nat) :=
  match l with
  | [] => Done best
  | s :: l' =>
      if f s then
        better ← match best with
                 | None => Done true
                 | Some b => t ← index all b; Done (seq s <? seq t)
                 end;
        best_scan f all l' (S i) (if better : bool then Some i else best)
      else best_scan f all l' (S i) best
  end.

Definition take_slot (b : Inbox) (i : nat) (s : Slot) : outcome Inbox :=
  l ← store (slots b) i (mkSlot false (sender s) (sender_uid s) (mtype s) (tag s) (len s) (tick s) (seq s) (data s));
  Done (mkInbox (in_use b) (pid b) (policy b) (allow b) (count b -₃₂ 1) (next_seq b)
                (delivered b +₃₂ 1) (refused b) l).

Definition slot_info (s : Slot) (pending : Z) : RecvInfo :=
  mkInfo (sender s) (sender_uid s) (mtype s) (tag s) (len s) (tick s) pending.

(** The result, [info] and [out] as the call leaves them, and the new state. *)
Definition recv (p flags match_sender match_type match_tag : Z) (out : list Z) (info : RecvInfo) (m : Msg) :
    outcome (result unit Z * RecvInfo * list Z * Msg) :=
  if negb (Z.ldiff flags (Z.lor RECV_PEEK RECV_MATCH_TAG) =? 0) then Done (Err EINVAL, info, out, m)
  else
    match find_inbox m p with
    | None => Done (Err EBADF, info, out, m)
    | Some ii =>
        b ← index (inboxes m) ii;
        best ← best_scan (wanted flags match_sender match_type match_tag) (slots b) (slots b) 0 None;
        match best with
        | None => Done (Err EAGAIN, info, out, m)
        | Some bi =>
            s ← index (slots b) bi;
            let info := slot_info s (count b) in
            if (length out <? Z.to_nat (len s))%nat then Done (Err E2BIG, info, out, m)
            else
              bytes ← slice_to (data s) (Z.to_nat (len s));
              out ← copy_prefix out bytes;
              if Z.land flags RECV_PEEK =? 0 then
                b' ← take_slot b bi s;
                l ← store (inboxes m) ii b';
                Done (Ok tt, slot_info s (count b'), out, set_inboxes l m)
              else Done (Ok tt, info, out, m)
        end
    end.

(** ** Service names *)

Definition service (h : Hal) (p op : Z) (nm : list Z) (m : Msg) : outcome (result Z Z * Msg) :=
  if negb (valid_name nm) then Done (Err EINVAL, m)
  else if op =? SVC_REGISTER then
    match find_inbox m p with
    | None => Done (Err EBADF, m)
    | Some _ =>
        r ← find_service m nm;
        match r with
        | Some si =>
            s ← index (services m) si;
            if s_pid s =? p then Done (Ok 0, m)
            else if pid_is_live h (s_pid s) then Done (Err EEXIST, m)
            else if MAX_NAMES_PER_PROC <=? names_of m p then Done (Err ENOSPC, m)
            else
              l ← store (services m) si (mkService (s_in_use s) p (name_len s) (name s));
              Done (Ok 0, set_services l m)
        | None =>
            if MAX_NAMES_PER_PROC <=? names_of m p then Done (Err ENOSPC, m)
            else
              match position (fun s => negb (s_in_use s)) (services m) with
              | None => Done (Err ENOSPC, m)
              | Some f =>
                  buf ← copy_prefix (replicate 32 0) nm;
                  l ← store (services m) f (mkService true p (length nm) buf);
                  Done (Ok 0, set_services l m)
              end
        end
    end
  else if op =? SVC_UNREGISTER then
    r ← find_service m nm;
    match r with
    | None => Done (Err ENOENT, m)
    | Some si =>
        s ← index (services m) si;
        if negb (s_pid s =? p) then Done (Err EPERM, m)
        else
          l ← store (services m) si EMPTY_SERVICE;
          Done (Ok 0, set_services l m)
    end
  else if op =? SVC_LOOKUP then
    r ← find_service m nm;
    match r with
    | None => Done (Err ENOENT, m)
    | Some si =>
        s ← index (services m) si;
        if pid_is_live h (s_pid s) then Done (Ok (s_pid s), m)
        else
          l ← store (services m) si EMPTY_SERVICE;
          Done (Err ENOENT, set_services l m)
    end
  else Done (Err EINVAL, m).

(** ** Control *)

Definition stat (h : Hal) (p : Z) (m : Msg) : outcome (result Stat Z) :=
  match find_inbox m p with
  | None => Done (Err EBADF)
  | Some ii =>
      b ← index (inboxes m) ii;
      best ← best_scan used (slots b) (slots b) 0 None;
      '(l, t, s) ← match best with
                   | None => Done (0, 0, 0)
                   | Some bi => s ← index (slots b) bi; Done (len s, mtype s, sender s)
                   end;
      Done (Ok (mkStat (count b) (Z.of_nat QUEUE_DEPTH) (Z.of_nat MAX_PAYLOAD) (policy b) (delivered b)
                       (refused b) l t s (ticks h) TICK_HZ))
  end.

Definition allow_pid (p target : Z) (add : bool) (m : Msg) : outcome (result unit Z * Msg) :=
  match find_inbox m p with
  | None => Done (Err EBADF, m)
  | Some ii =>
      if target <=? 0 then Done (Err EINVAL, m)
      else
        b ← index (inboxes m) ii;
        if add then
          if existsb (fun a => a =? target) (allow b) then Done (Ok tt, m)
          else
            match position (fun a => a =? 0) (allow b) with
            | None => Done (Err ENOSPC, m)
            | Some f =>
                al ← store (allow b) f target;
                l ← store (inboxes m) ii (set_allow al b);
                Done (Ok tt, set_inboxes l m)
            end
        else
          l ← store (inboxes m) ii (set_allow (strike target (allow b)) b);
          Done (Ok tt, set_inboxes l m)
  end.

Definition set_policy (p pol : Z) (m : Msg) : outcome (result unit Z * Msg) :=
  match find_inbox m p with
  | None => Done (Err EBADF, m)
  | Some ii =>
      if ACCEPT_ALLOWLIST <? pol then Done (Err EINVAL, m)
      else
        b ← index (inboxes m) ii;
        l ← store (inboxes m) ii (set_policy_of pol b);
        Done (Ok tt, set_inboxes l m)
  end.

(** ** Self-checking *)

Fixpoint check_allow (l : list Z) : result unit string :=
  match l with
  | [] => Ok tt
  | a :: l' =>
      if a <? 0 then Err "a negative pid in an allowlist"%string
      else if negb (a =? 0) && existsb (fun x => x =? a) l'
      then Err "a duplicate allowlist entry"%string
      else check_allow l'
  end.

Fixpoint check_slots (l : list Slot) (next : Z) : result unit string :=
  match l with
  | [] => Ok tt
  | s :: l' =>
      if negb (used s) then check_slots l' next
      else if (mtype s =? 0) || (Z.of_nat MAX_PAYLOAD <? len s) || (sender s <=? 0)
      then Err "a queued message has impossible fields"%string
      else if existsb (fun t => used t && (seq t =? seq s)) l'
      then Err "two queued messages share an arrival number"%string
      else if next <=? seq s
      then Err "a queued message is newer than the arrival counter"%string
      else check_slots l' next
  end.

(** The messages [from] has in the queue. *)
Definition held (from : Z) (l : list Slot) : nat := countb (fun s => used s && (sender s =? from)) l.

Definition check_share (l : list Slot) : result unit string :=
  if existsb (fun s => used s && (MAX_PER_SENDER <? wrap32 (Z.of_nat (held (sender s) l)))) l
  then Err "a sender holds more than its share of an inbox"%string
  else Ok tt.

Definition has_twin (i : nat) (p : Z) (l : list Inbox) : bool :=
  existsb (fun '(j, o) => negb (j =? i)%nat && in_use o && (pid o =? p)) (imap (fun j o => (j, o)) l).

Definition check_inbox (i : nat) (b : Inbox) (all : list Inbox) : result unit string :=
  let u := wrap32 (Z.of_nat (countb used (slots b))) in
  if negb (in_use b) then
    if negb (u =? 0) || negb (count b =? 0) then Err "a free inbox holds messages"%string else Ok tt
  else if pid b <=? 0 then Err "an inbox belongs to no valid pid"%string
  else if negb (count b =? u) then Err "an inbox's count disagrees with its used slots"%string
  else if ACCEPT_ALLOWLIST <? policy b then Err "an inbox has an invalid policy"%string
  else if has_twin i (pid b) all then Err "two inboxes belong to one pid"%string
  else
    match check_allow (allow b) with
    | Err e => Err e
    | Ok _ =>
        match check_slots (slots b) (next_seq b) with
        | Err e => Err e
        | Ok _ => check_share (slots b)
        end
    end.

Fixpoint check_inboxes (i : nat) (l all : list Inbox) : result unit string :=
  match l with
  | [] => Ok tt
  | b :: l' =>
      match check_inbox i b all with
      | Err e => Err e
      | Ok _ => check_inboxes (S i) l' all
      end
  end.

(** A later service with the length and the bytes of [s]'s name. *)
Fixpoint shares_name (s : Service) (l : list Service) : outcome bool :=
  match l with
  | [] => Done false
  | t :: l' =>
      if s_in_use t && (name_len t =? name_len s)%nat then
        tn ← service_name t;
        sn ← service_name s;
        if bool_decide (tn = sn) then Done true else shares_name s l'
      else shares_name s l'
  end.

Fixpoint check_services (l : list Service) (m : Msg) : outcome (result unit string) :=
  match l with
  | [] => Done (Ok tt)
  | s :: l' =>
      if negb (s_in_use s) then check_services l' m
      else
        sn ← service_name s;
        if negb (valid_name sn) then Done (Err "a service has an invalid name"%string)
        else
          match find_inbox m (s_pid s) with
          | None => Done (Err "a service belongs to a process with no inbox"%string)
          | Some _ =>
              twin ← shares_name s l';
              if twin : bool then Done (Err "two services share a name"%string)
              else if MAX_NAMES_PER_PROC <? names_of m (s_pid s)
              then Done (Err "a process holds more names than the limit"%string)
              else check_services l' m
          end
  end.

Definition check_counts (m : Msg) : outcome (result unit string) :=
  match check_inboxes 0 (inboxes m) (inboxes m) with
  | Err e => Done (Err e)
  | Ok _ => check_services (services m) m
  end.

Definition sum_counts (l : list Inbox) : Z :=
  fold_left (fun acc b => if in_use b then acc +₃₂ count b else acc) l 0.

Definition stats (m : Msg) : Z * Z * Z :=
  (wrap32 (Z.of_nat (countb in_use (inboxes m))), sum_counts (inboxes m),
   wrap32 (Z.of_nat (countb s_in_use (services m)))).

(** ** Kernel entry points

    A pointer from the C side is the memory behind it; what is written through an out
    pointer is part of the result. *)

Definition as_i32 (z : Z) : Z := let w := wrap32 z in if w <? 2147483648 then w else w - 4294967296.

Definition neg (r : result unit Z) : Z := match r with Ok _ => 0 | Err e => - e end.

Definition rust_msg_open (p pol flags : Z) (m : Msg) : outcome (Z * option (Z * Z) * Msg) :=
  '(r, m) ← open p pol flags m;
  Done (match r with Ok dm => (0, Some dm) | Err e => (- e, None) end, m).

Definition rust_msg_close (p : Z) (m : Msg) : Z * Msg := let '(r, m) := close p m in (neg r, m).

Definition rust_msg_send (h : Hal) (from from_uid dest_pid : Z) (nm : list Z) (nlen mt tg flags : Z)
    (mem : list Z) (n : Z) (m : Msg) : outcome (Z * Msg) :=
  if (Z.of_nat MAX_PAYLOAD <? n) then Done (- E2BIG, m)
  else if (Z.of_nat NAME_MAX + 1 <? nlen) then Done (- EINVAL, m)
  else
    let payload := if n =? 0 then [] else take (Z.to_nat n) mem in
    let dest := if nlen =? 0 then DPid dest_pid else DName (take (Z.to_nat nlen) nm) in
    '(r, m) ← send h from from_uid dest mt tg flags payload m;
    Done (neg r, m).

(** The return value, the words written to [info] and the bytes of the buffer [buf]. *)
Definition rust_msg_recv (p flags match_sender match_type match_tag : Z) (buf : list Z) (cap : Z) (m : Msg) :
    outcome (Z * option (list Z) * list Z * Msg) :=
  let c := Nat.min (Z.to_nat cap) MAX_PAYLOAD in
  let out := if (c =? 0)%nat then [] else take c buf in
  '(r, i, o, m) ← recv p flags match_sender match_type match_tag out (mkInfo 0 0 0 0 0 0 0) m;
  let words := [wrap32 (i_sender i); i_sender_uid i; i_mtype i; i_tag i; i_len i; i_tick i; i_pending i; 0] in
  Done (neg r,
        match r with
        | Ok _ => Some words
        | Err e => if e =? E2BIG then Some words else None
        end, o ++ drop (length o) buf, m).

Definition rust_msg_service (h : Hal) (p op : Z) (nm : list Z) (nlen : Z) (m : Msg) :
    outcome (Z * option Z * Msg) :=
  if (Z.of_nat NAME_MAX + 1 <? nlen) then Done (- EINVAL, None, m)
  else
    let n := if nlen =? 0 then [] else take (Z.to_nat nlen) nm in
    '(r, m) ← service h p op n m;
    Done (match r with Ok q => (0, Some q) | Err e => (- e, None) end, m).

Definition rust_msg_ctl (h : Hal) (p op arg : Z) (m : Msg) : outcome (Z * option (list Z) * Msg) :=
  if op =? CTL_STAT then
    r ← stat h p m;
    Done (match r with
          | Ok s => (0, Some [st_queued s; st_capacity s; st_max_payload s; st_policy s; st_delivered s;
                              st_refused s; st_next_len s; st_next_type s; wrap32 (st_next_sender s);
                              st_now_tick s; st_tick_hz s; 0])
          | Err e => (- e, None)
          end, m)
  else if op =? CTL_ALLOW then
    '(r, m) ← allow_pid p (as_i32 arg) true m; Done (neg r, None, m)
  else if op =? CTL_DENY then
    '(r, m) ← allow_pid p (as_i32 arg) false m; Done (neg r, None, m)
  else if op =? CTL_POLICY then
    '(r, m) ← set_policy p arg m; Done (neg r, None, m)
  else Done (- EINVAL, None, m).

Definition rust_msg_process_exit (p : Z) (m : Msg) : Msg := process_exit p m.

Definition rust_msg_selftest (m : Msg) : outcome (Z * (Z * Z * Z)) :=
  r ← check_counts m;
  Done (match r with Ok _ => 0 | Err _ => 1 end, stats m).
