(* ===== verification/MsgSpec.v ===== *)
(** * Messages: what the component promises

    A mail system as its users see it: an inbox per process with a first-in first-out queue
    of whole messages, and a map from service names to processes. [do_call] is the contract of
    every kernel entry point, [mail_ok] the limits that always hold. *)

From S2P Require Import Prelude Bytes Msg.
Local Open Scope Z_scope.

Record message : Type := mkMessage {
  f_sender : Z; f_uid : Z; f_type : Z; f_tag : Z; f_tick : Z;
  f_data : list Z;
}.

Record box : Type := mkBox {
  x_policy : Z;
  x_allow : gset Z;
  x_queue : list message;
  x_delivered : Z;
  x_refused : Z;
}.

Record mail : Type := mkMail {
  boxes : gmap Z box;
  names : gmap (list Z) Z;
}.

Definition no_mail : mail := mkMail ∅ ∅.

(** The messages of one sender. *)
Definition sent_by (from : Z) (q : list message) : nat := countb (fun f => f_sender f =? from) q.

Definition names_held (p : Z) (a : mail) : nat := size (filter (fun nq => nq.2 = p) (names a)).

Definition set_box (p : Z) (x : box) (a : mail) : mail := mkMail (<[p := x]> (boxes a)) (names a).
Definition set_names (ns : gmap (list Z) Z) (a : mail) : mail := mkMail (boxes a) ns.

(** ** Inboxes *)

Definition mail_open (p pol flags : Z) (a : mail) : result (Z * Z) Z * mail :=
  if negb (flags =? 0) || (ACCEPT_ALLOWLIST <? pol) || (p <=? 0) then (Err EINVAL, a)
  else
    match boxes a !! p with
    | Some _ => (Err EEXIST, a)
    | None =>
        if (MAX_INBOXES <=? size (boxes a))%nat then (Err ENOSPC, a)
        else (Ok (Z.of_nat QUEUE_DEPTH, Z.of_nat MAX_PAYLOAD), set_box p (mkBox pol ∅ [] 0 0) a)
    end.

Definition forget (p : Z) (x : box) : box :=
  mkBox (x_policy x) (x_allow x ∖ {[p]}) (x_queue x) (x_delivered x) (x_refused x).

(** Everything of [p] goes: its inbox, its names, and its place in the other allowlists. *)
Definition mail_exit (p : Z) (a : mail) : mail :=
  mkMail (forget p <$> delete p (boxes a)) (filter (fun nq => nq.2 <> p) (names a)).

Definition mail_close (p : Z) (a : mail) : result unit Z * mail :=
  match boxes a !! p with
  | None => (Err EBADF, a)
  | Some _ => (Ok tt, mail_exit p a)
  end.

(** ** Sending *)

Definition mail_resolve (h : Hal) (dest : Dest) (a : mail) : result Z Z * mail :=
  match dest with
  | DPid p => if p <=? 0 then (Err EINVAL, a) else (Ok p, a)
  | DName n =>
      if negb (valid_name n) then (Err EINVAL, a)
      else
        match names a !! n with
        | None => (Err ENOENT, a)
        | Some q =>
            if pid_is_live h q then (Ok q, a) else (Err ENOENT, set_names (delete n (names a)) a)
        end
  end.

(** The policy of an inbox admits a sender. *)
Definition admits (h : Hal) (x : box) (from from_uid to : Z) : result bool Z :=
  if x_policy x =? ACCEPT_SAME_UID then
    match uid_of h to with
    | None => Err ESRCH
    | Some ru => Ok ((from_uid =? ru) || (from_uid =? 0))
    end
  else if x_policy x =? ACCEPT_ALLOWLIST then Ok (bool_decide (from ∈ x_allow x))
  else Ok true.

Definition has_room (from : Z) (q : list message) : bool :=
  (length q <? QUEUE_DEPTH)%nat && (Z.of_nat (sent_by from q) <? MAX_PER_SENDER).

Definition turn_away (x : box) : box :=
  mkBox (x_policy x) (x_allow x) (x_queue x) (x_delivered x) (wrap32 (x_refused x + 1)).

Definition append (f : message) (x : box) : box :=
  mkBox (x_policy x) (x_allow x) (x_queue x ++ [f]) (x_delivered x) (x_refused x).

(** The delivery of [f] from its sender into the inbox of [to]. *)
Definition mail_deliver (h : Hal) (f : message) (to : Z) (a : mail) : result unit Z * mail :=
  if negb (pid_is_live h to) then (Err ESRCH, a)
  else
    match boxes a !! to with
    | None => (Err ENOENT, a)
    | Some x =>
        match admits h x (f_sender f) (f_uid f) to with
        | Err e => (Err e, a)
        | Ok false => (Err EACCES, set_box to (turn_away x) a)
        | Ok true =>
            if has_room (f_sender f) (x_queue x) then (Ok tt, set_box to (append f x) a)
            else (Err EAGAIN, set_box to (turn_away x) a)
        end
    end.

Definition mail_send (h : Hal) (from from_uid : Z) (dest : Dest) (mt tg flags : Z) (payload : list Z)
    (a : mail) : result unit Z * mail :=
  if negb (flags =? 0) || (mt =? 0) then (Err EINVAL, a)
  else if (MAX_PAYLOAD <? length payload)%nat then (Err E2BIG, a)
  else
    let '(r, a) := mail_resolve h dest a in
    match r with
    | Err e => (Err e, a)
    | Ok to => mail_deliver h (mkMessage from from_uid mt tg (ticks h) payload) to a
    end.

(** ** Receiving *)

Definition selects (flags match_sender match_type match_tag : Z) (f : message) : bool :=
  ((match_sender =? 0) || (f_sender f =? match_sender)) &&
  ((match_type =? 0) || (f_type f =? match_type)) &&
  ((Z.land flags RECV_MATCH_TAG =? 0) || (f_tag f =? match_tag)).

Definition describe (f : message) (pending : Z) : RecvInfo :=
  mkInfo (f_sender f) (f_uid f) (f_type f) (f_tag f) (Z.of_nat (length (f_data f))) (f_tick f) pending.

(** The message at place [i] leaves the queue. *)
Definition remove (i : nat) (x : box) : box :=
  mkBox (x_policy x) (x_allow x) (delete i (x_queue x)) (wrap32 (x_delivered x + 1)) (x_refused x).

Definition mail_recv (p flags match_sender match_type match_tag : Z) (out : list Z) (info : RecvInfo)
    (a : mail) : result unit Z * RecvInfo * list Z * mail :=
  if negb (Z.ldiff flags (Z.lor RECV_PEEK RECV_MATCH_TAG) =? 0) then (Err EINVAL, info, out, a)
  else
    match boxes a !! p with
    | None => (Err EBADF, info, out, a)
    | Some x =>
        match position (selects flags match_sender match_type match_tag) (x_queue x) with
        | None => (Err EAGAIN, info, out, a)
        | Some i =>
            match x_queue x !! i with
            | None => (Err EAGAIN, info, out, a)
            | Some f =>
                let n := Z.of_nat (length (x_queue x)) in
                if (length out <? length (f_data f))%nat then (Err E2BIG, describe f n, out, a)
                else
                  let out := f_data f ++ drop (length (f_data f)) out in
                  if Z.land flags RECV_PEEK =? 0
                  then (Ok tt, describe f (n - 1), out, set_box p (remove i x) a)
                  else (Ok tt, describe f n, out, a)
            end
        end
    end.

(** ** Names *)

(** [p] takes the name [n], which nobody alive owns. *)
Definition claim (p : Z) (n : list Z) (a : mail) : result Z Z * mail :=
  if MAX_NAMES_PER_PROC <=? Z.of_nat (names_held p a) then (Err ENOSPC, a)
  else if bool_decide (names a !! n = None) && (MAX_SERVICES <=? size (names a))%nat then (Err ENOSPC, a)
  else (Ok 0, set_names (<[n := p]> (names a)) a).

Definition mail_service (h : Hal) (p op : Z) (n : list Z) (a : mail) : result Z Z * mail :=
  if negb (valid_name n) then (Err EINVAL, a)
  else if op =? SVC_REGISTER then
    match boxes a !! p with
    | None => (Err EBADF, a)
    | Some _ =>
        match names a !! n with
        | Some q => if q =? p then (Ok 0, a) else if pid_is_live h q then (Err EEXIST, a) else claim p n a
        | None => claim p n a
        end
    end
  else if op =? SVC_UNREGISTER then
    match names a !! n with
    | None => (Err ENOENT, a)
    | Some q => if q =? p then (Ok 0, set_names (delete n (names a)) a) else (Err EPERM, a)
    end
  else if op =? SVC_LOOKUP then
    match names a !! n with
    | None => (Err ENOENT, a)
    | Some q =>
        if pid_is_live h q then (Ok q, a) else (Err ENOENT, set_names (delete n (names a)) a)
    end
  else (Err EINVAL, a).

(** ** Control *)

Definition mail_stat (h : Hal) (p : Z) (a : mail) : result Stat Z :=
  match boxes a !! p with
  | None => Err EBADF
  | Some x =>
      let '(l, t, s) := match x_queue x with
                        | [] => (0, 0, 0)
                        | f :: _ => (Z.of_nat (length (f_data f)), f_type f, f_sender f)
                        end in
      Ok (mkStat (Z.of_nat (length (x_queue x))) (Z.of_nat QUEUE_DEPTH) (Z.of_nat MAX_PAYLOAD) (x_policy x)
                 (x_delivered x) (x_refused x) l t s (ticks h) TICK_HZ)
  end.

Definition with_allow (s : gset Z) (x : box) : box :=
  mkBox (x_policy x) s (x_queue x) (x_delivered x) (x_refused x).
Definition with_policy (pol : Z) (x : box) : box :=
  mkBox pol (x_allow x) (x_queue x) (x_delivered x) (x_refused x).

Definition mail_allow (p target : Z) (add : bool) (a : mail) : result unit Z * mail :=
  match boxes a !! p with
  | None => (Err EBADF, a)
  | Some x =>
      if target <=? 0 then (Err EINVAL, a)
      else if add then
        if bool_decide (target ∈ x_allow x) then (Ok tt, a)
        else if (MAX_ALLOW <=? size (x_allow x))%nat then (Err ENOSPC, a)
        else (Ok tt, set_box p (with_allow ({[target]} ∪ x_allow x) x) a)
      else (Ok tt, set_box p (with_allow (x_allow x ∖ {[target]}) x) a)
  end.

Definition mail_policy (p pol : Z) (a : mail) : result unit Z * mail :=
  match boxes a !! p with
  | None => (Err EBADF, a)
  | Some x =>
      if ACCEPT_ALLOWLIST <? pol then (Err EINVAL, a) else (Ok tt, set_box p (with_policy pol x) a)
  end.

(** ** The entry points as calls

    Both sides answer a call with a return code, the words written to the out pointers and
    the bytes of the receive buffer. *)

Inductive call : Type :=
| COpen (p pol flags : Z)
| CClose (p : Z)
| CSend (from from_uid dest_pid : Z) (nm : list Z) (nlen mt tg flags : Z) (mem : list Z) (n : Z)
| CRecv (p flags match_sender match_type match_tag : Z) (buf : list Z) (cap : Z)
| CService (p op : Z) (nm : list Z) (nlen : Z)
| CCtl (p op arg : Z)
| CExit (p : Z)
| CSelftest.

Record reply : Type := mkReply { rc : Z; words : list Z; bytes : list Z }.

Definition run_call (h : Hal) (c : call) (m : Msg) : outcome (reply * Msg) :=
  match c with
  | COpen p pol flags =>
      '(r, o, m) ← rust_msg_open p pol flags m;
      Done (mkReply r (match o with Some (d, x) => [d; x] | None => [] end) [], m)
  | CClose p => let '(r, m) := rust_msg_close p m in Done (mkReply r [] [], m)
  | CSend from uid dest nm nlen mt tg flags mem n =>
      '(r, m) ← rust_msg_send h from uid dest nm nlen mt tg flags mem n m;
      Done (mkReply r [] [], m)
  | CRecv p flags ms mt tg buf cap =>
      '(r, i, o, m) ← rust_msg_recv p flags ms mt tg buf cap m;
      Done (mkReply r (default [] i) o, m)
  | CService p op nm nlen =>
      '(r, o, m) ← rust_msg_service h p op nm nlen m;
      Done (mkReply r (option_list o) [], m)
  | CCtl p op arg =>
      '(r, o, m) ← rust_msg_ctl h p op arg m;
      Done (mkReply r (default [] o) [], m)
  | CExit p => Done (mkReply 0 [] [], rust_msg_process_exit p m)
  | CSelftest =>
      '(r, (i, q, s)) ← rust_msg_selftest m;
      Done (mkReply r [i; q; s] [], m)
  end.

Definition stat_words (s : Stat) : list Z :=
  [st_queued s; st_capacity s; st_max_payload s; st_policy s; st_delivered s; st_refused s; st_next_len s;
   st_next_type s; wrap32 (st_next_sender s); st_now_tick s; st_tick_hz s; 0].

Definition info_words (i : RecvInfo) : list Z :=
  [wrap32 (i_sender i); i_sender_uid i; i_mtype i; i_tag i; i_len i; i_tick i; i_pending i; 0].

Definition queued (a : mail) : nat := sum_list ((fun '(_, x) => length (x_queue x)) <$> map_to_list (boxes a)).

Definition do_call (h : Hal) (c : call) (a : mail) : reply * mail :=
  match c with
  | COpen p pol flags =>
      let '(r, a) := mail_open p pol flags a in
      (match r with Ok (d, x) => mkReply 0 [d; x] [] | Err e => mkReply (- e) [] [] end, a)
  | CClose p => let '(r, a) := mail_close p a in (mkReply (neg r) [] [], a)
  | CSend from uid dest nm nlen mt tg flags mem n =>
      if (Z.of_nat MAX_PAYLOAD <? n) then (mkReply (- E2BIG) [] [], a)
      else if (Z.of_nat NAME_MAX + 1 <? nlen) then (mkReply (- EINVAL) [] [], a)
      else
        let dest := if nlen =? 0 then DPid dest else DName (take (Z.to_nat nlen) nm) in
        let '(r, a) := mail_send h from uid dest mt tg flags (take (Z.to_nat n) mem) a in
        (mkReply (neg r) [] [], a)
  | CRecv p flags ms mt tg buf cap =>
      let c := Nat.min (Z.to_nat cap) MAX_PAYLOAD in
      let '(r, i, o, a) := mail_recv p flags ms mt tg (take c buf) (mkInfo 0 0 0 0 0 0 0) a in
      (mkReply (neg r) (match r with
                        | Ok _ => info_words i
                        | Err e => if e =? E2BIG then info_words i else []
                        end) (o ++ drop (length o) buf), a)
  | CService p op nm nlen =>
      if (Z.of_nat NAME_MAX + 1 <? nlen) then (mkReply (- EINVAL) [] [], a)
      else
        let '(r, a) := mail_service h p op (take (Z.to_nat nlen) nm) a in
        (match r with Ok q => mkReply 0 [q] [] | Err e => mkReply (- e) [] [] end, a)
  | CCtl p op arg =>
      if op =? CTL_STAT then
        (match mail_stat h p a with
         | Ok s => mkReply 0 (stat_words s) []
         | Err e => mkReply (- e) [] []
         end, a)
      else if op =? CTL_ALLOW then
        let '(r, a) := mail_allow p (as_i32 arg) true a in (mkReply (neg r) [] [], a)
      else if op =? CTL_DENY then
        let '(r, a) := mail_allow p (as_i32 arg) false a in (mkReply (neg r) [] [], a)
      else if op =? CTL_POLICY then
        let '(r, a) := mail_policy p arg a in (mkReply (neg r) [] [], a)
      else (mkReply (- EINVAL) [] [], a)
  | CExit p => (mkReply 0 [] [], mail_exit p a)
  | CSelftest =>
      (mkReply 0 [Z.of_nat (size (boxes a)); Z.of_nat (queued a); Z.of_nat (size (names a))] [], a)
  end.

(** A sequence of calls, each with the process table and clock of its moment. *)
Fixpoint run_all (cs : list (Hal * call)) (m : Msg) : outcome (list reply * Msg) :=
  match cs with
  | [] => Done ([], m)
  | (h, c) :: cs' =>
      '(r, m) ← run_call h c m;
      '(rs, m) ← run_all cs' m;
      Done (r :: rs, m)
  end.

Fixpoint do_all (cs : list (Hal * call)) (a : mail) : list reply * mail :=
  match cs with
  | [] => ([], a)
  | (h, c) :: cs' =>
      let '(r, a) := do_call h c a in
      let '(rs, a) := do_all cs' a in
      (r :: rs, a)
  end.

(** The kernel passes its own record of the sender, a valid process id. *)
Definition call_ok (c : call) : Prop :=
  match c with CSend from _ _ _ _ _ _ _ _ _ => 0 < from | _ => True end.

(** ** The limits *)

Definition message_ok (f : message) : Prop :=
  0 < f_sender f /\ f_type f <> 0 /\ (length (f_data f) <= MAX_PAYLOAD)%nat.

Record box_ok (x : box) : Prop := {
  bo_policy : x_policy x <= ACCEPT_ALLOWLIST;
  bo_allow : (size (x_allow x) <= MAX_ALLOW)%nat;
  bo_length : (length (x_queue x) <= QUEUE_DEPTH)%nat;
  bo_share : forall from, Z.of_nat (sent_by from (x_queue x)) <= MAX_PER_SENDER;
  bo_queue : Forall message_ok (x_queue x);
}.

Record mail_ok (a : mail) : Prop := {
  mo_box : forall p x, boxes a !! p = Some x -> 0 < p /\ box_ok x;
  mo_name : forall n q, names a !! n = Some q -> valid_name n = true /\ is_Some (boxes a !! q);
  mo_held : forall p, Z.of_nat (names_held p a) <= MAX_NAMES_PER_PROC;
}.

Lemma no_mail_ok : mail_ok no_mail.
Proof.
  split; simpl.
  - intros p x. by rewrite lookup_empty.
  - intros n q. by rewrite lookup_empty.
  - intros p. unfold names_held. simpl. by rewrite map_filter_empty, map_size_empty.
Qed.

(** A changed inbox that keeps the limits. *)
Lemma set_box_ok p x a : mail_ok a -> 0 < p -> box_ok x -> mail_ok (set_box p x a).
Proof.
  intros Ha Hp Hx. split; simpl.
  - intros q y [[<- <-]|[? ?]]%lookup_insert_Some; [done|]. by apply Ha.
  - intros n q Hn. destruct (mo_name a Ha n q Hn) as [Hv Hy]. split; [done|].
    apply lookup_insert_is_Some'. by right.
  - apply Ha.
Qed.

(** Names taken away keep the limits. *)
Lemma fewer_names_ok ns a : mail_ok a -> ns ⊆ names a -> mail_ok (set_names ns a).
Proof.
  intros Ha Hns. split; simpl.
  - apply Ha.
  - intros n q Hn. apply (mo_name a Ha). by eapply lookup_weaken.
  - intros p. pose proof (mo_held a Ha p) as Hh. unfold names_held in *. simpl.
    enough (size (filter (fun nq : list Z * Z => nq.2 = p) ns) <=
            size (filter (fun nq : list Z * Z => nq.2 = p) (names a)))%nat by lia.
    apply map_subseteq_size. by apply map_filter_subseteq_mono.
Qed.

Lemma turn_away_ok x : box_ok x -> box_ok (turn_away x).
Proof. by intros []. Qed.

Lemma forget_ok p x : box_ok x -> box_ok (forget p x).
Proof.
  intros [? Hs ? ? ?]. split; simpl; try done. etrans; [|exact Hs]. apply subseteq_size. set_solver.
Qed.

Lemma append_ok f x :
  box_ok x -> message_ok f -> has_room (f_sender f) (x_queue x) = true -> box_ok (append f x).
Proof.
  intros [? ? ? Hs Hq] Hf [Hl Hr]%andb_true_iff. split; simpl; try done.
  - rewrite length_app. simpl. lia.
  - intros from. specialize (Hs from). unfold sent_by in *. rewrite countb_app. simpl.
    destruct (f_sender f =? from) eqn:E; [|lia]. apply Z.eqb_eq in E as <-. lia.
  - apply Forall_app. auto.
Qed.

Lemma countb_delete_le {A} (f : A -> bool) l i : (countb f (delete i l) <= countb f l)%nat.
Proof. revert i. induction l as [|x l IH]; intros [|i]; simpl; try lia. specialize (IH i). lia. Qed.

Lemma remove_ok i x : box_ok x -> box_ok (remove i x).
Proof.
  intros [? ? Hl Hs Hq]. split; simpl; try done.
  - etrans; [|exact Hl]. apply sublist_length, sublist_delete.
  - intros from. specialize (Hs from). pose proof (countb_delete_le (fun f => f_sender f =? from) (x_queue x) i).
    unfold sent_by in *. lia.
  - by apply Forall_delete.
Qed.

(** ** Every call keeps the limits *)

Lemma mail_open_ok p pol flags a : mail_ok a -> mail_ok (mail_open p pol flags a).2.
Proof.
  intros Ha. unfold mail_open. destruct (_ || _) eqn:E; [done|].
  destruct (boxes a !! p); [done|]. destruct (_ <=? _)%nat; [done|].
  apply set_box_ok; [done|lia|]. split; cbn [x_policy x_allow x_queue]; [lia|apply Nat.le_0_l|apply Nat.le_0_l|done|done].
Qed.

Lemma mail_exit_ok p a : mail_ok a -> mail_ok (mail_exit p a).
Proof.
  intros Ha. split; simpl.
  - intros q x. rewrite lookup_fmap_Some. intros (y & <- & [? Hy]%lookup_delete_Some).
    destruct (mo_box a Ha q y Hy). auto using forget_ok.
  - intros n q [Hn Hq]%map_lookup_filter_Some. simpl in Hq.
    destruct (mo_name a Ha n q Hn) as [Hv Hb]. split; [done|].
    by rewrite lookup_fmap, lookup_delete_ne, fmap_is_Some.
  - apply (mo_held (set_names (filter (fun nq => nq.2 <> p) (names a)) a)).
    apply fewer_names_ok; [done|]. apply map_filter_subseteq.
Qed.

Lemma mail_resolve_ok h dest a : mail_ok a -> mail_ok (mail_resolve h dest a).2.
Proof.
  intros Ha. destruct dest as [p|n]; simpl; [by destruct (_ <=? _)|].
  destruct (valid_name n); simpl; [|done]. destruct (names a !! n) as [q|]; [|done].
  destruct (pid_is_live h q); [done|]. apply fewer_names_ok; [done|]. apply delete_subseteq.
Qed.

Lemma mail_deliver_ok h f to a : mail_ok a -> message_ok f -> mail_ok (mail_deliver h f to a).2.
Proof.
  intros Ha Hf. unfold mail_deliver. destruct (pid_is_live h to); [|done]. simpl.
  destruct (boxes a !! to) as [x|] eqn:Hx; [|done]. destruct (mo_box a Ha to x Hx) as [Hto Hbx].
  destruct (admits h x _ _ to) as [[]|]; [|by apply set_box_ok; auto using turn_away_ok|done].
  destruct (has_room _ _) eqn:Hr; apply set_box_ok; auto using turn_away_ok, append_ok.
Qed.

Lemma mail_send_ok h from uid dest mt tg flags payload a :
  0 < from -> mail_ok a -> mail_ok (mail_send h from uid dest mt tg flags payload a).2.
Proof.
  intros Hfrom Ha. unfold mail_send. destruct (_ || _) eqn:E; [done|].
  destruct (_ <? _)%nat eqn:El; [done|].
  pose proof (mail_resolve_ok h dest a Ha) as Hr. destruct (mail_resolve h dest a) as [[to|e] a']; [|done].
  apply mail_deliver_ok; [done|]. split; simpl; [done|]. lia.
Qed.

Lemma mail_recv_ok p flags ms mt tg out info a :
  mail_ok a -> mail_ok (mail_recv p flags ms mt tg out info a).2.
Proof.
  intros Ha. unfold mail_recv. destruct (negb _); [done|].
  destruct (boxes a !! p) as [x|] eqn:Hx; [|done]. destruct (mo_box a Ha p x Hx).
  destruct (position _ _) as [i|]; [|done]. destruct (x_queue x !! i) as [f|]; [|done].
  destruct (_ <? _)%nat; [done|]. destruct (_ =? 0); [|done].
  by apply set_box_ok; auto using remove_ok.
Qed.

Lemma size_filter_insert_le (n : list Z) (q p : Z) (ns : gmap (list Z) Z) :
  (size (filter (fun nq => nq.2 = p) (<[n := q]> ns)) <=
   size (filter (fun nq => nq.2 = p) ns) + (if (q =? p)%Z then 1 else 0))%nat.
Proof.
  rewrite map_filter_insert. simpl. case_decide as Hq.
  - subst q. rewrite Z.eqb_refl, map_size_insert. destruct (filter _ _ !! n); simpl; lia.
  - etrans; [|apply Nat.le_add_r]. apply map_subseteq_size, map_filter_subseteq_mono, delete_subseteq.
Qed.

Lemma claim_ok p n a :
  is_Some (boxes a !! p) -> valid_name n = true -> mail_ok a -> mail_ok (claim p n a).2.
Proof.
  intros Hp Hn Ha. unfold claim. destruct (_ <=? _) eqn:El; [done|]. destruct (_ && _); [done|].
  split; simpl.
  - apply Ha.
  - intros k q [[<- <-]|[? Hk]]%lookup_insert_Some; [done|]. by apply Ha.
  - intros q. pose proof (size_filter_insert_le n p q (names a)) as Hs.
    pose proof (mo_held a Ha q) as Hh. unfold names_held in *. simpl.
    destruct (p =? q) eqn:E; [apply Z.eqb_eq in E as ->|]; lia.
Qed.

Lemma mail_service_ok h p op n a : mail_ok a -> mail_ok (mail_service h p op n a).2.
Proof.
  intros Ha. unfold mail_service. destruct (valid_name n) eqn:Hn; simpl; [|done].
  assert (Hdel : mail_ok (set_names (delete n (names a)) a))
    by (apply fewer_names_ok; [done|]; apply delete_subseteq).
  destruct (op =? SVC_REGISTER).
  - destruct (boxes a !! p) as [x|] eqn:Hx; [|done].
    pose proof (claim_ok p n a (mk_is_Some _ _ Hx) Hn Ha) as Hc.
    destruct (names a !! n) as [q|]; [|done]. by destruct (q =? p), (pid_is_live h q).
  - destruct (op =? SVC_UNREGISTER); [|destruct (op =? SVC_LOOKUP); [|done]].
    + destruct (names a !! n) as [q|]; [|done]. by destruct (q =? p).
    + destruct (names a !! n) as [q|]; [|done]. by destruct (pid_is_live h q).
Qed.

Lemma mail_allow_ok p target add a : mail_ok a -> mail_ok (mail_allow p target add a).2.
Proof.
  intros Ha. unfold mail_allow. destruct (boxes a !! p) as [x|] eqn:Hx; [|done].
  destruct (mo_box a Ha p x Hx) as [Hp [? Hs ? ? ?]]. destruct (_ <=? 0); [done|].
  destruct add; [destruct (bool_decide _); [done|]; destruct (_ <=? _)%nat eqn:El; [done|]|].
  - apply set_box_ok; [done..|]. split; simpl; try done.
    rewrite size_union_alt, size_singleton.
    enough (size (x_allow x ∖ {[target]}) <= size (x_allow x))%nat by lia. apply subseteq_size. set_solver.
  - apply set_box_ok; [done..|]. split; simpl; try done. etrans; [|exact Hs]. apply subseteq_size. set_solver.
Qed.

Lemma mail_policy_ok p pol a : mail_ok a -> mail_ok (mail_policy p pol a).2.
Proof.
  intros Ha. unfold mail_policy. destruct (boxes a !! p) as [x|] eqn:Hx; [|done].
  destruct (mo_box a Ha p x Hx) as [Hp []]. destruct (_ <? pol) eqn:El; [done|].
  apply set_box_ok; [done..|]. split; simpl; try done. lia.
Qed.

#[local] Hint Resolve mail_open_ok mail_exit_ok mail_send_ok mail_recv_ok mail_service_ok mail_allow_ok
  mail_policy_ok : mail.

(** Leaves the state a component returns next to its answer. *)
Ltac answer op := let H := fresh in let r := fresh "r" in
  assert (H : mail_ok op.2) by auto with mail; destruct op as [r ?]; simpl in H; by repeat case_match.

Lemma do_call_ok h c a : call_ok c -> mail_ok a -> mail_ok (do_call h c a).2.
Proof.
  intros Hc Ha. destruct c; cbn [do_call].
  - answer (mail_open p pol flags a).
  - unfold mail_close. destruct (boxes a !! p); simpl; auto with mail.
  - destruct (_ <? n); [done|]. destruct (_ <? nlen); [done|].
    answer (mail_send h from from_uid (if nlen =? 0 then DPid dest_pid else DName (take (Z.to_nat nlen) nm))
              mt tg flags (take (Z.to_nat n) mem) a).
  - answer (mail_recv p flags match_sender match_type match_tag (take (Z.to_nat cap `min` MAX_PAYLOAD) buf)
              (mkInfo 0 0 0 0 0 0 0) a).
  - destruct (_ <? nlen); [done|]. answer (mail_service h p op (take (Z.to_nat nlen) nm) a).
  - destruct (op =? CTL_STAT); [done|]. destruct (op =? CTL_ALLOW); [|destruct (op =? CTL_DENY)].
    + answer (mail_allow p (as_i32 arg) true a).
    + answer (mail_allow p (as_i32 arg) false a).
    + destruct (op =? CTL_POLICY); [|done]. answer (mail_policy p arg a).
  - by apply mail_exit_ok.
  - done.
Qed.
