(* ===== verification/MsgInv.v ===== *)
(** * Messages: the arrays and the mail they hold

    [mail_of] reads the arrays of [msg.rs] as a mail system; [msg_ok] is their
    well-formedness. The queue of an inbox is its used slots in the order of their arrival
    numbers. *)

From stdpp Require Import sorting.
From S2P Require Import Prelude Bytes Table Msg MsgSpec.
Local Open Scope Z_scope.

(** ** The abstraction *)

Definition slot_entry (s : Slot) : option (Z * Slot) := if used s then Some (seq s, s) else None.

(** The used slots, in the order of the array. *)
Definition busy (l : list Slot) : list Slot := (entries slot_entry l).*2.

Definition older (s t : Slot) : Prop := seq s <= seq t.

#[global] Instance older_dec : RelDecision older.
Proof. intros s t. unfold older. apply _. Defined.
#[global] Instance older_trans : Transitive older.
Proof. intros s t u. unfold older. lia. Qed.
#[global] Instance older_total : Total older.
Proof. intros s t. unfold older. lia. Qed.

(** The used slots, oldest first. *)
Definition arrivals (l : list Slot) : list Slot := merge_sort older (busy l).

Definition slot_msg (s : Slot) : message :=
  mkMessage (sender s) (sender_uid s) (mtype s) (tag s) (tick s) (take (Z.to_nat (len s)) (data s)).

Definition senders (l : list Z) : gset Z := list_to_set (filter (fun a => a <> 0) l).

Definition box_of (b : Inbox) : box :=
  mkBox (policy b) (senders (allow b)) (slot_msg <$> arrivals (slots b)) (delivered b) (refused b).

Definition inbox_entry (b : Inbox) : option (Z * box) := if in_use b then Some (pid b, box_of b) else None.

Definition service_entry (s : Service) : option (list Z * Z) :=
  if s_in_use s then Some (take (name_len s) (name s), s_pid s) else None.

Definition mail_of (m : Msg) : mail :=
  mkMail (table inbox_entry (inboxes m)) (table service_entry (services m)).

(** ** Well-formedness *)

Definition slot_ok (next : Z) (s : Slot) : Prop :=
  length (data s) = MAX_PAYLOAD /\
  (used s = true -> 0 <= len s <= Z.of_nat MAX_PAYLOAD /\ seq s < next).

Record queue_ok (n : Z) (l : list Slot) (next c : Z) : Prop := {
  q_length : length l = QUEUE_DEPTH;
  q_slots : Forall (slot_ok next) l;
  q_distinct : distinct slot_entry l;
  q_count : c = Z.of_nat (countb used l);
  q_next : 0 <= next <= n;
}.

Record allow_ok (l : list Z) : Prop := {
  al_length : length l = MAX_ALLOW;
  al_pids : Forall (fun a => 0 <= a) l;
  al_nodup : NoDup (filter (fun a => a <> 0) l);
}.

(** An inbox after at most [n] sends. *)
Definition inbox_ok (n : Z) (b : Inbox) : Prop :=
  if in_use b then queue_ok n (slots b) (next_seq b) (count b) /\ allow_ok (allow b)
  else b = EMPTY_INBOX.

Definition service_ok (s : Service) : Prop :=
  s_in_use s = true -> length (name s) = 32%nat /\ (name_len s <= 32)%nat.

Record msg_ok (n : Z) (m : Msg) : Prop := {
  m_inboxes : length (inboxes m) = MAX_INBOXES;
  m_services : length (services m) = MAX_SERVICES;
  m_inbox : Forall (inbox_ok n) (inboxes m);
  m_service : Forall service_ok (services m);
  m_pids : distinct inbox_entry (inboxes m);
  m_names : distinct service_entry (services m);
}.

(** ** Used slots in order *)

Lemma elem_of_busy l s : s ∈ busy l <-> used s = true /\ exists i, l !! i = Some s.
Proof.
  unfold busy. rewrite list_elem_of_fmap. split.
  - intros ([k t] & -> & (i & a & Ha & He)%elem_of_entries). unfold slot_entry in He.
    destruct (used a) eqn:Hu; simplify_eq/=. eauto.
  - intros (Hu & i & Hs). exists (seq s, s). split; [done|]. apply elem_of_entries.
    exists i, s. unfold slot_entry. by rewrite Hu.
Qed.

Lemma elem_of_arrivals l s : s ∈ arrivals l <-> used s = true /\ exists i, l !! i = Some s.
Proof. unfold arrivals. by rewrite (merge_sort_Permutation older), elem_of_busy. Qed.

(** Arrival numbers identify used slots. *)
Lemma busy_inj l s t :
  distinct slot_entry l -> s ∈ busy l -> t ∈ busy l -> seq s = seq t -> s = t.
Proof.
  intros Hd (Hs & i & Hi)%elem_of_busy (Ht & j & Hj)%elem_of_busy E.
  assert (Es : slot_entry s = Some (seq s, s)) by (unfold slot_entry; by rewrite Hs).
  assert (Et : slot_entry t = Some (seq s, t)) by (unfold slot_entry; by rewrite Ht, E).
  pose proof (distinct_inj slot_entry l i j s t _ _ _ Hd Hi Hj Es Et) as ->. congruence.
Qed.

Lemma busy_perm_inj l1 l2 s t :
  distinct slot_entry l1 -> s ∈ busy l1 -> t ∈ l2 -> busy l1 ≡ₚ l2 -> seq s = seq t -> s = t.
Proof. intros Hd Hs Ht Hp E. apply (busy_inj l1); [done..| |done]. by rewrite Hp. Qed.

(** The order is the only sorted arrangement of the used slots. *)
Lemma arrivals_unique l q :
  distinct slot_entry l -> busy l ≡ₚ q -> StronglySorted older q -> arrivals l = q.
Proof.
  intros Hd Hp Hs. apply (StronglySorted_unique_strong older).
  - intros s t Hsx Htx H1 H2. unfold arrivals in Hsx. rewrite (merge_sort_Permutation older) in Hsx.
    apply (busy_perm_inj l q); [done..|]. unfold older in *. lia.
  - apply StronglySorted_merge_sort; apply _.
  - done.
  - unfold arrivals. by rewrite (merge_sort_Permutation older).
Qed.

Lemma arrivals_sorted l : StronglySorted older (arrivals l).
Proof. apply StronglySorted_merge_sort; apply _. Qed.

Lemma StronglySorted_snoc {A} (R : relation A) l x :
  StronglySorted R l -> Forall (fun y => R y x) l -> StronglySorted R (l ++ [x]).
Proof.
  intros Hl Hx. apply StronglySorted_app. split; [|split; [done|by repeat constructor]].
  intros y z Hy Hz. apply list_elem_of_singleton in Hz as ->. rewrite Forall_forall in Hx. by apply Hx.
Qed.

Lemma StronglySorted_lookup {A} (R : relation A) l i j x y :
  StronglySorted R l -> l !! i = Some x -> l !! j = Some y -> (i < j)%nat -> R x y.
Proof.
  intros Hl Hx Hy Hij. rewrite <- (take_drop (S i) l) in Hl.
  apply (StronglySorted_app_1_elem_of _ _ _ _ _ Hl).
  - apply (list_elem_of_lookup_2 _ i). by rewrite lookup_take_lt by lia.
  - apply (list_elem_of_lookup_2 _ (j - S i)%nat). rewrite lookup_drop, <- Hy. f_equal. lia.
Qed.

Lemma StronglySorted_delete {A} (R : relation A) l i : StronglySorted R l -> StronglySorted R (delete i l).
Proof.
  intros Hl. revert i. induction Hl as [|y l Hl IH Hy]; intros [|i]; simpl; [constructor..|done|].
  constructor; [done|]. by apply Forall_delete.
Qed.

Lemma busy_at l i s :
  l !! i = Some s ->
  busy l ≡ₚ (cell slot_entry s).*2 ++ (entries slot_entry (take i l) ++ entries slot_entry (drop (S i) l)).*2.
Proof. intros Hs. unfold busy. by rewrite (entries_at slot_entry l i s Hs), fmap_app. Qed.

Lemma busy_insert l i s s' :
  l !! i = Some s ->
  busy (<[i := s']> l) ≡ₚ
  (cell slot_entry s').*2 ++ (entries slot_entry (take i l) ++ entries slot_entry (drop (S i) l)).*2.
Proof. intros Hs. unfold busy. by rewrite (entries_insert slot_entry l i s s' Hs), fmap_app. Qed.

(** A message with the next arrival number goes to the end. *)
Lemma arrivals_append l i s s' next :
  distinct slot_entry l -> Forall (slot_ok next) l -> l !! i = Some s -> used s = false ->
  used s' = true -> seq s' = next ->
  distinct slot_entry (<[i := s']> l) /\ arrivals (<[i := s']> l) = arrivals l ++ [s'].
Proof.
  intros Hd Hok Hs Hu Hu' Hseq.
  assert (Hnew : Forall (fun t => seq t < next) (arrivals l)).
  { apply Forall_forall. intros t (Ht & j & Hj)%elem_of_arrivals.
    by apply (Forall_lookup_1 _ _ _ _ Hok Hj). }
  assert (Hcell : slot_entry s = None) by (unfold slot_entry; by rewrite Hu).
  assert (Hcell' : slot_entry s' = Some (next, s')) by (unfold slot_entry; by rewrite Hu', Hseq).
  destruct (table_fill slot_entry l i s s' next s') as [Hd' _]; try done.
  { apply table_None. intros j t v Hj Ht. unfold slot_entry in Ht. destruct (used t) eqn:Hut; [|done].
    injection Ht as Hst _. pose proof (Forall_lookup_1 _ _ _ _ Hok Hj) as [_ Hlt].
    destruct (Hlt Hut). lia. }
  split; [done|]. apply arrivals_unique; [done| |].
  - rewrite (busy_insert l i s s' Hs). unfold cell. rewrite Hcell'. simpl.
    rewrite <- Permutation_cons_append. constructor.
    unfold arrivals. rewrite (merge_sort_Permutation older), (busy_at l i s Hs). unfold cell. by rewrite Hcell.
  - apply StronglySorted_snoc; [apply arrivals_sorted|].
    eapply Forall_impl; [exact Hnew|]. intros t Ht. cbn beta in Ht. unfold older. lia.
Qed.

(** A slot that is released leaves the order of the others. *)
Lemma arrivals_delete l i j s s' :
  distinct slot_entry l -> l !! i = Some s -> used s' = false -> arrivals l !! j = Some s ->
  distinct slot_entry (<[i := s']> l) /\ arrivals (<[i := s']> l) = delete j (arrivals l).
Proof.
  intros Hd Hs Hu' Hj.
  assert (Hu : used s = true) by (apply (elem_of_arrivals l); by eapply list_elem_of_lookup_2).
  assert (Hcell : slot_entry s = Some (seq s, s)) by (unfold slot_entry; by rewrite Hu).
  assert (Hcell' : slot_entry s' = None) by (unfold slot_entry; by rewrite Hu').
  destruct (table_clear slot_entry l i s s' (seq s) s) as [Hd' _]; try done.
  split; [done|]. apply arrivals_unique; [done| |apply StronglySorted_delete, arrivals_sorted].
  apply (Permutation_cons_inv (a := s)). rewrite <- (delete_Permutation _ _ _ Hj).
  unfold arrivals. rewrite (merge_sort_Permutation older), (busy_at l i s Hs), (busy_insert l i s s' Hs).
  unfold cell. by rewrite Hcell, Hcell'.
Qed.

(** ** Counting messages *)

#[global] Instance countb_perm {A} (f : A -> bool) : Proper ((≡ₚ) ==> (=)) (countb f).
Proof. intros l1 l2 Hp. induction Hp; simpl; lia. Qed.

Lemma countb_fmap {A B} (g : A -> B) (f : B -> bool) l : countb f (g <$> l) = countb (fun x => f (g x)) l.
Proof. induction l as [|x l IH]; [done|]. rewrite fmap_cons. cbn [countb]. by rewrite IH. Qed.

Lemma countb_true {A} (l : list A) : countb (fun _ => true) l = length l.
Proof. induction l; simpl; lia. Qed.

Lemma countb_ext {A} (f g : A -> bool) l : (forall x, f x = g x) -> countb f l = countb g l.
Proof. intros E. induction l as [|x l IH]; simpl; [done|]. by rewrite E, IH. Qed.

Lemma countb_arrivals (f : Slot -> bool) l : countb f (arrivals l) = countb (fun s => used s && f s) l.
Proof.
  unfold arrivals. rewrite (merge_sort_Permutation older). unfold busy.
  induction l as [|s l IH]; [done|]. rewrite entries_cons, fmap_app, countb_app, IH.
  unfold cell, slot_entry. simpl. destruct (used s); simpl; lia.
Qed.

Lemma length_arrivals l : length (arrivals l) = countb used l.
Proof.
  rewrite <- countb_true, countb_arrivals. apply countb_ext. intros s. by rewrite andb_true_r.
Qed.

Lemma sent_by_arrivals from l : sent_by from (slot_msg <$> arrivals l) = held from l.
Proof. unfold sent_by, held. by rewrite countb_fmap, countb_arrivals. Qed.

(** ** The scans *)

Lemma send_scan_spec l i from mine free :
  0 <= mine -> mine + Z.of_nat (length l) < 4294967296 ->
  send_scan l i from mine free =
  (mine + Z.of_nat (held from l),
   match free with Some _ => free | None => Nat.add i <$> position (fun s => negb (used s)) l end).
Proof.
  unfold held. revert i mine free. induction l as [|s l IH]; intros i mine free H0 Hl; simpl in *.
  { rewrite Z.add_0_r. by destruct free. }
  destruct (used s); simpl.
  - rewrite IH; [|destruct (sender s =? from); [rewrite wrap32_id by auto with machine|]; lia..].
    f_equal.
    + destruct (sender s =? from); [rewrite wrap32_id by auto with machine|]; lia.
    + destruct free; [done|]. destruct (position _ l); simpl; [|done]. f_equal. lia.
  - rewrite IH by lia. f_equal. destruct free; [done|]. f_equal. lia.
Qed.

(** [best] is the oldest slot among the first [n] that satisfy [f]. *)
Definition is_best (f : Slot -> bool) (all : list Slot) (n : nat) (best : option nat) : Prop :=
  match best with
  | None => forall j t, (j < n)%nat -> all !! j = Some t -> f t = false
  | Some b => exists s, (b < n)%nat /\ all !! b = Some s /\ f s = true /\
      forall j t, (j < n)%nat -> all !! j = Some t -> f t = true -> seq s <= seq t
  end.

Lemma is_best_skip f all i s best :
  all !! i = Some s -> f s = false -> is_best f all i best -> is_best f all (S i) best.
Proof.
  intros Hs Hf. assert (Hcase : forall j t, (j < S i)%nat -> all !! j = Some t -> (j < i)%nat \/ f t = false).
  { intros j t Hj Ht. destruct (decide (j = i)) as [->|]; [right; congruence|left; lia]. }
  destruct best as [b|]; simpl.
  - intros (t & Hb & Ht & Hft & Hmin). exists t. split; [lia|]. split; [done|]. split; [done|].
    intros j u Hj Hu Hfu. destruct (Hcase j u Hj Hu); [eauto|congruence].
  - intros Hn j t Hj Ht. destruct (Hcase j t Hj Ht); eauto.
Qed.

Lemma is_best_take f all i s best :
  all !! i = Some s -> f s = true -> is_best f all i best ->
  (forall b t, best = Some b -> all !! b = Some t -> seq s < seq t) -> is_best f all (S i) (Some i).
Proof.
  intros Hs Hf Hbest Hlt. exists s. split; [lia|]. split; [done|]. split; [done|].
  intros j t Hj Ht Hft. destruct (decide (j = i)) as [->|]; [assert (s = t) by congruence; by subst|].
  destruct best as [b|]; simpl in Hbest.
  - destruct Hbest as (u & Hb & Hu & _ & Hmin). specialize (Hlt b u eq_refl Hu).
    specialize (Hmin j t ltac:(lia) Ht Hft). lia.
  - specialize (Hbest j t ltac:(lia) Ht). congruence.
Qed.

Lemma is_best_keep f all i s b t :
  all !! i = Some s -> all !! b = Some t -> seq t <= seq s ->
  is_best f all i (Some b) -> is_best f all (S i) (Some b).
Proof.
  intros Hs Ht Hle (u & Hb & Hu & Hfu & Hmin). assert (u = t) by congruence. subst u.
  exists t. split; [lia|]. split; [done|]. split; [done|].
  intros j v Hj Hv Hfv. destruct (decide (j = i)) as [->|]; [congruence|].
  apply (Hmin j v); [lia|done|done].
Qed.

Lemma best_scan_spec f all l i best :
  drop i all = l -> is_best f all i best ->
  exists r, best_scan f all l i best = Done r /\ is_best f all (length all) r.
Proof.
  revert i best. induction l as [|s l IH]; intros i best Hl Hbest; simpl.
  { exists best. split; [done|]. assert (length all <= i)%nat by (apply (f_equal length) in Hl; rewrite length_drop in Hl; simpl in Hl; lia).
    destruct best as [b|]; simpl in *.
    - destruct Hbest as (t & ? & Ht & ? & Hmin). exists t. apply lookup_lt_Some in Ht as ?.
      split; [done|]. split; [done|]. split; [done|]. intros j u Hj. apply Hmin. lia.
    - intros j t Hj. apply Hbest. lia. }
  assert (Hs : all !! i = Some s) by (rewrite <- (Nat.add_0_r i), <- lookup_drop, Hl; done).
  assert (Hl' : drop (S i) all = l) by (by rewrite (drop_S _ _ _ Hs) in Hl; injection Hl).
  destruct (f s) eqn:Hf; [|apply IH; [done|]; by eapply is_best_skip].
  destruct best as [b|]; osimpl.
  - destruct Hbest as (t & Hb & Ht & Hft & Hmin) eqn:E. oindex Ht.
    destruct (seq s <? seq t) eqn:Hlt; apply IH; try done.
    + eapply is_best_take; [done|done|exact Hbest|]. intros b' t' [= <-] Ht'. assert (t' = t) as -> by congruence. lia.
    + eapply is_best_keep; [done|done|lia|exact Hbest].
  - apply IH; [done|]. by eapply is_best_take.
Qed.

(** The scan finds the first message of the queue that satisfies the filter. *)
Lemma best_scan_arrivals f (g : message -> bool) l :
  distinct slot_entry l -> (forall s, f s = used s && g (slot_msg s)) ->
  exists r, best_scan f l l 0 None = Done r /\
  match r with
  | None => position g (slot_msg <$> arrivals l) = None
  | Some i => exists j s, l !! i = Some s /\ arrivals l !! j = Some s /\
                          position g (slot_msg <$> arrivals l) = Some j
  end.
Proof.
  intros Hd Hfg. destruct (best_scan_spec f l l 0 None) as (r & Hr & Hbest); [done| |].
  { intros j t Hj. lia. }
  exists r. split; [done|]. destruct r as [i|]; simpl in Hbest.
  - destruct Hbest as (s & Hi & Hs & Hfs & Hmin). rewrite Hfg in Hfs. apply andb_true_iff in Hfs as [Hu Hg].
    assert (Hin : s ∈ arrivals l) by (apply elem_of_arrivals; eauto).
    apply list_elem_of_lookup in Hin as [k Hk].
    destruct (position g (slot_msg <$> arrivals l)) as [j|] eqn:Hp.
    + apply position_Some in Hp as (x & Hx & Hgx & Hfirst). apply list_lookup_fmap_Some in Hx as (t & -> & Ht).
      exists j, s. split; [done|]. split; [|done]. enough (s = t) by congruence.
      assert (Ht' : t ∈ arrivals l) by by eapply list_elem_of_lookup_2.
      apply elem_of_arrivals in Ht' as (Hut & j' & Hj').
      apply (busy_inj l); [done|apply elem_of_busy; eauto..|].
      assert (seq s <= seq t) by (apply (Hmin j'); [by eapply lookup_lt_Some|done|by rewrite Hfg, Hut, Hgx]).
      assert (~ (k < j)%nat).
      { intros Hkj. specialize (Hfirst k (slot_msg s) Hkj). rewrite list_lookup_fmap, Hk in Hfirst. simpl in Hfirst.
        specialize (Hfirst eq_refl). congruence. }
      destruct (decide (j = k)) as [->|]; [congruence|].
      assert (older t s); [|unfold older in *; lia].
      apply (StronglySorted_lookup older (arrivals l) j k); [apply arrivals_sorted|done|done|lia].
    + pose proof (proj1 (position_None _ _) Hp k (slot_msg s)) as Hn. rewrite list_lookup_fmap, Hk in Hn.
      specialize (Hn eq_refl). congruence.
  - apply position_None. intros j x Hx. apply list_lookup_fmap_Some in Hx as (t & -> & Ht).
    assert (Ht' : t ∈ arrivals l) by by eapply list_elem_of_lookup_2.
    apply elem_of_arrivals in Ht' as (Hut & j' & Hj').
    assert (Hft : f t = false) by (apply (Hbest j'); [by eapply lookup_lt_Some|done]).
    rewrite Hfg, Hut in Hft. done.
Qed.
