(* ===== verification/MsgRefine.v ===== *)
(** * Messages: the operations on the arrays implement the mail system

    One refinement lemma per operation of [msg.rs]: it returns, with the answer and the mail
    that the contract of [MsgSpec.v] gives. *)

From S2P Require Import Prelude Bytes Table Msg MsgSpec MsgInv.
Local Open Scope Z_scope.

(** [impl] returns what [spec] says, in well-formed arrays. *)
Definition refines {R} (n : Z) (impl : outcome (R * Msg)) (spec : R * mail) : Prop :=
  exists r m', impl = Done (r, m') /\ msg_ok n m' /\ spec = (r, mail_of m').

Lemma refines_ret {R} n (r : R) m : msg_ok n m -> refines n (Done (r, m)) (r, mail_of m).
Proof. intros Hm. by exists r, m. Qed.

Lemma refines_to {R} n (r : R) m a : msg_ok n m -> mail_of m = a -> refines n (Done (r, m)) (r, a).
Proof. intros Hm <-. by exists r, m. Qed.

(** The fields of an inbox and of the box it stands for. *)
Ltac box_simpl :=
  cbn [slots policy allow delivered refused set_allow x_policy x_allow x_queue x_delivered x_refused].

(** ** Lookup *)

Lemma inbox_entry_key b p : in_use b && (pid b =? p) = true <-> exists x, inbox_entry b = Some (p, x).
Proof.
  unfold inbox_entry. destruct (in_use b); simpl.
  - split; [intros E; exists (box_of b); do 2 f_equal; lia|]. intros [x [= E _]]. lia.
  - split; [done|]. by intros [x ?].
Qed.

Lemma inbox_entry_used b : in_use b = true <-> exists kv, inbox_entry b = Some kv.
Proof. unfold inbox_entry. destruct (in_use b); split; naive_solver. Qed.

Lemma service_entry_used s : s_in_use s = true <-> exists kv, service_entry s = Some kv.
Proof. unfold service_entry. destruct (s_in_use s); split; naive_solver. Qed.

Lemma service_entry_key s n :
  s_in_use s && bool_decide (take (name_len s) (name s) = n) = true <-> exists q, service_entry s = Some (n, q).
Proof.
  unfold service_entry. rewrite andb_true_iff, bool_decide_eq_true. destruct (s_in_use s); naive_solver.
Qed.

(** The inbox a search found. *)
Record found (n : Z) (m : Msg) (p : Z) (i : nat) (b : Inbox) : Prop := {
  fd_at : inboxes m !! i = Some b;
  fd_used : in_use b = true;
  fd_pid : pid b = p;
  fd_queue : queue_ok n (slots b) (next_seq b) (count b);
  fd_allow : allow_ok (allow b);
  fd_box : boxes (mail_of m) !! p = Some (box_of b);
}.

Lemma find_inbox_spec n m p :
  msg_ok n m -> mail_ok (mail_of m) ->
  match find_inbox m p with
  | Some i => exists b, found n m p i b
  | None => boxes (mail_of m) !! p = None
  end.
Proof.
  intros Hm Ha. unfold find_inbox. destruct (p <=? 0) eqn:Hp.
  { destruct (boxes (mail_of m) !! p) as [x|] eqn:Hx; [|done]. destruct (mo_box _ Ha p x Hx). lia. }
  pose proof (table_find inbox_entry (fun b => in_use b && (pid b =? p)) (inboxes m) p) as Hf.
  specialize (Hf (fun b => inbox_entry_key b p)). destruct (position _ _) as [i|]; [|done].
  destruct Hf as (b & x & Hb & He). exists b.
  pose proof (table_at inbox_entry _ _ _ _ _ (m_pids n m Hm) Hb He) as Hbox.
  pose proof (Forall_lookup_1 _ _ _ _ (m_inbox n m Hm) Hb) as Hok. unfold inbox_ok in Hok.
  unfold inbox_entry in He. destruct (in_use b) eqn:Hu; [|done]. injection He as Hpid <-.
  destruct Hok. by split.
Qed.

Lemma service_name_Done s : service_ok s -> s_in_use s = true -> service_name s = Done (take (name_len s) (name s)).
Proof. intros Hs Hu. destruct (Hs Hu). unfold service_name. apply slice_to_Done. lia. Qed.

Lemma find_service_loop_spec l i n :
  Forall service_ok l ->
  find_service_loop l i n =
  Done (Nat.add i <$> position (fun s => s_in_use s && bool_decide (take (name_len s) (name s) = n)) l).
Proof.
  intros Hl. revert i. induction Hl as [|s l Hs Hl IH]; intros i; cbn [find_service_loop position]; [done|].
  assert (Hnext : Nat.add (S i) <$> position (fun s => s_in_use s && bool_decide (take (name_len s) (name s) = n)) l =
                  Nat.add i <$> (S <$> position (fun s => s_in_use s && bool_decide (take (name_len s) (name s) = n)) l)).
  { destruct (position _ l); simpl; [|done]. f_equal. lia. }
  destruct (s_in_use s) eqn:Hu; simpl; [|by rewrite IH, Hnext].
  rewrite service_name_Done by done. osimpl.
  destruct (bool_decide _); [simpl; do 2 f_equal; lia|]. by rewrite IH, Hnext.
Qed.

(** The service a search found. *)
Record served (m : Msg) (n : list Z) (i : nat) (s : Service) : Prop := {
  sv_at : services m !! i = Some s;
  sv_used : s_in_use s = true;
  sv_name : take (name_len s) (name s) = n;
  sv_owner : names (mail_of m) !! n = Some (s_pid s);
}.

Lemma find_service_spec k m n :
  msg_ok k m ->
  exists r, find_service m n = Done r /\
  match r with
  | Some i => exists s, served m n i s
  | None => names (mail_of m) !! n = None
  end.
Proof.
  intros Hm. unfold find_service. rewrite find_service_loop_spec by apply Hm.
  pose proof (table_find service_entry _ (services m) n (fun s => service_entry_key s n)) as Hf.
  destruct (position _ _) as [i|]; simpl; (eexists; split; [done|]); [|done].
  destruct Hf as (s & q & Hs & He). exists s.
  pose proof (table_at service_entry _ _ _ _ _ (m_names k m Hm) Hs He) as Hq.
  unfold service_entry in He. destruct (s_in_use s) eqn:Hu; [|done]. injection He as Hn <-. by split.
Qed.

(** ** Assignments *)

Lemma inbox_ok_mono n n' b : n <= n' -> inbox_ok n b -> inbox_ok n' b.
Proof.
  unfold inbox_ok. destruct (in_use b); [|done]. intros Hn [[] ?]. split; [|done]. split; try done. lia.
Qed.

Lemma msg_ok_mono n n' m : n <= n' -> msg_ok n m -> msg_ok n' m.
Proof.
  intros Hn []. split; try done. eapply Forall_impl; [done|]. intros b. by apply inbox_ok_mono.
Qed.

Lemma put_inbox n n' m p i b b' :
  msg_ok n m -> n <= n' -> found n m p i b -> in_use b' = true -> pid b' = p ->
  queue_ok n' (slots b') (next_seq b') (count b') -> allow_ok (allow b') ->
  store (inboxes m) i b' = Done (<[i := b']> (inboxes m)) /\
  msg_ok n' (set_inboxes (<[i := b']> (inboxes m)) m) /\
  mail_of (set_inboxes (<[i := b']> (inboxes m)) m) = set_box p (box_of b') (mail_of m).
Proof.
  intros Hm Hn [Hb Hu Hp _ _ _] Hu' Hp' Hq Hal.
  apply (msg_ok_mono n n') in Hm as [H1 H2 H3 H4 H5 H6]; [|done].
  destruct (table_update inbox_entry (inboxes m) i b b' p (box_of b) (box_of b')) as [Hd Ht]; try done.
  { unfold inbox_entry. by rewrite Hu, Hp. }
  { unfold inbox_entry. by rewrite Hu', Hp'. }
  split; [apply store_Done; by eapply lookup_lt_Some|]. split.
  - split; simpl; try done; [by rewrite length_insert|]. apply Forall_insert; [done|].
    unfold inbox_ok. by rewrite Hu'.
  - unfold mail_of, set_box. simpl. by rewrite Ht.
Qed.

Lemma clear_service k m n i s :
  msg_ok k m -> served m n i s ->
  store (services m) i EMPTY_SERVICE = Done (<[i := EMPTY_SERVICE]> (services m)) /\
  msg_ok k (set_services (<[i := EMPTY_SERVICE]> (services m)) m) /\
  mail_of (set_services (<[i := EMPTY_SERVICE]> (services m)) m) =
  set_names (delete n (names (mail_of m))) (mail_of m).
Proof.
  intros [H1 H2 H3 H4 H5 H6] [Hs Hu Hn _].
  destruct (table_clear service_entry (services m) i s EMPTY_SERVICE n (s_pid s)) as [Hd Ht]; try done.
  { unfold service_entry. by rewrite Hu, Hn. }
  split; [apply store_Done; by eapply lookup_lt_Some|]. split.
  - split; simpl; try done; [by rewrite length_insert|]. by apply Forall_insert.
  - unfold mail_of, set_names. simpl. by rewrite Ht.
Qed.

(** ** Opening and closing *)

Lemma senders_zero k : senders (replicate k 0) = ∅.
Proof. unfold senders. induction k; [done|]. by rewrite replicate_S, filter_cons_False by naive_solver. Qed.

Lemma busy_empty k : busy (replicate k EMPTY_SLOT) = [].
Proof.
  unfold busy. induction k; [done|]. rewrite replicate_S, entries_cons, fmap_app, IHk. done.
Qed.

Lemma empty_queue_ok n : 0 <= n -> queue_ok n (replicate QUEUE_DEPTH EMPTY_SLOT) 0 0.
Proof.
  intros Hn. split; [apply length_replicate| | | |lia].
  - apply Forall_replicate. split; [apply length_replicate|done].
  - unfold distinct. replace (entries slot_entry _) with (@nil (Z * Slot)); [constructor|].
    symmetry. apply (fmap_nil_inv snd). apply (busy_empty QUEUE_DEPTH).
  - rewrite countb_none; [done|]. intros i s [-> _]%lookup_replicate_1. done.
Qed.

Lemma empty_allow_ok : allow_ok (replicate MAX_ALLOW 0).
Proof.
  split; [apply length_replicate|by apply Forall_replicate|].
  replace (filter _ _) with (@nil Z); [constructor|]. vm_compute. done.
Qed.

Lemma fresh_box p pol : box_of (fresh_inbox p pol) = mkBox pol ∅ [] 0 0.
Proof.
  unfold box_of, fresh_inbox. cbn [policy allow slots delivered refused EMPTY_INBOX].
  rewrite senders_zero. unfold arrivals. by rewrite busy_empty.
Qed.

Lemma open_refines n m p pol flags :
  0 <= n -> msg_ok n m -> mail_ok (mail_of m) -> refines n (open p pol flags m) (mail_open p pol flags (mail_of m)).
Proof.
  intros Hn Hm Ha. unfold open, mail_open. destruct (_ || _); [by apply refines_ret|].
  pose proof (find_inbox_spec n m p Hm Ha) as Hf. destruct (find_inbox m p) as [i|].
  { destruct Hf as [b Hb]. rewrite (fd_box _ _ _ _ _ Hb). by apply refines_ret. }
  rewrite Hf. destruct Hm as [H1 H2 H3 H4 H5 H6].
  pose proof (table_free inbox_entry in_use (inboxes m) inbox_entry_used H5) as Hfree.
  rewrite H1 in Hfree. cbn [mail_of boxes]. destruct (position _ _) as [i|].
  - destruct Hfree as (b & Hb & He & Hsz). replace (_ <=? _)%nat with false by lia.
    ostore.
    destruct (table_fill inbox_entry (inboxes m) i b (fresh_inbox p pol) p (box_of (fresh_inbox p pol)))
      as [Hd Ht]; try done.
    apply refines_to.
    + split; simpl; try done; [by rewrite length_insert|]. apply Forall_insert; [done|].
      split; [by apply empty_queue_ok|apply empty_allow_ok].
    + unfold mail_of, set_box. simpl. by rewrite Ht, fresh_box.
  - replace (_ <=? _)%nat with true by lia. by apply refines_ret.
Qed.

Lemma filter_strike p l :
  filter (fun a => a <> 0) (strike p l) = filter (fun a => a <> p) (filter (fun a => a <> 0) l).
Proof.
  unfold strike. induction l as [|a l IH]; [done|]. rewrite fmap_cons.
  destruct (decide (a = 0)) as [->|Ha].
  { rewrite (filter_cons_False _ 0 l) by naive_solver. destruct (0 =? p); rewrite filter_cons_False by naive_solver; done. }
  rewrite (filter_cons_True _ a l) by done. destruct (a =? p) eqn:Hp.
  - rewrite !filter_cons_False by (simpl; lia). done.
  - rewrite !filter_cons_True by (simpl; lia). by f_equal.
Qed.

Lemma strike_ok p l : allow_ok l -> allow_ok (strike p l).
Proof.
  intros [Hl Hp Hn]. split.
  - unfold strike. by rewrite length_fmap.
  - unfold strike. apply Forall_fmap. eapply Forall_impl; [done|]. intros a Ha. simpl in *. destruct (a =? p); lia.
  - rewrite filter_strike. by apply NoDup_filter.
Qed.

Lemma senders_strike p l : senders (strike p l) = senders l ∖ {[p]}.
Proof.
  unfold senders. rewrite filter_strike. apply set_eq. intros a.
  rewrite elem_of_difference, !elem_of_list_to_set, !list_elem_of_filter. set_solver.
Qed.

Lemma drop_inbox_entry p b :
  inbox_entry (drop_inbox p b) =
  inbox_entry b ≫= (fun '(k, x) => (k,.) <$> (if k =? p then None else Some (forget p x))).
Proof.
  unfold drop_inbox, inbox_entry. destruct (in_use b) eqn:Hu; simpl; [|by rewrite Hu].
  destruct (pid b =? p); simpl; [done|]. rewrite Hu. unfold box_of, forget. cbn.
  by rewrite <- senders_strike.
Qed.

Lemma drop_service_entry p s :
  service_entry (drop_service p s) =
  service_entry s ≫= (fun '(k, q) => (k,.) <$> (if q =? p then None else Some q)).
Proof.
  unfold drop_service, service_entry. destruct (s_in_use s) eqn:Hu; simpl; [|by rewrite Hu].
  destruct (s_pid s =? p); simpl; [done|]. by rewrite Hu.
Qed.

Lemma drop_inbox_ok n p b : inbox_ok n b -> inbox_ok n (drop_inbox p b).
Proof.
  unfold drop_inbox. intros Hb. unfold inbox_ok in Hb. destruct (in_use b) eqn:Hu; simpl.
  - destruct (pid b =? p); [done|]. unfold inbox_ok. cbn. rewrite Hu. destruct Hb. split; [done|].
    by apply strike_ok.
  - unfold inbox_ok. by rewrite Hu.
Qed.

Lemma drop_process_refines n m p :
  msg_ok n m -> msg_ok n (drop_process p m) /\ mail_of (drop_process p m) = mail_exit p (mail_of m).
Proof.
  intros [H1 H2 H3 H4 H5 H6].
  destruct (table_fmap inbox_entry (drop_inbox p) _ (inboxes m) (drop_inbox_entry p) H5) as [Hd Ht].
  destruct (table_fmap service_entry (drop_service p) (fun _ q => if q =? p then None else Some q) (services m)
              (drop_service_entry p) H6) as [Hd' Ht'].
  split.
  - split; simpl; try done; [by rewrite length_fmap..| |].
    + apply Forall_fmap. eapply Forall_impl; [done|]. intros b. apply drop_inbox_ok.
    + apply Forall_fmap. eapply Forall_impl; [done|]. intros s Hs. unfold compose, drop_service.
      by destruct (_ && _).
  - unfold mail_of, mail_exit, drop_process. cbn [inboxes services boxes names]. rewrite Ht, Ht'. f_equal.
    + apply map_eq. intros q. rewrite map_lookup_imap, lookup_fmap.
      destruct (decide (q = p)) as [->|Hq].
      * rewrite lookup_delete_eq. destruct (table _ _ !! p); simpl; [|done]. by rewrite Z.eqb_refl.
      * rewrite lookup_delete_ne by done. destruct (table _ _ !! q); simpl; [|done].
        by replace (q =? p) with false by lia.
    + apply map_eq. intros k. rewrite map_lookup_imap, map_lookup_filter.
      destruct (table _ _ !! k) as [q|]; simpl; [|done]. unfold guard.
      destruct (q =? p) eqn:E; case_decide; simpl; try done; lia.
Qed.

Lemma close_inbox_refines n m p :
  msg_ok n m -> mail_ok (mail_of m) -> refines n (Done (close p m)) (mail_close p (mail_of m)).
Proof.
  intros Hm Ha. unfold close, mail_close.
  pose proof (find_inbox_spec n m p Hm Ha) as Hf. destruct (find_inbox m p) as [i|].
  - destruct Hf as [b Hb]. rewrite (fd_box _ _ _ _ _ Hb).
    destruct (drop_process_refines n m p Hm). by apply refines_to.
  - rewrite Hf. by apply refines_ret.
Qed.

(** ** Sending *)

Lemma resolve_refines n m h dest :
  msg_ok n m -> refines n (resolve h dest m) (mail_resolve h dest (mail_of m)).
Proof.
  intros Hm. destruct dest as [p|k]; cbn [resolve mail_resolve]; [by destruct (p <=? 0); apply refines_ret|].
  destruct (valid_name k); cbn [negb]; [|by apply refines_ret].
  destruct (find_service_spec n m k Hm) as (r & -> & Hr). osimpl. destruct r as [i|].
  - destruct Hr as [s Hs]. pose proof Hs as [Hat Hu Hn Ho]. rewrite (index_at Hat), Ho. osimpl.
    destruct (pid_is_live h (s_pid s)); cbn [negb]; [by apply refines_ret|].
    destruct (clear_service n m k i s Hm Hs) as (-> & Hm' & Ha'). osimpl. by apply refines_to.
  - rewrite Hr. by apply refines_ret.
Qed.

Lemma existsb_senders from l : 0 < from -> existsb (fun a => a =? from) l = bool_decide (from ∈ senders l).
Proof.
  intros Hf. apply eq_true_iff_eq. rewrite bool_decide_eq_true. unfold senders.
  rewrite elem_of_list_to_set, list_elem_of_filter, existsb_exists.
  setoid_rewrite <- list_elem_of_In. split.
  - intros (a & Ha & E). assert (a = from) as -> by lia. split; [lia|done].
  - intros [_ Ha]. exists from. split; [done|lia].
Qed.

Lemma accepts_admits h b from uid to : 0 < from -> accepts h b from uid to = admits h (box_of b) from uid to.
Proof.
  intros Hf. unfold accepts, admits. cbn [box_of x_policy x_allow].
  destruct (policy b =? ACCEPT_SAME_UID).
  - destruct (uid_of h to) as [ru|]; [|done]. by destruct (uid =? ru), (uid =? 0).
  - destruct (policy b =? ACCEPT_ALLOWLIST); [|done]. by rewrite existsb_senders.
Qed.

Lemma slot_ok_mono next next' s : next <= next' -> slot_ok next s -> slot_ok next' s.
Proof. intros Hn [Hd Hs]. split; [done|]. intros Hu. destruct (Hs Hu). lia. Qed.

Lemma queue_count n l next c : queue_ok n l next c -> 0 <= c <= Z.of_nat QUEUE_DEPTH.
Proof. intros [Hl _ _ -> _]. pose proof (countb_le_length used l). lia. Qed.

Lemma enqueue_ok n l next c i s s' :
  queue_ok n l next c -> n + 1 < 18446744073709551616 -> l !! i = Some s -> used s = false ->
  used s' = true -> seq s' = next -> length (data s') = MAX_PAYLOAD -> 0 <= len s' <= Z.of_nat MAX_PAYLOAD ->
  queue_ok (n + 1) (<[i := s']> l) (wrap64 (next + 1)) (wrap32 (c + 1)) /\
  arrivals (<[i := s']> l) = arrivals l ++ [s'].
Proof.
  intros Hq Hn Hs Hu Hu' Hseq Hdata Hlen. pose proof (queue_count _ _ _ _ Hq) as Hc.
  assert (Z.of_nat QUEUE_DEPTH = 16) as HQ by done.
  destruct Hq as [Hl Hslots Hd Hcount Hnext].
  destruct (arrivals_append l i s s' next) as [Hd' Ha]; try done. split; [|done].
  rewrite wrap64_id, wrap32_id by auto with machine. split; try done.
  - by rewrite length_insert.
  - apply Forall_insert.
    + eapply Forall_impl; [done|]. intros t. apply slot_ok_mono. lia.
    + split; [done|]. intros _. lia.
  - pose proof (countb_insert used l i s s' Hs) as Hcb. rewrite Hu, Hu' in Hcb. lia.
  - lia.
Qed.

Lemma release_ok n l next c i j s s' :
  queue_ok n l next c -> l !! i = Some s -> arrivals l !! j = Some s -> used s' = false -> data s' = data s ->
  queue_ok n (<[i := s']> l) next (wrap32 (c - 1)) /\
  arrivals (<[i := s']> l) = delete j (arrivals l) /\ wrap32 (c - 1) = c - 1.
Proof.
  intros Hq Hs Hj Hu' Hdata. pose proof (queue_count _ _ _ _ Hq) as Hc.
  assert (Z.of_nat QUEUE_DEPTH = 16) as HQ by done.
  assert (Hu : used s = true) by (apply (elem_of_arrivals l); by eapply list_elem_of_lookup_2).
  destruct Hq as [Hl Hslots Hd Hcount Hnext].
  pose proof (countb_pos used l i s Hs Hu) as Hpos.
  assert (wrap32 (c - 1) = c - 1) as E by (apply wrap32_id; unfold is_u32; lia).
  destruct (arrivals_delete l i j s s') as [Hd' Ha]; try done. split; [|done]. rewrite E. split; try done.
  - by rewrite length_insert.
  - apply Forall_insert; [done|]. split; [|by rewrite Hu']. rewrite Hdata. by apply (Forall_lookup_1 _ _ _ _ Hslots Hs).
  - pose proof (countb_insert used l i s s' Hs) as Hcb. rewrite Hu, Hu' in Hcb. lia.
Qed.

(** A full queue has no free slot. *)
Lemma free_slot_spec n l next c :
  queue_ok n l next c ->
  match position (fun s => negb (used s)) l with
  | Some i => exists s, l !! i = Some s /\ used s = false /\ length (data s) = MAX_PAYLOAD /\
                        (length (arrivals l) < QUEUE_DEPTH)%nat
  | None => length (arrivals l) = QUEUE_DEPTH
  end.
Proof.
  intros Hq. rewrite length_arrivals.
  assert (Hused : forall s, used s = true <-> exists kv, slot_entry s = Some kv)
    by (intros s; unfold slot_entry; destruct (used s); naive_solver).
  pose proof (table_free slot_entry used l Hused (q_distinct _ _ _ _ Hq)) as Hf.
  rewrite (size_table slot_entry used l Hused (q_distinct _ _ _ _ Hq)), (q_length _ _ _ _ Hq) in Hf.
  destruct (position _ l) as [i|]; [|done]. destruct Hf as (s & Hs & He & Hlt). exists s.
  split; [done|]. split; [unfold slot_entry in He; by destruct (used s)|]. split; [|done].
  by apply (Forall_lookup_1 _ _ _ _ (q_slots _ _ _ _ Hq) Hs).
Qed.

Lemma has_room_spec n l next c from :
  queue_ok n l next c ->
  send_scan l 0 from 0 None = (Z.of_nat (held from l), position (fun s => negb (used s)) l) /\
  has_room from (slot_msg <$> arrivals l) =
  match position (fun s => negb (used s)) l with
  | Some _ => Z.of_nat (held from l) <? MAX_PER_SENDER
  | None => false
  end.
Proof.
  intros Hq. pose proof (free_slot_spec _ _ _ _ Hq) as Hf. pose proof (q_length _ _ _ _ Hq) as Hl. split.
  - rewrite send_scan_spec; [|lia|rewrite Hl; done]. f_equal. by destruct (position _ l).
  - unfold has_room. rewrite length_fmap, sent_by_arrivals. destruct (position _ l) as [i|].
    + destruct Hf as (s & _ & _ & _ & Hlt). by replace (_ <? _)%nat with true by lia.
    + by replace (_ <? _)%nat with false by lia.
Qed.

Lemma refuse_refines {R} n m p i b (r : R) :
  msg_ok n m -> found n m p i b ->
  refines n (l ← store (inboxes m) i (refuse b); Done (r, set_inboxes l m))
    (r, set_box p (turn_away (box_of b)) (mail_of m)).
Proof.
  intros Hm Hb. pose proof Hb as [_ Hu Hp Hq Hal _].
  destruct (put_inbox n n m p i b (refuse b)) as (-> & Hm' & Ha'); try done. osimpl. by apply refines_to.
Qed.

Lemma take_copy {A} (l dst : list A) : take (length l) (l ++ drop (length l) dst) = l.
Proof. by rewrite take_app_length. Qed.

Lemma deliver_refines n m h from uid to mt tg payload :
  msg_ok n m -> mail_ok (mail_of m) -> n + 1 < 18446744073709551616 -> 0 < from ->
  (length payload <= MAX_PAYLOAD)%nat ->
  refines (n + 1) (deliver h from uid to mt tg payload m)
    (mail_deliver h (mkMessage from uid mt tg (ticks h) payload) to (mail_of m)).
Proof.
  intros Hm Ha Hn Hfrom Hlen. assert (Hm1 : msg_ok (n + 1) m) by (apply (msg_ok_mono n); [lia|done]).
  unfold deliver, mail_deliver. destruct (pid_is_live h to); cbn [negb]; [|by apply refines_ret].
  pose proof (find_inbox_spec (n + 1) m to Hm1 Ha) as Hf1.
  pose proof (find_inbox_spec n m to Hm Ha) as Hf. destruct (find_inbox m to) as [i|];
    [|rewrite Hf; by apply refines_ret].
  destruct Hf as [b Hb], Hf1 as [b1 Hb1]. pose proof Hb as [Hat Hu Hp Hq Hal Hbox].
  pose proof (fd_at _ _ _ _ _ Hb1) as Hat1. assert (b1 = b) as -> by congruence.
  rewrite (index_at Hat), Hbox. osimpl. cbn [f_sender f_uid].
  rewrite accepts_admits by done. destruct (admits h (box_of b) from uid to) as [[]|e];
    [|by apply refuse_refines|by apply refines_ret].
  destruct (has_room_spec _ _ _ _ from Hq) as [-> Hroom]. cbn [box_of x_queue]. rewrite Hroom.
  pose proof (free_slot_spec _ _ _ _ Hq) as Hfree.
  destruct (position _ (slots b)) as [j|]; [|by apply refuse_refines].
  destruct (_ <? MAX_PER_SENDER); [|by apply refuse_refines].
  destruct Hfree as (s & Hs & Hus & Hds & _). oindex Hs.
  rewrite copy_prefix_Done by lia. osimpl. unfold enqueue.
  ostore.
  assert (Z.of_nat MAX_PAYLOAD = 1024) as HM by done.
  rewrite (wrap32_id (Z.of_nat (length payload))) by auto with machine.
  set (s' := mkSlot _ _ _ _ _ _ _ _ _).
  assert (Hd' : length (data s') = MAX_PAYLOAD) by (cbn; rewrite length_app, length_drop; lia).
  destruct (enqueue_ok n (slots b) (next_seq b) (count b) j s s') as [Hq' Hord]; [done..|cbn; lia|].
  set (b' := mkInbox _ _ _ _ _ _ _ _ _).
  destruct (put_inbox n (n + 1) m to i b b') as (-> & Hm' & Ha'); [done|lia|done..|].
  osimpl. apply refines_to; [done|]. rewrite Ha'. f_equal. unfold box_of, append.
  subst b'. box_simpl.
  rewrite Hord, fmap_app. do 2 f_equal. cbn [fmap list_fmap]. unfold slot_msg.
  cbn [s' sender sender_uid mtype tag tick len data]. by rewrite Nat2Z.id, take_copy.
Qed.

Lemma send_refines n m h from uid dest mt tg flags payload :
  msg_ok n m -> mail_ok (mail_of m) -> n + 1 < 18446744073709551616 -> 0 < from ->
  refines (n + 1) (send h from uid dest mt tg flags payload m)
    (mail_send h from uid dest mt tg flags payload (mail_of m)).
Proof.
  intros Hm Ha Hn Hfrom. assert (Hm1 : msg_ok (n + 1) m) by (apply (msg_ok_mono n); [lia|done]).
  unfold send, mail_send. destruct (_ || _); [by apply refines_ret|].
  destruct (_ <? _)%nat eqn:Hl; [by apply refines_ret|].
  pose proof (mail_resolve_ok h dest _ Ha) as Hok.
  destruct (resolve_refines n m h dest Hm) as (r & m' & -> & Hm' & E). rewrite E in *. osimpl.
  destruct r as [to|e].
  - apply deliver_refines; [done..|]. lia.
  - apply refines_ret. apply (msg_ok_mono n); [lia|done].
Qed.

(** ** Receiving *)

Lemma wanted_selects flags ms mt tg s : wanted flags ms mt tg s = used s && selects flags ms mt tg (slot_msg s).
Proof.
  unfold wanted, selects. cbn. destruct (used s), (ms =? 0), (sender s =? ms), (mt =? 0), (mtype s =? mt),
    (Z.land flags RECV_MATCH_TAG =? 0), (tag s =? tg); done.
Qed.

Lemma slot_data n l next c i s :
  queue_ok n l next c -> l !! i = Some s -> used s = true ->
  (Z.to_nat (len s) <= length (data s))%nat /\ length (f_data (slot_msg s)) = Z.to_nat (len s) /\
  Z.of_nat (Z.to_nat (len s)) = len s.
Proof.
  intros Hq Hs Hu. destruct (Forall_lookup_1 _ _ _ _ (q_slots _ _ _ _ Hq) Hs) as [Hd Hok].
  destruct (Hok Hu) as [Hlen _]. cbn. rewrite length_take. lia.
Qed.

Lemma describe_slot s k :
  0 <= len s -> length (f_data (slot_msg s)) = Z.to_nat (len s) -> slot_info s k = describe (slot_msg s) k.
Proof. intros H0 Hl. unfold describe. rewrite Hl, Z2Nat.id by done. done. Qed.

Lemma recv_refines n m p flags ms mt tg out info :
  msg_ok n m -> mail_ok (mail_of m) ->
  refines n (recv p flags ms mt tg out info m) (mail_recv p flags ms mt tg out info (mail_of m)).
Proof.
  intros Hm Ha. unfold recv, mail_recv. destruct (negb _); [by apply refines_ret|].
  pose proof (find_inbox_spec n m p Hm Ha) as Hf. destruct (find_inbox m p) as [i|];
    [|rewrite Hf; by apply refines_ret].
  destruct Hf as [b Hb]. pose proof Hb as [Hat Hu Hp Hq Hal ->].
  oindex Hat. cbn [box_of x_queue].
  destruct (best_scan_arrivals (wanted flags ms mt tg) (selects flags ms mt tg) (slots b)) as (r & -> & Hr);
    [apply Hq|apply wanted_selects|]. osimpl.
  destruct r as [bi|]; [|rewrite Hr; by apply refines_ret]. destruct Hr as (j & s & Hs & Hj & ->).
  assert (Hus : used s = true) by (apply (elem_of_arrivals (slots b)); by eapply list_elem_of_lookup_2).
  rewrite (index_at Hs), list_lookup_fmap, Hj. osimpl. cbn [option_fmap option_map fmap].
  destruct (slot_data _ _ _ _ _ _ Hq Hs Hus) as (Hd & Hfd & Hz). rewrite Hfd, length_fmap, length_arrivals.
  rewrite !describe_slot by (done || lia). rewrite <- (q_count _ _ _ _ Hq).
  destruct (_ <? _)%nat eqn:Hsz; [by apply refines_ret|].
  rewrite slice_to_Done by done. osimpl. rewrite copy_prefix_Done by (rewrite length_take; lia). osimpl.
  rewrite length_take, Nat.min_l by done.
  destruct (Z.land flags RECV_PEEK =? 0); [|by apply refines_ret].
  unfold take_slot. ostore.
  set (s' := mkSlot _ _ _ _ _ _ _ _ _).
  destruct (release_ok _ _ _ _ bi j s s' Hq Hs Hj) as (Hq' & Hord & Hc); [done..|].
  set (b' := mkInbox _ _ _ _ _ _ _ _ _).
  destruct (put_inbox n n m p i b b') as (-> & Hm' & Ha'); [done|lia|done..|]. osimpl.
  cbn [b' count]. rewrite describe_slot, Hc by (done || lia). apply refines_to; [done|].
  rewrite Ha'. f_equal. unfold box_of, remove. subst b'. box_simpl.
  by rewrite Hord, <- list_fmap_delete.
Qed.

(** ** Names *)

Lemma names_of_held k m p : msg_ok k m -> names_of m p = Z.of_nat (names_held p (mail_of m)).
Proof.
  intros Hm. unfold names_of, names_held. cbn [mail_of names].
  rewrite (size_filter_table service_entry _ (fun s => s_in_use s && (s_pid s =? p))); [|intros s|apply Hm].
  - apply wrap32_id. pose proof (countb_le_length (fun s => s_in_use s && (s_pid s =? p)) (services m)).
    rewrite (m_services k m Hm) in H. assert (Z.of_nat MAX_SERVICES = 32) by done. unfold is_u32. lia.
  - unfold service_entry. destruct (s_in_use s); simpl.
    + split; [intros E; eexists; split; [done|simpl; lia]|]. intros (kv & [= <-] & E). simpl in E. lia.
    + split; [done|]. by intros (kv & ? & _).
Qed.

Lemma owned_name_refines k m n i s p :
  msg_ok k m -> served m n i s ->
  refines k (l ← store (services m) i (mkService (s_in_use s) p (name_len s) (name s));
             Done (Ok 0 : result Z Z, set_services l m))
    (Ok 0, set_names (<[n := p]> (names (mail_of m))) (mail_of m)).
Proof.
  intros [H1 H2 H3 H4 H5 H6] [Hs Hu Hn _].
  destruct (table_update service_entry (services m) i s (mkService (s_in_use s) p (name_len s) (name s))
              n (s_pid s) p) as [Hd Ht]; [done|done|unfold service_entry; cbn; by rewrite Hu, Hn..|].
  ostore. apply refines_to.
  - split; simpl; try done; [by rewrite length_insert|]. apply Forall_insert; [done|].
    pose proof (Forall_lookup_1 _ _ _ _ H4 Hs) as Hok. exact Hok.
  - unfold mail_of, set_names. simpl. by rewrite Ht.
Qed.

Lemma new_name_refines k m n i s p :
  msg_ok k m -> services m !! i = Some s -> service_entry s = None -> names (mail_of m) !! n = None ->
  (length n <= 32)%nat ->
  refines k (buf ← copy_prefix (replicate 32 0) n;
             l ← store (services m) i (mkService true p (length n) buf);
             Done (Ok 0 : result Z Z, set_services l m))
    (Ok 0, set_names (<[n := p]> (names (mail_of m))) (mail_of m)).
Proof.
  intros [H1 H2 H3 H4 H5 H6] Hs He Hn Hlen.
  rewrite copy_prefix_Done by by rewrite length_replicate. osimpl.
  set (s' := mkService _ _ _ _).
  destruct (table_fill service_entry (services m) i s s' n p) as [Hd Ht]; [done|done|done| |done|].
  { unfold service_entry. cbn [s' s_in_use name_len name s_pid]. by rewrite take_copy. }
  ostore. apply refines_to.
  - split; simpl; try done; [by rewrite length_insert|]. apply Forall_insert; [done|].
    intros _. cbn [s' name name_len]. rewrite length_app, length_drop, length_replicate. lia.
  - unfold mail_of, set_names. simpl. by rewrite Ht.
Qed.

Lemma valid_name_length n : valid_name n = true -> (length n <= NAME_MAX)%nat.
Proof. unfold valid_name. intros H. apply andb_true_iff in H as [H _]. lia. Qed.

Lemma register_refines k m h p n :
  msg_ok k m -> mail_ok (mail_of m) -> valid_name n = true ->
  refines k (service h p SVC_REGISTER n m) (mail_service h p SVC_REGISTER n (mail_of m)).
Proof.
  intros Hm Ha Hv. unfold service, mail_service. rewrite Hv, Z.eqb_refl. cbn [negb].
  pose proof (find_inbox_spec k m p Hm Ha) as Hf. destruct (find_inbox m p) as [i|];
    [|rewrite Hf; by apply refines_ret]. destruct Hf as [b Hb]. rewrite (fd_box _ _ _ _ _ Hb).
  destruct (find_service_spec k m n Hm) as (r & -> & Hr). osimpl. unfold claim.
  rewrite (names_of_held k) by done. destruct r as [si|].
  - destruct Hr as [s Hs]. pose proof Hs as [Hat Hu Hn Ho]. rewrite (index_at Hat), Ho. osimpl.
    rewrite bool_decide_false by done. cbn [andb].
    destruct (s_pid s =? p); [by apply refines_ret|]. destruct (pid_is_live h (s_pid s)); [by apply refines_ret|].
    destruct (_ <=? _); [by apply refines_ret|]. by apply owned_name_refines.
  - rewrite Hr. rewrite bool_decide_true by done. cbn [andb].
    destruct (MAX_NAMES_PER_PROC <=? _); [by apply refines_ret|].
    pose proof (table_free service_entry s_in_use (services m) service_entry_used (m_names k m Hm)) as Hfree.
    rewrite (m_services k m Hm) in Hfree. cbn [mail_of names].
    destruct (position _ _) as [f|].
    + destruct Hfree as (s & Hs & He & Hsz). replace (_ <=? _)%nat with false by lia.
      apply valid_name_length in Hv. assert (NAME_MAX = 31)%nat by done.
      apply (new_name_refines k m n f s p); [done..|]. lia.
    + replace (_ <=? _)%nat with true by lia. by apply refines_ret.
Qed.

Lemma service_refines k m h p op n :
  msg_ok k m -> mail_ok (mail_of m) -> refines k (service h p op n m) (mail_service h p op n (mail_of m)).
Proof.
  intros Hm Ha. destruct (valid_name n) eqn:Hv;
    [|unfold service, mail_service; rewrite Hv; by apply refines_ret].
  destruct (decide (op = SVC_REGISTER)) as [->|Hop]; [by apply register_refines|].
  unfold service, mail_service. rewrite Hv. cbn [negb]. replace (op =? SVC_REGISTER) with false by lia.
  destruct (find_service_spec k m n Hm) as (r & -> & Hr). osimpl.
  destruct r as [i|]; [|by rewrite Hr; destruct (op =? SVC_UNREGISTER), (op =? SVC_LOOKUP); apply refines_ret].
  destruct Hr as [s Hs]. pose proof Hs as [Hat Hu Hn Ho]. rewrite (index_at Hat), Ho. osimpl.
  destruct (clear_service k m n i s Hm Hs) as (-> & Hm' & Ha'). osimpl.
  destruct (op =? SVC_UNREGISTER).
  - destruct (s_pid s =? p); cbn [negb]; [by apply refines_to|by apply refines_ret].
  - destruct (op =? SVC_LOOKUP); [|by apply refines_ret].
    destruct (pid_is_live h (s_pid s)); [by apply refines_ret|by apply refines_to].
Qed.

(** ** Control *)

Lemma stat_refines n m h p :
  msg_ok n m -> mail_ok (mail_of m) -> stat h p m = Done (mail_stat h p (mail_of m)).
Proof.
  intros Hm Ha. unfold stat, mail_stat.
  pose proof (find_inbox_spec n m p Hm Ha) as Hf. destruct (find_inbox m p) as [i|]; [|by rewrite Hf].
  destruct Hf as [b Hb]. pose proof Hb as [Hat Hu Hp Hq Hal ->].
  oindex Hat. cbn [box_of x_queue x_policy x_delivered x_refused].
  destruct (best_scan_arrivals used (fun _ => true) (slots b)) as (r & -> & Hr);
    [apply Hq|intros s; by rewrite andb_true_r|]. osimpl.
  rewrite length_fmap, length_arrivals, <- (q_count _ _ _ _ Hq). destruct r as [bi|].
  - destruct Hr as (j & s & Hs & Hj & Hpos).
    assert (Hus : used s = true) by (apply (elem_of_arrivals (slots b)); by eapply list_elem_of_lookup_2).
    destruct (slot_data _ _ _ _ _ _ Hq Hs Hus) as (_ & Hfd & Hz).
    oindex Hs.
    destruct (arrivals (slots b)) as [|t q]; [done|]. injection Hpos as <-. injection Hj as ->.
    cbn [fmap list_fmap]. by rewrite Hfd, Hz.
  - osimpl. by destruct (arrivals (slots b)).
Qed.

Lemma set_policy_refines n m p pol :
  msg_ok n m -> mail_ok (mail_of m) -> refines n (set_policy p pol m) (mail_policy p pol (mail_of m)).
Proof.
  intros Hm Ha. unfold set_policy, mail_policy.
  pose proof (find_inbox_spec n m p Hm Ha) as Hf. destruct (find_inbox m p) as [i|];
    [|rewrite Hf; by apply refines_ret]. destruct Hf as [b Hb]. pose proof Hb as [Hat Hu Hp Hq Hal ->].
  destruct (_ <? pol); [by apply refines_ret|]. oindex Hat.
  destruct (put_inbox n n m p i b (set_policy_of pol b)) as (-> & Hm' & Ha'); try done. osimpl.
  by apply refines_to.
Qed.

(** An allowlist as a table of process ids. *)
Definition allow_entry (a : Z) : option (Z * unit) := if a =? 0 then None else Some (a, tt).

Lemma allow_keys l : (entries allow_entry l).*1 = filter (fun a => a <> 0) l.
Proof.
  induction l as [|a l IH]; [done|]. rewrite entries_cons, fmap_app, IH. unfold cell, allow_entry.
  destruct (a =? 0) eqn:E.
  - by rewrite filter_cons_False by (simpl; lia).
  - by rewrite filter_cons_True by (simpl; lia).
Qed.

Lemma allow_insert l i t :
  l !! i = Some 0 -> t <> 0 -> filter (fun a => a <> 0) (<[i := t]> l) ≡ₚ t :: filter (fun a => a <> 0) l.
Proof.
  intros Hi Ht. rewrite <- !allow_keys, (entries_insert allow_entry l i 0 t Hi), (entries_at allow_entry l i 0 Hi).
  unfold cell, allow_entry at 1 4. replace (t =? 0) with false by lia. done.
Qed.

Lemma allow_insert_ok l i t :
  allow_ok l -> l !! i = Some 0 -> 0 < t -> t ∉ senders l ->
  allow_ok (<[i := t]> l) /\ senders (<[i := t]> l) = {[t]} ∪ senders l.
Proof.
  intros [Hl Hp Hn] Hi Ht Hnot. pose proof (allow_insert l i t Hi ltac:(lia)) as Hperm. split.
  - split; [by rewrite length_insert|apply Forall_insert; [done|lia]|].
    rewrite Hperm. constructor; [|done]. unfold senders in Hnot. by rewrite elem_of_list_to_set in Hnot.
  - unfold senders. by rewrite Hperm.
Qed.

Lemma allow_free l :
  allow_ok l ->
  match position (fun a => a =? 0) l with
  | Some i => l !! i = Some 0 /\ (size (senders l) < MAX_ALLOW)%nat
  | None => size (senders l) = MAX_ALLOW
  end.
Proof.
  intros [Hl Hp Hn].
  assert (Hsz : size (senders l) = (length l - countb (fun a : Z => (a =? 0)%Z) l)%nat).
  { unfold senders. rewrite size_list_to_set by done. clear. induction l as [|a l IH]; [done|].
    pose proof (countb_le_length (fun a => a =? 0) l). cbn [countb length].
    destruct (a =? 0) eqn:E; [rewrite filter_cons_False by (simpl; lia)|rewrite filter_cons_True by (simpl; lia)];
      cbn [length]; lia. }
  rewrite Hsz, Hl. destruct (position _ l) as [i|] eqn:Hpos.
  - apply position_Some in Hpos as (a & Ha & E & _). assert (a = 0) as -> by lia. split; [done|].
    pose proof (countb_pos (fun a => a =? 0) l i 0 Ha eq_refl). assert (0 < MAX_ALLOW)%nat by (compute; lia). lia.
  - rewrite countb_none; [lia|]. by apply position_None.
Qed.

Lemma allow_refines n m p target add :
  msg_ok n m -> mail_ok (mail_of m) -> refines n (allow_pid p target add m) (mail_allow p target add (mail_of m)).
Proof.
  intros Hm Ha. unfold allow_pid, mail_allow.
  pose proof (find_inbox_spec n m p Hm Ha) as Hf. destruct (find_inbox m p) as [i|];
    [|rewrite Hf; by apply refines_ret]. destruct Hf as [b Hb]. pose proof Hb as [Hat Hu Hp Hq Hal ->].
  destruct (target <=? 0) eqn:Ht; [by apply refines_ret|]. oindex Hat.
  cbn [box_of x_allow]. destruct add.
  - rewrite existsb_senders by lia. destruct (bool_decide _) eqn:Hin; [by apply refines_ret|].
    apply bool_decide_eq_false in Hin. pose proof (allow_free _ Hal) as Hfree.
    destruct (position _ (allow b)) as [f|]; [|rewrite Hfree, Nat.leb_refl; by apply refines_ret].
    destruct Hfree as [Hz Hsz]. replace (_ <=? _)%nat with false by lia.
    ostore.
    destruct (allow_insert_ok (allow b) f target Hal Hz) as [Hal' Hset]; [lia|done|].
    destruct (put_inbox n n m p i b (set_allow (<[f := target]> (allow b)) b)) as (-> & Hm' & Ha'); try done.
    osimpl. apply refines_to; [done|]. rewrite Ha'. unfold box_of. box_simpl. by rewrite Hset.
  - destruct (put_inbox n n m p i b (set_allow (strike target (allow b)) b)) as (-> & Hm' & Ha'); try done.
    { by apply strike_ok. }
    osimpl. apply refines_to; [done|]. rewrite Ha'. unfold box_of.
    box_simpl. by rewrite senders_strike.
Qed.
