(* ===== verification/MsgProps.v ===== *)
(** * Messages: the self-check accepts every well-formed state *)

From S2P Require Import Prelude Bytes Table Msg MsgSpec MsgInv MsgRefine.
Local Open Scope Z_scope.

Lemma existsb_false {A} (f : A -> bool) l : (forall i x, l !! i = Some x -> f x = false) -> existsb f l = false.
Proof.
  intros Hf. apply not_true_iff_false. intros (x & Hx & E)%existsb_exists.
  apply list_elem_of_In, list_elem_of_lookup in Hx as [i Hx]. rewrite (Hf i x Hx) in E. done.
Qed.

Lemma check_allow_ok l :
  Forall (fun a => 0 <= a) l -> NoDup (filter (fun a => a <> 0) l) -> check_allow l = Ok tt.
Proof.
  induction l as [|a l IH]; intros Hp Hn; simpl; [done|]. apply Forall_cons in Hp as [Ha Hp].
  replace (a <? 0) with false by lia. destruct (a =? 0) eqn:E; simpl.
  - rewrite filter_cons_False in Hn by lia. auto.
  - rewrite filter_cons_True in Hn by lia. apply NoDup_cons in Hn as [Hx Hn].
    rewrite existsb_false; [by apply IH|]. intros i x Hi. apply Z.eqb_neq. intros ->. apply Hx.
    apply list_elem_of_filter. split; [lia|]. by eapply list_elem_of_lookup_2.
Qed.

Lemma distinct_tail {A K V} `{Countable K} (entry : A -> option (K * V)) a l :
  distinct entry (a :: l) -> distinct entry l.
Proof. unfold distinct. rewrite entries_cons, fmap_app. by intros (_ & _ & ?)%NoDup_app. Qed.

(** No later slot has the key of the first. *)
Lemma distinct_head {A K V} `{Countable K} (entry : A -> option (K * V)) a l k v i b w :
  distinct entry (a :: l) -> entry a = Some (k, v) -> l !! i = Some b -> entry b <> Some (k, w).
Proof.
  intros Hd Ha Hb Hk. pose proof (distinct_inj entry (a :: l) 0 (S i) a b k v w Hd eq_refl Hb Ha Hk). done.
Qed.

Lemma check_slots_ok l next :
  Forall (slot_ok next) l -> distinct slot_entry l ->
  Forall (fun s => used s = true -> 0 < sender s /\ mtype s <> 0) l -> check_slots l next = Ok tt.
Proof.
  intros Hs Hd Hm. induction l as [|s l IH]; simpl; [done|].
  apply Forall_cons in Hs as [[_ Hs] Hs']. apply Forall_cons in Hm as [Hm Hm'].
  specialize (IH Hs' (distinct_tail _ _ _ Hd) Hm'). destruct (used s) eqn:Hu; simpl; [|done].
  destruct (Hs eq_refl) as [Hlen Hseq], (Hm eq_refl) as [Hsnd Hmt].
  replace (mtype s =? 0) with false by lia. replace (_ <? len s) with false by lia.
  replace (sender s <=? 0) with false by lia. simpl.
  rewrite existsb_false; [by replace (next <=? seq s) with false by lia|].
  intros i t Ht. apply not_true_iff_false. intros [Hut E]%andb_true_iff.
  apply (distinct_head slot_entry s l (seq s) s i t t Hd); unfold slot_entry; [by rewrite Hu|done|].
  rewrite Hut. do 2 f_equal. lia.
Qed.

Lemma check_share_ok l : 
  (length l <= QUEUE_DEPTH)%nat -> (forall from, Z.of_nat (held from l) <= MAX_PER_SENDER) -> check_share l = Ok tt.
Proof.
  intros Hl Hh. unfold check_share. rewrite existsb_false; [done|]. intros i s Hs.
  assert (Z.of_nat QUEUE_DEPTH = 16) by done. specialize (Hh (sender s)).
  pose proof (countb_le_length (fun t => used t && (sender t =? sender s)) l).
  rewrite wrap32_id by (unfold is_u32, held; lia).
  replace (_ <? _) with false by lia. by rewrite andb_false_r.
Qed.

Lemma has_twin_false l i b :
  distinct inbox_entry l -> l !! i = Some b -> in_use b = true -> has_twin i (pid b) l = false.
Proof.
  intros Hd Hb Hu. apply existsb_false. intros k [j o] Hk.
  rewrite list_lookup_imap in Hk. apply fmap_Some in Hk as (o' & Ho & [= -> ->]).
  apply not_true_iff_false. intros [[Hne Huo]%andb_true_iff E]%andb_true_iff.
  assert (k = i); [|subst; rewrite Nat.eqb_refl in Hne; done].
  apply (distinct_inj inbox_entry l k i o' b (pid b) (box_of o') (box_of b)); [done..| |].
  - unfold inbox_entry. rewrite Huo. do 2 f_equal. lia.
  - unfold inbox_entry. by rewrite Hu.
Qed.

Lemma check_inbox_ok n m i b :
  msg_ok n m -> mail_ok (mail_of m) -> inboxes m !! i = Some b -> check_inbox i b (inboxes m) = Ok tt.
Proof.
  intros Hm Ha Hb. pose proof (Forall_lookup_1 _ _ _ _ (m_inbox n m Hm) Hb) as Hok. unfold inbox_ok in Hok.
  unfold check_inbox. destruct (in_use b) eqn:Hu; cbn [negb].
  2: { subst b. unfold EMPTY_INBOX. cbn [slots count].
       rewrite countb_none; [done|]. intros j s [-> _]%lookup_replicate_1. done. }
  destruct Hok as [Hq Hal].
  destruct (mo_box _ Ha (pid b) (box_of b)) as [Hpid [Hpol _ _ Hshare Hmsg]].
  { apply (table_at inbox_entry (inboxes m) i b); [apply Hm|done|]. unfold inbox_entry. by rewrite Hu. }
  cbn [box_of x_policy x_queue] in Hpol, Hshare, Hmsg.
  pose proof (queue_count _ _ _ _ Hq) as Hc. assert (Z.of_nat QUEUE_DEPTH = 16) by done.
  rewrite <- (q_count _ _ _ _ Hq), wrap32_id, Z.eqb_refl by auto with machine. cbn [negb].
  replace (pid b <=? 0) with false by lia. replace (_ <? policy b) with false by lia.
  rewrite has_twin_false by (done || apply Hm).
  rewrite check_allow_ok by apply Hal. rewrite check_slots_ok; [|apply Hq|apply Hq|].
  - apply check_share_ok; [by rewrite (q_length _ _ _ _ Hq)|]. intros from.
    by rewrite <- sent_by_arrivals.
  - apply Forall_lookup. intros j s Hs Hus. rewrite Forall_fmap, Forall_forall in Hmsg.
    destruct (Hmsg s) as (? & ? & _); [apply elem_of_arrivals; eauto|]. done.
Qed.

Lemma check_inboxes_ok n m i l :
  msg_ok n m -> mail_ok (mail_of m) -> drop i (inboxes m) = l -> check_inboxes i l (inboxes m) = Ok tt.
Proof.
  intros Hm Ha. revert i. induction l as [|b l IH]; intros i Hl; simpl; [done|].
  assert (Hb : inboxes m !! i = Some b) by (rewrite <- (Nat.add_0_r i), <- lookup_drop, Hl; done).
  rewrite (check_inbox_ok n m i b) by done. apply IH. rewrite (drop_S _ _ _ Hb) in Hl. by injection Hl.
Qed.

Lemma shares_name_false s l :
  Forall service_ok (s :: l) -> distinct service_entry (s :: l) -> s_in_use s = true -> shares_name s l = Done false.
Proof.
  intros Hok Hd Hu. apply Forall_cons in Hok as [Hs Hl].
  assert (Hne : forall i t, l !! i = Some t -> s_in_use t = true -> take (name_len t) (name t) <> take (name_len s) (name s)).
  { intros i t Ht Hut E. apply (distinct_head service_entry s l (take (name_len s) (name s)) (s_pid s) i t (s_pid t) Hd);
      unfold service_entry; [by rewrite Hu|done|by rewrite Hut, E]. }
  clear Hd. induction l as [|t l IH]; simpl; [done|]. apply Forall_cons in Hl as [Ht Hl].
  specialize (IH Hl (fun i => Hne (S i))). specialize (Hne 0%nat t eq_refl).
  destruct (s_in_use t) eqn:Hut; simpl; [|done]. destruct (_ =? _)%nat; [|done].
  rewrite !service_name_Done by done. osimpl. by rewrite bool_decide_false by auto.
Qed.

Lemma check_services_ok n m l :
  msg_ok n m -> mail_ok (mail_of m) -> Forall service_ok l -> distinct service_entry l ->
  (forall i s, l !! i = Some s -> s_in_use s = true ->
     names (mail_of m) !! take (name_len s) (name s) = Some (s_pid s)) ->
  check_services l m = Done (Ok tt).
Proof.
  intros Hm Ha Hok Hd Hin. induction l as [|s l IH]; simpl; [done|].
  pose proof (shares_name_false s l Hok Hd) as Hsh. apply Forall_cons in Hok as [Hs Hl].
  specialize (IH Hl (distinct_tail _ _ _ Hd) (fun i => Hin (S i))). specialize (Hin 0%nat s eq_refl).
  destruct (s_in_use s) eqn:Hu; simpl; [|done]. rewrite service_name_Done by done. osimpl.
  destruct (mo_name _ Ha _ _ (Hin eq_refl)) as [Hv [x Hx]]. rewrite Hv. cbn [negb].
  pose proof (find_inbox_spec n m (s_pid s) Hm Ha) as Hf. destruct (find_inbox m (s_pid s)); [|congruence].
  rewrite Hsh by done. osimpl. rewrite (names_of_held n) by done.
  pose proof (mo_held _ Ha (s_pid s)). by replace (_ <? _) with false by lia.
Qed.

(** ** The counts *)

Lemma sum_counts_spec l acc :
  Forall (fun b => in_use b = true -> 0 <= count b) l -> 0 <= acc ->
  acc + Z.of_nat (sum_list ((fun b => if in_use b then Z.to_nat (count b) else 0%nat) <$> l)) < 4294967296 ->
  fold_left (fun acc b => if in_use b then wrap32 (acc + count b) else acc) l acc =
  acc + Z.of_nat (sum_list ((fun b => if in_use b then Z.to_nat (count b) else 0%nat) <$> l)).
Proof.
  intros Hc. revert acc. induction Hc as [|b l Hb Hl IH]; intros acc H0 Hs; [simpl; lia|].
  rewrite fmap_cons in *. cbn [fold_left sum_list sum_list_with] in *.
  destruct (in_use b); [|apply IH; simpl in *; lia]. specialize (Hb eq_refl). simpl in Hs.
  rewrite wrap32_id by auto with machine. rewrite IH; simpl; lia.
Qed.

#[local] Instance sum_list_perm : Proper ((≡ₚ) ==> (=)) (@sum_list_with nat id).
Proof. intros l1 l2 Hp. induction Hp; simpl; unfold id in *; lia. Qed.

Lemma queued_spec n m :
  msg_ok n m ->
  queued (mail_of m) = sum_list ((fun b => if in_use b then Z.to_nat (count b) else 0%nat) <$> inboxes m).
Proof.
  intros Hm. unfold queued. cbn [mail_of boxes]. unfold table.
  rewrite map_to_list_to_map by apply Hm. pose proof (m_inbox n m Hm) as Hok.
  induction Hok as [|b l Hb Hl IH]; [done|].
  rewrite entries_cons, fmap_app, fmap_cons, sum_list_with_app. cbn [sum_list_with]. rewrite IH. f_equal.
  unfold cell, inbox_entry, inbox_ok in *. destruct (in_use b); [|done].
  destruct Hb as [Hq _]. pose proof (length_fmap slot_msg (arrivals (slots b))) as Hlen.
  rewrite length_arrivals in Hlen. rewrite (q_count _ _ _ _ Hq), Nat2Z.id, <- Hlen. apply Nat.add_0_r.
Qed.

Lemma sum_bound n l :
  Forall (inbox_ok n) l ->
  (sum_list ((fun b => if in_use b then Z.to_nat (count b) else 0%nat) <$> l) <= length l * QUEUE_DEPTH)%nat.
Proof.
  induction 1 as [|b l Hb Hl IH]; [simpl; lia|]. rewrite fmap_cons. cbn [sum_list_with length].
  unfold inbox_ok in Hb. unfold id at 1. destruct (in_use b); [|lia].
  destruct Hb as [Hq _]. pose proof (queue_count _ _ _ _ Hq). lia.
Qed.

Lemma stats_spec n m :
  msg_ok n m ->
  stats m = (Z.of_nat (size (boxes (mail_of m))), Z.of_nat (queued (mail_of m)),
             Z.of_nat (size (names (mail_of m)))).
Proof.
  intros Hm. unfold stats. assert (Z.of_nat MAX_INBOXES = 32) as HI by done.
  assert (Z.of_nat MAX_SERVICES = 32) as HS by done. assert (Z.of_nat QUEUE_DEPTH = 16) as HQ by done.
  pose proof (m_inboxes n m Hm) as Hi. pose proof (m_services n m Hm) as Hs.
  pose proof (countb_le_length in_use (inboxes m)). pose proof (countb_le_length s_in_use (services m)).
  pose proof (sum_bound n (inboxes m) (m_inbox n m Hm)) as Hb. rewrite Hi in Hb.
  rewrite !wrap32_id by auto with machine. cbn [mail_of boxes names].
  rewrite (size_table inbox_entry in_use), (size_table service_entry s_in_use);
    [|apply service_entry_used|apply Hm|apply inbox_entry_used|apply Hm].
  rewrite (queued_spec n m Hm). unfold sum_counts. rewrite sum_counts_spec; [done| |lia|lia].
  eapply Forall_impl; [apply (m_inbox n m Hm)|]. intros b Hok Hu. unfold inbox_ok in Hok. rewrite Hu in Hok.
  destruct Hok as [Hq _]. by apply (queue_count _ _ _ _ Hq).
Qed.

Lemma selftest_spec n m :
  msg_ok n m -> mail_ok (mail_of m) ->
  rust_msg_selftest m =
  Done (0, (Z.of_nat (size (boxes (mail_of m))), Z.of_nat (queued (mail_of m)),
            Z.of_nat (size (names (mail_of m))))).
Proof.
  intros Hm Ha. unfold rust_msg_selftest, check_counts.
  rewrite (check_inboxes_ok n m 0) by done.
  rewrite (check_services_ok n m); [|done|done|apply Hm|apply Hm|].
  - osimpl. by rewrite (stats_spec n).
  - intros i s Hs Hu. apply (table_at service_entry (services m) i s); [apply Hm|done|].
    unfold service_entry. by rewrite Hu.
Qed.

(** * Messages: the properties *)

(** ** The entry points implement the contract *)

Lemma refines_mono {R} n n' (impl : outcome (R * Msg)) spec : n <= n' -> refines n impl spec -> refines n' impl spec.
Proof. intros Hn (r & m' & ? & ? & ?). exists r, m'. eauto using msg_ok_mono. Qed.

Lemma if_take {A} (n : Z) (l : list A) : (if n =? 0 then [] else take (Z.to_nat n) l) = take (Z.to_nat n) l.
Proof. by destruct (n =? 0) eqn:E; [apply Z.eqb_eq in E as ->|]. Qed.

Lemma if_take_nat {A} (n : nat) (l : list A) : (if (n =? 0)%nat then [] else take n l) = take n l.
Proof. by destruct n. Qed.

Section calls.
  Context (n : Z) (m : Msg) (h : Hal).
  Context (Hm : msg_ok n m) (Ha : mail_ok (mail_of m)).
  Context (H0 : 0 <= n) (Hn : n + 1 < 18446744073709551616).

Lemma send_call_refines from uid dest nm nlen mt tg flags mem k :
  0 < from ->
  refines (n + 1) (run_call h (CSend from uid dest nm nlen mt tg flags mem k) m)
    (do_call h (CSend from uid dest nm nlen mt tg flags mem k) (mail_of m)).
Proof.
  intros Hf. assert (Hm1 : msg_ok (n + 1) m) by (apply (msg_ok_mono n); [lia|done]).
  cbn [run_call do_call]. unfold rust_msg_send. rewrite if_take.
  destruct (_ <? k); [by apply refines_ret|]. destruct (_ <? nlen); [by apply refines_ret|].
  destruct (send_refines n m h from uid (if nlen =? 0 then DPid dest else DName (take (Z.to_nat nlen) nm))
              mt tg flags (take (Z.to_nat k) mem) Hm Ha Hn Hf) as (r & m' & -> & Hm' & ->).
  osimpl. by apply refines_ret.
Qed.

Lemma recv_call_refines p flags ms mt tg buf cap :
  refines n (run_call h (CRecv p flags ms mt tg buf cap) m) (do_call h (CRecv p flags ms mt tg buf cap) (mail_of m)).
Proof.
  cbn [run_call do_call]. unfold rust_msg_recv. rewrite if_take_nat.
  destruct (recv_refines n m p flags ms mt tg (take (Z.to_nat cap `min` MAX_PAYLOAD) buf)
              (mkInfo 0 0 0 0 0 0 0) Hm Ha) as ([[r i] o] & m' & -> & Hm' & ->).
  osimpl. destruct r as [[]|e]; [by apply refines_ret|]. destruct (e =? E2BIG); by apply refines_ret.
Qed.

Lemma service_call_refines p op nm nlen :
  refines n (run_call h (CService p op nm nlen) m) (do_call h (CService p op nm nlen) (mail_of m)).
Proof.
  cbn [run_call do_call]. unfold rust_msg_service. rewrite if_take.
  destruct (_ <? nlen); [by apply refines_ret|].
  destruct (service_refines n m h p op (take (Z.to_nat nlen) nm) Hm Ha) as (r & m' & -> & Hm' & ->).
  osimpl. destruct r; by apply refines_ret.
Qed.

Lemma ctl_call_refines p op arg :
  refines n (run_call h (CCtl p op arg) m) (do_call h (CCtl p op arg) (mail_of m)).
Proof.
  cbn [run_call do_call]. unfold rust_msg_ctl.
  assert (Hal : forall add, refines n (allow_pid p (as_i32 arg) add m) (mail_allow p (as_i32 arg) add (mail_of m)))
    by (intros; by apply allow_refines).
  destruct (op =? CTL_STAT); [|destruct (op =? CTL_ALLOW); [|destruct (op =? CTL_DENY)]].
  - rewrite (stat_refines n) by done. osimpl. destruct (mail_stat _ _ _); by apply refines_ret.
  - destruct (Hal true) as (r & m' & -> & Hm' & ->). osimpl. by apply refines_ret.
  - destruct (Hal false) as (r & m' & -> & Hm' & ->). osimpl. by apply refines_ret.
  - destruct (op =? CTL_POLICY); [|by apply refines_ret].
    destruct (set_policy_refines n m p arg Hm Ha) as (r & m' & -> & Hm' & ->). osimpl. by apply refines_ret.
Qed.

Lemma run_call_refines c :
  call_ok c -> refines (n + 1) (run_call h c m) (do_call h c (mail_of m)).
Proof.
  intros Hc. destruct c; [..|].
  3: by apply send_call_refines.
  all: apply (refines_mono n); [lia|].
  - cbn [run_call do_call]. unfold rust_msg_open.
    destruct (open_refines n m p pol flags H0 Hm Ha) as (r & m' & -> & Hm' & ->). osimpl.
    destruct r as [[]|]; by apply refines_ret.
  - cbn [run_call do_call]. unfold rust_msg_close.
    destruct (close_inbox_refines n m p Hm Ha) as (r & m' & [= E] & Hm' & ->). rewrite E. by apply refines_ret.
  - apply recv_call_refines.
  - apply service_call_refines.
  - apply ctl_call_refines.
  - cbn [run_call do_call]. destruct (drop_process_refines n m p Hm). by apply refines_to.
  - cbn [run_call do_call]. rewrite (selftest_spec n) by done. osimpl. by apply refines_ret.
Qed.
End calls.

(** ** Runs of the kernel *)

Lemma msg_new_ok : msg_ok 0 Msg_new /\ mail_of Msg_new = no_mail.
Proof.
  assert (He : forall A K V (entry : A -> option (K * V)) a k,
             entry a = None -> entries entry (replicate k a) = []).
  { intros A K V entry a k Ha. induction k as [|k IH]; [done|].
    rewrite replicate_S, entries_cons, IH. unfold cell. by rewrite Ha. }
  split.
  - split; unfold distinct; cbn [Msg_new inboxes services]; rewrite ?He by done; [..|constructor|constructor].
    + apply length_replicate.
    + apply length_replicate.
    + by apply Forall_replicate.
    + by apply Forall_replicate.
  - unfold mail_of, table. cbn [Msg_new inboxes services]. by rewrite !He by done.
Qed.

(** The states the kernel reaches with [n] calls. *)
Definition reached (cs : list (Hal * call)) (m : Msg) : Prop :=
  Forall (fun hc => call_ok hc.2) cs /\ Z.of_nat (length cs) < 18446744073709551615 /\
  exists rs, run_all cs Msg_new = Done (rs, m).

Lemma run_all_refines cs n m :
  Forall (fun hc => call_ok hc.2) cs -> msg_ok n m -> mail_ok (mail_of m) -> 0 <= n ->
  n + Z.of_nat (length cs) < 18446744073709551616 ->
  exists rs m', run_all cs m = Done (rs, m') /\ do_all cs (mail_of m) = (rs, mail_of m') /\
    msg_ok (n + Z.of_nat (length cs)) m' /\ mail_ok (mail_of m').
Proof.
  revert n m. induction cs as [|[h c] cs IH]; intros n m Hcs Hm Ha H0 Hn; simpl in *.
  { exists [], m. by rewrite Z.add_0_r. }
  apply Forall_cons in Hcs as [Hc Hcs]. pose proof (do_call_ok h c _ Hc Ha) as Hok.
  destruct (run_call_refines n m h Hm Ha H0 ltac:(lia) c Hc) as (r & m1 & -> & Hm1 & E). rewrite E in *. osimpl.
  destruct (IH (n + 1) m1 Hcs Hm1 Hok ltac:(lia) ltac:(lia)) as (rs & m' & -> & -> & Hm' & Ha').
  osimpl. exists (r :: rs), m'. split; [done|]. split; [done|]. split; [|done].
  by replace (n + _) with (n + 1 + Z.of_nat (length cs)) by lia.
Qed.

Lemma reached_ok cs m :
  reached cs m -> exists n, msg_ok n m /\ mail_ok (mail_of m) /\ 0 <= n /\ n + 1 < 18446744073709551616.
Proof.
  intros (Hc & Hl & rs & Hr). destruct msg_new_ok as [Hnew E].
  destruct (run_all_refines cs 0 Msg_new) as (rs' & m' & Hr' & _ & Hm' & Ha');
    [done|done|rewrite E; apply no_mail_ok|lia|lia|].
  exists (0 + Z.of_nat (length cs)). assert (m' = m) as -> by congruence. split; [done|]. split; [done|]. lia.
Qed.

(** One more call on a state the kernel reached. *)
Lemma reached_call cs m h c :
  reached cs m -> call_ok c ->
  exists r m', run_call h c m = Done (r, m') /\ do_call h c (mail_of m) = (r, mail_of m').
Proof.
  intros Hr Hc. destruct (reached_ok cs m Hr) as (n & Hm & Ha & H0 & Hn).
  destruct (run_call_refines n m h Hm Ha H0 Hn c Hc) as (r & m' & E & _ & E'). eauto.
Qed.

(** More calls, as long as the arrival numbers cannot wrap. *)
Lemma reached_run cs cs' m :
  reached cs m -> Forall (fun hc => call_ok hc.2) cs' ->
  Z.of_nat (length cs + length cs') < 18446744073709551615 ->
  exists rs m', run_all cs' m = Done (rs, m') /\ do_all cs' (mail_of m) = (rs, mail_of m') /\
                reached (cs ++ cs') m' /\ mail_ok (mail_of m) /\ mail_ok (mail_of m').
Proof.
  intros Hr Hc Hl. pose proof Hr as (Hcs & _ & rs0 & Hrun).
  assert (Happ : forall l m0 rs1 m1 rs2 m2, run_all l m0 = Done (rs1, m1) -> run_all cs' m1 = Done (rs2, m2) ->
                                     run_all (l ++ cs') m0 = Done (rs1 ++ rs2, m2)).
  { clear. intros l. induction l as [|[h c] l IH]; intros m0 rs1 m1 rs2 m2 H1 H2; simpl in *; [by injection H1 as <- <-|].
    apply bind_Done in H1 as ([r m3] & -> & H1). osimpl. apply bind_Done in H1 as ([rs m4] & H3 & [= <- <-]).
    by rewrite (IH _ _ _ _ _ H3 H2). }
  destruct msg_new_ok as [Hnew E].
  destruct (run_all_refines cs 0 Msg_new) as (rs1 & m1 & Hr1 & _ & Hm1 & Ha1);
    [done|done|rewrite E; apply no_mail_ok|lia|lia|].
  assert (m1 = m) as -> by congruence.
  destruct (run_all_refines cs' _ m Hc Hm1 Ha1) as (rs & m' & Hr' & Hd & Hm' & Ha'); [lia|lia|].
  exists rs, m'. split; [done|]. split; [done|]. split; [|done].
  split; [by apply Forall_app|]. split; [rewrite length_app; lia|]. eauto.
Qed.

(** C5: Every sequence of kernel calls on the message arrays returns (no array index is
    out of range), and every return code, out word and received byte is the one the mail
    system of [MsgSpec.v] gives: an inbox is a bounded first-in first-out queue of whole
    messages with its owner's policy, service names are a finite map, the boot self-test
    finds nothing wrong. *)
Theorem msg_refines (cs : list (Hal * call)) :
  Forall (fun hc => call_ok hc.2) cs -> Z.of_nat (length cs) < 18446744073709551616 ->
  exists m, run_all cs Msg_new = Done ((do_all cs no_mail).1, m) /\ mail_of m = (do_all cs no_mail).2.
Proof.
  intros Hc Hl. destruct msg_new_ok as [Hnew E].
  destruct (run_all_refines cs 0 Msg_new) as (rs & m & Hr & Hd & _);
    [done|done|rewrite E; apply no_mail_ok|lia|lia|].
  rewrite <- E, Hd. eauto.
Qed.

(** ** First in, first out *)

(** A process sends the message [f] to [p] at the moment [h]. *)
Definition post (p : Z) (hf : Hal * message) : Hal * call :=
  let '(h, f) := hf in
  (h, CSend (f_sender f) (f_uid f) p [] 0 (f_type f) (f_tag f) 0 (f_data f) (Z.of_nat (length (f_data f)))).

(** The message as it arrives, with the tick of its sending. *)
Definition stamped (hf : Hal * message) : message :=
  mkMessage (f_sender hf.2) (f_uid hf.2) (f_type hf.2) (f_tag hf.2) (ticks hf.1) (f_data hf.2).

(** [p] takes the oldest message into a buffer of the largest size. *)
Definition pick (h : Hal) (p : Z) (buf : list Z) : Hal * call := (h, CRecv p 0 0 0 0 buf (Z.of_nat MAX_PAYLOAD)).

(** What [p] sees when [later] messages are behind [f]. *)
Definition seen (buf : list Z) (f : message) (later : nat) : reply :=
  mkReply 0 (info_words (describe f (Z.of_nat later))) (f_data f ++ drop (length (f_data f)) buf).

Definition queue_of (m : Msg) (p : Z) : option (list message) := x_queue <$> boxes (mail_of m) !! p.

Lemma neg_zero (r : result unit Z) : neg r = 0 -> match r with Ok _ => True | Err e => e = 0 end.
Proof. destruct r; simpl; [done|lia]. Qed.

Lemma post_valid p h f a :
  0 < p -> f_type f <> 0 -> (length (f_data f) <= MAX_PAYLOAD)%nat ->
  do_call h (post p (h, f)).2 a =
  (mkReply (neg (mail_deliver h (stamped (h, f)) p a).1) [] [], (mail_deliver h (stamped (h, f)) p a).2).
Proof.
  intros Hp Ht Hl. cbn [post snd do_call]. replace (_ <? Z.of_nat (length _)) with false by lia.
  change (Z.of_nat NAME_MAX + 1 <? 0) with false. change (0 =? 0) with true. cbv iota.
  rewrite Nat2Z.id, firstn_all. unfold mail_send. replace (f_type f =? 0) with false by lia. cbn [negb orb Z.eqb].
  replace (_ <? length _)%nat with false by lia. cbn [mail_resolve]. replace (p <=? 0) with false by lia.
  unfold stamped. cbn [fst snd]. by destruct (mail_deliver _ _ _ _).
Qed.

Lemma post_do p h f a r a' :
  do_call h (post p (h, f)).2 a = (r, a') -> rc r = 0 ->
  exists x, boxes a !! p = Some x /\ boxes a' = <[p := append (stamped (h, f)) x]> (boxes a).
Proof.
  cbn [post snd do_call]. destruct (_ <? Z.of_nat (length _)); [by intros [= <- <-]|].
  change (Z.of_nat NAME_MAX + 1 <? 0) with false. change (0 =? 0) with true. cbv iota.
  rewrite Nat2Z.id, firstn_all. unfold mail_send. change (negb (0 =? 0)) with false. cbn [orb].
  destruct (f_type f =? 0); [by intros [= <- <-]|]. destruct (_ <? _)%nat; [by intros [= <- <-]|].
  cbn [mail_resolve]. destruct (p <=? 0); [by intros [= <- <-]|].
  unfold mail_deliver. destruct (pid_is_live h p); cbn [negb]; [|by intros [= <- <-]].
  destruct (boxes a !! p) as [x|]; [|by intros [= <- <-]].
  cbn [f_sender f_uid]. destruct (admits h x (f_sender f) (f_uid f) p) as [[]|e] eqn:Had; [|by intros [= <- <-]|].
  - destruct (has_room _ _); [|by intros [= <- <-]]. intros [= <- <-] _. by exists x.
  - intros [= <- <-] Hz. exfalso. unfold admits in Had. simpl in Hz.
    destruct (x_policy x =? ACCEPT_SAME_UID); [|by destruct (x_policy x =? ACCEPT_ALLOWLIST)].
    destruct (uid_of h p); [done|]. by injection Had as <-.
Qed.

Lemma posts_do p fs a rs a' x :
  do_all (post p <$> fs) a = (rs, a') -> Forall (fun r => rc r = 0) rs -> boxes a !! p = Some x ->
  exists x', boxes a' !! p = Some x' /\ x_queue x' = x_queue x ++ (stamped <$> fs).
Proof.
  revert a rs x. induction fs as [|[h f] fs IH]; intros a rs x Hdo Hrc Hx.
  { injection Hdo as <- <-. exists x. by rewrite app_nil_r. }
  rewrite fmap_cons in Hdo. cbn [do_all post] in Hdo.
  destruct (do_call h _ a) as [r a1] eqn:E1. destruct (do_all _ a1) as [rs1 a2] eqn:E2. injection Hdo as <- <-.
  apply Forall_cons in Hrc as [Hr Hrc].
  destruct (post_do p h f a r a1 E1 Hr) as (y & Hy & Ha1). assert (y = x) as -> by congruence.
  destruct (IH a1 rs1 (append (stamped (h, f)) x) E2 Hrc) as (x' & Hx' & Hq).
  { by rewrite Ha1, lookup_insert_eq. }
  exists x'. split; [done|]. rewrite Hq, fmap_cons. cbn [append x_queue]. by rewrite <- (assoc_L (++)).
Qed.

Lemma pick_do h p buf a x f q :
  boxes a !! p = Some x -> x_queue x = f :: q -> (length (f_data f) <= MAX_PAYLOAD)%nat ->
  length buf = MAX_PAYLOAD ->
  exists x', do_call h (pick h p buf).2 a = (seen buf f (length q), set_box p x' a) /\ x_queue x' = q.
Proof.
  intros Hx Hq Hf Hb. cbn [pick snd do_call]. rewrite Nat2Z.id, Nat.min_id.
  unfold mail_recv. change (negb _) with false. cbv iota. rewrite Hx, Hq. cbn [position].
  change (selects 0 0 0 0 f) with true. cbv iota. cbn [lookup list_lookup].
  rewrite firstn_all2 by lia. replace (_ <? _)%nat with false by lia.
  change (Z.land 0 RECV_PEEK =? 0) with true. cbv iota.
  exists (remove 0 x). split; [|simpl; by rewrite Hq]. unfold seen. cbn [length neg].
  replace (Z.of_nat (S (length q)) - 1) with (Z.of_nat (length q)) by lia. do 2 f_equal.
  rewrite length_app, length_drop.
  replace (length (f_data f) + (length buf - length (f_data f)))%nat with (length buf) by lia.
  rewrite (drop_ge buf (length buf)) by lia. apply app_nil_r.
Qed.

(** The replies to as many receives as there are messages. *)
Fixpoint all_seen (buf : list Z) (q : list message) : list reply :=
  match q with
  | [] => []
  | f :: q' => seen buf f (length q') :: all_seen buf q'
  end.

Lemma picks_do h p buf q a x :
  boxes a !! p = Some x -> x_queue x = q -> Forall message_ok q -> length buf = MAX_PAYLOAD ->
  (do_all (replicate (length q) (pick h p buf)) a).1 = all_seen buf q.
Proof.
  revert a x. induction q as [|f q IH]; intros a x Hx Hq Hok Hb; [done|].
  apply Forall_cons in Hok as [(_ & _ & Hf) Hok].
  destruct (pick_do h p buf a x f q Hx Hq Hf Hb) as (x' & E & Hq'). cbn [length replicate all_seen].
  change (do_all (pick h p buf :: ?l) a) with (let '(r, a) := do_call h (pick h p buf).2 a in
    let '(rs, a) := do_all l a in (r :: rs, a)). rewrite E.
  specialize (IH (set_box p x' a) x'). cbn [set_box boxes] in IH. rewrite lookup_insert_eq in IH.
  specialize (IH eq_refl Hq' Hok Hb). destruct (do_all _ _) as [rs a']. simpl in *. by rewrite IH.
Qed.

Lemma post_ok p fs : Forall (fun hf => 0 < f_sender hf.2) fs -> Forall (fun hc => call_ok hc.2) (post p <$> fs).
Proof. intros Hf. apply Forall_fmap. eapply Forall_impl; [exact Hf|]. by intros [h f]. Qed.

(** C32: What is sent is what is received, in order. If all of [fs] are accepted into
    an empty inbox, then receiving as often gives their bytes, types and tags in the order
    of sending, stamped with sender, uid and time of each send. *)
Theorem msg_fifo cs m p fs rs m1 h buf :
  reached cs m -> queue_of m p = Some [] -> Forall (fun hf => 0 < f_sender hf.2) fs ->
  Z.of_nat (length cs + length fs + length fs) < 18446744073709551615 ->
  run_all (post p <$> fs) m = Done (rs, m1) -> Forall (fun r => rc r = 0) rs -> length buf = MAX_PAYLOAD ->
  exists m2, run_all (replicate (length fs) (pick h p buf)) m1 = Done (all_seen buf (stamped <$> fs), m2).
Proof.
  intros Hr Hq Hf Hl Hrun Hrc Hb.
  destruct (reached_run cs (post p <$> fs) m Hr (post_ok p fs Hf)) as (rs' & m1' & E & Hd & Hr1 & _ & Ha1);
    [rewrite length_fmap; lia|].
  assert (rs' = rs /\ m1' = m1) as [-> ->] by (split; congruence).
  unfold queue_of in Hq. apply fmap_Some in Hq as (x & Hx & Hqx).
  destruct (posts_do p fs _ rs _ x Hd Hrc Hx) as (x' & Hx' & Hq'). rewrite <- Hqx in Hq'. simpl in Hq'.
  destruct (reached_run _ (replicate (length fs) (pick h p buf)) m1 Hr1) as (rs2 & m2 & E2 & Hd2 & _);
    [by apply Forall_replicate|rewrite length_app, length_fmap, length_replicate; lia|].
  exists m2. rewrite E2. do 2 f_equal.
  pose proof (picks_do h p buf _ (mail_of m1) x' Hx' Hq') as Hp. rewrite length_fmap, Hd2 in Hp. apply Hp; [|done].
  rewrite <- Hq'. by apply (mo_box _ Ha1 p x' Hx').
Qed.

(** ** Fairness *)

(** Every message of the queue comes from [who], and anyone may send. *)
Definition flooded (who p : Z) (a : mail) : Prop :=
  exists x, boxes a !! p = Some x /\ x_policy x = ACCEPT_ANY /\ Forall (fun f => f_sender f = who) (x_queue x).

Lemma deliver_flooded h f to who p a :
  f_sender f = who -> flooded who p a -> flooded who p (mail_deliver h f to a).2.
Proof.
  intros Hf (x & Hx & Hpol & Hq). unfold mail_deliver. destruct (pid_is_live h to); cbn [negb]; [|by exists x].
  destruct (boxes a !! to) as [y|] eqn:Hy; [|by exists x].
  assert (Hset : forall z, (to = p -> x_policy z = ACCEPT_ANY /\ Forall (fun f => f_sender f = who) (x_queue z)) ->
                           flooded who p (set_box to z a)).
  { intros z Hz. unfold flooded, set_box. cbn [boxes]. destruct (decide (to = p)) as [->|Hne].
    - exists z. rewrite lookup_insert_eq. by destruct (Hz eq_refl).
    - exists x. by rewrite lookup_insert_ne. }
  assert (Hxy : to = p -> y = x) by (intros ->; congruence).
  destruct (admits h y _ _ to) as [[]|e]; [destruct (has_room _ _)| |by exists x]; apply Hset; intros ->;
    rewrite (Hxy eq_refl); split; try done. simpl. apply Forall_app. by repeat constructor.
Qed.

Lemma resolve_boxes h dest a : boxes (mail_resolve h dest a).2 = boxes a.
Proof.
  destruct dest as [q|n]; simpl; [by destruct (q <=? 0)|]. destruct (valid_name n); [|done]. simpl.
  destruct (names a !! n); [|done]. by destruct (pid_is_live h _).
Qed.

Lemma send_flooded h c who p a :
  (exists uid d nm nl mt tg fl mem n, c = CSend who uid d nm nl mt tg fl mem n) ->
  flooded who p a -> flooded who p (do_call h c a).2.
Proof.
  intros (uid & d & nm & nl & mt & tg & fl & mem & n & ->) Ha. cbn [do_call].
  destruct (_ <? n); [done|]. destruct (_ <? nl); [done|]. unfold mail_send.
  destruct (_ || _); [done|]. destruct (_ <? _)%nat; [done|].
  set (dest := if nl =? 0 then _ else _).
  assert (Hr : flooded who p (mail_resolve h dest a).2) by (unfold flooded; by rewrite resolve_boxes).
  destruct (mail_resolve h dest a) as [[to|e] a1]; [|done]. simpl in Hr.
  set (f := mkMessage _ _ _ _ _ _). pose proof (deliver_flooded h f to who p a1 eq_refl Hr) as Hd.
  by destruct (mail_deliver h f to a1).
Qed.

Lemma flood_do who p cs a :
  Forall (fun hc => exists uid d nm nl mt tg fl mem n, hc.2 = CSend who uid d nm nl mt tg fl mem n) cs ->
  flooded who p a -> flooded who p (do_all cs a).2.
Proof.
  intros Hcs. revert a. induction Hcs as [|[h c] cs Hc Hcs IH]; intros a Ha; [done|]. cbn [do_all].
  pose proof (send_flooded h c who p a Hc Ha) as H1. destruct (do_call h c a) as [r a1].
  specialize (IH a1 H1). by destruct (do_all cs a1).
Qed.

Lemma sent_by_forall who q : Forall (fun f => f_sender f = who) q -> sent_by who q = length q.
Proof. unfold sent_by. induction 1 as [|f q Hf Hq IH]; simpl; [done|]. rewrite Hf, Z.eqb_refl, IH. done. Qed.

Lemma sent_by_other who from q : from <> who -> Forall (fun f => f_sender f = who) q -> sent_by from q = 0%nat.
Proof.
  intros Hne. unfold sent_by. induction 1 as [|f q Hf Hq IH]; simpl; [done|]. rewrite IH.
  by replace (f_sender f =? from) with false by lia.
Qed.

Lemma flooded_room who from p a :
  mail_ok a -> flooded who p a -> from <> who ->
  exists x, boxes a !! p = Some x /\ x_policy x = ACCEPT_ANY /\ has_room from (x_queue x) = true /\ 0 < p.
Proof.
  intros Hok (x & Hx & Hpol & Hq) Hne. exists x. destruct (mo_box a Hok p x Hx) as [Hp Hbx].
  split; [done|]. split; [done|]. split; [|done]. pose proof (bo_share x Hbx who) as Hs.
  rewrite (sent_by_forall who) in Hs by done. unfold has_room. rewrite (sent_by_other who) by done.
  assert (MAX_PER_SENDER = 8) by done. assert (QUEUE_DEPTH = 16%nat) by done. lia.
Qed.

(** One process cannot lock the others out. However many messages [who] sends
    (to anyone, by pid or by name), an inbox that holds only messages of [who] still
    accepts a message of any other process. *)
Theorem msg_fair cs m who p floods rs m1 h f r m2 :
  reached cs m -> flooded who p (mail_of m) ->
  Forall (fun hc => exists uid d nm nl mt tg fl mem n, hc.2 = CSend who uid d nm nl mt tg fl mem n) floods ->
  Z.of_nat (length cs + length floods) < 18446744073709551615 -> 0 < who ->
  run_all floods m = Done (rs, m1) ->
  pid_is_live h p = true -> 0 < f_sender f -> f_sender f <> who -> f_type f <> 0 ->
  (length (f_data f) <= MAX_PAYLOAD)%nat ->
  run_call h (post p (h, f)).2 m1 = Done (r, m2) -> rc r = 0.
Proof.
  intros Hr Hfl Hcs Hl Hwho Hrun Hlive Hfrom Hne Hty Hlen Hcall.
  destruct (reached_run cs floods m Hr) as (rs' & m1' & E & Hd & Hr1 & _ & Ha1); [|done|].
  { eapply Forall_impl; [exact Hcs|]. intros [h' c]. naive_solver. }
  assert (m1' = m1) as -> by congruence.
  pose proof (flood_do who p floods _ Hcs Hfl) as Hfl1. rewrite Hd in Hfl1. simpl in Hfl1.
  destruct (flooded_room who (f_sender f) p _ Ha1 Hfl1 Hne) as (x & Hx & Hpol & Hroom & Hp).
  destruct (reached_call _ m1 h (post p (h, f)).2 Hr1) as (r' & m2' & E' & Hdo); [done|].
  assert (r' = r) as -> by congruence.
  rewrite post_valid in Hdo by done. unfold mail_deliver in Hdo. rewrite Hlive, Hx in Hdo. unfold admits in Hdo.
  rewrite Hpol in Hdo. cbn [negb stamped f_sender snd] in Hdo.
  change (ACCEPT_ANY =? ACCEPT_SAME_UID) with false in Hdo. change (ACCEPT_ANY =? ACCEPT_ALLOWLIST) with false in Hdo.
  rewrite Hroom in Hdo. by injection Hdo as <- _.
Qed.

(** ** Who may send *)

(** The policy of the inbox [x] of [to] lets the process [from] with [uid] in. *)
Definition permitted (h : Hal) (x : box) (from uid to : Z) : Prop :=
  (x_policy x = ACCEPT_SAME_UID -> uid = 0 \/ uid_of h to = Some uid) /\
  (x_policy x = ACCEPT_ALLOWLIST -> from ∈ x_allow x).

Lemma admits_permitted h x from uid to :
  match admits h x from uid to with
  | Ok true => permitted h x from uid to
  | Ok false => ~ permitted h x from uid to
  | Err e => e = ESRCH
  end.
Proof.
  unfold admits, permitted. destruct (x_policy x =? ACCEPT_SAME_UID) eqn:E1.
  - apply Z.eqb_eq in E1 as ->. destruct (uid_of h to) as [ru|]; [|done].
    destruct (uid =? ru) eqn:E2; simpl; [split; [right; f_equal; lia|done]|].
    destruct (uid =? 0) eqn:E3; [split; [left; lia|done]|]. intros [H _].
    destruct (H eq_refl) as [?|[= ?]]; lia.
  - destruct (x_policy x =? ACCEPT_ALLOWLIST) eqn:E2; [|split; intros E; rewrite E in *; done].
    destruct (bool_decide (from ∈ x_allow x)) eqn:E3.
    + apply bool_decide_eq_true in E3. split; [intros E; rewrite E in *; done|done].
    + apply bool_decide_eq_false in E3. intros [_ H]. apply E3, H. lia.
Qed.

Lemma mail_deliver_spec h f to a :
  match (mail_deliver h f to a).1 with
  | Ok _ => exists x, boxes a !! to = Some x /\ pid_is_live h to = true /\
      permitted h x (f_sender f) (f_uid f) to /\ (mail_deliver h f to a).2 = set_box to (append f x) a
  | Err e => 0 < e /\ forall p, x_queue <$> boxes (mail_deliver h f to a).2 !! p = x_queue <$> boxes a !! p
  end.
Proof.
  unfold mail_deliver. destruct (pid_is_live h to); cbn [negb]; [|by split].
  destruct (boxes a !! to) as [x|] eqn:Hx; [|by split].
  pose proof (admits_permitted h x (f_sender f) (f_uid f) to) as Hp.
  assert (Haway : forall p, x_queue <$> boxes (set_box to (turn_away x) a) !! p = x_queue <$> boxes a !! p).
  { intros p. cbn [set_box boxes]. destruct (decide (to = p)) as [->|];
      [by rewrite lookup_insert_eq, Hx|by rewrite lookup_insert_ne]. }
  destruct (admits h x _ _ to) as [[]|e]; [destruct (has_room _ _)| |]; simpl.
  - by exists x.
  - by split.
  - by split.
  - subst e. by split.
Qed.

(** Identity and policy. A send that succeeds put exactly one message, stamped with
    the kernel's pid and uid of the caller and the tick, at the end of the queue of the
    addressed (or named) live process, whose policy permits the caller; a send that fails,
    for whatever reason, leaves every queue as it was. *)
Theorem msg_send_policy cs m h from uid dest nm nlen mt tg flags mem k r m' :
  reached cs m -> 0 < from ->
  run_call h (CSend from uid dest nm nlen mt tg flags mem k) m = Done (r, m') ->
  if rc r =? 0 then
    exists to x, boxes (mail_of m) !! to = Some x /\ pid_is_live h to = true /\ permitted h x from uid to /\
      (if nlen =? 0 then to = dest else names (mail_of m) !! take (Z.to_nat nlen) nm = Some to) /\
      mail_of m' = set_box to (append (mkMessage from uid mt tg (ticks h) (take (Z.to_nat k) mem)) x) (mail_of m)
  else forall p, queue_of m' p = queue_of m p.
Proof.
  intros Hr Hf Hcall. unfold queue_of.
  destruct (reached_call cs m h (CSend from uid dest nm nlen mt tg flags mem k) Hr Hf) as (r' & m1 & E & Hdo).
  rewrite E in Hcall. injection Hcall as -> ->. revert Hdo. generalize (mail_of m) (mail_of m'). clear. intros a a'.
  cbn [do_call]. destruct (_ <? k); [by intros [= <- <-]|]. destruct (_ <? nlen); [by intros [= <- <-]|].
  unfold mail_send. destruct (_ || _); [by intros [= <- <-]|]. destruct (_ <? length _)%nat; [by intros [= <- <-]|].
  set (d := if nlen =? 0 then _ else _).
  assert (Hres : match mail_resolve h d a with
                 | (Ok to, a1) => a1 = a /\ if nlen =? 0 then to = dest else names a !! take (Z.to_nat nlen) nm = Some to
                 | (Err e, a1) => 0 < e /\ boxes a1 = boxes a
                 end).
  { subst d. destruct (nlen =? 0); simpl; [by destruct (dest <=? 0)|]. destruct (valid_name _); [|done]. simpl.
    destruct (names a !! _) as [q|] eqn:Hq; [|done]. by destruct (pid_is_live h q). }
  destruct (mail_resolve h d a) as [[to|e] a1]; destruct Hres as [Ha1 Hto].
  - subst a1. pose proof (mail_deliver_spec h (mkMessage from uid mt tg (ticks h) (take (Z.to_nat k) mem)) to a) as Hd.
    destruct (mail_deliver _ _ _ _) as [[[]|e] a1]; intros [= <- <-]; simpl in *.
    + destruct Hd as (x & ? & ? & ? & ?). by exists to, x.
    + destruct Hd as [He Hq]. by replace (- e =? 0) with false by lia.
  - intros [= <- <-]. simpl. rewrite Hto. by replace (- e =? 0) with false by lia.
Qed.

(** ** Nothing is truncated *)

(** The caller's buffer after a receive of [data] through its first [c] bytes. *)
Lemma received_bytes (data buf : list Z) c :
  (length data <= c)%nat -> (length data <= length buf)%nat ->
  (data ++ drop (length data) (take c buf)) ++ drop (length (data ++ drop (length data) (take c buf))) buf =
  data ++ drop (length data) buf.
Proof.
  intros Hc Hb. rewrite <- (assoc_L (++)), length_app, length_drop, length_take. f_equal.
  rewrite <- (take_drop c buf) at 4. rewrite drop_app_le by (rewrite length_take; lia). f_equal.
  replace (_ + _)%nat with (c `min` length buf)%nat by lia.
  destruct (decide (c <= length buf)%nat); [by rewrite Nat.min_l by done|by rewrite !drop_ge by lia].
Qed.

(** A receive whose buffer is too small consumes nothing: the mail is unchanged, the
    size needed is reported, and the same call with a buffer of at least that size gets the
    whole message of exactly that size. *)
Theorem msg_no_truncation cs m h p flags ms mt tg buf cap r m' :
  reached cs m -> run_call h (CRecv p flags ms mt tg buf cap) m = Done (r, m') -> rc r = - E2BIG ->
  mail_of m' = mail_of m /\
  exists n, words r !! 4%nat = Some (Z.of_nat n) /\ (n <= MAX_PAYLOAD)%nat /\
  forall buf' cap', (n <= length buf')%nat -> Z.of_nat n <= cap' ->
  exists r' m'' data, run_call h (CRecv p flags ms mt tg buf' cap') m = Done (r', m'') /\ rc r' = 0 /\
    words r' !! 4%nat = Some (Z.of_nat n) /\ length data = n /\ bytes r' = data ++ drop n buf'.
Proof.
  intros Hr Hcall Hrc. destruct (reached_ok cs m Hr) as (k & _ & Ha & _ & _).
  assert (Hcalls : forall b c, exists r m', run_call h (CRecv p flags ms mt tg b c) m = Done (r, m') /\
                     do_call h (CRecv p flags ms mt tg b c) (mail_of m) = (r, mail_of m'))
    by (intros b c; by apply (reached_call cs)).
  destruct (Hcalls buf cap) as (r0 & m0 & E & Hdo). rewrite E in Hcall. injection Hcall as -> ->.
  cbn [do_call] in Hdo. unfold mail_recv in Hdo, Hcalls. destruct (negb _) eqn:Hfl; [by injection Hdo as <- _|].
  destruct (boxes (mail_of m) !! p) as [x|] eqn:Hx; [|by injection Hdo as <- _].
  destruct (position _ (x_queue x)) as [i|] eqn:Hpos; [|by injection Hdo as <- _].
  destruct (x_queue x !! i) as [f|] eqn:Hf; [|by injection Hdo as <- _].
  destruct (_ <? length (f_data f))%nat; [|by destruct (Z.land flags RECV_PEEK =? 0); injection Hdo as <- _].
  apply pair_equal_spec in Hdo as [<- Hm']. split; [done|]. exists (length (f_data f)).
  destruct (mo_box _ Ha p x Hx) as [_ Hbx].
  assert (Hlf : (length (f_data f) <= MAX_PAYLOAD)%nat) by by apply (Forall_lookup_1 _ _ _ _ (bo_queue x Hbx) Hf).
  split; [done|]. split; [done|]. intros buf' cap' Hb Hc.
  destruct (Hcalls buf' cap') as (r' & m'' & E' & Hdo'). exists r', m'', (f_data f). split; [done|].
  cbn [do_call] in Hdo'. unfold mail_recv in Hdo'. rewrite Hfl, Hx, Hpos, Hf in Hdo'.
  replace (_ <? _)%nat with false in Hdo' by (rewrite length_take; lia).
  destruct (Z.land flags RECV_PEEK =? 0); apply pair_equal_spec in Hdo' as [<- _]; cbn [rc words bytes neg]; (split; [done|]; split; [done|]; split; [done|]);
    (apply received_bytes; lia).
Qed.

(** ** Closing an inbox *)

(** A process that closes its own inbox is also struck from the allowlists of all
    others, though it is still running: a receiver that had allowed it refuses its next
    message. *)
Theorem msg_close_revokes cs m p q x h f r r' m' :
  reached cs m -> Z.of_nat (length cs + 2) < 18446744073709551615 ->
  boxes (mail_of m) !! q = Some x -> x_policy x = ACCEPT_ALLOWLIST -> p ∈ x_allow x -> p <> q ->
  0 < p -> f_sender f = p -> f_type f <> 0 -> (length (f_data f) <= MAX_PAYLOAD)%nat ->
  pid_is_live h q = true ->
  run_all [(h, CClose p); post q (h, f)] m = Done ([r; r'], m') -> rc r = 0 -> rc r' = - EACCES.
Proof.
  intros Hr Hl Hx Hpol Hin Hne Hp Hf Hty Hlen Hlive Hrun Hrc.
  destruct (reached_run cs [(h, CClose p); post q (h, f)] m Hr) as (rs & m2 & E & Hdo & _ & Ha & _);
    [repeat constructor; simpl; by rewrite ?Hf|done|].
  assert (rs = [r; r']) as -> by congruence. destruct (mo_box _ Ha q x Hx) as [Hq _].
  set (c := (post q (h, f)).2). change (post q (h, f)) with (h, c) in Hdo. cbn [do_all] in Hdo.
  destruct (do_call h (CClose p) (mail_of m)) as [r1 a1] eqn:E1. unfold c in Hdo. rewrite post_valid in Hdo by done.
  apply pair_equal_spec in Hdo as [Hdo _]. injection Hdo as -> <-.
  cbn [do_call] in E1. unfold mail_close in E1. destruct (boxes (mail_of m) !! p); [|by injection E1 as <- _].
  apply pair_equal_spec in E1 as [_ <-]. unfold mail_deliver. rewrite Hlive.
  cbn [mail_exit boxes negb]. rewrite lookup_fmap, lookup_delete_ne, Hx by done.
  cbn [fmap option_fmap option_map]. unfold admits. cbn [forget x_policy x_allow stamped f_sender snd].
  rewrite Hpol, Hf, bool_decide_false by set_solver. done.
Qed.

(** * Messages: the properties at concrete runs *)

(** Processes 1 to 9 run, as users of their own number. *)
Definition table9 (t : Z) : Hal := mkHal (fun p => (1 <=? p) && (p <=? 9)) (fun p => Some p) t.

(** The state after [cs]. *)
Definition after (cs : list (Hal * call)) : Msg :=
  match run_all cs Msg_new with Done (_, m) => m | Panic => Msg_new end.

Lemma after_reached cs :
  Forall (fun hc => call_ok hc.2) cs -> Z.of_nat (length cs) < 18446744073709551615 ->
  reached cs (after cs) /\ mail_of (after cs) = (do_all cs no_mail).2.
Proof.
  intros Hc Hl. destruct msg_new_ok as [Hnew E].
  destruct (run_all_refines cs 0 Msg_new) as (rs & m & Hr & Hd & _);
    [done|done|rewrite E; apply no_mail_ok|lia|lia|].
  unfold after. rewrite Hr, <- E, Hd. split; [|done]. split; [done|]. split; [done|]. eauto.
Qed.

(** The run goes on from there, with the replies of the contract. *)
Lemma after_run cs cs' :
  Forall (fun hc => call_ok hc.2) cs -> Forall (fun hc => call_ok hc.2) cs' ->
  Z.of_nat (length cs + length cs') < 18446744073709551615 ->
  exists m', run_all cs' (after cs) = Done ((do_all cs' (do_all cs no_mail).2).1, m') /\
             mail_of m' = (do_all cs' (do_all cs no_mail).2).2 /\ reached (cs ++ cs') m'.
Proof.
  intros Hc Hc' Hl. destruct (after_reached cs Hc) as [Hr <-]; [lia|].
  destruct (reached_run cs cs' (after cs) Hr Hc' Hl) as (rs & m' & E & Hd & Hr' & _).
  exists m'. rewrite Hd. done.
Qed.

(** Process 5 opens an inbox for everyone. *)
Definition opened : list (Hal * call) := [(table9 0, COpen 5 ACCEPT_ANY 0)].
(** Process 5 opens an inbox for process 6 only, which opens one too. *)
Definition guarded : list (Hal * call) :=
  [(table9 0, COpen 5 ACCEPT_ALLOWLIST 0); (table9 0, CCtl 5 CTL_ALLOW 6); (table9 0, COpen 6 ACCEPT_ANY 0)].

Definition hello : message := mkMessage 6 6 1 7 0 [104; 105].
Definition again : message := mkMessage 7 7 2 8 0 [33].
Definition page : list Z := replicate MAX_PAYLOAD 0.

Lemma msg_refines_witness :
  exists m, run_all guarded Msg_new = Done ((do_all guarded no_mail).1, m) /\
            mail_of m = (do_all guarded no_mail).2.
Proof. apply (msg_refines guarded); [by repeat constructor|done]. Defined.

Lemma msg_fifo_witness :
  exists m1 m2, run_all (post 5 <$> [(table9 3, hello); (table9 4, again)]) (after opened) =
                  Done ([mkReply 0 [] []; mkReply 0 [] []], m1) /\
    run_all (replicate 2 (pick (table9 9) 5 page)) m1 =
    Done (all_seen page (stamped <$> [(table9 3, hello); (table9 4, again)]), m2).
Proof.
  destruct (after_reached opened) as [Hr E]; [by repeat constructor|done|].
  destruct (after_run opened (post 5 <$> [(table9 3, hello); (table9 4, again)])) as (m1 & Hrun & _ & _);
    [by repeat constructor|by repeat constructor|done|].
  assert (Hrun' : run_all (post 5 <$> [(table9 3, hello); (table9 4, again)]) (after opened) =
                  Done ([mkReply 0 [] []; mkReply 0 [] []], m1)) by (rewrite Hrun; f_equal).
  destruct (msg_fifo opened (after opened) 5 [(table9 3, hello); (table9 4, again)]
              [mkReply 0 [] []; mkReply 0 [] []] m1 (table9 9) page Hr)
    as [m2 H2]; [|by repeat constructor|done|exact Hrun'|by repeat constructor|done|].
  - unfold queue_of. rewrite E. vm_compute. reflexivity.
  - exists m1, m2. split; [exact Hrun'|exact H2].
Defined.

Lemma msg_fair_witness :
  exists m1 r m2, run_all (replicate 20 (post 5 (table9 3, hello))) (after opened) =
                    Done ((do_all (replicate 20 (post 5 (table9 3, hello))) (do_all opened no_mail).2).1, m1) /\
    run_call (table9 4) (post 5 (table9 4, again)).2 m1 = Done (r, m2) /\ rc r = 0.
Proof.
  destruct (after_reached opened) as [Hr E]; [by repeat constructor|done|].
  destruct (after_run opened (replicate 20 (post 5 (table9 3, hello)))) as (m1 & Hrun & _ & Hr1);
    [by repeat constructor|by apply Forall_replicate|done|].
  destruct (reached_call _ m1 (table9 4) (post 5 (table9 4, again)).2 Hr1) as (r & m2 & Hcall & _); [done|].
  exists m1, r, m2. split; [exact Hrun|]. split; [exact Hcall|].
  apply (msg_fair opened (after opened) 6 5 (replicate 20 (post 5 (table9 3, hello)))
           (do_all (replicate 20 (post 5 (table9 3, hello))) (do_all opened no_mail).2).1 m1 (table9 4) again r m2 Hr);
    [| |done|done|exact Hrun|done|done|done|done| |exact Hcall].
  - rewrite E. eexists. split; [vm_compute; reflexivity|]. split; [done|constructor].
  - apply Forall_replicate. simpl. do 9 eexists. reflexivity.
  - unfold again, MAX_PAYLOAD. simpl. lia.
Defined.

Lemma msg_send_policy_witness :
  exists r m', run_call (table9 3) (post 5 (table9 3, hello)).2 (after guarded) = Done (r, m') /\ rc r = 0 /\
    exists x, boxes (mail_of (after guarded)) !! 5 = Some x /\ permitted (table9 3) x 6 6 5.
Proof.
  destruct (after_reached guarded) as [Hr E]; [by repeat constructor|done|].
  destruct (reached_call _ (after guarded) (table9 3) (post 5 (table9 3, hello)).2 Hr) as (r & m' & Hcall & Hdo); [done|].
  exists r, m'. split; [exact Hcall|].
  pose proof (msg_send_policy guarded (after guarded) (table9 3) 6 6 5 [] 0 1 7 0 [104; 105] 2 r m' Hr
                eq_refl Hcall) as Hp.
  assert (Hrc : rc r = 0).
  { rewrite E in Hdo. apply (f_equal (fun ra => rc ra.1)) in Hdo. simpl fst in Hdo. rewrite <- Hdo. vm_compute. reflexivity. }
  rewrite Hrc in Hp. split; [exact Hrc|]. destruct Hp as (to & x & Hx & _ & Hperm & Hto & _). simpl in Hto. subst to.
  exists x. split; [exact Hx|exact Hperm].
Defined.

Lemma msg_no_truncation_witness :
  exists r' m'' data, length data = 2%nat /\
    run_call (table9 9) (CRecv 5 0 0 0 0 [0; 0; 0] 3) (after (opened ++ [post 5 (table9 3, hello)])) = Done (r', m'') /\
    bytes r' = data ++ [0].
Proof.
  set (cs := opened ++ [post 5 (table9 3, hello)]).
  destruct (after_reached cs) as [Hr E]; [by repeat constructor|done|].
  destruct (reached_call cs (after cs) (table9 9) (CRecv 5 0 0 0 0 [0] 1) Hr) as (r & m' & Hcall & Hdo); [done|].
  rewrite E in Hdo.
  assert (Hrc : rc r = - E2BIG).
  { apply (f_equal (fun ra => rc ra.1)) in Hdo. simpl fst in Hdo. rewrite <- Hdo. vm_compute. reflexivity. }
  destruct (msg_no_truncation cs (after cs) (table9 9) 5 0 0 0 0 [0] 1 r m' Hr Hcall Hrc) as (_ & n & Hn & _ & Hretry).
  assert (Hn2 : n = 2%nat).
  { assert (Hv : words (do_call (table9 9) (CRecv 5 0 0 0 0 [0] 1) (do_all cs no_mail).2).1 !! 4%nat = Some 2)
      by (vm_compute; reflexivity).
    rewrite Hdo in Hv. cbn [fst] in Hv. rewrite Hn in Hv. injection Hv as Hv. lia. }
  subst n. destruct (Hretry [0; 0; 0] 3) as (r' & m'' & data & Hcall' & _ & _ & Hlen & Hb); [simpl; lia|lia|].
  exists r', m'', data. split; [exact Hlen|]. split; [exact Hcall'|]. rewrite Hb. reflexivity.
Defined.

Lemma msg_close_revokes_witness :
  exists r r' m', run_all [(table9 3, CClose 6); post 5 (table9 3, hello)] (after guarded) = Done ([r; r'], m') /\
    rc r = 0 /\ rc r' = - EACCES.
Proof.
  destruct (after_reached guarded) as [Hr E]; [by repeat constructor|done|].
  destruct (after_run guarded [(table9 3, CClose 6); post 5 (table9 3, hello)]) as (m' & Hrun & _ & _);
    [by repeat constructor|by repeat constructor|done|].
  exists (mkReply 0 [] []), (mkReply (-13) [] []), m'. 
  assert (Hrun' : run_all [(table9 3, CClose 6); post 5 (table9 3, hello)] (after guarded) =
                  Done ([mkReply 0 [] []; mkReply (-13) [] []], m')) by (rewrite Hrun; f_equal).
  split; [exact Hrun'|]. split; [reflexivity|].
  apply (msg_close_revokes guarded (after guarded) 6 5
           (mkBox 2 {[6]} [] 0 0) (table9 3) hello (mkReply 0 [] []) (mkReply (-13) [] []) m' Hr);
    [done| |done| |done|done|done|done| |done|exact Hrun'|done].
  - rewrite E. vm_compute. reflexivity.
  - set_solver.
  - unfold hello, MAX_PAYLOAD. simpl. lia.
Defined.
