(* ===== verification/FwPkt.v ===== *)
(** * The firewall's view of a packet: [kernel/rust/firewall.rs], packets and rules

    Parsing of the transport header, and the match of one rule against one packet. *)

From S2P Require Import Prelude Bytes.
Local Open Scope Z_scope.

Definition MAX_RULES : nat := 32.
Definition MAX_CONNS : nat := 256.
Definition MAX_EXPECT : nat := 16.
Definition HALF_OPEN_MAX : nat := 64.
Definition TICK_HZ : Z := 100.
Definition MAX_CONFIG_TEXT : nat := 4096.
Definition MAX_LINE : nat := 200.

#[global] Arguments MAX_RULES : simpl never.
#[global] Arguments MAX_CONNS : simpl never.
#[global] Arguments MAX_EXPECT : simpl never.
#[global] Arguments HALF_OPEN_MAX : simpl never.
#[global] Arguments MAX_CONFIG_TEXT : simpl never.
#[global] Arguments MAX_LINE : simpl never.

Definition EPERM : Z := 1.
Definition ENOENT : Z := 2.
Definition EINVAL : Z := 22.
Definition ENOSPC : Z := 28.

Definition PROTO_ICMP : Z := 1.
Definition PROTO_TCP : Z := 6.
Definition PROTO_UDP : Z := 17.

Definition DIR_IN : Z := 0.
Definition DIR_OUT : Z := 1.
Definition DIR_ANY : Z := 2.

Definition ST_NEW : Z := 1.
Definition ST_ESTABLISHED : Z := 2.
Definition ST_RELATED : Z := 4.
Definition ST_INVALID : Z := 8.

Definition TCP_FIN : Z := 0x01.
Definition TCP_SYN : Z := 0x02.
Definition TCP_RST : Z := 0x04.
Definition TCP_ACK : Z := 0x10.

Definition BAD_NONE : Z := 0.
Definition BAD_MALFORMED : Z := 1.
Definition BAD_UNSUPPORTED : Z := 2.
Definition BAD_FRAGMENT : Z := 3.

Record Inner : Type := mkInner {
  in_proto : Z; in_src : Z; in_dst : Z; in_sport : Z; in_dport : Z;
}.

Record Pkt : Type := mkPkt {
  p_dir : Z; p_proto : Z; p_src : Z; p_dst : Z; p_sport : Z; p_dport : Z; p_flags : Z;
  p_icmp_type : Z; p_icmp_code : Z; p_id : Z; p_len : Z; p_bad : Z;
  p_inner : option Inner;
}.

Definition blank : Pkt := mkPkt DIR_IN 0 0 0 0 0 0 0 0 0 0 BAD_NONE None.

Definition be16 (b : list Z) (i : nat) : outcome Z :=
  x ← index b i;
  y ← index b (i + 1);
  Done (Z.lor (wrap16 (Z.shiftl x 8)) y).

Definition be32 (b : list Z) (i : nat) : outcome Z :=
  w ← index b i;
  x ← index b (i + 1);
  y ← index b (i + 2);
  z ← index b (i + 3);
  Done (Z.lor (Z.lor (Z.lor (wrap32 (Z.shiftl w 24)) (Z.shiftl x 16)) (Z.shiftl y 8)) z).

Definition is_icmp_error (t : Z) : bool :=
  (t =? 3) || (t =? 4) || (t =? 5) || (t =? 11) || (t =? 12).

(** The packet as far as every case knows it. *)
Definition head (dir src dst proto : Z) (d : list Z) : Pkt :=
  mkPkt dir proto src dst 0 0 0 0 0 0 (wrap16 (Z.min (Z.of_nat (length d)) 0xFFFF)) BAD_NONE None.

Definition set_bad (b : Z) (p : Pkt) : Pkt :=
  mkPkt (p_dir p) (p_proto p) (p_src p) (p_dst p) (p_sport p) (p_dport p) (p_flags p) (p_icmp_type p)
        (p_icmp_code p) (p_id p) (p_len p) b (p_inner p).
Definition set_ports (s d f : Z) (p : Pkt) : Pkt :=
  mkPkt (p_dir p) (p_proto p) (p_src p) (p_dst p) s d f (p_icmp_type p)
        (p_icmp_code p) (p_id p) (p_len p) (p_bad p) (p_inner p).
Definition set_icmp (t c : Z) (p : Pkt) : Pkt :=
  mkPkt (p_dir p) (p_proto p) (p_src p) (p_dst p) (p_sport p) (p_dport p) (p_flags p) t
        c (p_id p) (p_len p) (p_bad p) (p_inner p).
Definition set_id (i : Z) (p : Pkt) : Pkt :=
  mkPkt (p_dir p) (p_proto p) (p_src p) (p_dst p) (p_sport p) (p_dport p) (p_flags p) (p_icmp_type p)
        (p_icmp_code p) i (p_len p) (p_bad p) (p_inner p).
Definition set_inner (i : option Inner) (p : Pkt) : Pkt :=
  mkPkt (p_dir p) (p_proto p) (p_src p) (p_dst p) (p_sport p) (p_dport p) (p_flags p) (p_icmp_type p)
        (p_icmp_code p) (p_id p) (p_len p) (p_bad p) i.

Definition parse_tcp (d : list Z) (p : Pkt) : outcome Pkt :=
  if (length d <? 20)%nat then Done (set_bad BAD_MALFORMED p)
  else
    b12 ← index d 12;
    let doff := (Z.to_nat (Z.shiftr b12 4) * 4)%nat in
    if (doff <? 20)%nat || (length d <? doff)%nat then Done (set_bad BAD_MALFORMED p)
    else
      sport ← be16 d 0;
      dport ← be16 d 2;
      b13 ← index d 13;
      Done (set_ports sport dport (Z.land b13 0x3F) p).

Definition parse_udp (d : list Z) (p : Pkt) : outcome Pkt :=
  if (length d <? 8)%nat then Done (set_bad BAD_MALFORMED p)
  else
    l ← be16 d 4;
    let ulen := Z.to_nat l in
    if (ulen <? 8)%nat || (length d <? ulen)%nat then Done (set_bad BAD_MALFORMED p)
    else
      sport ← be16 d 0;
      dport ← be16 d 2;
      Done (set_ports sport dport (p_flags p) p).

(** The packet an ICMP error quotes, starting at its IP header [ip]. *)
Definition parse_inner (ip : list Z) (p : Pkt) : outcome Pkt :=
  if (length ip <? 20)%nat then Done (set_bad BAD_MALFORMED p)
  else
    v ← index ip 0;
    if negb (Z.shiftr v 4 =? 4) then Done (set_bad BAD_MALFORMED p)
    else
      let ihl := (Z.to_nat (Z.land v 0x0F) * 4)%nat in
      if (ihl <? 20)%nat || (length ip <? ihl + 4)%nat then Done (set_bad BAD_MALFORMED p)
      else
        iproto ← index ip 9;
        isrc ← be32 ip 12;
        idst ← be32 ip 16;
        if (iproto =? PROTO_TCP) || (iproto =? PROTO_UDP) then
          sport ← be16 ip ihl;
          dport ← be16 ip (ihl + 2);
          Done (set_inner (Some (mkInner iproto isrc idst sport dport)) p)
        else if iproto =? PROTO_ICMP then
          if (ihl + 8 <=? length ip)%nat then
            t ← index ip ihl;
            if (t =? 8) || (t =? 0) then
              id ← be16 ip (ihl + 4);
              Done (set_inner (Some (mkInner iproto isrc idst id id)) p)
            else Done p
          else Done p
        else Done p.

Definition parse_icmp (d : list Z) (p : Pkt) : outcome Pkt :=
  if (length d <? 8)%nat then Done (set_bad BAD_MALFORMED p)
  else
    t ← index d 0;
    c ← index d 1;
    let p := set_icmp t c p in
    if (t =? 0) || (t =? 8) then
      id ← be16 d 4;
      Done (set_id id p)
    else if is_icmp_error t then parse_inner (drop 8 d) p
    else Done p.

Definition parse_packet (dir src dst proto : Z) (frag : bool) (d : list Z) : outcome Pkt :=
  let p := head dir src dst proto d in
  if frag then Done (set_bad BAD_FRAGMENT p)
  else if proto =? PROTO_TCP then parse_tcp d p
  else if proto =? PROTO_UDP then parse_udp d p
  else if proto =? PROTO_ICMP then parse_icmp d p
  else Done (set_bad BAD_UNSUPPORTED p).

(** ** Rules *)

Record Rule : Type := mkRule {
  r_dir : Z; r_proto : Z; r_accept : bool; r_log : bool;
  r_src_ip : Z; r_src_mask : Z; r_dst_ip : Z; r_dst_mask : Z;
  r_sp_set : bool; r_sp_lo : Z; r_sp_hi : Z;
  r_dp_set : bool; r_dp_lo : Z; r_dp_hi : Z;
  r_states : Z; r_icmp_set : bool; r_icmp_type : Z;
}.

Definition Rule_EMPTY : Rule :=
  mkRule DIR_IN 0 false false 0 0 0 0 false 0 0 false 0 0 0 false 0.

Definition matches (r : Rule) (p : Pkt) (state : Z) : bool :=
  let has_ports := (p_proto p =? PROTO_TCP) || (p_proto p =? PROTO_UDP) in
  if negb (r_dir r =? DIR_ANY) && negb (r_dir r =? p_dir p) then false
  else if negb (r_proto r =? 0) && negb (r_proto r =? p_proto p) then false
  else if negb (Z.land (p_src p) (r_src_mask r) =? r_src_ip r)
          || negb (Z.land (p_dst p) (r_dst_mask r) =? r_dst_ip r) then false
  else if r_sp_set r && (negb has_ports || (p_sport p <? r_sp_lo r) || (r_sp_hi r <? p_sport p)) then false
  else if r_dp_set r && (negb has_ports || (p_dport p <? r_dp_lo r) || (r_dp_hi r <? p_dport p)) then false
  else if negb (r_states r =? 0) && (Z.land (r_states r) state =? 0) then false
  else if r_icmp_set r && (negb (p_proto p =? PROTO_ICMP) || negb (p_icmp_type p =? r_icmp_type r)) then false
  else true.
