(* ===== verification/FwConf.v ===== *)
(** * The firewall's configuration: [kernel/rust/firewall.rs], the parser *)

From S2P Require Import Prelude Bytes FwPkt.
Local Open Scope Z_scope.

Inductive ParseError : Type :=
| TooLarge
| BadByte
| LineTooLong (l : Z)
| Syntax (l : Z)
| BadAddress (l : Z)
| BadPort (l : Z)
| BadState (l : Z)
| BadCombination (l : Z)
| TooManyRules (l : Z).

(** ** Words and numbers *)

Definition is_ws (b : Z) : bool := (b =? chr " ") || (b =? 9).

(** The token and the position after it. *)
Definition next_token (line : list Z) (pos : nat) : option (list Z) * nat :=
  let pos := skip_while is_ws (length line) line pos in
  if (length line <=? pos)%nat then (None, pos)
  else
    let stop := skip_while (fun b => negb (is_ws b)) (length line) line pos in
    (Some (take (stop - pos) (drop pos line)), stop).

Fixpoint dec_loop (s : list Z) (max v : Z) : option Z :=
  match s with
  | [] => Some v
  | b :: s' =>
      if negb (is_ascii_digit b) then None
      else
        let v := wrap64 (wrap64 (v * 10) + (b - 48)) in
        if max <? v then None else dec_loop s' max v
  end.

Definition parse_u32_dec (s : list Z) (max : Z) : option Z :=
  if (length s =? 0)%nat || (10 <? length s)%nat then None
  else wrap32 <$> dec_loop s max 0.

Fixpoint ip_loop (pieces : list (list Z)) (parts : nat) (ip : Z) : option (nat * Z) :=
  match pieces with
  | [] => Some (parts, ip)
  | part :: pieces' =>
      let parts := S parts in
      if (4 <? parts)%nat then None
      else
        v ← parse_u32_dec part 255;
        ip_loop pieces' parts (Z.lor (wrap32 (Z.shiftl ip 8)) v)
  end.

Definition parse_ip (s : list Z) : option Z :=
  '(parts, ip) ← ip_loop (split_on (fun b => b =? chr ".") s) 0 0;
  if (parts =? 4)%nat then Some ip else None.

(** [u32::MAX << (32 - bits)], or 0 for no bits. *)
Definition mask_of (bits : Z) : Z := if bits =? 0 then 0 else wrap32 (Z.shiftl 0xFFFFFFFF (32 - bits)).

Definition parse_cidr (s : list Z) : option (Z * Z) :=
  if bool_decide (s = str "any") then Some (0, 0)
  else
    '(ip_s, bits) ← match position (fun b => b =? chr "/") s with
                    | None => Some (s, 32)
                    | Some i => bits ← parse_u32_dec (drop (S i) s) 32; Some (take i s, bits)
                    end;
    ip ← parse_ip ip_s;
    Some (Z.land ip (mask_of bits), mask_of bits).

Definition parse_ports (s : list Z) : option (bool * Z * Z) :=
  if bool_decide (s = str "any") then Some (false, 0, 0)
  else
    match position (fun b => b =? chr "-") s with
    | None => v ← parse_u32_dec s 65535; Some (true, wrap16 v, wrap16 v)
    | Some i =>
        lo ← parse_u32_dec (take i s) 65535;
        hi ← parse_u32_dec (drop (S i) s) 65535;
        if wrap16 lo <=? wrap16 hi then Some (true, wrap16 lo, wrap16 hi) else None
    end.

Fixpoint states_loop (parts : list (list Z)) (m : Z) : option Z :=
  match parts with
  | [] => Some m
  | part :: parts' =>
      if bool_decide (part = str "new") then states_loop parts' (Z.lor m ST_NEW)
      else if bool_decide (part = str "established") then states_loop parts' (Z.lor m ST_ESTABLISHED)
      else if bool_decide (part = str "related") then states_loop parts' (Z.lor m ST_RELATED)
      else None
  end.

Definition parse_states (s : list Z) : option Z :=
  m ← states_loop (split_on (fun b => b =? chr ",") s) 0;
  if m =? 0 then None else Some m.

(** ** A rule *)

(** Which options a rule has given so far. *)
Record Seen : Type := mkSeen {
  seen_proto : bool; seen_from : bool; seen_to : bool; seen_sp : bool; seen_dp : bool;
  seen_state : bool; seen_icmp : bool;
}.

Definition unseen : Seen := mkSeen false false false false false false false.

Definition set_log (r : Rule) : Rule :=
  mkRule (r_dir r) (r_proto r) (r_accept r) true (r_src_ip r) (r_src_mask r) (r_dst_ip r) (r_dst_mask r)
         (r_sp_set r) (r_sp_lo r) (r_sp_hi r) (r_dp_set r) (r_dp_lo r) (r_dp_hi r) (r_states r)
         (r_icmp_set r) (r_icmp_type r).
Definition set_proto (p : Z) (r : Rule) : Rule :=
  mkRule (r_dir r) p (r_accept r) (r_log r) (r_src_ip r) (r_src_mask r) (r_dst_ip r) (r_dst_mask r)
         (r_sp_set r) (r_sp_lo r) (r_sp_hi r) (r_dp_set r) (r_dp_lo r) (r_dp_hi r) (r_states r)
         (r_icmp_set r) (r_icmp_type r).
Definition set_src (ip m : Z) (r : Rule) : Rule :=
  mkRule (r_dir r) (r_proto r) (r_accept r) (r_log r) ip m (r_dst_ip r) (r_dst_mask r)
         (r_sp_set r) (r_sp_lo r) (r_sp_hi r) (r_dp_set r) (r_dp_lo r) (r_dp_hi r) (r_states r)
         (r_icmp_set r) (r_icmp_type r).
Definition set_dst (ip m : Z) (r : Rule) : Rule :=
  mkRule (r_dir r) (r_proto r) (r_accept r) (r_log r) (r_src_ip r) (r_src_mask r) ip m
         (r_sp_set r) (r_sp_lo r) (r_sp_hi r) (r_dp_set r) (r_dp_lo r) (r_dp_hi r) (r_states r)
         (r_icmp_set r) (r_icmp_type r).
Definition set_sp (s : bool) (lo hi : Z) (r : Rule) : Rule :=
  mkRule (r_dir r) (r_proto r) (r_accept r) (r_log r) (r_src_ip r) (r_src_mask r) (r_dst_ip r) (r_dst_mask r)
         s lo hi (r_dp_set r) (r_dp_lo r) (r_dp_hi r) (r_states r) (r_icmp_set r) (r_icmp_type r).
Definition set_dp (s : bool) (lo hi : Z) (r : Rule) : Rule :=
  mkRule (r_dir r) (r_proto r) (r_accept r) (r_log r) (r_src_ip r) (r_src_mask r) (r_dst_ip r) (r_dst_mask r)
         (r_sp_set r) (r_sp_lo r) (r_sp_hi r) s lo hi (r_states r) (r_icmp_set r) (r_icmp_type r).
Definition set_states (st : Z) (r : Rule) : Rule :=
  mkRule (r_dir r) (r_proto r) (r_accept r) (r_log r) (r_src_ip r) (r_src_mask r) (r_dst_ip r) (r_dst_mask r)
         (r_sp_set r) (r_sp_lo r) (r_sp_hi r) (r_dp_set r) (r_dp_lo r) (r_dp_hi r) st
         (r_icmp_set r) (r_icmp_type r).
Definition set_icmp_type (t : Z) (r : Rule) : Rule :=
  mkRule (r_dir r) (r_proto r) (r_accept r) (r_log r) (r_src_ip r) (r_src_mask r) (r_dst_ip r) (r_dst_mask r)
         (r_sp_set r) (r_sp_lo r) (r_sp_hi r) (r_dp_set r) (r_dp_lo r) (r_dp_hi r) (r_states r) true t.

Definition proto_word (ln : Z) (val : list Z) : comp ParseError Z :=
  if bool_decide (val = str "tcp") then Ret PROTO_TCP
  else if bool_decide (val = str "udp") then Ret PROTO_UDP
  else if bool_decide (val = str "icmp") then Ret PROTO_ICMP
  else if bool_decide (val = str "any") then Ret 0
  else Throw (Syntax ln).

(** One option of a rule, [key val]. *)
Definition rule_option (ln : Z) (key val : list Z) (r : Rule) (s : Seen) : comp ParseError (Rule * Seen) :=
  if bool_decide (key = str "proto") && negb (seen_proto s) then
    p ← proto_word ln val;
    Ret (set_proto p r, mkSeen true (seen_from s) (seen_to s) (seen_sp s) (seen_dp s) (seen_state s) (seen_icmp s))
  else if bool_decide (key = str "from") && negb (seen_from s) then
    '(ip, m) ← ok_or (parse_cidr val) (BadAddress ln);
    Ret (set_src ip m r, mkSeen (seen_proto s) true (seen_to s) (seen_sp s) (seen_dp s) (seen_state s) (seen_icmp s))
  else if bool_decide (key = str "to") && negb (seen_to s) then
    '(ip, m) ← ok_or (parse_cidr val) (BadAddress ln);
    Ret (set_dst ip m r, mkSeen (seen_proto s) (seen_from s) true (seen_sp s) (seen_dp s) (seen_state s) (seen_icmp s))
  else if bool_decide (key = str "sport") && negb (seen_sp s) then
    '(set, lo, hi) ← ok_or (parse_ports val) (BadPort ln);
    Ret (set_sp set lo hi r, mkSeen (seen_proto s) (seen_from s) (seen_to s) true (seen_dp s) (seen_state s) (seen_icmp s))
  else if bool_decide (key = str "dport") && negb (seen_dp s) then
    '(set, lo, hi) ← ok_or (parse_ports val) (BadPort ln);
    Ret (set_dp set lo hi r, mkSeen (seen_proto s) (seen_from s) (seen_to s) (seen_sp s) true (seen_state s) (seen_icmp s))
  else if bool_decide (key = str "state") && negb (seen_state s) then
    st ← ok_or (parse_states val) (BadState ln);
    Ret (set_states st r, mkSeen (seen_proto s) (seen_from s) (seen_to s) (seen_sp s) (seen_dp s) true (seen_icmp s))
  else if bool_decide (key = str "icmp-type") && negb (seen_icmp s) then
    t ← ok_or (parse_u32_dec val 255) (Syntax ln);
    Ret (set_icmp_type (wrap8 t) r, mkSeen (seen_proto s) (seen_from s) (seen_to s) (seen_sp s) (seen_dp s) (seen_state s) true)
  else Throw (Syntax ln).

(** The loop over the options; [fuel] bounds the number of words. *)
Fixpoint rule_loop (fuel : nat) (ln : Z) (line : list Z) (pos : nat) (r : Rule) (s : Seen) :
    comp ParseError Rule :=
  match fuel with
  | O => Crash
  | S fuel' =>
      match next_token line pos with
      | (None, _) => Ret r
      | (Some key, pos) =>
          if bool_decide (key = str "log") then
            if r_log r then Throw (Syntax ln) else rule_loop fuel' ln line pos (set_log r) s
          else
            let '(val, pos) := next_token line pos in
            val ← ok_or val (Syntax ln);
            '(r, s) ← rule_option ln key val r s;
            rule_loop fuel' ln line pos r s
      end
  end.

Definition action_word (ln : Z) (w : list Z) : comp ParseError bool :=
  if bool_decide (w = str "accept") then Ret true
  else if bool_decide (w = str "drop") then Ret false
  else Throw (Syntax ln).

Definition dir_word (ln : Z) (w : list Z) : comp ParseError Z :=
  if bool_decide (w = str "in") then Ret DIR_IN
  else if bool_decide (w = str "out") then Ret DIR_OUT
  else if bool_decide (w = str "any") then Ret DIR_ANY
  else Throw (Syntax ln).

(** Ports need TCP or UDP, an ICMP type needs ICMP. *)
Definition combination (ln : Z) (r : Rule) : comp ParseError Rule :=
  if (r_sp_set r || r_dp_set r) && negb (r_proto r =? PROTO_TCP) && negb (r_proto r =? PROTO_UDP)
  then Throw (BadCombination ln)
  else if r_icmp_set r && negb (r_proto r =? PROTO_ICMP) then Throw (BadCombination ln)
  else Ret r.

Definition parse_rule_tokens (line : list Z) (pos : nat) (ln : Z) : comp ParseError Rule :=
  let '(w, pos) := next_token line pos in
  w ← ok_or w (Syntax ln);
  accept ← action_word ln w;
  let '(w, pos) := next_token line pos in
  w ← ok_or w (Syntax ln);
  dir ← dir_word ln w;
  r ← rule_loop (S (length line)) ln line pos
        (mkRule dir 0 accept false 0 0 0 0 false 0 0 false 0 0 0 false 0) unseen;
  combination ln r.

Definition parse_rule (text : list Z) : comp ParseError Rule :=
  match next_token text 0 with
  | (Some w, pos) => if bool_decide (w = str "rule") then parse_rule_tokens text pos 1 else Throw (Syntax 1)
  | (None, _) => Throw (Syntax 1)
  end.

(** ** A configuration *)

Record Config : Type := mkConfig {
  c_rules : list Rule;
  c_n : nat;
  c_policy_in : bool;
  c_policy_out : bool;
}.

Definition NL : Z := 10.
Definition BASELINE : list Z :=
  str "policy in drop" ++ [NL] ++ str "policy out accept" ++ [NL]
  ++ str "rule accept in state established,related" ++ [NL].

Definition strip_cr (raw : list Z) : list Z :=
  match split_last raw with
  | Some (b, rest) => if b =? 13 then rest else raw
  | None => raw
  end.

Definition strip_comment (line : list Z) : list Z :=
  match position (fun b => b =? chr "#") line with
  | Some i => take i line
  | None => line
  end.

(** [policy <in|out> <accept|drop>], with [policy] already consumed. *)
Definition parse_policy (ln : Z) (line : list Z) (pos : nat) (c : Config) (seen : bool * bool) :
    comp ParseError (Config * (bool * bool)) :=
  let '(dir, pos) := next_token line pos in
  dir ← ok_or dir (Syntax ln);
  let '(act, pos) := next_token line pos in
  act ← ok_or act (Syntax ln);
  accept ← action_word ln act;
  match next_token line pos with
  | (Some _, _) => Throw (Syntax ln)
  | (None, _) =>
      if bool_decide (dir = str "in") && negb seen.1 then
        Ret (mkConfig (c_rules c) (c_n c) accept (c_policy_out c), (true, seen.2))
      else if bool_decide (dir = str "out") && negb seen.2 then
        Ret (mkConfig (c_rules c) (c_n c) (c_policy_in c) accept, (seen.1, true))
      else Throw (Syntax ln)
  end.

Definition parse_line (ln : Z) (raw : list Z) (c : Config) (seen : bool * bool) :
    comp ParseError (Config * (bool * bool)) :=
  let line := strip_cr raw in
  if (MAX_LINE <? length line)%nat then Throw (LineTooLong ln)
  else
    let line := strip_comment line in
    match next_token line 0 with
    | (None, _) => Ret (c, seen)
    | (Some word, pos) =>
        if bool_decide (word = str "policy") then parse_policy ln line pos c seen
        else if bool_decide (word = str "rule") then
          if (MAX_RULES <=? c_n c)%nat then Throw (TooManyRules ln)
          else
            r ← parse_rule_tokens line pos ln;
            rules ← lift (store (c_rules c) (c_n c) r);
            Ret (mkConfig rules (S (c_n c)) (c_policy_in c) (c_policy_out c), seen)
        else Throw (Syntax ln)
    end.

Fixpoint parse_lines (raws : list (list Z)) (ln : Z) (c : Config) (seen : bool * bool) : comp ParseError Config :=
  match raws with
  | [] => Ret c
  | raw :: raws' =>
      let ln := Z.min 65535 (ln + 1) in
      '(c, seen) ← parse_line ln raw c seen;
      parse_lines raws' ln c seen
  end.

Definition text_byte (b : Z) : bool :=
  (b =? 10) || (b =? 13) || (b =? 9) || ((0x20 <=? b) && (b <? 0x7f)).

Definition parse_config (text : list Z) : comp ParseError Config :=
  if (MAX_CONFIG_TEXT <? length text)%nat then Throw TooLarge
  else if negb (forallb text_byte text) then Throw BadByte
  else parse_lines (split_on (fun b => b =? 10) text) 0
         (mkConfig (replicate MAX_RULES Rule_EMPTY) 0 false true) (false, false).
