(* ===== verification/Fw.v ===== *)
(** * The stateful firewall: [kernel/rust/firewall.rs], flows, filter and administration *)

From S2P Require Import Prelude Bytes FwPkt FwConf.
Local Open Scope Z_scope.
Local Open Scope machine_scope.

Definition R_RULE : Z := 1.
Definition R_POLICY : Z := 2.
Definition R_INVALID : Z := 3.
Definition R_FRAGMENT : Z := 4.
Definition R_UNSUPPORTED : Z := 5.
Definition R_MALFORMED : Z := 6.
Definition R_TABLE_FULL : Z := 7.
Definition R_HALF_OPEN : Z := 8.
Definition R_DISABLED : Z := 9.

Definition INV_NONE : Z := 0.
Definition INV_FLAGS : Z := 1.
Definition INV_NO_CONN : Z := 2.
Definition INV_STATE : Z := 3.
Definition INV_PORT0 : Z := 4.
Definition INV_ICMP : Z := 5.
Definition INV_RELATED : Z := 6.

Definition TCP_SYN_SENT : Z := 1.
Definition TCP_SYN_RECV : Z := 2.
Definition TCP_ESTABLISHED : Z := 3.
Definition TCP_FIN_WAIT : Z := 4.
Definition TCP_LAST_ACK : Z := 5.
Definition TCP_TIME_WAIT : Z := 6.
Definition TCP_CLOSE : Z := 7.
Definition UDP_UNREPLIED : Z := 1.
Definition UDP_REPLIED : Z := 2.
Definition ICMP_ECHO : Z := 1.

Definition TFTP_PORT : Z := 69.

Definition T_SYN : Z := 60 * TICK_HZ.
Definition T_ESTABLISHED : Z := 3600 * TICK_HZ.
Definition T_FIN_WAIT : Z := 120 * TICK_HZ.
Definition T_LAST_ACK : Z := 30 * TICK_HZ.
Definition T_TIME_WAIT : Z := 120 * TICK_HZ.
Definition T_CLOSE : Z := 10 * TICK_HZ.
Definition T_UDP_UNREPLIED : Z := 30 * TICK_HZ.
Definition T_UDP_REPLIED : Z := 180 * TICK_HZ.
Definition T_ICMP : Z := 30 * TICK_HZ.
Definition T_EXPECT : Z := 30 * TICK_HZ.

(** ** Flows *)

Record Conn : Type := mkConn {
  used : bool;
  proto : Z; orig_dir : Z; state : Z; fin_from : Z;
  replied : bool;
  pending : Z;
  a_ip : Z; b_ip : Z; a_port : Z; b_port : Z;
  expires : Z; created : Z;
  pkts : Z * Z; bytes : Z * Z;
}.

Definition Conn_EMPTY : Conn := mkConn false 0 0 0 0 false 0 0 0 0 0 0 0 (0, 0) (0, 0).

Record Expect : Type := mkExpect {
  e_used : bool;
  e_remote_ip : Z; e_local_ip : Z; e_local_port : Z; e_expires : Z;
}.

Definition Expect_EMPTY : Expect := mkExpect false 0 0 0 0.

Record Key : Type := mkKey {
  k_proto : Z; k_src : Z; k_sport : Z; k_dst : Z; k_dport : Z;
}.

Definition key_of (p : Pkt) : Key :=
  if p_proto p =? PROTO_ICMP then mkKey (p_proto p) (p_src p) (p_id p) (p_dst p) (p_id p)
  else mkKey (p_proto p) (p_src p) (p_sport p) (p_dst p) (p_dport p).

Definition side_of (c : Conn) (k : Key) : option Z :=
  if negb (proto c =? k_proto k) then None
  else if (a_ip c =? k_src k) && (a_port c =? k_sport k) && (b_ip c =? k_dst k) && (b_port c =? k_dport k)
  then Some 0
  else if (b_ip c =? k_src k) && (b_port c =? k_sport k) && (a_ip c =? k_dst k) && (a_port c =? k_dport k)
  then Some 1
  else None.

(** [(now.wrapping_sub(expires) as i32) >= 0]. *)
Definition expired (exp now : Z) : bool := now -₃₂ exp <? 2147483648.

Inductive Fc : Type := Syn | SynAck | Ack | FinAck | Rst.

#[global] Instance Fc_eq_dec : EqDecision Fc.
Proof. solve_decision. Defined.

Definition tcp_class (f : Z) : option Fc :=
  let f := Z.land f 0x3F in
  if f =? TCP_SYN then Some Syn
  else if f =? Z.lor TCP_SYN TCP_ACK then Some SynAck
  else if (Z.land f (Z.lor (Z.lor TCP_SYN TCP_FIN) TCP_RST) =? 0) && negb (Z.land f TCP_ACK =? 0) then Some Ack
  else if (Z.land f (Z.lor TCP_SYN TCP_RST) =? 0) && negb (Z.land f TCP_FIN =? 0) && negb (Z.land f TCP_ACK =? 0)
  then Some FinAck
  else if (Z.land f (Z.lor TCP_SYN TCP_FIN) =? 0) && negb (Z.land f TCP_RST =? 0) then Some Rst
  else None.

(** The next state and the side that sent the first FIN. *)
Definition tcp_next (st side : Z) (fc : Fc) (ff : Z) : option (Z * Z) :=
  let s n := Some (n, ff) in
  if st =? TCP_SYN_SENT then
    match fc with
    | Syn => if side =? 0 then s TCP_SYN_SENT else if side =? 1 then s TCP_SYN_RECV else None
    | SynAck => if side =? 1 then s TCP_SYN_RECV else None
    | Rst => s TCP_CLOSE
    | _ => None
    end
  else if st =? TCP_SYN_RECV then
    match fc with
    | SynAck => if (side =? 1) || (side =? 0) then s TCP_SYN_RECV else None
    | Syn => if side =? 0 then s TCP_SYN_RECV else None
    | Ack => if (side =? 0) || (side =? 1) then s TCP_ESTABLISHED else None
    | FinAck => Some (TCP_FIN_WAIT, side)
    | Rst => s TCP_CLOSE
    end
  else if st =? TCP_ESTABLISHED then
    match fc with
    | Ack => s TCP_ESTABLISHED
    | SynAck => if side =? 1 then s TCP_ESTABLISHED else None
    | FinAck => Some (TCP_FIN_WAIT, side)
    | Rst => s TCP_CLOSE
    | Syn => None
    end
  else if st =? TCP_FIN_WAIT then
    match fc with
    | Ack => s TCP_FIN_WAIT
    | FinAck => if side =? ff then s TCP_FIN_WAIT else s TCP_LAST_ACK
    | Rst => s TCP_CLOSE
    | _ => None
    end
  else if st =? TCP_LAST_ACK then
    match fc with
    | Ack => if side =? ff then s TCP_TIME_WAIT else s TCP_LAST_ACK
    | FinAck => s TCP_LAST_ACK
    | Rst => s TCP_CLOSE
    | _ => None
    end
  else if st =? TCP_TIME_WAIT then
    match fc with
    | Ack | FinAck => s TCP_TIME_WAIT
    | Rst => s TCP_CLOSE
    | _ => None
    end
  else if st =? TCP_CLOSE then
    match fc with
    | Ack | Rst | FinAck => s TCP_CLOSE
    | _ => None
    end
  else None.

Definition conn_timeout (c : Conn) : Z :=
  if proto c =? PROTO_TCP then
    if (state c =? TCP_SYN_SENT) || (state c =? TCP_SYN_RECV) then T_SYN
    else if state c =? TCP_ESTABLISHED then T_ESTABLISHED
    else if state c =? TCP_FIN_WAIT then T_FIN_WAIT
    else if state c =? TCP_LAST_ACK then T_LAST_ACK
    else if state c =? TCP_TIME_WAIT then T_TIME_WAIT
    else T_CLOSE
  else if proto c =? PROTO_UDP then if replied c then T_UDP_REPLIED else T_UDP_UNREPLIED
  else T_ICMP.

Inductive Cls : Type :=
| Invalid (d : Z)
| Existing (idx : nat) (side next ff : Z)
| Related (idx : nat)
| RelatedNew (ex : nat)
| New
| Replace (idx : nat).

(** ** The firewall *)

Record Stats : Type := mkStats {
  accepted_in : Z; accepted_out : Z; dropped_in : Z; dropped_out : Z;
  invalid : Z; fragments : Z; table_full : Z; half_open : Z; new_conns : Z; related : Z;
  unsupported : Z; malformed : Z; logged : Z;
}.

Definition Stats_zero : Stats := mkStats 0 0 0 0 0 0 0 0 0 0 0 0 0.

Record Verdict : Type := mkVerdict {
  v_accept : bool;
  v_state : Z;
  v_rule : Z;
  v_reason : Z;
  v_detail : Z;
  v_ct_state : Z;
  v_log : bool;
}.

Inductive AdminError : Type :=
| Locked
| BadIndex
| Full
| Parse (e : ParseError).

Definition AdminError_errno (e : AdminError) : Z :=
  match e with
  | Locked => EPERM
  | BadIndex => ENOENT
  | Full => ENOSPC
  | Parse _ => EINVAL
  end.

Record ConnInfo : Type := mkConnInfo {
  ci_proto : Z; ci_state : Z; ci_orig_dir : Z; ci_replied : bool;
  ci_a_ip : Z; ci_b_ip : Z; ci_a_port : Z; ci_b_port : Z;
  ci_remaining : Z; ci_age : Z; ci_pkts : Z * Z; ci_bytes : Z * Z; ci_pending : Z;
}.

(** What administration decides. *)
Record Rules : Type := mkRules {
  rules : list Rule;
  nrules : Z;
  policy_in : bool;
  policy_out : bool;
  disabled : bool;
  locked : bool;
}.

Record Firewall : Type := mkFirewall {
  admin : Rules;
  hits : list Z;
  hit_bytes : list Z;
  conns : list Conn;
  expects : list Expect;
  stats : Stats;
  log_seq : Z;
}.

Definition Firewall_new : Firewall :=
  mkFirewall (mkRules (replicate MAX_RULES Rule_EMPTY) 0 false false false false)
             (replicate MAX_RULES 0) (replicate MAX_RULES 0)
             (replicate MAX_CONNS Conn_EMPTY) (replicate MAX_EXPECT Expect_EMPTY) Stats_zero 0.

Definition set_conns (l : list Conn) (f : Firewall) : Firewall :=
  mkFirewall (admin f) (hits f) (hit_bytes f) l (expects f) (stats f) (log_seq f).
Definition set_expects (l : list Expect) (f : Firewall) : Firewall :=
  mkFirewall (admin f) (hits f) (hit_bytes f) (conns f) l (stats f) (log_seq f).
Definition set_stats (s : Stats) (f : Firewall) : Firewall :=
  mkFirewall (admin f) (hits f) (hit_bytes f) (conns f) (expects f) s (log_seq f).
Definition set_rules (a : Rules) (h hb : list Z) (f : Firewall) : Firewall :=
  mkFirewall a h hb (conns f) (expects f) (stats f) (log_seq f).

(** ** Administration *)

Definition load_config_unchecked (c : Config) (f : Firewall) : outcome Firewall :=
  src ← slice_to (c_rules c) (c_n c);
  rs ← copy_prefix (replicate MAX_RULES Rule_EMPTY) src;
  Done (set_rules (mkRules rs (wrap8 (Z.of_nat (c_n c))) (c_policy_in c) (c_policy_out c)
                           (disabled (admin f)) (locked (admin f)))
                  (replicate MAX_RULES 0) (replicate MAX_RULES 0) f).

Definition init (f : Firewall) : outcome Firewall :=
  match parse_config BASELINE with
  | Ret c => load_config_unchecked c Firewall_new
  | Throw _ => Done Firewall_new
  | Crash => Panic
  end.

Definition is_locked (f : Firewall) : bool := locked (admin f).
Definition is_enabled (f : Firewall) : bool := negb (disabled (admin f)).

Definition with_admin (g : Rules -> Rules) (f : Firewall) : Firewall :=
  set_rules (g (admin f)) (hits f) (hit_bytes f) f.

Definition lock : Firewall -> Firewall :=
  with_admin (fun a => mkRules (rules a) (nrules a) (policy_in a) (policy_out a) (disabled a) true).

Definition apply_config (text : list Z) (f : Firewall) : outcome (result unit AdminError * Firewall) :=
  if is_locked f then Done (Err Locked, f)
  else
    match parse_config text with
    | Ret c => f ← load_config_unchecked c f; Done (Ok tt, f)
    | Throw e => Done (Err (Parse e), f)
    | Crash => Panic
    end.

(** [l[i] = l[i - 1]] for [i] from [pos + n] down to [pos + 1]. *)
Fixpoint shift_up {A} (n pos : nat) (l : list A) : outcome (list A) :=
  match n with
  | O => Done l
  | S n' =>
      x ← index l (pos + n');
      l ← store l (pos + n) x;
      shift_up n' pos l
  end.

(** [l[i] = l[i + 1]] for [n] indices from [i] on. *)
Fixpoint shift_down {A} (n i : nat) (l : list A) : outcome (list A) :=
  match n with
  | O => Done l
  | S n' =>
      x ← index l (i + 1);
      l ← store l i x;
      shift_down n' (S i) l
  end.

Definition add_rule (pos : nat) (r : Rule) (f : Firewall) : outcome (result unit AdminError * Firewall) :=
  if is_locked f then Done (Err Locked, f)
  else
    let a := admin f in
    let n := Z.to_nat (nrules a) in
    if (MAX_RULES <=? n)%nat then Done (Err Full, f)
    else if (n <? pos)%nat then Done (Err BadIndex, f)
    else
      rs ← shift_up (n - pos) pos (rules a);
      hs ← shift_up (n - pos) pos (hits f);
      hb ← shift_up (n - pos) pos (hit_bytes f);
      rs ← store rs pos r;
      hs ← store hs pos 0;
      hb ← store hb pos 0;
      Done (Ok tt, set_rules (mkRules rs (wrap8 (nrules a + 1)) (policy_in a) (policy_out a) (disabled a) (locked a))
                             hs hb f).

Definition add_rule_text (pos : nat) (text : list Z) (f : Firewall) : outcome (result unit AdminError * Firewall) :=
  if is_locked f then Done (Err Locked, f)
  else
    match parse_rule text with
    | Ret r => add_rule pos r f
    | Throw e => Done (Err (Parse e), f)
    | Crash => Panic
    end.

Definition del_rule (idx : nat) (f : Firewall) : outcome (result unit AdminError * Firewall) :=
  if is_locked f then Done (Err Locked, f)
  else
    let a := admin f in
    let n := Z.to_nat (nrules a) in
    if (n <=? idx)%nat then Done (Err BadIndex, f)
    else
      rs ← shift_down (n - 1 - idx) idx (rules a);
      hs ← shift_down (n - 1 - idx) idx (hits f);
      hb ← shift_down (n - 1 - idx) idx (hit_bytes f);
      rs ← store rs (n - 1) Rule_EMPTY;
      hs ← store hs (n - 1) 0;
      hb ← store hb (n - 1) 0;
      Done (Ok tt, set_rules (mkRules rs (wrap8 (nrules a - 1)) (policy_in a) (policy_out a) (disabled a) (locked a))
                             hs hb f).

Definition flush_rules (f : Firewall) : result unit AdminError * Firewall :=
  if is_locked f then (Err Locked, f)
  else
    let a := admin f in
    (Ok tt, set_rules (mkRules (replicate MAX_RULES Rule_EMPTY) 0 (policy_in a) (policy_out a) (disabled a) (locked a))
                      (replicate MAX_RULES 0) (replicate MAX_RULES 0) f).

Definition set_policy (dir : Z) (accept : bool) (f : Firewall) : result unit AdminError * Firewall :=
  if is_locked f then (Err Locked, f)
  else if dir =? DIR_IN then
    (Ok tt, with_admin (fun a => mkRules (rules a) (nrules a) accept (policy_out a) (disabled a) (locked a)) f)
  else if dir =? DIR_OUT then
    (Ok tt, with_admin (fun a => mkRules (rules a) (nrules a) (policy_in a) accept (disabled a) (locked a)) f)
  else (Err BadIndex, f).

Definition set_enabled (on : bool) (f : Firewall) : result unit AdminError * Firewall :=
  if is_locked f then (Err Locked, f)
  else (Ok tt, with_admin (fun a => mkRules (rules a) (nrules a) (policy_in a) (policy_out a) (negb on) (locked a)) f).

Definition flush_conns (f : Firewall) : Firewall :=
  set_expects (replicate MAX_EXPECT Expect_EMPTY) (set_conns (replicate MAX_CONNS Conn_EMPTY) f).

(** ** Introspection *)

Definition rule_count (f : Firewall) : nat := Z.to_nat (nrules (admin f)).

Definition rule_at (i : nat) (f : Firewall) : outcome (option (Rule * Z * Z)) :=
  if (i <? rule_count f)%nat then
    r ← index (rules (admin f)) i;
    h ← index (hits f) i;
    b ← index (hit_bytes f) i;
    Done (Some (r, h, b))
  else Done None.

Definition policy (dir : Z) (f : Firewall) : bool :=
  if dir =? DIR_IN then policy_in (admin f) else policy_out (admin f).

Definition live (now : Z) (c : Conn) : bool := used c && negb (expired (expires c) now).
Definition awaited (now : Z) (e : Expect) : bool := e_used e && negb (expired (e_expires e) now).

Definition active_conns (now : Z) (f : Firewall) : nat := countb (live now) (conns f).
Definition active_expects (now : Z) (f : Firewall) : nat := countb (awaited now) (expects f).

Definition conn_nth (n : nat) (now : Z) (f : Firewall) : option ConnInfo :=
  (fun c => mkConnInfo (proto c) (state c) (orig_dir c) (replied c) (a_ip c) (b_ip c) (a_port c) (b_port c)
              (expires c -₃₂ now) (now -₃₂ created c) (pkts c) (bytes c) (pending c))
  <$> (filter (fun c => live now c = true) (conns f) !! n).

(** ** The filter *)

Definition on_side (want : option Z) (s : Z) : bool := match want with None => true | Some w => w =? s end.

(** The first live flow the key belongs to, from index [i] on, with the side it is on. *)
Fixpoint find_loop (l : list Conn) (i : nat) (k : Key) (now : Z) (want : option Z) : option (nat * Z) :=
  match l with
  | [] => None
  | c :: l' =>
      if live now c then
        match side_of c k with
        | Some s => if on_side want s then Some (i, s) else find_loop l' (S i) k now want
        | None => find_loop l' (S i) k now want
        end
      else find_loop l' (S i) k now want
  end.

Definition find (k : Key) (now : Z) (want : option Z) (f : Firewall) : option (nat * Z) :=
  find_loop (conns f) 0 k now want.

Definition reusable (now : Z) (c : Conn) : bool := negb (used c) || expired (expires c) now.

Definition has_free_slot (now : Z) (f : Firewall) : bool := existsb (reusable now) (conns f).

Definition is_half_open (now : Z) (c : Conn) : bool :=
  live now c && (proto c =? PROTO_TCP) && (orig_dir c =? DIR_IN)
  && ((state c =? TCP_SYN_SENT) || (state c =? TCP_SYN_RECV)).

Definition half_open_inbound (now : Z) (f : Firewall) : nat := countb (is_half_open now) (conns f).

Definition expects_packet (p : Pkt) (now : Z) (e : Expect) : bool :=
  awaited now e && (e_remote_ip e =? p_src p) && (e_local_ip e =? p_dst p) && (e_local_port e =? p_dport p).

Definition find_expect (p : Pkt) (now : Z) (f : Firewall) : option nat :=
  if negb (p_dir p =? DIR_IN) || negb (p_proto p =? PROTO_UDP) then None
  else position (expects_packet p now) (expects f).

Definition classify_tcp (p : Pkt) (now : Z) (f : Firewall) : outcome Cls :=
  if (p_sport p =? 0) || (p_dport p =? 0) then Done (Invalid INV_PORT0)
  else
    match tcp_class (p_flags p) with
    | None => Done (Invalid INV_FLAGS)
    | Some fc =>
        match find (key_of p) now None f with
        | Some (idx, side) =>
            c ← index (conns f) idx;
            if bool_decide (fc = Syn) && ((state c =? TCP_TIME_WAIT) || (state c =? TCP_CLOSE))
            then Done (Replace idx)
            else
              match tcp_next (state c) side fc (fin_from c) with
              | Some (next, ff) => Done (Existing idx side next ff)
              | None => Done (Invalid INV_STATE)
              end
        | None => Done (if bool_decide (fc = Syn) then New else Invalid INV_NO_CONN)
        end
    end.

Definition classify_udp (p : Pkt) (now : Z) (f : Firewall) : outcome Cls :=
  if p_dport p =? 0 then Done (Invalid INV_PORT0)
  else
    match find (key_of p) now None f with
    | Some (idx, side) => Done (Existing idx side UDP_REPLIED 0)
    | None =>
        match find_expect p now f with
        | Some ex => Done (RelatedNew ex)
        | None => Done New
        end
    end.

Definition inner_key (i : Inner) : Key := mkKey (in_proto i) (in_src i) (in_sport i) (in_dst i) (in_dport i).

Definition classify_icmp (p : Pkt) (now : Z) (f : Firewall) : outcome Cls :=
  if negb (p_icmp_code p =? 0) && ((p_icmp_type p =? 0) || (p_icmp_type p =? 8)) then Done (Invalid INV_ICMP)
  else if p_icmp_type p =? 8 then
    match find (key_of p) now (Some 0) f with
    | Some (idx, side) => Done (Existing idx side ICMP_ECHO 0)
    | None => Done New
    end
  else if p_icmp_type p =? 0 then
    match find (key_of p) now (Some 1) f with
    | Some (idx, side) =>
        c ← index (conns f) idx;
        if 0 <? pending c then Done (Existing idx side ICMP_ECHO 0) else Done (Invalid INV_NO_CONN)
    | None => Done (Invalid INV_NO_CONN)
    end
  else if is_icmp_error (p_icmp_type p) then
    match p_inner p with
    | None => Done (Invalid INV_RELATED)
    | Some i =>
        match find (inner_key i) now None f with
        | Some (idx, _) => Done (Related idx)
        | None => Done (Invalid INV_RELATED)
        end
    end
  else Done (Invalid INV_ICMP).

Definition classify (p : Pkt) (now : Z) (f : Firewall) : outcome Cls :=
  if p_proto p =? PROTO_TCP then classify_tcp p now f
  else if p_proto p =? PROTO_UDP then classify_udp p now f
  else if p_proto p =? PROTO_ICMP then classify_icmp p now f
  else Done (Invalid INV_NONE).

Definition state_of (cls : Cls) (f : Firewall) : outcome Z :=
  match cls with
  | Invalid _ => Done ST_INVALID
  | New | Replace _ => Done ST_NEW
  | Related _ | RelatedNew _ => Done ST_RELATED
  | Existing idx side _ _ =>
      if side =? 1 then Done ST_ESTABLISHED
      else
        c ← index (conns f) idx;
        Done (if replied c then ST_ESTABLISHED else ST_NEW)
  end.

Definition alloc_slot (now : Z) (f : Firewall) : outcome (option nat * Firewall) :=
  match position (reusable now) (conns f) with
  | None => Done (None, f)
  | Some i => l ← store (conns f) i Conn_EMPTY; Done (Some i, set_conns l f)
  end.

(** The entry a packet starts, before its deadline is set. *)
Definition started (p : Pkt) (now : Z) (rel : bool) : Conn :=
  let k := key_of p in
  let st := if p_proto p =? PROTO_TCP then TCP_SYN_SENT
            else if p_proto p =? PROTO_UDP then UDP_UNREPLIED else ICMP_ECHO in
  mkConn true (p_proto p) (p_dir p) (if rel then UDP_REPLIED else st) 0 rel
         (if p_proto p =? PROTO_ICMP then 1 else 0)
         (k_src k) (k_dst k) (k_sport k) (k_dport k) 0 now (1, 0) (p_len p, 0).

(** [c.expires = now.wrapping_add(conn_timeout(c))]. *)
Definition renew (now : Z) (c : Conn) : Conn :=
  mkConn (used c) (proto c) (orig_dir c) (state c) (fin_from c) (replied c) (pending c) (a_ip c) (b_ip c)
         (a_port c) (b_port c) (now +₃₂ conn_timeout c) (created c) (pkts c) (bytes c).

Definition start_conn (i : nat) (p : Pkt) (now : Z) (rel : bool) (f : Firewall) : outcome Firewall :=
  l ← store (conns f) i (renew now (started p now rel));
  Done (set_conns l f).

Definition same_expect (remote_ip local_ip local_port : Z) (e : Expect) : bool :=
  e_used e && (e_remote_ip e =? remote_ip) && (e_local_ip e =? local_ip) && (e_local_port e =? local_port).

Definition add_expect (remote_ip local_ip local_port now : Z) (f : Firewall) : outcome Firewall :=
  let slot := match position (same_expect remote_ip local_ip local_port) (expects f) with
              | Some i => i
              | None =>
                  match position (fun e => negb (e_used e) || expired (e_expires e) now) (expects f) with
                  | Some i => i
                  | None => 0%nat
                  end
              end in
  l ← store (expects f) slot (mkExpect true remote_ip local_ip local_port (now +₃₂ T_EXPECT));
  Done (set_expects l f).

(** [x[side] = x[side].wrapping_add(n)]. *)
Definition bump (side n : Z) (x : Z * Z) : Z * Z :=
  if side =? 0 then (x.1 +₃₂ n, x.2) else (x.1, x.2 +₃₂ n).

(** A flow after a packet of its own, before its deadline is set. *)
Definition advance (p : Pkt) (side next ff : Z) (c : Conn) : Conn :=
  let pk := bump side 1 (pkts c) in
  let by_ := bump side (p_len p) (bytes c) in
  let mk st fin rep pend :=
    mkConn (used c) (proto c) (orig_dir c) st fin rep pend (a_ip c) (b_ip c) (a_port c) (b_port c)
           (expires c) (created c) pk by_ in
  if p_proto p =? PROTO_TCP then mk next ff (replied c || (side =? 1)) (pending c)
  else if p_proto p =? PROTO_UDP then
    if side =? 1 then mk UDP_REPLIED (fin_from c) true (pending c)
    else mk (state c) (fin_from c) (replied c) (pending c)
  else if side =? 0 then mk (state c) (fin_from c) (replied c) (Z.min 255 (pending c + 1))
  else mk (state c) (fin_from c) true (Z.max 0 (pending c - 1)).

Definition count_related (s : Stats) : Stats :=
  mkStats (accepted_in s) (accepted_out s) (dropped_in s) (dropped_out s) (invalid s) (fragments s) (table_full s)
          (half_open s) (new_conns s) (related s +₃₂ 1) (unsupported s) (malformed s) (logged s).
Definition count_new (s : Stats) : Stats :=
  mkStats (accepted_in s) (accepted_out s) (dropped_in s) (dropped_out s) (invalid s) (fragments s) (table_full s)
          (half_open s) (new_conns s +₃₂ 1) (related s) (unsupported s) (malformed s) (logged s).

(** A new flow in a free slot, if there is one; [None] when there is not. *)
Definition open_flow (p : Pkt) (now : Z) (rel : bool) (f : Firewall) : outcome (option Z * Firewall) :=
  '(slot, f) ← alloc_slot now f;
  match slot with
  | None => Done (None, f)
  | Some i =>
      f ← start_conn i p now rel f;
      let f := set_stats (count_new (stats f)) f in
      f ← (if negb rel && (p_proto p =? PROTO_UDP) && (p_dir p =? DIR_OUT) && (p_dport p =? TFTP_PORT)
           then add_expect (p_dst p) (p_src p) (p_sport p) now f else Done f);
      c ← index (conns f) i;
      Done (Some (state c), f)
  end.

Definition commit (p : Pkt) (cls : Cls) (now : Z) (f : Firewall) : outcome (Z * Firewall) :=
  match cls with
  | Existing idx side next ff =>
      c ← index (conns f) idx;
      let c := renew now (advance p side next ff c) in
      l ← store (conns f) idx c;
      Done (state c, set_conns l f)
  | Related idx =>
      c ← index (conns f) idx;
      let c := mkConn (used c) (proto c) (orig_dir c) (state c) (fin_from c) (replied c) (pending c) (a_ip c) (b_ip c)
                      (a_port c) (b_port c) (expires c) (created c) (bump 0 0 (pkts c)) (bytes c) in
      l ← store (conns f) idx c;
      Done (state c, set_stats (count_related (stats f)) (set_conns l f))
  | RelatedNew ex =>
      e ← index (expects f) ex;
      es ← store (expects f) ex (mkExpect false (e_remote_ip e) (e_local_ip e) (e_local_port e) (e_expires e));
      let f := set_stats (count_related (stats f)) (set_expects es f) in
      '(st, f) ← open_flow p now true f;
      Done (default 0 st, f)
  | New =>
      '(st, f) ← open_flow p now false f;
      Done (default 0 st, f)
  | Replace idx =>
      l ← store (conns f) idx Conn_EMPTY;
      f ← start_conn idx p now false (set_conns l f);
      let f := set_stats (count_new (stats f)) f in
      c ← index (conns f) idx;
      Done (state c, f)
  | Invalid _ => Done (0, f)
  end.

Definition count_logged (s : Stats) : Stats :=
  mkStats (accepted_in s) (accepted_out s) (dropped_in s) (dropped_out s) (invalid s) (fragments s) (table_full s)
          (half_open s) (new_conns s) (related s) (unsupported s) (malformed s) (logged s +₃₂ 1).

Definition want_log (wanted : bool) (f : Firewall) : bool * Firewall :=
  if negb wanted then (false, f)
  else
    let n := log_seq f in
    let yes := (n <? 32) || (n mod 256 =? 0) in
    (yes, mkFirewall (admin f) (hits f) (hit_bytes f) (conns f) (expects f)
            (if yes then count_logged (stats f) else stats f) (n +₃₂ 1)).

(** The first rule that matches, from index [i] on. *)
Fixpoint rule_scan (n i : nat) (rs : list Rule) (p : Pkt) (st : Z) : outcome (option (nat * Rule)) :=
  match n with
  | O => Done None
  | S n' =>
      r ← index rs i;
      if matches r p st then Done (Some (i, r)) else rule_scan n' (S i) rs p st
  end.

Definition is_new (cls : Cls) : bool := match cls with New => true | _ => false end.
Definition needs_slot (cls : Cls) : bool := match cls with New | RelatedNew _ => true | _ => false end.

(** Accept, rule, reason and log wish: from the rule that matched, else from the policy. *)
Definition ruling (m : option (nat * Rule)) (pol : bool) : bool * Z * Z * bool :=
  match m with
  | Some (i, r) => (r_accept r, Z.of_nat i, R_RULE, r_log r)
  | None => (pol, -1, R_POLICY, false)
  end.

(** What the engine decides about a packet, and whether that is worth a log line:
    the verdict of [filter] before anything is changed. *)
Definition judge (p : Pkt) (now : Z) (f : Firewall) : outcome (Verdict * bool * Cls) :=
  let drop reason detail := Done (mkVerdict false ST_INVALID (-1) reason detail 0 false, true, Invalid INV_NONE) in
  if negb (p_bad p =? BAD_NONE) then
    drop (if p_bad p =? BAD_FRAGMENT then R_FRAGMENT
          else if p_bad p =? BAD_UNSUPPORTED then R_UNSUPPORTED else R_MALFORMED) INV_NONE
  else
    cls ← classify p now f;
    match cls with
    | Invalid d => Done (mkVerdict false ST_INVALID (-1) R_INVALID d 0 false, true, cls)
    | _ =>
        st ← state_of cls f;
        m ← rule_scan (rule_count f) 0 (rules (admin f)) p st;
        let inbound := p_dir p =? DIR_IN in
        let '(accept, rule, reason, lg) :=
          ruling m (if inbound then policy_in (admin f) else policy_out (admin f)) in
        if accept && needs_slot cls && negb (has_free_slot now f) then
          Done (mkVerdict false st rule R_TABLE_FULL INV_NONE 0 false, true, cls)
        else if accept && is_new cls && (p_proto p =? PROTO_TCP) && inbound
                && (HALF_OPEN_MAX <=? half_open_inbound now f)%nat then
          Done (mkVerdict false st rule R_HALF_OPEN INV_NONE 0 false, true, cls)
        else Done (mkVerdict accept st rule reason INV_NONE 0 false, lg, cls)
    end.

Definition set_ct (ct : Z) (v : Verdict) : Verdict :=
  mkVerdict (v_accept v) (v_state v) (v_rule v) (v_reason v) (v_detail v) ct (v_log v).
Definition set_logged (lg : bool) (v : Verdict) : Verdict :=
  mkVerdict (v_accept v) (v_state v) (v_rule v) (v_reason v) (v_detail v) (v_ct_state v) lg.

(** The state reported by a dry run. *)
Definition dry_state (p : Pkt) (cls : Cls) : Z :=
  match cls with
  | Existing _ _ next _ => next
  | New | Replace _ =>
      if p_proto p =? PROTO_TCP then TCP_SYN_SENT
      else if p_proto p =? PROTO_UDP then UDP_UNREPLIED else ICMP_ECHO
  | _ => 0
  end.

(** The counters of one packet. *)
Definition count_packet (v : Verdict) (inbound : bool) (s : Stats) : Stats :=
  let a := v_accept v in
  let inc (b : bool) x := if b then x +₃₂ 1 else x in
  let on r := v_reason v =? r in
  mkStats (inc (a && inbound) (accepted_in s)) (inc (a && negb inbound) (accepted_out s))
          (inc (negb a && inbound) (dropped_in s)) (inc (negb a && negb inbound) (dropped_out s))
          (inc (on R_INVALID) (invalid s)) (inc (on R_FRAGMENT) (fragments s))
          (inc (on R_TABLE_FULL) (table_full s)) (inc (on R_HALF_OPEN) (half_open s))
          (new_conns s) (related s) (inc (on R_UNSUPPORTED) (unsupported s)) (inc (on R_MALFORMED) (malformed s))
          (logged s).

Definition count_hit (v : Verdict) (p : Pkt) (f : Firewall) : outcome Firewall :=
  if 0 <=? v_rule v then
    let r := Z.to_nat (v_rule v) in
    h ← index (hits f) r;
    hs ← store (hits f) r (h +₃₂ 1);
    b ← index (hit_bytes f) r;
    bs ← store (hit_bytes f) r (b +₃₂ p_len p);
    Done (mkFirewall (admin f) hs bs (conns f) (expects f) (stats f) (log_seq f))
  else Done f.

Definition filter (p : Pkt) (now : Z) (do_commit : bool) (f : Firewall) : outcome (Verdict * Firewall) :=
  if disabled (admin f) then Done (mkVerdict true ST_INVALID (-1) R_DISABLED INV_NONE 0 false, f)
  else
    '(v, lg, cls) ← judge p now f;
    if negb do_commit then Done (if v_accept v then set_ct (dry_state p cls) v else v, f)
    else
      '(ct, f) ← (if v_accept v then commit p cls now f else Done (0, f));
      let v := set_ct ct v in
      let f := set_stats (count_packet v (p_dir p =? DIR_IN) (stats f)) f in
      f ← count_hit v p f;
      let '(lg, f) := want_log lg f in
      Done (set_logged lg v, f).

(** ** The self-test *)

Definition us : Z := 0x0A00020F.
Definition peer : Z := 0x01020304.
Definition mk_tcp (dir src dst sport dport flags : Z) : Pkt :=
  mkPkt dir PROTO_TCP src dst sport dport flags 0 0 0 0 BAD_NONE None.
Definition probe_out : Pkt := mkPkt DIR_OUT PROTO_UDP 1 2 5000 53 0 0 0 0 0 BAD_NONE None.
Definition t_syn : Pkt := mk_tcp DIR_OUT us peer 40000 80 TCP_SYN.
Definition t_synack : Pkt := mk_tcp DIR_IN peer us 80 40000 (Z.lor TCP_SYN TCP_ACK).
Definition t_ack : Pkt := mk_tcp DIR_OUT us peer 40000 80 TCP_ACK.
Definition t_stray : Pkt := mk_tcp DIR_IN peer us 80 40001 TCP_ACK.
Definition t_unsolicited : Pkt := mk_tcp DIR_IN peer us 4444 22 TCP_SYN.
Definition t_bad : Pkt := mk_tcp DIR_OUT us peer 40000 80 (Z.lor TCP_SYN TCP_FIN).

Definition glob_free_cidr_ok : bool :=
  bool_decide (parse_cidr (str "10.0.2.0/24") = Some (0x0A000200, 0xFFFFFF00))
  && bool_decide (parse_cidr (str "10.0.2.9/24") = Some (0x0A000200, 0xFFFFFF00))
  && bool_decide (parse_cidr (str "any") = Some (0, 0))
  && bool_decide (parse_cidr (str "1.2.3.4") = Some (0x01020304, 0xFFFFFFFF))
  && bool_decide (parse_cidr (str "1.2.3.4/33") = None).

Definition is_throw {E A} (c : comp E A) : outcome bool :=
  match c with Ret _ => Done false | Throw _ => Done true | Crash => Panic end.

Definition is_err {A E} (r : result A E) : bool := match r with Ok _ => false | Err _ => true end.

(** Checks that held, checks attempted. *)
Definition tally (l : list bool) : Z * Z :=
  fold_left (fun '(held, total) (ok : bool) => (if ok then held +₃₂ 1 else held, total +₃₂ 1)) l (0, 0).

Definition selftest : outcome (Z * Z) :=
  '(v0, _) ← filter probe_out 0 true Firewall_new;
  f ← init Firewall_new;
  let c1 := (rule_count f =? 1)%nat && policy DIR_OUT f && negb (policy DIR_IN f) in
  '(v2, f) ← filter t_unsolicited 0 true f;
  '(v3, f) ← filter t_syn 1 true f;
  '(v4, f) ← filter t_stray 1 true f;
  '(v5, f) ← filter t_synack 2 true f;
  '(v6, f) ← filter t_ack 3 true f;
  let c7 := (active_conns 3 f =? 1)%nat in
  '(v8, f) ← filter t_bad 4 true f;
  c9 ← is_throw (parse_config (str "policy sideways" ++ [NL]));
  c10 ← is_throw (parse_rule (str "rule accept in dport 22"));
  let f := lock f in
  '(r, f) ← add_rule 0 Rule_EMPTY f;
  let c12 := is_err r && is_err (set_enabled false f).1 in
  Done (tally [negb (v_accept v0); c1; negb (v_accept v2);
               v_accept v3 && (v_state v3 =? ST_NEW) && (v_ct_state v3 =? TCP_SYN_SENT);
               negb (v_accept v4);
               v_accept v5 && (v_state v5 =? ST_ESTABLISHED) && (v_rule v5 =? 0);
               v_accept v6 && (v_ct_state v6 =? TCP_ESTABLISHED);
               c7; negb (v_accept v8); c9; c10; glob_free_cidr_ok; c12]).

(** ** Kernel entry points

    A pointer from the C side is [None] when null, else the memory behind it. *)

Definition bytes_of (p : option (list Z)) (n : Z) : option (list Z) :=
  if n =? 0 then Some []
  else
    match p with
    | None => None
    | Some mem => if 65535 <? n then None else Some (take (Z.to_nat n) mem)
    end.

Definition error_place (e : AdminError) : Z * Z :=
  match e with
  | Parse TooLarge => (1, 0)
  | Parse BadByte => (2, 0)
  | Parse (LineTooLong l) => (3, l)
  | Parse (Syntax l) => (4, l)
  | Parse (BadAddress l) => (5, l)
  | Parse (BadPort l) => (6, l)
  | Parse (BadState l) => (7, l)
  | Parse (BadCombination l) => (8, l)
  | Parse (TooManyRules l) => (9, l)
  | _ => (0, 0)
  end.

Definition code (r : result unit AdminError) : Z := match r with Ok _ => 0 | Err e => - AdminError_errno e end.

Definition rust_fw_init (f : Firewall) : outcome Firewall := init f.

Definition rust_fw_selftest : outcome (Z * Z) := selftest.

(** The return value with what is written to [out_kind] and [out_line]. *)
Definition rust_fw_load_config (text : option (list Z)) (len : Z) (f : Firewall) :
    outcome (Z * option (Z * Z) * Firewall) :=
  match bytes_of text len with
  | None => Done (- EINVAL, None, f)
  | Some t =>
      '(r, f) ← apply_config t f;
      Done (code r, match r with Ok _ => None | Err e => Some (error_place e) end, f)
  end.

(** The return value with the arguments of the log call, if there is one. *)
Definition rust_fw_filter (dir src dst pr frag : Z) (payload : option (list Z)) (len now : Z) (f : Firewall) :
    outcome (Z * option (list Z) * Firewall) :=
  match bytes_of payload len with
  | None => Done (0, None, f)
  | Some data =>
      let d := if dir =? 0 then DIR_IN else DIR_OUT in
      p ← parse_packet d src dst (wrap8 pr) (negb (frag =? 0)) data;
      '(v, f) ← filter p now true f;
      Done (Z.b2z (v_accept v),
            if v_log v
            then Some [d; p_proto p; src; dst; p_sport p; p_dport p; Z.b2z (v_accept v); v_reason v; v_rule v]
            else None, f)
  end.

(** The packet a probe describes; [i] holds its 18 words. *)
Definition probe_packet (i : list Z) : outcome Pkt :=
  i0 ← index i 0; i1 ← index i 1; i2 ← index i 2; i3 ← index i 3; i4 ← index i 4; i5 ← index i 5;
  i6 ← index i 6; i7 ← index i 7; i8 ← index i 8; i9 ← index i 9; i10 ← index i 10; i12 ← index i 12;
  i13 ← index i 13; i14 ← index i 14; i15 ← index i 15; i16 ← index i 16; i17 ← index i 17;
  let pr := wrap8 i1 in
  let bad := if i10 =? 0 then BAD_NONE else BAD_FRAGMENT in
  Done (mkPkt (if i0 =? 0 then DIR_IN else DIR_OUT) pr i2 i3 (wrap16 i4) (wrap16 i5) (Z.land (wrap8 i6) 0x3F)
              (wrap8 i7) (wrap8 i8) (wrap16 i9) (wrap16 i17)
              (if negb (pr =? PROTO_TCP) && negb (pr =? PROTO_UDP) && negb (pr =? PROTO_ICMP) && (bad =? BAD_NONE)
               then BAD_UNSUPPORTED else bad)
              (if i12 =? 0 then None else Some (mkInner (wrap8 i12) i13 i14 (wrap16 i15) (wrap16 i16)))).

Definition rust_fw_probe (inp : option (list Z)) (out_given : bool) (now : Z) (f : Firewall) :
    outcome (Z * option (list Z) * Firewall) :=
  match inp with
  | Some i =>
      if negb out_given then Done (- EINVAL, None, f)
      else
        p ← probe_packet i;
        i11 ← index i 11;
        '(v, f) ← filter p now (negb (i11 =? 0)) f;
        Done (0, Some [Z.b2z (v_accept v); v_state v; wrap32 (v_rule v); v_reason v; v_detail v; v_ct_state v; 0; 0], f)
  | None => Done (- EINVAL, None, f)
  end.

Definition rust_fw_add_rule (text : option (list Z)) (len pos : Z) (f : Firewall) : outcome (Z * Firewall) :=
  match bytes_of text len with
  | None => Done (- EINVAL, f)
  | Some t =>
      let at_ := if pos =? 0xFFFFFFFF then rule_count f else Z.to_nat pos in
      '(r, f) ← add_rule_text at_ t f;
      Done (code r, f)
  end.

Definition rust_fw_del_rule (idx : Z) (f : Firewall) : outcome (Z * Firewall) :=
  '(r, f) ← del_rule (Z.to_nat idx) f; Done (code r, f).

Definition rust_fw_flush_rules (f : Firewall) : Z * Firewall := let '(r, f) := flush_rules f in (code r, f).

Definition rust_fw_set_policy (dir accept : Z) (f : Firewall) : Z * Firewall :=
  if dir =? 0 then let '(r, f) := set_policy DIR_IN (negb (accept =? 0)) f in (code r, f)
  else if dir =? 1 then let '(r, f) := set_policy DIR_OUT (negb (accept =? 0)) f in (code r, f)
  else (- EINVAL, f).

Definition rust_fw_set_enabled (on : Z) (f : Firewall) : Z * Firewall :=
  let '(r, f) := set_enabled (negb (on =? 0)) f in (code r, f).

Definition rust_fw_lock (f : Firewall) : Firewall := lock f.
Definition rust_fw_flush_conns (f : Firewall) : Firewall := flush_conns f.

Definition rust_fw_info (now : Z) (f : Firewall) : list Z :=
  let s := stats f in
  [Z.b2z (is_enabled f); Z.b2z (is_locked f); Z.b2z (policy DIR_IN f); Z.b2z (policy DIR_OUT f);
   Z.of_nat (rule_count f); Z.of_nat (active_conns now f); Z.of_nat (active_expects now f);
   accepted_in s; accepted_out s; dropped_in s; dropped_out s; invalid s; fragments s; table_full s; half_open s;
   new_conns s; related s; unsupported s; malformed s; logged s;
   Z.of_nat MAX_RULES; Z.of_nat MAX_CONNS; TICK_HZ; 0].

Definition rule_words (r : Rule) (h b : Z) : list Z :=
  [r_dir r; r_proto r; Z.b2z (r_accept r); Z.b2z (r_log r); r_src_ip r; r_src_mask r; r_dst_ip r; r_dst_mask r;
   Z.b2z (r_sp_set r); r_sp_lo r; r_sp_hi r; Z.b2z (r_dp_set r); r_dp_lo r; r_dp_hi r;
   Z.lor (Z.lor (r_states r) (Z.shiftl (Z.b2z (r_icmp_set r)) 8)) (Z.shiftl (r_icmp_type r) 16); h; b; 0].

Definition rust_fw_get_rule (idx : Z) (f : Firewall) : outcome (Z * option (list Z)) :=
  r ← rule_at (Z.to_nat idx) f;
  Done (match r with
        | None => (- ENOENT, None)
        | Some (r, h, b) => (0, Some (rule_words r h b))
        end).

Definition rust_fw_get_conn (n now : Z) (f : Firewall) : Z * option (list Z) :=
  match conn_nth (Z.to_nat n) now f with
  | None => (- ENOENT, None)
  | Some c =>
      (0, Some [ci_proto c; ci_state c; ci_orig_dir c; Z.b2z (ci_replied c); ci_a_ip c; ci_b_ip c; ci_a_port c;
                ci_b_port c; ci_remaining c; (ci_pkts c).1; (ci_pkts c).2; (ci_bytes c).1; (ci_bytes c).2;
                ci_age c; ci_pending c; 0])
  end.
