(* ===== verification/FwInv.v ===== *)
(** * The firewall: every operation returns and keeps the arrays in shape *)

From S2P Require Import Prelude Bytes FwPkt FwConf Fw.
Local Open Scope Z_scope.

(** ** The configuration parser always answers *)

Lemma next_token_bounds line pos t q :
  (pos <= length line)%nat -> next_token line pos = (Some t, q) -> (pos < q <= length line)%nat.
Proof.
  intros Hp. unfold next_token. destruct (length line <=? _)%nat eqn:E; [done|]. intros [= _ <-].
  destruct (skip_while_spec is_ws (length line) line pos) as (H1 & _ & Hw); [lia|].
  set (s := skip_while is_ws _ _ _) in *.
  destruct (skip_while_spec (fun b => negb (is_ws b)) (length line) line s) as (H2 & _ & Hn); [lia|].
  set (s' := skip_while _ _ _ s) in *. enough (s <> s')%nat by lia. intros Heq.
  destruct (lookup_lt_is_Some_2 line s) as [x Hx]; [lia|].
  specialize (Hw x Hx). rewrite <- Heq in Hn. specialize (Hn x Hx). by rewrite Hw in Hn.
Qed.

Definition no_crash {E A} (c : comp E A) : Prop := c <> Crash.

Lemma no_crash_bind {E A B} (c : comp E A) (f : A -> comp E B) :
  no_crash c -> (forall a, c = Ret a -> no_crash (f a)) -> no_crash (c ≫= f).
Proof. unfold no_crash. destruct c; csteps; naive_solver. Qed.

Lemma no_crash_ok_or {E A} (o : option A) (e : E) : no_crash (ok_or o e).
Proof. by destruct o. Qed.

Create HintDb fw.
#[local] Hint Resolve no_crash_ok_or : fw.
#[local] Hint Extern 1 (no_crash (Ret _)) => discriminate : fw.
#[local] Hint Extern 1 (no_crash (Throw _)) => discriminate : fw.

(** Walks a parser of words: binds, conditionals and pairs. *)
Ltac no_crash_step :=
  match goal with
  | |- no_crash (_ ≫= _) => apply no_crash_bind; [|intros]
  | |- no_crash (if ?b then _ else _) => destruct b
  | |- no_crash (let '(_, _) := ?x in _) => destruct x
  | |- no_crash (match ?x with _ => _ end) => destruct x
  end.
Ltac no_crash := repeat (no_crash_step || solve [auto with fw]).

Lemma rule_option_no_crash ln key val r s : no_crash (rule_option ln key val r s).
Proof. unfold rule_option, proto_word. no_crash. Qed.
#[local] Hint Resolve rule_option_no_crash : fw.

Lemma rule_loop_no_crash fuel ln line pos r s :
  (pos <= length line)%nat -> (length line - pos < fuel)%nat -> no_crash (rule_loop fuel ln line pos r s).
Proof.
  revert pos r s. induction fuel as [|fuel IH]; intros pos r s Hp Hf; [lia|]. cbn [rule_loop].
  destruct (next_token line pos) as [[key|] q] eqn:Hk; [|discriminate].
  apply next_token_bounds in Hk as Hq; [|done].
  destruct (bool_decide _); [destruct (r_log r); [discriminate|]; apply IH; lia|].
  destruct (next_token line q) as [[val|] q'] eqn:Hv; csteps; [|discriminate].
  apply next_token_bounds in Hv as Hq'; [|lia].
  apply no_crash_bind; [auto with fw|]. intros [r' s'] _. apply IH; lia.
Qed.

Lemma next_token_le line pos : (pos <= length line)%nat -> ((next_token line pos).2 <= length line)%nat.
Proof.
  intros Hp. destruct (next_token line pos) as [[t|] q] eqn:E; simpl.
  - apply next_token_bounds in E; lia.
  - unfold next_token in E. destruct (length line <=? _)%nat; [|done]. injection E as <-.
    destruct (skip_while_spec is_ws (length line) line pos) as (H & _); lia.
Qed.

Lemma parse_rule_tokens_no_crash line pos ln :
  (pos <= length line)%nat -> no_crash (parse_rule_tokens line pos ln).
Proof.
  intros Hp. unfold parse_rule_tokens. pose proof (next_token_le line pos Hp) as H1.
  destruct (next_token line pos) as [w q]. simpl in H1. apply no_crash_bind; [auto with fw|]. intros a _.
  apply no_crash_bind; [unfold action_word; no_crash|]. intros acc _.
  pose proof (next_token_le line q H1) as H2. destruct (next_token line q) as [w' q']. simpl in H2.
  apply no_crash_bind; [auto with fw|]. intros b _. apply no_crash_bind; [unfold dir_word; no_crash|]. intros d _.
  apply no_crash_bind; [apply rule_loop_no_crash; lia|]. intros r _. unfold combination. no_crash.
Qed.

Lemma parse_rule_no_crash text : no_crash (parse_rule text).
Proof.
  unfold parse_rule. pose proof (next_token_le text 0 ltac:(lia)) as H.
  destruct (next_token text 0) as [[w|] q]; [|discriminate]. simpl in H.
  destruct (bool_decide _); [|discriminate]. by apply parse_rule_tokens_no_crash.
Qed.

(** The rule array of a configuration under construction. *)
Definition config_ok (c : Config) : Prop := length (c_rules c) = MAX_RULES /\ (c_n c <= MAX_RULES)%nat.

(** A parser that answers, with a configuration in shape. *)
Definition parses {A} (P : A -> Prop) (c : comp ParseError A) : Prop :=
  match c with Ret a => P a | Throw _ => True | Crash => False end.

Lemma parses_bind {A B} (P : A -> Prop) (Q : B -> Prop) (c : comp ParseError A) (f : A -> comp ParseError B) :
  parses P c -> (forall a, P a -> parses Q (f a)) -> parses Q (c ≫= f).
Proof. destruct c; csteps; simpl; auto. Qed.

Lemma parses_no_crash {A} (c : comp ParseError A) : no_crash c -> parses (fun _ => True) c.
Proof. by destruct c. Qed.

Lemma parse_policy_ok ln line pos c seen :
  config_ok c -> parses (fun cs => config_ok cs.1) (parse_policy ln line pos c seen).
Proof.
  intros Hc. unfold parse_policy. destruct (next_token line pos) as [[d|] q]; csteps; [|done].
  destruct (next_token line q) as [[a|] q']; csteps; [|done].
  apply (parses_bind (fun _ => True)); [apply parses_no_crash; unfold action_word; no_crash|]. intros acc _.
  destruct (next_token line q') as [[e|] q'']; [done|].
  destruct (_ && _); [done|]. by destruct (_ && _).
Qed.

Lemma config_line_ok ln raw c seen :
  config_ok c -> parses (fun cs => config_ok cs.1) (parse_line ln raw c seen).
Proof.
  intros Hc. unfold parse_line. destruct (_ <? _)%nat; [done|].
  pose proof (next_token_le (strip_comment (strip_cr raw)) 0 ltac:(lia)) as H.
  destruct (next_token _ 0) as [[w|] q]; [|done]. simpl in H.
  destruct (bool_decide _); [by apply parse_policy_ok|]. destruct (bool_decide _); [|done].
  destruct (MAX_RULES <=? c_n c)%nat eqn:En; [done|].
  apply (parses_bind (fun _ => True)); [by apply parses_no_crash, parse_rule_tokens_no_crash|]. intros r _.
  destruct Hc as [Hl Hn]. rewrite store_Done by lia. csteps. split; simpl; [by rewrite length_insert|lia].
Qed.

Lemma config_lines_ok raws ln c seen : config_ok c -> parses config_ok (parse_lines raws ln c seen).
Proof.
  revert ln c seen. induction raws as [|raw raws IH]; intros ln c seen Hc; simpl; [done|].
  apply (parses_bind (fun cs => config_ok cs.1)); [by apply config_line_ok|]. intros [c' seen']. apply IH.
Qed.

Lemma parse_config_ok text : parses config_ok (parse_config text).
Proof.
  unfold parse_config. destruct (_ <? _)%nat; [done|]. destruct (negb _); [done|].
  apply config_lines_ok. split; cbn [c_rules c_n]; [apply length_replicate|lia].
Qed.

(** ** The packet parser stays inside the packet *)

Lemma be16_Done b i x y :
  b !! i = Some x -> b !! (i + 1)%nat = Some y -> be16 b i = Done (Z.lor (wrap16 (Z.shiftl x 8)) y).
Proof. intros Hx Hy. unfold be16. by rewrite (index_at Hx), (index_at Hy). Qed.

(** Two octets are a number below [2^16]. *)
Lemma be16_range x y : is_u8 x -> is_u8 y -> Z.lor (wrap16 (Z.shiftl x 8)) y = x * 256 + y.
Proof.
  unfold is_u8, wrap16. intros Hx Hy. rewrite Z.shiftl_mul_pow2 by lia. change (2 ^ 8) with 256.
  rewrite Z.mod_small by lia. enough (Hl : Z.land (x * 256) y = 0)
    by (rewrite <- Z.lxor_lor by done; symmetry; by apply Z.add_nocarry_lxor).
  apply Z.bits_inj'. intros n Hn. rewrite Z.land_spec, Z.bits_0. destruct (Z.ltb_spec n 8).
  - change 256 with (2 ^ 8). by rewrite (Z.mul_pow2_bits_low x 8 n).
  - rewrite (Z.bits_above_log2 y n), andb_false_r; [done|lia|].
    destruct (decide (y = 0)) as [->|]; [simpl; lia|]. apply Z.log2_lt_pow2; [lia|].
    apply Z.lt_le_trans with (2 ^ 8); [lia|]. apply Z.pow_le_mono_r; lia.
Qed.

(** The number a packet holds at an offset, in network order. *)
Definition at16 (d : list Z) (i : nat) : option Z :=
  x ← d !! i;
  y ← d !! (i + 1)%nat;
  Some (x * 256 + y).

Lemma be16_at d i : Forall is_u8 d -> (i + 2 <= length d)%nat ->
  exists n, be16 d i = Done n /\ at16 d i = Some n /\ is_u16 n.
Proof.
  intros Hd Hi. destruct (lookup_lt_is_Some_2 d i) as [x Hx]; [lia|].
  destruct (lookup_lt_is_Some_2 d (i + 1)) as [y Hy]; [lia|].
  pose proof (Forall_lookup_1 _ _ _ _ Hd Hx) as Rx. pose proof (Forall_lookup_1 _ _ _ _ Hd Hy) as Ry.
  exists (x * 256 + y). rewrite (be16_Done d i x y), be16_range by done. split; [done|].
  unfold at16. rewrite Hx. simpl. rewrite Hy. split; [done|]. unfold is_u8, is_u16 in *. lia.
Qed.

Lemma be32_Done d i : (i + 4 <= length d)%nat -> exists n, be32 d i = Done n.
Proof.
  intros Hi. unfold be32.
  destruct (lookup_lt_is_Some_2 d i) as [w Hw]; [lia|]. destruct (lookup_lt_is_Some_2 d (i + 1)) as [x Hx]; [lia|].
  destruct (lookup_lt_is_Some_2 d (i + 2)) as [y Hy]; [lia|]. destruct (lookup_lt_is_Some_2 d (i + 3)) as [z Hz]; [lia|].
  rewrite (index_at Hw), (index_at Hx), (index_at Hy),
    (index_at Hz). osimpl. eauto.
Qed.

(** The fields that survive parsing, and the widths of the others. *)
Record framed (dir src dst proto : Z) (p : Pkt) : Prop := {
  fr_dir : p_dir p = dir;
  fr_proto : p_proto p = proto;
  fr_src : p_src p = src;
  fr_dst : p_dst p = dst;
  fr_sport : is_u16 (p_sport p);
  fr_dport : is_u16 (p_dport p);
  fr_id : is_u16 (p_id p);
  fr_len : is_u16 (p_len p);
}.

Lemma head_framed dir src dst proto d : framed dir src dst proto (head dir src dst proto d).
Proof. split; simpl; try done. unfold is_u16, wrap16. apply Z.mod_pos_bound. done. Qed.

Section fields.
  Context (dir src dst proto : Z) (p : Pkt) (Hp : framed dir src dst proto p).

Lemma set_bad_framed b : framed dir src dst proto (set_bad b p).
Proof. by destruct Hp. Qed.

Lemma set_ports_framed s d f : is_u16 s -> is_u16 d -> framed dir src dst proto (set_ports s d f p).
Proof. by destruct Hp. Qed.

Lemma set_icmp_framed t c : framed dir src dst proto (set_icmp t c p).
Proof. by destruct Hp. Qed.

Lemma set_id_framed i : is_u16 i -> framed dir src dst proto (set_id i p).
Proof. by destruct Hp. Qed.

Lemma set_inner_framed i : framed dir src dst proto (set_inner i p).
Proof. by destruct Hp. Qed.
End fields.

#[local] Hint Resolve head_framed set_bad_framed set_ports_framed set_icmp_framed set_id_framed set_inner_framed : fw.

(** The header length a TCP segment claims. *)
Definition tcp_header (d : list Z) : nat := (Z.to_nat (Z.shiftr (default 0%Z (d !! 12)) 4) * 4)%nat.

Lemma parse_tcp_spec dir src dst proto d p :
  Forall is_u8 d -> framed dir src dst proto p -> p_bad p = BAD_NONE ->
  exists q, parse_tcp d p = Done q /\ framed dir src dst proto q /\
    (p_bad q = BAD_NONE <-> (20 <= length d)%nat /\ (20 <= tcp_header d <= length d)%nat) /\
    (p_bad q = BAD_NONE -> at16 d 0 = Some (p_sport q) /\ at16 d 2 = Some (p_dport q) /\
       exists fl, d !! 13%nat = Some fl /\ p_flags q = Z.land fl 0x3F).
Proof.
  intros Hd Hp Hb. unfold parse_tcp, tcp_header. destruct (length d <? 20)%nat eqn:Hl.
  { eexists. split; [done|]. split; [auto with fw|]. split; [split; [done|]|done]. intros. lia. }
  destruct (lookup_lt_is_Some_2 d 12) as [b12 H12]; [lia|]. rewrite (index_at H12), H12. osimpl.
  change (default 0 (Some b12)) with b12. set (doff := (Z.to_nat (Z.shiftr b12 4) * 4)%nat).
  destruct (_ || _) eqn:Ho.
  { eexists. split; [done|]. split; [auto with fw|]. split; [split; [done|]|done]. intros. lia. }
  destruct (be16_at d 0 Hd) as (s & -> & Hs & Rs); [lia|]. destruct (be16_at d 2 Hd) as (t & -> & Ht & Rt); [lia|].
  destruct (lookup_lt_is_Some_2 d 13) as [b13 H13]; [lia|]. oindex H13.
  eexists. split; [done|]. split; [auto with fw|]. split; [split; [intros; lia|done]|]. simpl. eauto.
Qed.

Lemma parse_udp_spec dir src dst proto d p :
  Forall is_u8 d -> framed dir src dst proto p -> p_bad p = BAD_NONE ->
  exists q, parse_udp d p = Done q /\ framed dir src dst proto q /\
    (p_bad q = BAD_NONE <-> exists ulen, at16 d 4 = Some ulen /\ 8 <= ulen <= Z.of_nat (length d)) /\
    (p_bad q = BAD_NONE -> at16 d 0 = Some (p_sport q) /\ at16 d 2 = Some (p_dport q)).
Proof.
  intros Hd Hp Hb. unfold parse_udp. destruct (length d <? 8)%nat eqn:Hl.
  { eexists. split; [done|]. split; [auto with fw|]. split; [split; [done|]|done]. intros (u & _ & Hu). lia. }
  destruct (be16_at d 4 Hd) as (u & -> & -> & Ru); [lia|]. osimpl. unfold is_u16 in Ru.
  destruct (_ || _) eqn:Ho.
  { eexists. split; [done|]. split; [auto with fw|]. split; [split; [done|]|done]. intros (u' & [= <-] & Hu). lia. }
  destruct (be16_at d 0 Hd) as (s & -> & Hs & Rs); [lia|]. destruct (be16_at d 2 Hd) as (t & -> & Ht & Rt); [lia|]. osimpl.
  eexists. split; [done|]. split; [auto with fw|]. split; [split; [|done]|done]. intros _. exists u. split; [done|]. lia.
Qed.

(** The parsed packet is at hand and its fields are in range. *)
Ltac parsed := eexists; split; [reflexivity|auto with fw].

Lemma parse_inner_spec dir src dst proto ip p :
  Forall is_u8 ip -> framed dir src dst proto p ->
  exists q, parse_inner ip p = Done q /\ framed dir src dst proto q.
Proof.
  intros Hd Hp. unfold parse_inner. destruct (length ip <? 20)%nat eqn:Hl; [parsed|].
  destruct (lookup_lt_is_Some_2 ip 0) as [v Hv]; [lia|]. oindex Hv.
  destruct (Z.shiftr v 4 =? 4); cbn [negb]; [|parsed].
  set (ihl := (Z.to_nat (Z.land v 15) * 4)%nat). destruct (_ || _) eqn:Ho; [parsed|]. apply orb_false_elim in Ho as [Ho1 Ho2].
  destruct (lookup_lt_is_Some_2 ip 9) as [ipr Hipr]; [lia|]. oindex Hipr.
  destruct (be32_Done ip 12) as [isrc ->]; [lia|]. destruct (be32_Done ip 16) as [idst ->]; [lia|]. osimpl.
  destruct (_ || _).
  { destruct (be16_at ip ihl Hd) as (s & -> & _); [lia|]. destruct (be16_at ip (ihl + 2) Hd) as (t & -> & _); [lia|].
    osimpl. parsed. }
  destruct (_ =? _); [|parsed]. destruct (_ <=? _)%nat eqn:Hi; [|parsed].
  destruct (lookup_lt_is_Some_2 ip ihl) as [t Ht]; [lia|]. oindex Ht.
  destruct (_ || _); [|parsed]. destruct (be16_at ip (ihl + 4) Hd) as (s & -> & _); [lia|].
  osimpl. parsed.
Qed.

Lemma parse_icmp_spec dir src dst proto d p :
  Forall is_u8 d -> framed dir src dst proto p ->
  exists q, parse_icmp d p = Done q /\ framed dir src dst proto q.
Proof.
  intros Hd Hp. unfold parse_icmp. destruct (length d <? 8)%nat eqn:Hl; [parsed|].
  destruct (lookup_lt_is_Some_2 d 0) as [t Ht]; [lia|]. destruct (lookup_lt_is_Some_2 d 1) as [c Hc]; [lia|].
  rewrite (index_at Ht), (index_at Hc). osimpl.
  destruct (_ || _).
  { destruct (be16_at d 4 Hd) as (i & -> & _ & Ri); [lia|]. osimpl. parsed. }
  destruct (is_icmp_error t); [|parsed].
  apply parse_inner_spec; [by apply Forall_drop|auto with fw].
Qed.

Lemma parse_packet_total dir src dst proto frag d :
  Forall is_u8 d -> exists p, parse_packet dir src dst proto frag d = Done p /\ framed dir src dst proto p.
Proof.
  intros Hd. unfold parse_packet. destruct frag; [parsed|].
  destruct (_ =? _). { destruct (parse_tcp_spec dir src dst proto d (head dir src dst proto d)) as (q & ? & ? & _); [done|auto with fw|done|by exists q]. }
  destruct (_ =? _). { destruct (parse_udp_spec dir src dst proto d (head dir src dst proto d)) as (q & ? & ? & _); [done|auto with fw|done|by exists q]. }
  destruct (_ =? _); [|parsed]. apply parse_icmp_spec; auto with fw.
Qed.
