(* ===== verification/FwFlow.v ===== *)
(** * The firewall: what one packet does to the tracked flows *)

From S2P Require Import Prelude Bytes FwPkt FwConf Fw FwInv.
Local Open Scope Z_scope.

(** ** The arrays in shape *)

Record fw_ok (f : Firewall) : Prop := {
  ok_rules : length (rules (admin f)) = MAX_RULES;
  ok_nrules : 0 <= nrules (admin f) <= Z.of_nat MAX_RULES;
  ok_hits : length (hits f) = MAX_RULES;
  ok_hit_bytes : length (hit_bytes f) = MAX_RULES;
  ok_conns : length (conns f) = MAX_CONNS;
  ok_expects : length (expects f) = MAX_EXPECT;
}.

(** ** Lookup *)

Lemma find_flow_spec l i k now want :
  match find_loop l i k now want with
  | Some (j, s) => exists c, (i <= j)%nat /\ l !! (j - i)%nat = Some c /\ live now c = true /\
                             side_of c k = Some s /\ on_side want s = true /\
                             forall m c' s', (m < j - i)%nat -> l !! m = Some c' -> live now c' = true ->
                                             side_of c' k = Some s' -> on_side want s' = false
  | None => forall j c s, l !! j = Some c -> live now c = true -> side_of c k = Some s -> on_side want s = false
  end.
Proof.
  revert i. induction l as [|c l IH]; intros i; cbn [find_loop]; [done|].
  assert (Hnext : (live now c = true -> forall s, side_of c k = Some s -> on_side want s = false) ->
    match find_loop l (S i) k now want with
    | Some (j, s) => exists c', (i <= j)%nat /\ (c :: l) !! (j - i)%nat = Some c' /\ live now c' = true /\
                               side_of c' k = Some s /\ on_side want s = true /\
                               forall m d s', (m < j - i)%nat -> (c :: l) !! m = Some d -> live now d = true ->
                                              side_of d k = Some s' -> on_side want s' = false
    | None => forall j c' s, (c :: l) !! j = Some c' -> live now c' = true -> side_of c' k = Some s -> on_side want s = false
    end).
  { intros Hc. specialize (IH (S i)). destruct (find_loop l (S i) k now want) as [[j s]|].
    - destruct IH as (c' & Hj & Hl & Hlv & Hsd & Hon & Hfst). exists c'.
      replace (j - i)%nat with (S (j - S i)) by lia. split_and!; try done; [lia|].
      intros [|m] d s' Hm Hd; [injection Hd as <-; intros Hlive; by apply Hc|]. apply (Hfst m d); [lia|done].
    - intros [|j] c' s Hl Hlive Hs; simpl in Hl; [injection Hl as <-; by apply Hc|by eapply IH]. }
  destruct (live now c) eqn:Hlive; [|by apply Hnext].
  destruct (side_of c k) as [s|] eqn:Hs; [|by apply Hnext].
  destruct (on_side want s) eqn:Hw; [|apply Hnext; intros _ s' [= <-]; done].
  exists c. rewrite Nat.sub_diag. split_and!; try done. intros. lia.
Qed.

Lemma find_spec k now want f :
  match find k now want f with
  | Some (i, s) => exists c, conns f !! i = Some c /\ live now c = true /\ side_of c k = Some s /\ on_side want s = true /\
      forall m c' s', (m < i)%nat -> conns f !! m = Some c' -> live now c' = true -> side_of c' k = Some s' ->
                      on_side want s' = false
  | None => forall i c s, conns f !! i = Some c -> live now c = true -> side_of c k = Some s -> on_side want s = false
  end.
Proof.
  pose proof (find_flow_spec (conns f) 0 k now want) as H. unfold find.
  destruct (find_loop _ _ _ _ _) as [[i s]|]; [|done]. destruct H as (c & _ & Hc & H). rewrite Nat.sub_0_r in Hc, H. eauto.
Qed.

(** ** Classification *)

(** A tracked flow has run its course. *)
Definition finished (c : Conn) : Prop := state c = TCP_TIME_WAIT \/ state c = TCP_CLOSE.

(** What a class says about packet and table. *)
Definition cls_ok (p : Pkt) (now : Z) (f : Firewall) (cls : Cls) : Prop :=
  match cls with
  | Invalid _ => True
  | Existing i side _ _ => exists c, conns f !! i = Some c /\ live now c = true /\ side_of c (key_of p) = Some side
  | Related i => exists c inner s, conns f !! i = Some c /\ live now c = true /\ p_proto p = PROTO_ICMP /\
                 p_inner p = Some inner /\ side_of c (inner_key inner) = Some s
  | RelatedNew j => exists e, expects f !! j = Some e /\ expects_packet p now e = true /\
                    p_dir p = DIR_IN /\ p_proto p = PROTO_UDP
  | New => p_proto p = PROTO_TCP \/ p_proto p = PROTO_UDP \/ p_proto p = PROTO_ICMP
  | Replace i => exists c s, conns f !! i = Some c /\ live now c = true /\ side_of c (key_of p) = Some s /\
                 finished c /\ p_proto p = PROTO_TCP /\ tcp_class (p_flags p) = Some Syn
  end.

Lemma classify_tcp_spec p now f :
  p_proto p = PROTO_TCP -> exists cls, classify_tcp p now f = Done cls /\ cls_ok p now f cls.
Proof.
  intros Hp. unfold classify_tcp. destruct (_ || _); [by eexists|].
  destruct (tcp_class (p_flags p)) as [fc|] eqn:Hfc; [|by eexists].
  pose proof (find_spec (key_of p) now None f) as Hf. destruct (find _ _ _ _) as [[i s]|].
  - destruct Hf as (c & Hc & Hl & Hs & _). oindex Hc.
    destruct (bool_decide (fc = Syn) && _) eqn:Hr.
    + eexists. split; [done|]. apply andb_true_iff in Hr as [Hsyn Hfin]. apply bool_decide_eq_true in Hsyn as ->.
      exists c, s. split_and!; try done. apply orb_true_iff in Hfin as [?|?]; [left|right]; lia.
    + destruct (tcp_next _ _ _ _) as [[nx ff]|]; eexists; (split; [done|]); [|done]. by exists c.
  - destruct (bool_decide (fc = Syn)); (eexists; split; [done|]); [by left|done].
Qed.

Lemma find_expect_spec p now f :
  match find_expect p now f with
  | Some j => exists e, expects f !! j = Some e /\ expects_packet p now e = true /\ p_dir p = DIR_IN /\ p_proto p = PROTO_UDP
  | None => True
  end.
Proof.
  unfold find_expect. destruct (_ || _) eqn:E; [done|]. destruct (position _ _) as [j|] eqn:Hj; [|done].
  apply position_Some in Hj as (e & He & Hx & _). exists e.
  apply orb_false_elim in E as [E1 E2]. apply negb_false_iff in E1, E2. split_and!; try done; lia.
Qed.

Lemma classify_udp_spec p now f :
  p_proto p = PROTO_UDP -> exists cls, classify_udp p now f = Done cls /\ cls_ok p now f cls.
Proof.
  intros Hp. unfold classify_udp. destruct (_ =? _); [by eexists|].
  pose proof (find_spec (key_of p) now None f) as Hf. destruct (find _ _ _ _) as [[i s]|].
  - destruct Hf as (c & Hc & Hl & Hs & _). eexists. split; [done|]. by exists c.
  - pose proof (find_expect_spec p now f) as He. destruct (find_expect p now f) as [j|]; (eexists; split; [done|]).
    + done.
    + right. by left.
Qed.

Lemma classify_icmp_spec p now f :
  p_proto p = PROTO_ICMP -> exists cls, classify_icmp p now f = Done cls /\ cls_ok p now f cls.
Proof.
  intros Hp. unfold classify_icmp. destruct (_ && _); [by eexists|].
  destruct (p_icmp_type p =? 8).
  { pose proof (find_spec (key_of p) now (Some 0) f) as Hf. destruct (find _ _ _ _) as [[i s]|].
    - destruct Hf as (c & Hc & Hl & Hs & _). eexists. split; [done|]. by exists c.
    - eexists. split; [done|]. right. by right. }
  destruct (p_icmp_type p =? 0).
  { pose proof (find_spec (key_of p) now (Some 1) f) as Hf. destruct (find _ _ _ _) as [[i s]|]; [|by eexists].
    destruct Hf as (c & Hc & Hl & Hs & _). oindex Hc.
    destruct (0 <? pending c); eexists; (split; [done|]); [|done]. by exists c. }
  destruct (is_icmp_error _); [|by eexists]. destruct (p_inner p) as [inner|] eqn:Hi; [|by eexists].
  pose proof (find_spec (inner_key inner) now None f) as Hf. destruct (find _ _ _ _) as [[i s]|]; [|by eexists].
  destruct Hf as (c & Hc & Hl & Hs & _). eexists. split; [done|]. by exists c, inner, s.
Qed.

Lemma classify_spec p now f : exists cls, classify p now f = Done cls /\ cls_ok p now f cls.
Proof.
  unfold classify. destruct (p_proto p =? PROTO_TCP) eqn:E1; [apply classify_tcp_spec; lia|].
  destruct (p_proto p =? PROTO_UDP) eqn:E2; [apply classify_udp_spec; lia|].
  destruct (p_proto p =? PROTO_ICMP) eqn:E3; [apply classify_icmp_spec; lia|]. by eexists.
Qed.

Lemma state_of_spec p now f cls :
  cls_ok p now f cls -> exists st, state_of cls f = Done st /\
    (st = ST_NEW -> match cls with Existing _ _ _ _ | New | Replace _ => True | _ => False end) /\
    (match cls with New | Replace _ => st = ST_NEW | Related _ | RelatedNew _ => st = ST_RELATED | _ => True end).
Proof.
  destruct cls as [d|i s nx ff|i|j| |i]; simpl; intros Hc; try by eexists.
  destruct Hc as (c & Hc & _). destruct (s =? 1); [by eexists|].
  oindex Hc. destruct (replied c); by eexists.
Qed.

(** ** The rules: first match *)

(** No rule before [n] matches. *)
Definition passes (rs : list Rule) (n : nat) (p : Pkt) (st : Z) : Prop :=
  forall i r, (i < n)%nat -> rs !! i = Some r -> matches r p st = false.

Lemma rule_scan_spec n i rs p st :
  (i + n <= length rs)%nat -> passes rs i p st ->
  exists m, rule_scan n i rs p st = Done m /\
  match m with
  | Some (j, r) => (j < i + n)%nat /\ rs !! j = Some r /\ matches r p st = true /\ passes rs j p st
  | None => passes rs (i + n) p st
  end.
Proof.
  revert i. induction n as [|n IH]; intros i Hl Hi; cbn [rule_scan].
  { exists None. by rewrite Nat.add_0_r. }
  destruct (lookup_lt_is_Some_2 rs i) as [r Hr]; [lia|]. oindex Hr.
  destruct (matches r p st) eqn:Hm.
  - exists (Some (i, r)). split; [done|]. split; [lia|]. done.
  - replace (i + S n)%nat with (S i + n)%nat by lia. apply IH; [lia|].
    intros j r' Hj Hr'. destruct (decide (j = i)) as [->|]; [congruence|]. apply (Hi j r'); [lia|done].
Qed.

Definition policy_for (a : Rules) (p : Pkt) : bool := if p_dir p =? DIR_IN then policy_in a else policy_out a.

(** The first rule that matches accepts; without one, the policy of the direction does. *)
Definition allowed (a : Rules) (p : Pkt) (st : Z) : Prop :=
  (exists i r, (i < Z.to_nat (nrules a))%nat /\ rules a !! i = Some r /\ matches r p st = true /\
               passes (rules a) i p st /\ r_accept r = true) \/
  (passes (rules a) (Z.to_nat (nrules a)) p st /\ policy_for a p = true).

(** A new flow needs a slot, and an inbound TCP one must not exceed the half-open cap. *)
Definition room (p : Pkt) (now : Z) (f : Firewall) (cls : Cls) : Prop :=
  (needs_slot cls = true -> has_free_slot now f = true) /\
  (is_new cls = true -> p_proto p = PROTO_TCP -> p_dir p = DIR_IN -> (half_open_inbound now f < HALF_OPEN_MAX)%nat).

Definition is_invalid (cls : Cls) : bool := match cls with Invalid _ => true | _ => false end.

(** The packet passes: it is whole, part of or able to start a flow, and allowed. *)
Definition admitted (p : Pkt) (now : Z) (f : Firewall) (cls : Cls) : Prop :=
  p_bad p = BAD_NONE /\ classify p now f = Done cls /\ is_invalid cls = false /\
  exists st, state_of cls f = Done st /\ allowed (admin f) p st /\ room p now f cls.

Lemma passes_match rs i r n p st :
  passes rs n p st -> rs !! i = Some r -> matches r p st = true -> (n <= i)%nat.
Proof. intros Hn Hr Hm. destruct (decide (n <= i)%nat); [done|]. rewrite (Hn i r) in Hm; [done|lia|done]. Qed.

(** The first match is unique. *)
Lemma allowed_first a p st i r :
  (i < Z.to_nat (nrules a))%nat -> rules a !! i = Some r -> matches r p st = true -> passes (rules a) i p st ->
  allowed a p st <-> r_accept r = true.
Proof.
  intros Hi Hr Hm Hp. split.
  - intros [(j & r' & Hj & Hr' & Hm' & Hp' & Hacc)|[Hp' _]].
    + pose proof (passes_match _ _ _ _ _ _ Hp Hr' Hm'). pose proof (passes_match _ _ _ _ _ _ Hp' Hr Hm).
      assert (i = j) as -> by lia. congruence.
    + pose proof (passes_match _ _ _ _ _ _ Hp' Hr Hm). lia.
  - intros Hacc. left. eauto 10.
Qed.

Lemma allowed_policy a p st :
  passes (rules a) (Z.to_nat (nrules a)) p st -> allowed a p st <-> policy_for a p = true.
Proof.
  intros Hp. split.
  - intros [(j & r' & Hj & Hr' & Hm' & _)|[_ H]]; [|done]. pose proof (passes_match _ _ _ _ _ _ Hp Hr' Hm'). lia.
  - intros H. by right.
Qed.

Lemma room_spec p now f cls :
  room p now f cls <->
  (needs_slot cls && negb (has_free_slot now f) = false /\
   is_new cls && (p_proto p =? PROTO_TCP) && (p_dir p =? DIR_IN) && (HALF_OPEN_MAX <=? half_open_inbound now f)%nat = false).
Proof.
  unfold room. split; intros [H1 H2]; split.
  - destruct (needs_slot cls); [|done]. by rewrite H1.
  - apply not_true_iff_false. rewrite !andb_true_iff. intros [[[Hn Hp] Hd] Hc].
    specialize (H2 Hn ltac:(lia) ltac:(lia)). lia.
  - intros Hn. rewrite Hn in H1. by destruct (has_free_slot now f).
  - intros Hn Hp Hd. rewrite Hn, Hp, Hd, !Z.eqb_refl in H2. cbn [andb] in H2. lia.
Qed.

Lemma judge_spec p now f :
  fw_ok f ->
  exists v lg cls, judge p now f = Done (v, lg, cls) /\ cls_ok p now f cls /\
    -1 <= v_rule v < Z.of_nat MAX_RULES /\ (p_bad p = BAD_NONE -> classify p now f = Done cls) /\
    (v_accept v = true <-> admitted p now f cls).
Proof.
  intros Hok. unfold judge, admitted. destruct (p_bad p =? BAD_NONE) eqn:Hb; cbn [negb].
  2: { do 3 eexists. split; [done|]. split; [done|]. split; [done|]. split; [intros; lia|]. split; [done|]. intros [? _]. lia. }
  destruct (classify_spec p now f) as (cls & Hcls & Hc). rewrite Hcls. osimpl.
  destruct (is_invalid cls) eqn:Hinv.
  { destruct cls; try done. do 3 eexists. split; [done|]. split; [done|]. split; [done|]. split; [done|].
    split; [done|]. intros (_ & _ & ? & _). done. }
  destruct (state_of_spec p now f cls Hc) as (st & Hst & _).
  assert (Hn : (rule_count f <= MAX_RULES)%nat) by (unfold rule_count; pose proof (ok_nrules f Hok); lia).
  destruct (rule_scan_spec (rule_count f) 0 (rules (admin f)) p st) as (m & Hm & Hspec).
  { rewrite (ok_rules f Hok). lia. } { intros i r Hi. lia. }
  assert (Hred : forall A (k : outcome A) g, match cls with Invalid d => g d | _ => k end = k) by (by destruct cls).
  rewrite Hred, Hst. osimpl. rewrite Hm. osimpl.
  destruct (ruling m _) as [[[acc rl] rsn] lg] eqn:Hrul.
  assert (Hacc : (allowed (admin f) p st <-> acc = true) /\ -1 <= rl < Z.of_nat MAX_RULES).
  { destruct m as [[i r]|]; injection Hrul as <- <- _ _.
    - destruct Hspec as (? & ? & ? & ?). split; [by apply (allowed_first _ p st i r)|]. lia.
    - split; [by apply allowed_policy|]. lia. }
  destruct Hacc as [Hacc Hrl].
  assert (Hiff : (acc = true /\ room p now f cls) <->
    (p_bad p = BAD_NONE /\ Done cls = Done cls /\ is_invalid cls = false /\
     exists st0, state_of cls f = Done st0 /\ allowed (admin f) p st0 /\ room p now f cls)).
  { rewrite <- Hacc. split; [intros []; split_and!; [lia|done|done|eauto]|]. intros (_ & _ & _ & st0 & Hst0 & ?).
    assert (st0 = st) as -> by congruence. done. }
  destruct (acc && needs_slot cls && _) eqn:E1; [|destruct (acc && is_new cls && _ && _ && _) eqn:E2];
    (do 3 eexists; split; [done|]; split; [done|]; split; [exact Hrl|]; split; [done|]; cbn [v_accept]; rewrite <- Hiff, room_spec);
    destruct acc; cbn [andb] in *; intuition congruence.
Qed.

(** ** What an accepted packet does to the tables *)

(** The same flow, with other state and counters. *)
Definition same_flow (c c' : Conn) : Prop :=
  used c' = used c /\ proto c' = proto c /\ orig_dir c' = orig_dir c /\ created c' = created c /\
  a_ip c' = a_ip c /\ a_port c' = a_port c /\ b_ip c' = b_ip c /\ b_port c' = b_port c.

(** A flow the packet starts. *)
Definition fresh (p : Pkt) (c : Conn) : Prop :=
  used c = true /\ proto c = p_proto p /\ orig_dir c = p_dir p /\
  mkKey (proto c) (a_ip c) (a_port c) (b_ip c) (b_port c) = key_of p.

Inductive touched (p : Pkt) (now : Z) (cls : Cls) (c : Conn) : Conn -> Prop :=
| kept : touched p now cls c c
| moved c' : live now c = true -> same_flow c c' -> touched p now cls c c'
| opened c' : needs_slot cls = true -> reusable now c = true -> fresh p c' -> touched p now cls c c'
| reopened c' i s : cls = Replace i -> live now c = true -> side_of c (key_of p) = Some s -> finished c ->
    tcp_class (p_flags p) = Some Syn -> fresh p c' -> touched p now cls c c'.

Inductive expect_touched (p : Pkt) (cls : Cls) (e : Expect) : Expect -> Prop :=
| expect_kept : expect_touched p cls e e
| expect_spent e' : e_used e' = false -> expect_touched p cls e e'
| expect_new t : cls = New -> p_proto p = PROTO_UDP -> p_dir p = DIR_OUT -> p_dport p = TFTP_PORT ->
    expect_touched p cls e (mkExpect true (p_dst p) (p_src p) (p_sport p) t).

Lemma started_fresh p now rel : fresh p (renew now (started p now rel)).
Proof. unfold fresh, renew, started, key_of. cbn. by destruct (p_proto p =? PROTO_ICMP). Qed.

Lemma advance_same p now side nx ff c : same_flow c (renew now (advance p side nx ff c)).
Proof.
  unfold same_flow, renew, advance. cbn.
  destruct (p_proto p =? PROTO_TCP); [done|]. destruct (p_proto p =? PROTO_UDP); [by destruct (side =? 1)|].
  by destruct (side =? 0).
Qed.

(** A class that follows a flow leaves it in the state the class says. *)
Definition follows (p : Pkt) (now : Z) (cls : Cls) (f f' : Firewall) : Prop :=
  forall i s nx ff c, cls = Existing i s nx ff -> conns f !! i = Some c ->
    conns f' !! i = Some (renew now (advance p s nx ff c)).

(** The outcome of changing the tables only. *)
Record tables (p : Pkt) (now : Z) (cls : Cls) (f f' : Firewall) : Prop := {
  tb_ok : fw_ok f';
  tb_admin : admin f' = admin f;
  tb_conns : Forall2 (touched p now cls) (conns f) (conns f');
  tb_expects : Forall2 (expect_touched p cls) (expects f) (expects f');
  tb_follows : follows p now cls f f';
}.

Lemma all_kept p now cls l : Forall (fun c => touched p now cls c c) l.
Proof. apply Forall_true. intros c. constructor. Qed.

Lemma all_expects_kept p cls l : Forall (fun e => expect_touched p cls e e) l.
Proof. apply Forall_true. intros e. constructor. Qed.

Lemma conns_ok f l : fw_ok f -> length l = MAX_CONNS -> fw_ok (set_conns l f).
Proof. by intros []. Qed.

Lemma expects_ok f l : fw_ok f -> length l = MAX_EXPECT -> fw_ok (set_expects l f).
Proof. by intros []. Qed.

Lemma stats_ok f s : fw_ok f -> fw_ok (set_stats s f).
Proof. by intros []. Qed.

(** One flow of the table changes. *)
Lemma tables_conn p now cls f i c c' :
  fw_ok f -> conns f !! i = Some c -> touched p now cls c c' ->
  follows p now cls f (set_conns (<[i := c']> (conns f)) f) ->
  tables p now cls f (set_conns (<[i := c']> (conns f)) f).
Proof.
  intros Hok Hc Ht Hfo. split; [| | | |done]; cbn [set_conns admin conns expects].
  - apply conns_ok; [done|]. rewrite length_insert. apply Hok.
  - done.
  - apply (Forall2_insert_diag _ _ _ c); [apply all_kept|done|done].
  - apply Forall_Forall2_diag, all_expects_kept.
Qed.

(** Counters do not matter to the tables. *)
Lemma tables_stats p now cls f f' s : tables p now cls f f' -> tables p now cls f (set_stats s f').
Proof. intros []. split; try done. by apply stats_ok. Qed.

Lemma free_slot now f :
  match position (reusable now) (conns f) with
  | Some i => exists c, conns f !! i = Some c /\ reusable now c = true
  | None => has_free_slot now f = false
  end.
Proof.
  destruct (position _ _) as [i|] eqn:Hi.
  - apply position_Some in Hi as (c & Hc & Hr & _). eauto.
  - unfold has_free_slot. apply not_true_iff_false. intros (c & Hc & Hr)%existsb_exists.
    apply list_elem_of_In, list_elem_of_lookup in Hc as [j Hj].
    by rewrite (proj1 (position_None _ _) Hi j c Hj) in Hr.
Qed.

Lemma add_expect_spec ra la lp now f :
  fw_ok f -> exists j t e, expects f !! j = Some e /\
    add_expect ra la lp now f = Done (set_expects (<[j := mkExpect true ra la lp t]> (expects f)) f).
Proof.
  intros Hok. unfold add_expect. set (slot := match position _ _ with Some i => i | None => _ end).
  assert (Hs : (slot < length (expects f))%nat).
  { unfold slot. destruct (position (same_expect ra la lp) _) as [i|] eqn:H1.
    - apply position_Some in H1 as (e & He & _). by eapply lookup_lt_Some.
    - clear H1. destruct (position _ (expects f)) as [i|] eqn:H2;
        [apply position_Some in H2 as (e & He & _); by eapply lookup_lt_Some|].
      rewrite (ok_expects f Hok). apply Nat.lt_0_succ. }
  destruct (lookup_lt_is_Some_2 _ _ Hs) as [e He].
  ostore. eauto.
Qed.

Lemma open_flow_spec p now cls f rel :
  fw_ok f -> needs_slot cls = true -> (rel = false -> cls = New) ->
  exists st f', open_flow p now rel f = Done (st, f') /\ tables p now cls f f'.
Proof.
  intros Hok Hcls Hrel. unfold open_flow, alloc_slot. pose proof (free_slot now f) as Hfree.
  assert (Hfo : forall g, follows p now cls f g) by (intros g j s nx ff d ->; done).
  destruct (position _ _) as [i|].
  2: { do 2 eexists. split; [done|]. split; [done|done|apply Forall_Forall2_diag, all_kept| |apply Hfo].
       apply Forall_Forall2_diag, all_expects_kept. }
  destruct Hfree as (c & Hc & Hr). apply lookup_lt_Some in Hc as Hi.
  ostore. unfold start_conn. cbn [set_conns conns].
  ostore. rewrite list_insert_insert_eq.
  set (c' := renew now (started p now rel)).
  assert (Ht : tables p now cls f (set_conns (<[i := c']> (conns f)) f)).
  { apply (tables_conn p now cls f i c); [done|done| |apply Hfo]. apply opened; [done|done|apply started_fresh]. }
  set (f1 := set_stats _ _). assert (Ht1 : tables p now cls f f1) by by apply tables_stats.
  assert (Hc' : conns f1 !! i = Some c') by (cbn; by rewrite list_lookup_insert_eq).
  destruct (negb rel && _ && _ && _) eqn:E.
  - destruct (add_expect_spec (p_dst p) (p_src p) (p_sport p) now f1 (tb_ok _ _ _ _ _ Ht1)) as (j & t & e & He & ->).
    osimpl. cbn [set_expects conns]. rewrite (index_at Hc'). osimpl. do 2 eexists. split; [done|].
    rewrite !andb_true_iff in E. destruct E as [[[Er Ep] Ed] Et]. apply negb_true_iff in Er.
    split; [| | | |apply Hfo]; cbn [set_expects admin conns expects].
    + apply expects_ok; [apply Ht1|]. rewrite length_insert. apply (tb_ok _ _ _ _ _ Ht1).
    + done.
    + apply Ht1.
    + change (expects f1) with (expects f) in *. apply (Forall2_insert_diag _ _ _ e); [apply all_expects_kept|done|].
      apply expect_new; [by apply Hrel|lia..].
  - osimpl. rewrite (index_at Hc'). osimpl. eauto.
Qed.

Lemma tables_refl p now d f : fw_ok f -> tables p now (Invalid d) f f.
Proof.
  intros Hok. split; [done|done|apply Forall_Forall2_diag, all_kept|apply Forall_Forall2_diag, all_expects_kept|done].
Qed.

(** An expectation that is used up before the rest happens. *)
Lemma spend_expect p now cls f s j e e' f' :
  expects f !! j = Some e -> e_used e' = false -> cls <> New ->
  tables p now cls (set_stats s (set_expects (<[j := e']> (expects f)) f)) f' -> tables p now cls f f'.
Proof.
  intros He He' Hcls [H1 H2 H3 H4 H5]. split; [done|done|done| |exact H5].
  cbn [set_stats set_expects expects] in H4. apply Forall2_lookup. intros k.
  pose proof (proj1 (Forall2_lookup _ _ _) H4 k) as Hk4. destruct (decide (k = j)) as [->|Hk].
  - rewrite list_lookup_insert_eq in Hk4 by by eapply lookup_lt_Some. rewrite He.
    inversion Hk4 as [e1 e2 Ht E1 E2|]. constructor.
    destruct Ht as [|e2 ?|t ? ? ? ?]; [by apply expect_spent|by apply expect_spent|done].
  - by rewrite list_lookup_insert_ne in Hk4.
Qed.

Lemma commit_tables p cls now f :
  fw_ok f -> cls_ok p now f cls -> exists ct f', commit p cls now f = Done (ct, f') /\ tables p now cls f f'.
Proof.
  intros Hok Hc. destruct cls as [d|i s nx ff|i|j| |i]; cbn [commit].
  - eauto using tables_refl.
  - destruct Hc as (c & Hc & Hl & Hs). oindex Hc.
    ostore. do 2 eexists. split; [done|].
    apply (tables_conn p now _ f i c); [done|done|apply moved; [done|apply advance_same]|].
    intros i' s' nx' ff' c' [= <- <- <- <-] Hc'. cbn [set_conns conns].
    rewrite list_lookup_insert_eq by by eapply lookup_lt_Some. congruence.
  - destruct Hc as (c & inner & s & Hc & Hl & _). oindex Hc.
    ostore. do 2 eexists. split; [done|].
    apply tables_stats, (tables_conn p now _ f i c); [done|done| |done]. apply moved; [done|]. done.
  - destruct Hc as (e & He & _). oindex He.
    ostore. set (e' := mkExpect _ _ _ _ _).
    set (f1 := set_stats _ _).
    assert (Hok1 : fw_ok f1).
    { apply stats_ok, expects_ok; [done|]. rewrite length_insert. apply Hok. }
    destruct (open_flow_spec p now (RelatedNew j) f1 true Hok1) as (st & f' & -> & Ht); [done|done|].
    osimpl. do 2 eexists. split; [done|].
    by apply (spend_expect p now (RelatedNew j) f (count_related (stats f)) j e e').
  - destruct (open_flow_spec p now New f false Hok) as (st & f' & -> & Ht); [done|done|]. osimpl. eauto.
  - destruct Hc as (c & s & Hc & Hl & Hs & Hfin & _ & Hsyn). apply lookup_lt_Some in Hc as Hi.
    ostore. unfold start_conn. cbn [set_conns conns].
    ostore. rewrite list_insert_insert_eq.
    cbn [set_stats set_conns conns stats]. rewrite (proj2 (index_Done _ _ (renew now (started p now false)))).
    2: { by rewrite list_lookup_insert_eq. }
    osimpl. do 2 eexists. split; [done|].
    apply (tables_stats p now (Replace i) f (set_conns (<[i := renew now (started p now false)]> (conns f)) f)).
    apply (tables_conn p now _ f i c); [done|done| |done]. eapply reopened; try done. apply started_fresh.
Qed.

Lemma count_hit_spec v p f :
  fw_ok f -> -1 <= v_rule v < Z.of_nat MAX_RULES ->
  exists f', count_hit v p f = Done f' /\ fw_ok f' /\ admin f' = admin f /\ conns f' = conns f /\ expects f' = expects f.
Proof.
  intros [H1 H2 H3 H4 H5 H6] Hr. unfold count_hit. destruct (0 <=? v_rule v) eqn:E; [|by eexists].
  set (i := Z.to_nat (v_rule v)). assert (Hi : (i < MAX_RULES)%nat) by lia.
  destruct (lookup_lt_is_Some_2 (hits f) i) as [h Hh]; [lia|].
  destruct (lookup_lt_is_Some_2 (hit_bytes f) i) as [b Hb]; [lia|].
  oindex Hh. ostore.
  oindex Hb. ostore.
  eexists. split; [done|]. split; [|done]. split; simpl; rewrite ?length_insert; done.
Qed.

Lemma want_log_spec lg f :
  fw_ok f ->
  let f' := (want_log lg f).2 in
  fw_ok f' /\ admin f' = admin f /\ conns f' = conns f /\ expects f' = expects f.
Proof. intros []. unfold want_log. destruct lg; simpl; [|done]. by split. Qed.

(** What a call of [filter] does. *)
Record filtered (p : Pkt) (now : Z) (b : bool) (f : Firewall) (v : Verdict) (f' : Firewall) : Prop := {
  fl_ok : fw_ok f';
  fl_admin : admin f' = admin f;
  fl_dry : b = false -> f' = f;
  fl_off : disabled (admin f) = true -> v_accept v = true /\ f' = f;
  fl_on : disabled (admin f) = false -> exists cls, cls_ok p now f cls /\
    (p_bad p = BAD_NONE -> classify p now f = Done cls) /\ (v_accept v = true <-> admitted p now f cls) /\
    (if v_accept v && b then tables p now cls f f' else conns f' = conns f /\ expects f' = expects f);
}.

Lemma filter_spec p now b f : fw_ok f -> exists v f', filter p now b f = Done (v, f') /\ filtered p now b f v f'.
Proof.
  intros Hok. unfold filter. destruct (disabled (admin f)) eqn:Hdis.
  { do 2 eexists. split; [done|]. split; try done. by rewrite Hdis. }
  destruct (judge_spec p now f Hok) as (v & lg & cls & -> & Hc & Hr & Hcl & Hacc). osimpl.
  destruct b; cbn [negb].
  2: { do 2 eexists. split; [done|]. split; try done; [by rewrite Hdis|]. intros _. exists cls.
       rewrite andb_false_r. destruct (v_accept v) eqn:E; cbn [set_ct v_accept]; rewrite ?E; done. }
  assert (Hcm : exists ct f1, (if v_accept v then commit p cls now f else Done (0, f)) = Done (ct, f1) /\
    fw_ok f1 /\ admin f1 = admin f /\
    (if v_accept v then tables p now cls f f1 else conns f1 = conns f /\ expects f1 = expects f)).
  { destruct (v_accept v); [|by do 2 eexists].
    destruct (commit_tables p cls now f Hok Hc) as (ct & f1 & -> & Ht). exists ct, f1.
    split; [done|]. split; [apply Ht|]. split; [apply Ht|done]. }
  destruct Hcm as (ct & f1 & -> & Hok1 & Ha1 & Ht1). osimpl. set (f2 := set_stats _ f1).
  assert (Hok2 : fw_ok f2) by by apply stats_ok.
  destruct (count_hit_spec (set_ct ct v) p f2 Hok2 Hr) as (f3 & -> & Hok3 & Ha3 & Hc3 & He3). osimpl.
  pose proof (want_log_spec lg f3 Hok3) as Hw. destruct (want_log lg f3) as [lg' f4]. cbn in Hw.
  destruct Hw as (Hok4 & Ha4 & Hc4 & He4). do 2 eexists. split; [done|].
  assert (Ha : admin f4 = admin f) by (rewrite Ha4, Ha3; done).
  assert (Hcs : conns f4 = conns f1) by (rewrite Hc4, Hc3; done).
  assert (Hes : expects f4 = expects f1) by (rewrite He4, He3; done).
  split; try done; [by rewrite Hdis|]. intros _. exists cls. split; [done|]. split; [done|].
  cbn [set_logged set_ct v_accept]. split; [done|]. rewrite andb_true_r.
  destruct (v_accept v); [|by rewrite Hcs, Hes]. destruct Ht1 as [? ? ? ? Hfo].
  split; [done|done|by rewrite Hcs|by rewrite Hes|]. unfold follows in *. by rewrite Hcs.
Qed.
