(* ===== verification/FwSpec.v ===== *)
(** * The firewall: which packets may pass, without the code's own tests

    The contract of [filter] in terms of packets, flows and rules only: the bits of the
    TCP flags, the flow a packet belongs to, which segment may follow which, what a rule
    covers. [may_pass] uses none of the functions of [firewall.rs]; [may_pass_admitted] shows
    that the code decides it. *)

From S2P Require Import Prelude Bytes FwPkt FwConf Fw FwInv FwFlow.
Local Open Scope Z_scope.

(** ** Flows *)

(** The deadline lies ahead of the 32-bit tick counter, by at most half its range. *)
Definition in_time (deadline now : Z) : Prop := 0 < (deadline - now) mod 2 ^ 32 <= 2 ^ 31.

#[global] Instance in_time_dec deadline now : Decision (in_time deadline now).
Proof. unfold in_time. apply _. Defined.

Definition alive (now : Z) (c : Conn) : Prop := used c = true /\ in_time (expires c) now.

(** Protocol, sender and receiver, the latter as address and port. *)
Record Ends : Type := mkEnds { e_proto : Z; e_from : Z * Z; e_to : Z * Z }.

(** An echo has its identifier for both ports. *)
Definition ends_of (p : Pkt) : Ends :=
  if decide (p_proto p = PROTO_ICMP) then mkEnds (p_proto p) (p_src p, p_id p) (p_dst p, p_id p)
  else mkEnds (p_proto p) (p_src p, p_sport p) (p_dst p, p_dport p).

Definition ends_of_inner (i : Inner) : Ends := mkEnds (in_proto i) (in_src i, in_sport i) (in_dst i, in_dport i).

Definition initiator (c : Conn) : Z * Z := (a_ip c, a_port c).
Definition responder (c : Conn) : Z * Z := (b_ip c, b_port c).

(** The flow's initiator (side 0) or else its responder (side 1) sends to the other. *)
Definition belongs (c : Conn) (e : Ends) (side : Z) : Prop :=
  proto c = e_proto e /\
  ((side = 0 /\ e_from e = initiator c /\ e_to e = responder c) \/
   (side = 1 /\ e_from e = responder c /\ e_to e = initiator c /\
    ~ (e_from e = initiator c /\ e_to e = responder c))).

(** The first flow alive in the table these ends belong to, on a side that is asked for. *)
Definition tracked (f : Firewall) (now : Z) (e : Ends) (want : Z -> Prop) (i : nat) (c : Conn) (side : Z) : Prop :=
  conns f !! i = Some c /\ alive now c /\ belongs c e side /\ want side /\
  forall j c' side', (j < i)%nat -> conns f !! j = Some c' -> alive now c' -> belongs c' e side' -> ~ want side'.

Definition untracked (f : Firewall) (now : Z) (e : Ends) (want : Z -> Prop) : Prop :=
  forall i c side, conns f !! i = Some c -> alive now c -> belongs c e side -> ~ want side.

Definition either (side : Z) : Prop := True.

(** ** TCP segments *)

(** The control bits, in the order of the header's low bits. *)
Definition fin_bit (fl : Z) : bool := Z.testbit fl 0.
Definition syn_bit (fl : Z) : bool := Z.testbit fl 1.
Definition rst_bit (fl : Z) : bool := Z.testbit fl 2.
Definition psh_bit (fl : Z) : bool := Z.testbit fl 3.
Definition ack_bit (fl : Z) : bool := Z.testbit fl 4.
Definition urg_bit (fl : Z) : bool := Z.testbit fl 5.

(** The five combinations that make sense; a SYN carries no PSH or URG. *)
Definition segment (k : Fc) (fl : Z) : Prop :=
  match k with
  | Syn => syn_bit fl = true /\ ack_bit fl = false /\ fin_bit fl = false /\ rst_bit fl = false /\
           psh_bit fl = false /\ urg_bit fl = false
  | SynAck => syn_bit fl = true /\ ack_bit fl = true /\ fin_bit fl = false /\ rst_bit fl = false /\
              psh_bit fl = false /\ urg_bit fl = false
  | Ack => ack_bit fl = true /\ syn_bit fl = false /\ fin_bit fl = false /\ rst_bit fl = false
  | FinAck => ack_bit fl = true /\ fin_bit fl = true /\ syn_bit fl = false /\ rst_bit fl = false
  | Rst => rst_bit fl = true /\ syn_bit fl = false /\ fin_bit fl = false
  end.

(** What a segment of a side does to a connection: its state, and the side that sent the
    first FIN. *)
Inductive tcp_moves (side : Z) : Fc -> Z * Z -> Z * Z -> Prop :=
| mv_syn_again ff : side = 0 -> tcp_moves side Syn (TCP_SYN_SENT, ff) (TCP_SYN_SENT, ff)
| mv_simultaneous ff : side = 1 -> tcp_moves side Syn (TCP_SYN_SENT, ff) (TCP_SYN_RECV, ff)
| mv_answer ff : side = 1 -> tcp_moves side SynAck (TCP_SYN_SENT, ff) (TCP_SYN_RECV, ff)
| mv_syn_late ff : side = 0 -> tcp_moves side Syn (TCP_SYN_RECV, ff) (TCP_SYN_RECV, ff)
| mv_answer_again ff : tcp_moves side SynAck (TCP_SYN_RECV, ff) (TCP_SYN_RECV, ff)
| mv_answer_late ff : side = 1 -> tcp_moves side SynAck (TCP_ESTABLISHED, ff) (TCP_ESTABLISHED, ff)
| mv_complete ff : tcp_moves side Ack (TCP_SYN_RECV, ff) (TCP_ESTABLISHED, ff)
| mv_data k st ff : (k = Ack /\ st ∈ [TCP_ESTABLISHED; TCP_FIN_WAIT]) \/ (k = FinAck /\ st = TCP_LAST_ACK) \/
    (k ∈ [Ack; FinAck] /\ st ∈ [TCP_TIME_WAIT; TCP_CLOSE]) -> tcp_moves side k (st, ff) (st, ff)
| mv_first_fin st ff : st ∈ [TCP_SYN_RECV; TCP_ESTABLISHED] -> tcp_moves side FinAck (st, ff) (TCP_FIN_WAIT, side)
| mv_fin_again : tcp_moves side FinAck (TCP_FIN_WAIT, side) (TCP_FIN_WAIT, side)
| mv_second_fin ff : side <> ff -> tcp_moves side FinAck (TCP_FIN_WAIT, ff) (TCP_LAST_ACK, ff)
| mv_last_ack : tcp_moves side Ack (TCP_LAST_ACK, side) (TCP_TIME_WAIT, side)
| mv_ack_between ff : side <> ff -> tcp_moves side Ack (TCP_LAST_ACK, ff) (TCP_LAST_ACK, ff)
| mv_reset st ff : 1 <= st <= 7 -> tcp_moves side Rst (st, ff) (TCP_CLOSE, ff).

(** ** What a packet is to the firewall *)

(** A flow counts as established once its responder has answered. *)
Definition flow_state (c : Conn) (side st : Z) : Prop :=
  ((side = 1 \/ replied c = true) /\ st = ST_ESTABLISHED) \/ (side <> 1 /\ replied c = false /\ st = ST_NEW).

(** An announced transfer may answer from a port of its choice. *)
Definition announced (f : Firewall) (now : Z) (p : Pkt) (e : Expect) : Prop :=
  e ∈ expects f /\ e_used e = true /\ in_time (e_expires e) now /\
  e_remote_ip e = p_src p /\ e_local_ip e = p_dst p /\ e_local_port e = p_dport p.

(** The state the rules see; whether the packet needs a slot; whether it comes unannounced. *)
Inductive sort_of (p : Pkt) (now : Z) (f : Firewall) : Z -> bool -> bool -> Prop :=
| tcp_follows k i c side st nx :
    p_proto p = PROTO_TCP -> p_sport p <> 0 -> p_dport p <> 0 -> segment k (p_flags p) ->
    tracked f now (ends_of p) either i c side -> tcp_moves side k (state c, fin_from c) nx ->
    flow_state c side st -> sort_of p now f st false false
| tcp_reopens i c side :
    p_proto p = PROTO_TCP -> p_sport p <> 0 -> p_dport p <> 0 -> segment Syn (p_flags p) ->
    tracked f now (ends_of p) either i c side -> finished c -> sort_of p now f ST_NEW false false
| tcp_opens :
    p_proto p = PROTO_TCP -> p_sport p <> 0 -> p_dport p <> 0 -> segment Syn (p_flags p) ->
    untracked f now (ends_of p) either -> sort_of p now f ST_NEW true true
| udp_follows i c side st :
    p_proto p = PROTO_UDP -> p_dport p <> 0 ->
    tracked f now (ends_of p) either i c side -> flow_state c side st -> sort_of p now f st false false
| udp_announced e :
    p_proto p = PROTO_UDP -> p_dport p <> 0 -> untracked f now (ends_of p) either ->
    p_dir p = DIR_IN -> announced f now p e -> sort_of p now f ST_RELATED true false
| udp_opens :
    p_proto p = PROTO_UDP -> p_dport p <> 0 -> untracked f now (ends_of p) either ->
    (p_dir p = DIR_IN -> forall e, ~ announced f now p e) -> sort_of p now f ST_NEW true true
| ping_follows i c side st :
    p_proto p = PROTO_ICMP -> p_icmp_type p = 8 -> p_icmp_code p = 0 ->
    tracked f now (ends_of p) (eq 0) i c side -> flow_state c side st -> sort_of p now f st false false
| ping_opens :
    p_proto p = PROTO_ICMP -> p_icmp_type p = 8 -> p_icmp_code p = 0 ->
    untracked f now (ends_of p) (eq 0) -> sort_of p now f ST_NEW true true
| pong_answers i c side :
    p_proto p = PROTO_ICMP -> p_icmp_type p = 0 -> p_icmp_code p = 0 ->
    tracked f now (ends_of p) (eq 1) i c side -> 0 < pending c -> sort_of p now f ST_ESTABLISHED false false
| error_reports inner i c side :
    p_proto p = PROTO_ICMP -> p_icmp_type p ∈ [3; 4; 5; 11; 12] -> p_inner p = Some inner ->
    tracked f now (ends_of_inner inner) either i c side -> sort_of p now f ST_RELATED false false.

(** ** Rules *)

Definition has_ports (p : Pkt) : Prop := p_proto p = PROTO_TCP \/ p_proto p = PROTO_UDP.

(** A rule covers a packet of a state when every field it sets fits. *)
Definition covers (r : Rule) (p : Pkt) (st : Z) : Prop :=
  (r_dir r = DIR_ANY \/ r_dir r = p_dir p) /\ (r_proto r = 0 \/ r_proto r = p_proto p) /\
  Z.land (p_src p) (r_src_mask r) = r_src_ip r /\ Z.land (p_dst p) (r_dst_mask r) = r_dst_ip r /\
  (r_sp_set r = true -> has_ports p /\ r_sp_lo r <= p_sport p <= r_sp_hi r) /\
  (r_dp_set r = true -> has_ports p /\ r_dp_lo r <= p_dport p <= r_dp_hi r) /\
  (r_states r = 0 \/ Z.land (r_states r) st <> 0) /\
  (r_icmp_set r = true -> p_proto p = PROTO_ICMP /\ p_icmp_type p = r_icmp_type r).

(** None of the first [n] rules covers the packet. *)
Definition uncovered (a : Rules) (n : nat) (p : Pkt) (st : Z) : Prop :=
  forall i r, (i < n)%nat -> rules a !! i = Some r -> ~ covers r p st.

(** The first rule that covers the packet accepts; without one, the direction's policy. *)
Definition ruled_in (a : Rules) (p : Pkt) (st : Z) : Prop :=
  (exists i r, Z.of_nat i < nrules a /\ rules a !! i = Some r /\ covers r p st /\ uncovered a i p st /\ r_accept r = true) \/
  (uncovered a (Z.to_nat (nrules a)) p st /\ (p_dir p = DIR_IN -> policy_in a = true) /\
   (p_dir p <> DIR_IN -> policy_out a = true)).

(** ** Room *)

(** An inbound TCP connection whose handshake is under way. *)
Definition handshaking (now : Z) (c : Conn) : Prop :=
  alive now c /\ proto c = PROTO_TCP /\ orig_dir c = DIR_IN /\ (state c = TCP_SYN_SENT \/ state c = TCP_SYN_RECV).

#[global] Instance alive_dec now c : Decision (alive now c).
Proof. unfold alive. apply _. Defined.

#[global] Instance handshaking_dec now c : Decision (handshaking now c).
Proof. unfold handshaking. apply _. Defined.

(** The packet may pass. *)
Definition may_pass (p : Pkt) (now : Z) (f : Firewall) : Prop :=
  p_bad p = BAD_NONE /\
  exists st slot unasked, sort_of p now f st slot unasked /\ ruled_in (admin f) p st /\
    (slot = true -> exists i c, conns f !! i = Some c /\ ~ alive now c) /\
    (unasked = true -> p_proto p = PROTO_TCP -> p_dir p = DIR_IN ->
     (length (base.filter (handshaking now) (conns f)) < 64)%nat).

(** ** The code decides it: the parts *)

Lemma in_time_expired deadline now : in_time deadline now <-> expired deadline now = false.
Proof.
  unfold in_time, expired, wrap32. change (2 ^ 32) with 4294967296. change (2 ^ 31) with 2147483648.
  pose proof (Z.mod_pos_bound (now - deadline) 4294967296 eq_refl).
  pose proof (Z.mod_pos_bound (deadline - now) 4294967296 eq_refl).
  assert (((now - deadline) mod 4294967296 + (deadline - now) mod 4294967296) mod 4294967296 = 0) as E.
  { rewrite <- Zplus_mod. by replace (now - deadline + (deadline - now)) with 0 by lia. }
  apply Z.mod_divide in E as [q Hq]; [|lia]. rewrite Z.ltb_ge. lia.
Qed.

Lemma alive_live now c : alive now c <-> live now c = true.
Proof. unfold alive, live. rewrite in_time_expired, andb_true_iff, negb_true_iff. done. Qed.

Definition key_ends (k : Key) : Ends := mkEnds (k_proto k) (k_src k, k_sport k) (k_dst k, k_dport k).

Lemma key_ends_of p : key_ends (key_of p) = ends_of p.
Proof.
  unfold key_of, ends_of. destruct (decide (p_proto p = PROTO_ICMP)) as [E|E];
    [rewrite E, Z.eqb_refl; done|]. by replace (p_proto p =? PROTO_ICMP) with false by lia.
Qed.

Lemma belongs_side c k side : belongs c (key_ends k) side <-> side_of c k = Some side.
Proof.
  unfold belongs, side_of, initiator, responder. cbn. rewrite !pair_eq.
  destruct (proto c =? k_proto k) eqn:Ep; cbn [negb]; [|split; [intros [? _]; lia|done]].
  case_match eqn:E0; [|case_match eqn:E1].
  - split; [|intros [= ?]; lia]. intros [_ [[-> _]|(_ & _ & _ & H)]]; [done|]. exfalso. apply H. lia.
  - split; [|intros [= ?]; lia]. intros [_ [(_ & ? & ?)|[-> _]]]; [lia|done].
  - split; [|done]. lia.
Qed.

Lemma find_tracked k now want f i side :
  find k now want f = Some (i, side) <->
  exists c, tracked f now (key_ends k) (fun s => on_side want s = true) i c side.
Proof.
  pose proof (find_spec k now want f) as Hs. unfold tracked. setoid_rewrite alive_live. setoid_rewrite belongs_side. split.
  - intros E. rewrite E in Hs. destruct Hs as (c & Hc & Hl & Hsd & Hon & Hf). exists c. split_and!; try done.
    intros j c' s' Hj Hc' Hl' Hs'. by rewrite (Hf j c' s' Hj Hc' Hl' Hs').
  - intros (c & Hc & Hl & Hsd & Hon & Hf). destruct (find k now want f) as [[j s]|].
    + destruct Hs as (d & Hd & Hdl & Hds & Hdon & Hdf).
      destruct (Nat.lt_trichotomy i j) as [Hij|[->|Hij]].
      * by rewrite (Hdf i c side Hij Hc Hl Hsd) in Hon.
      * assert (d = c) as -> by congruence. congruence.
      * by destruct (Hf j d s Hij Hd Hdl Hds).
    + by rewrite (Hs i c side Hc Hl Hsd) in Hon.
Qed.

Lemma find_untracked k now want f :
  find k now want f = None <-> untracked f now (key_ends k) (fun s => on_side want s = true).
Proof.
  pose proof (find_spec k now want f) as Hs. unfold untracked. setoid_rewrite alive_live. setoid_rewrite belongs_side. split.
  - intros E i c s Hc Hl Hsd. rewrite E in Hs. by rewrite (Hs i c s Hc Hl Hsd).
  - intros H. destruct (find k now want f) as [[i s]|]; [|done].
    destruct Hs as (c & Hc & Hl & Hsd & Hon & _). by destruct (H i c s Hc Hl Hsd).
Qed.

(** Which sides are asked for may be said in another way. *)
Lemma tracked_want f now e (P Q : Z -> Prop) i c side :
  (forall s, P s <-> Q s) -> tracked f now e P i c side -> tracked f now e Q i c side.
Proof.
  intros H (Hc & Ha & Hb & Hw & Hf). split_and!; try done; [by apply H|].
  intros j c' s' Hj Hc' Ha' Hb' HQ. by apply (Hf j c' s' Hj Hc' Ha' Hb'), H.
Qed.

Lemma untracked_want f now e (P Q : Z -> Prop) :
  (forall s, P s <-> Q s) -> untracked f now e P -> untracked f now e Q.
Proof. intros H Hu i c s Hc Ha Hb HQ. by apply (Hu i c s Hc Ha Hb), H. Qed.

Lemma on_either s : either s <-> on_side None s = true.
Proof. done. Qed.

Lemma on_given w s : w = s <-> on_side (Some w) s = true.
Proof. cbn. lia. Qed.

(** The six control bits decide the class of a segment. *)
Lemma segment_class k fl : segment k fl <-> tcp_class fl = Some k.
Proof.
  assert (E : Z.land fl 0x3F = Z.b2z (fin_bit fl) + 2 * Z.b2z (syn_bit fl) + 4 * Z.b2z (rst_bit fl) +
              8 * Z.b2z (psh_bit fl) + 16 * Z.b2z (ack_bit fl) + 32 * Z.b2z (urg_bit fl)).
  { unfold fin_bit, syn_bit, rst_bit, psh_bit, ack_bit, urg_bit. change 0x3F with (Z.ones 6).
    rewrite Z.land_ones by lia. rewrite !Z.testbit_spec' by lia. change (2 ^ 6) with 64. cbn [Z.pow Z.pow_pos Pos.iter Z.mul Pos.mul].
    lia. }
  unfold tcp_class. rewrite E. unfold segment.
  destruct (fin_bit fl), (syn_bit fl), (rst_bit fl), (psh_bit fl), (ack_bit fl), (urg_bit fl), k;
    vm_compute; intuition congruence.
Qed.

Ltac members :=
  repeat match goal with
  | H : _ ∈ _ :: _ |- _ => apply elem_of_cons in H as [?|H]
  | H : _ ∈ [] |- _ => by apply not_elem_of_nil in H
  end.

Lemma moves_next_1 side k st ff nx ff' :
  side = 0 \/ side = 1 -> tcp_moves side k (st, ff) (nx, ff') -> tcp_next st side k ff = Some (nx, ff').
Proof.
  intros Hside H. inversion H; subst; clear H; destruct_or?; destruct_and?; members; subst; try done.
  all: cbn; rewrite ?Z.eqb_refl; try done.
  all: try (by destruct ff' as [|[]|]; cbn; congruence).
  all: assert (st = 1 \/ st = 2 \/ st = 3 \/ st = 4 \/ st = 5 \/ st = 6 \/ st = 7) as Hs by lia.
  all: by destruct Hs as [->|[->|[->|[->|[->|[->| ->]]]]]].
Qed.

Lemma moves_next_2 side k st ff nx ff' :
  tcp_next st side k ff = Some (nx, ff') -> tcp_moves side k (st, ff) (nx, ff').
Proof.
  unfold tcp_next. intros H.
  destruct (st =? TCP_SYN_SENT) eqn:E1; [apply Z.eqb_eq in E1 as ->|
  destruct (st =? TCP_SYN_RECV) eqn:E2; [apply Z.eqb_eq in E2 as ->|
  destruct (st =? TCP_ESTABLISHED) eqn:E3; [apply Z.eqb_eq in E3 as ->|
  destruct (st =? TCP_FIN_WAIT) eqn:E4; [apply Z.eqb_eq in E4 as ->|
  destruct (st =? TCP_LAST_ACK) eqn:E5; [apply Z.eqb_eq in E5 as ->|
  destruct (st =? TCP_TIME_WAIT) eqn:E6; [apply Z.eqb_eq in E6 as ->|
  destruct (st =? TCP_CLOSE) eqn:E7; [apply Z.eqb_eq in E7 as ->|done]]]]]]].
  all: destruct k; try discriminate H; repeat (case_match; try discriminate H); injection H as <- <-.
  all: repeat match goal with H : (_ =? _) = true |- _ => apply Z.eqb_eq in H; subst end.
  all: first [by constructor; unfold TCP_SYN_SENT, TCP_SYN_RECV, TCP_ESTABLISHED, TCP_FIN_WAIT, TCP_LAST_ACK, TCP_TIME_WAIT, TCP_CLOSE; lia | idtac].
  all: try (apply mv_first_fin; set_solver).
  all: try (apply mv_data; set_solver).
Qed.

Lemma covers_matches r p st : covers r p st <-> matches r p st = true.
Proof.
  unfold covers, matches, has_ports. repeat case_match; (split; [|try done]); intros ?;
    try (exfalso; destruct (r_sp_set r), (r_dp_set r), (r_icmp_set r); cbn [andb] in *; lia); [done|].
  destruct (r_sp_set r), (r_dp_set r), (r_icmp_set r); cbn [andb] in *; split_and!; intros; try done; lia.
Qed.

Lemma uncovered_passes a n p st : uncovered a n p st <-> passes (rules a) n p st.
Proof. unfold uncovered, passes. setoid_rewrite covers_matches. setoid_rewrite not_true_iff_false. done. Qed.

Lemma ruled_in_allowed a p st : ruled_in a p st <-> allowed a p st.
Proof.
  unfold ruled_in, allowed. setoid_rewrite covers_matches. setoid_rewrite uncovered_passes. f_equiv.
  - unfold policy_for. split; intros (i & r & Hi & H); exists i, r; (split; [lia|done]).
  - unfold policy_for. destruct (p_dir p =? DIR_IN) eqn:E; split; intros (H & H1); (split; [done|]); intuition lia.
Qed.

Lemma vacant_slot now f : has_free_slot now f = true <-> exists i c, conns f !! i = Some c /\ ~ alive now c.
Proof.
  unfold has_free_slot. rewrite existsb_exists. split.
  - intros (c & Hc & Hr). apply list_elem_of_In, list_elem_of_lookup in Hc as [i Hi]. exists i, c. split; [done|].
    rewrite alive_live. unfold live, reusable in *. destruct (used c), (expired _ _); done.
  - intros (i & c & Hc & Hn). exists c. split; [by eapply list_elem_of_In, list_elem_of_lookup_2|].
    rewrite alive_live in Hn. unfold live, reusable in *. destruct (used c), (expired _ _); done.
Qed.

Lemma handshaking_half_open now c : handshaking now c <-> is_half_open now c = true.
Proof. unfold handshaking, is_half_open. rewrite alive_live. rewrite !andb_true_iff, orb_true_iff. lia. Qed.

Lemma handshaking_count now f : length (base.filter (handshaking now) (conns f)) = half_open_inbound now f.
Proof.
  unfold half_open_inbound. induction (conns f) as [|c l IH]; [done|]. cbn [countb]. rewrite filter_cons.
  destruct (is_half_open now c) eqn:E; destruct (decide (handshaking now c)) as [H|H];
    rewrite handshaking_half_open in H; try congruence; cbn [length]; lia.
Qed.

(** ** The code decides it: the sort of a packet *)

(** A class that is not INVALID, with what the rules and the table make of it. *)
Definition classed (p : Pkt) (now : Z) (f : Firewall) (st : Z) (slot unasked : bool) : Prop :=
  exists cls, classify p now f = Done cls /\ is_invalid cls = false /\ state_of cls f = Done st /\
              needs_slot cls = slot /\ is_new cls = unasked.

Lemma flow_state_of f i side nx ff c st :
  conns f !! i = Some c -> flow_state c side st <-> state_of (Existing i side nx ff) f = Done st.
Proof.
  intros Hc. unfold flow_state. cbn [state_of]. destruct (side =? 1) eqn:E.
  - split; [intros [[_ ->]|[? _]]; [done|lia]|]. intros [= <-]. left. split; [left; lia|done].
  - oindex Hc. destruct (replied c); (split; [intros H; f_equal; intuition (congruence || lia)|]); intros [= <-]; intuition lia.
Qed.

Lemma announced_found p now f e :
  p_proto p = PROTO_UDP -> p_dir p = DIR_IN -> announced f now p e -> exists j, find_expect p now f = Some j.
Proof.
  intros Hp Hd (He & Hu & Ht & H1 & H2 & H3). unfold find_expect. rewrite Hp, Hd. cbn [negb orb Z.eqb DIR_IN PROTO_UDP Pos.eqb].
  destruct (position _ _) as [j|] eqn:Hj; [by exists j|]. apply list_elem_of_lookup in He as [i Hi].
  pose proof (proj1 (position_None _ _) Hj i e Hi) as Hn. apply in_time_expired in Ht.
  unfold expects_packet, awaited in Hn. rewrite Hu, Ht, H1, H2, H3, !Z.eqb_refl in Hn. done.
Qed.

Lemma found_announced p now f j :
  find_expect p now f = Some j -> p_dir p = DIR_IN /\ exists e, announced f now p e.
Proof.
  intros Hj. pose proof (find_expect_spec p now f) as H. rewrite Hj in H. destruct H as (e & He & Hx & Hd & _).
  split; [done|]. exists e. unfold expects_packet, awaited in Hx. rewrite !andb_true_iff, negb_true_iff in Hx.
  unfold announced. rewrite in_time_expired. split; [by eapply list_elem_of_lookup_2|]. split_and!; lia || apply Hx.
Qed.

Section Lookup.
Context (k : Key) (e : Ends) (want : option Z) (P : Z -> Prop) (now : Z) (f : Firewall).
Context (He : key_ends k = e) (HP : forall s, P s <-> on_side want s = true).

Lemma find_some i side : find k now want f = Some (i, side) <-> exists c, tracked f now e P i c side.
Proof.
  rewrite find_tracked, He. split; intros (c & Hc); exists c; (eapply tracked_want; [|exact Hc]); intros s; by rewrite HP.
Qed.

Lemma find_none : find k now want f = None <-> untracked f now e P.
Proof. rewrite find_untracked, He. split; apply untracked_want; intros s; by rewrite HP. Qed.

End Lookup.

Lemma belongs_sides c e side : belongs c e side -> side = 0 \/ side = 1.
Proof. intros (_ & [[-> _]|[-> _]]); auto. Qed.


Section Sorts.
Context (p : Pkt) (now : Z) (f : Firewall).

Lemma tcp_sorted st slot unasked :
  p_proto p = PROTO_TCP -> classed p now f st slot unasked -> sort_of p now f st slot unasked.
Proof.
  intros Hp (cls & Hcl & Hinv & Hst & <- & <-). unfold classify in Hcl. rewrite Hp in Hcl.
  cbn [Z.eqb PROTO_TCP Pos.eqb] in Hcl. unfold classify_tcp in Hcl.
  destruct (_ || _) eqn:Hports; [by injection Hcl as <-|]. apply orb_false_iff in Hports as [Hs Hd].
  destruct (tcp_class (p_flags p)) as [k|] eqn:Hk; [|by injection Hcl as <-]. apply segment_class in Hk.
  destruct (find _ _ _ _) as [[i side]|] eqn:Hf.
  - apply (find_some _ _ _ _ _ _ (key_ends_of p) on_either) in Hf as (c & Ht). pose proof Ht as (Hc & _ & Hb & _).
    apply belongs_sides in Hb. rewrite (index_at Hc) in Hcl; cbn [mbind outcome_bind] in Hcl.
    destruct (bool_decide (k = Syn) && _) eqn:Hr.
    + injection Hcl as <-. apply andb_true_iff in Hr as [Hsyn Hfin]. apply bool_decide_eq_true in Hsyn as ->.
      injection Hst as <-. eapply tcp_reopens; try done; try lia. unfold finished. lia.
    + destruct (tcp_next _ _ _ _) as [[nx ff]|] eqn:Hnx; [|by injection Hcl as <-]. injection Hcl as <-.
      eapply tcp_follows; try done; [lia|lia|by apply moves_next_2|by eapply flow_state_of].
  - apply (find_none _ _ _ _ _ _ (key_ends_of p) on_either) in Hf.
    destruct (bool_decide (k = Syn)) eqn:Hsyn; injection Hcl as <-; [|done]. apply bool_decide_eq_true in Hsyn as ->.
    injection Hst as <-. apply tcp_opens; try done; lia.
Qed.

Lemma udp_sorted st slot unasked :
  p_proto p = PROTO_UDP -> classed p now f st slot unasked -> sort_of p now f st slot unasked.
Proof.
  intros Hp (cls & Hcl & Hinv & Hst & <- & <-). unfold classify in Hcl. rewrite Hp in Hcl.
  cbn [Z.eqb PROTO_TCP PROTO_UDP Pos.eqb] in Hcl. unfold classify_udp in Hcl.
  destruct (p_dport p =? 0) eqn:Hd; [by injection Hcl as <-|].
  destruct (find _ _ _ _) as [[i side]|] eqn:Hf.
  - apply (find_some _ _ _ _ _ _ (key_ends_of p) on_either) in Hf as (c & Ht). pose proof Ht as (Hc & _).
    injection Hcl as <-. eapply udp_follows; try done; [lia|by eapply flow_state_of].
  - apply (find_none _ _ _ _ _ _ (key_ends_of p) on_either) in Hf.
    destruct (find_expect p now f) as [j|] eqn:Hj; injection Hcl as <-; injection Hst as <-.
    + apply found_announced in Hj as (Hdir & e & He). by eapply udp_announced; try done; lia.
    + apply udp_opens; try done; [lia|]. intros Hdir e He.
      destruct (announced_found p now f e Hp Hdir He) as [j Hj']. congruence.
Qed.

Lemma icmp_sorted st slot unasked :
  p_proto p = PROTO_ICMP -> classed p now f st slot unasked -> sort_of p now f st slot unasked.
Proof.
  intros Hp (cls & Hcl & Hinv & Hst & <- & <-). unfold classify in Hcl. rewrite Hp in Hcl.
  cbn [Z.eqb PROTO_TCP PROTO_UDP PROTO_ICMP Pos.eqb] in Hcl. unfold classify_icmp in Hcl.
  destruct (negb _ && _) eqn:Hcode; [by injection Hcl as <-|].
  destruct (p_icmp_type p =? 8) eqn:H8.
  { destruct (find _ _ _ _) as [[i side]|] eqn:Hf; injection Hcl as <-.
    - apply (find_some _ _ _ _ _ _ (key_ends_of p) (on_given 0)) in Hf as (c & Ht). pose proof Ht as (Hc & _).
      eapply ping_follows; try done; [lia|lia|by eapply flow_state_of].
    - apply (find_none _ _ _ _ _ _ (key_ends_of p) (on_given 0)) in Hf. injection Hst as <-. apply ping_opens; try done; lia. }
  destruct (p_icmp_type p =? 0) eqn:H0.
  { destruct (find _ _ _ _) as [[i side]|] eqn:Hf; [|by injection Hcl as <-].
    apply (find_some _ _ _ _ _ _ (key_ends_of p) (on_given 1)) in Hf as (c & Ht). pose proof Ht as (Hc & _ & _ & <- & _).
    rewrite (index_at Hc) in Hcl; cbn [mbind outcome_bind] in Hcl. destruct (0 <? pending c) eqn:Hpe; injection Hcl as <-; [|done]. injection Hst as <-.
    eapply pong_answers; try done; lia. }
  destruct (is_icmp_error _) eqn:Herr; [|by injection Hcl as <-].
  destruct (p_inner p) as [inner|] eqn:Hin; [|by injection Hcl as <-].
  destruct (find _ _ _ _) as [[i side]|] eqn:Hf; injection Hcl as <-; [|done]. injection Hst as <-.
  apply (find_some (inner_key inner) (ends_of_inner inner) _ _ _ _ eq_refl on_either) in Hf as (c & Ht).
  eapply error_reports; try done. unfold is_icmp_error in Herr. rewrite !elem_of_cons. lia.
Qed.

(** Conversely, each way to be sorted is one the classification takes. *)
Lemma sorted_classed st slot unasked : sort_of p now f st slot unasked -> classed p now f st slot unasked.
Proof.
  intros H. unfold classed, classify. destruct H as
    [k i c side st [nx ff] Hp Hs Hd Hk Ht Hm Hst | i c side Hp Hs Hd Hk Ht Hfin | Hp Hs Hd Hk Ht
    | i c side st Hp Hd Ht Hst | e Hp Hd Ht Hdir He | Hp Hd Ht He
    | i c side st Hp H8 H0 Ht Hst | Hp H8 H0 Ht | i c side Hp H8 H0 Ht Hpe | inner i c side Hp H8 Hin Ht].
  all: rewrite Hp; cbn [Z.eqb PROTO_TCP PROTO_UDP PROTO_ICMP Pos.eqb].
  1-3: unfold classify_tcp; rewrite (proj2 (Z.eqb_neq _ _) Hs), (proj2 (Z.eqb_neq _ _) Hd), (proj1 (segment_class _ _) Hk);
    cbn [orb].
  4-6: unfold classify_udp; rewrite (proj2 (Z.eqb_neq _ _) Hd).
  7-9: unfold classify_icmp; rewrite H8, H0; cbn [Z.eqb negb andb orb].
  1,2,4: rewrite (proj2 (find_some _ _ _ _ _ _ (key_ends_of p) on_either i side)) by eauto; pose proof Ht as (Hc & _ & Hb & _).
  - rewrite (index_at Hc). cbn [mbind outcome_bind]. apply belongs_sides in Hb.
    apply moves_next_1 in Hm; [|done].
    replace (bool_decide (k = Syn) && _) with false.
    + rewrite Hm. exists (Existing i side nx ff). split_and!; try done. by apply (flow_state_of f i side nx ff c st Hc).
    + symmetry. apply not_true_iff_false. rewrite andb_true_iff, bool_decide_eq_true, orb_true_iff, !Z.eqb_eq.
      intros [-> [E|E]]; rewrite E in Hm; discriminate Hm.
  - rewrite (index_at Hc). cbn [mbind outcome_bind]. rewrite bool_decide_true by done. cbn [andb].
    replace (_ || _) with true by (destruct Hfin; lia). by exists (Replace i).
  - exists (Existing i side UDP_REPLIED 0). split_and!; try done. by apply (flow_state_of f i side UDP_REPLIED 0 c st Hc).
  - rewrite (proj2 (find_none _ _ _ _ _ _ (key_ends_of p) on_either)) by done. rewrite bool_decide_true by done. by exists New.
  - rewrite (proj2 (find_none _ _ _ _ _ _ (key_ends_of p) on_either)) by done.
    destruct (announced_found p now f e Hp Hdir He) as [j ->]. by exists (RelatedNew j).
  - rewrite (proj2 (find_none _ _ _ _ _ _ (key_ends_of p) on_either)) by done.
    destruct (find_expect p now f) as [j|] eqn:Hj; [|by exists New].
    apply found_announced in Hj as (Hdir & e & Ha). by destruct (He Hdir e).
  - rewrite (proj2 (find_some _ _ _ _ _ _ (key_ends_of p) (on_given 0) i side)) by eauto. pose proof Ht as (Hc & _).
    exists (Existing i side ICMP_ECHO 0). split_and!; try done. by apply (flow_state_of f i side ICMP_ECHO 0 c st Hc).
  - rewrite (proj2 (find_none _ _ _ _ _ _ (key_ends_of p) (on_given 0))) by done. by exists New.
  - rewrite (proj2 (find_some _ _ _ _ _ _ (key_ends_of p) (on_given 1) i side)) by eauto. pose proof Ht as (Hc & _ & _ & <- & _).
    rewrite (index_at Hc). cbn [mbind outcome_bind]. rewrite (proj2 (Z.ltb_lt _ _) Hpe). by exists (Existing i 1 ICMP_ECHO 0).
  - unfold classify_icmp, is_icmp_error. rewrite Hin, (proj2 (find_some (inner_key inner) _ _ _ _ _ eq_refl on_either i side)) by eauto.
    exists (Related i). members; by match goal with E : p_icmp_type p = _ |- _ => rewrite E; cbn; rewrite ?andb_false_r end.
Qed.

Lemma sort_of_classed st slot unasked : sort_of p now f st slot unasked <-> classed p now f st slot unasked.
Proof.
  split; [apply sorted_classed|]. intros H. destruct (decide (p_proto p = PROTO_TCP)); [by apply tcp_sorted|].
  destruct (decide (p_proto p = PROTO_UDP)); [by apply udp_sorted|].
  destruct (decide (p_proto p = PROTO_ICMP)); [by apply icmp_sorted|].
  destruct H as (cls & Hcl & Hinv & _). unfold classify in Hcl.
  replace (p_proto p =? PROTO_TCP) with false in Hcl by lia. replace (p_proto p =? PROTO_UDP) with false in Hcl by lia.
  replace (p_proto p =? PROTO_ICMP) with false in Hcl by lia. by injection Hcl as <-.
Qed.

Lemma may_pass_admitted : may_pass p now f <-> exists cls, admitted p now f cls.
Proof.
  unfold may_pass, admitted, room. split.
  - intros (Hb & st & slot & unasked & Hs & Hr & Hslot & Hopen). apply sort_of_classed in Hs as (cls & Hcl & Hinv & Hst & <- & <-).
    exists cls. split_and!; try done. exists st. rewrite <- ruled_in_allowed, vacant_slot, <- handshaking_count. done.
  - intros (cls & Hb & Hcl & Hinv & st & Hst & Hr & Hslot & Hopen). split; [done|]. exists st, (needs_slot cls), (is_new cls).
    rewrite sort_of_classed, ruled_in_allowed, <- vacant_slot, handshaking_count. split; [by exists cls|done].
Qed.

(** A segment of a tracked connection that is not a SYN on a finished one follows it. *)
Lemma segment_classified k i c side :
  p_proto p = PROTO_TCP -> segment k (p_flags p) -> tracked f now (ends_of p) either i c side ->
  ~ (k = Syn /\ finished c) -> forall cls, classify p now f = Done cls -> is_invalid cls = false ->
  exists nx ff, cls = Existing i side nx ff /\ tcp_moves side k (state c, fin_from c) (nx, ff).
Proof.
  intros Hp Hk Ht Hn cls Hcl Hinv. unfold classify in Hcl. rewrite Hp in Hcl.
  cbn [Z.eqb PROTO_TCP Pos.eqb] in Hcl. unfold classify_tcp in Hcl.
  destruct (_ || _); [by injection Hcl as <-|]. rewrite (proj1 (segment_class _ _) Hk) in Hcl.
  rewrite (proj2 (find_some _ _ _ _ _ _ (key_ends_of p) on_either i side)) in Hcl by eauto.
  pose proof Ht as (Hc & _). rewrite (index_at Hc) in Hcl. cbn [mbind outcome_bind] in Hcl.
  replace (bool_decide (k = Syn) && _) with false in Hcl.
  - destruct (tcp_next _ _ _ _) as [[nx ff]|] eqn:E; injection Hcl as <-; [|done]. eauto using moves_next_2.
  - symmetry. apply not_true_iff_false. rewrite andb_true_iff, bool_decide_eq_true, orb_true_iff, !Z.eqb_eq. done.
Qed.

End Sorts.
