(* ===== verification/FwAdmin.v ===== *)
(** * The firewall: administration and the kernel's calls *)

From S2P Require Import Prelude Bytes FwPkt FwConf Fw FwInv FwFlow.
Local Open Scope Z_scope.

(** ** Shifting the arrays of the rule list *)

Lemma shift_up_spec {A} n pos (l : list A) :
  (pos + n < length l)%nat ->
  exists l', shift_up n pos l = Done l' /\ length l' = length l /\
    forall i, l' !! i = if ((pos <? i) && (i <=? pos + n))%nat then l !! (i - 1)%nat else l !! i.
Proof.
  revert l. induction n as [|n IH]; intros l Hl; cbn [shift_up].
  { exists l. split; [done|]. split; [done|]. intros i. destruct (_ && _) eqn:E; [lia|done]. }
  destruct (lookup_lt_is_Some_2 l (pos + n)) as [x Hx]; [lia|]. oindex Hx.
  ostore. destruct (IH (<[(pos + S n)%nat := x]> l)) as (l' & -> & Hlen & Hlook);
    [rewrite length_insert; lia|].
  exists l'. split; [done|]. rewrite length_insert in Hlen. split; [done|]. intros i. rewrite Hlook.
  destruct (decide (i = pos + S n)%nat) as [->|Hi].
  - replace ((pos <? pos + S n) && (pos + S n <=? pos + n))%nat with false by lia.
    replace ((pos <? pos + S n) && (pos + S n <=? pos + S n))%nat with true by lia.
    rewrite list_lookup_insert_eq by lia. rewrite <- Hx. f_equal. lia.
  - destruct ((pos <? i) && (i <=? pos + n))%nat eqn:E1; destruct ((pos <? i) && (i <=? pos + S n))%nat eqn:E2;
      try lia; by rewrite list_lookup_insert_ne by lia.
Qed.

Lemma shift_down_spec {A} n i (l : list A) :
  (i + n < length l)%nat ->
  exists l', shift_down n i l = Done l' /\ length l' = length l /\
    forall j, l' !! j = if ((i <=? j) && (j <? i + n))%nat then l !! (j + 1)%nat else l !! j.
Proof.
  revert i l. induction n as [|n IH]; intros i l Hl; cbn [shift_down].
  { exists l. split; [done|]. split; [done|]. intros j. destruct (_ && _) eqn:E; [lia|done]. }
  destruct (lookup_lt_is_Some_2 l (i + 1)) as [x Hx]; [lia|]. oindex Hx.
  ostore. destruct (IH (S i) (<[i := x]> l)) as (l' & -> & Hlen & Hlook);
    [rewrite length_insert; lia|].
  exists l'. split; [done|]. rewrite length_insert in Hlen. split; [done|]. intros j. rewrite Hlook.
  destruct (decide (j = i)) as [->|Hj].
  - replace ((S i <=? i) && (i <? S i + n))%nat with false by lia.
    replace ((i <=? i) && (i <? i + S n))%nat with true by lia.
    by rewrite list_lookup_insert_eq by lia.
  - destruct ((S i <=? j) && (j <? S i + n))%nat eqn:E1; destruct ((i <=? j) && (j <? i + S n))%nat eqn:E2;
      try lia; by rewrite list_lookup_insert_ne by lia.
Qed.

(** A gap opened at [pos] and filled: an insertion into the first [n] elements. *)
Lemma insert_at {A} (l l' : list A) n pos x :
  (pos <= n < length l)%nat -> length l' = length l ->
  (forall i, l' !! i = if ((pos <? i) && (i <=? n))%nat then l !! (i - 1)%nat else l !! i) ->
  take (S n) (<[pos := x]> l') = take pos (take n l) ++ x :: drop pos (take n l).
Proof.
  intros Hp Hlen Hlook. apply list_eq. intros i.
  assert (Ht : length (take pos (take n l)) = pos) by (rewrite !length_take; lia).
  destruct (decide (i < pos)%nat) as [Hi|Hi].
  { rewrite lookup_take_lt, list_lookup_insert_ne, Hlook by lia. replace (_ && _) with false by lia.
    by rewrite lookup_app_l, !lookup_take_lt by (rewrite ?Ht; lia). }
  rewrite lookup_app_r, Ht by lia. destruct (decide (i = pos)) as [->|Hne].
  { rewrite Nat.sub_diag, lookup_take_lt, list_lookup_insert_eq by lia. done. }
  replace (i - pos)%nat with (S (i - 1 - pos)) by lia. rewrite lookup_cons.
  rewrite lookup_drop. replace (pos + (i - 1 - pos))%nat with (i - 1)%nat by lia.
  destruct (decide (i <= n)%nat).
  - rewrite lookup_take_lt, list_lookup_insert_ne, Hlook, lookup_take_lt by lia.
    by replace (_ && _) with true by lia.
  - by rewrite !lookup_take_ge by lia.
Qed.

(** A gap closed at [i]: a deletion from the first [n] elements. *)
Lemma delete_at {A} (l l' : list A) n i x :
  (i < n <= length l)%nat -> length l' = length l ->
  (forall j, l' !! j = if ((i <=? j) && (j <? i + (n - 1 - i)))%nat then l !! (j + 1)%nat else l !! j) ->
  take (n - 1) (<[(n - 1)%nat := x]> l') = delete i (take n l).
Proof.
  intros Hi Hlen Hlook. rewrite take_insert_ge by lia. apply list_eq. intros j.
  destruct (decide (j < i)%nat).
  - rewrite lookup_take_lt, Hlook, list_lookup_delete_lt, lookup_take_lt by lia. by replace (_ && _) with false by lia.
  - rewrite list_lookup_delete_ge by lia. destruct (decide (j < n - 1)%nat).
    + rewrite lookup_take_lt, Hlook, lookup_take_lt by lia. replace (_ && _) with true by lia. f_equal. lia.
    + rewrite !lookup_take_ge by lia. done.
Qed.

(** ** The rule list *)

(** The rules in force. *)
Definition active (f : Firewall) : list Rule := take (rule_count f) (rules (admin f)).

(** Everything but the rule list is as before. *)
Definition same_but_rules (f f' : Firewall) : Prop :=
  policy_in (admin f') = policy_in (admin f) /\ policy_out (admin f') = policy_out (admin f) /\
  disabled (admin f') = disabled (admin f) /\ locked (admin f') = locked (admin f) /\
  conns f' = conns f /\ expects f' = expects f /\ stats f' = stats f /\ log_seq f' = log_seq f.

Lemma add_rule_spec pos r f :
  fw_ok f ->
  exists res f', add_rule pos r f = Done (res, f') /\ fw_ok f' /\ same_but_rules f f' /\
  match res with
  | Ok _ => locked (admin f) = false /\ (pos <= rule_count f < MAX_RULES)%nat /\
            active f' = take pos (active f) ++ r :: drop pos (active f)
  | Err Locked => f' = f /\ locked (admin f) = true
  | Err Full => f' = f /\ rule_count f = MAX_RULES
  | Err BadIndex => f' = f /\ (rule_count f < pos)%nat
  | Err (Parse _) => False
  end.
Proof.
  intros Hok. pose proof Hok as [H1 H2 H3 H4 H5 H6]. assert (HM : Z.of_nat MAX_RULES = 32) by done.
  unfold add_rule, active, rule_count, is_locked, same_but_rules.
  destruct (locked (admin f)) eqn:Hlk; [by do 2 eexists|].
  set (n := Z.to_nat (nrules (admin f))). destruct (MAX_RULES <=? n)%nat eqn:En.
  { do 2 eexists. split; [done|]. split_and!; try done. lia. }
  destruct (n <? pos)%nat eqn:Ep. { do 2 eexists. split; [done|]. split_and!; try done. lia. }
  destruct (shift_up_spec (n - pos) pos (rules (admin f))) as (rs & -> & Lr & Sr); [lia|]. osimpl.
  destruct (shift_up_spec (n - pos) pos (hits f)) as (hs & -> & Lh & Sh); [lia|]. osimpl.
  destruct (shift_up_spec (n - pos) pos (hit_bytes f)) as (hb & -> & Lb & Sb); [lia|]. osimpl.
  rewrite !store_Done by lia. osimpl. do 2 eexists. split; [done|]. rewrite wrap8_id by auto with machine.
  split; [split; cbn; rewrite ?length_insert; lia|]. split; [done|]. split; [done|]. split; [lia|]. cbn.
  replace (Z.to_nat (nrules (admin f) + 1)) with (S n) by lia. replace (pos + (n - pos))%nat with n in Sr by lia.
  by apply insert_at; [lia|..].
Qed.

Lemma del_rule_spec idx f :
  fw_ok f ->
  exists res f', del_rule idx f = Done (res, f') /\ fw_ok f' /\ same_but_rules f f' /\
  match res with
  | Ok _ => locked (admin f) = false /\ (idx < rule_count f)%nat /\ active f' = delete idx (active f)
  | Err Locked => f' = f /\ locked (admin f) = true
  | Err BadIndex => f' = f /\ (rule_count f <= idx)%nat
  | Err _ => False
  end.
Proof.
  intros Hok. pose proof Hok as [H1 H2 H3 H4 H5 H6]. assert (HM : Z.of_nat MAX_RULES = 32) by done.
  unfold del_rule, active, rule_count, is_locked, same_but_rules.
  destruct (locked (admin f)) eqn:Hlk; [by do 2 eexists|].
  set (n := Z.to_nat (nrules (admin f))). destruct (n <=? idx)%nat eqn:En.
  { do 2 eexists. split; [done|]. split_and!; try done. lia. }
  destruct (shift_down_spec (n - 1 - idx) idx (rules (admin f))) as (rs & -> & Lr & Sr); [lia|]. osimpl.
  destruct (shift_down_spec (n - 1 - idx) idx (hits f)) as (hs & -> & Lh & Sh); [lia|]. osimpl.
  destruct (shift_down_spec (n - 1 - idx) idx (hit_bytes f)) as (hb & -> & Lb & Sb); [lia|]. osimpl.
  rewrite !store_Done by lia. osimpl. do 2 eexists. split; [done|]. rewrite wrap8_id by auto with machine.
  split; [split; cbn; rewrite ?length_insert; lia|]. split; [done|]. split; [done|]. split; [lia|]. cbn.
  replace (Z.to_nat (nrules (admin f) - 1)) with (n - 1)%nat by lia.
  by apply delete_at; [lia|..].
Qed.

(** ** Configurations *)

Lemma load_config_spec c f :
  config_ok c -> fw_ok f ->
  exists f', load_config_unchecked c f = Done f' /\ fw_ok f' /\ active f' = take (c_n c) (c_rules c) /\
    policy_in (admin f') = c_policy_in c /\ policy_out (admin f') = c_policy_out c /\
    disabled (admin f') = disabled (admin f) /\ locked (admin f') = locked (admin f) /\
    conns f' = conns f /\ expects f' = expects f.
Proof.
  intros [Hl Hn] [H1 H2 H3 H4 H5 H6]. assert (HM : Z.of_nat MAX_RULES = 32) by done.
  unfold load_config_unchecked. rewrite slice_to_Done by lia. osimpl.
  assert (Ht : length (take (c_n c) (c_rules c)) = c_n c) by (rewrite length_take; lia).
  rewrite copy_prefix_Done by (rewrite Ht, length_replicate; done). osimpl. eexists. split; [done|].
  rewrite wrap8_id by auto with machine. split; [|split; [|done]].
  - split; cbn [set_rules admin rules nrules hits hit_bytes conns expects];
      rewrite ?length_app, ?length_drop, ?length_replicate, ?Ht; try done; lia.
  - unfold active, rule_count. cbn [set_rules admin rules nrules]. rewrite Nat2Z.id. rewrite <- Ht at 1.
    by rewrite take_app_length.
Qed.

Lemma new_ok : fw_ok Firewall_new.
Proof. split; try apply length_replicate. cbn. lia. Qed.

Lemma init_spec f : exists f', init f = Done f' /\ fw_ok f'.
Proof.
  unfold init. pose proof (parse_config_ok BASELINE) as Hp. destruct (parse_config BASELINE) as [c|e|]; [|by eexists; split; [|apply new_ok]|done].
  destruct (load_config_spec c Firewall_new Hp new_ok) as (f' & -> & Hok & _). eauto.
Qed.

(** ** The kernel's calls *)

Inductive call : Type :=
| CInit
| CSelftest
| CLoad (text : option (list Z)) (len : Z)
| CFilter (dir src dst pr frag : Z) (payload : option (list Z)) (len now : Z)
| CProbe (inp : option (list Z)) (out_given : bool) (now : Z)
| CAdd (text : option (list Z)) (len pos : Z)
| CDel (idx : Z)
| CFlushRules
| CPolicy (dir accept : Z)
| CEnable (on : Z)
| CLock
| CFlushConns
| CInfo (now : Z)
| CGetRule (idx : Z)
| CGetConn (n now : Z).

(** The return value and the words written through out pointers. *)
Definition run_call (c : call) (f : Firewall) : outcome (Z * list Z * Firewall) :=
  match c with
  | CInit => f ← rust_fw_init f; Done (0, [], f)
  | CSelftest => '(h, t) ← rust_fw_selftest; Done (h, [t], f)
  | CLoad text len =>
      '(r, o, f) ← rust_fw_load_config text len f;
      Done (r, match o with Some (k, l) => [k; l] | None => [] end, f)
  | CFilter dir src dst pr frag payload len now =>
      '(r, o, f) ← rust_fw_filter dir src dst pr frag payload len now f;
      Done (r, default [] o, f)
  | CProbe inp out now => '(r, o, f) ← rust_fw_probe inp out now f; Done (r, default [] o, f)
  | CAdd text len pos => '(r, f) ← rust_fw_add_rule text len pos f; Done (r, [], f)
  | CDel idx => '(r, f) ← rust_fw_del_rule idx f; Done (r, [], f)
  | CFlushRules => let '(r, f) := rust_fw_flush_rules f in Done (r, [], f)
  | CPolicy dir accept => let '(r, f) := rust_fw_set_policy dir accept f in Done (r, [], f)
  | CEnable on => let '(r, f) := rust_fw_set_enabled on f in Done (r, [], f)
  | CLock => Done (0, [], rust_fw_lock f)
  | CFlushConns => Done (0, [], rust_fw_flush_conns f)
  | CInfo now => Done (0, rust_fw_info now f, f)
  | CGetRule idx => '(r, o) ← rust_fw_get_rule idx f; Done (r, default [] o, f)
  | CGetConn n now => let '(r, o) := rust_fw_get_conn n now f in Done (r, default [] o, f)
  end.

(** Packets are bytes, a probe describes a packet in 18 words. *)
Definition call_ok (c : call) : Prop :=
  match c with
  | CFilter _ _ _ _ _ (Some d) _ _ => Forall is_u8 d
  | CProbe (Some i) _ _ => length i = 18%nat
  | _ => True
  end.

Definition is_boot (c : call) : bool := match c with CInit => true | _ => false end.

(** A call returns, keeps the arrays in shape, and a locked firewall its rules. *)
Definition returns (c : call) (f : Firewall) : Prop :=
  exists r w f', run_call c f = Done (r, w, f') /\ fw_ok f' /\
    (is_boot c = false -> locked (admin f) = true -> admin f' = admin f).

Lemma bytes_of_u8 d n t : Forall is_u8 (default [] d) -> bytes_of d n = Some t -> Forall is_u8 t.
Proof.
  intros Hd. unfold bytes_of. destruct (n =? 0); [by intros [= <-]|]. destruct d as [d|]; [|done].
  destruct (_ <? n); [done|]. intros [= <-]. by apply Forall_take.
Qed.

Lemma probe_packet_spec i : length i = 18%nat -> exists p w, probe_packet i = Done p /\ index i 11 = Done w.
Proof. intros Hi. repeat (destruct i as [|? i]; [done|]). destruct i; [|done]. eexists _, _. split; reflexivity. Qed.

Section calls.
  Context (f : Firewall) (Hok : fw_ok f).

Lemma load_returns text len : returns (CLoad text len) f.
Proof.
  unfold returns. cbn [run_call is_boot]. unfold rust_fw_load_config, apply_config, is_locked.
  destruct (bytes_of text len) as [t|]; osimpl; [|by do 3 eexists].
  destruct (locked (admin f)) eqn:Hl; osimpl; [by do 3 eexists|].
  pose proof (parse_config_ok t) as Hp. destruct (parse_config t) as [c|e|]; [|osimpl; by do 3 eexists|done].
  destruct (load_config_spec c f Hp Hok) as (f' & -> & Hok' & _). osimpl. by do 3 eexists.
Qed.

Lemma filter_returns dir src dst pr frag payload len now :
  call_ok (CFilter dir src dst pr frag payload len now) -> returns (CFilter dir src dst pr frag payload len now) f.
Proof.
  intros Hc. unfold returns. cbn [run_call is_boot]. unfold rust_fw_filter.
  destruct (bytes_of payload len) as [t|] eqn:Hb; osimpl; [|by do 3 eexists].
  destruct (parse_packet_total (if dir =? 0 then DIR_IN else DIR_OUT) src dst (wrap8 pr) (negb (frag =? 0)) t) as (p & -> & _).
  { apply (bytes_of_u8 payload len); [|done]. by destruct payload. }
  osimpl. destruct (filter_spec p now true f Hok) as (v & f' & -> & Hf). osimpl.
  do 3 eexists. split; [done|]. split; [apply Hf|]. intros _ _. apply Hf.
Qed.

Lemma probe_returns inp out now : call_ok (CProbe inp out now) -> returns (CProbe inp out now) f.
Proof.
  intros Hc. unfold returns. cbn [run_call is_boot]. unfold rust_fw_probe.
  destruct inp as [i|]; osimpl; [|by do 3 eexists]. destruct out; cbn [negb]; osimpl; [|by do 3 eexists].
  destruct (probe_packet_spec i Hc) as (p & w & -> & ->). osimpl.
  destruct (filter_spec p now (negb (w =? 0)) f Hok) as (v & f' & -> & Hf). osimpl.
  do 3 eexists. split; [done|]. split; [apply Hf|]. intros _ _. apply Hf.
Qed.

Lemma add_returns text len pos : returns (CAdd text len pos) f.
Proof.
  unfold returns. cbn [run_call is_boot]. unfold rust_fw_add_rule, add_rule_text.
  destruct (bytes_of text len) as [t|]; osimpl; [|by do 3 eexists].
  destruct (is_locked f) eqn:Hl; osimpl; [by do 3 eexists|].
  pose proof (parse_rule_no_crash t) as Hp. destruct (parse_rule t) as [r|e|]; [|osimpl; by do 3 eexists|done].
  destruct (add_rule_spec (if pos =? 4294967295 then rule_count f else Z.to_nat pos) r f Hok) as (res & f' & -> & Hok' & _).
  osimpl. do 3 eexists. split; [done|]. split; [done|]. intros _ Hl'. unfold is_locked in Hl. congruence.
Qed.

Lemma del_returns idx : returns (CDel idx) f.
Proof.
  unfold returns. cbn [run_call is_boot]. unfold rust_fw_del_rule.
  destruct (del_rule_spec (Z.to_nat idx) f Hok) as (res & f' & -> & Hok' & _ & Hres). osimpl.
  do 3 eexists. split; [done|]. split; [done|]. intros _ Hl.
  destruct res as [[]|[]]; [|by destruct Hres as [-> _]..|done|done]. destruct Hres as [Hres _]. congruence.
Qed.

Lemma get_rule_returns idx : returns (CGetRule idx) f.
Proof.
  unfold returns. cbn [run_call is_boot]. unfold rust_fw_get_rule, rule_at.
  pose proof (ok_nrules f Hok) as Hn. destruct (_ <? _)%nat eqn:E; osimpl; [|by do 3 eexists].
  unfold rule_count in E.
  destruct (lookup_lt_is_Some_2 (rules (admin f)) (Z.to_nat idx)) as [r Hr]; [rewrite (ok_rules f Hok); lia|].
  destruct (lookup_lt_is_Some_2 (hits f) (Z.to_nat idx)) as [h Hh]; [rewrite (ok_hits f Hok); lia|].
  destruct (lookup_lt_is_Some_2 (hit_bytes f) (Z.to_nat idx)) as [b Hb]; [rewrite (ok_hit_bytes f Hok); lia|].
  rewrite (index_at Hr), (index_at Hh), (index_at Hb). osimpl.
  by do 3 eexists.
Qed.

Lemma fw_selftest_run : selftest = Done (13, 13).
Proof. vm_compute. reflexivity. Qed.

Lemma run_call_selftest : run_call CSelftest f = Done (13, [13], f).
Proof. unfold run_call, rust_fw_selftest. rewrite fw_selftest_run. reflexivity. Qed.

Lemma run_call_returns c : call_ok c -> returns c f.
Proof.
  intros Hc. destruct c.
  - unfold returns. cbn [run_call is_boot]. unfold rust_fw_init. destruct (init_spec f) as (f' & -> & Hok'). osimpl. by do 3 eexists.
  - unfold returns. rewrite run_call_selftest. by do 3 eexists.
  - apply load_returns.
  - by apply filter_returns.
  - by apply probe_returns.
  - apply add_returns.
  - apply del_returns.
  - unfold returns, run_call, rust_fw_flush_rules, flush_rules, is_locked. destruct (locked (admin f)); [by do 3 eexists|].
    do 3 eexists. split; [done|]. split; [|done]. destruct Hok. split; try apply length_replicate; done.
  - unfold returns, run_call, rust_fw_set_policy, set_policy, is_locked.
    destruct (dir =? 0); [|destruct (dir =? 1); [|by do 3 eexists]]; (destruct (locked (admin f)); [by do 3 eexists|]);
      (do 3 eexists; split; [done|]; split; [|done]; destruct Hok; by split).
  - unfold returns, run_call, rust_fw_set_enabled, set_enabled, is_locked. destruct (locked (admin f)); [by do 3 eexists|].
    do 3 eexists. split; [done|]. split; [|done]. destruct Hok. by split.
  - unfold returns. do 3 eexists. split; [done|]. split; [destruct Hok; by split|]. intros _ Hl.
    cbn. rewrite <- Hl. by destruct (admin f).
  - unfold returns. do 3 eexists. split; [done|]. split; [|done]. destruct Hok. split; try done; apply length_replicate.
  - by do 3 eexists.
  - apply get_rule_returns.
  - unfold returns. cbn [run_call is_boot]. destruct (rust_fw_get_conn n now f) as [r o]. by do 3 eexists.
Qed.
End calls.
