(* ===== verification/FwProps.v ===== *)
(** * The firewall: the properties *)

From S2P Require Import Prelude Bytes FwPkt FwConf Fw FwInv FwFlow FwSpec FwAdmin.
Local Open Scope Z_scope.

(** ** Reachable states *)

Definition fw_step (f f' : Firewall) : Prop := exists c r w, call_ok c /\ run_call c f = Done (r, w, f').

Definition fw_reachable (f : Firewall) : Prop := rtc fw_step Firewall_new f.

Lemma fw_step_ok f f' : fw_step f f' -> fw_ok f -> fw_ok f'.
Proof.
  intros (c & r & w & Hc & Hr) Hok. destruct (run_call_returns f Hok c Hc) as (r' & w' & f1 & E & Hok1 & _).
  congruence.
Qed.

Lemma fw_reachable_ok f : fw_reachable f -> fw_ok f.
Proof. intros Hr. apply (rtc_invariant fw_step fw_ok fw_step_ok _ _ Hr), new_ok. Qed.

(** The state keeps its type. From an uninitialised firewall on, whatever calls are
    made, the next call returns without an index out of range, and rule list, counters,
    flow table and expectations keep their sizes with at most [MAX_RULES] rules; the boot
    self-test passes all of its checks. *)
Theorem fw_calls_return f c :
  fw_reachable f -> call_ok c ->
  exists r w f', run_call c f = Done (r, w, f') /\ fw_ok f' /\
    (c = CSelftest -> r = 13 /\ w = [13] /\ f' = f).
Proof.
  intros Hr Hc. destruct (run_call_returns f (fw_reachable_ok f Hr) c Hc) as (r & w & f' & E & Hok & _).
  exists r, w, f'. split; [done|]. split; [done|]. intros ->.
  rewrite run_call_selftest in E. by injection E as <- <- <-.
Qed.

(** A sequence of calls. *)
Fixpoint run_calls (cs : list call) (f : Firewall) : outcome Firewall :=
  match cs with
  | [] => Done f
  | c :: cs' => '(_, _, f) ← run_call c f; run_calls cs' f
  end.

Lemma run_calls_locked cs f :
  fw_ok f -> locked (admin f) = true -> Forall (fun c => call_ok c /\ is_boot c = false) cs ->
  exists f', run_calls cs f = Done f' /\ admin f' = admin f.
Proof.
  intros Hok Hl Hcs. revert f Hok Hl. induction Hcs as [|c cs [Hc Hb] Hcs IH]; intros f Hok Hl; [by eexists|].
  cbn [run_calls]. destruct (run_call_returns f Hok c Hc) as (r & w & f1 & -> & Hok1 & Ha). osimpl.
  specialize (Ha Hb Hl). destruct (IH f1 Hok1) as (f' & E & Ha'); [by rewrite Ha|]. exists f'. by rewrite Ha', Ha.
Qed.

(** The lock is one-way. Once locked, no sequence of calls short of a reboot changes a
    rule, a policy, the enable flag or the lock itself. *)
Theorem fw_lock_final f cs :
  fw_reachable f -> locked (admin f) = true -> Forall (fun c => call_ok c /\ is_boot c = false) cs ->
  exists f', run_calls cs f = Done f' /\ admin f' = admin f.
Proof. intros Hr. by apply run_calls_locked, fw_reachable_ok. Qed.

(** ** Packets *)

(** The packet parser reads inside the packet only, whatever the bytes, and never
    panics. A fragment and an unknown protocol are marked as such; a TCP segment is marked
    well-formed exactly when its header is whole and lies inside it, and then its ports and
    flags are the header's in network order; likewise a UDP datagram with its length
    field. *)
Theorem fw_parse_packet_safe dir src dst pr frag d :
  Forall is_u8 d ->
  exists p, parse_packet dir src dst pr frag d = Done p /\ framed dir src dst pr p /\
    (frag = true -> p_bad p = BAD_FRAGMENT) /\
    (frag = false -> pr = PROTO_TCP ->
       (p_bad p = BAD_NONE <-> (20 <= length d)%nat /\ (20 <= tcp_header d <= length d)%nat) /\
       (p_bad p = BAD_NONE -> at16 d 0 = Some (p_sport p) /\ at16 d 2 = Some (p_dport p) /\
          exists fl, d !! 13%nat = Some fl /\ p_flags p = Z.land fl 0x3F)) /\
    (frag = false -> pr = PROTO_UDP ->
       (p_bad p = BAD_NONE <-> exists ulen, at16 d 4 = Some ulen /\ 8 <= ulen <= Z.of_nat (length d)) /\
       (p_bad p = BAD_NONE -> at16 d 0 = Some (p_sport p) /\ at16 d 2 = Some (p_dport p))) /\
    (frag = false -> pr <> PROTO_TCP -> pr <> PROTO_UDP -> pr <> PROTO_ICMP -> p_bad p = BAD_UNSUPPORTED).
Proof.
  intros Hd. destruct (parse_packet_total dir src dst pr frag d Hd) as (p & E & Hp). exists p.
  split; [done|]. split; [done|]. unfold parse_packet in E. destruct frag; [by injection E as <-|].
  split; [done|]. split_and!; intros _.
  - intros ->. cbn [Z.eqb PROTO_TCP Pos.eqb] in E.
    destruct (parse_tcp_spec dir src dst PROTO_TCP d (head dir src dst PROTO_TCP d)) as (q & E' & _ & Hq);
      [done|apply head_framed|done|]. assert (q = p) as -> by congruence. done.
  - intros ->. cbn [Z.eqb PROTO_TCP PROTO_UDP Pos.eqb] in E.
    destruct (parse_udp_spec dir src dst PROTO_UDP d (head dir src dst PROTO_UDP d)) as (q & E' & _ & Hq);
      [done|apply head_framed|done|]. assert (q = p) as -> by congruence. done.
  - intros H1 H2 H3. replace (pr =? PROTO_TCP) with false in E by lia. replace (pr =? PROTO_UDP) with false in E by lia.
    replace (pr =? PROTO_ICMP) with false in E by lia. by injection E as <-.
Qed.

(** ** Verdicts *)


(** ** Flows *)

Lemma tables_live p now cls f f' i c :
  tables p now cls f f' -> conns f !! i = Some c -> live now c = true ->
  exists c', conns f' !! i = Some c' /\
    (same_flow c c' \/
     (finished c /\ tcp_class (p_flags p) = Some Syn /\ fresh p c' /\ exists s, side_of c (key_of p) = Some s)).
Proof.
  intros Ht Hc Hl. destruct (Forall2_lookup_l _ _ _ _ _ (tb_conns _ _ _ _ _ Ht) Hc) as (c' & Hc' & Hto).
  exists c'. split; [done|]. destruct Hto as [|c' _ Hs|c' _ Hre _|c' j s _ _ Hs Hfin Hsyn Hfr].
  - by left.
  - by left.
  - unfold live, reusable in *. destruct (used c), (expired (expires c) now); done.
  - right. eauto.
Qed.

(** C34: What a packet can do to the tracked flows. A dry run changes nothing at all; a
    dropped packet changes no flow and no expectation; and no packet evicts a live flow:
    each stays in its slot, unless it is a finished TCP connection and the packet is an
    accepted SYN for the same pair of endpoints. *)
Theorem fw_flows_kept f p now b v f' :
  fw_reachable f -> filter p now b f = Done (v, f') ->
  (b = false -> f' = f) /\
  (v_accept v = false -> conns f' = conns f /\ expects f' = expects f) /\
  forall i c, conns f !! i = Some c -> live now c = true ->
  exists c', conns f' !! i = Some c' /\
    (same_flow c c' \/
     (v_accept v = true /\ finished c /\ tcp_class (p_flags p) = Some Syn /\ fresh p c' /\
      exists s, side_of c (key_of p) = Some s)).
Proof.
  intros Hr E. destruct (filter_spec p now b f (fw_reachable_ok f Hr)) as (v1 & f1 & E1 & Hf).
  assert (v1 = v /\ f1 = f') as [-> ->] by (split; congruence). split; [apply Hf|].
  assert (Hsame : conns f' = conns f /\ expects f' = expects f ->
    forall i c, conns f !! i = Some c -> exists c', conns f' !! i = Some c' /\ same_flow c c').
  { intros [-> _] i c Hc. by exists c. }
  destruct (disabled (admin f)) eqn:Hdis.
  { destruct (fl_off _ _ _ _ _ _ Hf Hdis) as [Hv ->]. split; [congruence|]. intros i c Hc _. exists c. split; [done|by left]. }
  destruct (fl_on _ _ _ _ _ _ Hf Hdis) as (cls & _ & _ & _ & Htab). destruct (v_accept v); cbn [andb] in Htab.
  - split; [done|]. intros i c Hc Hl. destruct b.
    + destruct (tables_live _ _ _ _ _ i c Htab Hc Hl) as (c' & Hc' & H). exists c'. split; [done|].
      destruct H as [?|(? & ? & ? & ?)]; [by left|right; eauto 10].
    + destruct (Hsame Htab i c Hc) as (c' & ? & ?). eauto.
  - split; [done|]. intros i c Hc Hl. destruct (Hsame Htab i c Hc) as (c' & ? & ?). eauto.
Qed.

(** ** Nothing gets in unasked *)

(** Inbound, only packets of existing or expected flows are accepted: no rule that accepts
    inbound traffic covers NEW, and the policy drops the rest. The built-in configuration is
    like that. *)
Definition guarded (a : Rules) : Prop :=
  disabled a = false /\ policy_in a = false /\
  forall i r, (i < Z.to_nat (nrules a))%nat -> rules a !! i = Some r -> r_accept r = true ->
    r_dir r = DIR_OUT \/ (r_states r <> 0 /\ Z.land (r_states r) ST_NEW = 0).

Lemma matches_inv r p st :
  matches r p st = true ->
  (r_dir r = DIR_ANY \/ r_dir r = p_dir p) /\ (r_states r = 0 \/ Z.land (r_states r) st <> 0).
Proof.
  unfold matches. destruct (negb (r_dir r =? DIR_ANY) && _) eqn:E1; [done|].
  destruct (negb (r_proto r =? 0) && _); [done|]. destruct (negb (Z.land (p_src p) _ =? _) || _); [done|].
  destruct (r_sp_set r && _); [done|]. destruct (r_dp_set r && _); [done|].
  destruct (negb (r_states r =? 0) && _) eqn:E2; [done|]. intros _. lia.
Qed.

Lemma guarded_inbound a p st : guarded a -> p_dir p = DIR_IN -> allowed a p st -> st <> ST_NEW.
Proof.
  intros (_ & Hpol & Hrules) Hdir [(i & r & Hi & Hr & Hm & _ & Hacc)|[_ Hp]] ->.
  - apply matches_inv in Hm as [Hd Hs]. destruct (Hrules i r Hi Hr Hacc) as [E|[Hn Hz]].
    + rewrite E, Hdir in Hd. by destruct Hd.
    + by destruct Hs.
  - unfold policy_for in Hp. rewrite Hdir, Hpol in Hp. done.
Qed.

Definition conn_key (c : Conn) : Key := mkKey (proto c) (a_ip c) (a_port c) (b_ip c) (b_port c).
Definition reversed (k : Key) : Key := mkKey (k_proto k) (k_dst k) (k_dport k) (k_src k) (k_sport k).

(** [k] is what a TFTP server answers to the request [q]: from its address, to the port that
    asked. *)
Definition tftp_answer (q : Pkt) (k : Key) : Prop :=
  p_proto q = PROTO_UDP /\ p_dport q = TFTP_PORT /\ k_proto k = PROTO_UDP /\
  k_src k = p_dst q /\ k_dst k = p_src q /\ k_dport k = p_sport q.

(** The endpoints of [k] are those of [q], either way round, or of an answer [q] asked for. *)
Definition concerns (q : Pkt) (k : Key) : Prop :=
  k = key_of q \/ reversed k = key_of q \/ tftp_answer q k \/ tftp_answer q (reversed k).

Lemma reversed_reversed k : reversed (reversed k) = k.
Proof. by destruct k. Qed.

Lemma concerns_reversed q k : concerns q k -> concerns q (reversed k).
Proof. unfold concerns. rewrite reversed_reversed. intuition auto. Qed.

Lemma side_of_key c k s : side_of c k = Some s -> k = conn_key c \/ k = reversed (conn_key c).
Proof.
  unfold side_of, conn_key, reversed. destruct k as [kp ks ksp kd kdp]. cbn.
  destruct (proto c =? kp) eqn:Ep; cbn [negb]; [|done].
  destruct ((a_ip c =? ks) && _ && _ && _) eqn:E1; [intros _; left; f_equal; lia|].
  destruct ((b_ip c =? ks) && _ && _ && _) eqn:E2; [|done]. intros _. right. f_equal; lia.
Qed.

Lemma concerns_side q c k s : concerns q (conn_key c) -> side_of c k = Some s -> concerns q k.
Proof. intros Hq [->| ->]%side_of_key; [done|]. by apply concerns_reversed. Qed.

(** The firewall after traffic, with the outbound packets it let through so far. *)
Inductive traffic : list Pkt -> Firewall -> Prop :=
| traffic_start f :
    fw_reachable f -> guarded (admin f) ->
    Forall (fun c => used c = false) (conns f) -> Forall (fun e => e_used e = false) (expects f) -> traffic [] f
| traffic_packet sent f p now b v f' :
    traffic sent f -> filter p now b f = Done (v, f') ->
    traffic (if v_accept v && b && negb (p_dir p =? DIR_IN) then p :: sent else sent) f'
| traffic_lock sent f : traffic sent f -> traffic sent (rust_fw_lock f)
| traffic_flush sent f : traffic sent f -> traffic sent (rust_fw_flush_conns f).

(** Every tracked flow and every expectation goes back to a packet we sent. *)
Record asked (sent : list Pkt) (f : Firewall) : Prop := {
  as_ok : fw_ok f;
  as_guarded : guarded (admin f);
  as_conns : forall i c, conns f !! i = Some c -> used c = true -> exists q, q ∈ sent /\ concerns q (conn_key c);
  as_expects : forall j e, expects f !! j = Some e -> e_used e = true ->
    exists q, q ∈ sent /\ p_proto q = PROTO_UDP /\ p_dport q = TFTP_PORT /\
              e_remote_ip e = p_dst q /\ e_local_ip e = p_src q /\ e_local_port e = p_sport q;
}.

Lemma asked_more sent sent' f : asked sent f -> (forall q, q ∈ sent -> q ∈ sent') -> asked sent' f.
Proof. intros [H1 H2 H3 H4] Hs. split; [done|done|..]; naive_solver. Qed.

(** An inbound packet that is admitted belongs to a flow or is expected. *)
Lemma admitted_inbound p now f cls :
  guarded (admin f) -> cls_ok p now f cls -> admitted p now f cls -> p_dir p = DIR_IN ->
  match cls with Existing _ _ _ _ | Related _ | RelatedNew _ => True | _ => False end.
Proof.
  intros Hg Hc (_ & _ & Hinv & st & Hst & Hall & _) Hdir. pose proof (guarded_inbound _ _ _ Hg Hdir Hall) as Hn.
  destruct (state_of_spec p now f cls Hc) as (st' & Hst' & _ & Hcls). assert (st' = st) as -> by congruence.
  by destruct cls.
Qed.

Lemma expect_concerns sent f p now e j :
  asked sent f -> expects f !! j = Some e -> expects_packet p now e = true -> p_proto p = PROTO_UDP ->
  exists q, q ∈ sent /\ concerns q (key_of p).
Proof.
  intros Ha He Hx Hp. unfold expects_packet, awaited in Hx. rewrite !andb_true_iff in Hx.
  destruct Hx as [[[[Hu _] H1] H2] H3]. destruct (as_expects _ _ Ha j e He Hu) as (q & Hq & Hqp & Hqd & E1 & E2 & E3).
  exists q. split; [done|]. right. right. left. unfold tftp_answer, key_of. rewrite Hp. cbn.
  split_and!; try done; lia.
Qed.

(** An accepted packet keeps the table answerable. *)
Lemma tables_asked sent p now cls f f' :
  asked sent f -> cls_ok p now f cls -> admitted p now f cls -> tables p now cls f f' ->
  asked (if p_dir p =? DIR_IN then sent else p :: sent) f'.
Proof.
  intros Ha Hc Hadm Ht. set (sent' := if p_dir p =? DIR_IN then sent else p :: sent).
  assert (Hmore : forall q, q ∈ sent -> q ∈ sent') by (unfold sent'; destruct (_ =? _); set_solver).
  assert (Hself : p_dir p <> DIR_IN -> p ∈ sent')
    by (intros; unfold sent'; replace (p_dir p =? DIR_IN) with false by lia; set_solver).
  assert (Hfresh : forall c, fresh p c -> (needs_slot cls = true \/ exists i, cls = Replace i) ->
                             exists q, q ∈ sent' /\ concerns q (conn_key c)).
  { intros c (_ & Hpr & _ & Hk) Hcls. change (mkKey _ _ _ _ _) with (conn_key c) in Hk. rewrite Hk.
    destruct (decide (p_dir p = DIR_IN)) as [Hin|Hout]; [|exists p; split; [by apply Hself|by left]].
    pose proof (admitted_inbound p now f cls (as_guarded _ _ Ha) Hc Hadm Hin) as Hkind.
    destruct cls as [| | |j| |]; try done; try (by destruct Hcls as [?|[? ?]]).
    destruct Hc as (e & He & Hx & _ & Hudp).
    destruct (expect_concerns sent f p now e j Ha He Hx Hudp) as (q & Hq & Hcq). exists q. auto. }
  split; [apply Ht|rewrite (tb_admin _ _ _ _ _ Ht); apply Ha|..].
  - intros i c' Hc' Hu. destruct (Forall2_lookup_r _ _ _ _ _ (tb_conns _ _ _ _ _ Ht) Hc') as (c & Hci & Hto).
    destruct Hto as [|c' _ Hs|c' Hn _ Hf|c' k s Hk _ _ _ _ Hf].
    + destruct (as_conns _ _ Ha i c Hci Hu) as (q & Hq & ?). exists q. auto.
    + destruct Hs as (Hu' & H1 & _ & _ & H2 & H3 & H4 & H5). rewrite Hu' in Hu.
      destruct (as_conns _ _ Ha i c Hci Hu) as (q & Hq & Hcon). exists q. split; [auto|].
      unfold conn_key. by rewrite H1, H2, H3, H4, H5.
    + apply Hfresh; [done|]. by left.
    + apply Hfresh; [done|]. right. eauto.
  - intros j e' He' Hu. destruct (Forall2_lookup_r _ _ _ _ _ (tb_expects _ _ _ _ _ Ht) He') as (e & Hej & Hto).
    destruct Hto as [|e' Hno|t _ Hp Hd Hdp].
    + destruct (as_expects _ _ Ha j e Hej Hu) as (q & Hq & ?). exists q. auto.
    + congruence.
    + exists p. split; [apply Hself; by rewrite Hd|]. done.
Qed.

Lemma asked_same sent f f' :
  asked sent f -> fw_ok f' -> admin f' = admin f -> conns f' = conns f -> expects f' = expects f -> asked sent f'.
Proof.
  intros [H1 H2 H3 H4] Hok Ha Hc He. split; [done|by rewrite Ha|by rewrite Hc|by rewrite He].
Qed.

Lemma traffic_asked sent f : traffic sent f -> asked sent f.
Proof.
  induction 1 as [f Hr Hg Hc He|sent f p now b v f' Ht IH E|sent f Ht IH|sent f Ht IH].
  - split; [by apply fw_reachable_ok|done|..].
    + intros i c Hi Hu. pose proof (Forall_lookup_1 _ _ _ _ Hc Hi). congruence.
    + intros j e Hj Hu. pose proof (Forall_lookup_1 _ _ _ _ He Hj). congruence.
  - destruct (filter_spec p now b f (as_ok _ _ IH)) as (v1 & f1 & E1 & Hf).
    assert (v1 = v /\ f1 = f') as [-> ->] by (split; congruence).
    destruct (fl_on _ _ _ _ _ _ Hf) as (cls & Hc & _ & Hacc & Htab); [apply IH|].
    destruct (v_accept v && b) eqn:Ev; cbn [andb].
    + apply andb_true_iff in Ev as [Ev _]. apply Hacc in Ev.
      pose proof (tables_asked sent p now cls f f' IH Hc Ev Htab) as H. by destruct (p_dir p =? DIR_IN).
    + destruct Htab. apply (asked_same sent f); [done|apply Hf|apply Hf|done|done].
  - destruct IH as [[] [Hd [Hp Hr]] H3 H4]. split; [by split|by split_and!|done|done].
  - destruct IH as [[] Hg H3 H4]. split; [split; try done; apply length_replicate|done|..].
    + intros i c [-> _]%lookup_replicate_1 Hu. done.
    + intros j e [-> _]%lookup_replicate_1 Hu. done.
Qed.

(** C6: Nothing gets in unless we asked for it. Under a configuration such as the built-in
    one, starting from empty tables, every inbound packet that is ever let in answers a
    packet that was let out before: it has the endpoints of that packet, or those a TFTP
    server answers from, or is an ICMP error that quotes such a packet. *)
Theorem fw_nothing_unasked sent f p now b v f' :
  traffic sent f -> p_dir p = DIR_IN -> filter p now b f = Done (v, f') -> v_accept v = true ->
  exists q, q ∈ sent /\
    (concerns q (key_of p) \/
     (p_proto p = PROTO_ICMP /\ exists inner, p_inner p = Some inner /\ concerns q (inner_key inner))).
Proof.
  intros Ht Hdir E Hv. apply traffic_asked in Ht.
  destruct (filter_spec p now b f (as_ok _ _ Ht)) as (v1 & f1 & E1 & Hf).
  assert (v1 = v) as -> by congruence.
  destruct (fl_on _ _ _ _ _ _ Hf) as (cls & Hc & _ & Hacc & _); [apply Ht|]. apply Hacc in Hv.
  pose proof (admitted_inbound p now f cls (as_guarded _ _ Ht) Hc Hv Hdir) as Hkind.
  assert (Hlive : forall c, live now c = true -> used c = true) by (intros c; unfold live; by destruct (used c)).
  destruct cls as [d|i s nx ff|i|j| |i]; try done.
  - destruct Hc as (c & Hci & Hl & Hs). destruct (as_conns _ _ Ht i c Hci (Hlive c Hl)) as (q & Hq & Hcon).
    exists q. split; [done|]. left. by eapply concerns_side.
  - destruct Hc as (c & inner & s & Hci & Hl & Hp & Hin & Hs).
    destruct (as_conns _ _ Ht i c Hci (Hlive c Hl)) as (q & Hq & Hcon).
    exists q. split; [done|]. right. split; [done|]. exists inner. split; [done|]. by eapply concerns_side.
  - destruct Hc as (e & He & Hx & _ & Hudp).
    destruct (expect_concerns sent f p now e j Ht He Hx Hudp) as (q & Hq & Hcq). eauto.
Qed.

(** ** The rule list *)

(** Rules are edited as a list. An added rule takes the place asked for and moves the
    later ones back; a deleted one closes the gap; a refusal (locked, full, no such place)
    changes nothing, and neither edit touches flows, policies or statistics. *)
Theorem fw_rules_edited f pos r idx :
  fw_reachable f ->
  (exists res f', add_rule pos r f = Done (res, f') /\ same_but_rules f f' /\
     match res with
     | Ok _ => locked (admin f) = false /\ (pos <= rule_count f < MAX_RULES)%nat /\
               active f' = take pos (active f) ++ r :: drop pos (active f)
     | Err Locked => f' = f /\ locked (admin f) = true
     | Err Full => f' = f /\ rule_count f = MAX_RULES
     | Err BadIndex => f' = f /\ (rule_count f < pos)%nat
     | Err (Parse _) => False
     end) /\
  (exists res f', del_rule idx f = Done (res, f') /\ same_but_rules f f' /\
     match res with
     | Ok _ => locked (admin f) = false /\ (idx < rule_count f)%nat /\ active f' = delete idx (active f)
     | Err Locked => f' = f /\ locked (admin f) = true
     | Err BadIndex => f' = f /\ (rule_count f <= idx)%nat
     | Err _ => False
     end).
Proof.
  intros Hr. pose proof (fw_reachable_ok f Hr) as Hok. split.
  - destruct (add_rule_spec pos r f Hok) as (res & f' & E & _ & H). by exists res, f'.
  - destruct (del_rule_spec idx f Hok) as (res & f' & E & _ & H). by exists res, f'.
Qed.

(** ** Time *)

(** A datagram we send, and its answer. *)
Definition asks : Pkt := mkPkt DIR_OUT PROTO_UDP us peer 5000 53 0 0 0 0 0 BAD_NONE None.
Definition answers : Pkt := mkPkt DIR_IN PROTO_UDP peer us 53 5000 0 0 0 0 0 BAD_NONE None.

(** The built-in configuration, the two packets, and the answer once more at each of [ts]. *)
Fixpoint answered (ts : list Z) (f : Firewall) : outcome (list bool) :=
  match ts with
  | [] => Done []
  | t :: ts' =>
      '(v, f) ← filter answers t true f;
      vs ← answered ts' f;
      Done (v_accept v :: vs)
  end.

Definition long_run (ts : list Z) : outcome (list bool) :=
  f ← init Firewall_new;
  '(_, f) ← filter asks 0 true f;
  answered ts f.

Lemma expired_spec e d : is_u32 e -> 0 <= d < 2147483648 ->
  expired e (wrap32 (e + d)) = true /\ expired e (wrap32 (e + 2147483648 + d)) = false.
Proof.
  unfold is_u32, expired, wrap32. intros He Hd. rewrite !Zminus_mod_idemp_l.
  replace (e + d - e) with d by lia. replace (e + 2147483648 + d - e) with (2147483648 + d) by lia.
  rewrite !Z.mod_small by lia. lia.
Qed.

(** A flow that has expired and whose slot has not been reused is taken for live again
    once the tick counter is [2^31] ticks (248 days at 100 Hz) past its deadline, and stays
    so for another [2^31] ticks. The answer to a datagram is let in after one tick, dropped
    180 seconds later, and let in again 248 days after that, although nothing was sent in
    between. *)
Theorem fw_idle_flow_revives :
  (forall c d, used c = true -> is_u32 (expires c) -> 0 <= d < 2147483648 ->
     live (wrap32 (expires c + d)) c = false /\ live (wrap32 (expires c + 2147483648 + d)) c = true) /\
  long_run [1; 1 + T_UDP_REPLIED; 1 + T_UDP_REPLIED + 2147483648] = Done [true; false; true].
Proof.
  split; [|vm_compute; reflexivity]. intros c d Hu He Hd. destruct (expired_spec (expires c) d He Hd) as [E1 E2].
  unfold live. by rewrite Hu, E1, E2.
Qed.

(** * The firewall: the properties at concrete states *)

Definition of_outcome {A} (d : A) (o : outcome A) : A := match o with Done a => a | Panic => d end.

(** The firewall after boot, after one datagram went out, and locked. *)
Definition booted : Firewall := of_outcome Firewall_new (init Firewall_new).
Definition asking : Verdict * Firewall :=
  of_outcome (mkVerdict false 0 0 0 0 0 false, Firewall_new) (filter asks 0 true booted).
Definition answering : Verdict * Firewall :=
  of_outcome (mkVerdict false 0 0 0 0 0 false, Firewall_new) (filter answers 1 true asking.2).

Lemma booted_run : run_call CInit Firewall_new = Done (0, [], booted).
Proof. vm_compute. reflexivity. Qed.

Lemma asking_run : filter asks 0 true booted = Done asking.
Proof. vm_compute. reflexivity. Qed.

Lemma answering_run : filter answers 1 true asking.2 = Done answering.
Proof. vm_compute. reflexivity. Qed.

Lemma booted_reachable : fw_reachable booted.
Proof. apply rtc_once. exists CInit, 0, []. split; [exact I|exact booted_run]. Qed.

Lemma booted_guarded : guarded (admin booted).
Proof.
  split; [vm_compute; reflexivity|]. split; [vm_compute; reflexivity|]. intros [|i] r Hi Hr Hacc.
  - right. vm_compute in Hr. injection Hr as <-. split; [done|reflexivity].
  - replace (Z.to_nat (nrules (admin booted))) with 1%nat in Hi by (vm_compute; reflexivity). lia.
Qed.

Lemma booted_empty :
  Forall (fun c => used c = false) (conns booted) /\ Forall (fun e => e_used e = false) (expects booted).
Proof. split; apply Forall_forall; intros x Hx; vm_compute in Hx; set_solver. Qed.

Lemma fw_calls_return_witness :
  exists r w f', run_call CSelftest booted = Done (r, w, f') /\ r = 13 /\ w = [13].
Proof.
  destruct (fw_calls_return booted CSelftest booted_reachable I) as (r & w & f' & E & _ & H).
  destruct (H eq_refl) as (Hr & Hw & _). exists r, w, f'. split; [exact E|]. split; [exact Hr|exact Hw].
Defined.

Lemma locked_reachable : fw_reachable (rust_fw_lock booted).
Proof.
  eapply rtc_r; [exact booted_reachable|]. exists CLock, 0, []. split; [exact I|reflexivity].
Qed.

Lemma fw_lock_final_witness :
  exists f', run_calls [CEnable 0; CFlushRules; CPolicy 0 1] (rust_fw_lock booted) = Done f' /\
             admin f' = admin (rust_fw_lock booted).
Proof.
  apply (fw_lock_final (rust_fw_lock booted) [CEnable 0; CFlushRules; CPolicy 0 1] locked_reachable eq_refl).
  by repeat constructor.
Defined.

Definition syn_bytes : list Z := [156; 64; 0; 80; 0; 0; 0; 1; 0; 0; 0; 0; 80; 2; 16; 0; 0; 0; 0; 0].

Lemma fw_parse_packet_safe_witness :
  exists p, parse_packet DIR_OUT us peer PROTO_TCP false syn_bytes = Done p /\
            at16 syn_bytes 2 = Some (p_dport p) /\ p_bad p = BAD_NONE.
Proof.
  destruct (fw_parse_packet_safe DIR_OUT us peer PROTO_TCP false syn_bytes) as (p & E & _ & _ & Ht & _).
  { unfold syn_bytes, is_u8. repeat constructor; lia. }
  exists p. split; [exact E|]. destruct (Ht eq_refl eq_refl) as [Hb Hf].
  assert (Hbad : p_bad p = BAD_NONE) by (apply Hb; vm_compute; lia).
  split; [by apply Hf|exact Hbad].
Defined.

Lemma run_calls_reachable cs f f' :
  fw_reachable f -> Forall call_ok cs -> run_calls cs f = Done f' -> fw_reachable f'.
Proof.
  intros Hr Hcs. revert f Hr. induction Hcs as [|c cs Hc Hcs IH]; intros f Hr E; [by injection E as <-|].
  cbn [run_calls] in E. destruct (run_call c f) as [[[r w] f1]|] eqn:Ec; [|done]. apply (IH f1); [|done].
  eapply rtc_r; [exact Hr|]. exists c, r, w. done.
Qed.

(** A web server is called: SYN out at tick 0, its SYN-ACK in at tick 1; a datagram goes out
    at tick 2; at tick 3 the server resets the connection. *)
Definition syn_ack_bytes : list Z := [0; 80; 156; 64; 0; 0; 0; 1; 0; 0; 0; 2; 80; 18; 16; 0; 0; 0; 0; 0].
Definition reset_bytes : list Z := [0; 80; 156; 64; 0; 0; 0; 1; 0; 0; 0; 0; 80; 20; 16; 0; 0; 0; 0; 0].
Definition datagram_bytes : list Z := [19; 136; 0; 53; 0; 8; 0; 0].

Definition calling_calls : list call := [CFilter 1 us peer PROTO_TCP 0 (Some syn_bytes) 20 0].
Definition busy_calls : list call :=
  [CFilter 0 peer us PROTO_TCP 0 (Some syn_ack_bytes) 20 1; CFilter 1 us peer PROTO_UDP 0 (Some datagram_bytes) 8 2;
   CFilter 0 peer us PROTO_TCP 0 (Some reset_bytes) 20 3].

Definition calling : Firewall := of_outcome Firewall_new (run_calls calling_calls booted).
Definition busy : Firewall := of_outcome Firewall_new (run_calls busy_calls calling).

Lemma calling_reachable : fw_reachable calling.
Proof.
  apply (run_calls_reachable calling_calls booted); [exact booted_reachable| |vm_compute; reflexivity].
  repeat constructor; unfold is_u8; lia.
Qed.

Lemma busy_reachable : fw_reachable busy.
Proof.
  apply (run_calls_reachable busy_calls calling); [exact calling_reachable| |vm_compute; reflexivity].
  repeat constructor; unfold is_u8; lia.
Qed.

Definition syn : Pkt := of_outcome blank (parse_packet DIR_OUT us peer PROTO_TCP false syn_bytes).
Definition syn_ack : Pkt := of_outcome blank (parse_packet DIR_IN peer us PROTO_TCP false syn_ack_bytes).

Definition no_verdict : Verdict * Firewall := (mkVerdict false 0 0 0 0 0 false, Firewall_new).
Definition verdict_on (p : Pkt) (now : Z) (b : bool) (f : Firewall) : Verdict * Firewall :=
  of_outcome no_verdict (filter p now b f).

Definition flow_at (i : nat) (f : Firewall) : Conn := default Conn_EMPTY (conns f !! i).


(** With a reset connection in slot 0 and a live datagram flow in slot 1: a dry run of a SYN
    changes nothing; an unasked datagram is dropped and changes no flow; the SYN replaces the
    finished connection and keeps the datagram flow. *)
Lemma fw_flows_kept_witness :
  (verdict_on syn 4 false busy).2 = busy /\
  (v_accept (verdict_on (mkPkt DIR_IN PROTO_UDP peer us 7 7 0 0 0 0 0 BAD_NONE None) 4 true busy).1 = false /\
   conns (verdict_on (mkPkt DIR_IN PROTO_UDP peer us 7 7 0 0 0 0 0 BAD_NONE None) 4 true busy).2 = conns busy) /\
  (live 4 (flow_at 1 busy) = true /\ same_flow (flow_at 1 busy) (flow_at 1 (verdict_on syn 4 true busy).2)) /\
  (live 4 (flow_at 0 busy) = true /\ finished (flow_at 0 busy) /\ fresh syn (flow_at 0 (verdict_on syn 4 true busy).2)).
Proof.
  split; [|split; [split|split; (split; [vm_compute; reflexivity|])]].
  - apply (fw_flows_kept busy syn 4 false (verdict_on syn 4 false busy).1 _ busy_reachable); vm_compute; reflexivity.
  - vm_compute. reflexivity.
  - apply (fw_flows_kept busy (mkPkt DIR_IN PROTO_UDP peer us 7 7 0 0 0 0 0 BAD_NONE None) 4 true
      (verdict_on (mkPkt DIR_IN PROTO_UDP peer us 7 7 0 0 0 0 0 BAD_NONE None) 4 true busy).1 _ busy_reachable);
      vm_compute; reflexivity.
  - destruct (fw_flows_kept busy syn 4 true (verdict_on syn 4 true busy).1 (verdict_on syn 4 true busy).2 busy_reachable)
      as (_ & _ & Hk); [vm_compute; reflexivity|].
    destruct (Hk 1%nat (flow_at 1 busy)) as (c' & Hc' & Hs); [vm_compute; reflexivity|vm_compute; reflexivity|].
    unfold flow_at at 2. rewrite Hc'. destruct Hs as [Hs|(_ & Hfin & _)]; [exact Hs|].
    destruct Hfin as [Hfin|Hfin]; vm_compute in Hfin; discriminate Hfin.
  - split; [right; vm_compute; reflexivity|].
    destruct (fw_flows_kept busy syn 4 true (verdict_on syn 4 true busy).1 (verdict_on syn 4 true busy).2 busy_reachable)
      as (_ & _ & Hk); [vm_compute; reflexivity|].
    destruct (Hk 0%nat (flow_at 0 busy)) as (c' & Hc' & Hs); [vm_compute; reflexivity|vm_compute; reflexivity|].
    unfold flow_at. rewrite Hc'. destruct Hs as [Hs|(_ & _ & _ & Hfr & _)]; [|exact Hfr].
    vm_compute in Hc'. injection Hc' as <-. destruct Hs as (_ & _ & _ & Hcr & _). vm_compute in Hcr. discriminate Hcr.
Defined.

Lemma fw_nothing_unasked_witness : exists q, q ∈ [asks] /\ concerns q (key_of answers).
Proof.
  assert (Ht : traffic [asks] asking.2).
  { apply (traffic_packet [] booted asks 0 true asking.1 asking.2).
    - destruct booted_empty. by apply traffic_start; [apply booted_reachable|apply booted_guarded|..].
    - rewrite asking_run. by rewrite <- surjective_pairing. }
  destruct (fw_nothing_unasked [asks] asking.2 answers 1 true answering.1 answering.2 Ht) as (q & Hq & Hc);
    [reflexivity|rewrite answering_run; f_equal; apply surjective_pairing|vm_compute; reflexivity|].
  exists q. split; [exact Hq|]. destruct Hc as [Hc|[Hp _]]; [exact Hc|]. discriminate Hp.
Defined.

Lemma fw_rules_edited_witness :
  exists res f', add_rule 0 Rule_EMPTY booted = Done (res, f') /\ same_but_rules booted f'.
Proof.
  destruct (fw_rules_edited booted 0 Rule_EMPTY 0 booted_reachable) as [(res & f' & E & Hs & _) _].
  exists res, f'. split; [exact E|exact Hs].
Defined.

Lemma fw_idle_flow_revives_witness :
  live (wrap32 (18001 + 2147483648 + 5))
       (mkConn true PROTO_UDP DIR_OUT UDP_REPLIED 0 true 0 us peer 5000 53 18001 0 (1, 1) (0, 0)) = true.
Proof.
  apply (proj1 fw_idle_flow_revives (mkConn true PROTO_UDP DIR_OUT UDP_REPLIED 0 true 0 us peer 5000 53 18001 0 (1, 1) (0, 0)) 5);
    [reflexivity|unfold is_u32; cbn; lia|lia].
Defined.
