(* ===== verification/Sha.v ===== *)
(** * SHA-256, HMAC and PBKDF2

    The definitions of [kernel/rust/sha256.rs], [hmac_sha256.rs], [pbkdf2.rs] and of the
    package signature of [pkgsign_core.rs] and [pkgsign.rs]: the one-shot and the
    streaming hash, the keyed hash, the password hash, and the signature check. Words are
    [Z] below [2^32], arrays are lists read and written with bounds checks. *)

From S2P Require Import Prelude Bytes.
Local Open Scope Z_scope.
Local Open Scope machine_scope.

(** ** sha256.rs *)

Definition MAX_INPUT_LEN : nat := 440.
Definition BUFFER_LEN : nat := 512.

Definition H0 : list Z :=
  [0x6a09e667; 0xbb67ae85; 0x3c6ef372; 0xa54ff53a; 0x510e527f; 0x9b05688c; 0x1f83d9ab; 0x5be0cd19].

(** The round constants, in the rows of the source. *)
Definition K : list Z :=
  concat [
    [0x428a2f98; 0x71374491; 0xb5c0fbcf; 0xe9b5dba5; 0x3956c25b; 0x59f111f1];
    [0x923f82a4; 0xab1c5ed5; 0xd807aa98; 0x12835b01; 0x243185be; 0x550c7dc3];
    [0x72be5d74; 0x80deb1fe; 0x9bdc06a7; 0xc19bf174; 0xe49b69c1; 0xefbe4786];
    [0x0fc19dc6; 0x240ca1cc; 0x2de92c6f; 0x4a7484aa; 0x5cb0a9dc; 0x76f988da];
    [0x983e5152; 0xa831c66d; 0xb00327c8; 0xbf597fc7; 0xc6e00bf3; 0xd5a79147];
    [0x06ca6351; 0x14292967; 0x27b70a85; 0x2e1b2138; 0x4d2c6dfc; 0x53380d13];
    [0x650a7354; 0x766a0abb; 0x81c2c92e; 0x92722c85; 0xa2bfe8a1; 0xa81a664b];
    [0xc24b8b70; 0xc76c51a3; 0xd192e819; 0xd6990624; 0xf40e3585; 0x106aa070];
    [0x19a4c116; 0x1e376c08; 0x2748774c; 0x34b0bcb5; 0x391c0cb3; 0x4ed8aa4a];
    [0x5b9cca4f; 0x682e6ff3; 0x748f82ee; 0x78a5636f; 0x84c87814; 0x8cc70208];
    [0x90befffa; 0xa4506ceb; 0xbef9a3f7; 0xc67178f2]].

Definition rotr (x n : Z) : Z := Z.lor (Z.shiftr x n) (wrap32 (Z.shiftl x (32 - n))).

(** [u32::from_be_bytes]. *)
Definition of_be32 (a b c d : Z) : Z :=
  Z.lor (Z.lor (Z.lor (Z.shiftl a 24) (Z.shiftl b 16)) (Z.shiftl c 8)) d.

(** [for t in 0..16]: the words of the block. *)
Fixpoint load_words (n t : nat) (block w : list Z) : outcome (list Z) :=
  match n with
  | O => Done w
  | S n' =>
      a ← index block (t * 4);
      b ← index block (t * 4 + 1);
      c ← index block (t * 4 + 2);
      d ← index block (t * 4 + 3);
      w ← store w t (of_be32 a b c d);
      load_words n' (S t) block w
  end.

(** [for t in 16..64]: the message schedule. *)
Fixpoint expand_words (n t : nat) (w : list Z) : outcome (list Z) :=
  match n with
  | O => Done w
  | S n' =>
      w15 ← index w (t - 15);
      w2 ← index w (t - 2);
      w16 ← index w (t - 16);
      w7 ← index w (t - 7);
      let s0 := Z.lxor (Z.lxor (rotr w15 7) (rotr w15 18)) (Z.shiftr w15 3) in
      let s1 := Z.lxor (Z.lxor (rotr w2 17) (rotr w2 19)) (Z.shiftr w2 10) in
      w ← store w t (w16 +₃₂ s0 +₃₂ w7 +₃₂ s1);
      expand_words n' (S t) w
  end.

(** The working variables [a] to [h]. *)
Record Vars : Type := mkVars {
  va : Z; vb : Z; vc : Z; vd : Z; ve : Z; vf : Z; vg : Z; vh : Z;
}.

(** The body of [for t in 0..64]. *)
Definition round (kt wt : Z) (v : Vars) : Vars :=
  let '(mkVars a b c d e f g h) := v in
  let big_s1 := Z.lxor (Z.lxor (rotr e 6) (rotr e 11)) (rotr e 25) in
  let ch := Z.lxor (Z.land e f) (Z.land (Z.lxor e 0xFFFFFFFF) g) in
  let t1 := h +₃₂ big_s1 +₃₂ ch +₃₂ kt +₃₂ wt in
  let big_s0 := Z.lxor (Z.lxor (rotr a 2) (rotr a 13)) (rotr a 22) in
  let maj := Z.lxor (Z.lxor (Z.land a b) (Z.land a c)) (Z.land b c) in
  let t2 := big_s0 +₃₂ maj in
  mkVars (t1 +₃₂ t2) a b c (d +₃₂ t1) e f g.

Fixpoint rounds (n t : nat) (w : list Z) (v : Vars) : outcome Vars :=
  match n with
  | O => Done v
  | S n' =>
      kt ← index K t;
      wt ← index w t;
      rounds n' (S t) w (round kt wt v)
  end.

(** [state[i] = state[i].wrapping_add(x)]. *)
Definition add_word (st : list Z) (i : nat) (x : Z) : outcome (list Z) :=
  s ← index st i; store st i (s +₃₂ x).

Definition process_block (st block : list Z) : outcome (list Z) :=
  w ← load_words 16 0 block (replicate 64 0);
  w ← expand_words 48 16 w;
  a ← index st 0; b ← index st 1; c ← index st 2; d ← index st 3;
  e ← index st 4; f ← index st 5; g ← index st 6; h ← index st 7;
  v ← rounds 64 0 w (mkVars a b c d e f g h);
  st ← add_word st 0 (va v);
  st ← add_word st 1 (vb v);
  st ← add_word st 2 (vc v);
  st ← add_word st 3 (vd v);
  st ← add_word st 4 (ve v);
  st ← add_word st 5 (vf v);
  st ← add_word st 6 (vg v);
  add_word st 7 (vh v).

(** [while offset < total_len], for the [n] blocks of a padded buffer. *)
Fixpoint pad_loop (n : nat) (st buf : list Z) (offset : nat) : outcome (list Z) :=
  match n with
  | O => Done st
  | S n' =>
      block ← range buf offset (offset + 64);
      st ← process_block st block;
      pad_loop n' st buf (offset + 64)
  end.

(** [for i in 0..8]: the digest from the state. *)
Fixpoint digest_loop (n i : nat) (st out : list Z) : outcome (list Z) :=
  match n with
  | O => Done out
  | S n' =>
      x ← index st i;
      out ← write_at out (i * 4) (be_bytes 4 x);
      digest_loop n' (S i) st out
  end.

Record Sha256Streaming : Type := mkStreaming {
  state : list Z;
  buffer : list Z;
  buffer_len : nat;
  total_len : Z;
}.

Definition Streaming_new : Sha256Streaming := mkStreaming H0 (replicate 64 0) 0 0.

(** [while data.len() >= 64]: the state and what is left of the data. *)
Fixpoint block_loop (n : nat) (st data : list Z) : outcome (list Z * list Z) :=
  match n with
  | O => Done (st, data)
  | S n' =>
      if (64 <=? length data)%nat then
        block ← slice_to data 64;
        st ← process_block st block;
        block_loop n' st (drop 64 data)
      else Done (st, data)
  end.

(** Topping up a partial block: the new state, buffer and fill, and the rest of the data. *)
Definition top_up (s : Sha256Streaming) (data : list Z) : outcome (list Z * list Z * nat * list Z) :=
  if (0 <? buffer_len s)%nat then
    let need := (64 - buffer_len s)%nat in
    let n := (need `min` length data)%nat in
    src ← slice_to data n;
    buf ← write_at (buffer s) (buffer_len s) src;
    let len := (buffer_len s + n)%nat in
    let data := drop n data in
    if (len =? 64)%nat then
      st ← process_block (state s) buf;
      Done (st, buf, 0%nat, data)
    else Done (state s, buf, len, data)
  else Done (state s, buffer s, buffer_len s, data).

Definition update (s : Sha256Streaming) (data : list Z) : outcome Sha256Streaming :=
  let total := wrap64 (total_len s + Z.of_nat (length data)) in
  '(st, buf, len, data) ← top_up s data;
  '(st, data) ← block_loop (length data) st data;
  if (length data =? 0)%nat then Done (mkStreaming st buf len total)
  else
    buf ← copy_prefix buf data;
    Done (mkStreaming st buf (length data) total).

Definition finalize (s : Sha256Streaming) : outcome (list Z) :=
  let bit_len := wrap64 (total_len s * 8) in
  left ← slice_to (buffer s) (buffer_len s);
  pad ← copy_prefix (replicate 128 0) left;
  pad ← store pad (buffer_len s) 0x80;
  let padded := ((buffer_len s + 1 + 8 + 63) / 64 * 64)%nat in
  pad ← write_at pad (padded - 8) (be_bytes 8 bit_len);
  st ← pad_loop (padded / 64) (state s) pad 0;
  digest_loop 8 0 st (replicate 32 0).

Definition sha256 (data : list Z) : outcome (list Z) :=
  _ ← assert (length data <=? MAX_INPUT_LEN)%nat;
  buf ← copy_prefix (replicate BUFFER_LEN 0) data;
  buf ← store buf (length data) 0x80;
  let bit_len := wrap64 (Z.of_nat (length data) * 8) in
  let padded := ((length data + 1 + 8 + 63) / 64 * 64)%nat in
  buf ← write_at buf (padded - 8) (be_bytes 8 bit_len);
  st ← pad_loop (padded / 64) H0 buf 0;
  digest_loop 8 0 st (replicate 32 0).

(** ** hmac_sha256.rs *)

Definition BLOCK_SIZE : nat := 64.
Definition MAX_KEY_LEN : nat := 128.
Definition MAX_MESSAGE_LEN : nat := 256.

(** [for i in 0..BLOCK_SIZE { out[i] = key_block[i] ^ pad }]. *)
Fixpoint xor_loop (n i : nat) (key_block : list Z) (pad : Z) (out : list Z) : outcome (list Z) :=
  match n with
  | O => Done out
  | S n' =>
      k ← index key_block i;
      out ← store out i (Z.lxor k pad);
      xor_loop n' (S i) key_block pad out
  end.

Definition hmac_sha256 (key message : list Z) : outcome (list Z) :=
  _ ← assert (length key <=? MAX_KEY_LEN)%nat;
  _ ← assert (length message <=? MAX_MESSAGE_LEN)%nat;
  key_block ←
    (if (BLOCK_SIZE <? length key)%nat
     then hashed ← sha256 key; copy_prefix (replicate BLOCK_SIZE 0) hashed
     else copy_prefix (replicate BLOCK_SIZE 0) key);
  inner ← xor_loop BLOCK_SIZE 0 key_block 0x36 (replicate (BLOCK_SIZE + MAX_MESSAGE_LEN) 0);
  inner ← write_at inner BLOCK_SIZE message;
  inner ← slice_to inner (BLOCK_SIZE + length message);
  inner_hash ← sha256 inner;
  outer ← xor_loop BLOCK_SIZE 0 key_block 0x5c (replicate (BLOCK_SIZE + 32) 0);
  outer ← write_at outer BLOCK_SIZE inner_hash;
  sha256 outer.

(** ** pbkdf2.rs *)

Definition MAX_SALT_LEN : nat := 32.

(** [for i in 0..32 { result[i] ^= u[i] }]. *)
Fixpoint accumulate (n i : nat) (u result : list Z) : outcome (list Z) :=
  match n with
  | O => Done result
  | S n' =>
      r ← index result i;
      x ← index u i;
      result ← store result i (Z.lxor r x);
      accumulate n' (S i) u result
  end.

(** [for _ in 1..iterations]. *)
Fixpoint iterate (n : nat) (password u result : list Z) : outcome (list Z) :=
  match n with
  | O => Done result
  | S n' =>
      u ← hmac_sha256 password u;
      result ← accumulate 32 0 u result;
      iterate n' password u result
  end.

Definition pbkdf2_hmac_sha256 (password salt : list Z) (iterations : Z) : outcome (list Z) :=
  _ ← assert (length salt <=? MAX_SALT_LEN)%nat;
  _ ← assert (1 <=? iterations);
  block ← copy_prefix (replicate (MAX_SALT_LEN + 4) 0) salt;
  block ← write_at block (length salt) (be_bytes 4 1);
  block ← slice_to block (length salt + 4);
  u ← hmac_sha256 password block;
  iterate (Z.to_nat (iterations - 1)) password u u.

(** ** pkgsign_core.rs and pkgsign.rs *)

Definition PKG_VERIFY_KEY : list Z :=
  [0x4e; 0x6f; 0x76; 0x61; 0x4f; 0x53; 0x2d; 0x70; 0x6b; 0x67; 0x2d; 0x73;
   0x69; 0x67; 0x6e; 0x2d; 0x76; 0x31; 0x2d; 0xa7; 0x3c; 0x91; 0x5d; 0x02;
   0xe8; 0x4f; 0x1b; 0x6a; 0xc3; 0x77; 0x0d; 0x29].

Definition PKG_SIGNATURE_LEN : nat := 32.

Definition compute_signature (header payload : list Z) : outcome (list Z) :=
  s ← update Streaming_new header;
  s ← update s payload;
  digest ← finalize s;
  hmac_sha256 PKG_VERIFY_KEY digest.

(** [for i in 0..a.len() { diff |= a[i] ^ b[i] }]. *)
Fixpoint diff_loop (n i : nat) (a b : list Z) (diff : Z) : outcome Z :=
  match n with
  | O => Done diff
  | S n' =>
      x ← index a i;
      y ← index b i;
      diff_loop n' (S i) a b (Z.lor diff (Z.lxor x y))
  end.

Definition constant_time_eq (a b : list Z) : outcome bool :=
  if negb (length a =? length b)%nat then Done false
  else diff ← diff_loop (length a) 0 a b 0; Done (diff =? 0).

(** [header[a..a + n].fill(0)], as a loop over the slice. *)
Definition zero_range (l : list Z) (a n : nat) : outcome (list Z) :=
  part ← range l a (a + n);
  write_at l a (replicate (length part) 0).

Definition rust_pkg_verify_signature (header : list Z) (signature_offset : Z) (payload : list Z) :
    outcome bool :=
  let header_len := length header in
  if (Z.of_nat header_len <? signature_offset +₃₂ Z.of_nat PKG_SIGNATURE_LEN) || (256 <? header_len)%nat
  then Done false
  else
    let off := Z.to_nat signature_offset in
    zeroed ← copy_prefix (replicate 256 0) header;
    zeroed ← zero_range zeroed off PKG_SIGNATURE_LEN;
    zeroed ← slice_to zeroed header_len;
    expected ← compute_signature zeroed payload;
    actual ← range header off (off + PKG_SIGNATURE_LEN);
    constant_time_eq expected actual.

(** ** The boot self-tests *)

(** [if failed { code |= bit }]. *)
Definition flag (failed : bool) (bit code : Z) : Z := if failed then Z.lor code bit else code.

(** [a != b] on digests. *)
Definition differs (a b : list Z) : bool := negb (bool_decide (a = b)).

Definition empty_expected : list Z :=
  [0xe3; 0xb0; 0xc4; 0x42; 0x98; 0xfc; 0x1c; 0x14; 0x9a; 0xfb; 0xf4;
   0xc8; 0x99; 0x6f; 0xb9; 0x24; 0x27; 0xae; 0x41; 0xe4; 0x64; 0x9b;
   0x93; 0x4c; 0xa4; 0x95; 0x99; 0x1b; 0x78; 0x52; 0xb8; 0x55].

Definition abc_expected : list Z :=
  [0xba; 0x78; 0x16; 0xbf; 0x8f; 0x01; 0xcf; 0xea; 0x41; 0x41; 0x40;
   0xde; 0x5d; 0xae; 0x22; 0x23; 0xb0; 0x03; 0x61; 0xa3; 0x96; 0x17;
   0x7a; 0x9c; 0xb4; 0x10; 0xff; 0x61; 0xf2; 0x00; 0x15; 0xad].

Definition long_expected : list Z :=
  [0x24; 0x8d; 0x6a; 0x61; 0xd2; 0x06; 0x38; 0xb8; 0xe5; 0xc0; 0x26;
   0x93; 0x0c; 0x3e; 0x60; 0x39; 0xa3; 0x3c; 0xe4; 0x59; 0x64; 0xff;
   0x21; 0x67; 0xf6; 0xec; 0xed; 0xd4; 0x19; 0xdb; 0x06; 0xc1].

Definition long_message : list Z := str "abcdbcdecdefdefgefghfghighijhijkijkljklmklmnlmnomnopnopq".

(** A hasher fed chunk by chunk. *)
Fixpoint feed (chunks : list (list Z)) (s : Sha256Streaming) : outcome Sha256Streaming :=
  match chunks with
  | [] => Done s
  | c :: chunks' => s ← update s c; feed chunks' s
  end.

Definition stream (chunks : list (list Z)) : outcome (list Z) :=
  s ← feed chunks Streaming_new; finalize s.

Definition rust_sha256_selftest : outcome Z :=
  d ← sha256 []; let code := flag (differs d empty_expected) 1 0 in
  d ← sha256 (str "abc"); let code := flag (differs d abc_expected) 2 code in
  d ← sha256 long_message; let code := flag (differs d long_expected) 4 code in
  expected ← sha256 long_message;
  d ← stream [long_message]; let code := flag (differs d expected) 8 code in
  d ← stream ((fun b => [b]) <$> long_message); let code := flag (differs d expected) 16 code in
  l ← range long_message 0 30; r ← range long_message 30 (length long_message);
  d ← stream [l; r]; let code := flag (differs d expected) 32 code in
  d ← stream []; e ← sha256 []; Done (flag (differs d e) 64 code).

Definition hmac_expected : list Z :=
  [0xb0; 0x34; 0x4c; 0x61; 0xd8; 0xdb; 0x38; 0x53; 0x5c; 0xa8; 0xaf;
   0xce; 0xaf; 0x0b; 0xf1; 0x2b; 0x88; 0x1d; 0xc2; 0x00; 0xc9; 0x83;
   0x3d; 0xa7; 0x26; 0xe9; 0x37; 0x6c; 0x2e; 0x32; 0xcf; 0xf7].

Definition rust_hmac_sha256_selftest : outcome Z :=
  d ← hmac_sha256 (replicate 20 0x0b) (str "Hi There");
  Done (flag (differs d hmac_expected) 1 0).

Definition selftest_payload : list Z :=
  str "a real package payload, more than 64 bytes long so this genuinely exercises the streaming hasher's own multi-block path, not just a single short block".

Definition rust_pkgsign_selftest : outcome Z :=
  header ← copy_prefix (replicate 48 0) (str "NVPK");
  sig ← compute_signature header selftest_payload;
  header ← write_at header 16 sig;
  ok ← rust_pkg_verify_signature header 16 selftest_payload; let code := flag (negb ok) 1 0 in
  p0 ← index selftest_payload 0;
  tampered ← store selftest_payload 0 (Z.lxor p0 0xFF);
  ok ← rust_pkg_verify_signature header 16 tampered; let code := flag ok 2 code in
  h4 ← index header 4;
  tampered ← store header 4 (Z.lxor h4 0xFF);
  ok ← rust_pkg_verify_signature tampered 16 selftest_payload; let code := flag ok 4 code in
  wrong ← write_at header 16 (replicate 32 0x42);
  ok ← rust_pkg_verify_signature wrong 16 selftest_payload;
  Done (flag ok 8 code).
