(* ===== verification/ShaSpec.v ===== *)
(** * What the hash functions compute

    The standards as functions on byte strings: SHA-256 (FIPS 180-4) as a fold of the
    compression function over the padded message, HMAC (RFC 2104) and PBKDF2 (RFC 8018)
    over it; and that the array code of Sha.v computes them without leaving an array. *)

From S2P Require Import Prelude Bytes Sha.
Local Open Scope Z_scope.
Local Open Scope machine_scope.

(** ** The standards *)

(** The [t]-th word of a block. *)
Definition word_at (block : list Z) (t : nat) : Z :=
  of_be32 (block !!! (t * 4)%nat) (block !!! (t * 4 + 1)%nat) (block !!! (t * 4 + 2)%nat) (block !!! (t * 4 + 3)%nat).

Definition sigma0 (x : Z) : Z := Z.lxor (Z.lxor (rotr x 7) (rotr x 18)) (Z.shiftr x 3).
Definition sigma1 (x : Z) : Z := Z.lxor (Z.lxor (rotr x 17) (rotr x 19)) (Z.shiftr x 10).

(** The next word of the message schedule, from those before it. *)
Definition next_word (ws : list Z) : Z :=
  let t := length ws in
  ws !!! (t - 16)%nat +₃₂ sigma0 (ws !!! (t - 15)%nat) +₃₂ ws !!! (t - 7)%nat +₃₂ sigma1 (ws !!! (t - 2)%nat).

Fixpoint schedule (n : nat) (ws : list Z) : list Z :=
  match n with
  | O => ws
  | S n' => schedule n' (ws ++ [next_word ws])
  end.

Definition vars_of (st : list Z) : Vars :=
  mkVars (st !!! 0%nat) (st !!! 1%nat) (st !!! 2%nat) (st !!! 3%nat)
         (st !!! 4%nat) (st !!! 5%nat) (st !!! 6%nat) (st !!! 7%nat).

Definition words_of (v : Vars) : list Z := [va v; vb v; vc v; vd v; ve v; vf v; vg v; vh v].

Definition compress (st block : list Z) : list Z :=
  let ws := schedule 48 (word_at block <$> seq 0 16) in
  let v := foldl (fun v kw => round kw.1 kw.2 v) (vars_of st) (zip K ws) in
  zip_with (fun x y => x +₃₂ y) st (words_of v).

(** The state after the first [n] blocks of a byte string. *)
Fixpoint absorb (n : nat) (st l : list Z) : list Z :=
  match n with
  | O => st
  | S n' => absorb n' (compress st (take 64 l)) (drop 64 l)
  end.

(** The padding of a message of [n] bytes: a one bit, zeros up to 8 bytes before a block
    boundary, the length in bits. *)
Definition padding (n : nat) : list Z :=
  [0x80] ++ replicate ((n + 72) / 64 * 64 - 9 - n) 0 ++ be_bytes 8 (8 * Z.of_nat n).

Definition digest (st : list Z) : list Z := mjoin (be_bytes 4 <$> st).

(** SHA-256 of a message. *)
Definition SHA256 (m : list Z) : list Z :=
  digest (absorb ((length m + 72) / 64) H0 (m ++ padding (length m))).

Definition fit_key (key : list Z) : list Z :=
  let k := if (BLOCK_SIZE <? length key)%nat then SHA256 key else key in
  k ++ replicate (BLOCK_SIZE - length k) 0.

Definition HMAC (key m : list Z) : list Z :=
  let pad x := (fun k => Z.lxor k x) <$> fit_key key in
  SHA256 (pad 0x5c ++ SHA256 (pad 0x36 ++ m)).

Definition xor_bytes (a b : list Z) : list Z := zip_with Z.lxor a b.

(** The first block of PBKDF2: [U_1 xor ... xor U_c]. *)
Fixpoint xor_iterates (n : nat) (key u acc : list Z) : list Z :=
  match n with
  | O => acc
  | S n' => let u := HMAC key u in xor_iterates n' key u (xor_bytes acc u)
  end.

Definition PBKDF2 (password salt : list Z) (iterations : Z) : list Z :=
  let u := HMAC password (salt ++ be_bytes 4 1) in
  xor_iterates (Z.to_nat (iterations - 1)) password u u.

(** The signature of a package whose header has a zeroed signature field. *)
Definition signature (header payload : list Z) : list Z :=
  HMAC PKG_VERIFY_KEY (SHA256 (header ++ payload)).

(** ** Arrays *)

Lemma index_total (l : list Z) i : (i < length l)%nat -> index l i = Done (l !!! i).
Proof. intros Hi. apply index_at. by apply list_lookup_lookup_total_lt. Qed.

(** An array filled from the left. *)
Lemma take_filled {A} (l : list A) i x : (i < length l)%nat -> take (S i) (<[i := x]> l) = take i l ++ [x].
Proof.
  intros Hi. rewrite (take_S_r _ _ x) by by apply list_lookup_insert_eq. by rewrite take_insert_ge.
Qed.

Lemma range_Done {A} (l : list A) a b :
  (a <= b <= length l)%nat -> range l a b = Done (take (b - a) (drop a l)).
Proof. intros H. unfold range. by replace ((a <=? b) && (b <=? length l))%nat with true by lia. Qed.

Lemma write_at_Done {A} (dst : list A) off src :
  (off + length src <= length dst)%nat ->
  write_at dst off src = Done (take off dst ++ src ++ drop (off + length src) dst).
Proof. intros H. unfold write_at. by replace (off + length src <=? length dst)%nat with true by lia. Qed.

Lemma be_bytes_length n v : length (be_bytes n v) = n.
Proof. induction n; simpl; [done|]. by f_equal. Qed.

(** ** One block *)

Lemma load_words_spec n t block w :
  ((t + n) * 4 <= length block)%nat -> (t + n <= length w)%nat ->
  load_words n t block w = Done (take t w ++ (word_at block <$> seq t n) ++ drop (t + n) w).
Proof.
  revert t w. induction n as [|n IH]; intros t w Hb Hw.
  { simpl. by rewrite Nat.add_0_r, take_drop. }
  cbn [load_words]. rewrite !index_total by lia. osimpl. ostore.
  rewrite IH by (rewrite ?length_insert; lia). rewrite take_filled, drop_insert_lt by lia.
  rewrite <- app_assoc. replace (t + S n)%nat with (S t + n)%nat by lia. done.
Qed.

Lemma schedule_length n ws : length (schedule n ws) = (length ws + n)%nat.
Proof. revert ws. induction n as [|n IH]; intros ws; simpl; [lia|]. rewrite IH, length_app. simpl. lia. Qed.

Lemma expand_words_spec n t w :
  (16 <= t)%nat -> (t + n <= length w)%nat ->
  expand_words n t w = Done (schedule n (take t w) ++ drop (t + n) w).
Proof.
  revert t w. induction n as [|n IH]; intros t w Ht Hw.
  { simpl. by rewrite Nat.add_0_r, take_drop. }
  cbn [expand_words schedule]. rewrite !index_total by lia. osimpl. ostore.
  rewrite IH by (rewrite ?length_insert; lia). rewrite take_filled, drop_insert_lt by lia.
  replace (S t + n)%nat with (t + S n)%nat by lia. do 5 f_equal.
  unfold next_word. rewrite length_take_le by lia. rewrite !lookup_total_take_lt by lia. done.
Qed.

Lemma rounds_spec n t w v :
  (t + n = 64)%nat -> length w = 64%nat ->
  rounds n t w v = Done (foldl (fun v kw => round kw.1 kw.2 v) v (zip (drop t K) (drop t w))).
Proof.
  revert t v. induction n as [|n IH]; intros t v Ht Hw; cbn [rounds].
  { rewrite (drop_ge w), zip_with_nil_r by lia. done. }
  assert (HK : length K = 64%nat) by done.
  rewrite !index_total by lia. osimpl. rewrite IH by lia.
  rewrite (drop_S K _ t) by (apply list_lookup_lookup_total_lt; lia).
  rewrite (drop_S w _ t) by (apply list_lookup_lookup_total_lt; lia). done.
Qed.

Lemma add_word_spec st i x :
  (i < length st)%nat -> add_word st i x = Done (<[i := st !!! i +₃₂ x]> st).
Proof. intros Hi. unfold add_word. rewrite index_total by done. osimpl. by rewrite store_Done. Qed.

(** The message schedule of a block. *)
Definition words (block : list Z) : list Z := schedule 48 (word_at block <$> seq 0 16).

Lemma words_spec block :
  length block = 64%nat ->
  (w ← load_words 16 0 block (replicate 64 0); expand_words 48 16 w) = Done (words block) /\
  length (words block) = 64%nat.
Proof.
  intros Hb. split; [|by unfold words; rewrite schedule_length, length_fmap, length_seq].
  rewrite load_words_spec by (rewrite ?length_replicate; lia). osimpl. set (w0 := take 0 _ ++ _).
  assert (Hl : length w0 = 64%nat) by (unfold w0; by rewrite !length_app, length_fmap, length_seq).
  assert (Ht : take 16 w0 = word_at block <$> seq 0 16).
  { unfold w0. rewrite take_0, app_nil_l. apply take_app_length'. by rewrite length_fmap, length_seq. }
  rewrite expand_words_spec, Ht, drop_ge, app_nil_r by lia. by unfold words.
Qed.

Lemma compress_unfold st block :
  compress st block =
  zip_with (fun x y => x +₃₂ y) st
    (words_of (foldl (fun v kw => round kw.1 kw.2 v) (vars_of st) (zip K (words block)))).
Proof. by unfold compress, words. Qed.

Lemma add_words_spec st v :
  length st = 8%nat ->
  (st ← add_word st 0 (va v); st ← add_word st 1 (vb v); st ← add_word st 2 (vc v);
   st ← add_word st 3 (vd v); st ← add_word st 4 (ve v); st ← add_word st 5 (vf v);
   st ← add_word st 6 (vg v); add_word st 7 (vh v)) =
  Done (zip_with (fun x y => x +₃₂ y) st (words_of v)).
Proof.
  intros Hst. do 8 (rewrite add_word_spec by (rewrite ?length_insert; lia); osimpl).
  do 8 (destruct st as [|? st]; [discriminate Hst|]). destruct st; [|discriminate Hst].
  cbn [insert list_insert lookup_total list_lookup_total zip_with words_of]. reflexivity.
Qed.

Lemma bind_ret {A B} (a : A) (f : A -> outcome B) : Done a ≫= f = f a.
Proof. reflexivity. Qed.

Lemma rounds_all st w :
  length w = 64%nat ->
  rounds 64 0 w (mkVars (st !!! 0%nat) (st !!! 1%nat) (st !!! 2%nat) (st !!! 3%nat)
                        (st !!! 4%nat) (st !!! 5%nat) (st !!! 6%nat) (st !!! 7%nat)) =
  Done (foldl (fun v kw => round kw.1 kw.2 v) (vars_of st) (zip K w)).
Proof. intros Hw. rewrite rounds_spec, !drop_0 by done. by unfold vars_of. Qed.

Lemma process_block_spec st block :
  length st = 8%nat -> length block = 64%nat -> process_block st block = Done (compress st block).
Proof.
  intros Hst Hb. destruct (words_spec block Hb) as [Hw Hl]. apply bind_Done in Hw as (w & Hload & Hexp).
  rewrite compress_unfold, <- add_words_spec by done. unfold process_block.
  rewrite Hload, bind_ret, Hexp, bind_ret. rewrite !index_total by lia. do 8 rewrite bind_ret.
  rewrite (rounds_all _ _ Hl), bind_ret.
  reflexivity.
Qed.

Lemma compress_length st block : length st = 8%nat -> length (compress st block) = 8%nat.
Proof. intros Hst. rewrite compress_unfold, length_zip_with, Hst. by unfold words_of. Qed.

#[global] Opaque compress.

(** ** Many blocks *)

Lemma absorb_length n st l : length st = 8%nat -> length (absorb n st l) = 8%nat.
Proof. revert st l. induction n as [|n IH]; intros st l Hst; simpl; [done|]. by apply IH, compress_length. Qed.

Lemma absorb_add n k st l : absorb (n + k) st l = absorb k (absorb n st l) (drop (n * 64) l).
Proof.
  revert st l. induction n as [|n IH]; intros st l; [done|].
  cbn [absorb Nat.add]. rewrite IH, drop_drop. do 2 f_equal.
Qed.

Lemma absorb_prefix n st l1 l2 : (n * 64 <= length l1)%nat -> absorb n st (l1 ++ l2) = absorb n st l1.
Proof.
  revert st l1. induction n as [|n IH]; intros st l1 Hl; [done|].
  cbn [absorb]. rewrite take_app_le, drop_app_le by lia. apply IH. rewrite length_drop. lia.
Qed.

Lemma pad_loop_spec n st buf off :
  length st = 8%nat -> (off + n * 64 <= length buf)%nat -> pad_loop n st buf off = Done (absorb n st (drop off buf)).
Proof.
  revert st off. induction n as [|n IH]; intros st off Hst Hb; [done|].
  cbn [pad_loop absorb]. rewrite range_Done by lia. osimpl. replace (off + 64 - off)%nat with 64%nat by lia.
  rewrite process_block_spec by (rewrite ?length_take, ?length_drop; lia). osimpl.
  rewrite IH by (by apply compress_length || lia). by rewrite drop_drop.
Qed.

Lemma block_loop_spec n st data :
  length st = 8%nat -> (length data / 64 <= n)%nat ->
  block_loop n st data =
  Done (absorb (length data / 64) st data, drop (length data / 64 * 64) data).
Proof.
  revert st data. induction n as [|n IH]; intros st data Hst Hn.
  { by replace (length data / 64)%nat with 0%nat by lia. }
  cbn [block_loop]. destruct (Nat.leb_spec 64 (length data)) as [Hle|Hlt].
  - assert (length data / 64 = S ((length data - 64) / 64))%nat as E.
    { replace (length data) with ((length data - 64) + 1 * 64)%nat at 1 by lia. rewrite Nat.div_add by done. lia. }
    rewrite slice_to_Done by done. osimpl. rewrite process_block_spec by (rewrite ?length_take; lia). osimpl.
    rewrite IH by (rewrite ?length_drop; first [by apply compress_length|lia]). rewrite length_drop, E.
    cbn [absorb]. rewrite drop_drop. do 3 f_equal.
  - by rewrite (Nat.div_small (length data)) by done.
Qed.

Lemma digest_loop_spec n i st out :
  (i + n <= length st)%nat -> length out = (4 * length st)%nat ->
  digest_loop n i st out =
  Done (take (i * 4) out ++ mjoin (be_bytes 4 <$> take n (drop i st)) ++ drop ((i + n) * 4) out).
Proof.
  revert i out. induction n as [|n IH]; intros i out Hi Ho.
  { cbn [digest_loop]. rewrite Nat.add_0_r, take_0. simpl. by rewrite take_drop. }
  cbn [digest_loop]. destruct (lookup_lt_is_Some_2 st i) as [x Hx]; [lia|]. oindex Hx.
  rewrite write_at_Done by (rewrite be_bytes_length; lia). osimpl. rewrite be_bytes_length.
  set (hd := take (i * 4) out). assert (Hhd : length hd = (i * 4)%nat) by (apply length_take_le; lia).
  rewrite IH; [|lia|rewrite !length_app, length_drop, be_bytes_length, Hhd; lia].
  rewrite (drop_S st x i Hx). cbn [take]. rewrite fmap_cons. cbn [mjoin list_join].
  rewrite (app_assoc hd), take_app_length' by (rewrite length_app, be_bytes_length, Hhd; lia).
  rewrite (drop_app_ge (hd ++ _)) by (rewrite length_app, be_bytes_length, Hhd; lia).
  rewrite drop_drop, length_app, be_bytes_length, Hhd, <- !app_assoc. do 5 f_equal. lia.
Qed.

Lemma digest_all st :
  length st = 8%nat -> digest_loop 8 0 st (replicate 32 0) = Done (digest st).
Proof.
  intros Hst. rewrite digest_loop_spec by (rewrite ?length_replicate; lia).
  rewrite drop_0, (take_ge st), (drop_ge (replicate _ _)) by (rewrite ?length_replicate; lia).
  by rewrite app_nil_r.
Qed.

(** ** The last blocks *)

(** The number of bytes the last [n] bytes of a message take with their padding. *)
Definition padded (n : nat) : nat := ((n + 1 + 8 + 63) / 64 * 64)%nat.

Lemma padded_bounds n : (n + 9 <= padded n < n + 73)%nat.
Proof.
  unfold padded. pose proof (Nat.div_mod_eq (n + 1 + 8 + 63) 64).
  pose proof (Nat.mod_upper_bound (n + 1 + 8 + 63) 64). lia.
Qed.

Lemma padded_blocks n : (padded n / 64 * 64 = padded n)%nat.
Proof. unfold padded. by rewrite Nat.div_mul. Qed.

(** Both hash functions pad in a zeroed array and run over its blocks. *)
Lemma padded_absorb {B} N st data bits (k : list Z -> outcome B) :
  length st = 8%nat -> (padded (length data) <= N)%nat ->
  (buf ← copy_prefix (replicate N 0) data;
   buf ← store buf (length data) 0x80;
   buf ← write_at buf (padded (length data) - 8) (be_bytes 8 bits);
   st ← pad_loop (padded (length data) / 64) st buf 0; k st) =
  k (absorb (padded (length data) / 64) st
       (data ++ [0x80] ++ replicate (padded (length data) - 9 - length data) 0 ++ be_bytes 8 bits)).
Proof.
  intros Hst HN. pose proof (padded_bounds (length data)) as Hp. set (n := length data) in *. set (p := padded n) in *.
  rewrite copy_prefix_Done by (rewrite length_replicate; lia). osimpl. fold n.
  rewrite drop_replicate. replace (N - n)%nat with (S (p - 9 - n + (8 + (N - p)))) by lia. cbn [replicate].
  rewrite store_Done by (rewrite length_app; simpl; lia). osimpl.
  rewrite insert_app_r_alt by (fold n; lia). unfold n at 1. rewrite Nat.sub_diag. cbn [insert list_insert].
  set (l := data ++ 0x80 :: replicate (p - 9 - n) 0).
  assert (Hl : length l = (p - 8)%nat) by (unfold l; rewrite length_app, length_cons, length_replicate; fold n; lia).
  assert (data ++ 0x80 :: replicate (p - 9 - n + (8 + (N - p))) 0 = l ++ replicate (8 + (N - p)) 0) as ->.
  { unfold l. rewrite replicate_add, <- app_assoc. done. }
  rewrite write_at_Done by (rewrite length_app, length_replicate, be_bytes_length; lia). osimpl.
  rewrite take_app_length' by lia. rewrite pad_loop_spec, drop_0, app_assoc, absorb_prefix;
    rewrite ?length_app, ?length_drop, ?length_app, ?length_replicate, ?be_bytes_length, ?padded_blocks; [|lia|done|lia].
  osimpl. unfold l. by rewrite <- app_assoc.
Qed.

(** Eight bytes of a number are those of its low 64 bits. *)
Lemma be_bytes_wrap64 n v : (n <= 8)%nat -> be_bytes n (wrap64 v) = be_bytes n v.
Proof.
  induction n as [|n IH]; intros Hn; [done|]. cbn [be_bytes]. rewrite IH by lia. f_equal.
  unfold wrap8, wrap64. change 256 with (2 ^ 8). change 18446744073709551616 with (2 ^ 64).
  apply Z.bits_inj'. intros j Hj. destruct (Z.lt_ge_cases j 8) as [Hlt|Hge].
  - rewrite !Z.mod_pow2_bits_low, !Z.shiftr_spec, Z.mod_pow2_bits_low by lia. done.
  - by rewrite !Z.mod_pow2_bits_high by lia.
Qed.

(** The message of which [n] bytes are in whole blocks and the rest is [data]. *)
Lemma SHA256_split q m data :
  length m = (q * 64)%nat -> 
  SHA256 (m ++ data) =
  digest (absorb (padded (length data) / 64) (absorb q H0 m)
    (data ++ [0x80] ++ replicate (padded (length data) - 9 - length data) 0 ++
     be_bytes 8 (8 * Z.of_nat (length m + length data)))).
Proof.
  intros Hm. unfold SHA256, padding. rewrite !length_app, Hm. set (n := length data).
  assert (E : ((q * 64 + n + 72) / 64 = q + padded n / 64)%nat).
  { unfold padded. rewrite Nat.div_mul by done. replace (q * 64 + n + 72)%nat with ((n + 1 + 8 + 63) + q * 64)%nat by lia.
    rewrite Nat.div_add by done. lia. }
  rewrite E, absorb_add, <- app_assoc. rewrite absorb_prefix, drop_app_length' by lia. do 6 f_equal.
  rewrite Nat.mul_add_distr_r, padded_blocks. lia.
Qed.

Lemma H0_length : length H0 = 8%nat.
Proof. reflexivity. Qed.

Theorem sha256_spec data :
  sha256 data = if (length data <=? MAX_INPUT_LEN)%nat then Done (SHA256 data) else Panic.
Proof.
  unfold sha256, assert. destruct (Nat.leb_spec (length data) MAX_INPUT_LEN) as [Hl|Hl]; [|done]. osimpl.
  rewrite be_bytes_wrap64 by lia. fold (padded (length data)). rewrite padded_absorb; [|done|].
  - rewrite digest_all by apply absorb_length, H0_length. f_equal.
    pose proof (SHA256_split 0 [] data eq_refl) as Hs. cbn [app absorb length Nat.add] in Hs. rewrite Hs.
    by rewrite Z.mul_comm.
  - unfold padded, BUFFER_LEN, MAX_INPUT_LEN in *. replace 512%nat with (8 * 64)%nat by done.
    apply Nat.mul_le_mono_r. apply Nat.lt_succ_r, Nat.Div0.div_lt_upper_bound. lia.
Qed.

(** ** The streaming hash *)

(** What the hasher holds after it has been fed [m], the length apart. *)
Record holds (m st buf : list Z) (len : nat) : Prop := {
  ho_state : st = absorb (length m / 64) H0 m;
  ho_buf : length buf = 64%nat;
  ho_len : len = (length m mod 64)%nat;
  ho_left : take len buf = drop (length m / 64 * 64) m;
}.

Record absorbed (m : list Z) (s : Sha256Streaming) : Prop := {
  ab_holds : holds m (state s) (buffer s) (buffer_len s);
  ab_total : total_len s = wrap64 (Z.of_nat (length m));
}.

Lemma holds_state m st buf len : holds m st buf len -> length st = 8%nat.
Proof. intros [-> _ _ _]. by apply absorb_length. Qed.

(** The whole blocks of a message, and what is left of it. *)
Lemma blocks_of (m : list Z) :
  (length m = length m / 64 * 64 + length m mod 64)%nat /\ (length m mod 64 < 64)%nat.
Proof.
  split; [|by apply Nat.mod_upper_bound]. pose proof (Nat.div_mod_eq (length m) 64). lia.
Qed.

Lemma blocks_app q r (m1 m2 : list Z) :
  length m1 = (q * 64)%nat -> length m2 = r -> 
  (length (m1 ++ m2) / 64 = q + r / 64 /\ length (m1 ++ m2) mod 64 = r mod 64)%nat.
Proof.
  intros H1 H2. rewrite length_app, H1, H2, Nat.add_comm, Nat.div_add, Nat.Div0.mod_add by done. lia.
Qed.

(** Whole blocks behind whole blocks: the state, and nothing left. *)
Lemma holds_blocks m st buf data :
  holds m st buf 0 ->
  holds (m ++ take (length data / 64 * 64) data) (absorb (length data / 64) st data) buf 0.
Proof.
  intros [-> Hb Hl _]. pose proof (blocks_of m) as [Hm _]. rewrite <- Hl, Nat.add_0_r in Hm.
  pose proof (blocks_of data) as [Hd _]. set (q := (length data / 64)%nat) in *.
  assert (Ht : length (take (q * 64) data) = (q * 64)%nat) by (apply length_take_le; lia).
  destruct (blocks_app _ _ _ _ Hm Ht) as [E1 E2]. rewrite Nat.div_mul in E1 by done. rewrite Nat.Div0.mod_mul in E2.
  split; rewrite ?E1, ?E2; [|done|done|].
  - rewrite absorb_add, absorb_prefix, drop_app_length' by lia.
    rewrite <- (take_drop (q * 64) data) at 1. by rewrite absorb_prefix by lia.
  - rewrite drop_ge; [done|]. rewrite length_app, Ht. lia.
Qed.

(** A short rest becomes the new left-over. *)
Lemma holds_rest m st buf data :
  holds m st buf 0 -> (length data < 64)%nat ->
  holds (m ++ data) st (data ++ drop (length data) buf) (length data).
Proof.
  intros [-> Hb Hl _] Hd. pose proof (blocks_of m) as [Hm _]. rewrite <- Hl, Nat.add_0_r in Hm.
  destruct (blocks_app _ _ m data Hm eq_refl) as [E1 E2].
  rewrite (Nat.div_small (length data)), Nat.add_0_r in E1 by done. rewrite (Nat.mod_small (length data)) in E2 by done.
  split; rewrite ?E1, ?E2; [|rewrite length_app, length_drop; lia|done|].
  - by rewrite absorb_prefix by lia.
  - rewrite take_app_length', drop_app_length' by lia. done.
Qed.

(** Bytes put behind a left-over, short of a block or filling it. *)
Lemma holds_more m st buf len data :
  holds m st buf len -> (len + length data < 64)%nat ->
  holds (m ++ data) st (take len buf ++ data ++ drop (len + length data) buf) (len + length data).
Proof.
  intros [-> Hb Hl Hleft] Hd. pose proof (blocks_of m) as [Hm _]. rewrite <- Hl in Hm.
  assert (Hlen : length (take len buf) = len) by (apply length_take_le; lia).
  assert (E : (length (m ++ data) = length m / 64 * 64 + (len + length data))%nat) by (rewrite length_app; lia).
  assert (length (m ++ data) / 64 = length m / 64)%nat as E1.
  { rewrite E, Nat.div_add_l, (Nat.div_small (len + _)) by lia. lia. }
  assert (length (m ++ data) mod 64 = len + length data)%nat as E2.
  { rewrite E, Nat.add_comm, Nat.Div0.mod_add. apply Nat.mod_small. lia. }
  split; rewrite ?E1, ?E2; [|rewrite !length_app, length_drop; lia|done|].
  - by rewrite absorb_prefix by lia.
  - rewrite app_assoc, take_app_length' by (rewrite length_app; lia).
    rewrite drop_app_le by lia. by rewrite Hleft.
Qed.

Lemma holds_full m st buf len data :
  holds m st buf len -> (len + length data = 64)%nat ->
  holds (m ++ data) (compress st (take len buf ++ data)) (take len buf ++ data) 0.
Proof.
  intros [-> Hb Hl Hleft] Hd. pose proof (blocks_of m) as [Hm Hlt]. rewrite <- Hl in Hm, Hlt.
  assert (E : length (m ++ data) = (S (length m / 64) * 64)%nat) by (rewrite length_app; lia).
  assert (length (m ++ data) / 64 = length m / 64 + 1)%nat as E1 by (rewrite E, Nat.div_mul; lia).
  assert (length (m ++ data) mod 64 = 0)%nat as E2 by (rewrite E; apply Nat.Div0.mod_mul).
  assert (Hlen : length (take len buf) = len) by (apply length_take_le; lia).
  split; rewrite ?E1, ?E2; [|rewrite length_app; lia|done|].
  - rewrite absorb_add. cbn [absorb]. rewrite absorb_prefix, drop_app_le, <- Hleft by lia.
    by rewrite (take_ge (take len buf ++ data)) by (rewrite length_app; lia).
  - rewrite drop_ge; [done|lia].
Qed.

Lemma top_up_spec m s data :
  holds m (state s) (buffer s) (buffer_len s) ->
  exists st buf len k, top_up s data = Done (st, buf, len, drop k data) /\
    holds (m ++ take k data) st buf len /\ (len = 0%nat \/ drop k data = []).
Proof.
  intros H. unfold top_up. destruct (Nat.ltb_spec 0 (buffer_len s)) as [Hpos|Hz].
  2:{ exists (state s), (buffer s), (buffer_len s), 0%nat. rewrite drop_0, take_0, app_nil_r.
      split; [done|]. split; [done|]. left. lia. }
  pose proof (ho_buf _ _ _ _ H) as Hb. pose proof (ho_len _ _ _ _ H) as Hl. pose proof (blocks_of m) as [_ Hlt].
  set (n := ((64 - buffer_len s) `min` length data)%nat).
  assert (Hn : length (take n data) = n) by (apply length_take_le; lia).
  rewrite slice_to_Done by lia. osimpl. rewrite write_at_Done by lia. osimpl. rewrite Hn.
  destruct (Nat.eqb_spec (buffer_len s + n) 64) as [E|E].
  - rewrite drop_ge, app_nil_r by lia. rewrite process_block_spec by
      (by eapply holds_state || (rewrite length_app, length_take; lia)). osimpl.
    do 4 eexists. split; [done|]. split; [|by left]. apply holds_full; [done|lia].
  - do 4 eexists. split; [done|]. split; [|right; apply drop_ge; lia].
    pose proof (holds_more _ _ _ _ (take n data) H ltac:(lia)) as Hm. by rewrite Hn in Hm.
Qed.

Lemma update_spec m s data : absorbed m s -> exists s', update s data = Done s' /\ absorbed (m ++ data) s'.
Proof.
  intros [H Ht]. unfold update. destruct (top_up_spec m s data H) as (st & buf & len & k & -> & Hh & Hcase). osimpl.
  assert (Htot : wrap64 (total_len s + Z.of_nat (length data)) = wrap64 (Z.of_nat (length (m ++ data)))).
  { rewrite Ht, length_app, Nat2Z.inj_add. unfold wrap64. by rewrite Zplus_mod_idemp_l. }
  rewrite Htot. set (rest := drop k data) in *.
  rewrite block_loop_spec by (by eapply holds_state || (apply Nat.Div0.div_le_upper_bound; lia)). osimpl.
  pose proof (blocks_of rest) as [Hr Hlt]. set (q := (length rest / 64)%nat) in *.
  assert (Hall : m ++ data = (m ++ take k data) ++ take (q * 64) rest ++ drop (q * 64) rest).
  { unfold rest. by rewrite take_drop, <- app_assoc, take_drop. }
  assert (Hrest : length (drop (q * 64) rest) = (length rest mod 64)%nat) by (rewrite length_drop; lia).
  rewrite Hall. destruct (Nat.eqb_spec (length (drop (q * 64) rest)) 0) as [E|E].
  - eexists. split; [done|]. split; [cbn [state buffer buffer_len]|by rewrite <- Hall].
    rewrite (nil_length_inv _ E), app_nil_r. destruct Hcase as [->|Hnil]; [by apply holds_blocks|].
    assert (Hq : q = 0%nat) by (unfold q; by rewrite Hnil). rewrite Hq. by rewrite take_0, app_nil_r.
  - destruct Hcase as [->|Hnil]; [|unfold rest in *; rewrite Hnil in *; by rewrite drop_nil in E].
    rewrite copy_prefix_Done by (rewrite (ho_buf _ _ _ _ Hh); lia). osimpl. eexists. split; [done|].
    split; [cbn [state buffer buffer_len]|by rewrite <- Hall]. rewrite app_assoc. apply holds_rest; [|lia].
    by apply holds_blocks.
Qed.

Lemma finalize_spec m s : absorbed m s -> finalize s = Done (SHA256 m).
Proof.
  intros [H Ht]. pose proof H as [Hst Hb Hl Hleft]. pose proof (blocks_of m) as [Hm Hlt].
  assert (Hlen : length (take (buffer_len s) (buffer s)) = buffer_len s) by (apply length_take_le; lia).
  unfold finalize. rewrite slice_to_Done by lia. osimpl. rewrite be_bytes_wrap64 by lia.
  fold (padded (buffer_len s)). set (rest := take (buffer_len s) (buffer s)) in *. rewrite <- Hlen.
  rewrite padded_absorb.
  - rewrite digest_all by (by eapply absorb_length, holds_state). f_equal.
    set (q := (length m / 64)%nat) in *. assert (Hq : length (take (q * 64) m) = (q * 64)%nat) by (apply length_take_le; lia).
    assert (Hs : state s = absorb q H0 (take (q * 64) m)).
    { rewrite Hst. rewrite <- (take_drop (q * 64) m) at 1. apply absorb_prefix. lia. }
    rewrite <- (take_drop (q * 64) m) at 1. rewrite (SHA256_split q), Hleft, <- Hs by done.
    rewrite <- length_app, take_drop. do 5 f_equal. rewrite Ht. rewrite <- (be_bytes_wrap64 8 (_ * 8)), <- (be_bytes_wrap64 8 (8 * _)) by lia. f_equal.
    unfold wrap64. rewrite Zmult_mod_idemp_l. f_equal. lia.
  - by eapply holds_state.
  - rewrite Hlen. unfold padded. replace 128%nat with (2 * 64)%nat by done. apply Nat.mul_le_mono_r.
    apply Nat.lt_succ_r, Nat.Div0.div_lt_upper_bound. lia.
Qed.

Lemma new_absorbed : absorbed [] Streaming_new.
Proof. split; [|done]. split; done. Qed.

(** ** HMAC and PBKDF2 *)

Lemma digest_length st : length (digest st) = (4 * length st)%nat.
Proof.
  unfold digest. induction st as [|x st IH]; [done|].
  rewrite fmap_cons. change (length (be_bytes 4 x ++ mjoin (be_bytes 4 <$> st)) = 4 * S (length st))%nat.
  rewrite length_app, be_bytes_length, IH. lia.
Qed.

Lemma SHA256_length m : length (SHA256 m) = 32%nat.
Proof. unfold SHA256. by rewrite digest_length, absorb_length. Qed.

Lemma fit_key_length key : (length key <= MAX_KEY_LEN)%nat -> length (fit_key key) = BLOCK_SIZE.
Proof.
  unfold fit_key. destruct (Nat.ltb_spec BLOCK_SIZE (length key)) as [H|H]; intros _;
    rewrite length_app, length_replicate, ?SHA256_length; unfold BLOCK_SIZE in *; lia.
Qed.

Lemma xor_loop_spec n i key pad out :
  (i + n <= length key)%nat -> (i + n <= length out)%nat ->
  xor_loop n i key pad out =
  Done (take i out ++ ((fun k => Z.lxor k pad) <$> take n (drop i key)) ++ drop (i + n) out).
Proof.
  revert i out. induction n as [|n IH]; intros i out Hk Ho.
  { cbn [xor_loop]. rewrite Nat.add_0_r, take_0. simpl. by rewrite take_drop. }
  cbn [xor_loop]. destruct (lookup_lt_is_Some_2 key i) as [x Hx]; [lia|]. oindex Hx. ostore.
  rewrite IH by (rewrite ?length_insert; lia). rewrite take_filled, drop_insert_lt by lia.
  rewrite (drop_S _ _ _ Hx), <- app_assoc. replace (S i + n)%nat with (i + S n)%nat by lia. done.
Qed.

(** The two padded keys of HMAC: the key block under a mask, with room behind it. *)
Lemma xor_block key pad N :
  length key = BLOCK_SIZE ->
  xor_loop BLOCK_SIZE 0 key pad (replicate (BLOCK_SIZE + N) 0) =
  Done (((fun k => Z.lxor k pad) <$> key) ++ replicate N 0).
Proof.
  intros Hk. rewrite xor_loop_spec by (rewrite ?length_replicate; lia).
  rewrite drop_0, (take_ge key), drop_replicate by lia. by replace (BLOCK_SIZE + N - (0 + BLOCK_SIZE))%nat with N by lia.
Qed.

Theorem hmac_spec key m :
  hmac_sha256 key m =
  if (length key <=? MAX_KEY_LEN)%nat && (length m <=? MAX_MESSAGE_LEN)%nat then Done (HMAC key m) else Panic.
Proof.
  unfold hmac_sha256, assert. destruct (Nat.leb_spec (length key) MAX_KEY_LEN) as [Hk|Hk]; [|done]. osimpl.
  destruct (Nat.leb_spec (length m) MAX_MESSAGE_LEN) as [Hm|Hm]; [|done]. osimpl.
  pose proof (fit_key_length key Hk) as Hf.
  assert ((if (BLOCK_SIZE <? length key)%nat
           then hashed ← sha256 key; copy_prefix (replicate BLOCK_SIZE 0) hashed
           else copy_prefix (replicate BLOCK_SIZE 0) key) = Done (fit_key key)) as ->.
  { unfold fit_key. destruct (Nat.ltb_spec BLOCK_SIZE (length key)) as [H|H].
    - rewrite sha256_spec. replace (length key <=? MAX_INPUT_LEN)%nat with true by (unfold MAX_INPUT_LEN, MAX_KEY_LEN in *; lia).
      osimpl. rewrite copy_prefix_Done by (rewrite SHA256_length, length_replicate; unfold BLOCK_SIZE; lia).
      by rewrite drop_replicate.
    - rewrite copy_prefix_Done by (rewrite length_replicate; lia). by rewrite drop_replicate. }
  osimpl. rewrite !xor_block by done. osimpl. unfold HMAC.
  set (ik := (fun k => Z.lxor k 0x36) <$> fit_key key). set (ok := (fun k => Z.lxor k 0x5c) <$> fit_key key).
  assert (Hi : length ik = BLOCK_SIZE) by (unfold ik; by rewrite length_fmap).
  assert (Ho : length ok = BLOCK_SIZE) by (unfold ok; by rewrite length_fmap).
  rewrite write_at_Done by (rewrite length_app, length_replicate; lia). osimpl.
  rewrite take_app_length', app_assoc by done. rewrite slice_to_Done by (rewrite !length_app; lia). osimpl.
  rewrite take_app_length' by (rewrite length_app; lia). rewrite sha256_spec, length_app, Hi.
  replace (BLOCK_SIZE + length m <=? MAX_INPUT_LEN)%nat with true by (unfold BLOCK_SIZE, MAX_INPUT_LEN, MAX_MESSAGE_LEN in *; lia).
  osimpl. rewrite write_at_Done by (rewrite length_app, length_replicate, SHA256_length; lia). osimpl.
  rewrite take_app_length', drop_ge, app_nil_r by (rewrite ?length_app, ?length_replicate, ?SHA256_length; lia).
  rewrite sha256_spec, length_app, Ho, SHA256_length. done.
Qed.

Lemma hmac_ok key m :
  (length key <= MAX_KEY_LEN)%nat -> (length m <= MAX_MESSAGE_LEN)%nat -> hmac_sha256 key m = Done (HMAC key m).
Proof.
  intros Hk Hm. rewrite hmac_spec. by replace ((length key <=? MAX_KEY_LEN) && (length m <=? MAX_MESSAGE_LEN))%nat with true by lia.
Qed.

Lemma accumulate_spec n i u acc :
  (i + n <= length u)%nat -> (i + n <= length acc)%nat ->
  accumulate n i u acc =
  Done (take i acc ++ xor_bytes (take n (drop i acc)) (take n (drop i u)) ++ drop (i + n) acc).
Proof.
  revert i acc. induction n as [|n IH]; intros i acc Hu Ha.
  { cbn [accumulate]. rewrite Nat.add_0_r, !take_0. simpl. by rewrite take_drop. }
  cbn [accumulate]. destruct (lookup_lt_is_Some_2 acc i) as [a Hai]; [lia|]. oindex Hai.
  destruct (lookup_lt_is_Some_2 u i) as [x Hx]; [lia|]. oindex Hx. ostore.
  rewrite IH by (rewrite ?length_insert; lia). rewrite take_filled, !drop_insert_lt by lia.
  rewrite (drop_S _ _ _ Hai), (drop_S _ _ _ Hx), <- app_assoc. replace (S i + n)%nat with (i + S n)%nat by lia. done.
Qed.

Lemma accumulate_all u acc :
  length u = 32%nat -> length acc = 32%nat -> accumulate 32 0 u acc = Done (xor_bytes acc u).
Proof.
  intros Hu Ha. rewrite accumulate_spec by lia.
  by rewrite !drop_0, take_0, (take_ge acc), (take_ge u), drop_ge, app_nil_r by lia.
Qed.

Lemma HMAC_length key m : length (HMAC key m) = 32%nat.
Proof. apply SHA256_length. Qed.

Lemma iterate_spec n password u acc :
  (length password <= MAX_KEY_LEN)%nat -> length u = 32%nat -> length acc = 32%nat ->
  iterate n password u acc = Done (xor_iterates n password u acc) /\
  length (xor_iterates n password u acc) = 32%nat.
Proof.
  intros Hp. revert u acc. induction n as [|n IH]; intros u acc Hu Ha; [done|]. cbn [iterate xor_iterates].
  rewrite hmac_ok by (rewrite ?Hu; unfold MAX_MESSAGE_LEN; lia). osimpl.
  rewrite accumulate_all by (done || apply HMAC_length). osimpl. apply IH; [apply HMAC_length|].
  unfold xor_bytes. rewrite length_zip_with, HMAC_length. lia.
Qed.

Theorem pbkdf2_spec password salt iterations :
  pbkdf2_hmac_sha256 password salt iterations =
  if (length salt <=? MAX_SALT_LEN)%nat && (1 <=? iterations) && (length password <=? MAX_KEY_LEN)%nat
  then Done (PBKDF2 password salt iterations) else Panic.
Proof.
  unfold pbkdf2_hmac_sha256, assert. destruct (Nat.leb_spec (length salt) MAX_SALT_LEN) as [Hs|Hs]; [|done]. osimpl.
  destruct (1 <=? iterations); [|done]. osimpl.
  rewrite copy_prefix_Done by (rewrite length_replicate; lia). osimpl.
  rewrite write_at_Done by (rewrite length_app, length_drop, length_replicate, be_bytes_length; lia). osimpl.
  rewrite take_app_length', app_assoc by done.
  rewrite slice_to_Done by (rewrite !length_app, be_bytes_length; lia). osimpl.
  rewrite take_app_length' by (rewrite length_app, be_bytes_length; lia). rewrite hmac_spec.
  replace (length (salt ++ be_bytes 4 1) <=? MAX_MESSAGE_LEN)%nat with true
    by (rewrite length_app, be_bytes_length; unfold MAX_SALT_LEN, MAX_MESSAGE_LEN in *; lia).
  rewrite andb_true_r. destruct (Nat.leb_spec (length password) MAX_KEY_LEN) as [Hp|Hp]; [|done]. osimpl.
  apply iterate_spec; [done|apply HMAC_length|apply HMAC_length].
Qed.

Lemma PBKDF2_length password s n : length (PBKDF2 password s n) = 32%nat.
Proof.
  unfold PBKDF2. assert (H : forall k u acc, length u = 32%nat -> length acc = 32%nat ->
    length (xor_iterates k password u acc) = 32%nat).
  { induction k as [|k IH]; intros u acc Hu Ha; [done|]. cbn [xor_iterates]. apply IH; [apply HMAC_length|].
    unfold xor_bytes. rewrite length_zip_with, HMAC_length. lia. }
  apply H; apply HMAC_length.
Qed.

(** ** Signatures *)

Lemma hash_two a b :
  (s ← update Streaming_new a; s ← update s b; finalize s) = Done (SHA256 (a ++ b)).
Proof.
  destruct (update_spec [] Streaming_new a new_absorbed) as (s1 & -> & H1). osimpl.
  destruct (update_spec _ s1 b H1) as (s2 & -> & H2). osimpl. by apply finalize_spec.
Qed.

Lemma compute_signature_spec header payload :
  compute_signature header payload = Done (signature header payload).
Proof.
  unfold compute_signature. pose proof (hash_two header payload) as H.
  destruct (update Streaming_new header) as [s1|]; [|discriminate H]. osimpl. cbn [mbind outcome_bind] in H.
  destruct (update s1 payload) as [s2|]; [|discriminate H]. osimpl. cbn [mbind outcome_bind] in H. rewrite H. osimpl.
  apply hmac_ok; [|rewrite SHA256_length]; unfold MAX_KEY_LEN, MAX_MESSAGE_LEN; simpl; lia.
Qed.

Lemma diff_loop_spec n i a b acc :
  (i + n <= length a)%nat -> (i + n <= length b)%nat ->
  exists d, diff_loop n i a b acc = Done d /\
    (d = 0 <-> acc = 0 /\ take n (drop i a) = take n (drop i b)).
Proof.
  revert i acc. induction n as [|n IH]; intros i acc Ha Hb; cbn [diff_loop].
  { exists acc. rewrite !take_0. naive_solver. }
  destruct (lookup_lt_is_Some_2 a i) as [x Hx]; [lia|]. oindex Hx.
  destruct (lookup_lt_is_Some_2 b i) as [y Hy]; [lia|]. oindex Hy.
  destruct (IH (S i) (Z.lor acc (Z.lxor x y))) as (d & -> & Hd); [lia|lia|]. exists d. split; [done|].
  rewrite Hd, Z.lor_eq_0_iff, Z.lxor_eq_0_iff, (drop_S _ _ _ Hx), (drop_S _ _ _ Hy). cbn [take].
  split.
  - intros [[-> ->] ->]. done.
  - intros (-> & E). injection E as -> ->. done.
Qed.

Lemma constant_time_eq_spec a b : constant_time_eq a b = Done (bool_decide (a = b)).
Proof.
  unfold constant_time_eq. destruct (Nat.eqb_spec (length a) (length b)) as [E|E]; cbn [negb].
  - destruct (diff_loop_spec (length a) 0 a b 0) as (d & -> & Hd); [lia|lia|]. osimpl. f_equal.
    rewrite !drop_0, !take_ge in Hd by lia. apply eq_bool_prop_intro.
    rewrite Is_true_true, Z.eqb_eq, bool_decide_spec. naive_solver.
  - rewrite bool_decide_false; [done|]. by intros ->.
Qed.

(** A header with its signature field zeroed. *)
Definition unsigned (header : list Z) (off : nat) : list Z :=
  take off header ++ replicate PKG_SIGNATURE_LEN 0 ++ drop (off + PKG_SIGNATURE_LEN) header.

(** A header with a signature in its field. *)
Definition signed (header : list Z) (off : nat) (sig : list Z) : list Z :=
  take off header ++ sig ++ drop (off + PKG_SIGNATURE_LEN) header.

Lemma zero_range_spec l a n :
  (a + n <= length l)%nat -> zero_range l a n = Done (take a l ++ replicate n 0 ++ drop (a + n) l).
Proof.
  intros H. unfold zero_range. rewrite range_Done by lia. osimpl.
  rewrite length_take_le by (rewrite length_drop; lia). replace (a + n - a)%nat with n by lia.
  rewrite write_at_Done by (rewrite length_replicate; lia). by rewrite length_replicate.
Qed.

Lemma verify_spec header off payload :
  0 <= off < 4294967296 - 32 ->
  rust_pkg_verify_signature header off payload =
  Done (bool_decide ((Z.to_nat off + PKG_SIGNATURE_LEN <= length header <= 256)%nat /\
    take PKG_SIGNATURE_LEN (drop (Z.to_nat off) header) = signature (unsigned header (Z.to_nat off)) payload)).
Proof.
  intros Ho. unfold rust_pkg_verify_signature. rewrite wrap32_id by (unfold is_u32, PKG_SIGNATURE_LEN; lia).
  destruct (decide (Z.to_nat off + PKG_SIGNATURE_LEN <= length header <= 256)%nat) as [Hl|Hl].
  2:{ rewrite bool_decide_false by tauto. unfold PKG_SIGNATURE_LEN in *.
      by replace (_ || _) with true by (destruct (256 <? length header)%nat eqn:E; lia). }
  replace (_ || _) with false by (unfold PKG_SIGNATURE_LEN in *; lia). set (o := Z.to_nat off) in *.
  rewrite copy_prefix_Done by (rewrite length_replicate; lia). osimpl.
  rewrite zero_range_spec by (rewrite length_app; lia). osimpl.
  rewrite take_app_le, drop_app_le, !app_assoc by lia.
  rewrite slice_to_Done by (rewrite !length_app, length_take, length_replicate, !length_drop; lia). osimpl.
  rewrite take_app_length' by (rewrite !length_app, length_take, length_replicate, !length_drop; lia).
  rewrite <- app_assoc. fold (unsigned header o). rewrite compute_signature_spec. osimpl.
  rewrite range_Done by lia. osimpl. replace (o + PKG_SIGNATURE_LEN - o)%nat with PKG_SIGNATURE_LEN by lia.
  rewrite constant_time_eq_spec. f_equal. apply bool_decide_ext. naive_solver.
Qed.

#[global] Opaque SHA256 HMAC PBKDF2.

(** * Theorems about the hashes and signatures *)

Lemma feed_spec m chunks s :
  absorbed m s -> exists s', feed chunks s = Done s' /\ absorbed (m ++ mjoin chunks) s'.
Proof.
  revert m s. induction chunks as [|c chunks IH]; intros m s H; cbn [feed].
  { exists s. by rewrite app_nil_r. }
  destruct (update_spec m s c H) as (s1 & -> & H1). osimpl.
  destruct (IH _ _ H1) as (s2 & E & H2). exists s2. split; [done|]. by rewrite <- app_assoc in H2.
Qed.

(** C25: Hashing a message in pieces is hashing the message. However the message is cut into
    pieces, empty and large ones included, the streaming hasher returns the SHA-256 digest
    of their concatenation; the one-shot function returns the same digest for every message
    up to its limit, and aborts beyond it. *)
Theorem sha_streaming_equiv chunks :
  stream chunks = Done (SHA256 (mjoin chunks)) /\
  sha256 (mjoin chunks) =
    if (length (mjoin chunks) <=? MAX_INPUT_LEN)%nat then stream chunks else Panic.
Proof.
  assert (stream chunks = Done (SHA256 (mjoin chunks))) as E.
  { unfold stream. destruct (feed_spec [] chunks _ new_absorbed) as (s & -> & H). by apply finalize_spec. }
  split; [done|]. by rewrite E, sha256_spec.
Qed.

(** The boot self-tests pass: the published SHA-256 and HMAC vectors come out, the
    streaming hash agrees with the one-shot hash, and a signature is accepted as made and
    rejected once the payload, the header or the signature itself is altered. *)
Theorem sha_selftests_pass :
  rust_sha256_selftest = Done 0 /\ rust_hmac_sha256_selftest = Done 0 /\ rust_pkgsign_selftest = Done 0.
Proof. vm_compute. auto. Qed.

(** C38: The password hash is PBKDF2-HMAC-SHA256 with one block of output, over HMAC as in
    RFC 2104, keys longer than a block hashed first; lengths beyond the buffers of the
    code, and no iterations, abort the kernel and nothing else does. *)
Theorem pbkdf2_correct password salt iterations message :
  hmac_sha256 password message =
    (if (length password <=? MAX_KEY_LEN)%nat && (length message <=? MAX_MESSAGE_LEN)%nat
     then Done (HMAC password message) else Panic) /\
  pbkdf2_hmac_sha256 password salt iterations =
    (if (length salt <=? MAX_SALT_LEN)%nat && (1 <=? iterations) && (length password <=? MAX_KEY_LEN)%nat
     then Done (PBKDF2 password salt iterations) else Panic).
Proof. split; [apply hmac_spec|apply pbkdf2_spec]. Qed.

Lemma signed_field header off sig :
  (off + PKG_SIGNATURE_LEN <= length header)%nat -> length sig = PKG_SIGNATURE_LEN ->
  length (signed header off sig) = length header /\
  take PKG_SIGNATURE_LEN (drop off (signed header off sig)) = sig /\
  unsigned (signed header off sig) off = unsigned header off.
Proof.
  intros Hl Hs. unfold signed, unsigned. assert (Ht : length (take off header) = off) by (apply length_take_le; lia).
  split; [rewrite !length_app, Ht, length_drop; lia|].
  rewrite drop_app_length', take_app_length', take_app_length' by done. split; [done|].
  by rewrite (app_assoc (take off header) sig), drop_app_length' by (rewrite length_app; lia).
Qed.

(** Signatures. A package is accepted exactly when its header has room for the
    signature, is at most 256 bytes long, and carries HMAC-SHA256 under the package key of
    the SHA-256 digest of the header with that field zeroed and the payload. So what is
    signed as the host tool does is accepted, and any header and payload accepted with the
    same signature have the same code. *)
Theorem pkg_signature_correct header off payload :
  0 <= off < 4294967296 - 32 ->
  let o := Z.to_nat off in
  rust_pkg_verify_signature header off payload =
    Done (bool_decide ((o + PKG_SIGNATURE_LEN <= length header <= 256)%nat /\
      take PKG_SIGNATURE_LEN (drop o header) = signature (unsigned header o) payload)) /\
  ((o + PKG_SIGNATURE_LEN <= length header <= 256)%nat ->
   rust_pkg_verify_signature (signed header o (signature (unsigned header o) payload)) off payload = Done true).
Proof.
  intros Ho o. split; [by apply verify_spec|]. intros Hl. rewrite verify_spec by done. fold o. f_equal.
  destruct (signed_field header o (signature (unsigned header o) payload)) as (E1 & E2 & E3);
    [lia|apply HMAC_length|]. rewrite E1, E2, E3. by apply bool_decide_true.
Qed.

Lemma pkg_signature_correct_witness :
  exists sig, rust_pkg_verify_signature (signed (replicate 48 7) 16 sig) 16 (str "payload") = Done true.
Proof.
  eexists. destruct (pkg_signature_correct (replicate 48 7) 16 (str "payload")) as [_ H]; [lia|].
  apply H. rewrite length_replicate. unfold PKG_SIGNATURE_LEN. lia.
Defined.
