(* ===== verification/Users.v ===== *)
(** * The user database

    The definitions of [kernel/rust/users.rs], with the login and sudo gates of
    [kernel/task/process.c] in front of it. A name or password is the byte string behind
    its pointer; what a call writes through [out_uid] and [out_gid] is part of its
    result. *)

From S2P Require Import Prelude Bytes Sha.
Local Open Scope Z_scope.
Local Open Scope machine_scope.

Definition MAX_USERS : nat := 8.
Definition USERNAME_MAX : nat := 32.
Definition SALT_LEN : nat := 16.
Definition HASH_LEN : nat := 32.
Definition PBKDF2_ITERATIONS : Z := 4096.
Definition LOCKOUT_THRESHOLD : Z := 5.

Record UserRecord : Type := mkUser {
  in_use : bool;
  username : list Z;
  username_len : Z;
  uid : Z;
  gid : Z;
  salt : list Z;
  password_hash : list Z;
  failed_attempts : Z;
}.

Definition EMPTY_USER : UserRecord :=
  mkUser false (replicate USERNAME_MAX 0) 0 0 0 (replicate SALT_LEN 0) (replicate HASH_LEN 0) 0.

(** The statics [USERS] and [USER_COUNT]. *)
Record Users : Type := mkUsers {
  table : list UserRecord;
  user_count : Z;
}.

Definition Users_new : Users := mkUsers (replicate MAX_USERS EMPTY_USER) 0.

Definition set_failed (n : Z) (r : UserRecord) : UserRecord :=
  mkUser (in_use r) (username r) (username_len r) (uid r) (gid r) (salt r) (password_hash r) n.

Definition derive_salt (seed : Z) (name : list Z) : outcome (list Z) :=
  input ← write_at (replicate (4 + USERNAME_MAX) 0) 0 (le_bytes 4 seed);
  input ← write_at input 4 name;
  input ← slice_to input (4 + length name);
  hash ← sha256 input;
  slice_to hash SALT_LEN.

(** [constant_time_eq] of users.rs, on two hashes. *)
Definition hash_eq (a b : list Z) : outcome bool :=
  diff ← diff_loop HASH_LEN 0 a b 0; Done (diff =? 0).

Definition username_matches (r : UserRecord) (name : list Z) : outcome bool :=
  if in_use r && (username_len r =? Z.of_nat (length name))
  then prefix ← slice_to (username r) (length name); Done (bool_decide (prefix = name))
  else Done false.

(** [for existing in table.iter()]: is the name taken? *)
Fixpoint taken (l : list UserRecord) (name : list Z) : outcome bool :=
  match l with
  | [] => Done false
  | r :: l' =>
      m ← username_matches r name;
      if m : bool then Done true else taken l' name
  end.

(** The account as it is written into a free slot, whose failure counter stays. *)
Definition fill_slot (r : UserRecord) (name : list Z) (u g : Z) (s h : list Z) : outcome UserRecord :=
  n ← copy_prefix (replicate USERNAME_MAX 0) name;
  Done (mkUser true n (wrap8 (Z.of_nat (length name))) u g s h (failed_attempts r)).

(** [for slot in table.iter_mut()]: the first free slot, if there is one. *)
Fixpoint add_loop (l : list UserRecord) (name : list Z) (u g : Z) (s h : list Z) :
    outcome (bool * list UserRecord) :=
  match l with
  | [] => Done (false, [])
  | r :: l' =>
      if negb (in_use r) then r' ← fill_slot r name u g s h; Done (true, r' :: l')
      else '(ok, l'') ← add_loop l' name u g s h; Done (ok, r :: l'')
  end.

Definition rust_users_add (name : list Z) (u g : Z) (password : list Z) (salt_seed : Z) (s : Users) :
    outcome (bool * Users) :=
  if (USERNAME_MAX <? length name)%nat then Done (false, s)
  else
    t ← taken (table s) name;
    if t : bool then Done (false, s)
    else
      sl ← derive_salt salt_seed name;
      h ← pbkdf2_hmac_sha256 password sl PBKDF2_ITERATIONS;
      '(ok, l) ← add_loop (table s) name u g sl h;
      Done (ok, mkUsers l (if ok : bool then user_count s +₃₂ 1 else user_count s)).

(** One attempt against one account: refused outright when it is locked, else the password
    is checked and the failures counted. *)
Definition attempt (r : UserRecord) (password : list Z) : outcome (bool * UserRecord) :=
  if LOCKOUT_THRESHOLD <=? failed_attempts r then Done (false, r)
  else
    h ← pbkdf2_hmac_sha256 password (salt r) PBKDF2_ITERATIONS;
    eq ← hash_eq (password_hash r) h;
    if eq : bool then Done (true, set_failed 0 r)
    else Done (false, set_failed (failed_attempts r +₃₂ 1) r).

(** [for record in users().iter_mut()] of [rust_users_authenticate]. *)
Fixpoint auth_loop (l : list UserRecord) (name password : list Z) :
    outcome (option (Z * Z) * list UserRecord) :=
  match l with
  | [] => Done (None, [])
  | r :: l' =>
      m ← username_matches r name;
      if m : bool then
        '(ok, r') ← attempt r password;
        Done (if ok : bool then Some (uid r, gid r) else None, r' :: l')
      else '(res, l'') ← auth_loop l' name password; Done (res, r :: l'')
  end.

(** [Some (uid, gid)] for [true] with what is written to the out pointers. *)
Definition rust_users_authenticate (name password : list Z) (s : Users) :
    outcome (option (Z * Z) * Users) :=
  '(res, l) ← auth_loop (table s) name password;
  Done (res, mkUsers l (user_count s)).

Fixpoint sudo_loop (l : list UserRecord) (u : Z) (password : list Z) : outcome (bool * list UserRecord) :=
  match l with
  | [] => Done (false, [])
  | r :: l' =>
      if in_use r && (uid r =? u) then
        '(ok, r') ← attempt r password;
        Done (if ok : bool then gid r =? 0 else false, r' :: l')
      else '(res, l'') ← sudo_loop l' u password; Done (res, r :: l'')
  end.

Definition rust_users_sudo_check (u : Z) (password : list Z) (s : Users) : outcome (bool * Users) :=
  '(res, l) ← sudo_loop (table s) u password;
  Done (res, mkUsers l (user_count s)).

Definition rust_users_count (s : Users) : Z := user_count s.

(** ** USERS.CFG *)

Definition RECORD_SIZE : nat := 1 + USERNAME_MAX + 4 + 4 + SALT_LEN + HASH_LEN.

Definition rust_users_serialized_size : Z := Z.of_nat (RECORD_SIZE * MAX_USERS).

(** [for (i, record) in users().iter().enumerate()]. *)
Fixpoint save_loop (i : nat) (l : list UserRecord) (buf : list Z) : outcome (list Z) :=
  match l with
  | [] => Done buf
  | r :: l' =>
      let base := (i * RECORD_SIZE)%nat in
      buf ← store buf base (if in_use r then username_len r else 0);
      buf ← write_at buf (base + 1) (username r);
      let off := (base + 1 + USERNAME_MAX)%nat in
      buf ← write_at buf off (le_bytes 4 (uid r));
      let off := (off + 4)%nat in
      buf ← write_at buf off (le_bytes 4 (gid r));
      let off := (off + 4)%nat in
      buf ← write_at buf off (salt r);
      let off := (off + SALT_LEN)%nat in
      buf ← write_at buf off (password_hash r);
      save_loop (S i) l' buf
  end.

(** [out] is the memory behind the pointer, of [out_len] bytes. *)
Definition rust_users_save (out : list Z) (s : Users) : outcome (Z * list Z) :=
  let needed := rust_users_serialized_size in
  if Z.of_nat (length out) <? needed then Done (-1, out)
  else
    buf ← save_loop 0 (table s) (take (Z.to_nat needed) out);
    Done (needed, buf ++ drop (Z.to_nat needed) out).

(** The record at [base], whose name length has been checked. *)
Definition load_record (buf : list Z) (base : nat) (len : Z) : outcome UserRecord :=
  name ← range buf (base + 1) (base + 1 + USERNAME_MAX);
  let off := (base + 1 + USERNAME_MAX)%nat in
  u ← range buf off (off + 4);
  let off := (off + 4)%nat in
  g ← range buf off (off + 4);
  let off := (off + 4)%nat in
  s ← range buf off (off + SALT_LEN);
  let off := (off + SALT_LEN)%nat in
  h ← range buf off (off + HASH_LEN);
  Done (mkUser true name len (of_le_bytes u) (of_le_bytes g) s h 0).

(** [for i in 0..MAX_USERS]; [None] is the refusal of a corrupt file. *)
Fixpoint load_loop (n i : nat) (buf : list Z) (loaded : list UserRecord) (count : Z) :
    outcome (option (list UserRecord * Z)) :=
  match n with
  | O => Done (Some (loaded, count))
  | S n' =>
      let base := (i * RECORD_SIZE)%nat in
      len ← index buf base;
      if len =? 0 then load_loop n' (S i) buf loaded count
      else if Z.of_nat USERNAME_MAX <? len then Done None
      else
        r ← load_record buf base len;
        loaded ← store loaded i r;
        load_loop n' (S i) buf loaded (count +₃₂ 1)
  end.

Definition rust_users_load (data : list Z) (s : Users) : outcome (bool * Users) :=
  if negb (Z.of_nat (length data) =? rust_users_serialized_size) then Done (false, s)
  else
    r ← load_loop MAX_USERS 0 data (replicate MAX_USERS EMPTY_USER) 0;
    match r with
    | None => Done (false, s)
    | Some (l, count) => Done (true, mkUsers l count)
    end.

(** ** kernel/task/process.c *)

(** The identity of a process: uid and gid. *)
Definition identity : Type := Z * Z.

Definition process_set_identity (p : identity) (u g : Z) : identity := (u, g).

Definition process_login (p : identity) (name password : list Z) (s : Users) :
    outcome (bool * identity * Users) :=
  '(res, s) ← rust_users_authenticate name password s;
  match res with
  | None => Done (false, p, s)
  | Some (u, g) => Done (true, process_set_identity p u g, s)
  end.

Definition process_sudo (p : identity) (password : list Z) (s : Users) :
    outcome (bool * identity * Users) :=
  '(ok, s) ← rust_users_sudo_check p.1 password s;
  if ok : bool then Done (true, process_set_identity p 0 0, s) else Done (false, p, s).
