(* ===== verification/UsersInv.v ===== *)
(** * The user database: invariant and calls

    The shape of the table that every call keeps, and what each call does to it, over the
    password hash of ShaSpec.v. *)

From S2P Require Import Prelude Bytes Sha ShaSpec Users.
Local Open Scope Z_scope.
Local Open Scope machine_scope.

Record rec_ok (r : UserRecord) : Prop := {
  ro_name : length (username r) = USERNAME_MAX;
  ro_len : 0 <= username_len r <= Z.of_nat USERNAME_MAX;
  ro_uid : is_u32 (uid r);
  ro_gid : is_u32 (gid r);
  ro_salt : length (salt r) = SALT_LEN;
  ro_hash : length (password_hash r) = HASH_LEN;
  ro_failed : 0 <= failed_attempts r <= LOCKOUT_THRESHOLD;
  ro_free : in_use r = false -> failed_attempts r = 0;
}.

Record users_ok (s : Users) : Prop := {
  us_len : length (table s) = MAX_USERS;
  us_recs : Forall rec_ok (table s);
  us_count : user_count s = Z.of_nat (countb in_use (table s));
}.

Lemma EMPTY_USER_ok : rec_ok EMPTY_USER.
Proof. split; simpl; try done; unfold is_u32, LOCKOUT_THRESHOLD; lia. Qed.

Lemma Users_new_ok : users_ok Users_new.
Proof. split; [done| |done]. apply Forall_replicate, EMPTY_USER_ok. Qed.

Lemma set_failed_ok n r : rec_ok r -> in_use r = true -> 0 <= n <= LOCKOUT_THRESHOLD -> rec_ok (set_failed n r).
Proof. intros [] Hu Hn. split; simpl; try done. congruence. Qed.

(** ** Looking an account up *)

(** The account answers to this name; to this uid. *)
Definition has_name (name : list Z) (r : UserRecord) : bool :=
  in_use r && (username_len r =? Z.of_nat (length name)) && bool_decide (take (length name) (username r) = name).

Definition has_uid (u : Z) (r : UserRecord) : bool := in_use r && (uid r =? u).

Lemma username_matches_spec r name : rec_ok r -> username_matches r name = Done (has_name name r).
Proof.
  intros Hr. unfold username_matches, has_name. destruct (in_use r); [|done]. cbn [andb].
  destruct (Z.eqb_spec (username_len r) (Z.of_nat (length name))) as [E|E]; [|done].
  pose proof (ro_len r Hr). rewrite slice_to_Done by (rewrite (ro_name r Hr); lia). done.
Qed.

Lemma taken_spec l name : Forall rec_ok l -> taken l name = Done (existsb (has_name name) l).
Proof.
  intros Hl. induction Hl as [|r l Hr Hl IH]; [done|]. cbn [taken existsb].
  rewrite username_matches_spec by done. osimpl. by destruct (has_name name r).
Qed.

Lemma existsb_position {A} (f : A -> bool) l : existsb f l = false <-> position f l = None.
Proof.
  induction l as [|x l IH]; [done|]. simpl. destruct (f x); [done|]. cbn [orb]. rewrite IH, fmap_None. done.
Qed.

(** ** Passwords *)

(** The password is the account's. *)
Definition right (r : UserRecord) (password : list Z) : bool :=
  bool_decide (password_hash r = PBKDF2 password (salt r) PBKDF2_ITERATIONS).

Definition locked (r : UserRecord) : bool := LOCKOUT_THRESHOLD <=? failed_attempts r.

(** What an attempt answers and makes of the account. *)
Definition tried (r : UserRecord) (password : list Z) : bool * UserRecord :=
  if locked r then (false, r)
  else if right r password then (true, set_failed 0 r)
  else (false, set_failed (failed_attempts r + 1) r).

Lemma hash_eq_spec a b :
  length a = HASH_LEN -> length b = HASH_LEN -> hash_eq a b = Done (bool_decide (a = b)).
Proof.
  intros Ha Hb. rewrite <- constant_time_eq_spec. unfold hash_eq, constant_time_eq. by rewrite Ha, Hb.
Qed.

Lemma attempt_spec r password :
  rec_ok r ->
  attempt r password =
  if locked r || (length password <=? MAX_KEY_LEN)%nat then Done (tried r password) else Panic.
Proof.
  intros Hr. unfold attempt, tried. fold (locked r). destruct (locked r) eqn:Hl; [done|]. cbn [orb].
  rewrite pbkdf2_spec, (ro_salt r Hr). change ((SALT_LEN <=? MAX_SALT_LEN)%nat && (1 <=? PBKDF2_ITERATIONS)) with true.
  cbn [andb]. destruct (length password <=? MAX_KEY_LEN)%nat; [|done]. osimpl.
  rewrite hash_eq_spec; [|apply Hr|apply PBKDF2_length]. osimpl. fold (right r password).
  destruct (right r password); [done|]. do 3 f_equal. apply wrap32_id. pose proof (ro_failed r Hr).
  unfold is_u32, LOCKOUT_THRESHOLD in *. lia.
Qed.

Lemma tried_ok r password : rec_ok r -> in_use r = true -> rec_ok (tried r password).2.
Proof.
  intros Hr Hu. unfold tried, locked. destruct (Z.leb_spec LOCKOUT_THRESHOLD (failed_attempts r)); [done|].
  pose proof (ro_failed r Hr). destruct (right r password); apply set_failed_ok; try done;
    unfold LOCKOUT_THRESHOLD in *; simpl; lia.
Qed.

(** ** One call *)

(** The account a call is about: the first that satisfies [f]. *)
Fixpoint target (f : UserRecord -> bool) (l : list UserRecord) : option (nat * UserRecord) :=
  match l with
  | [] => None
  | r :: l' => if f r then Some (0%nat, r) else (fun ir => (S ir.1, ir.2)) <$> target f l'
  end.

Lemma target_Some f l i r :
  target f l = Some (i, r) <-> position f l = Some i /\ l !! i = Some r.
Proof.
  revert i. induction l as [|x l IH]; intros i; simpl; [naive_solver|]. destruct (f x) eqn:Hx.
  { split; [by intros [= <- <-]|]. by intros [[= <-] [= ->]]. }
  rewrite !fmap_Some. split.
  - intros ([j y] & Hj & [= -> ->]). apply IH in Hj as [Hp Hl]. simpl. eauto.
  - intros [(j & Hj & ->) Hl]. simpl in Hl. exists (j, r). split; [|done]. by apply IH.
Qed.

Lemma target_spec f l i r :
  target f l = Some (i, r) -> l !! i = Some r /\ f r = true.
Proof.
  intros [Hp Hl]%target_Some. apply position_Some in Hp as (y & Hy & Hf & _). by simplify_eq.
Qed.

Lemma target_rec_ok f l i r : Forall rec_ok l -> target f l = Some (i, r) -> rec_ok r.
Proof. intros Hl [Hi _]%target_spec. by eapply Forall_lookup_1. Qed.

(** Can the attempt be evaluated, or does the password overrun the buffers of the hash? *)
Definition fits (r : UserRecord) (password : list Z) : bool := locked r || (length password <=? MAX_KEY_LEN)%nat.

Lemma auth_loop_spec l name password :
  Forall rec_ok l ->
  auth_loop l name password =
  match target (has_name name) l with
  | None => Done (None, l)
  | Some (i, r) =>
      if fits r password
      then Done (if (tried r password).1 then Some (uid r, gid r) else None, <[i := (tried r password).2]> l)
      else Panic
  end.
Proof.
  intros Hl. induction Hl as [|r l Hr Hl IH]; [done|]. cbn [auth_loop target].
  rewrite username_matches_spec by done. osimpl. destruct (has_name name r).
  - rewrite attempt_spec by done. unfold fits. destruct (locked r || _); [|done]. osimpl. by destruct (tried r password).
  - rewrite IH. destruct (target (has_name name) l) as [[i x]|]; [|done]. simpl. by destruct (fits x password).
Qed.

Lemma sudo_loop_spec l u password :
  Forall rec_ok l ->
  sudo_loop l u password =
  match target (has_uid u) l with
  | None => Done (false, l)
  | Some (i, r) =>
      if fits r password
      then Done ((tried r password).1 && (gid r =? 0), <[i := (tried r password).2]> l)
      else Panic
  end.
Proof.
  intros Hl. induction Hl as [|r l Hr Hl IH]; [done|]. cbn [sudo_loop target]. fold (has_uid u r).
  destruct (has_uid u r).
  - rewrite attempt_spec by done. unfold fits. destruct (locked r || _); [|done]. osimpl. by destruct (tried r password) as [[] ?].
  - rewrite IH. destruct (target (has_uid u) l) as [[i x]|]; [|done]. simpl. by destruct (fits x password).
Qed.

(** Only the failure counter of an account can change. *)
Definition same_account (r r' : UserRecord) : Prop := r' = set_failed (failed_attempts r') r.

Lemma same_account_refl r : same_account r r.
Proof. by destruct r. Qed.

Lemma same_account_trans r1 r2 r3 : same_account r1 r2 -> same_account r2 r3 -> same_account r1 r3.
Proof. unfold same_account. intros H1 H2. rewrite H2, H1. by destruct r1, r2, r3. Qed.

#[global] Instance same_account_preorder : PreOrder same_account.
Proof. split; [exact same_account_refl|exact same_account_trans]. Qed.

Lemma tried_same r password : same_account r (tried r password).2.
Proof. unfold tried. destruct (locked r); [reflexivity|]. by destruct (right r password). Qed.

(** An attempt recorded in the table. *)
Lemma attempt_table_ok s i r f password :
  users_ok s -> target f (table s) = Some (i, r) -> in_use r = true ->
  users_ok (mkUsers (<[i := (tried r password).2]> (table s)) (user_count s)).
Proof.
  intros [Hl Hr Hc] Ht Hu. pose proof (target_spec _ _ _ _ Ht) as [Hi _].
  split; simpl; [by rewrite length_insert| |].
  - apply Forall_insert; [done|]. apply tried_ok; [|done]. by eapply target_rec_ok.
  - pose proof (countb_insert in_use (table s) i r (tried r password).2 Hi) as E.
    pose proof (tried_same r password) as Hs. rewrite Hs in E. simpl in E. rewrite Hs. lia.
Qed.

(** ** Adding an account *)

Definition salt_of (seed : Z) (name : list Z) : list Z := take SALT_LEN (SHA256 (le_bytes 4 seed ++ name)).

(** A new account, in a free slot. *)
Definition account (name : list Z) (u g : Z) (password : list Z) (seed : Z) : UserRecord :=
  mkUser true (name ++ replicate (USERNAME_MAX - length name) 0) (Z.of_nat (length name)) u g
         (salt_of seed name) (PBKDF2 password (salt_of seed name) PBKDF2_ITERATIONS) 0.

Lemma derive_salt_spec seed name :
  (length name <= USERNAME_MAX)%nat -> derive_salt seed name = Done (salt_of seed name).
Proof.
  intros Hn. unfold derive_salt. rewrite write_at_Done by (rewrite le_bytes_length, length_replicate; lia). osimpl.
  rewrite le_bytes_length, take_0. set (tl := drop _ _).
  assert (Htl : length tl = USERNAME_MAX) by (unfold tl; by rewrite length_drop, length_replicate).
  change ([] ++ le_bytes 4 seed ++ tl) with (le_bytes 4 seed ++ tl).
  rewrite write_at_Done by (rewrite length_app, le_bytes_length; lia). osimpl.
  rewrite take_app_length', app_assoc by by rewrite le_bytes_length.
  rewrite slice_to_Done by (rewrite !length_app, le_bytes_length; lia). osimpl.
  rewrite take_app_length' by (rewrite length_app, le_bytes_length; lia).
  rewrite sha256_spec, length_app, le_bytes_length.
  replace (4 + length name <=? MAX_INPUT_LEN)%nat with true by (unfold USERNAME_MAX, MAX_INPUT_LEN in *; lia). osimpl.
  by rewrite slice_to_Done by (rewrite SHA256_length; unfold SALT_LEN; lia).
Qed.

Lemma salt_of_length seed name : length (salt_of seed name) = SALT_LEN.
Proof. unfold salt_of. rewrite length_take, SHA256_length. done. Qed.

Lemma account_ok name u g password seed :
  (length name <= USERNAME_MAX)%nat -> is_u32 u -> is_u32 g -> rec_ok (account name u g password seed).
Proof.
  intros Hn Hu Hg. split; simpl; try done.
  - rewrite length_app, length_replicate. lia.
  - lia.
  - apply salt_of_length.
  - apply PBKDF2_length.
Qed.

Lemma add_loop_spec l name u g password seed :
  Forall rec_ok l -> (length name <= USERNAME_MAX)%nat ->
  add_loop l name u g (salt_of seed name) (PBKDF2 password (salt_of seed name) PBKDF2_ITERATIONS) =
  match position (fun r => negb (in_use r)) l with
  | None => Done (false, l)
  | Some i => Done (true, <[i := account name u g password seed]> l)
  end.
Proof.
  intros Hl Hn. induction Hl as [|r l Hr Hl IH]; [done|]. cbn [add_loop position].
  destruct (in_use r) eqn:Hu; cbn [negb].
  - rewrite IH. by destruct (position _ l).
  - unfold fill_slot. rewrite copy_prefix_Done by (rewrite length_replicate; lia). osimpl.
    rewrite drop_replicate, (ro_free r Hr Hu). rewrite wrap8_id by (unfold is_u8, USERNAME_MAX in *; lia). done.
Qed.

(** What [rust_users_add] answers and does. *)
Definition added (name : list Z) (u g : Z) (password : list Z) (seed : Z) (s : Users) : outcome (bool * Users) :=
  if (USERNAME_MAX <? length name)%nat || existsb (has_name name) (table s) then Done (false, s)
  else if (MAX_KEY_LEN <? length password)%nat then Panic
  else match position (fun r => negb (in_use r)) (table s) with
       | None => Done (false, s)
       | Some i => Done (true, mkUsers (<[i := account name u g password seed]> (table s)) (user_count s + 1))
       end.

Lemma users_add_spec name u g password seed s :
  users_ok s -> rust_users_add name u g password seed s = added name u g password seed s.
Proof.
  intros [Hl Hr Hc]. unfold rust_users_add, added.
  destruct (Nat.ltb_spec USERNAME_MAX (length name)) as [Hn|Hn]; [done|]. cbn [orb].
  rewrite taken_spec by done. osimpl. destruct (existsb (has_name name) (table s)); [done|].
  rewrite derive_salt_spec by done. osimpl. rewrite pbkdf2_spec, salt_of_length.
  change ((SALT_LEN <=? MAX_SALT_LEN)%nat && (1 <=? PBKDF2_ITERATIONS)) with true. cbn [andb].
  destruct (Nat.ltb_spec MAX_KEY_LEN (length password)) as [Hp|Hp];
    [by replace (length password <=? MAX_KEY_LEN)%nat with false by lia|].
  replace (length password <=? MAX_KEY_LEN)%nat with true by lia. osimpl. rewrite add_loop_spec by done.
  destruct (position _ (table s)) as [i|]; osimpl; [|by destruct s].
  do 4 f_equal. rewrite Hc. apply wrap32_id. pose proof (countb_le_length in_use (table s)).
  rewrite Hl in *. unfold MAX_USERS, is_u32 in *. lia.
Qed.

Lemma added_ok name u g password seed s b s' :
  users_ok s -> is_u32 u -> is_u32 g -> added name u g password seed s = Done (b, s') -> users_ok s'.
Proof.
  intros Hok Hu Hg. unfold added. destruct (Nat.ltb_spec USERNAME_MAX (length name)) as [Hn|Hn]; cbn [orb];
    [by intros [= <- <-]|]. destruct (existsb _ _); [by intros [= <- <-]|].
  destruct (_ <? length password)%nat; [done|]. destruct (position _ _) as [i|] eqn:Hi; [|by intros [= <- <-]].
  intros [= <- <-]. pose proof Hok as [Hl Hr Hc]. apply position_Some in Hi as (x & Hx & Hfree & _).
  apply negb_true_iff in Hfree. split; simpl; [by rewrite length_insert| |].
  - apply Forall_insert; [done|]. by apply account_ok.
  - pose proof (countb_insert in_use (table s) i x (account name u g password seed) Hx) as E. rewrite Hfree in E.
    simpl in E. lia.
Qed.

(** * The user database: USERS.CFG

    What [rust_users_save] writes, and what [rust_users_load] makes of it and of any other
    file. *)

(** ** Saving *)

(** A record as it is stored: a free slot by a zero length. *)
Definition record_bytes (r : UserRecord) : list Z :=
  [if in_use r then username_len r else 0] ++ username r ++ le_bytes 4 (uid r) ++ le_bytes 4 (gid r) ++
  salt r ++ password_hash r.

Lemma record_bytes_length r : rec_ok r -> length (record_bytes r) = RECORD_SIZE.
Proof.
  intros [Hn _ _ _ Hs Hh _ _]. unfold record_bytes. by rewrite !length_app, !le_bytes_length, Hn, Hs, Hh.
Qed.

(** A buffer whose first bytes have been written. *)
Definition written (x buf : list Z) : list Z := x ++ drop (length x) buf.

Lemma written_at x buf off y :
  off = length x -> (length x + length y <= length buf)%nat ->
  write_at (written x buf) off y = Done (written (x ++ y) buf).
Proof.
  intros -> Hl. unfold written. rewrite write_at_Done by (rewrite length_app, length_drop; lia).
  rewrite take_app_length' by done. f_equal. rewrite <- app_assoc. do 2 f_equal.
  rewrite drop_app_ge, drop_drop, length_app by lia. f_equal. lia.
Qed.

Lemma written_store x buf off v :
  off = length x -> (length x < length buf)%nat -> store (written x buf) off v = Done (written (x ++ [v]) buf).
Proof.
  intros -> Hl. destruct (lookup_lt_is_Some_2 buf (length x)) as [y Hy]; [done|].
  unfold written. rewrite store_Done by (rewrite length_app, length_drop; lia). f_equal.
  rewrite (drop_S _ _ _ Hy), insert_app_r_alt, Nat.sub_diag by lia. cbn [insert list_insert].
  rewrite <- app_assoc, length_app, Nat.add_comm. done.
Qed.

Lemma save_loop_spec l x buf i :
  Forall rec_ok l -> length x = (i * RECORD_SIZE)%nat -> ((i + length l) * RECORD_SIZE <= length buf)%nat ->
  save_loop i l (written x buf) = Done (written (x ++ mjoin (record_bytes <$> l)) buf).
Proof.
  intros Hl. revert i x. induction Hl as [|r l Hr Hl IH]; intros i x Hx Hb.
  { simpl. by rewrite app_nil_r. }
  pose proof (record_bytes_length r Hr) as Hlen. pose proof Hr as [Hn _ _ _ Hs Hh _ _].
  cbn [length] in Hb. cbn [save_loop].
  assert (HR : (RECORD_SIZE = 1 + USERNAME_MAX + 4 + 4 + SALT_LEN + HASH_LEN)%nat) by done.
  rewrite written_store by lia. osimpl.
  do 5 (rewrite written_at by (rewrite ?length_app, ?le_bytes_length, ?Hn, ?Hs, ?Hh; simpl; lia); osimpl).
  rewrite <- !app_assoc. fold (record_bytes r). rewrite IH by (rewrite ?length_app; lia).
  by rewrite <- app_assoc.
Qed.

Lemma records_length l :
  Forall rec_ok l -> length (mjoin (record_bytes <$> l)) = (length l * RECORD_SIZE)%nat.
Proof.
  induction 1 as [|r l Hr Hl IH]; [done|]. rewrite fmap_cons.
  change (length (record_bytes r ++ mjoin (record_bytes <$> l)) = S (length l) * RECORD_SIZE)%nat.
  rewrite length_app, record_bytes_length, IH by done. simpl. lia.
Qed.

Lemma users_save_spec out s :
  users_ok s ->
  rust_users_save out s =
  if Z.of_nat (length out) <? rust_users_serialized_size then Done (-1, out)
  else Done (rust_users_serialized_size,
             mjoin (record_bytes <$> table s) ++ drop (Z.to_nat rust_users_serialized_size) out).
Proof.
  intros [Hl Hr _]. unfold rust_users_save. destruct (Z.ltb_spec (Z.of_nat (length out)) rust_users_serialized_size) as [H|H]; [done|].
  set (n := Z.to_nat rust_users_serialized_size). assert (Hn : n = ((0 + length (table s)) * RECORD_SIZE)%nat) by (by rewrite Hl).
  assert (Ht : length (take n out) = n) by (apply length_take_le; lia).
  pose proof (save_loop_spec (table s) [] (take n out) 0 Hr eq_refl) as E. rewrite <- Hn, Ht in E.
  specialize (E (Nat.le_refl n)). unfold written in E. rewrite drop_0 in E.
  change ([] ++ ?l) with l in E. rewrite E. osimpl. do 3 f_equal. rewrite drop_ge; [by rewrite app_nil_r|].
  rewrite Ht, Hn, records_length by done. lia.
Qed.

(** ** Loading *)

Lemma range_mid (pre x post : list Z) a b :
  a = length pre -> b = (a + length x)%nat -> range (pre ++ x ++ post) a b = Done x.
Proof.
  intros -> ->. rewrite range_Done by (rewrite !length_app; lia).
  rewrite drop_app_length', take_app_length' by lia. done.
Qed.

Lemma load_record_bytes pre r post len :
  rec_ok r ->
  load_record (pre ++ record_bytes r ++ post) (length pre) len =
  Done (mkUser true (username r) len (uid r) (gid r) (salt r) (password_hash r) 0).
Proof.
  intros [Hn _ Hu Hg Hs Hh _ _]. unfold load_record, record_bytes. rewrite <- !app_assoc.
  set (b := [_]). assert (Hlb : length b = 1%nat) by done. set (u := le_bytes 4 (uid r)). set (g := le_bytes 4 (gid r)).
  assert (Hlu : length u = 4%nat) by apply le_bytes_length. assert (Hlg : length g = 4%nat) by apply le_bytes_length.
  set (l := pre ++ _). set (o := (length pre + 1 + USERNAME_MAX)%nat).
  assert (range l (length pre + 1) o = Done (username r)) as ->.
  { unfold l. rewrite (app_assoc pre b). apply range_mid; rewrite ?length_app; lia. } osimpl.
  assert (range l o (o + 4) = Done u) as ->.
  { unfold l. rewrite (app_assoc pre b), (app_assoc _ (username r)). apply range_mid; rewrite ?length_app; lia. } osimpl.
  assert (range l (o + 4) (o + 4 + 4) = Done g) as ->.
  { unfold l. rewrite (app_assoc pre b), (app_assoc _ (username r)), (app_assoc _ u).
    apply range_mid; rewrite ?length_app; lia. } osimpl.
  assert (range l (o + 4 + 4) (o + 4 + 4 + SALT_LEN) = Done (salt r)) as ->.
  { unfold l. rewrite (app_assoc pre b), (app_assoc _ (username r)), (app_assoc _ u), (app_assoc _ g).
    apply range_mid; rewrite ?length_app; lia. } osimpl.
  assert (range l (o + 4 + 4 + SALT_LEN) (o + 4 + 4 + SALT_LEN + HASH_LEN) = Done (password_hash r)) as ->.
  { unfold l. rewrite (app_assoc pre b), (app_assoc _ (username r)), (app_assoc _ u), (app_assoc _ g), (app_assoc _ (salt r)).
    apply range_mid; rewrite ?length_app; lia. } osimpl.
  unfold u, g. by rewrite !of_le_bytes_le_bytes by (simpl; done).
Qed.

(** An account after a reboot: its failures are forgotten, and an account with an empty name
    is gone. *)
Definition restored (r : UserRecord) : UserRecord :=
  if in_use r && negb (username_len r =? 0) then set_failed 0 r else EMPTY_USER.

(** One round of the loader on a saved record. *)
Lemma load_step n before r rest loaded count :
  Forall rec_ok before -> rec_ok r -> loaded !! length before = Some EMPTY_USER -> 0 <= count < 255 ->
  let buf := mjoin (record_bytes <$> before) ++ record_bytes r ++ rest in
  load_loop (S n) (length before) buf loaded count =
  load_loop n (S (length before)) buf (<[length before := restored r]> loaded)
    (count + (if in_use (restored r) then 1 else 0)).
Proof.
  intros Hb Hr Hld Hc buf. pose proof (records_length before Hb) as Hl. cbn [load_loop]. rewrite <- Hl.
  assert (index buf (length (mjoin (record_bytes <$> before))) = Done (if in_use r then username_len r else 0)) as ->.
  { apply index_at. unfold buf. by rewrite lookup_app_r, Nat.sub_diag. }
  osimpl. unfold restored. pose proof (ro_len r Hr) as Hlen. destruct (in_use r) eqn:Hu; cbn [andb].
  2:{ change (0 =? 0) with true. cbn [in_use EMPTY_USER]. by rewrite Z.add_0_r, list_insert_id. }
  destruct (Z.eqb_spec (username_len r) 0) as [E|E]; cbn [negb].
  { cbn [in_use EMPTY_USER]. by rewrite Z.add_0_r, list_insert_id. }
  replace (Z.of_nat USERNAME_MAX <? username_len r) with false by lia.
  unfold buf. rewrite (load_record_bytes _ _ _ _ Hr). osimpl. rewrite store_Done by by eapply lookup_lt_Some. osimpl.
  rewrite wrap32_id by auto with machine. unfold set_failed. cbn [in_use]. by rewrite Hu.
Qed.

Lemma load_loop_saved before rest count :
  Forall rec_ok before -> Forall rec_ok rest -> 0 <= count -> count + Z.of_nat (length rest) < 255 ->
  load_loop (length rest) (length before) (mjoin (record_bytes <$> before ++ rest))
    ((restored <$> before) ++ replicate (length rest) EMPTY_USER) count =
  Done (Some (restored <$> before ++ rest, count + Z.of_nat (countb in_use (restored <$> rest)))).
Proof.
  intros Hb Hr. revert before count Hb. induction Hr as [|r rest Hr Hrest IH]; intros before count Hb Hc Hlt.
  { simpl. by rewrite !app_nil_r, Z.add_0_r. }
  rewrite fmap_app, join_app. cbn [length replicate] in *.
  change (mjoin (record_bytes <$> r :: rest)) with (record_bytes r ++ mjoin (record_bytes <$> rest)).
  rewrite load_step; [|done|done| |lia].
  2:{ rewrite lookup_app_r, length_fmap, Nat.sub_diag by (rewrite length_fmap; lia). done. }
  specialize (IH (before ++ [r]) (count + (if in_use (restored r) then 1 else 0))).
  rewrite <- app_assoc, fmap_app, join_app in IH. cbn [app] in IH.
  change (mjoin (record_bytes <$> r :: rest)) with (record_bytes r ++ mjoin (record_bytes <$> rest)) in IH.
  replace (length (before ++ [r])) with (S (length before)) in IH by (rewrite length_app; simpl; lia).
  rewrite insert_app_r_alt, length_fmap, Nat.sub_diag by (rewrite length_fmap; lia). cbn [insert list_insert].
  rewrite fmap_app, <- app_assoc in IH. change ((restored <$> [r]) ++ ?l) with (restored r :: l) in IH. rewrite IH.
  - rewrite fmap_cons. cbn [countb]. do 3 f_equal. destruct (in_use (restored r)); lia.
  - by apply Forall_app_2; [|apply Forall_singleton].
  - destruct (in_use (restored r)); lia.
  - destruct (in_use (restored r)); lia.
Qed.

Lemma users_load_saved s s0 :
  users_ok s ->
  rust_users_load (mjoin (record_bytes <$> table s)) s0 =
  Done (true, mkUsers (restored <$> table s) (Z.of_nat (countb in_use (restored <$> table s)))).
Proof.
  intros [Hl Hr _]. unfold rust_users_load. rewrite records_length, Hl by done.
  replace (negb (Z.of_nat (MAX_USERS * RECORD_SIZE) =? rust_users_serialized_size)) with false by done.
  pose proof (load_loop_saved [] (table s) 0 (Forall_nil_2 _) Hr) as E. cbn [app length fmap list_fmap] in E.
  rewrite Hl in E. rewrite E; [done|lia|done].
Qed.

(** ** Any file *)

Lemma range_bytes (l : list Z) a b :
  (a <= b <= length l)%nat -> Forall is_u8 l ->
  exists x, range l a b = Done x /\ length x = (b - a)%nat /\ Forall is_u8 x.
Proof.
  intros H Hb. eexists. split; [by apply range_Done|]. split; [rewrite length_take, length_drop; lia|].
  by apply Forall_take, Forall_drop.
Qed.

Lemma load_record_ok buf base len :
  (base + RECORD_SIZE <= length buf)%nat -> Forall is_u8 buf -> 0 <= len <= Z.of_nat USERNAME_MAX ->
  exists r, load_record buf base len = Done r /\ rec_ok r /\ in_use r = true.
Proof.
  intros Hl Hb Hlen. assert (HR : (RECORD_SIZE = 1 + USERNAME_MAX + 4 + 4 + SALT_LEN + HASH_LEN)%nat) by done.
  unfold load_record.
  destruct (range_bytes buf (base + 1) (base + 1 + USERNAME_MAX)) as (n & -> & Hn & _); [lia|done|]. osimpl.
  destruct (range_bytes buf (base + 1 + USERNAME_MAX) (base + 1 + USERNAME_MAX + 4)) as (u & -> & Hu & Hub); [lia|done|]. osimpl.
  destruct (range_bytes buf (base + 1 + USERNAME_MAX + 4) (base + 1 + USERNAME_MAX + 4 + 4)) as (g & -> & Hg & Hgb); [lia|done|]. osimpl.
  destruct (range_bytes buf (base + 1 + USERNAME_MAX + 4 + 4) (base + 1 + USERNAME_MAX + 4 + 4 + SALT_LEN))
    as (sl & -> & Hs & _); [lia|done|]. osimpl.
  destruct (range_bytes buf (base + 1 + USERNAME_MAX + 4 + 4 + SALT_LEN) (base + 1 + USERNAME_MAX + 4 + 4 + SALT_LEN + HASH_LEN))
    as (h & -> & Hh & _); [lia|done|]. osimpl.
  eexists. split; [done|]. split; [|done]. split; cbn [username username_len uid gid salt password_hash failed_attempts in_use];
    first [done|lia|apply of_le_bytes_u32; [done|lia]|unfold LOCKOUT_THRESHOLD; lia].
Qed.

Lemma load_loop_ok n i buf loaded count :
  (i + n = MAX_USERS)%nat -> length buf = (MAX_USERS * RECORD_SIZE)%nat -> Forall is_u8 buf ->
  users_ok (mkUsers loaded count) -> (forall j, (i <= j < MAX_USERS)%nat -> loaded !! j = Some EMPTY_USER) ->
  exists r, load_loop n i buf loaded count = Done r /\
    match r with Some (l, c) => users_ok (mkUsers l c) | None => True end.
Proof.
  revert i loaded count. induction n as [|n IH]; intros i loaded count Hi Hl Hb Hok Hfree; [by eexists|].
  cbn [load_loop]. assert (Hrec : ((i + 1) * RECORD_SIZE <= length buf)%nat) by (rewrite Hl; apply Nat.mul_le_mono_r; lia).
  assert (HR : (0 < RECORD_SIZE)%nat) by (unfold RECORD_SIZE; lia).
  destruct (lookup_lt_is_Some_2 buf (i * RECORD_SIZE)) as [len Hlen]; [lia|]. oindex Hlen.
  pose proof (Forall_lookup_1 _ _ _ _ Hb Hlen) as Hu8. cbv beta in Hu8.
  destruct (Z.eqb_spec len 0) as [->|Hnz]; [apply IH; try done; [lia|]; intros j Hj; apply Hfree; lia|].
  destruct (Z.ltb_spec (Z.of_nat USERNAME_MAX) len) as [Hbig|Hle]; [by eexists|].
  destruct (load_record_ok buf (i * RECORD_SIZE) len) as (r & -> & Hr & Hu); [lia|done|unfold is_u8 in Hu8; lia|]. osimpl.
  pose proof (Hfree i ltac:(lia)) as Hempty. rewrite store_Done by by eapply lookup_lt_Some. osimpl.
  destruct Hok as [Hlen8 Hrs Hc]. cbn [table user_count] in *.
  pose proof (countb_insert in_use loaded i EMPTY_USER r Hempty) as Hci. rewrite Hu in Hci. cbn [in_use EMPTY_USER] in Hci.
  pose proof (countb_le_length in_use loaded) as Hcl. rewrite Hlen8 in Hcl. unfold MAX_USERS in *.
  apply IH; [lia|done|done| |].
  - split; cbn [table user_count]; [by rewrite length_insert|by apply Forall_insert|].
    rewrite wrap32_id by auto with machine. lia.
  - intros j Hj. rewrite list_lookup_insert_ne by lia. apply Hfree. lia.
Qed.

Lemma users_load_ok data s :
  Forall is_u8 data -> users_ok s -> exists b s', rust_users_load data s = Done (b, s') /\ users_ok s' /\ (b = false -> s' = s).
Proof.
  intros Hb Hok. unfold rust_users_load. destruct (Z.eqb_spec (Z.of_nat (length data)) rust_users_serialized_size) as [E|E];
    cbn [negb]; [|by eauto].
  destruct (load_loop_ok MAX_USERS 0 data (replicate MAX_USERS EMPTY_USER) 0) as (r & -> & Hr).
  - done.
  - unfold rust_users_serialized_size in E. lia.
  - done.
  - apply Users_new_ok.
  - intros j Hj. apply lookup_replicate_2. lia.
  - osimpl. destruct r as [[l c]|]; [|by eauto]. exists true, (mkUsers l c). done.
Qed.
