(* ===== verification/UsersProps.v ===== *)
(** * Theorems about the user database *)

From S2P Require Import Prelude Bytes Sha ShaSpec Users UsersInv.
Local Open Scope Z_scope.

(** ** Runs *)

(** The calls the kernel makes on the database. *)
Inductive call : Type :=
| CAdd (name : list Z) (u g : Z) (password : list Z) (seed : Z)
| CLogin (name password : list Z)
| CSudo (u : Z) (password : list Z)
| CSave (out : list Z)
| CLoad (data : list Z).

Definition run_call (c : call) (s : Users) : outcome (bool * Users) :=
  match c with
  | CAdd name u g password seed => rust_users_add name u g password seed s
  | CLogin name password => '(r, s) ← rust_users_authenticate name password s; Done (bool_decide (is_Some r), s)
  | CSudo u password => rust_users_sudo_check u password s
  | CSave out => '(n, _) ← rust_users_save out s; Done (negb (n =? -1), s)
  | CLoad data => rust_users_load data s
  end.

Fixpoint run_calls (cs : list call) (s : Users) : outcome Users :=
  match cs with
  | [] => Done s
  | c :: cs' => '(_, s) ← run_call c s; run_calls cs' s
  end.

(** Arguments at their width, and passwords the hash has room for. *)
Definition call_ok (c : call) : Prop :=
  match c with
  | CAdd _ u g password _ => is_u32 u /\ is_u32 g /\ (length password <= MAX_KEY_LEN)%nat
  | CLogin _ password | CSudo _ password => (length password <= MAX_KEY_LEN)%nat
  | CSave _ => True
  | CLoad data => Forall is_u8 data
  end.

Definition users_step (s s' : Users) : Prop := exists c b, call_ok c /\ run_call c s = Done (b, s').
Definition users_reachable (s : Users) : Prop := rtc users_step Users_new s.

Lemma fits_short r password : (length password <= MAX_KEY_LEN)%nat -> fits r password = true.
Proof. intros H. unfold fits. destruct (locked r); [done|]. cbn [orb]. lia. Qed.

(** The table after an attempt against the account a call is about. *)
Definition after (f : UserRecord -> bool) (password : list Z) (s : Users) : Users :=
  match target f (table s) with
  | None => s
  | Some (i, r) => mkUsers (<[i := (tried r password).2]> (table s)) (user_count s)
  end.

Definition answer {A} (f : UserRecord -> bool) (password : list Z) (s : Users) (no : A) (yes : UserRecord -> A) : A :=
  match target f (table s) with
  | None => no
  | Some (_, r) => if (tried r password).1 then yes r else no
  end.

Lemma authenticate_spec name password s :
  users_ok s -> (length password <= MAX_KEY_LEN)%nat ->
  rust_users_authenticate name password s =
  Done (answer (has_name name) password s None (fun r => Some (uid r, gid r)), after (has_name name) password s).
Proof.
  intros Hok Hp. unfold rust_users_authenticate, answer, after. rewrite auth_loop_spec by apply Hok.
  destruct (target (has_name name) (table s)) as [[i r]|]; [|by destruct s]. by rewrite fits_short.
Qed.

Lemma sudo_spec u password s :
  users_ok s -> (length password <= MAX_KEY_LEN)%nat ->
  rust_users_sudo_check u password s =
  Done (answer (has_uid u) password s false (fun r => gid r =? 0), after (has_uid u) password s).
Proof.
  intros Hok Hp. unfold rust_users_sudo_check, answer, after. rewrite sudo_loop_spec by apply Hok.
  destruct (target (has_uid u) (table s)) as [[i r]|]; [|by destruct s]. rewrite fits_short by done. osimpl.
  by destruct (tried r password).1.
Qed.

Lemma after_ok f password s :
  users_ok s -> (forall r, f r = true -> in_use r = true) -> users_ok (after f password s).
Proof.
  intros Hok Hf. unfold after. destruct (target f (table s)) as [[i r]|] eqn:Ht; [|done].
  eapply attempt_table_ok; [done|done|]. apply Hf. by apply target_spec in Ht as [_ ?].
Qed.

Lemma has_name_used name r : has_name name r = true -> in_use r = true.
Proof. unfold has_name. by destruct (in_use r). Qed.

Lemma has_uid_used u r : has_uid u r = true -> in_use r = true.
Proof. unfold has_uid. by destruct (in_use r). Qed.

Lemma run_call_ok c s : users_ok s -> call_ok c -> exists b s', run_call c s = Done (b, s') /\ users_ok s'.
Proof.
  intros Hok Hc. destruct c as [name u g password seed|name password|u password|out|data]; cbn [run_call call_ok] in *.
  - destruct Hc as (Hu & Hg & Hp). rewrite users_add_spec by done.
    assert (exists b s', added name u g password seed s = Done (b, s')) as (b & s' & E).
    { unfold added. destruct (_ || _); [by eauto|]. replace (MAX_KEY_LEN <? length password)%nat with false by lia.
      destruct (position _ _); eauto. }
    exists b, s'. split; [done|]. exact (added_ok _ _ _ _ _ _ _ _ Hok Hu Hg E).
  - rewrite authenticate_spec by done. osimpl. do 2 eexists. split; [done|]. apply after_ok; [done|apply has_name_used].
  - rewrite sudo_spec by done. do 2 eexists. split; [done|]. apply after_ok; [done|apply has_uid_used].
  - rewrite users_save_spec by done. destruct (_ <? _); osimpl; eauto.
  - destruct (users_load_ok data s Hc Hok) as (b & s' & E & Hs & _). eauto.
Qed.

Lemma users_reachable_ok s : users_reachable s -> users_ok s.
Proof.
  intros Hr. eapply (rtc_invariant users_step users_ok); [|done|apply Users_new_ok].
  intros x y (c & b & Hc & E) Hx. destruct (run_call_ok c x Hx Hc) as (b' & s' & E' & Hs).
  rewrite E in E'. by injection E' as <- <-.
Qed.

(** ** Logging in *)

(** C27: Who gets in. A login is decided by the first account of that name: with none, or
    once it has failed five times in a row, the answer is no; otherwise it is yes exactly
    when PBKDF2-HMAC-SHA256 of the password under the account's salt, with 4096 iterations,
    is the stored hash. The process then has the uid and gid of the account, and keeps its
    own otherwise. A yes clears the failures of the account, a no counts one, and nothing
    else in the database changes. *)
Theorem users_login_correct p name password s :
  users_reachable s -> (length password <= MAX_KEY_LEN)%nat ->
  process_login p name password s =
  Done (match target (has_name name) (table s) with
        | None => (false, p, s)
        | Some (i, r) =>
            if LOCKOUT_THRESHOLD <=? failed_attempts r then (false, p, s)
            else if bool_decide (password_hash r = PBKDF2 password (salt r) PBKDF2_ITERATIONS)
            then (true, (uid r, gid r), mkUsers (<[i := set_failed 0 r]> (table s)) (user_count s))
            else (false, p, mkUsers (<[i := set_failed (failed_attempts r + 1) r]> (table s)) (user_count s))
        end).
Proof.
  intros Hr Hp. unfold process_login. rewrite authenticate_spec by (done || by apply users_reachable_ok). osimpl.
  unfold answer, after. destruct (target (has_name name) (table s)) as [[i r]|] eqn:Ht; [|done].
  unfold tried, right, locked. destruct (LOCKOUT_THRESHOLD <=? failed_attempts r).
  - simpl. rewrite list_insert_id by (by apply target_spec in Ht as [? _]). by destruct s.
  - by destruct (bool_decide _).
Qed.

(** C28: Who becomes root. A process gets uid 0 through sudo exactly when the first account
    with its uid is not locked, the password is the account's, and the account is in the
    admin group; with a right password outside that group the identity stays. *)
Theorem users_sudo_correct p password s :
  users_reachable s -> (length password <= MAX_KEY_LEN)%nat ->
  exists (ok : bool) s', process_sudo p password s = Done (ok, if ok then (0, 0) else p, s') /\
    (ok = true <-> exists i r, target (has_uid p.1) (table s) = Some (i, r) /\
       failed_attempts r < LOCKOUT_THRESHOLD /\
       password_hash r = PBKDF2 password (salt r) PBKDF2_ITERATIONS /\ gid r = 0).
Proof.
  intros Hr Hp. unfold process_sudo. rewrite sudo_spec by (done || by apply users_reachable_ok). osimpl.
  set (ok := answer _ _ _ _ _). exists ok. eexists. split; [by destruct ok|]. unfold ok, answer.
  destruct (target (has_uid p.1) (table s)) as [[i r]|] eqn:Ht;
    [|split; [discriminate|]; intros (? & ? & ? & _); discriminate].
  unfold tried, locked. destruct (Z.leb_spec LOCKOUT_THRESHOLD (failed_attempts r)) as [Hl|Hl].
  { split; [done|]. intros (? & ? & [= <- <-] & ? & _). lia. }
  unfold right. destruct (bool_decide_reflect (password_hash r = PBKDF2 password (salt r) PBKDF2_ITERATIONS)) as [E|E]; cbn [fst].
  - rewrite Z.eqb_eq. split; [intros Hg; exists i, r; exact (conj eq_refl (conj Hl (conj E Hg)))|].
    by intros (? & ? & [= <- <-] & _ & _ & ?).
  - split; [discriminate|]. intros (? & ? & [= <- <-] & _ & E' & _). exact (False_ind _ (E E')).
Qed.

(** ** Locking *)

Lemma target_insert_other f l i r j x :
  target f l = Some (i, r) -> j <> i -> ((j < i)%nat -> f x = false) -> target f (<[j := x]> l) = Some (i, r).
Proof.
  intros [(y & Hy & Hf & Hmin)%position_Some Hi]%target_Some Hj Hx. simplify_eq. apply target_Some.
  rewrite list_lookup_insert_ne by done. split; [|done]. apply position_Some. eexists.
  rewrite list_lookup_insert_ne by done. split; [done|]. split; [done|]. intros k z Hk Hz.
  destruct (decide (k = j)) as [->|Hne]; [|rewrite list_lookup_insert_ne in Hz by done; by eapply Hmin].
  apply list_lookup_insert_Some in Hz as [(_ & <- & _)|[? _]]; [by apply Hx|done].
Qed.

Lemma target_insert_same f l i r x : target f l = Some (i, r) -> f x = true -> target f (<[i := x]> l) = Some (i, x).
Proof.
  intros [(y & Hy & Hf & Hmin)%position_Some Hi]%target_Some Hx. simplify_eq.
  assert (Hlt : (i < length l)%nat) by by eapply lookup_lt_Some.
  apply target_Some. rewrite list_lookup_insert_eq by done. split; [|done]. apply position_Some. exists x.
  rewrite list_lookup_insert_eq by done. split; [done|]. split; [done|]. intros k z Hk Hz.
  rewrite list_lookup_insert_ne in Hz by lia. by eapply Hmin.
Qed.

Lemma target_before f l i r j y : target f l = Some (i, r) -> (j < i)%nat -> l !! j = Some y -> f y = false.
Proof. intros [(z & _ & _ & Hmin)%position_Some _]%target_Some Hj Hy. by eapply Hmin. Qed.

Lemma has_name_failed name n r : has_name name (set_failed n r) = has_name name r.
Proof. done. Qed.

Lemma has_name_same name r r' : same_account r r' -> has_name name r' = has_name name r.
Proof. by intros ->. Qed.

(** The account of this name is locked. *)
Definition locked_out (name : list Z) (s : Users) : Prop :=
  exists i r, target (has_name name) (table s) = Some (i, r) /\ locked r = true.

Lemma tried_locked r password : locked r = true -> tried r password = (false, r).
Proof. intros H. unfold tried. by rewrite H. Qed.

Lemma locked_after name f password s :
  locked_out name s -> locked_out name (after f password s).
Proof.
  intros (i & r & Ht & Hl). unfold after. destruct (target f (table s)) as [[j x]|] eqn:Hj; [|by exists i, r].
  apply target_spec in Hj as [Hx _]. exists i, r. split; [|done]. cbn [table].
  pose proof (target_spec _ _ _ _ Ht) as [Hi _]. destruct (decide (j = i)) as [->|Hne].
  - simplify_eq. rewrite tried_locked by done. by rewrite list_insert_id.
  - apply target_insert_other; [done|done|]. intros Hlt. rewrite (has_name_same name x) by apply tried_same.
    by eapply target_before.
Qed.

Lemma account_name name name' u g password seed :
  (length name' <= USERNAME_MAX)%nat -> has_name name (account name' u g password seed) = true -> name = name'.
Proof.
  intros Hn. unfold has_name, account. cbn [in_use username_len username andb]. intros [El Ht]%andb_prop.
  apply bool_decide_eq_true in Ht. assert (length name = length name') as E by lia.
  by rewrite E, take_app_length' in Ht by done.
Qed.

Lemma locked_added name name' u g password seed s b s' :
  locked_out name s -> added name' u g password seed s = Done (b, s') -> locked_out name s'.
Proof.
  intros (i & r & Ht & Hl). unfold added. destruct (Nat.ltb_spec USERNAME_MAX (length name')) as [Hn|Hn]; cbn [orb].
  { intros [= <- <-]. by exists i, r. }
  destruct (existsb (has_name name') (table s)) eqn:Htaken; [intros [= <- <-]; by exists i, r|].
  destruct (_ <? length password)%nat; [done|].
  destruct (position _ (table s)) as [j|] eqn:Hj; intros [= <- <-]; [|by exists i, r].
  exists i, r. split; [|done]. cbn [table]. pose proof (target_spec _ _ _ _ Ht) as [Hi Hname].
  apply target_insert_other; [done| |].
  - intros ->. apply position_Some in Hj as (y & Hy & Hfree & _). simplify_eq.
    apply has_name_used in Hname. by rewrite Hname in Hfree.
  - intros _. destruct (has_name name (account _ _ _ _ _)) eqn:E; [|done]. apply account_name in E; [|done]. subst name'.
    apply existsb_position in Htaken. apply target_Some in Ht as [Hp _]. congruence.
Qed.

Definition is_load (c : call) : bool := match c with CLoad _ => true | _ => false end.

Lemma locked_step name c s :
  users_ok s -> call_ok c -> is_load c = false -> locked_out name s ->
  exists b s', run_call c s = Done (b, s') /\ users_ok s' /\ locked_out name s'.
Proof.
  intros Hok Hc Hnl Hlock. destruct (run_call_ok c s Hok Hc) as (b & s' & E & Hs). exists b, s'.
  split; [exact E|]. split; [exact Hs|].
  destruct c as [name' u g password seed|name' password|u password|out|data]; cbn [run_call call_ok] in *; [| | | |done].
  - rewrite users_add_spec in E by done. by eapply locked_added.
  - rewrite authenticate_spec in E by done. injection E as _ <-. by apply locked_after.
  - rewrite sudo_spec in E by done. injection E as _ <-. by apply locked_after.
  - rewrite users_save_spec in E by done. destruct (_ <? _); injection E as _ <-; done.
Qed.

Lemma locked_run name cs s :
  users_ok s -> locked_out name s -> Forall (fun c => call_ok c /\ is_load c = false) cs ->
  exists s', run_calls cs s = Done s' /\ users_ok s' /\ locked_out name s'.
Proof.
  intros Hok Hlock Hcs. revert s Hok Hlock. induction Hcs as [|c cs [Hc Hl] Hcs IH]; intros s Hok Hlock; [by exists s|].
  destruct (locked_step name c s Hok Hc Hl Hlock) as (b & s1 & E & Hok1 & Hlock1). cbn [run_calls]. rewrite E. osimpl.
  by apply IH.
Qed.

Lemma locked_denied name password s :
  users_ok s -> locked_out name s -> rust_users_authenticate name password s = Done (None, s).
Proof.
  intros Hok (i & r & Ht & Hl). unfold rust_users_authenticate. rewrite auth_loop_spec by apply Hok. rewrite Ht.
  unfold fits. rewrite Hl. cbn [orb]. rewrite tried_locked by done. osimpl. cbn [fst snd].
  apply target_spec in Ht as [Hi _]. rewrite list_insert_id by done. by destruct s.
Qed.

(** Wrong passwords in a row. *)
Lemma wrong_run name tries s i r :
  users_ok s -> target (has_name name) (table s) = Some (i, r) ->
  Forall (fun password => (length password <= MAX_KEY_LEN)%nat /\ right r password = false) tries ->
  LOCKOUT_THRESHOLD <= failed_attempts r + Z.of_nat (length tries) ->
  exists s', run_calls (CLogin name <$> tries) s = Done s' /\ users_ok s' /\ locked_out name s'.
Proof.
  intros Hok Ht Hw. revert s r Hok Ht Hw. induction tries as [|password tries IH]; intros s r Hok Ht Hw Hn.
  { exists s. split; [done|]. split; [done|]. exists i, r. split; [done|]. unfold locked. simpl in Hn. lia. }
  apply Forall_cons in Hw as [[Hp Hr] Hw]. rewrite fmap_cons. cbn [run_calls run_call].
  rewrite authenticate_spec by done. osimpl. unfold after. rewrite Ht.
  pose proof (target_spec _ _ _ _ Ht) as [Hi Hname].
  pose proof (attempt_table_ok s i r _ password Hok Ht (has_name_used _ _ Hname)) as Hok'.
  apply (IH _ (tried r password).2); [exact Hok'| | |].
  - cbn [table]. eapply target_insert_same; [done|]. by rewrite (has_name_same name r) by apply tried_same.
  - eapply Forall_impl; [exact Hw|]. intros x [Hx Hrx]. split; [done|]. by rewrite (tried_same r password).
  - cbn [length] in Hn. unfold tried, locked. rewrite Hr.
    destruct (Z.leb_spec LOCKOUT_THRESHOLD (failed_attempts r)); cbn [snd set_failed failed_attempts]; lia.
Qed.

(** C39: Guessing is stopped. Once an account has been tried with five wrong passwords in a
    row, no password opens it any more, whatever other calls are made, until the database
    is loaded again at the next boot. *)
Theorem users_lockout name s i r tries :
  users_reachable s -> target (has_name name) (table s) = Some (i, r) ->
  Forall (fun password => (length password <= MAX_KEY_LEN)%nat /\
            password_hash r <> PBKDF2 password (salt r) PBKDF2_ITERATIONS) tries ->
  (5 <= length tries)%nat ->
  exists s1, run_calls (CLogin name <$> tries) s = Done s1 /\
    forall cs, Forall (fun c => call_ok c /\ is_load c = false) cs ->
    exists s2, run_calls cs s1 = Done s2 /\
      forall password, rust_users_authenticate name password s2 = Done (None, s2).
Proof.
  intros Hr Ht Hw Hn. pose proof (users_reachable_ok s Hr) as Hok.
  assert (Hrec : rec_ok r) by (eapply target_rec_ok; [apply Hok|exact Ht]).
  destruct (wrong_run name tries s i r) as (s1 & E1 & Hok1 & Hl1); [done|done| |unfold LOCKOUT_THRESHOLD; pose proof (ro_failed r Hrec); lia|].
  { eapply Forall_impl; [exact Hw|]. intros x [Hx Hne]. split; [exact Hx|]. by apply bool_decide_false. }
  exists s1. split; [exact E1|]. intros cs Hcs. destruct (locked_run name cs s1 Hok1 Hl1 Hcs) as (s2 & E2 & Hok2 & Hl2).
  exists s2. split; [exact E2|]. intros password. by apply locked_denied.
Qed.

(** ** Adding, saving, loading *)

Lemma added_target name u g password seed s s' :
  added name u g password seed s = Done (true, s') ->
  exists j, target (has_name name) (table s') = Some (j, account name u g password seed).
Proof.
  unfold added. destruct (Nat.ltb_spec USERNAME_MAX (length name)) as [Hn|Hn]; cbn [orb]; [discriminate|].
  destruct (existsb (has_name name) (table s)) eqn:Htaken; [discriminate|].
  destruct (_ <? length password)%nat; [discriminate|].
  destruct (position _ (table s)) as [j|] eqn:Hj; [|discriminate]. intros E. injection E as <-. exists j. cbn [table].
  apply position_Some in Hj as (y & Hy & _). assert (Hlt : (j < length (table s))%nat) by by eapply lookup_lt_Some.
  apply target_Some. split; [|by apply list_lookup_insert_eq]. apply position_Some. eexists.
  split; [by apply list_lookup_insert_eq|]. split.
  - unfold has_name. cbn [in_use username_len username account andb]. rewrite Z.eqb_refl, take_app_length' by done.
    by apply bool_decide_true.
  - intros k z Hk Hz. rewrite list_lookup_insert_ne in Hz by lia.
    apply existsb_position in Htaken. exact (proj1 (position_None _ _) Htaken k z Hz).
Qed.

(** An account that has been added can be used: right after a successful add, logging in
    with that name and password gives the process the uid and gid of the account and changes
    nothing in the database. *)
Theorem users_add_then_login p name u g password seed s s' :
  users_reachable s -> is_u32 u -> is_u32 g -> (length password <= MAX_KEY_LEN)%nat ->
  rust_users_add name u g password seed s = Done (true, s') ->
  process_login p name password s' = Done (true, (u, g), s').
Proof.
  intros Hr Hu Hg Hp E. pose proof (users_reachable_ok s Hr) as Hok. rewrite users_add_spec in E by done.
  pose proof (added_ok _ _ _ _ _ _ _ _ Hok Hu Hg E) as Hok'. destruct (added_target _ _ _ _ _ _ _ E) as [j Ht].
  unfold process_login. rewrite authenticate_spec by done. osimpl. unfold answer, after. rewrite Ht.
  assert (Htr : tried (account name u g password seed) password = (true, account name u g password seed)).
  { unfold tried, right. cbn [password_hash salt account]. rewrite bool_decide_true by reflexivity. reflexivity. }
  rewrite Htr. cbn [fst snd]. apply target_spec in Ht as [Hj _]. rewrite list_insert_id by exact Hj. by destruct s'.
Qed.

(** C40: USERS.CFG keeps the accounts. What is saved into a large enough buffer, loaded into
    any database, gives back every account that has a name, with its name, ids, salt and
    hash, in its slot, and with its failures forgotten; a file of another size is refused,
    and so is a buffer that is too small. *)
Theorem users_save_load s s0 out :
  users_reachable s ->
  exists n out', rust_users_save out s = Done (n, out') /\
    (n = -1 <-> Z.of_nat (length out) < rust_users_serialized_size) /\
    (n <> -1 -> n = rust_users_serialized_size /\
       rust_users_load (take (Z.to_nat n) out') s0 =
         Done (true, mkUsers (restored <$> table s) (Z.of_nat (countb in_use (restored <$> table s))))) /\
    (forall data, Z.of_nat (length data) <> rust_users_serialized_size -> rust_users_load data s0 = Done (false, s0)).
Proof.
  intros Hr. pose proof (users_reachable_ok s Hr) as Hok. rewrite users_save_spec by done.
  assert (Hsz : 0 <= rust_users_serialized_size) by (unfold rust_users_serialized_size; lia).
  assert (Href : forall data, Z.of_nat (length data) <> rust_users_serialized_size -> rust_users_load data s0 = Done (false, s0)).
  { intros data Hd. unfold rust_users_load. by replace (_ =? _) with false by lia. }
  destruct (Z.ltb_spec (Z.of_nat (length out)) rust_users_serialized_size) as [H|H].
  - do 2 eexists. split; [reflexivity|]. split; [done|]. split; [done|exact Href].
  - do 2 eexists. split; [reflexivity|]. split; [lia|]. split; [|exact Href]. intros _. split; [reflexivity|].
    rewrite take_app_length'; [by apply users_load_saved|]. destruct Hok as [Hl Hrs _].
    rewrite records_length, Hl by done. reflexivity.
Qed.

(** A password longer than the key buffer of the hash takes the kernel down. For an
    account that is not locked, a login or sudo with a password of more than 128 bytes
    aborts in the hash instead of failing. *)
Theorem users_long_password_panics p name password s i r :
  users_reachable s -> (MAX_KEY_LEN < length password)%nat -> failed_attempts r < LOCKOUT_THRESHOLD ->
  (target (has_name name) (table s) = Some (i, r) -> process_login p name password s = Panic) /\
  (target (has_uid p.1) (table s) = Some (i, r) -> process_sudo p password s = Panic).
Proof.
  intros Hr Hp Hf. pose proof (users_reachable_ok s Hr) as Hok.
  assert (Hfit : fits r password = false) by (unfold fits, locked; lia).
  split; intros Ht; unfold process_login, process_sudo, rust_users_authenticate, rust_users_sudo_check.
  - rewrite auth_loop_spec by apply Hok. by rewrite Ht, Hfit.
  - rewrite sudo_loop_spec by apply Hok. by rewrite Ht, Hfit.
Qed.

(** * The user database: the theorems at work

    A database with one account, made by adding it or by loading a file. *)

Definition nova : UserRecord := account (str "nova") 1000 0 (str "secret") 7.
Definition one_user : Users := mkUsers (nova :: replicate 7 EMPTY_USER) 1.

Lemma add_nova : rust_users_add (str "nova") 1000 0 (str "secret") 7 Users_new = Done (true, one_user).
Proof. rewrite users_add_spec by apply Users_new_ok. reflexivity. Qed.

Lemma one_user_reachable : users_reachable one_user.
Proof.
  apply rtc_once. exists (CAdd (str "nova") 1000 0 (str "secret") 7), true. split; [|exact add_nova].
  cbn [call_ok]. unfold is_u32, MAX_KEY_LEN. simpl. lia.
Qed.

Lemma users_login_correct_witness :
  process_login (5, 5) (str "nobody") (str "secret") one_user = Done (false, (5, 5), one_user).
Proof.
  rewrite (users_login_correct (5, 5) (str "nobody") (str "secret") one_user);
    [reflexivity|exact one_user_reachable|unfold MAX_KEY_LEN; simpl; lia].
Defined.

Lemma users_sudo_correct_witness :
  exists (ok : bool) s', process_sudo (5, 5) (str "secret") one_user = Done (ok, if ok then (0, 0) else (5, 5), s').
Proof.
  destruct (users_sudo_correct (5, 5) (str "secret") one_user) as (ok & s' & E & _);
    [exact one_user_reachable|unfold MAX_KEY_LEN; simpl; lia|]. exists ok, s'. exact E.
Defined.

Lemma users_add_then_login_witness :
  process_login (5, 5) (str "nova") (str "secret") one_user = Done (true, (1000, 0), one_user).
Proof.
  apply (users_add_then_login (5, 5) (str "nova") 1000 0 (str "secret") 7 Users_new one_user);
    [apply rtc_refl|unfold is_u32; lia|unfold is_u32; lia|unfold MAX_KEY_LEN; simpl; lia|exact add_nova].
Defined.

Lemma users_save_load_witness :
  exists n out', rust_users_save (replicate 712 0) one_user = Done (n, out') /\ n <> -1.
Proof.
  destruct (users_save_load one_user Users_new (replicate 712 0)) as (n & out' & E & Hn & _);
    [exact one_user_reachable|]. exists n, out'. split; [exact E|]. intros Hm. apply Hn in Hm.
  rewrite length_replicate in Hm. discriminate Hm.
Defined.

Lemma users_long_password_panics_witness :
  process_login (5, 5) (str "nova") (replicate 129 65) one_user = Panic.
Proof.
  apply (users_long_password_panics (5, 5) (str "nova") (replicate 129 65) one_user 0 nova);
    [exact one_user_reachable|rewrite length_replicate; unfold MAX_KEY_LEN; lia|reflexivity|reflexivity].
Defined.

(** A file with one account, under a given password hash. *)
Definition loaded_user (h : list Z) : UserRecord :=
  mkUser true (str "nova" ++ replicate 28 0) 4 1000 0 (replicate SALT_LEN 9) h 0.
Definition loaded (h : list Z) : Users := mkUsers (loaded_user h :: replicate 7 EMPTY_USER) 1.

Lemma loaded_reachable b : 0 <= b < 256 -> users_reachable (loaded (replicate HASH_LEN b)).
Proof.
  intros Hb. apply rtc_once. exists (CLoad (mjoin (record_bytes <$> table (loaded (replicate HASH_LEN b))))), true. split.
  - apply bytes_check. cbn -[Z.leb Z.ltb andb]. replace ((0 <=? b) && (b <? 256)) with true by lia. reflexivity.
  - cbn [run_call]. rewrite users_load_saved; [reflexivity|]. split; [done| |done].
    apply Forall_cons. split; [|apply Forall_replicate, EMPTY_USER_ok].
    split; cbn; try done; unfold is_u32, LOCKOUT_THRESHOLD; lia.
Qed.

Lemma users_lockout_witness :
  exists b s1, run_calls (CLogin (str "nova") <$> replicate 5 (str "guess")) (loaded (replicate HASH_LEN b)) = Done s1 /\
    rust_users_authenticate (str "nova") (str "secret") s1 = Done (None, s1).
Proof.
  assert (Hw : exists b, 0 <= b < 256 /\
    replicate HASH_LEN b <> PBKDF2 (str "guess") (replicate SALT_LEN 9) PBKDF2_ITERATIONS).
  { destruct (decide (replicate HASH_LEN 0 = PBKDF2 (str "guess") (replicate SALT_LEN 9) PBKDF2_ITERATIONS)) as [E|E].
    - exists 1. split; [lia|]. rewrite <- E. discriminate.
    - exists 0. split; [lia|exact E]. }
  destruct Hw as (b & Hb & Hne). exists b.
  destruct (users_lockout (str "nova") (loaded (replicate HASH_LEN b)) 0 (loaded_user (replicate HASH_LEN b))
    (replicate 5 (str "guess"))) as (s1 & E & H).
  - by apply loaded_reachable.
  - reflexivity.
  - apply Forall_replicate. split; [unfold MAX_KEY_LEN; simpl; lia|exact Hne].
  - rewrite length_replicate. lia.
  - exists s1. split; [exact E|]. destruct (H []) as (s2 & E2 & Hd); [constructor|]. injection E2 as <-. apply Hd.
Defined.
