(* ===== verification/Update.v ===== *)
(** * Atomic updates of the operating system

    The definitions of [kernel/rust/atomic_update.rs]: two boot slots, signed update
    packages, the boot-attempt countdown with its rollback, and the configuration kept in
    BOOTSLOT.DAT. The file system and the journal behind the [extern] functions are a class
    of operations. The configuration structure is read from the file buffer through a raw
    pointer; what lies behind the buffer in memory is the argument [junk]. *)

From S2P Require Import Prelude Bytes Sha.
Local Open Scope Z_scope.
Local Open Scope machine_scope.

Definition BOOTSLOT_MAGIC : list Z := str "NOVABOOT".
Definition BOOTSLOT_FILENAME : list Z := str "BOOTSLOT.DAT".
Definition SLOT_A_FILENAME : list Z := str "NOVAOS.BIN".
Definition SLOT_B_FILENAME : list Z := str "NOVAOS_B.BIN".

Definition NOVA_BOOT_SLOT_A : Z := 0.
Definition NOVA_BOOT_SLOT_B : Z := 1.

Definition NOVA_SLOT_STATE_NORMAL : Z := 0.
Definition NOVA_SLOT_STATE_TESTING : Z := 1.
Definition NOVA_SLOT_STATE_ROLLED_BACK : Z := 2.

Definition DEFAULT_MAX_BOOT_ATTEMPTS : Z := 3.

Definition NOVA_UPDATE_OK : Z := 0.
Definition NOVA_UPDATE_ERR_BAD_HEADER : Z := -2.
Definition NOVA_UPDATE_ERR_BAD_SIG : Z := -3.
Definition NOVA_UPDATE_ERR_IO : Z := -4.
Definition NOVA_UPDATE_ERR_JOURNAL : Z := -5.
Definition NOVA_UPDATE_ERR_FAULT : Z := -7.

(** The file system and the journal, as the module calls them. A read gives the count (or
    a negative number) and the bytes put in the buffer. *)
Class Vfs (F : Type) : Type := {
  vfs_read_file : list Z -> nat -> F -> Z * list Z;
  vfs_write_file : list Z -> list Z -> F -> bool * F;
  vfs_delete_file : list Z -> F -> bool * F;
  rust_journal_begin : F -> F;
  rust_journal_commit : F -> bool * F;
}.

(** ** Configuration *)

(** The loop of [adler32]. *)
Fixpoint adler_loop (data : list Z) (a b : Z) : Z * Z :=
  match data with
  | [] => (a, b)
  | byte :: data' =>
      let a := (a +₃₂ byte) mod 65521 in
      let b := (b +₃₂ a) mod 65521 in
      adler_loop data' a b
  end.

Definition adler32 (data : list Z) : Z :=
  let '(a, b) := adler_loop data 1 0 in Z.lor (wrap32 (Z.shiftl b 16)) a.

Record BootSlotConfig : Type := mkConfig {
  magic : list Z;
  struct_version : Z;
  active_slot : Z;
  fallback_slot : Z;
  slot_state : Z;
  boot_attempts : Z;
  slot_a_version : list Z;
  slot_b_version : list Z;
  slot_a_sha256 : list Z;
  slot_b_sha256 : list Z;
  reserved : list Z;
  checksum : Z;
}.

(** The structure in memory ([repr(C, packed)]). *)
Definition config_bytes (c : BootSlotConfig) : list Z :=
  magic c ++ le_bytes 4 (struct_version c) ++
  [active_slot c; fallback_slot c; slot_state c; boot_attempts c] ++
  slot_a_version c ++ slot_b_version c ++ slot_a_sha256 c ++ slot_b_sha256 c ++
  reserved c ++ le_bytes 4 (checksum c).

(** [read_unaligned] of the structure at the start of a stretch of memory. *)
Definition config_of_bytes (m : list Z) : BootSlotConfig :=
  let field a n := take n (drop a m) in
  mkConfig (field 0 8)%nat (of_le_bytes (field 8 4)%nat)
    (m !!! 12%nat) (m !!! 13%nat) (m !!! 14%nat) (m !!! 15%nat)
    (field 16 16)%nat (field 32 16)%nat (field 48 32)%nat (field 80 32)%nat (field 112 20)%nat
    (of_le_bytes (field 132 4)%nat).

Definition set_checksum (k : Z) (c : BootSlotConfig) : BootSlotConfig :=
  mkConfig (magic c) (struct_version c) (active_slot c) (fallback_slot c) (slot_state c) (boot_attempts c)
    (slot_a_version c) (slot_b_version c) (slot_a_sha256 c) (slot_b_sha256 c) (reserved c) k.

Definition update_checksum (c : BootSlotConfig) : BootSlotConfig :=
  set_checksum (adler32 (take 124 (config_bytes c))) c.

Definition is_valid (c : BootSlotConfig) : bool :=
  if negb (bool_decide (magic c = BOOTSLOT_MAGIC)) || negb (struct_version c =? 1) then false
  else adler32 (take 124 (config_bytes c)) =? checksum c.

(** A zeroed array of [n] bytes with [l] at its front. *)
Definition padded_to (n : nat) (l : list Z) : list Z := l ++ replicate (n - length l) 0.

Definition default_new : BootSlotConfig :=
  update_checksum
    (mkConfig BOOTSLOT_MAGIC 1 NOVA_BOOT_SLOT_A NOVA_BOOT_SLOT_A NOVA_SLOT_STATE_NORMAL DEFAULT_MAX_BOOT_ATTEMPTS
       (padded_to 16 (str "0.88.0")) (padded_to 16 (str "empty"))
       (replicate 32 0) (replicate 32 0) (replicate 20 0) 0).

(** Assignments of the boot fields. *)
Definition set_boot (active fallback st attempts : Z) (c : BootSlotConfig) : BootSlotConfig :=
  mkConfig (magic c) (struct_version c) active fallback st attempts
    (slot_a_version c) (slot_b_version c) (slot_a_sha256 c) (slot_b_sha256 c) (reserved c) (checksum c).

(** Assignments of the version and digest of one slot. *)
Definition set_image (slot : Z) (version sha : list Z) (c : BootSlotConfig) : BootSlotConfig :=
  if slot =? NOVA_BOOT_SLOT_B
  then mkConfig (magic c) (struct_version c) (active_slot c) (fallback_slot c) (slot_state c) (boot_attempts c)
         (slot_a_version c) version (slot_a_sha256 c) sha (reserved c) (checksum c)
  else mkConfig (magic c) (struct_version c) (active_slot c) (fallback_slot c) (slot_state c) (boot_attempts c)
         version (slot_b_version c) sha (slot_b_sha256 c) (reserved c) (checksum c).

Record OsUpdateState : Type := mkState {
  config : BootSlotConfig;
  initialized : bool;
  last_error : Z;
}.

Definition OsUpdateState_new : OsUpdateState :=
  mkState (mkConfig (replicate 8 0) 0 0 0 0 0 (replicate 16 0) (replicate 16 0) (replicate 32 0) (replicate 32 0)
             (replicate 20 0) 0) false 0.

Definition set_config (c : BootSlotConfig) (st : OsUpdateState) : OsUpdateState :=
  mkState c (initialized st) (last_error st).
Definition set_error (e : Z) (st : OsUpdateState) : OsUpdateState :=
  mkState (config st) (initialized st) e.

(** ** Packages *)

(** [for (i, &b) in v_slice.iter().enumerate()]. *)
Fixpoint copy_version (v : list Z) (i : nat) (out : list Z) : outcome (list Z) :=
  match v with
  | [] => Done out
  | b :: v' => if b =? 0 then Done out else out ← store out i b; copy_version v' (S i) out
  end.

(** A verified package: payload size, version, digest and payload. *)
Definition Package : Type := Z * list Z * list Z * list Z.

Definition verify_update_package (pkg : list Z) : outcome (result Package Z) :=
  if (length pkg <? 128)%nat then Done (Err NOVA_UPDATE_ERR_BAD_HEADER)
  else
    m ← range pkg 0 4;
    if negb (bool_decide (m = str "NVPK")) && negb (bool_decide (m = str "NVUP"))
    then Done (Err NOVA_UPDATE_ERR_BAD_HEADER)
    else
      sz ← range pkg 92 96;
      let payload_size := of_le_bytes sz in
      if negb (128 +₃₂ payload_size =? Z.of_nat (length pkg)) then Done (Err NOVA_UPDATE_ERR_BAD_HEADER)
      else
        payload ← range pkg 128 (128 + Z.to_nat payload_size);
        header ← slice_to pkg 128;
        header ← zero_range header 96 32;
        expected_sig ← compute_signature header payload;
        actual_sig ← range pkg 96 128;
        eq ← constant_time_eq expected_sig actual_sig;
        if negb eq then Done (Err NOVA_UPDATE_ERR_BAD_SIG)
        else
          v ← range pkg 20 28;
          version ← copy_version v 0 (replicate 16 0);
          h ← update Streaming_new payload;
          sha ← finalize h;
          Done (Ok (payload_size, version, sha, payload)).

(** ** Operations *)

Section Operations.
Context {F : Type} `{!Vfs F}.

(** Deletes a file and writes it anew, as every write of this module does. *)
Definition replace_file (name data : list Z) (d : F) : bool * F :=
  let '(_, d) := vfs_delete_file name d in vfs_write_file name data d.

Definition ensure_config_loaded (junk : list Z) (st : OsUpdateState) (d : F) : OsUpdateState * F :=
  if initialized st then (st, d)
  else
    let '(n, bytes) := vfs_read_file BOOTSLOT_FILENAME 128 d in
    let buf := padded_to 128 bytes in
    let loaded := config_of_bytes (buf ++ junk) in
    if (n =? 128) && is_valid loaded
    then (mkState loaded true (last_error st), d)
    else
      let default_cfg := update_checksum default_new in
      let '(_, d) := replace_file BOOTSLOT_FILENAME (take 128 (config_bytes default_cfg)) d in
      (mkState default_cfg true (last_error st), d).

Definition save_config_locked (st : OsUpdateState) (d : F) : bool * OsUpdateState * F :=
  let st := set_config (update_checksum (config st)) st in
  let d := rust_journal_begin d in
  let '(ok, d) := replace_file BOOTSLOT_FILENAME (take 128 (config_bytes (config st))) d in
  let '(commit_ok, d) := rust_journal_commit d in
  (ok && commit_ok, st, d).

Definition rust_os_update_init (junk : list Z) (st : OsUpdateState) (d : F) : OsUpdateState * F :=
  ensure_config_loaded junk st d.

Definition rust_os_update_boot_hook (junk : list Z) (st : OsUpdateState) (d : F) : OsUpdateState * F :=
  let '(st, d) := ensure_config_loaded junk st d in
  let c := config st in
  if slot_state c =? NOVA_SLOT_STATE_TESTING then
    if 1 <? boot_attempts c then
      let c := set_boot (active_slot c) (fallback_slot c) (slot_state c) (boot_attempts c - 1) c in
      let '(_, st, d) := save_config_locked (set_config c st) d in (st, d)
    else
      let c := set_boot (fallback_slot c) (fallback_slot c) NOVA_SLOT_STATE_ROLLED_BACK DEFAULT_MAX_BOOT_ATTEMPTS c in
      let '(_, st, d) := save_config_locked (set_config c st) d in (st, d)
  else (st, d).

Definition rust_os_update_confirm_healthy (junk : list Z) (st : OsUpdateState) (d : F) : Z * OsUpdateState * F :=
  let '(st, d) := ensure_config_loaded junk st d in
  let c := config st in
  if slot_state c =? NOVA_SLOT_STATE_TESTING then
    let c := set_boot (active_slot c) (fallback_slot c) NOVA_SLOT_STATE_NORMAL DEFAULT_MAX_BOOT_ATTEMPTS c in
    let '(ok, st, d) := save_config_locked (set_config c st) d in
    (if ok : bool then NOVA_UPDATE_OK else NOVA_UPDATE_ERR_IO, st, d)
  else (NOVA_UPDATE_OK, st, d).

Definition other_slot (s : Z) : Z := if s =? NOVA_BOOT_SLOT_A then NOVA_BOOT_SLOT_B else NOVA_BOOT_SLOT_A.
Definition slot_file (s : Z) : list Z := if s =? NOVA_BOOT_SLOT_B then SLOT_B_FILENAME else SLOT_A_FILENAME.

(** The transaction of [rust_os_update_apply_package], for a verified package. *)
Definition apply_verified (junk : list Z) (p : Package) (st : OsUpdateState) (d : F) : Z * OsUpdateState * F :=
  let '(payload_size, version, payload_sha256, payload) := p in
  let '(st, d) := ensure_config_loaded junk st d in
  let current_slot := active_slot (config st) in
  let target_slot := other_slot current_slot in
  let d := rust_journal_begin d in
  let '(ok_bin, d) := replace_file (slot_file target_slot) payload d in
  if negb ok_bin then
    let '(_, d) := rust_journal_commit d in
    (NOVA_UPDATE_ERR_IO, set_error NOVA_UPDATE_ERR_IO st, d)
  else
    let c := set_boot target_slot current_slot NOVA_SLOT_STATE_TESTING DEFAULT_MAX_BOOT_ATTEMPTS (config st) in
    let c := update_checksum (set_image target_slot version payload_sha256 c) in
    let st := set_config c st in
    let '(ok_cfg, d) := replace_file BOOTSLOT_FILENAME (take 128 (config_bytes c)) d in
    let '(commit_ok, d) := rust_journal_commit d in
    if negb ok_cfg || negb commit_ok
    then (NOVA_UPDATE_ERR_JOURNAL, set_error NOVA_UPDATE_ERR_JOURNAL st, d)
    else (NOVA_UPDATE_OK, set_error NOVA_UPDATE_OK st, d).

(** The package is [None] for a null pointer. *)
Definition rust_os_update_apply_package (junk : list Z) (pkg : option (list Z)) (st : OsUpdateState) (d : F) :
    outcome (Z * OsUpdateState * F) :=
  match pkg with
  | None => Done (NOVA_UPDATE_ERR_FAULT, st, d)
  | Some pkg =>
      if (length pkg <? 128)%nat then Done (NOVA_UPDATE_ERR_FAULT, st, d)
      else
        r ← verify_update_package pkg;
        match r with
        | Err e => Done (e, set_error e st, d)
        | Ok p => Done (apply_verified junk p st d)
        end
  end.

Definition rust_os_update_rollback (junk : list Z) (st : OsUpdateState) (d : F) : Z * OsUpdateState * F :=
  let '(st, d) := ensure_config_loaded junk st d in
  let c := config st in
  let c := set_boot (fallback_slot c) (fallback_slot c) NOVA_SLOT_STATE_ROLLED_BACK DEFAULT_MAX_BOOT_ATTEMPTS c in
  let '(ok, st, d) := save_config_locked (set_config c st) d in
  let e := if ok : bool then NOVA_UPDATE_OK else NOVA_UPDATE_ERR_IO in
  (e, set_error e st, d).

Record NovaUpdateStatus : Type := mkStatus {
  s_active_slot : Z;
  s_fallback_slot : Z;
  s_slot_state : Z;
  s_boot_attempts : Z;
  s_slot_a_version : list Z;
  s_slot_b_version : list Z;
  s_last_error : Z;
}.

(** The return value, with what is written through the pointer. *)
Definition rust_os_update_get_status (out_is_null : bool) (junk : list Z) (st : OsUpdateState) (d : F) :
    Z * option NovaUpdateStatus * OsUpdateState * F :=
  if out_is_null then (NOVA_UPDATE_ERR_FAULT, None, st, d)
  else
    let '(st, d) := ensure_config_loaded junk st d in
    let c := config st in
    (NOVA_UPDATE_OK,
     Some (mkStatus (active_slot c) (fallback_slot c) (slot_state c) (boot_attempts c)
             (slot_a_version c) (slot_b_version c) (last_error st)), st, d).

(** ** The boot self-test *)

(** The fields of the status, for a check of the self-test: [rust_os_update_get_status] on
    a local structure. *)
Definition status (junk : list Z) (st : OsUpdateState) (d : F) : Z * Z * Z * Z * OsUpdateState * F :=
  let '(_, out, st, d) := rust_os_update_get_status false junk st d in
  match out with
  | Some o => (s_active_slot o, s_fallback_slot o, s_slot_state o, s_boot_attempts o, st, d)
  | None => (0, 0, 0, 0, st, d)
  end.

Definition test_payload : list Z :=
  take 64 (str "NovaOS Verified Test Kernel Image Update Payload v0.89.0 (64 bytes)").

(** The signed test package. *)
Definition test_package : outcome (list Z) :=
  pkg ← copy_prefix (replicate (128 + 64) 0) (str "NVUP");
  pkg ← write_at pkg 4 (str "OSUPDATE");
  pkg ← write_at pkg 20 (str "0.89.0");
  pkg ← write_at pkg 92 (le_bytes 4 64);
  pkg ← write_at pkg 128 test_payload;
  header ← slice_to pkg 128;
  payload ← range pkg 128 (128 + 64);
  sig ← compute_signature header payload;
  write_at pkg 96 sig.

Definition is_ok {A E} (r : result A E) : bool := match r with Ok _ => true | Err _ => false end.

(** Tests 1 to 5: the configuration and the package checks. *)
Definition selftest_checks (pkg : list Z) : outcome Z :=
  let cfg := default_new in
  let code := flag (negb (is_valid cfg)) 1 0 in
  let cfg := set_boot (active_slot cfg) (fallback_slot cfg) (slot_state cfg) 1 cfg in
  let code := flag (is_valid cfg) 2 code in
  let code := flag (negb (is_valid (update_checksum cfg))) 4 code in
  r ← verify_update_package pkg;
  code ← match r with
         | Ok (sz, v, _, pl) =>
             v6 ← slice_to v 6;
             Done (flag (negb (sz =? 64) || differs v6 (str "0.89.0") || negb (length pl =? 64)%nat) 8 code)
         | Err _ => Done (flag true 16 code)
         end;
  b ← index pkg 128; p ← store pkg 128 (Z.lxor b 0xFF); r ← verify_update_package p;
  let code := flag (is_ok r) 32 code in
  p ← store pkg 20 (chr "9"); r ← verify_update_package p;
  let code := flag (is_ok r) 64 code in
  p ← store pkg 0 (chr "X"); r ← verify_update_package p;
  Done (flag (is_ok r) 128 code).

(** Test 6: apply to the secondary slot. *)
Definition selftest_apply (junk pkg : list Z) (code : Z) (st : OsUpdateState) (d : F) :
    outcome (Z * OsUpdateState * F) :=
  '(r, st, d) ← rust_os_update_apply_package junk (Some pkg) st d;
  if negb (r =? NOVA_UPDATE_OK) then Done (flag true 256 code, st, d)
  else
    let '(active, fallback, state, attempts, st, d) := status junk st d in
    Done (flag (negb (active =? NOVA_BOOT_SLOT_B) || negb (fallback =? NOVA_BOOT_SLOT_A)
                || negb (state =? NOVA_SLOT_STATE_TESTING) || negb (attempts =? DEFAULT_MAX_BOOT_ATTEMPTS)) 512 code,
          st, d).

(** Tests 7 and 8: two boots count down, a third rolls back. *)
Definition selftest_boots (junk : list Z) (code : Z) (st : OsUpdateState) (d : F) : Z * OsUpdateState * F :=
  let '(st, d) := rust_os_update_boot_hook junk st d in
  let '(st, d) := rust_os_update_boot_hook junk st d in
  let '(_, _, state, attempts, st, d) := status junk st d in
  let code := flag (negb (attempts =? 1) || negb (state =? NOVA_SLOT_STATE_TESTING)) 1024 code in
  let '(st, d) := rust_os_update_boot_hook junk st d in
  let '(active, _, state, _, st, d) := status junk st d in
  (flag (negb (active =? NOVA_BOOT_SLOT_A) || negb (state =? NOVA_SLOT_STATE_ROLLED_BACK)) 2048 code, st, d).

(** Tests 9 and 10: confirm, roll back by hand, and the restored state. *)
Definition selftest_end (junk pkg : list Z) (code : Z) (st : OsUpdateState) (d : F) : outcome (Z * OsUpdateState * F) :=
  '(_, st, d) ← rust_os_update_apply_package junk (Some pkg) st d;
  let '(r, st, d) := rust_os_update_confirm_healthy junk st d in
  let '(code, st, d) :=
    if negb (r =? NOVA_UPDATE_OK) then (flag true 4096 code, st, d)
    else
      let '(active, _, state, _, st, d) := status junk st d in
      (flag (negb (active =? NOVA_BOOT_SLOT_B) || negb (state =? NOVA_SLOT_STATE_NORMAL)) 8192 code, st, d) in
  let '(r, st, d) := rust_os_update_rollback junk st d in
  if negb (r =? NOVA_UPDATE_OK) then Done (flag true 16384 code, st, d)
  else
    let '(active, _, _, _, st, d) := status junk st d in
    let code := flag (negb (active =? NOVA_BOOT_SLOT_A)) 32768 code in
    let c := set_boot NOVA_BOOT_SLOT_A NOVA_BOOT_SLOT_B NOVA_SLOT_STATE_NORMAL DEFAULT_MAX_BOOT_ATTEMPTS (config st) in
    let '(_, st, d) := save_config_locked (set_config c st) d in
    Done (code, st, d).

Definition rust_os_update_selftest (junk : list Z) (st : OsUpdateState) (d : F) : outcome (Z * OsUpdateState * F) :=
  pkg ← test_package;
  code ← selftest_checks pkg;
  '(code, st, d) ← selftest_apply junk pkg code st d;
  let '(code, st, d) := selftest_boots junk code st d in
  selftest_end junk pkg code st d.

(** What [kernel_main] does at boot, with the module's state as the loader leaves it: it
    loads the configuration, counts the boot and runs the self-test. *)
Definition boot (junk : list Z) (d : F) : outcome (Z * OsUpdateState * F) :=
  let '(st, d) := rust_os_update_init junk OsUpdateState_new d in
  let '(st, d) := rust_os_update_boot_hook junk st d in
  let '(_, _, st, d) := rust_os_update_get_status false junk st d in
  rust_os_update_selftest junk st d.

End Operations.
