(* ===== verification/UpdateSpec.v ===== *)
(** * Updates: packages, files and configuration

    When a package is authentic; what the module relies on of the file system, with a store
    of files that satisfies it; and what each operation does to configuration and files. *)

From S2P Require Import Prelude Bytes Sha ShaSpec Update.
Local Open Scope Z_scope.
Local Open Scope machine_scope.

(** ** Packages *)

(** The package has a known magic, the size it says, and the signature of its contents. *)
Definition authentic (pkg : list Z) : Prop :=
  (128 <= length pkg)%nat /\
  (take 4 pkg = str "NVPK" \/ take 4 pkg = str "NVUP") /\
  of_le_bytes (take 4 (drop 92 pkg)) = Z.of_nat (length pkg) - 128 /\
  take 32 (drop 96 pkg) = signature (unsigned (take 128 pkg) 96) (drop 128 pkg).

(** What a verified package consists of. *)
Definition contents (pkg : list Z) (p : Package) : Prop :=
  exists version, p = (Z.of_nat (length pkg) - 128, version, SHA256 (drop 128 pkg), drop 128 pkg) /\
    length version = 16%nat.

Lemma copy_version_ok v i out :
  (i + length v <= length out)%nat -> exists out', copy_version v i out = Done out' /\ length out' = length out.
Proof.
  revert i out. induction v as [|b v IH]; intros i out Hl; cbn [copy_version]; [by eexists|].
  destruct (b =? 0); [by eexists|]. cbn [length] in Hl. ostore.
  destruct (IH (S i) (<[i := b]> out)) as (out' & E & Hl'); [rewrite length_insert; lia|].
  exists out'. by rewrite Hl', length_insert.
Qed.

Lemma hash_one a : (s ← update Streaming_new a; finalize s) = Done (SHA256 a).
Proof.
  destruct (update_spec [] Streaming_new a new_absorbed) as (s & -> & H). osimpl. by apply finalize_spec.
Qed.

Lemma verify_update_package_spec pkg :
  Forall is_u8 pkg -> Z.of_nat (length pkg) < 4294967296 ->
  exists r, verify_update_package pkg = Done r /\
    match r with
    | Ok p => authentic pkg /\ contents pkg p
    | Err e => ~ authentic pkg /\ (e = NOVA_UPDATE_ERR_BAD_HEADER \/ e = NOVA_UPDATE_ERR_BAD_SIG)
    end.
Proof.
  intros Hb Hlt. unfold verify_update_package, authentic.
  destruct (Nat.ltb_spec (length pkg) 128) as [Hs|Hs]; [eexists; split; [done|]; split; [lia|by left]|].
  rewrite (range_Done pkg 0 4) by lia. osimpl. rewrite drop_0. change (4 - 0)%nat with 4%nat.
  assert (Hm : negb (bool_decide (take 4 pkg = str "NVPK")) && negb (bool_decide (take 4 pkg = str "NVUP")) = true <->
    ~ (take 4 pkg = str "NVPK" \/ take 4 pkg = str "NVUP")).
  { rewrite andb_true_iff, !negb_true_iff, !bool_decide_eq_false. tauto. }
  destruct (negb _ && negb _); [eexists; split; [done|]; split; [tauto|by left]|].
  assert (Hmagic : take 4 pkg = str "NVPK" \/ take 4 pkg = str "NVUP").
  { destruct (decide (take 4 pkg = str "NVPK")); [by left|]. destruct (decide (take 4 pkg = str "NVUP")); [by right|].
    exfalso. by assert (false = true) by tauto. }
  rewrite (range_Done pkg 92 96) by lia. osimpl. change (96 - 92)%nat with 4%nat. cbv zeta.
  set (size := of_le_bytes (take 4 (drop 92 pkg))).
  assert (Hsz : is_u32 size).
  { apply of_le_bytes_u32; [by apply Forall_take, Forall_drop|]. rewrite length_take, length_drop. lia. }
  unfold is_u32 in Hsz. assert (Hw : (128 +₃₂ size = Z.of_nat (length pkg)) <-> size = Z.of_nat (length pkg) - 128).
  { unfold wrap32. destruct (Z.lt_ge_cases (128 + size) 4294967296) as [H|H]; [rewrite Z.mod_small; lia|].
    rewrite <- (Z_mod_plus_full _ (-1)), Z.mod_small; lia. }
  destruct (Z.eqb_spec (128 +₃₂ size) (Z.of_nat (length pkg))) as [E|E]; cbn [negb].
  2:{ eexists. split; [done|]. split; [|by left]. intros (_ & _ & H & _). by apply E, Hw. }
  apply Hw in E. replace (128 + Z.to_nat size)%nat with (length pkg) by lia.
  rewrite (range_Done pkg 128) by lia. osimpl. rewrite take_ge by (rewrite length_drop; lia).
  rewrite slice_to_Done by lia. osimpl. rewrite zero_range_spec by (rewrite length_take; lia). osimpl.
  change (take 96 (take 128 pkg) ++ _) with (unsigned (take 128 pkg) 96). rewrite compute_signature_spec. osimpl.
  rewrite (range_Done pkg 96 128) by lia. osimpl. rewrite constant_time_eq_spec. osimpl.
  change (128 - 96)%nat with 32%nat.
  destruct (bool_decide_reflect (signature (unsigned (take 128 pkg) 96) (drop 128 pkg) = take 32 (drop 96 pkg))) as [Es|Es]; cbn [negb].
  2:{ eexists. split; [done|]. split; [|by right]. intros (_ & _ & _ & H). by symmetry in H. }
  rewrite (range_Done pkg 20 28) by lia. osimpl.
  destruct (copy_version_ok (take (28 - 20) (drop 20 pkg)) 0 (replicate 16 0)) as (v & -> & Hv);
    [rewrite length_take, length_replicate; lia|]. osimpl.
  pose proof (hash_one (drop 128 pkg)) as Hh. apply bind_Done in Hh as (h & -> & Hf). osimpl. rewrite Hf. osimpl.
  eexists. split; [done|]. split; [by repeat split|]. exists v. rewrite <- E. by rewrite Hv, length_replicate.
Qed.

(** ** The file system *)

(** What the module relies on: a file is read up to the length of the buffer, a successful
    write leaves the file with the bytes given, no call changes a file it is not about, and
    opening or committing a transaction keeps every file as the calls inside it left it. *)
Class VfsLaws (F : Type) `{!Vfs F} : Type := {
  file : F -> list Z -> option (list Z);
  read_present name n d b : file d name = Some b ->
    vfs_read_file name n d = (Z.of_nat (n `min` length b), take n b);
  read_absent name n d : file d name = None -> (vfs_read_file name n d).1 < 0;
  write_file name data d d' : vfs_write_file name data d = (true, d') -> file d' name = Some data;
  write_others name data d other : other <> name -> file (vfs_write_file name data d).2 other = file d other;
  delete_others name d other : other <> name -> file (vfs_delete_file name d).2 other = file d other;
  begin_files d name : file (rust_journal_begin d) name = file d name;
  commit_files d d' name : rust_journal_commit d = (true, d') -> file d' name = file d name;
}.

(** A disk on which nothing fails. *)
Class Reliable (F : Type) `{!Vfs F} : Prop := {
  write_reliable name data d : (vfs_write_file name data d).1 = true;
  commit_reliable d : (rust_journal_commit d).1 = true;
}.

(** A map of files is such a file system. *)
Definition FileStore : Type := gmap (list Z) (list Z).

#[export] Instance FileStore_vfs : Vfs FileStore := {|
  vfs_read_file name n d :=
    match d !! name with Some b => (Z.of_nat (n `min` length b), take n b) | None => (-1, []) end;
  vfs_write_file name data d := (true, <[name := data]> d);
  vfs_delete_file name d := (bool_decide (is_Some (d !! name)), delete name d);
  rust_journal_begin d := d;
  rust_journal_commit d := (true, d);
|}.

#[export] Instance FileStore_laws : VfsLaws FileStore.
Proof.
  refine {| file d name := d !! name |}; simpl.
  - by intros name n d b ->.
  - by intros name n d ->.
  - intros name data d d' [= <-]. apply lookup_insert_eq.
  - intros. by apply lookup_insert_ne.
  - intros. by apply lookup_delete_ne.
  - done.
  - by intros d d' name [= <-].
Defined.

#[export] Instance FileStore_reliable : Reliable FileStore.
Proof. by split. Qed.

(** * Updates: the operations

    What each operation of the update module does to the configuration and to the files,
    over any file system that keeps the laws of [VfsLaws]. *)

(** ** The configuration *)

Definition is_slot (s : Z) : Prop := s = NOVA_BOOT_SLOT_A \/ s = NOVA_BOOT_SLOT_B.

(** A configuration of the shape its type gives it, with the module's magic and version. *)
Record config_ok (c : BootSlotConfig) : Prop := {
  ok_magic : magic c = BOOTSLOT_MAGIC;
  ok_version : struct_version c = 1;
  ok_active : is_slot (active_slot c);
  ok_fallback : is_slot (fallback_slot c);
  ok_attempts : 1 <= boot_attempts c <= 255;
  ok_a_version : length (slot_a_version c) = 16%nat;
  ok_b_version : length (slot_b_version c) = 16%nat;
  ok_a_sha : length (slot_a_sha256 c) = 32%nat;
  ok_b_sha : length (slot_b_sha256 c) = 32%nat;
  ok_reserved : length (reserved c) = 20%nat;
}.

(** The boot decision of a configuration. *)
Definition boot_fields (c : BootSlotConfig) : Z * Z * Z * Z :=
  (active_slot c, fallback_slot c, slot_state c, boot_attempts c).

(** The configuration as the next boot finds it in memory: the last four bytes of the
    padding and the checksum come from behind the buffer. *)
Definition reloaded (c : BootSlotConfig) (junk : list Z) : BootSlotConfig :=
  mkConfig (magic c) (struct_version c) (active_slot c) (fallback_slot c) (slot_state c) (boot_attempts c)
    (slot_a_version c) (slot_b_version c) (slot_a_sha256 c) (slot_b_sha256 c)
    (take 16 (reserved c) ++ take 4 junk) (of_le_bytes (drop 4 junk)).

(** Splits a list of a known length into its elements. *)
Ltac explode l H := repeat (destruct l as [|? l]; [discriminate H|]); destruct l; [clear H|discriminate H].

Lemma config_bytes_length c : config_ok c -> length (config_bytes c) = 136%nat.
Proof.
  intros [Hm _ _ _ _ H1 H2 H3 H4 H5]. unfold config_bytes. rewrite !length_app, Hm, !le_bytes_length, H1, H2, H3, H4, H5.
  reflexivity.
Qed.

Lemma config_of_stored c junk :
  config_ok c -> length junk = 8%nat ->
  config_of_bytes (take 128 (config_bytes c) ++ junk) = reloaded c junk /\
  take 124 (config_bytes (reloaded c junk)) = take 124 (config_bytes c).
Proof.
  destruct c as [m v a f s n va vb sa sb r k]. intros [Hm Hv _ _ _ H1 H2 H3 H4 H5] Hj. cbn in *. subst m v.
  explode va H1. explode vb H2. explode sa H3. explode sb H4. explode r H5. explode junk Hj.
  split; reflexivity.
Qed.

Lemma is_valid_reloaded c junk :
  config_ok c -> length junk = 8%nat ->
  is_valid (reloaded c junk) = (adler32 (take 124 (config_bytes c)) =? of_le_bytes (drop 4 junk)).
Proof.
  intros Hc Hj. unfold is_valid. cbn [reloaded magic struct_version checksum].
  rewrite (ok_magic _ Hc), (ok_version _ Hc), (proj2 (config_of_stored c junk Hc Hj)). by rewrite bool_decide_true.
Qed.

Lemma update_checksum_ok c : config_ok c -> config_ok (update_checksum c).
Proof. by intros []. Qed.

Lemma update_checksum_sum c :
  config_ok c -> checksum (update_checksum c) = adler32 (take 124 (config_bytes (update_checksum c))).
Proof.
  destruct c as [m v a f s n va vb sa sb r k]. intros [Hm Hv _ _ _ H1 H2 H3 H4 H5]. cbn in *. subst m v.
  explode va H1. explode vb H2. explode sa H3. explode sb H4. explode r H5. reflexivity.
Qed.

Lemma set_boot_ok c active fallback st n :
  config_ok c -> is_slot active -> is_slot fallback -> 1 <= n <= 255 -> config_ok (set_boot active fallback st n c).
Proof. by intros []. Qed.

Lemma set_image_ok c slot v sha :
  config_ok c -> length v = 16%nat -> length sha = 32%nat -> config_ok (set_image slot v sha c).
Proof. intros [] ??. unfold set_image. by destruct (slot =? _). Qed.

Lemma set_image_boot c slot v sha : boot_fields (set_image slot v sha c) = boot_fields c.
Proof. unfold set_image. by destruct (slot =? _). Qed.

Lemma default_ok : config_ok default_new.
Proof. split; try reflexivity; try (by left); done. Qed.

Lemma slot_cases s : is_slot s -> slot_file (other_slot s) <> slot_file s /\ is_slot (other_slot s) /\ other_slot (other_slot s) = s.
Proof. by intros [-> | ->]; repeat split; try (by left); try (by right). Qed.

Lemma slot_file_config s : slot_file s <> BOOTSLOT_FILENAME.
Proof. unfold slot_file. by destruct (s =? _). Qed.

(** ** Files *)

Section Files.
Context {F : Type} `{!Vfs F, !VfsLaws F}.
Implicit Types (d : F) (st : OsUpdateState) (c : BootSlotConfig).

(** Every file but the configuration is as it was. *)
Definition kept d d' : Prop := forall name, name <> BOOTSLOT_FILENAME -> file d' name = file d name.

(** BOOTSLOT.DAT holds what the module writes of [c]. *)
Definition stored c d : Prop := file d BOOTSLOT_FILENAME = Some (take 128 (config_bytes c)).

Lemma kept_trans d1 d2 d3 : kept d1 d2 -> kept d2 d3 -> kept d1 d3.
Proof. intros H1 H2 name Hn. by rewrite H2, H1. Qed.

Lemma replace_others name data d other :
  other <> name -> file (replace_file name data d).2 other = file d other.
Proof.
  intros Hn. unfold replace_file. destruct (vfs_delete_file name d) as [b d1] eqn:E.
  rewrite write_others by done. change d1 with ((b, d1).2). rewrite <- E. by apply delete_others.
Qed.

Lemma replace_self name data d d' : replace_file name data d = (true, d') -> file d' name = Some data.
Proof. unfold replace_file. destruct (vfs_delete_file name d). apply write_file. Qed.

Lemma save_ok st d st' d' :
  save_config_locked st d = (true, st', d') ->
  st' = set_config (update_checksum (config st)) st /\ kept d d' /\ stored (config st') d'.
Proof.
  unfold save_config_locked. cbn zeta. set (st1 := set_config _ st).
  pose proof (fun n H => replace_others BOOTSLOT_FILENAME (take 128 (config_bytes (config st1))) (rust_journal_begin d) n H) as Ho.
  destruct (replace_file _ _ _) as [ok d1] eqn:Er. destruct (rust_journal_commit d1) as [cok d2] eqn:Ec.
  intros [= Hok <- <-]. apply andb_true_iff in Hok as [-> ->]. split; [done|]. split.
  - intros name Hn. rewrite (commit_files _ _ _ Ec), <- (begin_files d). by apply Ho.
  - unfold stored. rewrite (commit_files _ _ _ Ec). by apply replace_self in Er.
Qed.

(** What the first load of the configuration finds after [c] has been stored. *)
Lemma ensure_stored junk c d :
  config_ok c -> checksum c = adler32 (take 124 (config_bytes c)) -> length junk = 8%nat -> stored c d ->
  exists d', ensure_config_loaded junk OsUpdateState_new d =
    (mkState (if checksum c =? of_le_bytes (drop 4 junk) then reloaded c junk else default_new) true 0, d') /\
    kept d d'.
Proof.
  intros Hc Hk Hj Hs. unfold ensure_config_loaded. cbn [OsUpdateState_new initialized last_error].
  rewrite (read_present _ 128 _ _ Hs).
  assert (Hl : length (take 128 (config_bytes c)) = 128%nat) by (rewrite length_take, config_bytes_length; done).
  rewrite Hl, take_take. change (128 `min` 128)%nat with 128%nat. unfold padded_to. rewrite Hl. simpl replicate.
  rewrite app_nil_r, (proj1 (config_of_stored c junk Hc Hj)), is_valid_reloaded, <- Hk by done.
  change (Z.of_nat 128 =? 128) with true. cbn [andb].
  destruct (checksum c =? _); [by exists d|].
  pose proof (fun n H => replace_others BOOTSLOT_FILENAME (take 128 (config_bytes (update_checksum default_new))) d n H) as Ho.
  destruct (replace_file _ _ _) as [b d1]. exists d1. split; [|done]. by change (update_checksum default_new) with default_new.
Qed.

Lemma ensure_done junk st d : initialized st = true -> ensure_config_loaded junk st d = (st, d).
Proof. unfold ensure_config_loaded. by intros ->. Qed.

(** A package that was applied: the image is in the other slot, the running one and every
    other file are untouched, and the configuration is the stored one. *)
Lemma apply_verified_ok junk p st d st' d' :
  initialized st = true -> is_slot (active_slot (config st)) ->
  apply_verified junk p st d = (NOVA_UPDATE_OK, st', d') ->
  let s := active_slot (config st) in
  initialized st' = true /\ boot_fields (config st') = (other_slot s, s, NOVA_SLOT_STATE_TESTING, DEFAULT_MAX_BOOT_ATTEMPTS) /\
  file d' (slot_file (other_slot s)) = Some p.2 /\
  (forall name, name <> slot_file (other_slot s) -> name <> BOOTSLOT_FILENAME -> file d' name = file d name) /\
  stored (config st') d'.
Proof.
  intros Hi Hs. destruct p as [[[size version] sha] payload]. unfold apply_verified. rewrite ensure_done by done.
  set (s := active_slot (config st)). cbn zeta.
  pose proof (fun n H => replace_others (slot_file (other_slot s)) payload (rust_journal_begin d) n H) as Ho1.
  destruct (replace_file (slot_file _) _ _) as [ok1 d1] eqn:E1. destruct ok1; cbn [negb].
  2:{ by destruct (rust_journal_commit d1). }
  set (c := update_checksum _).
  pose proof (fun n H => replace_others BOOTSLOT_FILENAME (take 128 (config_bytes c)) d1 n H) as Ho2.
  destruct (replace_file BOOTSLOT_FILENAME _ _) as [ok2 d2] eqn:E2. destruct (rust_journal_commit d2) as [ok3 d3] eqn:E3.
  destruct ok2, ok3; cbn [negb orb]; try discriminate. intros [= <- <-]. cbn [set_error set_config config initialized].
  pose proof (fun name => commit_files _ _ name E3) as Hc.
  split; [done|]. split.
  { unfold c. change (boot_fields (update_checksum ?x)) with (boot_fields x). by rewrite set_image_boot. }
  split; [rewrite Hc, Ho2 by apply slot_file_config; by apply replace_self in E1|].
  split; [intros name H1 H2; by rewrite Hc, Ho2, Ho1, begin_files|].
  unfold stored. rewrite Hc. by apply replace_self in E2.
Qed.

End Files.
