(* ===== verification/UpdateBoot.v ===== *)
(** * Updates: booting

    The boot decision as a state machine on (active slot, fallback slot, state, attempts
    left), that the operations follow it, and what a boot with its self-test does to the
    two kernel images. *)

From S2P Require Import Prelude Bytes Sha ShaSpec Update UpdateSpec.
Local Open Scope Z_scope.
Local Open Scope machine_scope.

(** ** The boot decision *)

Definition decision : Type := Z * Z * Z * Z.

(** What a boot makes of the decision. *)
Definition boot_next (f : decision) : decision :=
  let '(active, fallback, state, attempts) := f in
  if state =? NOVA_SLOT_STATE_TESTING then
    if 1 <? attempts then (active, fallback, state, attempts - 1)
    else (fallback, fallback, NOVA_SLOT_STATE_ROLLED_BACK, DEFAULT_MAX_BOOT_ATTEMPTS)
  else f.

(** What a confirmation makes of it. *)
Definition confirm_next (f : decision) : decision :=
  let '(active, fallback, state, attempts) := f in
  if state =? NOVA_SLOT_STATE_TESTING
  then (active, fallback, NOVA_SLOT_STATE_NORMAL, DEFAULT_MAX_BOOT_ATTEMPTS) else f.

Definition rollback_next (f : decision) : decision :=
  let '(_, fallback, _, _) := f in
  (fallback, fallback, NOVA_SLOT_STATE_ROLLED_BACK, DEFAULT_MAX_BOOT_ATTEMPTS).

(** ** The operations follow it *)

Section Boot.
Context {F : Type} `{!Vfs F, !VfsLaws F}.
Implicit Types (d : F) (st : OsUpdateState) (f : decision).

(** The module is loaded and decides [f]. *)
Definition decides st f : Prop := initialized st = true /\ boot_fields (config st) = f.

Lemma hook_decides junk st d f st' d' :
  decides st f -> rust_os_update_boot_hook junk st d = (st', d') -> decides st' (boot_next f).
Proof.
  intros [Hi <-]. unfold rust_os_update_boot_hook, boot_fields, boot_next. rewrite ensure_done by done.
  unfold save_config_locked. cbn zeta.
  destruct (slot_state (config st) =? _); [destruct (1 <? _)|by intros [= <- <-]].
  all: destruct (replace_file _ _ _) as [? d1]; destruct (rust_journal_commit d1); by intros [= <- <-].
Qed.

Lemma confirm_decides junk st d f r st' d' :
  decides st f -> rust_os_update_confirm_healthy junk st d = (r, st', d') -> decides st' (confirm_next f).
Proof.
  intros [Hi <-]. unfold rust_os_update_confirm_healthy, boot_fields, confirm_next. rewrite ensure_done by done.
  unfold save_config_locked. cbn zeta. destruct (slot_state (config st) =? _); [|by intros [= <- <- <-]].
  destruct (replace_file _ _ _) as [? d1]. destruct (rust_journal_commit d1). by intros [= <- <- <-].
Qed.

Lemma rollback_decides junk st d f r st' d' :
  decides st f -> rust_os_update_rollback junk st d = (r, st', d') -> decides st' (rollback_next f).
Proof.
  intros [Hi <-]. unfold rust_os_update_rollback, boot_fields, rollback_next. rewrite ensure_done by done.
  unfold save_config_locked. cbn zeta.
  destruct (replace_file _ _ _) as [? d1]. destruct (rust_journal_commit d1). by intros [= <- <- <-].
Qed.

(** A successful call, for an arbitrary package. *)
Lemma applied_ok junk pkg st d st' d' :
  Forall is_u8 pkg -> Z.of_nat (length pkg) < 4294967296 ->
  initialized st = true -> is_slot (active_slot (config st)) ->
  rust_os_update_apply_package junk (Some pkg) st d = Done (NOVA_UPDATE_OK, st', d') ->
  let s := active_slot (config st) in
  initialized st' = true /\
  boot_fields (config st') = (other_slot s, s, NOVA_SLOT_STATE_TESTING, DEFAULT_MAX_BOOT_ATTEMPTS) /\
  file d' (slot_file (other_slot s)) = Some (drop 128 pkg) /\
  (forall name, name <> slot_file (other_slot s) -> name <> BOOTSLOT_FILENAME -> file d' name = file d name) /\
  stored (config st') d'.
Proof.
  intros Hb Hl Hi Hs. unfold rust_os_update_apply_package. destruct (length pkg <? 128)%nat; [done|].
  destruct (verify_update_package_spec pkg Hb Hl) as (v & -> & Hv). osimpl. destruct v as [p|e].
  - destruct Hv as (_ & version & -> & _). set (p := (_, _, _, _)). intros E.
    assert (E' : apply_verified junk p st d = (NOVA_UPDATE_OK, st', d')) by congruence.
    apply (apply_verified_ok junk p st d st' d' Hi Hs E').
  - intros [= -> <- <-]. by destruct Hv as (_ & [|]).
Qed.

End Boot.

(** ** On a reliable disk *)

Section Reliable.
Context {F : Type} `{!Vfs F, !VfsLaws F, !Reliable F}.
Implicit Types (d : F) (st : OsUpdateState) (f : decision).

Lemma save_reliable st d :
  exists d', save_config_locked st d = (true, set_config (update_checksum (config st)) st, d') /\ kept d d'.
Proof.
  destruct (save_config_locked st d) as [[ok st'] d'] eqn:E.
  assert (ok = true) as ->.
  { revert E. unfold save_config_locked, replace_file. cbn zeta. destruct (vfs_delete_file _ _) as [? d1].
    pose proof (write_reliable BOOTSLOT_FILENAME
      (take 128 (config_bytes (config (set_config (update_checksum (config st)) st)))) d1) as Hw.
    destruct (vfs_write_file _ _ d1) as [ok1 d2]. pose proof (commit_reliable d2) as Hc.
    destruct (rust_journal_commit d2) as [ok2 d3]. cbn in Hw, Hc. rewrite Hw, Hc. by intros [= <- _ _]. }
  destruct (save_ok _ _ _ _ E) as (-> & Hk & _). by exists d'.
Qed.

Lemma apply_reliable junk p st d :
  initialized st = true -> exists st' d', apply_verified junk p st d = (NOVA_UPDATE_OK, st', d').
Proof.
  intros Hi. destruct p as [[[size version] sha] payload]. unfold apply_verified, replace_file.
  rewrite ensure_done by done. cbn zeta.
  destruct (vfs_delete_file _ _) as [? d1]. set (name := slot_file _).
  pose proof (write_reliable name payload d1) as Hw. destruct (vfs_write_file name payload d1) as [ok1 d2].
  cbn in Hw. rewrite Hw. cbn [negb]. set (c := update_checksum _). destruct (vfs_delete_file _ d2) as [? d3].
  pose proof (write_reliable BOOTSLOT_FILENAME (take 128 (config_bytes c)) d3) as Hw2.
  destruct (vfs_write_file _ _ d3) as [ok2 d4]. pose proof (commit_reliable d4) as Hc.
  destruct (rust_journal_commit d4) as [ok3 d5]. cbn in Hw2, Hc. rewrite Hw2, Hc. by do 2 eexists.
Qed.

(** The module decides [f], and the slot other than [s] holds [img]. *)
Definition on s img st d f : Prop := decides st f /\ file d (slot_file (other_slot s)) = img.

Lemma on_kept s img st d st' d' f f' :
  on s img st d f -> decides st' f' -> kept d d' -> on s img st' d' f'.
Proof. intros [_ Hf] Hd Hk. split; [done|]. rewrite <- Hf. apply Hk, slot_file_config. Qed.

Lemma hook_on junk s img st d f :
  on s img st d f -> exists st' d', rust_os_update_boot_hook junk st d = (st', d') /\ on s img st' d' (boot_next f).
Proof.
  intros Ho. destruct (rust_os_update_boot_hook junk st d) as [st' d'] eqn:E. exists st', d'. split; [done|].
  apply (on_kept _ _ st d _ _ f); [done|by apply (hook_decides _ _ _ _ _ _ (proj1 Ho) E)|].
  revert E. unfold rust_os_update_boot_hook. rewrite ensure_done by apply Ho. cbn zeta.
  destruct (_ =? _); [destruct (1 <? _)|by intros [= <- <-]].
  all: edestruct save_reliable as (d1 & -> & Hk); by intros [= <- <-].
Qed.

Lemma confirm_on junk s img st d f :
  on s img st d f ->
  exists st' d', rust_os_update_confirm_healthy junk st d = (NOVA_UPDATE_OK, st', d') /\ on s img st' d' (confirm_next f).
Proof.
  intros Ho. destruct (rust_os_update_confirm_healthy junk st d) as [[r st'] d'] eqn:E. exists st', d'.
  pose proof (confirm_decides _ _ _ _ _ _ _ (proj1 Ho) E) as Hd.
  revert E. unfold rust_os_update_confirm_healthy. rewrite ensure_done by apply Ho. cbn zeta.
  destruct (_ =? _); [edestruct save_reliable as (d1 & -> & Hk)|].
  all: intros [= <- <- <-]; (split; [done|]); by apply (on_kept _ _ _ _ _ _ _ _ Ho Hd).
Qed.

Lemma rollback_on junk s img st d f :
  on s img st d f ->
  exists st' d', rust_os_update_rollback junk st d = (NOVA_UPDATE_OK, st', d') /\ on s img st' d' (rollback_next f).
Proof.
  intros Ho. destruct (rust_os_update_rollback junk st d) as [[r st'] d'] eqn:E. exists st', d'.
  pose proof (rollback_decides _ _ _ _ _ _ _ (proj1 Ho) E) as Hd.
  revert E. unfold rust_os_update_rollback. rewrite ensure_done by apply Ho. cbn zeta.
  edestruct save_reliable as (d1 & -> & Hk). intros [= <- <- <-]. split; [done|].
  by apply (on_kept _ _ _ _ _ _ _ _ Ho Hd).
Qed.

Lemma status_on junk s img st d a b c n :
  on s img st d (a, b, c, n) -> status junk st d = (a, b, c, n, st, d).
Proof.
  intros [[Hi Hf] _]. unfold status, rust_os_update_get_status. rewrite ensure_done by done.
  unfold boot_fields in Hf. by simplify_eq.
Qed.

(** The test package verifies, and the checks on it and on its corrupted copies pass. *)
Lemma test_package_ok :
  exists pkg, test_package = Done pkg /\ length pkg = 192%nat /\ selftest_checks pkg = Done 0 /\
    exists version sha, verify_update_package pkg = Done (Ok (64, version, sha, test_payload)).
Proof.
  eexists. split; [vm_compute; reflexivity|]. split; [reflexivity|].
  split; [vm_compute; reflexivity|]. do 2 eexists. vm_compute; reflexivity.
Qed.

Lemma apply_on junk pkg p s img st d fallback state n :
  (128 <= length pkg)%nat -> verify_update_package pkg = Done (Ok p) -> is_slot s ->
  on s img st d (s, fallback, state, n) ->
  exists st' d', rust_os_update_apply_package junk (Some pkg) st d = Done (NOVA_UPDATE_OK, st', d') /\
    on s (Some p.2) st' d' (other_slot s, s, NOVA_SLOT_STATE_TESTING, DEFAULT_MAX_BOOT_ATTEMPTS).
Proof.
  intros Hl Hv Hs [[Hi Hf] _]. assert (Ha : active_slot (config st) = s) by (by unfold boot_fields in Hf; simplify_eq).
  destruct (apply_reliable junk p st d Hi) as (st' & d' & E). exists st', d'.
  unfold rust_os_update_apply_package. replace (length pkg <? 128)%nat with false by lia. rewrite Hv. osimpl. rewrite E.
  split; [done|]. rewrite <- Ha in Hs. destruct (apply_verified_ok _ _ _ _ _ _ Hi Hs E) as (Hi' & Hf' & Himg & _).
  rewrite Ha in Hf', Himg. by split.
Qed.

(** The self-test leaves its payload in the slot that was not active. *)
Lemma selftest_on junk s img st d fallback state n :
  is_slot s -> on s img st d (s, fallback, state, n) ->
  exists code st' d', rust_os_update_selftest junk st d = Done (code, st', d') /\
    on s (Some test_payload) st' d' (NOVA_BOOT_SLOT_A, NOVA_BOOT_SLOT_B, NOVA_SLOT_STATE_NORMAL, DEFAULT_MAX_BOOT_ATTEMPTS) /\
    (s = NOVA_BOOT_SLOT_A -> code = 0).
Proof.
  intros Hs Ho. destruct test_package_ok as (pkg & Hp & Hl & Hc & v & sha & Hv).
  assert (H128 : (128 <= length pkg)%nat) by lia.
  unfold rust_os_update_selftest. rewrite Hp. osimpl. rewrite Hc. osimpl. unfold selftest_apply.
  destruct (apply_on junk _ _ _ _ _ _ _ _ _ H128 Hv Hs Ho) as (st1 & d1 & -> & Ho1). osimpl. cbn [negb Z.eqb NOVA_UPDATE_OK].
  rewrite (status_on junk _ _ _ _ _ _ _ _ Ho1). osimpl. unfold selftest_boots.
  destruct (hook_on junk _ _ _ _ _ Ho1) as (st2 & d2 & -> & Ho2).
  destruct (hook_on junk _ _ _ _ _ Ho2) as (st3 & d3 & -> & Ho3).
  rewrite (status_on junk _ _ _ _ _ _ _ _ Ho3).
  destruct (hook_on junk _ _ _ _ _ Ho3) as (st4 & d4 & -> & Ho4).
  rewrite (status_on junk _ _ _ _ _ _ _ _ Ho4). unfold selftest_end.
  destruct (apply_on junk _ _ _ _ _ _ _ _ _ H128 Hv Hs Ho4) as (st5 & d5 & -> & Ho5). osimpl.
  destruct (confirm_on junk _ _ _ _ _ Ho5) as (st6 & d6 & -> & Ho6). cbn [negb Z.eqb NOVA_UPDATE_OK].
  rewrite (status_on junk _ _ _ _ _ _ _ _ Ho6).
  destruct (rollback_on junk _ _ _ _ _ Ho6) as (st7 & d7 & -> & Ho7). cbn [negb Z.eqb NOVA_UPDATE_OK].
  rewrite (status_on junk _ _ _ _ _ _ _ _ Ho7). cbn zeta.
  destruct (save_reliable (set_config (set_boot NOVA_BOOT_SLOT_A NOVA_BOOT_SLOT_B NOVA_SLOT_STATE_NORMAL
    DEFAULT_MAX_BOOT_ATTEMPTS (config st7)) st7) d7) as (d8 & -> & Hk).
  do 3 eexists. split; [reflexivity|]. split; [|by intros ->].
  apply (on_kept _ _ st7 d7 _ _ _ _ Ho7); [|done]. split; [|done]. apply Ho7.
Qed.

End Reliable.
