(* ===== verification/UpdateProps.v ===== *)
(** * Updates: properties *)

From S2P Require Import Prelude Bytes Sha ShaSpec Update UpdateSpec UpdateBoot.
Local Open Scope Z_scope.
Local Open Scope machine_scope.

Section Updates.
Context {F : Type} `{!Vfs F, !VfsLaws F}.

(** C26: applying a package, with the module loaded and slot [s] active. The call always
    returns. A package that is not authentic (wrong magic, wrong size or a signature that
    is not the one of its contents) is refused with a negative code and changes neither a
    file nor the configuration. If the call succeeds, the package was authentic, the other
    slot's file holds exactly its payload, the active slot's file and every other file are
    untouched, BOOTSLOT.DAT holds the new configuration, and that configuration boots the
    other slot on trial with [s] to fall back to. On a disk that does not fail, every
    authentic package is applied. *)
Theorem update_apply_correct junk pkg st (d : F) :
  Forall is_u8 pkg -> Z.of_nat (length pkg) < 4294967296 ->
  initialized st = true -> is_slot (active_slot (config st)) ->
  let s := active_slot (config st) in
  exists r st' d', rust_os_update_apply_package junk (Some pkg) st d = Done (r, st', d') /\
    (~ authentic pkg -> r < 0 /\ d' = d /\ config st' = config st) /\
    (r = NOVA_UPDATE_OK ->
      authentic pkg /\
      boot_fields (config st') = (other_slot s, s, NOVA_SLOT_STATE_TESTING, DEFAULT_MAX_BOOT_ATTEMPTS) /\
      file d' (slot_file (other_slot s)) = Some (drop 128 pkg) /\
      (forall name, name <> slot_file (other_slot s) -> name <> BOOTSLOT_FILENAME -> file d' name = file d name) /\
      stored (config st') d') /\
    (Reliable F -> authentic pkg -> r = NOVA_UPDATE_OK).
Proof.
  intros Hb Hlt Hi Hs s. unfold rust_os_update_apply_package.
  destruct (Nat.ltb_spec (length pkg) 128) as [Hl|Hl].
  { do 3 eexists. split; [done|]. split; [done|]. split; [done|]. intros _ [H _]. lia. }
  destruct (verify_update_package_spec pkg Hb Hlt) as (v & -> & Hv). osimpl. destruct v as [p|e].
  - destruct Hv as (Ha & version & Hp & _). assert (Hp2 : p.2 = drop 128 pkg) by by rewrite Hp.
    destruct (apply_verified junk p st d) as [[r st'] d'] eqn:E. exists r, st', d'. split; [done|]. split; [done|].
    split.
    + intros ->. split; [done|]. rewrite <- Hp2. apply (apply_verified_ok junk p st d st' d' Hi Hs E).
    + intros Hr _. destruct (apply_reliable junk p st d Hi) as (st2 & d2 & E2). congruence.
  - destruct Hv as (Ha & He). do 3 eexists. split; [done|]. split; [by destruct He as [-> | ->]|].
    split; [by destruct He as [-> | ->]|done].
Qed.

(** What a boot makes of a saved configuration. The structure has 136 bytes and 128 of
    them are written, so the checksum is never stored: the next boot takes it, with the
    end of the padding, from the eight bytes of memory behind its buffer. Unless the last
    four of those happen to spell the checksum, the saved configuration is replaced by the
    default one. If they do, everything but the padding is as it was saved. *)
Theorem update_config_reload junk st (d : F) st' d' :
  config_ok (config st) -> save_config_locked st d = (true, st', d') -> length junk = 8%nat ->
  exists st2 d2, rust_os_update_init junk OsUpdateState_new d' = (st2, d2) /\ kept d' d2 /\
    config st2 = (if checksum (config st') =? of_le_bytes (drop 4 junk) then reloaded (config st') junk else default_new).
Proof.
  intros Hc Hsave Hj. destruct (save_ok _ _ _ _ Hsave) as (-> & _ & Hs). cbn [set_config config] in *.
  destruct (ensure_stored junk _ d' (update_checksum_ok _ Hc) (update_checksum_sum _ Hc) Hj Hs) as (d2 & E & Hk).
  by do 2 eexists.
Qed.

(** Two packages applied without a boot in between. The second goes to the slot whose
    kernel is running, so no slot is left with the kernel that is known to work, and the
    slot to fall back to is the first package's untried one. *)
Theorem update_second_apply_overwrites junk pkg1 pkg2 st (d : F) st1 d1 st2 d2 :
  Forall is_u8 pkg1 -> Z.of_nat (length pkg1) < 4294967296 ->
  Forall is_u8 pkg2 -> Z.of_nat (length pkg2) < 4294967296 ->
  initialized st = true -> is_slot (active_slot (config st)) ->
  rust_os_update_apply_package junk (Some pkg1) st d = Done (NOVA_UPDATE_OK, st1, d1) ->
  rust_os_update_apply_package junk (Some pkg2) st1 d1 = Done (NOVA_UPDATE_OK, st2, d2) ->
  let s := active_slot (config st) in
  file d2 (slot_file s) = Some (drop 128 pkg2) /\ file d2 (slot_file (other_slot s)) = Some (drop 128 pkg1) /\
  boot_fields (config st2) = (s, other_slot s, NOVA_SLOT_STATE_TESTING, DEFAULT_MAX_BOOT_ATTEMPTS).
Proof.
  intros Hb1 Hl1 Hb2 Hl2 Hi Hs H1 H2 s.
  destruct (applied_ok _ _ _ _ _ _ Hb1 Hl1 Hi Hs H1) as (Hi1 & Hf1 & Himg1 & _ & _).
  assert (Ha : active_slot (config st1) = other_slot s) by (by unfold boot_fields in Hf1; simplify_eq).
  destruct (slot_cases s Hs) as (Hne & Hs' & Hoo). rewrite <- Ha in Hs'.
  destruct (applied_ok _ _ _ _ _ _ Hb2 Hl2 Hi1 Hs' H2) as (_ & Hf2 & Himg2 & Hkeep & _).
  rewrite Ha, Hoo in Hf2, Himg2, Hkeep. split; [done|]. split; [|done].
  rewrite Hkeep; [done|done|apply slot_file_config].
Qed.

(** The slot the kernel selects when it boots with [c] in BOOTSLOT.DAT. *)
Definition booted (c : BootSlotConfig) (junk : list Z) : Z :=
  (boot_next (boot_fields (if checksum c =? of_le_bytes (drop 4 junk) then reloaded c junk else default_new))).1.1.1.

(** A boot with any saved configuration, on a disk that does not fail. The self-test
    that every boot runs writes its 64-byte payload over the kernel image of the slot that
    is not selected, and ends with slot A selected and no trial: a staged or confirmed
    update does not survive a boot. The test reports success if slot A was selected. *)
Theorem update_boot_overwrites `{!Reliable F} c junk (d : F) :
  config_ok c -> checksum c = adler32 (take 124 (config_bytes c)) -> length junk = 8%nat -> stored c d ->
  exists code st' d', boot junk d = Done (code, st', d') /\
    file d' (slot_file (other_slot (booted c junk))) = Some test_payload /\
    boot_fields (config st') = (NOVA_BOOT_SLOT_A, NOVA_BOOT_SLOT_B, NOVA_SLOT_STATE_NORMAL, DEFAULT_MAX_BOOT_ATTEMPTS) /\
    (booted c junk = NOVA_BOOT_SLOT_A -> code = 0).
Proof.
  intros Hc Hk Hj Hs. unfold boot, rust_os_update_init.
  destruct (ensure_stored junk c d Hc Hk Hj Hs) as (d1 & -> & _). unfold booted.
  set (c1 := if checksum c =? of_le_bytes (drop 4 junk) then reloaded c junk else default_new).
  assert (Ho : on (booted c junk) (file d1 (slot_file (other_slot (booted c junk)))) (mkState c1 true 0) d1 (boot_fields c1)) by done.
  destruct (hook_on junk _ _ _ _ _ Ho) as (st2 & d2 & -> & Ho2).
  assert (Hslot : is_slot (booted c junk)).
  { unfold booted. fold c1. assert (is_slot (active_slot c1) /\ is_slot (fallback_slot c1)) as [Hsa Hsf].
    { unfold c1. destruct (_ =? _); [split; apply Hc|by split; left]. }
    unfold boot_fields, boot_next.
    destruct (slot_state c1 =? _); [destruct (1 <? boot_attempts c1)|]; cbn [fst]; assumption. }
  unfold booted in *. fold c1 in Ho2, Hslot |- *. destruct (boot_next (boot_fields c1)) as [[[a b] s] n]. cbn [fst] in *.
  unfold rust_os_update_get_status. rewrite ensure_done by apply Ho2.
  destruct (selftest_on junk _ _ _ _ _ _ _ Hslot Ho2) as (code & st3 & d3 & -> & [Hd Himg] & Hcode).
  do 3 eexists. split; [done|]. split; [done|]. split; [apply Hd|done].
Qed.

End Updates.

(** * Updates: the theorems at work

    The signed package of the self-test, over a store of files. *)

Definition demo_package : list Z :=
  Eval vm_compute in match test_package with Done p => p | Panic => [] end.

Definition fresh : OsUpdateState := mkState default_new true 0.
Definition disk : FileStore := {[ SLOT_A_FILENAME := str "kernel" ]}.
Definition no_junk : list Z := replicate 8 0.

Lemma demo_bytes : Forall is_u8 demo_package.
Proof. apply bytes_check. vm_compute. reflexivity. Qed.

Lemma demo_authentic : authentic demo_package.
Proof.
  split; [simpl; lia|]. split; [right; reflexivity|]. split; [reflexivity|]. vm_compute. reflexivity.
Qed.

Lemma update_apply_correct_witness :
  exists st' d', rust_os_update_apply_package no_junk (Some demo_package) fresh disk = Done (NOVA_UPDATE_OK, st', d') /\
    file d' SLOT_B_FILENAME = Some (drop 128 demo_package) /\ file d' SLOT_A_FILENAME = Some (str "kernel").
Proof.
  destruct (update_apply_correct no_junk demo_package fresh disk) as (r & st' & d' & E & _ & Hok & Hr);
    [exact demo_bytes|reflexivity|reflexivity|by left|].
  specialize (Hr _ demo_authentic). subst r. destruct (Hok eq_refl) as (_ & _ & H1 & H2 & _).
  exists st', d'. split; [exact E|]. split; [exact H1|]. rewrite H2; [reflexivity|discriminate|discriminate].
Defined.

Definition trial : OsUpdateState :=
  mkState (set_boot NOVA_BOOT_SLOT_B NOVA_BOOT_SLOT_A NOVA_SLOT_STATE_TESTING 3 default_new) true 0.

Lemma update_config_reload_witness :
  exists st2 d2, rust_os_update_init no_junk OsUpdateState_new (save_config_locked trial disk).2 = (st2, d2) /\
    active_slot (config st2) = NOVA_BOOT_SLOT_A.
Proof.
  destruct (update_config_reload no_junk trial disk (save_config_locked trial disk).1.2 (save_config_locked trial disk).2)
    as (st2 & d2 & E & _ & Hc); [apply set_boot_ok; [exact default_ok|by right|by left|lia]|reflexivity|reflexivity|].
  exists st2, d2. split; [exact E|]. rewrite Hc. vm_compute. reflexivity.
Defined.

Lemma update_second_apply_overwrites_witness :
  exists st2 d2, file d2 SLOT_A_FILENAME = Some (drop 128 demo_package) /\
    boot_fields (config st2) = (0, 1, NOVA_SLOT_STATE_TESTING, 3).
Proof.
  destruct (apply_on no_junk demo_package _ 0 None fresh disk 0 0 3 ltac:(simpl; lia) ltac:(vm_compute; reflexivity)
    ltac:(by left) ltac:(by vm_compute)) as (st1 & d1 & E1 & Ho).
  destruct (apply_on no_junk demo_package _ 1 (file d1 SLOT_A_FILENAME) st1 d1 0 1 3 ltac:(simpl; lia) ltac:(vm_compute; reflexivity)
    ltac:(by right) (conj (proj1 Ho) eq_refl)) as (st2 & d2 & E2 & _).
  exists st2, d2.
  destruct (update_second_apply_overwrites no_junk demo_package demo_package fresh disk st1 d1 st2 d2) as (H1 & _ & H2);
    [exact demo_bytes|reflexivity|exact demo_bytes|reflexivity|reflexivity|by left|exact E1|exact E2|].
  split; [exact H1|exact H2].
Defined.

(** A boot with slot B on trial. *)
Definition staged : BootSlotConfig := update_checksum (config trial).

Lemma staged_ok : config_ok staged.
Proof. apply update_checksum_ok, set_boot_ok; [exact default_ok|by right|by left|lia]. Qed.

Lemma update_boot_overwrites_witness :
  exists code st' d', boot no_junk (<[BOOTSLOT_FILENAME := take 128 (config_bytes staged)]> disk) = Done (code, st', d') /\
    file d' SLOT_B_FILENAME = Some test_payload /\
    boot_fields (config st') = (NOVA_BOOT_SLOT_A, NOVA_BOOT_SLOT_B, NOVA_SLOT_STATE_NORMAL, DEFAULT_MAX_BOOT_ATTEMPTS).
Proof.
  destruct (update_boot_overwrites staged no_junk (<[BOOTSLOT_FILENAME := take 128 (config_bytes staged)]> disk))
    as (code & st' & d' & E & H & Hb & _);
    [exact staged_ok|apply update_checksum_sum, set_boot_ok; [exact default_ok|by right|by left|lia]|reflexivity|apply lookup_insert_eq|].
  exists code, st', d'. split; [exact E|]. split; [exact H|exact Hb].
Defined.
