(* ===== verification/Dynlink.v ===== *)
(** * Loading and linking programs

    The definitions of [kernel/rust/dynlink.rs] (the dynamic section, symbols and
    relocations of ELF files), of the loader [kernel/task/elf.c] and of the part of
    [kernel/task/process.c] that loads a program with its shared libraries. File contents
    are lists of bytes; a slice behind a pointer and a length is a list. Frames and page
    tables are the class [Vm] of operations the loader calls; files are the class [Vfs] of
    Update.v. [Panic] in the C half is a read outside the file's buffer or a write through a
    page table entry that is not present. *)

From S2P Require Import Prelude Bytes Update.
Local Open Scope Z_scope.
Local Open Scope machine_scope.

Definition DT_NULL : Z := 0.
Definition DT_NEEDED : Z := 1.
Definition DT_PLTRELSZ : Z := 2.
Definition DT_HASH : Z := 4.
Definition DT_STRTAB : Z := 5.
Definition DT_SYMTAB : Z := 6.
Definition DT_REL : Z := 17.
Definition DT_RELSZ : Z := 18.
Definition DT_JMPREL : Z := 23.

Definition R_386_NONE : Z := 0.
Definition R_386_32 : Z := 1.
Definition R_386_PC32 : Z := 2.
Definition R_386_COPY : Z := 5.
Definition R_386_GLOB_DAT : Z := 6.
Definition R_386_JMP_SLOT : Z := 7.
Definition R_386_RELATIVE : Z := 8.

Definition STB_LOCAL : Z := 0.
Definition STB_WEAK : Z := 2.
Definition SHN_UNDEF : Z := 0.

Definition SYM_ENTRY_SIZE : Z := 16.
Definition REL_ENTRY_SIZE : Z := 8.
Definition MAX_NAME_LEN : nat := 64.
Definition MAX_NEEDED_SCAN : nat := 16.

Definition OK : Z := 0.
Definition ERR_MALFORMED : Z := -1.
Definition ERR_UNRESOLVED_SYMBOL : Z := -2.
Definition ERR_WRITE_FAILED : Z := -3.
Definition ERR_UNSUPPORTED_COPY_RELOC : Z := -4.
Definition ERR_UNSUPPORTED_RELOC_TYPE : Z := -5.

Record LoadSeg : Type := mkSeg { vaddr : Z; offset : Z; filesz : Z }.

Record ImageInfo : Type := mkImage {
  data : list Z;
  bias : Z;
  dyn_offset : Z;
  dyn_filesz : Z;
  segs : list LoadSeg;
}.

(** ** Reading the file *)

(** [l.get(a..b)]. *)
Definition get_range (l : list Z) (a b : Z) : option (list Z) :=
  if (a <=? b) && (b <=? Z.of_nat (length l))
  then Some (take (Z.to_nat (b - a)) (drop (Z.to_nat a) l)) else None.

Definition read_u32 (d : list Z) (off : Z) : option Z :=
  of_le_bytes <$> get_range d off (off +₃₂ 4).

Definition read_i32 (d : list Z) (off : Z) : option Z :=
  (fun v => if v <? 2147483648 then v else v - 4294967296) <$> read_u32 d off.

Definition read_u16 (d : list Z) (off : Z) : option Z :=
  of_le_bytes <$> get_range d off (off +₃₂ 2).

Definition read_u8 (d : list Z) (off : Z) : option Z := d !! Z.to_nat off.

Fixpoint vaddr_to_offset (ss : list LoadSeg) (v : Z) : option Z :=
  match ss with
  | [] => None
  | s :: ss' =>
      if (vaddr s <=? v) && (v - vaddr s <? filesz s)
      then Some (offset s +₃₂ (v - vaddr s))
      else vaddr_to_offset ss' v
  end.

(** ** The dynamic section *)

(** What the scan of the section has seen; of [needed_offsets] the first [needed_count]. *)
Record Tags : Type := mkTags {
  strtab_vaddr : option Z;
  symtab_vaddr : option Z;
  hash_vaddr : option Z;
  rel_vaddr : option Z;
  t_rel_sz : Z;
  jmprel_vaddr : option Z;
  t_jmprel_sz : Z;
  t_needed : list Z;
}.

Record DynInfo : Type := mkDyn {
  strtab_off : Z;
  symtab_off : Z;
  sym_count : Z;
  rel_off : Z;
  rel_sz : Z;
  jmprel_off : Z;
  jmprel_sz : Z;
  needed_offsets : list Z;
}.

Definition no_tags : Tags := mkTags None None None None 0 None 0 [].

Definition add_tag (tag val : Z) (t : Tags) : Tags :=
  let '(mkTags str sym hash rel rsz jmp jsz needed) := t in
  if tag =? DT_NEEDED then
    mkTags str sym hash rel rsz jmp jsz
      (if (length needed <? MAX_NEEDED_SCAN)%nat then needed ++ [val] else needed)
  else if tag =? DT_STRTAB then mkTags (Some val) sym hash rel rsz jmp jsz needed
  else if tag =? DT_SYMTAB then mkTags str (Some val) hash rel rsz jmp jsz needed
  else if tag =? DT_HASH then mkTags str sym (Some val) rel rsz jmp jsz needed
  else if tag =? DT_REL then mkTags str sym hash (Some val) rsz jmp jsz needed
  else if tag =? DT_RELSZ then mkTags str sym hash rel val jmp jsz needed
  else if tag =? DT_JMPREL then mkTags str sym hash rel rsz (Some val) jsz needed
  else if tag =? DT_PLTRELSZ then mkTags str sym hash rel rsz jmp val needed
  else t.

(** The loop over [n] entries from the [i]-th on. *)
Fixpoint dyn_loop (n : nat) (i : Z) (d : list Z) (off : Z) (t : Tags) : option Tags :=
  match n with
  | O => Some t
  | S n' =>
      let entry_off := off +₃₂ (i *₃₂ 8) in
      tag ← read_i32 d entry_off;
      val ← read_u32 d (entry_off +₃₂ 4);
      if tag =? DT_NULL then Some t
      else dyn_loop n' (i + 1) d off (add_tag tag val t)
  end.

Definition table_off (ss : list LoadSeg) (v : option Z) : option Z :=
  match v with
  | Some v => vaddr_to_offset ss v
  | None => Some 0
  end.

Definition parse_dynamic (d : list Z) (off size : Z) (ss : list LoadSeg) : option DynInfo :=
  if (size =? 0) || negb (size mod 8 =? 0) then None
  else
    t ← dyn_loop (Z.to_nat (size / 8)) 0 d off no_tags;
    strtab ← table_off ss (strtab_vaddr t);
    symtab ← table_off ss (symtab_vaddr t);
    rel ← table_off ss (rel_vaddr t);
    jmprel ← table_off ss (jmprel_vaddr t);
    count ← match v ← hash_vaddr t; vaddr_to_offset ss v with
            | Some hash_off => read_u32 d (hash_off +₃₂ 4)
            | None => Some 0
            end;
    Some (mkDyn strtab symtab count rel (t_rel_sz t) jmprel (t_jmprel_sz t) (t_needed t)).

(** The loop of [read_str]: [acc] is what [out] holds. One round more than the name may have
    bytes is enough. *)
Fixpoint str_loop (fuel : nat) (d : list Z) (start : Z) (acc : list Z) : option (list Z) :=
  match fuel with
  | O => None
  | S fuel' =>
      b ← d !! Z.to_nat (start +₃₂ Z.of_nat (length acc));
      if b =? 0 then Some acc
      else if (MAX_NAME_LEN <=? length acc)%nat then None
      else str_loop fuel' d start (acc ++ [b])
  end.

Definition read_str (d : list Z) (strtab name_off : Z) : option (list Z) :=
  str_loop (S MAX_NAME_LEN) d (strtab +₃₂ name_off) [].

(** ** The libraries an image needs *)

Record NeededName : Type := mkNeeded { n_bytes : list Z; n_len : Z }.

Definition needed_name (name : list Z) : NeededName :=
  mkNeeded (name ++ replicate (MAX_NAME_LEN - length name) 0) (Z.of_nat (length name)).

Fixpoint needed_loop (room : nat) (d : list Z) (strtab : Z) (offs : list Z) : option (list NeededName) :=
  match offs, room with
  | o :: offs', S room' =>
      name ← read_str d strtab o;
      rest ← needed_loop room' d strtab offs';
      Some (needed_name name :: rest)
  | _, _ => Some []
  end.

(** The returned number and the entries of [out] that are written. *)
Definition rust_dynlink_get_needed (d : list Z) (off size : Z) (ss : list LoadSeg) (out_len : nat)
    : Z * list NeededName :=
  match parse_dynamic d off size ss with
  | None => (ERR_MALFORMED, [])
  | Some di =>
      match needed_loop out_len d (strtab_off di) (needed_offsets di) with
      | Some out => (Z.of_nat (length (needed_offsets di)), out)
      | None => (ERR_MALFORMED, [])
      end
  end.

(** ** Symbols *)

Record Sym : Type := mkSym { st_name : Z; st_value : Z; st_info : Z; st_shndx : Z }.

(** The entry of the symbol table at a file offset. *)
Definition read_sym (d : list Z) (sym_off : Z) : option Sym :=
  name ← read_u32 d sym_off;
  value ← read_u32 d (sym_off +₃₂ 4);
  info ← read_u8 d (sym_off +₃₂ 12);
  shndx ← read_u16 d (sym_off +₃₂ 14);
  Some (mkSym name value info shndx).

Definition bind (s : Sym) : Z := Z.shiftr (st_info s) 4.

Definition names_equal (a b : list Z) : bool := bool_decide (a = b).

(** The loop over [n] symbols from the [i]-th on. *)
Fixpoint find_loop (n : nat) (i : Z) (d : list Z) (di : DynInfo) (b : Z) (name : list Z) : Z :=
  match n with
  | O => 0
  | S n' =>
      match read_sym d (symtab_off di +₃₂ (i *₃₂ SYM_ENTRY_SIZE)) with
      | None => 0
      | Some s =>
          if st_shndx s =? SHN_UNDEF then find_loop n' (i + 1) d di b name
          else if bind s =? STB_LOCAL then find_loop n' (i + 1) d di b name
          else if st_name s =? 0 then find_loop n' (i + 1) d di b name
          else
            match read_str d (strtab_off di) (st_name s) with
            | None => find_loop n' (i + 1) d di b name
            | Some this =>
                if names_equal this name then b +₃₂ st_value s
                else find_loop n' (i + 1) d di b name
            end
      end
  end.

Definition rust_dynlink_find_symbol (img : option ImageInfo) (name : list Z) : Z :=
  match img with
  | None => 0
  | Some img =>
      match parse_dynamic (data img) (dyn_offset img) (dyn_filesz img) (segs img) with
      | None => 0
      | Some di => find_loop (Z.to_nat (sym_count di)) 0 (data img) di (bias img) name
      end
  end.

(** ** Relocations *)

(** [match ... { Some(v) => v, None => return ERR_MALFORMED }]. *)
Local Notation "'try' x := o 'in' k" :=
  (match o with Some x => k | None => Err ERR_MALFORMED end)
    (at level 200, x name, o at level 100, k at level 200).

(** The value of a relocation's symbol. *)
Definition symbol_value (d : list Z) (b : Z) (di : DynInfo) (resolve : list Z -> Z) (r_sym : Z)
    : result Z Z :=
  if r_sym =? 0 then Ok 0
  else
    try s := read_sym d (symtab_off di +₃₂ (r_sym *₃₂ SYM_ENTRY_SIZE)) in
    if negb (st_shndx s =? SHN_UNDEF) then Ok (b +₃₂ st_value s)
    else
      try name := read_str d (strtab_off di) (st_name s) in
      let resolved := resolve name in
      if resolved =? 0 then
        if bind s =? STB_WEAK then Ok 0 else Err ERR_UNRESOLVED_SYMBOL
      else Ok resolved.

(** The word a relocation of type [r_type] at [r_offset] puts there. *)
Definition reloc_value (d : list Z) (ss : list LoadSeg) (b : Z) (di : DynInfo)
    (resolve : list Z -> Z) (r_offset r_sym r_type : Z) : result Z Z :=
  try addend_off := vaddr_to_offset ss r_offset in
  try addend := read_u32 d addend_off in
  if r_type =? R_386_RELATIVE then Ok (b +₃₂ addend)
  else if (r_type =? R_386_32) || (r_type =? R_386_GLOB_DAT) || (r_type =? R_386_JMP_SLOT)
          || (r_type =? R_386_PC32) then
    match symbol_value d b di resolve r_sym with
    | Err e => Err e
    | Ok sym =>
        Ok (if r_type =? R_386_PC32 then (sym +₃₂ addend) -₃₂ (r_offset +₃₂ b)
            else if r_type =? R_386_32 then sym +₃₂ addend
            else sym)
    end
  else Err ERR_UNSUPPORTED_RELOC_TYPE.

Section Relocate.
Context {M : Type}.
Variable resolve : list Z -> Z.
Variable write : Z -> Z -> M -> bool * M.

(** The loop over [n] entries from the [i]-th on. *)
Fixpoint rel_loop (n : nat) (i : Z) (d : list Z) (ss : list LoadSeg) (b : Z) (di : DynInfo)
    (off : Z) (s : M) : Z * M :=
  match n with
  | O => (OK, s)
  | S n' =>
      let entry_off := off +₃₂ (i *₃₂ REL_ENTRY_SIZE) in
      match read_u32 d entry_off, read_u32 d (entry_off +₃₂ 4) with
      | Some r_offset, Some r_info =>
          let r_sym := Z.shiftr r_info 8 in
          let r_type := Z.land r_info 255 in
          if r_type =? R_386_NONE then rel_loop n' (i + 1) d ss b di off s
          else if r_type =? R_386_COPY then (ERR_UNSUPPORTED_COPY_RELOC, s)
          else
            match reloc_value d ss b di resolve r_offset r_sym r_type with
            | Err e => (e, s)
            | Ok value =>
                let '(ok, s) := write (b +₃₂ r_offset) value s in
                if ok then rel_loop n' (i + 1) d ss b di off s else (ERR_WRITE_FAILED, s)
            end
      | _, _ => (ERR_MALFORMED, s)
      end
  end.

Definition apply_rel_table (d : list Z) (ss : list LoadSeg) (b : Z) (di : DynInfo) (off size : Z)
    (s : M) : Z * M :=
  if size =? 0 then (OK, s)
  else if negb (size mod REL_ENTRY_SIZE =? 0) then (ERR_MALFORMED, s)
  else rel_loop (Z.to_nat (size / REL_ENTRY_SIZE)) 0 d ss b di off s.

Definition rust_dynlink_apply_relocations (img : option ImageInfo) (s : M) : Z * M :=
  match img with
  | None => (ERR_MALFORMED, s)
  | Some img =>
      match parse_dynamic (data img) (dyn_offset img) (dyn_filesz img) (segs img) with
      | None => (ERR_MALFORMED, s)
      | Some di =>
          let '(rc, s) :=
            apply_rel_table (data img) (segs img) (bias img) di (rel_off di) (rel_sz di) s in
          if negb (rc =? OK) then (rc, s)
          else apply_rel_table (data img) (segs img) (bias img) di (jmprel_off di) (jmprel_sz di) s
      end
  end.
End Relocate.

(** ** The ELF loader *)

Definition ET_EXEC : Z := 2.
Definition ET_DYN : Z := 3.
Definition EM_386 : Z := 3.
Definition PT_LOAD : Z := 1.
Definition PT_DYNAMIC : Z := 2.
Definition PF_W : Z := 2.
Definition HEADER_SIZE : Z := 52.
Definition PHDR_SIZE : Z := 32.
Definition MAX_LOAD_SEGS : nat := 8.
Definition PAGE_SIZE : Z := 4096.
Definition PAGE_PRESENT : Z := 1.
Definition PAGE_WRITE : Z := 2.
Definition PAGE_USER : Z := 4.

(** A field of [n] bytes of a structure laid over the file. *)
Definition field (d : list Z) (off : Z) (n : nat) : outcome Z :=
  if off + Z.of_nat n <=? Z.of_nat (length d)
  then Done (of_le_bytes (take n (drop (Z.to_nat off) d))) else Panic.

Record Phdr : Type := mkPhdr {
  p_type : Z;
  p_offset : Z;
  p_vaddr : Z;
  p_filesz : Z;
  p_memsz : Z;
  p_flags : Z;
}.

Definition program_header (d : list Z) (e_phoff i : Z) : outcome Phdr :=
  let at_ := e_phoff + i * PHDR_SIZE in
  ty ← field d at_ 4;
  off ← field d (at_ + 4) 4;
  va ← field d (at_ + 8) 4;
  fsz ← field d (at_ + 16) 4;
  msz ← field d (at_ + 20) 4;
  fl ← field d (at_ + 24) 4;
  Done (mkPhdr ty off va fsz msz fl).

(** The checks of the header, up to the types of file that are allowed. *)
Definition header_ok (types : list Z) (d : list Z) : outcome bool :=
  if Z.of_nat (length d) <? HEADER_SIZE then Done false
  else
    magic ← field d 0 4;
    class ← field d 4 1;
    endian ← field d 5 1;
    ty ← field d 16 2;
    machine ← field d 18 2;
    phoff ← field d 28 4;
    phnum ← field d 44 2;
    Done ((magic =? of_le_bytes [127; 69; 76; 70]) && (class =? 1) && (endian =? 1)
          && bool_decide (ty ∈ types) && (machine =? EM_386)
          && negb (phoff =? 0) && negb (phnum =? 0)).

Definition elf_validate (d : list Z) : outcome bool := header_ok [ET_EXEC] d.

Record elf_image : Type := mkElf {
  i_segs : list LoadSeg;
  has_dynamic : bool;
  i_dyn_offset : Z;
  i_dyn_filesz : Z;
  entry_point : Z;
  is_dyn : bool;
}.

(** The checks of a [PT_LOAD] header. *)
Definition segment_ok (d : list Z) (ph : Phdr) : bool :=
  (p_filesz ph <=? p_memsz ph) && (p_offset ph + p_filesz ph <=? Z.of_nat (length d)).

(** One program header in [elf_inspect]. *)
Definition inspect_header (d : list Z) (ph : Phdr) (img : elf_image) : option elf_image :=
  if p_type ph =? PT_DYNAMIC then
    if p_offset ph + p_filesz ph <=? Z.of_nat (length d)
    then Some (mkElf (i_segs img) true (p_offset ph) (p_filesz ph) (entry_point img) (is_dyn img))
    else None
  else if negb (p_type ph =? PT_LOAD) then Some img
  else if negb (segment_ok d ph) then None
  else if (MAX_LOAD_SEGS <=? length (i_segs img))%nat then None
  else Some (mkElf (i_segs img ++ [mkSeg (p_vaddr ph) (p_offset ph) (p_filesz ph)])
               (has_dynamic img) (i_dyn_offset img) (i_dyn_filesz img) (entry_point img) (is_dyn img)).

Fixpoint inspect_loop (n : nat) (i : Z) (d : list Z) (e_phoff : Z) (img : elf_image)
    : outcome (option elf_image) :=
  match n with
  | O => Done (Some img)
  | S n' =>
      ph ← program_header d e_phoff i;
      match inspect_header d ph img with
      | Some img => inspect_loop n' (i + 1) d e_phoff img
      | None => Done None
      end
  end.

Definition elf_inspect (d : list Z) : outcome (option elf_image) :=
  ok ← header_ok [ET_EXEC; ET_DYN] d;
  if negb ok then Done None
  else
    ty ← field d 16 2;
    entry ← field d 24 4;
    phoff ← field d 28 4;
    phnum ← field d 44 2;
    if Z.of_nat (length d) <? phoff + phnum * PHDR_SIZE then Done None
    else inspect_loop (Z.to_nat phnum) 0 d phoff (mkElf [] false 0 0 entry (ty =? ET_DYN)).

(** What the loader asks of the memory manager about the address space it builds:
    [paging_map_page] on its page directory, [walk] the frame behind a page if directory and
    table entry are present, and stores through the identity map of frames. *)
Class Vm (M : Type) : Type := {
  pmm_alloc_frame : M -> Z * M;
  paging_map_page : Z -> Z -> Z -> M -> bool * M;
  memset_frame : Z -> M -> M;
  walk : M -> Z -> option Z;
  memcpy_to : Z -> list Z -> M -> M;
}.

Definition page_base (v : Z) : Z := Z.land v 4294963200.

Section Loader.
Context `{Vm M}.

(** [for (page_addr = seg_start; page_addr < seg_end; page_addr += 4096)]. *)
Fixpoint map_loop (n : nat) (page_addr flags : Z) (s : M) : bool * M :=
  match n with
  | O => (true, s)
  | S n' =>
      let '(frame, s) := pmm_alloc_frame s in
      if frame =? 0 then (false, s)
      else
        let '(_, s) := paging_map_page page_addr frame flags s in
        map_loop n' (page_addr +₃₂ PAGE_SIZE) flags (memset_frame frame s)
  end.

(** [while (bytes_remaining > 0)]: a round copies up to the end of a page, so that the first
    is followed by one for each 4096 bytes at most. *)
Fixpoint copy_loop (fuel : nat) (d : list Z) (bytes_remaining file_pos dest_vaddr : Z) (s : M)
    : outcome M :=
  match fuel with
  | O => Done s
  | S fuel' =>
      if bytes_remaining <=? 0 then Done s
      else
        let page_offset := dest_vaddr -₃₂ page_base dest_vaddr in
        match walk s (page_base dest_vaddr) with
        | None => Panic
        | Some frame =>
            let chunk := Z.min (PAGE_SIZE - page_offset) bytes_remaining in
            bytes ← range d (Z.to_nat file_pos) (Z.to_nat (file_pos + chunk));
            copy_loop fuel' d (bytes_remaining - chunk) (file_pos +₃₂ chunk) (dest_vaddr +₃₂ chunk)
              (memcpy_to (frame + page_offset) bytes s)
        end
  end.

(** Maps and fills one segment at [va]; [size] is what is mapped, [fsz] what is copied. *)
Definition load_segment (d : list Z) (va size flags off fsz : Z) (s : M) : outcome (bool * M) :=
  let seg_start := page_base va in
  let seg_end := page_base (wrap32 (va + size + 4095)) in
  let '(ok, s) := map_loop (Z.to_nat ((seg_end - seg_start) / PAGE_SIZE)) seg_start flags s in
  if negb ok then Done (false, s)
  else
    s ← copy_loop (Z.to_nat (fsz / PAGE_SIZE + 2)) d fsz off va s;
    Done (true, s).

Definition segment_flags (ph : Phdr) : Z :=
  Z.lor (Z.lor PAGE_PRESENT PAGE_USER)
        (if negb (Z.land (p_flags ph) PF_W =? 0) then PAGE_WRITE else 0).

Fixpoint load_loop (n : nat) (i : Z) (d : list Z) (e_phoff : Z) (s : M) : outcome (bool * M) :=
  match n with
  | O => Done (true, s)
  | S n' =>
      ph ← program_header d e_phoff i;
      if negb (p_type ph =? PT_LOAD) then load_loop n' (i + 1) d e_phoff s
      else if negb (segment_ok d ph) then Done (false, s)
      else
        '(ok, s) ← load_segment d (p_vaddr ph) (p_memsz ph) (segment_flags ph) (p_offset ph)
                     (p_filesz ph) s;
        if (ok : bool) then load_loop n' (i + 1) d e_phoff s else Done (false, s)
  end.

(** The entry point, if the program was loaded. *)
Definition elf_load (d : list Z) (s : M) : outcome (option Z * M) :=
  ok ← elf_validate d;
  if negb ok then Done (None, s)
  else
    entry ← field d 24 4;
    phoff ← field d 28 4;
    phnum ← field d 44 2;
    if Z.of_nat (length d) <? phoff + phnum * PHDR_SIZE then Done (None, s)
    else
      '(ok, s) ← load_loop (Z.to_nat phnum) 0 d phoff s;
      Done (if (ok : bool) then Some entry else None, s).

Fixpoint elf_load_segments_biased (d : list Z) (b : Z) (ss : list LoadSeg) (s : M)
    : outcome (bool * M) :=
  match ss with
  | [] => Done (true, s)
  | seg :: ss' =>
      '(ok, s) ← load_segment d (b +₃₂ vaddr seg) (filesz seg)
                   (Z.lor (Z.lor PAGE_PRESENT PAGE_WRITE) PAGE_USER) (offset seg) (filesz seg) s;
      if (ok : bool) then elf_load_segments_biased d b ss' s else Done (false, s)
  end.

(** ** Programs and their libraries *)

Definition MAX_SHARED_LIBS : nat := 8.
Definition LIB_VIRT_BASE : Z := 268435456.
Definition LIB_SLOT_SIZE : Z := 4194304.
Definition LIB_FILE_BUFFER_SIZE : nat := Z.to_nat 524288.
Definition ELF_BUFFER_SIZE : nat := Z.to_nat 2097152.

Definition write_word_checked (va value : Z) (s : M) : bool * M :=
  let page_offset := va -₃₂ page_base va in
  if PAGE_SIZE - 4 <? page_offset then (false, s)
  else
    match walk s (page_base va) with
    | None => (false, s)
    | Some frame => (true, memcpy_to (frame + page_offset) (le_bytes 4 value) s)
    end.

Record loaded_lib : Type := mkLib { l_name : list Z; l_data : list Z; l_bias : Z; l_image : elf_image }.

Definition image_info (d : list Z) (b : Z) (img : elf_image) : ImageInfo :=
  mkImage d b (i_dyn_offset img) (i_dyn_filesz img) (i_segs img).

Definition lib_info (l : loaded_lib) : ImageInfo := image_info (l_data l) (l_bias l) (l_image l).

Fixpoint resolve_libs (libs : list loaded_lib) (name : list Z) : Z :=
  match libs with
  | [] => 0
  | l :: libs' =>
      let addr := rust_dynlink_find_symbol (Some (lib_info l)) name in
      if negb (addr =? 0) then addr else resolve_libs libs' name
  end.

Definition dynlink_resolve_cb (main : ImageInfo) (libs : list loaded_lib) (name : list Z) : Z :=
  let addr := rust_dynlink_find_symbol (Some main) name in
  if negb (addr =? 0) then addr else resolve_libs libs name.

(** The names that join the queue: [n] of those in the array [names], from the [i]-th on;
    [None] if one is refused. *)
Fixpoint enqueue (n i : nat) (names : list NeededName) (queue : list (list Z))
    : outcome (option (list (list Z))) :=
  match n with
  | O => Done (Some queue)
  | S n' =>
      if (MAX_SHARED_LIBS <=? length queue)%nat then Done None
      else
        name ← index names i;
        if (n_len name =? 0) || (12 <? n_len name) then Done None
        else enqueue n' (i + 1) names (queue ++ [take (Z.to_nat (n_len name)) (n_bytes name)])
  end.

Section Exec.
Context `{Vfs F}.
Variable fs : F.

(** The library [name] is read, checked and mapped in slot [slot]; [None] if that fails. *)
Definition load_library (name : list Z) (slot : nat) (s : M) : outcome (option loaded_lib * M) :=
  let '(file_size, buf) := vfs_read_file name LIB_FILE_BUFFER_SIZE fs in
  if file_size <=? 0 then Done (None, s)
  else
    let d := take (Z.to_nat file_size) buf in
    img ← elf_inspect d;
    match img with
    | None => Done (None, s)
    | Some img =>
        if negb (is_dyn img) then Done (None, s)
        else if negb (has_dynamic img) then Done (None, s)
        else
          let b := LIB_VIRT_BASE +₃₂ (Z.of_nat slot *₃₂ LIB_SLOT_SIZE) in
          '(ok, s) ← elf_load_segments_biased d b (i_segs img) s;
          Done (if (ok : bool) then Some (mkLib name d b img) else None, s)
    end.

(** [while (queue_pos < queue_len)]. A round takes a name from the queue, which never has more
    than [MAX_SHARED_LIBS]. *)
Fixpoint queue_loop (fuel : nat) (queue : list (list Z)) (pos : nat) (libs : list loaded_lib) (s : M)
    : outcome (option (list loaded_lib) * M) :=
  match queue !! pos, fuel with
  | None, _ => Done (Some libs, s)
  | Some _, O => Panic
  | Some name, S fuel' =>
      if existsb (fun l => bool_decide (l_name l = name)) libs
      then queue_loop fuel' queue (pos + 1) libs s
      else if (MAX_SHARED_LIBS <=? length libs)%nat then Done (None, s)
      else
        '(lib, s) ← load_library name (length libs) s;
        match lib with
        | None => Done (None, s)
        | Some lib =>
            let '(ln, names) :=
              rust_dynlink_get_needed (l_data lib) (i_dyn_offset (l_image lib))
                (i_dyn_filesz (l_image lib)) (i_segs (l_image lib)) MAX_SHARED_LIBS in
            if ln <? 0 then Done (None, s)
            else
              queue ← enqueue (Z.to_nat ln) 0 names queue;
              match queue with
              | None => Done (None, s)
              | Some queue => queue_loop fuel' queue (pos + 1) (libs ++ [lib]) s
              end
        end
  end.

(** Relocates one image after the other. *)
Fixpoint relocate_all (resolve : list Z -> Z) (imgs : list ImageInfo) (s : M) : bool * M :=
  match imgs with
  | [] => (true, s)
  | img :: imgs' =>
      let '(rc, s) := rust_dynlink_apply_relocations resolve write_word_checked (Some img) s in
      if negb (rc =? 0) then (false, s) else relocate_all resolve imgs' s
  end.

(** The libraries, if everything was loaded and linked. *)
Definition load_and_link_shared_libraries (d : list Z) (img : elf_image) (s : M)
    : outcome (option (list loaded_lib) * M) :=
  let '(n, names) :=
    rust_dynlink_get_needed d (i_dyn_offset img) (i_dyn_filesz img) (i_segs img) MAX_SHARED_LIBS in
  if n <? 0 then Done (None, s)
  else if Z.of_nat MAX_SHARED_LIBS <? n then Done (None, s)
  else
    queue ← enqueue (Z.to_nat n) 0 names [];
    match queue with
    | None => Done (None, s)
    | Some queue =>
        '(libs, s) ← queue_loop MAX_SHARED_LIBS queue 0 [] s;
        match libs with
        | None => Done (None, s)
        | Some libs =>
            let main := image_info d 0 img in
            let '(ok, s) :=
              relocate_all (dynlink_resolve_cb main libs) (main :: (lib_info <$> libs)) s in
            Done (if ok then Some libs else None, s)
        end
    end.

(** The part of [process_exec_internal] that reads the program and builds its address space,
    without the process slot and the kernel stack it allocates in between: the entry point and
    the libraries, if the program can be started. *)
Definition exec_image (path : list Z) (s : M) : outcome (option (Z * list loaded_lib) * M) :=
  let '(file_size, buf) := vfs_read_file path ELF_BUFFER_SIZE fs in
  if file_size <=? 0 then Done (None, s)
  else
    let d := take (Z.to_nat file_size) buf in
    valid ← elf_validate d;
    if negb valid then Done (None, s)
    else
      '(entry, s) ← elf_load d s;
      match (entry : option Z) with
      | None => Done (None, s)
      | Some entry =>
          img ← elf_inspect d;
          match img with
          | Some img =>
              if has_dynamic img then
                '(libs, s) ← load_and_link_shared_libraries d img s;
                Done (match libs with Some libs => Some (entry, libs) | None => None end, s)
              else Done (Some (entry, []), s)
          | None => Done (Some (entry, []), s)
          end
      end.
End Exec.
End Loader.
