(* ===== verification/DynlinkSpec.v ===== *)
(** * What the files of a program say

    The dynamic section of an image as a list of entries, its symbols as a list and its
    relocations with the meaning the i386 ABI gives them; and that dynlink.rs reads the
    files so. *)

From S2P Require Import Prelude Bytes Update Dynlink.
Local Open Scope Z_scope.
Local Open Scope machine_scope.

(** ** The dynamic section *)

(** The entries before the first [DT_NULL], if they can be read. *)
Fixpoint dyn_entries (n : nat) (i : Z) (d : list Z) (off : Z) : option (list (Z * Z)) :=
  match n with
  | O => Some []
  | S n' =>
      let entry_off := off +₃₂ (i *₃₂ 8) in
      tag ← read_i32 d entry_off;
      val ← read_u32 d (entry_off +₃₂ 4);
      if tag =? DT_NULL then Some []
      else cons (tag, val) <$> dyn_entries n' (i + 1) d off
  end.

Lemma dyn_loop_entries n i d off t :
  dyn_loop n i d off t = foldl (fun t e => add_tag e.1 e.2 t) t <$> dyn_entries n i d off.
Proof.
  revert i t. induction n as [|n IH]; intros i t; [done|]. cbn [dyn_loop dyn_entries]. cbv zeta.
  destruct (read_i32 _ _) as [tag|]; [|done]. cbn [mbind option_bind].
  destruct (read_u32 _ _) as [val|]; [|done]. cbn [mbind option_bind].
  destruct (tag =? DT_NULL); [done|]. rewrite IH. by destruct (dyn_entries n (i + 1) d off).
Qed.

(** The string table offsets of the needed libraries. *)
Definition needed_of (es : list (Z * Z)) : list Z :=
  omap (fun e => if e.1 =? DT_NEEDED then Some e.2 else None) es.

(** The scan keeps the first [MAX_NEEDED_SCAN] of them. *)
Lemma tags_needed es t :
  t_needed (foldl (fun t e => add_tag e.1 e.2 t) t es) =
  t_needed t ++ take (MAX_NEEDED_SCAN - length (t_needed t)) (needed_of es).
Proof.
  revert t. induction es as [|[tag val] es IH]; intros t; [by destruct (_ - _)%nat; rewrite app_nil_r|].
  cbn [foldl fst snd needed_of omap list_omap]. rewrite IH. fold (needed_of es).
  destruct t as [str sym hash rel rsz jmp jsz needed]. unfold add_tag.
  destruct (tag =? DT_NEEDED) eqn:E.
  - cbn [t_needed]. destruct (length needed <? MAX_NEEDED_SCAN)%nat eqn:El.
    + rewrite length_app. cbn [length].
      replace (MAX_NEEDED_SCAN - length needed)%nat
        with (S (MAX_NEEDED_SCAN - (length needed + 1)))%nat by lia.
      by rewrite <- app_assoc.
    + by replace (MAX_NEEDED_SCAN - length needed)%nat with 0%nat by lia.
  - repeat case_match; reflexivity.
Qed.

(** ** Strings *)

(** A byte string that the file has at [start], ended by a NUL. *)
Definition c_string (d : list Z) (start : Z) (name : list Z) : Prop :=
  0 ∉ name /\ exists rest, drop (Z.to_nat start) d = name ++ 0 :: rest.

Lemma str_loop_spec fuel d start acc name :
  0 <= start -> start + Z.of_nat (length acc) < 4294967296 -> Z.of_nat (length d) < 2147483648 ->
  (length acc + fuel = S MAX_NAME_LEN)%nat ->
  str_loop fuel d start acc = Some name <->
  exists tail rest, name = acc ++ tail /\ (length name <= MAX_NAME_LEN)%nat /\ 0 ∉ tail /\
    drop (Z.to_nat start + length acc) d = tail ++ 0 :: rest.
Proof.
  intros Hs Hw Hd. revert acc Hw. induction fuel as [|fuel IH]; intros acc Hw Hf; cbn [str_loop].
  { split; [done|]. intros (tail & rest & -> & Hl & _). rewrite length_app in Hl. lia. }
  rewrite wrap32_id by (unfold is_u32; lia). rewrite Z2Nat.inj_add, Nat2Z.id by lia.
  destruct (d !! _) as [b|] eqn:E; cbn [mbind option_bind].
  2: { split; [done|]. intros (tail & rest & _ & _ & _ & Ht).
       apply lookup_ge_None in E. rewrite drop_ge in Ht by done. by destruct tail. }
  apply drop_S in E as Hdr. pose proof (lookup_lt_Some _ _ _ E).
  destruct (b =? 0) eqn:Eb; [|destruct (MAX_NAME_LEN <=? length acc)%nat eqn:El].
  - apply Z.eqb_eq in Eb as ->. split.
    + intros [= <-]. exists [], (drop (S (Z.to_nat start + length acc)) d).
      rewrite app_nil_r, Hdr. split; [done|]. split; [lia|]. split; [apply not_elem_of_nil|done].
    + intros ([|x tail] & rest & -> & Hl & Hn & Ht); [by rewrite app_nil_r|].
      rewrite Hdr in Ht. simplify_eq/=. set_solver.
  - split; [done|]. intros ([|x tail] & rest & -> & Hl & Hn & Ht); rewrite Hdr in Ht.
    { injection Ht as -> _. discriminate. }
    rewrite length_app in Hl. cbn [length] in Hl. apply Nat.leb_le in El. lia.
  - rewrite IH by (rewrite length_app; simpl; lia). rewrite length_app. cbn [length].
    replace (Z.to_nat start + (length acc + 1))%nat with (S (Z.to_nat start + length acc)) by lia. split.
    + intros (tail & rest & -> & Hl & Hn & Ht). exists (b :: tail), rest. rewrite Hdr, Ht.
      split; [by rewrite <- app_assoc|]. split; [done|]. split; [|done]. rewrite not_elem_of_cons. split; [lia|done].
    + intros ([|x tail] & rest & -> & Hl & Hn & Ht); rewrite Hdr in Ht.
      { injection Ht as -> _. discriminate. }
      injection Ht as -> Ht. exists tail, rest. split; [by rewrite <- app_assoc|]. split; [done|]. split; [set_solver|done].
Qed.

(** [read_str] reads the strings of at most [MAX_NAME_LEN] bytes. *)
Lemma read_str_spec d strtab o name :
  Z.of_nat (length d) < 2147483648 ->
  read_str d strtab o = Some name <->
  c_string d (strtab +₃₂ o) name /\ (length name <= MAX_NAME_LEN)%nat.
Proof.
  intros Hd. pose proof (wrap32_u32 (strtab + o)) as [? ?]. unfold read_str.
  rewrite str_loop_spec by (simpl; unfold MAX_NAME_LEN; lia). cbn [length]. rewrite Nat.add_0_r.
  unfold c_string. naive_solver.
Qed.

(** ** Symbols *)

(** The symbol table, up to an entry that cannot be read. *)
Fixpoint read_syms (n : nat) (i : Z) (d : list Z) (off : Z) : list Sym :=
  match n with
  | O => []
  | S n' =>
      match read_sym d (off +₃₂ (i *₃₂ SYM_ENTRY_SIZE)) with
      | Some s => s :: read_syms n' (i + 1) d off
      | None => []
      end
  end.

(** A defined, global symbol of that name. *)
Definition exports (d : list Z) (strtab : Z) (name : list Z) (s : Sym) : bool :=
  negb (st_shndx s =? SHN_UNDEF) && negb (bind s =? STB_LOCAL) && negb (st_name s =? 0)
  && bool_decide (read_str d strtab (st_name s) = Some name).

Definition dynamic (img : ImageInfo) : option DynInfo :=
  parse_dynamic (data img) (dyn_offset img) (dyn_filesz img) (segs img).

(** The symbol of that name which an image offers to the others. *)
Definition definition (img : ImageInfo) (name : list Z) : option Sym :=
  di ← dynamic img;
  List.find (exports (data img) (strtab_off di) name)
    (read_syms (Z.to_nat (sym_count di)) 0 (data img) (symtab_off di)).

Lemma find_sym_spec n i d di b name :
  find_loop n i d di b name =
  match List.find (exports d (strtab_off di) name) (read_syms n i d (symtab_off di)) with
  | Some s => b +₃₂ st_value s
  | None => 0
  end.
Proof.
  revert i. induction n as [|n IH]; intros i; [done|]. cbn [find_loop read_syms].
  destruct (read_sym _ _) as [s|]; [|done]. cbn [List.find]. unfold exports at 1, names_equal.
  destruct (st_shndx s =? SHN_UNDEF); [exact (IH _)|].
  destruct (bind s =? STB_LOCAL); [exact (IH _)|].
  destruct (st_name s =? 0); [exact (IH _)|]. cbn [negb andb].
  destruct (read_str _ _ _) as [this|]; [|by rewrite bool_decide_eq_false_2].
  destruct (decide (this = name)) as [->|Hne]; [by rewrite !bool_decide_eq_true_2|].
  rewrite !bool_decide_eq_false_2 by congruence. exact (IH _).
Qed.

Lemma find_symbol_spec img name :
  rust_dynlink_find_symbol (Some img) name =
  match definition img name with Some s => bias img +₃₂ st_value s | None => 0 end.
Proof.
  unfold rust_dynlink_find_symbol, definition, dynamic.
  destruct (parse_dynamic _ _ _ _) as [di|]; [apply find_sym_spec|done].
Qed.

(** The address an image gives to a name: address 0 is none. *)
Definition address_in (name : list Z) (img : ImageInfo) : option Z :=
  s ← definition img name;
  let a := bias img +₃₂ st_value s in if a =? 0 then None else Some a.

(** The first image that has the name decides. *)
Definition scope_address (imgs : list ImageInfo) (name : list Z) : Z :=
  default 0 (head (omap (address_in name) imgs)).

Lemma scope_cons img imgs name :
  scope_address (img :: imgs) name =
  let a := rust_dynlink_find_symbol (Some img) name in
  if negb (a =? 0) then a else scope_address imgs name.
Proof.
  unfold scope_address. cbn [omap list_omap]. rewrite find_symbol_spec. unfold address_in at 1.
  destruct (definition img name) as [s|]; [|done]. cbn [mbind option_bind]. cbv zeta.
  by destruct (_ =? 0) eqn:E.
Qed.

(** The search of the kernel: the program first, then its libraries as they were loaded. *)
Lemma resolve_spec main libs name :
  dynlink_resolve_cb main libs name = scope_address (main :: (lib_info <$> libs)) name.
Proof.
  rewrite scope_cons. unfold dynlink_resolve_cb. cbv zeta. case_match; [done|].
  induction libs as [|l libs IH]; [done|]. cbn [fmap list_fmap resolve_libs]. rewrite scope_cons. cbv zeta.
  case_match; [done|]. exact IH.
Qed.

(** ** Relocations *)

Record Rel : Type := mkRel { r_offset : Z; r_info : Z }.
Definition r_sym (r : Rel) : Z := Z.shiftr (r_info r) 8.
Definition r_type (r : Rel) : Z := Z.land (r_info r) 255.

Fixpoint read_rels (n : nat) (i : Z) (d : list Z) (off : Z) : option (list Rel) :=
  match n with
  | O => Some []
  | S n' =>
      let entry_off := off +₃₂ (i *₃₂ REL_ENTRY_SIZE) in
      o ← read_u32 d entry_off;
      info ← read_u32 d (entry_off +₃₂ 4);
      cons (mkRel o info) <$> read_rels n' (i + 1) d off
  end.

Definition rel_table (d : list Z) (off size : Z) : option (list Rel) :=
  if size mod REL_ENTRY_SIZE =? 0 then read_rels (Z.to_nat (size / REL_ENTRY_SIZE)) 0 d off else None.

(** Both tables of an image. *)
Definition relocations (img : ImageInfo) : option (list Rel) :=
  di ← dynamic img;
  l1 ← rel_table (data img) (rel_off di) (rel_sz di);
  l2 ← rel_table (data img) (jmprel_off di) (jmprel_sz di);
  Some (l1 ++ l2).

(** The calculations of the i386 ABI: symbol value, addend, load address, place. *)
Definition abi_value (type sym addend base place : Z) : option Z :=
  match type with
  | 1 => Some (sym + addend)
  | 2 => Some (sym + addend - place)
  | 6 | 7 => Some sym
  | 8 => Some (base + addend)
  | _ => None
  end.

Section Meaning.
Variables (img : ImageInfo) (di : DynInfo) (resolve : list Z -> Z).

(** The value of a symbol of the image: its own definition if it has one, otherwise what the
    name resolves to; a weak symbol may be missing. *)
Inductive sym_means : Z -> Z -> Prop :=
| sym_none : sym_means 0 0
| sym_own i s :
    i <> 0 -> read_sym (data img) (symtab_off di +₃₂ (i *₃₂ SYM_ENTRY_SIZE)) = Some s ->
    st_shndx s <> SHN_UNDEF -> sym_means i (bias img +₃₂ st_value s)
| sym_found i s name :
    i <> 0 -> read_sym (data img) (symtab_off di +₃₂ (i *₃₂ SYM_ENTRY_SIZE)) = Some s ->
    st_shndx s = SHN_UNDEF -> read_str (data img) (strtab_off di) (st_name s) = Some name ->
    resolve name <> 0 -> sym_means i (resolve name)
| sym_weak i s name :
    i <> 0 -> read_sym (data img) (symtab_off di +₃₂ (i *₃₂ SYM_ENTRY_SIZE)) = Some s ->
    st_shndx s = SHN_UNDEF -> read_str (data img) (strtab_off di) (st_name s) = Some name ->
    resolve name = 0 -> bind s = STB_WEAK -> sym_means i 0.

(** What a relocation stores where, if anything. *)
Inductive rel_means (r : Rel) : option (Z * Z) -> Prop :=
| rel_nothing : r_type r = R_386_NONE -> rel_means r None
| rel_word addend_off addend sym v :
    vaddr_to_offset (segs img) (r_offset r) = Some addend_off ->
    read_u32 (data img) addend_off = Some addend ->
    (r_type r = R_386_RELATIVE \/ sym_means (r_sym r) sym) ->
    abi_value (r_type r) sym addend (bias img) (bias img + r_offset r) = Some v ->
    rel_means r (Some (bias img +₃₂ r_offset r, wrap32 v)).

Lemma symbol_value_spec i v :
  symbol_value (data img) (bias img) di resolve i = Ok v <-> sym_means i v.
Proof.
  unfold symbol_value. destruct (i =? 0) eqn:Ei.
  { apply Z.eqb_eq in Ei as ->. split; [intros [= <-]; constructor|]. by inversion 1. }
  apply Z.eqb_neq in Ei. split.
  - repeat (case_match; try done); intros [= <-];
      first [ eapply sym_own; (done || lia) | eapply sym_weak; (done || lia)
            | eapply sym_found; (done || lia) ].
  - assert (En : forall s, st_shndx s = SHN_UNDEF -> st_shndx s =? SHN_UNDEF = true) by (intros; lia).
    inversion 1 as [|? s ? Hs Hu|? s name ? Hs Hu Hn Hr|? s name ? Hs Hu Hn Hr Hw]; simplify_eq; rewrite Hs.
    + by assert (st_shndx s =? SHN_UNDEF = false) as -> by lia.
    + rewrite (En _ Hu). cbn [negb]. rewrite Hn. by assert (resolve name =? 0 = false) as -> by lia.
    + rewrite (En _ Hu). cbn [negb]. rewrite Hn. assert (resolve name =? 0 = true) as -> by lia.
      by assert (bind s =? STB_WEAK = true) as -> by lia.
Qed.

Hypothesis resolve_u32 : forall name, is_u32 (resolve name).

Lemma sym_means_u32 i v : sym_means i v -> is_u32 v.
Proof. destruct 1; solve [apply wrap32_u32 | apply resolve_u32 | unfold is_u32; lia]. Qed.

Lemma wrap32_add_l a b : (a +₃₂ b) = wrap32 (wrap32 a + b).
Proof. unfold wrap32. by rewrite Zplus_mod_idemp_l. Qed.

Lemma pc32_wrap sym addend o b :
  (sym +₃₂ addend) -₃₂ (o +₃₂ b) = wrap32 (sym + addend - (b + o)).
Proof. unfold wrap32. rewrite Zminus_mod_idemp_r, Zminus_mod_idemp_l. f_equal. lia. Qed.

Lemma abi_value_some ty sym addend b p v :
  abi_value ty sym addend b p = Some v ->
  (ty = R_386_32 /\ v = sym + addend) \/ (ty = R_386_PC32 /\ v = sym + addend - p) \/
  ((ty = R_386_GLOB_DAT \/ ty = R_386_JMP_SLOT) /\ v = sym) \/ (ty = R_386_RELATIVE /\ v = b + addend).
Proof. unfold abi_value. repeat (case_match; try done); intros [= <-]; tauto. Qed.

Lemma reloc_value_spec r v :
  r_type r <> R_386_NONE ->
  reloc_value (data img) (segs img) (bias img) di resolve (r_offset r) (r_sym r) (r_type r) = Ok v <->
  rel_means r (Some (bias img +₃₂ r_offset r, v)).
Proof.
  intros Hn. unfold reloc_value. split.
  - destruct (vaddr_to_offset _ _) as [o|] eqn:Eo; [|done].
    destruct (read_u32 _ _) as [addend|] eqn:Ea; [|done].
    destruct (r_type r =? R_386_RELATIVE) eqn:E8.
    { apply Z.eqb_eq in E8. intros [= <-]. eapply rel_word; [done..|by left|by rewrite E8]. Unshelve. exact 0. }
    destruct (_ || _) eqn:Et; [|done].
    destruct (symbol_value _ _ _ _ _) as [sym|] eqn:Es; [|done]. intros [= <-].
    apply symbol_value_spec in Es. pose proof (sym_means_u32 _ _ Es).
    destruct (r_type r =? R_386_PC32) eqn:E2; [|destruct (r_type r =? R_386_32) eqn:E1].
    + apply Z.eqb_eq in E2. rewrite pc32_wrap. eapply rel_word; [done..|by right|by rewrite E2].
    + apply Z.eqb_eq in E1. eapply rel_word; [done..|by right|by rewrite E1].
    + rewrite <- (wrap32_id sym) by done. eapply rel_word; [done..|by right|].
      assert (r_type r = R_386_GLOB_DAT \/ r_type r = R_386_JMP_SLOT) as [-> | ->] by lia; done.
  - intros Hm. inversion Hm as [|o addend sym v' Ho Ha Hs Hv]; subst. rewrite Ho, Ha.
    apply abi_value_some in Hv as [[Ht ->]|[[Ht ->]|[[Ht ->]|[Ht ->]]]].
    4: by rewrite Ht.
    all: destruct Hs as [Hs|Hs]; [unfold R_386_32, R_386_PC32, R_386_GLOB_DAT, R_386_JMP_SLOT, R_386_RELATIVE in *; lia|].
    all: pose proof (sym_means_u32 _ _ Hs); apply symbol_value_spec in Hs; rewrite Hs.
    1: by rewrite Ht.
    1: by rewrite Ht, <- pc32_wrap.
    destruct Ht as [-> | ->]; cbn; by rewrite wrap32_id.
Qed.

Lemma symbol_value_err i e :
  symbol_value (data img) (bias img) di resolve i = Err e -> e <> OK.
Proof. unfold symbol_value. repeat (case_match; try done); by intros [= <-]. Qed.

Lemma reloc_value_err o i ty e :
  reloc_value (data img) (segs img) (bias img) di resolve o i ty = Err e -> e <> OK.
Proof.
  unfold reloc_value. pose proof (symbol_value_err i) as Hs. destruct (symbol_value _ _ _ _ _) as [|e'].
  - repeat (case_match; try done); by intros [= <-].
  - specialize (Hs e' eq_refl). repeat (case_match; try done); intros [= <-]; done.
Qed.

Lemma rel_means_type r w :
  rel_means r w ->
  (r_type r = R_386_NONE /\ w = None) \/
  (r_type r <> R_386_NONE /\ r_type r <> R_386_COPY /\ exists v, w = Some (bias img +₃₂ r_offset r, v)).
Proof.
  destruct 1 as [|o addend sym v Ho Ha Hs Hv]; [by left|]. right.
  apply abi_value_some in Hv as [[-> _]|[[-> _]|[[[-> | ->] _]|[-> _]]]]; eauto.
Qed.

(** *** The tables *)

Section Tables.
Context {M : Type}.
Variable write : Z -> Z -> M -> bool * M.

(** Stores words one after the other; [None] if one cannot be stored. *)
Fixpoint writes (ws : list (Z * Z)) (s : M) : option M :=
  match ws with
  | [] => Some s
  | (a, v) :: ws' => let '(ok, s) := write a v s in if (ok : bool) then writes ws' s else None
  end.

Lemma stores_app ws1 ws2 s : writes (ws1 ++ ws2) s = s' ← writes ws1 s; writes ws2 s'.
Proof.
  revert s. induction ws1 as [|[a v] ws1 IH]; intros s; [done|]. cbn [app writes].
  destruct (write a v s) as [[] s']; [apply IH|done].
Qed.

Definition stored (rels : list Rel) (ws : list (Z * Z)) : Prop :=
  exists os, Forall2 rel_means rels os /\ ws = omap id os.

Lemma stored_cons r rels o ws : rel_means r o -> stored rels ws -> stored (r :: rels) (option_list o ++ ws).
Proof.
  intros Hr (os & Hos & ->). exists (o :: os). split; [by constructor|]. by destruct o.
Qed.

Lemma stored_inv r rels ws :
  stored (r :: rels) ws -> exists o ws', rel_means r o /\ stored rels ws' /\ ws = option_list o ++ ws'.
Proof.
  intros (os & Hos & ->). apply Forall2_cons_inv_l in Hos as (o & os' & Hr & Hos' & ->).
  exists o, (omap id os'). split; [done|]. split; [by exists os'|]. by destruct o.
Qed.

(** A first relocation and the rest. *)
Lemma stored_split r (orels : option (list Rel)) (P : list (Z * Z) -> Prop) :
  (exists rels ws, (cons r <$> orels) = Some rels /\ stored rels ws /\ P ws) <->
  exists w, rel_means r w /\ exists rels ws, orels = Some rels /\ stored rels ws /\ P (option_list w ++ ws).
Proof.
  split.
  - intros (rels & ws & Hr & Hst & HP). apply fmap_Some in Hr as (rels' & -> & ->).
    apply stored_inv in Hst as (w & ws' & Hw & Hst & ->). eauto 8.
  - intros (w & Hw & rels & ws & -> & Hst & HP). exists (r :: rels), (option_list w ++ ws).
    split; [done|]. split; [by apply stored_cons|done].
Qed.

Lemma rel_loop_spec n i off s s' :
  rel_loop resolve write n i (data img) (segs img) (bias img) di off s = (OK, s') <->
  exists rels ws, read_rels n i (data img) off = Some rels /\ stored rels ws /\ writes ws s = Some s'.
Proof.
  revert i s. induction n as [|n IH]; intros i s; cbn [rel_loop read_rels].
  { split.
    - intros [= ->]. exists [], []. split; [done|]. split; [by exists []|done].
    - intros (? & ? & [= <-] & (os & Hos & ->) & Hw). apply Forall2_nil_inv_l in Hos as ->. by simplify_eq/=. }
  cbv zeta. destruct (read_u32 _ _) as [o|]; cbn [mbind option_bind]; [|naive_solver].
  destruct (read_u32 _ _) as [info|]; cbn [mbind option_bind]; [|naive_solver].
  set (r := mkRel o info). change (Z.shiftr info 8) with (r_sym r). change (Z.land info 255) with (r_type r).
  change o with (r_offset r). clearbody r.
  rewrite (stored_split r _ (fun ws => writes ws s = Some s')). destruct (r_type r =? R_386_NONE) eqn:E0.
  { apply Z.eqb_eq in E0. rewrite IH. split; [intros ?; exists None; split; [by constructor|done]|].
    intros (w & Hw & ?). by apply rel_means_type in Hw as [[_ ->]|[? _]]. }
  apply Z.eqb_neq in E0. destruct (r_type r =? R_386_COPY) eqn:E5.
  { apply Z.eqb_eq in E5. split; [done|].
    intros (w & Hw & ?). by apply rel_means_type in Hw as [[? _]|(_ & ? & _)]. }
  destruct (reloc_value _ _ _ _ _ _ _ _) as [v|e] eqn:Ev.
  - apply reloc_value_spec in Ev as Hm; [|done]. destruct (write _ _ _) as [ok s1] eqn:Ew.
    transitivity (ok = true /\ rel_loop resolve write n (i + 1) (data img) (segs img) (bias img) di off s1 = (OK, s')).
    { destruct ok; [tauto|]. split; [done|]. by intros []. }
    rewrite IH. split.
    + intros [-> (rels & ws & ? & ? & ?)]. eexists. split; [exact Hm|]. exists rels, ws.
      split; [done|]. split; [done|]. simpl. by rewrite Ew.
    + intros (w & Hw & rels & ws & Hr & Hst & HP).
      destruct (rel_means_type _ _ Hw) as [[? _]|(_ & _ & v' & ->)]; [done|].
      apply reloc_value_spec in Hw; [|done]. rewrite Ev in Hw. injection Hw as ->.
      simpl in HP. rewrite Ew in HP. destruct ok; [|done]. eauto 8.
  - split; [intros [= -> _]; by destruct (reloc_value_err _ _ _ _ Ev)|].
    intros (w & Hw & _). destruct (rel_means_type _ _ Hw) as [[? _]|(_ & _ & v' & ->)]; [done|].
    apply reloc_value_spec in Hw; [|done]. congruence.
Qed.

Lemma apply_rel_table_spec off size s s' :
  apply_rel_table resolve write (data img) (segs img) (bias img) di off size s = (OK, s') <->
  exists rels ws, rel_table (data img) off size = Some rels /\ stored rels ws /\ writes ws s = Some s'.
Proof.
  unfold apply_rel_table, rel_table. destruct (size =? 0) eqn:E.
  - apply Z.eqb_eq in E as ->. rewrite <- (rel_loop_spec 0 0 off). done.
  - destruct (size mod REL_ENTRY_SIZE =? 0); cbn [negb]; [apply rel_loop_spec|]. naive_solver.
Qed.

Lemma stored_app rels1 rels2 ws :
  stored (rels1 ++ rels2) ws <-> exists ws1 ws2, ws = ws1 ++ ws2 /\ stored rels1 ws1 /\ stored rels2 ws2.
Proof.
  split.
  - intros (os & Hos & ->). apply Forall2_app_inv_l in Hos as (os1 & os2 & H1 & H2 & ->).
    exists (omap id os1), (omap id os2). rewrite omap_app. split; [done|]. split; [by exists os1|by exists os2].
  - intros (ws1 & ws2 & -> & (os1 & H1 & ->) & (os2 & H2 & ->)). exists (os1 ++ os2).
    split; [by apply Forall2_app|by rewrite omap_app].
Qed.
End Tables.
End Meaning.

(** Relocating an image succeeds exactly if all its relocations have a meaning and can be
    stored, and then they are stored in their order. *)
Lemma apply_relocations_spec {M} resolve (write : Z -> Z -> M -> bool * M) img s s' :
  (forall name, is_u32 (resolve name)) ->
  rust_dynlink_apply_relocations resolve write (Some img) s = (OK, s') <->
  exists di rels ws, dynamic img = Some di /\ relocations img = Some rels /\
    stored img di resolve rels ws /\ writes write ws s = Some s'.
Proof.
  intros Hu. unfold rust_dynlink_apply_relocations, relocations. fold (dynamic img).
  destruct (dynamic img) as [di|]; cbn [mbind option_bind]; [|naive_solver].
  destruct (apply_rel_table _ _ _ _ _ _ (rel_off di) _ _) as [rc s1] eqn:E1.
  transitivity (rc = OK /\ apply_rel_table resolve write (data img) (segs img) (bias img) di (jmprel_off di)
                            (jmprel_sz di) s1 = (OK, s')).
  { destruct (rc =? OK) eqn:Erc; cbn [negb]; [apply Z.eqb_eq in Erc|apply Z.eqb_neq in Erc].
    - tauto.
    - split; [by intros [= -> _]|by intros [? _]]. }
  rewrite apply_rel_table_spec by done. split.
  - intros [-> (rels2 & ws2 & Hr2 & Hst2 & Hw2)].
    apply apply_rel_table_spec in E1 as (rels1 & ws1 & Hr1 & Hst1 & Hw1); [|done].
    exists di, (rels1 ++ rels2), (ws1 ++ ws2). rewrite Hr1. cbn [mbind option_bind]. rewrite Hr2.
    split; [done|]. split; [done|]. split; [apply stored_app; eauto 8|].
    rewrite stores_app, Hw1. exact Hw2.
  - intros (di' & rels & ws & [= <-] & Hr & Hst & Hw).
    destruct (rel_table _ (rel_off di) _) as [rels1|] eqn:Hr1; [|done]. cbn [mbind option_bind] in Hr.
    destruct (rel_table _ (jmprel_off di) _) as [rels2|] eqn:Hr2; [|done]. injection Hr as <-.
    apply stored_app in Hst as (ws1 & ws2 & -> & Hst1 & Hst2).
    rewrite stores_app in Hw. destruct (writes write ws1 s) as [s2|] eqn:Hw1; [|done].
    assert (apply_rel_table resolve write (data img) (segs img) (bias img) di (rel_off di) (rel_sz di) s = (OK, s2))
      as E2 by (apply apply_rel_table_spec; eauto 8).
    rewrite E1 in E2. injection E2 as -> ->. eauto 8.
Qed.
