(* ===== verification/DynlinkMem.v ===== *)
(** * The address space the loader builds

    What the loader needs to know about frames and page tables, as a class of laws; and what
    an address space holds after segments have been loaded and words stored: the bytes of
    the last of them that covers an address. *)

From S2P Require Import Prelude Bytes Update Dynlink DynlinkSpec.
Local Open Scope Z_scope.
Local Open Scope machine_scope.

(** Below this address every address space has the kernel's identity map. *)
Definition USER_BASE : Z := 67108864.
Definition is_user (v : Z) : Prop := USER_BASE <= v < 4294967296.

(** [view s v] is the byte a program finds at the user address [v], if its page is present.
    A frame that is handed out is not part of the view, the page table entry of a page makes
    it that page, and stores in a frame change that page only. *)
Class VmLaws (M : Type) `{!Vm M} : Type := {
  vm_ok : M -> Prop;
  view : M -> Z -> option Z;
  fresh : M -> Z -> Prop;
  walk_view s v : vm_ok s -> is_user v -> is_Some (walk s (page_base v)) <-> is_Some (view s v);
  alloc_ok s f s' : vm_ok s -> pmm_alloc_frame s = (f, s') ->
    vm_ok s' /\ (f <> 0 -> fresh s' f) /\ forall v, is_user v -> view s' v = view s v;
  map_ok p f flags s s' : vm_ok s -> fresh s f -> is_user p -> page_base p = p ->
    paging_map_page p f flags s = (true, s') ->
    vm_ok s' /\ walk s' p = Some f /\
    forall v, is_user v -> page_base v <> p -> view s' v = view s v;
  memset_ok p f s : vm_ok s -> is_user p -> page_base p = p -> walk s p = Some f ->
    vm_ok (memset_frame f s) /\
    forall v, is_user v -> view (memset_frame f s) v = if page_base v =? p then Some 0 else view s v;
  memcpy_ok p f o bs s : vm_ok s -> is_user p -> page_base p = p -> walk s p = Some f ->
    0 <= o < PAGE_SIZE -> o + Z.of_nat (length bs) <= PAGE_SIZE ->
    vm_ok (memcpy_to (f + o) bs s) /\
    forall v, is_user v -> view (memcpy_to (f + o) bs s) v =
      if (p + o <=? v) && (v <? p + o + Z.of_nat (length bs)) then bs !! Z.to_nat (v - (p + o))
      else view s v;
}.

(** Page tables can always be allocated (the loader does not look at the answer). *)
Definition tables_available (M : Type) `{!Vm M} : Prop :=
  forall p f flags (s : M), (paging_map_page p f flags s).1 = true.

(** ** Pages *)

Lemma page_base_eq v : is_u32 v -> page_base v = v - v mod 4096.
Proof.
  intros Hv. unfold page_base.
  replace 4294963200 with (Z.ldiff (Z.ones 32) (Z.ones 12)) by reflexivity.
  transitivity (Z.ldiff (Z.land v (Z.ones 32)) (Z.ones 12)).
  { apply Z.bits_inj'. intros n _. rewrite Z.land_spec, !Z.ldiff_spec, Z.land_spec. apply andb_assoc. }
  rewrite Z.land_ones by lia. change (2 ^ 32) with 4294967296. rewrite Z.mod_small by done.
  rewrite Z.ldiff_ones_r, Z.shiftl_mul_pow2, Z.shiftr_div_pow2 by lia.
  change (2 ^ 12) with 4096. pose proof (Z.div_mod v 4096 ltac:(lia)). lia.
Qed.

(** The facts about the page of an address that [lia] needs. *)
Lemma page_base_facts v :
  is_u32 v ->
  page_base v <= v < page_base v + 4096 /\ 0 <= page_base v /\ page_base v mod 4096 = 0 /\
  is_u32 (page_base v) /\ page_base (page_base v) = page_base v.
Proof.
  intros Hv. assert (E : page_base v = v - v mod 4096) by by apply page_base_eq.
  pose proof (Z.mod_pos_bound v 4096 ltac:(lia)). pose proof (Z.div_mod v 4096 ltac:(lia)).
  assert (Hm : page_base v mod 4096 = 0).
  { rewrite E. replace (v - v mod 4096) with (v / 4096 * 4096) by lia. apply Z.mod_mul. lia. }
  assert (0 <= v / 4096) by (apply Z.div_pos; unfold is_u32 in *; lia).
  assert (is_u32 (page_base v)) by (unfold is_u32 in *; lia).
  rewrite (page_base_eq (page_base v)), Hm by done. unfold is_u32 in *. lia.
Qed.

Lemma page_of_multiple v p :
  is_u32 v -> is_u32 p -> p mod 4096 = 0 -> page_base v = p <-> p <= v < p + 4096.
Proof.
  intros Hv Hp Hm. destruct (page_base_facts v Hv) as (? & ? & Hb & _). split; [lia|]. intros ?.
  pose proof (Z.div_mod p 4096 ltac:(lia)). pose proof (Z.div_mod (page_base v) 4096 ltac:(lia)). lia.
Qed.

Lemma user_u32 v : is_user v -> is_u32 v.
Proof. unfold is_user, is_u32, USER_BASE. lia. Qed.

Lemma user_page v : is_user v -> is_user (page_base v).
Proof.
  intros Hv. destruct (page_base_facts v (user_u32 _ Hv)) as (? & ? & Hm & [_ ?] & _).
  unfold is_user, USER_BASE in *.
  pose proof (Z.div_mod (page_base v) 4096 ltac:(lia)). lia.
Qed.

(** ** Patches: what is stored where *)

Definition patch : Type := Z -> option Z.

Definition over (o b : option Z) : option Z := match o with Some x => Some x | None => b end.

(** Memory after patches, the last one first. *)
Definition patched (base : patch) (ps : list patch) : patch :=
  foldl (fun b p v => over (p v) (b v)) base ps.

Lemma patched_app base ps qs : patched base (ps ++ qs) = patched (patched base ps) qs.
Proof. apply foldl_app. Qed.

Lemma patched_ext b1 b2 ps (v : Z) : b1 v = b2 v -> patched b1 ps v = patched b2 ps v.
Proof.
  revert b1 b2. induction ps as [|p ps IH]; intros b1 b2 E; [done|]. cbn [patched foldl].
  apply IH. by rewrite E.
Qed.

Definition between (a b v : Z) : bool := (a <=? v) && (v <? b).

(** A segment: whole pages, zero where the file has nothing. *)
Definition seg_patch (d : list Z) (va size off fsz : Z) : patch := fun v =>
  if between (page_base va) (page_base (va + size + 4095)) v then
    if between va (va + fsz) v then d !! Z.to_nat (off + (v - va)) else Some 0
  else None.

Definition word_patch (w : Z * Z) : patch := fun v =>
  if between (w.1) (w.1 + 4) v then le_bytes 4 (w.2) !! Z.to_nat (v - w.1) else None.

(** A segment of the file that lies in user memory. *)
Definition seg_fits (d : list Z) (va size off fsz : Z) : Prop :=
  USER_BASE <= va /\ va + size + 4095 < 4294967296 /\ 0 <= fsz <= size /\ 0 <= off /\
  off + fsz <= Z.of_nat (length d).

Section Laws.
Context `{!Vm M, !VmLaws M}.

Hypothesis map_total : tables_available M.

Lemma map_pages_spec n p flags s :
  vm_ok s -> USER_BASE <= p -> p mod 4096 = 0 -> p + Z.of_nat n * 4096 < 4294967296 ->
  exists ok s', map_loop n p flags s = (ok, s') /\ vm_ok s' /\
    (ok = true -> forall v, is_user v ->
       view s' v = if between p (p + Z.of_nat n * 4096) v then Some 0 else view s v).
Proof.
  revert p s. induction n as [|n IH]; intros p s Hs Hp Hm Hn; cbn [map_loop].
  { exists true, s. split; [done|]. split; [done|]. intros _ v _.
    unfold between. by destruct (p <=? v) eqn:?, (v <? p + Z.of_nat 0 * 4096) eqn:?; try lia. }
  destruct (pmm_alloc_frame s) as [f s1] eqn:Ea. destruct (alloc_ok _ _ _ Hs Ea) as (Hs1 & Hf & Hv1).
  destruct (f =? 0) eqn:Ef; [by exists false, s1|]. specialize (Hf ltac:(lia)).
  assert (Hpu : is_user p) by (unfold is_user; lia). pose proof (user_u32 _ Hpu) as Hpw.
  assert (Hpb : page_base p = p) by (by apply page_of_multiple; [..|lia]).
  pose proof (map_total p f flags s1) as Ht. destruct (paging_map_page p f flags s1) as [b s2] eqn:Em.
  cbn [fst] in Ht. subst b. destruct (map_ok _ _ _ _ _ Hs1 Hf Hpu Hpb Em) as (Hs2 & Hw2 & Hv2).
  destruct (memset_ok _ _ _ Hs2 Hpu Hpb Hw2) as (Hs3 & Hv3).
  rewrite wrap32_id by (unfold is_u32, PAGE_SIZE, USER_BASE in *; lia). unfold PAGE_SIZE.
  destruct (IH (p + 4096) _ Hs3) as (ok & s' & -> & Hs' & Hv'); [lia| |lia|].
  { by rewrite <- Zplus_mod_idemp_r, Z.mod_same, Z.add_0_r by lia. }
  exists ok, s'. split; [done|]. split; [done|]. intros Hok v Hv. rewrite (Hv' Hok v Hv), (Hv3 v Hv).
  pose proof (page_of_multiple v p (user_u32 _ Hv) Hpw Hm) as Hpg.
  unfold between. destruct (page_base v =? p) eqn:E.
  - assert ((p <=? v) && (v <? p + Z.of_nat (S n) * 4096) = true) as -> by lia.
    assert ((p + 4096 <=? v) && (v <? p + 4096 + Z.of_nat n * 4096) = false) as -> by lia. done.
  - rewrite (Hv2 v Hv), (Hv1 v Hv) by lia.
    replace ((p <=? v) && (v <? p + Z.of_nat (S n) * 4096))
      with ((p + 4096 <=? v) && (v <? p + 4096 + Z.of_nat n * 4096)) by lia. done.
Qed.

Lemma copy_bytes_spec fuel d rem pos va s :
  vm_ok s -> USER_BASE <= va -> va + rem < 4294967296 -> 0 <= rem -> 0 <= pos ->
  pos + rem <= Z.of_nat (length d) < 4294967296 ->
  rem = 0 \/ va mod 4096 + rem <= Z.of_nat fuel * 4096 ->
  (forall v, va <= v < va + rem -> is_Some (view s v)) ->
  exists s', copy_loop fuel d rem pos va s = Done s' /\ vm_ok s' /\
    forall v, is_user v -> view s' v =
      if between va (va + rem) v then d !! Z.to_nat (pos + (v - va)) else view s v.
Proof.
  revert rem pos va s. induction fuel as [|fuel IH]; intros rem pos va s Hs Hva Hr0 Hr Hpos Hd Hf Hpre; cbn [copy_loop].
  { pose proof (Z.mod_pos_bound va 4096 ltac:(lia)). exists s. split; [done|]. split; [done|]. intros v _.
    unfold between. by assert ((va <=? v) && (v <? va + rem) = false) as -> by lia. }
  destruct (rem <=? 0) eqn:Er.
  { exists s. split; [done|]. split; [done|]. intros v _.
    unfold between. by assert ((va <=? v) && (v <? va + rem) = false) as -> by lia. }
  assert (Hu : is_user va) by (unfold is_user; lia).
  pose proof (user_u32 _ Hu) as Hw. destruct (page_base_facts va Hw) as (Hb & Hb0 & Hbm & Hbw & Hbb).
  pose proof (page_base_eq va Hw) as Hbe.
  destruct (proj2 (walk_view s va Hs Hu)) as [f Hf']; [apply Hpre; lia|]. rewrite Hf'. cbv zeta.
  rewrite (wrap32_id (va - page_base va)) by (unfold is_u32; lia).
  set (chunk := Z.min (PAGE_SIZE - (va - page_base va)) rem).
  assert (Hc : 0 < chunk <= rem /\ chunk <= 4096 - (va - page_base va)) by (unfold chunk, PAGE_SIZE; lia).
  unfold range. rewrite (proj2 (andb_true_iff _ _)) by (split; lia). osimpl.
  set (bs := take _ _).
  assert (Hlen : Z.of_nat (length bs) = chunk) by (unfold bs; rewrite length_take, length_drop; lia).
  destruct (memcpy_ok (page_base va) f (va - page_base va) bs s Hs (user_page _ Hu) Hbb Hf')
    as (Hs1 & Hv1); [unfold PAGE_SIZE; lia..|].
  rewrite Hlen in Hv1. replace (page_base va + (va - page_base va)) with va in Hv1 by lia.
  rewrite !wrap32_id by (unfold is_u32, USER_BASE in *; lia).
  destruct (IH (rem - chunk) (pos + chunk) (va + chunk) _ Hs1) as (s' & -> & Hs' & Hv'); [lia..| | |].
  { destruct (Z.eq_dec chunk rem) as [->|Hne]; [lia|]. right.
    assert (Hce : va + chunk = page_base va + 1 * 4096) by (unfold chunk, PAGE_SIZE in *; lia).
    rewrite Hce, Z.mod_add, Hbm by lia. lia. }
  { intros v Hv. rewrite Hv1 by (unfold is_user; lia).
    assert ((va <=? v) && (v <? va + chunk) = false) as -> by lia. apply Hpre. lia. }
  exists s'. split; [done|]. split; [done|]. intros v Hv. rewrite (Hv' v Hv), (Hv1 v Hv). unfold between.
  destruct ((va <=? v) && (v <? va + chunk)) eqn:E1.
  - assert ((va + chunk <=? v) && (v <? va + chunk + (rem - chunk)) = false) as -> by lia.
    assert ((va <=? v) && (v <? va + rem) = true) as -> by lia.
    unfold bs. rewrite lookup_take_lt, lookup_drop by lia. f_equal. lia.
  - replace ((va + chunk <=? v) && (v <? va + chunk + (rem - chunk)))
      with ((va <=? v) && (v <? va + rem)) by lia.
    case_match; [|done]. f_equal. lia.
Qed.

(** A segment that lies in user memory is loaded, unless memory runs out. *)
Lemma load_segment_spec d va size flags off fsz s :
  vm_ok s -> seg_fits d va size off fsz -> Z.of_nat (length d) < 4294967296 ->
  exists ok s', load_segment d va size flags off fsz s = Done (ok, s') /\ vm_ok s' /\
    (ok = true -> forall v, is_user v -> view s' v = over (seg_patch d va size off fsz v) (view s v)).
Proof.
  intros Hs (Hva & Hend & Hf & Ho & Hfile) Hd. unfold load_segment. cbv zeta.
  rewrite wrap32_id by (unfold is_u32, USER_BASE in *; lia).
  assert (Hu : is_user va) by (unfold is_user; lia). pose proof (user_u32 _ Hu) as Hw.
  destruct (page_base_facts va Hw) as (Hb & _ & Hbm & Hbw & _).
  destruct (page_base_facts (va + size + 4095)) as (He & _ & Hem & _); [unfold is_u32, USER_BASE in *; lia|].
  set (b := page_base va) in *. set (e := page_base (va + size + 4095)) in *.
  assert (Hbu : USER_BASE <= b) by apply (user_page va Hu).
  pose proof (Z.div_mod b 4096 ltac:(lia)). pose proof (Z.div_mod e 4096 ltac:(lia)).
  assert (Hn : b + Z.of_nat (Z.to_nat ((e - b) / PAGE_SIZE)) * 4096 = e).
  { unfold PAGE_SIZE. replace (e - b) with ((e / 4096 - b / 4096) * 4096) by lia.
    rewrite Z.div_mul by lia. lia. }
  destruct (map_pages_spec (Z.to_nat ((e - b) / PAGE_SIZE)) b flags s Hs Hbu Hbm) as (ok & s1 & -> & Hs1 & Hv1); [lia|].
  rewrite Hn in Hv1. destruct ok; cbn [negb]; [|exists false, s1; done]. specialize (Hv1 eq_refl).
  destruct (copy_bytes_spec (Z.to_nat (fsz / PAGE_SIZE + 2)) d fsz off va s1 Hs1) as (s2 & -> & Hs2 & Hv2);
    [lia..| | |].
  { right. unfold PAGE_SIZE. pose proof (Z.mod_pos_bound va 4096 ltac:(lia)).
    pose proof (Z.div_mod fsz 4096 ltac:(lia)). pose proof (Z.mod_pos_bound fsz 4096 ltac:(lia)). lia. }
  { intros v Hv. rewrite Hv1 by (unfold is_user; lia). unfold between.
    assert ((b <=? v) && (v <? e) = true) as -> by lia. done. }
  osimpl. exists true, s2. split; [done|]. split; [done|]. intros _ v Hv. rewrite (Hv2 v Hv), (Hv1 v Hv).
  unfold seg_patch. fold b e. unfold between. destruct ((va <=? v) && (v <? va + fsz)) eqn:E.
  - assert ((b <=? v) && (v <? e) = true) as -> by lia.
    destruct (lookup_lt_is_Some_2 d (Z.to_nat (off + (v - va)))) as [x ->]; [lia|done].
  - by destruct ((b <=? v) && (v <? e)).
Qed.

(** ** Relocated words *)

Lemma write_word_spec va w s s' :
  vm_ok s -> is_user va -> write_word_checked va w s = (true, s') ->
  vm_ok s' /\ forall v, is_user v -> view s' v = over (word_patch (va, w) v) (view s v).
Proof.
  intros Hs Hu. unfold write_word_checked. cbv zeta. pose proof (user_u32 _ Hu) as Hw.
  destruct (page_base_facts va Hw) as (Hb & _ & _ & _ & Hbb).
  rewrite wrap32_id by (unfold is_u32; lia). destruct (PAGE_SIZE - 4 <? _) eqn:E; [done|].
  destruct (walk s (page_base va)) as [f|] eqn:Ef; [|done].
  unfold word_patch, between. cbn [fst snd]. pose proof (le_bytes_length 4 w) as Hl.
  generalize dependent (le_bytes 4 w). intros bs Hl Hr. apply (f_equal snd) in Hr. cbn [snd] in Hr. subst s'.
  destruct (memcpy_ok (page_base va) f (va - page_base va) bs s Hs (user_page _ Hu) Hbb Ef)
    as (Hs1 & Hv1); [unfold PAGE_SIZE in *; lia..|].
  split; [done|]. intros v Hv. rewrite (Hv1 v Hv), Hl.
  replace (page_base va + (va - page_base va)) with va by lia. change (Z.of_nat 4) with 4.
  destruct ((va <=? v) && (v <? va + 4)) eqn:Ev; [|done].
  destruct (lookup_lt_is_Some_2 bs (Z.to_nat (v - va))) as [x ->]; [lia|done].
Qed.

Lemma writes_spec ws s s' :
  vm_ok s -> Forall (fun w => is_user (w.1)) ws -> writes write_word_checked ws s = Some s' ->
  vm_ok s' /\ forall v, is_user v -> view s' v = patched (view s) (word_patch <$> ws) v.
Proof.
  intros Hs Hws. revert s Hs. induction Hws as [|[a w] ws Ha Hws IH]; intros s Hs Hw; cbn [writes] in Hw; [by simplify_eq|].
  destruct (write_word_checked a w s) as [[] s1] eqn:E; [|done].
  destruct (write_word_spec _ _ _ _ Hs Ha E) as (Hs1 & Hv1).
  destruct (IH s1 Hs1 Hw) as (Hs' & Hv'). split; [done|]. intros v Hv. rewrite (Hv' v Hv).
  cbn [fmap list_fmap patched foldl]. apply patched_ext. apply Hv1. done.
Qed.

(** A word can be stored in a page that is present, if it does not reach into the next. *)
Lemma write_word_possible va w s :
  vm_ok s -> is_user va ->
  (write_word_checked va w s).1 = true <-> va mod PAGE_SIZE <= PAGE_SIZE - 4 /\ is_Some (view s va).
Proof.
  intros Hs Hu. rewrite <- (walk_view s va Hs Hu). unfold write_word_checked. cbv zeta.
  pose proof (page_base_eq va (user_u32 _ Hu)). pose proof (Z.mod_pos_bound va 4096 ltac:(lia)).
  replace (va - page_base va) with (va mod 4096) by lia. rewrite wrap32_id by (unfold is_u32; lia).
  unfold PAGE_SIZE. destruct (4096 - 4 <? va mod 4096) eqn:El; cbn [fst]; [split; [done|lia]|].
  destruct (walk s (page_base va)) as [f|]; cbn [fst].
  - split; [|done]. intros _. split; [lia|by eexists].
  - split; [done|]. by intros [_ [? ?]].
Qed.

Lemma write_word_present va w s s' v :
  vm_ok s -> is_user va -> write_word_checked va w s = (true, s') -> is_user v ->
  is_Some (view s' v) <-> is_Some (view s v).
Proof.
  intros Hs Hu Hw Hv. destruct (write_word_spec _ _ _ _ Hs Hu Hw) as [_ Hview]. rewrite (Hview v Hv).
  destruct (proj1 (write_word_possible va w s Hs Hu)) as [Hm Hp]; [by rewrite Hw|]. unfold PAGE_SIZE in Hm.
  unfold word_patch, between. cbn [fst snd]. destruct (_ && _) eqn:E; [|done].
  assert (page_base v = page_base va).
  { pose proof (user_u32 _ Hu). pose proof (user_u32 _ Hv). destruct (page_base_facts va) as (? & _ & ? & ? & _); [done|].
    pose proof (page_base_eq va ltac:(done)). apply page_of_multiple; [done..|lia]. }
  assert (is_Some (view s v)) by (apply walk_view; [done..|]; by rewrite H, walk_view).
  destruct (le_bytes 4 w !! _); by split.
Qed.

Lemma writes_possible ws s :
  vm_ok s -> Forall (fun w => is_user (w.1)) ws ->
  is_Some (writes write_word_checked ws s) <->
  Forall (fun w => w.1 mod PAGE_SIZE <= PAGE_SIZE - 4 /\ is_Some (view s (w.1))) ws.
Proof.
  intros Hs Hws. revert s Hs. induction Hws as [|[a w] ws Ha Hws IH]; intros s Hs; cbn [writes]; [by split|].
  rewrite Forall_cons. cbn [fst] in *. rewrite <- (write_word_possible a w s Hs Ha).
  destruct (write_word_checked a w s) as [ok s1] eqn:E. cbn [fst]. destruct ok.
  - destruct (write_word_spec _ _ _ _ Hs Ha E) as [Hs1 _]. rewrite (IH s1 Hs1).
    transitivity (Forall (fun w => w.1 mod PAGE_SIZE <= PAGE_SIZE - 4 /\ is_Some (view s (w.1))) ws); [|tauto].
    rewrite !Forall_forall. split; intros Hall x Hx; destruct (Hall x Hx) as [Hm Hp]; (split; [done|]);
      apply (write_word_present a w s s1 (x.1) Hs Ha E); (done || exact (proj1 (Forall_forall _ _) Hws x Hx)).
  - split; [by intros [? ?]|by intros [? _]].
Qed.
End Laws.

(** ** Program headers *)

Definition load_headers (phs : list Phdr) : list Phdr := filter (fun ph => p_type ph = PT_LOAD) phs.

Definition u_at (d : list Z) (off : Z) (n : nat) : Z := of_le_bytes (take n (drop (Z.to_nat off) d)).

Definition phdr_at (d : list Z) (phoff i : Z) : Phdr :=
  let a := phoff + i * PHDR_SIZE in
  mkPhdr (u_at d a 4) (u_at d (a + 4) 4) (u_at d (a + 8) 4) (u_at d (a + 16) 4) (u_at d (a + 20) 4)
    (u_at d (a + 24) 4).

Fixpoint phdrs_from (n : nat) (i : Z) (d : list Z) (phoff : Z) : list Phdr :=
  match n with
  | O => []
  | S n' => phdr_at d phoff i :: phdrs_from n' (i + 1) d phoff
  end.

(** The program headers of a file. *)
Definition phdrs (d : list Z) : list Phdr := phdrs_from (Z.to_nat (u_at d 44 2)) 0 d (u_at d 28 4).

Definition load_patch (d : list Z) (ph : Phdr) : patch :=
  seg_patch d (p_vaddr ph) (p_memsz ph) (p_offset ph) (p_filesz ph).

Definition lib_patch (d : list Z) (b : Z) (seg : LoadSeg) : patch :=
  seg_patch d (b + vaddr seg) (filesz seg) (offset seg) (filesz seg).

Definition seg_of (ph : Phdr) : LoadSeg := mkSeg (p_vaddr ph) (p_offset ph) (p_filesz ph).

Lemma field_at d off n : off + Z.of_nat n <= Z.of_nat (length d) -> field d off n = Done (u_at d off n).
Proof. intros Hl. unfold field. by assert (off + Z.of_nat n <=? Z.of_nat (length d) = true) as -> by lia. Qed.

Lemma program_header_at d phoff i :
  0 <= i -> phoff + (i + 1) * PHDR_SIZE <= Z.of_nat (length d) ->
  program_header d phoff i = Done (phdr_at d phoff i).
Proof. intros Hi Hl. unfold program_header, PHDR_SIZE in *. by rewrite !field_at by lia. Qed.

Lemma u_at_bound d off n : Forall is_u8 d -> 0 <= u_at d off n < 256 ^ Z.of_nat n.
Proof.
  intros Hd. unfold u_at. generalize (drop (Z.to_nat off) d), (Forall_drop _ (Z.to_nat off) _ Hd). clear Hd d.
  induction n as [|n IH]; intros l Hl; [done|]. destruct Hl as [|b l Hb Hl]; cbn [take of_le_bytes].
  - split; [done|]. by apply Z.pow_pos_nonneg.
  - specialize (IH l Hl). unfold is_u8 in Hb. rewrite Nat2Z.inj_succ, Z.pow_succ_r by lia. lia.
Qed.

Lemma phdr_bounds d phoff i :
  Forall is_u8 d ->
  let ph := phdr_at d phoff i in
  is_u32 (p_offset ph) /\ is_u32 (p_vaddr ph) /\ is_u32 (p_filesz ph) /\ is_u32 (p_memsz ph).
Proof.
  intros Hd ph. pose proof (fun o => u_at_bound d o 4 Hd) as Hb. change (256 ^ Z.of_nat 4) with 4294967296 in Hb.
  unfold ph, phdr_at, is_u32; cbn [p_offset p_vaddr p_filesz p_memsz]. auto.
Qed.

Lemma phdrs_bounds d ph :
  Forall is_u8 d -> ph ∈ phdrs d ->
  is_u32 (p_offset ph) /\ is_u32 (p_vaddr ph) /\ is_u32 (p_filesz ph) /\ is_u32 (p_memsz ph).
Proof.
  intros Hb. unfold phdrs. generalize (u_at d 28 4), 0. intros phoff.
  induction (Z.to_nat (u_at d 44 2)) as [|k IH]; intros i Hin; cbn [phdrs_from] in Hin; [by apply not_elem_of_nil in Hin|].
  apply elem_of_cons in Hin as [->|Hin]; [by apply phdr_bounds|by apply (IH (i + 1))].
Qed.

(** The header of a file that the loader accepts. *)
Definition header_good (types : list Z) (d : list Z) : Prop := header_ok types d = Done true.

Lemma header_ok_total types d : exists ok, header_ok types d = Done ok.
Proof.
  unfold header_ok, HEADER_SIZE. destruct (_ <? _) eqn:E; [by eexists|].
  rewrite !field_at by lia. osimpl. by eexists.
Qed.

Lemma header_good_length types d : header_good types d -> 52 <= Z.of_nat (length d).
Proof. unfold header_good, header_ok, HEADER_SIZE. destruct (_ <? _) eqn:E; [done|]. lia. Qed.

Lemma load_headers_cons ph phs :
  load_headers (ph :: phs) = if p_type ph =? PT_LOAD then ph :: load_headers phs else load_headers phs.
Proof.
  unfold load_headers. rewrite filter_cons. destruct (p_type ph =? PT_LOAD) eqn:E.
  - by rewrite decide_True by lia.
  - by rewrite decide_False by lia.
Qed.

(** [elf_inspect] records the segments to load. *)
Lemma inspect_loop_spec n i d phoff img :
  0 <= i -> phoff + (i + Z.of_nat n) * PHDR_SIZE <= Z.of_nat (length d) ->
  exists o, inspect_loop n i d phoff img = Done o /\
    forall img', o = Some img' ->
      let loads := load_headers (phdrs_from n i d phoff) in
      i_segs img' = i_segs img ++ (seg_of <$> loads) /\ Forall (fun ph => segment_ok d ph = true) loads /\
      is_dyn img' = is_dyn img.
Proof.
  revert i img. induction n as [|n IH]; intros i img Hi Hl; cbn [inspect_loop phdrs_from].
  { eexists. split; [done|]. intros img' [= <-]. cbv zeta. by rewrite app_nil_r. }
  rewrite program_header_at by (unfold PHDR_SIZE in *; lia). osimpl.
  set (ph := phdr_at d phoff i). destruct (inspect_header d ph img) as [img1|] eqn:E; [|by eexists].
  destruct (IH (i + 1) img1) as (o & Hrun & Ho); [lia|unfold PHDR_SIZE in *; lia|].
  exists o. split; [done|]. intros img' ->. destruct (Ho img' eq_refl) as (Hsegs & Hok & Hdyn). cbv zeta.
  rewrite load_headers_cons, Hsegs, Hdyn. clear Ho Hrun Hsegs Hdyn. unfold inspect_header in E.
  destruct (p_type ph =? PT_DYNAMIC) eqn:E2; [|destruct (p_type ph =? PT_LOAD) eqn:E1; cbn [negb] in E].
  - assert (p_type ph =? PT_LOAD = false) as -> by (unfold PT_LOAD, PT_DYNAMIC in *; lia).
    case_match; [|done]. by simplify_eq/=.
  - destruct (segment_ok d ph) eqn:Es; cbn [negb] in E; [|done]. case_match; [done|]. simplify_eq/=.
    rewrite <- app_assoc. split; [done|]. split; [by constructor|done].
  - by simplify_eq.
Qed.

Lemma elf_inspect_spec d :
  exists o, elf_inspect d = Done o /\
    forall img, o = Some img ->
      i_segs img = seg_of <$> load_headers (phdrs d) /\
      Forall (fun ph => segment_ok d ph = true) (load_headers (phdrs d)).
Proof.
  unfold elf_inspect. destruct (header_ok_total [ET_EXEC; ET_DYN] d) as [ok Hok]. rewrite Hok. osimpl.
  destruct ok; cbn [negb]; [|by eexists]. apply header_good_length in Hok as Hlen.
  rewrite !field_at by lia. osimpl. destruct (_ <? _) eqn:E; [by eexists|].
  assert (Hp : 0 <= u_at d 44 2 \/ Z.to_nat (u_at d 44 2) = 0%nat) by lia.
  destruct Hp as [Hp|Hp]; [|unfold phdrs; rewrite Hp; eexists; split; [done|]; intros img [= <-]; by split].
  destruct (inspect_loop_spec (Z.to_nat (u_at d 44 2)) 0 d (u_at d 28 4)
              (mkElf [] false 0 0 (u_at d 24 4) (u_at d 16 2 =? ET_DYN))) as (o & Hrun & Ho); [unfold PHDR_SIZE in *; lia..|].
  exists o. split; [done|]. intros img ->. destruct (Ho img eq_refl) as (Hs & Hseg & _). done.
Qed.

Section LoadLaws.
Context `{!Vm M, !VmLaws M}.
Hypothesis map_total : tables_available M.

(** The part of the address space that a program may ask for. *)
Definition in_user (ph : Phdr) : Prop :=
  USER_BASE <= p_vaddr ph /\ p_vaddr ph + p_memsz ph + 4095 < 4294967296.

Lemma load_headers_spec n i d phoff (s : M) :
  vm_ok s -> Forall is_u8 d -> Z.of_nat (length d) < 4294967296 -> 0 <= i ->
  phoff + (i + Z.of_nat n) * PHDR_SIZE <= Z.of_nat (length d) ->
  Forall in_user (load_headers (phdrs_from n i d phoff)) ->
  exists ok s', load_loop n i d phoff s = Done (ok, s') /\ vm_ok s' /\
    (ok = true ->
     let loads := load_headers (phdrs_from n i d phoff) in
     Forall (fun ph => segment_ok d ph = true) loads /\
     forall v, is_user v -> view s' v = patched (view s) (load_patch d <$> loads) v).
Proof.
  intros Hs Hb Hd. revert i s Hs. induction n as [|n IH]; intros i s Hs Hi Hl Hu; cbn [load_loop phdrs_from] in *.
  { exists true, s. split; [done|]. split; [done|]. by intros _. }
  rewrite program_header_at by (unfold PHDR_SIZE in *; lia). osimpl.
  destruct (phdr_bounds d phoff i Hb) as (Ho & Hv & Hf & Hm). set (ph := phdr_at d phoff i) in *. rewrite load_headers_cons in *.
  assert (Hl' : phoff + (i + 1 + Z.of_nat n) * PHDR_SIZE <= Z.of_nat (length d)) by (unfold PHDR_SIZE in *; lia).
  destruct (p_type ph =? PT_LOAD) eqn:E; cbn [negb]; [|apply IH; (done || lia)].
  destruct (segment_ok d ph) eqn:Es; cbn [negb]; [|by exists false, s].
  apply Forall_cons in Hu as [[Hu1 Hu2] Hu].
  destruct (load_segment_spec map_total d (p_vaddr ph) (p_memsz ph) (segment_flags ph) (p_offset ph) (p_filesz ph) s Hs)
    as (ok & s1 & -> & Hs1 & Hv1); [|done|].
  { apply andb_true_iff in Es. unfold seg_fits, is_u32 in *. lia. }
  osimpl. destruct ok; [|by exists false, s1].
  destruct (IH (i + 1) s1 Hs1) as (ok & s2 & -> & Hs2 & Hv2); [lia|done..|].
  exists ok, s2. split; [done|]. split; [done|]. intros Hok. destruct (Hv2 Hok) as [Hall Hview].
  split; [by constructor|]. intros v Hv0. rewrite (Hview v Hv0).
  cbn [fmap list_fmap patched foldl]. apply patched_ext, Hv1; done.
Qed.

(** [elf_load]: the program's segments, in the order of its headers. *)
Lemma elf_load_spec d (s : M) :
  vm_ok s -> Forall is_u8 d -> Z.of_nat (length d) < 4294967296 ->
  Forall in_user (load_headers (phdrs d)) ->
  exists o s', elf_load d s = Done (o, s') /\ vm_ok s' /\
    forall e, o = Some e ->
      e = u_at d 24 4 /\ Forall (fun ph => segment_ok d ph = true) (load_headers (phdrs d)) /\
      forall v, is_user v -> view s' v = patched (view s) (load_patch d <$> load_headers (phdrs d)) v.
Proof.
  intros Hs Hb Hd Hu. unfold elf_load, elf_validate.
  destruct (header_ok_total [ET_EXEC] d) as [ok Hok]. rewrite Hok. osimpl.
  destruct ok; cbn [negb]; [|by eexists None, s]. apply header_good_length in Hok as Hlen.
  rewrite !field_at by lia. osimpl. destruct (_ <? _) eqn:E; [by eexists None, s|].
  pose proof (u_at_bound d 44 2 Hb).
  destruct (load_headers_spec (Z.to_nat (u_at d 44 2)) 0 d (u_at d 28 4) s Hs Hb Hd) as (ok & s' & -> & Hs' & Hv); [unfold PHDR_SIZE in *; lia..|done|].
  osimpl. eexists _, s'. split; [done|]. split; [done|]. intros e He. destruct ok; [|done]. simplify_eq.
  destruct (Hv eq_refl) as [? ?]. done.
Qed.

(** A library at its load address. *)
Lemma load_biased_spec d b ss (s : M) :
  vm_ok s -> Z.of_nat (length d) < 4294967296 -> 0 <= b ->
  Forall (fun seg => seg_fits d (b + vaddr seg) (filesz seg) (offset seg) (filesz seg)) ss ->
  exists ok s', elf_load_segments_biased d b ss s = Done (ok, s') /\ vm_ok s' /\
    (ok = true -> forall v, is_user v -> view s' v = patched (view s) (lib_patch d b <$> ss) v).
Proof.
  intros Hs Hd Hb0 Hss. revert s Hs. induction Hss as [|seg ss Hseg Hss IH]; intros s Hs; cbn [elf_load_segments_biased].
  { exists true, s. by split. }
  rewrite wrap32_id by (destruct Hseg as (? & ? & ? & _); unfold is_u32, USER_BASE in *; lia).
  destruct (load_segment_spec map_total d _ _ (Z.lor (Z.lor PAGE_PRESENT PAGE_WRITE) PAGE_USER) _ _ s Hs Hseg Hd)
    as (ok & s1 & -> & Hs1 & Hv1).
  osimpl. destruct ok; [|by exists false, s1]. destruct (IH s1 Hs1) as (ok & s2 & -> & Hs2 & Hv2).
  exists ok, s2. split; [done|]. split; [done|]. intros Hok v Hv. rewrite (Hv2 Hok v Hv).
  cbn [fmap list_fmap patched foldl]. apply patched_ext, Hv1; done.
Qed.
End LoadLaws.
