(* ===== verification/DynlinkProps.v ===== *)
(** * Programs are loaded and linked as their files say

    The libraries of a program, the memory it starts with, and how names are resolved; a
    program that the loader writes through a page table which is not there; and an address
    space that satisfies the laws of DynlinkMem.v, for the examples. *)

From S2P Require Import Prelude Bytes Update UpdateSpec Dynlink DynlinkSpec DynlinkMem.
Local Open Scope Z_scope.
Local Open Scope machine_scope.

(** ** The libraries a file needs *)

(** All of them, in the order of the dynamic section. *)
Definition needed_names (d : list Z) (img : elf_image) : option (list (list Z)) :=
  di ← dynamic (image_info d 0 img);
  es ← dyn_entries (Z.to_nat (i_dyn_filesz img / 8)) 0 d (i_dyn_offset img);
  mapM (read_str d (strtab_off di)) (needed_of es).

Lemma needed_loop_spec room d strtab offs out :
  needed_loop room d strtab offs = Some out <->
  exists names, mapM (read_str d strtab) (take room offs) = Some names /\ out = needed_name <$> names.
Proof.
  revert room out. induction offs as [|o offs IH]; intros [|room] out; cbn [needed_loop take mapM mret option_ret].
  1-3: split; [intros [= <-]; by exists []|by intros (names & [= <-] & ->)].
  destruct (read_str d strtab o) as [name|]; cbn [mbind option_bind].
  2: split; [done|]; by intros (? & ? & _).
  split.
  - intros (rest & Hr & [= <-])%bind_Some. apply IH in Hr as (names & Hn & ->).
    exists (name :: names). by rewrite Hn.
  - intros (names & Hn & ->). apply bind_Some in Hn as (names' & Hn & [= <-]).
    rewrite (proj2 (IH _ _) (ex_intro _ names' (conj Hn eq_refl))). done.
Qed.

(** Up to eight needed libraries are found, all of them. *)
Lemma get_needed_spec d img n out :
  rust_dynlink_get_needed d (i_dyn_offset img) (i_dyn_filesz img) (i_segs img) MAX_SHARED_LIBS = (n, out) ->
  0 <= n ->
  length out = (Z.to_nat n `min` MAX_SHARED_LIBS)%nat /\
  (n <= Z.of_nat MAX_SHARED_LIBS ->
   exists names, needed_names d img = Some names /\ out = needed_name <$> names /\ Z.of_nat (length names) = n).
Proof.
  unfold rust_dynlink_get_needed. intros Hg Hn.
  destruct (parse_dynamic _ _ _ _) as [di|] eqn:Ep; [|by injection Hg as <- <-].
  destruct (needed_loop _ _ _ _) as [out'|] eqn:El; [|by injection Hg as <- <-]. injection Hg as <- <-.
  apply needed_loop_spec in El as (names & Hnames & ->).
  apply length_mapM in Hnames as Hlen. rewrite length_take in Hlen. rewrite length_fmap. split; [lia|]. intros Hle.
  assert (Hes : exists es, dyn_entries (Z.to_nat (i_dyn_filesz img / 8)) 0 d (i_dyn_offset img) = Some es /\
            needed_offsets di = take MAX_NEEDED_SCAN (needed_of es)).
  { unfold parse_dynamic in Ep. case_match; [done|]. apply bind_Some in Ep as (t & Ht & Ep).
    rewrite dyn_loop_entries in Ht. apply fmap_Some in Ht as (es & Hes & ->). exists es. split; [done|].
    repeat (apply bind_Some in Ep as (? & ? & Ep)). injection Ep as <-. cbn [needed_offsets].
    by rewrite tags_needed. }
  destruct Hes as (es & Hes & Hoff).
  assert (Hall : needed_offsets di = needed_of es).
  { rewrite Hoff in Hle |- *. apply take_ge. rewrite length_take in Hle.
    unfold MAX_NEEDED_SCAN, MAX_SHARED_LIBS in *. lia. }
  exists names. unfold needed_names, dynamic, image_info. cbn [data dyn_offset dyn_filesz segs]. rewrite Ep.
  cbn [mbind option_bind]. rewrite Hes. cbn [mbind option_bind]. rewrite <- Hall.
  rewrite take_ge in Hnames by lia. split; [done|]. split; [done|]. lia.
Qed.

Lemma needed_name_bytes name : take (Z.to_nat (n_len (needed_name name))) (n_bytes (needed_name name)) = name.
Proof. unfold needed_name. cbn [n_len n_bytes]. by rewrite Nat2Z.id, take_app_length. Qed.

Lemma enqueue_spec n i names queue :
  (n + i <= length names \/ MAX_SHARED_LIBS - length queue + i <= length names)%nat ->
  exists o, enqueue n i names queue = Done o /\
    forall q, o = Some q -> (length queue <= MAX_SHARED_LIBS)%nat ->
      q = queue ++ ((fun m => take (Z.to_nat (n_len m)) (n_bytes m)) <$> take n (drop i names)) /\
      (length q <= MAX_SHARED_LIBS)%nat /\ (length queue + n <= MAX_SHARED_LIBS)%nat.
Proof.
  revert i queue. induction n as [|n IH]; intros i queue Hl; cbn [enqueue].
  { eexists. split; [done|]. intros q [= <-] Hq. rewrite take_0, app_nil_r. split; [done|]. lia. }
  destruct (MAX_SHARED_LIBS <=? length queue)%nat eqn:Eq; [by eexists|].
  destruct (lookup_lt_is_Some_2 names i) as [m Hm]; [lia|]. oindex Hm.
  destruct (_ || _); [by eexists|].
  destruct (IH (i + 1)%nat (queue ++ [take (Z.to_nat (n_len m)) (n_bytes m)])) as (o & -> & Ho).
  { rewrite length_app. cbn [length]. lia. }
  exists o. split; [done|]. intros q -> Hq. destruct (Ho q eq_refl) as (-> & Hlen & Hn).
  { rewrite length_app. cbn [length]. lia. }
  rewrite (drop_S _ _ _ Hm), firstn_cons, fmap_cons, <- app_assoc. replace (i + 1)%nat with (S i) in * by lia.
  rewrite !length_app in *. cbn [length] in *. split; [done|]. lia.
Qed.

(** ** Loading *)

Definition lib_bias (slot : nat) : Z := LIB_VIRT_BASE + Z.of_nat slot * LIB_SLOT_SIZE.

Definition lib_patches (l : loaded_lib) : list patch :=
  lib_patch (l_data l) (l_bias l) <$> i_segs (l_image l).

Lemma lib_buffer : Z.of_nat LIB_FILE_BUFFER_SIZE = 524288.
Proof. by apply Z2Nat.id. Qed.

Lemma elf_buffer : Z.of_nat ELF_BUFFER_SIZE = 2097152.
Proof. by apply Z2Nat.id. Qed.

Section Load.
Context `{!Vm M, !VmLaws M, !Vfs F, !VfsLaws F}.
Hypothesis map_total : tables_available M.
Variable fs : F.
Definition files_of_bytes : Prop := forall name b, file fs name = Some b -> Forall is_u8 b.
Hypothesis file_bytes : files_of_bytes.

(** What the loader reads of a file with a buffer of [n] bytes. *)
Definition contents (n : nat) (name : list Z) : option (list Z) :=
  b ← file fs name; if (length (take n b) =? 0)%nat then None else Some (take n b).

Definition lib_image (name : list Z) : option (list Z * elf_image) :=
  d ← contents LIB_FILE_BUFFER_SIZE name;
  match elf_inspect d with
  | Done (Some img) => Some (d, img)
  | _ => None
  end.

(** The libraries in the file system end below 4 GiB wherever they are loaded. *)
Definition libraries_fit : Prop := forall name d img, lib_image name = Some (d, img) ->
  Forall (fun seg => vaddr seg + filesz seg + 4095 < 4294967296 - lib_bias MAX_SHARED_LIBS) (i_segs img).
Hypothesis libs_fit : libraries_fit.

Lemma contents_read n name :
  match contents n name with
  | Some d => exists size buf, vfs_read_file name n fs = (size, buf) /\ 0 < size /\ take (Z.to_nat size) buf = d /\
      Forall is_u8 d /\ (length d <= n)%nat
  | None => (vfs_read_file name n fs).1 <= 0
  end.
Proof.
  unfold contents. destruct (file fs name) as [b|] eqn:E; cbn [mbind option_bind].
  - pose proof (read_present name n fs b E) as Hr. destruct (length (take n b) =? 0)%nat eqn:El;
      rewrite length_take in El.
    + rewrite Hr. cbn [fst]. lia.
    + exists (Z.of_nat (n `min` length b)), (take n b). split; [done|]. split; [lia|].
      rewrite Nat2Z.id. split; [|split; [apply Forall_take; eauto|rewrite length_take; lia]].
      rewrite take_take. destruct (decide (n <= length b)%nat); [f_equal; lia|].
      rewrite !take_ge by lia. done.
  - pose proof (read_absent name n fs E). lia.
Qed.

Lemma lib_bias_wrap slot :
  (slot < MAX_SHARED_LIBS)%nat -> LIB_VIRT_BASE +₃₂ (Z.of_nat slot *₃₂ LIB_SLOT_SIZE) = lib_bias slot.
Proof.
  intros Hs. unfold lib_bias, LIB_VIRT_BASE, LIB_SLOT_SIZE, MAX_SHARED_LIBS in *.
  rewrite (wrap32_id (_ * _)) by (unfold is_u32; lia). apply wrap32_id. unfold is_u32. lia.
Qed.

(** The segments of a library fit at its load address. *)
Lemma lib_fits name d img slot :
  lib_image name = Some (d, img) -> (slot < MAX_SHARED_LIBS)%nat ->
  Forall (fun seg => seg_fits d (lib_bias slot + vaddr seg) (filesz seg) (offset seg) (filesz seg)) (i_segs img) /\
  Z.of_nat (length d) < 4294967296.
Proof.
  intros Hl Hs. pose proof (libs_fit _ _ _ Hl) as Hfit. unfold lib_image in Hl.
  pose proof (contents_read LIB_FILE_BUFFER_SIZE name) as Hc.
  destruct (contents _ _) as [d'|]; [|done]. cbn [mbind option_bind] in Hl.
  destruct Hc as (_ & _ & _ & _ & _ & Hb & Hlen).
  destruct (elf_inspect_spec d') as (o & Ho & Hi). rewrite Ho in Hl. destruct o as [img'|]; [|done]. simplify_eq.
  destruct (Hi img eq_refl) as [Hsegs Hok]. split; [|pose proof lib_buffer; lia].
  rewrite Hsegs in *. rewrite Forall_fmap in Hfit. apply Forall_fmap, Forall_forall. intros ph Hin.
  pose proof (proj1 (Forall_forall _ _) Hfit ph Hin) as Hf.
  pose proof (proj1 (Forall_forall _ _) Hok ph Hin) as Hok'. cbv beta in Hok'.
  apply andb_true_iff in Hok' as [_ Hend]. apply list_elem_of_filter in Hin as [_ Hin].
  destruct (phdrs_bounds d ph Hb Hin) as (Ho' & Hv & Hz & _).
  cbn [compose seg_of vaddr filesz offset] in *.
  unfold seg_fits, lib_bias, LIB_VIRT_BASE, LIB_SLOT_SIZE, MAX_SHARED_LIBS, USER_BASE, is_u32 in *. lia.
Qed.

Lemma load_library_spec name slot (s : M) :
  vm_ok s -> (slot < MAX_SHARED_LIBS)%nat ->
  exists o s', load_library fs name slot s = Done (o, s') /\ vm_ok s' /\
    forall l, o = Some l ->
      l_name l = name /\ l_bias l = lib_bias slot /\ lib_image name = Some (l_data l, l_image l) /\
      forall v, is_user v -> view s' v = patched (view s) (lib_patches l) v.
Proof.
  intros Hs Hslot. unfold load_library.
  pose proof (contents_read LIB_FILE_BUFFER_SIZE name) as Hc. pose proof (lib_fits name) as Hfit.
  unfold lib_image in *.
  destruct (contents _ _) as [d|]; cbn [mbind option_bind] in *.
  2: { destruct (vfs_read_file _ _ _) as [size buf]. cbn [fst] in Hc.
       assert (size <=? 0 = true) as -> by lia. eexists None, s. done. }
  destruct Hc as (size & buf & -> & Hsize & -> & Hb & Hlen). assert (size <=? 0 = false) as -> by lia.
  destruct (elf_inspect_spec d) as (o & Ho & Hi). rewrite Ho in *. osimpl.
  destruct o as [img|]; [|by eexists None, s].
  destruct (is_dyn img); cbn [negb]; [|by eexists None, s].
  destruct (has_dynamic img); cbn [negb]; [|by eexists None, s].
  rewrite lib_bias_wrap by done. destruct (Hfit d img slot eq_refl Hslot) as [Hsf Hd].
  destruct (load_biased_spec map_total d (lib_bias slot) (i_segs img) s Hs Hd) as (ok & s' & -> & Hs' & Hv);
    [unfold lib_bias, LIB_VIRT_BASE, LIB_SLOT_SIZE; lia|done|].
  osimpl. eexists _, s'. split; [done|]. split; [done|]. intros l Hl. destruct ok; [|done]. simplify_eq.
  split; [done|]. split; [done|]. split; [done|]. by apply Hv.
Qed.

(** A name is required if the program needs it or a required library does. *)
Inductive required (direct : list (list Z)) : list Z -> Prop :=
| required_direct name : name ∈ direct -> required direct name
| required_lib lib d img names name :
    required direct lib -> lib_image lib = Some (d, img) -> needed_names d img = Some names ->
    name ∈ names -> required direct name.

(** Between two rounds of the loop: the names before [pos] are loaded, each library once and
    in its slot, and what they need is in the queue. *)
Record queue_ok (direct queue : list (list Z)) (pos : nat) (libs : list loaded_lib) : Prop := {
  qo_bound : (pos <= length queue <= MAX_SHARED_LIBS)%nat;
  qo_direct : direct ⊆ queue;
  qo_required : Forall (required direct) queue;
  qo_loaded name : name ∈ take pos queue <-> name ∈ l_name <$> libs;
  qo_nodup : NoDup (l_name <$> libs);
  qo_libs i l : libs !! i = Some l ->
    l_bias l = lib_bias i /\ lib_image (l_name l) = Some (l_data l, l_image l) /\
    exists names, needed_names (l_data l) (l_image l) = Some names /\ names ⊆ queue;
}.

Lemma existsb_name name libs :
  existsb (fun l => bool_decide (l_name l = name)) libs = true <-> name ∈ l_name <$> libs.
Proof.
  rewrite existsb_exists, list_elem_of_fmap. split.
  - intros (l & Hin & Hb). apply bool_decide_eq_true in Hb as <-. exists l. split; [done|]. by apply list_elem_of_In.
  - intros (l & -> & Hin). exists l. split; [by apply list_elem_of_In|]. by apply bool_decide_eq_true.
Qed.

Lemma take_S_elem (q : list (list Z)) pos name x :
  q !! pos = Some name -> x ∈ take (pos + 1) q <-> x ∈ take pos q \/ x = name.
Proof. intros Hq. rewrite Nat.add_1_r, (take_S_r _ _ _ Hq), elem_of_app, list_elem_of_singleton. done. Qed.

Lemma queue_skip direct queue pos libs name :
  queue_ok direct queue pos libs -> queue !! pos = Some name -> name ∈ l_name <$> libs ->
  queue_ok direct queue (pos + 1) libs.
Proof.
  intros [Hb Hd Hr Hl Hn Hlibs] Hq Hin. pose proof (lookup_lt_Some _ _ _ Hq). split; [lia|done|done| |done|done].
  intros x. rewrite (take_S_elem _ _ _ _ Hq), Hl. split; [by intros [?| ->]|by left].
Qed.

Lemma queue_add direct queue pos libs name l names :
  queue_ok direct queue pos libs -> queue !! pos = Some name -> name ∉ l_name <$> libs ->
  l_name l = name -> l_bias l = lib_bias (length libs) -> lib_image name = Some (l_data l, l_image l) ->
  needed_names (l_data l) (l_image l) = Some names ->
  (length (queue ++ names) <= MAX_SHARED_LIBS)%nat ->
  queue_ok direct (queue ++ names) (pos + 1) (libs ++ [l]).
Proof.
  intros [Hb Hd Hr Hl Hn Hlibs] Hq Hin Hname Hbias Himg Hneed Hlen. pose proof (lookup_lt_Some _ _ _ Hq).
  split.
  - rewrite length_app in *. lia.
  - set_solver.
  - apply Forall_app. split; [done|]. apply Forall_forall. intros x Hx.
    eapply required_lib; [|exact Himg|exact Hneed|done]. by eapply Forall_lookup_1.
  - intros x. rewrite take_app_le, (take_S_elem _ _ _ _ Hq), Hl, fmap_app, elem_of_app by lia.
    cbn [fmap list_fmap]. rewrite list_elem_of_singleton, Hname. done.
  - rewrite fmap_app. apply NoDup_app. split; [done|]. cbn [fmap list_fmap]. rewrite Hname.
    split; [|apply NoDup_singleton]. intros x Hx ->%list_elem_of_singleton. done.
  - intros i l' Hi. apply lookup_app_Some in Hi as [Hi|[Hge Hi]].
    + destruct (Hlibs i l' Hi) as (? & ? & names' & ? & ?). split; [done|]. split; [done|].
      exists names'. split; [done|]. set_solver.
    + apply list_lookup_singleton_Some in Hi as [Hi0 <-]. replace i with (length libs) by lia.
      rewrite Hname. split; [done|]. split; [done|]. exists names. split; [done|]. set_solver.
Qed.

Lemma queue_loop_spec fuel direct queue pos libs (s0 s : M) :
  vm_ok s -> queue_ok direct queue pos libs -> (MAX_SHARED_LIBS <= fuel + pos)%nat ->
  (forall v, is_user v -> view s v = patched (view s0) (libs ≫= lib_patches) v) ->
  exists o s', queue_loop fs fuel queue pos libs s = Done (o, s') /\ vm_ok s' /\
    forall libs', o = Some libs' ->
      (exists queue', queue_ok direct queue' (length queue') libs') /\
      forall v, is_user v -> view s' v = patched (view s0) (libs' ≫= lib_patches) v.
Proof.
  revert queue pos libs s. induction fuel as [|fuel IH]; intros queue pos libs s Hs Hq Hfuel Hv; cbn [queue_loop].
  all: destruct (queue !! pos) as [name|] eqn:En.
  2,4: exists (Some libs), s; split; [done|]; split; [done|]; intros libs' [= <-]; split; [|done];
       exists queue; apply lookup_ge_None in En; pose proof (qo_bound _ _ _ _ Hq);
       by replace (length queue) with pos by lia.
  { pose proof (lookup_lt_Some _ _ _ En). pose proof (qo_bound _ _ _ _ Hq). lia. }
  destruct (existsb _ libs) eqn:Ee.
  { apply existsb_name in Ee. apply IH; [done|by eapply queue_skip|lia|done]. }
  assert (Hnot : name ∉ l_name <$> libs) by (rewrite <- existsb_name, Ee; done).
  destruct (MAX_SHARED_LIBS <=? length libs)%nat eqn:El; [by eexists None, s|].
  destruct (load_library_spec name (length libs) s Hs) as (o & s1 & -> & Hs1 & Ho); [lia|]. osimpl.
  destruct o as [l|]; [|by eexists None, s1]. destruct (Ho l eq_refl) as (Hname & Hbias & Himg & Hv1).
  destruct (rust_dynlink_get_needed _ _ _ _ _) as [ln names] eqn:Eg.
  destruct (ln <? 0) eqn:Eln; [by eexists None, s1|].
  destruct (get_needed_spec _ _ _ _ Eg) as [Hlen Hneed]; [lia|].
  pose proof (lookup_lt_Some _ _ _ En). pose proof (qo_bound _ _ _ _ Hq).
  destruct (enqueue_spec (Z.to_nat ln) 0 names queue) as (oq & -> & Hoq); [lia|]. osimpl.
  destruct oq as [q|]; [|by eexists None, s1]. destruct (Hoq q eq_refl) as (-> & Hlq & Hn); [lia|].
  destruct Hneed as (nms & Hneed & -> & Hnms); [lia|].
  rewrite drop_0, take_ge in * by (rewrite length_fmap; lia).
  rewrite <- list_fmap_compose in *.
  rewrite (list_fmap_ext _ id) in * by (intros; apply needed_name_bytes). rewrite list_fmap_id in *.
  apply IH; [done|by eapply queue_add|lia|].
  intros v Hvu. rewrite (Hv1 v Hvu), bind_app, patched_app. cbn [mbind list_bind]. rewrite app_nil_r.
  by apply patched_ext, Hv.
Qed.

(** ** Linking *)

(** The words that relocating an image stores: one for each of its relocations but those of
    type NONE, with the value the ABI gives it. *)
Definition links (resolve : list Z -> Z) (img : ImageInfo) (ws : list (Z * Z)) : Prop :=
  exists di rels, dynamic img = Some di /\ relocations img = Some rels /\ stored img di resolve rels ws.

(** Images whose segments are in user memory, wherever they are loaded. *)
Definition user_image (img : ImageInfo) : Prop :=
  0 <= bias img /\
  Forall (fun seg => USER_BASE <= bias img + vaddr seg /\ bias img + vaddr seg + filesz seg < 4294967296)
    (segs img).

Lemma vaddr_to_offset_in ss v o :
  vaddr_to_offset ss v = Some o -> Exists (fun seg => vaddr seg <= v < vaddr seg + filesz seg) ss.
Proof.
  induction ss as [|seg ss IH]; cbn [vaddr_to_offset]; [done|].
  destruct (_ && _) eqn:E; [intros _; left; lia|]. intros Hv. right. by apply IH.
Qed.

Lemma stored_user img di resolve rels ws :
  user_image img -> stored img di resolve rels ws -> Forall (fun w => is_user (w.1)) ws.
Proof.
  intros [Hb Hsegs] (os & Hos & ->). induction Hos as [|r w rels os Hr Hos IH]; [done|].
  destruct Hr as [|o addend sym v Ho _ _ _]; [exact IH|]. constructor; [|exact IH]. cbn [fst].
  apply vaddr_to_offset_in in Ho. apply Exists_exists in Ho as (seg & Hin & Hv).
  destruct (proj1 (Forall_forall _ _) Hsegs seg Hin) as [H1 H2].
  rewrite wrap32_id by (unfold is_u32, USER_BASE in *; lia). unfold is_user. lia.
Qed.

Lemma relocate_all_spec resolve imgs (s s' : M) :
  vm_ok s -> (forall name, is_u32 (resolve name)) -> Forall user_image imgs ->
  relocate_all resolve imgs s = (true, s') ->
  vm_ok s' /\ exists wss, Forall2 (links resolve) imgs wss /\
    forall v, is_user v -> view s' v = patched (view s) (word_patch <$> concat wss) v.
Proof.
  intros Hs Hu Himgs. revert s Hs. induction Himgs as [|img imgs Himg Himgs IH]; intros s Hs Hrun; cbn [relocate_all] in Hrun.
  { simplify_eq. split; [done|]. exists []. split; [constructor|done]. }
  destruct (rust_dynlink_apply_relocations _ _ _ _) as [rc s1] eqn:E.
  destruct (rc =? 0) eqn:Erc; cbn [negb] in Hrun; [|done]. apply Z.eqb_eq in Erc as ->.
  apply apply_relocations_spec in E as (di & rels & ws & Hd & Hr & Hst & Hw); [|done].
  destruct (writes_spec ws s s1 Hs) as [Hs1 Hv1]; [by eapply stored_user|done|].
  destruct (IH s1 Hs1 Hrun) as (Hs' & wss & Hwss & Hv). split; [done|]. exists (ws :: wss).
  split; [constructor; [by exists di, rels|done]|]. intros v Hvu. rewrite (Hv v Hvu).
  cbn [concat]. rewrite fmap_app, patched_app. by apply patched_ext, Hv1.
Qed.

Lemma scope_u32 imgs name : is_u32 (scope_address imgs name).
Proof.
  unfold scope_address. destruct (omap (address_in name) imgs) as [|a l] eqn:E; [done|]. cbn [head default from_option].
  assert (Hin : a ∈ omap (address_in name) imgs) by (rewrite E; left).
  apply list_elem_of_omap in Hin as (img & _ & Ha). unfold address_in in Ha.
  apply bind_Some in Ha as (s & _ & Ha). case_match; [done|]. simplify_eq. apply wrap32_u32.
Qed.

Lemma resolve_u32 main libs name : is_u32 (dynlink_resolve_cb main libs name).
Proof. rewrite resolve_spec. apply scope_u32. Qed.

Lemma libs_user direct queue libs :
  queue_ok direct queue (length queue) libs -> Forall user_image (lib_info <$> libs).
Proof.
  intros Hq. apply Forall_fmap, Forall_lookup. intros i l Hi.
  destruct (qo_libs _ _ _ _ Hq i l Hi) as (Hb & Himg & _).
  assert (Hlt : (i < MAX_SHARED_LIBS)%nat).
  { apply lookup_lt_Some in Hi. pose proof (qo_bound _ _ _ _ Hq).
    assert (Hsub : l_name <$> libs ⊆+ queue).
    { apply NoDup_submseteq; [apply Hq|]. intros x Hx. apply (qo_loaded _ _ _ _ Hq) in Hx.
      by rewrite take_ge in Hx. }
    apply submseteq_length in Hsub. rewrite length_fmap in Hsub. lia. }
  destruct (lib_fits _ _ _ i Himg Hlt) as [Hf _]. unfold user_image, lib_info, image_info; cbn [compose bias segs].
  rewrite Hb. split; [unfold lib_bias, LIB_VIRT_BASE, LIB_SLOT_SIZE; lia|].
  eapply Forall_impl; [exact Hf|]. intros seg (? & ? & ? & _). lia.
Qed.

Lemma links_ext r1 r2 img ws : (forall name, r1 name = r2 name) -> links r1 img ws -> links r2 img ws.
Proof.
  intros E (di & rels & Hd & Hr & os & Hos & ->). exists di, rels. split; [done|]. split; [done|].
  exists os. split; [|done]. eapply Forall2_impl; [exact Hos|].
  assert (Hsym : forall i v, sym_means img di r1 i v -> sym_means img di r2 i v).
  { destruct 1; rewrite ?E in *; by econstructor. }
  destruct 1 as [|o addend sym v Ho Ha Hs Hv]; [by constructor|].
  eapply rel_word; [done..| |done]. destruct Hs as [?|?]; [by left|right; by apply Hsym].
Qed.

Lemma queue_start direct :
  (length direct <= MAX_SHARED_LIBS)%nat -> queue_ok direct direct 0 [].
Proof.
  intros Hl. split; [lia|done| |done|constructor|done].
  apply Forall_forall. intros x Hx. by apply required_direct.
Qed.

Lemma link_spec d img (s : M) :
  vm_ok s -> user_image (image_info d 0 img) ->
  exists o s', load_and_link_shared_libraries fs d img s = Done (o, s') /\
    forall libs, o = Some libs ->
      vm_ok s' /\
      (exists direct queue, needed_names d img = Some direct /\ queue_ok direct queue (length queue) libs) /\
      let imgs := image_info d 0 img :: (lib_info <$> libs) in
      exists wss, Forall2 (links (scope_address imgs)) imgs wss /\
        forall v, is_user v ->
          view s' v = patched (view s) ((libs ≫= lib_patches) ++ (word_patch <$> concat wss)) v.
Proof.
  intros Hs Hmain. unfold load_and_link_shared_libraries.
  destruct (rust_dynlink_get_needed _ _ _ _ _) as [n names] eqn:Eg.
  destruct (n <? 0) eqn:En; [by eexists None, s|]. destruct (_ <? n) eqn:En8; [by eexists None, s|].
  destruct (get_needed_spec _ _ _ _ Eg) as [Hlen Hneed]; [lia|].
  destruct Hneed as (direct & Hneed & -> & Hdir); [lia|].
  destruct (enqueue_spec (Z.to_nat n) 0 (needed_name <$> direct) []) as (oq & -> & Hoq);
    [rewrite length_fmap; lia|].
  osimpl. destruct oq as [q|]; [|by eexists None, s].
  destruct (Hoq q eq_refl) as (Hq & Hlq & _); [simpl; lia|].
  rewrite app_nil_l, drop_0, take_ge in Hq by (rewrite length_fmap; lia). rewrite <- list_fmap_compose in Hq.
  rewrite (list_fmap_ext _ id) in Hq by (intros; apply needed_name_bytes). rewrite list_fmap_id in Hq. subst q.
  destruct (queue_loop_spec MAX_SHARED_LIBS direct direct 0 [] s s Hs (queue_start _ Hlq)) as (o & s1 & -> & Hs1 & Ho);
    [lia|done|]. osimpl.
  destruct o as [libs|]; [|by eexists None, s1]. destruct (Ho libs eq_refl) as [(queue & Hqueue) Hv1].
  cbv zeta. destruct (relocate_all _ _ _) as [ok s2] eqn:Er. eexists _, s2. split; [done|].
  intros libs' Hl. destruct ok; [|done]. injection Hl as <-.
  destruct (relocate_all_spec _ _ _ _ Hs1 (resolve_u32 _ _) ltac:(constructor; [exact Hmain|by eapply libs_user]) Er)
    as (Hs2 & wss & Hwss & Hv2).
  split; [done|]. split; [by exists direct, queue|]. exists wss. split.
  - eapply Forall2_impl; [exact Hwss|]. intros im ws. apply links_ext. intros name. apply resolve_spec.
  - intros v Hv. rewrite patched_app, (Hv2 v Hv). by apply patched_ext, Hv1.
Qed.

(** ** Starting a program *)

Definition program (path : list Z) : option (list Z) := contents ELF_BUFFER_SIZE path.

(** The images that take part in linking. *)
Definition linked_images (d : list Z) (libs : list loaded_lib) : list ImageInfo :=
  match elf_inspect d with
  | Done (Some img) => if has_dynamic img then image_info d 0 img :: (lib_info <$> libs) else []
  | _ => []
  end.

(** The program's own segments are in user memory. *)
Definition program_fits (path : list Z) : Prop :=
  forall d, program path = Some d -> Forall in_user (load_headers (phdrs d)).

(** What [exec_image] leaves behind when it succeeds. *)
Lemma exec_spec path (s : M) :
  vm_ok s -> program_fits path ->
  exists r s', exec_image fs path s = Done (r, s') /\
    forall entry libs, r = Some (entry, libs) -> exists d, program path = Some d /\ entry = u_at d 24 4 /\
      (forall img, elf_inspect d = Done (Some img) -> has_dynamic img = true ->
         exists direct queue, needed_names d img = Some direct /\ queue_ok direct queue (length queue) libs) /\
      (linked_images d libs = [] -> libs = []) /\
      exists wss, Forall2 (links (scope_address (linked_images d libs))) (linked_images d libs) wss /\
        forall v, is_user v ->
          view s' v = patched (view s) ((load_patch d <$> load_headers (phdrs d)) ++ (libs ≫= lib_patches) ++
                                        (word_patch <$> concat wss)) v.
Proof.
  intros Hs Hfit. unfold exec_image. pose proof (contents_read ELF_BUFFER_SIZE path) as Hc.
  unfold program_fits, program in *. destruct (contents _ path) as [d|].
  2: { destruct (vfs_read_file _ _ _) as [size buf]. cbn [fst] in Hc.
       assert (size <=? 0 = true) as -> by lia. by eexists None, s. }
  destruct Hc as (size & buf & -> & Hsize & -> & Hb & Hlen). assert (size <=? 0 = false) as -> by lia.
  unfold elf_validate. destruct (header_ok_total [ET_EXEC] d) as [valid ->]. osimpl.
  destruct valid; cbn [negb]; [|by eexists None, s].
  destruct (elf_load_spec map_total d s Hs Hb) as (oe & s1 & -> & Hs1 & He);
    [pose proof elf_buffer; lia|by apply Hfit|]. osimpl.
  destruct oe as [entry|]; [|by eexists None, s1]. destruct (He entry eq_refl) as (-> & Hok & Hv1).
  destruct (elf_inspect_spec d) as (oi & Hi & Himg). rewrite Hi. osimpl.
  assert (Hmain : forall img, oi = Some img -> user_image (image_info d 0 img)).
  { intros img ->. destruct (Himg img eq_refl) as [Hsegs _]. split; [done|].
    unfold image_info; cbn [segs bias]. rewrite Hsegs. apply Forall_fmap, Forall_forall. intros ph Hin.
    destruct (proj1 (Forall_forall _ _) (Hfit d eq_refl) ph Hin).
    pose proof (proj1 (Forall_forall _ _) Hok ph Hin) as Hseg. cbv beta in Hseg. apply andb_true_iff in Hseg.
    cbn [compose seg_of vaddr filesz]. lia. }
  assert (Hlinked : forall libs, linked_images d libs =
    match oi with
    | Some img => if has_dynamic img then image_info d 0 img :: (lib_info <$> libs) else []
    | None => []
    end) by (intros; unfold linked_images; by rewrite Hi).
  destruct (match oi with Some img => has_dynamic img | None => false end) eqn:Edyn.
  - destruct oi as [img|]; [|done]. rewrite Edyn.
    destruct (link_spec d img s1 Hs1 (Hmain img eq_refl)) as (o & s2 & -> & Ho). osimpl.
    eexists _, s2. split; [done|]. intros entry libs Hr. destruct o as [libs'|]; [|done]. simplify_eq.
    destruct (Ho libs eq_refl) as (Hs2 & Hq & wss & Hwss & Hv2). exists d. split; [done|]. split; [done|].
    rewrite Hlinked, Edyn. split; [intros img' Hi' _; rewrite Hi in Hi'; by simplify_eq|]. split; [done|]. exists wss. split; [done|].
    intros v Hv. rewrite patched_app, (Hv2 v Hv). by apply patched_ext, Hv1.
  - exists (Some (u_at d 24 4, [])), s1. split; [destruct oi as [img|]; [by rewrite Edyn|done]|].
    intros entry libs [= <- <-]. exists d. split; [done|]. split; [done|].
    split; [intros img Hi' ?; rewrite Hi in Hi'; injection Hi' as ->; congruence|]. split; [done|]. exists [].
    assert (linked_images d [] = []) as -> by (rewrite Hlinked; destruct oi; [by rewrite Edyn|done]).
    split; [constructor|]. intros v Hv. rewrite (Hv1 v Hv). cbn [concat fmap list_fmap mbind list_bind app].
    by rewrite !app_nil_r.
Qed.
End Load.




(** A name is resolved to the first image that has it. The address is 0 if no image offers
    one; otherwise it is that of the program, or else of the first library in the order of
    loading, that offers one: a symbol that the image defines, that is not local to it, and
    whose name in the file is the one looked for. *)
Theorem dynlink_resolves_first main libs name :
  let imgs := main :: (lib_info <$> libs) in
  Forall (fun img => Z.of_nat (length (data img)) < 2147483648) imgs ->
  (dynlink_resolve_cb main libs name = 0 /\ Forall (fun img => address_in name img = None) imgs) \/
  exists i img di sym,
    imgs !! i = Some img /\ Forall (fun img => address_in name img = None) (take i imgs) /\
    dynlink_resolve_cb main libs name = bias img +₃₂ st_value sym /\ bias img +₃₂ st_value sym <> 0 /\
    dynamic img = Some di /\
    sym ∈ read_syms (Z.to_nat (sym_count di)) 0 (data img) (symtab_off di) /\
    st_shndx sym <> SHN_UNDEF /\ bind sym <> STB_LOCAL /\
    c_string (data img) (strtab_off di +₃₂ st_name sym) name.
Proof.
  intros imgs Hlen. rewrite resolve_spec. fold imgs. clearbody imgs. induction Hlen as [|img imgs Hl Hlen IH]; [by left|].
  rewrite scope_cons, find_symbol_spec. cbv zeta.
  destruct (definition img name) as [sym|] eqn:Ed; cbn [negb Z.eqb].
  - destruct (bias img +₃₂ st_value sym =? 0) eqn:E0; cbn [negb].
    + assert (Hn : address_in name img = None) by (unfold address_in; rewrite Ed; cbn [mbind option_bind]; by rewrite E0).
      destruct IH as [[-> Hno]|(i & img' & di & sym' & ? & Hno & ?)]; [left; split; [done|by constructor]|].
      right. exists (S i), img', di, sym'. split; [done|]. split; [by constructor|done].
    + right. unfold definition in Ed. apply bind_Some in Ed as (di & Hd & Hf).
      apply List.find_some in Hf as [Hin He]. exists 0%nat, img, di, sym.
      unfold exports in He. rewrite !andb_true_iff, !negb_true_iff, bool_decide_eq_true in He.
      destruct He as [[[Hu Hloc] Hz] Hstr]. apply read_str_spec in Hstr as [Hstr _]; [|done].
      split; [done|]. split; [constructor|]. split; [done|]. split; [lia|]. split; [done|].
      split; [by apply list_elem_of_In|]. split; [lia|]. split; [lia|done].
  - assert (Hn : address_in name img = None) by (unfold address_in; by rewrite Ed).
    destruct IH as [[-> Hno]|(i & img' & di & sym' & ? & Hno & ?)]; [left; split; [done|by constructor]|].
    right. exists (S i), img', di, sym'. split; [done|]. split; [by constructor|done].
Qed.

(** ** An address space

    Frames that are handed out one after the other, a map from pages to frames, and the
    contents of frames. *)

Record Pages : Type := mkPages { next_frame : Z; frame_of : gmap Z Z; content : gmap Z (list Z) }.

Definition zero_page : list Z := replicate 4096 0.
Definition frame_bytes (s : Pages) (f : Z) : list Z := default zero_page (content s !! f).

(** Stores bytes in a frame. *)
Definition frame_store (a : Z) (bs : list Z) (s : Pages) : Pages :=
  let f := a - a mod 4096 in
  let o := Z.to_nat (a mod 4096) in
  let page := frame_bytes s f in
  mkPages (next_frame s) (frame_of s)
    (<[f := take o page ++ bs ++ drop (o + length bs) page]> (content s)).

#[export] Instance Pages_Vm : Vm Pages := {|
  pmm_alloc_frame s := (next_frame s, mkPages (next_frame s + 4096) (frame_of s) (content s));
  paging_map_page p f _ s := (true, mkPages (next_frame s) (<[p := f]> (frame_of s)) (content s));
  memset_frame f s := mkPages (next_frame s) (frame_of s) (<[f := zero_page]> (content s));
  walk s p := frame_of s !! p;
  memcpy_to := frame_store;
|}.

Record pages_ok (s : Pages) : Prop := {
  po_next : 0 < next_frame s /\ next_frame s mod 4096 = 0;
  po_frames p f : frame_of s !! p = Some f -> f < next_frame s /\ f mod 4096 = 0;
  po_inj p q f : frame_of s !! p = Some f -> frame_of s !! q = Some f -> p = q;
  po_content f page : content s !! f = Some page -> length page = 4096%nat;
}.

Definition pages_view (s : Pages) (v : Z) : option Z :=
  f ← frame_of s !! page_base v; frame_bytes s f !! Z.to_nat (v - page_base v).

Lemma frame_bytes_length s f : pages_ok s -> length (frame_bytes s f) = 4096%nat.
Proof.
  intros Hs. unfold frame_bytes. destruct (content s !! f) as [page|] eqn:E; [by eapply po_content|].
  apply length_replicate.
Qed.

(** A change of one frame's contents shows in its page only. *)
Lemma pages_store s f p page :
  pages_ok s -> frame_of s !! p = Some f -> length page = 4096%nat ->
  let s' := mkPages (next_frame s) (frame_of s) (<[f := page]> (content s)) in
  pages_ok s' /\ forall v, pages_view s' v =
    if page_base v =? p then page !! Z.to_nat (v - page_base v) else pages_view s v.
Proof.
  intros [Hn Hf Hi Hc] Hp Hl s'. split.
  - split; [done..|]. intros g pg. cbn [s' content]. destruct (decide (g = f)) as [->|Hne].
    + rewrite lookup_insert_eq. by intros [= <-].
    + rewrite lookup_insert_ne by done. apply Hc.
  - intros v. unfold pages_view, frame_bytes. cbn [s' frame_of content].
    destruct (page_base v =? p) eqn:E.
    + apply Z.eqb_eq in E. rewrite E, Hp. cbn [mbind option_bind]. by rewrite lookup_insert_eq.
    + destruct (frame_of s !! page_base v) as [g|] eqn:Eg; [|done]. cbn [mbind option_bind].
      rewrite lookup_insert_ne; [done|]. intros <-. apply Z.eqb_neq in E. apply E. by eapply Hi.
Qed.

(** A frame that has been handed out and is no page's yet. *)
Definition frame_fresh (s : Pages) (f : Z) : Prop :=
  f mod 4096 = 0 /\ f < next_frame s /\ forall p, frame_of s !! p <> Some f.

Lemma pages_map p f s :
  pages_ok s -> frame_fresh s f -> pages_ok (mkPages (next_frame s) (<[p := f]> (frame_of s)) (content s)).
Proof.
  intros [Hn Hf Hi Hc] (Hfm & Hfn & Hfree). split; cbn [next_frame frame_of content]; [done| | |done].
  - intros q g. destruct (decide (q = p)) as [->|]; [rewrite lookup_insert_eq; by intros [= <-]|].
    rewrite lookup_insert_ne by done. apply Hf.
  - intros q r g. destruct (decide (q = p)) as [->|], (decide (r = p)) as [->|];
      rewrite ?lookup_insert_eq, ?lookup_insert_ne by done; [done| | |apply Hi].
    + intros [= <-] Hr. by destruct (Hfree r).
    + intros Hq [= <-]. by destruct (Hfree q).
Qed.

(** A byte of a page after a store of [bs] at [o]. *)
Lemma page_store_lookup (page bs : list Z) (o n : Z) :
  0 <= o -> 0 <= n -> o + Z.of_nat (length bs) <= Z.of_nat (length page) ->
  (take (Z.to_nat o) page ++ bs ++ drop (Z.to_nat o + length bs) page) !! Z.to_nat n =
  if (o <=? n) && (n <? o + Z.of_nat (length bs)) then bs !! Z.to_nat (n - o) else page !! Z.to_nat n.
Proof.
  intros Ho Hn Hl. destruct (decide (n < o)).
  - rewrite lookup_app_l by (rewrite length_take; lia). rewrite lookup_take_lt by lia.
    by assert ((o <=? n) && (n <? o + Z.of_nat (length bs)) = false) as -> by lia.
  - rewrite lookup_app_r, length_take by (rewrite length_take; lia). rewrite Nat.min_l by lia.
    destruct (decide (n < o + Z.of_nat (length bs))).
    + rewrite lookup_app_l by lia. assert ((o <=? n) && (n <? o + Z.of_nat (length bs)) = true) as -> by lia.
      f_equal. lia.
    + rewrite lookup_app_r, lookup_drop by lia.
      assert ((o <=? n) && (n <? o + Z.of_nat (length bs)) = false) as -> by lia. f_equal. lia.
Qed.

Lemma pages_memcpy p f o bs s :
  pages_ok s -> is_user p -> page_base p = p -> frame_of s !! p = Some f ->
  0 <= o < PAGE_SIZE -> o + Z.of_nat (length bs) <= PAGE_SIZE ->
  pages_ok (frame_store (f + o) bs s) /\
  forall v, is_user v -> pages_view (frame_store (f + o) bs s) v =
    if (p + o <=? v) && (v <? p + o + Z.of_nat (length bs)) then bs !! Z.to_nat (v - (p + o))
    else pages_view s v.
Proof.
  intros Hs Hu Hp Hw Ho Hl. unfold frame_store, PAGE_SIZE in *. destruct (po_frames _ Hs _ _ Hw) as [_ Hfm].
  pose proof (frame_bytes_length s f Hs) as Hfl.
  assert (Hm : (f + o) mod 4096 = o) by (rewrite <- Zplus_mod_idemp_l, Hfm; apply Z.mod_small; lia).
  rewrite Hm. replace (f + o - o) with f by lia. set (page := take _ _ ++ _).
  assert (Hpl : length page = 4096%nat)
    by (unfold page; rewrite !length_app, length_take, length_drop, Hfl; lia).
  destruct (pages_store s f p page Hs Hw Hpl) as [Hs' Hv]. split; [done|]. intros v Hvu. rewrite Hv.
  pose proof (user_u32 _ Hvu). destruct (page_base_facts v) as (? & _ & ? & ? & _); [done|].
  destruct (page_base_facts p (user_u32 _ Hu)) as (_ & _ & Hpm & _). rewrite Hp in Hpm.
  pose proof (page_of_multiple v p ltac:(done) (user_u32 _ Hu) Hpm) as Hpg.
  destruct (page_base v =? p) eqn:E.
  - apply Z.eqb_eq in E. unfold page. rewrite page_store_lookup, E by lia.
    assert (pages_view s v = frame_bytes s f !! Z.to_nat (v - p)) as -> by (unfold pages_view; by rewrite E, Hw).
    replace ((o <=? v - p) && (v - p <? o + Z.of_nat (length bs)))
      with ((p + o <=? v) && (v <? p + o + Z.of_nat (length bs))) by lia.
    replace (v - p - o) with (v - (p + o)) by lia. done.
  - apply Z.eqb_neq in E. by assert ((p + o <=? v) && (v <? p + o + Z.of_nat (length bs)) = false) as -> by lia.
Qed.

#[export] Instance Pages_laws : VmLaws Pages.
Proof.
  refine {| vm_ok := pages_ok; view := pages_view; fresh := frame_fresh |}.
  - intros s v Hs Hv. cbn [walk Pages_Vm]. unfold pages_view.
    destruct (frame_of s !! page_base v) as [f|]; cbn [mbind option_bind]; [|by split].
    destruct (page_base_facts v (user_u32 _ Hv)) as (? & _).
    destruct (lookup_lt_is_Some_2 (frame_bytes s f) (Z.to_nat (v - page_base v))) as [x ->];
      [rewrite frame_bytes_length by done; lia|by split].
  - intros s f s' [[Hn0 Hnm] Hf Hi Hc] [= <- <-]. split; [|split; [|done]].
    + split; cbn [next_frame frame_of content]; [|intros p f Hp; destruct (Hf p f Hp); split; [lia|done]|done..].
      split; [lia|]. by rewrite <- Zplus_mod_idemp_r, Z.mod_same, Z.add_0_r by lia.
    + intros _. unfold frame_fresh. cbn [next_frame frame_of]. split; [done|]. split; [lia|]. intros p Hp.
      destruct (Hf p _ Hp). lia.
  - intros p f flags s s' Hs Hf Hu Hp [= <-]. cbn [walk Pages_Vm frame_of].
    split; [by apply pages_map|]. split; [by rewrite lookup_insert_eq|].
    intros v Hv Hne. unfold pages_view, frame_bytes. cbn [frame_of content]. by rewrite lookup_insert_ne.
  - intros p f s Hs Hu Hp Hw. cbn [walk memset_frame Pages_Vm] in *.
    destruct (pages_store s f p zero_page Hs Hw (length_replicate _ _)) as [Hs' Hv]. split; [done|].
    intros v Hvu. rewrite Hv. destruct (page_base v =? p); [|done]. apply lookup_replicate_2.
    destruct (page_base_facts v (user_u32 _ Hvu)). lia.
  - intros p f o bs s. apply pages_memcpy.
Defined.

Lemma pages_tables : tables_available Pages.
Proof. done. Qed.

Definition no_pages : Pages := mkPages 4096 ∅ ∅.

Lemma no_pages_ok : vm_ok no_pages.
Proof. split; [done|by intros|by intros|by intros]. Qed.

(** ** Examples *)

Definition u32s (l : list Z) : list Z := l ≫= le_bytes 4.
Definition u16s (l : list Z) : list Z := l ≫= le_bytes 2.

(** An ELF file with one segment, the whole file at [va], and a dynamic section at 120. *)
Definition elf_file (ty va size dyn : Z) (rest : list Z) : list Z :=
  [127; 69; 76; 70; 1; 1; 1; 0; 0; 0; 0; 0; 0; 0; 0; 0] ++ u16s [ty; 3] ++ u32s [1; va; 52; 0; 0]
  ++ u16s [52; 32; 2; 0; 0; 0] ++ u32s [1; 0; va; va; size; size; 7; 4096]
  ++ u32s [2; 120; va + 120; va + 120; dyn; dyn; 6; 4; 0] ++ rest.

(** A program that calls the function f of the library L: one relocation, at 232. *)
Definition prog_base : Z := 134512640.
Definition prog_file : list Z :=
  elf_file 2 prog_base 236 56
    (u32s [1; 1; 5; prog_base + 176; 6; prog_base + 184; 4; prog_base + 216; 23; prog_base + 224; 2; 8; 0; 0]
     ++ [0; 76; 0; 102; 0; 0; 0; 0] ++ u32s [0; 0; 0; 0] ++ u32s [3; 0; 0] ++ [16; 0; 0; 0]
     ++ u32s [1; 2] ++ u32s [prog_base + 232; 256 + 7; 0]).

Definition lib_file : list Z :=
  elf_file 3 0 200 32
    (u32s [5; 152; 6; 156; 4; 188; 0; 0] ++ [0; 102; 0; 0] ++ u32s [0; 0; 0; 0] ++ u32s [1; 196; 0] ++ [16; 0; 1; 0]
     ++ u32s [1; 2; 195]).

Definition store : FileStore := {[ [80] := prog_file; [76] := lib_file ]}.

(** The program starts, and its slot holds the address of f in the library. *)
Lemma program_starts :
  match exec_image store [80] no_pages with
  | Done (Some (entry, libs), s) =>
      entry = prog_base /\ l_name <$> libs = [[76]] /\
      pages_view s <$> [prog_base + 232; prog_base + 233; prog_base + 234; prog_base + 235] =
        Some <$> le_bytes 4 (LIB_VIRT_BASE + 196)
  | _ => False
  end.
Proof. vm_compute. done. Qed.

(** A segment whose end, rounded up to a page, is past 4 GiB. *)
Definition wrap_file : list Z := elf_file 2 4294963200 16 0 [].

(** A segment that ends in the last page of the address space is copied without being
    mapped. The end of the segment is rounded up in 32 bits, to 0; so no page is mapped for it,
    and its bytes are copied through a page table entry that is not present. *)
Theorem dynlink_wrap_unmapped `{Vm M} (s : M) :
  walk s 4294963200 = None -> exec_image ({[ [80] := wrap_file ]} : FileStore) [80] s = Panic.
Proof. destruct H as [alloc map set w copy]. cbn [walk]. intros Hw. vm_compute. by rewrite Hw. Qed.

Lemma store_files name b : store !! name = Some b -> (name = [80] /\ b = prog_file) \/ (name = [76] /\ b = lib_file).
Proof.
  unfold store. intros [[<- <-]|[_ H]]%lookup_insert_Some; [by left|].
  apply lookup_singleton_Some in H as [<- <-]. by right.
Qed.

Lemma store_bytes : files_of_bytes store.
Proof.
  intros name b Hb. apply store_files in Hb as [[_ ->]|[_ ->]]; by apply bytes_check; vm_compute.
Qed.

Lemma store_libraries : libraries_fit store.
Proof.
  intros name d img Hl.
  assert (name = [80] \/ name = [76]) as [-> | ->].
  { unfold lib_image, contents in Hl. destruct (file store name) as [b|] eqn:E; [|done].
    apply store_files in E as [[-> _]|[-> _]]; tauto. }
  all: vm_compute in Hl; injection Hl as <- <-; repeat constructor; vm_compute; done.
Qed.

Lemma prog_in_user : Forall in_user (load_headers (phdrs prog_file)).
Proof.
  remember (load_headers (phdrs prog_file)) as l eqn:El. vm_compute in El. subst l.
  constructor; [|constructor]. vm_compute. split; discriminate || reflexivity.
Qed.

Lemma store_program : program_fits store [80].
Proof.
  intros d Hd. assert (E : program store [80] = Some prog_file) by (vm_compute; reflexivity).
  rewrite E in Hd. injection Hd as <-. exact prog_in_user.
Qed.


(** The program in memory, before it is relocated against the library. *)
Definition prog_pages : Pages := match elf_load prog_file no_pages with Done (_, s) => s | Panic => no_pages end.
Definition prog_image : ImageInfo := image_info prog_file 0 (mkElf [mkSeg prog_base 0 236] true 120 56 prog_base false).
Definition the_lib : loaded_lib := mkLib [76] lib_file LIB_VIRT_BASE (mkElf [mkSeg 0 0 200] true 120 32 0 true).

Lemma prog_pages_ok : vm_ok prog_pages.
Proof.
  assert (Hb : Forall is_u8 prog_file) by (apply (store_bytes [80]); reflexivity).
  destruct (elf_load_spec pages_tables prog_file no_pages no_pages_ok Hb) as (o & s1 & E & Hs & _);
    [vm_compute; reflexivity|exact prog_in_user|]. unfold prog_pages. by rewrite E.
Qed.

Lemma prog_image_user : user_image prog_image.
Proof. split; [done|]. constructor; [|constructor]. vm_compute. split; [discriminate|reflexivity]. Qed.



Lemma dynlink_resolves_first_witness :
  let img := image_info lib_file LIB_VIRT_BASE (mkElf [mkSeg 0 0 200] true 120 32 0 true) in
  dynlink_resolve_cb img [] [102] = LIB_VIRT_BASE + 196 /\
  exists i img' di sym, [img] !! i = Some img' /\ dynamic img' = Some di /\
    c_string (data img') (strtab_off di +₃₂ st_name sym) [102].
Proof.
  intros img. assert (Hr : dynlink_resolve_cb img [] [102] = LIB_VIRT_BASE + 196) by (vm_compute; reflexivity).
  split; [exact Hr|].
  destruct (dynlink_resolves_first img [] [102]) as [[H0 _]|(i & img' & di & sym & Hi & _ & _ & _ & Hd & _ & _ & _ & Hs)].
  - repeat constructor.
  - rewrite Hr in H0. discriminate.
  - exists i, img', di, sym. split; [exact Hi|]. split; [exact Hd|exact Hs].
Defined.

Lemma dynlink_wrap_unmapped_witness :
  exec_image ({[ [80] := wrap_file ]} : FileStore) [80] no_pages = Panic.
Proof. apply dynlink_wrap_unmapped. reflexivity. Defined.
