(* ===== verification/Journal.v ===== *)
(** * The write-ahead journal ([src/kernel/rust/journal.rs])

    Sectors are lists of 512 bytes, buffers of several sectors lists of sectors.
    The disk under the journal is [Dev]: sector contents, the active device and
    partition offset of [blockdev.c], sectors whose access fails, and how many
    sector writes reach the disk before power is lost ([None]: no loss).  A single
    sector write is atomic and writes reach the disk in the order they are issued,
    as the module's header assumes; what runs after the loss changes nothing. *)

From S2P Require Import Prelude.
Local Open Scope Z_scope.
Local Open Scope machine_scope.

(** ** The block device *)

Record Dev : Type := mkDev {
  sectors : Z -> list Z;
  power : option nat;
  active_device : Z;
  partition_offset : Z;
  bad : Z -> bool;
}.

Definition upd (f : Z -> list Z) (a : Z) (s : list Z) : Z -> list Z :=
  fun x => if x =? a then s else f x.

(** One sector write. *)
Definition write_sector (lba : Z) (s : list Z) (d : Dev) : Dev :=
  match power d with
  | Some O => d
  | Some (S n) => mkDev (upd (sectors d) lba s) (Some n) (active_device d) (partition_offset d) (bad d)
  | None => mkDev (upd (sectors d) lba s) None (active_device d) (partition_offset d) (bad d)
  end.

Fixpoint dispatch_write (lba : Z) (ss : list (list Z)) (d : Dev) : bool * Dev :=
  match ss with
  | [] => (true, d)
  | s :: ss' =>
      if bad d lba then (false, d) else dispatch_write (lba + 1) ss' (write_sector lba s d)
  end.

(** [false] with the sectors read before the failure. *)
Fixpoint dispatch_read (lba : Z) (n : nat) (d : Dev) : bool * list (list Z) :=
  match n with
  | O => (true, [])
  | S n' =>
      if bad d lba then (false, [])
      else let '(ok, ss) := dispatch_read (lba + 1) n' d in (ok, sectors d lba :: ss)
  end.

Definition blockdev_current (d : Dev) : Z := active_device d.

Definition blockdev_read_sectors (lba : Z) (n : nat) (d : Dev) : bool * list (list Z) :=
  dispatch_read (lba +₃₂ partition_offset d) n d.

Definition blockdev_write_sectors (lba : Z) (ss : list (list Z)) (d : Dev) : bool * Dev :=
  dispatch_write (lba +₃₂ partition_offset d) ss d.

Definition blockdev_read_sectors_absolute (lba : Z) (n : nat) (d : Dev) :
    bool * list (list Z) :=
  dispatch_read lba n d.

Definition blockdev_write_sectors_absolute (lba : Z) (ss : list (list Z)) (d : Dev) :
    bool * Dev :=
  dispatch_write lba ss d.

#[global] Arguments blockdev_read_sectors : simpl never.
#[global] Arguments blockdev_write_sectors : simpl never.
#[global] Arguments blockdev_read_sectors_absolute : simpl never.
#[global] Arguments blockdev_write_sectors_absolute : simpl never.

(** ** Constants *)

Definition SECTOR_SIZE : nat := 512.
Definition MAX_TXN_BLOCKS : nat := 128.
Definition DESCRIPTOR_SECTORS : nat := 2.
Definition DESCRIPTOR_BYTES : nat := DESCRIPTOR_SECTORS * SECTOR_SIZE.
Definition OFF_MAGIC : nat := 0.
Definition OFF_SEQ : nat := 4.
Definition OFF_BLOCK_COUNT : nat := 8.
Definition OFF_CHECKSUM : nat := 12.
Definition OFF_COMMIT_FLAG : nat := 16.
Definition OFF_TARGETS_ABSOLUTE : nat := 20.
Definition OFF_TARGET_LBA : nat := 24.
Definition MAGIC : Z := 0x4C524E4A.
Definition COMMIT_MAGIC : Z := 0x54494D43.

#[global] Arguments OFF_MAGIC : simpl never.
#[global] Arguments OFF_SEQ : simpl never.
#[global] Arguments OFF_BLOCK_COUNT : simpl never.
#[global] Arguments OFF_CHECKSUM : simpl never.
#[global] Arguments OFF_COMMIT_FLAG : simpl never.
#[global] Arguments OFF_TARGETS_ABSOLUTE : simpl never.
#[global] Arguments OFF_TARGET_LBA : simpl never.
#[global] Arguments DESCRIPTOR_SECTORS : simpl never.
#[global] Arguments SECTOR_SIZE : simpl never.
#[global] Arguments MAX_TXN_BLOCKS : simpl never.
#[global] Arguments DESCRIPTOR_BYTES : simpl never.

(** ** Bytes *)

Definition le_bytes (v : Z) : list Z :=
  [v mod 256; v / 256 mod 256; v / 65536 mod 256; v / 16777216 mod 256].

(** [buf[off..off + 4].copy_from_slice(..)]: panics out of range. *)
Definition put_u32_le (buf : list Z) (off : nat) (v : Z) : outcome (list Z) :=
  if (off + 4 <=? length buf)%nat
  then Done (take off buf ++ le_bytes v ++ drop (off + 4) buf)
  else Panic.

Definition get_u32_le (buf : list Z) (off : nat) : outcome Z :=
  b0 ← index buf off;
  b1 ← index buf (off + 1);
  b2 ← index buf (off + 2);
  b3 ← index buf (off + 3);
  Done (b0 + 256 * b1 + 65536 * b2 + 16777216 * b3).

(** [&buf[a..b]]. *)
Definition slice {A} (buf : list A) (a b : nat) : outcome (list A) :=
  if (a <=? b)%nat && (b <=? length buf)%nat then Done (take (b - a) (drop a buf)) else Panic.

Definition fnv1a_fold (h : Z) (bytes : list Z) : Z :=
  foldl (fun h b => wrap32 (Z.lxor h b * 0x01000193)) h bytes.

Definition compute_checksum (lba_bytes : list Z) (data_blocks : list (list Z)) : Z :=
  foldl fnv1a_fold (fnv1a_fold 0x811c9dc5 lba_bytes) data_blocks.

(** ** State *)

Record JournalState : Type := mkJs {
  configured : bool;
  configured_device : Z;
  journal_start_lba : Z;
  journal_len_sectors : Z;
  seq : Z;
  depth : Z;
  targets_absolute : bool;
  shadow_count : nat;
  shadow_lba : list Z;
  shadow_data : list (list Z);
}.

Definition JournalState_new : JournalState :=
  mkJs false (-1) 0 0 0 0 false 0 (replicate MAX_TXN_BLOCKS 0)
       (replicate MAX_TXN_BLOCKS (replicate SECTOR_SIZE 0)).

(** Field updates. *)
Definition set_shadow (n : nat) (lbas : list Z) (data : list (list Z)) (js : JournalState) :
    JournalState :=
  mkJs (configured js) (configured_device js) (journal_start_lba js) (journal_len_sectors js)
       (seq js) (depth js) (targets_absolute js) n lbas data.
Definition set_depth (n : Z) (js : JournalState) : JournalState :=
  mkJs (configured js) (configured_device js) (journal_start_lba js) (journal_len_sectors js)
       (seq js) n (targets_absolute js) (shadow_count js) (shadow_lba js) (shadow_data js).
Definition set_seq (n : Z) (js : JournalState) : JournalState :=
  mkJs (configured js) (configured_device js) (journal_start_lba js) (journal_len_sectors js)
       n (depth js) (targets_absolute js) (shadow_count js) (shadow_lba js) (shadow_data js).
Definition set_absolute (b : bool) (js : JournalState) : JournalState :=
  mkJs (configured js) (configured_device js) (journal_start_lba js) (journal_len_sectors js)
       (seq js) (depth js) b (shadow_count js) (shadow_lba js) (shadow_data js).

(** [for i in i..i+n { if lbas[i] == lba { return Some(i) } }]. *)
Fixpoint find_loop (n i : nat) (lbas : list Z) (lba : Z) : outcome (option nat) :=
  match n with
  | O => Done None
  | S n' =>
      l ← index lbas i;
      if l =? lba then Done (Some i) else find_loop n' (S i) lbas lba
  end.

Definition find_shadow (js : JournalState) (lba : Z) : outcome (option nat) :=
  find_loop (shadow_count js) 0 (shadow_lba js) lba.

(** ** Reading and writing sectors *)

(** Sectors [i] to [i+n] of a read inside a transaction: the shadow first. *)
Fixpoint read_loop (n i : nat) (js : JournalState) (lba : Z) (d : Dev) :
    outcome (bool * list (list Z)) :=
  match n with
  | O => Done (true, [])
  | S n' =>
      let cur_lba := lba +₃₂ Z.of_nat i in
      r ← find_shadow js cur_lba;
      match r with
      | Some idx =>
          s ← index (shadow_data js) idx;
          '(ok, ss) ← read_loop n' (S i) js lba d;
          Done (ok, s :: ss)
      | None =>
          let '(ok, got) := blockdev_read_sectors cur_lba 1 d in
          if negb ok then Done (false, got)
          else
            '(ok', ss) ← read_loop n' (S i) js lba d;
            Done (ok', got ++ ss)
      end
  end.

(** The success flag and the sectors stored at [dst]. *)
Definition read_sectors_internal (js : JournalState) (lba : Z) (count : nat) (d : Dev) :
    outcome (bool * list (list Z)) :=
  if depth js =? 0 then Done (blockdev_read_sectors lba count d)
  else read_loop count 0 js lba d.

(** The sectors [ss], from the [i]-th on, go to the shadow. *)
Fixpoint write_loop (i : nat) (ss : list (list Z)) (js : JournalState) (lba : Z) :
    outcome (bool * JournalState) :=
  match ss with
  | [] => Done (true, js)
  | s :: ss' =>
      let cur_lba := lba +₃₂ Z.of_nat i in
      r ← find_shadow js cur_lba;
      match r with
      | Some idx =>
          data ← store (shadow_data js) idx s;
          write_loop (S i) ss' (set_shadow (shadow_count js) (shadow_lba js) data js) lba
      | None =>
          if (MAX_TXN_BLOCKS <=? shadow_count js)%nat then Done (false, js)
          else
            let idx := shadow_count js in
            lbas ← store (shadow_lba js) idx cur_lba;
            data ← store (shadow_data js) idx s;
            write_loop (S i) ss' (set_shadow (S idx) lbas data js) lba
      end
  end.

Definition write_sectors_internal (js : JournalState) (lba : Z) (ss : list (list Z)) (d : Dev) :
    outcome (bool * JournalState * Dev) :=
  if depth js =? 0
  then let '(ok, d') := blockdev_write_sectors lba ss d in Done (ok, js, d')
  else '(ok, js') ← write_loop 0 ss js lba; Done (ok, js', d).

Definition journal_region_usable (js : JournalState) (d : Dev) : bool :=
  configured js && (blockdev_current d =? configured_device js).

(** ** Commit *)

(** [for i in i..i+n { put_u32_le(desc, OFF_TARGET_LBA + i * 4, shadow_lba[i]) }]. *)
Fixpoint put_targets (n i : nat) (lbas : list Z) (desc : list Z) : outcome (list Z) :=
  match n with
  | O => Done desc
  | S n' =>
      l ← index lbas i;
      desc ← put_u32_le desc (OFF_TARGET_LBA + i * 4) l;
      put_targets n' (S i) lbas desc
  end.

(** The descriptor of the open transaction, not yet marked committed. *)
Definition descriptor (js : JournalState) : outcome (list Z) :=
  desc ← put_u32_le (replicate DESCRIPTOR_BYTES 0) OFF_MAGIC MAGIC;
  desc ← put_u32_le desc OFF_SEQ (seq js);
  desc ← put_u32_le desc OFF_BLOCK_COUNT (wrap32 (Z.of_nat (shadow_count js)));
  desc ← put_u32_le desc OFF_COMMIT_FLAG 0;
  desc ← put_u32_le desc OFF_TARGETS_ABSOLUTE (Z.b2z (targets_absolute js));
  desc ← put_targets (shadow_count js) 0 (shadow_lba js) desc;
  lba_bytes ← slice desc OFF_TARGET_LBA (OFF_TARGET_LBA + shadow_count js * 4);
  blocks ← slice (shadow_data js) 0 (shadow_count js);
  put_u32_le desc OFF_CHECKSUM (compute_checksum lba_bytes blocks).

(** The two sectors of a descriptor. *)
Definition desc_sectors (desc : list Z) : list (list Z) :=
  [take SECTOR_SIZE desc; drop SECTOR_SIZE desc].

(** The data blocks [i] to [i+n] go to the journal region. *)
Fixpoint data_loop (n i : nat) (js : JournalState) (d : Dev) : outcome (bool * Dev) :=
  match n with
  | O => Done (true, d)
  | S n' =>
      let lba := journal_start_lba js +₃₂ Z.of_nat DESCRIPTOR_SECTORS +₃₂ Z.of_nat i in
      s ← index (shadow_data js) i;
      let '(ok, d') := blockdev_write_sectors_absolute lba [s] d in
      if negb ok then Done (false, d') else data_loop n' (S i) js d'
  end.

Definition commit_durable_internal (js : JournalState) (d : Dev) :
    outcome (bool * JournalState * Dev) :=
  if negb (journal_region_usable js d) || (shadow_count js =? 0)%nat
  then Done (true, js, d)
  else
    desc ← descriptor js;
    let '(ok, d1) := blockdev_write_sectors_absolute (journal_start_lba js) (desc_sectors desc) d in
    if negb ok then Done (false, js, d1)
    else
      '(ok, d2) ← data_loop (shadow_count js) 0 js d1;
      if negb ok then Done (false, js, d2)
      else
        desc' ← put_u32_le desc OFF_COMMIT_FLAG COMMIT_MAGIC;
        let '(ok, d3) :=
          blockdev_write_sectors_absolute (journal_start_lba js) (desc_sectors desc') d2 in
        if negb ok then Done (false, js, d3)
        else Done (true, set_seq (seq js +₃₂ 1) js, d3).

(** ** Checkpoint *)

Fixpoint checkpoint_loop (n i : nat) (js : JournalState) (ok : bool) (d : Dev) :
    outcome (bool * Dev) :=
  match n with
  | O => Done (ok, d)
  | S n' =>
      lba ← index (shadow_lba js) i;
      s ← index (shadow_data js) i;
      let '(wrote, d') :=
        if targets_absolute js then blockdev_write_sectors_absolute lba [s] d
        else blockdev_write_sectors lba [s] d in
      checkpoint_loop n' (S i) js (if negb wrote then false else ok) d'
  end.

(** Zeroes the first descriptor sector; a failure is ignored. *)
Definition invalidate (js : JournalState) (d : Dev) : Dev :=
  (blockdev_write_sectors_absolute (journal_start_lba js) [replicate SECTOR_SIZE 0] d).2.

Definition checkpoint_internal (js : JournalState) (d : Dev) :
    outcome (bool * JournalState * Dev) :=
  '(ok, d1) ← checkpoint_loop (shadow_count js) 0 js true d;
  let d2 := if journal_region_usable js d1 && (0 <? shadow_count js)%nat
            then invalidate js d1 else d1 in
  Done (ok, set_absolute false (set_shadow 0 (shadow_lba js) (shadow_data js) js), d2).

(** ** Recovery *)

(** The blocks [i] to [i+n] of the journal region go to the shadow; [false] on a
    read error. *)
Fixpoint load_loop (n i : nat) (desc : list Z) (js : JournalState) (d : Dev) :
    outcome (bool * JournalState) :=
  match n with
  | O => Done (true, js)
  | S n' =>
      l ← get_u32_le desc (OFF_TARGET_LBA + i * 4);
      lbas ← store (shadow_lba js) i l;
      let js1 := set_shadow (shadow_count js) lbas (shadow_data js) js in
      let lba := journal_start_lba js +₃₂ Z.of_nat DESCRIPTOR_SECTORS +₃₂ Z.of_nat i in
      let '(ok, got) := blockdev_read_sectors_absolute lba 1 d in
      if negb ok then Done (false, js1)
      else
        s ← index got 0;
        data ← store (shadow_data js1) i s;
        load_loop n' (S i) desc (set_shadow (shadow_count js) lbas data js1) d
  end.

Definition recover_internal (js : JournalState) (d : Dev) : outcome (Z * JournalState * Dev) :=
  if negb (journal_region_usable js d) then Done (0, js, d)
  else
    let '(read_ok, got) :=
      blockdev_read_sectors_absolute (journal_start_lba js) DESCRIPTOR_SECTORS d in
    if negb read_ok then Done (-1, js, d)
    else
      let desc := concat got in
      magic ← get_u32_le desc OFF_MAGIC;
      count ← get_u32_le desc OFF_BLOCK_COUNT;
      let block_count := Z.to_nat count in
      stored_checksum ← get_u32_le desc OFF_CHECKSUM;
      commit_flag ← get_u32_le desc OFF_COMMIT_FLAG;
      absolute ← get_u32_le desc OFF_TARGETS_ABSOLUTE;
      if negb (magic =? MAGIC) || negb (commit_flag =? COMMIT_MAGIC)
         || (block_count =? 0)%nat || (MAX_TXN_BLOCKS <? block_count)%nat
      then Done (0, js, d)
      else
        '(ok, js1) ← load_loop block_count 0 desc js d;
        if negb ok then Done (-1, js1, d)
        else
          lba_bytes ← slice desc OFF_TARGET_LBA (OFF_TARGET_LBA + block_count * 4);
          blocks ← slice (shadow_data js1) 0 block_count;
          if negb (compute_checksum lba_bytes blocks =? stored_checksum)
          then Done (0, js1, invalidate js1 d)
          else
            let js2 := set_absolute (negb (absolute =? 0))
                         (set_shadow block_count (shadow_lba js1) (shadow_data js1) js1) in
            '(ok, js3, d') ← checkpoint_internal js2 d;
            Done (if ok : bool then Z.of_nat block_count else -1, js3, d').

(** ** Entry points *)

Definition rust_journal_configure (start_lba len_sectors : Z) (js : JournalState) (d : Dev) :
    JournalState :=
  mkJs (wrap32 (Z.of_nat (DESCRIPTOR_SECTORS + MAX_TXN_BLOCKS)) <=? len_sectors)
       (blockdev_current d) start_lba len_sectors (seq js) (depth js) (targets_absolute js)
       (shadow_count js) (shadow_lba js) (shadow_data js).

Definition rust_journal_recover (js : JournalState) (d : Dev) :
    outcome (Z * JournalState * Dev) :=
  recover_internal js d.

Definition rust_journal_begin (js : JournalState) : JournalState :=
  set_depth (depth js +₃₂ 1) js.

Definition rust_journal_commit (js : JournalState) (d : Dev) :
    outcome (bool * JournalState * Dev) :=
  if depth js =? 0 then Done (true, js, d)
  else
    let js := set_depth (depth js -₃₂ 1) js in
    if 0 <? depth js then Done (true, js, d)
    else
      '(durable_ok, js1, d1) ← commit_durable_internal js d;
      '(checkpoint_ok, js2, d2) ← checkpoint_internal js1 d1;
      Done (durable_ok && checkpoint_ok, js2, d2).

Definition rust_journal_read_sectors (lba : Z) (count : nat) (js : JournalState) (d : Dev) :
    outcome (bool * list (list Z)) :=
  read_sectors_internal js lba count d.

Definition rust_journal_write_sectors (lba : Z) (ss : list (list Z)) (js : JournalState)
    (d : Dev) : outcome (bool * JournalState * Dev) :=
  write_sectors_internal js lba ss d.

(** ** The boot self-test *)

(** [round_ctr] is the [SELFTEST_ROUND] counter; the result carries its new value. *)
Definition rust_journal_selftest (round_ctr : Z) (js : JournalState) (d : Dev) :
    outcome (Z * Z * JournalState * Dev) :=
  if negb (journal_region_usable js d) then Done (-1, round_ctr, js, d)
  else if journal_len_sectors js <? 16 then Done (-2, round_ctr, js, d)
  else
    let round := round_ctr mod 4 in
    let round_ctr := round_ctr +₃₂ 1 in
    let scratch_base :=
      journal_start_lba js +₃₂ journal_len_sectors js -₃₂ 16 +₃₂ round *₃₂ 2 in
    let scratch_a := scratch_base in
    let pattern_a := replicate SECTOR_SIZE 0xAB in
    let reset (js : JournalState) (dp : Z) (ab : bool) :=
      set_absolute ab (set_depth dp (set_shadow 0 (shadow_lba js) (shadow_data js) js)) in
    '(wrote, js, d) ← write_sectors_internal (reset js 1 true) scratch_a [pattern_a] d;
    '(durable_ok, js, d) ←
      (if wrote : bool then commit_durable_internal js d else Done (false, js, d));
    '(recovered_a, js, d) ← recover_internal (reset js 0 false) d;
    let '(read_a_ok, verify_a) := blockdev_read_sectors_absolute scratch_a 1 d in
    let part_a_ok := durable_ok && (recovered_a =? 1) && read_a_ok
                     && bool_decide (verify_a = [pattern_a]) in
    let code := if negb part_a_ok then Z.lor 0 1 else 0 in
    let scratch_b := scratch_base +₃₂ 1 in
    let before_b := replicate SECTOR_SIZE 0x00 in
    let d := (blockdev_write_sectors_absolute scratch_b [before_b] d).2 in
    let pattern_b := replicate SECTOR_SIZE 0xCD in
    '(_, js, d) ← write_sectors_internal (reset js 1 true) scratch_b [pattern_b] d;
    '(recovered_b, js, d) ← recover_internal (reset js 0 false) d;
    let '(read_b_ok, verify_b) := blockdev_read_sectors_absolute scratch_b 1 d in
    let part_b_ok := (recovered_b =? 0) && read_b_ok && bool_decide (verify_b = [before_b]) in
    Done (if negb part_b_ok then Z.lor code 2 else code, round_ctr, js, d).
