(* ===== verification/JournalDisk.v ===== *)
(** * The journal descriptor

    Writing a descriptor and reading it back: little-endian fields at fixed
    offsets do not disturb each other, and every field of the transaction is
    recovered. *)

From S2P Require Import Prelude Journal.
Local Open Scope Z_scope.

#[local] Arguments Nat.add : simpl never.
#[local] Arguments Nat.mul : simpl never.

Lemma word_bytes_length v : length (le_bytes v) = 4%nat.
Proof. done. Qed.

(** A stored field: its four bytes, the rest as before. *)
Lemma put_u32_le_Done buf off v :
  (off + 4 <= length buf)%nat ->
  exists buf', put_u32_le buf off v = Done buf' /\ length buf' = length buf /\
    (forall k, (k < 4)%nat -> buf' !! (off + k)%nat = le_bytes v !! k) /\
    (forall k, (k < off)%nat \/ (off + 4 <= k)%nat -> buf' !! k = buf !! k).
Proof.
  intros Hlen. unfold put_u32_le. replace (off + 4 <=? length buf)%nat with true by lia.
  eexists. split; [done|]. split.
  - rewrite !length_app, length_take, length_drop, word_bytes_length. lia.
  - split.
    + intros k Hk. rewrite lookup_app_r by (rewrite length_take; lia).
      rewrite length_take_le by lia. rewrite lookup_app_l by (rewrite word_bytes_length; lia).
      f_equal. lia.
    + intros k [Hk|Hk].
      * rewrite lookup_app_l by (rewrite length_take; lia). by apply lookup_take_lt.
      * rewrite lookup_app_r by (rewrite length_take; lia). rewrite length_take_le by lia.
        rewrite lookup_app_r by (rewrite word_bytes_length; lia). rewrite lookup_drop, word_bytes_length.
        f_equal. lia.
Qed.

Lemma le_bytes_value v :
  is_u32 v ->
  v mod 256 + 256 * (v / 256 mod 256) + 65536 * (v / 65536 mod 256)
    + 16777216 * (v / 16777216 mod 256) = v.
Proof. unfold is_u32. intros Hv. Z.to_euclidean_division_equations. lia. Qed.

Lemma get_u32_le_put buf off v :
  is_u32 v -> (forall k, (k < 4)%nat -> buf !! (off + k)%nat = le_bytes v !! k) ->
  get_u32_le buf off = Done v.
Proof.
  intros Hv Hk. unfold get_u32_le.
  pose proof (Hk 0%nat ltac:(lia)) as H0. rewrite Nat.add_0_r in H0.
  rewrite (index_at H0), (index_at (Hk 1%nat ltac:(lia))),
    (index_at (Hk 2%nat ltac:(lia))), (index_at (Hk 3%nat ltac:(lia))).
  simpl. f_equal. by apply le_bytes_value.
Qed.

(** A read depends on its four bytes only. *)
Lemma get_u32_le_ext buf buf' off :
  (forall k, (off <= k < off + 4)%nat -> buf' !! k = buf !! k) ->
  get_u32_le buf' off = get_u32_le buf off.
Proof.
  intros Hk. unfold get_u32_le, index. rewrite !Hk by lia. done.
Qed.

Lemma slice_ext {A} (buf buf' : list A) a b :
  length buf' = length buf -> (forall k, (a <= k < b)%nat -> buf' !! k = buf !! k) ->
  slice buf' a b = slice buf a b.
Proof.
  intros Hlen Hk. unfold slice. rewrite Hlen. destruct ((a <=? b)%nat && (b <=? length buf)%nat) eqn:E; [|done].
  f_equal. apply list_eq. intros i. destruct (decide (i < b - a)%nat).
  - rewrite !lookup_take_lt, !lookup_drop by lia. apply Hk. lia.
  - rewrite !lookup_take_ge by lia. done.
Qed.

Lemma slice_Done {A} (buf : list A) a b :
  (a <= b <= length buf)%nat -> slice buf a b = Done (take (b - a) (drop a buf)).
Proof.
  intros Hab. unfold slice. by replace ((a <=? b)%nat && (b <=? length buf)%nat) with true by lia.
Qed.

(** The target table of a descriptor. *)
Lemma put_targets_spec n i lbas desc :
  (i + n <= length lbas)%nat -> (OFF_TARGET_LBA + (i + n) * 4 <= length desc)%nat ->
  Forall is_u32 lbas ->
  exists desc', put_targets n i lbas desc = Done desc' /\ length desc' = length desc /\
    (forall k, (k < OFF_TARGET_LBA + i * 4)%nat -> desc' !! k = desc !! k) /\
    (forall j l, (i <= j < i + n)%nat -> lbas !! j = Some l ->
       get_u32_le desc' (OFF_TARGET_LBA + j * 4) = Done l).
Proof.
  revert i desc. induction n as [|n IH]; intros i desc Hl Hd Hu; simpl.
  { exists desc. split; [done|]. split; [done|]. split; [done|]. intros j l Hj. lia. }
  destruct (lookup_lt_is_Some_2 lbas i) as [l Hli]; [lia|].
  rewrite (index_at Hli). simpl.
    destruct (put_u32_le_Done desc (OFF_TARGET_LBA + i * 4) l) as (d1 & -> & Hlen1 & Hin & Hout); [lia|].
  simpl. destruct (IH (S i) d1) as (d2 & -> & Hlen2 & Hlow & Hget); [lia|lia|done|].
  exists d2. split; [done|]. split; [lia|]. split.
  - intros k Hk. rewrite Hlow by lia. apply Hout. lia.
  - intros j l' Hj Hlj. destruct (decide (j = i)) as [->|]; [|apply Hget; [lia|done]].
    simplify_eq. rewrite (get_u32_le_ext d1) by (intros; apply Hlow; lia).
    apply get_u32_le_put; [|done]. by eapply Forall_lookup_1.
Qed.

(** What recovery reads from a descriptor. *)
Record describes (desc : list Z) (n : nat) (lbas : list Z) (blocks : list (list Z))
    (absolute : bool) (flag : Z) : Prop := {
  ds_length : length desc = DESCRIPTOR_BYTES;
  ds_magic : get_u32_le desc OFF_MAGIC = Done MAGIC;
  ds_count : get_u32_le desc OFF_BLOCK_COUNT = Done (Z.of_nat n);
  ds_flag : get_u32_le desc OFF_COMMIT_FLAG = Done flag;
  ds_absolute : get_u32_le desc OFF_TARGETS_ABSOLUTE = Done (Z.b2z absolute);
  ds_targets : forall i l, (i < n)%nat -> lbas !! i = Some l ->
    get_u32_le desc (OFF_TARGET_LBA + i * 4) = Done l;
  ds_checksum : exists bytes, slice desc OFF_TARGET_LBA (OFF_TARGET_LBA + n * 4) = Done bytes /\
    get_u32_le desc OFF_CHECKSUM = Done (compute_checksum bytes blocks);
}.

Lemma fnv1a_fold_u32 h bytes : is_u32 h -> is_u32 (fnv1a_fold h bytes).
Proof.
  unfold fnv1a_fold. revert h. induction bytes as [|b bytes IH]; intros h Hh; simpl; [done|].
  apply IH. unfold wrap32, is_u32. apply Z.mod_pos_bound. lia.
Qed.

Lemma compute_checksum_u32 bytes blocks : is_u32 (compute_checksum bytes blocks).
Proof.
  unfold compute_checksum. assert (H0 : is_u32 (fnv1a_fold 0x811c9dc5 bytes)) by by apply fnv1a_fold_u32.
  revert H0. generalize (fnv1a_fold 0x811c9dc5 bytes). induction blocks as [|b blocks IH]; intros h Hh; [done|].
  simpl. apply IH. by apply fnv1a_fold_u32.
Qed.

(** *** A field survives the other stores *)

Lemma put_total buf off v :
  (off + 4 <= length buf)%nat ->
  exists buf', put_u32_le buf off v = Done buf' /\ length buf' = length buf.
Proof. intros Hl. destruct (put_u32_le_Done buf off v Hl) as (b & E & Hlen & _). eauto. Qed.

Lemma put_gets buf buf' off v :
  put_u32_le buf off v = Done buf' -> is_u32 v -> get_u32_le buf' off = Done v.
Proof.
  intros E Hv. assert (Hl : (off + 4 <= length buf)%nat).
  { unfold put_u32_le in E. destruct (off + 4 <=? length buf)%nat eqn:Hl; [lia|done]. }
  destruct (put_u32_le_Done buf off v Hl) as (b & E1 & _ & Hin & _). rewrite E in E1. simplify_eq.
  by apply get_u32_le_put.
Qed.

Lemma put_lookup buf buf' off v k :
  put_u32_le buf off v = Done buf' -> (k < off)%nat \/ (off + 4 <= k)%nat -> buf' !! k = buf !! k.
Proof.
  intros E Hk. assert (Hl : (off + 4 <= length buf)%nat).
  { unfold put_u32_le in E. destruct (off + 4 <=? length buf)%nat eqn:Hl; [lia|done]. }
  destruct (put_u32_le_Done buf off v Hl) as (b & E1 & _ & _ & Hout). rewrite E in E1. simplify_eq.
  by apply Hout.
Qed.

Lemma put_keeps buf buf' off v off' x :
  put_u32_le buf off v = Done buf' -> (off' + 4 <= off)%nat \/ (off + 4 <= off')%nat ->
  get_u32_le buf off' = Done x -> get_u32_le buf' off' = Done x.
Proof.
  intros E Ho <-. apply get_u32_le_ext. intros k Hk. eapply put_lookup; [done|lia].
Qed.

(** The shadow table of a transaction is well formed. *)
Record shadow_ok (js : JournalState) : Prop := {
  sh_lbas : length (shadow_lba js) = MAX_TXN_BLOCKS;
  sh_data : length (shadow_data js) = MAX_TXN_BLOCKS;
  sh_count : (shadow_count js <= MAX_TXN_BLOCKS)%nat;
  sh_u32 : Forall is_u32 (shadow_lba js);
  sh_distinct : NoDup (take (shadow_count js) (shadow_lba js));
  sh_sizes : Forall (fun s => length s = SECTOR_SIZE) (shadow_data js);
}.

Ltac offsets := unfold OFF_MAGIC, OFF_SEQ, OFF_BLOCK_COUNT, OFF_CHECKSUM, OFF_COMMIT_FLAG,
  OFF_TARGETS_ABSOLUTE, OFF_TARGET_LBA, DESCRIPTOR_BYTES, DESCRIPTOR_SECTORS, SECTOR_SIZE,
  MAX_TXN_BLOCKS in *; lia.

(** A field through a chain of later stores. *)
Ltac field_kept :=
  repeat match goal with
  | E : put_u32_le _ _ _ = Done ?b |- get_u32_le ?b _ = Done _ =>
      first [ eapply put_gets; [exact E|done]
            | eapply put_keeps; [exact E|offsets|] ]
  end.

Lemma descriptor_spec js :
  shadow_ok js -> is_u32 (seq js) ->
  exists desc desc', descriptor js = Done desc /\
    put_u32_le desc OFF_COMMIT_FLAG COMMIT_MAGIC = Done desc' /\
    describes desc (shadow_count js) (shadow_lba js) (take (shadow_count js) (shadow_data js))
      (targets_absolute js) 0 /\
    describes desc' (shadow_count js) (shadow_lba js) (take (shadow_count js) (shadow_data js))
      (targets_absolute js) COMMIT_MAGIC /\
    drop SECTOR_SIZE desc' = drop SECTOR_SIZE desc.
Proof.
  intros [Hl Hd Hc Hu _ _] Hseq. unfold descriptor.
  assert (H0 : length (replicate DESCRIPTOR_BYTES 0) = DESCRIPTOR_BYTES) by apply length_replicate.
  destruct (put_total (replicate DESCRIPTOR_BYTES 0) OFF_MAGIC MAGIC) as (d1 & E1 & L1); [offsets|].
  rewrite E1; simpl.
  destruct (put_total d1 OFF_SEQ (seq js)) as (d2 & E2 & L2); [offsets|]. rewrite E2; simpl.
  rewrite wrap32_id by (unfold is_u32; offsets).
  destruct (put_total d2 OFF_BLOCK_COUNT (Z.of_nat (shadow_count js))) as (d3 & E3 & L3); [offsets|].
  rewrite E3; simpl.
  destruct (put_total d3 OFF_COMMIT_FLAG 0) as (d4 & E4 & L4); [offsets|]. rewrite E4; simpl.
  destruct (put_total d4 OFF_TARGETS_ABSOLUTE (Z.b2z (targets_absolute js))) as (d5 & E5 & L5); [offsets|].
  rewrite E5; simpl.
  destruct (put_targets_spec (shadow_count js) 0 (shadow_lba js) d5) as (d6 & E6 & L6 & Hlow & Htgt);
    [offsets|offsets|done|].
  rewrite E6; simpl. rewrite slice_Done by offsets. simpl. rewrite slice_Done by offsets. simpl.
  set (n := shadow_count js) in *.
  set (bytes := take (OFF_TARGET_LBA + n * 4 - OFF_TARGET_LBA) (drop OFF_TARGET_LBA d6)).
  set (blocks := take (n - 0) (drop 0 (shadow_data js))).
  destruct (put_total d6 OFF_CHECKSUM (compute_checksum bytes blocks)) as (d7 & E7 & L7); [offsets|].
  destruct (put_total d7 OFF_COMMIT_FLAG COMMIT_MAGIC) as (d8 & E8 & L8); [offsets|].
  assert (Hkeep : forall off x, (off + 4 <= OFF_TARGET_LBA)%nat ->
    get_u32_le d5 off = Done x -> get_u32_le d6 off = Done x).
  { intros off x Ho <-. apply get_u32_le_ext. intros k Hk. apply Hlow. offsets. }
  assert (Hslice6 : slice d6 OFF_TARGET_LBA (OFF_TARGET_LBA + n * 4) = Done bytes)
    by (apply slice_Done; offsets).
  assert (Hslice7 : slice d7 OFF_TARGET_LBA (OFF_TARGET_LBA + n * 4) = Done bytes).
  { rewrite <- Hslice6. apply slice_ext; [lia|]. intros k Hk. eapply put_lookup; [done|offsets]. }
  assert (Hblocks : blocks = take n (shadow_data js)) by (unfold blocks; by rewrite drop_0, Nat.sub_0_r).
  rewrite Hblocks in E7. assert (Hck : is_u32 (compute_checksum bytes (take n (shadow_data js))))
    by apply compute_checksum_u32.
  assert (Hn : is_u32 (Z.of_nat n)) by (unfold is_u32; offsets).
  assert (Hab : is_u32 (Z.b2z (targets_absolute js))) by (by destruct (targets_absolute js)).
  exists d7, d8. rewrite Hblocks. split; [done|]. split; [done|]. split; [|split].
  - split; [offsets|field_kept; (apply Hkeep; [offsets|field_kept]) ..| |].
    + intros i l Hi Hli. field_kept. apply Htgt; [lia|done].
    + exists bytes. split; [done|]. field_kept.
  - split; [offsets|field_kept; (apply Hkeep; [offsets|field_kept]) ..| |].
    + intros i l Hi Hli. field_kept. apply Htgt; [lia|done].
    + exists bytes. split; [|field_kept]. rewrite <- Hslice7. apply slice_ext; [lia|].
      intros k Hk. eapply put_lookup; [done|offsets].
  - apply list_eq. intros k. rewrite !lookup_drop. eapply put_lookup; [done|offsets].
Qed.

(** * The sector writes of the journal

    What commit, checkpoint and recovery do to a disk without failing sectors, as
    the list of sector writes they issue; with a power budget the disk keeps a
    prefix of that list. *)

#[local] Arguments Nat.add : simpl never.
#[local] Arguments Nat.mul : simpl never.

(** ** Lists of sector writes *)

Definition puts (W : list (Z * list Z)) (f : Z -> list Z) : Z -> list Z :=
  foldl (fun f w => upd f w.1 w.2) f W.

Definition apply_w (W : list (Z * list Z)) (d : Dev) : Dev :=
  foldl (fun d w => write_sector w.1 w.2 d) d W.

(** The sectors [ss] at [lba], [lba + 1], .. *)
Fixpoint from (lba : Z) (ss : list (list Z)) : list (Z * list Z) :=
  match ss with
  | [] => []
  | s :: ss' => (lba, s) :: from (lba + 1) ss'
  end.

(** The writes that reach the disk. *)
Definition landed (p : option nat) (W : list (Z * list Z)) : list (Z * list Z) :=
  match p with
  | None => W
  | Some n => take n W
  end.

Definition good (d : Dev) : Prop := forall a, bad d a = false.

Lemma puts_app W1 W2 f : puts (W1 ++ W2) f = puts W2 (puts W1 f).
Proof. apply foldl_app. Qed.

Lemma apply_w_app W1 W2 d : apply_w (W1 ++ W2) d = apply_w W2 (apply_w W1 d).
Proof. apply foldl_app. Qed.

(** What a write leaves alone. *)
Definition same_dev (d d' : Dev) : Prop :=
  active_device d' = active_device d /\ partition_offset d' = partition_offset d /\ bad d' = bad d.

Lemma write_sector_dev a s d : same_dev d (write_sector a s d).
Proof. unfold write_sector. by destruct (power d) as [[|n]|]. Qed.

Lemma apply_w_dev W d : same_dev d (apply_w W d).
Proof.
  revert d. induction W as [|[a s] W IH]; intros d; simpl; [done|].
  destruct (IH (write_sector a s d)) as (H1 & H2 & H3).
  destruct (write_sector_dev a s d) as (H4 & H5 & H6). unfold same_dev. simpl.
  split; [congruence|]. split; congruence.
Qed.

Lemma write_sector_good a s d : good d -> good (write_sector a s d).
Proof. intros Hg b. destruct (write_sector_dev a s d) as (_ & _ & ->). apply Hg. Qed.

Lemma apply_w_good W d : good d -> good (apply_w W d).
Proof. intros Hg a. destruct (apply_w_dev W d) as (_ & _ & ->). apply Hg. Qed.

Lemma apply_w_sectors W d : sectors (apply_w W d) = puts (landed (power d) W) (sectors d).
Proof.
  revert d. induction W as [|[a s] W IH]; intros d; simpl.
  { destruct (power d); simpl; [|done]. by rewrite take_nil. }
  rewrite IH. unfold write_sector. destruct (power d) as [[|n]|] eqn:Hp; simpl.
  - rewrite Hp. done.
  - done.
  - done.
Qed.

Lemma dispatch_write_good lba ss d : good d -> dispatch_write lba ss d = (true, apply_w (from lba ss) d).
Proof.
  revert lba d. induction ss as [|s ss IH]; intros lba d Hg; simpl; [done|].
  rewrite Hg, IH; [done|]. by apply write_sector_good.
Qed.

Lemma dispatch_read_good lba n d :
  good d -> dispatch_read lba n d = (true, (fun j => sectors d (lba + Z.of_nat j)) <$> List.seq 0 n).
Proof.
  intros Hg. revert lba. induction n as [|n IH]; intros lba; [done|]. cbn [dispatch_read]. rewrite Hg, IH. csimpl.
  rewrite Z.add_0_r, <- fmap_S_seq, <- list_fmap_compose. do 2 f_equal. apply list_fmap_ext. intros i j _.
  unfold compose. f_equal. lia.
Qed.

Lemma from_length lba ss : length (from lba ss) = length ss.
Proof. revert lba. induction ss as [|s ss IH]; intros lba; simpl; [done|]. by rewrite IH. Qed.

Lemma from_lookup lba ss i : from lba ss !! i = (fun s => (lba + Z.of_nat i, s)) <$> ss !! i.
Proof.
  revert lba i. induction ss as [|s ss IH]; intros lba [|i]; csimpl; [done|done| |].
  - by rewrite Z.add_0_r.
  - rewrite IH. destruct (ss !! i); csimpl; [|done]. f_equal. f_equal. lia.
Qed.

Lemma from_app lba ss1 ss2 :
  from lba (ss1 ++ ss2) = from lba ss1 ++ from (lba + Z.of_nat (length ss1)) ss2.
Proof.
  revert lba. induction ss1 as [|s ss1 IH]; intros lba; simpl; [by rewrite Z.add_0_r|].
  rewrite IH. f_equal. f_equal. f_equal. lia.
Qed.

Lemma puts_notin W f a : a ∉ W.*1 -> puts W f a = f a.
Proof.
  revert f. induction W as [|[b s] W IH]; intros f Hn; simpl; [done|].
  csimpl in Hn. apply not_elem_of_cons in Hn as [Hb Hn]. rewrite IH by done.
  unfold upd. by destruct (Z.eqb_spec a b).
Qed.

(** The last write to a sector decides. *)
Lemma puts_in W f a : a ∈ W.*1 -> forall f', puts W f a = puts W f' a.
Proof.
  revert f. induction W as [|[b s] W IH]; intros f Hin f'; csimpl in *; [by apply elem_of_nil in Hin|].
  destruct (decide (a ∈ W.*1)) as [Hw|Hw]; [by apply IH|].
  rewrite !puts_notin by done. apply elem_of_cons in Hin as [->|]; [|done].
  unfold upd. by rewrite Z.eqb_refl.
Qed.

Lemma puts_value W f a : a ∈ W.*1 -> (a, puts W f a) ∈ W.
Proof.
  revert f. induction W as [|[b s] W IH]; intros f Hin; csimpl in *; [by apply elem_of_nil in Hin|].
  destruct (decide (a ∈ W.*1)) as [Hw|Hw]; [right; by apply IH|].
  rewrite puts_notin by done. apply elem_of_cons in Hin as [->|]; [|done].
  unfold upd. rewrite Z.eqb_refl. by left.
Qed.

(** ** Commit and checkpoint as lists of writes *)

Section Region.
Context (js : JournalState) (J : Z).
Hypothesis (HJ : journal_start_lba js = J) (HJ0 : 0 <= J) (HJ1 : J + 130 <= 0x100000000).

Lemma data_lba i : (i < MAX_TXN_BLOCKS)%nat ->
  wrap32 (wrap32 (journal_start_lba js + Z.of_nat DESCRIPTOR_SECTORS) + Z.of_nat i) = J + 2 + Z.of_nat i.
Proof.
  intros Hi. unfold MAX_TXN_BLOCKS, DESCRIPTOR_SECTORS in *. rewrite HJ.
  rewrite (wrap32_id (J + _)) by auto with machine. rewrite wrap32_id by auto with machine. lia.
Qed.

Lemma data_loop_spec n i d :
  good d -> (i + n <= length (shadow_data js))%nat -> (i + n <= MAX_TXN_BLOCKS)%nat ->
  data_loop n i js d =
    Done (true, apply_w (from (J + 2 + Z.of_nat i) (take n (drop i (shadow_data js)))) d).
Proof.
  revert i d. induction n as [|n IH]; intros i d Hg Hl Hm; simpl; [done|].
  destruct (lookup_lt_is_Some_2 (shadow_data js) i) as [s Hs]; [lia|].
  rewrite (index_at Hs). simpl. rewrite data_lba by lia.
  unfold blockdev_write_sectors_absolute. rewrite dispatch_write_good by done. simpl.
  rewrite IH; [|by apply write_sector_good|lia|lia].
  rewrite (drop_S _ _ _ Hs). simpl. do 3 f_equal. f_equal. lia.
Qed.

Definition phys (d : Dev) (absolute : bool) (l : Z) : Z :=
  if absolute then l else wrap32 (l + partition_offset d).

(** The checkpoint writes of the shadow. *)
Definition target_writes (d : Dev) (absolute : bool) (n : nat) (lbas : list Z) (data : list (list Z)) :
    list (Z * list Z) :=
  zip_with (fun l s => (phys d absolute l, s)) (take n lbas) (take n data).

Lemma phys_dev d d' ab l : same_dev d d' -> phys d' ab l = phys d ab l.
Proof. unfold phys. intros (_ & -> & _). done. Qed.

Lemma checkpoint_loop_spec n i d :
  good d -> (i + n <= length (shadow_lba js))%nat -> (i + n <= length (shadow_data js))%nat ->
  checkpoint_loop n i js true d =
    Done (true, apply_w (target_writes d (targets_absolute js) n (drop i (shadow_lba js))
                           (drop i (shadow_data js))) d).
Proof.
  revert i d. induction n as [|n IH]; intros i d Hg Hl Hd; simpl; [done|].
  destruct (lookup_lt_is_Some_2 (shadow_lba js) i) as [l Hli]; [lia|].
  destruct (lookup_lt_is_Some_2 (shadow_data js) i) as [s Hs]; [lia|].
  rewrite (index_at Hli). simpl. rewrite (index_at Hs). simpl.
  assert (Hw : (if targets_absolute js then blockdev_write_sectors_absolute l [s] d
                else blockdev_write_sectors l [s] d) =
               (true, apply_w [(phys d (targets_absolute js) l, s)] d)).
  { unfold phys, blockdev_write_sectors, blockdev_write_sectors_absolute.
    destruct (targets_absolute js); by rewrite dispatch_write_good. }
  rewrite Hw. simpl.
  rewrite IH; [|by apply write_sector_good|lia|lia].
  unfold target_writes. rewrite (drop_S _ _ _ Hli), (drop_S _ _ _ Hs). simpl. do 3 f_equal.
  apply zip_with_ext; [|done|done]. intros l' s'. f_equal.
  apply phys_dev. apply write_sector_dev.
Qed.

(** The writes of [commit_durable_internal]. *)
Definition journal_writes (n : nat) (desc desc' : list Z) : list (Z * list Z) :=
  from J (desc_sectors desc) ++ from (J + 2) (take n (shadow_data js)) ++ from J (desc_sectors desc').

Lemma commit_durable_spec d :
  good d -> shadow_ok js -> is_u32 (seq js) -> journal_region_usable js d = true ->
  (0 < shadow_count js)%nat ->
  exists desc desc', 
    commit_durable_internal js d =
      Done (true, set_seq (wrap32 (seq js + 1)) js,
            apply_w (journal_writes (shadow_count js) desc desc') d) /\
    describes desc (shadow_count js) (shadow_lba js) (take (shadow_count js) (shadow_data js))
      (targets_absolute js) 0 /\
    describes desc' (shadow_count js) (shadow_lba js) (take (shadow_count js) (shadow_data js))
      (targets_absolute js) COMMIT_MAGIC /\
    drop SECTOR_SIZE desc' = drop SECTOR_SIZE desc.
Proof.
  intros Hg Hsh Hseq Hus Hn. destruct (descriptor_spec js Hsh Hseq) as (desc & desc' & E1 & E2 & D1 & D2 & Hdr).
  exists desc, desc'. split; [|done]. unfold commit_durable_internal. rewrite Hus.
  replace (shadow_count js =? 0)%nat with false by lia. osimpl. rewrite E1. osimpl.
  unfold blockdev_write_sectors_absolute. rewrite HJ, dispatch_write_good by done. osimpl.
  destruct Hsh as [Hl Hd Hc _ _ _].
  rewrite data_loop_spec; [|by apply apply_w_good|lia|lia]. osimpl. rewrite E2. osimpl.
  rewrite dispatch_write_good by by apply apply_w_good, apply_w_good. osimpl.
  unfold journal_writes. rewrite Z.add_0_r, drop_0, !apply_w_app. done.
Qed.

Lemma invalidate_spec d :
  good d -> invalidate js d = apply_w [(J, replicate SECTOR_SIZE 0)] d.
Proof.
  intros Hg. unfold invalidate, blockdev_write_sectors_absolute. by rewrite HJ, dispatch_write_good.
Qed.

Definition checkpointed : JournalState :=
  set_absolute false (set_shadow 0 (shadow_lba js) (shadow_data js) js).

Lemma checkpoint_spec d :
  good d -> length (shadow_lba js) = MAX_TXN_BLOCKS -> length (shadow_data js) = MAX_TXN_BLOCKS ->
  (shadow_count js <= MAX_TXN_BLOCKS)%nat -> journal_region_usable js d = true ->
  (0 < shadow_count js)%nat ->
  checkpoint_internal js d =
    Done (true, checkpointed,
          apply_w (target_writes d (targets_absolute js) (shadow_count js) (shadow_lba js)
                     (shadow_data js) ++ [(J, replicate SECTOR_SIZE 0)]) d).
Proof.
  intros Hg Hl Hd Hc Hus Hn. unfold checkpoint_internal.
  rewrite checkpoint_loop_spec by (done || lia). simpl. rewrite !drop_0.
  set (W := target_writes _ _ _ _ _).
  assert (Hus' : journal_region_usable js (apply_w W d) = true).
  { unfold journal_region_usable, blockdev_current in *. by destruct (apply_w_dev W d) as (-> & _). }
  rewrite Hus'. replace (0 <? shadow_count js)%nat with true by lia. simpl.
  rewrite invalidate_spec by by apply apply_w_good. by rewrite apply_w_app.
Qed.
End Region.

#[global] Arguments phys : simpl never.
