(* ===== verification/JournalCrash.v ===== *)
(** * Crashes and recovery

    The three states a crash can leave behind (not committed, committed and partly
    checkpointed, checkpointed), that every prefix of a commit's writes is in one of
    them, and what recovery makes of each. *)

From S2P Require Import Prelude Journal JournalDisk.
Local Open Scope Z_scope.

#[local] Arguments Nat.add : simpl never.
#[local] Arguments Nat.mul : simpl never.

(** ** States of the disk *)

(** Every sector has its 512 bytes. *)
Definition sized (f : Z -> list Z) : Prop := forall a, length (f a) = SECTOR_SIZE.

Definition in_region (J a : Z) : Prop := J <= a < J + 130.

(** The first descriptor sector marks no committed transaction. *)
Definition clean (J : Z) (f : Z -> list Z) : Prop :=
  exists m c, get_u32_le (f J) OFF_MAGIC = Done m /\ get_u32_le (f J) OFF_COMMIT_FLAG = Done c /\
    (m <> MAGIC \/ c <> COMMIT_MAGIC).

(** The region holds a committed transaction. *)
Definition holds (J : Z) (n : nat) (lbas : list Z) (blocks : list (list Z)) (ab : bool)
    (f : Z -> list Z) : Prop :=
  exists desc, describes desc n lbas blocks ab COMMIT_MAGIC /\
    f J = take SECTOR_SIZE desc /\ f (J + 1) = drop SECTOR_SIZE desc /\
    forall i s, blocks !! i = Some s -> f (J + 2 + Z.of_nat i) = s.

(** Data sectors: as before, or as one of the writes [TW] leaves them. *)
Definition mixed (J : Z) (TW : list (Z * list Z)) (old f : Z -> list Z) : Prop :=
  forall a, ~ in_region J a -> f a = old a \/ (a, f a) ∈ TW.

Lemma get_app_l b1 b2 off :
  (off + 4 <= length b1)%nat -> get_u32_le (b1 ++ b2) off = get_u32_le b1 off.
Proof. intros Hl. apply get_u32_le_ext. intros k Hk. apply lookup_app_l. lia. Qed.

Lemma get_take b off n : (off + 4 <= n)%nat -> get_u32_le (take n b) off = get_u32_le b off.
Proof. intros Hn. apply get_u32_le_ext. intros k Hk. apply lookup_take_lt. lia. Qed.

Lemma get_zeros n off : (off + 4 <= n)%nat -> get_u32_le (replicate n 0) off = Done 0.
Proof.
  intros Hn. unfold get_u32_le, index. by rewrite !lookup_replicate_2 by lia.
Qed.

Lemma clean_zeros J f : f J = replicate SECTOR_SIZE 0 -> clean J f.
Proof.
  intros E. exists 0, 0. rewrite E, !get_zeros by offsets. split; [done|]. split; [done|]. by left.
Qed.

Lemma clean_desc J f desc n lbas blocks ab :
  describes desc n lbas blocks ab 0 -> f J = take SECTOR_SIZE desc -> clean J f.
Proof.
  intros [Hl Hm _ Hf _ _ _] E. exists MAGIC, 0. rewrite E, !get_take by offsets.
  split; [done|]. split; [done|]. by right.
Qed.

Lemma sized_puts W f : sized f -> Forall (fun w => length w.2 = SECTOR_SIZE) W -> sized (puts W f).
Proof.
  revert f. induction W as [|[a s] W IH]; intros f Hf Hw; simpl; [done|].
  inversion Hw. subst. apply IH; [|done]. intros b. unfold upd. destruct (b =? a); [done|apply Hf].
Qed.

(** ** Recovery *)

(** The machine after a reboot: the journal is configured again, its table is empty. *)
Definition booted (J : Z) (js : JournalState) (d : Dev) : Prop :=
  journal_start_lba js = J /\ journal_region_usable js d = true /\
  length (shadow_lba js) = MAX_TXN_BLOCKS /\ length (shadow_data js) = MAX_TXN_BLOCKS.

Lemma recover_clean J js d :
  booted J js d -> good d -> sized (sectors d) -> clean J (sectors d) ->
  recover_internal js d = Done (0, js, d).
Proof.
  intros (HJ & Hus & _ & _) Hg Hs (m & c & Hm & Hc & Hne).
  unfold recover_internal, blockdev_read_sectors_absolute. rewrite Hus, HJ. osimpl.
  unfold DESCRIPTOR_SECTORS. cbn [dispatch_read]. rewrite !Hg. osimpl. cbn [concat].
  rewrite app_nil_r. set (desc := sectors d J ++ sectors d (J + 1)).
  assert (Hlen : length desc = DESCRIPTOR_BYTES).
  { unfold desc. by rewrite length_app, !Hs. }
  assert (Hget : forall off, (off + 4 <= DESCRIPTOR_BYTES)%nat -> exists x, get_u32_le desc off = Done x).
  { intros off Ho. unfold get_u32_le.
    destruct (lookup_lt_is_Some_2 desc off) as [b0 H0]; [lia|].
    destruct (lookup_lt_is_Some_2 desc (off + 1)) as [b1 H1]; [lia|].
    destruct (lookup_lt_is_Some_2 desc (off + 2)) as [b2 H2]; [lia|].
    destruct (lookup_lt_is_Some_2 desc (off + 3)) as [b3 H3]; [lia|].
    rewrite (index_at H0), (index_at H1),
      (index_at H2), (index_at H3). by eexists. }
  assert (Em : get_u32_le desc OFF_MAGIC = Done m)
    by (unfold desc; rewrite get_app_l by (rewrite Hs; offsets); done).
  assert (Ec : get_u32_le desc OFF_COMMIT_FLAG = Done c)
    by (unfold desc; rewrite get_app_l by (rewrite Hs; offsets); done).
  rewrite Em. osimpl.
  destruct (Hget OFF_BLOCK_COUNT ltac:(offsets)) as [cnt ->]. osimpl.
  destruct (Hget OFF_CHECKSUM ltac:(offsets)) as [ck ->]. osimpl.
  rewrite Ec. osimpl.
  destruct (Hget OFF_TARGETS_ABSOLUTE ltac:(offsets)) as [ab ->]. osimpl.
  replace (negb (m =? MAGIC) || negb (c =? COMMIT_MAGIC)) with true by lia. done.
Qed.

(** Loading the blocks of a committed transaction. *)
Lemma load_loop_spec J n i desc js d lbas blocks :
  good d -> journal_start_lba js = J -> 0 <= J -> J + 130 <= 0x100000000 ->
  (i + n <= MAX_TXN_BLOCKS)%nat -> (i + n <= length lbas)%nat -> (i + n <= length blocks)%nat ->
  length (shadow_lba js) = MAX_TXN_BLOCKS -> length (shadow_data js) = MAX_TXN_BLOCKS ->
  (forall j l, (j < i + n)%nat -> lbas !! j = Some l -> get_u32_le desc (OFF_TARGET_LBA + j * 4) = Done l) ->
  (forall j s, blocks !! j = Some s -> sectors d (J + 2 + Z.of_nat j) = s) ->
  take i (shadow_lba js) = take i lbas -> take i (shadow_data js) = take i blocks ->
  exists lbas' data', load_loop n i desc js d = Done (true, set_shadow (shadow_count js) lbas' data' js) /\
    take (i + n) lbas' = take (i + n) lbas /\ take (i + n) data' = take (i + n) blocks /\
    length lbas' = MAX_TXN_BLOCKS /\ length data' = MAX_TXN_BLOCKS /\
    (Forall is_u32 lbas -> Forall is_u32 (shadow_lba js) -> Forall is_u32 lbas') /\
    (Forall (fun s => length s = SECTOR_SIZE) blocks -> Forall (fun s => length s = SECTOR_SIZE) (shadow_data js) ->
     Forall (fun s => length s = SECTOR_SIZE) data').
Proof.
  revert i js. induction n as [|n IH]; intros i js Hg HJ HJ0 HJ1 Hm Hl Hb Hsl Hsd Hget Hblk Htl Htd.
  { exists (shadow_lba js), (shadow_data js). rewrite Nat.add_0_r. by destruct js. }
  cbn [load_loop]. destruct (lookup_lt_is_Some_2 lbas i) as [l Hli]; [lia|].
  destruct (lookup_lt_is_Some_2 blocks i) as [s Hsi]; [lia|].
  rewrite (Hget i l) by (done || lia). osimpl. ostore.
  rewrite (data_lba js J) by (done || lia).
  unfold blockdev_read_sectors_absolute. cbn [dispatch_read]. rewrite Hg. osimpl.
  rewrite (Hblk i s Hsi). cbn [index lookup list_lookup]. osimpl. simpl (shadow_data _).
  ostore.
  destruct (IH (S i) (set_shadow (shadow_count js) (<[i := l]> (shadow_lba js)) (<[i := s]> (shadow_data js))
      (set_shadow (shadow_count js) (<[i := l]> (shadow_lba js)) (shadow_data js) js)))
    as (lbas' & data' & E & Hl' & Hd' & Hll & Hdl & Hu & Hz); try (done || lia || (simpl; by rewrite length_insert)).
  - intros j l' Hj. apply Hget. lia.
  - simpl. rewrite (take_S_r _ _ l) by (apply list_lookup_insert_eq; lia).
    by rewrite take_insert_ge, Htl, (take_S_r lbas i l Hli) by lia.
  - simpl. rewrite (take_S_r _ _ s) by (apply list_lookup_insert_eq; lia).
    by rewrite take_insert_ge, Htd, (take_S_r blocks i s Hsi) by lia.
  - exists lbas', data'. replace (i + S n)%nat with (S i + n)%nat by lia. do 5 (split; [done|]). simpl in Hu, Hz.
    split; intros H1 H2; [apply Hu|apply Hz]; try done; (apply Forall_insert; [done|]); by eapply Forall_lookup_1 in H1.
Qed.

(** Recovery of a committed transaction writes its targets and invalidates it. *)
Lemma recover_committed J js d n lbas blocks ab :
  booted J js d -> good d -> 0 <= J -> J + 130 <= 0x100000000 ->
  holds J n lbas blocks ab (sectors d) ->
  (0 < n <= MAX_TXN_BLOCKS)%nat -> (n <= length lbas)%nat -> length blocks = n ->
  exists js', booted J js' d /\
    (Forall is_u32 lbas -> Forall (fun s => length s = SECTOR_SIZE) blocks -> shadow_ok js ->
     shadow_ok js' /\ shadow_count js' = 0%nat /\ targets_absolute js' = false /\ depth js' = depth js /\ seq js' = seq js) /\
    recover_internal js d =
    Done (Z.of_nat n, js', apply_w (target_writes d ab n lbas blocks ++ [(J, replicate SECTOR_SIZE 0)]) d).
Proof.
  intros (HJ & Hus & Hsl & Hsd) Hg HJ0 HJ1 (desc & [Dl Dm Dc Df Da Dt (bytes & Dsl & Dck)] & E0 & E1 & Eb) Hn Hl Hb.
  unfold recover_internal, blockdev_read_sectors_absolute. rewrite Hus, HJ. osimpl.
  unfold DESCRIPTOR_SECTORS. cbn [dispatch_read]. rewrite !Hg. osimpl. cbn [concat].
  rewrite app_nil_r, E0, E1, take_drop, Dm. osimpl. rewrite Dc. osimpl. rewrite Dck. osimpl.
  rewrite Df. osimpl. rewrite Da. osimpl. rewrite Nat2Z.id.
  replace (negb (MAGIC =? MAGIC) || negb (COMMIT_MAGIC =? COMMIT_MAGIC) || (n =? 0)%nat
           || (MAX_TXN_BLOCKS <? n)%nat) with false by (rewrite !Z.eqb_refl; simpl; lia).
  destruct (load_loop_spec J n 0 desc js d lbas blocks) as (lbas' & data' & -> & Hl' & Hd' & Hll & Hdl & Hu & Hz);
    try (done || lia).
  osimpl. rewrite Dsl. osimpl. simpl (shadow_data _). rewrite slice_Done by lia. osimpl.
  rewrite drop_0, Nat.sub_0_r. change (0 + n)%nat with n in *.
  assert (Hblocks : take n data' = blocks) by (rewrite Hd'; apply take_ge; lia).
  rewrite Hblocks, Z.eqb_refl. osimpl.
  set (js2 := set_absolute _ _).
  assert (Hab : targets_absolute js2 = ab) by (by destruct ab).
  rewrite (checkpoint_spec js2 J); [|done|done|done|done|simpl; lia|done|simpl; lia].
  rewrite Hab. osimpl. simpl (shadow_count js2). simpl (shadow_lba js2). simpl (shadow_data js2).
  exists (checkpointed js2). split; [done|].
  split; [intros H1 H2 [_ _ _ H3 _ H4]; split; [split; simpl; auto using NoDup_nil_2; lia|done]|].
  do 3 f_equal. f_equal. unfold target_writes. rewrite Hl', Hblocks.
  by rewrite (take_ge blocks) by lia.
Qed.

(** ** Phases *)

Section Phases.
Context (J : Z) (n : nat) (lbas : list Z) (blocks : list (list Z)) (ab : bool).
Context (TW : list (Z * list Z)) (old : Z -> list Z).
Hypothesis (Hout : forall a, a ∈ TW.*1 -> ~ in_region J a).
Hypothesis (Hsmall : (length blocks <= MAX_TXN_BLOCKS)%nat).

(** What a crash or an interrupted recovery can leave. *)
Inductive phase (f : Z -> list Z) : Prop :=
| phase_old : clean J f -> (forall a, ~ in_region J a -> f a = old a) -> phase f
| phase_mid : holds J n lbas blocks ab f -> mixed J TW old f -> phase f
| phase_new : clean J f -> (forall a, ~ in_region J a -> f a = puts TW old a) -> phase f.

Lemma holds_puts Q f :
  (forall a, a ∈ Q.*1 -> ~ in_region J a) -> holds J n lbas blocks ab f ->
  holds J n lbas blocks ab (puts Q f).
Proof.
  intros HQ (desc & D & E0 & E1 & Eb). exists desc. split; [done|].
  assert (Hkeep : forall a, in_region J a -> puts Q f a = f a)
    by (intros a Ha; apply puts_notin; intros Hin; by apply (HQ a)).
  rewrite !Hkeep by (unfold in_region; lia). split; [done|]. split; [done|].
  intros i s Hi. rewrite Hkeep; [by apply Eb|].
  apply lookup_lt_Some in Hi. unfold in_region, MAX_TXN_BLOCKS in *. lia.
Qed.

Lemma mixed_puts Q f :
  (forall w, w ∈ Q -> w ∈ TW) -> mixed J TW old f -> mixed J TW old (puts Q f).
Proof.
  intros HQ Hm a Ha. destruct (decide (a ∈ Q.*1)) as [Hin|Hn].
  - right. apply HQ. by apply puts_value.
  - rewrite puts_notin by done. by apply Hm.
Qed.

Lemma mixed_complete f a :
  mixed J TW old f -> ~ in_region J a -> puts TW f a = puts TW old a.
Proof.
  intros Hm Ha. destruct (decide (a ∈ TW.*1)) as [Hin|Hn]; [by apply puts_in|].
  rewrite !puts_notin by done. destruct (Hm a Ha) as [|Hin]; [done|].
  destruct Hn. apply list_elem_of_fmap. by exists (a, f a).
Qed.

Definition zero_desc : Z * list Z := (J, replicate SECTOR_SIZE 0).

Lemma not_in_region_fst : ~ in_region J J -> False.
Proof. unfold in_region. lia. Qed.

(** Any prefix of a checkpoint keeps to the phases. *)
Lemma phase_checkpoint f k :
  holds J n lbas blocks ab f -> mixed J TW old f ->
  phase (puts (take k (TW ++ [zero_desc])) f) /\
  (length TW < k -> exists g, puts (take k (TW ++ [zero_desc])) f = g /\
     clean J g /\ forall a, ~ in_region J a -> g a = puts TW old a)%nat.
Proof.
  intros Hh Hm. destruct (decide (k <= length TW)%nat) as [Hk|Hk].
  - rewrite take_app_le by lia. split; [|lia]. apply phase_mid.
    + apply holds_puts; [|done]. intros a Hin. apply Hout.
      apply list_elem_of_fmap in Hin as (w & -> & Hw). apply list_elem_of_fmap. exists w.
      split; [done|]. by eapply take_elem.
    + apply mixed_puts; [|done]. intros w. apply take_elem.
  - rewrite take_ge by (rewrite length_app; simpl; lia). rewrite puts_app. simpl.
    set (g := upd (puts TW f) J (replicate SECTOR_SIZE 0)).
    assert (Hc : clean J g) by (apply clean_zeros; unfold g, upd; by rewrite Z.eqb_refl).
    assert (Hd : forall a, ~ in_region J a -> g a = puts TW old a).
    { intros a Ha. unfold g, upd. destruct (Z.eqb_spec a J) as [->|].
      - by destruct (not_in_region_fst Ha).
      - by apply mixed_complete. }
    split; [by apply phase_new|]. intros _. by exists g.
Qed.
End Phases.

Lemma from_range lba ss a : a ∈ (from lba ss).*1 -> lba <= a < lba + Z.of_nat (length ss).
Proof.
  intros (w & -> & Hw)%list_elem_of_fmap. apply list_elem_of_lookup in Hw as [i Hi].
  rewrite from_lookup in Hi. apply fmap_Some in Hi as (s & Hs & ->).
  apply lookup_lt_Some in Hs. simpl. lia.
Qed.

Lemma puts_from lba ss f i s : ss !! i = Some s -> puts (from lba ss) f (lba + Z.of_nat i) = s.
Proof.
  revert lba f i. induction ss as [|s0 ss IH]; intros lba f [|i] Hi; simplify_eq/=.
  - rewrite puts_notin; [|intros Hin%from_range; lia]. unfold upd.
    by rewrite Z.add_0_r, Z.eqb_refl.
  - replace (lba + Z.of_nat (S i)) with (lba + 1 + Z.of_nat i) by lia. by apply IH.
Qed.

Section Commit.
Context (J : Z) (n : nat) (lbas : list Z) (blocks : list (list Z)) (ab : bool).
Context (TW : list (Z * list Z)) (old : Z -> list Z) (desc desc' : list Z).
Hypothesis (Hout : forall a, a ∈ TW.*1 -> ~ in_region J a).
Hypothesis (Hsmall : (length blocks <= MAX_TXN_BLOCKS)%nat).
Hypothesis (D0 : describes desc n lbas blocks ab 0).
Hypothesis (D1 : describes desc' n lbas blocks ab COMMIT_MAGIC).
Hypothesis (Hdrop : drop SECTOR_SIZE desc' = drop SECTOR_SIZE desc).
Hypothesis (Hclean : clean J old).

Notation pre_writes := (from J (desc_sectors desc) ++ from (J + 2) blocks).
Notation commit_writes :=
  (pre_writes ++ from J (desc_sectors desc') ++ TW ++ [zero_desc J]).
Notation phase := (phase J n lbas blocks ab TW old).

Lemma pre_range a : a ∈ pre_writes.*1 -> in_region J a.
Proof.
  rewrite fmap_app, elem_of_app. intros [Hin%from_range|Hin%from_range];
    unfold in_region, MAX_TXN_BLOCKS, desc_sectors in *; simpl in *; lia.
Qed.

(** Before the commit point nothing has happened. *)
Lemma phase_pre k : phase (puts (take k pre_writes) old).
Proof.
  apply phase_old.
  - destruct k as [|k]; [done|]. apply (clean_desc J _ desc n lbas blocks ab D0).
    rewrite take_app. simpl. rewrite puts_notin.
    + unfold upd. by rewrite Z.eqb_refl.
    + rewrite fmap_app, elem_of_app. intros [Hin|Hin].
      * apply list_elem_of_fmap in Hin as (w & Hw & Hin%take_elem).
        apply list_elem_of_singleton in Hin. subst w. simpl in Hw. lia.
      * apply list_elem_of_fmap in Hin as (w & Hw & Hin%take_elem).
        assert (Hin' : J ∈ (from (J + 2) blocks).*1) by (apply list_elem_of_fmap; eauto).
        apply from_range in Hin'. lia.
  - intros a Ha. apply puts_notin. intros Hin. apply Ha, pre_range.
    apply list_elem_of_fmap in Hin as (w & -> & Hw%take_elem). apply list_elem_of_fmap. eauto.
Qed.

(** At the commit point the transaction is in the region, the data untouched. *)
Lemma phase_point :
  let f := upd (puts pre_writes old) J (take SECTOR_SIZE desc') in
  holds J n lbas blocks ab f /\ mixed J TW old f.
Proof.
  intros f. assert (Hblk : forall i s, blocks !! i = Some s -> puts pre_writes old (J + 2 + Z.of_nat i) = s).
  { intros i s Hi. rewrite puts_app. by apply puts_from. }
  assert (H1 : puts pre_writes old (J + 1) = drop SECTOR_SIZE desc).
  { rewrite puts_app, puts_notin by (intros Hin%from_range; lia). simpl. unfold upd.
    by rewrite Z.eqb_refl. }
  split.
  - exists desc'. split; [done|]. unfold f, upd. rewrite Z.eqb_refl.
    replace (J + 1 =? J) with false by lia. split; [done|]. split; [congruence|].
    intros i s Hi. replace (J + 2 + Z.of_nat i =? J) with false by lia. by apply Hblk.
  - intros a Ha. left. unfold f, upd. destruct (Z.eqb_spec a J) as [->|].
    + destruct Ha. unfold in_region. lia.
    + apply puts_notin. intros Hin. by apply Ha, pre_range.
Qed.

Lemma phase_commit k :
  phase (puts (take k commit_writes) old) /\
  (length commit_writes <= k ->
   let g := puts (take k commit_writes) old in
   clean J g /\ forall a, ~ in_region J a -> g a = puts TW old a)%nat.
Proof.
  assert (Hlen : length commit_writes = (length pre_writes + (length TW + 3))%nat).
  { rewrite !length_app. simpl. lia. }
  rewrite Hlen. destruct (decide (k <= length pre_writes)%nat) as [Hk|Hk].
  { rewrite take_app_le by done. split; [apply phase_pre|]. lia. }
  rewrite take_app_ge by lia. rewrite puts_app. remember (k - length pre_writes)%nat as q eqn:Em.
  destruct phase_point as [Hh Hm]. set (f := upd (puts pre_writes old) J (take SECTOR_SIZE desc')) in *.
  destruct q as [|[|m]]; [lia| |].
  { split; [by apply phase_mid|lia]. }
  assert (E : puts (take (S (S m)) (from J (desc_sectors desc') ++ TW ++ [zero_desc J])) (puts pre_writes old) =
    puts (take m (TW ++ [zero_desc J])) (upd f (J + 1) (drop SECTOR_SIZE desc'))) by done.
  rewrite E. set (f1 := upd f (J + 1) _).
  assert (Hh1 : holds J n lbas blocks ab f1).
  { destruct Hh as (ds & Dd & E0 & E1 & Eb). exists ds. split; [done|].
    assert (Ef : forall a, f1 a = f a).
    { intros a. unfold f1, upd. destruct (Z.eqb_spec a (J + 1)) as [->|]; [|done].
      rewrite E1. destruct phase_point as [(ds' & _ & _ & E1' & _) _]. fold f in E1'.
      rewrite <- E1, E1'. rewrite <- E1'. unfold f, upd. replace (J + 1 =? J) with false by lia.
      rewrite puts_app, puts_notin by (intros Hin%from_range; lia). simpl. unfold upd.
      by rewrite Z.eqb_refl. }
    rewrite !Ef. split; [done|]. split; [done|]. intros i s Hi. rewrite Ef. by apply Eb. }
  assert (Hm1 : mixed J TW old f1).
  { intros a Ha. unfold f1, upd. destruct (Z.eqb_spec a (J + 1)) as [->|].
    - destruct Ha. unfold in_region. lia.
    - by apply Hm. }
  destruct (phase_checkpoint J n lbas blocks ab TW old Hout Hsmall f1 m Hh1 Hm1) as [Hp Hfin].
  split; [done|]. intros Hall. destruct (Hfin ltac:(lia)) as (g & <- & Hg). done.
Qed.
End Commit.
