(* ===== verification/JournalTxn.v ===== *)
(** * Transactions

    The shadow table of an open transaction stands for the sector writes made so
    far: reading through it gives what the disk would hold had they been made
    directly, and its checkpoint writes produce exactly that disk. *)

From S2P Require Import Prelude Journal JournalDisk JournalCrash.
Local Open Scope Z_scope.

#[local] Arguments Nat.add : simpl never.
#[local] Arguments Nat.mul : simpl never.

Lemma find_loop_spec n i lbas lba :
  (i + n <= length lbas)%nat ->
  exists r, find_loop n i lbas lba = Done r /\
    match r with
    | Some k => (i <= k < i + n)%nat /\ lbas !! k = Some lba
    | None => forall k, (i <= k < i + n)%nat -> lbas !! k <> Some lba
    end.
Proof.
  revert i. induction n as [|n IH]; intros i Hl; simpl.
  { exists None. split; [done|]. intros k Hk. lia. }
  destruct (lookup_lt_is_Some_2 lbas i) as [l Hli]; [lia|].
  rewrite (index_at Hli). simpl. destruct (Z.eqb_spec l lba) as [->|Hne].
  - exists (Some i). split; [done|]. split; [lia|done].
  - destruct (IH (S i)) as (r & -> & Hr); [lia|]. exists r. split; [done|].
    destruct r as [k|]; [split; [lia|by apply Hr]|].
    intros k Hk. destruct (decide (k = i)) as [->|]; [congruence|apply Hr; lia].
Qed.

(** The checkpoint writes a shadow stands for. *)
Definition shadow_writes (d : Dev) (js : JournalState) : list (Z * list Z) :=
  target_writes d (targets_absolute js) (shadow_count js) (shadow_lba js) (shadow_data js).

Lemma shadow_writes_lookup d js i l s :
  (i < shadow_count js)%nat -> shadow_lba js !! i = Some l -> shadow_data js !! i = Some s ->
  shadow_writes d js !! i = Some (phys d (targets_absolute js) l, s).
Proof.
  intros Hi Hl Hs. unfold shadow_writes, target_writes. apply lookup_zip_with_Some.
  exists l, s. rewrite !lookup_take_lt by lia. done.
Qed.

Lemma shadow_writes_fst d js :
  shadow_ok js ->
  (shadow_writes d js).*1 = phys d (targets_absolute js) <$> take (shadow_count js) (shadow_lba js).
Proof.
  intros [Hl Hd Hc _ _ _]. unfold shadow_writes, target_writes.
  assert (Hlen : length (take (shadow_count js) (shadow_lba js)) =
                 length (take (shadow_count js) (shadow_data js))) by (rewrite !length_take; lia).
  revert Hlen. generalize (take (shadow_count js) (shadow_lba js)).
  generalize (take (shadow_count js) (shadow_data js)). intros data lbas. revert data.
  induction lbas as [|l lbas IH]; intros [|s data] Hlen; csimpl in *; [done|done|lia|].
  f_equal. apply IH. lia.
Qed.

Lemma phys_inj d ab l l' : is_u32 l -> is_u32 l' -> phys d ab l = phys d ab l' -> l = l'.
Proof.
  unfold phys, is_u32, wrap32. intros Hl Hl'. destruct ab; [done|]. intros E.
  assert (Hd : (l - l') mod 4294967296 = 0).
  { replace (l - l') with ((l + partition_offset d) - (l' + partition_offset d)) by lia.
    rewrite Zminus_mod, E, Z.sub_diag. done. }
  apply Z.mod_divide in Hd as [q Hq]; [|done]. lia.
Qed.

(** A sector as the transaction sees it. *)
Definition view (d : Dev) (js : JournalState) : Z -> list Z := puts (shadow_writes d js) (sectors d).

Lemma puts_insert W f i a s0 s x :
  W !! i = Some (a, s0) -> NoDup W.*1 ->
  puts (<[i := (a, s)]> W) f x = upd (puts W f) a s x.
Proof.
  revert f i. induction W as [|[b t] W IH]; intros f [|i] Hi Hnd; csimpl in *; [done|done| |].
  - apply NoDup_cons in Hnd as [Hn _]. injection Hi as -> ->. unfold upd at 2.
    destruct (Z.eqb_spec x a) as [->|Hx].
    + rewrite puts_notin by done. unfold upd. by rewrite Z.eqb_refl.
    + destruct (decide (x ∈ W.*1)); [by apply puts_in|]. rewrite !puts_notin by done.
      unfold upd. by destruct (Z.eqb_spec x a).
  - apply NoDup_cons in Hnd as [_ Hnd]. by apply IH.
Qed.

(** One sector goes into the shadow, or the table is full. *)
Lemma shadow_put js cur s :
  shadow_ok js -> is_u32 cur -> length s = SECTOR_SIZE ->
  (exists js', shadow_ok js' /\
     targets_absolute js' = targets_absolute js /\ depth js' = depth js /\ seq js' = seq js /\
     journal_start_lba js' = journal_start_lba js /\
     (forall d, journal_region_usable js' d = journal_region_usable js d) /\
     (0 < shadow_count js')%nat /\
     (forall d f x, puts (shadow_writes d js') f x =
                    upd (puts (shadow_writes d js) f) (phys d (targets_absolute js) cur) s x) /\
     (forall i ss lba, wrap32 (lba + Z.of_nat i) = cur ->
        write_loop i (s :: ss) js lba = write_loop (S i) ss js' lba)) \/
  (shadow_count js = MAX_TXN_BLOCKS /\ (cur ∉ shadow_lba js) /\
   find_shadow js cur = Done None).
Proof.
  intros Hok Hcur Hs. pose proof Hok as [Hl Hd Hc Hu Hnd Hsz].
  destruct (find_loop_spec (shadow_count js) 0 (shadow_lba js) cur) as (r & Hfind & Hr); [lia|].
  destruct r as [idx|].
  - left. destruct Hr as [Hidx Hli].
    destruct (lookup_lt_is_Some_2 (shadow_data js) idx) as [s0 Hs0]; [lia|].
    exists (set_shadow (shadow_count js) (shadow_lba js) (<[idx := s]> (shadow_data js)) js).
    split; [|do 5 (split; [done|]); split; [simpl; lia|split]].
    + split; simpl; try done; [by rewrite length_insert|]. by apply Forall_insert.
    + intros d f x. assert (E : shadow_writes d (set_shadow (shadow_count js) (shadow_lba js)
          (<[idx := s]> (shadow_data js)) js) =
        <[idx := (phys d (targets_absolute js) cur, s)]> (shadow_writes d js)).
      { unfold shadow_writes, target_writes. simpl. rewrite take_insert_lt by lia.
        rewrite (insert_zip_with (fun l s => (phys d (targets_absolute js) l, s)) _ _ idx cur s).
        rewrite (list_insert_id (take (shadow_count js) (shadow_lba js)) idx cur); [done|].
        by rewrite lookup_take_lt by lia. }
      rewrite E. apply (puts_insert _ _ _ _ s0); [by apply shadow_writes_lookup; [lia|..]|].
      rewrite shadow_writes_fst by done. apply NoDup_fmap_2_strong; [|done].
      intros l l' Hin Hin'. apply phys_inj; (eapply Forall_forall; [exact Hu|by eapply take_elem]).
    + intros i ss lba E.
      cbn [write_loop]. rewrite E. unfold find_shadow. rewrite Hfind. osimpl.
      rewrite store_Done by lia. done.
  - assert (Hnot : cur ∉ take (shadow_count js) (shadow_lba js)).
    { intros [k Hk]%list_elem_of_lookup. apply lookup_take_Some in Hk as [Hk Hlt].
      apply (Hr k); [lia|done]. }
    destruct (decide (MAX_TXN_BLOCKS <= shadow_count js)%nat) as [Hfull|Hroom].
    { right. split; [lia|]. split; [|done]. by rewrite take_ge in Hnot by lia. }
    left. set (n := shadow_count js) in *.
    exists (set_shadow (S n) (<[n := cur]> (shadow_lba js)) (<[n := s]> (shadow_data js)) js).
    split; [|do 5 (split; [done|]); split; [simpl; lia|split]].
    + split; simpl; [by rewrite length_insert|by rewrite length_insert|lia|by apply Forall_insert| |
                     by apply Forall_insert].
      rewrite (take_S_r _ _ cur) by (apply list_lookup_insert_eq; lia).
      rewrite take_insert_ge by lia. apply NoDup_app. split; [done|]. split; [|apply NoDup_singleton].
      intros y Hy ->%list_elem_of_singleton. done.
    + intros d f x. unfold shadow_writes, target_writes. simpl. fold n.
      rewrite (take_S_r _ _ cur) by (apply list_lookup_insert_eq; lia).
      rewrite (take_S_r (<[n := s]> (shadow_data js)) _ s) by (apply list_lookup_insert_eq; lia).
      rewrite !take_insert_ge by lia. rewrite zip_with_app by (rewrite !length_take; lia).
      by rewrite puts_app.
    + intros i ss lba E.
      cbn [write_loop]. rewrite E. unfold find_shadow. fold n. rewrite Hfind. osimpl.
      replace (MAX_TXN_BLOCKS <=? n)%nat with false by lia.
      ostore. by rewrite store_Done by lia.
Qed.

Lemma puts_ext W f g x : (forall y, f y = g y) -> puts W f x = puts W g x.
Proof.
  intros E. destruct (decide (x ∈ W.*1)); [by apply puts_in|]. by rewrite !puts_notin.
Qed.

(** The journal's own fields, which a transaction's writes leave alone. *)
Definition same_config (js js' : JournalState) : Prop :=
  targets_absolute js' = targets_absolute js /\ depth js' = depth js /\ seq js' = seq js /\
  journal_start_lba js' = journal_start_lba js /\
  forall d, journal_region_usable js' d = journal_region_usable js d.

Lemma same_config_trans js1 js2 js3 : same_config js1 js2 -> same_config js2 js3 -> same_config js1 js3.
Proof.
  intros (A1 & B1 & C1 & D1 & E1) (A2 & B2 & C2 & D2 & E2).
  unfold same_config. do 4 (split; [congruence|]). intros d. by rewrite E2.
Qed.

(** The writes a call makes, sector by sector. *)
Fixpoint call_writes (d : Dev) (ab : bool) (lba : Z) (i : nat) (ss : list (list Z)) : list (Z * list Z) :=
  match ss with
  | [] => []
  | s :: ss' => (phys d ab (wrap32 (lba + Z.of_nat i)), s) :: call_writes d ab lba (S i) ss'
  end.

(** A write call inside a transaction takes effect up to the point where a new sector
    finds the table full. *)
Lemma shadow_write_spec ss i js lba :
  shadow_ok js -> Forall (fun s => length s = SECTOR_SIZE) ss ->
  exists k ok js', write_loop i ss js lba = Done (ok, js') /\ shadow_ok js' /\ same_config js js' /\
    (if ok : bool then k = length ss
     else (k < length ss)%nat /\ shadow_count js' = MAX_TXN_BLOCKS /\
          (wrap32 (lba + Z.of_nat (i + k)) ∉ shadow_lba js')) /\
    (forall d f x, puts (shadow_writes d js') f x =
       puts (call_writes d (targets_absolute js) lba i (take k ss)) (puts (shadow_writes d js) f) x).
Proof.
  revert i js. induction ss as [|s ss IH]; intros i js Hok Hsz.
  { exists 0%nat, true, js. done. }
  inversion Hsz as [|? ? Hs Hss]. subst.
  destruct (shadow_put js (wrap32 (lba + Z.of_nat i)) s Hok (wrap32_u32 _) Hs)
    as [(js1 & Hok1 & A & B & C & D & E & _ & Hput & Hstep)|(Hfull & Hnot & Hnone)].
  - destruct (IH (S i) js1 Hok1 Hss) as (k & ok & js' & Ew & Hok' & Hcfg & Hk & Heff).
    exists (S k), ok, js'. rewrite Hstep by done. split; [done|]. split; [done|].
    split; [eapply same_config_trans; [|done]; done|]. split.
    + destruct ok; [simpl; lia|]. destruct Hk as (Hk & Hc & Hn). split; [simpl; lia|].
      split; [done|]. by replace (i + S k)%nat with (S i + k)%nat by lia.
    + intros d f x. rewrite Heff, A. cbn [take call_writes]. simpl. apply puts_ext.
      intros y. apply Hput.
  - exists 0%nat, false, js. cbn [write_loop]. rewrite Hnone. osimpl. rewrite Hfull.
    replace (MAX_TXN_BLOCKS <=? MAX_TXN_BLOCKS)%nat with true by lia.
    split; [done|]. split; [done|]. split; [done|]. split; [|done]. simpl. split; [lia|].
    split; [done|]. by rewrite Nat.add_0_r.
Qed.

(** Reading inside a transaction reads the view. *)
Lemma shadow_read_spec n i js lba d :
  good d -> shadow_ok js -> targets_absolute js = false ->
  read_loop n i js lba d =
    Done (true, (fun j => view d js (phys d false (wrap32 (lba + Z.of_nat j)))) <$> List.seq i n).
Proof.
  intros Hg Hok Hab. pose proof Hok as [Hl Hd Hc Hu Hnd Hsz]. revert i.
  induction n as [|n IH]; intros i; [done|]. cbn [read_loop].
  set (cur := wrap32 (lba + Z.of_nat i)).
  destruct (find_loop_spec (shadow_count js) 0 (shadow_lba js) cur) as (r & Hfind & Hr); [lia|].
  unfold find_shadow. rewrite Hfind. osimpl. destruct r as [idx|].
  - destruct Hr as [Hidx Hli]. destruct (lookup_lt_is_Some_2 (shadow_data js) idx) as [s Hs]; [lia|].
    oindex Hs. rewrite IH. osimpl. csimpl. fold cur.
    assert (Hv : view d js (phys d false cur) = s); [|by rewrite Hv]. unfold view.
    pose proof (shadow_writes_lookup d js idx cur s ltac:(lia) Hli Hs) as Hw. rewrite Hab in Hw.
    rewrite <- (list_insert_id _ _ _ Hw). rewrite (puts_insert _ _ _ _ s); [|done|].
    + unfold upd. by rewrite Z.eqb_refl.
    + rewrite shadow_writes_fst by done. apply NoDup_fmap_2_strong; [|done].
      intros l l' Hin Hin'. apply phys_inj; (eapply Forall_forall; [exact Hu|by eapply take_elem]).
  - unfold blockdev_read_sectors. cbn [dispatch_read]. rewrite Hg. osimpl. rewrite IH. osimpl.
    csimpl. fold cur. unfold view. rewrite puts_notin; [done|].
    rewrite shadow_writes_fst, Hab by done. intros (l & E & Hin)%list_elem_of_fmap.
    apply phys_inj in E; [|apply wrap32_u32|eapply Forall_forall; [exact Hu|by eapply take_elem]].
    apply list_elem_of_lookup in Hin as [k Hk]. apply lookup_take_Some in Hk as [Hk Hlt].
    apply (Hr k); [lia|]. by rewrite Hk, E.
Qed.
