(* ===== verification/JournalSpec.v ===== *)
(** * The journal's promises

    A transaction in the pattern of [fat32.c] (open, sector writes, commit), its
    refinement to direct writes, and its atomicity against power loss at any sector
    write of the commit and of any number of recoveries. *)

From S2P Require Import Prelude Journal JournalDisk JournalCrash JournalTxn.
Local Open Scope Z_scope.

#[local] Arguments Nat.add : simpl never.
#[local] Arguments Nat.mul : simpl never.

(** ** Transactions *)

(** Write calls until one fails. *)
Fixpoint run_writes (ws : list (Z * list (list Z))) (js : JournalState) (d : Dev) :
    outcome (bool * JournalState * Dev) :=
  match ws with
  | [] => Done (true, js, d)
  | (lba, ss) :: ws' =>
      '(ok, js, d) ← rust_journal_write_sectors lba ss js d;
      if ok : bool then run_writes ws' js d else Done (false, js, d)
  end.

Definition txn (ws : list (Z * list (list Z))) (js : JournalState) (d : Dev) :
    outcome (bool * JournalState * Dev) :=
  '(ok, js, d) ← run_writes ws (rust_journal_begin js) d;
  '(ok', js, d) ← rust_journal_commit js d;
  Done (ok && ok', js, d).

(** Between transactions. *)
Definition idle (js : JournalState) : Prop :=
  depth js = 0 /\ shadow_count js = 0%nat /\ targets_absolute js = false /\ shadow_ok js /\
  is_u32 (seq js).

(** The sector writes the same calls make without a transaction. *)
Definition direct (d : Dev) (ws : list (Z * list (list Z))) : list (Z * list Z) :=
  concat ((fun c => from (c.1 + partition_offset d) c.2) <$> ws).

(** A call within the disk, off the journal region. *)
Definition call_fits (J : Z) (d : Dev) (c : Z * list (list Z)) : Prop :=
  0 <= c.1 /\ 0 <= partition_offset d /\
  c.1 + partition_offset d + Z.of_nat (length c.2) <= 0x100000000 /\
  Forall (fun s => length s = SECTOR_SIZE) c.2 /\
  forall a, a ∈ (from (c.1 + partition_offset d) c.2).*1 -> ~ in_region J a.

(** The distinct sectors written fit one transaction. *)
Definition small (d : Dev) (ws : list (Z * list (list Z))) : Prop :=
  (size (list_to_set (direct d ws).*1 : gset Z) <= MAX_TXN_BLOCKS)%nat.

Lemma call_writes_from d lba i ss :
  0 <= lba -> 0 <= partition_offset d ->
  lba + partition_offset d + Z.of_nat (i + length ss) <= 0x100000000 ->
  call_writes d false lba i ss = from (lba + partition_offset d + Z.of_nat i) ss.
Proof.
  intros Hl Ho. revert i. induction ss as [|s ss IH]; intros i Hb; simpl in *; [done|].
  rewrite IH by lia. unfold phys.
  rewrite (wrap32_id (lba + Z.of_nat i)), wrap32_id by auto with machine.
  f_equal; [f_equal; lia|]. f_equal. lia.
Qed.

(** Lists of writes with the same effect reach the same sectors. *)
Lemma puts_support W W' a :
  (forall f x, puts W f x = puts W' f x) -> a ∈ W.*1 -> a ∈ W'.*1.
Proof.
  intros E Hin. destruct (decide (a ∈ W'.*1)) as [|Hn]; [done|]. exfalso.
  pose proof (puts_in W (fun _ => []) a Hin (fun _ => [0])) as Hsame.
  rewrite !E, !puts_notin in Hsame by done. done.
Qed.

Lemma from_take lba ss k : from lba (take k ss) = take k (from lba ss).
Proof.
  revert lba k. induction ss as [|s ss IH]; intros lba [|k]; simpl; [done|done|done|]. by rewrite IH.
Qed.

(** The write calls of an open transaction. *)
Lemma run_writes_spec J ws js d :
  shadow_ok js -> depth js <> 0 -> targets_absolute js = false -> Forall (call_fits J d) ws ->
  exists ok js' P, run_writes ws js d = Done (ok, js', d) /\ shadow_ok js' /\ same_config js js' /\
    P `prefix_of` direct d ws /\
    (forall f x, puts (shadow_writes d js') f x = puts P (puts (shadow_writes d js) f) x) /\
    (if ok : bool then P = direct d ws
     else shadow_count js' = MAX_TXN_BLOCKS /\
          exists a, a ∈ (direct d ws).*1 /\ a ∉ (shadow_writes d js').*1).
Proof.
  revert js. induction ws as [|[lba ss] ws IH]; intros js Hok Hd Hab Hfit.
  { exists true, js, []. split; [done|]. split; [done|]. split; [done|]. done. }
  inversion Hfit as [|? ? (Hl & Ho & Hb & Hsz & _) Hfit']. subst. simpl in *.
  unfold rust_journal_write_sectors, write_sectors_internal.
  replace (depth js =? 0) with false by lia.
  destruct (shadow_write_spec ss 0 js lba Hok Hsz) as (k & ok & js1 & -> & Hok1 & Hcfg & Hk & Heff).
  osimpl. rewrite Hab in Heff.
  assert (Hcw : forall k, call_writes d false lba 0 (take k ss) =
                          take k (from (lba + partition_offset d) ss)).
  { intros q. rewrite <- from_take. rewrite call_writes_from; [by rewrite Z.add_0_r|done|done|].
    rewrite length_take. lia. }
  assert (Hdir : direct d ((lba, ss) :: ws) = from (lba + partition_offset d) ss ++ direct d ws) by done.
  destruct ok.
  - subst k. destruct (IH js1) as (ok & js' & P & E & Hok' & Hcfg' & Hpre & Heff' & Hend).
    { done. } { by destruct Hcfg as (_ & -> & _). } { by destruct Hcfg as (-> & _). } { done. }
    exists ok, js', (from (lba + partition_offset d) ss ++ P). split; [done|]. split; [done|].
    split; [by eapply same_config_trans|]. rewrite Hdir. split; [by apply prefix_app|]. split.
    + intros f x. rewrite Heff', puts_app. apply puts_ext. intros y. rewrite Heff, Hcw.
      by rewrite take_ge by (rewrite from_length; lia).
    + destruct ok; [by rewrite Hend|]. destruct Hend as (Hc & a & Ha & Hna).
      split; [done|]. exists a. split; [|done]. rewrite fmap_app, elem_of_app. by right.
  - destruct Hk as (Hk & Hc & Hnot). exists false, js1, (take k (from (lba + partition_offset d) ss)).
    do 3 (split; [done|]). rewrite Hdir. split; [|split; [|split; [done|]]].
    + eexists. rewrite app_assoc, take_drop. done.
    + intros f x. by rewrite Heff, Hcw.
    + exists (lba + partition_offset d + Z.of_nat k).
      destruct (lookup_lt_is_Some_2 ss k Hk) as [s Hs].
      split.
      * rewrite fmap_app, elem_of_app. left. apply list_elem_of_fmap.
        exists (lba + partition_offset d + Z.of_nat k, s). split; [done|].
        apply (list_elem_of_lookup_2 _ k). by rewrite from_lookup, Hs.
      * rewrite shadow_writes_fst by done. destruct Hcfg as (-> & _). rewrite Hab.
        intros (l & E & Hin%take_elem)%list_elem_of_fmap. apply Hnot.
        change (0 + k)%nat with k. replace (wrap32 (lba + Z.of_nat k)) with l; [done|].
        rewrite wrap32_id by auto with machine.
        apply (phys_inj d false).
        -- by eapply Forall_forall in Hin; [|apply (sh_u32 _ Hok1)].
        -- unfold is_u32. lia.
        -- rewrite <- E. unfold phys. rewrite wrap32_id by auto with machine. lia.
Qed.

(** ** Commit *)

Lemma idle_writes d js : shadow_count js = 0%nat -> shadow_writes d js = [].
Proof. intros E. unfold shadow_writes, target_writes. by rewrite E. Qed.

Lemma usable_dev js d d' :
  same_dev d d' -> journal_region_usable js d' = journal_region_usable js d.
Proof. unfold journal_region_usable, blockdev_current. by intros (-> & _). Qed.

(** What the commit of a transaction with writes leaves, by its list of sector writes. *)
Definition commits (J : Z) (js : JournalState) (d : Dev) (W : list (Z * list Z)) : Prop :=
  exists desc desc', let n := shadow_count js in
    W = journal_writes js J n desc desc' ++ shadow_writes d js ++ [zero_desc J] /\
    describes desc n (shadow_lba js) (take n (shadow_data js)) (targets_absolute js) 0 /\
    describes desc' n (shadow_lba js) (take n (shadow_data js)) (targets_absolute js) COMMIT_MAGIC /\
    drop SECTOR_SIZE desc' = drop SECTOR_SIZE desc.

Lemma commit_spec J js d :
  depth js = 1 -> shadow_ok js -> is_u32 (seq js) -> good d ->
  journal_start_lba js = J -> 0 <= J -> J + 130 <= 0x100000000 ->
  journal_region_usable js d = true ->
  exists js' W, rust_journal_commit js d = Done (true, js', apply_w W d) /\ idle js' /\
    journal_start_lba js' = J /\ journal_region_usable js' d = true /\
    (if (shadow_count js =? 0)%nat then W = [] else commits J js d W).
Proof.
  intros Hd Hok Hseq Hg HJ HJ0 HJ1 Hus. unfold rust_journal_commit. rewrite Hd. osimpl.
  change (1 =? 0) with false. cbv iota. change (wrap32 (1 - 1)) with 0.
  change (0 <? depth (set_depth 0 js)) with false. cbv iota.
  pose proof Hok as [Hl Hdl Hc Hu _ Hsz].
  destruct (Nat.eqb_spec (shadow_count js) 0) as [E|E].
  - unfold commit_durable_internal. simpl. rewrite E, orb_true_r. osimpl.
    unfold checkpoint_internal. simpl. rewrite E. osimpl. cbn [checkpoint_loop]. osimpl.
    rewrite andb_false_r. eexists _, []. split; [done|]. split; [|done].
    split; [done|]. split; [done|]. split; [done|]. split; [|done].
    split; simpl; try done; [lia|]. by apply NoDup_nil_2.
  - set (js1 := set_depth 0 js).
    destruct (commit_durable_spec js1 J HJ HJ0 HJ1 d Hg) as (desc & desc' & -> & D1 & D2 & Hdr);
      [by destruct Hok|done|done|simpl; lia|]. osimpl.
    set (W1 := journal_writes _ _ _ _ _). set (js2 := set_seq _ js1).
    pose proof (apply_w_dev W1 d) as Hdev.
    rewrite (checkpoint_spec js2 J HJ (apply_w W1 d)); [|by apply apply_w_good|done|done|done| |simpl; lia].
    2:{ by rewrite (usable_dev _ d) by done. }
    osimpl. exists (checkpointed js2), (W1 ++ shadow_writes d js ++ [zero_desc J]).
    split; [|split; [|split; [done|split; [done|]]]].
    + rewrite (apply_w_app W1). apply (f_equal (fun T => Done (true, checkpointed js2, apply_w (T ++ [zero_desc J]) (apply_w W1 d)))).
      unfold shadow_writes, target_writes. apply zip_with_ext; [|done|done]. intros l s. f_equal. by apply phys_dev.
    + split; [done|]. split; [done|]. split; [done|]. split; [|apply wrap32_u32].
      split; simpl; try done; [lia|by apply NoDup_nil_2].
    + by exists desc, desc'.
Qed.

(** ** Crash states *)

Definition same_data (J : Z) (f g : Z -> list Z) : Prop := forall a, ~ in_region J a -> f a = g a.

Definition sized_writes (W : list (Z * list Z)) : Prop := Forall (fun w => length w.2 = SECTOR_SIZE) W.

(** The disk of a transaction from [old] to [new], between any two sector writes: the
    old or the new data with a clean journal, or a committed journal that can be
    replayed to the new data. *)
Inductive recoverable (J : Z) (d : Dev) (old new f : Z -> list Z) : Prop :=
| recoverable_old : sized f -> clean J f -> same_data J f old -> recoverable J d old new f
| recoverable_new : sized f -> clean J f -> same_data J f new -> recoverable J d old new f
| recoverable_mid n lbas blocks ab :
    let TW := target_writes d ab n lbas blocks in
    sized f -> (0 < n <= MAX_TXN_BLOCKS)%nat -> (n <= length lbas)%nat -> length blocks = n ->
    Forall is_u32 lbas -> Forall (fun s => length s = SECTOR_SIZE) blocks ->
    (forall a, a ∈ TW.*1 -> ~ in_region J a) ->
    holds J n lbas blocks ab f -> mixed J TW old f -> same_data J (puts TW old) new ->
    recoverable J d old new f.

Definition settled (J : Z) (old new f : Z -> list Z) : Prop :=
  sized f /\ clean J f /\ (same_data J f old \/ same_data J f new).

Lemma sized_from lba ss :
  Forall (fun s => length s = SECTOR_SIZE) ss -> sized_writes (from lba ss).
Proof.
  unfold sized_writes. revert lba. induction ss as [|s ss IH]; intros lba; simpl; [done|].
  rewrite !Forall_cons. intros [? ?]. split; [done|]. by apply IH.
Qed.

Lemma sized_targets d ab n lbas blocks :
  Forall (fun s => length s = SECTOR_SIZE) blocks -> sized_writes (target_writes d ab n lbas blocks).
Proof.
  intros Hb. unfold sized_writes, target_writes. apply Forall_lookup. intros i w Hw.
  apply lookup_zip_with_Some in Hw as (l & s & -> & _ & Hs). simpl.
  apply lookup_take_Some in Hs as [Hs _]. by apply (Forall_lookup_1 _ _ _ _ Hb Hs).
Qed.

Lemma sized_zero J : sized_writes [zero_desc J].
Proof. apply Forall_cons. split; [apply length_replicate|done]. Qed.

Lemma sized_desc J desc n lbas blocks ab c :
  describes desc n lbas blocks ab c -> sized_writes (from J (desc_sectors desc)).
Proof.
  intros [Hl _ _ _ _ _ _]. apply sized_from. unfold desc_sectors, DESCRIPTOR_BYTES, DESCRIPTOR_SECTORS in *.
  repeat constructor; [rewrite length_take|rewrite length_drop]; lia.
Qed.

Lemma sized_take k W f : sized f -> sized_writes W -> sized (puts (take k W) f).
Proof. intros Hf Hw. apply sized_puts; [done|]. by apply Forall_take. Qed.

Lemma phase_recoverable J d old new f n lbas blocks ab :
  let TW := target_writes d ab n lbas blocks in
  phase J n lbas blocks ab TW old f ->
  sized f -> (0 < n <= MAX_TXN_BLOCKS)%nat -> (n <= length lbas)%nat -> length blocks = n ->
  Forall is_u32 lbas -> Forall (fun s => length s = SECTOR_SIZE) blocks ->
  (forall a, a ∈ TW.*1 -> ~ in_region J a) -> same_data J (puts TW old) new ->
  recoverable J d old new f.
Proof.
  intros TW Hph Hs Hn Hl Hb Hu Hbs Hout Hnew. destruct Hph as [Hc Ho|Hh Hm|Hc Ho].
  - by apply recoverable_old.
  - by apply (recoverable_mid J d old new f n lbas blocks ab).
  - apply recoverable_new; [done|done|]. intros a Ha. rewrite Ho by done. by apply Hnew.
Qed.

(** ** Recovery from any crash state *)

(** The machine restarts on the same disk with power for [p] more sector writes;
    [vfs_init] finds the same partitions, configures the journal and recovers. *)
Definition reboot (p : option nat) (d : Dev) : Dev :=
  mkDev (sectors d) p (active_device d) (partition_offset d) (bad d).

Definition boot (J len : Z) (p : option nat) (d : Dev) : outcome (Z * JournalState * Dev) :=
  let d := reboot p d in
  rust_journal_recover (rust_journal_configure J len JournalState_new d) d.

(** Restarts that each lose power after the given number of writes, then one that does
    not. *)
Fixpoint boots (J len : Z) (ps : list nat) (d : Dev) : outcome (Z * JournalState * Dev) :=
  match ps with
  | [] => boot J len None d
  | p :: ps' => '(_, _, d) ← boot J len (Some p) d; boots J len ps' d
  end.

Lemma same_dev_trans d1 d2 d3 : same_dev d1 d2 -> same_dev d2 d3 -> same_dev d1 d3.
Proof.
  intros (A1 & B1 & C1) (A2 & B2 & C2). split; [congruence|]. split; congruence.
Qed.

Lemma boot_booted J len p d :
  130 <= len -> booted J (rust_journal_configure J len JournalState_new (reboot p d)) (reboot p d).
Proof.
  intros Hl. split; [done|]. split; [|split; apply length_replicate].
  unfold journal_region_usable. simpl.
  rewrite Z.eqb_refl, andb_true_r. apply Z.leb_le. exact Hl.
Qed.

Lemma boot_idle J len p d : idle (rust_journal_configure J len JournalState_new (reboot p d)).
Proof.
  split; [done|]. split; [done|]. split; [done|]. split; [|by unfold is_u32].
  split; [apply length_replicate|apply length_replicate|cbn; lia|by apply Forall_replicate|by apply NoDup_nil_2|].
  apply Forall_replicate, length_replicate.
Qed.

(** A configured journal between transactions, after a restart. *)
Definition restarted (J : Z) (js : JournalState) (d : Dev) : Prop :=
  idle js /\ journal_start_lba js = J /\ journal_region_usable js d = true.

Lemma landed_cut p W : exists k, landed p W = take k W /\ (p = None -> k = length W).
Proof.
  destruct p as [k|]; [by exists k|]. exists (length W). split; [|done]. by rewrite take_ge.
Qed.

Lemma boot_recoverable J len p d0 d old new :
  130 <= len -> 0 <= J -> J + 130 <= 0x100000000 -> good d -> same_dev d0 d ->
  recoverable J d0 old new (sectors d) ->
  exists r js d', boot J len p d = Done (r, js, d') /\ good d' /\ same_dev d0 d' /\ restarted J js d' /\
    recoverable J d0 old new (sectors d') /\
    (p = None -> settled J old new (sectors d')).
Proof.
  intros Hlen HJ0 HJ1 Hg Hdev Hrec. pose proof (boot_booted J len p d Hlen) as Hb.
  pose proof (boot_idle J len p d) as Hidle.
  unfold boot, rust_journal_recover. set (js := rust_journal_configure _ _ _ _) in *.
  assert (Hcl : sized (sectors d) -> clean J (sectors d) ->
    recover_internal js (reboot p d) = Done (0, js, reboot p d)).
  { intros Hs Hc. by apply (recover_clean J). }
  destruct Hrec as [Hs Hc Ho|Hs Hc Ho|n lbas blocks ab TW Hs Hn Hl Hbl Hu Hbs Hout Hh Hm Hnew].
  1,2: rewrite Hcl by done; eexists _, _, _; split; [done|]; split; [done|]; split; [done|];
    (split; [by split; [|split; apply Hb]|]);
    split; [first [by apply recoverable_old|by apply recoverable_new]|unfold settled; by auto].
  destruct (recover_committed J js (reboot p d) n lbas blocks ab) as (js' & Hb' & Hafter & E); [done..|].
  assert (ETW : target_writes (reboot p d) ab n lbas blocks = TW).
  { unfold TW, target_writes. apply zip_with_ext; [|done|done]. intros l s. f_equal.
    apply phys_dev. by destruct Hdev as (? & ? & ?). }
  rewrite E, ETW. clear E. eexists _, _, _. split; [done|].
  split; [by apply apply_w_good|]. split; [by eapply same_dev_trans, apply_w_dev|].
  split.
  { destruct Hidle as (Hd0 & _ & _ & Hok & Hseq). destruct (Hafter Hu Hbs Hok) as (Hok' & Hc' & Hab' & Hd' & Hs').
    split; [by repeat split; try apply Hok'; try congruence; rewrite Hs'; apply Hseq|]. split; [apply Hb'|].
    rewrite (usable_dev _ (reboot p d)); [apply Hb'|apply apply_w_dev]. }
  rewrite apply_w_sectors. cbn [reboot power sectors]. fold (zero_desc J).
  destruct (landed_cut p (TW ++ [zero_desc J])) as (k & -> & Hk).
  assert (Hsz : sized (puts (take k (TW ++ [zero_desc J])) (sectors d))).
  { apply sized_take; [done|]. apply Forall_app. split; [by apply sized_targets|apply sized_zero]. }
  destruct (phase_checkpoint J n lbas blocks ab TW old Hout ltac:(lia) (sectors d) k Hh Hm) as [Hph Hdone].
  split; [by eapply phase_recoverable|].
  intros Hp. destruct Hdone as (g & <- & Hc & Ho); [rewrite Hk by done; rewrite length_app; simpl; lia|].
  split; [|split; [done|]]; [done|]. right. intros a Ha. rewrite Ho by done. by apply Hnew.
Qed.
