(* ===== verification/JournalProps.v ===== *)
(** * The journal's theorems

    Crash atomicity, refinement to direct writes, read-your-writes, the effect of a
    call that overflows the transaction, and the boot self-test. *)

From S2P Require Import Prelude Journal JournalDisk JournalCrash JournalTxn JournalSpec.
Local Open Scope Z_scope.

#[local] Arguments Nat.add : simpl never.
#[local] Arguments Nat.mul : simpl never.

(** A configured journal between transactions, on a disk without bad sectors. *)
Record ready (J : Z) (js : JournalState) (d : Dev) : Prop := {
  rd_idle : idle js;
  rd_start : journal_start_lba js = J;
  rd_usable : journal_region_usable js d = true;
  rd_good : good d;
  rd_low : 0 <= J;
  rd_high : J + 130 <= 0x100000000;
}.

Lemma ready_dev J js d d' : same_dev d d' -> ready J js d -> ready J js d'.
Proof.
  intros Hdev [H1 H2 H3 H4 H5 H6]. split; try done.
  - by rewrite (usable_dev _ d).
  - intros a. destruct Hdev as (_ & _ & ->). apply H4.
Qed.

Lemma shadow_writes_nodup d js : shadow_ok js -> NoDup (shadow_writes d js).*1.
Proof.
  intros Hok. rewrite shadow_writes_fst by done. apply NoDup_fmap_2_strong; [|apply (sh_distinct _ Hok)].
  intros l l' Hin Hin'. apply phys_inj; (eapply Forall_forall; [apply (sh_u32 _ Hok)|by eapply take_elem]).
Qed.

Lemma shadow_writes_length d js : shadow_ok js -> length (shadow_writes d js).*1 = shadow_count js.
Proof.
  intros [Hl Hd Hc _ _ _]. rewrite length_fmap. unfold shadow_writes, target_writes.
  rewrite length_zip_with, !length_take. lia.
Qed.

(** The calls of a small transaction succeed. *)
Lemma run_writes_ok J ws js d :
  ready J js d -> Forall (call_fits J d) ws -> small d ws ->
  exists js', run_writes ws (rust_journal_begin js) d = Done (true, js', d) /\ shadow_ok js' /\
    same_config (rust_journal_begin js) js' /\
    (forall f x, puts (shadow_writes d js') f x = puts (direct d ws) f x).
Proof.
  intros [(Hdp & Hc & Hab & Hok & Hseq) _ _ _ _ _] Hfit Hsmall.
  assert (Hok' : shadow_ok (rust_journal_begin js)) by by destruct Hok.
  destruct (run_writes_spec J ws (rust_journal_begin js) d Hok')
    as (ok & js' & P & E & Hok1 & Hcfg & [R HR] & Heff & Hend); [|done|done|].
  { unfold rust_journal_begin. simpl. by rewrite Hdp. }
  assert (Heff' : forall f x, puts (shadow_writes d js') f x = puts P f x).
  { intros f x. rewrite Heff. by rewrite idle_writes. }
  exists js'. destruct ok; [by subst P|]. exfalso. destruct Hend as (Hfull & a & Ha & Hna).
  assert (Hsub : list_to_set (a :: (shadow_writes d js').*1) ⊆ (list_to_set (direct d ws).*1 : gset Z)).
  { intros x Hx%elem_of_list_to_set. apply elem_of_list_to_set.
    apply elem_of_cons in Hx as [->|Hx]; [done|].
    rewrite HR, fmap_app, elem_of_app. left. by eapply puts_support. }
  apply subseteq_size in Hsub. rewrite size_list_to_set in Hsub.
  - unfold small in Hsmall. cbn [length] in Hsub. rewrite shadow_writes_length in Hsub by done. lia.
  - apply NoDup_cons. split; [done|]. by apply shadow_writes_nodup.
Qed.

Lemma commit_recoverable J js d W :
  shadow_ok js -> (0 < shadow_count js)%nat -> commits J js d W ->
  sized (sectors d) -> clean J (sectors d) ->
  (forall a, a ∈ (shadow_writes d js).*1 -> ~ in_region J a) ->
  forall k, let f := puts (take k W) (sectors d) in
    recoverable J d (sectors d) (view d js) f /\
    (length W <= k -> clean J f /\ same_data J f (view d js))%nat /\ sized f.
Proof.
  intros Hok Hn (desc & desc' & -> & D1 & D2 & Hdr) Hs Hc Hout k f.
  pose proof Hok as [Hl Hd Hcnt Hu _ Hsz]. set (n := shadow_count js) in *.
  set (blocks := take n (shadow_data js)) in *.
  assert (Hbl : length blocks = n) by (unfold blocks; rewrite length_take; lia).
  assert (Hbs : Forall (fun s => length s = SECTOR_SIZE) blocks) by by apply Forall_take.
  assert (ETW : target_writes d (targets_absolute js) n (shadow_lba js) blocks = shadow_writes d js).
  { unfold shadow_writes, target_writes, blocks. by rewrite take_take, Nat.min_id. }
  assert (EW : journal_writes js J n desc desc' ++ shadow_writes d js ++ [zero_desc J] =
    (from J (desc_sectors desc) ++ from (J + 2) blocks) ++ from J (desc_sectors desc') ++
    shadow_writes d js ++ [zero_desc J]).
  { unfold journal_writes, blocks. by rewrite <- !app_assoc. }
  unfold f. rewrite EW. clear f EW.
  destruct (phase_commit J n (shadow_lba js) blocks (targets_absolute js) (shadow_writes d js)
              (sectors d) desc desc' Hout ltac:(lia) D1 D2 Hdr Hc k) as [Hph Hdone].
  match type of Hph with phase _ _ _ _ _ _ _ (puts (take k ?W) _) => assert (Hw : sized_writes W) end.
  { unfold sized_writes. rewrite !Forall_app.
    split; [split; [by eapply sized_desc|by apply sized_from]|].
    split; [by eapply sized_desc|]. split; [by apply sized_targets|apply sized_zero]. }
  pose proof (sized_take k _ _ Hs Hw) as Hsf.
  split; [|split; [done|done]].
  apply (phase_recoverable J d _ _ _ n (shadow_lba js) blocks (targets_absolute js));
    rewrite ?ETW; try done; lia.
Qed.

Lemma direct_outside J d ws a :
  Forall (call_fits J d) ws -> a ∈ (direct d ws).*1 -> ~ in_region J a.
Proof.
  unfold direct. induction 1 as [|c ws (_ & _ & _ & _ & Hout) _ IH]; csimpl; [by intros ?%elem_of_nil|].
  rewrite fmap_app, elem_of_app. intros [Hin|Hin]; [by apply Hout|by apply IH].
Qed.

(** A small transaction is one list of sector writes, recoverable at every point. *)
Lemma txn_spec J ws js d :
  ready J js d -> Forall (call_fits J d) ws -> small d ws ->
  sized (sectors d) -> clean J (sectors d) ->
  exists js' W, txn ws js d = Done (true, js', apply_w W d) /\ ready J js' (apply_w W d) /\
    forall k, let f := puts (take k W) (sectors d) in
      let new := puts (direct d ws) (sectors d) in
      recoverable J d (sectors d) new f /\
      (length W <= k -> clean J f /\ same_data J f new)%nat /\ sized f.
Proof.
  intros Hr Hfit Hsmall Hs Hc.
  destruct (run_writes_ok J ws js d Hr Hfit Hsmall) as (js1 & E & Hok & Hcfg & Heff).
  destruct Hr as [(Hdp & _ & Hab & _ & Hseq) HJ Hus Hg HJ0 HJ1].
  destruct Hcfg as (Cab & Cdp & Cseq & CJ & Cus).
  destruct (commit_spec J js1 d) as (js2 & W & Ec & Hidle & HJ2 & Hus2 & HW); try done.
  { rewrite Cdp. unfold rust_journal_begin. simpl. by rewrite Hdp. }
  { by rewrite Cseq. } { by rewrite CJ. } { by rewrite Cus. }
  exists js2, W. unfold txn. rewrite E. osimpl. rewrite Ec. split; [done|].
  split; [apply (ready_dev _ _ d); [apply apply_w_dev|done]|].
  destruct (Nat.eqb_spec (shadow_count js1) 0) as [E0|E0].
  - subst W. intros k. rewrite take_nil. simpl.
    assert (Hsame : same_data J (sectors d) (puts (direct d ws) (sectors d))).
    { intros a _. rewrite <- Heff. by rewrite idle_writes. }
    split; [by apply recoverable_old|done].
  - intros k. cbv zeta. destruct (commit_recoverable J js1 d W) with (k := k) as (Hrec & Hdone & Hsf); try done.
    { lia. }
    { intros a Ha. eapply puts_support in Ha; [|exact Heff]. by eapply direct_outside. }
    split; [|split; [|done]].
    + destruct Hrec as [|? ? Hn|n lbas blocks ab TW ? ? ? ? ? ? ? ? ? Hn].
      * by apply recoverable_old.
      * apply recoverable_new; [done|done|]. intros a Ha. rewrite Hn by done. apply Heff.
      * apply (recoverable_mid J d _ _ _ n lbas blocks ab); try done.
        intros a Ha. rewrite Hn by done. apply Heff.
    + intros Hk. destruct (Hdone Hk) as [? Hn]. split; [done|].
      intros a Ha. rewrite Hn by done. apply Heff.
Qed.

(** ** Sequences of transactions *)

Fixpoint run_txns (txs : list (list (Z * list (list Z)))) (js : JournalState) (d : Dev) :
    outcome (bool * JournalState * Dev) :=
  match txs with
  | [] => Done (true, js, d)
  | ws :: txs' =>
      '(ok, js, d) ← txn ws js d;
      if ok : bool then run_txns txs' js d else Done (false, js, d)
  end.

(** Each transaction within the disk and within the table. *)
Definition txs_fit (J : Z) (d : Dev) (txs : list (list (Z * list (list Z)))) : Prop :=
  Forall (fun ws => Forall (call_fits J d) ws /\ small d ws) txs.

Lemma direct_dev d d' ws : same_dev d d' -> direct d' ws = direct d ws.
Proof. unfold direct. by intros (_ & -> & _). Qed.

Lemma txs_fit_dev J d d' txs : same_dev d d' -> txs_fit J d txs -> txs_fit J d' txs.
Proof.
  intros Hdev Hfit. eapply Forall_impl; [exact Hfit|]. intros ws [Hf Hs]. split.
  - eapply Forall_impl; [exact Hf|]. unfold call_fits. by destruct Hdev as (_ & -> & _).
  - unfold small. by rewrite (direct_dev d).
Qed.

Lemma direct_app d ws ws' : direct d (ws ++ ws') = direct d ws ++ direct d ws'.
Proof. unfold direct. by rewrite fmap_app, concat_app. Qed.

Lemma apply_w_power W d :
  power (apply_w W d) = (fun n => n - length W)%nat <$> power d.
Proof.
  revert d. induction W as [|[a s] W IH]; intros d; simpl.
  { destruct (power d); csimpl; [|done]. by rewrite Nat.sub_0_r. }
  rewrite IH. unfold write_sector. destruct (power d) as [[|n]|] eqn:E; simpl; rewrite ?E; done.
Qed.

Lemma apply_w_dead W d : power d = Some 0%nat -> apply_w W d = d.
Proof.
  intros E. induction W as [|[a s] W IH]; [done|]. simpl. unfold write_sector. by rewrite E.
Qed.

(** Without power transactions run on, and nothing reaches the disk. *)
Lemma run_txns_dead J txs js d :
  ready J js d -> txs_fit J d txs -> power d = Some 0%nat ->
  exists js', run_txns txs js d = Done (true, js', d).
Proof.
  intros Hr Hfit Hp. revert js Hr. induction Hfit as [|ws txs [Hf Hs] _ IH]; intros js Hr; simpl; [by exists js|].
  destruct (run_writes_ok J ws js d Hr Hf Hs) as (js1 & E & Hok & (Cab & Cdp & Cseq & CJ & Cus) & _).
  destruct Hr as [(Hdp & _ & Hab & _ & Hseq) HJ Hus Hg HJ0 HJ1].
  destruct (commit_spec J js1 d) as (js2 & W & Ec & Hidle & HJ2 & Hus2 & _); try done.
  { rewrite Cdp. unfold rust_journal_begin. simpl. by rewrite Hdp. }
  { by rewrite Cseq. } { by rewrite CJ. } { by rewrite Cus. }
  unfold txn. rewrite E. osimpl. rewrite Ec, apply_w_dead by done. osimpl. by apply IH.
Qed.

Lemma boots_settled J len ps d0 d old new :
  130 <= len -> 0 <= J -> J + 130 <= 0x100000000 -> good d -> same_dev d0 d ->
  recoverable J d0 old new (sectors d) ->
  exists r js d', boots J len ps d = Done (r, js, d') /\ settled J old new (sectors d') /\
    good d' /\ same_dev d0 d' /\ restarted J js d'.
Proof.
  intros Hlen HJ0 HJ1. revert d. induction ps as [|p ps IH]; intros d Hg Hdev Hrec; simpl.
  - destruct (boot_recoverable J len None d0 d old new) as (r & js & d' & E & Hg' & Hdev' & Hre & _ & Hs); try done.
    exists r, js, d'. split; [done|]. split; [by apply Hs|done].
  - destruct (boot_recoverable J len (Some p) d0 d old new) as (r & js & d' & E & Hg' & Hdev' & _ & Hrec' & _);
      try done. rewrite E. osimpl. by apply IH.
Qed.

(** Power fails during the first transaction. *)
Lemma run_txns_cut J len ws txs js d n js1 W old new :
  ready J js1 (apply_w W d) -> txs_fit J d txs -> 130 <= len ->
  power d = Some n -> (n < length W)%nat -> txn ws js d = Done (true, js1, apply_w W d) ->
  recoverable J d old new (puts (take n W) (sectors d)) ->
  exists js' d', run_txns (ws :: txs) js d = Done (true, js', d') /\
    forall ps, exists r js'' d'', boots J len ps d' = Done (r, js'', d'') /\
      settled J old new (sectors d'').
Proof.
  intros Hr1 Hfit Hlen Hp Hn E Hrec.
  pose proof (apply_w_dev W d) as Hdev. pose proof (apply_w_sectors W d) as Hsec.
  pose proof (apply_w_power W d) as Hp1. rewrite Hp in Hsec, Hp1. simpl in Hsec, Hp1.
  set (d1 := apply_w W d) in *.
  destruct (run_txns_dead J txs js1 d1 Hr1) as [js' E'];
    [by apply (txs_fit_dev J d)|rewrite Hp1; f_equal; lia|].
  exists js', d1. simpl. rewrite E. osimpl. split; [done|]. intros ps. rewrite <- Hsec in Hrec.
  destruct (boots_settled J len ps d d1 old new) as (r & js'' & d'' & Eb & Hset & _); try done; [apply Hr1..|].
  by exists r, js'', d''.
Qed.

Lemma puts_same Q f g a : f a = g a -> puts Q f a = puts Q g a.
Proof.
  intros E. destruct (decide (a ∈ Q.*1)); [by apply puts_in|]. by rewrite !puts_notin.
Qed.

(** C1: sequences of journaled transactions survive power loss at any sector write: the
    machine may stop after any number of writes ([power d]), and each of any number of
    restarts may stop again during its recovery; the first restart that completes leaves a
    clean journal and, outside the journal region, exactly the disk that direct writes of the
    first [m] transactions would have produced, all of them if power never failed. No
    transaction is ever half applied, reordered or lost after a later one. *)
Theorem journal_crash_consistent (J len : Z) (txs : list (list (Z * list (list Z))))
    (js : JournalState) (d : Dev)
    (Hr : ready J js d) (Hfit : txs_fit J d txs)
    (Hs : sized (sectors d)) (Hc : clean J (sectors d)) (Hlen : 130 <= len) :
  exists js' d', run_txns txs js d = Done (true, js', d') /\
    forall ps, exists r js'' d'', boots J len ps d' = Done (r, js'', d'') /\
      sized (sectors d'') /\ clean J (sectors d'') /\
      exists m, (m <= length txs)%nat /\ (power d = None -> m = length txs) /\
        same_data J (sectors d'') (puts (direct d (concat (take m txs))) (sectors d)).
Proof.
  revert js d Hr Hfit Hs Hc. induction txs as [|ws txs IH]; intros js d Hr Hfit Hs Hc.
  { exists js, d. split; [done|]. intros ps.
    destruct (boots_settled J len ps d d (sectors d) (sectors d)) as (r & js' & d' & E & (Hs' & Hc' & Hd') & _);
      [done|apply Hr|apply Hr|apply Hr|done|by apply recoverable_old|].
    exists r, js', d'. split; [done|]. split; [done|]. split; [done|]. exists 0%nat.
    split; [done|]. split; [done|]. by destruct Hd'. }
  inversion Hfit as [|? ? [Hf Hsm] Hfit']. subst.
  destruct (txn_spec J ws js d Hr Hf Hsm Hs Hc) as (js1 & W & E & Hr1 & Hcut).
  assert (Hcase : landed (power d) W = W \/ exists n, power d = Some n /\ (n < length W)%nat).
  { destruct (power d) as [n|]; [|by left]. simpl.
    destruct (decide (length W <= n)%nat); [left; by rewrite take_ge|right; exists n; split; [done|lia]]. }
  destruct Hcase as [Hall|(n & Hp & Hn)].
  - destruct (Hcut (length W)) as (_ & Hdone & Hsz). rewrite take_ge in Hdone, Hsz by done.
    pose proof (apply_w_dev W d) as Hdev. pose proof (apply_w_sectors W d) as Hsec.
    pose proof (apply_w_power W d) as Hp1. set (d1 := apply_w W d) in *.
    rewrite Hall in Hsec. rewrite <- Hsec in Hdone, Hsz. destruct (Hdone ltac:(done)) as [Hc1 Hd1].
    destruct (IH js1 d1) as (js' & d' & E' & Hps); [done|by apply (txs_fit_dev J d)|done|done|].
    exists js', d'. simpl. rewrite E. osimpl. split; [done|]. intros ps.
    destruct (Hps ps) as (r & js'' & d'' & Eb & Hs'' & Hc'' & m & Hm & Hp & Hd'').
    exists r, js'', d''. do 3 (split; [done|]). exists (S m). simpl. split; [lia|].
    split; [intros Hpn; rewrite Hp; [done|]; by rewrite Hp1, Hpn|].
    intros a Ha. rewrite Hd'', direct_app, puts_app, (direct_dev d) by done.
    apply puts_same. by apply Hd1.
  - destruct (Hcut n) as (Hrec & _).
    destruct (run_txns_cut J len ws txs js d n js1 W _ _ Hr1 Hfit' Hlen Hp Hn E Hrec)
      as (js' & d' & E' & Hps).
    exists js', d'. split; [done|]. intros ps.
    destruct (Hps ps) as (r & js'' & d'' & Eb & Hs'' & Hc'' & [Hd''|Hd'']);
      exists r, js'', d''; (do 3 (split; [done|])).
    + exists 0%nat. split; [lia|]. rewrite Hp. by split.
    + exists 1%nat. split; [simpl; lia|]. rewrite Hp. split; [done|]. simpl. by rewrite app_nil_r.
Qed.

(** Inside an open transaction every read sees the transaction's own writes over the
    disk's contents, the last write to a sector winning, while the disk itself does not
    change before the commit. *)
Theorem journal_read_your_writes (J : Z) (ws : list (Z * list (list Z))) (js : JournalState)
    (d : Dev) (lba : Z) (n : nat)
    (Hr : ready J js d) (Hfit : Forall (call_fits J d) ws) (Hsmall : small d ws)
    (Hlba : 0 <= lba) (Hoff : 0 <= partition_offset d)
    (Hend : lba + partition_offset d + Z.of_nat n <= 0x100000000) :
  exists js', run_writes ws (rust_journal_begin js) d = Done (true, js', d) /\
    rust_journal_read_sectors lba n js' d =
      Done (true, (fun j => puts (direct d ws) (sectors d) (lba + partition_offset d + Z.of_nat j))
                  <$> List.seq 0 n).
Proof.
  destruct (run_writes_ok J ws js d Hr Hfit Hsmall) as (js' & E & Hok & (Cab & Cdp & _) & Heff).
  destruct Hr as [(Hdp & _ & Hab & _ & _) _ _ Hg _ _].
  exists js'. split; [done|]. unfold rust_journal_read_sectors, read_sectors_internal.
  rewrite Cdp. unfold rust_journal_begin at 1. cbn [set_depth depth]. rewrite Hdp.
  change (wrap32 (0 + 1) =? 0) with false. cbv iota.
  rewrite shadow_read_spec by (done || (rewrite Cab; done)). do 2 f_equal.
  apply list_fmap_ext. intros i j Hj. apply lookup_seq in Hj as [-> Hj].
  unfold view. rewrite Heff. f_equal. unfold phys.
  rewrite (wrap32_id (lba + _)), wrap32_id by auto with machine. lia.
Qed.

(** ** A call that does not fit *)

Lemma call_writes_fst d ab lba i ss :
  (call_writes d ab lba i ss).*1 = (fun j => phys d ab (wrap32 (lba + Z.of_nat j))) <$> List.seq i (length ss).
Proof. revert i. induction ss as [|s ss IH]; intros i; csimpl; [done|]. by rewrite IH. Qed.

(** A call of sectors new to the open transaction, longer than the room left in its
    table, reports failure; the sectors that did fit stay in the transaction, exactly the
    first [MAX_TXN_BLOCKS - shadow_count], and a later commit makes them durable. *)
Theorem journal_overflow_partial (js : JournalState) (d : Dev) (lba : Z) (ss : list (list Z))
    (Hdp : depth js <> 0) (Hok : shadow_ok js)
    (Hsz : Forall (fun s => length s = SECTOR_SIZE) ss)
    (Hlba : 0 <= lba) (Hend : lba + Z.of_nat (length ss) <= 0x100000000)
    (Hfresh : forall i, (i < length ss)%nat -> lba + Z.of_nat i ∉ take (shadow_count js) (shadow_lba js))
    (Hlong : (MAX_TXN_BLOCKS < shadow_count js + length ss)%nat) :
  exists js', write_sectors_internal js lba ss d = Done (false, js', d) /\ shadow_ok js' /\
    forall a, view d js' a =
      puts (call_writes d (targets_absolute js) lba 0 (take (MAX_TXN_BLOCKS - shadow_count js) ss))
           (view d js) a.
Proof.
  unfold write_sectors_internal. replace (depth js =? 0) with false by lia.
  destruct (shadow_write_spec ss 0 js lba Hok Hsz) as (k & ok & js' & -> & Hok' & Hcfg & Hk & Heff).
  osimpl. set (B := call_writes d (targets_absolute js) lba 0 (take k ss)).
  assert (Hkl : (k <= length ss)%nat) by (destruct ok; lia).
  assert (Hperm : (shadow_writes d js').*1 ≡ₚ (shadow_writes d js ++ B).*1).
  { apply NoDup_Permutation.
    - by apply shadow_writes_nodup.
    - rewrite fmap_app. apply NoDup_app. split; [by apply shadow_writes_nodup|].
      assert (Hu : forall j, (j < length ss)%nat -> wrap32 (lba + Z.of_nat j) = lba + Z.of_nat j)
        by (intros j Hj; apply wrap32_id; unfold is_u32; lia).
      unfold B. rewrite call_writes_fst, shadow_writes_fst by done. split.
      + intros a (l & -> & Hl)%list_elem_of_fmap (j & E & Hj)%list_elem_of_fmap.
        apply elem_of_seq in Hj. rewrite length_take in Hj. rewrite Hu in E by lia.
        apply (Hfresh j); [lia|]. apply phys_inj in E; [by rewrite <- E| |unfold is_u32; lia].
        eapply Forall_forall; [apply (sh_u32 _ Hok)|by eapply take_elem].
      + apply NoDup_fmap_2_strong; [|apply NoDup_seq]. intros j j' Hj Hj' E.
        apply elem_of_seq in Hj, Hj'. rewrite length_take in Hj, Hj'.
        rewrite !Hu in E by lia. apply phys_inj in E; [lia|unfold is_u32; lia|unfold is_u32; lia].
    - intros a. split; apply puts_support; intros f x; rewrite puts_app; [|symmetry]; apply Heff. }
  apply Permutation_length in Hperm. rewrite fmap_app, length_app, !shadow_writes_length in Hperm by done.
  unfold B in Hperm. rewrite call_writes_fst, length_fmap, length_seq, length_take in Hperm.
  pose proof (sh_count _ Hok'). destruct ok; [subst k; lia|]. destruct Hk as (Hk & Hc & _).
  exists js'. split; [done|]. split; [done|]. intros a. unfold view. rewrite Heff.
  by replace (MAX_TXN_BLOCKS - shadow_count js)%nat with k by lia.
Qed.

(** ** Recovery of arbitrary disks *)

Lemma get_total b off : (off + 4 <= length b)%nat -> exists x, get_u32_le b off = Done x.
Proof.
  intros Ho. unfold get_u32_le.
  destruct (lookup_lt_is_Some_2 b off) as [b0 H0]; [lia|].
  destruct (lookup_lt_is_Some_2 b (off + 1)) as [b1 H1]; [lia|].
  destruct (lookup_lt_is_Some_2 b (off + 2)) as [b2 H2]; [lia|].
  destruct (lookup_lt_is_Some_2 b (off + 3)) as [b3 H3]; [lia|].
  unfold index. rewrite H0, H1, H2, H3. eexists. done.
Qed.

Notation sector_sized := (Forall (fun s => length s = SECTOR_SIZE)).

Lemma load_loop_total n i desc js d :
  good d -> sized (sectors d) -> length desc = DESCRIPTOR_BYTES -> (i + n <= MAX_TXN_BLOCKS)%nat ->
  length (shadow_lba js) = MAX_TXN_BLOCKS -> length (shadow_data js) = MAX_TXN_BLOCKS ->
  sector_sized (take i (shadow_data js)) ->
  exists lbas data, load_loop n i desc js d = Done (true, set_shadow (shadow_count js) lbas data js) /\
    length lbas = MAX_TXN_BLOCKS /\ length data = MAX_TXN_BLOCKS /\ sector_sized (take (i + n) data).
Proof.
  intros Hg Hs Hdl. revert i js. induction n as [|n IH]; intros i js Hn Hl Hd Hsz; cbn [load_loop].
  { exists (shadow_lba js), (shadow_data js). rewrite Nat.add_0_r. by destruct js. }
  destruct (get_total desc (OFF_TARGET_LBA + i * 4)) as [l ->];
    [rewrite Hdl; unfold OFF_TARGET_LBA, DESCRIPTOR_BYTES, DESCRIPTOR_SECTORS, SECTOR_SIZE, MAX_TXN_BLOCKS in *; lia|].
  osimpl. ostore.
  unfold blockdev_read_sectors_absolute. cbn [dispatch_read]. rewrite Hg. osimpl.
  cbn [index lookup list_lookup]. osimpl. rewrite store_Done by (simpl; lia). osimpl.
  set (js1 := set_shadow _ _ _ _).
  destruct (IH (S i) js1) as (lbas & data & -> & Hl' & Hd' & Hsz'); [lia|simpl; by rewrite length_insert..| |].
  { simpl. erewrite take_S_r by (apply list_lookup_insert_eq; lia). rewrite take_insert_ge by lia.
    apply Forall_app. split; [done|]. apply Forall_singleton, Hs. }
  exists lbas, data. by replace (i + S n)%nat with (S i + n)%nat by lia.
Qed.

(** Nothing to replay, a bad checksum, or a transaction to replay. *)
Lemma recover_cases J js d :
  booted J js d -> good d -> sized (sectors d) -> 0 <= J -> J + 130 <= 0x100000000 ->
  recover_internal js d = Done (0, js, d) \/
  (exists js1, booted J js1 d /\ recover_internal js d = Done (0, js1, invalidate js1 d)) \/
  exists js1, let n := shadow_count js1 in
    booted J js1 d /\ (0 < n <= MAX_TXN_BLOCKS)%nat /\ sector_sized (take n (shadow_data js1)) /\
    recover_internal js d = '(ok, js2, d') ← checkpoint_internal js1 d;
                            Done (if ok : bool then Z.of_nat n else -1, js2, d').
Proof.
  intros (HJ & Hus & Hsl & Hsd) Hg Hs HJ0 HJ1.
  unfold recover_internal, blockdev_read_sectors_absolute. rewrite Hus, HJ. osimpl.
  unfold DESCRIPTOR_SECTORS. cbn [dispatch_read]. rewrite !Hg. osimpl. cbn [concat].
  rewrite app_nil_r. set (desc := sectors d J ++ sectors d (J + 1)).
  assert (Hlen : length desc = DESCRIPTOR_BYTES) by (unfold desc; by rewrite length_app, !Hs).
  destruct (get_total desc OFF_MAGIC) as [m ->]; [rewrite Hlen; offsets|]. osimpl.
  destruct (get_total desc OFF_BLOCK_COUNT) as [c ->]; [rewrite Hlen; offsets|]. osimpl.
  destruct (get_total desc OFF_CHECKSUM) as [ck ->]; [rewrite Hlen; offsets|]. osimpl.
  destruct (get_total desc OFF_COMMIT_FLAG) as [fl ->]; [rewrite Hlen; offsets|]. osimpl.
  destruct (get_total desc OFF_TARGETS_ABSOLUTE) as [ab ->]; [rewrite Hlen; offsets|]. osimpl.
  destruct (negb (m =? MAGIC) || _ || _ || _) eqn:Hhead; [by left|right].
  apply orb_false_iff in Hhead as [[_ H0]%orb_false_iff H1]. set (n := Z.to_nat c) in *.
  destruct (load_loop_total n 0 desc js d) as (lbas & data & -> & Hl' & Hd' & Hsz); try done; [lia|].
  osimpl. rewrite (slice_Done desc) by
    (rewrite Hlen; unfold OFF_TARGET_LBA, DESCRIPTOR_BYTES, DESCRIPTOR_SECTORS, SECTOR_SIZE, MAX_TXN_BLOCKS in *; lia).
  osimpl. rewrite slice_Done by (simpl; lia). osimpl.
  destruct (negb (compute_checksum _ _ =? ck)).
  - left. eexists. split; [|done]. done.
  - right. exists (set_absolute (negb (ab =? 0)) (set_shadow n lbas data js)).
    split; [done|]. split; [simpl; lia|]. by split.
Qed.

Lemma target_writes_take d ab n lbas data :
  target_writes d ab n lbas data = target_writes d ab n lbas (take n data).
Proof. unfold target_writes. by rewrite take_take, Nat.min_id. Qed.

Lemma recover_zeroed J js d :
  booted J js d -> good d -> sized (sectors d) -> sectors d J = replicate SECTOR_SIZE 0 ->
  recover_internal js d = Done (0, js, d).
Proof. intros Hb Hg Hs E. apply (recover_clean J); try done. by apply clean_zeros. Qed.

(** Recovery is safe on a disk with arbitrary contents: it never panics, it replays at
    most a full table, it reports nothing replayed only when no sector but the journal's
    first has changed, and running it again finds nothing left to do. *)
Theorem journal_recover_total (J : Z) (js : JournalState) (d : Dev)
    (Hb : booted J js d) (Hg : good d) (Hs : sized (sectors d))
    (HJ0 : 0 <= J) (HJ1 : J + 130 <= 0x100000000) :
  exists r js' d', recover_internal js d = Done (r, js', d') /\
    0 <= r <= Z.of_nat MAX_TXN_BLOCKS /\
    (r = 0 -> forall a, a <> J -> sectors d' a = sectors d a) /\
    (power d = None -> recover_internal js' d' = Done (0, js', d')).
Proof.
  destruct (recover_cases J js d Hb Hg Hs HJ0 HJ1) as [E|[(js1 & Hb1 & E)|(js1 & Hb1 & Hn & Hsz & E)]].
  - exists 0, js, d. split; [done|]. split; [unfold MAX_TXN_BLOCKS; lia|]. done.
  - rewrite (invalidate_spec js1 J (proj1 Hb1)) in E by done. fold (zero_desc J) in E.
    eexists _, _, _. split; [exact E|]. split; [unfold MAX_TXN_BLOCKS; lia|].
    rewrite apply_w_sectors. split.
    + intros _ a Ha. destruct (landed_cut (power d) [zero_desc J]) as (k & -> & _).
      apply puts_notin. intros (w & -> & Hw%take_elem)%list_elem_of_fmap.
      apply list_elem_of_singleton in Hw. by subst w.
    + intros Hp. apply (recover_zeroed J); rewrite ?apply_w_sectors, ?Hp.
      * destruct Hb1 as (? & ? & ? & ?). split; [done|]. split; [|done].
        by rewrite (usable_dev _ d) by apply apply_w_dev.
      * by apply apply_w_good.
      * apply sized_puts; [done|]. apply sized_zero.
      * simpl. unfold upd. by rewrite Z.eqb_refl.
  - destruct Hb1 as (HJ & Hus & Hl & Hd).
    rewrite (checkpoint_spec js1 J) in E by (done || lia). cbn [mbind outcome_bind] in E. fold (zero_desc J) in E.
    eexists _, _, _. split; [exact E|]. split; [lia|]. split; [lia|]. intros Hp.
    apply (recover_zeroed J); rewrite ?apply_w_sectors, ?Hp.
    + split; [done|]. split; [|done]. by rewrite (usable_dev _ d) by apply apply_w_dev.
    + by apply apply_w_good.
    + apply sized_puts; [done|]. apply Forall_app. split; [|apply sized_zero].
      rewrite target_writes_take. by apply sized_targets.
    + simpl. rewrite puts_app. simpl. unfold upd. by rewrite Z.eqb_refl.
Qed.

(** ** The self-test *)

Definition one_block (js : JournalState) (lba : Z) (s : list Z) : JournalState :=
  set_shadow 1 (<[0%nat := lba]> (shadow_lba js)) (<[0%nat := s]> (shadow_data js)) js.

Lemma write_one js lba s d :
  depth js <> 0 -> shadow_count js = 0%nat -> is_u32 lba ->
  length (shadow_lba js) = MAX_TXN_BLOCKS -> length (shadow_data js) = MAX_TXN_BLOCKS ->
  write_sectors_internal js lba [s] d = Done (true, one_block js lba s, d).
Proof.
  intros Hd Hc Hu Hl Hdl. unfold write_sectors_internal. replace (depth js =? 0) with false by lia.
  cbn [write_loop]. unfold find_shadow. rewrite Hc. cbn [find_loop]. osimpl.
  change (MAX_TXN_BLOCKS <=? 0)%nat with false. cbv iota. unfold MAX_TXN_BLOCKS in *.
  ostore. ostore.
  rewrite Z.add_0_r, wrap32_id by done. done.
Qed.

Lemma one_block_ok js lba s :
  shadow_ok js -> is_u32 lba -> length s = SECTOR_SIZE -> shadow_ok (one_block js lba s).
Proof.
  intros [Hl Hd _ Hu _ Hsz] Hlba Hs. unfold one_block.
  split; simpl; [by rewrite length_insert|by rewrite length_insert|unfold MAX_TXN_BLOCKS; lia|
                 by apply Forall_insert| |by apply Forall_insert].
  destruct (shadow_lba js); simpl; [by apply NoDup_nil_2|apply NoDup_singleton].
Qed.

(** A completed [commit_durable_internal] leaves a transaction to recover. *)
Lemma commit_holds J js n lbas ab desc desc' f :
  describes desc' n lbas (take n (shadow_data js)) ab COMMIT_MAGIC ->
  drop SECTOR_SIZE desc' = drop SECTOR_SIZE desc ->
  holds J n lbas (take n (shadow_data js)) ab (puts (journal_writes js J n desc desc') f).
Proof.
  intros D Hdr. exists desc'. split; [done|]. unfold journal_writes. rewrite app_assoc, puts_app.
  set (g := puts _ f). simpl. unfold upd. rewrite Z.eqb_refl.
  replace (J =? J + 1) with false by lia. rewrite Z.eqb_refl. split; [done|]. split; [done|].
  intros i s Hi. replace (J + 2 + Z.of_nat i =? J + 1) with false by lia.
  replace (J + 2 + Z.of_nat i =? J) with false by lia. unfold g. rewrite puts_app. by apply puts_from.
Qed.

(** One block committed and recovered, without the checkpoint in between. *)
Lemma selftest_part_a J js d a s dp ab' :
  good d -> power d = None -> shadow_ok js -> is_u32 (seq js) -> journal_start_lba js = J ->
  0 <= J -> J + 130 <= 0x100000000 -> journal_region_usable js d = true -> is_u32 a ->
  length s = SECTOR_SIZE -> sized (sectors d) -> targets_absolute js = true ->
  exists js1 W js2, let d1 := apply_w W d in
    commit_durable_internal (one_block js a s) d = Done (true, js1, d1) /\
    recover_internal (set_absolute ab' (set_depth dp (set_shadow 0 (shadow_lba js1) (shadow_data js1) js1))) d1
      = Done (1, js2, apply_w [(a, s); zero_desc J] d1) /\
    (forall x, x ∈ W.*1 -> in_region J x) /\ sized_writes W /\ booted J js2 d.
Proof.
  intros Hg Hp Hok Hseq HJ HJ0 HJ1 Hus Ha Hs Hsz Hab.
  pose proof (one_block_ok js a s Hok Ha Hs) as Hok1. set (js0 := one_block js a s) in *.
  destruct (commit_durable_spec js0 J HJ HJ0 HJ1 d Hg Hok1 Hseq Hus) as (desc & desc' & -> & D1 & D2 & Hdr);
    [simpl; lia|].
  set (W := journal_writes _ _ _ _ _). pose proof (apply_w_dev W d) as Hdev.
  set (js1 := set_seq _ js0). set (js1' := set_absolute ab' (set_depth dp (set_shadow 0 (shadow_lba js1) (shadow_data js1) js1))).
  assert (Hb : booted J js1' d).
  { split; [done|]. split; [done|]. split; [apply (sh_lbas _ Hok1)|apply (sh_data _ Hok1)]. }
  assert (Hb' : booted J js1' (apply_w W d)).
  { destruct Hb as (? & ? & ? & ?). split; [done|]. split; [|done]. by rewrite (usable_dev _ d). }
  destruct (recover_committed J js1' (apply_w W d) 1 (shadow_lba js0) (take 1 (shadow_data js0)) true)
    as (js2 & Hb2 & _ & E); try done.
  { by apply apply_w_good. }
  { rewrite apply_w_sectors, Hp. change (targets_absolute js0) with (targets_absolute js) in D2.
    rewrite Hab in D2. by apply commit_holds. }
  { unfold MAX_TXN_BLOCKS. lia. }
  { rewrite (sh_lbas _ Hok1). unfold MAX_TXN_BLOCKS. lia. }
  { rewrite length_take, (sh_data _ Hok1). unfold MAX_TXN_BLOCKS. lia. }
  exists js1, W, js2. split; [done|]. split; [|split; [|split]].
  - etrans; [exact E|]. do 3 f_equal. unfold js0, one_block. simpl. destruct Hok as [Hl Hd _ _ _ _].
    by destruct (shadow_lba js), (shadow_data js).
  - intros x. unfold W, journal_writes. rewrite !fmap_app, !elem_of_app.
    intros [Hx%from_range|[Hx%from_range|Hx%from_range]]; unfold in_region; simpl in Hx;
      rewrite ?length_take in Hx; lia.
  - unfold sized_writes, W, journal_writes. rewrite !Forall_app. split; [by eapply sized_desc|].
    split; [|by eapply sized_desc]. apply sized_from, Forall_take, (sh_sizes _ Hok1).
  - destruct Hb2 as (? & Hu2 & ? & ?). split; [done|]. split; [|done]. by rewrite (usable_dev _ d) in Hu2.
Qed.

Lemma selftest_read a d :
  good d -> blockdev_read_sectors_absolute a 1 d = (true, [sectors d a]).
Proof. intros Hg. unfold blockdev_read_sectors_absolute. cbn [dispatch_read]. by rewrite Hg. Qed.

(** The disk of the self-test: the recovered block, then the second scratch sector. *)
Lemma selftest_disk J d W a pat :
  power d = None -> sized (sectors d) -> sized_writes W -> J < a -> length pat = SECTOR_SIZE ->
  (forall x, x ∈ W.*1 -> in_region J x) ->
  let zero := replicate SECTOR_SIZE 0 in
  let d2 := apply_w [(a, pat); zero_desc J] (apply_w W d) in
  let d3 := apply_w [(a + 1, zero)] d2 in
  sectors d2 a = pat /\ sectors d3 J = zero /\ sectors d3 (a + 1) = zero /\ sized (sectors d3) /\
  forall x, ~ in_region J x -> x <> a -> x <> a + 1 -> sectors d3 x = sectors d x.
Proof.
  intros Hp Hs HWs Ha Hpat HW zero d2 d3.
  assert (E2 : sectors d2 = upd (upd (puts W (sectors d)) a pat) J zero).
  { unfold d2. rewrite <- apply_w_app, apply_w_sectors, Hp. simpl. by rewrite puts_app. }
  assert (E3 : sectors d3 = upd (sectors d2) (a + 1) zero).
  { unfold d3. rewrite apply_w_sectors. unfold d2. by rewrite !apply_w_power, Hp. }
  rewrite E3, E2. unfold upd. rewrite !Z.eqb_refl.
  replace (a =? J) with false by lia. replace (J =? a + 1) with false by lia.
  split; [done|]. split; [done|]. split; [done|]. split.
  - intros x. destruct (x =? a + 1), (x =? J), (x =? a); try done; try apply length_replicate.
    by apply sized_puts.
  - intros x Hx Hxa Hxb. replace (x =? a + 1) with false by lia. replace (x =? a) with false by lia.
    destruct (Z.eqb_spec x J) as [->|]; [destruct Hx; unfold in_region; lia|].
    apply puts_notin. by intros Hin%HW.
Qed.

Definition selftest_reset (js : JournalState) (dp : Z) (ab : bool) : JournalState :=
  set_absolute ab (set_depth dp (set_shadow 0 (shadow_lba js) (shadow_data js) js)).

Definition selftest_base (ctr : Z) (js : JournalState) : Z :=
  wrap32 (wrap32 (wrap32 (journal_start_lba js + journal_len_sectors js) - 16)
          + wrap32 (ctr mod 4 * 2)).

(** The self-test's steps, each as expected. *)
Lemma selftest_run ctr js d a js0 js1 d1 js2 d2 d3 js3 js4 :
  journal_region_usable js d = true -> 16 <= journal_len_sectors js ->
  selftest_base ctr js = a -> wrap32 (a + 1) = a + 1 ->
  write_sectors_internal (selftest_reset js 1 true) a [replicate SECTOR_SIZE 0xAB] d = Done (true, js0, d) ->
  commit_durable_internal js0 d = Done (true, js1, d1) ->
  recover_internal (selftest_reset js1 0 false) d1 = Done (1, js2, d2) ->
  blockdev_read_sectors_absolute a 1 d2 = (true, [replicate SECTOR_SIZE 0xAB]) ->
  blockdev_write_sectors_absolute (a + 1) [replicate SECTOR_SIZE 0] d2 = (true, d3) ->
  write_sectors_internal (selftest_reset js2 1 true) (a + 1) [replicate SECTOR_SIZE 0xCD] d3 = Done (true, js3, d3) ->
  recover_internal (selftest_reset js3 0 false) d3 = Done (0, js4, d3) ->
  blockdev_read_sectors_absolute (a + 1) 1 d3 = (true, [replicate SECTOR_SIZE 0]) ->
  rust_journal_selftest ctr js d = Done (0, wrap32 (ctr + 1), js4, d3).
Proof.
  unfold selftest_base, selftest_reset. intros Hus Hlen Ea Eb E1 E2 E3 E4 E5 E6 E7 E8.
  unfold rust_journal_selftest. rewrite Hus. replace (journal_len_sectors js <? 16) with false by lia.
  osimpl. rewrite Ea, Eb. cbv zeta. rewrite E1. osimpl. rewrite E2. osimpl. rewrite E3. osimpl.
  rewrite E4, E5. cbn [snd]. rewrite E6. osimpl. rewrite E7. osimpl. rewrite E8.
  rewrite !bool_decide_eq_true_2 by done. done.
Qed.

(** On every configured journal over a working disk the boot self-test passes: a block
    made durable but not checkpointed is recovered, an uncommitted one leaves no trace, the
    journal ends clean and no sector outside the journal partition changes. *)
Theorem journal_selftest_passes (J ctr : Z) (js : JournalState) (d : Dev)
    (Hr : ready J js d) (Hp : power d = None) (Hs : sized (sectors d))
    (Hlen : 130 <= journal_len_sectors js) (Hend : J + journal_len_sectors js <= 0x100000000)
    (Hctr : 0 <= ctr) :
  exists js' d', rust_journal_selftest ctr js d = Done (0, wrap32 (ctr + 1), js', d') /\
    clean J (sectors d') /\
    forall x, x < J \/ J + journal_len_sectors js <= x -> sectors d' x = sectors d x.
Proof.
  destruct Hr as [(Hdp & Hcnt & Hab & Hok & Hseq) HJ Hus Hg HJ0 HJ1].
  set (a := J + journal_len_sectors js - 16 + ctr mod 4 * 2).
  assert (Hround : 0 <= ctr mod 4 < 4) by (apply Z.mod_pos_bound; lia).
  assert (Ha : J + 114 <= a <= J + journal_len_sectors js - 10) by (unfold a; lia).
  assert (Ea : selftest_base ctr js = a).
  { unfold selftest_base, a, wrap32. rewrite HJ, Zplus_mod_idemp_r, Zplus_mod_idemp_l.
    rewrite <- Zplus_mod_idemp_l, Zminus_mod_idemp_l, Zplus_mod_idemp_l. apply Z.mod_small. lia. }
  clearbody a. set (js0 := selftest_reset js 1 true).
  assert (Hok0 : shadow_ok js0).
  { destruct Hok. split; simpl; try done; [lia|]. by apply NoDup_nil_2. }
  destruct (selftest_part_a J js0 d a (replicate SECTOR_SIZE 0xAB) 0 false)
    as (js1 & W & js2 & Ec & Er & HW & HWs & (B1 & B2 & B3 & B4)); try done;
    [unfold is_u32; lia|].
  destruct (selftest_disk J d W a (replicate SECTOR_SIZE 0xAB)) as (Hs2 & HJz & Hs3b & Hz3 & Hout);
    [done|done|done|lia|apply length_replicate|done|].
  set (d2 := apply_w [(a, _); zero_desc J] (apply_w W d)) in *.
  set (d3 := apply_w [(a + 1, _)] d2) in *.
  assert (Hg2 : good d2) by by apply apply_w_good, apply_w_good.
  assert (Hg3 : good d3) by by apply apply_w_good.
  assert (Hdev : same_dev d d3) by (unfold d3, d2; rewrite <- !apply_w_app; apply apply_w_dev).
  set (js3 := one_block (selftest_reset js2 1 true) (a + 1) (replicate SECTOR_SIZE 0xCD)).
  exists (selftest_reset js3 0 false), d3. split; [|split; [by apply clean_zeros|]].
  - apply (selftest_run ctr js d a (one_block js0 a (replicate SECTOR_SIZE 0xAB)) js1 (apply_w W d) js2 d2 d3 js3);
      try done; [lia|apply wrap32_id; unfold is_u32; lia| | | | | |].
    + apply write_one; [done|done|unfold is_u32; lia|apply Hok0|apply Hok0].
    + rewrite selftest_read by done. by rewrite Hs2.
    + unfold blockdev_write_sectors_absolute. by rewrite dispatch_write_good.
    + apply write_one; [done|done|unfold is_u32; lia|done|done].
    + apply (recover_zeroed J); [|done|done|done]. split; [done|]. split.
      * etrans; [|exact B2]. by apply (usable_dev js2 d).
      * split; simpl; by rewrite length_insert.
    + rewrite selftest_read by done. by rewrite Hs3b.
  - intros x Hx. apply Hout; [unfold in_region; lia|lia|lia].
Qed.

(** * Journal witnesses

    The journal's theorems at a concrete disk: 512-byte sectors of zeros, the file system
    at sector 100, the journal partition at sector 1000. *)

Definition disk (p : option nat) : Dev :=
  mkDev (fun _ => replicate SECTOR_SIZE 0) p 0 100 (fun _ => false).

Definition fresh_journal : JournalState := rust_journal_configure 1000 200 JournalState_new (disk None).

Definition block (b : Z) : list Z := replicate SECTOR_SIZE b.

(** Two transactions that overlap in sector 6. *)
Definition two_txns : list (list (Z * list (list Z))) :=
  [[(5, [block 1; block 2])]; [(6, [block 3])]].

Lemma disk_sized p : sized (sectors (disk p)).
Proof. intros a. apply length_replicate. Qed.

Lemma disk_clean p : clean 1000 (sectors (disk p)).
Proof. by apply clean_zeros. Qed.

Lemma fresh_shadow_ok : shadow_ok fresh_journal.
Proof.
  split; [apply length_replicate|apply length_replicate|simpl; unfold MAX_TXN_BLOCKS; lia| |by apply NoDup_nil_2|].
  - apply Forall_replicate. unfold is_u32. lia.
  - apply Forall_replicate, length_replicate.
Qed.

Lemma disk_ready p : ready 1000 fresh_journal (disk p).
Proof.
  split; try done; try lia. split; [done|]. split; [done|]. split; [done|].
  split; [apply fresh_shadow_ok|]. unfold is_u32. simpl. lia.
Qed.

Lemma disk_call p lba ss :
  0 <= lba -> lba + 100 + Z.of_nat (length ss) <= 1000 ->
  Forall (fun s => length s = SECTOR_SIZE) ss -> call_fits 1000 (disk p) (lba, ss).
Proof.
  intros H0 H1 Hs. split; [done|]. split; [done|]. simpl. split; [lia|]. split; [done|].
  intros a Ha%from_range. unfold in_region. lia.
Qed.

Lemma two_txns_fit p : txs_fit 1000 (disk p) two_txns.
Proof.
  apply Forall_cons. split; [|apply Forall_cons; split; [|done]].
  - split; [|vm_compute; lia]. apply Forall_singleton, disk_call; [lia|simpl; lia|].
    repeat constructor; apply length_replicate.
  - split; [|vm_compute; lia]. apply Forall_singleton, disk_call; [lia|simpl; lia|].
    repeat constructor; apply length_replicate.
Qed.

(** Power fails at the tenth sector write, then twice more during recovery. *)
Lemma journal_crash_consistent_witness :
  exists js' d', run_txns two_txns fresh_journal (disk (Some 9%nat)) = Done (true, js', d') /\
    exists r js'' d'', boots 1000 200 [0%nat; 1%nat] d' = Done (r, js'', d'') /\
      clean 1000 (sectors d'') /\
      exists m, (m <= 2)%nat /\
        same_data 1000 (sectors d'') (puts (direct (disk (Some 9%nat)) (concat (take m two_txns)))
                                           (sectors (disk (Some 9%nat)))).
Proof.
  destruct (journal_crash_consistent 1000 200 two_txns fresh_journal (disk (Some 9%nat))
    (disk_ready _) (two_txns_fit _) (disk_sized _) (disk_clean _) ltac:(lia)) as (js' & d' & E & H).
  exists js', d'. split; [exact E|].
  destruct (H [0%nat; 1%nat]) as (r & js'' & d'' & Eb & _ & Hc & m & Hm & _ & Hd).
  exists r, js'', d''. split; [exact Eb|]. split; [exact Hc|]. exists m. split; [exact Hm|exact Hd].
Defined.

Lemma journal_read_your_writes_witness :
  exists js', run_writes [(5, [block 1; block 2])] (rust_journal_begin fresh_journal) (disk None)
                = Done (true, js', disk None) /\
    rust_journal_read_sectors 4 3 js' (disk None) = Done (true, [block 0; block 1; block 2]).
Proof.
  pose proof (two_txns_fit None) as [[Hf Hs] _]%Forall_cons.
  destruct (journal_read_your_writes 1000 [(5, [block 1; block 2])] fresh_journal (disk None) 4 3
    (disk_ready _) Hf Hs ltac:(lia) ltac:(simpl; lia) ltac:(simpl; lia)) as (js' & E & Er).
  exists js'. split; [exact E|]. rewrite Er. vm_compute. reflexivity.
Defined.

(** A transaction with one slot left, and a call of two sectors. *)
Definition nearly_full : JournalState :=
  set_depth 1 (set_shadow 127 (Z.of_nat <$> List.seq 0 128) (replicate 128 (block 7)) fresh_journal).

Lemma nearly_full_ok : shadow_ok nearly_full.
Proof.
  unfold nearly_full. split; cbn [shadow_lba shadow_data shadow_count set_shadow set_depth];
    [done|done|unfold MAX_TXN_BLOCKS; lia| | |].
  - apply Forall_fmap, Forall_seq. intros j Hj. simpl. unfold is_u32. lia.
  - rewrite <- fmap_take. apply NoDup_fmap_2; [apply _|].
    apply (NoDup_app (take 127 (List.seq 0 128)) (drop 127 (List.seq 0 128))).
    rewrite take_drop. apply NoDup_seq.
  - apply (Forall_replicate (fun s => length s = SECTOR_SIZE) 128), length_replicate.
Qed.

Lemma journal_overflow_partial_witness :
  exists js', write_sectors_internal nearly_full 500 [block 1; block 2] (disk None) = Done (false, js', disk None) /\
    view (disk None) js' 600 = block 1 /\ view (disk None) js' 601 = block 0.
Proof.
  destruct (journal_overflow_partial nearly_full (disk None) 500 [block 1; block 2])
    as (js' & E & _ & Hv).
  - done.
  - exact nearly_full_ok.
  - repeat constructor; apply length_replicate.
  - lia.
  - simpl. lia.
  - intros i Hi Hin%take_elem. apply list_elem_of_fmap in Hin as (j & E & Hj%elem_of_seq).
    lia.
  - simpl. unfold MAX_TXN_BLOCKS. lia.
  - exists js'. split; [exact E|]. rewrite !Hv. split; vm_compute; reflexivity.
Defined.

Lemma disk_booted p : booted 1000 fresh_journal (disk p).
Proof. split; [done|]. split; [done|]. split; apply length_replicate. Qed.

(** A disk of bytes that look like a committed descriptor everywhere. *)
Definition junk : list Z :=
  le_bytes MAGIC ++ le_bytes 1 ++ le_bytes 2 ++ le_bytes 3 ++ le_bytes COMMIT_MAGIC ++ replicate 492 9.

Definition junk_disk : Dev := mkDev (fun _ => junk) None 0 100 (fun _ => false).

Lemma journal_recover_total_witness :
  exists r js' d', recover_internal fresh_journal junk_disk = Done (r, js', d') /\
    0 <= r <= 128 /\ recover_internal js' d' = Done (0, js', d').
Proof.
  destruct (journal_recover_total 1000 fresh_journal junk_disk) as (r & js' & d' & E & Hr & _ & Hi).
  - split; [done|]. split; [done|]. split; apply length_replicate.
  - done.
  - intros a. reflexivity.
  - lia.
  - lia.
  - exists r, js', d'. split; [exact E|]. split; [exact Hr|]. apply Hi. reflexivity.
Defined.

Lemma journal_selftest_passes_witness :
  exists js' d', rust_journal_selftest 7 fresh_journal (disk None) = Done (0, 8, js', d') /\
    clean 1000 (sectors d').
Proof.
  destruct (journal_selftest_passes 1000 7 fresh_journal (disk None) (disk_ready _) eq_refl
    (disk_sized _) ltac:(simpl; lia) ltac:(simpl; lia) ltac:(lia)) as (js' & d' & E & Hc & _).
  exists js', d'. split; [exact E|exact Hc].
Defined.
