(* ===== verification/Fat.v ===== *)
(** * The FAT32 file system

    The definitions of [kernel/fs/fat32.c] and of the file calls of [kernel/fs/vfs.c]. The
    sectors below it, with the journal's transactions, are the class [Blocks]; the static
    variables are the record [fat32_t]. The static buffers [cluster_buf] and
    [fat_sector_buf] are filled before each use and become values, [found_entry] a result.

    A loop that follows a cluster chain is given as many steps as the table has entries
    ([fuel]); [None] is a chain that is longer than that, on which the C code reads the same
    clusters over and over. *)

From S2P Require Import Prelude Bytes.
Local Open Scope Z_scope.
Local Open Scope machine_scope.

Definition BLOCKDEV_SECTOR_SIZE : Z := 512.
Definition FAT_ATTR_VOLUME_ID : Z := 0x08.
Definition FAT_ATTR_DIRECTORY : Z := 0x10.
Definition FAT_ATTR_LFN : Z := 0x0F.
Definition FAT32_END_OF_CHAIN : Z := 0x0FFFFFF8.
Definition MAX_CLUSTER_SECTORS : Z := 64.

(** The block layer and the journal in front of it, as this file calls them. Sector
    numbers are relative to the partition that was set last. *)
Class Blocks (D : Type) : Type := {
  blockdev_is_present : D -> bool;
  blockdev_set_partition_offset : Z -> D -> D;
  rust_journal_read_sectors : Z -> nat -> D -> option (list Z);
  rust_journal_write_sectors : Z -> nat -> list Z -> D -> bool * D;
  rust_journal_begin : D -> D;
  rust_journal_commit : D -> bool * D;
}.

(** The static variables. *)
Record fat32_t : Type := mkFat {
  mounted : bool;
  partition_offset : Z;
  bytes_per_sector : Z;
  sectors_per_cluster : Z;
  fat_start_lba : Z;
  data_start_lba : Z;
  root_cluster : Z;
  num_fats : Z;
  fat_size_32 : Z;
  next_free_cluster_hint : Z;
}.

Definition fat32_zero : fat32_t := mkFat false 0 0 0 0 0 0 0 0 2.

Definition set_mounted (b : bool) (g : fat32_t) : fat32_t :=
  mkFat b (partition_offset g) (bytes_per_sector g) (sectors_per_cluster g) (fat_start_lba g)
    (data_start_lba g) (root_cluster g) (num_fats g) (fat_size_32 g) (next_free_cluster_hint g).
Definition set_hint (h : Z) (g : fat32_t) : fat32_t :=
  mkFat (mounted g) (partition_offset g) (bytes_per_sector g) (sectors_per_cluster g) (fat_start_lba g)
    (data_start_lba g) (root_cluster g) (num_fats g) (fat_size_32 g) h.
Definition fat32_set_partition_offset (offset_lba : Z) (g : fat32_t) : fat32_t :=
  mkFat (mounted g) offset_lba (bytes_per_sector g) (sectors_per_cluster g) (fat_start_lba g)
    (data_start_lba g) (root_cluster g) (num_fats g) (fat_size_32 g) (next_free_cluster_hint g).

(** The fields of a directory entry that the code reads. *)
Record fat_dirent_t : Type := mkDirent {
  d_name : list Z;
  d_attr : Z;
  first_cluster_hi : Z;
  first_cluster_lo : Z;
  file_size : Z;
}.

Definition field (buf : list Z) (off n : nat) : list Z := take n (drop off buf).

(** [memcpy] of an entry out of a buffer, and of a new file's entry into one. *)
Definition dirent_at (buf : list Z) (off : nat) : fat_dirent_t :=
  let e := field buf off 32 in
  mkDirent (field e 0 11) (e !!! 11%nat) (of_le_bytes (field e 20 2)) (of_le_bytes (field e 26 2))
    (of_le_bytes (field e 28 4)).

Definition new_dirent (name : list Z) (first size : Z) : list Z :=
  name ++ replicate 9 0 ++ le_bytes 2 (Z.shiftr first 16) ++ replicate 4 0 ++
  le_bytes 2 (Z.land first 0xFFFF) ++ le_bytes 4 size.

Definition put_bytes (buf : list Z) (off : nat) (bs : list Z) : list Z :=
  take off buf ++ bs ++ drop (off + length bs) buf.

Definition first_cluster (e : fat_dirent_t) : Z :=
  Z.lor (wrap32 (Z.shiftl (first_cluster_hi e) 16)) (first_cluster_lo e).

(** ** Names *)

Definition upper (c : Z) : Z := if (97 <=? c) && (c <=? 122) then c - 32 else c.

(** The characters up to a dot, at most [n], with the rest of the input. *)
Fixpoint copy_base (n : nat) (input : list Z) : list Z * list Z :=
  match n, input with
  | S n', c :: input' =>
      if c =? chr "." then ([], input)
      else let '(out, rest) := copy_base n' input' in (upper c :: out, rest)
  | _, _ => ([], input)
  end.

Fixpoint skip_to_dot (input : list Z) : list Z :=
  match input with
  | c :: input' => if c =? chr "." then input else skip_to_dot input'
  | [] => []
  end.

(** A name without its terminating zero, in the eleven bytes of an entry. *)
Definition to_fat_8_3 (input : list Z) : list Z :=
  let pad n (l : list Z) := l ++ replicate (n - length l) (chr " ") in
  let '(base, rest) := copy_base 8 input in
  let ext := match skip_to_dot rest with _ :: e => upper <$> take 3 e | [] => [] end in
  pad 8%nat base ++ pad 3%nat ext.

Definition not_space (c : Z) : bool := negb (c =? chr " ").

Definition from_fat_8_3 (raw : list Z) : list Z :=
  List.filter not_space (take 8 raw) ++
  (if not_space (raw !!! 8%nat) then chr "." :: List.filter not_space (field raw 8 3) else []).

(** ** The table *)

Section Fat.
Context {D : Type} `{!Blocks D}.
Implicit Types (g : fat32_t) (d : D).

Definition spc g : nat := Z.to_nat (sectors_per_cluster g).

Definition cluster_to_lba g (cluster : Z) : Z :=
  data_start_lba g +₃₂ ((cluster -₃₂ 2) *₃₂ sectors_per_cluster g).

Definition fat_next_cluster g (cluster : Z) d : Z :=
  let fat_offset := cluster *₃₂ 4 in
  let fat_sector := fat_start_lba g +₃₂ (fat_offset / bytes_per_sector g) in
  let ent_offset := Z.to_nat (fat_offset mod bytes_per_sector g) in
  match rust_journal_read_sectors fat_sector 1 d with
  | None => FAT32_END_OF_CHAIN
  | Some buf => Z.land (of_le_bytes (field buf ent_offset 4)) 0x0FFFFFFF
  end.

(** The loop over the copies of the table, from [copy] on. *)
Fixpoint set_copies (n : nat) (copy : Z) g (sector_in_fat : Z) (ent_offset : nat) (value : Z) d : bool * D :=
  match n with
  | O => (true, d)
  | S n' =>
      let fat_sector := fat_start_lba g +₃₂ (copy *₃₂ fat_size_32 g) +₃₂ sector_in_fat in
      match rust_journal_read_sectors fat_sector 1 d with
      | None => (false, d)
      | Some buf =>
          let existing := of_le_bytes (field buf ent_offset 4) in
          let new_value := Z.lor (Z.land existing 0xF0000000) (Z.land value 0x0FFFFFFF) in
          let '(ok, d) := rust_journal_write_sectors fat_sector 1 (put_bytes buf ent_offset (le_bytes 4 new_value)) d in
          if negb ok then (false, d) else set_copies n' (copy + 1) g sector_in_fat ent_offset value d
      end
  end.

Definition fat_set_next_cluster g (cluster value : Z) d : bool * D :=
  let fat_offset := cluster *₃₂ 4 in
  set_copies (Z.to_nat (num_fats g)) 0 g (fat_offset / bytes_per_sector g)
    (Z.to_nat (fat_offset mod bytes_per_sector g)) value d.

(** One pass of [find_free_cluster] over [n] entries: [inl] is a failed read, [inr] the
    cluster found, if any. *)
Fixpoint scan (n : nat) g (cluster cur_sector : Z) (buf : list Z) d : unit + option Z :=
  match n with
  | O => inr None
  | S n' =>
      let fat_offset := cluster *₃₂ 4 in
      let fat_sector := fat_start_lba g +₃₂ (fat_offset / bytes_per_sector g) in
      let ent_offset := Z.to_nat (fat_offset mod bytes_per_sector g) in
      match (if fat_sector =? cur_sector then Some buf else rust_journal_read_sectors fat_sector 1 d) with
      | None => inl tt
      | Some buf =>
          if Z.land (of_le_bytes (field buf ent_offset 4)) 0x0FFFFFFF =? 0 then inr (Some cluster)
          else scan n' g (cluster + 1) fat_sector buf d
      end
  end.

Definition total_entries g : Z := (fat_size_32 g *₃₂ bytes_per_sector g) / 4.

(** The cluster found, or 0, with the new hint. *)
Definition find_free_cluster g d : Z * fat32_t :=
  let start := next_free_cluster_hint g in
  let start := if (start <? 2) || (total_entries g <=? start) then 2 else start in
  match scan (Z.to_nat (total_entries g - start)) g start 0xFFFFFFFF [] d with
  | inl _ => (0, g)
  | inr (Some cluster) => (cluster, set_hint (cluster +₃₂ 1) g)
  | inr None =>
      match scan (Z.to_nat (start - 2)) g 2 0xFFFFFFFF [] d with
      | inl _ => (0, g)
      | inr (Some cluster) => (cluster, set_hint (cluster +₃₂ 1) g)
      | inr None => (0, g)
      end
  end.

Fixpoint alloc_loop (n : nat) (first prev : Z) g d : Z * fat32_t * D :=
  match n with
  | O => (first, g, d)
  | S n' =>
      let '(cluster, g) := find_free_cluster g d in
      if cluster =? 0 then (0, g, d)
      else
        let '(ok, d) := fat_set_next_cluster g cluster FAT32_END_OF_CHAIN d in
        if negb ok then (0, g, d)
        else if first =? 0 then alloc_loop n' cluster cluster g d
        else let '(_, d) := fat_set_next_cluster g prev cluster d in alloc_loop n' first cluster g d
  end.

Definition alloc_cluster_chain (count : Z) g d : Z * fat32_t * D :=
  if count =? 0 then (0, g, d) else alloc_loop (Z.to_nat count) 0 0 g d.

(** How far a chain is followed. *)
Definition fuel g : nat := Z.to_nat (total_entries g).

Fixpoint free_loop (n : nat) g (cluster : Z) d : option D :=
  if (2 <=? cluster) && (cluster <? FAT32_END_OF_CHAIN) then
    match n with
    | O => None
    | S n' =>
        let next := fat_next_cluster g cluster d in
        let '(_, d) := fat_set_next_cluster g cluster 0 d in
        free_loop n' g next d
    end
  else Some d.

Definition free_cluster_chain g (cluster : Z) d : option (fat32_t * D) :=
  let g := if (2 <=? cluster) && (cluster <? next_free_cluster_hint g) then set_hint cluster g else g in
  d ← free_loop (fuel g) g cluster d; Some (g, d).

(** ** Mounting *)

Definition fat32_init g d : bool * fat32_t * D :=
  let d := blockdev_set_partition_offset (partition_offset g) d in
  let g := set_mounted false g in
  if negb (blockdev_is_present d) then (false, g, d)
  else
    match rust_journal_read_sectors 0 1 d with
    | None => (false, g, d)
    | Some bpb =>
        let u8 off := bpb !!! off in
        let u16 off := of_le_bytes (field bpb off 2) in
        let u32 off := of_le_bytes (field bpb off 4) in
        if negb (u16 11%nat =? BLOCKDEV_SECTOR_SIZE) || negb (u16 22%nat =? 0) || (u32 36%nat =? 0) || negb (u16 17%nat =? 0)
        then (false, g, d)
        else if (u8 13%nat =? 0) || (MAX_CLUSTER_SECTORS <? u8 13%nat) then (false, g, d)
        else
          (true, mkFat true (partition_offset g) (u16 11%nat) (u8 13%nat) (u16 14%nat)
             (u16 14%nat +₃₂ (u8 16%nat *₃₂ u32 36%nat)) (u32 44%nat) (u8 16%nat) (u32 36%nat) 2, d)
    end.

Definition fat32_is_mounted g : bool := mounted g.

(** ** The root directory *)

Definition entries_per_cluster g : nat := Z.to_nat (sectors_per_cluster g *₃₂ bytes_per_sector g / 32).

(** An entry that is not a deleted one, a piece of a long name or a volume label. *)
Definition skipped (e : fat_dirent_t) : bool :=
  (d_name e !!! 0%nat =? 0xE5) || (d_attr e =? FAT_ATTR_LFN) || negb (Z.land (d_attr e) FAT_ATTR_VOLUME_ID =? 0).

Definition listed (e : fat_dirent_t) : list Z * Z * bool :=
  (from_fat_8_3 (d_name e), file_size e, negb (Z.land (d_attr e) FAT_ATTR_DIRECTORY =? 0)).

(** What a walk over a cluster's entries ends with. *)
Inductive walked : Type :=
| Found (offset : nat) (e : fat_dirent_t)
| EndOfDirectory
| NextCluster.

(** Entries [i] to [i+n] of a cluster; without a wanted name, those shown to the callback
    are collected. *)
Fixpoint walk_entries (n i : nat) (buf : list Z) (want : option (list Z)) (shown : list (list Z * Z * bool)) :
    walked * list (list Z * Z * bool) :=
  match n with
  | O => (NextCluster, shown)
  | S n' =>
      let e := dirent_at buf (i * 32) in
      if d_name e !!! 0%nat =? 0 then (EndOfDirectory, shown)
      else if skipped e then walk_entries n' (S i) buf want shown
      else
        match want with
        | Some name =>
            if bool_decide (d_name e = name) then (Found (i * 32) e, shown) else walk_entries n' (S i) buf want shown
        | None => walk_entries n' (S i) buf want (shown ++ [listed e])
        end
  end.

(** The walk from a cluster on: the cluster, offset and entry found, and what was shown. *)
Fixpoint walk_loop (n : nat) g (cluster : Z) (want : option (list Z)) (shown : list (list Z * Z * bool)) d :
    option (option (Z * nat * fat_dirent_t) * list (list Z * Z * bool)) :=
  if cluster <? FAT32_END_OF_CHAIN then
    match n with
    | O => None
    | S n' =>
        match rust_journal_read_sectors (cluster_to_lba g cluster) (spc g) d with
        | None => Some (None, shown)
        | Some buf =>
            match walk_entries (entries_per_cluster g) 0 buf want shown with
            | (Found off e, shown) => Some (Some (cluster, off, e), shown)
            | (EndOfDirectory, shown) => Some (None, shown)
            | (NextCluster, shown) => walk_loop n' g (fat_next_cluster g cluster d) want shown d
            end
        end
    end
  else Some (None, shown).

Definition walk_root g (want : option (list Z)) d : option (option fat_dirent_t * list (list Z * Z * bool)) :=
  '(r, shown) ← walk_loop (fuel g) g (root_cluster g) want [] d;
  Some (option_map snd r, shown).

(** The same scan for the location of an entry. *)
Definition find_existing_entry_location g (name : list Z) d : option (option (Z * nat)) :=
  '(r, _) ← walk_loop (fuel g) g (root_cluster g) (Some name) [] d;
  Some (option_map fst r).

Definition fat32_list_root g d : option (list (list Z * Z * bool) * D) :=
  let d := blockdev_set_partition_offset (partition_offset g) d in
  if negb (mounted g) then Some ([], d)
  else '(_, shown) ← walk_root g None d; Some (shown, d).

(** ** Reading *)

Definition cluster_bytes g : Z := sectors_per_cluster g *₃₂ bytes_per_sector g.

(** The copy loop: what is copied out, from offset [in_cluster] of the first cluster on. *)
Fixpoint read_loop (n : nat) g (cluster remaining in_cluster : Z) d : option (list Z) :=
  if (0 <? remaining) && (cluster <? FAT32_END_OF_CHAIN) then
    match n with
    | O => None
    | S n' =>
        match rust_journal_read_sectors (cluster_to_lba g cluster) (spc g) d with
        | None => Some []
        | Some buf =>
            let avail := cluster_bytes g - in_cluster in
            let chunk := if remaining <? avail then remaining else avail in
            rest ← read_loop n' g (fat_next_cluster g cluster d) (remaining - chunk) 0 d;
            Some (field buf (Z.to_nat in_cluster) (Z.to_nat chunk) ++ rest)
        end
    end
  else Some [].

(** [(int)] of a [uint32_t]. *)
Definition to_int (z : Z) : Z := if z <? 2147483648 then z else z - 4294967296.

(** The count returned and the bytes copied to the buffer. *)
Definition fat32_read_file g (filename : list Z) (buf_size : Z) d : option (Z * list Z * D) :=
  let d := blockdev_set_partition_offset (partition_offset g) d in
  if negb (mounted g) then Some (-1, [], d)
  else
    '(r, _) ← walk_root g (Some (to_fat_8_3 filename)) d;
    match r with
    | None => Some (-1, [], d)
    | Some e =>
        let remaining := if buf_size <? file_size e then buf_size else file_size e in
        out ← read_loop (fuel g) g (first_cluster e) remaining 0 d;
        Some (to_int (Z.of_nat (length out)), out, d)
    end.

Fixpoint skip_loop (n : nat) g (skip cluster : Z) d : option Z :=
  if (0 <? skip) && (cluster <? FAT32_END_OF_CHAIN) then
    match n with
    | O => None
    | S n' => skip_loop n' g (skip - 1) (fat_next_cluster g cluster d) d
    end
  else Some cluster.

Definition fat32_read_file_range g (filename : list Z) (offset len : Z) d : option (Z * list Z * D) :=
  let d := blockdev_set_partition_offset (partition_offset g) d in
  if negb (mounted g) then Some (-1, [], d)
  else
    '(r, _) ← walk_root g (Some (to_fat_8_3 filename)) d;
    match r with
    | None => Some (-1, [], d)
    | Some e =>
        if (file_size e <=? offset) || (len =? 0) then Some (0, [], d)
        else
          let remaining := if len <? file_size e - offset then len else file_size e - offset in
          cluster ← skip_loop (fuel g) g (offset / cluster_bytes g) (first_cluster e) d;
          if FAT32_END_OF_CHAIN <=? cluster then Some (0, [], d)
          else
            out ← read_loop (fuel g) g cluster remaining (offset mod cluster_bytes g) d;
            Some (to_int (Z.of_nat (length out)), out, d)
    end.

(** ** Writing *)

(** The first slot among [n] from [i] on whose first byte is free. *)
Fixpoint free_entry (n i : nat) (buf : list Z) : option nat :=
  match n with
  | O => None
  | S n' =>
      let b := buf !!! (i * 32)%nat in
      if (b =? 0) || (b =? 0xE5) then Some (i * 32)%nat else free_entry n' (S i) buf
  end.

(** What the scan for a slot ends with: a failed read, a slot, or the last cluster. *)
Inductive slot_scan : Type :=
| SlotError
| Slot (cluster : Z) (offset : nat)
| Full (last_cluster : Z).

Fixpoint slot_loop (n : nat) g (cluster : Z) d : option slot_scan :=
  match n with
  | O => None
  | S n' =>
      match rust_journal_read_sectors (cluster_to_lba g cluster) (spc g) d with
      | None => Some SlotError
      | Some buf =>
          match free_entry (entries_per_cluster g) 0 buf with
          | Some off => Some (Slot cluster off)
          | None =>
              let next := fat_next_cluster g cluster d in
              if FAT32_END_OF_CHAIN <=? next then Some (Full cluster) else slot_loop n' g next d
          end
      end
  end.

Definition zero_cluster g : list Z := replicate (Z.to_nat (cluster_bytes g)) 0.

Definition find_free_slot g d : option (option (Z * nat) * fat32_t * D) :=
  s ← (if root_cluster g <? FAT32_END_OF_CHAIN then slot_loop (fuel g) g (root_cluster g) d
       else Some (Full (root_cluster g)));
  match s with
  | SlotError => Some (None, g, d)
  | Slot c off => Some (Some (c, off), g, d)
  | Full last_cluster =>
      let '(new_cluster, g, d) := alloc_cluster_chain 1 g d in
      if new_cluster =? 0 then Some (None, g, d)
      else
        let '(ok, d) := rust_journal_write_sectors (cluster_to_lba g new_cluster) (spc g) (zero_cluster g) d in
        if negb ok then Some (None, g, d)
        else
          let '(ok, d) := fat_set_next_cluster g last_cluster new_cluster d in
          if negb ok then Some (None, g, d) else Some (Some (new_cluster, 0%nat), g, d)
  end.

(** The data loop of [fat32_write_file]: [false] is a failed write. *)
Fixpoint write_loop (n : nat) g (cluster : Z) (src : list Z) d : option (bool * D) :=
  if cluster <? FAT32_END_OF_CHAIN then
    match n with
    | O => None
    | S n' =>
        let remaining := Z.of_nat (length src) in
        let chunk := Z.to_nat (if remaining <? cluster_bytes g then remaining else cluster_bytes g) in
        let buf := take chunk src ++ replicate (Z.to_nat (cluster_bytes g) - chunk) 0 in
        let '(ok, d) := rust_journal_write_sectors (cluster_to_lba g cluster) (spc g) buf d in
        if negb ok then Some (false, d)
        else write_loop n' g (fat_next_cluster g cluster d) (drop chunk src) d
    end
  else Some (true, d).

(** [free_cluster_chain(first_cluster); goto done;] *)
Definition abandon_file g (first : Z) d : option (bool * fat32_t * D) :=
  '(g, d) ← free_cluster_chain g first d; Some (false, g, d).

(** The directory entry of a new file. *)
Definition write_entry g (raw_name : list Z) (first size : Z) d : option (bool * fat32_t * D) :=
  '(slot, g, d) ← find_free_slot g d;
  match slot with
  | None => abandon_file g first d
  | Some (dir_cluster, dir_offset) =>
      match rust_journal_read_sectors (cluster_to_lba g dir_cluster) (spc g) d with
      | None => abandon_file g first d
      | Some buf =>
          let buf := put_bytes buf dir_offset (new_dirent raw_name first size) in
          let '(ok, d) := rust_journal_write_sectors (cluster_to_lba g dir_cluster) (spc g) buf d in
          if negb ok then abandon_file g first d else Some (true, g, d)
      end
  end.

(** Between [rust_journal_begin] and [done]. *)
Definition write_body g (raw_name data : list Z) d : option (bool * fat32_t * D) :=
  let size := Z.of_nat (length data) in
  let clusters_needed := if size =? 0 then 1 else (size +₃₂ (cluster_bytes g - 1)) / cluster_bytes g in
  let '(first, g, d) := alloc_cluster_chain clusters_needed g d in
  if first =? 0 then Some (false, g, d)
  else
    '(ok, d) ← write_loop (fuel g) g first data d;
    if negb ok : bool then abandon_file g first d else write_entry g raw_name first size d.

Definition fat32_write_file g (filename data : list Z) d : option (bool * fat32_t * D) :=
  let d := blockdev_set_partition_offset (partition_offset g) d in
  if negb (mounted g) then Some (false, g, d)
  else
    loc ← find_existing_entry_location g (to_fat_8_3 filename) d;
    match loc with
    | Some _ => Some (false, g, d)
    | None =>
        let d := rust_journal_begin d in
        '(result, g, d) ← write_body g (to_fat_8_3 filename) data d;
        let '(commit_ok, d) := rust_journal_commit d in
        Some (commit_ok && result, g, d)
    end.

(** ** Deleting *)

Definition delete_body g (dir_cluster : Z) (dir_offset : nat) d : option (bool * fat32_t * D) :=
  match rust_journal_read_sectors (cluster_to_lba g dir_cluster) (spc g) d with
  | None => Some (false, g, d)
  | Some buf =>
      let first := first_cluster (dirent_at buf dir_offset) in
      let '(ok, d) := rust_journal_write_sectors (cluster_to_lba g dir_cluster) (spc g) (put_bytes buf dir_offset [0xE5]) d in
      if negb ok then Some (false, g, d)
      else '(g, d) ← free_cluster_chain g first d; Some (true, g, d)
  end.

Definition fat32_delete_file g (filename : list Z) d : option (bool * fat32_t * D) :=
  let d := blockdev_set_partition_offset (partition_offset g) d in
  if negb (mounted g) then Some (false, g, d)
  else
    loc ← find_existing_entry_location g (to_fat_8_3 filename) d;
    match loc with
    | None => Some (false, g, d)
    | Some (dir_cluster, dir_offset) =>
        let d := rust_journal_begin d in
        '(result, g, d) ← delete_body g dir_cluster dir_offset d;
        let '(commit_ok, d) := rust_journal_commit d in
        Some (commit_ok && result, g, d)
    end.

(** ** The file calls of vfs.c *)

(** [ext2] stands for the read-only driver: what it returns for a name, if it is
    mounted. *)
Definition vfs_read_file (ext2 : option (list Z -> Z -> Z * list Z)) g (filename : list Z) (buf_size : Z) d :
    option (Z * list Z * D) :=
  let fallback d :=
    match ext2 with Some read => let '(n, out) := read filename buf_size in (n, out, d) | None => (-1, [], d) end in
  if fat32_is_mounted g then
    '(n, out, d) ← fat32_read_file g filename buf_size d;
    Some (if 0 <=? n then (n, out, d) else fallback d)
  else Some (fallback d).

Definition vfs_read_file_range (ext2 : option (list Z -> Z -> Z -> Z * list Z)) g (filename : list Z) (offset len : Z) d :
    option (Z * list Z * D) :=
  let fallback d :=
    match ext2 with Some read => let '(n, out) := read filename offset len in (n, out, d) | None => (-1, [], d) end in
  if fat32_is_mounted g then
    '(n, out, d) ← fat32_read_file_range g filename offset len d;
    Some (if 0 <=? n then (n, out, d) else fallback d)
  else Some (fallback d).

Definition vfs_list_files g d : option (list (list Z * Z * bool) * D) :=
  if negb (fat32_is_mounted g) then Some ([], d) else fat32_list_root g d.

Definition vfs_write_file g (filename data : list Z) d : option (bool * fat32_t * D) :=
  if negb (fat32_is_mounted g) then Some (false, g, d) else fat32_write_file g filename data d.

Definition vfs_delete_file g (filename : list Z) d : option (bool * fat32_t * D) :=
  if negb (fat32_is_mounted g) then Some (false, g, d) else fat32_delete_file g filename d.

End Fat.
