(* ===== verification/FatSpec.v ===== *)
(** * FAT32: sectors, table and clusters

    What the file system relies on of the block layer, and the table entries and cluster
    contents as functions of the sectors: what each access of fat32.c reads and changes. *)

From S2P Require Import Prelude Bytes Fat.
Local Open Scope Z_scope.
Local Open Scope machine_scope.

(** ** The block layer *)

(** Sector [s] of a write of [bs] at [lba]. *)
Definition piece (bs : list Z) (lba s : Z) : list Z := field bs (Z.to_nat ((s - lba) * 512)) 512.

(** What holds of the partition of [psize] sectors at offset [p]. [view] is what a read
    returns, [here] that the partition is the one set last, [level] the number of open
    transactions, [dirty] the sectors written in the open ones. Reads succeed. A write that
    fails has written some of its first sectors; a sector written once in a transaction can
    be written again. *)
Class BlocksLaws (D : Type) `{!Blocks D} (p psize : Z) : Type := {
  view : D -> Z -> list Z;
  here : D -> Prop;
  level : nat -> D -> Prop;
  dirty : D -> Z -> Prop;
  psize_u32 : psize <= 4294967296;
  view_bytes n d s : level n d -> 0 <= s < psize -> length (view d s) = 512%nat /\ Forall is_u8 (view d s);
  set_law n d : level n d ->
    let d' := blockdev_set_partition_offset p d in
    level n d' /\ here d' /\ (forall s, 0 <= s < psize -> view d' s = view d s);
  read_law n d lba k : level n d -> here d -> 0 <= lba -> (0 < k)%nat -> lba + Z.of_nat k <= psize ->
    rust_journal_read_sectors lba k d = Some (concat (view d <$> seqZ lba (Z.of_nat k)));
  write_law n d lba k bs : level (S n) d -> here d -> 0 <= lba -> (0 < k)%nat -> lba + Z.of_nat k <= psize ->
    length bs = (k * 512)%nat -> Forall is_u8 bs ->
    let '(ok, d') := rust_journal_write_sectors lba k bs d in
    level (S n) d' /\ here d' /\ (forall s, dirty d s -> dirty d' s) /\
    exists j, (j <= k)%nat /\ (ok = false -> (j < k)%nat) /\ (ok = true -> j = k) /\
      (forall s, lba <= s < lba + Z.of_nat j -> dirty d' s) /\
      (forall s, 0 <= s < psize ->
        view d' s = if (lba <=? s) && (s <? lba + Z.of_nat j) then piece bs lba s else view d s);
  write_again n d lba k bs : level (S n) d -> here d -> 0 <= lba -> (0 < k)%nat -> lba + Z.of_nat k <= psize ->
    length bs = (k * 512)%nat -> Forall is_u8 bs ->
    (forall s, lba <= s < lba + Z.of_nat k -> dirty d s) -> (rust_journal_write_sectors lba k bs d).1 = true;
  begin_law n d : level n d -> here d -> (n < 4)%nat ->
    let d' := rust_journal_begin d in
    level (S n) d' /\ here d' /\ (forall s, 0 <= s < psize -> view d' s = view d s);
}.

(** A commit succeeds and writes what was seen. *)
Class Commits (D : Type) `{!Blocks D} {p psize : Z} `{!BlocksLaws D p psize} : Prop :=
  commit_law n d : level (S n) d -> here d ->
    exists d', rust_journal_commit d = (true, d') /\ level n d' /\ here d' /\ (forall s, 0 <= s < psize -> view d' s = view d s).

(** ** Bytes *)

Lemma length_field buf off n : (off + n <= length buf)%nat -> length (field buf off n) = n.
Proof. intros. unfold field. rewrite length_take, length_drop. lia. Qed.

Lemma field_bytes buf off n : Forall is_u8 buf -> Forall is_u8 (field buf off n).
Proof. intros. by apply Forall_take, Forall_drop. Qed.

Lemma length_put_bytes buf off bs : (off + length bs <= length buf)%nat -> length (put_bytes buf off bs) = length buf.
Proof. intros. unfold put_bytes. rewrite !length_app, length_take, length_drop. lia. Qed.

Lemma put_bytes_bytes buf off bs : Forall is_u8 buf -> Forall is_u8 bs -> Forall is_u8 (put_bytes buf off bs).
Proof. intros. unfold put_bytes. rewrite !Forall_app. auto using Forall_take, Forall_drop. Qed.

Lemma field_put_same buf off bs :
  (off + length bs <= length buf)%nat -> field (put_bytes buf off bs) off (length bs) = bs.
Proof.
  intros. unfold field, put_bytes. rewrite drop_app_length' by (rewrite length_take; lia). by rewrite take_app_length.
Qed.

Lemma lookup_put_other buf off bs i :
  (off + length bs <= length buf)%nat -> ~ (off <= i < off + length bs)%nat -> put_bytes buf off bs !! i = buf !! i.
Proof.
  intros Hl Hi. unfold put_bytes. destruct (decide (i < off)%nat).
  - rewrite lookup_app_l by (rewrite length_take; lia). by apply lookup_take_lt.
  - rewrite lookup_app_r by (rewrite length_take; lia). rewrite length_take.
    rewrite lookup_app_r by lia. rewrite lookup_drop. f_equal. lia.
Qed.

Lemma field_ext b1 b2 off n :
  (forall i, (off <= i < off + n)%nat -> b1 !! i = b2 !! i) -> field b1 off n = field b2 off n.
Proof.
  intros H. unfold field. apply list_eq. intros i. destruct (decide (i < n)%nat).
  - rewrite !lookup_take_lt, !lookup_drop by done. apply H. lia.
  - rewrite !lookup_take_ge by lia. done.
Qed.

Lemma field_put_other buf off bs off2 n :
  (off + length bs <= length buf)%nat -> (off2 + n <= off \/ off + length bs <= off2)%nat ->
  field (put_bytes buf off bs) off2 n = field buf off2 n.
Proof. intros Hl H. apply field_ext. intros i Hi. apply lookup_put_other; [done|lia]. Qed.

Lemma of_le_bytes_pos l : Forall is_u8 l -> 0 <= of_le_bytes l.
Proof. induction 1 as [|x l Hx Hl IH]; simpl; [lia|]. unfold is_u8 in Hx. lia. Qed.

Lemma le_bytes_bytes n v : Forall is_u8 (le_bytes n v).
Proof.
  revert v. induction n as [|n IH]; intros v; simpl; constructor; [|done].
  unfold is_u8, wrap8. pose proof (Z.mod_pos_bound v 256). lia.
Qed.

Lemma log2_u32 x : is_u32 x -> Z.log2 x < 32.
Proof.
  unfold is_u32. intros Hx. destruct (Z.eq_dec x 0) as [->|]; [done|].
  apply Z.log2_lt_pow2; [lia|]. change (2 ^ 32) with 4294967296. lia.
Qed.

Lemma u32_log2 x : 0 <= x -> Z.log2 x < 32 -> is_u32 x.
Proof.
  unfold is_u32. intros H0 Hl. destruct (Z.eq_dec x 0) as [->|]; [lia|].
  apply Z.log2_lt_pow2 in Hl; [|lia]. change (2 ^ 32) with 4294967296 in Hl. lia.
Qed.

Lemma lor_u32 a b : is_u32 a -> is_u32 b -> is_u32 (Z.lor a b).
Proof.
  intros Ha Hb. unfold is_u32 in *. apply u32_log2; [apply Z.lor_nonneg; lia|].
  rewrite Z.log2_lor by lia. apply Z.max_lub_lt; by apply log2_u32.
Qed.

Lemma land_u32 a b : is_u32 a -> is_u32 b -> is_u32 (Z.land a b).
Proof.
  intros Ha Hb. unfold is_u32 in *. apply u32_log2; [apply Z.land_nonneg; lia|].
  eapply Z.le_lt_trans; [apply Z.log2_land; lia|]. apply Z.min_lt_iff. left. by apply log2_u32.
Qed.

(** The low 28 bits of a table word, and the word that a new value makes of an old one. *)
Definition low28 (v : Z) : Z := Z.land v 0x0FFFFFFF.
Definition merged (old v : Z) : Z := Z.lor (Z.land old 0xF0000000) (low28 v).

Lemma low28_mod v : low28 v = v mod 268435456.
Proof. unfold low28. change 0x0FFFFFFF with (Z.ones 28). by rewrite Z.land_ones. Qed.

Lemma low28_small v : 0 <= v < 268435456 -> low28 v = v.
Proof. intros. rewrite low28_mod. by apply Z.mod_small. Qed.

Lemma low28_bound v : 0 <= low28 v < 268435456.
Proof. rewrite low28_mod. apply Z.mod_pos_bound. lia. Qed.

Lemma low28_merged old v : low28 (merged old v) = low28 v.
Proof.
  unfold merged, low28. rewrite Z.land_lor_distr_l, <- !Z.land_assoc. change (Z.land 0xF0000000 0x0FFFFFFF) with 0.
  by rewrite Z.land_0_r, Z.land_diag, Z.lor_0_l.
Qed.

Lemma merged_u32 old v : is_u32 old -> is_u32 (merged old v).
Proof.
  intros H. apply lor_u32; [by apply land_u32|]. pose proof (low28_bound v). unfold is_u32. lia.
Qed.

(** ** Geometry *)

(** A mounted file system whose table describes clusters inside the partition only, at
    most as many as its 28-bit numbers can tell apart. *)
Record geo_ok (p psize : Z) (g : fat32_t) : Prop := {
  go_mounted : mounted g = true;
  go_offset : partition_offset g = p;
  go_bps : bytes_per_sector g = 512;
  go_spc : 1 <= sectors_per_cluster g <= 64;
  go_start : 1 <= fat_start_lba g;
  go_fats : 1 <= num_fats g <= 255;
  go_size : 1 <= fat_size_32 g;
  go_data : data_start_lba g = fat_start_lba g + num_fats g * fat_size_32 g;
  go_entries : fat_size_32 g * 128 <= FAT32_END_OF_CHAIN - 1;
  go_end : data_start_lba g + (fat_size_32 g * 128 - 2) * sectors_per_cluster g <= psize;
  go_root : 2 <= root_cluster g < fat_size_32 g * 128;
}.

Definition entries g : Z := fat_size_32 g * 128.
Definition in_table g (c : Z) : Prop := 2 <= c < entries g.
Definition lba_of g (c : Z) : Z := data_start_lba g + (c - 2) * sectors_per_cluster g.
Definition csize g : nat := (spc g * 512)%nat.

Lemma in_piece bs lba s k :
  length bs = (k * 512)%nat -> lba <= s < lba + Z.of_nat k -> length (piece bs lba s) = 512%nat.
Proof. intros Hl Hs. unfold piece. apply length_field. lia. Qed.

Lemma concat_one {A} (f : Z -> list A) x : concat (f <$> seqZ x (Z.of_nat 1)) = f x.
Proof. change (Z.of_nat 1) with 1. rewrite seqZ_cons by lia. change (seqZ _ (Z.pred 1)) with (@nil Z). cbn. apply app_nil_r. Qed.

Lemma concat_sectors (f : Z -> list Z) l :
  (forall s, s ∈ l -> length (f s) = 512%nat /\ Forall is_u8 (f s)) ->
  length (concat (f <$> l)) = (length l * 512)%nat /\ Forall is_u8 (concat (f <$> l)).
Proof.
  induction l as [|s l IH]; intros Hall; [split; [done|constructor]|]. cbn [fmap list_fmap concat length].
  destruct (Hall s) as [H1 H2]; [by left|]. destruct IH as [IH1 IH2]; [intros; apply Hall; by right|].
  rewrite length_app. split; [unfold fmap in *; lia|]. by apply Forall_app.
Qed.

(** The pieces of a write, put together again. *)
Lemma concat_pieces bs lba k :
  length bs = (k * 512)%nat -> concat (piece bs lba <$> seqZ lba (Z.of_nat k)) = bs.
Proof.
  revert bs lba. induction k as [|k IH]; intros bs lba Hl.
  { by destruct bs. }
  rewrite Nat2Z.inj_succ, seqZ_cons by lia. cbn [fmap list_fmap concat]. replace (Z.pred (Z.succ (Z.of_nat k))) with (Z.of_nat k) by lia.
  rewrite <- (take_drop 512 bs) at 3. f_equal.
  - unfold piece, field. by rewrite Z.sub_diag, drop_0.
  - rewrite <- (IH (drop 512 bs) (Z.succ lba)) by (rewrite length_drop; lia). f_equal. apply list_fmap_ext.
    intros i s Hs. apply lookup_seqZ in Hs as [-> Hi]. unfold piece, field. rewrite drop_drop. do 2 f_equal. lia.
Qed.

Section Geometry.
Context {p psize : Z} {g : fat32_t} (Hg : geo_ok p psize g).

Lemma total_entries_ok : total_entries g = entries g.
Proof.
  destruct Hg. unfold total_entries, entries, FAT32_END_OF_CHAIN in *. rewrite go_bps0, wrap32_id by (unfold is_u32; lia).
  rewrite <- (Z.div_mul (fat_size_32 g * 128) 4) by lia. f_equal. lia.
Qed.

Lemma cluster_bytes_ok : cluster_bytes g = Z.of_nat (csize g).
Proof.
  destruct Hg. unfold cluster_bytes, csize, spc. rewrite go_bps0, wrap32_id by (unfold is_u32; lia). lia.
Qed.

Lemma spc_pos : (0 < spc g)%nat.
Proof. destruct Hg. unfold spc. lia. Qed.

Lemma lba_range c : in_table g c -> 0 <= lba_of g c /\ lba_of g c + Z.of_nat (spc g) <= psize.
Proof.
  destruct Hg. unfold in_table, entries, lba_of, spc. intros Hc. rewrite Z2Nat.id by lia.
  assert (0 <= num_fats g * fat_size_32 g) by (apply Z.mul_nonneg_nonneg; lia).
  assert (0 <= (c - 2) * sectors_per_cluster g) by (apply Z.mul_nonneg_nonneg; lia).
  assert ((c - 1) * sectors_per_cluster g <= (fat_size_32 g * 128 - 2) * sectors_per_cluster g)
    by (apply Z.mul_le_mono_nonneg_r; lia). lia.
Qed.

Lemma cluster_to_lba_ok c : psize <= 4294967296 -> in_table g c -> cluster_to_lba g c = lba_of g c.
Proof.
  intros Hp Hc. pose proof (lba_range c Hc) as [H1 H2]. destruct Hg.
  unfold cluster_to_lba, in_table, entries, lba_of, FAT32_END_OF_CHAIN in *. unfold spc in H2.
  rewrite (wrap32_id (c - 2)) by (unfold is_u32; lia).
  assert (0 <= (c - 2) * sectors_per_cluster g) by (apply Z.mul_nonneg_nonneg; lia).
  rewrite wrap32_id, wrap32_id by (try rewrite wrap32_id; unfold is_u32; lia). done.
Qed.

(** Where an entry of the table is. *)
Lemma entry_place c : in_table g c ->
  (c *₃₂ 4) / bytes_per_sector g = c / 128 /\ (c *₃₂ 4) mod bytes_per_sector g = (c mod 128) * 4 /\
  0 <= c / 128 < fat_size_32 g.
Proof.
  destruct Hg. unfold in_table, entries, FAT32_END_OF_CHAIN in *. intros Hc. rewrite go_bps0, wrap32_id by (unfold is_u32; lia).
  pose proof (Z.div_mod c 128 ltac:(lia)). pose proof (Z.mod_pos_bound c 128 ltac:(lia)).
  assert (E : c * 4 = 512 * (c / 128) + (c mod 128) * 4) by lia.
  split; [|split].
  - symmetry. apply (Z.div_unique_pos _ _ _ ((c mod 128) * 4)); lia.
  - symmetry. apply (Z.mod_unique_pos _ _ (c / 128)); lia.
  - split; [apply Z.div_pos; lia|apply Z.div_lt_upper_bound; lia].
Qed.

End Geometry.

(** ** The table and the clusters on a disk *)

Section Disk.
Context {D : Type} `{!Blocks D} {p psize : Z} `{!BlocksLaws D p psize} (g : fat32_t).
Implicit Types (d : D) (c : Z).

(** In [n] transactions, on this partition. *)
Definition running (n : nat) d : Prop := level n d /\ here d.

(** The sector of an entry of the table's copy [k]. *)
Definition entry_sector (k c : Z) : Z := fat_start_lba g + k * fat_size_32 g + c / 128.
Definition entry_offset (c : Z) : nat := Z.to_nat ((c mod 128) * 4).

Definition word d c : Z := of_le_bytes (field (view d (entry_sector 0 c)) (entry_offset c) 4).
Definition fatv d c : Z := low28 (word d c).
Definition cdata d c : list Z := concat (view d <$> seqZ (lba_of g c) (Z.of_nat (spc g))).

(** Nothing but the table entries in [T] and the clusters in [C] is different. *)
Definition frame (T C : Z -> Prop) d d' : Prop :=
  (forall c, in_table g c -> ~ T c -> fatv d' c = fatv d c) /\
  (forall c, in_table g c -> ~ C c -> cdata d' c = cdata d c).

Definition nothing : Z -> Prop := fun _ => False.

Lemma frame_refl T C d : frame T C d d.
Proof. by split. Qed.

Lemma frame_trans T C d1 d2 d3 : frame T C d1 d2 -> frame T C d2 d3 -> frame T C d1 d3.
Proof. intros [H1 H2] [H3 H4]. split; intros c Hc Hn; [by rewrite H3, H1|by rewrite H4, H2]. Qed.

Lemma frame_weaken (T C T' C' : Z -> Prop) d d' :
  frame T C d d' -> (forall c, T c -> T' c) -> (forall c, C c -> C' c) -> frame T' C' d d'.
Proof. intros [H1 H2] HT HC. split; intros c Hc Hn; [apply H1|apply H2]; auto. Qed.

Context (Hg : geo_ok p psize g).

Lemma entry_sector_range k c :
  in_table g c -> 0 <= k < num_fats g -> 0 <= entry_sector k c < data_start_lba g /\ entry_sector k c < psize /\
  (1 <= k -> fat_start_lba g + fat_size_32 g <= entry_sector k c).
Proof.
  intros Hc Hk. pose proof (entry_place Hg c Hc) as (_ & _ & Hq). pose proof (lba_range Hg c Hc) as [H0 H1].
  destruct Hg. unfold entry_sector, lba_of, in_table, entries in *.
  assert (0 <= k * fat_size_32 g) by (apply Z.mul_nonneg_nonneg; lia).
  assert ((k + 1) * fat_size_32 g <= num_fats g * fat_size_32 g) by (apply Z.mul_le_mono_nonneg_r; lia).
  assert (0 <= (c - 2) * sectors_per_cluster g) by (apply Z.mul_nonneg_nonneg; lia).
  assert (1 <= k -> 1 * fat_size_32 g <= k * fat_size_32 g) by (intros; apply Z.mul_le_mono_nonneg_r; lia).
  assert (0 <= (entries g - 2) * sectors_per_cluster g) by (apply Z.mul_nonneg_nonneg; unfold entries; lia).
  unfold entries in *. repeat split; lia.
Qed.

Lemma entry_offset_range c : (entry_offset c + 4 <= 512)%nat.
Proof. unfold entry_offset. pose proof (Z.mod_pos_bound c 128 ltac:(lia)). lia. Qed.

(** Disks that read the same. *)
Lemma frame_view d d' : (forall s, 0 <= s < psize -> view d' s = view d s) -> frame nothing nothing d d'.
Proof.
  intros H. split; intros c Hc _.
  - unfold fatv, word. destruct (entry_sector_range 0 c Hc) as (? & ? & _); [destruct Hg; lia|]. by rewrite H by lia.
  - unfold cdata. f_equal. apply list_fmap_ext. intros i s Hs. apply lookup_seqZ in Hs as [-> Hi].
    pose proof (lba_range Hg c Hc). apply H. lia.
Qed.

Lemma next_ok n d c : running n d -> in_table g c -> fat_next_cluster g c d = fatv d c.
Proof.
  intros [Hl Hh] Hc. destruct (entry_place Hg c Hc) as (E1 & E2 & _). pose proof psize_u32.
  destruct (entry_sector_range 0 c Hc) as (Hr1 & Hr2 & _); [destruct Hg; lia|].
  unfold fat_next_cluster. cbn zeta. rewrite E1, E2. unfold entry_sector in Hr1, Hr2. rewrite Z.mul_0_l, Z.add_0_r in Hr1, Hr2.
  rewrite wrap32_id by (unfold is_u32; lia). rewrite (read_law n) by (done || lia).
  rewrite concat_one. unfold fatv, word, entry_sector. by rewrite Z.mul_0_l, !Z.add_0_r.
Qed.

Lemma cdata_length n d c : level n d -> in_table g c -> length (cdata d c) = csize g /\ Forall is_u8 (cdata d c).
Proof.
  intros Hl Hc. pose proof (lba_range Hg c Hc) as Hr. unfold cdata, csize.
  replace (spc g * 512)%nat with (length (seqZ (lba_of g c) (Z.of_nat (spc g))) * 512)%nat by (rewrite length_seqZ; lia).
  apply concat_sectors. intros s Hs%elem_of_seqZ. apply (view_bytes n); [done|lia].
Qed.

Lemma read_cluster_ok n d c :
  running n d -> in_table g c -> rust_journal_read_sectors (cluster_to_lba g c) (spc g) d = Some (cdata d c).
Proof.
  intros [Hl Hh] Hc. pose proof (lba_range Hg c Hc). rewrite (cluster_to_lba_ok Hg) by (done || apply psize_u32).
  apply (read_law n); [done|done|lia|apply (spc_pos Hg)|lia].
Qed.

End Disk.
