(* ===== verification/FatChain.v ===== *)
(** * FAT32: writing clusters and table entries

    One cluster write and one entry update, with what they leave alone; finding a free
    cluster, building a chain and freeing one. *)

From S2P Require Import Prelude Bytes Fat FatSpec.
Local Open Scope Z_scope.
Local Open Scope machine_scope.

Section Writes.
Context {D : Type} `{!Blocks D} {p psize : Z} `{!BlocksLaws D p psize} (g : fat32_t) (Hg : geo_ok p psize g).
Implicit Types (d : D) (c : Z) (n : nat).

Local Notation fatv := (fatv g).
Local Notation cdata := (cdata g).
Local Notation frame := (frame g).

(** What stays dirty. *)
Definition still_dirty d d' : Prop := forall s, dirty d s -> dirty d' s.

Lemma still_dirty_trans d1 d2 d3 : still_dirty d1 d2 -> still_dirty d2 d3 -> still_dirty d1 d3.
Proof. unfold still_dirty. auto. Qed.

Lemma lba_apart c c' s : in_table g c -> in_table g c' -> c <> c' ->
  lba_of g c <= s < lba_of g c + Z.of_nat (spc g) -> ~ (lba_of g c' <= s < lba_of g c' + Z.of_nat (spc g)).
Proof.
  destruct Hg. unfold in_table, lba_of, spc. intros Hc Hc' Hne. rewrite Z2Nat.id by lia. intros Hs Hs'.
  assert (c < c' \/ c' < c) as [H|H] by lia.
  - assert ((c - 1) * sectors_per_cluster g <= (c' - 2) * sectors_per_cluster g) by (apply Z.mul_le_mono_nonneg_r; lia). lia.
  - assert ((c' - 1) * sectors_per_cluster g <= (c - 2) * sectors_per_cluster g) by (apply Z.mul_le_mono_nonneg_r; lia). lia.
Qed.

Lemma lba_after_table c : in_table g c -> data_start_lba g <= lba_of g c.
Proof.
  destruct Hg. unfold in_table, lba_of. intros Hc.
  assert (0 <= (c - 2) * sectors_per_cluster g) by (apply Z.mul_nonneg_nonneg; lia). lia.
Qed.

(** One cluster is written, whole or in part. *)
Lemma write_cluster_spec n d c bs ok d' :
  running (S n) d -> in_table g c -> length bs = csize g -> Forall is_u8 bs ->
  rust_journal_write_sectors (cluster_to_lba g c) (spc g) bs d = (ok, d') ->
  running (S n) d' /\ still_dirty d d' /\ frame nothing (eq c) d d' /\ (ok = true -> cdata d' c = bs) /\
  (ok = false -> spc g = 1%nat -> frame nothing nothing d d').
Proof.
  intros [Hl Hh] Hc Hlen Hb E. pose proof (lba_range Hg c Hc) as [Hr1 Hr2]. pose proof (spc_pos Hg).
  rewrite (cluster_to_lba_ok Hg) in E by (done || apply psize_u32).
  pose proof (write_law n d (lba_of g c) (spc g) bs Hl Hh Hr1 ltac:(done) Hr2 Hlen Hb) as Hw. rewrite E in Hw.
  destruct Hw as (Hl' & Hh' & Hd & j & Hj & Hf & Ht & _ & Hv). split; [done|]. split; [done|].
  assert (Hold : forall s, 0 <= s < psize -> ~ (lba_of g c <= s < lba_of g c + Z.of_nat (spc g)) -> view d' s = view d s).
  { intros s Hs Hn. rewrite Hv by done. by replace ((_ <=? s) && _) with false by lia. }
  split; [split|split].
  - intros x Hx _. unfold FatSpec.fatv, word. pose proof (lba_after_table c Hc).
    destruct (entry_sector_range g Hg 0 x Hx) as (? & ? & _); [destruct Hg; lia|]. rewrite Hold; [done|lia|lia].
  - intros x Hx Hne. unfold FatSpec.cdata. f_equal. apply list_fmap_ext. intros i s Hs%list_elem_of_lookup_2%elem_of_seqZ.
    pose proof (lba_range Hg x Hx). apply Hold; [lia|]. apply (lba_apart x c); [done|done|done|lia].
  - intros ->. specialize (Ht eq_refl). subst j. unfold FatSpec.cdata. rewrite <- (concat_pieces bs (lba_of g c) (spc g)) by done.
    f_equal. apply list_fmap_ext. intros i s Hs%list_elem_of_lookup_2%elem_of_seqZ. rewrite Hv by lia.
    by replace ((_ <=? s) && _) with true by lia.
  - intros -> Hs1. specialize (Hf eq_refl). apply (frame_view g Hg). intros s Hs. rewrite Hv by done.
    by replace ((_ <=? s) && _) with false by lia.
Qed.

(** ** One entry of the table *)

(** Every copy of the entry has been written before. *)
Definition table_dirty d c : Prop := forall k, 0 <= k < num_fats g -> dirty d (entry_sector g k c).

Definition new_sector d k c (v : Z) : list Z :=
  let buf := view d (entry_sector g k c) in
  put_bytes buf (entry_offset c) (le_bytes 4 (merged (of_le_bytes (field buf (entry_offset c) 4)) v)).

Lemma new_sector_ok n d k c v :
  level n d -> in_table g c -> 0 <= k < num_fats g -> length (new_sector d k c v) = 512%nat /\ Forall is_u8 (new_sector d k c v).
Proof.
  intros Hl Hc Hk. destruct (entry_sector_range g Hg k c Hc Hk) as (H1 & H2 & _).
  destruct (view_bytes n d (entry_sector g k c) Hl ltac:(lia)) as [Hlen Hb]. pose proof (entry_offset_range c).
  unfold new_sector. cbn zeta. rewrite length_put_bytes by (rewrite le_bytes_length; lia).
  split; [done|]. apply put_bytes_bytes; [done|apply le_bytes_bytes].
Qed.

(** The copies from [k] on: only their own sectors change. *)
Lemma set_copies_spec n m k c v d ok d' :
  running (S n) d -> in_table g c -> 0 <= k -> k + Z.of_nat m = num_fats g ->
  set_copies m k g (c / 128) (entry_offset c) v d = (ok, d') ->
  running (S n) d' /\ still_dirty d d' /\
  (forall s, 0 <= s < psize -> (forall i, k <= i < num_fats g -> s <> entry_sector g i c) -> view d' s = view d s) /\
  (ok = true -> forall i, k <= i < num_fats g -> dirty d' (entry_sector g i c)) /\
  ((forall i, k <= i < num_fats g -> dirty d (entry_sector g i c)) -> ok = true) /\
  (k < num_fats g -> view d' (entry_sector g k c) = new_sector d k c v \/
    ok = false /\ view d' (entry_sector g k c) = view d (entry_sector g k c)).
Proof.
  revert k d. induction m as [|m IH]; intros k d [Hl Hh] Hc Hk Hm E; cbn [set_copies] in E.
  { simplify_eq. split; [by split|]. split; [by intros ?|]. split; [done|]. split; [intros; lia|]. split; [done|lia]. }
  destruct (entry_sector_range g Hg k c Hc ltac:(lia)) as (H1 & H2 & _). pose proof (entry_place Hg c Hc) as (_ & _ & Hq).
  replace (fat_start_lba g +₃₂ k *₃₂ fat_size_32 g +₃₂ c / 128) with (entry_sector g k c) in E.
  2:{ pose proof psize_u32. destruct Hg. assert (0 <= k * fat_size_32 g) by (apply Z.mul_nonneg_nonneg; lia). unfold entry_sector in *.
      rewrite (wrap32_id (k * fat_size_32 g)) by (unfold is_u32; lia).
      rewrite (wrap32_id (fat_start_lba g + k * fat_size_32 g)) by (unfold is_u32; lia).
      by rewrite wrap32_id by (unfold is_u32; lia). }
  rewrite (read_law (S n)), concat_one in E by (done || lia).
  destruct (new_sector_ok (S n) d k c v Hl Hc ltac:(lia)) as [Hlen Hb].
  fold (new_sector d k c v) in E. unfold merged, low28 in E.
  change (put_bytes _ _ _) with (new_sector d k c v) in E.
  pose proof (write_law n d (entry_sector g k c) 1 _ Hl Hh ltac:(lia) ltac:(lia) ltac:(lia) Hlen Hb) as Hw.
  pose proof (write_again n d (entry_sector g k c) 1 _ Hl Hh ltac:(lia) ltac:(lia) ltac:(lia) Hlen Hb) as Hag.
  destruct (rust_journal_write_sectors _ _ _ d) as [ok1 d1]. destruct Hw as (Hl1 & Hh1 & Hd1 & j & Hj & Hf & Ht & Hdj & Hv).
  assert (Hv1 : forall s, 0 <= s < psize -> s <> entry_sector g k c -> view d1 s = view d s).
  { intros s Hs Hne. rewrite Hv by done. by replace ((_ <=? s) && _) with false by lia. }
  destruct ok1; cbn [negb] in E.
  - specialize (Ht eq_refl). subst j.
    assert (Hk1 : view d1 (entry_sector g k c) = new_sector d k c v).
    { rewrite Hv by lia. replace ((_ <=? _) && _) with true by lia. unfold piece, field.
      rewrite Z.sub_diag, drop_0, take_ge by (rewrite Hlen; lia). done. }
    assert (Hdirty : dirty d1 (entry_sector g k c)) by (apply Hdj; lia).
    destruct (IH (k + 1) d1) as (Hr & Hd & Hview & Hall & Hag' & _); [by split|done|lia|lia|done|].
    split; [done|]. split; [by apply (still_dirty_trans _ d1)|]. split; [|split; [|split]].
    + intros s Hs Hne. rewrite Hview by (auto with lia). apply Hv1; [done|]. apply Hne. lia.
    + intros Hok i Hi. destruct (decide (i = k)) as [->|]; [by apply Hd|apply Hall; [done|lia]].
    + intros Hdd. apply Hag'. intros i Hi. apply Hd1, Hdd. lia.
    + intros _. left. rewrite Hview; [done|lia|]. intros i Hi Heq. destruct Hg. unfold entry_sector in Heq.
      assert ((k + 1) * fat_size_32 g <= i * fat_size_32 g) by (apply Z.mul_le_mono_nonneg_r; lia). lia.
  - simplify_eq. specialize (Hf eq_refl). assert (j = 0%nat) as -> by lia.
    split; [by split|]. split; [done|]. split; [|split; [done|split]].
    + intros s Hs Hne. apply Hv1; [done|]. apply Hne. lia.
    + intros Hdd. rewrite <- Hag; [done|]. intros s Hs. replace s with (entry_sector g k c) by lia. apply Hdd. lia.
    + intros _. right. split; [done|]. rewrite Hv by lia. by replace ((_ <=? _) && _) with false by lia.
Qed.

Lemma set_next_spec n d c v ok d' :
  running (S n) d -> in_table g c -> fat_set_next_cluster g c v d = (ok, d') ->
  running (S n) d' /\ still_dirty d d' /\ frame (eq c) nothing d d' /\
  (fatv d' c = low28 v \/ ok = false /\ fatv d' c = fatv d c) /\
  (ok = true -> table_dirty d' c) /\ (table_dirty d c -> ok = true).
Proof.
  intros Hr Hc E. destruct (entry_place Hg c Hc) as (E1 & E2 & Hq). unfold fat_set_next_cluster in E. rewrite E1, E2 in E.
  fold (entry_offset c) in E. pose proof (go_fats _ _ _ Hg) as Hn.
  destruct (set_copies_spec n (Z.to_nat (num_fats g)) 0 c v d ok d' Hr Hc ltac:(lia) ltac:(lia) E) as (Hr' & Hd & Hv & Hall & Hag & H0).
  split; [done|]. split; [done|]. specialize (H0 ltac:(lia)).
  assert (Hother : forall x, in_table g x -> entry_sector g 0 x <> entry_sector g 0 c -> fatv d' x = fatv d x).
  { intros x Hx Hne. unfold FatSpec.fatv, word. destruct (entry_sector_range g Hg 0 x Hx) as (H1 & H2 & _); [lia|].
    rewrite Hv; [done|lia|]. intros i Hi Heq. destruct (decide (i = 0)) as [->|]; [done|].
    destruct (entry_sector_range g Hg i c Hc Hi) as (_ & _ & H3). pose proof (entry_place Hg x Hx) as (_ & _ & Hqx).
    specialize (H3 ltac:(lia)). unfold entry_sector in *. lia. }
  destruct (entry_sector_range g Hg 0 c Hc) as (Hs1 & Hs2 & _); [lia|].
  destruct (view_bytes (S n) d (entry_sector g 0 c)) as [Hlen Hbytes]; [apply Hr|lia|]. pose proof (entry_offset_range c) as Hoff.
  set (nv := merged (of_le_bytes (field (view d (entry_sector g 0 c)) (entry_offset c) 4)) v) in *.
  assert (Hnv : is_u32 nv).
  { apply merged_u32, of_le_bytes_u32; [by apply field_bytes|]. rewrite length_field; lia. }
  split; [split|split; [|split; [done|]]].
  - intros x Hx Hne. destruct (decide (entry_sector g 0 x = entry_sector g 0 c)) as [Heq|]; [|by apply Hother].
    unfold FatSpec.fatv, word. rewrite Heq. destruct H0 as [->|[_ ->]]; [|done]. unfold new_sector. cbn zeta.
    rewrite field_put_other; [done|rewrite le_bytes_length; lia|]. rewrite le_bytes_length.
    unfold entry_sector in Heq. unfold entry_offset. pose proof (Z.div_mod x 128). pose proof (Z.div_mod c 128).
    pose proof (Z.mod_pos_bound x 128). pose proof (Z.mod_pos_bound c 128). lia.
  - intros x Hx _. unfold FatSpec.cdata. f_equal. apply list_fmap_ext. intros i s Hs%list_elem_of_lookup_2%elem_of_seqZ.
    pose proof (lba_range Hg x Hx). pose proof (lba_after_table x Hx). apply Hv; [lia|].
    intros k Hk. destruct (entry_sector_range g Hg k c Hc Hk) as (? & ? & _). lia.
  - destruct H0 as [H0|[-> H0]]; [left|right; split; [done|]]; unfold FatSpec.fatv, word; rewrite H0; [|done].
    unfold new_sector. cbn zeta. fold nv. change 4%nat with (length (le_bytes 4 nv)) at 2.
    rewrite field_put_same by (rewrite le_bytes_length; lia).
    rewrite of_le_bytes_le_bytes by (unfold is_u32 in Hnv; simpl; lia). apply low28_merged.
  - intros Ht. apply Hag. intros i Hi. by apply Ht.
Qed.

End Writes.

(** * FAT32: chains

    Paths through the table; finding a free cluster, building a chain of them and freeing
    one. *)

(** ** Paths *)

(** Following [f] from [c] goes through [l] and ends at [e]; [P] holds of the clusters on
    the way. *)
Fixpoint path (P : Z -> Prop) (f : Z -> Z) (c : Z) (l : list Z) (e : Z) : Prop :=
  match l with
  | [] => c = e
  | x :: l' => c = x /\ P x /\ path P f (f x) l' e
  end.

Lemma path_app P f c l1 l2 e : path P f c (l1 ++ l2) e <-> exists m, path P f c l1 m /\ path P f m l2 e.
Proof.
  revert c. induction l1 as [|x l1 IH]; intros c; simpl; [naive_solver|]. rewrite IH. naive_solver.
Qed.

Lemma path_ext P f f' c l e : (forall x, x ∈ l -> f' x = f x) -> path P f c l e -> path P f' c l e.
Proof.
  revert c. induction l as [|x l IH]; intros c H; simpl; [done|]. intros (-> & HP & Hp).
  split; [done|]. split; [done|]. rewrite H by set_solver. apply IH; [set_solver|done].
Qed.

Lemma path_Forall P f c l e : path P f c l e -> Forall P l.
Proof. revert c. induction l as [|x l IH]; intros c; simpl; [done|]. intros (-> & HP & Hp). eauto. Qed.

(** Two paths from one place to ends beyond the table go the same way. *)
Lemma path_det P f c l1 e1 l2 e2 :
  ~ P e1 -> ~ P e2 -> path P f c l1 e1 -> path P f c l2 e2 -> l1 = l2 /\ e1 = e2.
Proof.
  intros H1 H2. revert c l2. induction l1 as [|x l1 IH]; intros c [|y l2]; simpl.
  - naive_solver.
  - intros -> (-> & HP & _). done.
  - intros (-> & HP & _) ->. done.
  - intros (-> & HP1 & Hp1) (-> & HP2 & Hp2). destruct (IH _ _ Hp1 Hp2). naive_solver.
Qed.

Lemma path_NoDup P f c l e : ~ P e -> path P f c l e -> NoDup l.
Proof.
  intros He. revert c. induction l as [|x l IH]; intros c; simpl; [constructor|]. intros (-> & HP & Hp).
  constructor; [|by eapply IH]. intros Hin. apply list_elem_of_split in Hin as (l1 & l2 & ->).
  pose proof Hp as Hp'. apply path_app in Hp as (m & _ & (-> & _ & Hp2)).
  destruct (path_det P f (f x) _ _ _ _ He He Hp' Hp2) as [Heq _].
  apply (f_equal length) in Heq. rewrite length_app in Heq. simpl in Heq. lia.
Qed.

(** ** Chains of a disk *)

Definition is_end (e : Z) : Prop := FAT32_END_OF_CHAIN <= e.

Section Chains.
Context {D : Type} `{!Blocks D} {p psize : Z} `{!BlocksLaws D p psize}.
Implicit Types (g : fat32_t) (d : D) (c : Z) (n : nat).

(** [l] is the chain of the cluster [c]. *)
Definition chain g d c (l : list Z) : Prop := exists e, is_end e /\ path (in_table g) (fatv g d) c l e.

Lemma end_out g e : geo_ok p psize g -> is_end e -> ~ in_table g e.
Proof. intros [] He. unfold is_end, in_table, entries in *. lia. Qed.

Lemma chain_NoDup g d c l : geo_ok p psize g -> chain g d c l -> NoDup l.
Proof. intros Hg (e & He & Hp). eapply path_NoDup; [by eapply end_out|done]. Qed.

Lemma chain_Forall g d c l : chain g d c l -> Forall (in_table g) l.
Proof. intros (e & _ & Hp). by eapply path_Forall. Qed.

Lemma chain_ext g d d' c l : (forall x, x ∈ l -> fatv g d' x = fatv g d x) -> chain g d c l -> chain g d' c l.
Proof. intros H (e & He & Hp). exists e. split; [done|]. by eapply path_ext. Qed.

Lemma chain_frame g T C d d' c l : frame g T C d d' -> (forall x, x ∈ l -> ~ T x) -> chain g d c l -> chain g d' c l.
Proof.
  intros [Hf _] Hn Hc. pose proof (chain_Forall _ _ _ _ Hc) as Hall. rewrite Forall_forall in Hall.
  apply (chain_ext g d); [|done]. intros x Hx. apply Hf; auto.
Qed.

Lemma chain_used g d c l x : geo_ok p psize g -> chain g d c l -> x ∈ l -> fatv g d x <> 0.
Proof.
  intros Hg (e & He & Hp) Hin. apply list_elem_of_split in Hin as (l1 & l2 & ->).
  apply path_app in Hp as (m & _ & (-> & _ & Hp)). destruct l2 as [|y l2]; simpl in Hp.
  - unfold is_end, FAT32_END_OF_CHAIN in He. lia.
  - destruct Hp as (Hy & Hin & _). unfold in_table in Hin. lia.
Qed.

Lemma chain_length g l : geo_ok p psize g -> NoDup l -> Forall (in_table g) l -> (length l < fuel g)%nat.
Proof.
  intros Hg Hn Hall. rewrite Forall_forall in Hall.
  assert (Hsub : l ⊆+ seqZ 2 (entries g - 2)).
  { apply NoDup_submseteq; [done|]. intros x Hx%Hall. apply elem_of_seqZ. unfold in_table in Hx. lia. }
  apply submseteq_length in Hsub. rewrite length_seqZ in Hsub. unfold fuel. rewrite (total_entries_ok Hg).
  destruct Hg. unfold entries in *. lia.
Qed.

Lemma chain_fuel g d c l : geo_ok p psize g -> chain g d c l -> (length l < fuel g)%nat.
Proof. intros Hg Hc. eapply chain_length; [done|by eapply chain_NoDup|by eapply chain_Forall]. Qed.

Lemma geo_hint g h : geo_ok p psize g -> geo_ok p psize (set_hint h g).
Proof. by intros []. Qed.

(** ** Free clusters *)

Lemma scan_spec g n m c cur buf d :
  geo_ok p psize g -> running n d -> 2 <= c -> c + Z.of_nat m <= entries g -> cur = 0xFFFFFFFF \/ buf = view d cur ->
  exists r, scan m g c cur buf d = inr r /\
    match r with
    | Some x => c <= x < c + Z.of_nat m /\ fatv g d x = 0
    | None => forall x, c <= x < c + Z.of_nat m -> fatv g d x <> 0
    end.
Proof.
  intros Hg [Hl Hh]. revert c cur buf. induction m as [|m IH]; intros c cur buf Hc Hm Hbuf; cbn [scan].
  { exists None. split; [done|]. intros; lia. }
  assert (Hin : in_table g c) by (unfold in_table; lia). destruct (entry_place Hg c Hin) as (E1 & E2 & _).
  destruct (entry_sector_range g Hg 0 c Hin) as (H1 & H2 & _); [destruct Hg; lia|]. pose proof psize_u32.
  cbn zeta. rewrite E1, E2.
  replace (fat_start_lba g +₃₂ c / 128) with (entry_sector g 0 c)
    by (unfold entry_sector in *; rewrite wrap32_id; [lia|unfold is_u32; lia]).
  replace (if entry_sector g 0 c =? cur then Some buf else _) with (Some (view d (entry_sector g 0 c))).
  2:{ destruct (Z.eqb_spec (entry_sector g 0 c) cur) as [<-|_].
      - destruct Hbuf as [Hbad| ->]; [|done]. exfalso. destruct Hg. unfold entries, in_table in *.
        assert (126 * 1 <= (fat_size_32 g * 128 - 2) * sectors_per_cluster g) by (apply Z.mul_le_mono_nonneg; lia). lia.
      - by rewrite (read_law n), concat_one by (done || lia). }
  change (Z.land (of_le_bytes _) 0x0FFFFFFF) with (fatv g d c).
  destruct (Z.eqb_spec (fatv g d c) 0) as [H0|H0].
  { exists (Some c). split; [done|]. split; [lia|done]. }
  destruct (IH (c + 1) (entry_sector g 0 c) (view d (entry_sector g 0 c))) as (r & -> & Hr); [lia|lia|by right|].
  exists r. split; [done|]. destruct r as [x|]; [destruct Hr; split; [lia|done]|].
  intros x Hx. destruct (decide (x = c)) as [->|]; [done|]. apply Hr. lia.
Qed.

Lemma find_free_spec g n d c g' :
  geo_ok p psize g -> running n d -> find_free_cluster g d = (c, g') ->
  (exists h, g' = set_hint h g) /\
  (c = 0 /\ (forall x, in_table g x -> fatv g d x <> 0) \/ in_table g c /\ fatv g d c = 0).
Proof.
  intros Hg Hr E. unfold find_free_cluster in E. rewrite (total_entries_ok Hg) in E. cbn zeta in E.
  set (h := next_free_cluster_hint g) in *. set (start := if (h <? 2) || (entries g <=? h) then 2 else h) in *.
  assert (Hst : 2 <= start < entries g).
  { unfold start. pose proof (go_root _ _ _ Hg). unfold entries in *. destruct ((h <? 2) || _) eqn:?; lia. }
  assert (Hsame : exists h, g = set_hint h g) by (exists h; by destruct g).
  destruct (scan_spec g n (Z.to_nat (entries g - start)) start 0xFFFFFFFF [] d Hg Hr) as (r1 & E1 & H1); [lia|lia|by left|].
  destruct (scan_spec g n (Z.to_nat (start - 2)) 2 0xFFFFFFFF [] d Hg Hr) as (r2 & E2 & H2); [lia|lia|by left|].
  rewrite E1, E2 in E.
  destruct r1 as [x|]; [simplify_eq; split; [by eexists|]; right; unfold in_table; split; [lia|naive_solver]|].
  destruct r2 as [x|]; [simplify_eq; split; [by eexists|]; right; unfold in_table; split; [lia|naive_solver]|].
  simplify_eq. split; [done|]. left. split; [done|]. intros x Hx. unfold in_table in Hx.
  destruct (Z.lt_ge_cases x start); [apply H2|apply H1]; lia.
Qed.

(** ** Building a chain *)

Definition free_in g d c : Prop := fatv g d c = 0.

(** A chain grows by a cluster at its end. *)
Lemma chain_snoc g d d' first l prev c :
  geo_ok p psize g -> chain g d first (l ++ [prev]) -> in_table g c -> is_end (fatv g d' c) -> fatv g d' prev = c ->
  (forall x, x ∈ l -> x <> prev -> fatv g d' x = fatv g d x) -> chain g d' first (l ++ [prev] ++ [c]).
Proof.
  intros Hg Hch Hc Hend Hp Hl. pose proof (chain_NoDup _ _ _ _ Hg Hch) as Hnd.
  destruct Hch as (e & He & Hpath). apply path_app in Hpath as (m & Hm & (-> & Hin & _)).
  apply NoDup_app in Hnd as (_ & Hdis & _). exists (fatv g d' c). split; [done|]. apply path_app. exists prev. split.
  - eapply path_ext; [|done]. intros x Hx. apply Hl; [done|]. intros ->. by apply (Hdis prev Hx); left.
  - simpl. by rewrite Hp.
Qed.

(** A free cluster is on no chain. *)
Lemma chain_not_free g d c l x y : geo_ok p psize g -> chain g d c l -> fatv g d y = 0 -> x ∈ l -> x <> y.
Proof. intros Hg Hch H0 Hx ->. by apply (chain_used g d c l y). Qed.

Lemma fat_alloc_loop_spec n d0 m first prev g d l first' g' d' :
  geo_ok p psize g -> running (S n) d -> frame g (free_in g d0) nothing d0 d ->
  l = [] /\ first = 0 \/ (exists l0, l = l0 ++ [prev]) /\ first <> 0 /\ chain g d first l /\ table_dirty g d prev ->
  (forall x, x ∈ l -> free_in g d0 x) ->
  alloc_loop m first prev g d = (first', g', d') ->
  (exists h, g' = set_hint h g) /\ running (S n) d' /\ frame g (free_in g d0) nothing d0 d' /\
  (first' = 0 \/ exists l', length l' = (length l + m)%nat /\ chain g d' first' l' /\ forall x, x ∈ l' -> free_in g d0 x).
Proof.
  revert first prev g d l. induction m as [|m IH]; intros first prev g d l Hg Hr Hfr Hl Hfree E; cbn [alloc_loop] in E.
  { simplify_eq. split; [exists (next_free_cluster_hint g'); by destruct g'|]. split; [done|]. split; [done|].
    destruct Hl as [[_ ->]|(_ & _ & Hch & _)]; [by left|]. right. exists l. rewrite Nat.add_0_r. done. }
  destruct (find_free_cluster g d) as [c g1] eqn:Ef. destruct (find_free_spec g (S n) d c g1 Hg Hr Ef) as [[h ->] Hc].
  destruct (Z.eqb_spec c 0) as [->|Hne]; [simplify_eq; split; [by eexists|]; by auto|].
  destruct Hc as [[-> _]|[Hin H0]]; [done|].
  assert (Hc0 : free_in g d0 c).
  { destruct (decide (fatv g d0 c = 0)) as [|Hn]; [done|]. unfold free_in. by rewrite <- (proj1 Hfr). }
  destruct (fat_set_next_cluster (set_hint h g) c FAT32_END_OF_CHAIN d) as [ok d1] eqn:Es.
  destruct (set_next_spec (set_hint h g) (geo_hint g h Hg) n d c _ ok d1 Hr Hin Es) as (Hr1 & Hd1 & Hf1 & Hv1 & Ht1 & _).
  change (frame g (eq c) nothing d d1) in Hf1. assert (Hfr1 : frame g (free_in g d0) nothing d0 d1).
  { eapply frame_trans; [done|]. eapply frame_weaken; [exact Hf1| |done]. by intros ? <-. }
  destruct ok; cbn [negb] in E; [|simplify_eq; split; [by eexists|]; by auto].
  destruct Hv1 as [Hv1|[? _]]; [|done]. change (fatv g d1 c = FAT32_END_OF_CHAIN) in Hv1.
  assert (Hgo : forall first prev d l, running (S n) d -> frame g (free_in g d0) nothing d0 d ->
    (exists l0, l = l0 ++ [prev]) /\ first <> 0 /\ chain g d first l /\ table_dirty g d prev -> (forall x, x ∈ l -> free_in g d0 x) ->
    alloc_loop m first prev (set_hint h g) d = (first', g', d') ->
    (exists h, g' = set_hint h g) /\ running (S n) d' /\ frame g (free_in g d0) nothing d0 d' /\
    (first' = 0 \/ exists l', length l' = (length l + m)%nat /\ chain g d' first' l' /\ forall x, x ∈ l' -> free_in g d0 x)).
  { intros f1 p1 d3 l1 Hr3 Hfr3 Hl3 Hfree3 E3.
    destruct (IH f1 p1 (set_hint h g) d3 l1 (geo_hint g h Hg) Hr3 Hfr3 (or_intror Hl3) Hfree3 E3) as ([h' ->] & ? & ? & ?).
    split; [by exists h'|]. auto. }
  destruct (Z.eqb_spec first 0) as [->|Hf0].
  - destruct Hl as [[-> _]|(_ & ? & _)]; [|done]. replace (length [] + S m)%nat with (length [c] + m)%nat by (simpl; lia).
    apply (Hgo c c d1 [c]); [done|done| |set_solver|done]. split; [by exists []|]. split; [done|]. split; [|by apply Ht1].
    exists (fatv g d1 c). split; [by rewrite Hv1|]. simpl. done.
  - destruct Hl as [[_ ?]|([l0 ->] & _ & Hch & Htd)]; [done|].
    destruct (fat_set_next_cluster (set_hint h g) prev c d1) as [ok2 d2] eqn:E2.
    assert (Hprev : in_table g prev) by (apply chain_Forall in Hch; rewrite Forall_forall in Hch; apply Hch; set_solver).
    destruct (set_next_spec (set_hint h g) (geo_hint g h Hg) n d1 prev _ ok2 d2 Hr1 Hprev E2) as (Hr2 & Hd2 & Hf2 & Hv2 & _ & Hag).
    change (frame g (eq prev) nothing d1 d2) in Hf2. assert (ok2 = true) as -> by (apply Hag; intros k Hk; by apply Hd1, Htd). destruct Hv2 as [Hv2|[? _]]; [|done].
    change (fatv g d2 prev = low28 c) in Hv2. rewrite low28_small in Hv2 by (destruct Hg; unfold in_table, entries, FAT32_END_OF_CHAIN in *; lia).
    replace (length (l0 ++ [prev]) + S m)%nat with (length (l0 ++ [prev] ++ [c]) + m)%nat by (rewrite !length_app; simpl; lia).
    apply (Hgo first c d2 (l0 ++ [prev] ++ [c])); [done| | |set_solver|done].
    + eapply frame_trans; [done|]. eapply frame_weaken; [exact Hf2| |done]. intros ? <-. apply Hfree. set_solver.
    + split; [exists (l0 ++ [prev]); by rewrite <- app_assoc|]. split; [done|]. split; [|intros k Hk; by apply Hd2, Ht1].
      assert (Hcp : c <> prev) by (apply not_eq_sym, (chain_not_free g d first (l0 ++ [prev])); [done|done|done|set_solver]).
      pose proof (chain_Forall _ _ _ _ Hch) as Hall. rewrite Forall_forall in Hall.
      apply (chain_snoc g d); [done|done|done| |done|].
      * rewrite (proj1 Hf2 c Hin) by (by intros <-). by rewrite Hv1.
      * intros x Hx Hxp. rewrite (proj1 Hf2 x), (proj1 Hf1 x); [done|apply Hall; set_solver| |apply Hall; set_solver|by intros <-].
        apply not_eq_sym, (chain_not_free g d first (l0 ++ [prev])); [done|done|done|set_solver].
Qed.

Lemma alloc_spec n count g d first g' d' :
  geo_ok p psize g -> running (S n) d -> alloc_cluster_chain count g d = (first, g', d') ->
  (exists h, g' = set_hint h g) /\ running (S n) d' /\ frame g (free_in g d) nothing d d' /\
  (first = 0 \/ exists l, length l = Z.to_nat count /\ chain g d' first l /\ forall x, x ∈ l -> free_in g d x).
Proof.
  intros Hg Hr E. unfold alloc_cluster_chain in E. destruct (Z.eqb_spec count 0) as [->|Hc].
  { simplify_eq. split; [exists (next_free_cluster_hint g'); by destruct g'|]. split; [done|]. split; [apply frame_refl|by left]. }
  apply (fat_alloc_loop_spec n d _ 0 0 g d [] _ _ _ Hg Hr (frame_refl _ _ _ _) (or_introl (conj eq_refl eq_refl))) in E;
    [done|set_solver].
Qed.

(** ** Freeing a chain *)

Lemma fat_free_loop_spec n m g d c l e :
  geo_ok p psize g -> running (S n) d -> is_end e -> path (in_table g) (fatv g d) c l e -> (length l <= m)%nat ->
  exists d', free_loop m g c d = Some d' /\ running (S n) d' /\ frame g (fun x => x ∈ l) nothing d d'.
Proof.
  intros Hg. revert d c l. induction m as [|m IH]; intros d c l Hr He Hp Hm.
  - destruct l; [|simpl in Hm; lia]. simpl in Hp. subst c. unfold is_end in He. exists d. cbn [free_loop].
    replace ((2 <=? e) && (e <? FAT32_END_OF_CHAIN)) with false by lia. split; [done|]. split; [done|apply frame_refl].
  - destruct l as [|x l]; cbn [free_loop].
    + simpl in Hp. subst c. unfold is_end in He. exists d.
      replace ((2 <=? e) && (e <? FAT32_END_OF_CHAIN)) with false by lia. split; [done|]. split; [done|apply frame_refl].
    + pose proof (path_NoDup _ _ _ _ _ (end_out g e Hg He) Hp) as Hnd. destruct Hp as (-> & Hin & Hp).
      replace ((2 <=? x) && (x <? FAT32_END_OF_CHAIN)) with true by (destruct Hg; unfold in_table, entries in *; lia).
      rewrite (next_ok g Hg (S n)) by done. destruct (fat_set_next_cluster g x 0 d) as [ok d1] eqn:E.
      destruct (set_next_spec g Hg n d x 0 ok d1 Hr Hin E) as (Hr1 & _ & Hf1 & _).
      apply NoDup_cons in Hnd as [Hx Hnd].
      destruct (IH d1 (fatv g d x) l) as (d' & -> & Hr' & Hf'); [done|done| |simpl in Hm; lia|].
      { pose proof (path_Forall _ _ _ _ _ Hp) as Hall. rewrite Forall_forall in Hall.
        eapply path_ext; [|done]. intros y Hy. apply (proj1 Hf1); [auto|]. by intros <-. }
      exists d'. split; [done|]. split; [done|].
      eapply frame_trans; [eapply frame_weaken; [exact Hf1| |done]|eapply frame_weaken; [exact Hf'| |done]].
      * intros ? <-. by left.
      * intros y Hy. by right.
Qed.

Lemma free_chain_spec n g d c l :
  geo_ok p psize g -> running (S n) d -> (c = 0 /\ l = [] \/ chain g d c l) ->
  exists h d', free_cluster_chain g c d = Some (set_hint h g, d') /\ running (S n) d' /\ frame g (fun x => x ∈ l) nothing d d'.
Proof.
  intros Hg Hr Hl. unfold free_cluster_chain. set (g1 := if _ : bool then set_hint c g else g).
  assert (exists h, g1 = set_hint h g) as [h Hh].
  { unfold g1. destruct (_ && _); [by eexists|]. exists (next_free_cluster_hint g). by destruct g. }
  rewrite Hh. destruct Hl as [[-> ->]|Hch].
  - exists h, d. split; [|split; [done|apply frame_refl]]. by destruct (fuel (set_hint h g)).
  - pose proof (chain_fuel _ _ _ _ Hg Hch). destruct Hch as (e & He & Hp).
    destruct (fat_free_loop_spec n (fuel (set_hint h g)) (set_hint h g) d c l e (geo_hint g h Hg) Hr He Hp) as (d' & -> & Hr' & Hf');
      [change (fuel (set_hint h g)) with (fuel g); lia|]. by exists h, d'.
Qed.

End Chains.
