(* ===== verification/FatDir.v ===== *)
(** * FAT32: the root directory

    The directory as one list of entries; the walks over it, the first free slot and the
    change of one entry. *)

From S2P Require Import Prelude Bytes Fat FatSpec FatChain.
Local Open Scope Z_scope.
Local Open Scope machine_scope.

(** ** Lists of entries *)

Definition name0 (e : fat_dirent_t) : Z := d_name e !!! 0%nat.

(** The entries up to the end marker that are files or directories. *)
Fixpoint live (es : list fat_dirent_t) : list fat_dirent_t :=
  match es with
  | [] => []
  | e :: es' => if name0 e =? 0 then [] else if skipped e then live es' else e :: live es'
  end.

Definition no_end (es : list fat_dirent_t) : Prop := Forall (fun e => name0 e <> 0) es.

(** Behind the end marker there are only end markers. *)
Definition clean (es : list fat_dirent_t) : Prop :=
  forall i j e e', es !! i = Some e -> es !! j = Some e' -> (i <= j)%nat -> name0 e = 0 -> name0 e' = 0.

(** A place found in the rest of a list. *)
Definition shift (n : nat) (r : option (option (nat * fat_dirent_t))) : option (option (nat * fat_dirent_t)) :=
  match r with Some (Some (k, e)) => Some (Some ((n + k)%nat, e)) | r => r end.

(** What a search for a name ends with: [None] when it runs off the list, [Some None] at the
    end marker. *)
Fixpoint look (name : list Z) (es : list fat_dirent_t) : option (option (nat * fat_dirent_t)) :=
  match es with
  | [] => None
  | e :: es' =>
      if name0 e =? 0 then Some None
      else if negb (skipped e) && bool_decide (d_name e = name) then Some (Some (0%nat, e))
      else shift 1 (look name es')
  end.

Definition is_free (e : fat_dirent_t) : bool := (name0 e =? 0) || (name0 e =? 0xE5).

Lemma live_app A B : no_end A -> live (A ++ B) = live A ++ live B.
Proof.
  induction 1 as [|e A He HA IH]; simpl; [done|]. replace (name0 e =? 0) with false by lia.
  destruct (skipped e); by rewrite IH.
Qed.

Lemma live_ended es : Forall (fun e => name0 e = 0) es -> live es = [].
Proof. destruct 1 as [|e es He]; simpl; [done|]. by rewrite He. Qed.

Lemma look_app name A B :
  look name (A ++ B) =
    match look name A with
    | None => shift (length A) (look name B)
    | r => r
    end.
Proof.
  induction A as [|e A IH]; simpl.
  { by destruct (look name B) as [[[]|]|]. }
  destruct (name0 e =? 0); [done|]. destruct (negb (skipped e) && _); [done|]. rewrite IH.
  destruct (look name A) as [[[]|]|]; simpl; [done|done|]. by destruct (look name B) as [[[]|]|].
Qed.

Definition has_end (es : list fat_dirent_t) : bool := existsb (fun e => name0 e =? 0) es.

Lemma live_split A B : live (A ++ B) = live A ++ if has_end A then [] else live B.
Proof.
  induction A as [|e A IH]; simpl; [done|]. destruct (name0 e =? 0); [done|]. destruct (skipped e); simpl; by rewrite IH.
Qed.

(** A name that is found, and one that is not. *)
Lemma look_found name es k e :
  look name es = Some (Some (k, e)) ->
  es !! k = Some e /\ d_name e = name /\ name0 e <> 0 /\ skipped e = false /\ no_end (take k es) /\
  (forall x, x ∈ live (take k es) -> d_name x <> name).
Proof.
  revert k. induction es as [|x es IH]; intros k; simpl; [done|]. destruct (Z.eqb_spec (name0 x) 0); [done|].
  destruct (skipped x) eqn:Hs; cbn [negb andb]; [|destruct (bool_decide_reflect (d_name x = name))].
  2:{ intros [= <- <-]. simpl. repeat split; try done; [constructor|]. intros y Hy. by apply not_elem_of_nil in Hy. }
  all: destruct (look name es) as [[[k' e']|]|]; simpl; try discriminate; intros [= <- <-].
  all: destruct (IH k' eq_refl) as (H1 & H2 & H3 & H4 & H5 & H6); simpl; repeat split; try done; [by constructor|].
  all: replace (name0 x =? 0) with false by lia; rewrite Hs; try done.
  intros y [->|Hy]%elem_of_cons; auto.
Qed.

Lemma look_absent name es :
  (forall k e, look name es <> Some (Some (k, e))) -> forall x, x ∈ live es -> d_name x <> name.
Proof.
  induction es as [|x es IH]; simpl; intros H y Hy; [by apply not_elem_of_nil in Hy|].
  destruct (name0 x =? 0); [by apply not_elem_of_nil in Hy|].
  assert (Hrec : forall k e, look name es <> Some (Some (k, e)) \/ (negb (skipped x) && bool_decide (d_name x = name)) = true).
  { intros k e. destruct (negb (skipped x) && _); [by right|]. left. intros E. apply (H (S k) e). by rewrite E. }
  destruct (skipped x); cbn [negb andb] in *; [apply IH; [|done]; intros k e; by destruct (Hrec k e)|].
  destruct (bool_decide_reflect (d_name x = name)) as [Hn|Hn]; [exfalso; by eapply H|].
  apply elem_of_cons in Hy as [->|Hy]; [done|]. apply IH; [|done]. intros k e. by destruct (Hrec k e).
Qed.

(** An entry put in a free slot, the first one or a deleted one. *)
Lemma live_insert es k old e :
  clean es -> es !! k = Some old -> is_free old = true -> no_end (take k es) -> name0 e <> 0 -> skipped e = false ->
  live es = live (take k es) ++ live (drop (S k) es) /\
  live (<[k := e]> es) = live (take k es) ++ e :: live (drop (S k) es).
Proof.
  intros Hcl Hk Hfree Hne He Hs. assert (Hlt : (k < length es)%nat) by by eapply lookup_lt_Some.
  split.
  - rewrite <- (take_drop_middle _ _ _ Hk) at 1. rewrite live_app by done. f_equal. simpl.
    destruct (Z.eqb_spec (name0 old) 0) as [H0|H0].
    + symmetry. apply live_ended, Forall_lookup. intros i x Hx. rewrite lookup_drop in Hx. apply (Hcl k (S k + i)%nat old x); auto with lia.
    + unfold is_free in Hfree. replace (name0 old =? 0) with false in Hfree by lia. simpl in Hfree.
      unfold skipped. change (d_name old !!! 0%nat) with (name0 old). by rewrite Hfree.
  - rewrite insert_take_drop by done. rewrite live_app by done. f_equal. simpl. by replace (name0 e =? 0) with false by lia; rewrite Hs.
Qed.

(** An entry marked as deleted. *)
Lemma live_delete es k e e' :
  es !! k = Some e -> no_end (take k es) -> name0 e <> 0 -> skipped e = false -> name0 e' = 0xE5 ->
  live es = live (take k es) ++ e :: live (drop (S k) es) /\
  live (<[k := e']> es) = live (take k es) ++ live (drop (S k) es).
Proof.
  intros Hk Hne H0 Hs He'. assert (Hlt : (k < length es)%nat) by by eapply lookup_lt_Some. split.
  - rewrite <- (take_drop_middle _ _ _ Hk) at 1. rewrite live_app by done. f_equal. simpl.
    by replace (name0 e =? 0) with false by lia; rewrite Hs.
  - rewrite insert_take_drop by done. rewrite live_app by done. f_equal. simpl. rewrite He'. simpl.
    unfold skipped. change (d_name e' !!! 0%nat) with (name0 e'). by rewrite He'.
Qed.

Lemma clean_insert es k old e :
  clean es -> es !! k = Some old -> no_end (take k es) -> name0 e <> 0 -> clean (<[k := e]> es).
Proof.
  intros Hcl Hk Hne He i j x y Hx Hy Hij H0. assert (Hlt : (k < length es)%nat) by by eapply lookup_lt_Some.
  destruct (decide (i = k)) as [->|Hi]; [rewrite list_lookup_insert_eq in Hx by done; simplify_eq|].
  rewrite list_lookup_insert_ne in Hx by done. destruct (decide (j = k)) as [->|Hj].
  - exfalso. unfold no_end in Hne. rewrite Forall_lookup in Hne. apply (Hne i x); [|done]. rewrite lookup_take_lt by lia. done.
  - rewrite list_lookup_insert_ne in Hy by done. by apply (Hcl i j x y).
Qed.

Lemma position_free_no_end es k : position is_free es = Some k -> no_end (take k es) /\ exists old, es !! k = Some old /\ is_free old = true.
Proof.
  intros (old & Hk & Hf & Hmin)%position_Some. split; [|by exists old]. apply Forall_lookup. intros i x Hx.
  assert (i < k)%nat by (apply lookup_lt_Some in Hx; rewrite length_take in Hx; lia). rewrite lookup_take_lt in Hx by done.
  specialize (Hmin i x ltac:(done) Hx). unfold is_free in Hmin. intros H0. by rewrite H0 in Hmin.
Qed.

Lemma position_full_no_end es : position is_free es = None -> no_end es.
Proof.
  intros H. apply Forall_lookup. intros i x Hx. pose proof (proj1 (position_None _ _) H i x Hx) as Hf. unfold is_free in Hf.
  intros H0. by rewrite H0 in Hf.
Qed.

(** ** Entries in a buffer *)

Definition slots_from (m i : nat) (buf : list Z) : list fat_dirent_t := (fun j => dirent_at buf (j * 32)) <$> seq i m.

Lemma slots_from_S m i buf : slots_from (S m) i buf = dirent_at buf (i * 32) :: slots_from m (S i) buf.
Proof. done. Qed.

Lemma walk_entries_list m i buf shown :
  walk_entries m i buf None shown =
    (if has_end (slots_from m i buf) then EndOfDirectory else NextCluster, shown ++ (listed <$> live (slots_from m i buf))).
Proof.
  revert i shown. induction m as [|m IH]; intros i shown; [by rewrite app_nil_r|].
  rewrite slots_from_S. cbn [walk_entries live has_end existsb]. cbn zeta.
  change (d_name _ !!! 0%nat) with (name0 (dirent_at buf (i * 32))). destruct (name0 _ =? 0); [by rewrite app_nil_r|].
  destruct (skipped _); rewrite IH; [done|]. by rewrite <- app_assoc.
Qed.

Lemma walk_entries_look m i buf name shown :
  walk_entries m i buf (Some name) shown =
    (match look name (slots_from m i buf) with
     | None => NextCluster
     | Some None => EndOfDirectory
     | Some (Some (k, e)) => Found ((i + k) * 32) e
     end, shown).
Proof.
  revert i. induction m as [|m IH]; intros i; [done|]. rewrite slots_from_S. cbn [walk_entries look]. cbn zeta.
  change (d_name _ !!! 0%nat) with (name0 (dirent_at buf (i * 32))). destruct (name0 _ =? 0); [done|].
  destruct (skipped _); cbn [negb andb]; [|destruct (bool_decide _); [by rewrite Nat.add_0_r|]].
  all: rewrite IH; destruct (look name _) as [[[k e]|]|]; cbn [shift]; try done.
  all: by replace (S i + k)%nat with (i + (1 + k))%nat by lia.
Qed.

Lemma name0_at buf off : (off + 32 <= length buf)%nat -> name0 (dirent_at buf off) = buf !!! off.
Proof.
  intros Hl. unfold name0, dirent_at. cbn [d_name]. rewrite !list_lookup_total_alt. f_equal. unfold field.
  rewrite lookup_take_lt, drop_0, lookup_take_lt, lookup_drop by lia. f_equal. lia.
Qed.

Lemma free_entry_position m i buf :
  ((i + m) * 32 <= length buf)%nat ->
  free_entry m i buf = (fun k => ((i + k) * 32)%nat) <$> position is_free (slots_from m i buf).
Proof.
  revert i. induction m as [|m IH]; intros i Hl; [done|]. rewrite slots_from_S. cbn [free_entry position].
  unfold is_free at 1. rewrite name0_at by lia. cbn zeta. destruct ((_ =? 0) || _); [simpl; by rewrite Nat.add_0_r|].
  rewrite IH by lia. destruct (position is_free _); simpl; [|done]. do 2 f_equal. lia.
Qed.

(** The new entry, read back. *)
Definition file_entry (name : list Z) (first size : Z) : fat_dirent_t :=
  mkDirent name 0 (Z.shiftr first 16) (Z.land first 0xFFFF) size.

Lemma length_new_dirent name first size : length name = 11%nat -> length (new_dirent name first size) = 32%nat.
Proof. intros H. unfold new_dirent. rewrite !length_app, !le_bytes_length, !length_replicate, H. done. Qed.

Lemma new_dirent_bytes name first size : Forall is_u8 name -> Forall is_u8 (new_dirent name first size).
Proof.
  intros H. unfold new_dirent. rewrite !Forall_app. repeat split; auto using le_bytes_bytes; apply Forall_replicate; done.
Qed.

Lemma dirent_at_field buf off : dirent_at buf off = dirent_at (field buf off 32) 0.
Proof.
  unfold dirent_at. cbn zeta. replace (field (field buf off 32) 0 32) with (field buf off 32); [done|].
  unfold field. by rewrite drop_0, take_take.
Qed.

Lemma dirent_new name first size :
  length name = 11%nat -> is_u32 first -> is_u32 size -> dirent_at (new_dirent name first size) 0 = file_entry name first size.
Proof.
  unfold is_u32. intros Hn Hf Hs. unfold dirent_at, file_entry. cbn zeta.
  assert (H1 : 0 <= Z.shiftr first 16 < 256 ^ 2).
  { rewrite Z.shiftr_div_pow2 by lia. change (2 ^ 16) with 65536. change (256 ^ 2) with 65536.
    split; [apply Z.div_pos; lia|apply Z.div_lt_upper_bound; lia]. }
  assert (H2 : 0 <= Z.land first 0xFFFF < 256 ^ 2).
  { change 0xFFFF with (Z.ones 16). rewrite Z.land_ones by lia. apply Z.mod_pos_bound. lia. }
  unfold new_dirent, field.
  do 11 (destruct name as [|? name]; [discriminate Hn|]). destruct name; [|discriminate Hn].
  transitivity (mkDirent [z; z0; z1; z2; z3; z4; z5; z6; z7; z8; z9] 0 (of_le_bytes (le_bytes 2 (Z.shiftr first 16)))
    (of_le_bytes (le_bytes 2 (Z.land first 0xFFFF))) (of_le_bytes (le_bytes 4 size))); [reflexivity|].
  by rewrite !of_le_bytes_le_bytes by done.
Qed.

Lemma first_cluster_file name first size : is_u32 first -> first_cluster (file_entry name first size) = first.
Proof.
  unfold is_u32. intros Hf. unfold first_cluster, file_entry. cbn.
  assert (Hb : is_u32 (Z.shiftl (Z.shiftr first 16) 16)).
  { rewrite Z.shiftl_mul_pow2, Z.shiftr_div_pow2 by lia. change (2 ^ 16) with 65536. pose proof (Z.div_mod first 65536).
    pose proof (Z.mod_pos_bound first 65536). pose proof (Z.div_pos first 65536). unfold is_u32. lia. }
  rewrite wrap32_id by done. change 65535 with (Z.ones 16). rewrite Z.land_ones by lia.
  apply Z.bits_inj'. intros i Hi. rewrite Z.lor_spec, Z.shiftl_spec by lia. destruct (Z.lt_ge_cases i 16).
  - rewrite Z.testbit_neg_r, Z.mod_pow2_bits_low by lia. done.
  - rewrite Z.shiftr_spec, Z.mod_pow2_bits_high by lia. by rewrite orb_false_r; replace (i - 16 + 16) with i by lia.
Qed.

(** ** The directory on a disk *)

Lemma concat_rows_lookup {A} (w : nat) (rows : list (list A)) k :
  (0 < w)%nat -> Forall (fun r => length r = w) rows ->
  concat rows !! k = match rows !! (k / w)%nat with Some r => r !! (k mod w)%nat | None => None end.
Proof.
  intros Hw. revert k. induction rows as [|r rows IH]; intros k Hall; [done|].
  apply Forall_cons in Hall as [Hr Hall]. cbn [concat]. destruct (decide (k < w)%nat).
  - rewrite lookup_app_l by lia. rewrite Nat.div_small, Nat.mod_small by lia. done.
  - rewrite lookup_app_r, IH by (done || lia). rewrite Hr.
    assert (E : k = ((k - w) + 1 * w)%nat) by lia.
    replace (k / w)%nat with (S ((k - w) / w))%nat by (rewrite E at 2; rewrite Nat.div_add; lia).
    replace (k mod w)%nat with ((k - w) mod w)%nat by (rewrite E at 2; rewrite Nat.Div0.mod_add; lia). done.
Qed.

Lemma position_app {A} (f : A -> bool) l1 l2 :
  position f (l1 ++ l2) = match position f l1 with Some k => Some k | None => Nat.add (length l1) <$> position f l2 end.
Proof.
  induction l1 as [|x l1 IH]; simpl; [by destruct (position f l2)|]. destruct (f x); [done|]. rewrite IH.
  destruct (position f l1); [done|]. by destruct (position f l2).
Qed.

Section Directory.
Context {D : Type} `{!Blocks D} {p psize : Z} `{!BlocksLaws D p psize}.
Implicit Types (g : fat32_t) (d : D) (c : Z) (n : nat).

Definition width g : nat := (spc g * 16)%nat.
Definition slots g d c : list fat_dirent_t := slots_from (width g) 0 (cdata g d c).
Definition dir g d (rl : list Z) : list fat_dirent_t := concat (slots g d <$> rl).

(** The cluster and offset of an entry of the directory. *)
Definition place g (rl : list Z) (k : nat) : Z * nat := (rl !!! (k / width g)%nat, ((k mod width g) * 32)%nat).

Lemma width_ok g : geo_ok p psize g -> entries_per_cluster g = width g /\ (0 < width g)%nat /\ csize g = (width g * 32)%nat.
Proof.
  intros Hg. pose proof (cluster_bytes_ok Hg) as Hc. pose proof (spc_pos Hg). unfold cluster_bytes, csize, width in *.
  unfold entries_per_cluster. rewrite Hc. split; [|lia].
  replace (Z.of_nat (spc g * 512)) with (Z.of_nat (spc g * 16) * 32) by lia. rewrite Z.div_mul by lia. lia.
Qed.

Lemma length_slots g d c : length (slots g d c) = width g.
Proof. unfold slots, slots_from. by rewrite length_fmap, length_seq. Qed.

Lemma dir_lookup g d rl k :
  geo_ok p psize g ->
  dir g d rl !! k = match rl !! (k / width g)%nat with Some c => slots g d c !! (k mod width g)%nat | None => None end.
Proof.
  intros Hg. destruct (width_ok g Hg) as (_ & Hw & _). unfold dir. rewrite (concat_rows_lookup (width g)); [|done|].
  - rewrite list_lookup_fmap. by destruct (rl !! _).
  - apply Forall_fmap, Forall_true. intros c. apply length_slots.
Qed.

Lemma slots_lookup g d c i : (i < width g)%nat -> slots g d c !! i = Some (dirent_at (cdata g d c) (i * 32)).
Proof. intros Hi. unfold slots, slots_from. by rewrite list_lookup_fmap, lookup_seq_lt by done. Qed.

Lemma place_cons g x rl k : (0 < width g)%nat -> place g (x :: rl) (width g + k) = place g rl k.
Proof.
  intros Hw. unfold place. replace (width g + k)%nat with (k + 1 * width g)%nat by lia.
  rewrite Nat.div_add, Nat.Div0.mod_add by lia. by rewrite Nat.add_1_r.
Qed.

Lemma place_head g x rl k : (k < width g)%nat -> place g (x :: rl) k = (x, (k * 32)%nat).
Proof. intros Hk. unfold place. by rewrite Nat.div_small, Nat.mod_small. Qed.

(** A walk that looks for a name. *)
Lemma walk_loop_spec n m g d c rl name shown :
  geo_ok p psize g -> running n d -> chain g d c rl -> (length rl <= m)%nat ->
  walk_loop m g c (Some name) shown d =
    Some (match look name (dir g d rl) with Some (Some (k, e)) => Some (place g rl k, e) | _ => None end, shown).
Proof.
  intros Hg Hr (e & He & Hp). destruct (width_ok g Hg) as (Hepc & Hw & _). revert c rl Hp.
  induction m as [|m IH]; intros c rl Hp Hm.
  { destruct rl; [|simpl in Hm; lia]. simpl in Hp. subst c. unfold is_end in He. cbn [walk_loop].
    by replace (e <? FAT32_END_OF_CHAIN) with false by lia. }
  destruct rl as [|x rl]; cbn [walk_loop].
  { simpl in Hp. subst c. unfold is_end in He. by replace (e <? FAT32_END_OF_CHAIN) with false by lia. }
  destruct Hp as (-> & Hin & Hp). replace (x <? FAT32_END_OF_CHAIN) with true by (destruct Hg; unfold in_table, entries in *; lia).
  rewrite (read_cluster_ok g Hg n) by done. rewrite Hepc, walk_entries_look. unfold dir. cbn [fmap list_fmap concat].
  fold (slots g d x). rewrite look_app. destruct (look name (slots g d x)) as [[[k e']|]|] eqn:El.
  - apply look_found in El as (Hk%lookup_lt_Some & _). rewrite length_slots in Hk. by rewrite place_head.
  - done.
  - rewrite (next_ok g Hg n), (IH _ rl Hp) by (done || simpl in Hm; lia). rewrite length_slots. unfold dir.
    change (list_fmap _ _ (slots g d) rl) with (slots g d <$> rl).
    destruct (look name (concat (slots g d <$> rl))) as [[[k e']|]|]; cbn [shift]; [|done|done]. by rewrite place_cons.
Qed.

(** A walk that shows every entry. *)
Lemma walk_loop_list n m g d c rl shown :
  geo_ok p psize g -> running n d -> chain g d c rl -> (length rl <= m)%nat ->
  walk_loop m g c None shown d = Some (None, shown ++ (listed <$> live (dir g d rl))).
Proof.
  intros Hg Hr (e & He & Hp). destruct (width_ok g Hg) as (Hepc & Hw & _). revert c rl Hp shown.
  induction m as [|m IH]; intros c rl Hp shown Hm; destruct rl as [|x rl]; try (simpl in Hm; lia); cbn [walk_loop].
  1-2: simpl in Hp; subst c; unfold is_end in He; replace (e <? FAT32_END_OF_CHAIN) with false by lia; by rewrite app_nil_r.
  destruct Hp as (-> & Hin & Hp). replace (x <? FAT32_END_OF_CHAIN) with true by (destruct Hg; unfold in_table, entries in *; lia).
  rewrite (read_cluster_ok g Hg n) by done. rewrite Hepc, walk_entries_list. unfold dir. cbn [fmap list_fmap concat].
  fold (slots g d x). rewrite live_split. destruct (has_end (slots g d x)); [by rewrite app_nil_r|].
  rewrite (next_ok g Hg n), (IH _ rl Hp) by (done || simpl in Hm; lia). rewrite fmap_app, app_assoc. done.
Qed.

(** The scan for a free slot. *)
Lemma slot_loop_spec n m g d c rl :
  geo_ok p psize g -> running n d -> chain g d c rl -> rl <> [] -> (length rl <= m)%nat ->
  slot_loop m g c d =
    Some (match position is_free (dir g d rl) with
          | Some k => let '(c, off) := place g rl k in Slot c off
          | None => Full (default 0 (last rl))
          end).
Proof.
  intros Hg Hr (e & He & Hp). destruct (width_ok g Hg) as (Hepc & Hw & Hcs). revert c rl Hp.
  induction m as [|m IH]; intros c rl Hp Hne Hm; [destruct rl; simpl in Hm; [done|lia]|].
  destruct rl as [|x rl]; [done|]. clear Hne. destruct Hp as (-> & Hin & Hp). cbn [slot_loop].
  rewrite (read_cluster_ok g Hg n), Hepc by done. destruct (cdata_length g Hg n d x (proj1 Hr) Hin) as [Hlen _].
  rewrite free_entry_position by lia. fold (slots g d x). unfold dir. cbn [fmap list_fmap concat]. rewrite position_app.
  destruct (position is_free (slots g d x)) as [k|] eqn:Ek; cbn [fmap option_fmap option_map].
  { apply position_Some in Ek as (? & Hk%lookup_lt_Some & _). rewrite length_slots in Hk. by rewrite place_head. }
  rewrite (next_ok g Hg n) by done. destruct rl as [|y rl].
  - simpl in Hp. rewrite Hp. unfold is_end in He. by replace (FAT32_END_OF_CHAIN <=? e) with true by lia.
  - pose proof Hp as (Hy & Hiny & _).
    replace (FAT32_END_OF_CHAIN <=? fatv g d x) with false by (rewrite Hy; destruct Hg; unfold in_table, entries in *; lia).
    rewrite (IH _ (y :: rl) Hp) by (done || simpl in *; lia). rewrite length_slots. unfold dir.
    change (list_fmap _ _ (slots g d) (y :: rl)) with (slots g d <$> y :: rl).
    destruct (position is_free (concat (slots g d <$> y :: rl))) as [k|]; cbn [fmap option_fmap option_map]; [|done].
    by rewrite (place_cons g x).
Qed.

(** One entry is changed. *)
Lemma dir_put n g d d' rl k old bs :
  geo_ok p psize g -> level n d -> Forall (in_table g) rl -> NoDup rl -> dir g d rl !! k = Some old ->
  (0 < length bs <= 32)%nat -> let '(c, off) := place g rl k in
  cdata g d' c = put_bytes (cdata g d c) off bs -> (forall x, x ∈ rl -> x <> c -> cdata g d' x = cdata g d x) ->
  c ∈ rl /\ old = dirent_at (cdata g d c) off /\ (off + 32 <= csize g)%nat /\
  dir g d' rl = <[k := dirent_at (put_bytes (cdata g d c) off bs) off]> (dir g d rl).
Proof.
  intros Hg Hl Hall Hnd Hk Hbs. unfold place. intros Hc Hothers. destruct (width_ok g Hg) as (_ & Hw & Hcs).
  assert (Hlt : (k < length (dir g d rl))%nat) by by eapply lookup_lt_Some.
  rewrite dir_lookup in Hk by done. destruct (rl !! (k / width g)%nat) as [c|] eqn:Hrk; [|done].
  rewrite (list_lookup_total_correct _ _ _ Hrk) in *.
  assert (Hmod : (k mod width g < width g)%nat) by (apply Nat.mod_upper_bound; lia). rewrite slots_lookup in Hk by done.
  assert (Hin : c ∈ rl) by by eapply list_elem_of_lookup_2. pose proof Hall as Hall'. rewrite Forall_forall in Hall'.
  destruct (cdata_length g Hg n d c Hl (Hall' c Hin)) as [Hlen _].
  split; [done|]. split; [congruence|]. split; [lia|]. apply list_eq. intros i. destruct (decide (i = k)) as [->|Hik].
  - rewrite list_lookup_insert_eq by done. rewrite dir_lookup, Hrk, slots_lookup by done. by rewrite Hc.
  - rewrite list_lookup_insert_ne, !dir_lookup by done. destruct (rl !! (i / width g)%nat) as [x|] eqn:Hri; [|done].
    assert (Himod : (i mod width g < width g)%nat) by (apply Nat.mod_upper_bound; lia). rewrite !slots_lookup by done. f_equal.
    destruct (decide (x = c)) as [->|Hx].
    + rewrite Hc, dirent_at_field, (dirent_at_field (cdata g d c)). f_equal. apply field_put_other; [lia|].
      assert (i / width g = k / width g)%nat by (eapply NoDup_lookup; done).
      pose proof (Nat.div_mod_eq i (width g)). pose proof (Nat.div_mod_eq k (width g)). nia.
    + rewrite Hothers; [done|by eapply list_elem_of_lookup_2|done].
Qed.

End Directory.
