(* ===== verification/FatFiles.v ===== *)
(** * FAT32: the files

    The invariant of a volume, the files it holds as a finite map, and that nothing outside
    the chains in use matters to either. *)

From S2P Require Import Prelude Bytes Fat FatSpec FatChain FatDir.
Local Open Scope Z_scope.
Local Open Scope machine_scope.

(** The clusters from [c] on, for as long as [f] stays below the end marker. *)
Fixpoint follow (m : nat) (f : Z -> Z) (c : Z) : list Z :=
  match m with
  | O => []
  | S m' => if c <? FAT32_END_OF_CHAIN then c :: follow m' f (f c) else []
  end.

Lemma Forall2_impl_elem {A B} (P Q : A -> B -> Prop) l k :
  Forall2 P l k -> (forall x y, y ∈ k -> P x y -> Q x y) -> Forall2 Q l k.
Proof. induction 1; intros H'; constructor; [apply H'; [by left|done]|]. apply IHForall2. intros. apply H'; [by right|done]. Qed.

Lemma zip_with_ext_elem {A B C} (f h : A -> B -> C) l k :
  (forall x y, y ∈ k -> f x y = h x y) -> zip_with f l k = zip_with h l k.
Proof.
  revert k. induction l as [|x l IH]; intros [|y k] H; simpl; [done..|]. f_equal; [apply H; by left|].
  apply IH. intros. apply H. by right.
Qed.

Lemma elem_concat {A} (x : A) l ls : l ∈ ls -> x ∈ l -> x ∈ concat ls.
Proof. intros Hl Hx. apply list_elem_of_In, in_concat. exists l. by rewrite <- !list_elem_of_In. Qed.

Section Files.
Context {D : Type} `{!Blocks D} {p psize : Z} `{!BlocksLaws D p psize}.
Implicit Types (g : fat32_t) (d : D) (c : Z) (n : nat) (e : fat_dirent_t).

Definition chain_of g d c : list Z := follow (fuel g) (fatv g d) c.

(** The bytes of a file whose clusters are [l]. *)
Definition content g d e (l : list Z) : list Z := take (Z.to_nat (file_size e)) (concat (cdata g d <$> l)).

(** The files of a volume. *)
Definition files g d : gmap (list Z) (list Z) :=
  list_to_map ((fun e => (d_name e, content g d e (chain_of g d (first_cluster e)))) <$>
    live (dir g d (chain_of g d (root_cluster g)))).

(** [l] are the clusters of the file with entry [e]: enough of them for its size. *)
Definition owns g d e (l : list Z) : Prop :=
  (first_cluster e = 0 /\ l = [] \/ chain g d (first_cluster e) l) /\ 0 <= file_size e <= Z.of_nat (length l * csize g).

(** A sound volume: the directory has the chain [rl], its files have the chains [ls], no
    cluster is on two of them, and no two files have one name. *)
Record volume g d (rl : list Z) (ls : list (list Z)) : Prop := {
  vol_root : chain g d (root_cluster g) rl;
  vol_owns : Forall2 (owns g d) (live (dir g d rl)) ls;
  vol_apart : NoDup (rl ++ concat ls);
  vol_names : NoDup (d_name <$> live (dir g d rl));
  vol_clean : clean (dir g d rl);
}.

Definition listing g d (rl : list Z) (ls : list (list Z)) : list (list Z * list Z) :=
  zip_with (fun e l => (d_name e, content g d e l)) (live (dir g d rl)) ls.

Lemma follow_chain m g d c l : geo_ok p psize g -> chain g d c l -> (length l < m)%nat -> follow m (fatv g d) c = l.
Proof.
  intros Hg (e & He & Hp). revert c l Hp. induction m as [|m IH]; intros c l Hp Hm; [lia|]. cbn [follow].
  destruct l as [|x l].
  - simpl in Hp. subst c. unfold is_end in He. by replace (e <? FAT32_END_OF_CHAIN) with false by lia.
  - destruct Hp as (-> & Hin & Hp). replace (x <? FAT32_END_OF_CHAIN) with true by (destruct Hg; unfold in_table, entries in *; lia).
    f_equal. apply IH; [done|simpl in Hm; lia].
Qed.

Lemma chain_of_ok g d c l : geo_ok p psize g -> chain g d c l -> chain_of g d c = l.
Proof. intros Hg Hc. apply follow_chain; [done|done|]. by eapply chain_fuel. Qed.

Lemma files_listing g d rl ls : geo_ok p psize g -> volume g d rl ls -> files g d = list_to_map (listing g d rl ls).
Proof.
  intros Hg [Hroot Howns _ _ _]. unfold files, listing. rewrite (chain_of_ok _ _ _ _ Hg Hroot). f_equal.
  induction Howns as [|e l es ls [Hch Hsz] Howns IH]; [done|]. cbn [fmap list_fmap zip_with]. f_equal; [|done]. f_equal.
  destruct Hch as [[_ ->]|Hch]; [|by rewrite (chain_of_ok _ _ _ _ Hg Hch)]. simpl in Hsz. unfold content.
  by replace (file_size e) with 0 by lia.
Qed.

Lemma volume_chains g d rl ls x :
  geo_ok p psize g -> volume g d rl ls -> x ∈ rl ++ concat ls -> in_table g x /\ fatv g d x <> 0.
Proof.
  intros Hg [Hroot Howns _ _ _] Hx. assert (exists c l, chain g d c l /\ x ∈ l) as (c & l & Hc & Hl).
  { apply elem_of_app in Hx as [Hx|Hx]; [by exists (root_cluster g), rl|].
    apply list_elem_of_In, in_concat in Hx as (l & Hl%list_elem_of_In & Hx%list_elem_of_In).
    apply list_elem_of_lookup_1 in Hl as [i Hi]. destruct (Forall2_lookup_r _ _ _ _ _ Howns Hi) as (e & _ & [[[_ ->]|Hch] _]).
    - by apply not_elem_of_nil in Hx.
    - by eexists _, l. }
  split; [|by eapply chain_used]. apply chain_Forall in Hc. rewrite Forall_forall in Hc. auto.
Qed.

Lemma dir_frame g d d' rl : (forall x, x ∈ rl -> cdata g d' x = cdata g d x) -> dir g d' rl = dir g d rl.
Proof. intros H. unfold dir. f_equal. apply list_fmap_ext. intros i x Hx%list_elem_of_lookup_2. unfold slots. by rewrite H. Qed.

Lemma content_frame g d d' e l : (forall x, x ∈ l -> cdata g d' x = cdata g d x) -> content g d' e l = content g d e l.
Proof.
  intros H. unfold content. do 2 f_equal. apply list_fmap_ext. intros i x Hx%list_elem_of_lookup_2. by apply H.
Qed.

Lemma owns_ext g d d' e l : (forall x, x ∈ l -> fatv g d' x = fatv g d x) -> owns g d e l -> owns g d' e l.
Proof. intros H [[?|Hch] Hs]; (split; [|done]); [by left|right]. by apply (chain_ext g d). Qed.

(** Changes outside the chains in use. *)
Lemma volume_frame g T C d d' rl ls :
  geo_ok p psize g -> frame g T C d d' -> (forall x, x ∈ rl ++ concat ls -> ~ T x /\ ~ C x) -> volume g d rl ls ->
  volume g d' rl ls /\ listing g d' rl ls = listing g d rl ls.
Proof.
  intros Hg [HT HC] Hout Hv. pose proof (fun x => volume_chains g d rl ls x Hg Hv) as Hin.
  assert (Hf : forall x, x ∈ rl ++ concat ls -> fatv g d' x = fatv g d x) by (intros x Hx; apply HT; [by apply Hin|by apply Hout]).
  assert (Hd : forall x, x ∈ rl ++ concat ls -> cdata g d' x = cdata g d x) by (intros x Hx; apply HC; [by apply Hin|by apply Hout]).
  assert (Hdir : dir g d' rl = dir g d rl) by (apply dir_frame; intros x Hx; apply Hd; set_solver).
  assert (Hls : forall l, l ∈ ls -> forall x, x ∈ l -> x ∈ rl ++ concat ls)
    by (intros l Hl x Hx; apply elem_of_app; right; by eapply elem_concat).
  destruct Hv as [Hroot Howns Hnd Hnames Hclean]. split.
  - split; rewrite ?Hdir; try done.
    + apply (chain_ext g d); [|done]. intros x Hx. apply Hf. set_solver.
    + eapply Forall2_impl_elem; [done|]. intros e l Hl. apply owns_ext. intros x Hx. apply Hf. by eapply Hls.
  - unfold listing. rewrite Hdir. apply zip_with_ext_elem. intros e l Hl. f_equal. apply content_frame.
    intros x Hx. apply Hd. by eapply Hls.
Qed.

(** A file is entered in the directory. *)
Lemma volume_add g d d' rl ls k old e l :
  volume g d rl ls -> (forall x, x ∈ rl ++ concat ls -> fatv g d' x = fatv g d x) ->
  (forall x, x ∈ concat ls -> cdata g d' x = cdata g d x) ->
  dir g d rl !! k = Some old -> is_free old = true -> no_end (take k (dir g d rl)) ->
  dir g d' rl = <[k := e]> (dir g d rl) -> name0 e <> 0 -> skipped e = false ->
  owns g d' e l -> NoDup l -> (forall x, x ∈ l -> x ∉ rl ++ concat ls) -> d_name e ∉ d_name <$> live (dir g d rl) ->
  exists ls', volume g d' rl ls' /\ listing g d' rl ls' ≡ₚ (d_name e, content g d' e l) :: listing g d rl ls.
Proof.
  intros [Hroot Howns Hnd Hnames Hclean] Hf Hd Hk Hfree Hne Hdir H0 Hs Hown Hndl Hout Hnew.
  destruct (live_insert _ _ _ _ Hclean Hk Hfree Hne H0 Hs) as [E1 E2]. rewrite <- Hdir in E2.
  set (LA := live (take k _)) in *. set (LB := live (drop (S k) _)) in *. rewrite E1 in Howns, Hnames, Hnew.
  apply Forall2_app_inv_l in Howns as (la & lb & Ha & Hb & ->).
  assert (Hls : forall l, l ∈ la ++ lb -> forall x, x ∈ l -> x ∈ concat (la ++ lb)) by (intros; by eapply elem_concat).
  assert (Hkeep : forall (es : list fat_dirent_t) l0, (forall l, l ∈ l0 -> l ∈ la ++ lb) -> Forall2 (owns g d) es l0 -> Forall2 (owns g d') es l0).
  { intros es l0 Hsub Ho. eapply Forall2_impl_elem; [done|]. intros x m Hm. apply owns_ext. intros y Hy. apply Hf.
    apply elem_of_app. right. by apply (Hls m); [apply Hsub|]. }
  exists (la ++ l :: lb). split.
  - split; rewrite ?E2.
    + apply (chain_ext g d); [|done]. intros x Hx. apply Hf. set_solver.
    + apply Forall2_app; [apply Hkeep; [set_solver|done]|]. constructor; [done|]. apply Hkeep; [set_solver|done].
    + rewrite concat_app. cbn [concat]. rewrite (Permutation_app_swap_app (concat la) l). rewrite <- concat_app.
      rewrite (Permutation_app_swap_app rl l). apply NoDup_app. split; [done|]. split; [|done]. intros x Hx Hin. by apply (Hout x Hx).
    + rewrite fmap_app, fmap_cons. rewrite fmap_app in Hnames, Hnew.
      rewrite <- Permutation_middle. constructor; [done|]. done.
    + rewrite Hdir. by apply (clean_insert _ _ old).
  - unfold listing. rewrite E1, E2. rewrite !zip_with_app by (by eapply Forall2_length). cbn [zip_with].
    rewrite <- Permutation_middle. apply Permutation_skip. apply Permutation_app.
    + erewrite zip_with_ext_elem; [done|]. intros x m Hm. cbn. f_equal. apply content_frame. intros y Hy. apply Hd. apply (Hls m); set_solver.
    + erewrite zip_with_ext_elem; [done|]. intros x m Hm. cbn. f_equal. apply content_frame. intros y Hy. apply Hd. apply (Hls m); set_solver.
Qed.

(** A file is struck from it. *)
Lemma volume_remove g d d' rl ls k e e' :
  volume g d rl ls -> (forall x, x ∈ rl ++ concat ls -> fatv g d' x = fatv g d x) ->
  (forall x, x ∈ concat ls -> cdata g d' x = cdata g d x) ->
  dir g d rl !! k = Some e -> no_end (take k (dir g d rl)) -> name0 e <> 0 -> skipped e = false ->
  dir g d' rl = <[k := e']> (dir g d rl) -> name0 e' = 0xE5 ->
  exists l ls', volume g d' rl ls' /\ owns g d' e l /\ (forall x, x ∈ l -> x ∉ rl ++ concat ls') /\
    listing g d rl ls ≡ₚ (d_name e, content g d e l) :: listing g d' rl ls'.
Proof.
  intros [Hroot Howns Hnd Hnames Hclean] Hf Hd Hk Hne H0 Hs Hdir H5.
  destruct (live_delete _ _ _ _ Hk Hne H0 Hs H5) as [E1 E2]. rewrite <- Hdir in E2.
  set (LA := live (take k _)) in *. set (LB := live (drop (S k) _)) in *. rewrite E1 in Howns, Hnames.
  apply Forall2_app_inv_l in Howns as (la & lb0 & Ha & Hb0 & ->). apply Forall2_cons_inv_l in Hb0 as (l & lb & Hown & Hb & ->).
  assert (Hls : forall m, m ∈ la ++ l :: lb -> forall x, x ∈ m -> x ∈ concat (la ++ l :: lb)) by (intros; by eapply elem_concat).
  assert (Hsub : forall m, m ∈ la ++ lb -> m ∈ la ++ l :: lb) by (intros; set_solver).
  assert (Hkeep : forall (es : list fat_dirent_t) l0, (forall m, m ∈ l0 -> m ∈ la ++ l :: lb) -> Forall2 (owns g d) es l0 -> Forall2 (owns g d') es l0).
  { intros es l0 Hsub0 Ho. eapply Forall2_impl_elem; [done|]. intros x m Hm. apply owns_ext. intros y Hy. apply Hf.
    apply elem_of_app. right. by apply (Hls m); [apply Hsub0|]. }
  assert (Hperm : rl ++ concat (la ++ l :: lb) ≡ₚ l ++ (rl ++ concat (la ++ lb))).
  { rewrite !concat_app. cbn [concat]. rewrite (Permutation_app_swap_app (concat la) l). by rewrite Permutation_app_swap_app. }
  rewrite Hperm in Hnd. apply NoDup_app in Hnd as (Hndl & Hdis & Hnd).
  exists l, (la ++ lb). split; [split|split; [|split]].
  - apply (chain_ext g d); [|done]. intros x Hx. apply Hf. set_solver.
  - rewrite E2. apply Forall2_app; (apply Hkeep; [set_solver|done]).
  - done.
  - rewrite E2. rewrite fmap_app, fmap_cons in Hnames. rewrite <- Permutation_middle in Hnames. rewrite fmap_app. by apply NoDup_cons in Hnames as [_ ?].
  - rewrite Hdir. apply (clean_insert _ _ e); [done|done|done|]. by rewrite H5.
  - apply (owns_ext g d); [|done]. intros x Hx. apply Hf. apply elem_of_app. right. apply (Hls l); set_solver.
  - intros x Hx. by apply Hdis.
  - unfold listing. rewrite E1, E2. rewrite !zip_with_app by (by eapply Forall2_length). cbn [zip_with].
    rewrite <- Permutation_middle. apply Permutation_skip. apply Permutation_app.
    + erewrite zip_with_ext_elem; [done|]. intros x m Hm. cbn. f_equal. symmetry. apply content_frame. intros y Hy. apply Hd. apply (Hls m); set_solver.
    + erewrite zip_with_ext_elem; [done|]. intros x m Hm. cbn. f_equal. symmetry. apply content_frame. intros y Hy. apply Hd. apply (Hls m); set_solver.
Qed.

Lemma listing_names g d rl ls : volume g d rl ls -> (listing g d rl ls).*1 = d_name <$> live (dir g d rl).
Proof.
  intros [_ Howns _ _ _]. unfold listing. induction Howns; simpl; [done|]. by f_equal.
Qed.

End Files.

(** * FAT32: names, lookup and reading *)

(** ** Names *)

(** A C string whose first byte does not make its entry a deleted one. *)
Definition plain (name : list Z) : Prop := Forall (fun c => 0 < c < 256) name /\ head name <> Some 0xE5.

Lemma upper_byte c : 0 < c < 256 -> 0 < upper c < 256 /\ (upper c = 0xE5 -> c = 0xE5).
Proof. unfold upper. destruct ((97 <=? c) && (c <=? 122)) eqn:?; lia. Qed.

Lemma copy_base_ok n name :
  let '(base, rest) := copy_base n name in
  (length base <= n)%nat /\ (Forall (fun c => 0 < c < 256) name ->
    Forall (fun c => 0 < c < 256) base /\ Forall (fun c => 0 < c < 256) rest) /\
  (forall c base', base = c :: base' -> exists x name', name = x :: name' /\ c = upper x).
Proof.
  revert name. induction n as [|n IH]; intros [|c name]; cbn [copy_base].
  1-3: by repeat split; [simpl; lia|..].
  destruct (c =? chr "."); [repeat split; [simpl; lia|done|done|done]|].
  specialize (IH name). destruct (copy_base n name) as [base rest]. destruct IH as (Hl & Hb & _). split; [simpl; lia|].
  split; [|intros ?? [= <- <-]; by eexists _, _].
  intros [Hc Hn]%Forall_cons. destruct (Hb Hn). split; [|done]. constructor; [|done]. by apply upper_byte.
Qed.

Lemma skip_to_dot_ok name : Forall (fun c => 0 < c < 256) name -> Forall (fun c => 0 < c < 256) (skip_to_dot name).
Proof. induction 1 as [|c name Hc Hn IH]; cbn [skip_to_dot]; [done|]. destruct (c =? chr "."); [by constructor|done]. Qed.

Lemma to_fat_length name : length (to_fat_8_3 name) = 11%nat.
Proof.
  unfold to_fat_8_3. pose proof (copy_base_ok 8 name) as H. destruct (copy_base 8 name) as [base rest]. destruct H as (Hl & _).
  assert (length (match skip_to_dot rest with _ :: e => upper <$> take 3 e | [] => [] end) <= 3)%nat.
  { destruct (skip_to_dot rest); [simpl; lia|]. rewrite length_fmap, length_take. lia. }
  rewrite !length_app, !length_replicate. lia.
Qed.

Lemma to_fat_plain name :
  plain name -> Forall is_u8 (to_fat_8_3 name) /\ to_fat_8_3 name !!! 0%nat <> 0 /\ to_fat_8_3 name !!! 0%nat <> 0xE5.
Proof.
  intros [Hall Hhead]. unfold to_fat_8_3. pose proof (copy_base_ok 8 name) as H. destruct (copy_base 8 name) as [base rest].
  destruct H as (Hl & Hb & Hc). destruct (Hb Hall) as [Hbase Hrest]. pose proof (skip_to_dot_ok rest Hrest) as Hext.
  assert (Hu8 : forall l, Forall (fun c => 0 < c < 256) l -> Forall is_u8 l) by (intros l Hf; eapply Forall_impl; [done|]; unfold is_u8; simpl; lia).
  assert (Hsp : forall n, Forall is_u8 (replicate n (chr " "))) by (intros n; by apply Forall_replicate).
  split.
  - rewrite !Forall_app. repeat split; auto. destruct (skip_to_dot rest) as [|x ext]; [constructor|].
    apply Forall_cons in Hext as [_ Hext]. apply Hu8, Forall_fmap, Forall_take. eapply Forall_impl; [done|]. intros c Hcc. by apply upper_byte.
  - destruct base as [|c base]; [done|]. cbn. destruct (Hc c base eq_refl) as (x & name' & -> & ->).
    apply Forall_cons in Hall as [Hx _]. destruct (upper_byte x Hx) as [? He]. split; [lia|]. intros E. apply Hhead. simpl. f_equal. auto.
Qed.

Lemma copy_base_all n base rest :
  (length base <= n)%nat -> Forall (fun c => c <> chr ".") base ->
  (rest = [] \/ exists e, rest = chr "." :: e) -> copy_base n (base ++ rest) = (upper <$> base, rest).
Proof.
  intros Hl Hb Hr. revert n Hl. induction Hb as [|c base Hc _ IH]; intros n Hl; simpl in Hl.
  - destruct Hr as [-> | [e ->]]; by destruct n.
  - destruct n as [|n]; [lia|]. cbn [app copy_base]. replace (c =? chr ".") with false by lia. by rewrite IH by lia.
Qed.

Lemma filter_spaces l n : Forall (fun c => c <> chr " ") l -> List.filter not_space ((upper <$> l) ++ replicate n (chr " ")) = upper <$> l.
Proof.
  intros Hl. rewrite List.filter_app. rewrite List.forallb_filter_id.
  - assert (List.filter not_space (replicate n (chr " ")) = []) as -> by (induction n; done). by rewrite app_nil_r.
  - apply List.forallb_forall. intros x (c & <- & Hc)%List.in_map_iff. apply list_elem_of_In in Hc. rewrite Forall_forall in Hl.
    specialize (Hl c Hc). change (chr " ") with 32 in Hl. unfold not_space, upper. change (chr " ") with 32.
    destruct ((97 <=? c) && (c <=? 122)) eqn:E; lia.
Qed.

Lemma from_fat_parts a b :
  length a = 8%nat -> length b = 3%nat ->
  from_fat_8_3 (a ++ b) = List.filter not_space a ++ if not_space (b !!! 0%nat) then chr "." :: List.filter not_space b else [].
Proof.
  intros Ha Hb. unfold from_fat_8_3, field. rewrite take_app_length', drop_app_length', (take_ge b) by lia.
  by rewrite lookup_total_app_r, Ha by lia.
Qed.

(** A name that fits is shown as it was given, in capital letters. *)
Lemma from_fat_to_fat base ext :
  (length base <= 8)%nat -> (1 <= length ext <= 3)%nat ->
  Forall (fun c => c <> chr ".") base -> Forall (fun c => c <> chr " ") base -> Forall (fun c => c <> chr " ") ext ->
  from_fat_8_3 (to_fat_8_3 (base ++ chr "." :: ext)) = upper <$> (base ++ chr "." :: ext) /\
  from_fat_8_3 (to_fat_8_3 base) = upper <$> base.
Proof.
  intros Hb He Hdot Hsp Hsp'. unfold to_fat_8_3. rewrite copy_base_all by (done || by right; eexists).
  pose proof (copy_base_all 8 base [] Hb Hdot (or_introl eq_refl)) as E2. rewrite app_nil_r in E2. rewrite E2. cbn [skip_to_dot].
  rewrite Z.eqb_refl, (take_ge ext) by lia.
  rewrite !from_fat_parts by (rewrite ?length_app, ?length_replicate, ?length_fmap; simpl; lia).
  rewrite !filter_spaces by done. rewrite fmap_app. split; [|by rewrite !app_nil_r].
  destruct ext as [|c ext]; [simpl in He; lia|]. apply Forall_cons in Hsp' as [Hc _].
  replace (not_space _) with true; [done|]. symmetry. change (not_space (upper c) = true). unfold not_space, upper. change (chr " ") with 32 in *.
  destruct ((97 <=? c) && (c <=? 122)) eqn:E; lia.
Qed.

(** ** Looking up a name *)

Lemma drop_take_sub {A} (l : list A) n m : drop n (take m l) = take (m - n) (drop n l).
Proof. by rewrite skipn_firstn_comm. Qed.

Section Reading.
Context {D : Type} `{!Blocks D} {p psize : Z} `{!BlocksLaws D p psize}.
Implicit Types (g : fat32_t) (d : D) (c : Z) (n : nat) (e : fat_dirent_t).

Lemma live_found es k e :
  es !! k = Some e -> no_end (take k es) -> name0 e <> 0 -> skipped e = false -> e ∈ live es.
Proof.
  intros Hk Hne H0 Hs. rewrite <- (take_drop_middle _ _ _ Hk), live_app by done. simpl.
  replace (name0 e =? 0) with false by lia. rewrite Hs. set_solver.
Qed.

(** What a search of the directory says about the files. *)
Lemma look_files g d rl ls name :
  geo_ok p psize g -> volume g d rl ls ->
  match look name (dir g d rl) with
  | Some (Some (k, e)) => exists l, owns g d e l /\ files g d !! name = Some (content g d e l)
  | _ => files g d !! name = None
  end.
Proof.
  intros Hg Hv. rewrite (files_listing g d rl ls Hg Hv). pose proof (listing_names g d rl ls Hv) as Hnames.
  assert (Habs : (forall k e, look name (dir g d rl) <> Some (Some (k, e))) ->
    (list_to_map (listing g d rl ls) : gmap _ _) !! name = None).
  { intros Hno. apply not_elem_of_list_to_map_1. rewrite Hnames. intros (e & He & Hin)%list_elem_of_fmap.
    by apply (look_absent name (dir g d rl) Hno e). }
  destruct (look name (dir g d rl)) as [[[k e]|]|] eqn:El; [|by apply Habs..].
  destruct (look_found _ _ _ _ El) as (Hk & Hn & H0 & Hs & Hne & _).
  pose proof (live_found _ _ _ Hk Hne H0 Hs) as Hin. apply list_elem_of_lookup_1 in Hin as [i Hi].
  pose proof Hv as [_ Howns _ Hnd _]. destruct (Forall2_lookup_l _ _ _ _ _ Howns Hi) as (l & Hl & Hown).
  exists l. split; [done|]. apply elem_of_list_to_map_1; [by rewrite Hnames|].
  apply (list_elem_of_lookup_2 _ i). unfold listing. rewrite lookup_zip_with, Hi, Hl. simpl. by rewrite Hn.
Qed.

(** ** Reading *)

Lemma length_concat_clusters n g d l :
  geo_ok p psize g -> level n d -> Forall (in_table g) l -> length (concat (cdata g d <$> l)) = (length l * csize g)%nat.
Proof.
  intros Hg Hl. induction 1 as [|x l Hx _ IH]; [done|]. rewrite fmap_cons. cbn [concat length].
  rewrite length_app, (proj1 (cdata_length g Hg n d x Hl Hx)), IH. lia.
Qed.

Lemma concat_drop_clusters n g d l q :
  geo_ok p psize g -> level n d -> Forall (in_table g) l ->
  drop (q * csize g) (concat (cdata g d <$> l)) = concat (drop q (cdata g d <$> l)).
Proof.
  intros Hg Hl Hall. revert q. induction Hall as [|x l Hx _ IH]; intros q; [destruct q; cbn [fmap list_fmap concat]; cbn; by rewrite ?drop_nil|]. rewrite fmap_cons. cbn [concat].
  destruct q as [|q]; [done|]. cbn [drop]. rewrite drop_app_ge by (rewrite (proj1 (cdata_length g Hg n d x Hl Hx)); lia).
  rewrite (proj1 (cdata_length g Hg n d x Hl Hx)), <- IH. f_equal. lia.
Qed.

Lemma owns_length n g d e l :
  geo_ok p psize g -> level n d -> owns g d e l -> length (content g d e l) = Z.to_nat (file_size e).
Proof.
  intros Hg Hl [Hch Hs]. unfold content. rewrite length_take. rewrite (length_concat_clusters n) by
    (done || by destruct Hch as [[_ ->]|Hch]; [constructor|by eapply chain_Forall]). lia.
Qed.

Lemma fat_read_loop_spec n m g d c l remaining off :
  geo_ok p psize g -> running n d -> chain g d c l -> (length l <= m)%nat ->
  0 <= off < Z.of_nat (csize g) -> 0 <= remaining <= Z.of_nat (length l * csize g) - off ->
  read_loop m g c remaining off d = Some (field (concat (cdata g d <$> l)) (Z.to_nat off) (Z.to_nat remaining)).
Proof.
  intros Hg Hr (e & He & Hp). pose proof (spc_pos Hg) as Hspc. pose proof (cluster_bytes_ok Hg) as Hcb. revert c l Hp remaining off.
  induction m as [|m IH]; intros c l Hp remaining off Hm Hoff Hrem.
  all: destruct l as [|x l]; simpl in Hm, Hp; [|try lia].
  1-2: replace remaining with 0 by (simpl in Hrem; lia); cbn [read_loop Z.ltb Z.compare andb]; unfold field; by destruct (Z.to_nat off).
  destruct Hp as (-> & Hin & Hp). cbn [read_loop]. destruct (cdata_length g Hg n d x (proj1 Hr) Hin) as [Hlen _].
  replace (x <? FAT32_END_OF_CHAIN) with true by (destruct Hg; unfold in_table, entries in *; lia).
  destruct (Z.ltb_spec 0 remaining) as [Hpos|Hz]; cbn [andb].
  2:{ replace remaining with 0 by lia. unfold field. by rewrite take_0. }
  rewrite (read_cluster_ok g Hg n) by done. rewrite Hcb. cbn zeta.
  set (chunk := if remaining <? _ then remaining else _).
  assert (Hchunk : 0 < chunk <= remaining /\ chunk <= Z.of_nat (csize g) - off /\ (chunk < Z.of_nat (csize g) - off -> chunk = remaining))
    by (unfold chunk; destruct (remaining <? _) eqn:?; lia).
  rewrite (next_ok g Hg n) by done. cbn [length] in Hrem.
  rewrite (IH _ l Hp (remaining - chunk) 0) by (done || lia). cbn [mbind option_bind]. f_equal. cbn [fmap list_fmap concat].
  unfold field. rewrite drop_0. rewrite (drop_app_le (cdata g d x)) by lia.
  destruct (decide (chunk < Z.of_nat (csize g) - off)).
  - replace (remaining - chunk) with 0 by lia. rewrite take_0, app_nil_r. replace chunk with remaining by lia.
    rewrite take_app_le by (rewrite length_drop; lia). done.
  - rewrite (take_ge (drop _ _)) by (rewrite length_drop; lia).
    rewrite take_app_ge by (rewrite length_drop; lia). f_equal. f_equal. rewrite length_drop. lia.
Qed.

Lemma skip_loop_spec n m g d c l skip :
  geo_ok p psize g -> running n d -> chain g d c l -> 0 <= skip < Z.of_nat (length l) -> (length l <= m)%nat ->
  exists c', skip_loop m g skip c d = Some c' /\ chain g d c' (drop (Z.to_nat skip) l) /\ in_table g c'.
Proof.
  intros Hg Hr (e & He & Hp). revert c l Hp skip. induction m as [|m IH]; intros c l Hp skip Hskip Hm; [lia|].
  destruct l as [|x l]; [simpl in Hskip; lia|]. pose proof Hp as Hp0. destruct Hp as (-> & Hin & Hp). cbn [skip_loop].
  replace (x <? FAT32_END_OF_CHAIN) with true by (destruct Hg; unfold in_table, entries in *; lia).
  destruct (Z.ltb_spec 0 skip) as [Hpos|Hz]; cbn [andb].
  - rewrite (next_ok g Hg n) by done. cbn [length] in Hskip, Hm. destruct (IH _ l Hp (skip - 1)) as (c' & E & Hc & Hi); [lia|lia|].
    exists c'. split; [done|]. split; [|done]. replace (Z.to_nat skip) with (S (Z.to_nat (skip - 1))) by lia. done.
  - exists x. replace skip with 0 by lia. split; [done|]. split; [|done]. by exists e.
Qed.

End Reading.
