(* ===== verification/FatWrite.v ===== *)
(** * FAT32: writing and deleting

    The data loop, the free slot, the new entry and the transactions of
    [fat32_write_file] and [fat32_delete_file], on a sound volume. *)

From S2P Require Import Prelude Bytes Fat FatSpec FatChain FatDir FatFiles.
Local Open Scope Z_scope.
Local Open Scope machine_scope.

Section Writing.
Context {D : Type} `{!Blocks D} {p psize : Z} `{!BlocksLaws D p psize}.
Implicit Types (g : fat32_t) (d : D) (c : Z) (n : nat) (e : fat_dirent_t).

(** ** The data *)

Lemma fat_write_loop_spec n m g d c l src :
  geo_ok p psize g -> running (S n) d -> chain g d c l -> (length l <= m)%nat -> (length src <= length l * csize g)%nat ->
  Forall is_u8 src ->
  exists ok d', write_loop m g c src d = Some (ok, d') /\ running (S n) d' /\ frame g nothing (fun x => x ∈ l) d d' /\
    (ok = true -> take (length src) (concat (cdata g d' <$> l)) = src).
Proof.
  intros Hg Hr (e & He & Hp). pose proof (cluster_bytes_ok Hg) as Hcb. revert d c l src Hr Hp.
  induction m as [|m IH]; intros d c l src Hr Hp Hm Hlen Hb.
  all: destruct l as [|x l]; simpl in Hm, Hp; [|try lia].
  1-2: subst c; unfold is_end in He; cbn [write_loop]; replace (e <? FAT32_END_OF_CHAIN) with false by lia;
    exists true, d; (split; [done|]); (split; [done|]); (split; [apply frame_refl|]); intros _; by destruct src; simpl in Hlen; [|lia].
  pose proof (path_NoDup (in_table g) (fatv g d) c (x :: l) e (end_out g e Hg He) Hp) as [Hx Hnd]%NoDup_cons.
  destruct Hp as (-> & Hin & Hp). cbn [write_loop]. cbn zeta.
  replace (x <? FAT32_END_OF_CHAIN) with true by (destruct Hg; unfold in_table, entries in *; lia). rewrite Hcb.
  set (chunk := Z.to_nat (if _ <? _ then _ else _)).
  assert (Hchunk : chunk = Nat.min (length src) (csize g)) by (unfold chunk; destruct (_ <? _) eqn:?; lia).
  rewrite Nat2Z.id. set (buf := take chunk src ++ replicate (csize g - chunk) 0).
  assert (Hbuf : length buf = csize g) by (unfold buf; rewrite length_app, length_take, length_replicate; lia).
  assert (Hbb : Forall is_u8 buf) by (apply Forall_app; split; [by apply Forall_take|by apply Forall_replicate]).
  destruct (rust_journal_write_sectors _ _ buf d) as [ok d1] eqn:Ew.
  destruct (write_cluster_spec g Hg n d x buf ok d1 Hr Hin Hbuf Hbb Ew) as (Hr1 & _ & Hf1 & Hok & _).
  assert (Hf1' : frame g nothing (fun y => y ∈ x :: l) d d1).
  { eapply frame_weaken; [exact Hf1|done|]. intros ? <-. by left. }
  destruct ok; cbn [negb]; [|exists false, d1; split; [done|]; split; [done|]; by split]. specialize (Hok eq_refl).
  pose proof (path_Forall _ _ _ _ _ Hp) as Hall. rewrite Forall_forall in Hall.
  assert (Hp1 : path (in_table g) (fatv g d1) (fatv g d1 x) l e).
  { rewrite (proj1 Hf1 x Hin) by auto. eapply path_ext; [|exact Hp]. intros y Hy. apply (proj1 Hf1); auto. }
  rewrite (next_ok g Hg (S n)) by done. cbn [length] in Hlen.
  destruct (IH d1 _ l (drop chunk src) Hr1 Hp1) as (ok2 & d2 & -> & Hr2 & Hf2 & Hok2);
    [lia|rewrite length_drop; lia|by apply Forall_drop|].
  exists ok2, d2. split; [done|]. split; [done|]. split.
  { eapply frame_trans; [done|]. eapply frame_weaken; [exact Hf2|done|]. intros y Hy. by right. }
  intros Ht. specialize (Hok2 Ht). rewrite fmap_cons. cbn [concat]. rewrite (proj2 Hf2 x Hin Hx), Hok.
  rewrite length_drop in Hok2. destruct (decide (length src <= csize g)%nat).
  - rewrite take_app_le by lia. unfold buf. replace chunk with (length src) by lia. rewrite (take_ge src) by lia. by rewrite take_app_length.
  - rewrite take_app_ge by lia. replace (length src - length buf)%nat with (length src - chunk)%nat by lia. rewrite Hok2.
    unfold buf. replace (csize g - chunk)%nat with 0%nat by lia. cbn [replicate]. rewrite app_nil_r. apply take_drop.
Qed.

(** ** A free slot *)

Lemma zero_slots g d c n :
  geo_ok p psize g -> cdata g d c = zero_cluster g -> level n d -> Forall (fun e => name0 e = 0) (slots g d c).
Proof.
  intros Hg Hz Hl. destruct (width_ok g Hg) as (_ & Hw & Hcs). apply Forall_lookup. intros i e Hi.
  assert (i < width g)%nat by (apply lookup_lt_Some in Hi; by rewrite length_slots in Hi).
  rewrite slots_lookup in Hi by done. simplify_eq. rewrite Hz. unfold zero_cluster. rewrite (cluster_bytes_ok Hg), Nat2Z.id.
  rewrite name0_at by (rewrite length_replicate; lia). apply lookup_total_replicate_2. lia.
Qed.

Lemma clean_append A B : no_end A -> Forall (fun e => name0 e = 0) B -> clean (A ++ B).
Proof.
  intros HA HB i j e e' Hi Hj Hij H0. unfold no_end in HA. rewrite Forall_lookup in HA, HB.
  apply lookup_app_Some in Hi as [Hi|[Hi _]]; [exfalso; by eapply HA|].
  apply lookup_app_Some in Hj as [Hj|[_ Hj]]; [apply lookup_lt_Some in Hj; lia|by eapply HB].
Qed.

(** The directory gets one more, zeroed cluster. *)
Lemma volume_extend n g d d' rl ls x :
  geo_ok p psize g -> level n d' -> volume g d rl ls -> no_end (dir g d rl) -> x ∉ rl ++ concat ls ->
  chain g d' (root_cluster g) (rl ++ [x]) -> cdata g d' x = zero_cluster g ->
  (forall y, y ∈ concat ls -> fatv g d' y = fatv g d y) -> (forall y, y ∈ rl ++ concat ls -> cdata g d' y = cdata g d y) ->
  volume g d' (rl ++ [x]) ls /\ listing g d' (rl ++ [x]) ls = listing g d rl ls /\
  dir g d' (rl ++ [x]) = dir g d rl ++ slots g d' x.
Proof.
  intros Hg Hl [Hroot Howns Hnd Hnames Hclean] Hne Hx Hch Hz Hf Hd.
  pose proof (zero_slots g d' x n Hg Hz Hl) as Hzero.
  assert (Hdir : dir g d' (rl ++ [x]) = dir g d rl ++ slots g d' x).
  { unfold dir at 1. rewrite fmap_app, concat_app. cbn. rewrite app_nil_r. f_equal. apply dir_frame. intros y Hy. apply Hd. set_solver. }
  assert (Hlive : live (dir g d' (rl ++ [x])) = live (dir g d rl)) by (by rewrite Hdir, live_app, (live_ended (slots g d' x)), app_nil_r).
  split; [split|split; [|done]].
  - done.
  - rewrite Hlive. eapply Forall2_impl_elem; [done|]. intros e l Hle. apply owns_ext. intros y Hy. apply Hf. by eapply elem_concat.
  - rewrite <- app_assoc. simpl. rewrite <- Permutation_middle. by constructor.
  - by rewrite Hlive.
  - rewrite Hdir. by apply clean_append.
  - unfold listing. rewrite Hlive. apply zip_with_ext_elem. intros e l Hle. f_equal. apply content_frame. intros y Hy.
    apply Hd, elem_of_app. right. by eapply elem_concat.
Qed.

(** What the search for a slot may do to the disk: nothing to the clusters in use but
    lengthen the directory. *)
Definition slot_step g d d' (rl rl' : list Z) (ls : list (list Z)) : Prop :=
  volume g d' rl' ls /\ listing g d' rl' ls = listing g d rl ls /\
  (forall x, x ∈ rl' -> x ∈ rl \/ free_in g d x) /\
  (forall x, in_table g x -> fatv g d x <> 0 -> x ∉ rl -> fatv g d' x = fatv g d x) /\
  (forall x, in_table g x -> fatv g d x <> 0 -> cdata g d' x = cdata g d x).

(** [k] is the first free slot, at [loc]. *)
Definition free_slot g d (rl : list Z) (loc : Z * nat) : Prop :=
  exists k old, place g rl k = loc /\ dir g d rl !! k = Some old /\ is_free old = true /\ no_end (take k (dir g d rl)).

Lemma slot_step_frame g T C d d' rl ls :
  geo_ok p psize g -> volume g d rl ls -> frame g T C d d' ->
  (forall x, T x -> free_in g d x) -> (forall x, C x -> free_in g d x) -> slot_step g d d' rl rl ls.
Proof.
  intros Hg Hv Hf HT HC. destruct (volume_frame g T C d d' rl ls Hg Hf) as [Hv' Hl]; [|done|].
  { intros x Hx. destruct (volume_chains g d rl ls x Hg Hv Hx) as [_ Hn]. split; intros H; [by apply Hn, HT|by apply Hn, HC]. }
  split; [done|]. split; [done|]. split; [by left|]. split.
  - intros x Hx Hn _. apply (proj1 Hf); [done|]. intros H. by apply Hn, HT.
  - intros x Hx Hn. apply (proj2 Hf); [done|]. intros H. by apply Hn, HC.
Qed.

Lemma root_not_nil g d rl : geo_ok p psize g -> chain g d (root_cluster g) rl -> exists r0 x, rl = r0 ++ [x].
Proof.
  intros Hg (e & He & Hp). destruct rl as [|y rl _] using rev_ind; [|by eauto]. simpl in Hp.
  destruct Hg. unfold is_end in He. lia.
Qed.

Lemma length_dir g d rl : length (dir g d rl) = (length rl * width g)%nat.
Proof.
  unfold dir. induction rl as [|x rl IH]; [done|]. rewrite fmap_cons. cbn [concat length].
  rewrite length_app, length_slots, IH. lia.
Qed.

(** The directory with its new cluster. *)
Lemma extended n g d d' r0 last1 ls x (slot : option (Z * nat)) :
  geo_ok p psize g -> level n d' -> volume g d (r0 ++ [last1]) ls -> no_end (dir g d (r0 ++ [last1])) ->
  in_table g x -> free_in g d x -> is_end (fatv g d' x) -> fatv g d' last1 = x ->
  (forall y, in_table g y -> fatv g d y <> 0 -> y <> last1 -> fatv g d' y = fatv g d y) ->
  (forall y, in_table g y -> fatv g d y <> 0 -> cdata g d' y = cdata g d y) -> cdata g d' x = zero_cluster g ->
  slot = Some (x, 0%nat) \/ slot = None ->
  slot_step g d d' (r0 ++ [last1]) ((r0 ++ [last1]) ++ [x]) ls /\
  match slot with Some loc => free_slot g d' ((r0 ++ [last1]) ++ [x]) loc | None => True end.
Proof.
  intros Hg Hl Hv Hne Hin Hx0 Hend Hlast HT HC Hz Hslot. pose proof (fun y => volume_chains g d (r0 ++ [last1]) ls y Hg Hv) as Hused.
  assert (Hxn : x ∉ (r0 ++ [last1]) ++ concat ls) by (intros Hx; by apply Hused in Hx as [_ ?]).
  pose proof (vol_apart _ _ _ _ Hv) as Hap. apply NoDup_app in Hap as (Hnd & Hdis & _).
  destruct (volume_extend n g d d' (r0 ++ [last1]) ls x) as (Hv' & Hlist & Hdir); try done.
  - rewrite <- app_assoc. apply (chain_snoc g d); [done|apply Hv|done|done|done|].
    intros y Hy Hyl. apply HT; [apply Hused; set_solver|apply Hused; set_solver|done].
  - intros y Hy. apply HT; [apply Hused; set_solver|apply Hused; set_solver|]. intros ->. apply (Hdis last1); [set_solver|done].
  - intros y Hy. apply HC; by apply Hused.
  - split; [split; [done|split; [done|split; [|split]]]|].
    + intros y [?|Hy]%elem_of_app; [by left|right]. by apply list_elem_of_singleton in Hy as ->.
    + intros y Hy Hn Hyr. apply HT; [done|done|]. intros ->. apply Hyr. set_solver.
    + done.
    + destruct Hslot as [-> | ->]; [|done]. destruct (width_ok g Hg) as (_ & Hw & _).
      exists (length (dir g d (r0 ++ [last1]))), (dirent_at (cdata g d' x) 0). rewrite Hdir, take_app_length.
      rewrite lookup_app_r, Nat.sub_diag by lia. rewrite slots_lookup by done. rewrite length_dir. split; [|split; [done|split; [|done]]].
      * unfold place. rewrite Nat.div_mul, Nat.Div0.mod_mul by lia. f_equal. apply list_lookup_total_correct.
        rewrite lookup_app_r, Nat.sub_diag by lia. done.
      * pose proof (zero_slots g d' x n Hg Hz Hl) as Hzs. rewrite Forall_lookup in Hzs.
        pose proof (Hzs 0%nat _ (slots_lookup g d' x 0 Hw)) as H0. unfold is_free. cbn in H0 |- *. by rewrite H0.
Qed.

(** The end of [find_free_slot]: the directory is full. *)
Lemma extend_spec n g d rl ls r0 last1 :
  geo_ok p psize g -> running (S n) d -> volume g d rl ls -> rl = r0 ++ [last1] -> no_end (dir g d rl) ->
  exists slot h d',
    (let '(new_cluster, g, d) := alloc_cluster_chain 1 g d in
     if new_cluster =? 0 then Some (None, g, d)
     else
       let '(ok, d) := rust_journal_write_sectors (cluster_to_lba g new_cluster) (spc g) (zero_cluster g) d in
       if negb ok then Some (None, g, d)
       else
         let '(ok, d) := fat_set_next_cluster g last1 new_cluster d in
         if negb ok then Some (None, g, d) else Some (Some (new_cluster, 0%nat), g, d)) = Some (slot, set_hint h g, d') /\
    running (S n) d' /\ exists rl', slot_step g d d' rl rl' ls /\ match slot with Some loc => free_slot g d' rl' loc | None => True end.
Proof.
  intros Hg Hr Hv Hrl Hne. destruct (alloc_cluster_chain 1 g d) as [[nc g1] d1] eqn:Ea.
  destruct (alloc_spec n 1 g d nc g1 d1 Hg Hr Ea) as ([h ->] & Hr1 & Hf1 & Hnc).
  destruct (Z.eqb_spec nc 0) as [->|Hnz].
  { exists None, h, d1. split; [done|]. split; [done|]. exists rl. split; [|done]. by apply (slot_step_frame g (free_in g d) nothing). }
  destruct Hnc as [|(l & Hl & Hch & Hfree)]; [done|]. destruct l as [|x [|]]; simplify_eq/=. clear Hl.
  destruct Hch as (e & He & (-> & Hin & Hend)). simpl in Hend. assert (Hx0 : free_in g d x) by (apply Hfree; by left).
  assert (Hz : length (zero_cluster g) = csize g) by (unfold zero_cluster; by rewrite length_replicate, (cluster_bytes_ok Hg), Nat2Z.id).
  change (zero_cluster (set_hint h g)) with (zero_cluster g). change (spc (set_hint h g)) with (spc g).
  change (cluster_to_lba (set_hint h g) x) with (cluster_to_lba g x).
  destruct (rust_journal_write_sectors (cluster_to_lba g x) (spc g) (zero_cluster g) d1) as [ok d2] eqn:Ew.
  destruct (write_cluster_spec g Hg n d1 x (zero_cluster g) ok d2 Hr1 Hin Hz) as (Hr2 & _ & Hf2 & Hok & _); [by apply Forall_replicate|done|].
  assert (Hf12 : frame g (free_in g d) (eq x) d d2).
  { eapply frame_trans; (eapply frame_weaken; [done|done|done]). }
  destruct ok; cbn [negb].
  2:{ exists None, h, d2. split; [done|]. split; [done|]. exists (r0 ++ [last1]). split; [|done].
      apply (slot_step_frame g (free_in g d) (eq x)); [done|done|done|done|by intros ? <-]. }
  specialize (Hok eq_refl). destruct (fat_set_next_cluster (set_hint h g) last1 x d2) as [ok3 d3] eqn:E3.
  assert (Hlast : in_table g last1 /\ fatv g d last1 <> 0) by (apply (volume_chains g d (r0 ++ [last1]) ls last1 Hg Hv); set_solver).
  destruct (set_next_spec (set_hint h g) (geo_hint g h Hg) n d2 last1 x ok3 d3 Hr2 (proj1 Hlast) E3) as (Hr3 & _ & Hf3 & Hv3 & _).
  change (frame g (eq last1) nothing d2 d3) in Hf3. change (fatv (set_hint h g)) with (fatv g) in Hv3.
  assert (HT : forall y, in_table g y -> fatv g d y <> 0 -> y <> last1 -> fatv g d3 y = fatv g d y).
  { intros y Hy Hn Hne'. rewrite (proj1 Hf3), (proj1 Hf12); [done|done|by intros ?|done|by intros <-]. }
  assert (HC : forall y, in_table g y -> fatv g d y <> 0 -> cdata g d3 y = cdata g d y).
  { intros y Hy Hn. rewrite (proj2 Hf3), (proj2 Hf12); [done|done|by intros <-|done|by intros ?]. }
  exists (if ok3 then Some (x, 0%nat) else None), h, d3. split; [by destruct ok3|]. split; [done|].
  rewrite low28_small in Hv3 by (destruct Hg; unfold in_table, entries, FAT32_END_OF_CHAIN in *; lia).
  pose proof (fun y => volume_chains g d (r0 ++ [last1]) ls y Hg Hv) as Hused.
  destruct Hv3 as [Hv3|[-> Hv3]].
  - exists ((r0 ++ [last1]) ++ [x]).
    apply (extended (S n) g d d3 r0 last1 ls x); [done|apply Hr3|done|done|done|done| |done|done|done| |by destruct ok3; [left|right]].
    + rewrite (proj1 Hf3 x Hin), (proj1 Hf2 x Hin); [by rewrite Hend|by intros ?|]. intros <-. by apply Hlast.
    + by rewrite (proj2 Hf3 x Hin) by by intros ?.
  - exists (r0 ++ [last1]). split; [|done]. apply (slot_step_frame g (free_in g d) (eq x)); [done|done| |done|by intros ? <-].
    split; [|intros y Hy Hn; rewrite (proj2 Hf3), (proj2 Hf12); [done|done|done|done|by intros ?]].
    intros y Hy Hn. destruct (decide (y = last1)) as [->|]; [|by apply HT]. rewrite Hv3. by apply (proj1 Hf12).
Qed.

Lemma find_free_slot_spec n g d rl ls :
  geo_ok p psize g -> running (S n) d -> volume g d rl ls ->
  exists slot h d', find_free_slot g d = Some (slot, set_hint h g, d') /\ running (S n) d' /\
    exists rl', slot_step g d d' rl rl' ls /\ match slot with Some loc => free_slot g d' rl' loc | None => True end.
Proof.
  intros Hg Hr Hv. pose proof (vol_root _ _ _ _ Hv) as Hch. destruct (root_not_nil g d rl Hg Hch) as (r0 & x & Hrl).
  unfold find_free_slot. replace (root_cluster g <? FAT32_END_OF_CHAIN) with true by (destruct Hg; lia).
  rewrite (slot_loop_spec (S n) (fuel g) g d _ rl) by (done || (rewrite Hrl; by destruct r0) || (pose proof (chain_fuel _ _ _ _ Hg Hch); lia)).
  cbn [mbind option_bind]. destruct (position is_free (dir g d rl)) as [k|] eqn:Ek.
  - destruct (place g rl k) as [c off] eqn:Ep. exists (Some (c, off)), (next_free_cluster_hint g), d.
    split; [by destruct g|]. split; [done|]. exists rl. split.
    + apply (slot_step_frame g nothing nothing); [done|done|apply frame_refl|by intros ?|by intros ?].
    + destruct (position_free_no_end _ _ Ek) as (Hne & old & Hk & Hf). by exists k, old.
  - rewrite Hrl, last_snoc. cbn [default]. rewrite <- Hrl. apply (extend_spec n g d rl ls r0 x Hg Hr Hv Hrl). by apply position_full_no_end.
Qed.

(** ** The new entry *)

Lemma volume_hint g h d rl ls : volume g d rl ls <-> volume (set_hint h g) d rl ls.
Proof. split; intros [H1 H2 H3 H4 H5]; split; assumption. Qed.

Lemma abandon_spec n g d c l :
  geo_ok p psize g -> running (S n) d -> chain g d c l ->
  exists h d', abandon_file g c d = Some (false, set_hint h g, d') /\ running (S n) d' /\ frame g (fun x => x ∈ l) nothing d d'.
Proof.
  intros Hg Hr Hch. destruct (free_chain_spec n g d c l Hg Hr (or_intror Hch)) as (h & d' & E & Hr' & Hf).
  exists h, d'. unfold abandon_file. rewrite E. by split.
Qed.

(** Giving up leaves the volume as it was before the clusters were taken. *)
Lemma abandon_volume n g d c l rl ls :
  geo_ok p psize g -> running (S n) d -> volume g d rl ls -> chain g d c l -> (forall x, x ∈ l -> x ∉ rl ++ concat ls) ->
  exists h d', abandon_file g c d = Some (false, set_hint h g, d') /\ running (S n) d' /\
    volume g d' rl ls /\ listing g d' rl ls = listing g d rl ls.
Proof.
  intros Hg Hr Hv Hch Hout. destruct (abandon_spec n g d c l Hg Hr Hch) as (h & d' & E & Hr' & Hf). exists h, d'.
  split; [done|]. split; [done|]. apply (volume_frame g (fun x => x ∈ l) nothing d); [done|done| |done].
  intros x Hx. split; [|by intros ?]. intros Hxl. by apply (Hout x).
Qed.

Lemma place_elem g d rl k old :
  geo_ok p psize g -> dir g d rl !! k = Some old -> (place g rl k).1 ∈ rl /\ ((place g rl k).2 + 32 <= csize g)%nat.
Proof.
  intros Hg Hk. destruct (width_ok g Hg) as (_ & Hw & Hcs). rewrite dir_lookup in Hk by done. unfold place. cbn.
  destruct (rl !! (k / width g)%nat) as [c|] eqn:E; [|done]. rewrite (list_lookup_total_correct _ _ _ E).
  split; [by eapply list_elem_of_lookup_2|]. pose proof (Nat.mod_upper_bound k (width g)). lia.
Qed.

(** The entry is written into its slot. *)
Lemma enter_file n g d d' rl ls l loc name first data :
  geo_ok p psize g -> running n d -> volume g d rl ls -> free_slot g d rl loc ->
  length name = 11%nat -> name !!! 0%nat <> 0 -> name !!! 0%nat <> 0xE5 ->
  Z.of_nat (length data) < 4294967296 -> in_table g first -> name ∉ (listing g d rl ls).*1 ->
  chain g d first l -> (length data <= length l * csize g)%nat -> take (length data) (concat (cdata g d <$> l)) = data ->
  (forall x, x ∈ l -> x ∉ rl ++ concat ls) ->
  frame g nothing (eq loc.1) d d' ->
  cdata g d' loc.1 = put_bytes (cdata g d loc.1) loc.2 (new_dirent name first (Z.of_nat (length data))) ->
  exists ls', volume g d' rl ls' /\ listing g d' rl ls' ≡ₚ (name, data) :: listing g d rl ls.
Proof.
  intros Hg Hr Hv (k & old & <- & Hk & Hfree & Hne) Hname Hn0 Hn5 Hlt Hfirst Hnew Hch Hcap Hdata Hout Hf Hc.
  assert (Hfu : is_u32 first) by (destruct Hg; unfold in_table, entries, FAT32_END_OF_CHAIN, is_u32 in *; lia).
  pose proof (vol_apart _ _ _ _ Hv) as (Hndr & Hdis & _)%NoDup_app. destruct (place_elem g d rl k old Hg Hk) as [Hin Hoff].
  pose proof (fun y => volume_chains g d rl ls y Hg Hv) as Hused. set (e := file_entry name first (Z.of_nat (length data))).
  assert (Hall : Forall (in_table g) rl) by (apply Forall_forall; intros y Hy; apply Hused; set_solver).
  pose proof (dir_put n g d d' rl k old (new_dirent name first (Z.of_nat (length data))) Hg (proj1 Hr) Hall Hndr Hk) as Hput.
  rewrite length_new_dirent in Hput by done. specialize (Hput ltac:(lia)). destruct (place g rl k) as [c off] eqn:Ep. cbn [fst snd] in *.
  destruct (cdata_length g Hg n d c (proj1 Hr)) as [Hclen _]; [by apply Hused; set_solver|].
  destruct (Hput Hc) as (_ & _ & _ & Hdir).
  { intros x Hx Hxc. apply (proj2 Hf); [apply Hused; set_solver|]. by intros ->. }
  rewrite dirent_at_field in Hdir. replace 32%nat with (length (new_dirent name first (Z.of_nat (length data)))) in Hdir by by apply length_new_dirent.
  rewrite field_put_same, dirent_new in Hdir by (done || (rewrite length_new_dirent by done; lia) || (unfold is_u32; lia)). fold e in Hdir.
  assert (Hcd : forall x, x ∈ l \/ x ∈ concat ls -> cdata g d' x = cdata g d x).
  { intros x Hx. apply (proj2 Hf).
    - destruct Hx as [Hx|Hx]; [|apply Hused; set_solver]. apply chain_Forall in Hch. rewrite Forall_forall in Hch. auto.
    - intros <-. destruct Hx as [Hx|Hx]; [by apply (Hout c Hx), elem_of_app; left|by apply (Hdis c)]. }
  assert (Hfv : forall x, in_table g x -> fatv g d' x = fatv g d x) by (intros x Hx; apply (proj1 Hf); [done|by intros ?]).
  destruct (volume_add g d d' rl ls k old e l Hv) as (ls' & Hv' & Hp); try done.
  - intros x Hx. apply Hfv. by apply Hused.
  - intros x Hx. apply Hcd. by right.
  - unfold skipped, e, file_entry. cbn. by replace (name !!! 0%nat =? 229) with false by lia.
  - split; [right|simpl; lia]. unfold e. rewrite first_cluster_file by done. apply (chain_ext g d); [|done].
    intros x Hx. apply Hfv. apply chain_Forall in Hch. rewrite Forall_forall in Hch. auto.
  - by eapply chain_NoDup.
  - by rewrite <- (listing_names g d rl ls Hv).
  - exists ls'. split; [done|]. rewrite Hp. unfold e at 1 2. cbn [d_name file_entry].
    replace (content g d' _ l) with data; [done|]. rewrite (content_frame g d) by (intros x Hx; apply Hcd; by left).
    unfold content. cbn. by rewrite Nat2Z.id, Hdata.
Qed.

End Writing.
