(* ===== verification/FatOps.v ===== *)
(** * FAT32: the transactions

    What happens between the start and the commit of [fat32_write_file] and
    [fat32_delete_file]. *)

From S2P Require Import Prelude Bytes Fat FatSpec FatChain FatDir FatFiles FatWrite.
Local Open Scope Z_scope.
Local Open Scope machine_scope.

Section Transactions.
Context {D : Type} `{!Blocks D} {p psize : Z} `{!BlocksLaws D p psize}.
Implicit Types (g : fat32_t) (d : D) (c : Z) (n : nat) (e : fat_dirent_t).

(** A name that can be entered. *)
Definition raw_ok (name : list Z) : Prop :=
  length name = 11%nat /\ Forall is_u8 name /\ name !!! 0%nat <> 0 /\ name !!! 0%nat <> 0xE5.

(** How a transaction ended: the volume holds the listing [after], if it succeeded or
    clusters have one sector each. *)
Definition ended g d' (ok : bool) (after : list (list Z * list Z)) : Prop :=
  ok = true \/ spc g = 1%nat -> exists rl ls, volume g d' rl ls /\ listing g d' rl ls ≡ₚ after.

Lemma write_entry_spec n g d rl ls name first l data :
  geo_ok p psize g -> running (S n) d -> volume g d rl ls -> raw_ok name -> Z.of_nat (length data) < 4294967296 ->
  in_table g first -> name ∉ (listing g d rl ls).*1 -> chain g d first l -> (length data <= length l * csize g)%nat ->
  take (length data) (concat (cdata g d <$> l)) = data -> (forall x, x ∈ l -> x ∉ rl ++ concat ls) ->
  exists ok h d', write_entry g name first (Z.of_nat (length data)) d = Some (ok, set_hint h g, d') /\ running (S n) d' /\
    ended g d' ok (if ok then (name, data) :: listing g d rl ls else listing g d rl ls).
Proof.
  intros Hg Hr Hv (Hlen & Hbytes & Hn0 & Hn5) Hlt Hfirst Hnew Hch Hcap Hdata Hout. unfold write_entry.
  destruct (find_free_slot_spec n g d rl ls Hg Hr Hv) as (slot & h & d1 & -> & Hr1 & rl' & (Hv1 & Hl1 & Hrl & HT & HC) & Hslot).
  cbn [mbind option_bind]. pose proof (geo_hint g h Hg) as Hgh.
  assert (Hl : forall x, x ∈ l -> in_table g x /\ fatv g d x <> 0 /\ x ∉ rl).
  { intros x Hx. split; [apply chain_Forall in Hch; rewrite Forall_forall in Hch; auto|].
    split; [by eapply chain_used|]. intros Hxr. apply (Hout x Hx). set_solver. }
  assert (Hch1 : chain g d1 first l) by (apply (chain_ext g d); [|done]; intros x Hx; apply HT; by apply Hl).
  assert (Hout1 : forall x, x ∈ l -> x ∉ rl' ++ concat ls).
  { intros x Hx [Hxr|Hxl]%elem_of_app; [|apply (Hout x Hx); set_solver]. destruct (Hl x Hx) as (_ & Hn & Hnr). by destruct (Hrl x Hxr). }
  assert (Hgive : forall d2, running (S n) d2 -> chain g d2 first l -> (spc g = 1%nat -> volume g d2 rl' ls /\ listing g d2 rl' ls = listing g d1 rl' ls) ->
    exists ok h' d', abandon_file (set_hint h g) first d2 = Some (ok, set_hint h' g, d') /\ running (S n) d' /\
      ended g d' ok (if ok then (name, data) :: listing g d rl ls else listing g d rl ls)).
  { intros d2 Hr2 Hch2 Hv2. destruct (abandon_spec n (set_hint h g) d2 first l Hgh Hr2 Hch2) as (h' & d' & E & Hr' & Hf).
    exists false, h', d'. split; [done|]. split; [done|]. intros [?|H1]; [done|]. destruct (Hv2 H1) as [Hv2' Hl2].
    exists rl', ls. destruct (volume_frame g (fun x => x ∈ l) nothing d2 d' rl' ls Hg Hf) as [Hv3 Hl3]; [|done|].
    - intros x Hx. split; [|by intros ?]. intros Hxl. by apply (Hout1 x).
    - split; [done|]. by rewrite Hl3, Hl2, Hl1. }
  destruct slot as [[c off]|]; [|by apply Hgive].
  pose proof Hslot as (k & old & Hplace & Hk & _ & _). destruct (place_elem g d1 rl' k old Hg Hk) as [Hin Hoff].
  rewrite Hplace in Hin, Hoff. cbn [fst snd] in Hin, Hoff.
  assert (Hcin : in_table g c) by (apply (volume_chains g d1 rl' ls c Hg Hv1); set_solver).
  change (cluster_to_lba (set_hint h g) c) with (cluster_to_lba g c). change (spc (set_hint h g)) with (spc g).
  rewrite (read_cluster_ok g Hg (S n)) by done. destruct (cdata_length g Hg (S n) d1 c (proj1 Hr1) Hcin) as [Hcl Hcb].
  set (buf := put_bytes _ _ _). pose proof (length_new_dirent name first (Z.of_nat (length data)) Hlen) as Hnd.
  assert (Hbl : length buf = csize g) by (unfold buf; rewrite length_put_bytes; lia).
  assert (Hbb : Forall is_u8 buf) by (apply put_bytes_bytes; [done|by apply new_dirent_bytes]).
  destruct (rust_journal_write_sectors (cluster_to_lba g c) (spc g) buf d1) as [ok d2] eqn:Ew.
  destruct (write_cluster_spec g Hg n d1 c buf ok d2 Hr1 Hcin Hbl Hbb Ew) as (Hr2 & _ & Hf2 & Hok & Hone).
  destruct ok; cbn [negb].
  - exists true, h, d2. split; [done|]. split; [done|]. intros _. specialize (Hok eq_refl).
    destruct (enter_file (S n) g d1 d2 rl' ls l (c, off) name first data) as (ls' & Hv' & Hp); try done.
    + by rewrite Hl1.
    + rewrite <- Hdata at 2. do 2 f_equal. apply list_fmap_ext. intros i x Hx%list_elem_of_lookup_2. apply HC; by apply Hl.
    + exists rl', ls'. split; [done|]. by rewrite Hp, Hl1.
  - apply Hgive; [done| |].
    + apply (chain_ext g d1); [|done]. intros x Hx. apply (proj1 Hf2); [by apply Hl|by intros ?].
    + intros H1. specialize (Hone eq_refl H1). apply (volume_frame g nothing nothing d1); [done|done| |done]. by intros x _; split; intros ?.
Qed.

Lemma clusters_needed_ok g size :
  geo_ok p psize g -> 0 <= size < 4294967296 ->
  let k := if size =? 0 then 1 else (size +₃₂ (cluster_bytes g - 1)) / cluster_bytes g in
  k = 0 \/ 0 < k /\ size <= Z.of_nat (Z.to_nat k * csize g).
Proof.
  intros Hg Hs. rewrite (cluster_bytes_ok Hg). pose proof (spc_pos Hg) as Hspc. set (cb := Z.of_nat (csize g)).
  assert (Hcb : 512 <= cb <= 32768) by (destruct Hg; unfold cb, csize, spc in *; lia).
  destruct (Z.eqb_spec size 0) as [->|Hne]; cbn zeta; [right; lia|]. unfold wrap32.
  destruct (Z.lt_ge_cases (size + (cb - 1)) 4294967296) as [H|H].
  - right. rewrite Z.mod_small by lia. pose proof (Z.div_mod (size + (cb - 1)) cb ltac:(lia)). pose proof (Z.mod_pos_bound (size + (cb - 1)) cb ltac:(lia)).
    assert (0 < (size + (cb - 1)) / cb) by (apply Z.div_str_pos; lia). split; [done|]. rewrite Nat2Z.inj_mul, Z2Nat.id by lia. fold cb. lia.
  - left. rewrite <- (Z_mod_plus_full _ (-1)), Z.mod_small by lia. apply Z.div_small. lia.
Qed.

Lemma write_body_spec n g d rl ls name data :
  geo_ok p psize g -> running (S n) d -> volume g d rl ls -> raw_ok name -> Forall is_u8 data ->
  Z.of_nat (length data) < 4294967296 -> name ∉ (listing g d rl ls).*1 ->
  exists ok h d', write_body g name data d = Some (ok, set_hint h g, d') /\ running (S n) d' /\
    ended g d' ok (if ok then (name, data) :: listing g d rl ls else listing g d rl ls).
Proof.
  intros Hg Hr Hv Hname Hdata Hlt Hnew. unfold write_body. cbn zeta.
  pose proof (clusters_needed_ok g (Z.of_nat (length data)) Hg ltac:(lia)) as Hneed. cbn zeta in Hneed.
  set (need := if _ =? 0 then 1 else _) in *. destruct (alloc_cluster_chain need g d) as [[first g1] d1] eqn:Ea.
  destruct (alloc_spec n need g d first g1 d1 Hg Hr Ea) as ([h ->] & Hr1 & Hf1 & Hfirst). pose proof (geo_hint g h Hg) as Hgh.
  destruct (slot_step_frame g (free_in g d) nothing d d1 rl ls Hg Hv Hf1) as (Hv1 & Hl1 & _); [done|by intros ?|].
  destruct (Z.eqb_spec first 0) as [->|Hnz].
  { exists false, h, d1. split; [done|]. split; [done|]. intros _. exists rl, ls. by rewrite Hl1. }
  destruct Hfirst as [|(l & Hll & Hch & Hfree)]; [done|].
  assert (Hout : forall x, x ∈ l -> x ∉ rl ++ concat ls).
  { intros x Hx Hin. apply (volume_chains g d rl ls x Hg Hv) in Hin as [_ Hn]. by apply Hn, Hfree. }
  assert (Hk : 0 < need /\ Z.of_nat (length data) <= Z.of_nat (Z.to_nat need * csize g)).
  { destruct Hneed as [Hk|]; [|done]. rewrite Hk in Ea. by injection Ea as <-. }
  assert (Hl0 : l <> []) by (intros ->; simpl in Hll; lia).
  assert (Hcap : (length data <= length l * csize g)%nat).
  { rewrite Hll. lia. }
  pose proof (chain_fuel _ _ _ _ Hg Hch) as Hfuel.
  destruct (fat_write_loop_spec n (fuel (set_hint h g)) (set_hint h g) d1 first l data Hgh Hr1 Hch) as (ok & d2 & -> & Hr2 & Hf2 & Hok);
    [change (fuel (set_hint h g)) with (fuel g); lia|done|done|]. cbn [mbind option_bind].
  change (frame g nothing (fun x => x ∈ l) d1 d2) in Hf2.
  destruct (volume_frame g nothing (fun x => x ∈ l) d1 d2 rl ls Hg Hf2) as [Hv2 Hl2]; [|done|].
  { intros x Hx. split; [by intros ?|]. intros Hxl. by apply (Hout x). }
  assert (Hch2 : chain g d2 first l) by (apply (chain_frame g _ _ _ _ _ _ Hf2); [by intros x _ ?|done]).
  destruct ok; cbn [negb].
  - assert (Hin : in_table g first).
    { destruct l as [|x l]; [done|]. destruct Hch as (e & _ & (-> & Hin & _)). done. }
    destruct (write_entry_spec n (set_hint h g) d2 rl ls name first l data) as (ok & h' & d3 & E & Hr3 & He); try done;
      [by apply volume_hint|change (name ∉ (listing g d2 rl ls).*1); by rewrite Hl2, Hl1|by apply Hok|].
    exists ok, h', d3. split; [done|]. split; [done|]. intros Hcase. destruct (He Hcase) as (rl' & ls' & Hv' & Hp).
    exists rl', ls'. split; [by apply volume_hint in Hv'|].
    change (listing (set_hint h g) d3 rl' ls') with (listing g d3 rl' ls') in Hp. rewrite Hp.
    change (listing (set_hint h g) d2 rl ls) with (listing g d2 rl ls). by rewrite Hl2, Hl1.
  - destruct (abandon_volume n (set_hint h g) d2 first l rl ls Hgh Hr2) as (h' & d3 & E & Hr3 & Hv3 & Hl3); [by apply volume_hint|done|done|].
    exists false, h', d3. split; [done|]. split; [done|]. intros _. exists rl, ls. split; [by apply volume_hint in Hv3|].
    change (listing g d3 rl ls = listing g d2 rl ls) in Hl3. by rewrite Hl3, Hl2, Hl1.
Qed.

(** ** Deleting *)

(** The entry is marked as deleted and its chain freed. *)
Lemma delete_body_spec n g d rl ls k e name :
  geo_ok p psize g -> running (S n) d -> volume g d rl ls -> look name (dir g d rl) = Some (Some (k, e)) ->
  let '(c, off) := place g rl k in
  exists ok h d', delete_body g c off d = Some (ok, set_hint h g, d') /\ running (S n) d' /\
    (ok = true \/ spc g = 1%nat -> exists rl' ls' after, volume g d' rl' ls' /\ listing g d' rl' ls' = after /\
      if ok then exists b, listing g d rl ls ≡ₚ (name, b) :: after else listing g d rl ls = after).
Proof.
  intros Hg Hr Hv El. destruct (look_found _ _ _ _ El) as (Hk & Hn & H0 & Hs & Hne & _).
  destruct (place_elem g d rl k e Hg Hk) as [Hin Hoff]. pose proof (fun y => volume_chains g d rl ls y Hg Hv) as Hused.
  pose proof (vol_apart _ _ _ _ Hv) as (Hndr & Hdis & _)%NoDup_app.
  assert (Hall : Forall (in_table g) rl) by (apply Forall_forall; intros y Hy; apply Hused; set_solver).
  destruct (place g rl k) as [c off] eqn:Ep. cbn [fst snd] in Hin, Hoff.
  assert (Hc : in_table g c) by (apply Hused; set_solver). unfold delete_body.
  rewrite (read_cluster_ok g Hg (S n)) by done. destruct (cdata_length g Hg (S n) d c (proj1 Hr) Hc) as [Hcl Hcb].
  set (buf := put_bytes (cdata g d c) off [229]). assert (Hbl : length buf = csize g) by (unfold buf; rewrite length_put_bytes; simpl; lia).
  assert (Hbb : Forall is_u8 buf) by (apply put_bytes_bytes; [done|by repeat constructor]).
  destruct (rust_journal_write_sectors (cluster_to_lba g c) (spc g) buf d) as [ok d1] eqn:Ew.
  destruct (write_cluster_spec g Hg n d c buf ok d1 Hr Hc Hbl Hbb Ew) as (Hr1 & _ & Hf1 & Hok & Hone).
  destruct ok; cbn [negb].
  2:{ exists false, (next_free_cluster_hint g), d1. split; [by destruct g|]. split; [done|]. intros [?|H1]; [done|].
      destruct (volume_frame g nothing nothing d d1 rl ls Hg (Hone eq_refl H1)) as [Hv1 Hl1]; [by intros x _; split; intros ?|done|].
      by exists rl, ls, (listing g d rl ls). }
  specialize (Hok eq_refl).
  pose proof (dir_put (S n) g d d1 rl k e [229] Hg (proj1 Hr) Hall Hndr Hk ltac:(simpl; lia)) as Hput. rewrite Ep in Hput.
  destruct (Hput Hok) as (_ & Hold & _ & Hdir).
  { intros x Hx Hxc. apply (proj2 Hf1); [apply Hused; set_solver|]. by intros ->. }
  set (e' := dirent_at (put_bytes (cdata g d c) off [229]) off) in *.
  assert (He' : name0 e' = 0xE5).
  { unfold e'. rewrite name0_at by (fold buf; lia). unfold put_bytes. rewrite list_lookup_total_alt.
    rewrite lookup_app_r by (rewrite length_take; lia). rewrite length_take, Nat.min_l, Nat.sub_diag by lia. done. }
  destruct (volume_remove g d d1 rl ls k e e' Hv) as (l & ls' & Hv1 & Hown & Hout & Hp); try done.
  { intros x Hx. apply (proj1 Hf1); [by apply Hused|by intros ?]. }
  { intros x Hx. apply (proj2 Hf1); [apply Hused; set_solver|]. intros <-. by apply (Hdis c). }
  rewrite <- Hold. destruct Hown as [Hown _].
  destruct (free_chain_spec n g d1 (first_cluster e) l Hg Hr1 Hown) as (h & d2 & -> & Hr2 & Hf2). cbn [mbind option_bind].
  destruct (volume_frame g (fun x => x ∈ l) nothing d1 d2 rl ls' Hg Hf2) as [Hv2 Hl2]; [|done|].
  { intros x Hx. split; [|by intros ?]. intros Hxl. by apply (Hout x). }
  exists true, h, d2. split; [done|]. split; [done|]. intros _. exists rl, ls', (listing g d2 rl ls'). split; [done|]. split; [done|].
  rewrite Hn in Hp. eexists. by rewrite Hp, Hl2.
Qed.

(** ** Maps *)

Definition sound g d : Prop := exists rl ls, volume g d rl ls.

Lemma sound_hint g h d : sound (set_hint h g) d <-> sound g d.
Proof. unfold sound. by setoid_rewrite (volume_hint g h). Qed.

Lemma files_perm g d rl ls after :
  geo_ok p psize g -> volume g d rl ls -> listing g d rl ls ≡ₚ after -> files g d = list_to_map after /\ NoDup after.*1.
Proof.
  intros Hg Hv Hp. pose proof (vol_names _ _ _ _ Hv) as Hnd. rewrite <- (listing_names g d rl ls Hv) in Hnd.
  rewrite (files_listing g d rl ls Hg Hv). split; [by apply list_to_map_proper|]. by rewrite <- Hp.
Qed.

(** ** The calls, once the directory has been searched *)

Lemma read_file_found n g d e l len :
  geo_ok p psize g -> running n d -> owns g d e l -> length (content g d e l) = Z.to_nat (file_size e) -> 0 <= len ->
  (out ← read_loop (fuel g) g (first_cluster e) (if len <? file_size e then len else file_size e) 0 d;
   Some (to_int (Z.of_nat (length out)), out, d)) =
  Some (to_int (Z.min len (Z.of_nat (length (content g d e l)))), take (Z.to_nat len) (content g d e l), d).
Proof.
  intros Hg Hr [Hch Hsz] Hl Hlen. pose proof (spc_pos Hg).
  set (r := if _ <? _ then _ else _). assert (Hrr : r = Z.min len (file_size e)) by (unfold r; destruct (_ <? _) eqn:?; lia).
  assert (E : read_loop (fuel g) g (first_cluster e) r 0 d = Some (take (Z.to_nat len) (content g d e l))).
  { destruct Hch as [[_ ->]|Hch].
    - replace r with 0 by (simpl in Hsz; lia). unfold content. cbn. rewrite !take_nil. by destruct (fuel g).
    - pose proof (chain_fuel _ _ _ _ Hg Hch). rewrite (fat_read_loop_spec n _ g d _ l) by first [done | lia | unfold csize; lia].
      unfold field, content. rewrite take_take. f_equal. f_equal. lia. }
  rewrite E. cbn [mbind option_bind]. rewrite length_take, Hl. do 4 f_equal. lia.
Qed.

Lemma read_range_found n g d e l offset len :
  geo_ok p psize g -> running n d -> owns g d e l -> length (content g d e l) = Z.to_nat (file_size e) -> 0 <= len -> 0 <= offset ->
  (if (file_size e <=? offset) || (len =? 0) then Some (0, [], d)
   else
     cluster ← skip_loop (fuel g) g (offset / cluster_bytes g) (first_cluster e) d;
     if FAT32_END_OF_CHAIN <=? cluster then Some (0, [], d)
     else
       out ← read_loop (fuel g) g cluster (if len <? file_size e - offset then len else file_size e - offset)
         (offset mod cluster_bytes g) d;
       Some (to_int (Z.of_nat (length out)), out, d)) =
  Some (let out := take (Z.to_nat len) (drop (Z.to_nat offset) (content g d e l)) in (to_int (Z.of_nat (length out)), out, d)).
Proof.
  intros Hg Hr [Hch Hsz] Hl Hlen Hoff. cbn zeta.
  destruct (Z.leb_spec (file_size e) offset) as [Hb|Hb]; cbn [orb].
  { rewrite drop_ge by lia. by rewrite take_nil. }
  destruct (Z.eqb_spec len 0) as [->|Hz]; [by rewrite take_0|].
  destruct Hch as [[_ ->]|Hch]; [simpl in Hsz; lia|]. pose proof (spc_pos Hg) as Hspc. pose proof (chain_fuel _ _ _ _ Hg Hch) as Hfuel.
  rewrite (cluster_bytes_ok Hg). set (cb := Z.of_nat (csize g)). assert (Hcb : 0 < cb) by (unfold cb, csize; lia).
  pose proof (Z.div_mod offset cb ltac:(lia)) as Hdm. pose proof (Z.mod_pos_bound offset cb ltac:(lia)) as Hmod.
  assert (Hq : 0 <= offset / cb < Z.of_nat (length l)).
  { split; [apply Z.div_pos; lia|]. apply Z.div_lt_upper_bound; [lia|]. unfold cb. lia. }
  destruct (skip_loop_spec n (fuel g) g d (first_cluster e) l (offset / cb) Hg Hr Hch Hq) as (c' & -> & Hch' & Hin); [lia|].
  cbn [mbind option_bind]. replace (FAT32_END_OF_CHAIN <=? c') with false by (destruct Hg; unfold in_table, entries in *; lia).
  set (r := if _ <? _ then _ else _). assert (Hrr : r = Z.min len (file_size e - offset)) by (unfold r; destruct (_ <? _) eqn:?; lia).
  pose proof (chain_fuel _ _ _ _ Hg Hch') as Hfuel'. set (q := Z.to_nat (offset / cb)) in *.
  assert (Hqn : Z.of_nat q = offset / cb) by (unfold q; lia).
  assert (Hlq : Z.of_nat (length (drop q l) * csize g) = Z.of_nat (length l * csize g) - cb * (offset / cb)).
  { rewrite length_drop, Nat2Z.inj_mul, Nat2Z.inj_sub by lia. rewrite Hqn. unfold cb. lia. }
  rewrite (fat_read_loop_spec n _ g d _ (drop q l)) by (done || lia). cbn [mbind option_bind].
  assert (E : field (concat (cdata g d <$> drop q l)) (Z.to_nat (offset mod cb)) (Z.to_nat r) =
    take (Z.to_nat len) (drop (Z.to_nat offset) (content g d e l))).
  { unfold field, content. rewrite fmap_drop, <- (concat_drop_clusters n g d l q) by (done || apply Hr || by eapply chain_Forall).
    rewrite drop_drop, drop_take_sub. rewrite take_take. f_equal; [|f_equal]; unfold cb in *; lia. }
  by rewrite E.
Qed.

(** A disk that reads the same holds the same volume. *)
Lemma same_volume g d d' rl ls :
  geo_ok p psize g -> (forall s, 0 <= s < psize -> view d' s = view d s) -> volume g d rl ls ->
  volume g d' rl ls /\ listing g d' rl ls = listing g d rl ls /\ dir g d' rl = dir g d rl.
Proof.
  intros Hg Hview Hv. pose proof (frame_view g Hg d d' Hview) as Hf.
  destruct (volume_frame g nothing nothing d d' rl ls Hg Hf) as [Hv' Hl]; [by intros x _; split; intros ?|done|].
  split; [done|]. split; [done|]. apply dir_frame. intros x Hx. apply (proj2 Hf); [|by intros ?].
  apply (volume_chains g d rl ls x Hg Hv). set_solver.
Qed.

Lemma sound_view g d d' :
  geo_ok p psize g -> (forall s, 0 <= s < psize -> view d' s = view d s) -> sound g d -> sound g d' /\ files g d' = files g d.
Proof.
  intros Hg Hview (rl & ls & Hv). destruct (same_volume g d d' rl ls Hg Hview Hv) as (Hv' & Hl & _).
  split; [by exists rl, ls|]. by rewrite (files_listing g d' rl ls Hg Hv'), Hl, <- (files_listing g d rl ls Hg Hv).
Qed.

(** A volume with a given listing, up to the order of the entries. *)
Lemma ended_files g d ok after :
  geo_ok p psize g -> ended g d ok after -> ok = true \/ spc g = 1%nat -> sound g d /\ files g d = list_to_map after.
Proof.
  intros Hg He Hcase. destruct (He Hcase) as (rl & ls & Hv & Hp). split; [by exists rl, ls|]. by apply (files_perm g d rl ls).
Qed.

Lemma write_new n g d name data :
  geo_ok p psize g -> running n d -> sound g d -> raw_ok name -> Forall is_u8 data -> Z.of_nat (length data) < 4294967296 ->
  files g d !! name = None ->
  forall d1, running (S n) d1 -> (forall s, 0 <= s < psize -> view d1 s = view d s) ->
  exists ok h d', write_body g name data d1 = Some (ok, set_hint h g, d') /\ running (S n) d' /\
    (ok = true \/ spc g = 1%nat -> sound g d' /\ files g d' = if ok then <[name := data]> (files g d) else files g d).
Proof.
  intros Hg Hr Hs Hname Hdata Hlt Hnone d1 Hr1 Hview. destruct (sound_view g d d1 Hg Hview Hs) as [(rl & ls & Hv) Hf].
  rewrite <- Hf in Hnone |- *. destruct (files_perm g d1 rl ls _ Hg Hv (Permutation_refl _)) as [Hfl Hnd].
  assert (Hnew : name ∉ (listing g d1 rl ls).*1) by (by apply not_elem_of_list_to_map_2; rewrite <- Hfl).
  destruct (write_body_spec n g d1 rl ls name data Hg Hr1 Hv Hname Hdata Hlt Hnew) as (ok & h & d2 & E & Hr2 & He).
  exists ok, h, d2. split; [done|]. split; [done|]. intros Hcase. destruct (ended_files g d2 ok _ Hg He Hcase) as [Hs2 ->].
  split; [done|]. rewrite Hfl. by destruct ok.
Qed.

Lemma delete_found n g d rl ls k e name :
  geo_ok p psize g -> running (S n) d -> volume g d rl ls -> look name (dir g d rl) = Some (Some (k, e)) ->
  exists ok h d', delete_body g (place g rl k).1 (place g rl k).2 d = Some (ok, set_hint h g, d') /\ running (S n) d' /\
    (ok = true \/ spc g = 1%nat -> sound g d' /\ files g d' = if ok then delete name (files g d) else files g d).
Proof.
  intros Hg Hr Hv El. pose proof (delete_body_spec n g d rl ls k e name Hg Hr Hv El) as H. destruct (place g rl k) as [c off].
  destruct H as (ok & h & d' & E & Hr' & He). exists ok, h, d'. split; [done|]. split; [done|]. intros Hcase.
  destruct (He Hcase) as (rl' & ls' & after & Hv' & Hl' & Hp). split; [by exists rl', ls'|].
  destruct (files_perm g d' rl' ls' after Hg Hv' ltac:(by rewrite Hl')) as [-> Hnd].
  destruct ok; [|destruct (files_perm g d rl ls after Hg Hv) as [-> _]; [by rewrite Hp|done]].
  destruct Hp as [b Hp]. destruct (files_perm g d rl ls _ Hg Hv Hp) as [-> [Hno _]%NoDup_cons].
  cbn [list_to_map foldr fst snd]. rewrite delete_insert_id; [done|]. by apply not_elem_of_list_to_map_1.
Qed.

(** ** Calls that change the volume *)

(** What every call does first. *)
Lemma entered n g d :
  geo_ok p psize g -> level n d -> sound g d ->
  let d1 := blockdev_set_partition_offset (partition_offset g) d in
  running n d1 /\ sound g d1 /\ files g d1 = files g d /\ mounted g = true.
Proof.
  intros Hg Hl Hs. rewrite (go_offset _ _ _ Hg). destruct (set_law n d Hl) as (H1 & H2 & H3). split; [by split|].
  destruct (sound_view g d _ Hg H3 Hs). split; [done|]. split; [done|]. apply Hg.
Qed.

Lemma walk_found n g d name :
  geo_ok p psize g -> running n d -> sound g d ->
  exists rl ls, volume g d rl ls /\
    walk_loop (fuel g) g (root_cluster g) (Some name) [] d =
      Some (match look name (dir g d rl) with Some (Some (k, e)) => Some (place g rl k, e) | _ => None end, []).
Proof.
  intros Hg Hr (rl & ls & Hv). exists rl, ls. split; [done|]. pose proof (vol_root _ _ _ _ Hv) as Hch.
  apply (walk_loop_spec n); [done|done|done|]. pose proof (chain_fuel _ _ _ _ Hg Hch). lia.
Qed.

(** The two calls, what they require of the files, and what they make of them. *)
Inductive call : Type :=
| Create (name data : list Z)
| Delete (name : list Z).

Definition do_call g (c : call) d : option (bool * fat32_t * D) :=
  match c with Create name data => fat32_write_file g name data d | Delete name => fat32_delete_file g name d end.

Definition call_ok (c : call) : Prop :=
  match c with
  | Create name data => plain name /\ Forall is_u8 data /\ Z.of_nat (length data) < 4294967296
  | Delete _ => True
  end.

Definition allowed (c : call) (m : gmap (list Z) (list Z)) : Prop :=
  match c with Create name _ => m !! to_fat_8_3 name = None | Delete name => is_Some (m !! to_fat_8_3 name) end.

Definition effect (c : call) (ok : bool) (m : gmap (list Z) (list Z)) : gmap (list Z) (list Z) :=
  if ok then match c with Create name data => <[to_fat_8_3 name := data]> m | Delete name => delete (to_fat_8_3 name) m end
  else m.

(** The transaction around a change of the volume. *)
Definition transaction (body : D -> option (bool * fat32_t * D)) d : option (bool * fat32_t * D) :=
  '(result, g, d) ← body (rust_journal_begin d);
  let '(commit_ok, d) := rust_journal_commit d in Some (commit_ok && result, g, d).

Definition body_ok n g d (c : call) (body : D -> option (bool * fat32_t * D)) : Prop :=
  forall d1, running (S n) d1 -> (forall s, 0 <= s < psize -> view d1 s = view d s) ->
  exists ok h d', body d1 = Some (ok, set_hint h g, d') /\ running (S n) d' /\
    (ok = true \/ spc g = 1%nat -> sound g d' /\ files g d' = effect c ok (files g d)).

(** A call changes nothing, or it is allowed and one transaction. *)
Lemma call_cases n g d (c : call) :
  geo_ok p psize g -> level n d -> sound g d -> call_ok c ->
  let d1 := blockdev_set_partition_offset (partition_offset g) d in
  do_call g c d = Some (false, g, d1) \/
  exists body, do_call g c d = transaction body d1 /\ allowed c (files g d1) /\ body_ok n g d1 c body.
Proof.
  intros Hg Hl Hs Hc. destruct (entered n g d Hg Hl Hs) as (Hr & Hs1 & Hfiles & Hm). cbn zeta in *.
  destruct c as [name data|name]; cbn [do_call]; unfold fat32_write_file, fat32_delete_file, find_existing_entry_location; cbn zeta;
    set (d1 := blockdev_set_partition_offset _ d) in *; rewrite Hm; cbn [negb];
    destruct (walk_found n g d1 (to_fat_8_3 name) Hg Hr Hs1) as (rl & ls & Hv & ->); cbn [mbind option_bind];
    pose proof (look_files g d1 rl ls (to_fat_8_3 name) Hg Hv) as Hlook;
    destruct (look _ (dir g d1 rl)) as [[[k e]|]|] eqn:El; cbn [option_map fst]; try (by left); right.
  1-2: destruct Hc as (Hname & Hdata & Hlt); exists (write_body g (to_fat_8_3 name) data); (split; [done|]); (split; [done|]);
    intros d2 Hr2 Hview; apply (write_new n g d1); try done; by split; [apply to_fat_length|apply to_fat_plain].
  destruct Hlook as (l & _ & Hsome). destruct (place g rl k) as [c off] eqn:Ep. exists (delete_body g c off). split; [done|].
  split; [by exists (content g d1 e l)|]. intros d2 Hr2 Hview. destruct (sound_view g d1 d2 Hg Hview Hs1) as [_ <-].
  destruct (same_volume g d1 d2 rl ls Hg Hview Hv) as (Hv2 & _ & Hdir). rewrite <- Hdir in El.
  pose proof (delete_found n g d2 rl ls k e _ Hg Hr2 Hv2 El) as Hd. by rewrite Ep in Hd.
Qed.

Lemma call_spec `{!Commits D} n g d (c : call) :
  geo_ok p psize g -> level n d -> (n < 4)%nat -> sound g d -> call_ok c ->
  exists ok h d', do_call g c d = Some (ok, set_hint h g, d') /\ level n d' /\ (ok = true -> allowed c (files g d)) /\
    (ok = true \/ spc g = 1%nat -> sound g d' /\ files g d' = effect c ok (files g d)).
Proof.
  intros Hg Hl Hn Hs Hc. destruct (entered n g d Hg Hl Hs) as ([Hl1 Hh1] & Hs1 & Hfiles & _). cbn zeta in *.
  destruct (call_cases n g d c Hg Hl Hs Hc) as [->|(body & -> & Hall & Hbody)]; cbn zeta in *;
    set (d1 := blockdev_set_partition_offset _ d) in *; rewrite <- Hfiles.
  { exists false, (next_free_cluster_hint g), d1. split; [by destruct g|]. by split. }
  destruct (begin_law n d1 Hl1 Hh1 Hn) as (Hl2 & Hh2 & Hv2). unfold transaction.
  destruct (Hbody (rust_journal_begin d1)) as (ok & h & d2 & -> & [Hl3 Hh3] & Hend); [by split|done|]. cbn [mbind option_bind].
  destruct (commit_law n d2 Hl3 Hh3) as (d3 & -> & Hl4 & Hh4 & Hv4). cbn [andb].
  exists ok, h, d3. split; [done|]. split; [done|]. split; [done|]. intros Hcase.
  destruct (Hend Hcase) as [Hs2 Hf]. destruct (sound_view g d2 d3 Hg Hv4 Hs2) as [Hs3 Hf3]. by rewrite Hf3.
Qed.

End Transactions.
