(* ===== verification/FatProps.v ===== *)
(** * FAT32: properties *)

From S2P Require Import Prelude Bytes Fat FatSpec FatChain FatDir FatFiles FatWrite FatOps.
Local Open Scope Z_scope.
Local Open Scope machine_scope.

Section Calls.
Context {D : Type} `{!Blocks D} {p psize : Z} `{!BlocksLaws D p psize} `{!Commits D}.
Implicit Types (g : fat32_t) (d : D) (n : nat).

(** Mounting. [fat32_init] accepts a boot sector of FAT32 with sectors of 512 bytes and a
    table that describes clusters of the partition only, and takes over its geometry. *)
Lemma fat_mount_correct n g d :
  let bpb := view d 0 in
  let u8 off := bpb !!! off in
  let u16 off := of_le_bytes (field bpb off 2) in
  let u32 off := of_le_bytes (field bpb off 4) in
  partition_offset g = p -> level n d -> blockdev_is_present (blockdev_set_partition_offset p d) = true ->
  u16 11%nat = 512 -> u16 22%nat = 0 -> u16 17%nat = 0 -> 1 <= u8 13%nat <= 64 ->
  1 <= u16 14%nat -> 1 <= u8 16%nat -> 1 <= u32 36%nat -> u32 36%nat * 128 < 0x0FFFFFF8 ->
  u16 14%nat + u8 16%nat * u32 36%nat + (u32 36%nat * 128 - 2) * u8 13%nat <= psize ->
  2 <= u32 44%nat < u32 36%nat * 128 ->
  exists g' d', fat32_init g d = (true, g', d') /\ geo_ok p psize g' /\ level n d' /\
    (forall s, 0 <= s < psize -> view d' s = view d s).
Proof.
  intros bpb u8 u16 u32 Hp Hl Hpres H11 H22 H17 H13 H14 H16 H36 Hent Hend Hroot.
  destruct (set_law n d Hl) as (Hl1 & Hh1 & Hv1).
  pose proof (psize_u32 (D := D) (p := p) (psize := psize)) as Hpu. assert (Hps : 0 < psize) by nia. assert (Hu8 : 0 <= u8 16%nat < 256).
  { destruct (view_bytes n d 0 Hl ltac:(lia)) as [Hlen Hb]. rewrite Forall_forall in Hb. unfold u8.
    apply Hb, list_elem_of_lookup_total_2. unfold bpb. by rewrite Hlen; apply Nat.ltb_lt. }
  unfold fat32_init. rewrite Hp. cbn zeta. rewrite Hpres. cbn [negb].
  rewrite (read_law n) by (done || lia). change (Z.of_nat 1) with 1. rewrite (concat_one (view _) 0 : _ = _), Hv1 by lia.
  fold bpb. fold (u16 11%nat) (u16 22%nat) (u32 36%nat) (u16 17%nat) (u8 13%nat) (u8 16%nat) (u16 14%nat) (u32 44%nat).
  rewrite H11, H22, H17. replace (u32 36%nat =? 0) with false by lia. cbn [negb orb Z.eqb Pos.eqb BLOCKDEV_SECTOR_SIZE].
  replace ((u8 13%nat =? 0) || (MAX_CLUSTER_SECTORS <? u8 13%nat)) with false by (unfold MAX_CLUSTER_SECTORS; lia).
  eexists _, _. split; [done|]. split; [|done].
  rewrite (wrap32_id (u8 16%nat * _)), wrap32_id by (unfold is_u32; nia). split; cbn; try done; unfold FAT32_END_OF_CHAIN; lia.
Qed.

(** C20: reading. On a sound volume [fat32_read_file] and [fat32_read_file_range] return for
    every name, length and offset. They report that there is no such file exactly when
    the volume has none of that name; otherwise the bytes they copy are the file's, from
    the offset on and as many as fit, and the value returned is their number as an [int]. *)
Theorem fat_read_correct n g d name len offset :
  geo_ok p psize g -> level n d -> sound g d -> 0 <= len -> 0 <= offset ->
  exists d', level n d' /\ sound g d' /\ files g d' = files g d /\
    fat32_read_file g name len d =
      Some (match files g d !! to_fat_8_3 name with
            | Some b => (to_int (Z.min len (Z.of_nat (length b))), take (Z.to_nat len) b, d')
            | None => (-1, [], d')
            end) /\
    fat32_read_file_range g name offset len d =
      Some (match files g d !! to_fat_8_3 name with
            | Some b =>
                let out := take (Z.to_nat len) (drop (Z.to_nat offset) b) in (to_int (Z.of_nat (length out)), out, d')
            | None => (-1, [], d')
            end).
Proof.
  intros Hg Hl Hs Hlen Hoff. destruct (entered n g d Hg Hl Hs) as (Hr & Hs1 & Hfiles & Hm). cbn zeta in *.
  set (d1 := blockdev_set_partition_offset (partition_offset g) d) in *. exists d1.
  split; [apply Hr|]. split; [done|]. split; [done|].
  unfold fat32_read_file, fat32_read_file_range, walk_root. cbn zeta. fold d1. rewrite Hm. cbn [negb].
  destruct (walk_found n g d1 (to_fat_8_3 name) Hg Hr Hs1) as (rl & ls & Hv & ->). cbn [mbind option_bind].
  pose proof (look_files g d1 rl ls (to_fat_8_3 name) Hg Hv) as Hlook. rewrite <- Hfiles.
  destruct (look _ (dir g d1 rl)) as [[[k e]|]|]; cbn [option_map snd]; [|by rewrite Hlook..].
  destruct Hlook as (l & Hown & ->). pose proof (owns_length n g d1 e l Hg (proj1 Hr) Hown) as Hlb.
  split; [by apply (read_file_found n)|by apply (read_range_found n)].
Qed.

Lemma shown_listing n g d es ls :
  geo_ok p psize g -> level n d -> Forall2 (owns g d) es ls ->
  (listed <$> es).*1 =
    (fun f => (from_fat_8_3 f.1, Z.of_nat (length f.2))) <$> zip_with (fun e l => (d_name e, content g d e l)) es ls.
Proof.
  intros Hg Hl. induction 1 as [|e l es ls Hown _ IH]; [done|]. csimpl. rewrite IH. do 2 f_equal.
  rewrite (owns_length n g d e l Hg Hl Hown). destruct Hown. lia.
Qed.

(** Listing. On a sound volume [fat32_list_root] returns and shows each file once: the
    names and sizes shown are those of the volume's files, in the order of the directory. *)
Theorem fat_list_correct n g d :
  geo_ok p psize g -> level n d -> sound g d ->
  exists shown d', fat32_list_root g d = Some (shown, d') /\ level n d' /\ sound g d' /\ files g d' = files g d /\
    shown.*1 ≡ₚ (fun f => (from_fat_8_3 f.1, Z.of_nat (length f.2))) <$> map_to_list (files g d).
Proof.
  intros Hg Hl Hs. destruct (entered n g d Hg Hl Hs) as (Hr & Hs1 & Hfiles & Hm). cbn zeta in *.
  unfold fat32_list_root, walk_root. cbn zeta. set (d1 := blockdev_set_partition_offset _ d) in *. rewrite Hm. cbn [negb].
  pose proof Hs1 as (rl & ls & Hv). pose proof (vol_root _ _ _ _ Hv) as Hch.
  rewrite (walk_loop_list n _ g d1 _ rl) by (done || pose proof (chain_fuel _ _ _ _ Hg Hch); lia). cbn [mbind option_bind app].
  eexists _, d1. split; [done|]. split; [apply Hr|]. split; [done|]. split; [done|]. rewrite <- Hfiles.
  destruct (files_perm g d1 rl ls _ Hg Hv (Permutation_refl _)) as [-> Hnd]. rewrite map_to_list_to_map by done.
  by rewrite (shown_listing n g d1 _ ls) by (done || apply Hr || apply Hv).
Qed.

(** C18: creating a file. On a sound volume [fat32_write_file] returns, and of the driver's
    variables only the allocation hint may have changed. If it reports success, there was no
    file of that (8.3) name before, and the volume is sound and holds exactly the old files
    and the new one with the bytes given. If it reports failure (the name is taken, the disk
    or the transaction is full), and clusters are single sectors, the volume is sound and
    holds exactly the old files. *)
Theorem fat_write_correct n g d name data :
  geo_ok p psize g -> level n d -> (n < 4)%nat -> sound g d -> plain name -> Forall is_u8 data ->
  Z.of_nat (length data) < 4294967296 ->
  exists ok h d', fat32_write_file g name data d = Some (ok, set_hint h g, d') /\ level n d' /\
    (ok = true -> files g d !! to_fat_8_3 name = None) /\
    (ok = true \/ spc g = 1%nat -> sound g d' /\
      files g d' = if ok then <[to_fat_8_3 name := data]> (files g d) else files g d).
Proof. intros. by apply (call_spec n g d (Create name data)). Qed.

(** C19: deleting a file. On a sound volume [fat32_delete_file] returns, and of the driver's
    variables only the allocation hint may have changed. If it reports success, the file
    existed and the volume is sound and holds exactly the other files; if it reports
    failure and clusters are single sectors, the volume is sound and holds exactly the old
    files. *)
Theorem fat_delete_correct n g d name :
  geo_ok p psize g -> level n d -> (n < 4)%nat -> sound g d ->
  exists ok h d', fat32_delete_file g name d = Some (ok, set_hint h g, d') /\ level n d' /\
    (ok = true -> is_Some (files g d !! to_fat_8_3 name)) /\
    (ok = true \/ spc g = 1%nat -> sound g d' /\
      files g d' = if ok then delete (to_fat_8_3 name) (files g d) else files g d).
Proof. intros. by apply (call_spec n g d (Delete name)). Qed.

End Calls.
