(* ===== verification/FatJournal.v ===== *)
(** * FAT32 on the journal

    The block layer that [fat32.c] calls is the journal of [journal.rs] over a disk: here
    it is shown to keep the laws that the proofs about the file system rely on. *)

From S2P Require Import Prelude Bytes Journal JournalDisk JournalCrash JournalTxn JournalSpec JournalProps Fat.
From S2P Require Import FatSpec.
Local Open Scope Z_scope.

#[local] Arguments Nat.add : simpl never.
#[local] Arguments Nat.mul : simpl never.

(** The journal's state and the disk; [None] after a panic. The journal's region is at [J];
    [R] is what is known of the disk, whatever partition is set. *)
Definition machine (J : Z) (R : Dev -> Prop) : Type := option (JournalState * Dev).

(** A buffer cut into sectors. *)
Definition cut (k : nat) (bs : list Z) : list (list Z) := (fun i => field bs (i * 512) 512) <$> List.seq 0 k.

Definition at_offset (p : Z) (d : Dev) : Dev := mkDev (sectors d) (power d) (active_device d) p (bad d).

#[export] Instance journal_blocks J R : Blocks (machine J R) := {
  blockdev_is_present m := bool_decide (is_Some m);
  blockdev_set_partition_offset p m := '(js, d) ← m; Some (js, at_offset p d);
  rust_journal_read_sectors lba k m :=
    '(js, d) ← m;
    match Journal.rust_journal_read_sectors lba k js d with Done (true, ss) => Some (concat ss) | _ => None end;
  rust_journal_write_sectors lba k bs m :=
    match m with
    | Some (js, d) =>
        match Journal.rust_journal_write_sectors lba (cut k bs) js d with
        | Done (ok, js, d) => (ok, Some (js, d))
        | Panic => (false, None)
        end
    | None => (false, None)
    end;
  rust_journal_begin m := '(js, d) ← m; Some (Journal.rust_journal_begin js, d);
  rust_journal_commit m :=
    match m with
    | Some (js, d) =>
        match Journal.rust_journal_commit js d with
        | Done (ok, js, d) => (ok, Some (js, d))
        | Panic => (false, None)
        end
    | None => (false, None)
    end;
}.

Class Rests (R : Dev -> Prop) : Prop := rests p d : R d -> R (at_offset p d).

(** Power is not lost. *)
Definition lit (d : Dev) : Prop := power d = None.

(** The disk is that of [d0], untouched. *)
Definition still (d0 d : Dev) : Prop := sectors d = sectors d0 /\ power d = power d0.

Definition any (d : Dev) : Prop := True.

#[export] Instance any_rests : Rests any.
Proof. by intros p d. Qed.

#[export] Instance lit_rests : Rests lit.
Proof. by intros p d. Qed.

#[export] Instance still_rests d0 : Rests (still d0).
Proof. by intros p d. Qed.

(** The partition and the journal's region lie apart on the disk. *)
Class Layout (p psize J : Z) : Prop := {
  lo_start : 0 <= p;
  lo_end : p + psize <= 4294967296;
  lo_journal : 0 <= J;
  lo_journal_end : J + 130 <= 4294967296;
  lo_apart : p + psize <= J \/ J + 130 <= p;
}.

(** The transaction's sector [s] of the partition. *)
Definition seen (p : Z) (js : JournalState) (d : Dev) (s : Z) : list Z := JournalTxn.view (at_offset p d) js (p + s).

Definition targets (p : Z) (js : JournalState) (d : Dev) : list Z := (shadow_writes (at_offset p d) js).*1.

(** The state with [n] transactions open. *)
Record open (p psize J : Z) (n : nat) (js : JournalState) (d : Dev) : Prop := {
  op_depth : depth js = Z.of_nat n;
  op_few : (n <= 4)%nat;
  op_shadow : shadow_ok js;
  op_absolute : targets_absolute js = false;
  op_seq : is_u32 (seq js);
  op_start : journal_start_lba js = J;
  op_usable : journal_region_usable js d = true;
  op_good : good d;
  op_idle : n = 0%nat -> shadow_count js = 0%nat;
  op_targets : forall a, a ∈ targets p js d -> p <= a < p + psize;
  op_sized : sized (sectors d);
  op_clean : JournalCrash.clean J (sectors d);
  op_bytes : forall s, 0 <= s < psize -> Forall is_u8 (seen p js d s);
}.

(** ** Sector writes *)

Lemma puts_from_range a ss f x :
  puts (from a ss) f x = if (a <=? x) && (x <? a + Z.of_nat (length ss)) then ss !!! Z.to_nat (x - a) else f x.
Proof.
  destruct ((a <=? x) && (x <? a + Z.of_nat (length ss))) eqn:E.
  - destruct (lookup_lt_is_Some_2 ss (Z.to_nat (x - a))) as [s Hs]; [lia|].
    rewrite (list_lookup_total_correct _ _ _ Hs). rewrite <- (puts_from a ss f _ _ Hs). f_equal. lia.
  - apply puts_notin. intros Hin%from_range. lia.
Qed.

Lemma from_elem a ss x : x ∈ (from a ss).*1 <-> a <= x < a + Z.of_nat (length ss).
Proof.
  split; [apply from_range|]. intros Hx. destruct (lookup_lt_is_Some_2 ss (Z.to_nat (x - a))) as [s Hs]; [lia|].
  apply list_elem_of_fmap. exists (x, s). split; [done|]. apply (list_elem_of_lookup_2 _ (Z.to_nat (x - a))).
  rewrite from_lookup, Hs. simpl. do 2 f_equal. lia.
Qed.

Lemma length_cut k bs : length (cut k bs) = k.
Proof. unfold cut. by rewrite length_fmap, length_seq. Qed.

Lemma cut_lookup k bs i : (i < k)%nat -> cut k bs !! i = Some (field bs (i * 512) 512).
Proof. intros Hi. unfold cut. by rewrite list_lookup_fmap, lookup_seq_lt by done. Qed.

Lemma cut_sizes k bs : length bs = (k * 512)%nat -> Forall (fun s => length s = SECTOR_SIZE) (cut k bs).
Proof.
  intros Hl. apply Forall_lookup. intros i s Hs. pose proof (lookup_lt_Some _ _ _ Hs) as Hi. rewrite length_cut in Hi.
  rewrite cut_lookup in Hs by done. injection Hs as <-. apply (length_field bs (i * 512) 512). lia.
Qed.

Section Machine.
Context {p psize J : Z} {R : Dev -> Prop} `{!Layout p psize J} `{!Rests R}.
Implicit Types (js : JournalState) (d : Dev) (n : nat).

Definition m_level n (m : machine J R) : Prop :=
  exists js d, m = Some (js, d) /\ open p psize J n js d /\ R d.
Definition m_here (m : machine J R) : Prop := exists js d, m = Some (js, d) /\ Journal.partition_offset d = p.
Definition m_view (m : machine J R) (s : Z) : list Z :=
  match m with Some (js, d) => seen p js d s | None => [] end.
Definition m_dirty (m : machine J R) (s : Z) : Prop :=
  match m with Some (js, d) => p + s ∈ targets p js d | None => False end.

Lemma at_here d : Journal.partition_offset d = p -> at_offset p d = d.
Proof. by destruct d; simpl; intros ->. Qed.

Lemma open_view_sized n js d : open p psize J n js d -> sized (JournalTxn.view (at_offset p d) js).
Proof. intros []. apply sized_puts; [done|]. apply sized_targets. by destruct op_shadow0. Qed.

Lemma targets_outside n js d a : open p psize J n js d -> a ∈ targets p js d -> ~ in_region J a.
Proof. intros H Ha%(op_targets _ _ _ _ _ _ H). destruct Layout0. unfold in_region. lia. Qed.

Lemma part_outside s : 0 <= s < psize -> ~ in_region J (p + s).
Proof. intros Hs. destruct Layout0. unfold in_region. lia. Qed.

(** A read returns what is seen. *)
Lemma read_sectors_spec n js d lba k :
  open p psize J n js d -> Journal.partition_offset d = p -> 0 <= lba -> (0 < k)%nat -> lba + Z.of_nat k <= psize ->
  Journal.rust_journal_read_sectors lba k js d = Done (true, seen p js d <$> seqZ lba (Z.of_nat k)).
Proof.
  intros Ho Hp Hl Hk0 Hk. pose proof Ho as []. unfold Journal.rust_journal_read_sectors, read_sectors_internal. rewrite op_depth0.
  assert (Hseq : seqZ lba (Z.of_nat k) = (fun j => lba + Z.of_nat j) <$> List.seq 0 k).
  { unfold seqZ. rewrite Nat2Z.id. apply list_fmap_ext. intros i x _. lia. }
  rewrite Hseq, <- list_fmap_compose. destruct (Z.eqb_spec (Z.of_nat n) 0) as [E|E].
  - unfold blockdev_read_sectors. rewrite Hp, wrap32_id by (destruct Layout0; unfold is_u32; lia).
    rewrite dispatch_read_good by done. do 2 f_equal. apply list_fmap_ext. intros i x _. unfold compose, seen, JournalTxn.view.
    rewrite idle_writes by (apply op_idle0; lia). cbn. f_equal. lia.
  - rewrite shadow_read_spec by done. do 2 f_equal. apply list_fmap_ext. intros i x Hx. apply lookup_seq in Hx as [-> Hx].
    unfold compose, seen. rewrite at_here by done. f_equal. unfold phys. rewrite Hp. destruct Layout0.
    rewrite (wrap32_id (lba + _)), wrap32_id by (unfold is_u32; lia). lia.
Qed.

(** A write inside a transaction. *)
Lemma write_sectors_spec n js d lba k bs :
  open p psize J (S n) js d -> Journal.partition_offset d = p -> 0 <= lba -> (0 < k)%nat -> lba + Z.of_nat k <= psize ->
  length bs = (k * 512)%nat -> Forall is_u8 bs ->
  exists ok js' j, Journal.rust_journal_write_sectors lba (cut k bs) js d = Done (ok, js', d) /\ open p psize J (S n) js' d /\
    (forall a, a ∈ targets p js' d <-> a ∈ targets p js d \/ p + lba <= a < p + lba + Z.of_nat j) /\
    (if ok : bool then j = k else (j < k)%nat /\ p + lba + Z.of_nat j ∉ targets p js' d) /\
    (forall x, JournalTxn.view d js' x =
      if (p + lba <=? x) && (x <? p + lba + Z.of_nat j) then field bs (Z.to_nat (x - (p + lba)) * 512) 512 else JournalTxn.view d js x).
Proof.
  intros Ho Hp Hl Hk0 Hk Hlen Hbs. pose proof Ho as []. unfold Journal.rust_journal_write_sectors, write_sectors_internal.
  rewrite op_depth0. replace (Z.of_nat (S n) =? 0) with false by lia.
  destruct (shadow_write_spec (cut k bs) 0 js lba op_shadow0 (cut_sizes k bs Hlen)) as (j & ok & js' & -> & Hok' & Hcfg & Hj & Heff).
  osimpl. rewrite length_cut, op_absolute0 in *. exists ok, js', j. split; [done|].
  assert (Hjk : (j <= k)%nat) by (destruct ok; lia). set (W := take j (cut k bs)) in *.
  assert (HW : length W = j) by (unfold W; rewrite length_take, length_cut; lia).
  assert (Hcall : call_writes d false lba 0 W = from (p + lba) W).
  { rewrite call_writes_from by (rewrite ?Hp; destruct Layout0; lia). f_equal. lia. }
  specialize (Heff d). rewrite Hcall in Heff.
  assert (Htg : forall a, a ∈ targets p js' d <-> a ∈ targets p js d \/ p + lba <= a < p + lba + Z.of_nat j).
  { intros a. unfold targets. rewrite at_here by done. rewrite <- HW, <- from_elem, <- elem_of_app, <- fmap_app.
    split; apply puts_support; intros f x; by rewrite puts_app, Heff. }
  assert (Hview : forall x, JournalTxn.view d js' x =
      if (p + lba <=? x) && (x <? p + lba + Z.of_nat j) then field bs (Z.to_nat (x - (p + lba)) * 512) 512 else JournalTxn.view d js x).
  { intros x. unfold JournalTxn.view. rewrite Heff, puts_from_range, HW. destruct (_ && _) eqn:E; [|done].
    unfold W. rewrite lookup_total_take_lt by lia. apply list_lookup_total_correct, cut_lookup. lia. }
  destruct Hcfg as (C1 & C2 & C3 & C4 & C5). split; [|split; [done|split; [|done]]].
  - split; try done; try congruence.
    + intros a [Ha|Ha]%Htg; [by apply op_targets0|lia].
    + intros s Hs. specialize (op_bytes0 s Hs). unfold seen in *. rewrite at_here in * by done. rewrite Hview.
      destruct (_ && _); [by apply field_bytes|done].
  - destruct ok; [done|]. destruct Hj as (Hj & _ & Hn). split; [done|]. unfold targets. rewrite at_here, shadow_writes_fst by done.
    rewrite C1, op_absolute0. intros (l & El & Hin)%list_elem_of_fmap. apply Hn. unfold phys in El. rewrite Hp in El.
    pose proof (proj1 (Forall_forall _ _) (sh_u32 _ Hok') l ltac:(by eapply take_elem)) as Hu. change (0 + j)%nat with j.
    replace (wrap32 (lba + Z.of_nat j)) with l; [by eapply take_elem|]. apply (phys_inj d false); [done|apply wrap32_u32|].
    unfold phys. rewrite Hp. destruct Layout0. rewrite <- El, (wrap32_id (lba + _)), wrap32_id by (unfold is_u32; lia). lia.
Qed.

(** The states around a transaction. *)
Lemma open_begin n js d : open p psize J n js d -> (n < 4)%nat -> open p psize J (S n) (Journal.rust_journal_begin js) d.
Proof.
  intros [] Hn. unfold Journal.rust_journal_begin. split; try done; try (by destruct op_shadow0); try lia.
  cbn [set_depth depth]. rewrite op_depth0, wrap32_id by (unfold is_u32; lia). lia.
Qed.

Lemma open_offset n js d q : open p psize J n js d -> open p psize J n js (at_offset q d).
Proof. by intros []. Qed.

Lemma commit_nested n js d :
  open p psize J (S (S n)) js d ->
  Journal.rust_journal_commit js d = Done (true, set_depth (Z.of_nat (S n)) js, d) /\ open p psize J (S n) (set_depth (Z.of_nat (S n)) js) d.
Proof.
  intros []. unfold Journal.rust_journal_commit. rewrite op_depth0. replace (Z.of_nat (S (S n)) =? 0) with false by lia.
  cbn zeta. rewrite wrap32_id by (unfold is_u32; lia). replace (Z.of_nat (S (S n)) - 1) with (Z.of_nat (S n)) by lia.
  cbn [set_depth depth]. replace (0 <? Z.of_nat (S n)) with true by lia. split; [done|].
  split; try done; try (by destruct op_shadow0); lia.
Qed.

(** The outermost commit is a list of sector writes. Cut anywhere, they leave a disk that
    recovery takes to the one before or to the one seen. *)
Lemma commit_last js d :
  open p psize J 1 js d -> Journal.partition_offset d = p ->
  exists js' W, Journal.rust_journal_commit js d = Done (true, js', apply_w W d) /\
    restarted J js' (apply_w W d) /\
    forall k, let f := puts (take k W) (sectors d) in
      recoverable J d (sectors d) (JournalTxn.view d js) f /\
      (length W <= k -> JournalCrash.clean J f /\ same_data J f (JournalTxn.view d js))%nat /\ sized f.
Proof.
  intros Ho Hp. pose proof Ho as []. destruct Layout0.
  destruct (commit_spec J js d) as (js' & W & E & Hidle & HJ & Hus & HW); try done.
  exists js', W. split; [done|]. split; [split; [done|]; split; [done|]; by rewrite (usable_dev _ d) by apply apply_w_dev|].
  destruct (Nat.eqb_spec (shadow_count js) 0) as [E0|E0].
  - subst W. intros k. rewrite take_nil. cbn zeta.
    assert (Hsame : same_data J (puts [] (sectors d)) (JournalTxn.view d js)).
    { intros a _. unfold JournalTxn.view. by rewrite idle_writes. }
    split; [by apply recoverable_old|done].
  - apply (commit_recoverable J js d W); try done; [lia|]. intros a Ha. apply (targets_outside 1 js d a Ho). unfold targets.
    by rewrite at_here.
Qed.

(** The state between transactions, on a disk that shows the partition [f]. *)
Lemma restarted_open js d (f : Z -> list Z) :
  restarted J js d -> good d -> sized (sectors d) -> JournalCrash.clean J (sectors d) -> same_data J (sectors d) f ->
  (forall s, 0 <= s < psize -> Forall is_u8 (f (p + s))) ->
  open p psize J 0 js d /\ forall s, 0 <= s < psize -> seen p js d s = f (p + s).
Proof.
  intros ((Hd & Hc & Hab & Hok & Hseq) & HJ & Hus) Hg Hsz Hcl Hf Hb.
  assert (Hseen : forall s, 0 <= s < psize -> seen p js d s = f (p + s)).
  { intros s Hs. unfold seen, JournalTxn.view. rewrite idle_writes by done. apply Hf. by apply part_outside. }
  split; [|done]. split; try done; [lia| |].
  - intros a. unfold targets. rewrite idle_writes by done. by intros ?%elem_of_nil.
  - intros s Hs. rewrite Hseen by done. by apply Hb.
Qed.

(** A commit whose writes all reach the disk. *)
Lemma commit_landed js d js' W :
  open p psize J 1 js d -> Journal.partition_offset d = p -> restarted J js' (apply_w W d) ->
  (forall k, let f := puts (take k W) (sectors d) in
    (length W <= k -> JournalCrash.clean J f /\ same_data J f (JournalTxn.view d js))%nat /\ sized f) ->
  landed (power d) W = W ->
  open p psize J 0 js' (apply_w W d) /\ forall s, 0 <= s < psize -> seen p js' (apply_w W d) s = seen p js d s.
Proof.
  intros Ho Hp Hre Hcut Hall. destruct (Hcut (length W)) as (Hdone & Hsz). destruct Hdone as [Hcl Hdata]; [done|].
  rewrite take_ge in Hcl, Hdata, Hsz by done. pose proof (apply_w_sectors W d) as Hsec. rewrite Hall in Hsec.
  rewrite <- Hsec in Hcl, Hdata, Hsz.
  destruct (restarted_open js' (apply_w W d) (JournalTxn.view d js) Hre) as [Ho' Hseen]; try done.
  - apply apply_w_good, Ho.
  - intros s Hs. pose proof (op_bytes _ _ _ _ _ _ Ho s Hs) as Hb. unfold seen in Hb. by rewrite at_here in Hb.
  - split; [done|]. intros s Hs. rewrite Hseen by done. unfold seen. by rewrite at_here.
Qed.

(** ** The laws *)

Lemma m_view_bytes n m s : m_level n m -> 0 <= s < psize -> length (m_view m s) = 512%nat /\ Forall is_u8 (m_view m s).
Proof. intros (js & d & -> & Ho & _) Hs. split; [by apply (open_view_sized n)|by apply Ho]. Qed.

Lemma m_set_law n m :
  m_level n m -> let m' := blockdev_set_partition_offset p m in
  m_level n m' /\ m_here m' /\ (forall s, 0 <= s < psize -> m_view m' s = m_view m s).
Proof.
  intros (js & d & -> & Ho & Hm). cbn zeta. split; [|split; [|done]].
  - exists js, (at_offset p d). split; [done|]. split; [by apply open_offset|by apply rests].
  - by exists js, (at_offset p d).
Qed.

Lemma m_read_law n m lba k :
  m_level n m -> m_here m -> 0 <= lba -> (0 < k)%nat -> lba + Z.of_nat k <= psize ->
  rust_journal_read_sectors lba k m = Some (concat (m_view m <$> seqZ lba (Z.of_nat k))).
Proof.
  intros (js & d & -> & Ho & _) (js' & d' & [= <- <-] & Hp) Hl Hk0 Hk. cbn. by rewrite (read_sectors_spec n).
Qed.

Lemma m_write_law n m lba k bs :
  m_level (S n) m -> m_here m -> 0 <= lba -> (0 < k)%nat -> lba + Z.of_nat k <= psize ->
  length bs = (k * 512)%nat -> Forall is_u8 bs ->
  let '(ok, m') := rust_journal_write_sectors lba k bs m in
  m_level (S n) m' /\ m_here m' /\ (forall s, m_dirty m s -> m_dirty m' s) /\
  exists j, (j <= k)%nat /\ (ok = false -> (j < k)%nat) /\ (ok = true -> j = k) /\
    (forall s, lba <= s < lba + Z.of_nat j -> m_dirty m' s) /\
    (forall s, 0 <= s < psize ->
      m_view m' s = if (lba <=? s) && (s <? lba + Z.of_nat j) then piece bs lba s else m_view m s).
Proof.
  intros (js & d & -> & Ho & Hm) (js0 & d0 & [= <- <-] & Hp) Hl Hk0 Hk Hlen Hbs. cbn [rust_journal_write_sectors journal_blocks].
  destruct (write_sectors_spec n js d lba k bs Ho Hp Hl Hk0 Hk Hlen Hbs) as (ok & js' & j & -> & Ho' & Htg & Hj & Hview).
  split; [by exists js', d|]. split; [by exists js', d|]. split; [intros s Hs; apply Htg; by left|].
  exists j. split; [destruct ok; lia|]. split; [intros ->; lia|]. split; [by intros ->|]. split; [intros s Hs; apply Htg; right; lia|].
  intros s Hs. unfold m_view, seen. rewrite !at_here, Hview by done.
  replace ((p + lba <=? p + s) && (p + s <? p + lba + Z.of_nat j)) with ((lba <=? s) && (s <? lba + Z.of_nat j)) by lia.
  destruct (_ && _) eqn:E; [|done]. unfold piece. f_equal. lia.
Qed.

Lemma m_write_again n m lba k bs :
  m_level (S n) m -> m_here m -> 0 <= lba -> (0 < k)%nat -> lba + Z.of_nat k <= psize ->
  length bs = (k * 512)%nat -> Forall is_u8 bs ->
  (forall s, lba <= s < lba + Z.of_nat k -> m_dirty m s) -> (rust_journal_write_sectors lba k bs m).1 = true.
Proof.
  intros (js & d & -> & Ho & Hm) (js0 & d0 & [= <- <-] & Hp) Hl Hk0 Hk Hlen Hbs Hd. cbn [rust_journal_write_sectors journal_blocks].
  destruct (write_sectors_spec n js d lba k bs Ho Hp Hl Hk0 Hk Hlen Hbs) as (ok & js' & j & -> & Ho' & Htg & Hj & _). cbn.
  destruct ok; [done|]. destruct Hj as [Hj Hn]. exfalso. apply Hn. apply Htg. left. rewrite <- Z.add_assoc. apply Hd. lia.
Qed.

Lemma m_begin_law n m :
  m_level n m -> m_here m -> (n < 4)%nat ->
  let m' := rust_journal_begin m in
  m_level (S n) m' /\ m_here m' /\ (forall s, 0 <= s < psize -> m_view m' s = m_view m s).
Proof.
  intros (js & d & -> & Ho & Hm) (js0 & d0 & [= <- <-] & Hp) Hn. cbn. split; [|split; [by eexists _, d|done]].
  exists (Journal.rust_journal_begin js), d. split; [done|]. split; [by apply open_begin|done].
Qed.

Lemma psize_bound : psize <= 4294967296.
Proof. destruct Layout0. lia. Qed.

#[export] Instance journal_laws : BlocksLaws (machine J R) p psize := {
  view := m_view;
  here := m_here;
  level := m_level;
  dirty := m_dirty;
  psize_u32 := psize_bound;
  view_bytes := m_view_bytes;
  set_law := m_set_law;
  read_law := m_read_law;
  write_law := m_write_law;
  write_again := m_write_again;
  begin_law := m_begin_law;
}.

End Machine.

(** While power lasts, a commit succeeds and the disk holds what was seen. *)
#[export] Instance journal_commits {p psize J : Z} `{!Layout p psize J} : Commits (machine J lit) (p := p) (psize := psize).
Proof.
  intros n m (js & d & -> & Ho & Hm) (js0 & d0 & [= <- <-] & Hp). unfold lit in Hm. destruct n as [|n].
  - destruct (commit_last js d Ho Hp) as (js' & W & E & Hre & Hcut).
    destruct (commit_landed js d js' W Ho Hp Hre (fun k => proj2 (Hcut k))) as [Ho' Hseen]; [by rewrite Hm|].
    exists (Some (js', apply_w W d)). cbn [rust_journal_commit journal_blocks]. rewrite E. split; [done|]. split; [|split; [|done]].
    + exists js', (apply_w W d). split; [done|]. split; [done|]. unfold lit. by rewrite apply_w_power, Hm.
    + exists js', (apply_w W d). split; [done|]. by destruct (apply_w_dev W d) as (_ & -> & _).
  - destruct (commit_nested n js d Ho) as [E Ho']. exists (Some (set_depth (Z.of_nat (S n)) js, d)). cbn [rust_journal_commit journal_blocks].
    rewrite E. split; [done|]. split; [by eexists _, d|]. split; [by eexists _, d|done].
Qed.
