(* ===== verification/FatCrash.v ===== *)
(** * FAT32 and power loss

    Calls that create and delete files, on the journal, on a disk that may lose power at
    any sector write. *)

From S2P Require Import Prelude Bytes Journal JournalDisk JournalCrash JournalTxn JournalSpec JournalProps Fat.
From S2P Require Import FatSpec FatChain FatDir FatFiles FatWrite FatOps FatProps FatJournal.
Local Open Scope Z_scope.

Section Crash.
Context {p psize J : Z} `{!Layout p psize J}.
Implicit Types (js : JournalState) (d : Dev) (g : fat32_t).

Notation disk := (machine J any).

(** ** Runs *)

Definition off (m : disk) : bool := match m with Some (_, d) => bool_decide (power d = Some 0%nat) | None => true end.

(** Calls one after the other, until one fails or power is lost; the calls' results. *)
Fixpoint run_calls (cs : list call) g (m : disk) : option (list bool * fat32_t * disk) :=
  match cs with
  | [] => Some ([], g, m)
  | c :: cs' =>
      if off m then Some ([], g, m)
      else
        '(ok, g, m) ← do_call g c m;
        if ok : bool then '(oks, g, m) ← run_calls cs' g m; Some (true :: oks, g, m) else Some ([false], g, m)
  end.

(** What the first calls make of the files. *)
Definition after (cs : list call) (oks : list bool) (f : gmap (list Z) (list Z)) : gmap (list Z) (list Z) :=
  foldl (fun f x => effect x.1 x.2 f) f (zip cs oks).

(** ** One call *)

(** Every sequence of restarts that ends without power loss leaves the state with files [F]. *)
Definition recovers (len : Z) g (m : disk) (F : gmap (list Z) (list Z) -> Prop) : Prop :=
  exists js d, m = Some (js, d) /\
    forall ps, exists r js' d', boots J len ps d = Done (r, js', d') /\
      let m' : disk := Some (js', d') in level 0 m' /\ sound g m' /\ F (files g m').

Lemma boots_files (len : Z) g d0 d (old new : Z -> list Z) (F : gmap (list Z) (list Z) -> Prop) js :
  geo_ok p psize g -> 130 <= len -> good d -> same_dev d0 d -> recoverable J d0 old new (sectors d) ->
  (forall f, f = old \/ f = new -> (forall s, 0 <= s < psize -> Forall is_u8 (f (p + s))) /\
    forall js' d', open p psize J 0 js' d' -> (forall s, 0 <= s < psize -> seen p js' d' s = f (p + s)) ->
      let m' : disk := Some (js', d') in sound g m' /\ F (files g m')) ->
  recovers len g (Some (js, d)) F.
Proof.
  intros Hg Hlen Hgood Hdev Hrec HF. exists js, d. split; [done|]. intros ps. destruct Layout0.
  destruct (boots_settled J len ps d0 d old new) as (r & js' & d' & E & (Hsz & Hcl & Hdata) & Hgood' & _ & Hre); try done.
  exists r, js', d'. split; [done|]. cbn zeta.
  assert (Hf : exists f, (f = old \/ f = new) /\ same_data J (sectors d') f) by (destruct Hdata; eauto).
  destruct Hf as (f & Hf & Hsame). destruct (HF f Hf) as [Hb Hend].
  destruct (restarted_open js' d' f Hre Hgood' Hsz Hcl Hsame Hb) as [Ho Hseen].
  split; [by exists js', d'|]. by apply Hend.
Qed.

(** What is known of the disk does not matter for the files. *)
Lemma sound_known (R R' : Dev -> Prop) `{!Rests R} `{!Rests R'} g js d :
  sound g (Some (js, d) : machine J R) -> sound g (Some (js, d) : machine J R').
Proof. intros (rl & ls & [H1 H2 H3 H4 H5]). exists rl, ls. by split. Qed.

Lemma files_known (R R' : Dev -> Prop) `{!Rests R} `{!Rests R'} g js d :
  files g (Some (js, d) : machine J R) = files g (Some (js, d) : machine J R').
Proof. reflexivity. Qed.

Lemma same_files (R : Dev -> Prop) `{!Rests R} g js d js' d' :
  geo_ok p psize g -> sound g (Some (js, d) : machine J R) -> (forall s, 0 <= s < psize -> seen p js' d' s = seen p js d s) ->
  sound g (Some (js', d') : disk) /\ files g (Some (js', d') : disk) = files g (Some (js, d) : machine J R).
Proof.
  intros Hg Hs Hseen. apply (sound_known R any) in Hs. rewrite (files_known R any).
  by apply (sound_view g (Some (js, d) : disk) (Some (js', d') : disk)).
Qed.

(** A call leaves its effect on a disk with power, or it lost power and a restart finds
    the files as before or with the effect. *)
Definition call_end (len : Z) g (c : call) (ok : bool) (m : disk) js d : Prop :=
  let m' : disk := Some (js, d) in
  level 0 m' /\ sound g m' /\ files g m' = effect c ok (files g m) \/
  power d = Some 0%nat /\ recovers len g m' (fun f => f = files g m \/ f = effect c ok (files g m)).

(** The commit of a call's transaction, from the disk [d] on: [ms] before, [mt] inside. *)
Lemma commit_crash (len : Z) g d js1 d1 js2 d2 (F : gmap (list Z) (list Z)) :
  let ms : machine J (still d) := Some (js1, d1) in
  let mt : machine J (still d) := Some (js2, d2) in
  geo_ok p psize g -> 130 <= len -> level 0 ms -> sound g ms -> running 1 mt ->
  exists js' d', Journal.rust_journal_commit js2 d2 = Done (true, js', d') /\ (power d = None -> power d' = None) /\
    (sound g mt /\ files g mt = F ->
     let m' : disk := Some (js', d') in
     level 0 m' /\ sound g m' /\ files g m' = F \/
     power d' = Some 0%nat /\ recovers len g m' (fun f => f = files g ms \/ f = F)).
Proof.
  intros ms mt Hg Hlen (? & ? & [= <- <-] & Ho1 & [Hsec1 Hpow1]) Hs1 [(? & ? & [= <- <-] & Ho2 & [Hsec2 Hpow2]) (? & ? & [= <- <-] & Hp)].
  destruct (commit_last js2 d2 Ho2 Hp) as (js' & W & E & Hre & Hcut). exists js', (apply_w W d2). split; [done|].
  rewrite apply_w_power, Hpow2. split; [by intros ->|]. intros [Hs2 Hf2]. cbn zeta.
  assert (Hcase : landed (power d2) W = W \/ exists n, power d2 = Some n /\ (n < length W)%nat).
  { destruct (power d2) as [n|]; [|by left]. cbn [landed].
    destruct (decide (length W <= n)%nat); [left; by rewrite take_ge|right; exists n; split; [done|lia]]. }
  destruct Hcase as [Hall|(n & Hn & Hlt)].
  - left. destruct (commit_landed js2 d2 js' W Ho2 Hp Hre (fun k => proj2 (Hcut k)) Hall) as [Ho' Hseen].
    destruct (same_files (still d) g js2 d2 js' (apply_w W d2) Hg Hs2 Hseen) as [Hs' Hf'].
    split; [by exists js', (apply_w W d2)|]. split; [done|]. by rewrite Hf'.
  - right. rewrite <- Hpow2, Hn. split; [cbn; f_equal; lia|].
    apply (boots_files len g d2 (apply_w W d2) (sectors d2) (JournalTxn.view d2 js2)); [done|done|apply apply_w_good, Ho2|apply apply_w_dev| |].
    { rewrite apply_w_sectors, Hn. apply Hcut. }
    assert (Hold : forall s, 0 <= s < psize -> seen p js1 d1 s = sectors d2 (p + s)).
    { intros s _. unfold seen, JournalTxn.view. rewrite idle_writes by by apply Ho1. cbn. by rewrite Hsec1, Hsec2. }
    assert (Hnew : forall s, 0 <= s < psize -> seen p js2 d2 s = JournalTxn.view d2 js2 (p + s)).
    { intros s _. unfold seen. by rewrite at_here. }
    intros f [-> | ->]; split.
    + intros s Hs. rewrite <- Hold by done. by apply Ho1.
    + intros js3 d3 _ Hseen. destruct (same_files (still d) g js1 d1 js3 d3 Hg Hs1) as [Hs3 Hf3]; [|by auto].
      intros s Hs. by rewrite Hold, Hseen.
    + intros s Hs. rewrite <- Hnew by done. by apply Ho2.
    + intros js3 d3 _ Hseen. destruct (same_files (still d) g js2 d2 js3 d3 Hg Hs2) as [Hs3 Hf3]; [|rewrite <- Hf2; by auto].
      intros s Hs. by rewrite Hnew, Hseen.
Qed.

Lemma call_crash (len : Z) g js d (c : call) :
  let m : disk := Some (js, d) in
  geo_ok p psize g -> 130 <= len -> level 0 m -> sound g m -> call_ok c ->
  exists ok h js' d', do_call g c m = Some (ok, set_hint h g, Some (js', d')) /\
    (power d = None -> power d' = None) /\ (ok = true \/ spc g = 1%nat -> call_end len g c ok m js' d').
Proof.
  intros m Hg Hlen (js0 & d0 & [= <- <-] & Ho & _) Hs Hc. set (ms := Some (js, d) : machine J (still d)).
  assert (Hl : level 0 ms) by (by exists js, d). apply (sound_known any (still d)) in Hs. fold ms in Hs.
  destruct (entered 0 g ms Hg Hl Hs) as ([Hl1 Hh1] & Hs1 & Hfiles & _). cbn zeta in *.
  change (do_call g c m) with (do_call g c ms).
  destruct (call_cases 0 g ms c Hg Hl Hs Hc) as [->|(body & -> & _ & Hbody)]; cbn zeta in *.
  - exists false, (next_free_cluster_hint g), js, (at_offset (partition_offset g) d).
    split; [by destruct g|]. split; [done|]. intros _. left. split; [by eexists _, _; split; [done|]; split; [by apply open_offset|]|].
    split; [by apply (sound_known (still d) any)|done].
  - destruct (begin_law 0 _ Hl1 Hh1 ltac:(lia)) as (Hl2 & Hh2 & Hv2). cbn zeta in *.
    destruct (Hbody _ (conj Hl2 Hh2) Hv2) as (ok & h & m2 & E & Hr2 & Hend). pose proof Hr2 as [(js2 & d2 & -> & _) _].
    destruct (commit_crash len g d js _ js2 d2 (effect c ok (files g ms)) Hg Hlen Hl1 Hs1 Hr2) as (js' & d' & Ec & Hpow & Hcr).
    exists ok, h, js', d'. unfold transaction. rewrite E. cbn [mbind option_bind rust_journal_commit journal_blocks]. rewrite Ec.
    split; [done|]. split; [done|]. intros Hcase. specialize (Hend Hcase). rewrite Hfiles in Hend. destruct (Hcr Hend) as [H|[H1 H2]]; [by left|].
    right. split; [done|]. destruct H2 as (? & ? & [= <- <-] & H2). exists js', d'. split; [done|]. intros ps.
    destruct (H2 ps) as (r & js3 & d3 & Eb & Hl3 & Hs3 & Hf3). exists r, js3, d3. split; [done|]. split; [done|]. split; [done|].
    change (files g m) with (files g ms). cbv beta. by rewrite <- Hfiles at 1.
Qed.

(** ** Runs of calls *)

Lemma recovers_impl (len : Z) g (m : disk) (F F' : gmap (list Z) (list Z) -> Prop) :
  (forall f, F f -> F' f) -> recovers len g m F -> recovers len g m F'.
Proof.
  intros HF (js & d & -> & H). exists js, d. split; [done|]. intros ps. destruct (H ps) as (r & js' & d' & E & Hl & Hs & Hf).
  exists r, js', d'. split; [done|]. split; [done|]. split; [done|]. by apply HF.
Qed.

Lemma recovers_hint (len : Z) g h (m : disk) F : recovers len (set_hint h g) m F -> recovers len g m F.
Proof.
  intros (js & d & -> & H). exists js, d. split; [done|]. intros ps. destruct (H ps) as (r & js' & d' & E & Hl & Hs & Hf).
  exists r, js', d'. split; [done|]. split; [done|]. split; [by apply sound_hint in Hs|done].
Qed.

Lemma recovers_now (len : Z) g js d :
  let m : disk := Some (js, d) in
  geo_ok p psize g -> 130 <= len -> level 0 m -> sound g m -> recovers len g m (fun f => f = files g m).
Proof.
  intros m Hg Hlen (? & ? & [= <- <-] & Ho & _) Hs.
  assert (Hold : forall s, 0 <= s < psize -> seen p js d s = sectors d (p + s)).
  { intros s _. unfold seen, JournalTxn.view. by rewrite idle_writes by by apply Ho. }
  apply (boots_files len g d d (sectors d) (sectors d)); [done|done|apply Ho|done|by apply recoverable_old; [apply Ho|apply Ho|]|].
  intros f Hf. assert (f = sectors d) as -> by by destruct Hf. split; [intros s Hs'; rewrite <- Hold by done; by apply Ho|].
  intros js' d' _ Hseen. apply (same_files any g js d js' d'); [done|done|]. intros s Hs'. by rewrite Hold, Hseen.
Qed.

(** What a run of calls leaves after the restarts: the effect of the first [k] of them. *)
Definition run_end (cs : list call) (oks : list bool) (pw : option nat) (f0 f : gmap (list Z) (list Z)) : Prop :=
  exists k, (k <= length oks <= S k)%nat /\ (pw = None -> k = length oks) /\ f = after (take k cs) oks f0.

Lemma run_end_nil cs pw f : run_end cs [] pw f f.
Proof. exists 0%nat. split; [simpl; lia|]. by rewrite take_0. Qed.

Lemma run_end_one c cs ok pw f : run_end (c :: cs) [ok] pw f (effect c ok f).
Proof. exists 1%nat. split; [simpl; lia|done]. Qed.

Lemma run_calls_spec (len : Z) cs g js d :
  let m : disk := Some (js, d) in
  geo_ok p psize g -> 130 <= len -> level 0 m -> sound g m -> Forall call_ok cs ->
  exists oks g' js' d', run_calls cs g m = Some (oks, g', Some (js', d')) /\ (length oks <= length cs)%nat /\
    (power d = None -> Forall (eq true) oks -> length oks = length cs) /\
    (Forall (eq true) oks \/ spc g = 1%nat -> recovers len g (Some (js', d')) (run_end cs oks (power d) (files g m))).
Proof.
  intros m Hg Hlen Hl Hs Hcs. subst m. revert g js d Hg Hl Hs. induction Hcs as [|c cs Hc Hcs IH]; intros g js d Hg Hl Hs.
  { exists [], g, js, d. split; [done|]. split; [done|]. split; [done|]. intros _.
    eapply recovers_impl; [|by apply recovers_now]. intros f ->. apply run_end_nil. }
  cbn [run_calls off]. case_bool_decide as Hoff.
  { exists [], g, js, d. split; [done|]. split; [simpl; lia|]. split; [by rewrite Hoff|]. intros _.
    eapply recovers_impl; [|by apply recovers_now]. intros f ->. apply run_end_nil. }
  destruct (call_crash len g js d c Hg Hlen Hl Hs Hc) as (ok & h & js1 & d1 & -> & Hpow & Hend). cbn [mbind option_bind].
  set (f0 := files g (Some (js, d) : disk)) in *. destruct ok; cbn beta iota.
  - destruct (Hend (or_introl eq_refl)) as [(Hl1 & Hs1 & Hf1)|[Hoff1 Hrec]].
    + destruct (IH (set_hint h g) js1 d1) as (oks & g' & js' & d' & -> & Hle & Hall & Hrec); [by apply geo_hint|done|by apply sound_hint|].
      exists (true :: oks), g', js', d'. split; [done|]. split; [simpl; lia|].
      split; [intros Hn Ht%Forall_cons; cbn; f_equal; by apply Hall; [apply Hpow|apply Ht]|]. intros Hcase.
      apply (recovers_hint len g h). eapply recovers_impl; [|apply Hrec; destruct Hcase as [Ht%Forall_cons|]; [left; apply Ht|by right]].
      intros f (k & Hk & Hn & ->). exists (S k). split; [simpl; lia|]. split; [intros Hd; cbn; f_equal; by apply Hn, Hpow|].
      change (files (set_hint h g) (Some (js1, d1) : disk)) with (files g (Some (js1, d1) : disk)). by rewrite Hf1.
    + exists [true], (set_hint h g), js1, d1. split; [destruct cs; cbn [run_calls off]; [done|by rewrite bool_decide_eq_true_2]|].
      split; [simpl; lia|]. assert (Hd : power d <> None) by (intros Hn; specialize (Hpow Hn); congruence). split; [done|]. intros _.
      eapply recovers_impl; [|exact Hrec]. intros f [-> | ->]; [exists 0%nat; split; [simpl; lia|done]|apply run_end_one].
  - exists [false], (set_hint h g), js1, d1. split; [done|]. split; [simpl; lia|]. split; [by intros _ [? _]%Forall_cons|].
    intros [[? _]%Forall_cons|H1]; [done|]. apply (recovers_impl len g _ (fun f => f = f0)).
    { intros f ->. apply (run_end_one c cs false). }
    destruct (Hend (or_intror H1)) as [(Hl1 & Hs1 & Hf1)|[_ Hrec]]; [|eapply recovers_impl; [|exact Hrec]; cbn; by intros f []].
    eapply recovers_impl; [|by apply recovers_now]. intros f ->. exact Hf1.
Qed.

(** C2: files survive power loss. Calls that create and delete files run one after the
    other over the journal, until one fails or power is lost, at any sector write
    ([power d]); the calls return, and all of them run if none fails and power is not lost.
    The machine then restarts any number of times, losing power again at any write of the
    recovery ([ps]), until one restart completes. Provided no call has reported failure, or
    clusters are single sectors, the volume found at the end is sound and holds exactly the
    files that the first [k] calls made of the old ones: all calls but at most the last one,
    which was then interrupted, and all of them if power was not lost. *)
Theorem fat_crash_consistent (len : Z) (cs : list call) g js d :
  let m : disk := Some (js, d) in
  geo_ok p psize g -> 130 <= len -> level 0 m -> sound g m -> Forall call_ok cs ->
  exists oks g' js' d', run_calls cs g m = Some (oks, g', Some (js', d')) /\ (length oks <= length cs)%nat /\
    (power d = None -> Forall (eq true) oks -> length oks = length cs) /\
    (Forall (eq true) oks \/ spc g = 1%nat ->
     forall ps, exists r js'' d'', boots J len ps d' = Done (r, js'', d'') /\
       let m'' : disk := Some (js'', d'') in
       level 0 m'' /\ sound g m'' /\
       exists k, (k <= length oks <= S k)%nat /\ (power d = None -> k = length oks) /\
         files g m'' = after (take k cs) oks (files g m)).
Proof.
  intros m Hg Hlen Hl Hs Hcs. destruct (run_calls_spec len cs g js d Hg Hlen Hl Hs Hcs) as (oks & g' & js' & d' & E & H1 & H2 & H3).
  exists oks, g', js', d'. do 3 (split; [done|]). intros Hcase. by destruct (H3 Hcase) as (? & ? & [= <- <-] & H).
Qed.

End Crash.

(** * FAT32: examples, and a file that does not fit its transaction

    On a volume of eight sectors per cluster, as the installer formats it, a file of fifteen
    clusters fills the transaction up to the directory's cluster. *)

(** An empty volume at sector 2048, with the journal's region at sector 16. *)
Definition small_volume : fat32_t := mkFat true 2048 512 8 32 34 2 2 1 2.

(** The table: two reserved entries, the end of the root directory's chain. *)
Definition fat_sector : list Z :=
  Bytes.le_bytes 4 0x0FFFFFF8 ++ Bytes.le_bytes 4 0x0FFFFFFF ++ Bytes.le_bytes 4 0x0FFFFFFF ++ replicate 500 0.

Definition small_dev : Dev :=
  mkDev (fun a => if (a =? 2048 + 32) || (a =? 2048 + 33) then fat_sector else replicate 512 0) None 0 2048 (fun _ => false).

Definition small_machine : machine 16 any :=
  Some (Journal.rust_journal_configure 16 200 JournalState_new small_dev, small_dev).

Definition name_a : list Z := str "A.BIN".
Definition name_b : list Z := str "B.TXT".

(** A file of 57345 bytes is written, the root directory listed, a second file written,
    and the first one read. *)
Definition failed_write : option (bool * list (list Z * Z * bool) * bool * list Z) :=
  '(ok1, g1, m1) ← fat32_write_file small_volume name_a (replicate (Z.to_nat 57345) 65) small_machine;
  '(shown, m2) ← fat32_list_root g1 m1;
  '(ok2, g2, m3) ← fat32_write_file g1 name_b [66; 66; 66] m2;
  '(_, out, _) ← fat32_read_file g2 name_a 4 m3;
  Some (ok1, shown, ok2, out).

(** A write that reports failure can leave the file behind. The write of the first file
    fails, since the directory's cluster no longer fits the transaction; but its first
    sectors were taken, so that the directory lists the file with its full size, while its
    clusters are free again. The next file gets the first of them, and reading the first
    file returns the second one's bytes. *)
Example fat_failed_write_leaves_entry : failed_write = Some (false, [(name_a, 57345, false)], true, [66; 66; 66; 0]).
Proof. vm_compute. reflexivity. Qed.

(** * FAT32: examples

    A volume of single-sector clusters with one file, on a disk with a journal, to which
    the theorems are applied. *)

(** One copy of the table in sector 65 of the disk, the root directory behind it, then the
    file's only cluster. *)
Definition wit_volume : fat32_t := mkFat true 64 512 1 1 2 2 1 1 2.

Definition wit_table : list Z :=
  Bytes.le_bytes 4 0x0FFFFFF8 ++ concat (replicate 3 (Bytes.le_bytes 4 0x0FFFFFFF)) ++ replicate 496 0.

Definition wit_name : list Z := str "A.TXT".
Definition wit_name' : list Z := str "b.txt".

Definition wit_sector (a : Z) : list Z :=
  if a =? 65 then wit_table
  else if a =? 66 then new_dirent (to_fat_8_3 wit_name) 3 5 ++ replicate 480 0
  else if a =? 67 then str "hello" ++ replicate 507 0
  else replicate 512 0.

Definition wit_dev (pw : option nat) : Dev := mkDev wit_sector pw 0 0 (fun _ => false).

Definition wit_journal (pw : option nat) : JournalState :=
  Journal.rust_journal_configure 1000 200 JournalState_new (wit_dev pw).

#[export] Instance wit_layout : Layout 64 128 1000.
Proof. split; lia. Qed.

Lemma wit_geo : geo_ok 64 128 wit_volume.
Proof. split; unfold FAT32_END_OF_CHAIN; cbn; lia. Qed.

Lemma wit_sector_bytes a : length (wit_sector a) = 512%nat /\ Forall is_u8 (wit_sector a).
Proof.
  assert (H : forall s, bool_decide (length s = 512%nat) && forallb (fun b => (0 <=? b) && (b <? 256)) s = true ->
    length s = 512%nat /\ Forall is_u8 s).
  { intros s [Hl Hb]%andb_prop. split; [by apply bool_decide_eq_true in Hl|]. apply Forall_forall. intros x Hx%list_elem_of_In.
    rewrite forallb_forall in Hb. specialize (Hb x Hx). unfold is_u8. lia. }
  unfold wit_sector. repeat (destruct (_ =? _); [apply H; by vm_compute|]). apply H. by vm_compute.
Qed.

Lemma wit_open pw : open 64 128 1000 0 (wit_journal pw) (wit_dev pw).
Proof.
  destruct (restarted_open (p := 64) (psize := 128) (J := 1000) (wit_journal pw) (wit_dev pw) wit_sector) as [H _]; try done.
  - split; [apply (boot_idle 1000 200 pw (wit_dev pw))|done].
  - intros a. apply wit_sector_bytes.
  - by apply clean_zeros.
  - intros s _. apply wit_sector_bytes.
Qed.

Definition wit_entry : fat_dirent_t := mkDirent (to_fat_8_3 wit_name) 0 0 3 5.

Section Volume.
Context (R : Dev -> Prop) `{!Rests R} (pw : option nat).

Let m : machine 1000 R := Some (wit_journal pw, wit_dev pw).

Lemma wit_level : R (wit_dev pw) -> level (p := 64) (psize := 128) 0 m.
Proof. intros HR. eexists _, _. split; [done|]. split; [apply wit_open|done]. Qed.

Lemma wit_chain c : c = 2 \/ c = 3 -> chain (p := 64) (psize := 128) wit_volume m c [c].
Proof.
  intros Hc. exists 0x0FFFFFFF. split; [done|]. split; [done|]. split; [unfold in_table, entries; cbn; lia|].
  destruct Hc as [-> | ->]; vm_compute; reflexivity.
Qed.

Lemma wit_dir :
  dir (p := 64) (psize := 128) wit_volume m [2] = wit_entry :: replicate 15 (mkDirent (replicate 11 0) 0 0 0 0).
Proof. vm_compute. reflexivity. Qed.

Lemma wit_live : live (dir (p := 64) (psize := 128) wit_volume m [2]) = [wit_entry].
Proof. rewrite wit_dir. vm_compute. reflexivity. Qed.

Lemma wit_volume_ok : volume (p := 64) (psize := 128) wit_volume m [2] [[3]].
Proof.
  split; rewrite ?wit_live.
  - apply wit_chain. by left.
  - apply Forall2_cons. split; [|constructor]. split; [right; apply wit_chain; by right|]. by vm_compute.
  - apply (bool_decide_unpack _). by vm_compute.
  - apply NoDup_singleton.
  - rewrite wit_dir. intros i j e e' Hi Hj Hij H0. destruct i as [|i]; [by injection Hi as <-|].
    destruct j as [|j]; [lia|]. cbn in Hj. by apply (lookup_replicate_1 15) in Hj as [-> _].
Qed.

Lemma wit_sound : sound (p := 64) (psize := 128) wit_volume m.
Proof. exists [2], [[3]]. apply wit_volume_ok. Qed.

Lemma wit_files : files (p := 64) (psize := 128) wit_volume m = {[ to_fat_8_3 wit_name := str "hello" ]}.
Proof.
  rewrite (files_listing wit_volume m [2] [[3]] wit_geo wit_volume_ok). unfold listing. rewrite wit_live. cbn [zip_with list_to_map foldr].
  assert (content (p := 64) (psize := 128) wit_volume m wit_entry [3] = str "hello") as -> by (vm_compute; reflexivity). done.
Qed.

End Volume.

Definition wit_disk : machine 1000 lit := Some (wit_journal None, wit_dev None).

Lemma wit_disk_files : files (p := 64) (psize := 128) wit_volume wit_disk = {[ to_fat_8_3 wit_name := str "hello" ]}.
Proof. apply wit_files. Qed.

Lemma wit_plain name : forallb (fun c => (0 <? c) && (c <? 256)) name = true -> head name <> Some 0xE5 -> plain name.
Proof.
  intros Hb Hh. split; [|done]. apply Forall_forall. intros c Hc%list_elem_of_In. rewrite forallb_forall in Hb.
  specialize (Hb c Hc). lia.
Qed.

Lemma wit_plain' : plain wit_name'.
Proof. apply wit_plain; [by vm_compute|by vm_compute]. Qed.

Lemma wit_world : Forall is_u8 (str "world").
Proof. apply bytes_check. by vm_compute. Qed.

Lemma fat_read_correct_witness :
  exists d', fat32_read_file wit_volume (str "a.txt") 10 wit_disk = Some (5, str "hello", d') /\
    fat32_read_file_range wit_volume (str "a.txt") 3 10 wit_disk = Some (2, str "lo", d').
Proof.
  destruct (fat_read_correct (p := 64) (psize := 128) 0 wit_volume wit_disk (str "a.txt") 10 3) as (d' & _ & _ & _ & E1 & E2);
    [exact wit_geo|exact (wit_level lit None eq_refl)|exact (wit_sound lit None)|lia|lia|].
  rewrite wit_disk_files in E1, E2. change (to_fat_8_3 (str "a.txt")) with (to_fat_8_3 wit_name) in E1, E2.
  rewrite lookup_singleton_eq in E1, E2. exists d'. split; [exact E1|exact E2].
Defined.

Lemma fat_list_correct_witness :
  exists shown d', fat32_list_root wit_volume wit_disk = Some (shown, d') /\ shown.*1 = [(str "A.TXT", 5)].
Proof.
  destruct (fat_list_correct (p := 64) (psize := 128) 0 wit_volume wit_disk) as (shown & d' & E & _ & _ & _ & Hp);
    [exact wit_geo|exact (wit_level lit None eq_refl)|exact (wit_sound lit None)|].
  exists shown, d'. split; [done|]. rewrite wit_disk_files, map_to_list_singleton in Hp. by apply Permutation_singleton_r in Hp.
Defined.

Lemma fat_write_correct_witness :
  exists h d', fat32_write_file wit_volume wit_name' (str "world") wit_disk = Some (true, set_hint h wit_volume, d') /\
    files (p := 64) (psize := 128) wit_volume d' =
      <[to_fat_8_3 wit_name' := str "world"]> {[ to_fat_8_3 wit_name := str "hello" ]}.
Proof.
  destruct (fat_write_correct (p := 64) (psize := 128) 0 wit_volume wit_disk wit_name' (str "world"))
    as (ok & h & d' & E & _ & _ & H);
    [exact wit_geo|exact (wit_level lit None eq_refl)|lia|exact (wit_sound lit None)|exact wit_plain'|exact wit_world|exact eq_refl|].
  rewrite wit_disk_files in H. destruct H as [_ H]; [by right|].
  assert (ok = true) as ->.
  { transitivity (match fat32_write_file wit_volume wit_name' (str "world") wit_disk with Some (ok, _, _) => ok | None => false end);
      [by rewrite E|by vm_compute]. }
  exists h, d'. split; [exact E|exact H].
Defined.

Lemma fat_delete_correct_witness :
  exists h d', fat32_delete_file wit_volume wit_name wit_disk = Some (true, set_hint h wit_volume, d') /\
    files (p := 64) (psize := 128) wit_volume d' = ∅.
Proof.
  destruct (fat_delete_correct (p := 64) (psize := 128) 0 wit_volume wit_disk wit_name) as (ok & h & d' & E & _ & _ & H);
    [exact wit_geo|exact (wit_level lit None eq_refl)|lia|exact (wit_sound lit None)|].
  rewrite wit_disk_files in H. destruct H as [_ H]; [by right|].
  assert (ok = true) as ->.
  { transitivity (match fat32_delete_file wit_volume wit_name wit_disk with Some (ok, _, _) => ok | None => false end);
      [by rewrite E|by vm_compute]. }
  exists h, d'. split; [done|]. rewrite H. apply delete_singleton_eq.
Defined.

(** Two calls on a disk that loses power after five sector writes, and twice more while it
    recovers. *)
Lemma fat_crash_consistent_witness :
  let m : machine 1000 any := Some (wit_journal (Some 5%nat), wit_dev (Some 5%nat)) in
  exists oks g' js' d', run_calls [Create wit_name' (str "world"); Delete wit_name] wit_volume m = Some (oks, g', Some (js', d')) /\
    exists r js'' d'', boots 1000 200 [3%nat; 1%nat] d' = Done (r, js'', d'') /\
      sound (p := 64) (psize := 128) wit_volume (Some (js'', d'') : machine 1000 any).
Proof.
  destruct (fat_crash_consistent (p := 64) (psize := 128) (J := 1000) 200 [Create wit_name' (str "world"); Delete wit_name]
    wit_volume (wit_journal (Some 5%nat)) (wit_dev (Some 5%nat))) as (oks & g' & js' & d' & E & _ & _ & H);
    [exact wit_geo|lia|exact (wit_level any (Some 5%nat) I)|exact (wit_sound any (Some 5%nat))| |].
  { constructor; [exact (conj wit_plain' (conj wit_world eq_refl))|]. constructor; [exact I|constructor]. }
  exists oks, g', js', d'. split; [exact E|]. destruct (H (or_intror eq_refl) [3%nat; 1%nat]) as (r & js'' & d'' & Eb & _ & Hs & _).
  exists r, js'', d''. split; [exact Eb|exact Hs].
Defined.
