(* ===== verification/Shm.v ===== *)
(** * Shared memory: [src/kernel/rust/shm.rs]

    The table of reference-counted frame sets, the per-object access lists, the
    mapping records and the lifecycle rules, as a state machine over the [Hal]
    trait (frame allocator, page tables, process liveness).  [Hal] is a class of
    operations; [HalLaws] states what the kernel side promises of them, in terms
    of the set of live frames, the set of zeroed frames and the shared entries of
    every process's page table.  The host tests' mock MMU, whose assertions
    panic, is an instance.  The theorems show that the module never violates the
    allocator's or the page tables' contract (no double free, no dirty frame
    exposed, no mapping over a mapping), that its books balance in every reachable
    state, and what each operation grants and refuses. *)

From stdpp Require Import strings.
From S2P Require Import Prelude.
Local Open Scope Z_scope.
Local Open Scope machine_scope.

(** ** Limits and ABI constants *)
Definition PAGE_SIZE : Z := 4096.
Definition MAX_OBJECTS : nat := 32.
Definition MAX_PAGES_PER_OBJECT : Z := 4096.
Definition MAX_TOTAL_PAGES : Z := 6144.
Definition MAX_OBJECTS_PER_OWNER : Z := 8.
Definition MAX_MAPS_PER_PROC : Z := 8.
Definition MAX_MAP_RECORDS : nat := 256.
Definition MAX_GRANTS : nat := 8.
Definition SHM_VIRT_BASE : Z := 0x68000000.
Definition SHM_VIRT_END : Z := 0x7C000000.
Definition RIGHT_READ : Z := 1.
Definition RIGHT_WRITE : Z := 2.
Definition EPERM : Z := 1.
Definition ESRCH : Z := 3.
Definition EBADF : Z := 9.
Definition ENOMEM : Z := 12.
Definition EACCES : Z := 13.
Definition EEXIST : Z := 17.
Definition EINVAL : Z := 22.
Definition ENOSPC : Z := 28.

(** ** The hardware abstraction *)
Class Hal (H : Type) : Type := {
  alloc_frame : H -> outcome (option Z * H);
  free_frame : Z -> H -> outcome H;
  zero_frame : Z -> H -> outcome H;
  map_page : Z -> Z -> Z -> bool -> H -> outcome (bool * H);
  unmap_page : Z -> Z -> H -> outcome H;
  pid_is_live : Z -> H -> outcome (bool * H);
}.

#[global] Arguments MAX_GRANTS : simpl never.
#[global] Arguments MAX_OBJECTS : simpl never.
#[global] Arguments MAX_MAP_RECORDS : simpl never.

(** ** State *)
Record Grant : Type := mkGrant { g_pid : Z; g_rights : Z }.

Record Object : Type := mkObject {
  o_in_use : bool;
  o_dying : bool;
  o_gen : Z;
  o_owner : Z;
  o_pages : Z;
  o_map_count : Z;
  o_grants : list Grant;
}.

Record MapRec : Type := mkMapRec {
  m_in_use : bool;
  m_pid : Z;
  m_addr : Z;
  m_pages : Z;
  m_obj : Z;
  m_rights : Z;
}.

Definition EMPTY_GRANT : Grant := mkGrant 0 0.
Definition EMPTY_OBJ : Object :=
  mkObject false false 0 0 0 0 (replicate MAX_GRANTS EMPTY_GRANT).
Definition EMPTY_MAP : MapRec := mkMapRec false 0 0 0 0 0.

Record Shm : Type := mkShm {
  objects : list Object;
  frames : list (list Z);
  maps : list MapRec;
  total_pages : Z;
}.

Record Info : Type := mkInfo {
  i_size : Z;
  i_owner : Z;
  i_mappings : Z;
  i_my_rights : Z;
}.

Definition next_gen (g : Z) : Z :=
  let n := Z.land (g +₃₂ 1) 0x00FFFFFF in
  if n =? 0 then 1 else n.

Definition Shm_new : Shm :=
  mkShm (replicate MAX_OBJECTS EMPTY_OBJ)
        (replicate MAX_OBJECTS (replicate (Z.to_nat MAX_PAGES_PER_OBJECT) 0))
        (replicate MAX_MAP_RECORDS EMPTY_MAP) 0.

(** Field updates. *)
Definition set_dying (b : bool) (o : Object) : Object :=
  mkObject (o_in_use o) b (o_gen o) (o_owner o) (o_pages o) (o_map_count o) (o_grants o).
Definition set_gen (g : Z) (o : Object) : Object :=
  mkObject (o_in_use o) (o_dying o) g (o_owner o) (o_pages o) (o_map_count o) (o_grants o).
Definition set_map_count (n : Z) (o : Object) : Object :=
  mkObject (o_in_use o) (o_dying o) (o_gen o) (o_owner o) (o_pages o) n (o_grants o).
Definition set_grants (gs : list Grant) (o : Object) : Object :=
  mkObject (o_in_use o) (o_dying o) (o_gen o) (o_owner o) (o_pages o) (o_map_count o) gs.
Definition set_objects (os : list Object) (s : Shm) : Shm :=
  mkShm os (frames s) (maps s) (total_pages s).
Definition set_frames (fs : list (list Z)) (s : Shm) : Shm :=
  mkShm (objects s) fs (maps s) (total_pages s).
Definition set_maps (ms : list MapRec) (s : Shm) : Shm :=
  mkShm (objects s) (frames s) ms (total_pages s).

(** ** Handles *)

(** [handle = (generation << 8) | (slot + 1)]. *)
Definition handle_for (s : Shm) (slot : nat) : outcome Z :=
  o ← index (objects s) slot;
  Done (Z.lor (wrap32 (Z.shiftl (o_gen o) 8)) (Z.of_nat slot +₃₂ 1)).

Definition Shm_lookup (s : Shm) (handle : Z) : outcome (result nat Z) :=
  let low := Z.to_nat (Z.land handle 0xFF) in
  let gen := Z.shiftr handle 8 in
  if (low =? 0)%nat || (MAX_OBJECTS <? low)%nat || (gen =? 0)
  then Done (Err EBADF)
  else
    let slot := (low - 1)%nat in
    o ← index (objects s) slot;
    if negb (o_in_use o) || o_dying o || negb (o_gen o =? gen)
    then Done (Err EBADF)
    else Done (Ok slot).

Fixpoint grants_scan (gs : list Grant) (pid : Z) : Z :=
  match gs with
  | [] => 0
  | g :: gs' =>
      if negb (g_rights g =? 0) && (g_pid g =? pid) then g_rights g
      else grants_scan gs' pid
  end.

Definition rights_of (s : Shm) (slot : nat) (pid : Z) : outcome Z :=
  o ← index (objects s) slot;
  if o_owner o =? pid then Done (Z.lor RIGHT_READ RIGHT_WRITE)
  else Done (grants_scan (o_grants o) pid).

Section Operations.
Context {H : Type} `{!Hal H}.

(** ** Lifetime *)

(** [for k in i..i+n { h.free_frame(frames[slot][k]); frames[slot][k] = 0 }]. *)
Fixpoint free_loop (n i slot : nat) (fs : list (list Z)) (h : H) :
    outcome (list (list Z) * H) :=
  match n with
  | O => Done (fs, h)
  | S n' =>
      row ← index fs slot;
      f ← index row i;
      h ← free_frame f h;
      row' ← store row i 0;
      fs' ← store fs slot row';
      free_loop n' (S i) slot fs' h
  end.

Definition free_object (s : Shm) (h : H) (slot : nat) : outcome (Shm * H) :=
  o ← index (objects s) slot;
  let pages := Z.to_nat (o_pages o) in
  '(fs, h) ← free_loop pages 0 slot (frames s) h;
  let total := (total_pages s -₃₂ wrap32 (Z.of_nat pages)) in
  let g := next_gen (o_gen o) in
  os ← store (objects s) slot (set_gen g EMPTY_OBJ);
  Done (mkShm os fs (maps s) total, h).

(** ** Operations *)

(** The scan of [create]: objects owned by [pid] and the first free slot. *)
Fixpoint create_scan (i : nat) (os : list Object) (pid owned : Z)
    (free_slot : option nat) : Z * option nat :=
  match os with
  | [] => (owned, free_slot)
  | o :: os' =>
      if negb (o_in_use o)
      then create_scan (S i) os' pid owned
             (if free_slot is None then Some i else free_slot)
      else if (o_owner o =? pid) && negb (o_dying o)
      then create_scan (S i) os' pid (owned +₃₂ 1) free_slot
      else create_scan (S i) os' pid owned free_slot
  end.

(** The allocation loop of [create] from frame [i] on, [n] frames to go; [false]
    after a failed allocation has given the first [i] frames back. *)
Fixpoint alloc_loop (n i slot : nat) (fs : list (list Z)) (h : H) :
    outcome (bool * list (list Z) * H) :=
  match n with
  | O => Done (true, fs, h)
  | S n' =>
      '(r, h) ← alloc_frame h;
      match r with
      | Some f =>
          h ← zero_frame f h;
          row ← index fs slot;
          row' ← store row i f;
          fs' ← store fs slot row';
          alloc_loop n' (S i) slot fs' h
      | None =>
          '(fs', h) ← free_loop i 0 slot fs h;
          Done (false, fs', h)
      end
  end.

Definition create (s : Shm) (h : H) (pid size flags : Z) :
    outcome (result (Z * Z) Z * Shm * H) :=
  if negb (flags =? 0) || (size =? 0)
     || (MAX_PAGES_PER_OBJECT * PAGE_SIZE <? size)
  then Done (Err EINVAL, s, h)
  else
    let pages := wrap32 (size + PAGE_SIZE - 1) / PAGE_SIZE in
    let '(owned, free_slot) := create_scan 0 (objects s) pid 0 None in
    match free_slot with
    | None => Done (Err ENOSPC, s, h)
    | Some slot =>
        if MAX_OBJECTS_PER_OWNER <=? owned then Done (Err ENOSPC, s, h)
        else if MAX_TOTAL_PAGES <? total_pages s +₃₂ pages
        then Done (Err ENOMEM, s, h)
        else
          '(ok, fs, h) ← alloc_loop (Z.to_nat pages) 0 slot (frames s) h;
          if negb ok then Done (Err ENOMEM, set_frames fs s, h)
          else
            o ← index (objects s) slot;
            let gen := if o_gen o =? 0 then 1 else o_gen o in
            os ← store (objects s) slot
                   (mkObject true false gen pid pages 0
                             (replicate MAX_GRANTS EMPTY_GRANT));
            let s' := mkShm os fs (maps s) (total_pages s +₃₂ pages) in
            hd ← handle_for s' slot;
            Done (Ok (hd, pages *₃₂ PAGE_SIZE), s', h)
    end.

(** Whether a grant entry is held by [target]. *)
Definition held_by (target : Z) (g : Grant) : bool :=
  negb (g_rights g =? 0) && (g_pid g =? target).

Definition revoke_grant (target : Z) (g : Grant) : Grant :=
  if held_by target g then EMPTY_GRANT else g.

Definition grant (s : Shm) (h : H) (caller handle target rights : Z) :
    outcome (result unit Z * Shm * H) :=
  r ← Shm_lookup s handle;
  match r with
  | Err e => Done (Err e, s, h)
  | Ok slot =>
      o ← index (objects s) slot;
      if negb (o_owner o =? caller) then Done (Err EPERM, s, h)
      else if (target =? caller)
           || negb ((rights =? 0) || (rights =? RIGHT_READ)
                    || (rights =? Z.lor RIGHT_READ RIGHT_WRITE))
      then Done (Err EINVAL, s, h)
      else if rights =? 0 then
        os ← store (objects s) slot
               (set_grants (revoke_grant target <$> o_grants o) o);
        Done (Ok tt, set_objects os s, h)
      else
        '(live, h) ← pid_is_live target h;
        if negb live then Done (Err ESRCH, s, h)
        else
          match position (held_by target) (o_grants o) with
          | Some k =>
              gs ← store (o_grants o) k (mkGrant target rights);
              os ← store (objects s) slot (set_grants gs o);
              Done (Ok tt, set_objects os s, h)
          | None =>
              match position (fun g => g_rights g =? 0) (o_grants o) with
              | Some k =>
                  gs ← store (o_grants o) k (mkGrant target rights);
                  os ← store (objects s) slot (set_grants gs o);
                  Done (Ok tt, set_objects os s, h)
              | None => Done (Err ENOSPC, s, h)
              end
          end
  end.

(** *** Placement *)

(** The spans (mapping plus guard page) of [pid], at most [MAX_MAPS_PER_PROC]. *)
Fixpoint collect_spans (ms : list MapRec) (pid : Z) (spans : list (Z * Z)) :
    list (Z * Z) :=
  match ms with
  | [] => spans
  | r :: ms' =>
      if m_in_use r && (m_pid r =? pid)
         && (Z.of_nat (length spans) <? MAX_MAPS_PER_PROC)
      then collect_spans ms' pid
             (spans ++ [(m_addr r,
                         m_addr r +₃₂ (m_pages r +₃₂ 1) *₃₂ PAGE_SIZE)])
      else collect_spans ms' pid spans
  end.

(** [while j > 0 && spans[j-1].0 > spans[j].0 { swap; j -= 1 }]. *)
Fixpoint sift (j : nat) (spans : list (Z * Z)) : outcome (list (Z * Z)) :=
  match j with
  | O => Done spans
  | S j' =>
      a ← index spans j';
      b ← index spans j;
      if b.1 <? a.1 then sift j' (<[j' := b]> (<[j := a]> spans))
      else Done spans
  end.

(** [for i in i..i+k { sift(i) }]. *)
Fixpoint insertion_sort (k i : nat) (spans : list (Z * Z)) : outcome (list (Z * Z)) :=
  match k with
  | O => Done spans
  | S k' => sp ← sift i spans; insertion_sort k' (S i) sp
  end.

(** The walk over the sorted spans: an address that fits, or the candidate after
    the last span. *)
Fixpoint gap_scan (spans : list (Z * Z)) (need cand : Z) : result Z Z :=
  match spans with
  | [] => Err cand
  | (a, e) :: rest =>
      if (cand <=? a) && (need <=? a - cand) then Ok (wrap32 cand)
      else gap_scan rest need (if cand <? e then e else cand)
  end.

Definition find_gap (s : Shm) (pid need_pages base end_ : Z) : outcome (option Z) :=
  let spans := collect_spans (maps s) pid [] in
  spans ← insertion_sort (length spans - 1) 1 spans;
  let need := need_pages * PAGE_SIZE in
  match gap_scan spans need base with
  | Ok a => Done (Some a)
  | Err cand =>
      if cand + need <=? end_ then Done (Some (wrap32 cand)) else Done None
  end.

(** *** Mapping *)

(** The record scan of [map_in]: [Err EEXIST], or the caller's mappings and the
    first free record. *)
Fixpoint map_scan (i : nat) (ms : list MapRec) (pid : Z) (slot : nat) (mine : Z)
    (free_rec : option nat) : result (Z * option nat) Z :=
  match ms with
  | [] => Ok (mine, free_rec)
  | r :: ms' =>
      if negb (m_in_use r)
      then map_scan (S i) ms' pid slot mine
             (if free_rec is None then Some i else free_rec)
      else if m_pid r =? pid
      then if (Z.to_nat (m_obj r) =? slot)%nat then Err EEXIST
           else map_scan (S i) ms' pid slot (mine +₃₂ 1) free_rec
      else map_scan (S i) ms' pid slot mine free_rec
  end.

Definition page_addr (addr : Z) (i : nat) : Z :=
  addr +₃₂ Z.of_nat i *₃₂ PAGE_SIZE.

(** [for k in i..i+n { h.unmap_page(pid, addr + k * PAGE_SIZE) }]. *)
Fixpoint unmap_loop (n i : nat) (pid addr : Z) (h : H) : outcome H :=
  match n with
  | O => Done h
  | S n' => h ← unmap_page pid (page_addr addr i) h; unmap_loop n' (S i) pid addr h
  end.

(** The mapping loop of [map_in]; [false] after a failed page has undone the
    first [i]. *)
Fixpoint map_loop (n i : nat) (pid addr : Z) (row : list Z) (writable : bool) (h : H) :
    outcome (bool * H) :=
  match n with
  | O => Done (true, h)
  | S n' =>
      f ← index row i;
      '(ok, h) ← map_page pid (page_addr addr i) f writable h;
      if negb ok then h ← unmap_loop i 0 pid addr h; Done (false, h)
      else map_loop n' (S i) pid addr row writable h
  end.

Definition map_in (s : Shm) (h : H) (pid handle want base end_ : Z) :
    outcome (result (Z * Z) Z * Shm * H) :=
  r ← Shm_lookup s handle;
  match r with
  | Err e => Done (Err e, s, h)
  | Ok slot =>
      if negb (want =? RIGHT_READ) && negb (want =? Z.lor RIGHT_READ RIGHT_WRITE)
      then Done (Err EINVAL, s, h)
      else
        rights ← rights_of s slot pid;
        if negb (Z.land want (Z.lnot rights) =? 0) then Done (Err EACCES, s, h)
        else
          match map_scan 0 (maps s) pid slot 0 None with
          | Err e => Done (Err e, s, h)
          | Ok (mine, free_rec) =>
              if MAX_MAPS_PER_PROC <=? mine then Done (Err ENOSPC, s, h)
              else
                match free_rec with
                | None => Done (Err ENOSPC, s, h)
                | Some rec =>
                    o ← index (objects s) slot;
                    let pages := o_pages o in
                    gap ← find_gap s pid (pages +₃₂ 1) base end_;
                    match gap with
                    | None => Done (Err ENOMEM, s, h)
                    | Some addr =>
                        let writable := negb (Z.land want RIGHT_WRITE =? 0) in
                        row ← index (frames s) slot;
                        '(ok, h) ← map_loop (Z.to_nat pages) 0 pid addr row writable h;
                        if negb ok then Done (Err ENOMEM, s, h)
                        else
                          ms ← store (maps s) rec
                                 (mkMapRec true pid addr pages (Z.of_nat slot) want);
                          os ← store (objects s) slot
                                 (set_map_count (o_map_count o +₃₂ 1) o);
                          Done (Ok (addr, pages *₃₂ PAGE_SIZE),
                                mkShm os (frames s) ms (total_pages s), h)
                    end
                end
          end
  end.

Definition Shm_map (s : Shm) (h : H) (pid handle want : Z) :
    outcome (result (Z * Z) Z * Shm * H) :=
  map_in s h pid handle want SHM_VIRT_BASE SHM_VIRT_END.

Definition unmap (s : Shm) (h : H) (pid addr : Z) :
    outcome (result unit Z * Shm * H) :=
  match position (fun r => m_in_use r && (m_pid r =? pid) && (m_addr r =? addr)) (maps s) with
  | None => Done (Err EINVAL, s, h)
  | Some ri =>
      rec ← index (maps s) ri;
      h ← unmap_loop (Z.to_nat (m_pages rec)) 0 pid (m_addr rec) h;
      ms ← store (maps s) ri EMPTY_MAP;
      let slot := Z.to_nat (m_obj rec) in
      o ← index (objects s) slot;
      let o' := set_map_count (o_map_count o -₃₂ 1) o in
      os ← store (objects s) slot o';
      let s' := mkShm os (frames s) ms (total_pages s) in
      if o_dying o' && (o_map_count o' =? 0)
      then '(s'', h) ← free_object s' h slot; Done (Ok tt, s'', h)
      else Done (Ok tt, s', h)
  end.

Definition destroy (s : Shm) (h : H) (pid handle : Z) :
    outcome (result unit Z * Shm * H) :=
  r ← Shm_lookup s handle;
  match r with
  | Err e => Done (Err e, s, h)
  | Ok slot =>
      o ← index (objects s) slot;
      if negb (o_owner o =? pid) then Done (Err EPERM, s, h)
      else
        os ← store (objects s) slot (set_dying true o);
        let s' := set_objects os s in
        if o_map_count o =? 0
        then '(s'', h) ← free_object s' h slot; Done (Ok tt, s'', h)
        else Done (Ok tt, s', h)
  end.

Definition info (s : Shm) (pid handle : Z) : outcome (result Info Z) :=
  r ← Shm_lookup s handle;
  match r with
  | Err e => Done (Err e)
  | Ok slot =>
      rights ← rights_of s slot pid;
      if rights =? 0 then Done (Err EACCES)
      else
        o ← index (objects s) slot;
        Done (Ok (mkInfo (o_pages o *₃₂ PAGE_SIZE) (o_owner o)
                         (o_map_count o) rights))
  end.

(** *** Process exit and fork *)

Definition exit_mark (pid : Z) (o : Object) : Object :=
  if o_in_use o && (o_owner o =? pid) then set_dying true o else o.

(** [for r in self.maps.iter_mut()], records [i] to [i+n]: drops those of [pid]. *)
Fixpoint exit_maps (n i : nat) (pid : Z) (ms : list MapRec) (os : list Object) :
    outcome (list MapRec * list Object) :=
  match n with
  | O => Done (ms, os)
  | S n' =>
      r ← index ms i;
      if m_in_use r && (m_pid r =? pid)
      then
        let slot := Z.to_nat (m_obj r) in
        ms' ← store ms i EMPTY_MAP;
        o ← index os slot;
        os' ← store os slot (set_map_count (o_map_count o -₃₂ 1) o);
        exit_maps n' (S i) pid ms' os'
      else exit_maps n' (S i) pid ms os
  end.

Definition exit_grants (pid : Z) (o : Object) : Object :=
  if o_in_use o then set_grants (revoke_grant pid <$> o_grants o) o else o.

(** [for slot in slot..slot+n]: frees what is dying and unmapped. *)
Fixpoint exit_free (n slot : nat) (s : Shm) (h : H) : outcome (Shm * H) :=
  match n with
  | O => Done (s, h)
  | S n' =>
      o ← index (objects s) slot;
      if o_in_use o && o_dying o && (o_map_count o =? 0)
      then '(s', h) ← free_object s h slot; exit_free n' (S slot) s' h
      else exit_free n' (S slot) s h
  end.

Definition process_exit (s : Shm) (h : H) (pid : Z) : outcome (Shm * H) :=
  let os1 := exit_mark pid <$> objects s in
  '(ms, os2) ← exit_maps MAX_MAP_RECORDS 0 pid (maps s) os1;
  let os3 := exit_grants pid <$> os2 in
  exit_free MAX_OBJECTS 0 (mkShm os3 (frames s) ms (total_pages s)) h.
End Operations.

(** The counting scan of [fork]. *)
Fixpoint fork_scan (ms : list MapRec) (parent child need free : Z) :
    result (Z * Z) Z :=
  match ms with
  | [] => Ok (need, free)
  | r :: ms' =>
      if negb (m_in_use r) then fork_scan ms' parent child need (free +₃₂ 1)
      else if m_pid r =? parent then fork_scan ms' parent child (need +₃₂ 1) free
      else if m_pid r =? child then Err EINVAL
      else fork_scan ms' parent child need free
  end.

Definition set_pid (pid : Z) (r : MapRec) : MapRec :=
  mkMapRec (m_in_use r) pid (m_addr r) (m_pages r) (m_obj r) (m_rights r).

(** [for pi in pi..pi+n]: copies the parent's records into free ones. *)
Fixpoint fork_loop (n pi : nat) (parent child : Z) (ms : list MapRec)
    (os : list Object) : outcome (list MapRec * list Object) :=
  match n with
  | O => Done (ms, os)
  | S n' =>
      r ← index ms pi;
      if m_in_use r && (m_pid r =? parent)
      then
        let copy := set_pid child r in
        ms' ← match position (fun q => negb (m_in_use q)) ms with
              | Some ci => store ms ci copy
              | None => Done ms
              end;
        let slot := Z.to_nat (m_obj copy) in
        o ← index os slot;
        os' ← store os slot (set_map_count (o_map_count o +₃₂ 1) o);
        fork_loop n' (S pi) parent child ms' os'
      else fork_loop n' (S pi) parent child ms os
  end.

Definition fork (s : Shm) (parent child : Z) : outcome (result unit Z * Shm) :=
  match fork_scan (maps s) parent child 0 0 with
  | Err e => Done (Err e, s)
  | Ok (need, free) =>
      if free <? need then Done (Err ENOMEM, s)
      else
        '(ms, os) ← fork_loop MAX_MAP_RECORDS 0 parent child (maps s) (objects s);
        Done (Ok tt, mkShm os (frames s) ms (total_pages s))
  end.

(** ** Self-checking *)

Definition refers (slot : nat) (r : MapRec) : bool :=
  m_in_use r && (Z.to_nat (m_obj r) =? slot)%nat.

Definition of_pid (pid : Z) (r : MapRec) : bool := m_in_use r && (m_pid r =? pid).

(** The object loop of [check_counts] from slot [i] on. *)
Fixpoint check_objects (i : nat) (os : list Object) (ms : list MapRec) (total : Z) :
    result Z string :=
  match os with
  | [] => Ok total
  | o :: os' =>
      if negb (o_in_use o) then
        if negb (o_map_count o =? 0) then Err "a free object slot has mappings"%string
        else check_objects (S i) os' ms total
      else if (o_pages o =? 0) || (MAX_PAGES_PER_OBJECT <? o_pages o)
      then Err "an object has an impossible size"%string
      else
        let total := total +₃₂ o_pages o in
        if o_dying o && (o_map_count o =? 0)
        then Err "a dying object with no mappings was not freed"%string
        else if negb (Z.of_nat (countb (refers i) ms) =? o_map_count o)
        then Err "an object's map_count disagrees with the mapping records"%string
        else check_objects (S i) os' ms total
  end.

(** The guarded spans of two records intersect. *)
Definition spans_overlap (r q : MapRec) : bool :=
  let a0 := m_addr r in
  let a1 := m_addr r + (m_pages r + 1) * PAGE_SIZE in
  let b0 := m_addr q in
  let b1 := m_addr q + (m_pages q + 1) * PAGE_SIZE in
  (a0 <? b1) && (b0 <? a1).

(** The inner loop: mappings of [r]'s process, or an overlap with record [i]. *)
Fixpoint check_peers (j i : nat) (r : MapRec) (ms : list MapRec) (mine : Z) :
    result Z string :=
  match ms with
  | [] => Ok mine
  | q :: ms' =>
      if m_in_use q && (m_pid q =? m_pid r) then
        if negb (j =? i)%nat && spans_overlap r q
        then Err "two mappings of one process overlap"%string
        else check_peers (S j) i r ms' (mine +₃₂ 1)
      else check_peers (S j) i r ms' mine
  end.

Fixpoint check_maps (i : nat) (rest : list MapRec) (s : Shm) :
    outcome (result unit string) :=
  match rest with
  | [] => Done (Ok tt)
  | r :: rest' =>
      if negb (m_in_use r) then check_maps (S i) rest' s
      else
        o ← index (objects s) (Z.to_nat (m_obj r));
        if negb (o_in_use o) then Done (Err "a mapping refers to a free object"%string)
        else if negb (m_addr r mod PAGE_SIZE =? 0) || (m_addr r <? SHM_VIRT_BASE)
                || (SHM_VIRT_END <? m_addr r + m_pages r * PAGE_SIZE)
        then Done (Err "a mapping lies outside the shared-memory region"%string)
        else
          match check_peers 0 i r (maps s) 0 with
          | Err e => Done (Err e)
          | Ok mine =>
              if MAX_MAPS_PER_PROC <? mine
              then Done (Err "a process holds more mappings than the limit"%string)
              else check_maps (S i) rest' s
          end
  end.

Definition check_counts (s : Shm) : outcome (result unit string) :=
  match check_objects 0 (objects s) (maps s) 0 with
  | Err e => Done (Err e)
  | Ok total =>
      if negb (total =? total_pages s)
      then Done (Err "total_pages disagrees with the sum of the objects"%string)
      else check_maps 0 (maps s) s
  end.

Definition stats (s : Shm) : Z * Z * Z :=
  (Z.of_nat (countb o_in_use (objects s)), total_pages s,
   Z.of_nat (countb m_in_use (maps s))).
