(* ===== verification/ShmHal.v ===== *)
(** * What shared memory relies on: the frame allocator and the page tables

    [HalLaws] is the contract between [shm.rs] and the kernel side of its [Hal]
    trait ([src/kernel/ipc/shm.c], [pmm.c], [paging.c], and [fork]/teardown in
    [process.c]), stated over three observations of the kernel: the frames handed
    to the module and not returned ([live]), those of them zeroed since they were
    handed out ([clean]), and the shared page-table entries ([pt]).  The contract
    says nothing about an operation called outside its precondition; [Mmu], a
    reference kernel in the shape of the mock of the module's host tests, panics
    there (double free, free or mapping of a frame that is not live, mapping of a
    frame that was not zeroed, unaligned mapping, mapping over an entry, unmapping
    of nothing). *)

From S2P Require Import Prelude Shm.
Local Open Scope Z_scope.

(** What [process.c] does to the shared entries of page tables: [fork_pd] copies
    the parent's into the child, [teardown_pd] discards a process's. *)
Class ProcHal (H : Type) : Type := {
  fork_pd : Z -> Z -> H -> H;
  teardown_pd : Z -> H -> H;
}.

Class HalLaws (H : Type) `{!Hal H, !ProcHal H} : Type := {
  hal_ok : H -> Prop;
  live : H -> gset Z;
  clean : H -> gset Z;
  pt : H -> Z -> Z -> option (Z * bool);

  clean_live h : hal_ok h -> (clean h ⊆ live h);
  alloc_frame_law h :
    hal_ok h ->
    exists r h', alloc_frame h = Done (r, h') /\ hal_ok h' /\
      (forall p v, pt h' p v = pt h p v) /\
      match r with
      | None => live h' = live h /\ clean h' = clean h
      | Some f => (f ∉ live h) /\ live h' = {[f]} ∪ live h /\ clean h' = clean h
      end;
  free_frame_law f h :
    hal_ok h -> f ∈ live h ->
    exists h', free_frame f h = Done h' /\ hal_ok h' /\
      (forall p v, pt h' p v = pt h p v) /\
      live h' = live h ∖ {[f]} /\ clean h' = clean h ∖ {[f]};
  zero_frame_law f h :
    hal_ok h -> f ∈ live h ->
    exists h', zero_frame f h = Done h' /\ hal_ok h' /\
      (forall p v, pt h' p v = pt h p v) /\
      live h' = live h /\ clean h' = {[f]} ∪ clean h;
  map_page_law pid va f w h :
    hal_ok h -> f ∈ clean h -> va mod PAGE_SIZE = 0 -> pt h pid va = None ->
    exists ok h', map_page pid va f w h = Done (ok, h') /\ hal_ok h' /\
      live h' = live h /\ clean h' = clean h /\
      forall p v, pt h' p v =
        if ok && ((p =? pid) && (v =? va)) then Some (f, w) else pt h p v;
  unmap_page_law pid va e h :
    hal_ok h -> pt h pid va = Some e ->
    exists h', unmap_page pid va h = Done h' /\ hal_ok h' /\
      live h' = live h /\ clean h' = clean h /\
      forall p v, pt h' p v = if (p =? pid) && (v =? va) then None else pt h p v;
  pid_is_live_law pid h :
    hal_ok h ->
    exists b h', pid_is_live pid h = Done (b, h') /\ hal_ok h' /\
      (forall p v, pt h' p v = pt h p v) /\ live h' = live h /\ clean h' = clean h;
  fork_pd_law parent child h :
    hal_ok h ->
    hal_ok (fork_pd parent child h) /\
    live (fork_pd parent child h) = live h /\ clean (fork_pd parent child h) = clean h /\
    forall p v, pt (fork_pd parent child h) p v =
      if p =? child then pt h parent v else pt h p v;
  teardown_pd_law pid h :
    hal_ok h ->
    hal_ok (teardown_pd pid h) /\
    live (teardown_pd pid h) = live h /\ clean (teardown_pd pid h) = clean h /\
    forall p v, pt (teardown_pd pid h) p v = if p =? pid then None else pt h p v;
}.

(** ** A reference kernel *)

Record Mmu : Type := mkMmu {
  next_frame : Z;
  mlive : gset Z;
  dirty : gset Z;
  tables : gmap (Z * Z) (Z * bool);
  live_pids : gset Z;
  frames_left : nat;
}.

(** [n] free frames, processes 1 to 10 alive. *)
Definition Mmu_new (n : nat) : Mmu :=
  mkMmu 0x00100000 ∅ ∅ ∅ (list_to_set (Z.of_nat <$> seq 1 10)) n.

Definition with_tables (t : gmap (Z * Z) (Z * bool)) (m : Mmu) : Mmu :=
  mkMmu (next_frame m) (mlive m) (dirty m) t (live_pids m) (frames_left m).

Definition Mmu_alloc (m : Mmu) : outcome (option Z * Mmu) :=
  match frames_left m with
  | O => Done (None, m)
  | S n =>
      let f := next_frame m in
      Done (Some f, mkMmu (f + PAGE_SIZE) ({[f]} ∪ mlive m) ({[f]} ∪ dirty m)
                      (tables m) (live_pids m) n)
  end.

Definition Mmu_free (f : Z) (m : Mmu) : outcome Mmu :=
  if bool_decide (f ∈ mlive m)
  then Done (mkMmu (next_frame m) (mlive m ∖ {[f]}) (dirty m ∖ {[f]}) (tables m)
               (live_pids m) (frames_left m))
  else Panic.

Definition Mmu_zero (f : Z) (m : Mmu) : outcome Mmu :=
  if bool_decide (f ∈ mlive m)
  then Done (mkMmu (next_frame m) (mlive m) (dirty m ∖ {[f]}) (tables m)
               (live_pids m) (frames_left m))
  else Panic.

Definition Mmu_map (pid va f : Z) (w : bool) (m : Mmu) : outcome (bool * Mmu) :=
  if bool_decide (f ∈ mlive m) && negb (bool_decide (f ∈ dirty m))
     && (va mod PAGE_SIZE =? 0) && bool_decide (tables m !! (pid, va) = None)
  then Done (true, with_tables (<[(pid, va) := (f, w)]> (tables m)) m)
  else Panic.

Definition Mmu_unmap (pid va : Z) (m : Mmu) : outcome Mmu :=
  if bool_decide (is_Some (tables m !! (pid, va)))
  then Done (with_tables (delete (pid, va) (tables m)) m)
  else Panic.

#[export] Instance Mmu_Hal : Hal Mmu := {
  alloc_frame := Mmu_alloc;
  free_frame := Mmu_free;
  zero_frame := Mmu_zero;
  map_page := Mmu_map;
  unmap_page := Mmu_unmap;
  pid_is_live := fun pid m => Done (bool_decide (pid ∈ live_pids m), m);
}.

(** The entries of one process, renamed to another. *)
Definition copy_entries (parent child : Z) (t : gmap (Z * Z) (Z * bool)) :
    gmap (Z * Z) (Z * bool) :=
  list_to_map ((fun e : (Z * Z) * (Z * bool) => ((child, e.1.2), e.2)) <$>
     map_to_list (filter (fun e => e.1.1 = parent) t)).

Definition drop_entries (pid : Z) (t : gmap (Z * Z) (Z * bool)) :
    gmap (Z * Z) (Z * bool) :=
  filter (fun e => e.1.1 <> pid) t.

#[export] Instance Mmu_ProcHal : ProcHal Mmu := {
  fork_pd := fun parent child m =>
    let t := tables m in
    mkMmu (next_frame m) (mlive m) (dirty m)
      (copy_entries parent child t ∪ drop_entries child t)
      ({[child]} ∪ live_pids m) (frames_left m);
  teardown_pd := fun pid m =>
    mkMmu (next_frame m) (mlive m) (dirty m) (drop_entries pid (tables m))
      (live_pids m ∖ {[pid]}) (frames_left m);
}.

(** Frames are handed out in increasing order. *)
Definition Mmu_ok (m : Mmu) : Prop := forall f, f ∈ mlive m -> f < next_frame m.

Lemma drop_entries_lookup pid t p v :
  drop_entries pid t !! (p, v) = if p =? pid then None else t !! (p, v).
Proof.
  unfold drop_entries. destruct (p =? pid) eqn:E.
  - apply map_lookup_filter_None. right. intros e He. simpl. lia.
  - destruct (t !! (p, v)) as [e|] eqn:Ht.
    + apply map_lookup_filter_Some. split; [done|]. simpl. lia.
    + apply map_lookup_filter_None. by left.
Qed.

Lemma copy_entries_lookup parent child t p v :
  copy_entries parent child t !! (p, v) =
  if p =? child then t !! (parent, v) else None.
Proof.
  unfold copy_entries.
  set (l := (fun e : (Z * Z) * (Z * bool) => ((child, e.1.2), e.2)) <$> _).
  assert (Hin : forall k e, (k, e) ∈ l <-> k.1 = child /\ t !! (parent, k.2) = Some e).
  { intros [k1 k2] e. unfold l. rewrite list_elem_of_fmap. split.
    - intros ([[a b] e'] & [= -> -> ->] & Hl%elem_of_map_to_list).
      apply map_lookup_filter_Some in Hl as [Hl Ha]. simpl in *. by subst.
    - simpl. intros [-> Ht]. exists ((parent, k2), e). split; [done|].
      apply elem_of_map_to_list, map_lookup_filter_Some. done. }
  assert (Hnd : NoDup l.*1).
  { unfold l. rewrite <- list_fmap_compose.
    apply NoDup_fmap_2_strong; [|apply NoDup_map_to_list].
    intros [[a b] e] [[a' b'] e'] Hx%elem_of_map_to_list Hy%elem_of_map_to_list Heq.
    apply map_lookup_filter_Some in Hx as [Hx Ha].
    apply map_lookup_filter_Some in Hy as [Hy Ha']. by simplify_eq/=. }
  destruct (list_to_map (M := gmap (Z * Z) (Z * bool)) l !! (p, v)) as [e|] eqn:Hl.
  - apply elem_of_list_to_map_2, Hin in Hl as [Hp Ht]. simpl in *. subst.
    by rewrite Z.eqb_refl, Ht.
  - destruct (p =? child) eqn:E; [|done].
    destruct (t !! (parent, v)) as [e|] eqn:Ht; [|done].
    apply not_elem_of_list_to_map_2 in Hl. destruct Hl.
    apply list_elem_of_fmap. exists ((p, v), e). split; [done|].
    apply Hin. simpl. split; [lia|done].
Qed.

#[export] Program Instance Mmu_laws : HalLaws Mmu := {
  hal_ok := Mmu_ok;
  live := mlive;
  clean := fun m => mlive m ∖ dirty m;
  pt := fun m p v => tables m !! (p, v);
}.
Next Obligation. intros m _. set_solver. Qed.
Next Obligation.
  intros m Hok. simpl. unfold Mmu_alloc. destruct (frames_left m) as [|n].
  - by exists None, m.
  - assert (Hf : next_frame m ∉ mlive m) by (intros Hin; specialize (Hok _ Hin); lia).
    eexists (Some _), _. split; [done|]. split.
    { intros f Hf'. simpl in *. unfold PAGE_SIZE.
      apply elem_of_union in Hf' as [->%elem_of_singleton|Hf']; [lia|].
      specialize (Hok _ Hf'). lia. }
    split; [done|]. split; [done|]. split; [done|]. simpl.
    apply set_eq. intros x. rewrite !elem_of_difference, !elem_of_union, elem_of_singleton.
    split; [intros ([->|?] & ?); tauto|]. intros [? ?]. split; [tauto|].
    intros [->|?]; tauto.
Qed.
Next Obligation.
  intros f m Hok Hf. simpl. unfold Mmu_free. rewrite bool_decide_true by done.
  eexists. split; [done|]. split.
  { intros g Hg. simpl in *. apply Hok. set_solver. }
  split; [done|]. simpl. split; [done|]. set_solver.
Qed.
Next Obligation.
  intros f m Hok Hf. simpl. unfold Mmu_zero. rewrite bool_decide_true by done.
  eexists. split; [done|]. split; [done|]. split; [done|]. split; [done|]. simpl.
  apply set_eq. intros x. rewrite elem_of_union, !elem_of_difference, elem_of_singleton.
  destruct (decide (x = f)) as [->|]; [|tauto]. tauto.
Qed.
Next Obligation.
  intros pid va f w m Hok Hf Hal Hpt. simpl. unfold Mmu_map. simpl in Hpt.
  apply elem_of_difference in Hf as [Hf1 Hf2].
  rewrite (bool_decide_true _ Hf1), (bool_decide_false _ Hf2), (bool_decide_true _ Hpt).
  rewrite Hal. simpl. eexists _, _. split; [done|]. split; [done|].
  split; [done|]. split; [done|]. intros p v. simpl.
  destruct (decide ((p, v) = (pid, va))) as [[= -> ->]|Hne].
  - by rewrite !Z.eqb_refl, lookup_insert_eq.
  - rewrite lookup_insert_ne by congruence.
    destruct (p =? pid) eqn:E1, (v =? va) eqn:E2; try done.
    destruct Hne. f_equal; lia.
Qed.
Next Obligation.
  intros pid va e m Hok Hpt. simpl. unfold Mmu_unmap. simpl in Hpt.
  rewrite bool_decide_true by eauto. eexists. split; [done|]. split; [done|].
  split; [done|]. split; [done|]. intros p v. simpl.
  destruct (decide ((p, v) = (pid, va))) as [[= -> ->]|Hne].
  - by rewrite !Z.eqb_refl, lookup_delete_eq.
  - rewrite lookup_delete_ne by congruence.
    destruct (p =? pid) eqn:E1, (v =? va) eqn:E2; try done.
    destruct Hne. f_equal; lia.
Qed.
Next Obligation. intros pid m Hok. simpl. by eexists _, _. Qed.
Next Obligation.
  intros parent child m Hok. simpl. split; [done|]. split; [done|]. split; [done|].
  intros p v. destruct (p =? child) eqn:E.
  - destruct (tables m !! (parent, v)) as [e|] eqn:Hv.
    + apply lookup_union_Some_l. by rewrite copy_entries_lookup, E.
    + apply lookup_union_None. rewrite copy_entries_lookup, drop_entries_lookup, E.
      by rewrite Hv.
  - rewrite lookup_union_r by by rewrite copy_entries_lookup, E.
    by rewrite drop_entries_lookup, E.
Qed.
Next Obligation.
  intros pid m Hok. simpl. split; [done|]. split; [done|]. split; [done|].
  intros p v. apply drop_entries_lookup.
Qed.
