(* ===== verification/ShmInv.v ===== *)
(** * Shared memory: the invariant

    [books] is what [check_counts] checks and more (structure, reference counts,
    placement); [reaped] says that no dying object lingers without a mapping;
    [mem_ok] ties the books to the kernel: the live frames are exactly the frames
    of the objects, each owned once and zeroed before use, and the shared
    page-table entries are exactly the pages of the mapping records. *)

From S2P Require Import Prelude Shm ShmHal.
Local Open Scope Z_scope.

(** ** Definitions *)

Definition owned_of (o : Object) (row : list Z) : list Z :=
  if o_in_use o then take (Z.to_nat (o_pages o)) row else [].

(** The frames of all objects. *)
Definition owned (s : Shm) : list Z := concat (zip_with owned_of (objects s) (frames s)).

Definition weight (o : Object) : Z := if o_in_use o then o_pages o else 0.

Fixpoint sum_pages (os : list Object) : Z :=
  match os with
  | [] => 0
  | o :: os' => weight o + sum_pages os'
  end.

Record obj_ok (o : Object) : Prop := {
  ok_grants : length (o_grants o) = MAX_GRANTS;
  ok_gen : 0 <= o_gen o < 0x1000000;
  ok_used : o_in_use o = true -> 1 <= o_gen o /\ 1 <= o_pages o <= MAX_PAGES_PER_OBJECT;
  ok_unused : o_in_use o = false -> o_map_count o = 0 /\ o_dying o = false;
}.

(** The end of a record's span: its pages and the guard page. *)
Definition span_end (r : MapRec) : Z := m_addr r + (m_pages r + 1) * PAGE_SIZE.

Record rec_ok (os : list Object) (r : MapRec) : Prop := {
  rec_obj : exists o, os !! Z.to_nat (m_obj r) = Some o /\ o_in_use o = true /\
                      m_pages r = o_pages o;
  rec_slot : 0 <= m_obj r;
  rec_align : m_addr r mod PAGE_SIZE = 0;
  rec_base : SHM_VIRT_BASE <= m_addr r;
  rec_end : span_end r <= SHM_VIRT_END;
  rec_rights : m_rights r = RIGHT_READ \/ m_rights r = Z.lor RIGHT_READ RIGHT_WRITE;
}.

Definition spans_apart (r q : MapRec) : Prop :=
  span_end r <= m_addr q \/ span_end q <= m_addr r.

Record books (s : Shm) : Prop := {
  b_objects : length (objects s) = MAX_OBJECTS;
  b_frames : length (frames s) = MAX_OBJECTS;
  b_rows : Forall (fun row => length row = Z.to_nat MAX_PAGES_PER_OBJECT) (frames s);
  b_maps : length (maps s) = MAX_MAP_RECORDS;
  b_obj : Forall obj_ok (objects s);
  b_rec : forall j r, maps s !! j = Some r -> m_in_use r = true -> rec_ok (objects s) r;
  b_refs : forall i o, objects s !! i = Some o ->
             o_map_count o = Z.of_nat (countb (refers i) (maps s));
  b_total : total_pages s = sum_pages (objects s);
  b_cap : total_pages s <= MAX_TOTAL_PAGES;
  b_apart : forall j k r q, j <> k -> maps s !! j = Some r -> maps s !! k = Some q ->
              m_in_use r = true -> m_in_use q = true -> m_pid r = m_pid q ->
              spans_apart r q;
  b_quota : forall pid, Z.of_nat (countb (of_pid pid) (maps s)) <= MAX_MAPS_PER_PROC;
}.

Definition reaped (s : Shm) : Prop :=
  forall i o, objects s !! i = Some o -> o_dying o = true -> 0 < o_map_count o.

(** Record [r] maps page [va] of [pid]: its page [k], with the frame of the object
    and the rights of the record. *)
Definition maps_page (fs : list (list Z)) (r : MapRec) (pid va : Z) (e : Z * bool) : Prop :=
  m_pid r = pid /\
  exists k row f,
    Z.of_nat k < m_pages r /\ va = m_addr r + Z.of_nat k * PAGE_SIZE /\
    fs !! Z.to_nat (m_obj r) = Some row /\ row !! k = Some f /\
    e = (f, negb (Z.land (m_rights r) RIGHT_WRITE =? 0)).

(** Some record in use maps it. *)
Definition backed (s : Shm) (pid va : Z) (e : Z * bool) : Prop :=
  exists j r, maps s !! j = Some r /\ m_in_use r = true /\ maps_page (frames s) r pid va e.

Section Memory.
Context {H : Type} `{HalLaws H}.

Record frames_ok (s : Shm) (h : H) : Prop := {
  fr_hal : hal_ok h;
  fr_nodup : NoDup (owned s);
  fr_live : live h = list_to_set (owned s);
  fr_clean : live h ⊆ clean h;
}.

Definition pt_ok (s : Shm) (h : H) : Prop :=
  forall p v e, pt h p v = Some e <-> backed s p v e.

Definition shm_inv (s : Shm) (h : H) : Prop :=
  books s /\ reaped s /\ frames_ok s h /\ pt_ok s h.
End Memory.

(** ** List lemmas *)

Lemma sum_pages_insert os i o o' :
  os !! i = Some o -> sum_pages (<[i := o']> os) = sum_pages os - weight o + weight o'.
Proof.
  revert i. induction os as [|p os IH]; intros [|i] Hi; simplify_eq/=; [lia|].
  rewrite IH by done. lia.
Qed.

(** One slot's frames sit between the others', whatever is stored there. *)
Lemma owned_split s i o row :
  objects s !! i = Some o -> frames s !! i = Some row ->
  exists A B, owned s = A ++ owned_of o row ++ B /\
    forall o' row' ms t,
      owned (mkShm (<[i := o']> (objects s)) (<[i := row']> (frames s)) ms t) =
      A ++ owned_of o' row' ++ B.
Proof.
  intros Ho Hr. unfold owned. simpl.
  set (l := zip_with owned_of (objects s) (frames s)).
  assert (Hl : l !! i = Some (owned_of o row)).
  { unfold l. apply lookup_zip_with_Some. eauto. }
  exists (concat (take i l)), (concat (drop (S i) l)). split.
  - rewrite <- (take_drop_middle l i _ Hl) at 1. rewrite concat_app. done.
  - intros o' row' _ _. rewrite <- insert_zip_with. fold l.
    rewrite insert_take_drop by by eapply lookup_lt_Some.
    rewrite concat_app. done.
Qed.

Lemma obj_lookup s i :
  books s -> (i < MAX_OBJECTS)%nat ->
  exists o row, objects s !! i = Some o /\ frames s !! i = Some row /\ obj_ok o /\
                length row = Z.to_nat MAX_PAGES_PER_OBJECT.
Proof.
  intros Hb Hi.
  destruct (lookup_lt_is_Some_2 (objects s) i) as [o Ho]; [rewrite b_objects; done|].
  destruct (lookup_lt_is_Some_2 (frames s) i) as [row Hr]; [rewrite b_frames; done|].
  exists o, row. split; [done|]. split; [done|]. split.
  - by eapply Forall_lookup_1; [apply b_obj|].
  - by eapply (Forall_lookup_1 (fun row => length row = _)); [apply b_rows|].
Qed.

Lemma obj_bound s i o : books s -> objects s !! i = Some o -> (i < MAX_OBJECTS)%nat.
Proof. intros Hb Ho. apply lookup_lt_Some in Ho. by rewrite b_objects in Ho. Qed.

Lemma countb_bound_maps s i : books s -> Z.of_nat (countb (refers i) (maps s)) <= 256.
Proof.
  intros Hb. pose proof (countb_le_length (refers i) (maps s)) as Hc.
  rewrite b_maps in Hc by done. unfold MAX_MAP_RECORDS in Hc. lia.
Qed.

(** No record refers to an object whose reference count is zero. *)
Lemma unreferenced s i o j r :
  books s -> objects s !! i = Some o -> o_map_count o = 0 ->
  maps s !! j = Some r -> m_in_use r = true -> Z.to_nat (m_obj r) <> i.
Proof.
  intros Hb Ho Hz Hj Hu Heq. pose proof (b_refs s Hb i o Ho) as Hrefs.
  pose proof (countb_pos (refers i) (maps s) j r Hj) as Hp.
  unfold refers in Hp at 1. rewrite Hu, Heq, Nat.eqb_refl in Hp.
  specialize (Hp eq_refl). lia.
Qed.

(** ** Keeping the books *)

(** What the books read of an object beyond its reference count. *)
Definition same_shape (o o' : Object) : Prop :=
  o_in_use o' = o_in_use o /\ o_pages o' = o_pages o /\ obj_ok o'.

Lemma same_shape_refl o : obj_ok o -> same_shape o o.
Proof. done. Qed.

Lemma same_shape_insert os i o o' :
  Forall obj_ok os -> os !! i = Some o -> same_shape o o' ->
  Forall2 same_shape os (<[i := o']> os).
Proof.
  intros Hok Ho Hs. eapply Forall2_insert_diag; [|done|done].
  eapply Forall_impl; [done|]. apply same_shape_refl.
Qed.

Lemma same_shape_sum os os' : Forall2 same_shape os os' -> sum_pages os' = sum_pages os.
Proof.
  induction 1 as [|o o' os os' (Hu & Hp & _) _ IH]; simpl; [done|].
  unfold weight. rewrite Hu, Hp, IH. done.
Qed.

Lemma same_shape_rec os os' r : Forall2 same_shape os os' -> rec_ok os r -> rec_ok os' r.
Proof.
  intros Hs [(o & Ho & Hu & Hp) ? ? ? ? ?]. split; try done.
  destruct (Forall2_lookup_l _ _ _ _ _ Hs Ho) as (o' & Ho' & Hu' & Hp' & _).
  exists o'. rewrite Hu', Hp'. done.
Qed.

Lemma same_shape_ok os os' : Forall2 same_shape os os' -> Forall obj_ok os'.
Proof. induction 1 as [|? ? ? ? (_ & _ & ?)]; constructor; done. Qed.

(** The books after a change of records and reference counts. *)
Lemma books_change s os' ms' :
  books s -> Forall2 same_shape (objects s) os' -> length ms' = MAX_MAP_RECORDS ->
  (forall j r, ms' !! j = Some r -> m_in_use r = true -> rec_ok (objects s) r) ->
  (forall i o, os' !! i = Some o -> o_map_count o = Z.of_nat (countb (refers i) ms')) ->
  (forall j k r q, j <> k -> ms' !! j = Some r -> ms' !! k = Some q ->
     m_in_use r = true -> m_in_use q = true -> m_pid r = m_pid q -> spans_apart r q) ->
  (forall pid, Z.of_nat (countb (of_pid pid) ms') <= MAX_MAPS_PER_PROC) ->
  books (mkShm os' (frames s) ms' (total_pages s)).
Proof.
  intros Hb Hs Hl Hrec Hrefs Hapart Hq. split; simpl; try done.
  - erewrite <- Forall2_length by done. by apply b_objects.
  - by apply b_frames.
  - by apply b_rows.
  - by eapply same_shape_ok.
  - intros j r Hj Hu. eapply same_shape_rec; eauto.
  - erewrite same_shape_sum by done. by apply b_total.
  - by apply b_cap.
Qed.

(** Objects change, but neither shape nor counts. *)
Lemma books_objects s os' :
  books s ->
  Forall2 (fun o o' => same_shape o o' /\ o_map_count o' = o_map_count o) (objects s) os' ->
  books (set_objects os' s).
Proof.
  intros Hb Hs. apply books_change; [done| |by apply b_maps|by apply b_rec| |by apply b_apart|by apply b_quota].
  - eapply Forall2_impl; [done|]. by intros ? ? [? ?].
  - intros i o' Ho'. destruct (Forall2_lookup_r _ _ _ _ _ Hs Ho') as (o & Ho & _ & ->).
    by apply b_refs.
Qed.

Lemma books_object s i o o' :
  books s -> objects s !! i = Some o -> same_shape o o' -> o_map_count o' = o_map_count o ->
  books (set_objects (<[i := o']> (objects s)) s).
Proof.
  intros Hb Ho Hs Hc. apply books_objects; [done|].
  eapply Forall2_insert_diag; [|done|done].
  eapply Forall_impl; [by apply b_obj|]. done.
Qed.

Lemma obj_ok_set_map_count n o :
  obj_ok o -> o_in_use o = true -> obj_ok (set_map_count n o).
Proof. intros [] Hu. split; simpl; try done. congruence. Qed.

(** Reference counts after a record was replaced, given the net change. *)
Lemma refs_insert s i o n j r r' :
  books s -> objects s !! i = Some o -> maps s !! j = Some r ->
  (forall i', i' <> i -> refers i' r = refers i' r') ->
  n + Z.b2z (refers i r) = o_map_count o + Z.b2z (refers i r') ->
  forall k p, <[i := set_map_count n o]> (objects s) !! k = Some p ->
    o_map_count p = Z.of_nat (countb (refers k) (<[j := r']> (maps s))).
Proof.
  intros Hb Ho Hj Hne Hn k p Hp.
  pose proof (countb_insert (refers k) (maps s) j r r' Hj) as Hc.
  apply list_lookup_insert_Some in Hp as [(<- & <- & _)|[Hk Hp]]; simpl.
  - rewrite (b_refs s Hb i o Ho) in Hn.
    destruct (refers i r), (refers i r'); simpl in *; lia.
  - rewrite (b_refs s Hb k p Hp). rewrite (Hne k) in Hc by done.
    destruct (refers k r'); lia.
Qed.

Lemma refers_ne r i k : Z.to_nat (m_obj r) = i -> k <> i -> refers k r = false.
Proof.
  intros Hr Hk. unfold refers. destruct (Nat.eqb_spec (Z.to_nat (m_obj r)) k); [congruence|].
  apply andb_false_r.
Qed.

Lemma refers_eq r i : m_in_use r = true -> Z.to_nat (m_obj r) = i -> refers i r = true.
Proof. intros Hu <-. unfold refers. by rewrite Hu, Nat.eqb_refl. Qed.

Lemma refers_free r i : m_in_use r = false -> refers i r = false.
Proof. intros Hu. unfold refers. by rewrite Hu. Qed.

Lemma spans_apart_sym r q : spans_apart r q -> spans_apart q r.
Proof. unfold spans_apart. tauto. Qed.

(** A new record for an object the process has room to map. *)
Lemma books_add_map s slot o j r0 r :
  books s -> objects s !! slot = Some o -> o_in_use o = true ->
  maps s !! j = Some r0 -> m_in_use r0 = false ->
  m_in_use r = true -> Z.to_nat (m_obj r) = slot -> rec_ok (objects s) r ->
  (forall k q, maps s !! k = Some q -> m_in_use q = true -> m_pid q = m_pid r ->
     spans_apart r q) ->
  Z.of_nat (countb (of_pid (m_pid r)) (maps s)) < MAX_MAPS_PER_PROC ->
  books (mkShm (<[slot := set_map_count (o_map_count o + 1) o]> (objects s)) (frames s)
               (<[j := r]> (maps s)) (total_pages s)).
Proof.
  intros Hb Ho Hu Hj Hr0 Hr Hslot Hrec Happ Hq.
  assert (Hok : obj_ok o) by by eapply Forall_lookup_1; [apply b_obj|].
  apply books_change; [done| | | | | |].
  - eapply same_shape_insert; [by apply b_obj|done|].
    split; [done|]. split; [done|]. by apply obj_ok_set_map_count.
  - rewrite length_insert. by apply b_maps.
  - intros k q Hk Hqu. apply list_lookup_insert_Some in Hk as [(_ & <- & _)|[_ Hk]]; [done|].
    by eapply b_rec.
  - eapply refs_insert; [done|done|done| |].
    + intros i' Hi'. rewrite (refers_free r0), (refers_ne r slot) by done. done.
    + rewrite (refers_free r0), (refers_eq r) by done. simpl. lia.
  - intros k l q1 q2 Hkl Hk Hl Hu1 Hu2 Hpid.
    apply list_lookup_insert_Some in Hk as [(<- & <- & _)|[_ Hk]];
      apply list_lookup_insert_Some in Hl as [(<- & <- & _)|[_ Hl]]; [done| | |].
    + by eapply Happ.
    + apply spans_apart_sym. by eapply Happ.
    + by eapply (b_apart s Hb k l).
  - intros pid. pose proof (countb_insert (of_pid pid) (maps s) j r0 r Hj) as Hc.
    pose proof (b_quota s Hb pid) as Hquota.
    unfold of_pid in Hc at 2 4. rewrite Hr0, Hr in Hc. simpl in Hc.
    destruct (Z.eqb_spec (m_pid r) pid); [subst pid|]; lia.
Qed.

(** A record is dropped. *)
Lemma books_drop_map s o j r :
  books s -> maps s !! j = Some r -> m_in_use r = true ->
  objects s !! Z.to_nat (m_obj r) = Some o ->
  books (mkShm (<[Z.to_nat (m_obj r) := set_map_count (o_map_count o - 1) o]> (objects s))
               (frames s) (<[j := EMPTY_MAP]> (maps s)) (total_pages s)).
Proof.
  intros Hb Hj Hu Ho.
  assert (Hok : obj_ok o) by by eapply Forall_lookup_1; [apply b_obj|].
  assert (Huo : o_in_use o = true).
  { destruct (b_rec s Hb j r Hj Hu) as [(o' & Ho' & ? & _) _ _ _ _ _]. by simplify_eq. }
  apply books_change; [done| | | | | |].
  - eapply same_shape_insert; [by apply b_obj|done|].
    split; [done|]. split; [done|]. by apply obj_ok_set_map_count.
  - rewrite length_insert. by apply b_maps.
  - intros k q Hk Hqu. apply list_lookup_insert_Some in Hk as [(_ & <- & _)|[_ Hk]]; [done|].
    by eapply b_rec.
  - eapply refs_insert; [done|done|done| |].
    + intros i' Hi'. by rewrite (refers_ne r (Z.to_nat (m_obj r))) by done.
    + rewrite (refers_eq r) by done. simpl. lia.
  - intros k l q1 q2 Hkl Hk Hl Hu1 Hu2 Hpid.
    apply list_lookup_insert_Some in Hk as [(_ & <- & _)|[_ Hk]]; [done|].
    apply list_lookup_insert_Some in Hl as [(_ & <- & _)|[_ Hl]]; [done|].
    by eapply (b_apart s Hb k l).
  - intros pid. pose proof (countb_insert (of_pid pid) (maps s) j r EMPTY_MAP Hj) as Hc.
    pose proof (b_quota s Hb pid) as Hquota.
    unfold of_pid in Hc at 4. simpl in Hc. destruct (of_pid pid r); lia.
Qed.

(** The reference count of a mapped object is positive, so the decrement does not
    wrap; the increment never reaches 2^32. *)
Lemma mapped_count s o j r :
  books s -> maps s !! j = Some r -> m_in_use r = true ->
  objects s !! Z.to_nat (m_obj r) = Some o ->
  0 < o_map_count o /\ wrap32 (o_map_count o - 1) = o_map_count o - 1.
Proof.
  intros Hb Hj Hu Ho. rewrite (b_refs s Hb _ _ Ho).
  pose proof (countb_bound_maps s (Z.to_nat (m_obj r)) Hb).
  pose proof (countb_pos (refers (Z.to_nat (m_obj r))) (maps s) j r Hj ltac:(by apply refers_eq)).
  split; [lia|]. apply wrap32_id. unfold is_u32. lia.
Qed.

Lemma count_increment s o i :
  books s -> objects s !! i = Some o -> wrap32 (o_map_count o + 1) = o_map_count o + 1.
Proof.
  intros Hb Ho. rewrite (b_refs s Hb _ _ Ho). pose proof (countb_bound_maps s i Hb).
  apply wrap32_id. unfold is_u32. lia.
Qed.

(** An unreferenced slot changes hands: freed or created. *)
Lemma books_slot s i o o' row' t :
  books s -> objects s !! i = Some o -> o_map_count o = 0 ->
  obj_ok o' -> o_map_count o' = 0 -> length row' = Z.to_nat MAX_PAGES_PER_OBJECT ->
  t = total_pages s - weight o + weight o' -> t <= MAX_TOTAL_PAGES ->
  books (mkShm (<[i := o']> (objects s)) (<[i := row']> (frames s)) (maps s) t).
Proof.
  intros Hb Ho Hc Hok' Hc' Hrow -> Hcap. split; simpl.
  - rewrite length_insert. by apply b_objects.
  - rewrite length_insert. by apply b_frames.
  - apply Forall_insert; [by apply b_rows|done].
  - by apply b_maps.
  - apply Forall_insert; [by apply b_obj|done].
  - intros j r Hj Hu. destruct (b_rec s Hb j r Hj Hu) as [(p & Hp & ? & ?) ? ? ? ? ?].
    split; try done. exists p. rewrite list_lookup_insert_ne; [done|].
    intros Heq. by eapply (unreferenced s i o j r).
  - intros k p Hp. apply list_lookup_insert_Some in Hp as [(<- & <- & _)|[_ Hp]].
    + rewrite Hc', <- Hc. by apply b_refs.
    + by apply b_refs.
  - rewrite (sum_pages_insert _ _ _ _ Ho). rewrite (b_total s Hb). done.
  - done.
  - by apply b_apart.
  - by apply b_quota.
Qed.

Lemma sum_pages_nonneg os : Forall obj_ok os -> 0 <= sum_pages os.
Proof.
  induction 1 as [|o os Ho _ IH]; simpl; [done|]. unfold weight.
  destruct (o_in_use o) eqn:Hu; [|lia]. destruct (ok_used o Ho Hu). lia.
Qed.

Lemma weight_le_sum os i o : Forall obj_ok os -> os !! i = Some o -> weight o <= sum_pages os.
Proof.
  intros Hok Ho. pose proof (sum_pages_insert os i o EMPTY_OBJ Ho) as Hs.
  assert (Hok' : Forall obj_ok (<[i := EMPTY_OBJ]> os)).
  { apply Forall_insert; [done|]. by split. }
  apply sum_pages_nonneg in Hok'. change (weight EMPTY_OBJ) with 0 in Hs. lia.
Qed.

Lemma next_gen_range g : 1 <= next_gen g < 0x1000000.
Proof.
  unfold next_gen. change 0x00FFFFFF with (Z.ones 24). rewrite Z.land_ones by lia.
  pose proof (Z.mod_pos_bound (wrap32 (g + 1)) (2 ^ 24) ltac:(lia)).
  destruct (Z.eqb_spec (wrap32 (g + 1) mod 2 ^ 24) 0); lia.
Qed.

Lemma obj_ok_freed g : obj_ok (set_gen (next_gen g) EMPTY_OBJ).
Proof. pose proof (next_gen_range g). split; simpl; try done. lia. Qed.

(** What a slot without records holds does not matter to any mapping. *)
Lemma backed_slot s i os row' t :
  (forall j r, maps s !! j = Some r -> m_in_use r = true -> Z.to_nat (m_obj r) <> i) ->
  forall p v e,
    backed (mkShm os (<[i := row']> (frames s)) (maps s) t) p v e <-> backed s p v e.
Proof.
  intros Hne p v e. unfold backed, maps_page. simpl.
  split; intros (j & r & Hj & Hu & Hrest); exists j, r; specialize (Hne j r Hj Hu).
  - rewrite list_lookup_insert_ne in Hrest by done. done.
  - rewrite list_lookup_insert_ne by done. done.
Qed.

(** The pages of two records of a process whose spans are apart differ. *)
Lemma maps_page_apart fs r q p v e e' :
  spans_apart r q -> maps_page fs r p v e -> maps_page fs q p v e' -> False.
Proof.
  intros Hap (_ & k & _ & _ & Hk & Hv & _) (_ & l & _ & _ & Hl & Hv' & _).
  unfold spans_apart, span_end, PAGE_SIZE in *. lia.
Qed.

Lemma backed_insert s os j r0 r' t p v e :
  maps s !! j = Some r0 ->
  backed (mkShm os (frames s) (<[j := r']> (maps s)) t) p v e <->
  m_in_use r' = true /\ maps_page (frames s) r' p v e \/
  exists k q, k <> j /\ maps s !! k = Some q /\ m_in_use q = true /\
              maps_page (frames s) q p v e.
Proof.
  intros Hj. unfold backed. simpl. split.
  - intros (k & q & Hk & Hq). apply list_lookup_insert_Some in Hk as [(_ & <- & _)|[Hne Hk]];
      [by left|right]. exists k, q. done.
  - intros [Hr|(k & q & Hne & Hk & Hq)].
    + exists j, r'. rewrite list_lookup_insert_eq by by eapply lookup_lt_Some. done.
    + exists k, q. rewrite list_lookup_insert_ne by done. done.
Qed.

(** Adding a record adds its pages. *)
Lemma backed_add s os j r0 r t p v e :
  maps s !! j = Some r0 -> m_in_use r0 = false -> m_in_use r = true ->
  backed (mkShm os (frames s) (<[j := r]> (maps s)) t) p v e <->
  maps_page (frames s) r p v e \/ backed s p v e.
Proof.
  intros Hj Hu0 Hu. rewrite backed_insert by done. split.
  - intros [[_ Hr]|(k & q & _ & Hq)]; [by left|right]. by exists k, q.
  - intros [Hr|(k & q & Hk & Hq & Hm)]; [by left|right]. exists k, q.
    split; [|done]. intros ->. congruence.
Qed.

(** Dropping a record drops exactly its pages. *)
Lemma backed_drop s os j r t p v e :
  books s -> maps s !! j = Some r -> m_in_use r = true ->
  backed (mkShm os (frames s) (<[j := EMPTY_MAP]> (maps s)) t) p v e <->
  backed s p v e /\ ~ exists e', maps_page (frames s) r p v e'.
Proof.
  intros Hb Hj Hu. rewrite backed_insert by done. split.
  - intros [[? _]|(k & q & Hne & Hk & Hq & Hm)]; [done|]. split; [by exists k, q|].
    intros [e' He']. eapply maps_page_apart; [|exact He'|exact Hm].
    apply (b_apart s Hb j k); try done. by destruct He' as [-> _], Hm as [-> _].
  - intros [(k & q & Hk & Hq & Hm) Hn]. right. exists k, q. split; [|done].
    intros ->. simplify_eq. apply Hn. by exists e.
Qed.

(** The frames of a used object's pages are owned. *)
Lemma owned_frame s i o row k f :
  objects s !! i = Some o -> o_in_use o = true -> frames s !! i = Some row ->
  row !! k = Some f -> Z.of_nat k < o_pages o -> f ∈ owned s.
Proof.
  intros Ho Hu Hr Hk Hlt. destruct (owned_split s i o row Ho Hr) as (A & B & -> & _).
  unfold owned_of. rewrite Hu. apply elem_of_app. right. apply elem_of_app. left.
  apply (list_elem_of_lookup_2 _ k). rewrite lookup_take_lt by lia. done.
Qed.

(** ** Handles *)

Lemma handle_bits g l :
  1 <= g < 0x1000000 -> 0 <= l < 256 ->
  let hd := Z.lor (wrap32 (Z.shiftl g 8)) (wrap32 l) in
  Z.land hd 0xFF = l /\ Z.shiftr hd 8 = g.
Proof.
  intros Hg Hl. simpl. rewrite Z.shiftl_mul_pow2 by lia.
  rewrite !wrap32_id by auto with machine. split.
  - rewrite Z.land_lor_distr_l. change 255 with (Z.ones 8). rewrite !Z.land_ones by lia.
    rewrite Z_mod_mult, Z.lor_0_l. apply Z.mod_small. lia.
  - rewrite Z.shiftr_lor, !Z.shiftr_div_pow2 by lia.
    rewrite Z.div_mul, (Z.div_small l), Z.lor_0_r by lia. done.
Qed.

(** The handle of a live object resolves to its slot. *)
Lemma handle_roundtrip s slot o :
  books s -> objects s !! slot = Some o -> o_in_use o = true -> o_dying o = false ->
  exists hd, handle_for s slot = Done hd /\ Shm_lookup s hd = Done (Ok slot).
Proof.
  intros Hb Ho Hu Hd. pose proof (obj_bound _ _ _ Hb Ho) as Hs.
  assert (Hok : obj_ok o) by by eapply Forall_lookup_1; [apply b_obj|].
  destruct (ok_used o Hok Hu) as [Hg _]. pose proof (ok_gen o Hok) as Hg'.
  unfold MAX_OBJECTS in Hs.
  destruct (handle_bits (o_gen o) (Z.of_nat slot + 1)) as [E1 E2]; [lia|lia|].
  eexists. split.
  - unfold handle_for. rewrite (index_at Ho). done.
  - unfold Shm_lookup. rewrite E1, E2.
    replace (Z.to_nat (Z.of_nat slot + 1)) with (S slot) by lia.
    replace ((S slot =? 0)%nat || (MAX_OBJECTS <? S slot)%nat || (o_gen o =? 0)) with false
      by (unfold MAX_OBJECTS; lia).
    replace (S slot - 1)%nat with slot by lia.
    rewrite (index_at Ho). simpl. by rewrite Hu, Hd, Z.eqb_refl.
Qed.

(** [lookup] answers for every handle, with a live object of that generation. *)
Lemma lookup_total s hd :
  books s ->
  Shm_lookup s hd = Done (Err EBADF) \/
  exists slot o, Shm_lookup s hd = Done (Ok slot) /\ objects s !! slot = Some o /\
    o_in_use o = true /\ o_dying o = false /\ o_gen o = Z.shiftr hd 8 /\
    Z.land hd 0xFF = Z.of_nat slot + 1.
Proof.
  intros Hb. unfold Shm_lookup.
  set (low := Z.to_nat (Z.land hd 255)).
  destruct ((low =? 0)%nat || (MAX_OBJECTS <? low)%nat || (Z.shiftr hd 8 =? 0)) eqn:Hc;
    [by left|].
  destruct (obj_lookup s (low - 1) Hb) as (o & _ & Ho & _); [unfold MAX_OBJECTS in *; lia|].
  rewrite (index_at Ho). simpl.
  destruct (negb (o_in_use o) || o_dying o || negb (o_gen o =? Z.shiftr hd 8)) eqn:Hd;
    [by left|right].
  exists (low - 1)%nat, o. split; [done|]. split; [done|].
  split; [by destruct (o_in_use o)|].
  split; [by destruct (o_dying o); rewrite ?orb_true_r in Hd|]. lia.
Qed.
