(* ===== verification/ShmOps.v ===== *)
(** * Shared memory: what the loops and the lifetime operations do

    The frame loops of [create] and [free_object], the page loops of [map] and
    [unmap], first-fit placement, and from them the effect of each operation on
    the invariant of [ShmInv]. *)

From S2P Require Import Prelude Shm ShmHal ShmInv.
Local Open Scope Z_scope.

Section Loops.
Context {H : Type} `{HalLaws H}.

Definition same_pt (h h' : H) : Prop := forall p v, pt h' p v = pt h p v.

Lemma same_pt_trans h1 h2 h3 : same_pt h1 h2 -> same_pt h2 h3 -> same_pt h1 h3.
Proof. intros H1 H2 p v. by rewrite H2. Qed.

(** ** Frames *)

Lemma drop_cons {A} (l : list A) i n :
  (i + S n <= length l)%nat ->
  exists x, l !! i = Some x /\ take (S n) (drop i l) = x :: take n (drop (S i) l).
Proof.
  intros Hl. destruct (lookup_lt_is_Some_2 l i) as [x Hx]; [lia|].
  exists x. split; [done|]. by rewrite (drop_S l x i Hx).
Qed.

(** [free_loop] returns the frames of the row, each once. *)
Lemma free_loop_spec n i slot fs row h :
  hal_ok h -> fs !! slot = Some row -> (i + n <= length row)%nat ->
  NoDup (take n (drop i row)) ->
  (forall f, f ∈ take n (drop i row) -> f ∈ live h) ->
  exists row' h', free_loop n i slot fs h = Done (<[slot := row']> fs, h') /\
    length row' = length row /\ hal_ok h' /\ same_pt h h' /\
    live h' = live h ∖ list_to_set (take n (drop i row)) /\
    clean h' = clean h ∖ list_to_set (take n (drop i row)).
Proof.
  revert i fs row h. induction n as [|n IH]; intros i fs row h Hh Hrow Hlen Hnd Hlive.
  { exists row, h. rewrite take_0, list_insert_id by done. simpl.
    split; [done|]. split; [done|]. split; [done|]. split; [done|].
    split; set_solver. }
  destruct (drop_cons row i n Hlen) as (f & Hf & Heq). rewrite Heq in *.
  apply NoDup_cons in Hnd as [Hnotin Hnd].
  destruct (free_frame_law f h Hh) as (h1 & E1 & Hh1 & Hpt1 & Hl1 & Hc1).
  { apply Hlive. by left. }
  destruct (IH (S i) (<[slot := <[i := 0]> row]> fs) (<[i := 0]> row) h1)
    as (row' & h2 & E2 & Hlen2 & Hh2 & Hpt2 & Hl2 & Hc2).
  - done.
  - apply list_lookup_insert_eq. by eapply lookup_lt_Some.
  - rewrite length_insert. lia.
  - by rewrite drop_insert_lt by lia.
  - rewrite drop_insert_lt by lia. intros g Hg. rewrite Hl1.
    apply elem_of_difference. split; [apply Hlive; by right|].
    intros ->%elem_of_singleton. done.
  - rewrite drop_insert_lt in Hl2, Hc2 by lia. exists row', h2. simpl.
    rewrite (proj2 (index_Done fs slot row)) by done. simpl.
    rewrite (proj2 (index_Done row i f)) by done. simpl. rewrite E1. simpl.
    rewrite store_Done by (apply lookup_lt_Some in Hf; lia). simpl.
    rewrite store_Done by by eapply lookup_lt_Some. simpl.
    rewrite E2, list_insert_insert_eq, Hlen2, length_insert, Hl2, Hc2, Hl1, Hc1.
    split; [done|]. split; [done|]. split; [done|].
    split; [by eapply same_pt_trans|]. split; set_solver.
Qed.

(** [alloc_loop] from [i] frames [fs0], taken since the kernel was in a state with
    live frames [L] and clean frames [C], ends with all [i + n] or with none. *)
Lemma alloc_loop_spec n i slot fs row h L C :
  hal_ok h -> fs !! slot = Some row -> (i + n <= length row)%nat ->
  NoDup (take i row) -> (forall f, f ∈ take i row -> f ∉ L) -> C ⊆ L ->
  live h = list_to_set (take i row) ∪ L -> clean h = list_to_set (take i row) ∪ C ->
  exists ok row' h', alloc_loop n i slot fs h = Done (ok, <[slot := row']> fs, h') /\
    length row' = length row /\ hal_ok h' /\ same_pt h h' /\
    let F := if ok then take (i + n) row' else [] in
    NoDup F /\ (forall f, f ∈ F -> f ∉ L) /\
    live h' = list_to_set F ∪ L /\ clean h' = list_to_set F ∪ C.
Proof.
  revert i fs row h. induction n as [|n IH]; intros i fs row h Hh Hrow Hlen Hnd Hdisj HCL Hl Hc.
  { exists true, row, h. simpl. rewrite list_insert_id, Nat.add_0_r by done. done. }
  destruct (alloc_frame_law h Hh) as (r & h1 & E1 & Hh1 & Hpt1 & Hr). simpl. rewrite E1. simpl.
  destruct r as [f|].
  - destruct Hr as (Hf & Hl1 & Hc1).
    destruct (zero_frame_law f h1 Hh1) as (h2 & E2 & Hh2 & Hpt2 & Hl2 & Hc2); [set_solver|].
    rewrite E2. simpl. rewrite (proj2 (index_Done fs slot row)) by done. simpl.
    rewrite store_Done by lia. simpl. rewrite store_Done by by eapply lookup_lt_Some. simpl.
    assert (Htake : take (S i) (<[i := f]> row) = take i row ++ [f]).
    { rewrite (take_S_r _ _ f) by (apply list_lookup_insert_eq; lia).
      by rewrite take_insert_ge by lia. }
    destruct (IH (S i) (<[slot := <[i := f]> row]> fs) (<[i := f]> row) h2)
      as (ok & row' & h3 & E3 & Hlen3 & Hh3 & Hpt3 & HF).
    + done.
    + apply list_lookup_insert_eq. by eapply lookup_lt_Some.
    + rewrite length_insert. lia.
    + rewrite Htake. apply NoDup_app. split; [done|]. split; [|apply NoDup_singleton].
      intros g Hg ->%list_elem_of_singleton. apply Hf. rewrite Hl.
      apply elem_of_union_l. by apply elem_of_list_to_set.
    + rewrite Htake. intros g [Hg| ->%list_elem_of_singleton]%elem_of_app; [by apply Hdisj|].
      set_solver.
    + done.
    + rewrite Htake, list_to_set_app_L, Hl2, Hl1, Hl. set_solver.
    + rewrite Htake, list_to_set_app_L, Hc2, Hc1, Hc. set_solver.
    + exists ok, row', h3. rewrite E3, list_insert_insert_eq, Hlen3, length_insert.
      replace (i + S n)%nat with (S i + n)%nat by lia.
      split; [done|]. split; [done|]. split; [done|]. split; [|done].
      eapply same_pt_trans; [done|]. by eapply same_pt_trans.
  - destruct Hr as (Hl1 & Hc1).
    destruct (free_loop_spec i 0 slot fs row h1) as (row' & h2 & E2 & Hlen2 & Hh2 & Hpt2 & Hl2 & Hc2);
      [done|done|lia|done| |].
    { rewrite drop_0, Hl1, Hl. intros f Hf. apply elem_of_union_l. by apply elem_of_list_to_set. }
    rewrite E2. exists false, row', h2. simpl. rewrite drop_0 in Hl2, Hc2.
    split; [done|]. split; [done|]. split; [done|]. split; [by eapply same_pt_trans|].
    split; [constructor|]. split; [set_solver|].
    rewrite Hl2, Hc2, Hl1, Hc1, Hl, Hc. split; apply set_eq; intros f; set_solver.
Qed.

(** ** Freeing an object *)

Lemma owned_remove (A X B : list Z) :
  NoDup (A ++ X ++ B) ->
  NoDup (A ++ B) /\
  list_to_set (A ++ X ++ B) ∖ list_to_set X = (list_to_set (A ++ B) : gset Z).
Proof.
  intros Hnd. rewrite Permutation_app_comm, <- app_assoc in Hnd.
  apply NoDup_app in Hnd as (_ & Hdis & Hnd). rewrite Permutation_app_comm in Hnd.
  split; [done|]. apply set_eq. intros f.
  rewrite elem_of_difference, !elem_of_list_to_set, !elem_of_app.
  specialize (Hdis f). rewrite elem_of_app in Hdis. tauto.
Qed.

Lemma pt_ok_same s s' h h' :
  same_pt h h' -> (forall p v e, backed s' p v e <-> backed s p v e) ->
  pt_ok s h -> pt_ok s' h'.
Proof. intros Hsame Hb Hpt p v e. rewrite Hsame, Hb. apply Hpt. Qed.

Definition freed (s : Shm) (slot : nat) (o : Object) (row' : list Z) : Shm :=
  mkShm (<[slot := set_gen (next_gen (o_gen o)) EMPTY_OBJ]> (objects s))
        (<[slot := row']> (frames s)) (maps s) (total_pages s - o_pages o).

(** [free_object] on an unreferenced object returns its frames, keeps the books
    and leaves every mapping as it was. *)
Lemma free_object_spec s h slot o :
  books s -> frames_ok s h -> objects s !! slot = Some o ->
  o_in_use o = true -> o_map_count o = 0 ->
  exists row' h', free_object s h slot = Done (freed s slot o row', h') /\
    books (freed s slot o row') /\ frames_ok (freed s slot o row') h' /\
    same_pt h h' /\
    (forall p v e, backed (freed s slot o row') p v e <-> backed s p v e).
Proof.
  intros Hb Hf Ho Hu Hc.
  destruct (obj_lookup s slot Hb (obj_bound _ _ _ Hb Ho)) as (o' & row & Ho' & Hr & Hok & Hlen).
  simplify_eq. destruct (ok_used o Hok Hu) as [Hg Hp].
  destruct (owned_split s slot o row Ho Hr) as (A & B & Hown & Hown').
  unfold owned_of in Hown at 1. rewrite Hu in Hown.
  pose proof (fr_nodup s h Hf) as Hnd. rewrite Hown in Hnd.
  destruct (owned_remove _ _ _ Hnd) as [Hnd' Hset].
  destruct (free_loop_spec (Z.to_nat (o_pages o)) 0 slot (frames s) row h)
    as (row' & h' & E & Hlen' & Hh' & Hpt & Hl & Hcl).
  - by apply fr_hal in Hf.
  - done.
  - lia.
  - rewrite drop_0. apply NoDup_app in Hnd as (_ & _ & Hnd). by apply NoDup_app in Hnd as (? & _).
  - rewrite drop_0, (fr_live s h Hf), Hown. intros f Hin.
    apply elem_of_list_to_set, elem_of_app. right. apply elem_of_app. by left.
  - rewrite drop_0 in Hl, Hcl. exists row', h'.
    pose proof (weight_le_sum _ _ _ (b_obj s Hb) Ho) as Hw.
    pose proof (b_total s Hb) as Ht. pose proof (b_cap s Hb) as Hcap.
    unfold weight in Hw. rewrite Hu in Hw. unfold MAX_TOTAL_PAGES in *.
    split; [|split; [|split; [|split; [done|]]]].
    + unfold free_object. rewrite (index_at Ho). simpl. rewrite E. simpl.
      rewrite store_Done by by eapply lookup_lt_Some. simpl. unfold freed.
      rewrite Z2Nat.id by lia. rewrite (wrap32_id (o_pages o)) by auto with machine.
      rewrite wrap32_id by auto with machine. done.
    + apply (books_slot s slot o); [done|done|done|apply obj_ok_freed| |lia| |].
      * done.
      * unfold weight. rewrite Hu. simpl. lia.
      * unfold MAX_TOTAL_PAGES. lia.
    + split; [done| | |].
      * unfold freed. by rewrite Hown'.
      * unfold freed. by rewrite Hown', Hl, (fr_live s h Hf), Hown.
      * rewrite Hl, Hcl. pose proof (fr_clean s h Hf). set_solver.
    + apply backed_slot. intros j r Hj Hru. by eapply unreferenced.
Qed.

(** ** Creating an object *)

Definition owned_by (pid : Z) (o : Object) : bool :=
  o_in_use o && ((o_owner o =? pid) && negb (o_dying o)).

Definition unused (o : Object) : bool := negb (o_in_use o).

Lemma shm_create_scan_spec os i pid n fs :
  0 <= n -> n + Z.of_nat (length os) < 0x100000000 ->
  create_scan i os pid n fs =
    (n + Z.of_nat (countb (owned_by pid) os),
     match fs with Some _ => fs | None => Nat.add i <$> position unused os end).
Proof.
  revert i n fs. induction os as [|o os IH]; intros i n fs Hn Hlen; csimpl in *.
  { rewrite Z.add_0_r. by destruct fs. }
  unfold owned_by at 1. unfold unused at 1. destruct (o_in_use o); csimpl.
  - destruct ((o_owner o =? pid) && negb (o_dying o)).
    + rewrite IH, wrap32_id by (rewrite ?wrap32_id; unfold is_u32; lia).
      f_equal; [lia|]. destruct fs; [done|]. rewrite <- option_fmap_compose.
      apply option_fmap_ext. intros; simpl; lia.
    + rewrite IH by lia. f_equal. destruct fs; [done|]. rewrite <- option_fmap_compose.
      apply option_fmap_ext. intros; simpl; lia.
  - rewrite IH by lia. f_equal. destruct fs; csimpl; [done|]. f_equal. lia.
Qed.

Definition created (s : Shm) (slot : nat) (gen pid pages : Z) (row' : list Z) : Shm :=
  mkShm (<[slot := mkObject true false gen pid pages 0 (replicate MAX_GRANTS EMPTY_GRANT)]>
           (objects s))
        (<[slot := row']> (frames s)) (maps s) (total_pages s + pages).

(** The frames of a free slot are nobody's: it may be written in any way. *)
Lemma frames_ok_scratch s h slot o row' h' :
  frames_ok s h -> objects s !! slot = Some o -> o_in_use o = false ->
  (slot < length (frames s))%nat ->
  hal_ok h' -> live h' = live h -> clean h' = clean h ->
  frames_ok (set_frames (<[slot := row']> (frames s)) s) h'.
Proof.
  intros Hf Ho Hu Hlt Hh' Hl Hc. destruct (lookup_lt_is_Some_2 _ _ Hlt) as [row Hr].
  destruct (owned_split s slot o row Ho Hr) as (A & B & Hown & Hown').
  specialize (Hown' o row' (maps s) (total_pages s)).
  rewrite list_insert_id in Hown' by done. unfold owned_of in Hown, Hown'. rewrite Hu in *.
  rewrite <- Hown in Hown'.
  split; [done| | |].
  - unfold set_frames. rewrite Hown'. apply (fr_nodup s h Hf).
  - unfold set_frames. rewrite Hown', Hl. apply (fr_live s h Hf).
  - rewrite Hl, Hc. apply (fr_clean s h Hf).
Qed.

(** The new frames of a created object. *)
Lemma frames_ok_created s h slot o gen pid pages row' h' :
  frames_ok s h -> objects s !! slot = Some o -> o_in_use o = false ->
  (slot < length (frames s))%nat -> hal_ok h' ->
  let F := take (Z.to_nat pages) row' in
  NoDup F -> (forall f, f ∈ F -> f ∉ live h) ->
  live h' = list_to_set F ∪ live h -> clean h' = list_to_set F ∪ clean h ->
  frames_ok (created s slot gen pid pages row') h'.
Proof.
  intros Hf Ho Hu Hlt Hh' F Hnd Hnew Hl Hc. destruct (lookup_lt_is_Some_2 _ _ Hlt) as [row Hr].
  destruct (owned_split s slot o row Ho Hr) as (A & B & Hown & Hown').
  unfold owned_of in Hown at 1. rewrite Hu in Hown. simpl in Hown.
  pose proof (fr_nodup s h Hf) as Hnd0. pose proof (fr_live s h Hf) as Hl0.
  split; [done| | |].
  - unfold created. rewrite Hown'. unfold owned_of. simpl. fold F.
    rewrite (Permutation_app_comm F B), app_assoc, <- Hown.
    apply NoDup_app. split; [done|]. split; [|done].
    intros f Hin Hf'. apply (Hnew f Hf'). rewrite Hl0. by apply elem_of_list_to_set.
  - unfold created. rewrite Hown', Hl, Hl0, Hown. unfold owned_of. simpl. fold F.
    rewrite !list_to_set_app_L. set_solver.
  - rewrite Hl, Hc. pose proof (fr_clean s h Hf). set_solver.
Qed.

Definition create_args_ok (size flags : Z) : Prop :=
  flags = 0 /\ 0 < size <= MAX_PAGES_PER_OBJECT * PAGE_SIZE.

(** The whole pages that hold [size] bytes. *)
Definition pages_for (size : Z) : Z := (size + PAGE_SIZE - 1) / PAGE_SIZE.

Lemma pages_for_range size :
  0 < size <= MAX_PAGES_PER_OBJECT * PAGE_SIZE ->
  wrap32 (size + PAGE_SIZE - 1) / PAGE_SIZE = pages_for size /\
  1 <= pages_for size <= MAX_PAGES_PER_OBJECT /\
  size <= pages_for size * PAGE_SIZE < size + PAGE_SIZE.
Proof.
  unfold pages_for, MAX_PAGES_PER_OBJECT, PAGE_SIZE. intros Hs.
  rewrite wrap32_id by auto with machine. split; [done|].
  pose proof (Z.div_mod (size + 4096 - 1) 4096 ltac:(lia)).
  pose proof (Z.mod_pos_bound (size + 4096 - 1) 4096 ltac:(lia)). lia.
Qed.

Lemma reaped_insert s slot o' fs t :
  reaped s -> (o_dying o' = true -> 0 < o_map_count o') ->
  reaped (mkShm (<[slot := o']> (objects s)) fs (maps s) t).
Proof.
  intros Hr Ho' i o Ho Hd.
  apply list_lookup_insert_Some in Ho as [(_ & <- & _)|[_ Ho]]; [by apply Ho'|by eapply Hr].
Qed.

(** The invariant of a freshly created object. *)
Lemma created_inv s h slot o gen pid pages row' h' :
  shm_inv s h -> objects s !! slot = Some o -> o_in_use o = false ->
  1 <= gen < 0x1000000 -> 1 <= pages <= MAX_PAGES_PER_OBJECT ->
  total_pages s + pages <= MAX_TOTAL_PAGES ->
  length row' = Z.to_nat MAX_PAGES_PER_OBJECT -> hal_ok h' -> same_pt h h' ->
  let F := take (Z.to_nat pages) row' in
  NoDup F -> (forall f, f ∈ F -> f ∉ live h) ->
  live h' = list_to_set F ∪ live h -> clean h' = list_to_set F ∪ clean h ->
  shm_inv (created s slot gen pid pages row') h'.
Proof.
  intros (Hb & Hreap & Hf & Hpt) Ho Hu Hg Hp Ht Hrow Hh' Hsame F Hnd Hnew Hl Hc.
  assert (Hok : obj_ok o) by by eapply Forall_lookup_1; [apply b_obj|].
  destruct (ok_unused o Hok Hu) as [Hcount _].
  split; [|split; [|split]].
  - eapply books_slot; [done|done|done| |done|done| |done].
    + split; simpl; [done|lia|lia|done].
    + unfold weight. rewrite Hu. simpl. lia.
  - by apply reaped_insert.
  - eapply frames_ok_created; try done.
    rewrite b_frames, <- (b_objects s) by done. by eapply lookup_lt_Some.
  - eapply pt_ok_same; [done| |done].
    apply backed_slot. intros j r Hj Hru. by eapply unreferenced.
Qed.

(** A failed creation leaves only scratch values in a free slot's row. *)
Lemma scratch_inv s h slot o row' h' :
  shm_inv s h -> objects s !! slot = Some o -> o_in_use o = false ->
  length row' = Z.to_nat MAX_PAGES_PER_OBJECT -> hal_ok h' -> same_pt h h' ->
  live h' = live h -> clean h' = clean h ->
  shm_inv (set_frames (<[slot := row']> (frames s)) s) h'.
Proof.
  intros (Hb & Hreap & Hf & Hpt) Ho Hu Hrow Hh' Hsame Hl Hc.
  assert (Hok : obj_ok o) by by eapply Forall_lookup_1; [apply b_obj|].
  destruct (ok_unused o Hok Hu) as [Hcount _].
  split; [|split; [done|split]].
  - unfold set_frames. rewrite <- (list_insert_id (objects s) slot o Ho).
    apply (books_slot s slot o); try done; [lia|]. by apply b_cap.
  - eapply frames_ok_scratch; try done.
    rewrite b_frames, <- (b_objects s) by done. by eapply lookup_lt_Some.
  - eapply pt_ok_same; [done| |done].
    apply backed_slot. intros j r Hj Hru. by eapply unreferenced.
Qed.

(** The allocation loop of [create] in a free slot. *)
Lemma create_alloc s h slot o pages :
  shm_inv s h -> objects s !! slot = Some o -> o_in_use o = false ->
  1 <= pages <= MAX_PAGES_PER_OBJECT -> total_pages s + pages <= MAX_TOTAL_PAGES ->
  exists ok row' h',
    alloc_loop (Z.to_nat pages) 0 slot (frames s) h = Done (ok, <[slot := row']> (frames s), h') /\
    same_pt h h' /\
    if ok : bool
    then live h' = list_to_set (take (Z.to_nat pages) row') ∪ live h /\
         (forall f, f ∈ take (Z.to_nat pages) row' -> f ∉ live h) /\
         forall gen pid, 1 <= gen < 0x1000000 -> shm_inv (created s slot gen pid pages row') h'
    else live h' = live h /\ shm_inv (set_frames (<[slot := row']> (frames s)) s) h'.
Proof.
  intros Hinv Ho Hu Hp Hfit. pose proof Hinv as (Hb & _ & Hf & _).
  destruct (obj_lookup s slot Hb (obj_bound _ _ _ Hb Ho)) as (o' & row & Ho' & Hr & Hok & Hlen).
  pose proof (fr_hal s h Hf) as Hh. simplify_eq.
  destruct (alloc_loop_spec (Z.to_nat pages) 0 slot (frames s) row h (live h) (clean h))
    as (ok & row' & h' & E & Hlen' & Hh' & Hsame & Hnd & Hnew & Hl & Hc); try done.
  { lia. }
  { constructor. }
  { intros f Hin. by apply elem_of_nil in Hin. }
  { by apply clean_live. }
  { simpl. set_solver. }
  { simpl. set_solver. }
  exists ok, row', h'. split; [done|]. split; [done|]. destruct ok; simpl in *.
  - split; [done|]. split; [done|]. intros gen pid Hg. eapply created_inv; (done || lia).
  - rewrite union_empty_l_L in Hl, Hc. split; [done|]. eapply scratch_inv; (done || lia).
Qed.

(** [create] allocates nothing or a fresh zeroed object in the first free slot. *)
Lemma create_spec s h pid size flags :
  shm_inv s h -> is_u32 size ->
  exists r s' h', create s h pid size flags = Done (r, s', h') /\ shm_inv s' h' /\ same_pt h h' /\
    match r with
    | Ok (hd, bytes) => exists slot gen row',
        create_args_ok size flags /\
        position unused (objects s) = Some slot /\
        Z.of_nat (countb (owned_by pid) (objects s)) < MAX_OBJECTS_PER_OWNER /\
        s' = created s slot gen pid (pages_for size) row' /\
        Shm_lookup s' hd = Done (Ok slot) /\ bytes = pages_for size * PAGE_SIZE /\
        live h' = list_to_set (take (Z.to_nat (pages_for size)) row') ∪ live h /\
        (forall f, f ∈ take (Z.to_nat (pages_for size)) row' -> f ∉ live h) /\
        (forall o, objects s !! slot = Some o -> gen = if o_gen o =? 0 then 1 else o_gen o)
    | Err e =>
        objects s' = objects s /\ maps s' = maps s /\ total_pages s' = total_pages s /\
        live h' = live h /\
        (e = EINVAL /\ ~ create_args_ok size flags \/
         e = ENOSPC /\ (position unused (objects s) = None \/
                        MAX_OBJECTS_PER_OWNER <= Z.of_nat (countb (owned_by pid) (objects s))) \/
         e = ENOMEM /\ create_args_ok size flags)
    end.
Proof.
  intros Hinv Hu32. pose proof Hinv as (Hb & Hreap & Hf & Hpt). unfold create.
  destruct (negb (flags =? 0) || (size =? 0) || (MAX_PAGES_PER_OBJECT * PAGE_SIZE <? size))
    eqn:Hargs.
  { exists (Err EINVAL), s, h. split; [done|]. split; [done|]. split; [done|]. unfold create_args_ok.
    do 4 (split; [done|]). left. split; [done|]. lia. }
  assert (Hgood : create_args_ok size flags) by (unfold create_args_ok, is_u32 in *; lia).
  pose proof Hgood as [_ Hsize]. destruct (pages_for_range size Hsize) as (-> & Hp & _).
  rewrite shm_create_scan_spec by (rewrite ?(b_objects s Hb); unfold MAX_OBJECTS; lia). simpl.
  rewrite Z.add_0_l, option_fmap_id.
  destruct (position unused (objects s)) as [slot|] eqn:Hslot.
  2: { exists (Err ENOSPC), s, h. split; [done|]. split; [done|]. split; [done|]. do 4 (split; [done|]).
       right. left. split; [done|]. by left. }
  destruct (Z.leb_spec MAX_OBJECTS_PER_OWNER (Z.of_nat (countb (owned_by pid) (objects s)))).
  { exists (Err ENOSPC), s, h. split; [done|]. split; [done|]. split; [done|]. do 4 (split; [done|]).
    right. left. split; [done|]. by right. }
  apply position_Some in Hslot as Hslot'. destruct Hslot' as (o & Ho & Hu & _).
  apply negb_true_iff in Hu.
  assert (Hok : obj_ok o) by by eapply Forall_lookup_1; [apply b_obj|].
  pose proof (b_cap s Hb) as Hcap. pose proof (b_total s Hb) as Htot.
  pose proof (sum_pages_nonneg _ (b_obj s Hb)) as Hsum.
  assert (Hbig : MAX_PAGES_PER_OBJECT = 4096 /\ MAX_TOTAL_PAGES = 6144) by done.
  rewrite (wrap32_id (total_pages s + pages_for size)) by auto with machine.
  destruct (Z.ltb_spec MAX_TOTAL_PAGES (total_pages s + pages_for size)) as [|Hfit].
  { exists (Err ENOMEM), s, h. split; [done|]. split; [done|]. split; [done|]. do 4 (split; [done|]). auto. }
  destruct (create_alloc s h slot o (pages_for size)) as (ok & row' & h' & E & Hsame & Hres); try done.
  rewrite E. simpl. destruct ok; simpl; destruct Hres as [Hl Hinv'].
  2: { eexists (Err ENOMEM), _, h'.
       split; [done|]. split; [done|]. split; [done|]. do 4 (split; [done|]). auto. }
  destruct Hinv' as [Hnew Hinv']. rewrite (index_at Ho). simpl.
  rewrite store_Done by by eapply lookup_lt_Some. simpl.
  set (gen := if o_gen o =? 0 then 1 else o_gen o).
  specialize (Hinv' gen pid). set (s' := created s slot gen pid (pages_for size) row') in *.
  assert (Hinv'' : shm_inv s' h').
  { apply Hinv'. pose proof (ok_gen o Hok). unfold gen. destruct (Z.eqb_spec (o_gen o) 0); lia. }
  destruct (handle_roundtrip s' slot
    (mkObject true false gen pid (pages_for size) 0 (replicate MAX_GRANTS EMPTY_GRANT)))
    as (hd & Ehd & Elk); [by destruct Hinv''| |done|done|].
  { simpl. apply list_lookup_insert_eq. by eapply lookup_lt_Some. }
  change (handle_for _ slot) with (handle_for s' slot). rewrite Ehd. simpl.
  eexists (Ok _), s', h'. do 3 (split; [done|]).
  exists slot, gen, row'. do 5 (split; [done|]). split; [|do 2 (split; [done|]); by intros; simplify_eq].
  unfold PAGE_SIZE. rewrite wrap32_id; [done|]. unfold is_u32; lia.
Qed.
End Loops.
