(* ===== verification/ShmGap.v ===== *)
(** * Shared memory: first-fit placement

    [find_gap] terminates without a panic, and returns the lowest address at which
    the pages fit clear of every mapping of the process and its guard page, or
    [None] exactly when there is none. *)

From stdpp Require Import sorting.
From S2P Require Import Prelude Shm ShmInv.
Local Open Scope Z_scope.

Definition by_start (a b : Z * Z) : Prop := a.1 <= b.1.

(** ** The insertion sort *)

Lemma index_middle {A} (l1 l2 : list A) x n :
  n = length l1 -> index (l1 ++ x :: l2) n = Done x.
Proof. intros ->. apply index_Done. by apply list_lookup_middle. Qed.

Lemma swap_middle {A} (l1 l2 : list A) x y n :
  n = length l1 -> <[n := x]> (<[S n := y]> (l1 ++ y :: x :: l2)) = l1 ++ x :: y :: l2.
Proof.
  intros ->. rewrite !insert_app_r_alt by lia.
  by rewrite Nat.sub_diag, Nat.sub_succ_l, Nat.sub_diag by lia.
Qed.

(** [sift] moves the element behind a sorted prefix to its place. *)
Lemma sift_spec l1 l2 x :
  StronglySorted by_start l1 ->
  exists l1', sift (length l1) (l1 ++ x :: l2) = Done (l1' ++ l2) /\
    StronglySorted by_start l1' /\ l1' ≡ₚ x :: l1.
Proof.
  revert l2. induction l1 as [|y l1 IH] using rev_ind; intros l2 Hs.
  { exists [x]. split; [done|]. split; [|done]. repeat constructor. }
  rewrite length_app, Nat.add_1_r, <- app_assoc. simpl.
  rewrite (index_middle l1 (x :: l2) y (length l1) eq_refl). simpl.
  assert (Ex : index (l1 ++ y :: x :: l2) (S (length l1)) = Done x).
  { rewrite cons_middle, app_assoc. apply index_middle. rewrite length_app. simpl. lia. }
  rewrite Ex. simpl. apply StronglySorted_app in Hs as (Hle & Hs & _).
  destruct (Z.ltb_spec x.1 y.1) as [Hlt|Hge].
  - rewrite swap_middle by done. destruct (IH (y :: l2) Hs) as (l1' & E & Hs' & Hp).
    exists (l1' ++ [y]). rewrite <- app_assoc. simpl. split; [done|]. split.
    + apply StronglySorted_app_2; [|done|repeat constructor].
      intros a b Ha ->%list_elem_of_singleton. rewrite Hp in Ha.
      apply elem_of_cons in Ha as [->|Ha]; [unfold by_start; lia|].
      apply Hle; [done|by left].
    + rewrite Hp. simpl. done.
  - exists (l1 ++ [y; x]). rewrite <- app_assoc. simpl. split; [done|]. split.
    + apply StronglySorted_app_2; [|done|].
      * intros a b Ha Hb. specialize (Hle a y Ha ltac:(by left)). unfold by_start in *.
        apply elem_of_cons in Hb as [-> | ->%list_elem_of_singleton]; lia.
      * repeat constructor. done.
    + rewrite (Permutation_app_comm l1), (Permutation_app_comm l1). simpl. constructor.
Qed.

Lemma insertion_sort_from k l1 l2 :
  length l2 = k -> StronglySorted by_start l1 ->
  exists l, insertion_sort k (length l1) (l1 ++ l2) = Done l /\
    StronglySorted by_start l /\ l ≡ₚ l1 ++ l2.
Proof.
  revert l1 l2. induction k as [|k IH]; intros l1 [|x l2] Hk Hs; simpl in *; try lia.
  { exists (l1 ++ []). by rewrite app_nil_r. }
  destruct (sift_spec l1 l2 x Hs) as (l1' & -> & Hs' & Hp). simpl.
  assert (Hlen : length l1' = S (length l1)) by by rewrite Hp.
  rewrite <- Hlen. destruct (IH l1' l2) as (l & -> & Hsl & Hpl); [lia|done|].
  exists l. split; [done|]. split; [done|]. rewrite Hpl, Hp. simpl.
  apply Permutation_middle.
Qed.

(** The insertion sort of [find_gap] sorts. *)
Lemma insertion_sort_spec l :
  exists l', insertion_sort (length l - 1) 1 l = Done l' /\
    StronglySorted by_start l' /\ l' ≡ₚ l.
Proof.
  destruct l as [|x l]; [exists []; repeat constructor|].
  destruct (insertion_sort_from (length l) [x] l) as (l' & E & Hs & Hp); [done| |].
  { repeat constructor. }
  exists l'. simpl in *. rewrite Nat.sub_0_r. done.
Qed.

(** ** The walk over the sorted spans *)

Definition clear_of (y need : Z) (sp : Z * Z) : Prop := y + need <= sp.1 \/ sp.2 <= y.

Lemma gap_scan_spec l need cand :
  0 < need -> 0 <= cand -> StronglySorted by_start l ->
  (forall sp, sp ∈ l -> 0 <= sp.1 <= sp.2 /\ sp.2 < 0x100000000) ->
  match gap_scan l need cand with
  | Ok x => cand <= x /\ (exists sp, sp ∈ l /\ x + need <= sp.1) /\
            (x = cand \/ exists sp, sp ∈ l /\ x = sp.2) /\
            (forall sp, sp ∈ l -> clear_of x need sp) /\
            (forall y, cand <= y -> (forall sp, sp ∈ l -> clear_of y need sp) -> x <= y)
  | Err x => cand <= x /\
            (x = cand \/ exists sp, sp ∈ l /\ x = sp.2) /\
            (forall sp, sp ∈ l -> sp.2 <= x) /\
            (forall y, cand <= y -> (forall sp, sp ∈ l -> clear_of y need sp) -> x <= y)
  end.
Proof.
  intros Hn. revert cand. induction l as [|[a e] l IH]; intros cand Hc Hs Hr; simpl.
  { split; [lia|]. split; [by left|]. split; [|lia]. intros sp Hsp. by apply elem_of_nil in Hsp. }
  apply StronglySorted_cons in Hs as [Hle Hs].
  pose proof (Hr (a, e) ltac:(by left)) as [Hae He]. simpl in Hae, He.
  destruct ((cand <=? a) && (need <=? a - cand)) eqn:Hfit.
  - rewrite wrap32_id by auto with machine.
    split; [lia|]. split; [exists (a, e); split; [by left|simpl; lia]|]. split; [by left|].
    split; [|lia]. intros sp [->|Hsp]%elem_of_cons; left; simpl; [lia|].
    pose proof (proj1 (Forall_forall _ _) Hle sp Hsp) as Hb. unfold by_start in Hb. simpl in Hb. lia.
  - set (c := if cand <? e then e else cand).
    assert (Hcc : cand <= c /\ e <= c /\ (c = cand \/ c = e))
      by (unfold c; destruct (Z.ltb_spec cand e); lia).
    specialize (IH c ltac:(lia) Hs ltac:(intros sp Hsp; apply Hr; by right)).
    assert (Hstep : forall x, (forall y, c <= y -> (forall sp, sp ∈ l -> clear_of y need sp) -> x <= y) ->
      forall y, cand <= y -> (forall sp, sp ∈ (a, e) :: l -> clear_of y need sp) -> x <= y).
    { intros x Hmin y Hy Hcy. apply Hmin; [|intros q Hq; apply Hcy; by right].
      pose proof (Hcy (a, e) ltac:(by left)) as [|]; simpl in *; lia. }
    assert (Horigin : forall x, x = c \/ (exists sp, sp ∈ l /\ x = sp.2) ->
      x = cand \/ exists sp, sp ∈ (a, e) :: l /\ x = sp.2).
    { intros x [->|(q & Hq & ->)]; [|right; exists q; split; [by right|done]].
      destruct Hcc as (_ & _ & [->| ->]); [by left|right; exists (a, e); split; [by left|done]]. }
    destruct (gap_scan l need c) as [x|x].
    + destruct IH as (Hx & (sp & Hsp & Hup) & Hfrom & Hclear & Hmin).
      split; [lia|]. split; [exists sp; split; [by right|done]|]. split; [by apply Horigin|].
      split; [|by apply Hstep].
      intros q [->|Hq]%elem_of_cons; [right; simpl; lia|by apply Hclear].
    + destruct IH as (Hx & Hfrom & Hclear & Hmin).
      split; [lia|]. split; [by apply Horigin|]. split; [|by apply Hstep].
      intros q [->|Hq]%elem_of_cons; [simpl; lia|by apply Hclear].
Qed.

(** ** The spans of a process *)

Definition span (r : MapRec) : Z * Z := (m_addr r, span_end r).

Fixpoint spans_of (pid : Z) (ms : list MapRec) : list (Z * Z) :=
  match ms with
  | [] => []
  | r :: ms' => if of_pid pid r then span r :: spans_of pid ms' else spans_of pid ms'
  end.

Lemma spans_of_length pid ms : length (spans_of pid ms) = countb (of_pid pid) ms.
Proof. induction ms as [|r ms IH]; simpl; [done|]. destruct (of_pid pid r); simpl; lia. Qed.

Lemma elem_of_spans pid ms sp :
  sp ∈ spans_of pid ms <->
  exists j r, ms !! j = Some r /\ m_in_use r = true /\ m_pid r = pid /\ sp = span r.
Proof.
  induction ms as [|r ms IH]; simpl.
  { rewrite elem_of_nil. split; [done|]. by intros (j & r & ? & _). }
  assert (Hr : of_pid pid r = true <-> m_in_use r = true /\ m_pid r = pid)
    by (unfold of_pid; destruct (m_in_use r); lia).
  destruct (of_pid pid r) eqn:E; rewrite ?elem_of_cons, IH.
  - split.
    + intros [->|(j & q & Hq)]; [exists 0%nat, r; naive_solver|exists (S j), q; done].
    + intros ([|j] & q & Hj & Hq); simplify_eq/=; [left; naive_solver|right; by exists j, q].
  - split; [intros (j & q & Hq); by exists (S j), q|].
    intros ([|j] & q & Hj & Hq); simplify_eq/=; [naive_solver|by exists j, q].
Qed.

Definition is_span (sp : Z * Z) : Prop := 0 <= sp.1 <= sp.2 /\ sp.2 < 0x100000000.

Lemma rec_ok_span os r : Forall obj_ok os -> rec_ok os r -> is_span (span r) /\ 1 <= m_pages r <= 4096.
Proof.
  intros Hos [(o & Ho & Hu & Hp) ? ? Hb He _].
  destruct (ok_used o (Forall_lookup_1 _ _ _ _ Hos Ho) Hu) as [_ Hpg].
  unfold is_span, span, span_end, SHM_VIRT_BASE, SHM_VIRT_END, PAGE_SIZE, MAX_PAGES_PER_OBJECT in *.
  simpl. lia.
Qed.

(** The collected spans are those of the process, and none is left out. *)
Lemma collect_spans_spec os ms pid sp :
  Forall obj_ok os ->
  (forall j r, ms !! j = Some r -> m_in_use r = true -> rec_ok os r) ->
  Z.of_nat (length sp + countb (of_pid pid) ms) <= MAX_MAPS_PER_PROC ->
  collect_spans ms pid sp = sp ++ spans_of pid ms.
Proof.
  intros Hos. revert sp. induction ms as [|r ms IH]; intros sp Hr Hq; simpl in *.
  { by rewrite app_nil_r. }
  assert (IH' : forall sp', Z.of_nat (length sp' + countb (of_pid pid) ms) <= MAX_MAPS_PER_PROC ->
    collect_spans ms pid sp' = sp' ++ spans_of pid ms).
  { intros sp'. apply IH. intros j. apply (Hr (S j)). }
  fold (of_pid pid r). destruct (of_pid pid r) eqn:E; simpl.
  - replace (Z.of_nat (length sp) <? MAX_MAPS_PER_PROC) with true by lia.
    destruct (rec_ok_span os r Hos) as [[Hs1 Hs2] Hp].
    { apply (Hr 0%nat); [done|]. unfold of_pid in E. by destruct (m_in_use r). }
    unfold span, span_end, PAGE_SIZE in *. simpl in Hs1, Hs2.
    rewrite (wrap32_id (m_pages r + 1)) by auto with machine.
    rewrite (wrap32_id ((m_pages r + 1) * 4096)) by auto with machine.
    rewrite wrap32_id by auto with machine.
    rewrite IH' by (rewrite length_app; simpl; lia). by rewrite <- app_assoc.
  - apply IH'. lia.
Qed.

(** ** Placement *)

(** [need] bytes at [y] lie in the region, clear of the process's mappings. *)
Definition fits (s : Shm) (pid need y : Z) : Prop :=
  SHM_VIRT_BASE <= y /\ y + need <= SHM_VIRT_END /\
  forall j r, maps s !! j = Some r -> m_in_use r = true -> m_pid r = pid ->
    clear_of y need (span r).

Lemma clear_of_spans s pid need y :
  (forall sp, sp ∈ spans_of pid (maps s) -> clear_of y need sp) <->
  (forall j r, maps s !! j = Some r -> m_in_use r = true -> m_pid r = pid ->
    clear_of y need (span r)).
Proof.
  split.
  - intros Hc j r Hj Hu Hp. apply Hc, elem_of_spans. eauto 6.
  - intros Hc sp (j & r & Hj & Hu & Hp & ->)%elem_of_spans. eauto.
Qed.

Lemma find_gap_spec s pid np :
  books s -> 0 < np <= MAX_PAGES_PER_OBJECT + 1 ->
  exists g, find_gap s pid np SHM_VIRT_BASE SHM_VIRT_END = Done g /\
    match g with
    | Some x => fits s pid (np * PAGE_SIZE) x /\ x mod PAGE_SIZE = 0 /\
                forall y, fits s pid (np * PAGE_SIZE) y -> x <= y
    | None => forall y, ~ fits s pid (np * PAGE_SIZE) y
    end.
Proof.
  intros Hb Hnp. unfold find_gap.
  rewrite (collect_spans_spec (objects s)); [|by apply b_obj|by apply b_rec|simpl; by apply b_quota].
  simpl. set (sps := spans_of pid (maps s)).
  destruct (insertion_sort_spec sps) as (l & -> & Hs & Hperm). simpl.
  assert (Hspan : forall sp, sp ∈ l -> is_span sp /\ sp.1 <= SHM_VIRT_END /\
                                       sp.2 mod PAGE_SIZE = 0).
  { intros sp Hsp. rewrite Hperm in Hsp. apply elem_of_spans in Hsp as (j & r & Hj & Hu & _ & ->).
    pose proof (b_rec s Hb j r Hj Hu) as Hrec.
    destruct (rec_ok_span _ r (b_obj s Hb) Hrec) as [Hsp Hp]. split; [done|].
    destruct Hrec as [_ _ Ha _ He _]. destruct Hsp as [[_ Hsp] _]. simpl in *. split; [lia|].
    unfold span_end. by rewrite Z.add_mod, Ha, Z_mod_mult by done. }
  assert (Hiff : forall y, (forall sp, sp ∈ l -> clear_of y (np * PAGE_SIZE) sp) <->
    forall j r, maps s !! j = Some r -> m_in_use r = true -> m_pid r = pid ->
      clear_of y (np * PAGE_SIZE) (span r)).
  { intros y. rewrite <- clear_of_spans. by setoid_rewrite Hperm. }
  pose proof (gap_scan_spec l (np * PAGE_SIZE) SHM_VIRT_BASE) as Hscan.
  destruct (gap_scan l (np * PAGE_SIZE) SHM_VIRT_BASE) as [x|x].
  - destruct Hscan as (Hx & (sp & Hsp & Hup) & Hfrom & Hclear & Hmin);
      [unfold PAGE_SIZE; lia|done|done|by intros; apply Hspan|].
    exists (Some x). split; [done|]. split; [|split].
    + split; [done|]. split; [|by apply Hiff]. pose proof (Hspan sp Hsp). lia.
    + destruct Hfrom as [->|(q & Hq & ->)]; [done|by apply Hspan].
    + intros y (Hy1 & Hy2 & Hy3). apply Hmin; [done|]. by apply Hiff.
  - destruct Hscan as (Hx & Hfrom & Hclear & Hmin);
      [unfold PAGE_SIZE; lia|done|done|by intros; apply Hspan|].
    destruct (Z.leb_spec (x + np * PAGE_SIZE) SHM_VIRT_END) as [Hle|Hgt].
    + rewrite wrap32_id by (unfold is_u32, SHM_VIRT_BASE, SHM_VIRT_END, PAGE_SIZE in *; lia).
      exists (Some x). split; [done|]. split; [|split].
      * split; [done|]. split; [done|]. apply Hiff. intros sp Hsp. right. by apply Hclear.
      * destruct Hfrom as [->|(q & Hq & ->)]; [done|by apply Hspan].
      * intros y (Hy1 & Hy2 & Hy3). apply Hmin; [done|]. by apply Hiff.
    + exists None. split; [done|]. intros y (Hy1 & Hy2 & Hy3).
      pose proof (Hmin y Hy1 (proj2 (Hiff y) Hy3)). lia.
Qed.
