(* ===== verification/ShmLife.v ===== *)
(** * Shared memory: unmapping, destruction, grants, process exit and fork

    That each of these operations keeps the invariant, with what it does to the
    books, the frames and the page tables. *)

From S2P Require Import Prelude Shm ShmHal ShmInv ShmOps ShmGap ShmMap.
Local Open Scope Z_scope.

#[local] Opaque MAX_MAP_RECORDS MAX_OBJECTS MAX_PAGES_PER_OBJECT.

Section Life.
Context {H : Type} `{HalLaws H}.

(** [reaped] at every slot but one. *)
Definition reaped_but (i : nat) (s : Shm) : Prop :=
  forall k o, k <> i -> objects s !! k = Some o -> o_dying o = true -> 0 < o_map_count o.

Lemma reaped_but_reaped i o s :
  reaped_but i s -> objects s !! i = Some o -> (o_dying o = true -> 0 < o_map_count o) -> reaped s.
Proof.
  intros Hr Ho Hd k p Hp Hdy. destruct (decide (k = i)) as [->|]; [simplify_eq; auto|].
  by eapply Hr.
Qed.

(** [free_object] on an unreferenced object of an otherwise reaped state. *)
Lemma free_object_inv s h slot o :
  books s -> reaped_but slot s -> frames_ok s h -> pt_ok s h ->
  objects s !! slot = Some o -> o_in_use o = true -> o_map_count o = 0 ->
  exists row' h', free_object s h slot = Done (freed s slot o row', h') /\
    shm_inv (freed s slot o row') h'.
Proof.
  intros Hb Hr Hf Hpt Ho Hu Hc.
  destruct (free_object_spec s h slot o) as (row' & h' & E & Hb' & Hf' & Hsame & Hback); try done.
  exists row', h'. split; [done|]. split; [done|]. split; [|split; [done|]].
  - intros k p Hp Hd. apply list_lookup_insert_Some in Hp as [(_ & <- & _)|[Hne Hp]]; [done|].
    by eapply Hr.
  - by eapply pt_ok_same.
Qed.

(** ** Unmapping *)

Definition at_addr (pid addr : Z) (r : MapRec) : bool :=
  m_in_use r && (m_pid r =? pid) && (m_addr r =? addr).

Definition dropped (s : Shm) (o : Object) (j : nat) (r : MapRec) : Shm :=
  mkShm (<[Z.to_nat (m_obj r) := set_map_count (o_map_count o - 1) o]> (objects s)) (frames s)
        (<[j := EMPTY_MAP]> (maps s)) (total_pages s).

Lemma dropped_shape s o j r :
  books s -> maps s !! j = Some r -> m_in_use r = true ->
  objects s !! Z.to_nat (m_obj r) = Some o ->
  o_in_use o = true /\ Forall2 same_shape (objects s) (objects (dropped s o j r)).
Proof.
  intros Hb Hj Hu Ho.
  assert (Hok : obj_ok o) by by eapply Forall_lookup_1; [apply b_obj|].
  destruct (b_rec s Hb j r Hj Hu) as [(o' & Ho' & Huo & _) _ _ _ _ _]. simplify_eq.
  split; [done|]. eapply same_shape_insert; [by apply b_obj|done|].
  split; [done|]. split; [done|]. by apply obj_ok_set_map_count.
Qed.

(** The page tables once the pages of a record are unmapped and it is dropped. *)
Lemma pt_ok_dropped s h o j r h' :
  books s -> pt_ok s h -> maps s !! j = Some r -> m_in_use r = true ->
  pt_cleared h h' (m_pid r) (m_addr r) 0 (Z.to_nat (m_pages r)) ->
  pt_ok (dropped s o j r) h'.
Proof.
  intros Hb Hpt Hj Hu [Hnone Hout] p v e.
  unfold dropped. rewrite (backed_drop s _ j r) by done. rewrite <- (Hpt p v e).
  destruct (decide (p = m_pid r /\ exists k : fin (Z.to_nat (m_pages r)), v = page (m_addr r) k))
    as [(-> & k & ->)|Hnot].
  - pose proof (fin_to_nat_lt k) as Hk. rewrite Hnone by lia.
    split; [done|]. intros [_ Hn]. exfalso. apply Hn.
    destruct (b_rec s Hb j r Hj Hu) as [(o' & Ho' & Huo & Hpg) _ _ _ _ _].
    destruct (obj_lookup s _ Hb (obj_bound _ _ _ Hb Ho')) as (? & row & ? & Hrow & Hok & Hlen).
    simplify_eq. destruct (ok_used o' Hok Huo) as [_ Hpages].
    destruct (lookup_lt_is_Some_2 row k) as [f Hf]; [lia|].
    eexists. split; [done|]. exists k, row, f. split; [lia|]. done.
  - rewrite Hout.
    2: { intros (-> & k & [_ Hk] & ->). apply Hnot. split; [done|].
         exists (nat_to_fin Hk). by rewrite fin_to_nat_to_fin. }
    split; [|tauto]. intros He. split; [done|]. intros (e' & <- & l & _ & _ & Hl & -> & _).
    apply Hnot. split; [done|]. assert (Hlt : (l < Z.to_nat (m_pages r))%nat) by lia.
    exists (nat_to_fin Hlt). by rewrite fin_to_nat_to_fin.
Qed.

(** The pages of a record are entered in the tables. *)
Lemma record_pages s h j r k :
  books s -> pt_ok s h -> maps s !! j = Some r -> m_in_use r = true ->
  (k < Z.to_nat (m_pages r))%nat -> is_Some (pt h (m_pid r) (page (m_addr r) k)).
Proof.
  intros Hb Hpt Hj Hu Hk.
  destruct (b_rec s Hb j r Hj Hu) as [(o & Ho & Huo & Hpg) _ _ _ _ _].
  destruct (obj_lookup s _ Hb (obj_bound _ _ _ Hb Ho)) as (? & row & ? & Hrow & Hok & Hlen).
  simplify_eq. destruct (ok_used o Hok Huo) as [_ Hpages].
  destruct (lookup_lt_is_Some_2 row k) as [f Hf]; [lia|].
  eexists. apply Hpt. exists j, r. split; [done|]. split; [done|]. split; [done|].
  exists k, row, f. split; [lia|]. done.
Qed.

(** [unmap] drops the caller's record at that address; with the last mapping of a
    dying object its frames go too. *)
Lemma unmap_spec s h pid addr :
  shm_inv s h ->
  exists res s' h', unmap s h pid addr = Done (res, s', h') /\ shm_inv s' h' /\
    match res with
    | Err e => e = EINVAL /\ s' = s /\ h' = h /\ position (at_addr pid addr) (maps s) = None
    | Ok _ => exists j r o,
        maps s !! j = Some r /\ at_addr pid addr r = true /\
        objects s !! Z.to_nat (m_obj r) = Some o /\
        if o_dying o && (o_map_count o =? 1)
        then exists row', s' = freed (dropped s o j r) (Z.to_nat (m_obj r))
                                     (set_map_count 0 o) row'
        else s' = dropped s o j r /\ live h' = live h
    end.
Proof.
  intros Hinv. pose proof Hinv as (Hb & Hreap & Hf & Hpt). unfold unmap. fold (at_addr pid addr).
  destruct (position (at_addr pid addr) (maps s)) as [j|] eqn:Hpos.
  2: { exists (Err EINVAL), s, h. done. }
  apply position_Some in Hpos as (r & Hj & Hat & _).
  assert (Hr : m_in_use r = true /\ m_pid r = pid /\ m_addr r = addr)
    by (unfold at_addr in Hat; destruct (m_in_use r); lia).
  destruct Hr as (Hu & <- & <-). rewrite (index_at Hj). simpl.
  pose proof (b_rec s Hb j r Hj Hu) as Hrec.
  destruct (rec_ok_span _ r (b_obj s Hb) Hrec) as [[Hs1 Hs2] Hp].
  destruct Hrec as [(o & Ho & Huo & Hpg) _ _ _ _ _].
  destruct (unmap_loop_spec (Z.to_nat (m_pages r)) 0 (m_pid r) (m_addr r) h)
    as (h1 & -> & Hh1 & Hl1 & Hc1 & Hcl).
  { by apply fr_hal in Hf. }
  { simpl in Hs1. lia. }
  { unfold page, span, span_end, PAGE_SIZE in *. simpl in *. lia. }
  { intros k [_ Hk]. by eapply record_pages. }
  simpl. rewrite store_Done by by eapply lookup_lt_Some. simpl.
  rewrite (index_at Ho). simpl.
  rewrite store_Done by by eapply lookup_lt_Some. simpl.
  destruct (mapped_count s o j r Hb Hj Hu Ho) as [Hpos ->]. fold (dropped s o j r).
  destruct (dropped_shape s o j r Hb Hj Hu Ho) as [_ Hshape].
  assert (Hb1 : books (dropped s o j r)) by by apply books_drop_map.
  assert (Hf1 : frames_ok (dropped s o j r) h1) by by eapply frames_ok_shape.
  assert (Hpt1 : pt_ok (dropped s o j r) h1) by by eapply pt_ok_dropped.
  assert (Hrb : reaped_but (Z.to_nat (m_obj r)) (dropped s o j r)).
  { intros k p Hk Hkp. simpl in Hkp. rewrite list_lookup_insert_ne in Hkp by done. by apply (Hreap k). }
  assert (Ho1 : objects (dropped s o j r) !! Z.to_nat (m_obj r) = Some (set_map_count (o_map_count o - 1) o))
    by (apply list_lookup_insert_eq; by eapply lookup_lt_Some).
  destruct (o_dying o && (o_map_count o - 1 =? 0)) eqn:Hdy.
  - assert (Ec : o_map_count o - 1 = 0) by lia. rewrite Ec in Ho1.
    destruct (free_object_inv (dropped s o j r) h1 _ _ Hb1 Hrb Hf1 Hpt1 Ho1) as (row' & h2 & -> & Hinv2);
      [done|done|].
    simpl. eexists (Ok tt), _, h2. split; [done|]. split; [done|]. exists j, r, o.
    do 3 (split; [done|]). replace (o_dying o && (o_map_count o =? 1)) with true by lia. by exists row'.
  - eexists (Ok tt), _, h1. split; [done|]. split.
    + split; [done|]. split; [|done]. eapply reaped_but_reaped; [done|done|]. simpl. lia.
    + exists j, r, o. do 3 (split; [done|]).
      replace (o_dying o && (o_map_count o =? 1)) with false by lia. done.
Qed.

(** ** Destruction and grants *)

Definition doomed (s : Shm) (slot : nat) (o : Object) : Shm :=
  set_objects (<[slot := set_dying true o]> (objects s)) s.

Lemma obj_ok_set_dying o : obj_ok o -> o_in_use o = true -> obj_ok (set_dying true o).
Proof. intros [] Hu. split; simpl; try done. congruence. Qed.

(** The handle is dead at once; the frames go with the last mapping. *)
Lemma destroy_spec s h pid hd :
  shm_inv s h ->
  exists res s' h', destroy s h pid hd = Done (res, s', h') /\ shm_inv s' h' /\
    match res with
    | Err e => 0 < e /\ s' = s /\ h' = h
    | Ok _ => exists slot o,
        Shm_lookup s hd = Done (Ok slot) /\ objects s !! slot = Some o /\ o_owner o = pid /\
        if o_map_count o =? 0
        then exists row', s' = freed (doomed s slot o) slot (set_dying true o) row'
        else s' = doomed s slot o /\ live h' = live h
    end.
Proof.
  intros Hinv. pose proof Hinv as (Hb & Hreap & Hf & Hpt). unfold destroy.
  destruct (lookup_total s hd Hb) as [->|(slot & o & Hlk & Ho & Hu & Hd & _)]; simpl.
  { exists (Err EBADF), s, h. done. }
  rewrite Hlk. simpl. rewrite (index_at Ho). simpl.
  destruct (Z.eqb_spec (o_owner o) pid) as [Hown|]; simpl.
  2: { exists (Err EPERM), s, h. done. }
  rewrite store_Done by by eapply lookup_lt_Some. simpl. fold (doomed s slot o).
  assert (Hok : obj_ok o) by by eapply Forall_lookup_1; [apply b_obj|].
  assert (Hs : same_shape o (set_dying true o)) by (split; [done|split; [done|by apply obj_ok_set_dying]]).
  assert (Hb1 : books (doomed s slot o)) by by eapply books_object.
  assert (Hf1 : frames_ok (doomed s slot o) h).
  { eapply frames_ok_shape; try done; [|by apply fr_hal in Hf].
    eapply same_shape_insert; [by apply b_obj|done|done]. }
  assert (Hrb : reaped_but slot (doomed s slot o)).
  { intros k p Hk Hkp. simpl in Hkp. rewrite list_lookup_insert_ne in Hkp by done. by apply (Hreap k). }
  assert (Ho1 : objects (doomed s slot o) !! slot = Some (set_dying true o))
    by (apply list_lookup_insert_eq; by eapply lookup_lt_Some).
  destruct (Z.eqb_spec (o_map_count o) 0) as [Hc|Hc].
  - destruct (free_object_inv (doomed s slot o) h slot _ Hb1 Hrb Hf1 Hpt Ho1) as (row' & h' & -> & Hinv');
      [done|done|].
    simpl. eexists (Ok tt), _, h'. split; [done|]. split; [done|]. exists slot, o.
    do 3 (split; [done|]). rewrite Hc. by exists row'.
  - eexists (Ok tt), _, h. split; [done|]. split.
    + split; [done|]. split; [|done]. eapply reaped_but_reaped; [done|done|]. simpl. intros _.
      rewrite (b_refs s Hb slot o Ho) in *. lia.
    + exists slot, o. do 3 (split; [done|]). destruct (Z.eqb_spec (o_map_count o) 0); done.
Qed.

Definition regranted (s : Shm) (slot : nat) (o : Object) (gs : list Grant) : Shm :=
  set_objects (<[slot := set_grants gs o]> (objects s)) s.

Lemma regranted_inv s h h' slot o gs :
  shm_inv s h -> objects s !! slot = Some o -> length gs = MAX_GRANTS ->
  hal_ok h' -> same_pt h h' -> live h' = live h -> clean h' = clean h ->
  shm_inv (regranted s slot o gs) h'.
Proof.
  intros (Hb & Hreap & Hf & Hpt) Ho Hlen Hh Hsame Hl Hc.
  assert (Hok : obj_ok o) by by eapply Forall_lookup_1; [apply b_obj|].
  assert (Hs : same_shape o (set_grants gs o)).
  { split; [done|]. split; [done|]. destruct Hok. by split. }
  split; [by eapply books_object|]. split; [|split].
  - apply (reaped_insert s); [done|]. simpl. by apply (Hreap slot).
  - eapply frames_ok_shape; try done. eapply same_shape_insert; [by apply b_obj|done|done].
  - by eapply pt_ok_same.
Qed.

Lemma grant_store s (h : H) slot o k g g' :
  objects s !! slot = Some o -> o_grants o !! k = Some g ->
  (gs ← store (o_grants o) k g'; os ← store (objects s) slot (set_grants gs o);
   Done (Ok (E := Z) tt, set_objects os s, h)) =
  Done (Ok tt, regranted s slot o (<[k := g']> (o_grants o)), h).
Proof.
  intros Ho Hg. rewrite store_Done by by eapply lookup_lt_Some. simpl.
  by rewrite store_Done by by eapply lookup_lt_Some.
Qed.

Definition rights_ok (rights : Z) : Prop := rights = 0 \/ want_ok rights.

(** The grant list after [grant]: [target] holds exactly [rights]. *)
Lemma grant_spec s h caller hd target rights :
  shm_inv s h ->
  exists res s' h', grant s h caller hd target rights = Done (res, s', h') /\ shm_inv s' h' /\
    live h' = live h /\ same_pt h h' /\
    match res with
    | Err e => 0 < e /\ s' = s
    | Ok _ => exists slot o gs,
        Shm_lookup s hd = Done (Ok slot) /\ objects s !! slot = Some o /\
        o_owner o = caller /\ target <> caller /\ rights_ok rights /\
        s' = regranted s slot o gs /\
        (if rights =? 0 then gs = revoke_grant target <$> o_grants o
         else exists k g, o_grants o !! k = Some g /\ gs = <[k := mkGrant target rights]> (o_grants o) /\
              (position (held_by target) (o_grants o) = Some k \/
               position (held_by target) (o_grants o) = None /\
               position (fun g => g_rights g =? 0) (o_grants o) = Some k))
    end.
Proof.
  intros Hinv. pose proof Hinv as (Hb & Hreap & Hf & Hpt). pose proof (fr_hal s h Hf) as Hh.
  unfold grant. destruct (lookup_total s hd Hb) as [->|(slot & o & Hlk & Ho & Hu & Hd & _)]; simpl.
  { exists (Err EBADF), s, h. done. }
  rewrite Hlk. simpl. rewrite (index_at Ho). simpl.
  assert (Hok : obj_ok o) by by eapply Forall_lookup_1; [apply b_obj|].
  pose proof (ok_grants o Hok) as Hlen.
  destruct (Z.eqb_spec (o_owner o) caller) as [Hown|]; simpl.
  2: { exists (Err EPERM), s, h. done. }
  destruct ((target =? caller) || negb ((rights =? 0) || (rights =? RIGHT_READ)
     || (rights =? Z.lor RIGHT_READ RIGHT_WRITE))) eqn:Hargs.
  { exists (Err EINVAL), s, h. done. }
  assert (Hgood : target <> caller /\ rights_ok rights) by (unfold rights_ok, want_ok; lia).
  destruct Hgood as [Hne Hrok]. destruct (rights =? 0) eqn:Hz.
  { rewrite store_Done by by eapply lookup_lt_Some. simpl.
    fold (regranted s slot o (revoke_grant target <$> o_grants o)).
    eexists (Ok tt), _, h. split; [done|]. split.
    - eapply regranted_inv; try done. by rewrite length_fmap.
    - do 2 (split; [done|]). exists slot, o, (revoke_grant target <$> o_grants o). done. }
  destruct (pid_is_live_law target h Hh) as (b & h' & -> & Hh' & Hsame & Hl & Hc). simpl.
  assert (Hinv' : shm_inv s h').
  { split; [done|]. split; [done|]. split; [|by eapply pt_ok_same].
    destruct Hf as [? ? Hl' ?]. split; [done|done|congruence|by rewrite Hl, Hc]. }
  destruct b; simpl; [|by exists (Err ESRCH), s, h'].
  assert (Hfinish : forall k g, o_grants o !! k = Some g ->
    shm_inv (regranted s slot o (<[k := mkGrant target rights]> (o_grants o))) h').
  { intros k g Hg. eapply regranted_inv; try done. by rewrite length_insert. }
  destruct (position (held_by target) (o_grants o)) as [k|] eqn:Hk.
  - pose proof (proj1 (position_Some _ _ _) Hk) as (g & Hg & _). rewrite (grant_store _ _ _ _ _ _ _ Ho Hg).
    eexists (Ok tt), _, h'. split; [done|]. split; [by eapply Hfinish|]. do 2 (split; [done|]).
    exists slot, o. eexists. do 6 (split; [done|]). exists k, g. do 2 (split; [done|]). auto.
  - destruct (position (fun g => g_rights g =? 0) (o_grants o)) as [k|] eqn:Hk'.
    2: { exists (Err ENOSPC), s, h'. done. }
    pose proof (proj1 (position_Some _ _ _) Hk') as (g & Hg & _). rewrite (grant_store _ _ _ _ _ _ _ Ho Hg).
    eexists (Ok tt), _, h'. split; [done|]. split; [by eapply Hfinish|]. do 2 (split; [done|]).
    exists slot, o. eexists. do 6 (split; [done|]). exists k, g. do 2 (split; [done|]). auto.
Qed.

(** ** Process exit *)

Definition clear_pid (pid : Z) (r : MapRec) : MapRec := if of_pid pid r then EMPTY_MAP else r.

(** Only the reference count differs. *)
Definition recounted (o o' : Object) : Prop := exists n, o' = set_map_count n o.

Lemma recounted_refl os : Forall2 recounted os os.
Proof. apply Forall_Forall2_diag, Forall_forall. intros o _. exists (o_map_count o). by destruct o. Qed.

Lemma recounted_trans os1 os2 os3 :
  Forall2 recounted os1 os2 -> Forall2 recounted os2 os3 -> Forall2 recounted os1 os3.
Proof.
  intros H1. revert os3. induction H1 as [|o1 o2 os1 os2 [n ->] _ IH]; intros os3 H2;
    inversion H2 as [|? o3 ? os3' [m ->]]; constructor; [by exists m|by apply IH].
Qed.

Lemma recounted_insert os i o n :
  os !! i = Some o -> Forall2 recounted os (<[i := set_map_count n o]> os).
Proof.
  intros Ho. eapply Forall2_insert_diag; [|done|by exists n].
  apply Forall_forall. intros p _. exists (o_map_count p). by destruct p.
Qed.

Lemma exit_maps_spec n i s pid :
  books s -> (i + n = length (maps s))%nat ->
  exists os, exit_maps n i pid (maps s) (objects s) =
      Done (take i (maps s) ++ (clear_pid pid <$> drop i (maps s)), os) /\
    books (mkShm os (frames s) (take i (maps s) ++ (clear_pid pid <$> drop i (maps s)))
             (total_pages s)) /\
    Forall2 recounted (objects s) os.
Proof.
  revert i s. induction n as [|n IH]; intros i s Hb Hlen; simpl.
  { exists (objects s). rewrite drop_ge, take_ge by lia. csimpl. rewrite app_nil_r.
    split; [done|]. split; [by destruct s|apply recounted_refl]. }
  destruct (lookup_lt_is_Some_2 (maps s) i) as [r Hr]; [lia|].
  rewrite (index_at Hr). simpl. fold (of_pid pid r).
  rewrite (drop_S (maps s) r i Hr). csimpl. unfold clear_pid at 1 3.
  destruct (of_pid pid r) eqn:Hp.
  - rewrite store_Done by lia. simpl.
    assert (Hu : m_in_use r = true) by (unfold of_pid in Hp; by destruct (m_in_use r)).
    destruct (b_rec s Hb i r Hr Hu) as [(o & Ho & _) _ _ _ _ _].
    rewrite (index_at Ho). simpl.
    rewrite store_Done by by eapply lookup_lt_Some. simpl.
    destruct (mapped_count s o i r Hb Hr Hu Ho) as [_ ->].
    destruct (IH (S i) (dropped s o i r)) as (os & E & Hb' & Hrc).
    + by apply books_drop_map.
    + simpl. rewrite length_insert. lia.
    + simpl in *. rewrite (take_S_r _ _ EMPTY_MAP) in E, Hb' by (apply list_lookup_insert_eq; lia).
      rewrite take_insert_ge, drop_insert_lt, <- app_assoc in E, Hb' by lia.
      exists os. split; [done|]. split; [done|].
      eapply recounted_trans; [by eapply recounted_insert|done].
  - destruct (IH (S i) s Hb) as (os & E & Hb' & Hrc); [lia|].
    rewrite (take_S_r _ _ r Hr), <- app_assoc in E, Hb'. by exists os.
Qed.

Lemma backed_clear s pid os t p v e :
  backed (mkShm os (frames s) (clear_pid pid <$> maps s) t) p v e <->
  p <> pid /\ backed s p v e.
Proof.
  unfold backed. simpl. split.
  - intros (j & r & Hj & Hu & Hm). apply list_lookup_fmap_Some in Hj as (q & -> & Hq).
    unfold clear_pid, of_pid in *. destruct (m_in_use q) eqn:Huq; simpl in *; [|congruence].
    destruct (Z.eqb_spec (m_pid q) pid); [done|]. destruct Hm as [<- Hm].
    split; [done|]. exists j, q. done.
  - intros [Hne (j & r & Hj & Hu & Hm)]. exists j, r. rewrite list_lookup_fmap, Hj. simpl.
    split; [|done]. unfold clear_pid, of_pid. destruct Hm as [Hp _]. rewrite Hu, Hp. simpl.
    by destruct (Z.eqb_spec p pid).
Qed.

Definition reap (o : Object) : Object :=
  if o_in_use o && o_dying o && (o_map_count o =? 0)
  then set_gen (next_gen (o_gen o)) EMPTY_OBJ else o.

Lemma exit_free_spec n slot s h :
  books s -> frames_ok s h -> (slot + n = length (objects s))%nat ->
  exists s' h', exit_free n slot s h = Done (s', h') /\ books s' /\ frames_ok s' h' /\
    same_pt h h' /\ maps s' = maps s /\
    (forall p v e, backed s' p v e <-> backed s p v e) /\
    objects s' = take slot (objects s) ++ (reap <$> drop slot (objects s)).
Proof.
  revert slot s h. induction n as [|n IH]; intros slot s h Hb Hf Hlen; simpl.
  { exists s, h. rewrite drop_ge, take_ge by lia. csimpl. by rewrite app_nil_r. }
  destruct (lookup_lt_is_Some_2 (objects s) slot) as [o Ho]; [lia|].
  rewrite (index_at Ho). simpl.
  rewrite (drop_S (objects s) o slot Ho). csimpl. unfold reap at 1.
  destruct (o_in_use o && o_dying o && (o_map_count o =? 0)) eqn:Hc.
  - destruct (free_object_spec s h slot o) as (row' & h1 & -> & Hb1 & Hf1 & Hs1 & Hback1);
      [done|done|done|by destruct (o_in_use o)|lia|].
    simpl. destruct (IH (S slot) (freed s slot o row') h1) as (s' & h' & E & Hb' & Hf' & Hs' & Hm & Hbk & Hos).
    + done.
    + done.
    + simpl. rewrite length_insert. lia.
    + exists s', h'. split; [done|]. split; [done|]. split; [done|].
      split; [by eapply same_pt_trans|]. split; [done|]. split; [by intros; rewrite Hbk|].
      rewrite Hos. simpl. rewrite (take_S_r _ _ (set_gen (next_gen (o_gen o)) EMPTY_OBJ))
        by (apply list_lookup_insert_eq; lia).
      by rewrite take_insert_ge, drop_insert_lt, <- app_assoc by lia.
  - destruct (IH (S slot) s h Hb Hf) as (s' & h' & E & Hb' & Hf' & Hs' & Hm & Hbk & Hos); [lia|].
    exists s', h'. rewrite (take_S_r _ _ o Ho), <- app_assoc in Hos. done.
Qed.

(** What a process's exit makes of an object. *)
Definition exited (pid : Z) (o o' : Object) : Prop :=
  exists n, o' = reap (exit_grants pid (set_map_count n (exit_mark pid o))).

Lemma exit_mark_shape pid o :
  obj_ok o -> same_shape o (exit_mark pid o) /\ o_map_count (exit_mark pid o) = o_map_count o.
Proof.
  intros Hok. unfold exit_mark. destruct (o_in_use o) eqn:Hu; simpl; [|done].
  destruct (o_owner o =? pid); [|done]. split; [|done]. split; [done|]. split; [done|].
  by apply obj_ok_set_dying.
Qed.

Lemma exit_grants_shape pid o :
  obj_ok o -> same_shape o (exit_grants pid o) /\ o_map_count (exit_grants pid o) = o_map_count o.
Proof.
  intros Hok. unfold exit_grants. destruct (o_in_use o) eqn:Hu; [|done].
  split; [|done]. split; [done|]. split; [done|].
  destruct Hok as [Hg ? ? ?]. split; simpl; [by rewrite length_fmap|done|done|done].
Qed.

Lemma books_map_objects s f :
  books s ->
  (forall o, obj_ok o -> same_shape o (f o) /\ o_map_count (f o) = o_map_count o) ->
  books (set_objects (f <$> objects s) s).
Proof.
  intros Hb Hf. apply books_objects; [done|].
  apply Forall2_fmap_r, Forall_Forall2_diag. eapply Forall_impl; [by apply b_obj|]. apply Hf.
Qed.

Lemma Forall2_shape_map os f :
  Forall obj_ok os -> (forall o, obj_ok o -> same_shape o (f o) /\ o_map_count (f o) = o_map_count o) ->
  Forall2 same_shape os (f <$> os).
Proof.
  intros Hok Hf. apply Forall2_fmap_r, Forall_Forall2_diag. eapply Forall_impl; [done|].
  intros o Ho. by apply Hf.
Qed.

Lemma Forall2_shape_recounted os os' :
  Forall2 recounted os os' -> Forall obj_ok os' -> Forall2 same_shape os os'.
Proof.
  induction 1 as [|o o' os os' [n ->] _ IH]; intros Hok; constructor; inversion Hok; [|by apply IH].
  done.
Qed.

Lemma Forall2_shape_trans os1 os2 os3 :
  Forall2 same_shape os1 os2 -> Forall2 same_shape os2 os3 -> Forall2 same_shape os1 os3.
Proof.
  intros H1. revert os3. induction H1 as [|o1 o2 os1 os2 (Hu & Hp & _) _ IH]; intros os3 H2;
    inversion H2 as [|? o3 ? os3' (Hu' & Hp' & ?)]; constructor; [|by apply IH].
  split; [congruence|]. split; [congruence|done].
Qed.

(** [process_exit] drops the process's mappings and grants, dooms what it owned and
    frees what that leaves unmapped. *)
Lemma process_exit_spec s h pid :
  shm_inv s h ->
  exists s' h', process_exit s h pid = Done (s', h') /\
    books s' /\ reaped s' /\ frames_ok s' h' /\ same_pt h h' /\
    (forall p v e, backed s' p v e <-> p <> pid /\ backed s p v e) /\
    maps s' = clear_pid pid <$> maps s /\
    Forall2 (exited pid) (objects s) (objects s').
Proof.
  intros (Hb & Hreap & Hf & Hpt). unfold process_exit.
  set (s1 := set_objects (exit_mark pid <$> objects s) s).
  assert (Hb1 : books s1) by (apply books_map_objects; [done|apply exit_mark_shape]).
  destruct (exit_maps_spec MAX_MAP_RECORDS 0 s1 pid Hb1) as (os2 & E & Hb2 & Hrc);
    [simpl; by rewrite b_maps|].
  rewrite drop_0, take_0 in E, Hb2. simpl in E, Hb2. rewrite E. simpl.
  set (s2 := mkShm os2 (frames s) (clear_pid pid <$> maps s) (total_pages s)) in *.
  set (s3 := set_objects (exit_grants pid <$> os2) s2).
  assert (Hb3 : books s3) by (apply (books_map_objects s2); [done|apply exit_grants_shape]).
  assert (Hf3 : frames_ok s3 h).
  { apply (frames_ok_shape s _ _ _ h); try done; [|by apply fr_hal in Hf].
    eapply Forall2_shape_trans; [apply (Forall2_shape_map _ (exit_mark pid)); [by apply b_obj|apply exit_mark_shape]|].
    eapply Forall2_shape_trans; [apply Forall2_shape_recounted; [exact Hrc|apply (b_obj s2 Hb2)]|].
    apply Forall2_shape_map; [apply (b_obj s2 Hb2)|apply exit_grants_shape]. }
  destruct (exit_free_spec MAX_OBJECTS 0 s3 h Hb3 Hf3)
    as (s' & h' & E' & Hb' & Hf' & Hs' & Hm & Hbk & Hos); [by rewrite b_objects|].
  change (mkShm (exit_grants pid <$> os2) (frames s) (clear_pid pid <$> maps s) (total_pages s)) with s3.
  rewrite E'. exists s', h'. split; [done|]. split; [done|]. rewrite drop_0, take_0 in Hos. simpl in Hos.
  split; [|split; [done|split; [done|split; [|split; [done|]]]]].
  - intros i o Ho Hd. rewrite Hos in Ho. apply list_lookup_fmap_Some in Ho as (q & -> & Hq).
    assert (Hokq : obj_ok q) by (eapply Forall_lookup_1; [apply (b_obj s3 Hb3)|exact Hq]).
    pose proof (b_refs s3 Hb3 i q Hq) as Hcount.
    unfold reap in *. destruct (o_in_use q) eqn:Huq.
    2: { destruct (ok_unused q Hokq Huq). simpl in *. congruence. }
    destruct (o_dying q && (o_map_count q =? 0)) eqn:Hc; simpl in *; rewrite Hc in *; [done|].
    rewrite Hd in Hc. lia.
  - intros p v e. rewrite Hbk. apply (backed_clear s).
  - rewrite Hos. apply Forall2_fmap_r, Forall2_fmap_r.
    change (objects s1) with (exit_mark pid <$> objects s) in Hrc.
    rewrite Forall2_fmap_l in Hrc. eapply Forall2_impl; [exact Hrc|].
    intros o o' [n ->]. by exists n.
Qed.
End Life.
