(* ===== verification/ShmFork.v ===== *)
(** * Shared memory: fork

    [fork] gives the child a record for each mapping of the parent, or leaves the
    books alone. *)

From S2P Require Import Prelude Shm ShmHal ShmInv ShmOps ShmGap ShmMap ShmLife.
Local Open Scope Z_scope.

#[local] Opaque MAX_MAP_RECORDS MAX_OBJECTS MAX_PAGES_PER_OBJECT.

Lemma of_pid_true pid r : of_pid pid r = true <-> m_in_use r = true /\ m_pid r = pid.
Proof. unfold of_pid. destruct (m_in_use r); lia. Qed.

Lemma fork_scan_spec ms parent child need free :
  parent <> child -> 0 <= need -> 0 <= free ->
  need + free + Z.of_nat (length ms) < 0x100000000 ->
  match fork_scan ms parent child need free with
  | Err e => e = EINVAL /\ exists j r, ms !! j = Some r /\ of_pid child r = true
  | Ok (n, f) =>
      n = need + Z.of_nat (countb (of_pid parent) ms) /\
      f = free + Z.of_nat (countb unused_rec ms) /\
      forall j r, ms !! j = Some r -> of_pid child r = false
  end.
Proof.
  intros Hne. revert need free. induction ms as [|r ms IH]; intros need free Hn Hf Hlen; simpl in *.
  { split; [lia|]. split; [lia|done]. }
  assert (Hskip : forall n1 f1, of_pid child r = false ->
    n1 = need + Z.b2z (of_pid parent r) -> f1 = free + Z.b2z (unused_rec r) ->
    n1 + f1 <= need + free + 1 ->
    match fork_scan ms parent child n1 f1 with
    | Err e => e = EINVAL /\ exists j r', (r :: ms) !! j = Some r' /\ of_pid child r' = true
    | Ok (n, f) =>
        n = need + Z.of_nat ((if of_pid parent r then 1 else 0) + countb (of_pid parent) ms) /\
        f = free + Z.of_nat ((if unused_rec r then 1 else 0) + countb unused_rec ms) /\
        forall j r', (r :: ms) !! j = Some r' -> of_pid child r' = false
    end).
  { intros n1 f1 Hc En Ef Hb. specialize (IH n1 f1).
    destruct (fork_scan ms parent child n1 f1) as [[n f]|e].
    - destruct IH as (-> & -> & Hno); [lia|lia|lia|].
      split; [destruct (of_pid parent r); lia|]. split; [destruct (unused_rec r); lia|].
      intros [|j] q Hq; simplify_eq/=; [done|by apply (Hno j)].
    - destruct IH as (-> & j & q & Hq); [lia|lia|lia|]. split; [done|]. by exists (S j), q. }
  unfold of_pid, unused_rec in *. destruct (m_in_use r) eqn:Hu; simpl in *.
  - destruct (Z.eqb_spec (m_pid r) parent) as [->|].
    + rewrite wrap32_id by auto with machine. apply Hskip; simpl; lia.
    + destruct (Z.eqb_spec (m_pid r) child) as [Hc|]; [|apply Hskip; simpl; lia].
      split; [done|]. exists 0%nat, r. simpl. rewrite Hu. split; [done|lia].
  - rewrite wrap32_id by auto with machine. apply Hskip; simpl; lia.
Qed.

(** The state of [fork_loop] after the records below [pi]. *)
Record forking (s0 s : Shm) (parent child : Z) (pi : nat) : Prop := {
  fk_books : books s;
  fk_frames : frames s = frames s0;
  fk_total : total_pages s = total_pages s0;
  fk_objects : Forall2 recounted (objects s0) (objects s);
  fk_keep : forall j r, maps s0 !! j = Some r -> m_in_use r = true -> maps s !! j = Some r;
  fk_new : forall j r, maps s !! j = Some r -> m_in_use r = true ->
    maps s0 !! j = Some r \/
    exists l q, (l < pi)%nat /\ maps s0 !! l = Some q /\ of_pid parent q = true /\
                r = set_pid child q;
  fk_all : forall l q, (l < pi)%nat -> maps s0 !! l = Some q -> of_pid parent q = true ->
    exists j, maps s !! j = Some (set_pid child q);
  fk_child : countb (of_pid child) (maps s) = countb (of_pid parent) (take pi (maps s0));
  fk_free : (countb unused_rec (maps s) + countb (of_pid parent) (take pi (maps s0)) =
             countb unused_rec (maps s0))%nat;
}.

Lemma position_unused ms :
  (0 < countb unused_rec ms)%nat ->
  exists ci q, position (fun q => negb (m_in_use q)) ms = Some ci /\ ms !! ci = Some q /\
               m_in_use q = false.
Proof.
  intros Hc. destruct (position (fun q => negb (m_in_use q)) ms) as [ci|] eqn:E.
  - apply position_Some in E as (q & Hq & Hu & _). exists ci, q.
    split; [done|]. split; [done|]. by destruct (m_in_use q).
  - exfalso. rewrite position_None in E. induction ms as [|r ms IH]; simpl in *; [lia|].
    pose proof (E 0%nat r eq_refl) as Hr. unfold unused_rec at 1 in Hc. rewrite Hr in Hc.
    apply IH; [lia|]. intros j. apply (E (S j)).
Qed.

Section Step.
Context (s0 : Shm) (parent child : Z).
Hypothesis (Hb0 : books s0) (Hne : parent <> child).
Hypothesis (Hfresh : forall j r, maps s0 !! j = Some r -> of_pid child r = false).
Hypothesis (Hroom : (countb (of_pid parent) (maps s0) <= countb unused_rec (maps s0))%nat).

(** Whether record [pi] is the parent's does not depend on what was copied. *)
Lemma forking_parent s pi r :
  forking s0 s parent child pi -> maps s !! pi = Some r ->
  exists r0, maps s0 !! pi = Some r0 /\ of_pid parent r0 = of_pid parent r /\
             (of_pid parent r = true -> r0 = r).
Proof.
  intros Hk Hr. destruct (lookup_lt_is_Some_2 (maps s0) pi) as [r0 Hr0].
  { rewrite (b_maps s0 Hb0), <- (b_maps s (fk_books _ _ _ _ _ Hk)). by eapply lookup_lt_Some. }
  exists r0. split; [done|]. destruct (m_in_use r0) eqn:Hu0.
  - pose proof (fk_keep _ _ _ _ _ Hk pi r0 Hr0 Hu0). by simplify_eq.
  - assert (Hp : of_pid parent r = false); [|split; [|congruence]].
    + unfold of_pid. destruct (m_in_use r) eqn:Hu; [|done].
      destruct (fk_new _ _ _ _ _ Hk pi r Hr Hu) as [|(l & q & _ & _ & _ & ->)]; [congruence|].
      simpl. lia.
    + unfold of_pid at 1. by rewrite Hu0, Hp.
Qed.

Definition copied (s : Shm) (o : Object) (ci : nat) (r : MapRec) : Shm :=
  mkShm (<[Z.to_nat (m_obj r) := set_map_count (o_map_count o + 1) o]> (objects s)) (frames s)
        (<[ci := set_pid child r]> (maps s)) (total_pages s).

(** Copying one record of the parent. *)
Lemma forking_copy s pi r o ci q :
  forking s0 s parent child pi -> maps s !! pi = Some r -> of_pid parent r = true ->
  objects s !! Z.to_nat (m_obj r) = Some o -> maps s !! ci = Some q -> m_in_use q = false ->
  forking s0 (copied s o ci r) parent child (S pi).
Proof.
  intros Hk Hr Hp Ho Hci Hq. destruct (forking_parent s pi r Hk Hr) as (r0 & Hr0 & _ & Heq).
  specialize (Heq Hp). subst r0. apply of_pid_true in Hp as Hp'. destruct Hp' as [Hu Hpid].
  pose proof (fk_books _ _ _ _ _ Hk) as Hb.
  destruct (countb_take_S (of_pid parent) _ _ _ Hr0) as [Hct Hcle]. rewrite Hp in Hct.
  pose proof (countb_insert (of_pid child) (maps s) ci q (set_pid child r) Hci) as Hcc.
  pose proof (countb_insert unused_rec (maps s) ci q (set_pid child r) Hci) as Hcu.
  assert (Hnew : of_pid child (set_pid child r) = true) by (apply of_pid_true; done).
  assert (Hold : of_pid child q = false) by (unfold of_pid; by rewrite Hq).
  rewrite Hnew, Hold in Hcc. unfold unused_rec at 2 4 in Hcu. rewrite Hq in Hcu. simpl in Hcu.
  rewrite Hu in Hcu. simpl in Hcu.
  pose proof (fk_child _ _ _ _ _ Hk) as Hc0. pose proof (fk_free _ _ _ _ _ Hk) as Hf0.
  pose proof (b_quota s0 Hb0 parent) as Hquota.
  destruct (b_rec s Hb pi r Hr Hu) as [(o' & Ho' & Huo & Hpg) Hs Ha Hbase Hend Hrt]. simplify_eq.
  split; simpl.
  - apply (books_add_map s _ o ci q); try done.
    + split; try done. exists o. done.
    + intros k p Hkp Hup Hpp. simpl in Hpp.
      destruct (fk_new _ _ _ _ _ Hk k p Hkp Hup) as [Hin|(l & p' & Hl & Hp0 & Hpar & ->)].
      { pose proof (Hfresh k p Hin) as Hno. unfold of_pid in Hno. rewrite Hup in Hno. lia. }
      apply of_pid_true in Hpar as [Hup' Hpp'].
      apply (b_apart s0 Hb0 pi l r p'); (done || lia || congruence).
    + simpl. lia.
  - by apply fk_frames in Hk.
  - by apply fk_total in Hk.
  - eapply recounted_trans; [by apply fk_objects in Hk|by apply recounted_insert].
  - intros j p Hj Hup. rewrite list_lookup_insert_ne; [by eapply fk_keep|].
    intros ->. pose proof (fk_keep _ _ _ _ _ Hk j p Hj Hup). congruence.
  - intros j p Hj Hup. apply list_lookup_insert_Some in Hj as [(<- & <- & _)|[_ Hj]].
    + right. exists pi, r. split; [lia|]. done.
    + destruct (fk_new _ _ _ _ _ Hk j p Hj Hup) as [|(l & p' & Hl & ?)]; [by left|right].
      exists l, p'. split; [lia|done].
  - intros l p Hl Hp0 Hpar. destruct (decide (l = pi)) as [->|].
    + simplify_eq. exists ci. apply list_lookup_insert_eq. by eapply lookup_lt_Some.
    + destruct (fk_all _ _ _ _ _ Hk l p) as [j Hj]; [lia|done|done|].
      exists j. rewrite list_lookup_insert_ne; [done|]. intros ->. simplify_eq. simpl in Hq.
      apply of_pid_true in Hpar as [Hpar _]. congruence.
  - lia.
  - lia.
Qed.

Lemma forking_skip s pi r :
  forking s0 s parent child pi -> maps s !! pi = Some r -> of_pid parent r = false ->
  forking s0 s parent child (S pi).
Proof.
  intros Hk Hr Hp. destruct (forking_parent s pi r Hk Hr) as (r0 & Hr0 & Hp0 & _).
  rewrite Hp in Hp0. destruct (countb_take_S (of_pid parent) _ _ _ Hr0) as [Hct _].
  rewrite Hp0 in Hct. destruct Hk as [? ? ? ? ? Hnew Hall Hc Hf].
  split; try done.
  - intros j p Hj Hu. destruct (Hnew j p Hj Hu) as [|(l & q & ? & ?)]; [by left|right].
    exists l, q. split; [lia|done].
  - intros l q Hl Hq Hpar. apply (Hall l q); [|done|done].
    assert (l <> pi) by (intros ->; congruence). lia.
  - lia.
  - lia.
Qed.

Lemma fork_loop_spec n s pi :
  (pi + n = length (maps s))%nat -> forking s0 s parent child pi ->
  exists ms os, fork_loop n pi parent child (maps s) (objects s) = Done (ms, os) /\
    forking s0 (mkShm os (frames s) ms (total_pages s)) parent child (pi + n).
Proof.
  revert s pi. induction n as [|n IH]; intros s pi Hlen Hk; simpl.
  { exists (maps s), (objects s). rewrite Nat.add_0_r. split; [done|]. by destruct s. }
  destruct (lookup_lt_is_Some_2 (maps s) pi) as [r Hr]; [lia|].
  rewrite (index_at Hr). simpl. fold (of_pid parent r).
  rewrite <- Nat.add_succ_comm. destruct (of_pid parent r) eqn:Hp.
  2: { apply IH; [lia|]. by eapply forking_skip. }
  apply of_pid_true in Hp as Hp'. destruct Hp' as [Hu Hpid].
  pose proof (fk_books _ _ _ _ _ Hk) as Hb.
  destruct (forking_parent s pi r Hk Hr) as (r0 & Hr0 & _ & Heq). rewrite (Heq Hp) in Hr0.
  destruct (countb_take_S (of_pid parent) _ _ _ Hr0) as [Hct Hcle]. rewrite Hp in Hct.
  pose proof (fk_free _ _ _ _ _ Hk) as Hf0.
  destruct (position_unused (maps s)) as (ci & q & -> & Hci & Hq); [lia|].
  rewrite store_Done by by eapply lookup_lt_Some. simpl.
  destruct (b_rec s Hb pi r Hr Hu) as [(o & Ho & _) _ _ _ _ _].
  rewrite (index_at Ho). simpl.
  rewrite store_Done by by eapply lookup_lt_Some. simpl.
  rewrite (count_increment s o _ Hb Ho).
  apply (IH (copied s o ci r)); [simpl; rewrite length_insert; lia|].
  by eapply forking_copy.
Qed.

Lemma forking_start : forking s0 s0 parent child 0.
Proof.
  split; try done.
  - apply recounted_refl.
  - intros j r Hj _. by left.
  - intros l q Hl. lia.
  - rewrite take_0. by apply countb_none.
Qed.

(** After the loop the child's mappings are the parent's. *)
Lemma forking_backed s p v e :
  forking s0 s parent child (length (maps s0)) ->
  backed s p v e <-> if p =? child then backed s0 parent v e else backed s0 p v e.
Proof.
  clear Hroom. intros Hk. unfold backed. rewrite (fk_frames _ _ _ _ _ Hk). destruct (Z.eqb_spec p child) as [->|Hpc].
  - split.
    + intros (j & r & Hj & Hu & [Hp Hm]).
      destruct (fk_new _ _ _ _ _ Hk j r Hj Hu) as [Hj0|(l & q & _ & Hl & Hq & ->)].
      * pose proof (Hfresh j r Hj0) as Hno. unfold of_pid in Hno. rewrite Hu in Hno. lia.
      * apply of_pid_true in Hq as [Huq Hpq]. exists l, q. done.
    + intros (l & q & Hl & Hu & [Hp Hm]).
      destruct (fk_all _ _ _ _ _ Hk l q) as [j Hj]; [by eapply lookup_lt_Some|done|by apply of_pid_true|].
      exists j, (set_pid child q). done.
  - split.
    + intros (j & r & Hj & Hu & [Hp Hm]).
      destruct (fk_new _ _ _ _ _ Hk j r Hj Hu) as [Hj0|(l & q & _ & _ & _ & ->)]; [by exists j, r|].
      simpl in Hp. congruence.
    + intros (j & r & Hj & Hu & Hm). exists j, r. split; [by eapply fk_keep|]. done.
Qed.
End Step.

(** [fork] on the books. *)
Lemma fork_spec s parent child :
  books s -> parent <> child ->
  exists res s', fork s parent child = Done (res, s') /\
    match res with
    | Err e =>
        s' = s /\
        (e = EINVAL /\ (exists j r, maps s !! j = Some r /\ of_pid child r = true) \/
         e = ENOMEM /\ (countb unused_rec (maps s) < countb (of_pid parent) (maps s))%nat)
    | Ok _ =>
        (forall j r, maps s !! j = Some r -> of_pid child r = false) /\
        forking s s' parent child (length (maps s))
    end.
Proof.
  intros Hb Hne. unfold fork.
  pose proof (fork_scan_spec (maps s) parent child 0 0 Hne ltac:(lia) ltac:(lia)) as Hscan.
  rewrite (b_maps s Hb) in Hscan. specialize (Hscan ltac:(done)).
  destruct (fork_scan (maps s) parent child 0 0) as [[need free]|e].
  2: { destruct Hscan as [-> Hc]. exists (Err EINVAL), s. auto. }
  destruct Hscan as (-> & -> & Hfresh). rewrite !Z.add_0_l.
  destruct (Z.ltb_spec (Z.of_nat (countb unused_rec (maps s)))
                       (Z.of_nat (countb (of_pid parent) (maps s)))) as [Hlt|Hge].
  { exists (Err ENOMEM), s. split; [done|]. split; [done|]. right. split; [done|lia]. }
  destruct (fork_loop_spec s parent child Hb Hne Hfresh ltac:(lia) MAX_MAP_RECORDS s 0)
    as (ms & os & -> & Hk).
  { rewrite (b_maps s Hb). done. }
  { apply forking_start; (done || lia). }
  simpl in Hk |- *. eexists (Ok tt), _. split; [done|]. split; [done|].
  by rewrite (b_maps s Hb).
Qed.

Lemma forking_reaped s s' parent child pi :
  books s -> reaped s -> forking s s' parent child pi -> reaped s'.
Proof.
  intros Hb Hr Hk i o' Ho' Hd.
  destruct (Forall2_lookup_r _ _ _ _ _ (fk_objects _ _ _ _ _ Hk) Ho') as (o & Ho & n & ->).
  specialize (Hr i o Ho Hd). rewrite (b_refs s Hb i o Ho) in Hr.
  rewrite (b_refs s' (fk_books _ _ _ _ _ Hk) i _ Ho').
  destruct (countb (refers i) (maps s)) eqn:E; [lia|].
  destruct (countb_pos_inv (refers i) (maps s)) as (j & r & Hj & Hrf); [lia|].
  assert (Hu : m_in_use r = true) by (unfold refers in Hrf; by destruct (m_in_use r)).
  pose proof (countb_pos (refers i) (maps s') j r (fk_keep _ _ _ _ _ Hk j r Hj Hu) Hrf). lia.
Qed.

(** * Shared memory: the self-check

    [check_counts] accepts every state the invariant describes, without a panic. *)

Lemma check_objects_ok i os ms total :
  Forall obj_ok os -> 0 <= total -> total + sum_pages os <= MAX_TOTAL_PAGES ->
  (forall k o, os !! k = Some o -> o_map_count o = Z.of_nat (countb (refers (i + k)) ms)) ->
  (forall k o, os !! k = Some o -> o_dying o = true -> 0 < o_map_count o) ->
  check_objects i os ms total = Ok (total + sum_pages os).
Proof.
  revert i total. induction os as [|o os IH]; intros i total Hok Ht Hcap Hrefs Hreap; simpl in *.
  { by rewrite Z.add_0_r. }
  inversion Hok as [|? ? Ho Hos]. subst. pose proof (sum_pages_nonneg os Hos) as Hs.
  assert (IH' : forall t, 0 <= t -> t + sum_pages os <= MAX_TOTAL_PAGES ->
    check_objects (S i) os ms t = Ok (t + sum_pages os)).
  { intros t Ht1 Ht2. apply IH; [done|done|done| |].
    - intros k p Hk. rewrite Nat.add_succ_comm. by apply (Hrefs (S k)).
    - intros k p Hk. by apply (Hreap (S k)). }
  specialize (Hrefs 0%nat o eq_refl). rewrite Nat.add_0_r in Hrefs.
  specialize (Hreap 0%nat o eq_refl). unfold weight in *.
  destruct (o_in_use o) eqn:Hu; simpl.
  - destruct (ok_used o Ho Hu) as [_ Hp].
    replace ((o_pages o =? 0) || (MAX_PAGES_PER_OBJECT <? o_pages o)) with false by lia.
    replace (o_dying o && (o_map_count o =? 0)) with false
      by (destruct (o_dying o); [specialize (Hreap eq_refl); lia|done]).
    rewrite <- Hrefs, Z.eqb_refl. simpl.
    rewrite wrap32_id by (unfold is_u32, MAX_TOTAL_PAGES in *; lia).
    rewrite IH' by lia. f_equal. lia.
  - destruct (ok_unused o Ho Hu) as [-> _]. simpl. rewrite IH' by lia. f_equal.
Qed.

Lemma spans_apart_overlap r q : spans_apart r q -> spans_overlap r q = false.
Proof. unfold spans_apart, spans_overlap, span_end. lia. Qed.

Lemma check_peers_ok j i r ms mine :
  0 <= mine -> mine + Z.of_nat (length ms) < 0x100000000 ->
  (forall k q, ms !! k = Some q -> (j + k)%nat <> i -> m_in_use q = true -> m_pid q = m_pid r ->
     spans_apart r q) ->
  check_peers j i r ms mine = Ok (mine + Z.of_nat (countb (of_pid (m_pid r)) ms)).
Proof.
  revert j mine. induction ms as [|q ms IH]; intros j mine Hm Hlen Hap; simpl in *.
  { by rewrite Z.add_0_r. }
  assert (Hap' : forall k p, ms !! k = Some p -> (S j + k)%nat <> i -> m_in_use p = true ->
    m_pid p = m_pid r -> spans_apart r p).
  { intros k p Hk Hne. apply (Hap (S k)); [done|lia]. }
  unfold of_pid at 1. destruct (m_in_use q && (m_pid q =? m_pid r)) eqn:E.
  - assert (Hq : negb (j =? i)%nat && spans_overlap r q = false).
    { destruct (Nat.eqb_spec j i); [done|]. simpl. apply spans_apart_overlap.
      apply (Hap 0%nat); [done|lia|by destruct (m_in_use q)|lia]. }
    rewrite Hq, IH by (done || (rewrite ?wrap32_id by auto with machine); lia).
    rewrite wrap32_id by auto with machine. f_equal. lia.
  - rewrite IH by (done || lia). f_equal.
Qed.

Lemma check_maps_ok s i rest :
  books s -> (forall k r, rest !! k = Some r -> maps s !! (i + k)%nat = Some r) ->
  check_maps i rest s = Done (Ok tt).
Proof.
  intros Hb. revert i. induction rest as [|r rest IH]; intros i Hin; simpl; [done|].
  assert (IH' : check_maps (S i) rest s = Done (Ok tt)).
  { apply IH. intros k q Hk. rewrite Nat.add_succ_comm. by apply (Hin (S k)). }
  specialize (Hin 0%nat r eq_refl). rewrite Nat.add_0_r in Hin.
  destruct (m_in_use r) eqn:Hu; simpl; [|done].
  pose proof (b_rec s Hb i r Hin Hu) as Hrec.
  destruct (rec_ok_span _ r (b_obj s Hb) Hrec) as [_ Hp].
  destruct Hrec as [(o & Ho & Huo & _) _ Ha Hbase Hend _].
  rewrite (index_at Ho). simpl. rewrite Huo, Ha. simpl.
  replace ((m_addr r <? SHM_VIRT_BASE) || (SHM_VIRT_END <? m_addr r + m_pages r * PAGE_SIZE))
    with false by (unfold span_end, PAGE_SIZE in *; lia).
  rewrite check_peers_ok.
  - pose proof (b_quota s Hb (m_pid r)).
    replace (MAX_MAPS_PER_PROC <? 0 + Z.of_nat (countb (of_pid (m_pid r)) (maps s))) with false by lia.
    done.
  - lia.
  - by rewrite (b_maps s Hb).
  - intros k q Hk Hne Huq Hpq. apply (b_apart s Hb i k); (done || lia).
Qed.

Lemma check_counts_ok s : books s -> reaped s -> check_counts s = Done (Ok tt).
Proof.
  intros Hb Hr. unfold check_counts.
  rewrite check_objects_ok.
  - rewrite Z.add_0_l, <- (b_total s Hb), Z.eqb_refl. simpl. by apply check_maps_ok.
  - by apply b_obj.
  - lia.
  - rewrite Z.add_0_l, <- (b_total s Hb). by apply b_cap.
  - intros k o Hk. simpl. by apply b_refs.
  - intros k o Hk. by apply (Hr k).
Qed.
