(* ===== verification/ShmSys.v ===== *)
(** * Shared memory: the kernel's view

    The entry points of the kernel glue of [shm.rs], the runs they generate
    together with what [process.c] does to page tables at fork and exit, and the
    properties of every reachable state. *)

From S2P Require Import Prelude Shm ShmHal ShmInv ShmOps ShmGap ShmMap ShmLife ShmFork.
Local Open Scope Z_scope.

#[local] Opaque MAX_MAP_RECORDS MAX_OBJECTS MAX_PAGES_PER_OBJECT.

(** ** Entry points *)

(** One call into the module: [SysExit] is process exit with the teardown of the
    address space, [SysFork] a fork, whose page-table copy precedes the books and
    is undone when they refuse. *)
Inductive call : Type :=
| SysCreate (pid size flags : Z)
| SysGrant (pid handle target rights : Z)
| SysMap (pid handle rights : Z)
| SysUnmap (pid addr : Z)
| SysDestroy (pid handle : Z)
| SysInfo (pid handle : Z)
| SysExit (pid : Z)
| SysFork (parent child : Z).

Definition neg {A} (r : result A Z) : Z :=
  match r with
  | Ok _ => 0
  | Err e => - e
  end.

(** The values written through the out pointers. *)
Definition outs (r : result (Z * Z) Z) : list Z :=
  match r with
  | Ok (a, b) => [a; b]
  | Err _ => []
  end.

Definition info_outs (r : result Info Z) : list Z :=
  match r with
  | Ok i => [i_size i; wrap32 (i_owner i); i_mappings i; i_my_rights i]
  | Err _ => []
  end.

Section System.
Context {H : Type} `{HalLaws H}.

(** The return code, the out values and the new state. *)
Definition run_call (c : call) (s : Shm) (h : H) : outcome (Z * list Z * Shm * H) :=
  match c with
  | SysCreate pid size flags =>
      '(r, s, h) ← create s h pid size flags; Done (neg r, outs r, s, h)
  | SysGrant pid handle target rights =>
      '(r, s, h) ← grant s h pid handle target rights; Done (neg r, [], s, h)
  | SysMap pid handle rights =>
      '(r, s, h) ← Shm_map s h pid handle rights; Done (neg r, outs r, s, h)
  | SysUnmap pid addr =>
      '(r, s, h) ← unmap s h pid addr; Done (neg r, [], s, h)
  | SysDestroy pid handle =>
      '(r, s, h) ← destroy s h pid handle; Done (neg r, [], s, h)
  | SysInfo pid handle =>
      r ← info s pid handle; Done (neg r, info_outs r, s, h)
  | SysExit pid =>
      '(s, h) ← process_exit s h pid; Done (0, [], s, teardown_pd pid h)
  | SysFork parent child =>
      let h1 := fork_pd parent child h in
      '(r, s) ← fork s parent child;
      match r with
      | Ok _ => Done (0, [], s, h1)
      | Err e => Done (- e, [], s, teardown_pd child h1)
      end
  end.

(** [rust_shm_selftest]: 0 when the books balance, and the statistics. *)
Definition rust_shm_selftest (s : Shm) : outcome (Z * (Z * Z * Z)) :=
  r ← check_counts s;
  Done (match r with Ok _ => 0 | Err _ => 1 end, stats s).

(** Sizes are 32-bit, and a forked child is new: it holds no mapping. *)
Definition call_ok (s : Shm) (c : call) : Prop :=
  match c with
  | SysCreate _ size _ => is_u32 size
  | SysFork parent child =>
      parent <> child /\ forall j r, maps s !! j = Some r -> of_pid child r = false
  | _ => True
  end.

Inductive step : relation (Shm * H) :=
| step_call c s h ret out s' h' :
    call_ok s c -> run_call c s h = Done (ret, out, s', h') -> step (s, h) (s', h').

(** Boot: an empty table, and a kernel that has handed out nothing. *)
Definition boot (x : Shm * H) : Prop :=
  x.1 = Shm_new /\ hal_ok x.2 /\ live x.2 = ∅ /\ forall p v, pt x.2 p v = None.

Definition reachable (x : Shm * H) : Prop := exists x0, boot x0 /\ rtc step x0 x.

(** ** The invariant holds *)

Lemma countb_replicate {A} (f : A -> bool) n x : f x = false -> countb f (replicate n x) = 0%nat.
Proof. intros Hf. apply countb_none. intros i y [-> _]%lookup_replicate. done. Qed.

Lemma new_books : books Shm_new.
Proof.
  assert (Hsum : forall n, sum_pages (replicate n EMPTY_OBJ) = 0)
    by (induction n as [|n IH]; simpl; [done|]; rewrite IH; done).
  split; unfold Shm_new; simpl.
  - apply length_replicate.
  - apply length_replicate.
  - apply Forall_replicate. apply length_replicate.
  - apply length_replicate.
  - apply Forall_replicate. by split.
  - intros j r [-> _]%lookup_replicate. done.
  - intros i o [-> _]%lookup_replicate. by rewrite countb_replicate.
  - by rewrite Hsum.
  - done.
  - intros j k r q _ [-> _]%lookup_replicate. done.
  - intros pid. by rewrite countb_replicate.
Qed.

Lemma new_owned : owned Shm_new = [].
Proof.
  unfold owned, Shm_new. simpl. generalize (replicate (Z.to_nat MAX_PAGES_PER_OBJECT) 0).
  intros row. generalize MAX_OBJECTS. intros n. induction n as [|n IH]; simpl; [done|]. apply IH.
Qed.

Lemma boot_inv x : boot x -> shm_inv x.1 x.2.
Proof.
  destruct x as [s h]. intros (-> & Hh & Hl & Hpt). split; [apply new_books|]. split; [|split].
  - intros i o [-> _]%lookup_replicate. done.
  - simpl in *. split; [done| | |].
    + rewrite new_owned. constructor.
    + by rewrite new_owned.
    + rewrite Hl. set_solver.
  - intros p v e. simpl in *. rewrite Hpt. split; [done|].
    intros (j & r & [-> _]%lookup_replicate & ? & _). done.
Qed.

Lemma info_total s pid hd : books s -> exists r, info s pid hd = Done r.
Proof.
  intros Hb. unfold info.
  destruct (lookup_total s hd Hb) as [->|(slot & o & -> & Ho & _)]; simpl; [by eexists|].
  rewrite (rights_of_spec s slot o pid Ho). simpl.
  destruct (rights_on o pid =? 0); [by eexists|].
  rewrite (index_at Ho). by eexists.
Qed.

Lemma exit_inv s h pid :
  shm_inv s h ->
  exists s' h', process_exit s h pid = Done (s', h') /\ shm_inv s' (teardown_pd pid h') /\
    maps s' = clear_pid pid <$> maps s /\ Forall2 (exited pid) (objects s) (objects s') /\
    live (teardown_pd pid h') = live h'.
Proof.
  intros Hinv. pose proof Hinv as (_ & _ & _ & Hpt).
  destruct (process_exit_spec s h pid Hinv) as (s' & h' & E & Hb & Hr & Hf & Hsame & Hbk & Hm & Ho).
  destruct (teardown_pd_law pid h') as (Hh & Hl & Hc & Hpt'); [by apply fr_hal in Hf|].
  exists s', h'. split; [done|]. split; [|done]. split; [done|]. split; [done|]. split.
  - destruct Hf as [? ? Hl' ?]. split; [done|done|congruence|by rewrite Hl, Hc].
  - intros p v e. rewrite Hpt', Hbk, Hsame, <- (Hpt p v e).
    destruct (Z.eqb_spec p pid) as [->|]; [|tauto]. split; [done|]. by intros [? _].
Qed.

Lemma fork_inv s h parent child :
  shm_inv s h -> call_ok s (SysFork parent child) ->
  exists ret out s' h', run_call (SysFork parent child) s h = Done (ret, out, s', h') /\
    shm_inv s' h'.
Proof.
  intros (Hb & Hr & Hf & Hpt) [Hne Hfresh]. simpl.
  pose proof (fr_hal s h Hf) as Hh. pose proof (fr_live s h Hf) as Hlive.
  pose proof (fr_clean s h Hf) as Hclean. pose proof (fr_nodup s h Hf) as Hnd.
  destruct (fork_pd_law parent child h Hh) as (Hh1 & Hl1 & Hc1 & Hpt1).
  destruct (fork_spec s parent child Hb Hne) as (res & s' & -> & Hres). simpl.
  destruct res as [u|e].
  - destruct Hres as [_ Hk]. do 4 eexists. split; [done|].
    split; [by apply fk_books in Hk|]. split; [by eapply forking_reaped|]. split.
    + pose proof (fk_frames _ _ _ _ _ Hk) as Hfr. pose proof (fk_books _ _ _ _ _ Hk) as Hb'.
      destruct s' as [os' fs' ms' t']. simpl in *. subst fs'.
      eapply frames_ok_shape; try done. apply Forall2_shape_recounted; [apply (fk_objects _ _ _ _ _ Hk)|].
      apply (b_obj _ Hb').
    + intros p v e. rewrite Hpt1, (forking_backed s parent child Hfresh) by done.
      destruct (p =? child); apply Hpt.
  - destruct Hres as [-> _]. destruct (teardown_pd_law child _ Hh1) as (Hh2 & Hl2 & Hc2 & Hpt2).
    do 4 eexists. split; [done|]. split; [done|]. split; [done|]. split.
    + split; [done|done|congruence|]. by rewrite Hl2, Hc2, Hl1, Hc1.
    + intros p v en. rewrite Hpt2, Hpt1. destruct (Z.eqb_spec p child) as [->|]; [|apply Hpt].
      split; [done|]. intros (j & r & Hj & Hu & Hp & _).
      pose proof (Hfresh j r Hj) as Hno. unfold of_pid in Hno. rewrite Hu in Hno. lia.
Qed.

Lemma call_inv c s h :
  shm_inv s h -> call_ok s c ->
  exists ret out s' h', run_call c s h = Done (ret, out, s', h') /\ shm_inv s' h'.
Proof.
  intros Hinv Hok. destruct c; simpl in Hok.
  - destruct (create_spec s h pid size flags Hinv Hok) as (r & s' & h' & E & Hi & _).
    simpl. rewrite E. simpl. eauto 10.
  - destruct (grant_spec s h pid handle target rights Hinv) as (r & s' & h' & E & Hi & _).
    simpl. rewrite E. simpl. eauto 10.
  - destruct (map_spec s h pid handle rights Hinv) as (r & s' & h' & E & Hi & _).
    simpl. rewrite E. simpl. eauto 10.
  - destruct (unmap_spec s h pid addr Hinv) as (r & s' & h' & E & Hi & _).
    simpl. rewrite E. simpl. eauto 10.
  - destruct (destroy_spec s h pid handle Hinv) as (r & s' & h' & E & Hi & _).
    simpl. rewrite E. simpl. eauto 10.
  - destruct (info_total s pid handle) as [r E]; [by destruct Hinv|].
    simpl. rewrite E. simpl. eauto 10.
  - destruct (exit_inv s h pid Hinv) as (s' & h' & E & Hi & _).
    simpl. rewrite E. simpl. eauto 10.
  - by apply fork_inv.
Qed.

Lemma step_inv x y : step x y -> shm_inv x.1 x.2 -> shm_inv y.1 y.2.
Proof.
  intros [c s h ret out s' h' Hok E] Hinv. simpl in *.
  destruct (call_inv c s h Hinv Hok) as (ret1 & out1 & s1 & h1 & E1 & Hi). rewrite E in E1. by simplify_eq.
Qed.

Lemma reachable_inv x : reachable x -> shm_inv x.1 x.2.
Proof.
  intros (x0 & Hboot & Hrun).
  eapply (rtc_invariant step (fun x => shm_inv x.1 x.2)); [apply step_inv|done|by apply boot_inv].
Qed.

(** ** Consequences *)

Lemma concat_inj {A} (ls : list (list A)) i k l i' k' l' f :
  NoDup (concat ls) -> ls !! i = Some l -> l !! k = Some f ->
  ls !! i' = Some l' -> l' !! k' = Some f -> i = i' /\ k = k'.
Proof.
  revert i i'. induction ls as [|a ls IH]; intros i i' Hnd Hi Hk Hi' Hk'; [done|].
  simpl in Hnd. apply NoDup_app in Hnd as (Hna & Hdis & Hnd).
  assert (Hin : forall j l0 k0, ls !! j = Some l0 -> l0 !! k0 = Some f -> f ∈ concat ls).
  { intros j l0 k0 Hj Hk0. apply list_elem_of_In, in_concat. exists l0.
    split; apply list_elem_of_In; by eapply list_elem_of_lookup_2. }
  destruct i as [|i], i' as [|i']; simplify_eq/=.
  - split; [done|]. exact (NoDup_lookup _ _ _ _ Hna Hk Hk').
  - destruct (Hdis f); [by eapply list_elem_of_lookup_2|by eapply Hin].
  - destruct (Hdis f); [by eapply list_elem_of_lookup_2|by eapply Hin].
  - destruct (IH i i') as [-> ->]; done.
Qed.

(** A frame belongs to one page of one object. *)
Lemma frame_unique s i o row k i' o' row' k' f :
  NoDup (owned s) ->
  objects s !! i = Some o -> o_in_use o = true -> frames s !! i = Some row ->
  Z.of_nat k < o_pages o -> row !! k = Some f ->
  objects s !! i' = Some o' -> o_in_use o' = true -> frames s !! i' = Some row' ->
  Z.of_nat k' < o_pages o' -> row' !! k' = Some f ->
  i = i' /\ k = k'.
Proof.
  intros Hnd Ho Hu Hr Hk Hf Ho' Hu' Hr' Hk' Hf'.
  eapply (concat_inj _ i k (owned_of o row) i' k' (owned_of o' row') f Hnd).
  - apply lookup_zip_with_Some. eauto.
  - unfold owned_of. rewrite Hu, lookup_take_lt by lia. done.
  - apply lookup_zip_with_Some. eauto.
  - unfold owned_of. rewrite Hu', lookup_take_lt by lia. done.
Qed.

(** Process [p] maps, at [v], page [k] of the object in [slot]. *)
Definition views (s : Shm) (p v : Z) (w : bool) (slot k : nat) : Prop :=
  exists j r, maps s !! j = Some r /\ m_in_use r = true /\ m_pid r = p /\
    Z.to_nat (m_obj r) = slot /\ v = page (m_addr r) k /\ Z.of_nat k < m_pages r /\
    w = negb (Z.land (m_rights r) RIGHT_WRITE =? 0).

Lemma entry_views s h p v f w :
  books s -> pt_ok s h -> pt h p v = Some (f, w) ->
  exists slot o row k, objects s !! slot = Some o /\ o_in_use o = true /\
    frames s !! slot = Some row /\ Z.of_nat k < o_pages o /\ row !! k = Some f /\
    views s p v w slot k.
Proof.
  intros Hb Hpt Hp. apply Hpt in Hp as (j & r & Hj & Hu & Hpid & k & row & f' & Hk & Hv & Hrow & Hf & Hw).
  simplify_eq. destruct (b_rec s Hb j r Hj Hu) as [(o & Ho & Huo & Hpg) _ _ _ _ _].
  exists (Z.to_nat (m_obj r)), o, row, k. do 3 (split; [done|]). split; [lia|]. split; [done|].
  exists j, r. done.
Qed.

(** C4: every state reachable from boot is safe: any permitted call returns (no
    index is out of range, no arithmetic surprise, no kernel operation is used
    outside its contract), the self-test passes, the frames held are exactly the
    frames of the objects, each owned once and zeroed before use, and the shared
    page-table entries are exactly the pages of the mapping records. *)
Theorem shm_safe s h :
  reachable (s, h) ->
  (forall c, call_ok s c -> exists ret out s' h', run_call c s h = Done (ret, out, s', h')) /\
  rust_shm_selftest s = Done (0, stats s) /\
  NoDup (owned s) /\ live h = list_to_set (owned s) /\ live h ⊆ clean h /\
  (forall p v e, pt h p v = Some e <-> backed s p v e).
Proof.
  intros Hinv%reachable_inv. pose proof Hinv as (Hb & Hr & Hf & Hpt). simpl in *.
  split; [|split; [|split; [|split; [|split]]]].
  - intros c Hok. destruct (call_inv c s h Hinv Hok) as (ret & out & s' & h' & E & _). eauto.
  - unfold rust_shm_selftest. by rewrite check_counts_ok.
  - by apply fr_nodup in Hf.
  - apply (fr_live s h Hf).
  - apply (fr_clean s h Hf).
  - apply Hpt.
Qed.

(** C9: isolation: when two page-table entries, of whatever processes, reach the
    same frame, both are the same page of one object in use, through a mapping
    record of each process; an entry is writable only if its record is. *)
Theorem shm_isolation s h p v w p' v' w' f :
  reachable (s, h) -> pt h p v = Some (f, w) -> pt h p' v' = Some (f, w') ->
  exists slot o k, objects s !! slot = Some o /\ o_in_use o = true /\ Z.of_nat k < o_pages o /\
    views s p v w slot k /\ views s p' v' w' slot k.
Proof.
  intros (Hb & _ & Hf & Hpt)%reachable_inv Hp Hp'. simpl in *.
  destruct (entry_views s h p v f w Hb Hpt Hp) as (i & o & row & k & Ho & Hu & Hr & Hk & Hrf & Hv).
  destruct (entry_views s h p' v' f w' Hb Hpt Hp') as (i' & o' & row' & k' & Ho' & Hu' & Hr' & Hk' & Hrf' & Hv').
  destruct (frame_unique s i o row k i' o' row' k' f) as [<- <-]; try done; [by apply fr_nodup in Hf|].
  exists i, o, k. done.
Qed.
End System.
