(* ===== verification/ShmProps.v ===== *)
(** * Shared memory: the properties of the calls

    What a successful [create], [map], [unmap], [destroy], [grant], exit or fork did,
    that a failed call did nothing, the life of an object slot, and that a dead
    handle stays dead. *)

From S2P Require Import Prelude Shm ShmHal ShmInv ShmOps ShmGap ShmMap ShmLife ShmFork ShmSys.
Local Open Scope Z_scope.

#[local] Opaque MAX_MAP_RECORDS MAX_OBJECTS MAX_PAGES_PER_OBJECT.

(** The holder of an object's rights: its owner, or a grant that covers [want]. *)
Definition may (o : Object) (pid want : Z) : Prop :=
  o_owner o = pid \/
  exists g, g ∈ o_grants o /\ g_pid g = pid /\ Z.land want (Z.lnot (g_rights g)) = 0.

Lemma grants_scan_elem gs pid :
  grants_scan gs pid = 0 \/
  exists g, g ∈ gs /\ g_pid g = pid /\ g_rights g = grants_scan gs pid.
Proof.
  induction gs as [|g gs IH]; simpl; [by left|].
  destruct (negb (g_rights g =? 0) && (g_pid g =? pid)) eqn:E.
  - right. exists g. split; [by left|]. split; [lia|done].
  - destruct IH as [|(g' & ? & ?)]; [by left|right]. exists g'. split; [by right|done].
Qed.

Lemma rights_on_may o pid want :
  want_ok want -> Z.land want (Z.lnot (rights_on o pid)) = 0 -> may o pid want.
Proof.
  unfold rights_on. destruct (Z.eqb_spec (o_owner o) pid) as [|]; [by left|].
  intros Hw Hr. right. destruct (grants_scan_elem (o_grants o) pid) as [E|(g & Hg & Hp & E)].
  - rewrite E in Hr. exfalso. by destruct Hw as [-> | ->].
  - exists g. rewrite E. done.
Qed.

(** A handle does not resolve when its slot is free, dying or of another generation. *)
Lemma lookup_dead s hd slot o :
  books s -> Z.land hd 0xFF = Z.of_nat slot + 1 -> objects s !! slot = Some o ->
  o_in_use o = false \/ o_dying o = true \/ o_gen o <> Z.shiftr hd 8 ->
  Shm_lookup s hd = Done (Err EBADF).
Proof.
  intros Hb Hlow Ho Hdead.
  destruct (lookup_total s hd Hb) as [|(slot' & o' & E & Ho' & Hu & Hd & Hg & Hlow')]; [done|].
  assert (slot' = slot) as -> by lia. simplify_eq.
  destruct Hdead as [|[|]]; congruence.
Qed.

Lemma exit_in_use pid n o :
  o_in_use (exit_grants pid (set_map_count n (exit_mark pid o))) = o_in_use o.
Proof.
  unfold exit_grants, exit_mark. destruct (o_in_use o) eqn:Hu; simpl; [|by rewrite Hu].
  destruct (o_owner o =? pid); simpl; by rewrite Hu.
Qed.

Lemma exit_used pid n o :
  o_in_use o = true ->
  let o' := exit_grants pid (set_map_count n (exit_mark pid o)) in
  (o_owner o' = pid -> o_dying o' = true) /\ (forall g, g ∈ o_grants o' -> held_by pid g = false).
Proof.
  intros Hu. unfold exit_grants, exit_mark. rewrite Hu. simpl.
  assert (Hrev : forall (gs : list Grant) g, g ∈ revoke_grant pid <$> gs -> held_by pid g = false).
  { intros gs g (g0 & -> & _)%list_elem_of_fmap. unfold revoke_grant.
    by destruct (held_by pid g0) eqn:E0. }
  destruct (Z.eqb_spec (o_owner o) pid); simpl; rewrite Hu; simpl; (split; [done|apply Hrev]).
Qed.

Section Calls.
Context {H : Type} `{HalLaws H}.

Lemma pt_ok_lookup s h p v e : pt_ok s h -> backed s p v e -> pt h p v = Some e.
Proof. intros Hpt Hb. by apply Hpt. Qed.

(** Page tables that agree on what is backed agree. *)
Lemma pt_agree s s' h h' p v :
  pt_ok s h -> pt_ok s' h' -> (forall e, backed s' p v e <-> backed s p v e) ->
  pt h' p v = pt h p v.
Proof. intros Hpt Hpt' Hb. apply option_eq. intros e. rewrite (Hpt' p v e), (Hpt p v e). apply Hb. Qed.

(** A successful [map] was allowed (the caller owns the object or holds a grant
    covering the rights asked for), is placed at the lowest address of the region
    at which the object and its guard page fit clear of the caller's mappings, and
    enters exactly the object's frames there, writable only if write was asked for;
    no other page-table entry of any process changes. *)
Theorem shm_map_correct s h pid hd want addr bytes s' h' :
  reachable (s, h) ->
  run_call (SysMap pid hd want) s h = Done (0, [addr; bytes], s', h') ->
  exists slot o row,
    Shm_lookup s hd = Done (Ok slot) /\ objects s !! slot = Some o /\
    frames s !! slot = Some row /\ want_ok want /\ may o pid want /\
    bytes = o_pages o * PAGE_SIZE /\
    fits s pid ((o_pages o + 1) * PAGE_SIZE) addr /\
    (forall y, fits s pid ((o_pages o + 1) * PAGE_SIZE) y -> addr <= y) /\
    (forall k, Z.of_nat k < o_pages o -> exists f, row !! k = Some f /\
       pt h' pid (page addr k) = Some (f, negb (Z.land want RIGHT_WRITE =? 0))) /\
    (forall p v, ~ in_range pid addr 0 (Z.to_nat (o_pages o)) p v -> pt h' p v = pt h p v).
Proof.
  intros Hinv%reachable_inv E. simpl in Hinv, E.
  pose proof Hinv as (Hb & _ & _ & Hpt).
  destruct (map_spec s h pid hd want Hinv) as (res & s1 & h1 & E1 & Hinv1 & _ & Hres).
  rewrite E1 in E. simpl in E. destruct res as [[a b]|e]; simplify_eq/=.
  destruct Hres as (slot & o & rec & r0 & Hlk & Ho & Hu & _ & Hw & Hrt & -> & Hfit & Hmin & Hr0 & Hun & ->).
  destruct (obj_lookup s slot Hb (obj_bound _ _ _ Hb Ho)) as (? & row & ? & Hrow & Hok & Hlen).
  simplify_eq. destruct (ok_used o Hok Hu) as [_ Hpg].
  destruct Hinv1 as (_ & _ & _ & Hpt1).
  set (r := mkMapRec true pid addr (o_pages o) (Z.of_nat slot) want) in *.
  assert (Hbk : forall p v e, backed (mapped s slot o rec r) p v e <->
                maps_page (frames s) r p v e \/ backed s p v e)
    by (intros; by apply (backed_add s _ rec r0 r)).
  exists slot, o, row. do 4 (split; [done|]). split; [by apply rights_on_may|].
  split; [done|]. split; [done|]. split; [done|]. split.
  - intros k Hk. destruct (lookup_lt_is_Some_2 row k) as [f Hf]; [lia|]. exists f. split; [done|].
    apply (pt_ok_lookup _ _ _ _ _ Hpt1), Hbk. left. split; [done|]. exists k, row, f.
    simpl. rewrite Nat2Z.id. done.
  - intros p v Hnot. eapply pt_agree; [done|done|]. intros e. rewrite Hbk.
    split; [|by right]. intros [(<- & k & row' & f & Hk & -> & _)|]; [|done].
    simpl in Hk. destruct Hnot. split; [done|]. exists k. split; [lia|done].
Qed.

(** A successful [create] returns whole pages that hold the size asked for, in
    the first free slot, owned by the caller, mapped nowhere, with a handle that
    resolves to it; its frames are new (held by no other object) and zeroed. *)
Theorem shm_create_correct s h pid size flags hd bytes s' h' :
  reachable (s, h) -> is_u32 size ->
  run_call (SysCreate pid size flags) s h = Done (0, [hd; bytes], s', h') ->
  exists slot o row,
    position unused (objects s) = Some slot /\ Shm_lookup s' hd = Done (Ok slot) /\
    objects s' !! slot = Some o /\ frames s' !! slot = Some row /\
    o_owner o = pid /\ o_dying o = false /\ o_map_count o = 0 /\
    o_grants o = replicate MAX_GRANTS EMPTY_GRANT /\
    bytes = o_pages o * PAGE_SIZE /\ size <= bytes < size + PAGE_SIZE /\
    (forall i, i <> slot -> objects s' !! i = objects s !! i) /\
    (forall k f, Z.of_nat k < o_pages o -> row !! k = Some f ->
       f ∉ live h /\ f ∈ live h' /\ f ∈ clean h') /\
    (forall p v, pt h' p v = pt h p v).
Proof.
  intros Hinv%reachable_inv Hsz E. simpl in Hinv, E.
  destruct (create_spec s h pid size flags Hinv Hsz) as (res & s1 & h1 & E1 & Hinv1 & Hsame & Hres).
  rewrite E1 in E. simpl in E. destruct res as [[a b]|e]; simplify_eq/=.
  destruct Hres as (slot & gen & row & [_ Hargs] & Hpos & _ & -> & Hlk & -> & Hl & Hnew & _).
  destruct (pages_for_range size Hargs) as (_ & _ & Hround).
  pose proof Hinv as (Hb & _ & Hf & Hpt). pose proof Hinv1 as (Hb1 & _ & Hf1 & Hpt1).
  pose proof (proj1 (position_Some _ _ _) Hpos) as (o0 & Ho0 & Hun & _). apply negb_true_iff in Hun.
  assert (Hlen : (slot < length (objects s))%nat) by by eapply lookup_lt_Some.
  assert (Hlen' : (slot < length (frames s))%nat) by by rewrite b_frames, <- (b_objects s).
  eexists slot, _, row. split; [done|]. split; [done|].
  split; [by apply list_lookup_insert_eq|]. split; [by apply list_lookup_insert_eq|].
  simpl. do 5 (split; [done|]). split; [done|]. split; [|split].
  - intros i Hi. by apply list_lookup_insert_ne.
  - intros k f Hk Hf'. assert (Hin : f ∈ take (Z.to_nat (pages_for size)) row).
    { apply (list_elem_of_lookup_2 _ k). by rewrite lookup_take_lt by lia. }
    split; [by apply Hnew|]. assert (Hlive : f ∈ live h').
    { rewrite Hl. apply elem_of_union_l. by apply elem_of_list_to_set. }
    split; [done|]. by apply (fr_clean _ _ Hf1).
  - apply Hsame.
Qed.

(** The frames of an object. *)
Definition frames_of (s : Shm) (slot : nat) (F : list Z) : Prop :=
  exists o row, objects s !! slot = Some o /\ frames s !! slot = Some row /\ F = owned_of o row.

Lemma freed_live s s1 h h' slot o o1 o2 row' :
  frames_ok s h -> frames_ok (freed s1 slot o1 row') h' -> books s ->
  objects s !! slot = Some o -> o_in_use o = true ->
  objects s1 = <[slot := o2]> (objects s) -> frames s1 = frames s ->
  exists F, frames_of s slot F /\ length F = Z.to_nat (o_pages o) /\
    live h' = live h ∖ list_to_set F.
Proof.
  intros Hf Hf' Hb Ho Hu Eo Efr.
  destruct (obj_lookup s slot Hb (obj_bound _ _ _ Hb Ho)) as (? & row & ? & Hrow & Hok & Hlen).
  simplify_eq. destruct (ok_used o Hok Hu) as [_ Hp].
  destruct (owned_split s slot o row Ho Hrow) as (A & B & Hown & Hown').
  exists (owned_of o row). split; [by exists o, row|]. split.
  { unfold owned_of. rewrite Hu, length_take. lia. }
  pose proof (fr_nodup s h Hf) as Hnd. rewrite Hown in Hnd.
  destruct (owned_remove _ _ _ Hnd) as [_ Hset].
  rewrite (fr_live _ _ Hf'), (fr_live s h Hf), Hown, Hset. f_equal.
  unfold freed. rewrite Eo, Efr, list_insert_insert_eq. apply Hown'.
Qed.

(** Destruction: only the owner's call succeeds; the handle is dead from then on;
    with no mapping left the object's frames are returned at once, otherwise not a
    single frame or page-table entry changes. *)
Theorem shm_destroy_correct s h pid hd out s' h' :
  reachable (s, h) -> run_call (SysDestroy pid hd) s h = Done (0, out, s', h') ->
  Shm_lookup s' hd = Done (Err EBADF) /\
  (forall p v, pt h' p v = pt h p v) /\
  exists slot o, Shm_lookup s hd = Done (Ok slot) /\ objects s !! slot = Some o /\
    o_owner o = pid /\
    if o_map_count o =? 0
    then exists F, frames_of s slot F /\ length F = Z.to_nat (o_pages o) /\
                   live h' = live h ∖ list_to_set F
    else live h' = live h.
Proof.
  intros Hinv%reachable_inv E. simpl in Hinv, E.
  destruct (destroy_spec s h pid hd Hinv) as (res & s1 & h1 & E1 & Hinv1 & Hres).
  rewrite E1 in E. simpl in E. destruct res as [[]|e].
  2: { destruct Hres as (He & _). simplify_eq/=. lia. }
  simplify_eq/=. destruct Hres as (slot & o & Hlk & Ho & Hown & Hres).
  pose proof Hinv as (Hb & _ & Hf & Hpt). pose proof Hinv1 as (Hb1 & _ & Hf1 & Hpt1).
  destruct (lookup_total s hd Hb) as [Hbad|(slot' & o' & Hlk' & Ho' & Hu & Hd & Hg & Hlow)]; [congruence|].
  rewrite Hlk in Hlk'. injection Hlk' as <-. rewrite Ho in Ho'. injection Ho' as <-.
  pose proof (obj_bound _ _ _ Hb Ho) as Hlt.
  destruct (o_map_count o =? 0) eqn:Hc.
  - destruct Hres as [row' ->]. split; [|split].
    + eapply lookup_dead; [done|done| |].
      { simpl. apply list_lookup_insert_eq. rewrite length_insert, (b_objects s Hb). done. }
      by left.
    + intros p v. eapply pt_agree; [done|done|]. intros e. apply (backed_slot s).
      intros j r Hj Hru. apply (unreferenced s slot o j r); (done || lia).
    + exists slot, o. do 3 (split; [done|]). rewrite Hc. by eapply freed_live.
  - destruct Hres as [-> Hl]. split; [|split].
    + eapply lookup_dead; [done|done| |].
      { simpl. apply list_lookup_insert_eq. by rewrite (b_objects s Hb). }
      right. by left.
    + intros p v. by eapply pt_agree.
    + exists slot, o. do 3 (split; [done|]). by rewrite Hc.
Qed.

(** Unmapping: the caller's mapping at that address disappears, and nothing else
    does; the frames are returned exactly when it was the last mapping of a dying
    object. *)
Theorem shm_unmap_correct s h pid addr out s' h' :
  reachable (s, h) -> run_call (SysUnmap pid addr) s h = Done (0, out, s', h') ->
  exists r o, r ∈ maps s /\ at_addr pid addr r = true /\
    objects s !! Z.to_nat (m_obj r) = Some o /\
    (forall k, Z.of_nat k < m_pages r -> pt h' pid (page addr k) = None) /\
    (forall p v, ~ in_range pid addr 0 (Z.to_nat (m_pages r)) p v -> pt h' p v = pt h p v) /\
    if o_dying o && (o_map_count o =? 1)
    then exists F, frames_of s (Z.to_nat (m_obj r)) F /\ length F = Z.to_nat (o_pages o) /\
                   live h' = live h ∖ list_to_set F
    else live h' = live h.
Proof.
  intros Hinv%reachable_inv E. simpl in Hinv, E.
  destruct (unmap_spec s h pid addr Hinv) as (res & s1 & h1 & E1 & Hinv1 & Hres).
  rewrite E1 in E. simpl in E. destruct res as [[]|e].
  2: { destruct Hres as (-> & _). simplify_eq/=. }
  simplify_eq/=. destruct Hres as (j & r & o & Hj & Hat & Ho & Hres).
  pose proof Hinv as (Hb & _ & Hf & Hpt). pose proof Hinv1 as (Hb1 & _ & Hf1 & Hpt1).
  assert (Hr : m_in_use r = true /\ m_pid r = pid /\ m_addr r = addr)
    by (unfold at_addr in Hat; destruct (m_in_use r); lia).
  destruct Hr as (Hu & <- & <-).
  destruct (dropped_shape s o j r Hb Hj Hu Ho) as [Huo _].
  assert (Hback : forall p v e, backed s' p v e <->
    backed s p v e /\ ~ exists e', maps_page (frames s) r p v e').
  { intros p v e. destruct (o_dying o && (o_map_count o =? 1)) eqn:Hc.
    - destruct Hres as [row' ->]. rewrite <- (backed_drop s (objects (dropped s o j r)) j r (total_pages s)) by done.
      apply (backed_slot (dropped s o j r)). intros k q Hk Hq.
      eapply (unreferenced (dropped s o j r)); [by apply books_drop_map| | |done|done].
      + apply list_lookup_insert_eq. by eapply lookup_lt_Some.
      + simpl. lia.
    - destruct Hres as [-> _]. by apply backed_drop. }
  exists r, o. split; [by eapply list_elem_of_lookup_2|]. do 2 (split; [done|]). split; [|split].
  - intros k Hk. apply eq_None_not_Some. intros [e He]. apply Hpt1, Hback in He as [_ Hn].
    apply Hn. destruct (record_pages s h j r k Hb Hpt Hj Hu) as [e' He']; [lia|].
    apply Hpt in He' as (j' & q & Hj' & Hq & Hm). exists e'.
    destruct (decide (j' = j)) as [->|Hne]; [by simplify_eq|].
    exfalso. destruct (b_apart s Hb j' j q r) as [Hap|Hap]; try done.
    + by destruct Hm.
    + destruct Hm as (_ & l & _ & _ & Hl & Hv & _). unfold span_end, page, PAGE_SIZE in *. lia.
    + destruct Hm as (_ & l & _ & _ & Hl & Hv & _). unfold span_end, page, PAGE_SIZE in *. lia.
  - intros p v Hnot. eapply pt_agree; [done|done|]. intros e. rewrite Hback.
    split; [tauto|]. intros Hbk. split; [done|]. intros (e' & <- & l & _ & _ & Hl & -> & _).
    apply Hnot. split; [done|]. exists l. split; [lia|done].
  - destruct (o_dying o && (o_map_count o =? 1)) eqn:Hc; [|by destruct Hres].
    destruct Hres as [row' ->]. by eapply freed_live.
Qed.

(** Process exit: no mapping, page-table entry or grant of the process remains,
    what it owned is freed or dying with mappings of others, and no page-table entry
    of another process changes. *)
Theorem shm_exit_cleans s h pid ret out s' h' :
  reachable (s, h) -> run_call (SysExit pid) s h = Done (ret, out, s', h') ->
  (forall j r, maps s' !! j = Some r -> of_pid pid r = false) /\
  (forall v, pt h' pid v = None) /\
  (forall p v, p <> pid -> pt h' p v = pt h p v) /\
  (forall i o, objects s' !! i = Some o -> o_in_use o = true ->
     (o_owner o = pid -> o_dying o = true /\ 0 < o_map_count o) /\
     forall g, g ∈ o_grants o -> held_by pid g = false).
Proof.
  intros Hinv%reachable_inv E. simpl in Hinv, E.
  destruct (exit_inv s h pid Hinv) as (s1 & h1 & E1 & Hinv1 & Hm & Hobj & _).
  rewrite E1 in E. simplify_eq/=.
  pose proof Hinv as (Hb & _ & Hf & Hpt). pose proof Hinv1 as (Hb1 & Hr1 & Hf1 & Hpt1).
  assert (Hnone : forall j r, maps s' !! j = Some r -> of_pid pid r = false).
  { intros j r Hj. rewrite Hm in Hj. apply list_lookup_fmap_Some in Hj as (q & -> & _).
    unfold clear_pid. by destruct (of_pid pid q) eqn:Hq. }
  assert (Hfr : forall p v e, backed s' p v e <-> p <> pid /\ backed s p v e).
  { destruct (process_exit_spec s h pid Hinv) as (s2 & h2 & E2 & _ & _ & _ & _ & Hbk & _).
    rewrite E1 in E2. by simplify_eq. }
  split; [done|]. split; [|split].
  - intros v. apply eq_None_not_Some. intros [e He]. by apply Hpt1, Hfr in He as [? _].
  - intros p v Hp. eapply pt_agree; [done|done|]. intros e. rewrite Hfr. tauto.
  - intros i o Ho Hu. destruct (Forall2_lookup_r _ _ _ _ _ Hobj Ho) as (o0 & Ho0 & n & ->).
    set (o1 := exit_grants pid (set_map_count n (exit_mark pid o0))) in *.
    assert (Ereap : reap o1 = o1).
    { unfold reap in *. by destruct (o_in_use o1 && o_dying o1 && (o_map_count o1 =? 0)). }
    rewrite Ereap in *. unfold o1 in Hu. rewrite exit_in_use in Hu. destruct (exit_used pid n o0 Hu) as [Hd Hg].
    split; [|done]. intros Hown. specialize (Hd Hown). split; [done|]. by apply (Hr1 i _ Ho).
Qed.

(** C35: fork is all or nothing: on success the child sees exactly the parent's shared
    pages, at the same addresses with the same frames and rights, and nobody else's
    view changes; on failure books and page tables are as they were. *)
Theorem shm_fork_correct s h parent child ret out s' h' :
  reachable (s, h) -> call_ok s (SysFork parent child) ->
  run_call (SysFork parent child) s h = Done (ret, out, s', h') ->
  (if ret =? 0
   then (forall v, pt h' child v = pt h parent v) /\
        (forall r, r ∈ maps s -> of_pid parent r = true -> set_pid child r ∈ maps s') /\
        (forall r, r ∈ maps s -> m_in_use r = true -> r ∈ maps s')
   else s' = s /\ (forall v, pt h' child v = None) /\
        (countb unused_rec (maps s) < countb (of_pid parent) (maps s))%nat) /\
  (forall p v, p <> child -> pt h' p v = pt h p v) /\ live h' = live h.
Proof.
  intros Hinv%reachable_inv [Hne Hfresh] E. simpl in Hinv, E.
  pose proof Hinv as (Hb & _ & Hf & _). pose proof (fr_hal s h Hf) as Hh.
  destruct (fork_pd_law parent child h Hh) as (Hh1 & Hl1 & _ & Hpt1).
  destruct (teardown_pd_law child _ Hh1) as (_ & Hl2 & _ & Hpt2).
  destruct (fork_spec s parent child Hb Hne) as (res & s1 & E1 & Hres). rewrite E1 in E. simpl in E.
  destruct res as [u|e]; simplify_eq/=.
  - destruct Hres as [_ Hk]. split; [split; [|split]|split].
    + intros v. by rewrite Hpt1, Z.eqb_refl.
    + intros r Hr Hp. apply list_elem_of_lookup in Hr as [l Hl].
      destruct (fk_all _ _ _ _ _ Hk l r) as [j Hj]; [by eapply lookup_lt_Some|done|done|].
      by eapply list_elem_of_lookup_2.
    + intros r Hr Hu. apply list_elem_of_lookup in Hr as [l Hl].
      eapply list_elem_of_lookup_2. by apply (fk_keep _ _ _ _ _ Hk).
    + intros p v Hp. rewrite Hpt1. by destruct (Z.eqb_spec p child).
    + done.
  - destruct Hres as [-> [[-> (j & r & Hj & Hc)]|[-> Hroom]]]; [exfalso; by rewrite (Hfresh j r Hj) in Hc|].
    simpl. split; [split; [done|split; [|done]]|split].
    + intros v. by rewrite Hpt2, Z.eqb_refl.
    + intros p v Hp. rewrite Hpt2, Hpt1. by destruct (Z.eqb_spec p child).
    + congruence.
Qed.

(** Nothing that a process or the self-check can see differs. *)
Definition unchanged (s : Shm) (h : H) (s' : Shm) (h' : H) : Prop :=
  objects s' = objects s /\ maps s' = maps s /\ total_pages s' = total_pages s /\
  live h' = live h /\ forall p v, pt h' p v = pt h p v.

(** A call that fails changes nothing: objects, mappings, frames and page tables
    are as they were, on every error path (those that undo partial work included). *)
Theorem shm_failure_is_noop c s h ret out s' h' :
  reachable (s, h) -> call_ok s c -> run_call c s h = Done (ret, out, s', h') -> ret <> 0 ->
  unchanged s h s' h' /\ out = [].
Proof.
  intros Hinv%reachable_inv Hok E Hret. simpl in Hinv. pose proof Hinv as (Hb & _ & Hf & Hpt).
  destruct c; simpl in Hok, E.
  - destruct (create_spec s h pid size flags Hinv Hok) as (r & s1 & h1 & E1 & _ & Hsame & Hr).
    rewrite E1 in E. destruct r as [[]|e]; simplify_eq/=. by destruct Hr as (Ho & Hm & Ht & Hl & _).
  - destruct (grant_spec s h pid handle target rights Hinv) as (r & s1 & h1 & E1 & _ & Hl & Hp & Hr).
    rewrite E1 in E. destruct r as [|e]; simplify_eq/=. by destruct Hr as [_ ->].
  - destruct (map_spec s h pid handle rights Hinv) as (r & s1 & h1 & E1 & _ & Hl & Hr).
    rewrite E1 in E. destruct r as [[]|e]; simplify_eq/=. by destruct Hr as (_ & -> & Hp).
  - destruct (unmap_spec s h pid addr Hinv) as (r & s1 & h1 & E1 & _ & Hr).
    rewrite E1 in E. destruct r as [|e]; simplify_eq/=. by destruct Hr as (_ & -> & -> & _).
  - destruct (destroy_spec s h pid handle Hinv) as (r & s1 & h1 & E1 & _ & Hr).
    rewrite E1 in E. destruct r as [|e]; simplify_eq/=. by destruct Hr as (_ & -> & ->).
  - destruct (info_total s pid handle Hb) as [r E1]. rewrite E1 in E.
    destruct r as [|e]; by simplify_eq/=.
  - apply bind_Done in E as ([s1 h1] & _ & E). by simplify_eq/=.
  - destruct Hok as [Hne Hfresh]. destruct (fork_spec s parent child Hb Hne) as (r & s1 & E1 & Hr).
    pose proof (fr_hal s h Hf) as Hh.
    destruct (fork_pd_law parent child h Hh) as (Hh1 & Hl1 & _ & Hpt1).
    destruct (teardown_pd_law child _ Hh1) as (_ & Hl2 & _ & Hpt2).
    rewrite E1 in E. destruct r as [|e]; simplify_eq/=. destruct Hr as [-> _].
    split; [|done]. do 3 (split; [done|]). split; [congruence|]. intros p v. rewrite Hpt2, Hpt1.
    destruct (Z.eqb_spec p child) as [->|]; [|done]. symmetry. apply eq_None_not_Some.
    intros [en He]. apply Hpt in He as (j & r & Hj & Hu & Hp & _).
    pose proof (Hfresh j r Hj) as Hno. unfold of_pid in Hno. rewrite Hu in Hno. lia.
Qed.

(** Placement is first fit: [find_gap] always answers, with the lowest address in
    the region at which the pages fit clear of every mapping of the process and its
    guard page, page aligned, or with [None] exactly when there is no such address. *)
Theorem shm_first_fit s h pid np :
  reachable (s, h) -> 0 < np <= MAX_PAGES_PER_OBJECT + 1 ->
  exists g, find_gap s pid np SHM_VIRT_BASE SHM_VIRT_END = Done g /\
    match g with
    | Some x => fits s pid (np * PAGE_SIZE) x /\ x mod PAGE_SIZE = 0 /\
                forall y, fits s pid (np * PAGE_SIZE) y -> x <= y
    | None => forall y, ~ fits s pid (np * PAGE_SIZE) y
    end.
Proof. intros (Hb & _)%reachable_inv. by apply find_gap_spec. Qed.
End Calls.

(** * Shared memory: the life of a slot, and of a handle

    Every call moves every object slot along free, live, dying, free, one generation
    per life; so the handle of a destroyed object resolves to nothing until the
    24-bit generation has come round. *)

#[local] Opaque MAX_MAP_RECORDS MAX_OBJECTS MAX_PAGES_PER_OBJECT.

(** What one call may do to one slot. *)
Inductive slot_step : Object -> Object -> Prop :=
| slot_keep o o' :
    o_in_use o' = o_in_use o -> o_gen o' = o_gen o -> o_owner o' = o_owner o ->
    o_pages o' = o_pages o -> (o_dying o = true -> o_dying o' = true) -> slot_step o o'
| slot_create o o' :
    o_in_use o = false -> o_in_use o' = true -> o_dying o' = false -> o_map_count o' = 0 ->
    o_gen o' = (if o_gen o =? 0 then 1 else o_gen o) -> slot_step o o'
| slot_free o :
    o_in_use o = true -> slot_step o (set_gen (next_gen (o_gen o)) EMPTY_OBJ).

Lemma slot_keep_refl o : slot_step o o.
Proof. by apply slot_keep. Qed.

Lemma slot_insert os i o o' :
  os !! i = Some o -> slot_step o o' -> Forall2 slot_step os (<[i := o']> os).
Proof.
  intros Ho Hs. eapply Forall2_insert_diag; [|done|done].
  apply Forall_forall. intros p _. apply slot_keep_refl.
Qed.

Lemma slot_same os : Forall2 slot_step os os.
Proof. apply Forall_Forall2_diag, Forall_forall. intros o _. apply slot_keep_refl. Qed.

Lemma slot_recounted os os' : Forall2 recounted os os' -> Forall2 slot_step os os'.
Proof. intros Hr. eapply Forall2_impl; [done|]. intros o o' [n ->]. by apply slot_keep. Qed.

Lemma slot_exited pid o o' : exited pid o o' -> slot_step o o'.
Proof.
  intros [n ->]. set (o1 := exit_grants pid (set_map_count n (exit_mark pid o))).
  assert (Hu : o_in_use o1 = o_in_use o) by apply exit_in_use.
  assert (Hg : o_gen o1 = o_gen o /\ o_owner o1 = o_owner o /\ o_pages o1 = o_pages o /\
               (o_dying o = true -> o_dying o1 = true)).
  { unfold o1, exit_grants, exit_mark. destruct (o_in_use o && (o_owner o =? pid)); simpl;
      by destruct (o_in_use o). }
  destruct Hg as (Hg & Ho & Hp & Hd). unfold reap.
  destruct (o_in_use o1 && o_dying o1 && (o_map_count o1 =? 0)) eqn:E; [|by apply slot_keep].
  rewrite Hg. apply slot_free. rewrite <- Hu. by destruct (o_in_use o1).
Qed.

Section Runs.
Context {H : Type} `{HalLaws H}.

Lemma create_slots s h pid size flags r s' h' :
  shm_inv s h -> is_u32 size -> create s h pid size flags = Done (r, s', h') ->
  Forall2 slot_step (objects s) (objects s').
Proof.
  intros Hinv Hok E. destruct (create_spec s h pid size flags Hinv Hok) as (r1 & s1 & h1 & E1 & _ & _ & Hr).
  rewrite E1 in E. simplify_eq/=. destruct r as [[hd b]|e].
  - destruct Hr as (slot & gen & row & _ & Hpos & _ & -> & _ & _ & _ & _ & Hgen).
    apply position_Some in Hpos as (o & Ho & Hu & _). apply negb_true_iff in Hu.
    eapply slot_insert; [done|]. apply slot_create; simpl; auto.
  - destruct Hr as (-> & _). apply slot_same.
Qed.

Lemma unmap_slots s h pid addr r s' h' :
  shm_inv s h -> unmap s h pid addr = Done (r, s', h') ->
  Forall2 slot_step (objects s) (objects s').
Proof.
  intros Hinv E. destruct (unmap_spec s h pid addr Hinv) as (r1 & s1 & h1 & E1 & Hinv1 & Hr).
  rewrite E1 in E. simplify_eq/=. destruct r as [u|e].
  - destruct Hr as (j & r & o & Hj & Hat & Ho & Hr).
    destruct (o_dying o && (o_map_count o =? 1)) eqn:Hc.
    + destruct Hr as [row' ->]. simpl. rewrite list_insert_insert_eq.
      eapply slot_insert; [done|]. apply slot_free.
      pose proof Hinv as (Hb & _). assert (Hu : m_in_use r = true)
        by (unfold at_addr in Hat; by destruct (m_in_use r)).
      by destruct (dropped_shape s o j r Hb Hj Hu Ho).
    + destruct Hr as [-> _]. eapply slot_insert; [done|]. by apply slot_keep.
  - destruct Hr as (_ & -> & _). apply slot_same.
Qed.

Lemma destroy_slots s h pid handle r s' h' :
  shm_inv s h -> destroy s h pid handle = Done (r, s', h') ->
  Forall2 slot_step (objects s) (objects s').
Proof.
  intros Hinv E. destruct (destroy_spec s h pid handle Hinv) as (r1 & s1 & h1 & E1 & _ & Hr).
  rewrite E1 in E. simplify_eq/=. destruct r as [u|e].
  - destruct Hr as (slot & o & Hlk & Ho & _ & Hr). pose proof Hinv as (Hb & _).
    destruct (o_map_count o =? 0).
    + destruct Hr as [row' ->]. simpl. rewrite list_insert_insert_eq.
      eapply slot_insert; [done|].
      apply (slot_free o). destruct (lookup_total s handle Hb) as [?|(? & ? & E2 & ? & ? & _)];
        [congruence|]. rewrite Hlk in E2. by simplify_eq.
    + destruct Hr as [-> _]. eapply slot_insert; [done|]. by apply slot_keep.
  - destruct Hr as (_ & -> & _). apply slot_same.
Qed.

Lemma call_slots c s h ret out s' h' :
  shm_inv s h -> call_ok s c -> run_call c s h = Done (ret, out, s', h') ->
  Forall2 slot_step (objects s) (objects s').
Proof.
  intros Hinv Hok E. pose proof Hinv as (Hb & _). destruct c; simpl in Hok, E.
  - apply bind_Done in E as ([[r1 s1] h1] & E1 & E). simplify_eq/=. by eapply create_slots.
  - destruct (grant_spec s h pid handle target rights Hinv) as (r & s1 & h1 & E1 & _ & _ & _ & Hr).
    rewrite E1 in E. simplify_eq/=. destruct r as [u|e].
    + destruct Hr as (slot & o & gs & _ & Ho & _ & _ & _ & -> & _).
      eapply slot_insert; [done|]. by apply slot_keep.
    + destruct Hr as [_ ->]. apply slot_same.
  - destruct (map_spec s h pid handle rights Hinv) as (r & s1 & h1 & E1 & _ & _ & Hr).
    rewrite E1 in E. simplify_eq/=. destruct r as [[a b]|e].
    + destruct Hr as (slot & o & rec & r0 & _ & Ho & Hr). decompose [and] Hr. subst.
      eapply slot_insert; [done|]. by apply slot_keep.
    + destruct Hr as (_ & -> & _). apply slot_same.
  - apply bind_Done in E as ([[r1 s1] h1] & E1 & E). simplify_eq/=. by eapply unmap_slots.
  - apply bind_Done in E as ([[r1 s1] h1] & E1 & E). simplify_eq/=. by eapply destroy_slots.
  - destruct (info_total s pid handle Hb) as [r E1]. rewrite E1 in E. simplify_eq/=. apply slot_same.
  - destruct (exit_inv s h pid Hinv) as (s1 & h1 & E1 & _ & _ & Ho & _).
    rewrite E1 in E. simplify_eq/=. eapply Forall2_impl; [done|]. apply slot_exited.
  - destruct Hok as [Hne _]. destruct (fork_spec s parent child Hb Hne) as (r & s1 & E1 & Hr).
    rewrite E1 in E. simpl in E. destruct r as [u|e]; simplify_eq/=.
    + destruct Hr as [_ Hk]. apply slot_recounted. apply (fk_objects _ _ _ _ _ Hk).
    + destruct Hr as [-> _]. apply slot_same.
Qed.

(** Each call moves each slot by at most one step of its life: it is kept (same
    generation, owner and size, and a dying object stays dying), created in a free
    slot under the slot's current generation, or freed, which advances the
    generation. *)
Theorem shm_slot_life c s h ret out s' h' :
  reachable (s, h) -> call_ok s c -> run_call c s h = Done (ret, out, s', h') ->
  Forall2 slot_step (objects s) (objects s').
Proof. intros Hinv%reachable_inv. by apply call_slots. Qed.

(** ** Generations *)

Definition GENS : Z := 0xFFFFFF.

Lemma next_gen_succ g : 1 <= g <= GENS -> next_gen g = (g - 1 + 1) mod GENS + 1.
Proof.
  intros Hg. unfold next_gen. rewrite wrap32_id by (unfold is_u32, GENS in *; lia).
  change 0x00FFFFFF with (Z.ones 24). rewrite Z.land_ones by lia. unfold GENS in *.
  destruct (Z.eq_dec g 0xFFFFFF) as [->|]; [done|].
  rewrite !Z.mod_small by lia. destruct (Z.eqb_spec (g + 1) 0); lia.
Qed.

(** The generation of a slot after [m] more lives. *)
Definition gen_after (g : Z) (m : nat) : Z := (g - 1 + Z.of_nat m) mod GENS + 1.

Lemma gen_after_range g m : 1 <= gen_after g m <= GENS.
Proof. unfold gen_after. pose proof (Z.mod_pos_bound (g - 1 + Z.of_nat m) GENS). unfold GENS in *. lia. Qed.

Lemma gen_after_S g m : next_gen (gen_after g m) = gen_after g (S m).
Proof.
  rewrite next_gen_succ by apply gen_after_range. unfold gen_after.
  replace ((g - 1 + Z.of_nat m) mod GENS + 1 - 1) with ((g - 1 + Z.of_nat m) mod GENS) by lia.
  rewrite Zplus_mod_idemp_l. f_equal. f_equal. lia.
Qed.

Lemma gen_after_0 g : 1 <= g <= GENS -> gen_after g 0 = g.
Proof. intros Hg. unfold gen_after. rewrite Z.mod_small by (simpl; lia). simpl. lia. Qed.

Lemma gen_after_ne g m : 1 <= g <= GENS -> 0 < Z.of_nat m < GENS -> gen_after g m <> g.
Proof.
  intros Hg Hm. unfold gen_after.
  pose proof (Z.div_mod (g - 1 + Z.of_nat m) GENS ltac:(done)) as Hd.
  pose proof (Z.mod_pos_bound (g - 1 + Z.of_nat m) GENS ltac:(done)).
  intros E. assert (Hq : Z.of_nat m = GENS * ((g - 1 + Z.of_nat m) / GENS)) by lia.
  unfold GENS in *. lia.
Qed.

(** The slot of a dead handle of generation [g], at most [n] lives later. *)
Definition outlived (g : Z) (n : nat) (o : Object) : Prop :=
  exists m, (m <= n)%nat /\ o_gen o = gen_after g m /\
    (m = 0%nat -> o_in_use o = true /\ o_dying o = true).

Lemma outlived_step g n o o' : slot_step o o' -> outlived g n o -> outlived g (S n) o'.
Proof.
  intros Hs (m & Hm & Hg & Hz). destruct Hs as [o o' Hu Hg' _ _ Hd|o o' Hu Hu' Hd Hc Hg'|o Hu].
  - exists m. split; [lia|]. split; [congruence|]. intros E. destruct (Hz E). rewrite Hu. auto.
  - exists m. split; [lia|]. split.
    + rewrite Hg', Hg. pose proof (gen_after_range g m). by destruct (Z.eqb_spec (gen_after g m) 0); [lia|].
    + intros E. destruct (Hz E). congruence.
  - exists (S m). split; [lia|]. split; [|done]. simpl. by rewrite Hg, gen_after_S.
Qed.

Lemma outlived_run g i n k x y o :
  nsteps step n x y -> shm_inv x.1 x.2 -> objects x.1 !! i = Some o -> outlived g k o ->
  shm_inv y.1 y.2 /\ exists o', objects y.1 !! i = Some o' /\ outlived g (k + n) o'.
Proof.
  intros Hrun. revert k o. induction Hrun as [x|n x y z Hst Hrun IH]; intros k o Hinv Ho Hg.
  { split; [done|]. exists o. by rewrite Nat.add_0_r. }
  pose proof (step_inv x y Hst Hinv) as Hinv'.
  destruct Hst as [c s h ret out s' h' Hok E]. simpl in *.
  pose proof (call_slots c s h ret out s' h' Hinv Hok E) as Hs.
  destruct (Forall2_lookup_l _ _ _ _ _ Hs Ho) as (o' & Ho' & Hst).
  rewrite <- Nat.add_succ_comm. eapply IH; [done|done|]. by eapply outlived_step.
Qed.

(** The slot of a handle after its object was destroyed. *)
Lemma destroyed_slot s h pid hd s1 h1 :
  shm_inv s h -> destroy s h pid hd = Done (Ok tt, s1, h1) ->
  exists slot o, Z.land hd 0xFF = Z.of_nat slot + 1 /\ 1 <= Z.shiftr hd 8 <= GENS /\
    objects s1 !! slot = Some o /\ outlived (Z.shiftr hd 8) 1 o.
Proof.
  intros Hinv E. pose proof Hinv as (Hb & _).
  destruct (destroy_spec s h pid hd Hinv) as (r1 & s1' & h1' & E1 & _ & Hr).
  rewrite E1 in E. simplify_eq. destruct Hr as (slot & o & Hlk & Ho & _ & Hr).
  destruct (lookup_total s hd Hb) as [?|(slot' & o' & E2 & Ho' & Hu & _ & Hg & Hlow)]; [congruence|].
  rewrite Hlk in E2. injection E2 as <-. rewrite Ho in Ho'. injection Ho' as <-.
  assert (Hok : obj_ok o) by exact (Forall_lookup_1 _ _ _ _ (b_obj s Hb) Ho).
  destruct (ok_used o Hok Hu) as [Hg1 _]. pose proof (ok_gen o Hok) as Hg2. rewrite Hg in *.
  assert (Hr8 : 1 <= Z.shiftr hd 8 <= GENS) by (unfold GENS; lia).
  assert (Hlt : (slot < length (objects s))%nat) by by eapply lookup_lt_Some.
  exists slot. destruct (o_map_count o =? 0).
  - destruct Hr as [row' ->]. eexists. do 2 (split; [done|]). split.
    { simpl. rewrite list_insert_insert_eq. by apply list_lookup_insert_eq. }
    exists 1%nat. split; [done|]. split; [|done]. simpl. rewrite Hg, <- gen_after_S.
    by rewrite gen_after_0.
  - destruct Hr as [-> _]. eexists. do 2 (split; [done|]). split; [by apply list_lookup_insert_eq|].
    exists 0%nat. split; [lia|]. split; [|done]. simpl. by rewrite Hg, gen_after_0.
Qed.

(** A destroyed object's handle stays dead: after a successful [destroy], the
    handle is rejected with [EBADF] in every state the next 2^24 - 3 calls lead to,
    whatever they are, although its slot may have been reused meanwhile. *)
Theorem shm_dead_handle s h pid hd out s1 h1 n s2 h2 :
  reachable (s, h) -> run_call (SysDestroy pid hd) s h = Done (0, out, s1, h1) ->
  nsteps step n (s1, h1) (s2, h2) -> Z.of_nat n + 1 < GENS ->
  Shm_lookup s2 hd = Done (Err EBADF).
Proof.
  intros Hinv%reachable_inv E Hrun Hn. simpl in Hinv, E.
  destruct (destroy_spec s h pid hd Hinv) as (r & s1' & h1' & E1 & Hinv1 & Hr).
  rewrite E1 in E. simplify_eq/=.
  destruct r as [[]|e]; [clear Hr|destruct Hr as [He _]; simpl in *; lia].
  destruct (destroyed_slot s h pid hd s1 h1 Hinv E1) as (slot & o & Hlow & Hg & Ho & Hout).
  destruct (outlived_run _ slot n 1 _ _ o Hrun Hinv1 Ho Hout) as [(Hb2 & _) (o2 & Ho2 & m & Hm & Hg2 & Hz)].
  eapply lookup_dead; [done|done|done|]. right. destruct m as [|m].
  - left. by apply Hz.
  - right. rewrite Hg2. apply gen_after_ne; [done|lia].
Qed.
End Runs.

(** * Shared memory: the properties at work

    Runs of the model on the reference kernel of [ShmHal], evaluated; each property
    of the shared-memory files is applied to a state such a run reaches. *)

(** ** Running a list of calls *)

Definition call_okb (s : Shm) (c : call) : bool :=
  match c with
  | SysCreate _ size _ => (0 <=? size) && (size <? 0x100000000)
  | SysFork parent child =>
      negb (parent =? child) && (countb (of_pid child) (maps s) =? 0)%nat
  | _ => true
  end.

Lemma call_okb_ok s c : call_okb s c = true -> call_ok s c.
Proof.
  destruct c; simpl; try done.
  - unfold is_u32. lia.
  - intros Hc. split; [lia|]. intros j r Hj. destruct (of_pid child r) eqn:E; [|done].
    pose proof (countb_pos _ _ _ _ Hj E). lia.
Qed.

Fixpoint exec (cs : list call) (s : Shm) (h : Mmu) : outcome (Shm * Mmu) :=
  match cs with
  | [] => Done (s, h)
  | c :: cs' =>
      if call_okb s c then '(_, _, s, h) ← run_call c s h; exec cs' s h else Panic
  end.

Lemma exec_steps cs s h s' h' : exec cs s h = Done (s', h') -> rtc step (s, h) (s', h').
Proof.
  revert s h. induction cs as [|c cs IH]; intros s h E; simpl in E.
  { injection E as <- <-. apply rtc_refl. }
  destruct (call_okb s c) eqn:Hok; [|done].
  apply bind_Done in E as ([[[ret out] s1] h1] & E1 & E).
  eapply rtc_l; [|by apply IH]. eapply step_call; [by apply call_okb_ok|done].
Qed.

Lemma boot_new n : boot (Shm_new, Mmu_new n).
Proof. split; [done|]. split; [intros f Hf; simpl in *; set_solver|]. done. Qed.

(** The answer to [c] after the calls [cs]. *)
Definition answer (n : nat) (cs : list call) (c : call) : option (Z * list Z) :=
  match exec cs Shm_new (Mmu_new n) with
  | Done (s, h) =>
      if call_okb s c then
        match run_call c s h with
        | Done (ret, out, _, _) => Some (ret, out)
        | Panic => None
        end
      else None
  | Panic => None
  end.

Lemma scenario n cs c ret out :
  answer n cs c = Some (ret, out) ->
  exists s h s' h', reachable (s, h) /\ call_ok s c /\ run_call c s h = Done (ret, out, s', h').
Proof.
  unfold answer. destruct (exec cs Shm_new (Mmu_new n)) as [[s h]|] eqn:E; [|done].
  destruct (call_okb s c) eqn:Hok; [|done].
  destruct (run_call c s h) as [[[[ret1 out1] s'] h']|] eqn:E1; [|done].
  intros [= -> ->]. exists s, h, s', h'. split; [|split; [by apply call_okb_ok|done]].
  exists (Shm_new, Mmu_new n). split; [apply boot_new|by eapply exec_steps].
Qed.

(** The first handle handed out: generation 1, slot 0. *)
Definition HANDLE : Z := 257.

(** ** Witnesses *)

Lemma shm_map_correct_witness :
  exists s h s' h', reachable (s, h) /\
    run_call (SysMap 2 HANDLE 1) s h = Done (0, [0x68000000; 8192], s', h') /\
    fits s 2 (3 * PAGE_SIZE) 0x68000000 /\ exists f, pt h' 2 0x68001000 = Some (f, false).
Proof.
  destruct (scenario 4 [SysCreate 1 5000 0; SysGrant 1 HANDLE 2 1] (SysMap 2 HANDLE 1) 0 [0x68000000; 8192])
    as (s & h & s' & h' & Hr & _ & E); [vm_compute; reflexivity|].
  exists s, h, s', h'. split; [done|]. split; [done|].
  destruct (shm_map_correct s h 2 HANDLE 1 0x68000000 8192 s' h' Hr E)
    as (slot & o & row & _ & _ & _ & _ & _ & Hb & Hfit & _ & Hk & _).
  assert (Hp : o_pages o = 2) by (unfold PAGE_SIZE in Hb; lia). rewrite Hp in *.
  split; [done|]. destruct (Hk 1%nat ltac:(lia)) as (f & _ & Hpt). by exists f.
Defined.

Lemma shm_create_correct_witness :
  exists s h s' h', reachable (s, h) /\
    run_call (SysCreate 1 5000 0) s h = Done (0, [HANDLE; 8192], s', h') /\
    Shm_lookup s' HANDLE = Done (Ok 0%nat).
Proof.
  destruct (scenario 4 [] (SysCreate 1 5000 0) 0 [HANDLE; 8192])
    as (s & h & s' & h' & Hr & _ & E); [vm_compute; reflexivity|].
  exists s, h, s', h'. split; [done|]. split; [done|].
  destruct (shm_create_correct s h 1 5000 0 HANDLE 8192 s' h' Hr ltac:(done) E)
    as (slot & o & row & _ & Hl & _).
  destruct (lookup_total s' HANDLE) as [Hbad|(slot' & o' & Hl' & _ & _ & _ & _ & Hlow)].
  - by destruct (step_inv _ _ (step_call (SysCreate 1 5000 0) s h _ _ s' h' ltac:(done) E)
      (reachable_inv _ Hr)).
  - congruence.
  - rewrite Hl' in *. replace slot' with 0%nat by (change (Z.land HANDLE 255) with 1 in Hlow; lia). done.
Defined.

Lemma shm_destroy_correct_witness :
  exists s h s' h', reachable (s, h) /\
    run_call (SysDestroy 1 HANDLE) s h = Done (0, [], s', h') /\
    Shm_lookup s' HANDLE = Done (Err EBADF).
Proof.
  destruct (scenario 4 [SysCreate 1 5000 0; SysMap 1 HANDLE 3] (SysDestroy 1 HANDLE) 0 [])
    as (s & h & s' & h' & Hr & _ & E); [vm_compute; reflexivity|].
  exists s, h, s', h'. split; [done|]. split; [done|].
  by destruct (shm_destroy_correct s h 1 HANDLE [] s' h' Hr E).
Defined.

Lemma shm_unmap_correct_witness :
  exists s h s' h', reachable (s, h) /\
    run_call (SysUnmap 1 0x68000000) s h = Done (0, [], s', h') /\
    exists r, r ∈ maps s /\ at_addr 1 0x68000000 r = true.
Proof.
  destruct (scenario 4 [SysCreate 1 5000 0; SysMap 1 HANDLE 3; SysDestroy 1 HANDLE]
    (SysUnmap 1 0x68000000) 0 []) as (s & h & s' & h' & Hr & _ & E); [vm_compute; reflexivity|].
  exists s, h, s', h'. split; [done|]. split; [done|].
  destruct (shm_unmap_correct s h 1 0x68000000 [] s' h' Hr E) as (r & o & Hin & Hat & _).
  by exists r.
Defined.

Lemma shm_exit_cleans_witness :
  exists s h s' h', reachable (s, h) /\
    run_call (SysExit 1) s h = Done (0, [], s', h') /\ forall v, pt h' 1 v = None.
Proof.
  destruct (scenario 4 [SysCreate 1 5000 0; SysGrant 1 HANDLE 2 3; SysMap 1 HANDLE 3; SysMap 2 HANDLE 3]
    (SysExit 1) 0 []) as (s & h & s' & h' & Hr & _ & E); [vm_compute; reflexivity|].
  exists s, h, s', h'. split; [done|]. split; [done|].
  by destruct (shm_exit_cleans s h 1 0 [] s' h' Hr E) as (_ & Hpt & _).
Defined.

Lemma shm_fork_correct_witness :
  exists s h s' h', reachable (s, h) /\
    run_call (SysFork 1 3) s h = Done (0, [], s', h') /\ forall v, pt h' 3 v = pt h 1 v.
Proof.
  destruct (scenario 4 [SysCreate 1 5000 0; SysMap 1 HANDLE 3] (SysFork 1 3) 0 [])
    as (s & h & s' & h' & Hr & Hok & E); [vm_compute; reflexivity|].
  exists s, h, s', h'. split; [done|]. split; [done|].
  by destruct (shm_fork_correct s h 1 3 0 [] s' h' Hr Hok E) as [(Hpt & _) _].
Defined.

Lemma shm_failure_is_noop_witness :
  exists s h s' h', reachable (s, h) /\
    run_call (SysMap 2 HANDLE 1) s h = Done (- EACCES, [], s', h') /\ unchanged s h s' h'.
Proof.
  destruct (scenario 4 [SysCreate 1 5000 0; SysMap 1 HANDLE 3] (SysMap 2 HANDLE 1) (- EACCES) [])
    as (s & h & s' & h' & Hr & Hok & E); [vm_compute; reflexivity|].
  exists s, h, s', h'. split; [done|]. split; [done|].
  by destruct (shm_failure_is_noop (SysMap 2 HANDLE 1) s h (- EACCES) [] s' h' Hr Hok E ltac:(done)).
Defined.

Lemma shm_slot_life_witness :
  exists s h s' h', reachable (s, h) /\
    run_call (SysDestroy 1 HANDLE) s h = Done (0, [], s', h') /\
    Forall2 slot_step (objects s) (objects s').
Proof.
  destruct (scenario 4 [SysCreate 1 5000 0] (SysDestroy 1 HANDLE) 0 [])
    as (s & h & s' & h' & Hr & Hok & E); [vm_compute; reflexivity|].
  exists s, h, s', h'. split; [done|]. split; [done|].
  exact (shm_slot_life (SysDestroy 1 HANDLE) s h 0 [] s' h' Hr Hok E).
Defined.

(** The slot is reused by the next [create], and the old handle is still dead. *)
Lemma shm_dead_handle_witness :
  exists s h s1 h1 s2 h2, reachable (s, h) /\
    run_call (SysDestroy 1 HANDLE) s h = Done (0, [], s1, h1) /\
    nsteps step 1 (s1, h1) (s2, h2) /\ Shm_lookup s2 HANDLE = Done (Err EBADF).
Proof.
  destruct (scenario 4 [SysCreate 1 5000 0] (SysDestroy 1 HANDLE) 0 [])
    as (s & h & s1 & h1 & Hr & Hok & E); [vm_compute; reflexivity|].
  pose proof (step_inv _ _ (step_call (SysDestroy 1 HANDLE) s h _ _ s1 h1 Hok E) (reachable_inv _ Hr))
    as Hinv.
  destruct (call_inv (SysCreate 1 100 0) s1 h1 Hinv ltac:(done)) as (ret & out & s2 & h2 & E2 & _).
  assert (Hn : nsteps step 1 (s1, h1) (s2, h2))
    by (apply nsteps_once; by eapply (step_call (SysCreate 1 100 0))).
  exists s, h, s1, h1, s2, h2. split; [done|]. split; [done|]. split; [done|].
  apply (shm_dead_handle s h 1 HANDLE [] s1 h1 1 s2 h2 Hr E Hn). done.
Defined.

Lemma shm_first_fit_witness :
  exists s h, reachable (s, h) /\
    exists g, find_gap s 1 3 SHM_VIRT_BASE SHM_VIRT_END = Done g.
Proof.
  destruct (scenario 4 [SysCreate 1 5000 0; SysMap 1 HANDLE 3] (SysInfo 1 HANDLE) 0 [8192; 1; 1; 3])
    as (s & h & s' & h' & Hr & _); [vm_compute; reflexivity|].
  exists s, h. split; [done|].
  destruct (shm_first_fit s h 1 3 Hr) as (g & E & _); [done|]. by exists g.
Defined.

Lemma shm_safe_witness :
  exists s h, reachable (s, h) /\ rust_shm_selftest s = Done (0, stats s).
Proof.
  destruct (scenario 4 [SysCreate 1 5000 0; SysMap 1 HANDLE 3; SysFork 1 3; SysDestroy 1 HANDLE]
    (SysInfo 1 HANDLE) (- EBADF) []) as (s & h & s' & h' & Hr & _); [vm_compute; reflexivity|].
  exists s, h. split; [done|]. by destruct (shm_safe s h Hr) as (_ & Ht & _).
Defined.

(** The entry of a process after the calls [cs]. *)
Definition entry (n : nat) (cs : list call) (p v : Z) : option (Z * bool) :=
  match exec cs Shm_new (Mmu_new n) with
  | Done (_, h) => pt h p v
  | Panic => None
  end.

Lemma shm_isolation_witness :
  exists s h f, reachable (s, h) /\ pt h 1 0x68000000 = Some (f, true) /\
    pt h 2 0x68000000 = Some (f, false) /\
    exists slot k, views s 1 0x68000000 true slot k /\ views s 2 0x68000000 false slot k.
Proof.
  pose (cs := [SysCreate 1 5000 0; SysGrant 1 HANDLE 2 1; SysMap 1 HANDLE 3; SysMap 2 HANDLE 1]).
  assert (E1 : entry 4 cs 1 0x68000000 = Some (0x00100000, true)) by (vm_compute; reflexivity).
  assert (E2 : entry 4 cs 2 0x68000000 = Some (0x00100000, false)) by (vm_compute; reflexivity).
  unfold entry in E1, E2. destruct (exec cs Shm_new (Mmu_new 4)) as [[s h]|] eqn:E; [|done].
  assert (Hr : reachable (s, h))
    by (exists (Shm_new, Mmu_new 4); split; [apply boot_new|by eapply exec_steps]).
  exists s, h, 0x00100000. split; [done|]. split; [done|]. split; [done|].
  destruct (shm_isolation s h 1 0x68000000 true 2 0x68000000 false 0x00100000 Hr E1 E2)
    as (slot & o & k & _ & _ & _ & Hv1 & Hv2). exists slot, k. exact (conj Hv1 Hv2).
Defined.
