(* ===== verification/Tcp.v ===== *)
(** * TCP ([src/kernel/rust/tcp.rs])

    The table of connections is a list, its [POLL_CURSOR] beside it. A connection's fields
    are grouped by what they belong to: address, sending, receiving, timers, closing,
    listening. What a call hands to [ip_send] is a list of segments with their destination,
    and [timer_get_ticks] is an argument, one for each time a call reads the clock. The two
    calls that wait by yielding are given as what they do before each wait. *)

From S2P Require Import Prelude Bytes.
Local Open Scope Z_scope.
Local Open Scope machine_scope.

Definition MAX_TCP_CONNS : nat := 8.
Definition MAX_BACKLOG : nat := 4.
Definition TCP_MSS : nat := 536.
Definition SEND_BUF_CAP : nat := 2048.
Definition RECV_BUF_CAP : nat := 2048.
Definition BASE_RTO_TICKS : Z := 100.
Definition MAX_RTO_TICKS : Z := 800.
Definition MAX_RETRIES : Z := 6.
Definition TIME_WAIT_TICKS : Z := 200.
Definition TCP_FLAG_FIN : Z := 0x01.
Definition TCP_FLAG_SYN : Z := 0x02.
Definition TCP_FLAG_RST : Z := 0x04.
Definition TCP_FLAG_PSH : Z := 0x08.
Definition TCP_FLAG_ACK : Z := 0x10.
Definition NET_OUR_IP : Z := 0x0A00020F.
Definition IP_PROTO_TCP : Z := 6.

(** [x as i32]. *)
Definition as_i32 (x : Z) : Z := if x <? 2147483648 then x else x - 4294967296.

Definition seq_ge (a b : Z) : bool := 0 <=? as_i32 (a -₃₂ b).
Definition seq_gt (a b : Z) : bool := 0 <? as_i32 (a -₃₂ b).

Inductive TcpState : Type :=
| Closed
| Listen
| SynSent
| SynReceived
| Established
| FinWait1
| FinWait2
| CloseWait
| Closing
| LastAck
| TimeWait.

#[export] Instance TcpState_eq_dec : EqDecision TcpState.
Proof. solve_decision. Defined.

Definition is_state (a b : TcpState) : bool := bool_decide (a = b).

(** ** Connections *)

Record Addr : Type := mkAddr {
  local_port : Z;
  remote_ip : Z;
  remote_port : Z;
}.

Record Send : Type := mkSend {
  send_unacked : Z;
  sent_count : nat;
  send_buf : list Z;
  send_head : nat;
  send_buffered : nat;
}.

Record Recv : Type := mkRecv {
  recv_next : Z;
  recv_buf : list Z;
  recv_head : nat;
  recv_len : nat;
}.

Record Timers : Type := mkTimers {
  rto_deadline : Z;
  rto_ticks : Z;
  retrans_count : Z;
  time_wait_deadline : Z;
}.

Record Fins : Type := mkFins {
  fin_needed : bool;
  fin_sent : bool;
  fin_seq : Z;
  peer_fin_received : bool;
}.

Record TcpConn : Type := mkConn {
  in_use : bool;
  is_listener : bool;
  state : TcpState;
  addr : Addr;
  listener_id : Z;
  tx : Send;
  rx : Recv;
  timers : Timers;
  fins : Fins;
  backlog : list Z;
  backlog_len : nat;
}.

Definition TcpConn_new : TcpConn :=
  mkConn false false Closed (mkAddr 0 0 0) (-1) (mkSend 0 0 (replicate SEND_BUF_CAP 0) 0 0)
    (mkRecv 0 (replicate RECV_BUF_CAP 0) 0 0) (mkTimers 0 BASE_RTO_TICKS 0 0) (mkFins false false 0 false)
    (replicate MAX_BACKLOG (-1)) 0.

(** Assignments. *)
Definition set_in_use (b : bool) (c : TcpConn) : TcpConn :=
  mkConn b (is_listener c) (state c) (addr c) (listener_id c) (tx c) (rx c) (timers c) (fins c) (backlog c) (backlog_len c).
Definition set_listener (b : bool) (c : TcpConn) : TcpConn :=
  mkConn (in_use c) b (state c) (addr c) (listener_id c) (tx c) (rx c) (timers c) (fins c) (backlog c) (backlog_len c).
Definition set_state (s : TcpState) (c : TcpConn) : TcpConn :=
  mkConn (in_use c) (is_listener c) s (addr c) (listener_id c) (tx c) (rx c) (timers c) (fins c) (backlog c) (backlog_len c).
Definition set_addr (a : Addr) (c : TcpConn) : TcpConn :=
  mkConn (in_use c) (is_listener c) (state c) a (listener_id c) (tx c) (rx c) (timers c) (fins c) (backlog c) (backlog_len c).
Definition set_tx (x : Send) (c : TcpConn) : TcpConn :=
  mkConn (in_use c) (is_listener c) (state c) (addr c) (listener_id c) x (rx c) (timers c) (fins c) (backlog c) (backlog_len c).
Definition set_rx (x : Recv) (c : TcpConn) : TcpConn :=
  mkConn (in_use c) (is_listener c) (state c) (addr c) (listener_id c) (tx c) x (timers c) (fins c) (backlog c) (backlog_len c).
Definition set_timers (x : Timers) (c : TcpConn) : TcpConn :=
  mkConn (in_use c) (is_listener c) (state c) (addr c) (listener_id c) (tx c) (rx c) x (fins c) (backlog c) (backlog_len c).
Definition set_fins (x : Fins) (c : TcpConn) : TcpConn :=
  mkConn (in_use c) (is_listener c) (state c) (addr c) (listener_id c) (tx c) (rx c) (timers c) x (backlog c) (backlog_len c).
Definition set_backlog (b : list Z) (n : nat) (c : TcpConn) : TcpConn :=
  mkConn (in_use c) (is_listener c) (state c) (addr c) (listener_id c) (tx c) (rx c) (timers c) (fins c) b n.

(** Retransmission starts over: [rto_ticks], [retrans_count] and [rto_deadline]. *)
Definition fresh_timer (deadline : Z) (t : Timers) : Timers := mkTimers deadline BASE_RTO_TICKS 0 (time_wait_deadline t).
Definition set_deadline (deadline : Z) (t : Timers) : Timers :=
  mkTimers deadline (rto_ticks t) (retrans_count t) (time_wait_deadline t).
Definition set_time_wait (deadline : Z) (t : Timers) : Timers :=
  mkTimers (rto_deadline t) (rto_ticks t) (retrans_count t) deadline.
(** One more retransmission, with the timeout doubled. *)
Definition back_off (deadline : Z -> Z) (t : Timers) : Timers :=
  let ticks := Z.min (rto_ticks t *₃₂ 2) MAX_RTO_TICKS in
  mkTimers (deadline ticks) ticks (wrap8 (retrans_count t + 1)) (time_wait_deadline t).

(** ** Ring buffers *)

(** [for i in 0..n { buf[(pos + i) % cap] = data[i] }]. *)
Fixpoint fill_loop (cap pos : nat) (data buf : list Z) : outcome (list Z) :=
  match data with
  | [] => Done buf
  | x :: data' => buf ← store buf (pos `mod` cap)%nat x; fill_loop cap (S pos) data' buf
  end.

(** [for i in 0..n { out[i] = buf[(pos + i) % cap] }]. *)
Fixpoint copy_loop (cap n pos : nat) (buf : list Z) : outcome (list Z) :=
  match n with
  | O => Done []
  | S n' => x ← index buf (pos `mod` cap)%nat; out ← copy_loop cap n' (S pos) buf; Done (x :: out)
  end.

Definition send_buf_write (data : list Z) (s : Send) : outcome (nat * Send) :=
  let space := (SEND_BUF_CAP - send_buffered s)%nat in
  let n := (space `min` length data)%nat in
  buf ← fill_loop SEND_BUF_CAP (send_head s + send_buffered s) (take n data) (send_buf s);
  Done (n, mkSend (send_unacked s) (sent_count s) buf (send_head s) (send_buffered s + n)).

Definition send_buf_peek (offset room : nat) (s : Send) : outcome (list Z) :=
  let avail := (send_buffered s - offset)%nat in
  copy_loop SEND_BUF_CAP (avail `min` room) (send_head s + offset) (send_buf s).

Definition send_buf_consume (n : nat) (s : Send) : Send :=
  let n := (n `min` send_buffered s)%nat in
  mkSend (send_unacked s) (if n <? sent_count s then sent_count s - n else 0)%nat (send_buf s)
    ((send_head s + n) `mod` SEND_BUF_CAP) (send_buffered s - n).

Definition recv_buf_write (data : list Z) (r : Recv) : outcome (nat * Recv) :=
  let space := (RECV_BUF_CAP - recv_len r)%nat in
  let n := (space `min` length data)%nat in
  buf ← fill_loop RECV_BUF_CAP (recv_head r + recv_len r) (take n data) (recv_buf r);
  Done (n, mkRecv (recv_next r) buf (recv_head r) (recv_len r + n)).

Definition recv_buf_read (room : nat) (r : Recv) : outcome (list Z * Recv) :=
  let n := (recv_len r `min` room)%nat in
  out ← copy_loop RECV_BUF_CAP n (recv_head r) (recv_buf r);
  Done (out, mkRecv (recv_next r) (recv_buf r) ((recv_head r + n) `mod` RECV_BUF_CAP) (recv_len r - n)).

Definition advertised_window (c : TcpConn) : Z := Z.of_nat (RECV_BUF_CAP - recv_len (rx c)).

Record Tcp : Type := mkTcp {
  conns : list TcpConn;
  poll_cursor : nat;
}.

Definition CONNS : Tcp := mkTcp (replicate MAX_TCP_CONNS TcpConn_new) 0.

(** [conns[idx].field = ...], for some fields. *)
Definition modify (idx : nat) (f : TcpConn -> TcpConn) (cs : list TcpConn) : outcome (list TcpConn) :=
  c ← index cs idx; store cs idx (f c).

(** ** Segments *)

(** [net_checksum16] of [kernel/net/net.c]: the sum of the big-endian words, a last odd
    byte being the upper half of a word, then the carries folded in. *)
Fixpoint sum_loop (bytes : list Z) (sum : Z) : Z :=
  match bytes with
  | hi :: lo :: rest => sum_loop rest (sum +₃₂ wrap16 (Z.lor (Z.shiftl hi 8) lo))
  | [hi] => sum +₃₂ wrap16 (Z.shiftl hi 8)
  | [] => sum
  end.

Fixpoint fold_carries (fuel : nat) (sum : Z) : Z :=
  match fuel with
  | O => sum
  | S fuel =>
      if Z.shiftr sum 16 =? 0 then sum
      else fold_carries fuel (Z.land sum 0xFFFF +₃₂ Z.shiftr sum 16)
  end.

Definition net_checksum16 (data : list Z) : Z := wrap16 (Z.lnot (fold_carries 3 (sum_loop data 0))).

(** The first 20 bytes of a segment. *)
Definition header (local_port remote_port seq ack flags window checksum : Z) : list Z :=
  be_bytes 2 local_port ++ be_bytes 2 remote_port ++ be_bytes 4 seq ++ be_bytes 4 ack ++
  [Z.shiftl 5 4; flags] ++ be_bytes 2 window ++ be_bytes 2 checksum ++ be_bytes 2 0.

(** What goes before a segment when its checksum is computed. *)
Definition pseudo_header (remote_ip : Z) (total : nat) : list Z :=
  be_bytes 4 NET_OUR_IP ++ be_bytes 4 remote_ip ++ [0; IP_PROTO_TCP] ++ be_bytes 2 (wrap16 (Z.of_nat total)).

(** The destination and the bytes that [ip_send] is given; no caller looks at its answer. *)
Definition send_segment (remote_ip local_port remote_port seq ack flags window : Z) (data : list Z) : Z * list Z :=
  let data := take TCP_MSS data in
  let total := (20 + length data)%nat in
  let checksum :=
    net_checksum16 (pseudo_header remote_ip total ++
                    header local_port remote_port seq ack flags window 0 ++ data) in
  (remote_ip, header local_port remote_port seq ack flags window checksum ++ data).

(** A segment of a connection. *)
Definition segment_of (c : TcpConn) (seq ack flags : Z) (data : list Z) : Z * list Z :=
  send_segment (remote_ip (addr c)) (local_port (addr c)) (remote_port (addr c)) seq ack flags
    (advertised_window c) data.

Definition send_syn (idx : nat) (cs : list TcpConn) : outcome (Z * list Z) :=
  c ← index cs idx; Done (segment_of c (send_unacked (tx c)) 0 TCP_FLAG_SYN []).

Definition send_syn_ack (idx : nat) (cs : list TcpConn) : outcome (Z * list Z) :=
  c ← index cs idx;
  Done (segment_of c (send_unacked (tx c)) (recv_next (rx c)) (Z.lor TCP_FLAG_SYN TCP_FLAG_ACK) []).

Definition send_ack_only (idx : nat) (cs : list TcpConn) : outcome (Z * list Z) :=
  c ← index cs idx;
  Done (segment_of c (send_unacked (tx c) +₃₂ Z.of_nat (sent_count (tx c))) (recv_next (rx c)) TCP_FLAG_ACK []).

(** ** Calls on sockets *)

Definition bad_id (id : Z) : bool := (id <? 0) || (MAX_TCP_CONNS <=? Z.to_nat id)%nat.

Definition rust_tcp_socket (cs : list TcpConn) : Z * list TcpConn :=
  match position (fun c => negb (in_use c)) cs with
  | Some i => (Z.of_nat i, <[i := set_in_use true TcpConn_new]> cs)
  | None => (-1, cs)
  end.

Definition port_taken (port : Z) (c : TcpConn) : bool := in_use c && (local_port (addr c) =? port).

(** The search for a free port. A socket holds one port at most, so one more candidate than
    there are sockets is enough; [Panic] stands for a search that would go on. *)
Fixpoint pick_port (fuel : nat) (candidate : Z) (cs : list TcpConn) : outcome Z :=
  match fuel with
  | O => Panic
  | S fuel =>
      if existsb (port_taken candidate) cs
      then pick_port fuel (if candidate =? 65535 then 49152 else wrap16 (candidate + 1)) cs
      else Done candidate
  end.

Definition set_port (port : Z) (c : TcpConn) : TcpConn :=
  set_addr (mkAddr port (remote_ip (addr c)) (remote_port (addr c))) c.

(** [conns[i]] for some [i != idx]. *)
Definition taken_by_other (idx : nat) (port : Z) (cs : list TcpConn) : bool :=
  existsb (fun '(i, c) => negb (i =? idx)%nat && port_taken port c) (imap pair cs).

Definition rust_tcp_bind (id port : Z) (cs : list TcpConn) : outcome (Z * list TcpConn) :=
  if bad_id id then Done (-1, cs)
  else
    let idx := Z.to_nat id in
    c ← index cs idx;
    if negb (in_use c) || negb (is_state (state c) Closed) || negb (local_port (addr c) =? 0) then Done (-1, cs)
    else if negb (port =? 0) then
      if taken_by_other idx port cs then Done (-1, cs)
      else cs ← modify idx (set_port port) cs; Done (0, cs)
    else
      candidate ← pick_port (S MAX_TCP_CONNS) 49152 cs;
      cs ← modify idx (set_port candidate) cs;
      Done (0, cs).

(** The argument [backlog] of the call is not used. *)
Definition rust_tcp_listen (id : Z) (cs : list TcpConn) : outcome (Z * list TcpConn) :=
  if bad_id id then Done (-1, cs)
  else
    let idx := Z.to_nat id in
    c ← index cs idx;
    if negb (in_use c) || negb (is_state (state c) Closed) || (local_port (addr c) =? 0) then Done (-1, cs)
    else
      cs ← modify idx (fun c => set_backlog (replicate MAX_BACKLOG (-1)) 0 (set_state Listen (set_listener true c))) cs;
      Done (0, cs).

(** [for i in 1..MAX_BACKLOG { backlog[i - 1] = backlog[i] }]. *)
Fixpoint shift_loop (n i : nat) (b : list Z) : outcome (list Z) :=
  match n with
  | O => Done b
  | S n' => x ← index b i; b ← store b (i - 1) x; shift_loop n' (S i) b
  end.

(** One turn of the loop of [rust_tcp_accept]: what it returns, or [None] before it
    yields. *)
Definition accept_turn (idx : nat) (cs : list TcpConn) : outcome (option Z * list TcpConn) :=
  c ← index cs idx;
  if negb (in_use c) || negb (is_listener c) || negb (is_state (state c) Listen) then Done (Some (-1), cs)
  else if (0 <? backlog_len c)%nat then
    popped ← index (backlog c) 0;
    b ← shift_loop (MAX_BACKLOG - 1) 1 (backlog c);
    b ← store b (MAX_BACKLOG - 1) (-1);
    cs ← modify idx (set_backlog b (backlog_len c - 1)) cs;
    Done (Some popped, cs)
  else Done (None, cs).

Definition rust_tcp_accept (id : Z) (cs : list TcpConn) : outcome (option Z * list TcpConn) :=
  if bad_id id then Done (Some (-1), cs) else accept_turn (Z.to_nat id) cs.

Definition rust_tcp_accept_nonblock (id : Z) (cs : list TcpConn) : outcome (Z * list TcpConn) :=
  '(r, cs) ← rust_tcp_accept id cs;
  Done (default (-2) r, cs).

(** What [rust_tcp_connect] writes to the connection. *)
Definition start_connect (ip port isn deadline : Z) (c : TcpConn) : TcpConn :=
  set_timers (fresh_timer deadline (timers c))
    (set_state SynSent
      (set_rx (mkRecv 0 (recv_buf (rx c)) (recv_head (rx c)) (recv_len (rx c)))
        (set_tx (mkSend isn 0 (send_buf (tx c)) 0 0)
          (set_addr (mkAddr (local_port (addr c)) ip port) c)))).

(** [rust_tcp_connect] up to its loop, with the three times it reads the clock: the
    deadline of the loop, or [None] where the call returns -1. *)
Definition connect_start (id ip port : Z) (now1 now2 now3 : Z) (cs : list TcpConn) :
    outcome (option Z * list (Z * list Z) * list TcpConn) :=
  if bad_id id then Done (None, [], cs)
  else
    let idx := Z.to_nat id in
    c ← index cs idx;
    if negb (in_use c) || is_listener c || negb (is_state (state c) Closed) then Done (None, [], cs)
    else
      cs ← (if local_port (addr c) =? 0
            then candidate ← pick_port (S MAX_TCP_CONNS) 49152 cs; modify idx (set_port candidate) cs
            else Done cs);
      cs ← modify idx (start_connect ip port ((now1 *₃₂ 12345) +₃₂ 1) (now2 +₃₂ BASE_RTO_TICKS)) cs;
      seg ← send_syn idx cs;
      Done (Some (now3 +₃₂ 1000), [seg], cs).

(** One turn of the loop: what the call returns, or [None] before it yields. *)
Definition connect_turn (idx : nat) (deadline now : Z) (cs : list TcpConn) : outcome (option Z * list TcpConn) :=
  c ← index cs idx;
  match state c with
  | Established => Done (Some 0, cs)
  | SynSent =>
      if deadline <=? now then cs ← modify idx (set_state Closed) cs; Done (Some (-1), cs)
      else Done (None, cs)
  | _ => Done (Some (-1), cs)
  end.

(** A null buffer is [None]; the bytes behind it are as many as [len] says. *)
Definition rust_tcp_send (id : Z) (data : option (list Z)) (cs : list TcpConn) : outcome (Z * list TcpConn) :=
  match data with
  | None => Done (-1, cs)
  | Some data =>
      if bad_id id then Done (-1, cs)
      else
        let idx := Z.to_nat id in
        c ← index cs idx;
        if negb (in_use c) || is_listener c || fin_needed (fins c) then Done (-1, cs)
        else
          match state c with
          | Established | CloseWait =>
              '(n, s) ← send_buf_write data (tx c);
              cs ← modify idx (set_tx s) cs;
              Done (Z.of_nat n, cs)
          | _ => Done (-1, cs)
          end
  end.

(** The result, the bytes written to the caller's buffer, and the table. *)
Definition rust_tcp_recv (id : Z) (buf_is_null : bool) (max_len : nat) (cs : list TcpConn) :
    outcome (Z * list Z * list TcpConn) :=
  if bad_id id || buf_is_null then Done (-1, [], cs)
  else
    let idx := Z.to_nat id in
    c ← index cs idx;
    if negb (in_use c) || is_listener c then Done (-1, [], cs)
    else if (0 <? recv_len (rx c))%nat then
      '(out, r) ← recv_buf_read max_len (rx c);
      cs ← modify idx (set_rx r) cs;
      Done (Z.of_nat (length out), out, cs)
    else if peer_fin_received (fins c) then Done (0, [], cs)
    else
      match state c with
      | Established | FinWait1 | FinWait2 => Done (-2, [], cs)
      | _ => Done (-1, [], cs)
      end.

(** [for i in 0..backlog_len], freeing the connections that nobody accepted. *)
Fixpoint close_loop (idx n i : nat) (cs : list TcpConn) : outcome (list TcpConn) :=
  match n with
  | O => Done cs
  | S n' =>
      c ← index cs idx;
      bidx ← index (backlog c) i;
      cs ← (if 0 <=? bidx then modify (Z.to_nat bidx) (set_in_use false) cs else Done cs);
      close_loop idx n' (S i) cs
  end.

Definition request_fin (c : TcpConn) : TcpConn :=
  set_fins (mkFins true (fin_sent (fins c)) (fin_seq (fins c)) (peer_fin_received (fins c))) c.

Definition rust_tcp_close (id : Z) (cs : list TcpConn) : outcome (list TcpConn) :=
  if bad_id id then Done cs
  else
    let idx := Z.to_nat id in
    c ← index cs idx;
    if negb (in_use c) then Done cs
    else if is_listener c then
      cs ← close_loop idx (backlog_len c) 0 cs;
      modify idx (set_in_use false) cs
    else
      match state c with
      | Closed | SynSent | SynReceived => modify idx (set_in_use false) cs
      | Established | CloseWait => modify idx request_fin cs
      | _ => Done cs
      end.

(** ** Packets *)

(** [from_be_bytes]. *)
Definition of_be_bytes (l : list Z) : Z := fold_left (fun v b => 256 * v + b) l 0.

Record Segment : Type := mkSegment {
  src_port : Z;
  dst_port : Z;
  seq : Z;
  ack : Z;
  flags : Z;
  payload_bytes : list Z;
}.

(** The fields of a packet; [None] if it is too short or malformed. *)
Definition parse_segment (data : list Z) : outcome (option Segment) :=
  if (length data <? 20)%nat then Done None
  else
    sp ← range data 0 2;
    dp ← range data 2 4;
    sq ← range data 4 8;
    ak ← range data 8 12;
    off ← index data 12;
    fl ← index data 13;
    let data_offset := Z.to_nat (Z.shiftr off 4 * 4) in
    if (data_offset <? 20)%nat || (length data <? data_offset)%nat then Done None
    else
      payload ← range data data_offset (length data);
      Done (Some (mkSegment (of_be_bytes sp) (of_be_bytes dp) (of_be_bytes sq) (of_be_bytes ak) fl payload)).

Definition has (sg : Segment) (flag : Z) : bool := negb (Z.land (flags sg) flag =? 0).

(** Whether a packet belongs to a connection. *)
Definition matches (src_ip : Z) (sg : Segment) (c : TcpConn) : bool :=
  in_use c && negb (is_listener c) && (local_port (addr c) =? dst_port sg) &&
  (remote_port (addr c) =? src_port sg) && (remote_ip (addr c) =? src_ip).

(** The segment to send after the lock is released, if any. *)
Inductive reply : Type :=
| NoReply
| SynAckFor (idx : nat)
| AckFor (idx : nat).

Definition set_una (a : Z) (s : Send) : Send :=
  mkSend a (sent_count s) (send_buf s) (send_head s) (send_buffered s).
Definition set_sent (n : nat) (s : Send) : Send :=
  mkSend (send_unacked s) n (send_buf s) (send_head s) (send_buffered s).
Definition set_next (n : Z) (r : Recv) : Recv := mkRecv n (recv_buf r) (recv_head r) (recv_len r).

(** The end of a handshake, on either side. *)
Definition establish (a : Z) (c : TcpConn) : TcpConn :=
  set_timers (fresh_timer 0 (timers c)) (set_state Established (set_tx (set_sent 0 (set_una a (tx c))) c)).

Definition on_syn_sent (sg : Segment) (c : TcpConn) : option TcpConn :=
  if has sg TCP_FLAG_SYN && has sg TCP_FLAG_ACK && (ack sg =? send_unacked (tx c) +₃₂ 1)
  then Some (establish (ack sg) (set_rx (set_next (seq sg +₃₂ 1) (rx c)) c))
  else None.

(** [conns[lidx]] can take one more connection. *)
Definition has_room (lidx : Z) (cs : list TcpConn) : outcome bool :=
  if 0 <=? lidx
  then l ← index cs (Z.to_nat lidx); Done (in_use l && is_listener l && (backlog_len l <? MAX_BACKLOG)%nat)
  else Done false.

Definition on_syn_received (sg : Segment) (idx : nat) (c : TcpConn) (cs : list TcpConn) : outcome (list TcpConn) :=
  if has sg TCP_FLAG_ACK && (ack sg =? send_unacked (tx c) +₃₂ 1) then
    cs ← store cs idx (establish (ack sg) c);
    let lidx := listener_id c in
    room ← has_room lidx cs;
    if (room : bool) then
      l ← index cs (Z.to_nat lidx);
      b ← store (backlog l) (backlog_len l) (Z.of_nat idx);
      store cs (Z.to_nat lidx) (set_backlog b (S (backlog_len l)) l)
    else modify idx (set_in_use false) cs
  else Done cs.

(** What the acknowledgement of our FIN does. *)
Definition fin_acked (now : Z) (c : TcpConn) : TcpConn :=
  let c := set_state match state c with
                     | FinWait1 => FinWait2
                     | Closing => TimeWait
                     | LastAck => Closed
                     | other => other
                     end c in
  let c := set_timers (set_deadline 0 (timers c)) c in
  match state c with
  | TimeWait => set_timers (set_time_wait (now +₃₂ TIME_WAIT_TICKS) (timers c)) c
  | Closed => set_in_use false c
  | _ => c
  end.

Definition on_ack (now : Z) (sg : Segment) (c : TcpConn) : TcpConn :=
  if has sg TCP_FLAG_ACK && seq_gt (ack sg) (send_unacked (tx c)) then
    let raw := ack sg -₃₂ send_unacked (tx c) in
    let advance := Z.to_nat (Z.min raw (Z.of_nat (send_buffered (tx c)))) in
    let s := set_una (ack sg) (send_buf_consume advance (tx c)) in
    let deadline := if (send_buffered s =? 0)%nat then 0 else rto_deadline (timers c) in
    let c := set_timers (fresh_timer deadline (timers c)) (set_tx s c) in
    if fin_sent (fins c) && seq_ge (ack sg) (fin_seq (fins c) +₃₂ 1) then fin_acked now c else c
  else c.

(** The connection, and whether to acknowledge. *)
Definition on_data (sg : Segment) (c : TcpConn) : outcome (TcpConn * bool) :=
  if in_use c && negb (length (payload_bytes sg) =? 0)%nat && (seq sg =? recv_next (rx c)) then
    '(accepted, r) ← recv_buf_write (payload_bytes sg) (rx c);
    Done (set_rx (set_next (recv_next r +₃₂ Z.of_nat accepted) r) c, (0 <? accepted)%nat)
  else Done (c, false).

Definition on_fin (now : Z) (sg : Segment) (c : TcpConn) : TcpConn * bool :=
  if in_use c && has sg TCP_FLAG_FIN &&
     (seq sg +₃₂ Z.of_nat (length (payload_bytes sg)) =? recv_next (rx c))
  then
    let c := set_rx (set_next (recv_next (rx c) +₃₂ 1) (rx c)) c in
    let c := set_fins (mkFins (fin_needed (fins c)) (fin_sent (fins c)) (fin_seq (fins c)) true) c in
    let c := set_state match state c with
                       | Established => CloseWait
                       | FinWait1 => Closing
                       | FinWait2 => TimeWait
                       | other => other
                       end c in
    (match state c with
     | TimeWait => set_timers (set_time_wait (now +₃₂ TIME_WAIT_TICKS) (timers c)) c
     | _ => c
     end, true)
  else (c, false).

(** Established, or one of the closing states. *)
Definition on_segment (now1 now2 : Z) (sg : Segment) (c : TcpConn) : outcome (TcpConn * bool) :=
  '(c, acked) ← on_data sg (on_ack now1 sg c);
  let '(c, acked') := on_fin now2 sg c in
  Done (c, acked || acked').

Definition on_matched (now1 now2 : Z) (sg : Segment) (idx : nat) (cs : list TcpConn) :
    outcome (reply * list TcpConn) :=
  c ← index cs idx;
  if has sg TCP_FLAG_RST then cs ← store cs idx (set_in_use false c); Done (NoReply, cs)
  else
    match state c with
    | SynSent =>
        match on_syn_sent sg c with
        | Some c => cs ← store cs idx c; Done (AckFor idx, cs)
        | None => Done (NoReply, cs)
        end
    | SynReceived => cs ← on_syn_received sg idx c cs; Done (NoReply, cs)
    | _ =>
        '(c, answer) ← on_segment now1 now2 sg c;
        cs ← store cs idx c;
        Done (if (answer : bool) then AckFor idx else NoReply, cs)
    end.

(** The connection that a SYN opens. *)
Definition spawn (src_ip isn deadline : Z) (listener : nat) (sg : Segment) : TcpConn :=
  let c := TcpConn_new in
  mkConn true (is_listener c) SynReceived (mkAddr (dst_port sg) src_ip (src_port sg)) (Z.of_nat listener)
    (set_una isn (tx c)) (set_next (seq sg +₃₂ 1) (rx c)) (fresh_timer deadline (timers c)) (fins c)
    (backlog c) (backlog_len c).

Definition on_bare_syn (now1 now2 src_ip : Z) (sg : Segment) (cs : list TcpConn) : reply * list TcpConn :=
  match position (fun c => in_use c && is_listener c && is_state (state c) Listen &&
                           (local_port (addr c) =? dst_port sg)) cs with
  | None => (NoReply, cs)
  | Some listener =>
      match position (fun c => negb (in_use c)) cs with
      | None => (NoReply, cs)
      | Some nidx =>
          let isn := (now1 *₃₂ 2654435761) +₃₂ Z.of_nat nidx in
          (SynAckFor nidx, <[nidx := spawn src_ip isn (now2 +₃₂ BASE_RTO_TICKS) listener sg]> cs)
      end
  end.

Definition on_packet (now1 now2 src_ip : Z) (sg : Segment) (cs : list TcpConn) : outcome (reply * list TcpConn) :=
  match position (matches src_ip sg) cs with
  | Some idx => on_matched now1 now2 sg idx cs
  | None =>
      if has sg TCP_FLAG_SYN && negb (has sg TCP_FLAG_ACK)
      then Done (on_bare_syn now1 now2 src_ip sg cs)
      else Done (NoReply, cs)
  end.

Definition send_reply (r : reply) (cs : list TcpConn) : outcome (list (Z * list Z)) :=
  match r with
  | NoReply => Done []
  | SynAckFor idx => seg ← send_syn_ack idx cs; Done [seg]
  | AckFor idx => seg ← send_ack_only idx cs; Done [seg]
  end.

(** No path reads the clock more than twice. *)
Definition rust_tcp_handle_packet (now1 now2 src_ip : Z) (payload : option (list Z)) (cs : list TcpConn) :
    outcome (list (Z * list Z) * list TcpConn) :=
  match payload with
  | None => Done ([], cs)
  | Some data =>
      sg ← parse_segment data;
      match sg with
      | None => Done ([], cs)
      | Some sg =>
          '(r, cs) ← on_packet now1 now2 src_ip sg cs;
          out ← send_reply r cs;
          Done (out, cs)
      end
  end.

(** ** Timers and transmission *)

(** One connection of the first pass: what becomes of it, and whether its SYN or SYN-ACK
    is sent again. *)
Definition expire (now : Z) (c : TcpConn) : TcpConn * bool :=
  if negb (in_use c) then (c, false)
  else
    match state c with
    | TimeWait => (if seq_ge now (time_wait_deadline (timers c)) then set_in_use false c else c, false)
    | SynSent | SynReceived =>
        if negb (rto_deadline (timers c) =? 0) && seq_ge now (rto_deadline (timers c)) then
          if MAX_RETRIES <=? retrans_count (timers c) then (set_in_use false c, false)
          else (set_timers (back_off (fun ticks => now +₃₂ ticks) (timers c)) c, true)
        else (c, false)
    | _ =>
        if (0 <? sent_count (tx c))%nat && negb (rto_deadline (timers c) =? 0) && seq_ge now (rto_deadline (timers c))
        then
          if MAX_RETRIES <=? retrans_count (timers c) then (set_in_use false c, false)
          else (set_timers (back_off (fun _ => 0) (timers c)) (set_tx (set_sent 0 (tx c)) c), false)
        else (c, false)
    end.

(** The pass stops at the first handshake segment to send again. *)
Fixpoint expire_loop (now : Z) (n i : nat) (cs : list TcpConn) : outcome (option nat * list TcpConn) :=
  match n with
  | O => Done (None, cs)
  | S n' =>
      c ← index cs i;
      let '(c, again) := expire now c in
      cs ← store cs i c;
      if (again : bool) then Done (Some i, cs) else expire_loop now n' (S i) cs
  end.

Definition retransmit (i : nat) (cs : list TcpConn) : outcome (Z * list Z) :=
  c ← index cs i;
  if is_state (state c) SynSent then send_syn i cs else send_syn_ack i cs.

Definition active (s : TcpState) : bool :=
  match s with
  | Established | CloseWait | FinWait1 | FinWait2 | Closing | LastAck => true
  | _ => false
  end.

(** What a connection has to send: the segment, and the connection after it. *)
Definition next_segment (now : Z) (c : TcpConn) : outcome (option ((Z * list Z) * TcpConn)) :=
  if negb (in_use c) || is_listener c || negb (active (state c)) then Done None
  else
    let s := tx c in
    let unsent := (send_buffered s - sent_count s)%nat in
    if (0 <? unsent)%nat then
      data ← send_buf_peek (sent_count s) (unsent `min` TCP_MSS) s;
      let seg := segment_of c (send_unacked s +₃₂ Z.of_nat (sent_count s)) (recv_next (rx c))
                   (Z.lor TCP_FLAG_ACK TCP_FLAG_PSH) data in
      let c := set_tx (set_sent (sent_count s + length data) s) c in
      let c := if rto_deadline (timers c) =? 0
               then set_timers (set_deadline (now +₃₂ rto_ticks (timers c)) (timers c)) c else c in
      Done (Some (seg, c))
    else if fin_needed (fins c) && negb (fin_sent (fins c)) && (send_buffered s =? 0)%nat then
      let seg := segment_of c (send_unacked s) (recv_next (rx c)) (Z.lor TCP_FLAG_FIN TCP_FLAG_ACK) [] in
      let c := set_fins (mkFins (fin_needed (fins c)) true (send_unacked s) (peer_fin_received (fins c))) c in
      let c := set_timers (set_deadline (now +₃₂ rto_ticks (timers c)) (timers c)) c in
      let c := set_state match state c with
                         | Established => FinWait1
                         | CloseWait => LastAck
                         | other => other
                         end c in
      Done (Some (seg, c))
    else Done None.

(** The round robin from [start + step] on: at most one segment. *)
Fixpoint send_loop (now : Z) (n start step : nat) (t : Tcp) : outcome (list (Z * list Z) * Tcp) :=
  match n with
  | O => Done ([], t)
  | S n' =>
      let i := ((start + step) `mod` MAX_TCP_CONNS)%nat in
      c ← index (conns t) i;
      next ← next_segment now c;
      match next with
      | Some (seg, c) => cs ← store (conns t) i c; Done ([seg], mkTcp cs (i + 1))
      | None => send_loop now n' start (S step) t
      end
  end.

Definition rust_tcp_poll (now : Z) (t : Tcp) : outcome (list (Z * list Z) * Tcp) :=
  '(again, cs) ← expire_loop now MAX_TCP_CONNS 0 (conns t);
  match again with
  | Some i => seg ← retransmit i cs; Done ([seg], mkTcp cs (poll_cursor t))
  | None => send_loop now MAX_TCP_CONNS (poll_cursor t `mod` MAX_TCP_CONNS) 0 (mkTcp cs (poll_cursor t))
  end.

Definition force_free (idx : nat) (cs : list TcpConn) : outcome (list TcpConn) := modify idx (set_in_use false) cs.

(** ** The self-test at boot *)

Definition PEER_IP : Z := 0x0A000202.
Definition PEER_PORT : Z := 9999.
Definition LISTEN_PORT : Z := 8080.

(** A hand-made segment: the peer's ports, no checksum. *)
Definition test_segment (seq ack flags : Z) (data : list Z) : option (list Z) :=
  Some (header PEER_PORT LISTEN_PORT seq ack flags 1024 0 ++ data).

(** The checks after the handshake. [None] if [rust_tcp_accept] waits. *)
Definition selftest_stream (clock : nat -> Z) (listener : Z) (synrecv_idx : nat) (server_isn code : Z)
    (cs : list TcpConn) : outcome (option Z * list TcpConn) :=
  '(popped, cs) ← rust_tcp_accept listener cs;
  match popped with
  | None => Done (None, cs)
  | Some accepted =>
      let code := if negb (accepted =? Z.of_nat synrecv_idx) then Z.lor code 8 else code in
      '(_, cs) ← rust_tcp_handle_packet (clock 4%nat) (clock 5%nat) PEER_IP
                   (test_segment (1000 +₃₂ 1) (server_isn +₃₂ 1) (Z.lor TCP_FLAG_ACK TCP_FLAG_PSH) (str "HI")) cs;
      '(n, recv_out, cs) ← rust_tcp_recv accepted false 8 cs;
      let code := if negb (n =? 2) || negb (bool_decide (take 2 recv_out = str "HI")) then Z.lor code 16 else code in
      '(sent, cs) ← rust_tcp_send accepted (Some (str "HELLO")) cs;
      let code := if negb (sent =? 5) then Z.lor code 32 else code in
      cs ← (if 0 <=? accepted then force_free (Z.to_nat accepted) cs else Done cs);
      cs ← rust_tcp_close listener cs;
      Done (Some code, cs)
  end.

Definition rust_tcp_selftest (clock : nat -> Z) (cs : list TcpConn) : outcome (option Z * list TcpConn) :=
  let '(listener, cs) := rust_tcp_socket cs in
  '(bound, cs) ← (if 0 <=? listener then rust_tcp_bind listener LISTEN_PORT cs else Done (-1, cs));
  '(listening, cs) ← (if bound =? 0 then rust_tcp_listen listener cs else Done (-1, cs));
  if negb (listening =? 0) then Done (Some 1, cs)
  else
    '(_, cs) ← rust_tcp_handle_packet (clock 0%nat) (clock 1%nat) PEER_IP (test_segment 1000 0 TCP_FLAG_SYN []) cs;
    match position (fun c => in_use c && is_state (state c) SynReceived && (remote_port (addr c) =? PEER_PORT)) cs with
    | None => Done (Some 2, cs)
    | Some synrecv_idx =>
        c ← index cs synrecv_idx;
        let server_isn := send_unacked (tx c) in
        '(_, cs) ← rust_tcp_handle_packet (clock 2%nat) (clock 3%nat) PEER_IP
                     (test_segment (1000 +₃₂ 1) (server_isn +₃₂ 1) TCP_FLAG_ACK []) cs;
        c ← index cs synrecv_idx;
        l ← index cs (Z.to_nat listener);
        let code := if is_state (state c) Established && (backlog_len l =? 1)%nat then 0 else 4 in
        selftest_stream clock listener synrecv_idx server_isn code cs
    end.
