(* ===== verification/TcpSeg.v ===== *)
(** * The buffers of a connection

    The two rings of a connection as the bytes they hold, and the well-formedness of a
    connection that every call keeps. *)

From S2P Require Import Prelude Ring Bytes Tcp.
Local Open Scope Z_scope.
Local Open Scope machine_scope.

(** ** Loops over a ring *)
Section Loops.
Context (cap : nat) (Hcap : (0 < cap)%nat).

Lemma fill_loop_spec data b r n :
  length b = cap -> (n + length data <= cap)%nat ->
  exists b', fill_loop cap (r + n) data b = Done b' /\ length b' = cap /\
    ring cap b' r (n + length data) = ring cap b r n ++ data.
Proof.
  revert b n. induction data as [|x data IH]; intros b n Hb Hn; simpl in *.
  - exists b. by rewrite Nat.add_0_r, app_nil_r.
  - rewrite store_Done by (rewrite Hb; apply Nat.mod_upper_bound; lia). osimpl.
    destruct (IH (<[((r + n) `mod` cap)%nat := x]> b) (S n)) as (b' & Hrun & Hlen & Hring).
    { by rewrite length_insert. }
    { lia. }
    exists b'. rewrite <- Nat.add_succ_r. split; [exact Hrun|]. split; [done|].
    rewrite <- Nat.add_succ_comm, Hring, (ring_push cap Hcap) by (done || lia). by rewrite <- app_assoc.
Qed.

Lemma copy_loop_spec n b r k :
  length b = cap -> copy_loop cap n (r + k) b = Done (drop k (ring cap b r (k + n))).
Proof.
  intros Hb. revert k. induction n as [|n IH]; intros k; simpl.
  - rewrite Nat.add_0_r, drop_ge; [done|]. by rewrite ring_length.
  - destruct (lookup_lt_is_Some_2 b ((r + k) `mod` cap)%nat) as [x Hx].
    { rewrite Hb. apply Nat.mod_upper_bound. lia. }
    oindex Hx. rewrite <- Nat.add_succ_r, IH. osimpl. f_equal.
    replace (k + S n)%nat with (S k + n)%nat by lia.
    symmetry. apply drop_S. unfold ring. rewrite list_lookup_fmap, lookup_seq_lt by lia. simpl.
    f_equal. by apply list_lookup_total_correct.
Qed.
End Loops.

(** ** What the buffers hold *)

Definition unacked (s : Send) : list Z := ring SEND_BUF_CAP (send_buf s) (send_head s) (send_buffered s).
Definition pending (r : Recv) : list Z := ring RECV_BUF_CAP (recv_buf r) (recv_head r) (recv_len r).

Record send_ok (s : Send) : Prop := {
  so_buf : length (send_buf s) = SEND_BUF_CAP;
  so_head : (send_head s < SEND_BUF_CAP)%nat;
  so_buffered : (send_buffered s <= SEND_BUF_CAP)%nat;
  so_sent : (sent_count s <= send_buffered s)%nat;
}.

Record recv_ok (r : Recv) : Prop := {
  ro_buf : length (recv_buf r) = RECV_BUF_CAP;
  ro_head : (recv_head r < RECV_BUF_CAP)%nat;
  ro_len : (recv_len r <= RECV_BUF_CAP)%nat;
}.

Lemma send_cap_pos : (0 < SEND_BUF_CAP)%nat.
Proof. apply Nat.ltb_lt. reflexivity. Qed.
Lemma recv_cap_pos : (0 < RECV_BUF_CAP)%nat.
Proof. apply Nat.ltb_lt. reflexivity. Qed.

#[global] Opaque SEND_BUF_CAP RECV_BUF_CAP.

Lemma unacked_length s : length (unacked s) = send_buffered s.
Proof. apply ring_length. Qed.
Lemma pending_length r : length (pending r) = recv_len r.
Proof. apply ring_length. Qed.

Lemma send_buf_write_spec data s :
  send_ok s ->
  exists n s', send_buf_write data s = Done (n, s') /\ send_ok s' /\
    n = ((SEND_BUF_CAP - send_buffered s) `min` length data)%nat /\
    unacked s' = unacked s ++ take n data /\
    send_unacked s' = send_unacked s /\ sent_count s' = sent_count s.
Proof.
  intros [Hb Hh Hn Hs]. unfold send_buf_write.
  set (n := ((SEND_BUF_CAP - send_buffered s) `min` length data)%nat).
  assert (Hlen : length (take n data) = n) by (rewrite length_take; lia).
  destruct (fill_loop_spec SEND_BUF_CAP send_cap_pos (take n data) (send_buf s) (send_head s)
              (send_buffered s)) as (b & Hrun & Hb' & Hring); [done|lia|].
  rewrite Hrun. osimpl. eexists _, _. split; [reflexivity|]. rewrite Hlen in Hring.
  split; [split; simpl; lia|]. by split.
Qed.

Lemma send_buf_peek_spec offset room s :
  send_ok s -> (offset <= send_buffered s)%nat ->
  send_buf_peek offset room s = Done (take room (drop offset (unacked s))).
Proof.
  intros [Hb Hh Hn Hs] Ho. pose proof send_cap_pos. unfold send_buf_peek, unacked.
  rewrite (copy_loop_spec SEND_BUF_CAP send_cap_pos) by done. f_equal.
  rewrite <- (ring_take _ send_cap_pos (send_buf s) _ (send_buffered s)) by lia.
  rewrite skipn_firstn_comm, Nat.add_comm, Nat.add_sub.
  destruct (decide (room <= send_buffered s - offset)%nat).
  - by rewrite Nat.min_r by lia.
  - rewrite Nat.min_l by lia. rewrite !take_ge; rewrite ?length_drop, ?ring_length; (done || lia).
Qed.

Lemma send_buf_consume_spec n s :
  send_ok s -> (n <= send_buffered s)%nat ->
  send_ok (send_buf_consume n s) /\ unacked (send_buf_consume n s) = drop n (unacked s) /\
  sent_count (send_buf_consume n s) = (sent_count s - n)%nat /\
  send_unacked (send_buf_consume n s) = send_unacked s.
Proof.
  intros [Hb Hh Hn Hs] Hle. pose proof send_cap_pos. unfold send_buf_consume. rewrite Nat.min_l by done.
  assert (E : (if n <? sent_count s then sent_count s - n else 0)%nat = (sent_count s - n)%nat)
    by (destruct (Nat.ltb_spec n (sent_count s)); lia).
  split; [|split; [|by split]].
  - split; simpl; [done|apply Nat.mod_upper_bound; lia|lia|rewrite E; lia].
  - unfold unacked. simpl. by rewrite ring_drop.
Qed.

Lemma recv_buf_write_spec data r :
  recv_ok r ->
  exists n r', recv_buf_write data r = Done (n, r') /\ recv_ok r' /\
    n = ((RECV_BUF_CAP - recv_len r) `min` length data)%nat /\
    pending r' = pending r ++ take n data /\ recv_next r' = recv_next r.
Proof.
  intros [Hb Hh Hn]. unfold recv_buf_write.
  set (n := ((RECV_BUF_CAP - recv_len r) `min` length data)%nat).
  assert (Hlen : length (take n data) = n) by (rewrite length_take; lia).
  destruct (fill_loop_spec RECV_BUF_CAP recv_cap_pos (take n data) (recv_buf r) (recv_head r)
              (recv_len r)) as (b & Hrun & Hb' & Hring); [done|lia|].
  rewrite Hrun. osimpl. eexists _, _. split; [reflexivity|]. rewrite Hlen in Hring.
  split; [split; simpl; lia|]. by split.
Qed.

Lemma recv_buf_read_spec room r :
  recv_ok r ->
  exists r', recv_buf_read room r = Done (take room (pending r), r') /\ recv_ok r' /\
    pending r' = drop room (pending r) /\ recv_next r' = recv_next r.
Proof.
  intros [Hb Hh Hn]. pose proof recv_cap_pos. unfold recv_buf_read.
  pose proof (copy_loop_spec RECV_BUF_CAP recv_cap_pos (recv_len r `min` room) (recv_buf r) (recv_head r) 0 Hb) as Hc.
  rewrite Nat.add_0_r in Hc. rewrite Hc. osimpl. rewrite Nat.add_0_l, drop_0.
  eexists. split; [|split; [|split]].
  - f_equal. f_equal. unfold pending.
    rewrite <- (ring_take RECV_BUF_CAP ltac:(eassumption) _ _ (recv_len r)) by lia.
    destruct (decide (room <= recv_len r)%nat); [by rewrite Nat.min_r by lia|].
    rewrite Nat.min_l by lia. rewrite !take_ge; rewrite ?ring_length; (done || lia).
  - split; simpl; [done|apply Nat.mod_upper_bound; lia|lia].
  - unfold pending. simpl. destruct (decide (room <= recv_len r)%nat).
    + rewrite Nat.min_r by lia. by rewrite ring_drop by lia.
    + rewrite Nat.min_l, Nat.sub_diag by lia. rewrite drop_ge; [done|]. rewrite ring_length. lia.
  - done.
Qed.

(** * Segments on the wire

    What [send_segment] builds is what [rust_tcp_handle_packet] reads, and its checksum is
    the one of RFC 793: a receiver that adds up the segment with its pseudo header and
    folds the carries gets all ones. *)

(** ** Fields *)

Lemma fold_be_bytes n v a :
  fold_left (fun v b => 256 * v + b) (be_bytes n v) a = a * 256 ^ Z.of_nat n + v mod 256 ^ Z.of_nat n.
Proof.
  revert a. induction n as [|n IH]; intros a; cbn [be_bytes fold_left].
  - rewrite Z.mod_1_r. lia.
  - rewrite IH. unfold wrap8. rewrite Z.shiftr_div_pow2 by lia. rewrite Z.pow_mul_r by lia. change (2 ^ 8) with 256.
    rewrite Nat2Z.inj_succ, Z.pow_succ_r by lia.
    rewrite (Z.mul_comm 256 (256 ^ _)), Z.rem_mul_r by lia. ring.
Qed.

Lemma of_be_bytes_2 v : of_be_bytes (be_bytes 2 v) = wrap16 v.
Proof. unfold of_be_bytes. rewrite fold_be_bytes. reflexivity. Qed.

Lemma of_be_bytes_4 v : of_be_bytes (be_bytes 4 v) = wrap32 v.
Proof. unfold of_be_bytes. rewrite fold_be_bytes. reflexivity. Qed.

Lemma header_length lp rp sq ak fl w ck : length (header lp rp sq ak fl w ck) = 20%nat.
Proof. reflexivity. Qed.

Lemma parse_header lp rp sq ak fl w ck data :
  parse_segment (header lp rp sq ak fl w ck ++ data) =
  Done (Some (mkSegment (wrap16 lp) (wrap16 rp) (wrap32 sq) (wrap32 ak) fl data)).
Proof.
  assert (E : parse_segment (header lp rp sq ak fl w ck ++ data) =
    Done (Some (mkSegment (of_be_bytes (be_bytes 2 lp)) (of_be_bytes (be_bytes 2 rp))
      (of_be_bytes (be_bytes 4 sq)) (of_be_bytes (be_bytes 4 ak)) fl data))).
  { unfold parse_segment. rewrite length_app, header_length.
    destruct (Nat.ltb_spec (20 + length data) 20); [lia|].
    unfold range at 1 2 3 4. rewrite length_app, header_length. osimpl.
    cbn [Nat.leb andb Nat.add]. osimpl.
    change (index _ 12) with (Done (A := Z) 80). osimpl.
    change (index _ 13) with (Done fl). osimpl.
    change (Z.to_nat (Z.shiftr 80 4 * 4)) with 20%nat. cbn [Nat.ltb Nat.leb orb].
    unfold range. rewrite length_app, header_length. cbn [Nat.leb Nat.add]. rewrite Nat.leb_refl. osimpl.
    replace (S _ - 20)%nat with (length data) by lia.
    do 3 f_equal. rewrite (drop_app_length' _ _ 20) by reflexivity. by rewrite take_ge. }
  by rewrite E, !of_be_bytes_2, !of_be_bytes_4.
Qed.

(** ** The checksum *)

(** The sum of the 16-bit words. *)
Fixpoint words (bytes : list Z) : Z :=
  match bytes with
  | hi :: lo :: rest => 256 * hi + lo + words rest
  | [hi] => 256 * hi
  | [] => 0
  end.

(** Induction two bytes at a time. *)
Lemma pair_ind (P : list Z -> Prop) :
  P [] -> (forall x, P [x]) -> (forall x y l, P l -> P (x :: y :: l)) -> forall l, P l.
Proof.
  intros H0 H1 H2 l. enough (P l /\ forall x, P (x :: l)) as [? _] by done.
  induction l as [|y l [IH1 IH2]]; split; eauto.
Qed.

Lemma words_app a b : Nat.even (length a) = true -> words (a ++ b) = words a + words b.
Proof.
  induction a as [|x|x y a IH] using pair_ind; simpl; intros He; [done|done|]. rewrite IH by done. lia.
Qed.

Lemma words_bounds l : Forall is_u8 l -> 0 <= words l <= 65535 * Z.of_nat (length l).
Proof.
  unfold is_u8. induction l as [|x|x y l IH] using pair_ind; intros Hl; cbn [words length];
    rewrite ?Forall_cons in Hl; try lia.
  destruct Hl as (Hx & Hy & Hl). specialize (IH Hl). lia.
Qed.

Lemma word_value hi lo : is_u8 hi -> is_u8 lo -> wrap16 (Z.lor (Z.shiftl hi 8) lo) = 256 * hi + lo.
Proof.
  unfold is_u8. intros Hh Hl.
  assert (Hd : Z.land (Z.shiftl hi 8) lo = 0).
  { apply Z.bits_inj'. intros n Hn. rewrite Z.land_spec, Z.bits_0.
    destruct (Z.ltb_spec n 8); [by rewrite Z.shiftl_spec_low|].
    assert (Hlo : Z.testbit lo n = false); [|by rewrite Hlo, andb_false_r].
    destruct (decide (lo = 0)) as [->|]; [apply Z.bits_0|].
    apply Z.bits_above_log2; [lia|]. apply Z.log2_lt_pow2; [lia|].
    apply Z.lt_le_trans with (2 ^ 8); [lia|]. by apply Z.pow_le_mono_r. }
  rewrite <- Z.lxor_lor, <- Z.add_nocarry_lxor by done.
  rewrite Z.shiftl_mul_pow2 by lia. change (2 ^ 8) with 256. unfold wrap16. rewrite Z.mod_small; lia.
Qed.

Lemma sum_loop_spec l a :
  Forall is_u8 l -> is_u32 a -> a + words l < 4294967296 -> sum_loop l a = a + words l.
Proof.
  unfold is_u32. revert a. induction l as [|x|x y l IH] using pair_ind; intros a Hl Ha Hb;
    cbn [sum_loop words] in *; rewrite ?Forall_cons in Hl.
  - lia.
  - destruct Hl as [Hx _]. pose proof (word_value x 0 Hx ltac:(by unfold is_u8)) as Hw.
    rewrite Z.lor_0_r in Hw. rewrite Hw. unfold is_u8 in Hx. rewrite wrap32_id by (unfold is_u32; lia). lia.
  - destruct Hl as (Hx & Hy & Hl). rewrite word_value by done. pose proof (words_bounds l Hl).
    unfold is_u8 in *. rewrite wrap32_id by (unfold is_u32; lia). rewrite IH by (done || lia). lia.
Qed.

(** Three rounds are enough, and keep the sum modulo 65535 and whether it is 0. *)
Lemma fold_carries_spec s :
  is_u32 s ->
  exists k, 0 <= k /\ fold_carries 3 s = s - 65535 * k /\ 0 <= s - 65535 * k < 65536 /\ (0 < s -> 0 < s - 65535 * k).
Proof.
  unfold is_u32. intros Hs.
  assert (Hround : forall x, 0 <= x < 4294967296 ->
    Z.shiftr x 16 = x / 65536 /\
    (Z.land x 0xFFFF +₃₂ Z.shiftr x 16) = x - 65535 * (x / 65536)).
  { intros x Hx. rewrite Z.shiftr_div_pow2 by lia. change (2 ^ 16) with 65536.
    split; [done|].
    replace (Z.land x 0xFFFF) with (x mod 65536) by (symmetry; by apply (Z.land_ones x 16)).
    rewrite wrap32_id; [|unfold is_u32]; Z.to_euclidean_division_equations; lia. }
  cbn [fold_carries]. destruct (Hround s) as [-> ->]; [lia|].
  destruct (Z.eqb_spec (s / 65536) 0). { exists 0. Z.to_euclidean_division_equations; lia. }
  set (s1 := s - 65535 * (s / 65536)) in *. assert (0 <= s1 <= 131070) by (subst s1; Z.to_euclidean_division_equations; lia).
  destruct (Hround s1) as [-> ->]; [lia|].
  destruct (Z.eqb_spec (s1 / 65536) 0). { exists (s / 65536). fold s1. Z.to_euclidean_division_equations; lia. }
  set (s2 := s1 - 65535 * (s1 / 65536)) in *. assert (0 < s2 < 65536) by (subst s2; Z.to_euclidean_division_equations; lia).
  destruct (Hround s2) as [-> ->]; [lia|].
  destruct (Z.eqb_spec (s2 / 65536) 0); [|Z.to_euclidean_division_equations; lia].
  exists (s / 65536 + s1 / 65536). Z.to_euclidean_division_equations; lia.
Qed.

Lemma net_checksum16_spec l :
  Forall is_u8 l -> words l < 4294967296 ->
  exists k, 0 <= k /\ net_checksum16 l = 65535 - (words l - 65535 * k) /\ 0 <= words l - 65535 * k < 65536 /\
    (0 < words l -> 0 < words l - 65535 * k).
Proof.
  intros Hl Hw. pose proof (words_bounds l Hl). unfold net_checksum16.
  rewrite sum_loop_spec by (done || (unfold is_u32; lia)). rewrite Z.add_0_l.
  destruct (fold_carries_spec (words l)) as (k & Hk0 & -> & Hk & Hpos); [unfold is_u32; lia|].
  exists k. split; [done|]. split; [|done]. unfold wrap16. unfold Z.lnot.
  replace (Z.pred (- (words l - 65535 * k))) with (65535 - (words l - 65535 * k) + (-1) * 65536) by lia.
  rewrite Z_mod_plus_full, Z.mod_small; lia.
Qed.

Lemma be_bytes_u8 n v : Forall is_u8 (be_bytes n v).
Proof. induction n; simpl; constructor; auto with machine. Qed.

Lemma header_u8 lp rp sq ak fl w ck : is_u8 fl -> Forall is_u8 (header lp rp sq ak fl w ck).
Proof.
  intros Hf. unfold header. repeat (apply Forall_app; split); try apply be_bytes_u8.
  repeat constructor; try done. all: by apply Hf.
Qed.

Lemma pseudo_header_u8 ip n : Forall is_u8 (pseudo_header ip n).
Proof. unfold pseudo_header. repeat (apply Forall_app; split); try apply be_bytes_u8. repeat constructor; done. Qed.

Lemma words_checksum ip n lp rp sq ak fl w ck data :
  is_u16 ck ->
  words (pseudo_header ip n ++ header lp rp sq ak fl w ck ++ data) =
  words (pseudo_header ip n ++ header lp rp sq ak fl w 0 ++ data) + ck.
Proof.
  intros Hck. rewrite !words_app by reflexivity.
  assert (E : words (be_bytes 2 ck) = ck).
  { pose proof (of_be_bytes_2 ck) as E. rewrite (wrap16_id ck Hck) in E. etrans; [|exact E].
    unfold of_be_bytes. cbn [be_bytes words fold_left]. lia. }
  unfold header. rewrite !words_app by reflexivity. rewrite E. change (words (be_bytes 2 0)) with 0. lia.
Qed.

(** C24: a segment on the wire is what the peer reads: parsing it gives the ports, numbers,
    flags and data that were sent, the data cut to the maximum size; and its checksum is
    valid, that is the checksum computed over pseudo header and segment is 0. *)
Theorem tcp_segment_correct (ip lp rp sq ak fl w : Z) (data : list Z) :
  is_u16 lp -> is_u16 rp -> is_u32 sq -> is_u32 ak -> is_u8 fl -> Forall is_u8 data ->
  exists bytes, send_segment ip lp rp sq ak fl w data = (ip, bytes) /\
    parse_segment bytes = Done (Some (mkSegment lp rp sq ak fl (take TCP_MSS data))) /\
    net_checksum16 (pseudo_header ip (length bytes) ++ bytes) = 0.
Proof.
  intros Hlp Hrp Hsq Hak Hfl Hdata. eexists. split; [reflexivity|]. split.
  { by rewrite parse_header, !wrap16_id, !wrap32_id. }
  set (d := take TCP_MSS data). rewrite length_app, header_length.
  assert (Hd : Forall is_u8 d) by by apply Forall_take.
  assert (Hdl : (length d <= 536)%nat) by (subst d; rewrite length_take; unfold TCP_MSS; lia).
  set (plain := pseudo_header ip (20 + length d) ++ header lp rp sq ak fl w 0 ++ d).
  assert (Hall : forall ck, Forall is_u8 (pseudo_header ip (20 + length d) ++ header lp rp sq ak fl w ck ++ d)).
  { intros ck. rewrite !Forall_app. auto using pseudo_header_u8, header_u8. }
  assert (Hlen : length plain = (32 + length d)%nat) by (unfold plain; rewrite !length_app; reflexivity).
  pose proof (words_bounds plain (Hall 0)) as Hb. rewrite Hlen in Hb.
  destruct (net_checksum16_spec plain (Hall 0)) as (k & Hk0 & Hck & Hk & _); [lia|].
  rewrite Hck. set (ck := 65535 - (words plain - 65535 * k)).
  assert (Hw : words (pseudo_header ip (20 + length d) ++ header lp rp sq ak fl w ck ++ d) = words plain + ck).
  { apply words_checksum. unfold is_u16. lia. }
  destruct (net_checksum16_spec _ (Hall ck)) as (k' & _ & -> & Hk' & Hpos); rewrite Hw in *; [lia|]. specialize (Hpos ltac:(lia)). lia.
Qed.
