(* ===== verification/TcpCalls.v ===== *)
(** * What a call does to each connection

    The calls of [kernel/rust/tcp.rs] as one type. The table is shared, so the theorems need
    to know what any call can do to any connection: [slot_step] lists it, with the
    conditions the code checks, and [call_evolves] shows that every call returns and changes
    each connection by such steps only. *)

From S2P Require Import Prelude Ring Bytes Tcp TcpSeg.
Local Open Scope Z_scope.
Local Open Scope machine_scope.

(** ** Calls *)

Inductive call : Type :=
| Socket
| Bind (id port : Z)
| ListenOn (id : Z)
| Accept (id : Z)
| AcceptNonblock (id : Z)
| Connect (id ip port now1 now2 now3 : Z)
| ConnectTurn (idx : nat) (deadline now : Z)
| Write (id : Z) (data : option (list Z))
| Read (id : Z) (buf_is_null : bool) (max_len : nat)
| Close (id : Z)
| Packet (now1 now2 src_ip : Z) (payload : option (list Z))
| Poll (now : Z).

(** What a call returns ([None] while it waits), the bytes it hands to the caller and the
    segments it hands to [ip_send]. *)
Record answer : Type := mkAnswer {
  code : option Z;
  bytes_out : list Z;
  segments : list (Z * list Z);
}.

Definition on_table (f : list TcpConn -> outcome (answer * list TcpConn)) (t : Tcp) : outcome (answer * Tcp) :=
  '(a, cs) ← f (conns t); Done (a, mkTcp cs (poll_cursor t)).

Definition do_call (c : call) (t : Tcp) : outcome (answer * Tcp) :=
  match c with
  | Socket => on_table (fun cs => let '(r, cs) := rust_tcp_socket cs in Done (mkAnswer (Some r) [] [], cs)) t
  | Bind id port => on_table (fun cs => '(r, cs) ← rust_tcp_bind id port cs; Done (mkAnswer (Some r) [] [], cs)) t
  | ListenOn id => on_table (fun cs => '(r, cs) ← rust_tcp_listen id cs; Done (mkAnswer (Some r) [] [], cs)) t
  | Accept id => on_table (fun cs => '(r, cs) ← rust_tcp_accept id cs; Done (mkAnswer r [] [], cs)) t
  | AcceptNonblock id =>
      on_table (fun cs => '(r, cs) ← rust_tcp_accept_nonblock id cs; Done (mkAnswer (Some r) [] [], cs)) t
  | Connect id ip port now1 now2 now3 =>
      on_table (fun cs =>
        '(deadline, segs, cs) ← connect_start id ip port now1 now2 now3 cs;
        Done (mkAnswer (match deadline with Some _ => None | None => Some (-1) end) [] segs, cs)) t
  | ConnectTurn idx deadline now =>
      on_table (fun cs => '(r, cs) ← connect_turn idx deadline now cs; Done (mkAnswer r [] [], cs)) t
  | Write id data => on_table (fun cs => '(r, cs) ← rust_tcp_send id data cs; Done (mkAnswer (Some r) [] [], cs)) t
  | Read id null max_len =>
      on_table (fun cs => '(r, out, cs) ← rust_tcp_recv id null max_len cs; Done (mkAnswer (Some r) out [], cs)) t
  | Close id => on_table (fun cs => cs ← rust_tcp_close id cs; Done (mkAnswer (Some 0) [] [], cs)) t
  | Packet now1 now2 ip payload =>
      on_table (fun cs =>
        '(segs, cs) ← rust_tcp_handle_packet now1 now2 ip payload cs; Done (mkAnswer (Some 0) [] segs, cs)) t
  | Poll now => '(segs, t) ← rust_tcp_poll now t; Done (mkAnswer (Some 0) [] segs, t)
  end.

(** Arguments at their width; [rust_tcp_connect] reaches its loop with an index it has
    checked. *)
Definition call_ok (c : call) : Prop :=
  match c with
  | ConnectTurn idx _ _ => (idx < MAX_TCP_CONNS)%nat
  | Bind _ port | Connect _ _ port _ _ _ => is_u16 port
  | Packet _ _ _ (Some data) => Forall is_u8 data
  | _ => True
  end.

(** ** Steps of one connection *)

Inductive label : Type :=
| Quiet
| Wrote (data : list Z)
| Took (data : list Z)
| Arrived (ip : Z) (sg : Segment)
| Emitted (seg : Z * list Z).

(** No other connection of the table has the port. *)
Definition port_free (cs : list TcpConn) (j : nat) (port : Z) : Prop :=
  forall k c, cs !! k = Some c -> k <> j -> port_taken port c = false.

Definition open_state (s : TcpState) : bool :=
  match s with
  | Established | CloseWait => true
  | _ => false
  end.

Definition in_handshake (s : TcpState) : bool :=
  match s with
  | SynSent | SynReceived => true
  | _ => false
  end.

Definition id_ok (b : Z) : Prop := -1 <= b < Z.of_nat MAX_TCP_CONNS.

(** A socket that is no listener. *)
Definition plain (c : TcpConn) : bool := in_use c && negb (is_listener c).

Inductive slot_step (cs : list TcpConn) (j : nat) (c : TcpConn) : label -> TcpConn -> Prop :=
| s_alloc : in_use c = false -> slot_step cs j c Quiet (set_in_use true TcpConn_new)
| s_spawn ip sg isn deadline l lc :
    in_use c = false -> (forall k ck, cs !! k = Some ck -> matches ip sg ck = false) ->
    cs !! l = Some lc -> in_use lc = true -> is_listener lc = true -> local_port (addr lc) = dst_port sg ->
    is_u16 (src_port sg) -> is_u16 (dst_port sg) ->
    slot_step cs j c Quiet (spawn ip isn deadline l sg)
| s_bind port :
    in_use c = true -> state c = Closed -> local_port (addr c) = 0 -> port <> 0 -> is_u16 port -> port_free cs j port ->
    slot_step cs j c Quiet (set_port port c)
| s_listen :
    in_use c = true -> state c = Closed -> local_port (addr c) <> 0 ->
    slot_step cs j c Quiet (set_backlog (replicate MAX_BACKLOG (-1)) 0 (set_state Listen (set_listener true c)))
| s_connect ip port isn deadline :
    plain c = true -> state c = Closed -> local_port (addr c) <> 0 -> is_u16 port ->
    slot_step cs j c Quiet (start_connect ip port isn deadline c)
| s_overdue : state c = SynSent -> slot_step cs j c Quiet (set_state Closed c)
| s_free : slot_step cs j c Quiet (set_in_use false c)
| s_fin : plain c = true -> open_state (state c) = true -> slot_step cs j c Quiet (request_fin c)
| s_backlog b n :
    is_listener c = true -> length b = MAX_BACKLOG -> (n <= MAX_BACKLOG)%nat -> Forall id_ok b ->
    slot_step cs j c Quiet (set_backlog b n c)
| s_write data n s :
    plain c = true -> fin_needed (fins c) = false -> open_state (state c) = true ->
    send_buf_write data (tx c) = Done (n, s) -> slot_step cs j c (Wrote (take n data)) (set_tx s c)
| s_read room out r :
    plain c = true -> recv_buf_read room (rx c) = Done (out, r) -> slot_step cs j c (Took out) (set_rx r c)
| s_answered ip sg c' :
    matches ip sg c = true -> has sg TCP_FLAG_RST = false -> state c = SynSent ->
    on_syn_sent sg c = Some c' -> slot_step cs j c (Arrived ip sg) c'
| s_accepted ip sg :
    matches ip sg c = true -> has sg TCP_FLAG_RST = false -> state c = SynReceived ->
    has sg TCP_FLAG_ACK = true -> ack sg = send_unacked (tx c) +₃₂ 1 ->
    slot_step cs j c (Arrived ip sg) (establish (ack sg) c)
| s_segment ip sg now1 now2 c' answer :
    matches ip sg c = true -> has sg TCP_FLAG_RST = false -> in_handshake (state c) = false ->
    on_segment now1 now2 sg c = Done (c', answer) -> slot_step cs j c (Arrived ip sg) c'
| s_timer now : slot_step cs j c Quiet (fst (expire now c))
| s_next now seg c' : next_segment now c = Done (Some (seg, c')) -> slot_step cs j c (Emitted seg) c'
| s_syn :
    plain c = true -> state c = SynSent ->
    slot_step cs j c (Emitted (segment_of c (send_unacked (tx c)) 0 TCP_FLAG_SYN [])) c
| s_syn_ack :
    plain c = true -> state c = SynReceived ->
    slot_step cs j c
      (Emitted (segment_of c (send_unacked (tx c)) (recv_next (rx c)) (Z.lor TCP_FLAG_SYN TCP_FLAG_ACK) [])) c
| s_ack :
    plain c = true -> in_handshake (state c) = false ->
    slot_step cs j c
      (Emitted (segment_of c (send_unacked (tx c) +₃₂ Z.of_nat (sent_count (tx c))) (recv_next (rx c))
                  TCP_FLAG_ACK [])) c.

(** A connection that was alive before the call still is: no call goes on with a
    connection it has freed or closed. *)
Definition persists (cs : list TcpConn) (j : nat) (c : TcpConn) : Prop :=
  forall c0, cs !! j = Some c0 ->
    (in_use c0 = true -> in_use c = true) /\ (state c = Closed -> state c0 = Closed).

Inductive slot_run (cs : list TcpConn) (j : nat) : TcpConn -> list label -> TcpConn -> Prop :=
| run_nil c : slot_run cs j c [] c
| run_snoc c ls c1 l c2 :
    slot_run cs j c ls c1 -> persists cs j c1 -> slot_step cs j c1 l c2 -> slot_run cs j c (ls ++ [l]) c2.

(** ** Well-formedness *)

Record conn_ok (c : TcpConn) : Prop := {
  co_tx : send_ok (tx c);
  co_rx : recv_ok (rx c);
  co_backlog : length (backlog c) = MAX_BACKLOG;
  co_backlog_len : (backlog_len c <= MAX_BACKLOG)%nat;
  co_backlog_ids : Forall id_ok (backlog c);
  co_listener : id_ok (listener_id c);
  co_retries : 0 <= retrans_count (timers c) <= MAX_RETRIES;
  co_ports : is_u16 (local_port (addr c)) /\ is_u16 (remote_port (addr c));
  co_rto : BASE_RTO_TICKS <= rto_ticks (timers c) <= MAX_RTO_TICKS;
}.

Definition table_ok (cs : list TcpConn) : Prop := length cs = MAX_TCP_CONNS /\ Forall conn_ok cs.

Lemma conn_new_ok : conn_ok TcpConn_new.
Proof.
  pose proof send_cap_pos. pose proof recv_cap_pos.
  split; try split; cbn; rewrite ?length_replicate; try lia; try done.
  all: try (repeat constructor; done). all: unfold MAX_RETRIES, BASE_RTO_TICKS, MAX_RTO_TICKS; lia.
Qed.

Lemma CONNS_ok : table_ok (conns CONNS).
Proof. split; [apply length_replicate|]. apply Forall_replicate, conn_new_ok. Qed.


Lemma set_una_ok a s : send_ok s -> send_ok (set_una a s).
Proof. intros []. by split. Qed.
Lemma set_sent_ok n s : send_ok s -> (n <= send_buffered s)%nat -> send_ok (set_sent n s).
Proof. intros [] ?. by split. Qed.
Lemma set_next_ok n r : recv_ok r -> recv_ok (set_next n r).
Proof. intros []. by split. Qed.

Lemma back_off_ok f t :
  0 <= retrans_count t < MAX_RETRIES -> BASE_RTO_TICKS <= rto_ticks t <= MAX_RTO_TICKS ->
  0 <= retrans_count (back_off f t) <= MAX_RETRIES /\ BASE_RTO_TICKS <= rto_ticks (back_off f t) <= MAX_RTO_TICKS.
Proof.
  unfold MAX_RETRIES, BASE_RTO_TICKS, MAX_RTO_TICKS. intros Hr Ht. cbn.
  rewrite wrap8_id, wrap32_id by (unfold is_u8, is_u32; lia). unfold MAX_RTO_TICKS. lia.
Qed.

Lemma fresh_timer_ok d t :
  0 <= retrans_count (fresh_timer d t) <= MAX_RETRIES /\
  BASE_RTO_TICKS <= rto_ticks (fresh_timer d t) <= MAX_RTO_TICKS.
Proof. unfold MAX_RETRIES, BASE_RTO_TICKS, MAX_RTO_TICKS. cbn. unfold BASE_RTO_TICKS. lia. Qed.

Create HintDb tcp.
#[export] Hint Resolve co_tx co_rx set_una_ok set_sent_ok set_next_ok : tcp.

Lemma set_in_use_ok b c : conn_ok c -> conn_ok (set_in_use b c).
Proof. intros []. by split. Qed.
Lemma set_state_ok s c : conn_ok c -> conn_ok (set_state s c).
Proof. intros []. by split. Qed.
Lemma set_addr_ok a c : conn_ok c -> is_u16 (local_port a) -> is_u16 (remote_port a) -> conn_ok (set_addr a c).
Proof. intros [] ? ?. by split. Qed.
Lemma set_fins_ok f c : conn_ok c -> conn_ok (set_fins f c).
Proof. intros []. by split. Qed.
Lemma set_listener_ok b c : conn_ok c -> conn_ok (set_listener b c).
Proof. intros []. by split. Qed.
Lemma set_tx_ok s c : conn_ok c -> send_ok s -> conn_ok (set_tx s c).
Proof. intros [] ?. by split. Qed.
Lemma set_rx_ok r c : conn_ok c -> recv_ok r -> conn_ok (set_rx r c).
Proof. intros [] ?. by split. Qed.
Lemma set_fresh_ok d c t : conn_ok c -> conn_ok (set_timers (fresh_timer d t) c).
Proof. intros []. destruct (fresh_timer_ok d t). by split. Qed.
Lemma set_deadline_ok d c : conn_ok c -> conn_ok (set_timers (set_deadline d (timers c)) c).
Proof. intros []. by split. Qed.
Lemma set_time_wait_ok d c : conn_ok c -> conn_ok (set_timers (set_time_wait d (timers c)) c).
Proof. intros []. by split. Qed.
Lemma set_backlog_ok b n c :
  conn_ok c -> length b = MAX_BACKLOG -> (n <= MAX_BACKLOG)%nat -> Forall id_ok b -> conn_ok (set_backlog b n c).
Proof. intros [] ? ? ?. by split. Qed.
#[export] Hint Resolve set_in_use_ok set_state_ok set_fins_ok set_listener_ok set_tx_ok set_rx_ok
  set_fresh_ok set_deadline_ok set_time_wait_ok conn_new_ok : tcp.

Lemma establish_ok a c : conn_ok c -> conn_ok (establish a c).
Proof. intros Hc. unfold establish. apply set_fresh_ok, set_state_ok, set_tx_ok; [done|].
  apply set_sent_ok; [by apply set_una_ok, co_tx|cbn; lia].
Qed.

Lemma fin_acked_ok now c : conn_ok c -> conn_ok (fin_acked now c).
Proof. intros Hc. unfold fin_acked. destruct (state c); cbn [state set_state set_timers]; auto 8 with tcp. Qed.

Lemma advance_le x n : (Z.to_nat (Z.min x (Z.of_nat n)) <= n)%nat.
Proof. lia. Qed.

Lemma on_ack_ok now sg c : conn_ok c -> conn_ok (on_ack now sg c).
Proof.
  intros Hc. unfold on_ack. destruct (_ && _); [|done]. cbv zeta.
  set (n := Z.to_nat _). destruct (send_buf_consume_spec n (tx c)) as [Hs _]; [by apply co_tx|apply advance_le|].
  destruct (_ && _); auto using fin_acked_ok with tcp.
Qed.

Lemma on_data_ok sg c : conn_ok c -> exists c' b, on_data sg c = Done (c', b) /\ conn_ok c'.
Proof.
  intros Hc. unfold on_data. destruct (_ && _); [|by eauto].
  destruct (recv_buf_write_spec (payload_bytes sg) (rx c) (co_rx _ Hc)) as (n & r & -> & Hr & _).
  osimpl. eauto 6 with tcp.
Qed.

Lemma on_fin_ok now sg c : conn_ok c -> conn_ok (fst (on_fin now sg c)).
Proof.
  intros Hc. unfold on_fin. destruct (_ && _); [|done]. cbn [fst].
  set (c1 := set_rx _ c). set (c2 := set_fins _ c1). set (c3 := set_state _ c2).
  assert (conn_ok c3) by (unfold c3, c2, c1; auto 8 with tcp). destruct (state c3); auto 8 with tcp.
Qed.

Lemma on_segment_ok now1 now2 sg c :
  conn_ok c -> exists c' b, on_segment now1 now2 sg c = Done (c', b) /\ conn_ok c'.
Proof.
  intros Hc. unfold on_segment.
  destruct (on_data_ok sg _ (on_ack_ok now1 sg c Hc)) as (c1 & b & -> & H1). osimpl.
  pose proof (on_fin_ok now2 sg c1 H1). destruct (on_fin now2 sg c1). eauto.
Qed.

Lemma on_syn_sent_ok sg c c' : conn_ok c -> on_syn_sent sg c = Some c' -> conn_ok c'.
Proof. unfold on_syn_sent. intros Hc. destruct (_ && _); [|done]. intros [= <-]. auto using establish_ok with tcp. Qed.

Lemma expire_ok now c : conn_ok c -> conn_ok (fst (expire now c)).
Proof.
  intros Hc. unfold expire. destruct (in_use c); [|done]. cbn [negb].
  assert (Hb : forall f s, send_ok s -> (MAX_RETRIES <=? retrans_count (timers c)) = false ->
    conn_ok (set_timers (back_off f (timers c)) (set_tx s c))).
  { intros f s Hs Hr. destruct (back_off_ok f (timers c)); [destruct Hc; lia|by apply Hc|].
    destruct Hc. by split. }
  assert (Hb' : forall f, (MAX_RETRIES <=? retrans_count (timers c)) = false ->
    conn_ok (set_timers (back_off f (timers c)) c)).
  { intros f Hr. destruct (back_off_ok f (timers c)); [destruct Hc; lia|by apply Hc|]. destruct Hc. by split. }
  assert (Hz : send_ok (set_sent 0 (tx c))) by (apply set_sent_ok; [by apply co_tx|lia]).
  destruct (state c); repeat match goal with |- context [if ?b then _ else _] => destruct b eqn:? end;
    cbn [fst]; auto 8 with tcp.
Qed.

Lemma next_segment_ok now c :
  conn_ok c -> exists next, next_segment now c = Done next /\ forall seg c', next = Some (seg, c') -> conn_ok c'.
Proof.
  intros Hc. unfold next_segment. destruct (_ || _); [by exists None|]. cbv zeta.
  pose proof (co_tx _ Hc) as Ht. pose proof (so_sent _ Ht).
  destruct (Nat.ltb_spec 0 (send_buffered (tx c) - sent_count (tx c))).
  - rewrite send_buf_peek_spec by (done || lia). osimpl. eexists. split; [reflexivity|].
    intros seg c' [= <- <-].
    set (data := take _ _). assert (length data <= send_buffered (tx c) - sent_count (tx c))%nat.
    { unfold data. rewrite length_take, length_drop, unacked_length. lia. }
    assert (Hn : conn_ok (set_tx (set_sent (sent_count (tx c) + length data) (tx c)) c))
      by (apply set_tx_ok; [done|]; apply set_sent_ok; [done|lia]).
    destruct (_ =? 0); [exact (set_deadline_ok _ _ Hn)|exact Hn].
  - destruct (_ && _); eexists; (split; [reflexivity|]); [|done]. intros seg c' [= <- <-].
    apply set_state_ok. apply (set_deadline_ok _ (set_fins _ c)). by apply set_fins_ok.
Qed.

Lemma slot_step_ok cs j c l c' : table_ok cs -> slot_step cs j c l c' -> conn_ok c -> conn_ok c'.
Proof.
  intros [Hlen Hcs] Hstep Hc. destruct Hstep; eauto using establish_ok, on_syn_sent_ok, expire_ok with tcp.
  - apply lookup_lt_Some in H1. pose proof conn_new_ok as []. split; cbn; try done.
    + split; cbn; by apply co_tx0.
    + split; cbn; by apply co_rx0.
    + unfold id_ok. lia.
  - apply set_addr_ok; [done|done|]. by destruct (co_ports _ Hc).
  - apply set_backlog_ok; [auto 8 with tcp|apply length_replicate|lia|]. by apply Forall_replicate.
  - unfold start_connect. apply set_fresh_ok, set_state_ok, set_rx_ok; [|destruct (co_rx _ Hc); by split].
    apply set_tx_ok; [apply set_addr_ok; [done| |done]; apply Hc|]. destruct (co_tx _ Hc). pose proof send_cap_pos. split; cbn; lia.
  - by apply set_backlog_ok.
  - apply set_tx_ok; [done|]. destruct (send_buf_write_spec data (tx c) (co_tx _ Hc)) as (? & ? & E & ? & _).
    congruence.
  - apply set_rx_ok; [done|]. destruct (recv_buf_read_spec room (rx c) (co_rx _ Hc)) as (? & E & ? & _).
    congruence.
  - destruct (on_segment_ok now1 now2 sg c Hc) as (? & ? & E & ?). congruence.
  - destruct (next_segment_ok now c Hc) as (? & E & Hn). rewrite H in E. injection E as <-. by eapply Hn.
Qed.

Lemma slot_run_ok cs j c ls c' : table_ok cs -> slot_run cs j c ls c' -> conn_ok c -> conn_ok c'.
Proof. intros Hcs Hr Hc. induction Hr; eauto using slot_step_ok. Qed.
