(* ===== verification/TcpEvolve.v ===== *)
(** * Tables of connections

    What calls make of a table, step by step; and that the calls on sockets, reading and
    writing return and are such steps. *)

From S2P Require Import Prelude Ring Bytes Tcp TcpSeg TcpCalls.
Local Open Scope Z_scope.
Local Open Scope machine_scope.

(** ** Tables *)

Definition evolves (cs : list TcpConn) (ls : nat -> list label) (cs' : list TcpConn) : Prop :=
  length cs' = length cs /\
  forall j c, cs !! j = Some c -> exists c', cs' !! j = Some c' /\ slot_run cs j c (ls j) c'.

Definition no_labels : nat -> list label := fun _ => [].

(** More labels for one connection. *)
Definition extend (j : nat) (l : list label) (ls : nat -> list label) : nat -> list label :=
  fun k => if decide (k = j) then ls k ++ l else ls k.

Lemma extend_eq j l ls : extend j l ls j = ls j ++ l.
Proof. unfold extend. by rewrite decide_True. Qed.
Lemma extend_ne j k l ls : k <> j -> extend j l ls k = ls k.
Proof. intros. unfold extend. by rewrite decide_False. Qed.

Lemma persists_refl cs j c : cs !! j = Some c -> persists cs j c.
Proof. intros Hc c0 Hc0. by simplify_eq. Qed.

Lemma persists_live cs j c : in_use c = true -> state c <> Closed -> persists cs j c.
Proof. by intros Hu Hs c0 Hc0. Qed.

Lemma run_one cs j c l c' : persists cs j c -> slot_step cs j c l c' -> slot_run cs j c [l] c'.
Proof. intros Hp H. apply (run_snoc cs j c []) with c; [constructor|done|done]. Qed.

Lemma run_app cs j c ls c1 ls' c2 :
  slot_run cs j c ls c1 -> slot_run cs j c1 ls' c2 -> slot_run cs j c (ls ++ ls') c2.
Proof.
  intros H1 H2. induction H2 as [|c1 ls' c2 l c3 _ IH Hp Hs]; [by rewrite app_nil_r|].
  rewrite app_assoc. eapply run_snoc; eauto.
Qed.

Lemma run_two cs j c l c1 l' c2 :
  persists cs j c -> slot_step cs j c l c1 -> persists cs j c1 -> slot_step cs j c1 l' c2 ->
  slot_run cs j c [l; l'] c2.
Proof. intros P1 H1 P2 H2. apply (run_app cs j c [l] c1 [l']); by apply run_one. Qed.

Lemma evolves_refl cs : evolves cs no_labels cs.
Proof. split; [done|]. intros j c Hc. exists c. split; [done|constructor]. Qed.

Lemma evolves_then cs ls cs1 j c1 l c2 :
  evolves cs ls cs1 -> cs1 !! j = Some c1 -> slot_run cs j c1 l c2 ->
  evolves cs (extend j l ls) (<[j := c2]> cs1).
Proof.
  intros [Hlen Hev] Hc1 Hrun. split; [by rewrite length_insert|]. intros k c Hc.
  destruct (Hev k c Hc) as (c' & Hc' & Hr). destruct (decide (k = j)) as [->|Hne].
  - simplify_eq. exists c2. rewrite extend_eq. split; [|by eapply run_app].
    apply list_lookup_insert_eq. by eapply lookup_lt_Some.
  - exists c'. rewrite extend_ne, list_lookup_insert_ne by done. done.
Qed.

Lemma evolves_ok cs ls cs' : table_ok cs -> evolves cs ls cs' -> table_ok cs'.
Proof.
  intros Hok [Hlen Hev]. split; [rewrite Hlen; apply Hok|].
  apply Forall_lookup_2. intros j c' Hc'.
  destruct (lookup_lt_is_Some_2 cs j) as [c Hc]. { rewrite <- Hlen. by eapply lookup_lt_Some. }
  destruct (Hev j c Hc) as (c'' & Hc'' & Hr). simplify_eq.
  eapply slot_run_ok; eauto. eapply Forall_lookup_1; [apply Hok|done].
Qed.

Lemma conn_table_at cs j : table_ok cs -> (j < MAX_TCP_CONNS)%nat -> exists c, cs !! j = Some c /\ conn_ok c.
Proof.
  intros [Hlen Hok] Hj. destruct (lookup_lt_is_Some_2 cs j) as [c Hc]; [lia|].
  exists c. split; [done|]. by eapply Forall_lookup_1.
Qed.

Lemma good_id id : bad_id id = false -> (Z.to_nat id < MAX_TCP_CONNS)%nat /\ id = Z.of_nat (Z.to_nat id).
Proof. unfold bad_id. intros H. apply orb_false_iff in H as [H1 H2]. apply Nat.leb_gt in H2. lia. Qed.

Lemma modify_at cs j f c : cs !! j = Some c -> modify j f cs = Done (<[j := f c]> cs).
Proof. intros Hc. unfold modify. oindex Hc. by ostore. Qed.

(** ** What the steps say about the call *)

Definition writes (ls : list label) : list Z :=
  mjoin ((fun l => match l with Wrote d => d | _ => [] end) <$> ls).
Definition reads (ls : list label) : list Z :=
  mjoin ((fun l => match l with Took d => d | _ => [] end) <$> ls).

Definition own_writes (c : call) (a : answer) (j : nat) : list Z :=
  match c with
  | Write id (Some data) => if decide (id = Z.of_nat j) then take (Z.to_nat (default 0 (code a))) data else []
  | _ => []
  end.

Definition own_reads (c : call) (a : answer) (j : nat) : list Z :=
  match c with
  | Read id _ _ => if decide (id = Z.of_nat j) then bytes_out a else []
  | _ => []
  end.

Record explains (cs : list TcpConn) (c : call) (a : answer) (ls : nat -> list label) : Prop := {
  ex_writes j : writes (ls j) = own_writes c a j;
  ex_reads j : reads (ls j) = own_reads c a j;
  ex_arrived j ip sg :
    Arrived ip sg ∈ ls j ->
    exists now1 now2 data, c = Packet now1 now2 ip (Some data) /\ parse_segment data = Done (Some sg);
  ex_emitted seg : seg ∈ segments a -> exists j sc, cs !! j = Some sc /\ Emitted seg ∈ ls j;
}.

(** The call returns, and its steps explain it. *)
Definition does (c : call) (t : Tcp) : Prop :=
  exists a t' ls, do_call c t = Done (a, t') /\ evolves (conns t) ls (conns t') /\ explains (conns t) c a ls.

Definition quiet (l : label) : bool := match l with Quiet => true | _ => false end.

(** A call whose steps are all quiet, with nothing read, written or sent. *)
Lemma explains_quiet cs c a ls :
  (forall j, Forall (fun l => quiet l = true) (ls j)) -> (forall j, own_writes c a j = []) ->
  (forall j, own_reads c a j = []) -> segments a = [] -> explains cs c a ls.
Proof.
  intros Hq Hw Hr Hs. split.
  - intros j. rewrite Hw. unfold writes. induction (Hq j) as [|l ? Hl _ IH]; [done|]. csimpl.
    rewrite IH. by destruct l.
  - intros j. rewrite Hr. unfold reads. induction (Hq j) as [|l ? Hl _ IH]; [done|]. csimpl.
    rewrite IH. by destruct l.
  - intros j ip sg Hin. pose proof (proj1 (Forall_forall _ _) (Hq j) _ Hin) as H. done.
  - intros seg Hin. rewrite Hs in Hin. by apply not_elem_of_nil in Hin.
Qed.

Definition all_quiet (ls : nat -> list label) : Prop := forall j, Forall (fun l => quiet l = true) (ls j).

Lemma no_labels_quiet : all_quiet no_labels.
Proof. intros j. constructor. Qed.

Lemma extend_quiet j l ls : all_quiet ls -> Forall (fun l => quiet l = true) l -> all_quiet (extend j l ls).
Proof.
  intros H Hl k. unfold extend. destruct (decide (k = j)); [|apply H]. apply Forall_app. split; [apply H|done].
Qed.

(** Quiet steps that turn one table into another. *)
Definition quietly (cs cs' : list TcpConn) : Prop := exists ls, evolves cs ls cs' /\ all_quiet ls.

Lemma quietly_refl cs : quietly cs cs.
Proof. exists no_labels. split; [apply evolves_refl|apply no_labels_quiet]. Qed.

Lemma quietly_step cs cs1 j c1 c2 :
  quietly cs cs1 -> cs1 !! j = Some c1 -> persists cs j c1 -> slot_step cs j c1 Quiet c2 ->
  quietly cs (<[j := c2]> cs1).
Proof.
  intros (ls & Hev & Hq) Hc1 Hp Hs. exists (extend j [Quiet] ls). split.
  - eapply evolves_then; eauto using run_one.
  - apply extend_quiet; [done|]. by repeat constructor.
Qed.

#[export] Hint Resolve quietly_refl persists_refl persists_live : tcp.

(** ** Sockets and ports *)

Lemma pick_port_search fuel cand cs :
  cand + Z.of_nat fuel <= 65535 -> 0 <= cand ->
  (exists p, pick_port fuel cand cs = Done p /\ cand <= p <= 65535 /\ existsb (port_taken p) cs = false) \/
  (forall k, cand <= k < cand + Z.of_nat fuel -> existsb (port_taken k) cs = true).
Proof.
  revert cand. induction fuel as [|fuel IH]; intros cand Hb H0; simpl; [right; lia|].
  destruct (existsb (port_taken cand) cs) eqn:Ht; [|left; exists cand; split_and!; (done || lia)].
  destruct (Z.eqb_spec cand 65535); [lia|]. rewrite wrap16_id by (unfold is_u16; lia).
  destruct (IH (cand + 1)) as [(p & Hp & Hle & Hf)|Hall]; [lia|lia| |].
  - left. exists p. split; [done|]. split; [lia|done].
  - right. intros k Hk. destruct (decide (k = cand)) as [->|]; [done|]. apply Hall. lia.
Qed.

(** There are more candidates than sockets. *)
Lemma pick_port_spec cs :
  table_ok cs ->
  exists p, pick_port (S MAX_TCP_CONNS) 49152 cs = Done p /\ 49152 <= p <= 65535 /\ existsb (port_taken p) cs = false.
Proof.
  intros [Hlen _].
  destruct (pick_port_search (S MAX_TCP_CONNS) 49152 cs) as [H|Hall]; [unfold MAX_TCP_CONNS; lia|lia|done|].
  exfalso. pose (ports := seqZ 49152 9).
  assert (Hsub : ports ⊆+ ((fun c => local_port (addr c)) <$> cs)).
  { apply NoDup_submseteq; [apply NoDup_seqZ|]. intros p Hp. apply elem_of_seqZ in Hp.
    specialize (Hall p Hp). apply existsb_exists in Hall as (c & Hc & Ht).
    apply list_elem_of_fmap. exists c. split; [|by apply list_elem_of_In].
    unfold port_taken in Ht. lia. }
  apply submseteq_length in Hsub. unfold ports in Hsub. rewrite length_fmap, length_seqZ, Hlen in Hsub.
  unfold MAX_TCP_CONNS in Hsub. lia.
Qed.

Lemma not_taken cs j p : existsb (port_taken p) cs = false -> port_free cs j p.
Proof.
  intros H k c Hc _. destruct (port_taken p c) eqn:E; [|done].
  rewrite <- H. symmetry. apply existsb_exists. exists c. split; [|done].
  apply list_elem_of_In. by eapply list_elem_of_lookup_2.
Qed.

Lemma not_taken_by_other cs j p : taken_by_other j p cs = false -> port_free cs j p.
Proof.
  intros H k c Hc Hne. destruct (port_taken p c) eqn:E; [|done].
  rewrite <- H. symmetry. apply existsb_exists. exists (k, c). split.
  - apply list_elem_of_In, (list_elem_of_lookup_2 _ k). by rewrite list_lookup_imap, Hc.
  - rewrite E. by rewrite (proj2 (Nat.eqb_neq k j) Hne).
Qed.

Lemma socket_quiet cs : quietly cs (rust_tcp_socket cs).2.
Proof.
  unfold rust_tcp_socket. destruct (position _ cs) as [i|] eqn:Hp; simpl; [|auto with tcp].
  apply position_Some in Hp as (c & Hc & Hu & _). apply negb_true_iff in Hu.
  eapply quietly_step; eauto with tcp. by constructor.
Qed.

(** The guards of a call, as facts. *)
Lemma is_state_true a b : is_state a b = true <-> a = b.
Proof. unfold is_state. by rewrite bool_decide_eq_true. Qed.

Ltac guards :=
  repeat match goal with
  | H : _ || _ = false |- _ => apply orb_false_iff in H as [? ?]
  | H : _ && _ = true |- _ => apply andb_true_iff in H as [? ?]
  | H : negb _ = false |- _ => apply negb_false_iff in H
  | H : negb _ = true |- _ => apply negb_true_iff in H
  | H : is_state _ _ = true |- _ => apply is_state_true in H
  | H : (_ =? _) = true |- _ => apply Z.eqb_eq in H
  | H : (_ =? _) = false |- _ => apply Z.eqb_neq in H
  end.

Lemma bind_quiet id port cs :
  table_ok cs -> is_u16 port -> exists r cs', rust_tcp_bind id port cs = Done (r, cs') /\ quietly cs cs'.
Proof.
  intros Hok Hport. unfold rust_tcp_bind. destruct (bad_id id) eqn:Hid; [eauto with tcp|].
  apply good_id in Hid as [Hid _]. destruct (conn_table_at cs _ Hok Hid) as (c & Hc & _). cbv zeta. oindex Hc.
  destruct (negb (in_use c) || _ || _) eqn:Hg; [eauto with tcp|]. guards.
  destruct (port =? 0) eqn:Hp; guards; cbn [negb].
  - destruct (pick_port_spec cs Hok) as (p & -> & Hp49 & Hfree). osimpl.
    rewrite (modify_at _ _ _ _ Hc). osimpl. eexists _, _. split; [done|].
    eapply quietly_step; eauto with tcp. constructor; eauto using not_taken; unfold is_u16; lia.
  - destruct (taken_by_other _ port cs) eqn:Ht; [eauto with tcp|].
    rewrite (modify_at _ _ _ _ Hc). osimpl. eexists _, _. split; [done|].
    eapply quietly_step; eauto with tcp. constructor; eauto using not_taken_by_other.
Qed.

Lemma listen_quiet id cs :
  table_ok cs -> exists r cs', rust_tcp_listen id cs = Done (r, cs') /\ quietly cs cs'.
Proof.
  intros Hok. unfold rust_tcp_listen. destruct (bad_id id) eqn:Hid; [eauto with tcp|].
  apply good_id in Hid as [Hid _]. destruct (conn_table_at cs _ Hok Hid) as (c & Hc & _). cbv zeta. oindex Hc.
  destruct (negb (in_use c) || _ || _) eqn:Hg; [eauto with tcp|]. guards.
  rewrite (modify_at _ _ _ _ Hc). osimpl. eexists _, _. split; [done|].
  eapply quietly_step; eauto with tcp. by constructor.
Qed.

Lemma shift_ok b : length b = MAX_BACKLOG -> Forall id_ok b ->
  exists popped b1 b', index b 0 = Done popped /\ shift_loop (MAX_BACKLOG - 1) 1 b = Done b1 /\
    store b1 (MAX_BACKLOG - 1) (-1) = Done b' /\ length b' = MAX_BACKLOG /\ Forall id_ok b'.
Proof.
  intros Hl Hf. destruct b as [|b0 [|b1 [|b2 [|b3 [|]]]]]; try discriminate.
  rewrite !Forall_cons in Hf. destruct Hf as (H0 & H1 & H2 & H3 & _).
  exists b0, [b1; b2; b3; b3], [b1; b2; b3; -1]. split_and!; try done.
  rewrite !Forall_cons. by split_and!.
Qed.

Lemma accept_quiet id cs :
  table_ok cs -> exists r cs', rust_tcp_accept id cs = Done (r, cs') /\ quietly cs cs'.
Proof.
  intros Hok. unfold rust_tcp_accept. destruct (bad_id id) eqn:Hid; [eauto with tcp|].
  apply good_id in Hid as [Hid _]. destruct (conn_table_at cs _ Hok Hid) as (c & Hc & Hcok).
  unfold accept_turn. oindex Hc.
  destruct (negb (in_use c) || _ || _) eqn:Hg; [eauto with tcp|]. guards.
  destruct (Nat.ltb_spec 0 (backlog_len c)); [|eauto with tcp].
  destruct (shift_ok (backlog c)) as (popped & b1 & b' & -> & E1 & E2 & Hl & Hf); [apply Hcok..|].
  osimpl. rewrite E1. osimpl. rewrite E2. osimpl. rewrite (modify_at _ _ _ _ Hc). osimpl.
  eexists _, _. split; [done|]. eapply quietly_step; eauto with tcp. constructor; auto.
  pose proof (co_backlog_len _ Hcok). lia.
Qed.

Lemma connect_turn_quiet idx deadline now cs :
  table_ok cs -> (idx < MAX_TCP_CONNS)%nat ->
  exists r cs', connect_turn idx deadline now cs = Done (r, cs') /\ quietly cs cs'.
Proof.
  intros Hok Hid. destruct (conn_table_at cs _ Hok Hid) as (c & Hc & _). unfold connect_turn. oindex Hc.
  destruct (state c) eqn:Hs; eauto with tcp. destruct (deadline <=? now); [|eauto with tcp].
  rewrite (modify_at _ _ _ _ Hc). osimpl. eexists _, _. split; [done|].
  eapply quietly_step; eauto with tcp. by constructor.
Qed.

(** Some connections freed, the others as they were. *)
Definition freed (cs cs1 : list TcpConn) : Prop :=
  forall k c1, cs1 !! k = Some c1 -> exists c, cs !! k = Some c /\ (c1 = c \/ c1 = set_in_use false c).

(** Freeing twice is freeing once. *)
Lemma free_quiet cs cs1 j c1 :
  quietly cs cs1 -> freed cs cs1 -> cs1 !! j = Some c1 ->
  quietly cs (<[j := set_in_use false c1]> cs1) /\ freed cs (<[j := set_in_use false c1]> cs1).
Proof.
  intros Hq Hf Hc1. destruct (Hf j c1 Hc1) as (c & Hc & Hor). split.
  - destruct Hor as [-> | ->].
    + eapply quietly_step; eauto with tcp. constructor.
    + change (set_in_use false (set_in_use false c)) with (set_in_use false c). by rewrite list_insert_id.
  - intros k c' Hk. destruct (decide (k = j)) as [->|Hne].
    + rewrite list_lookup_insert_eq in Hk by by eapply lookup_lt_Some. injection Hk as <-.
      exists c. split; [done|]. right. by destruct Hor as [-> | ->].
    + rewrite list_lookup_insert_ne in Hk by done. by apply Hf.
Qed.

Lemma close_loop_quiet cs idx n i cs1 c :
  table_ok cs -> quietly cs cs1 -> freed cs cs1 -> (idx < MAX_TCP_CONNS)%nat ->
  cs1 !! idx = Some c -> (i + n <= MAX_BACKLOG)%nat ->
  exists cs2, close_loop idx n i cs1 = Done cs2 /\ quietly cs cs2 /\ freed cs cs2.
Proof.
  intros Hok Hq Hf Hid. revert i c cs1 Hq Hf. induction n as [|n IH]; intros i c cs1 Hq Hf Hc Hn; simpl; [eauto|].
  assert (Hok1 : table_ok cs1) by (destruct Hq as (ls & ? & _); by eapply evolves_ok).
  pose proof (proj1 (Forall_lookup _ _) (proj2 Hok1) _ _ Hc) as Hcok. oindex Hc.
  destruct (lookup_lt_is_Some_2 (backlog c) i) as [b Hb]. { rewrite (co_backlog _ Hcok). lia. }
  oindex Hb. pose proof (proj1 (Forall_lookup _ _) (co_backlog_ids _ Hcok) _ _ Hb) as Hbid.
  destruct (Z.leb_spec 0 b); osimpl; [|eapply IH; eauto; lia].
  destruct (conn_table_at cs1 (Z.to_nat b) Hok1) as (c2 & Hc2 & _). { unfold id_ok in Hbid. lia. }
  rewrite (modify_at _ _ _ _ Hc2). osimpl.
  destruct (lookup_lt_is_Some_2 (<[Z.to_nat b := set_in_use false c2]> cs1) idx) as [c' Hc'].
  { rewrite length_insert, (proj1 Hok1). lia. }
  destruct (free_quiet _ _ _ _ Hq Hf Hc2). eapply IH; [done|done|exact Hc'|lia].
Qed.

Lemma close_quiet id cs :
  table_ok cs -> exists cs', rust_tcp_close id cs = Done cs' /\ quietly cs cs'.
Proof.
  intros Hok. unfold rust_tcp_close. destruct (bad_id id) eqn:Hid; [eauto with tcp|].
  apply good_id in Hid as [Hid _]. destruct (conn_table_at cs _ Hok Hid) as (c & Hc & Hcok). cbv zeta. oindex Hc.
  destruct (in_use c) eqn:Hu; cbn [negb]; [|eauto with tcp].
  destruct (is_listener c) eqn:Hl.
  - destruct (close_loop_quiet cs (Z.to_nat id) (backlog_len c) 0 cs c) as (cs2 & -> & Hq & Hf); eauto with tcp.
    { intros k ck Hk. by eauto. }
    { apply Hcok. }
    osimpl. assert (Hok2 : table_ok cs2) by (destruct Hq as (ls & ? & _); by eapply evolves_ok).
    destruct (conn_table_at cs2 _ Hok2 Hid) as (c2 & Hc2 & _). rewrite (modify_at _ _ _ _ Hc2).
    eexists. split; [done|]. by apply (free_quiet _ _ _ _ Hq Hf Hc2).
  - assert (Hp : plain c = true) by (unfold plain; by rewrite Hu, Hl).
    destruct (state c) eqn:Hs; eauto with tcp; rewrite (modify_at _ _ _ _ Hc); eexists; (split; [done|]);
      eapply quietly_step; eauto with tcp; constructor; rewrite ?Hs; done.
Qed.

(** ** Steps at one connection *)

(** Neither read nor written by the application. *)
Definition silent (l : label) : bool := match l with Wrote _ | Took _ => false | _ => true end.

Lemma silent_writes l : Forall (fun l => silent l = true) l -> writes l = [] /\ reads l = [].
Proof.
  unfold writes, reads. induction 1 as [|x ? Hx _ [IH1 IH2]]; [done|]. csimpl. rewrite IH1, IH2. by destruct x.
Qed.

Lemma quiet_silent l : Forall (fun l => quiet l = true) l -> Forall (fun l => silent l = true) l.
Proof. intros H. eapply Forall_impl; [exact H|]. by intros []. Qed.

(** Quiet steps of any connection, then steps of one. *)
Lemma explains_at cs c a ls j l sc :
  cs !! j = Some sc -> all_quiet ls ->
  (forall k, own_writes c a k = if decide (k = j) then writes l else []) ->
  (forall k, own_reads c a k = if decide (k = j) then reads l else []) ->
  (forall ip sg, Arrived ip sg ∈ l ->
     exists now1 now2 data, c = Packet now1 now2 ip (Some data) /\ parse_segment data = Done (Some sg)) ->
  (forall seg, seg ∈ segments a -> Emitted seg ∈ l) ->
  explains cs c a (extend j l ls).
Proof.
  intros Hsc Hq Hw Hr Ha He.
  assert (Hs : forall k, writes (ls k) = [] /\ reads (ls k) = []) by (intros k; apply silent_writes, quiet_silent, Hq).
  assert (Happ : forall x y, writes (x ++ y) = writes x ++ writes y /\ reads (x ++ y) = reads x ++ reads y).
  { intros x y. unfold writes, reads. by rewrite !fmap_app, !join_app. }
  split.
  - intros k. rewrite Hw. unfold extend. destruct (decide (k = j)); [|apply Hs].
    rewrite (proj1 (Happ _ _)). by rewrite (proj1 (Hs k)).
  - intros k. rewrite Hr. unfold extend. destruct (decide (k = j)); [|apply Hs].
    rewrite (proj2 (Happ _ _)). by rewrite (proj2 (Hs k)).
  - intros k ip sg Hin. assert (Hin' : Arrived ip sg ∈ ls k ++ l).
    { unfold extend in Hin. destruct (decide (k = j)); [done|]. apply elem_of_app. by left. }
    apply elem_of_app in Hin' as [Hin'|Hin']; [|by apply Ha].
    pose proof (proj1 (Forall_forall _ _) (Hq k) _ Hin') as H. done.
  - intros seg Hin. exists j, sc. split; [done|]. rewrite extend_eq. apply elem_of_app. right. by apply He.
Qed.

(** Calls that are neither [Read] nor [Write]. *)
Definition no_io (c : call) : Prop := forall a j, own_writes c a j = [] /\ own_reads c a j = [].

Lemma explains_silent cs c a ls j l sc :
  no_io c -> cs !! j = Some sc -> all_quiet ls -> Forall (fun l => silent l = true) l ->
  (forall ip sg, Arrived ip sg ∈ l ->
     exists now1 now2 data, c = Packet now1 now2 ip (Some data) /\ parse_segment data = Done (Some sg)) ->
  (forall seg, seg ∈ segments a -> Emitted seg ∈ l) ->
  explains cs c a (extend j l ls).
Proof.
  intros Hio Hsc Hq Hl Ha He. destruct (silent_writes l Hl) as [Hw Hr].
  eapply explains_at; eauto; intros k; [rewrite Hw|rewrite Hr]; destruct (Hio a k) as [E1 E2];
    [rewrite E1|rewrite E2]; by case_decide.
Qed.

Lemma quiet_does c t r cs' :
  no_io c -> quietly (conns t) cs' -> do_call c t = Done (mkAnswer r [] [], mkTcp cs' (poll_cursor t)) -> does c t.
Proof.
  intros Hio (ls & Hev & Hq) Hdo. exists (mkAnswer r [] []), (mkTcp cs' (poll_cursor t)), ls. split; [done|].
  split; [done|]. apply explains_quiet; [done| | |done]; intros j; apply Hio.
Qed.

Lemma quiet_calls_do t :
  table_ok (conns t) ->
  does Socket t /\ (forall id port, is_u16 port -> does (Bind id port) t) /\ (forall id, does (ListenOn id) t) /\
  (forall id, does (Accept id) t) /\ (forall id, does (AcceptNonblock id) t) /\
  (forall idx deadline now, (idx < MAX_TCP_CONNS)%nat -> does (ConnectTurn idx deadline now) t) /\
  (forall id, does (Close id) t).
Proof.
  intros Hok. split_and!.
  - pose proof (socket_quiet (conns t)) as Hq. destruct (rust_tcp_socket (conns t)) as [r cs'] eqn:E.
    eapply quiet_does; [done|exact Hq|]. unfold do_call, on_table. by rewrite E.
  - intros id port Hport. destruct (bind_quiet id port _ Hok Hport) as (r & cs' & E & Hq).
    eapply quiet_does; [done|exact Hq|]. unfold do_call, on_table. by rewrite E.
  - intros id. destruct (listen_quiet id _ Hok) as (r & cs' & E & Hq).
    eapply quiet_does; [done|exact Hq|]. unfold do_call, on_table. by rewrite E.
  - intros id. destruct (accept_quiet id _ Hok) as (r & cs' & E & Hq).
    eapply quiet_does; [done|exact Hq|]. unfold do_call, on_table. by rewrite E.
  - intros id. destruct (accept_quiet id _ Hok) as (r & cs' & E & Hq).
    eapply quiet_does; [done|exact Hq|]. unfold do_call, on_table, rust_tcp_accept_nonblock. by rewrite E.
  - intros idx deadline now Hidx. destruct (connect_turn_quiet idx deadline now _ Hok Hidx) as (r & cs' & E & Hq).
    eapply quiet_does; [done|exact Hq|]. unfold do_call, on_table. by rewrite E.
  - intros id. destruct (close_quiet id _ Hok) as (cs' & E & Hq).
    eapply quiet_does; [done|exact Hq|]. unfold do_call, on_table. by rewrite E.
Qed.

(** ** Reading and writing *)

Lemma nothing_does c t r :
  do_call c t = Done (mkAnswer (Some r) [] [], mkTcp (conns t) (poll_cursor t)) -> r <= 0 -> does c t.
Proof.
  intros Hdo Hr. exists (mkAnswer (Some r) [] []), (mkTcp (conns t) (poll_cursor t)), no_labels.
  split; [done|]. split; [apply evolves_refl|]. apply explains_quiet; [apply no_labels_quiet| | |done].
  - intros j. destruct c as [| | | | | | |id []| | | |]; try done. simpl. case_decide; [|done].
    by rewrite Z2Nat.nonpos.
  - intros j. destruct c; try done. simpl. by case_decide.
Qed.

Lemma write_does id data t : table_ok (conns t) -> does (Write id data) t.
Proof.
  intros Hok. destruct data as [data|]; [|by eapply nothing_does].
  destruct (bad_id id) eqn:Hid.
  { eapply nothing_does with (r := -1); [|lia]. cbn [do_call]. unfold on_table, rust_tcp_send. by rewrite Hid. }
  pose proof Hid as Hbad. apply good_id in Hid as [Hid Hidn].
  destruct (conn_table_at _ _ Hok Hid) as (c & Hc & Hcok).
  destruct (negb (in_use c) || is_listener c || fin_needed (fins c)) eqn:Hg.
  { eapply nothing_does with (r := -1); [|lia]. cbn [do_call]. unfold on_table, rust_tcp_send.
    rewrite Hbad. cbv zeta. oindex Hc. by rewrite Hg. }
  destruct (open_state (state c)) eqn:Ho.
  2: { eapply nothing_does with (r := -1); [|lia]. cbn [do_call]. unfold on_table, rust_tcp_send.
       rewrite Hbad. cbv zeta. oindex Hc. rewrite Hg. by destruct (state c). }
  destruct (send_buf_write_spec data (tx c) (co_tx _ Hcok)) as (n & s & Hw & _).
  exists (mkAnswer (Some (Z.of_nat n)) [] []), (mkTcp (<[Z.to_nat id := set_tx s c]> (conns t)) (poll_cursor t)),
    (extend (Z.to_nat id) [Wrote (take n data)] no_labels).
  split_and!.
  - cbn [do_call]. unfold on_table, rust_tcp_send. rewrite Hbad. cbv zeta. oindex Hc. rewrite Hg.
    rewrite Hw. osimpl. rewrite (modify_at _ _ _ _ Hc). by destruct (state c).
  - eapply evolves_then; [apply evolves_refl|done|]. apply run_one; [by apply persists_refl|]. guards.
    constructor; auto. unfold plain. by apply andb_true_iff; rewrite negb_true_iff.
  - apply (explains_at _ _ _ _ _ _ c Hc no_labels_quiet); try done.
    + intros k. unfold own_writes. cbn [code from_option Datatypes.id]. rewrite Nat2Z.id.
      destruct (decide (id = Z.of_nat k)); destruct (decide (k = Z.to_nat id)); try lia; [|done].
      unfold writes. csimpl. by rewrite app_nil_r.
    + intros k. by case_decide.
    + intros ip sg Hin. apply list_elem_of_singleton in Hin. done.
    + intros seg Hin. by apply not_elem_of_nil in Hin.
Qed.

Lemma read_does id null room t : table_ok (conns t) -> does (Read id null room) t.
Proof.
  intros Hok. destruct (bad_id id || null) eqn:Hb.
  { eapply nothing_does with (r := -1); [|lia]. cbn [do_call]. unfold on_table, rust_tcp_recv. by rewrite Hb. }
  pose proof Hb as Hb'. apply orb_false_iff in Hb' as [Hid _]. apply good_id in Hid as [Hid Hidn].
  destruct (conn_table_at _ _ Hok Hid) as (c & Hc & Hcok).
  assert (Hdo : do_call (Read id null room) t =
    ('(r, out, cs) ← (if negb (in_use c) || is_listener c then Done (-1, [], conns t)
      else if (0 <? recv_len (rx c))%nat then
        '(out, r) ← recv_buf_read room (rx c);
        cs ← modify (Z.to_nat id) (set_rx r) (conns t); Done (Z.of_nat (length out), out, cs)
      else if peer_fin_received (fins c) then Done (0, [], conns t)
      else match state c with Established | FinWait1 | FinWait2 => Done (-2, [], conns t) | _ => Done (-1, [], conns t) end);
     Done (mkAnswer (Some r) out [], mkTcp cs (poll_cursor t)))).
  { cbn [do_call]. unfold on_table, rust_tcp_recv. rewrite Hb. cbv zeta. oindex Hc.
    by destruct (if _ || _ then _ else _) as [[[]]|]. }
  destruct (negb (in_use c) || is_listener c) eqn:Hg; [eapply nothing_does; [exact Hdo|lia]|].
  destruct (Nat.ltb_spec 0 (recv_len (rx c))).
  2: { destruct (peer_fin_received (fins c)); [eapply nothing_does; [exact Hdo|lia]|].
       destruct (state c); (eapply nothing_does; [exact Hdo|lia]). }
  destruct (recv_buf_read_spec room (rx c) (co_rx _ Hcok)) as (r & Hr & _). rewrite Hr in Hdo.
  cbn [mbind outcome_bind] in Hdo. rewrite (modify_at _ _ _ _ Hc) in Hdo. cbn [mbind outcome_bind] in Hdo.
  eexists _, _, (extend (Z.to_nat id) [Took (take room (pending (rx c)))] no_labels). split_and!; [exact Hdo| |].
  - eapply evolves_then; [apply evolves_refl|done|]. apply run_one; [by apply persists_refl|]. guards.
    econstructor; eauto. unfold plain. by apply andb_true_iff; rewrite negb_true_iff.
  - apply (explains_at _ _ _ _ _ _ c Hc no_labels_quiet).
    + intros k. by case_decide.
    + intros k. unfold own_reads. cbn [bytes_out].
      destruct (decide (id = Z.of_nat k)); destruct (decide (k = Z.to_nat id)); try lia; [|done].
      unfold reads. csimpl. by rewrite app_nil_r.
    + intros ip sg Hin. by apply list_elem_of_singleton in Hin.
    + intros seg Hin. by apply not_elem_of_nil in Hin.
Qed.
