(* ===== verification/TcpPackets.v ===== *)
(** * Opening connections, packets, timers: all calls

    The calls that send: [rust_tcp_connect], [rust_tcp_handle_packet] and [rust_tcp_poll];
    and, with them, all calls of the module. *)

From S2P Require Import Prelude Ring Bytes Tcp TcpSeg TcpCalls TcpEvolve.
Local Open Scope Z_scope.
Local Open Scope machine_scope.

(** ** Opening a connection *)

Lemma connect_does id ip port now1 now2 now3 t :
  table_ok (conns t) -> is_u16 port -> does (Connect id ip port now1 now2 now3) t.
Proof.
  intros Hok Hport16. unfold does. cbn [do_call]. unfold on_table, connect_start.
  assert (Hno : exists a t' ls, Done (mkAnswer (Some (-1)) [] [], mkTcp (conns t) (poll_cursor t)) = Done (a, t') /\
    evolves (conns t) ls (conns t') /\ explains (conns t) (Connect id ip port now1 now2 now3) a ls).
  { eexists _, _, no_labels. split; [done|]. split; [apply evolves_refl|].
    apply explains_quiet; done || apply no_labels_quiet. }
  destruct (bad_id id) eqn:Hid; [exact Hno|].
  apply good_id in Hid as [Hid _]. set (idx := Z.to_nat id) in *.
  destruct (conn_table_at _ _ Hok Hid) as (c & Hc & Hcok). cbv zeta. oindex Hc.
  destruct (negb (in_use c) || _ || _) eqn:Hg; [exact Hno|]. guards.
  assert (Hbound : exists c1 l, (if local_port (addr c) =? 0
      then candidate ← pick_port (S MAX_TCP_CONNS) 49152 (conns t); modify idx (set_port candidate) (conns t)
      else Done (conns t)) = Done (<[idx := c1]> (conns t)) /\
    slot_run (conns t) idx c l c1 /\ Forall (fun l => silent l = true /\ forall ip sg, l <> Arrived ip sg) l /\
    plain c1 = true /\ state c1 = Closed /\ local_port (addr c1) <> 0).
  { assert (plain c = true) by (unfold plain; by apply andb_true_iff; rewrite negb_true_iff).
    destruct (Z.eqb_spec (local_port (addr c)) 0).
    - destruct (pick_port_spec _ Hok) as (p & -> & Hp & Hfree). osimpl. rewrite (modify_at _ _ _ _ Hc).
      exists (set_port p c), [Quiet]. split; [done|]. split.
      { apply run_one; [by apply persists_refl|]. constructor; eauto using not_taken; unfold is_u16; lia. }
      split_and!; try done; [by repeat constructor|]. cbn. lia.
    - exists c, []. rewrite list_insert_id by done. split_and!; try done; constructor. }
  destruct Hbound as (c1 & l & -> & Hrun & Hl & Hp & Hs & Hport). osimpl.
  set (c2 := start_connect ip port ((now1 *₃₂ 12345) +₃₂ 1) (now2 +₃₂ BASE_RTO_TICKS) c1).
  assert (Hlt : (idx < length (conns t))%nat) by by eapply lookup_lt_Some.
  rewrite (modify_at _ _ _ c1) by by apply list_lookup_insert_eq. osimpl. rewrite list_insert_insert_eq.
  unfold send_syn. fold c2.
  rewrite (index_at (x := c2)) by by apply list_lookup_insert_eq. osimpl.
  eexists _, _, (extend idx (l ++ [Quiet; Emitted _]) no_labels). split; [reflexivity|]. split.
  - cbn [conns]. eapply evolves_then; [apply evolves_refl|done|]. eapply run_app; [done|].
    unfold plain in Hp. guards. apply run_two with c2; [|by constructor; [unfold plain; rewrite H2, H3| | |]| |].
    + by intros c0 Hc0; simplify_eq.
    + by apply persists_live.
    + constructor; [|done]. unfold plain. cbn. by rewrite H2, H3.
  - eapply explains_silent; [done|done|apply no_labels_quiet| | |].
    + apply Forall_app. split; [|by repeat constructor]. eapply Forall_impl; [exact Hl|]. by intros ? [].
    + intros ip' sg' Hin. apply elem_of_app in Hin as [Hin|Hin].
      * pose proof (proj1 (Forall_forall _ _) Hl _ Hin) as [_ Hne]. by destruct (Hne ip' sg').
      * rewrite !elem_of_cons in Hin. destruct Hin as [|[|Hin]]; [done|done|]. by apply not_elem_of_nil in Hin.
    + cbn [segments]. intros seg Hin. apply list_elem_of_singleton in Hin as ->.
      apply elem_of_app. right. by right; left.
Qed.

(** ** Packets *)

(** Steps that handling a segment can cause. *)
Record reacts (cs : list TcpConn) (ip : Z) (sg : Segment) (out : list (Z * list Z)) (cs' : list TcpConn)
    (ls : nat -> list label) : Prop := {
  re_evolves : evolves cs ls cs';
  re_silent j : Forall (fun l => silent l = true /\ forall ip' sg', l = Arrived ip' sg' -> ip' = ip /\ sg' = sg) (ls j);
  re_out seg : seg ∈ out -> exists j sc, cs !! j = Some sc /\ Emitted seg ∈ ls j;
}.

Lemma reacts_refl cs ip sg : reacts cs ip sg [] cs no_labels.
Proof.
  split; [apply evolves_refl|constructor|]. intros seg Hin. by apply not_elem_of_nil in Hin.
Qed.

Lemma reacts_then cs ip sg out cs1 ls j c1 l c2 :
  reacts cs ip sg out cs1 ls -> cs1 !! j = Some c1 -> persists cs j c1 -> slot_step cs j c1 l c2 ->
  silent l = true ->
  (forall ip' sg', l = Arrived ip' sg' -> ip' = ip /\ sg' = sg) ->
  reacts cs ip sg (match l with Emitted seg => seg :: out | _ => out end) (<[j := c2]> cs1) (extend j [l] ls).
Proof.
  intros [Hev Hs Ho] Hc1 Hp Hstep Hl Ha. split.
  - eapply evolves_then; eauto using run_one.
  - intros k. unfold extend. case_decide; [|apply Hs]. apply Forall_app. split; [apply Hs|]. by apply Forall_singleton.
  - intros seg Hin.
    assert (Hold : seg ∈ out -> exists k sc, cs !! k = Some sc /\ Emitted seg ∈ extend j [l] ls k).
    { intros Hi. destruct (Ho seg Hi) as (k & sc & Hk & He). exists k, sc. split; [done|].
      unfold extend. case_decide; [|done]. apply elem_of_app. by left. }
    destruct l as [| | | |seg']; auto. apply elem_of_cons in Hin as [->|Hin]; [|by auto].
    destruct (lookup_lt_is_Some_2 cs j) as [sc Hsc].
    { rewrite <- (proj1 Hev). by eapply lookup_lt_Some. }
    exists j, sc. split; [done|]. rewrite extend_eq. apply elem_of_app. right. by left.
Qed.

Definition same_place (c c' : TcpConn) : Prop :=
  addr c' = addr c /\ is_listener c' = is_listener c /\ listener_id c' = listener_id c.

(** Being closed by a segment is being freed. *)
Definition closes_freed (c c' : TcpConn) : Prop := in_use c' = true -> state c' = Closed -> state c = Closed.

Lemma fin_acked_frame now c :
  same_place c (fin_acked now c) /\ closes_freed c (fin_acked now c) /\
  (in_handshake (state c) = false -> in_handshake (state (fin_acked now c)) = false).
Proof. unfold fin_acked, same_place, closes_freed. destruct (state c) eqn:E; cbn; rewrite ?E; split_and!; congruence. Qed.

Lemma on_ack_frame now sg c :
  same_place c (on_ack now sg c) /\ closes_freed c (on_ack now sg c) /\
  (in_handshake (state c) = false -> in_handshake (state (on_ack now sg c)) = false).
Proof.
  unfold on_ack. destruct (_ && _); [|unfold same_place, closes_freed; split_and!; auto].
  cbv zeta. destruct (_ && _); [|unfold same_place, closes_freed; split_and!; auto].
  match goal with |- context [fin_acked now ?x] => destruct (fin_acked_frame now x) as (H1 & H2 & H3) end.
  split; [exact H1|]. split; [exact H2|exact H3].
Qed.

Lemma on_data_frame sg c c' b :
  on_data sg c = Done (c', b) ->
  same_place c c' /\ state c' = state c /\ in_use c' = in_use c /\ fins c' = fins c /\ tx c' = tx c /\
  timers c' = timers c /\ (b = true -> in_use c = true).
Proof.
  unfold on_data. destruct (in_use c) eqn:Hu; cbn [andb].
  - destruct (_ && _); [|by intros [= <- <-]]. intros H.
    apply bind_Done in H as ([n r] & _ & [= <- <-]). by cbn.
  - by intros [= <- <-].
Qed.

Lemma on_fin_frame now sg c :
  same_place c (on_fin now sg c).1 /\ in_use (on_fin now sg c).1 = in_use c /\ tx (on_fin now sg c).1 = tx c /\
  (in_handshake (state c) = false -> in_handshake (state (on_fin now sg c).1) = false) /\
  (state (on_fin now sg c).1 = Closed -> state c = Closed) /\
  ((on_fin now sg c).2 = true -> in_use c = true).
Proof.
  unfold on_fin, same_place. destruct (in_use c) eqn:Hu; [|cbn; split_and!; auto].
  destruct (_ && _); [|cbn; split_and!; auto].
  cbn. destruct (state c) eqn:E; cbn; rewrite ?E; cbn; split_and!; congruence.
Qed.

Lemma on_segment_frame now1 now2 sg c c' b :
  on_segment now1 now2 sg c = Done (c', b) -> in_handshake (state c) = false ->
  same_place c c' /\ in_handshake (state c') = false /\ (b = true -> in_use c' = true) /\ closes_freed c c'.
Proof.
  unfold on_segment. intros H Hh. apply bind_Done in H as ([c1 b1] & Hd & H).
  destruct (on_ack_frame now1 sg c) as ((P1 & P2 & P3) & C1 & S1). specialize (S1 Hh).
  apply on_data_frame in Hd as ((Q1 & Q2 & Q3) & S2 & U2 & _ & _ & _ & B2).
  destruct (on_fin_frame now2 sg c1) as ((R1 & R2 & R3) & U3 & _ & S3 & C3 & B3).
  destruct (on_fin now2 sg c1) as [c2 b2]. cbn in *. injection H as <- <-.
  split; [unfold same_place; split_and!; congruence|]. split; [apply S3; congruence|]. split.
  - rewrite U3. intros [Hb|Hb]%orb_true_iff; [|auto]. rewrite U2. auto.
  - intros Hu Hs. apply C1; [congruence|]. rewrite <- S2. auto.
Qed.

Lemma tcp_has_room_spec cs lidx :
  table_ok cs -> id_ok lidx ->
  exists b, has_room lidx cs = Done b /\
    (b = true -> exists l, cs !! Z.to_nat lidx = Some l /\ is_listener l = true /\ (backlog_len l < MAX_BACKLOG)%nat).
Proof.
  intros Hok Hl. unfold has_room. destruct (Z.leb_spec 0 lidx); [|by exists false].
  destruct (conn_table_at cs (Z.to_nat lidx) Hok) as (l & Hc & _). { unfold id_ok in Hl. lia. }
  oindex Hc. eexists. split; [done|]. intros Hb. guards. exists l. split; [done|]. split; [done|]. lia.
Qed.

(** The table after a reaction is well-formed. *)
Lemma reacts_ok cs ip sg out cs' ls : table_ok cs -> reacts cs ip sg out cs' ls -> table_ok cs'.
Proof. intros Hok Hr. eapply evolves_ok; [done|apply Hr]. Qed.

(** A reply is one more step. *)
Lemma reply_then cs ip sg cs' ls j c seg :
  reacts cs ip sg [] cs' ls -> cs' !! j = Some c -> persists cs j c -> slot_step cs j c (Emitted seg) c ->
  exists ls', reacts cs ip sg [seg] cs' ls'.
Proof.
  intros Hr Hc Hp Hs. exists (extend j [Emitted seg] ls). rewrite <- (list_insert_id cs' j c Hc).
  by eapply (reacts_then cs ip sg [] cs' ls j c (Emitted seg) c).
Qed.

Lemma matches_plain ip sg c : matches ip sg c = true -> plain c = true.
Proof. unfold matches, plain. intros H. guards. by apply andb_true_iff; rewrite negb_true_iff. Qed.

Lemma on_syn_received_reacts cs ip sg idx c :
  table_ok cs -> cs !! idx = Some c -> matches ip sg c = true -> has sg TCP_FLAG_RST = false ->
  state c = SynReceived ->
  exists cs' ls, on_syn_received sg idx c cs = Done cs' /\ reacts cs ip sg [] cs' ls.
Proof.
  intros Hok Hc Hm Hrst Hs. unfold on_syn_received.
  destruct (_ && _) eqn:Hg; [|exists cs, no_labels; split; [done|apply reacts_refl]]. guards. ostore.
  assert (R1 : reacts cs ip sg [] (<[idx := establish (ack sg) c]> cs) (extend idx [Arrived ip sg] no_labels)).
  { eapply (reacts_then cs ip sg [] cs no_labels idx c (Arrived ip sg)); eauto using reacts_refl, persists_refl.
    - by econstructor.
    - by intros ? ? [= <- <-]. }
  set (cs1 := <[idx := _]> cs) in *. pose proof (reacts_ok _ _ _ _ _ _ Hok R1) as Hok1.
  pose proof (Forall_lookup_1 _ _ _ _ (proj2 Hok) Hc) as Hcok.
  destruct (tcp_has_room_spec cs1 (listener_id c) Hok1 (co_listener _ Hcok)) as (b & -> & Hroom). osimpl.
  destruct b.
  - destruct (Hroom eq_refl) as (l & Hl & Hlis & Hlen).
    pose proof (Forall_lookup_1 _ _ _ _ (proj2 Hok1) Hl) as Hlok. pose proof (co_backlog _ Hlok).
    oindex Hl. rewrite store_Done by lia. osimpl. ostore.
    assert (Hper : persists cs (Z.to_nat (listener_id c)) l).
    { destruct (decide (Z.to_nat (listener_id c) = idx)) as [E|Hne].
      - rewrite E in Hl. unfold cs1 in Hl. rewrite list_lookup_insert_eq in Hl by by eapply lookup_lt_Some.
        simplify_eq. apply matches_plain in Hm. unfold plain in Hm. guards. cbn in Hlis. congruence.
      - unfold cs1 in Hl. rewrite list_lookup_insert_ne in Hl by done. by apply persists_refl. }
    eexists _, _. split; [done|]. eapply (reacts_then _ _ _ [] _ _ _ l Quiet); try done.
    constructor; [done|by rewrite length_insert|lia|]. apply Forall_insert; [apply Hlok|].
    apply lookup_lt_Some in Hc. rewrite (proj1 Hok) in Hc. unfold id_ok. lia.
  - assert (Hc1 : cs1 !! idx = Some (establish (ack sg) c))
      by (apply list_lookup_insert_eq; by eapply lookup_lt_Some).
    rewrite (modify_at _ _ _ _ Hc1). eexists _, _. split; [done|].
    apply matches_plain in Hm. unfold plain in Hm. guards.
    eapply (reacts_then _ _ _ [] _ _ _ _ Quiet); try done; constructor.
Qed.

Lemma on_matched_reacts now1 now2 cs ip sg idx c :
  table_ok cs -> cs !! idx = Some c -> matches ip sg c = true ->
  exists r cs' out ls, on_matched now1 now2 sg idx cs = Done (r, cs') /\ send_reply r cs' = Done out /\
    reacts cs ip sg out cs' ls.
Proof.
  intros Hok Hc Hm. pose proof (Forall_lookup_1 _ _ _ _ (proj2 Hok) Hc) as Hcok.
  unfold on_matched. oindex Hc. pose proof (matches_plain _ _ _ Hm) as Hp.
  assert (Hat : forall c', <[idx := c']> cs !! idx = Some c')
    by (intros; apply list_lookup_insert_eq; by eapply lookup_lt_Some).
  destruct (has sg TCP_FLAG_RST) eqn:Hrst.
  { ostore. eexists _, _, [], _. split; [done|]. split; [done|].
    eapply (reacts_then _ _ _ [] _ _ _ _ Quiet); eauto using reacts_refl, persists_refl; done || constructor. }
  assert (Hgen : in_handshake (state c) = false -> exists r cs' out ls,
    ('(c, answer) ← on_segment now1 now2 sg c; cs ← store cs idx c;
     Done (if (answer : bool) then AckFor idx else NoReply, cs)) = Done (r, cs') /\
    send_reply r cs' = Done out /\ reacts cs ip sg out cs' ls).
  { intros Hh. destruct (on_segment_ok now1 now2 sg c Hcok) as (c' & b & Hseg & _).
    rewrite Hseg. osimpl. ostore.
    destruct (on_segment_frame _ _ _ _ _ _ Hseg Hh) as ((_ & Hlis & _) & Hh' & Hu & Hcl).
    assert (R1 : reacts cs ip sg [] (<[idx := c']> cs) (extend idx [Arrived ip sg] no_labels)).
    { eapply (reacts_then cs ip sg [] cs no_labels idx c (Arrived ip sg)); eauto using reacts_refl, persists_refl.
      - by econstructor.
      - by intros ? ? [= <- <-]. }
    destruct b; [|by eexists _, _, [], _].
    assert (Hp' : plain c' = true) by (unfold plain in *; guards; rewrite Hu, Hlis; [by apply negb_true_iff|done]).
    assert (Hper : persists cs idx c') by (intros c0 Hc0; simplify_eq; auto).
    destruct (reply_then _ _ _ _ _ _ _ _ R1 (Hat c') Hper (s_ack cs idx c' Hp' Hh')) as (ls' & R2).
    eexists _, _, _, ls'. split; [done|]. split; [|exact R2]. unfold send_reply, send_ack_only.
    by rewrite (index_at (Hat c')). }
  destruct (state c) eqn:Hs; try (apply Hgen; done).
  - destruct (on_syn_sent sg c) as [c'|] eqn:Hsyn.
    + ostore. assert (R1 : reacts cs ip sg [] (<[idx := c']> cs) (extend idx [Arrived ip sg] no_labels)).
      { eapply (reacts_then cs ip sg [] cs no_labels idx c (Arrived ip sg)); eauto using reacts_refl, persists_refl.
        - by econstructor.
        - by intros ? ? [= <- <-]. }
      assert (Hc' : plain c' = true /\ in_handshake (state c') = false /\ state c' <> Closed).
      { unfold on_syn_sent in Hsyn. destruct (_ && _); [|done]. injection Hsyn as <-. by split_and!. }
      destruct Hc' as (Hp' & Hh' & Hs').
      assert (Hper : persists cs idx c') by (apply persists_live; [unfold plain in Hp'; by guards|done]).
      destruct (reply_then _ _ _ _ _ _ _ _ R1 (Hat c') Hper (s_ack cs idx c' Hp' Hh')) as (ls' & R2).
      eexists _, _, _, ls'. split; [done|]. split; [|exact R2]. unfold send_reply, send_ack_only.
      by rewrite (index_at (Hat c')).
    + eexists _, _, [], no_labels. split; [done|]. split; [done|]. apply reacts_refl.
  - destruct (on_syn_received_reacts cs ip sg idx c) as (cs' & ls & -> & R); auto.
    osimpl. by eexists _, _, [], ls.
Qed.

Lemma on_bare_syn_reacts now1 now2 cs ip sg :
  is_u16 (src_port sg) -> is_u16 (dst_port sg) ->
  position (matches ip sg) cs = None ->
  exists out ls, send_reply (on_bare_syn now1 now2 ip sg cs).1 (on_bare_syn now1 now2 ip sg cs).2 = Done out /\
    reacts cs ip sg out (on_bare_syn now1 now2 ip sg cs).2 ls.
Proof.
  intros Hsp Hdp Hnone. unfold on_bare_syn.
  destruct (position (fun c => in_use c && _ && _ && _) cs) as [l|] eqn:Hl; [|exists [], no_labels; split; [done|apply reacts_refl]].
  destruct (position (fun c => negb (in_use c)) cs) as [n|] eqn:Hn;
    [|exists [], no_labels; split; [done|apply reacts_refl]].
  apply position_Some in Hl as (lc & Hlc & Hg & _). apply position_Some in Hn as (c & Hc & Hu & _). guards.
  cbv zeta. cbn [fst snd]. set (c' := spawn _ _ _ _ _).
  assert (R1 : reacts cs ip sg [] (<[n := c']> cs) (extend n [Quiet] no_labels)).
  { apply (reacts_then cs ip sg [] cs no_labels n c Quiet); auto using reacts_refl, persists_refl; [|done].
    eapply s_spawn; eauto. by apply position_None. }
  assert (Hat : <[n := c']> cs !! n = Some c') by (apply list_lookup_insert_eq; by eapply lookup_lt_Some).
  destruct (reply_then _ _ _ _ _ _ _ _ R1 Hat (persists_live _ _ c' eq_refl ltac:(done)) (s_syn_ack cs n c' eq_refl eq_refl)) as (ls' & R2).
  eexists _, ls'. split; [|exact R2]. unfold send_reply, send_syn_ack. by rewrite (index_at Hat).
Qed.

Lemma range_ok {A} (l : list A) a b : (a <= b)%nat -> (b <= length l)%nat -> range l a b = Done (take (b - a) (drop a l)).
Proof. intros H1 H2. unfold range. by rewrite !(proj2 (Nat.leb_le _ _)). Qed.

Lemma parse_segment_total data : exists sg, parse_segment data = Done sg.
Proof.
  unfold parse_segment. destruct (Nat.ltb_spec (length data) 20); [by eauto|].
  rewrite !(range_ok data) by lia. osimpl.
  destruct (lookup_lt_is_Some_2 data 12) as [o Ho]; [lia|]. oindex Ho.
  destruct (lookup_lt_is_Some_2 data 13) as [f Hf]; [lia|]. oindex Hf.
  destruct (Nat.ltb_spec (Z.to_nat (Z.shiftr o 4 * 4)) 20); osimpl; [by eauto|].
  destruct (Nat.ltb_spec (length data) (Z.to_nat (Z.shiftr o 4 * 4))); [by eauto|].
  rewrite range_ok by lia. osimpl. by eauto.
Qed.

Lemma of_be_bytes_u16 l : Forall is_u8 l -> length l = 2%nat -> is_u16 (of_be_bytes l).
Proof.
  intros Hl Hlen. destruct l as [|a [|b [|]]]; try done. rewrite !Forall_cons in Hl.
  unfold of_be_bytes, is_u8, is_u16 in *. cbn [fold_left]. lia.
Qed.

Lemma parse_ports data sg :
  Forall is_u8 data -> parse_segment data = Done (Some sg) -> is_u16 (src_port sg) /\ is_u16 (dst_port sg).
Proof.
  intros Hd. unfold parse_segment. destruct (Nat.ltb_spec (length data) 20); [done|].
  rewrite !(range_ok data) by lia. osimpl. intros Hp.
  apply bind_Done in Hp as (o & _ & Hp). apply bind_Done in Hp as (fl & _ & Hp).
  cbv zeta in Hp. destruct (_ || _); [done|]. apply bind_Done in Hp as (pl & _ & [= <-]). cbn [src_port dst_port].
  split; apply of_be_bytes_u16; rewrite ?length_take, ?length_drop; try lia; by apply Forall_take, Forall_drop.
Qed.

Lemma packet_does now1 now2 ip payload t :
  table_ok (conns t) -> call_ok (Packet now1 now2 ip payload) -> does (Packet now1 now2 ip payload) t.
Proof.
  intros Hok Hbytes. destruct payload as [data|]; [|by eapply nothing_does].
  destruct (parse_segment_total data) as [[sg|] Hp].
  2: { eapply nothing_does with (r := 0); [|lia]. cbn [do_call]. unfold on_table, rust_tcp_handle_packet. by rewrite Hp. }
  assert (exists r cs' out ls, on_packet now1 now2 ip sg (conns t) = Done (r, cs') /\ send_reply r cs' = Done out /\
    reacts (conns t) ip sg out cs' ls) as (r & cs' & out & ls & E1 & E2 & Hr).
  { unfold on_packet. destruct (position _ _) as [idx|] eqn:Hpos.
    - apply position_Some in Hpos as (c & Hc & Hm & _). by eapply on_matched_reacts.
    - destruct (_ && _); [|eexists _, _, [], no_labels; split; [done|]; split; [done|apply reacts_refl]].
      destruct (parse_ports _ _ Hbytes Hp) as [Hsp Hdp].
      destruct (on_bare_syn_reacts now1 now2 _ _ _ Hsp Hdp Hpos) as (out & ls & E & Hr).
      destruct (on_bare_syn now1 now2 ip sg (conns t)) as [r cs']. by exists r, cs', out, ls. }
  exists (mkAnswer (Some 0) [] out), (mkTcp cs' (poll_cursor t)), ls.
  split; [|split; [exact (re_evolves _ _ _ _ _ _ Hr)|]].
  - cbn [do_call]. unfold on_table, rust_tcp_handle_packet. rewrite Hp. osimpl. rewrite E1. osimpl. by rewrite E2.
  - assert (Hs : forall j, writes (ls j) = [] /\ reads (ls j) = []).
    { intros j. apply silent_writes. eapply Forall_impl; [apply Hr|]. by intros ? []. }
    split; [apply Hs|apply Hs| |apply Hr].
    intros j ip' sg' Hin. pose proof (proj1 (Forall_forall _ _) (re_silent _ _ _ _ _ _ Hr j) _ Hin) as [_ H].
    destruct (H ip' sg' eq_refl) as [-> ->]. eauto.
Qed.

(** ** Timers and transmission *)

Lemma expire_again now c : (expire now c).2 = true ->
  in_use c = true /\ in_handshake (state c) = true /\ in_use (expire now c).1 = true /\
  is_listener (expire now c).1 = is_listener c /\ state (expire now c).1 = state c.
Proof.
  unfold expire. destruct (in_use c) eqn:Hu; [|done]. cbn [negb].
  destruct (state c) eqn:Hs;
    repeat match goal with |- context [if ?b then _ else _] => destruct b end; cbn; try done; by rewrite Hs.
Qed.

(** Listeners are not in a handshake. *)
Definition listeners_listen (cs : list TcpConn) : Prop :=
  forall j c, cs !! j = Some c -> is_listener c = true -> state c = Listen.

Lemma expire_listens now c : (is_listener c = true -> state c = Listen) ->
  is_listener (expire now c).1 = true -> state (expire now c).1 = Listen.
Proof.
  unfold expire. destruct (in_use c); [|done]. cbn [negb]. intros H.
  destruct (state c) eqn:Hs;
    repeat match goal with |- context [if ?b then _ else _] => destruct b end; cbn; rewrite ?Hs; auto.
Qed.

Lemma expire_loop_quiet cs now n i cs1 :
  table_ok cs -> quietly cs cs1 -> (i + n <= MAX_TCP_CONNS)%nat -> listeners_listen cs1 ->
  (forall k, (i <= k)%nat -> cs1 !! k = cs !! k) ->
  exists again cs2, expire_loop now n i cs1 = Done (again, cs2) /\ quietly cs cs2 /\
    (forall k, again = Some k ->
       exists c, cs2 !! k = Some c /\ plain c = true /\ in_handshake (state c) = true).
Proof.
  intros Hok. revert i cs1. induction n as [|n IH]; intros i cs1 Hq Hn Hll Hrest; simpl.
  { exists None, cs1. by split_and!. }
  assert (Hok1 : table_ok cs1) by (destruct Hq as (ls & ? & _); by eapply evolves_ok).
  destruct (conn_table_at cs1 i Hok1) as (c & Hc & _); [lia|]. oindex Hc.
  pose proof (s_timer cs i c now) as Hstep. pose proof (expire_again now c) as Hag.
  pose proof (expire_listens now c (Hll i c Hc)) as Hl'.
  destruct (expire now c) as [c' again]. cbn [fst snd] in *. ostore.
  assert (Hper : persists cs i c) by (apply persists_refl; by rewrite <- Hrest).
  pose proof (quietly_step _ _ _ _ _ Hq Hc Hper Hstep) as Hq'.
  destruct again.
  - destruct (Hag eq_refl) as (Hu & Hh & Hu' & Hlis & Hst).
    eexists _, _. split; [done|]. split; [exact Hq'|]. intros k [= <-]. exists c'.
    split; [apply list_lookup_insert_eq; by eapply lookup_lt_Some|]. rewrite Hst. split; [|done].
    unfold plain. rewrite Hu', Hlis. destruct (is_listener c) eqn:E; [|done].
    specialize (Hll i c Hc E). rewrite Hll in Hh. done.
  - apply IH; [exact Hq'|lia| |intros k Hk; rewrite list_lookup_insert_ne by lia; apply Hrest; lia].
    intros j cj Hj. destruct (decide (j = i)) as [->|Hne].
    + rewrite list_lookup_insert_eq in Hj by by eapply lookup_lt_Some. by simplify_eq.
    + rewrite list_lookup_insert_ne in Hj by done. exact (Hll j cj Hj).
Qed.

(** Only a connection that is alive has something to send. *)
Lemma next_segment_inv now c seg c' :
  next_segment now c = Done (Some (seg, c')) ->
  in_use c = true /\ is_listener c = false /\ active (state c) = true /\ is_listener c' = false.
Proof.
  unfold next_segment. destruct (_ || _) eqn:Hg; [done|]. guards. intros Hn. split_and!; try done.
  destruct (_ <? _)%nat.
  - apply bind_Done in Hn as (data & _ & E). simplify_eq. by destruct (_ =? 0).
  - destruct (_ && _); [|done]. by simplify_eq.
Qed.

Lemma next_live cs j now c seg c' : next_segment now c = Done (Some (seg, c')) -> persists cs j c.
Proof.
  intros (Hu & _ & Ha & _)%next_segment_inv. apply persists_live; [done|]. intros E. by rewrite E in Ha.
Qed.

Lemma send_loop_emits now n start step t cs ls :
  table_ok cs -> evolves cs ls (conns t) -> all_quiet ls ->
  exists out t' ls', send_loop now n start step t = Done (out, t') /\ evolves cs ls' (conns t') /\
    (ls' = ls /\ out = [] \/
     exists j sc seg, cs !! j = Some sc /\ out = [seg] /\ ls' = extend j [Emitted seg] ls).
Proof.
  intros Hok Hev Hq. revert step. induction n as [|n IH]; intros step; cbn [send_loop].
  { exists [], t, ls. split_and!; auto. }
  pose proof (evolves_ok _ _ _ Hok Hev) as Hok1. set (i := ((start + step) `mod` MAX_TCP_CONNS)%nat).
  destruct (conn_table_at (conns t) i Hok1) as (c & Hc & Hcok). { apply Nat.mod_upper_bound. done. }
  cbv zeta. oindex Hc. destruct (next_segment_ok now c Hcok) as (next & Hn & _). rewrite Hn. osimpl.
  destruct next as [[seg c']|]; [|apply IH]. ostore.
  eexists _, _, (extend i [Emitted seg] ls). split; [done|]. split.
  - eapply evolves_then; eauto. apply run_one; [|by eapply s_next]. eapply next_live; eauto.
  - right. destruct (lookup_lt_is_Some_2 cs i) as [sc Hsc].
    { rewrite <- (proj1 Hev). by eapply lookup_lt_Some. }
    by exists i, sc, seg.
Qed.

Lemma poll_does now t : table_ok (conns t) -> listeners_listen (conns t) -> does (Poll now) t.
Proof.
  intros Hok Hll. unfold does. cbn [do_call]. unfold rust_tcp_poll.
  destruct (expire_loop_quiet (conns t) now MAX_TCP_CONNS 0 (conns t) Hok (quietly_refl _) (le_n _) Hll (fun _ _ => eq_refl))
    as (again & cs2 & -> & (ls & Hev & Hq) & Hag). osimpl.
  assert (Hone : forall k seg c, cs2 !! k = Some c -> persists (conns t) k c ->
    slot_step (conns t) k c (Emitted seg) c ->
    exists ls', evolves (conns t) ls' cs2 /\ explains (conns t) (Poll now) (mkAnswer (Some 0) [] [seg]) ls').
  { intros k seg c Hc Hper Hs. exists (extend k [Emitted seg] ls). split.
    - rewrite <- (list_insert_id cs2 k c Hc). eapply evolves_then; eauto using run_one.
    - destruct (lookup_lt_is_Some_2 (conns t) k) as [sc Hsc].
      { rewrite <- (proj1 Hev). by eapply lookup_lt_Some. }
      eapply explains_silent; try done; [by apply Forall_singleton| |].
      + intros ip sg Hin. by apply list_elem_of_singleton in Hin.
      + intros s Hin. apply list_elem_of_singleton in Hin as ->. by apply list_elem_of_singleton. }
  destruct again as [k|].
  - destruct (Hag k eq_refl) as (c & Hc & Hp & Hh). unfold retransmit. oindex Hc.
    assert (Hper : persists (conns t) k c).
    { apply persists_live; [unfold plain in Hp; by guards|]. intros E. by rewrite E in Hh. }
    unfold send_syn, send_syn_ack. oindex Hc.
    destruct (state c) eqn:Hs; try done; unfold is_state; rewrite bool_decide_decide;
      [rewrite decide_True by done|rewrite decide_False by done]; osimpl.
    + destruct (Hone k _ c Hc Hper (s_syn _ k c Hp Hs)) as (ls' & H1 & H2). by eexists _, _, ls'.
    + destruct (Hone k _ c Hc Hper (s_syn_ack _ k c Hp Hs)) as (ls' & H1 & H2). by eexists _, _, ls'.
  - destruct (send_loop_emits now MAX_TCP_CONNS (poll_cursor t `mod` MAX_TCP_CONNS) 0
                (mkTcp cs2 (poll_cursor t)) (conns t) ls Hok Hev Hq) as (out & t' & ls' & -> & Hev' & Hcase).
    osimpl. eexists _, _, ls'. split; [done|]. split; [done|].
    destruct Hcase as [[-> ->]|(j & sc & seg & Hsc & -> & ->)].
    + by apply explains_quiet.
    + eapply explains_silent; try done; [by apply Forall_singleton| |].
      * intros ip sg Hin. by apply list_elem_of_singleton in Hin.
      * intros s Hin. apply list_elem_of_singleton in Hin as ->. by apply list_elem_of_singleton.
Qed.

(** ** All calls *)

Definition tcp_ok (t : Tcp) : Prop := table_ok (conns t) /\ listeners_listen (conns t).

Lemma call_does c t : tcp_ok t -> call_ok c -> does c t.
Proof.
  intros [Hok Hll] Hc. pose proof (quiet_calls_do t Hok) as (H1 & H2 & H3 & H4 & H5 & H6 & H7).
  destruct c; auto using write_does, read_does, connect_does, packet_does, poll_does.
Qed.

Lemma step_listens cs j c l c' :
  slot_step cs j c l c' -> (is_listener c = true -> state c = Listen) -> is_listener c' = true -> state c' = Listen.
Proof.
  intros Hs H. destruct Hs; cbn; try done; auto; try (unfold plain in *; guards; congruence).
  - intros Hl. specialize (H Hl). congruence.
  - unfold on_syn_sent in *. destruct (_ && _); [|done]. simplify_eq. cbn.
    pose proof (matches_plain _ _ _ H0). unfold plain in *. guards. congruence.
  - pose proof (matches_plain _ _ _ H0). unfold plain in *. guards. congruence.
  - apply on_segment_frame in H3 as ((_ & Hl & _) & _); [|done]. rewrite Hl.
    pose proof (matches_plain _ _ _ H0). unfold plain in *. guards. congruence.
  - by apply expire_listens.
  - apply next_segment_inv in H0 as (_ & _ & _ & Hl). congruence.
Qed.

Lemma run_listens cs j c ls c' :
  slot_run cs j c ls c' -> (is_listener c = true -> state c = Listen) -> is_listener c' = true -> state c' = Listen.
Proof. induction 1; eauto using step_listens. Qed.

Lemma evolves_tcp_ok t ls t' : tcp_ok t -> evolves (conns t) ls (conns t') -> tcp_ok t'.
Proof.
  intros [Hok Hll] Hev. split; [by eapply evolves_ok|]. intros j c' Hc'.
  destruct (lookup_lt_is_Some_2 (conns t) j) as [c Hc].
  { rewrite <- (proj1 Hev). by eapply lookup_lt_Some. }
  destruct (proj2 Hev j c Hc) as (c'' & Hc'' & Hr). simplify_eq. eapply run_listens; [done|]. exact (Hll j c Hc).
Qed.

Lemma CONNS_tcp_ok : tcp_ok CONNS.
Proof.
  split; [apply CONNS_ok|]. intros j c Hc. apply lookup_replicate in Hc as [-> _]. done.
Qed.
