(* ===== verification/TcpWire.v ===== *)
(** * Two ends of a connection

    Two hosts run the stack; each has other sockets, other peers and its own clock. The
    network between them may lose, repeat, delay and reorder what either has sent. This file
    has the worlds, their steps, and the invariant that ties the state of the two ends to
    what their applications have written and read. *)

From S2P Require Import Prelude Ring Bytes Tcp TcpSeg TcpCalls TcpEvolve TcpPackets.
Local Open Scope Z_scope.
Local Open Scope machine_scope.

(** One end as the other knows it: its slot, its addresses, and the first sequence numbers
    of the two directions. *)
Record Side : Type := mkSide {
  slot : nat;
  port : Z;
  peer_ip : Z;
  peer_port : Z;
  iss : Z;
  irs : Z;
}.

(** A host, what its application has written and read, whether it was told the end of the
    stream, and what has been sent to the peer on this connection. *)
Record End : Type := mkEnd {
  host : Tcp;
  wrote : list Z;
  got : list Z;
  eof : bool;
  outbox : list (list Z);
}.

Definition alive (c : TcpConn) : Prop := in_use c = true /\ state c <> Closed.

(** A packet for this end of the connection, and one from it. *)
Definition for_side (s : Side) (ip : Z) (sg : Segment) : bool :=
  (ip =? peer_ip s) && (src_port sg =? peer_port s) && (dst_port sg =? port s).

Definition from_side (s : Side) (seg : Z * list Z) : bool :=
  (seg.1 =? peer_ip s) &&
  match parse_segment seg.2 with
  | Done (Some sg) => (src_port sg =? port s) && (dst_port sg =? peer_port s)
  | _ => false
  end.

(** The network delivers what it likes, but nobody forges segments of this connection. *)
Definition genuine (s : Side) (peer_out : list (list Z)) (c : call) : Prop :=
  match c with
  | Packet _ _ ip (Some data) =>
      forall sg, parse_segment data = Done (Some sg) -> for_side s ip sg = true -> data ∈ peer_out
  | _ => True
  end.

(** A read with room that returns 0. *)
Definition says_eof (s : Side) (c : call) (a : answer) : bool :=
  match c with
  | Read id _ (S _) => bool_decide (id = Z.of_nat (slot s)) && bool_decide (code a = Some 0)
  | _ => false
  end.

(** One call at an end whose connection is alive. *)
Inductive end_step (s : Side) (peer_out : list (list Z)) (e : End) : End -> Prop :=
| end_step_call c a t' conn :
    conns (host e) !! slot s = Some conn -> alive conn ->
    call_ok c -> genuine s peer_out c -> do_call c (host e) = Done (a, t') ->
    Z.of_nat (length (wrote e ++ own_writes c a (slot s))) < 2147483646 ->
    end_step s peer_out e
      (mkEnd t' (wrote e ++ own_writes c a (slot s)) (got e ++ own_reads c a (slot s))
         (eof e || says_eof s c a) (outbox e ++ (snd <$> filter (fun seg => from_side s seg = true) (segments a)))).

Inductive wire_step (a b : Side) : End * End -> End * End -> Prop :=
| wire_a ea eb ea' : end_step a (outbox eb) ea ea' -> wire_step a b (ea, eb) (ea', eb)
| wire_b ea eb eb' : end_step b (outbox ea) eb eb' -> wire_step a b (ea, eb) (ea, eb').

(** ** The invariant *)

(** The number of byte [n] of a stream, the first being 0. *)
Definition seq_at (start : Z) (n : nat) : Z := start +₃₂ (1 + Z.of_nat n).

(** Segments of an end: it has written [w], has sent [h] positions of the stream (the FIN
    counts as one) and a FIN if [f]; the peer has sent [hp]. *)
Record sound (iss irs : Z) (w : list Z) (h : nat) (f : bool) (hp : nat) (sg : Segment) : Prop := {
  so_rst : has sg TCP_FLAG_RST = false;
  so_syn : has sg TCP_FLAG_SYN = true -> seq sg = iss /\ payload_bytes sg = [] /\ has sg TCP_FLAG_FIN = false;
  so_data : has sg TCP_FLAG_SYN = false ->
    exists off, seq sg = seq_at iss off /\ (off + length (payload_bytes sg) <= h)%nat /\
      payload_bytes sg `prefix_of` drop off w /\
      (has sg TCP_FLAG_FIN = true -> f = true /\ (off + length (payload_bytes sg) = length w)%nat /\ (length w < h)%nat);
  so_ack : has sg TCP_FLAG_ACK = true -> exists r, ack sg = seq_at irs r /\ (r <= hp)%nat;
}.

(** The sending half of a connection. *)
Record sends (s : Side) (w : list Z) (h : nat) (f : bool) (c : TcpConn) : Prop := {
  se_fin : fin_sent (fins c) = f;
  se_fin_needed : f = true -> fin_needed (fins c) = true /\ unacked (tx c) = [] /\
    fin_seq (fins c) = seq_at (iss s) (length w);
  se_start : in_handshake (state c) = true ->
    send_unacked (tx c) = iss s /\ unacked (tx c) = [] /\ w = [] /\ f = false;
  se_acked : in_handshake (state c) = false ->
    exists n, send_unacked (tx c) = seq_at (iss s) n /\ unacked (tx c) = drop n w /\
      (n + sent_count (tx c) <= h)%nat;
}.

(** The receiving half: the peer has written [w'] and sent [hp] positions. *)
Record receives (s : Side) (w' : list Z) (hp : nat) (g : list Z) (c : TcpConn) : Prop := {
  rc_start : state c = SynSent -> g = [] /\ pending (rx c) = [] /\ peer_fin_received (fins c) = false;
  rc_next : state c <> SynSent ->
    exists n, recv_next (rx c) = seq_at (irs s) n /\ (n <= hp)%nat /\ g ++ pending (rx c) = take n w' /\
      (if peer_fin_received (fins c) then n = S (length w') else (n <= length w')%nat);
}.

(** No other connection of the host has the same addresses, nor can it get them. *)
Definition other_ok (s : Side) (c : TcpConn) : Prop :=
  plain c = true -> local_port (addr c) = port s ->
  state c <> Closed /\ state c <> SynSent /\ ~ (remote_ip (addr c) = peer_ip s /\ remote_port (addr c) = peer_port s).

Record conn_inv (s : Side) (w : list Z) (h : nat) (f : bool) (w' : list Z) (hp : nat) (g : list Z)
    (c : TcpConn) : Prop := {
  ci_ok : conn_ok c;
  ci_addr : addr c = mkAddr (port s) (peer_ip s) (peer_port s);
  ci_plain : is_listener c = false;
  ci_sends : sends s w h f c;
  ci_receives : receives s w' hp g c;
}.

Record side_ok (s : Side) : Prop := {
  sd_port : is_u16 (port s);
  sd_port_nz : port s <> 0;
  sd_peer : is_u16 (peer_port s);
  sd_iss : is_u32 (iss s);
  sd_irs : is_u32 (irs s);
}.

(** What is behind an outbox, a count of positions and a FIN. *)
Record end_inv (s : Side) (e : End) (h : nat) (f : bool) (w' : list Z) (hp : nat) (fp : bool) : Prop := {
  ei_host : tcp_ok (host e);
  ei_high : (h <= length (wrote e) + (if f then 1 else 0))%nat;
  ei_bound : Z.of_nat (length (wrote e)) < 2147483646;
  ei_conn : forall c, conns (host e) !! slot s = Some c -> alive c ->
    conn_inv s (wrote e) h f w' hp (got e) c /\
    forall k ck, conns (host e) !! k = Some ck -> k <> slot s -> other_ok s ck;
  ei_out : forall bytes, bytes ∈ outbox e ->
    exists sg, parse_segment bytes = Done (Some sg) /\ sound (iss s) (irs s) (wrote e) h f hp sg;
  ei_got : got e `prefix_of` w';
  ei_eof : eof e = true -> fp = true /\ got e = w';
}.

(** ** Sequence numbers *)

Lemma seq_at_succ start n k : seq_at start n +₃₂ Z.of_nat k = seq_at start (n + k).
Proof. unfold seq_at, wrap32. rewrite Zplus_mod_idemp_l. f_equal. lia. Qed.

Lemma seq_at_u32 start n : is_u32 (seq_at start n).
Proof. apply wrap32_u32. Qed.

Lemma seq_at_inj start n m :
  Z.of_nat n < 2147483648 -> Z.of_nat m < 2147483648 -> seq_at start n = seq_at start m -> n = m.
Proof.
  unfold seq_at, wrap32. intros Hn Hm H.
  assert (E : (Z.of_nat n - Z.of_nat m) mod 4294967296 = 0).
  { replace (Z.of_nat n - Z.of_nat m) with ((start + (1 + Z.of_nat n)) - (start + (1 + Z.of_nat m))) by lia.
    rewrite Zminus_mod, H, Z.sub_diag. reflexivity. }
  apply Z.mod_divide in E as [k Hk]; [|done]. lia.
Qed.

Lemma seq_at_sub start n m :
  Z.of_nat n < 2147483648 -> Z.of_nat m < 2147483648 ->
  seq_at start n -₃₂ seq_at start m = (Z.of_nat n - Z.of_nat m) mod 4294967296.
Proof.
  intros Hn Hm. unfold seq_at, wrap32. rewrite <- Zminus_mod. f_equal. lia.
Qed.

Lemma seq_gt_at start n m :
  Z.of_nat n < 2147483648 -> Z.of_nat m < 2147483648 ->
  seq_gt (seq_at start n) (seq_at start m) = (m <? n)%nat.
Proof.
  intros Hn Hm. unfold seq_gt. rewrite seq_at_sub by done. unfold as_i32.
  destruct (Nat.ltb_spec m n).
  - rewrite Z.mod_small by lia. destruct (Z.ltb_spec (Z.of_nat n - Z.of_nat m) 2147483648); lia.
  - destruct (decide (n = m)) as [->|]; [rewrite Z.sub_diag; reflexivity|].
    rewrite <- (Z.mod_add _ 1), Z.mod_small by lia.
    destruct (Z.ltb_spec (Z.of_nat n - Z.of_nat m + 1 * 4294967296) 2147483648); lia.
Qed.

Lemma seq_at_0 start : start +₃₂ 1 = seq_at start 0.
Proof. reflexivity. Qed.

(** ** Segments that arrive *)
Section Arrival.
Context (s : Side) (w : list Z) (h : nat) (f : bool) (w' : list Z) (hp : nat) (fp : bool) (g : list Z).
Context (Hw : Z.of_nat (length w) < 2147483646) (Hh : (h <= length w + (if f then 1 else 0))%nat).
Context (Hw' : Z.of_nat (length w') < 2147483646) (Hhp : (hp <= length w' + (if fp then 1 else 0))%nat).
Context (sg : Segment) (Hsg : sound (irs s) (iss s) w' hp fp h sg).

Lemma high_bound : Z.of_nat h < 2147483647.
Proof. destruct f; lia. Qed.
Lemma peer_bound : Z.of_nat hp < 2147483647.
Proof. destruct fp; lia. Qed.

Lemma on_ack_same now c :
  rx (on_ack now sg c) = rx c /\ fins (on_ack now sg c) = fins c.
Proof.
  unfold on_ack. destruct (_ && _); [|done]. cbv zeta. destruct (_ && _); [|done].
  unfold fin_acked. by destruct (state _).
Qed.

Lemma fin_acked_tx now c : tx (fin_acked now c) = tx c.
Proof. unfold fin_acked. by destruct (state _). Qed.

Lemma on_ack_sends now c :
  conn_ok c -> in_handshake (state c) = false -> sends s w h f c -> sends s w h f (on_ack now sg c).
Proof.
  intros Hok Hst [Hf Hfn _ Ha]. destruct (on_ack_frame now sg c) as (_ & _ & Hst'). specialize (Hst' Hst).
  destruct (on_ack_same now c) as [_ Efins].
  enough (Htx : (f = true -> unacked (tx (on_ack now sg c)) = []) /\
    exists n, send_unacked (tx (on_ack now sg c)) = seq_at (iss s) n /\
      unacked (tx (on_ack now sg c)) = drop n w /\ (n + sent_count (tx (on_ack now sg c)) <= h)%nat).
  { destruct Htx as [Hu Hn]. split; rewrite ?Efins; [done| |congruence|done].
    intros E. destruct (Hfn E) as (H1 & _ & H3). auto. }
  destruct (Ha Hst) as (n & En & Eu & Hle). pose proof high_bound.
  unfold on_ack. destruct (has sg TCP_FLAG_ACK) eqn:Hack; cbn [andb].
  2: { split; [|eauto]. intros E. by destruct (Hfn E) as (_ & H2 & _). }
  destruct (so_ack _ _ _ _ _ _ _ Hsg Hack) as (r & -> & Hr). rewrite En, seq_gt_at by lia.
  destruct (Nat.ltb_spec n r) as [Hlt|].
  2: { split; [|eauto]. intros E. by destruct (Hfn E) as (_ & H2 & _). }
  cbv zeta. rewrite seq_at_sub, Z.mod_small by lia.
  set (adv := Z.to_nat _).
  assert (Hadv : (adv <= send_buffered (tx c))%nat) by (unfold adv; lia).
  pose proof (f_equal length Eu) as Hlen. rewrite unacked_length, length_drop in Hlen.
  destruct (send_buf_consume_spec adv (tx c) (co_tx _ Hok) Hadv) as (_ & Hun & Hsent & _).
  match goal with |- context [if ?b then fin_acked now ?x else _] =>
    assert (Etx : tx (if b then fin_acked now x else x) = set_una (seq_at (iss s) r) (send_buf_consume adv (tx c)))
      by (destruct b; [apply fin_acked_tx|done])
  end.
  rewrite Etx. cbn [send_unacked sent_count set_una].
  change (unacked (set_una _ ?x)) with (unacked x). rewrite Hun, Hsent, Eu, drop_drop.
  split.
  - intros E. destruct (Hfn E) as (_ & Hnil & _). rewrite Eu in Hnil.
    apply (f_equal length) in Hnil. rewrite length_drop in Hnil. cbn in Hnil. apply drop_ge. lia.
  - exists r. split; [done|]. split; [|pose proof (so_sent _ (co_tx _ Hok)); unfold adv; lia].
    destruct (decide (r - n <= send_buffered (tx c))%nat).
    + f_equal. lia.
    + rewrite !drop_ge by lia. done.
Qed.

(** Data goes to the receive buffer if it is the next of the stream. *)
Lemma on_data_receives c c' b :
  conn_ok c -> state c <> SynSent -> receives s w' hp g c -> on_data sg c = Done (c', b) ->
  receives s w' hp g c' /\ conn_ok c'.
Proof.
  intros Hok Hst Hr Hd. destruct (on_data_ok sg c Hok) as (c1 & b1 & E1 & Hok'). assert (c1 = c') as -> by congruence.
  split; [|done]. clear E1 b1. destruct (on_data_frame _ _ _ _ Hd) as (_ & Est & _ & Ef & _).
  unfold on_data in Hd. destruct (in_use c && _ && _) eqn:Hg; [|by simplify_eq].
  apply andb_true_iff in Hg as [[_ Hne]%andb_true_iff Hseq%Z.eqb_eq].
  apply negb_true_iff, Nat.eqb_neq in Hne.
  destruct (recv_buf_write_spec (payload_bytes sg) (rx c) (co_rx _ Hok)) as (n & r & E & _ & Hn & Hp & Hnext).
  rewrite E in Hd. cbn [mbind outcome_bind] in Hd. injection Hd as <- _.
  split; [by rewrite Est|]. intros _. rewrite Ef.
  destruct (rc_next _ _ _ _ _ Hr Hst) as (m & Em & Hm & Hg & Hfin). pose proof peer_bound.
  destruct (has sg TCP_FLAG_SYN) eqn:Hsyn.
  { destruct (so_syn _ _ _ _ _ _ _ Hsg Hsyn) as (_ & Hnil & _). by rewrite Hnil in Hne. }
  destruct (so_data _ _ _ _ _ _ _ Hsg Hsyn) as (off & Eo & Ho & Hpre & _).
  assert (off = m) as ->.
  { apply (seq_at_inj (irs s)); [lia|lia|]. congruence. }
  assert (Hlen : (m + length (payload_bytes sg) <= length w')%nat).
  { apply prefix_length in Hpre. rewrite length_drop in Hpre. lia. }
  exists (m + n)%nat. cbn [rx set_rx recv_next set_next].
  change (pending (set_next _ r)) with (pending r). rewrite Hnext, Em, seq_at_succ, Hp, app_assoc, Hg.
  split; [done|]. split; [lia|]. split.
  - rewrite <- take_take_drop. f_equal. destruct Hpre as [rest ->]. rewrite take_app_le; [done|lia].
  - destruct (peer_fin_received (fins c)); lia.
Qed.

Lemma on_fin_receives now c :
  state c <> SynSent -> receives s w' hp g c -> receives s w' hp g (on_fin now sg c).1.
Proof.
  intros Hst Hr. unfold on_fin. destruct (in_use c && _ && _) eqn:Hg; [|done].
  apply andb_true_iff in Hg as [[_ Hfin]%andb_true_iff Hseq%Z.eqb_eq].
  destruct (rc_next _ _ _ _ _ Hr Hst) as (m & Em & Hm & Hgot & Hf). pose proof peer_bound.
  destruct (has sg TCP_FLAG_SYN) eqn:Hsyn.
  { destruct (so_syn _ _ _ _ _ _ _ Hsg Hsyn) as (_ & _ & Hno). congruence. }
  destruct (so_data _ _ _ _ _ _ _ Hsg Hsyn) as (off & Eo & Ho & _ & Hend).
  destruct (Hend Hfin) as (_ & Hoff & Hlt). rewrite Eo, seq_at_succ, Hoff, Em in Hseq.
  assert (m = length w') as -> by (symmetry; apply (seq_at_inj (irs s)); [lia|lia|done]).
  cbn [fst]. set (c1 := set_rx _ c). set (c2 := set_fins _ c1). set (c3 := set_state _ c2).
  assert (H3 : receives s w' hp g c3).
  { split.
    - unfold c3. cbn. destruct (state c); done.
    - intros _. exists (S (length w')). unfold c3, c2, c1. cbn [rx fins set_state set_fins set_rx peer_fin_received].
      cbn [recv_next set_next]. change (pending (set_next _ ?x)) with (pending x).
      rewrite Em. change 1 with (Z.of_nat 1). rewrite seq_at_succ, Nat.add_1_r.
      split; [done|]. split; [lia|]. split; [|done]. rewrite Hgot. rewrite !take_ge by lia. done. }
  destruct (state c3) eqn:E3; try exact H3. destruct H3 as [_ Hn3]. split.
  - intros Hs. change (state c3 = SynSent) in Hs. congruence.
  - intros _. apply Hn3. congruence.
Qed.
End Arrival.
