(* ===== verification/TcpStep.v ===== *)
(** * One step of the connection keeps the invariant

    Each kind of step of [slot_step], at the connection and at its neighbours. *)

From S2P Require Import Prelude Ring Bytes Tcp TcpSeg TcpCalls TcpEvolve TcpPackets TcpWire.
Local Open Scope Z_scope.
Local Open Scope machine_scope.

Lemma emitted_parse s c sq ak fl data :
  side_ok s -> addr c = mkAddr (port s) (peer_ip s) (peer_port s) -> is_u32 sq -> is_u32 ak ->
  (length data <= TCP_MSS)%nat ->
  (segment_of c sq ak fl data).1 = peer_ip s /\
  parse_segment (segment_of c sq ak fl data).2 = Done (Some (mkSegment (port s) (peer_port s) sq ak fl data)).
Proof.
  intros [] Ha Hsq Hak Hd. unfold segment_of, send_segment. rewrite Ha. split; [done|].
  cbn [snd local_port remote_port remote_ip]. rewrite parse_header, !wrap16_id, !wrap32_id by done.
  by rewrite take_ge.
Qed.

Section Step.
Context (s : Side) (Hs : side_ok s) (cs : list TcpConn) (Hcs : table_ok cs).
Context (w : list Z) (h : nat) (f : bool) (w' : list Z) (hp : nat) (fp : bool) (g : list Z).
Context (Hw : Z.of_nat (length w) < 2147483646) (Hh : (h <= length w + (if f then 1 else 0))%nat).
Context (Hw' : Z.of_nat (length w') < 2147483646) (Hhp : (hp <= length w' + (if fp then 1 else 0))%nat).

(** What a step leaves behind, with what was written and read in it. *)
Definition left_by (l : label) (c' : TcpConn) : Prop :=
  exists h' f', (h <= h')%nat /\ (f = true -> f' = true /\ writes [l] = []) /\
    (h' <= length (w ++ writes [l]) + (if f' then 1 else 0))%nat /\
    (alive c' -> conn_inv s (w ++ writes [l]) h' f' w' hp (g ++ reads [l]) c') /\
    (forall seg, l = Emitted seg -> seg.1 = peer_ip s /\ exists sg, parse_segment seg.2 = Done (Some sg) /\
       src_port sg = port s /\ dst_port sg = peer_port s /\
       sound (iss s) (irs s) (w ++ writes [l]) h' f' hp sg) /\
    (g ++ reads [l]) `prefix_of` w'.

Lemma inv_prefix c : conn_inv s w h f w' hp g c -> g `prefix_of` w'.
Proof.
  intros [_ _ _ _ [H1 H2]]. destruct (decide (state c = SynSent)) as [E|E].
  - destruct (H1 E) as [-> _]. apply prefix_nil.
  - destruct (H2 E) as (n & _ & _ & Hg & _). etrans; [by apply prefix_app_r|].
    rewrite Hg. apply prefix_take.
Qed.

(** A step that neither reads, writes nor sends. *)
Lemma left_silent l c c' :
  conn_inv s w h f w' hp g c -> writes [l] = [] -> reads [l] = [] -> (forall seg, l <> Emitted seg) ->
  (alive c' -> conn_inv s w h f w' hp g c') -> left_by l c'.
Proof.
  intros Hinv Hw0 Hr0 Hne Hc'. exists h, f. rewrite Hw0, Hr0, !app_nil_r. split_and!; auto.
  - intros seg E. by destruct (Hne seg).
  - by eapply inv_prefix.
Qed.

(** Fields that the invariant does not mention. *)
Lemma inv_frame c c' :
  conn_inv s w h f w' hp g c -> conn_ok c' -> addr c' = addr c -> is_listener c' = is_listener c ->
  tx c' = tx c -> rx c' = rx c -> fins c' = fins c -> state c' = state c -> conn_inv s w h f w' hp g c'.
Proof.
  intros [Hok Ha Hp [] []] Hok' Ea El Et Er Ef Es.
  split; [done|congruence|congruence| |]; split; rewrite ?Et, ?Er, ?Ef, ?Es; done.
Qed.

Lemma una_u32 c : conn_inv s w h f w' hp g c -> is_u32 (send_unacked (tx c)).
Proof.
  intros [_ _ _ [_ _ H1 H2] _]. destruct (in_handshake (state c)) eqn:E.
  - destruct (H1 eq_refl) as [-> _]. apply Hs.
  - destruct (H2 eq_refl) as (n & -> & _). apply seq_at_u32.
Qed.

Lemma next_u32 c : conn_inv s w h f w' hp g c -> state c <> SynSent -> is_u32 (recv_next (rx c)).
Proof. intros [_ _ _ _ [_ H2]] E. destruct (H2 E) as (n & -> & _). apply seq_at_u32. Qed.

(** A segment without data or FIN, sent by a connection that stays as it is. *)
Lemma left_emitted c sq ak fl :
  conn_inv s w h f w' hp g c -> is_u32 sq -> is_u32 ak ->
  sound (iss s) (irs s) w h f hp (mkSegment (port s) (peer_port s) sq ak fl []) ->
  left_by (Emitted (segment_of c sq ak fl [])) c.
Proof.
  intros Hinv Hsq Hak Hsound. exists h, f. cbn [writes reads fmap list_fmap mjoin list_join]. rewrite !app_nil_r.
  split_and!; auto; [|by eapply inv_prefix].
  intros seg [= <-]. destruct (emitted_parse s c sq ak fl [] Hs (ci_addr _ _ _ _ _ _ _ _ Hinv) Hsq Hak) as [H1 H2].
  { cbn. lia. }
  split; [done|]. eexists. by split_and!.
Qed.

Lemma step_syn c :
  conn_inv s w h f w' hp g c -> state c = SynSent ->
  left_by (Emitted (segment_of c (send_unacked (tx c)) 0 TCP_FLAG_SYN [])) c.
Proof.
  intros Hinv Hst. apply left_emitted; [done|by apply una_u32|done|].
  destruct Hinv as [_ _ _ [_ _ H1 _] _]. destruct (H1 ltac:(by rewrite Hst)) as [-> _]. by split.
Qed.

Lemma step_syn_ack c :
  conn_inv s w h f w' hp g c -> state c = SynReceived ->
  left_by (Emitted (segment_of c (send_unacked (tx c)) (recv_next (rx c)) (Z.lor TCP_FLAG_SYN TCP_FLAG_ACK) [])) c.
Proof.
  intros Hinv Hst. apply left_emitted; [done|by apply una_u32|apply next_u32; congruence|].
  destruct Hinv as [_ _ _ [_ _ H1 _] [_ H2]]. destruct (H1 ltac:(by rewrite Hst)) as [-> _].
  destruct (H2 ltac:(congruence)) as (n & -> & Hn & _). split; try done. intros _. by exists n.
Qed.

Lemma step_ack c :
  conn_inv s w h f w' hp g c -> in_handshake (state c) = false ->
  left_by (Emitted (segment_of c (send_unacked (tx c) +₃₂ Z.of_nat (sent_count (tx c))) (recv_next (rx c))
    TCP_FLAG_ACK [])) c.
Proof.
  intros Hinv Hst. assert (state c <> SynSent) by (intros E; by rewrite E in Hst).
  apply left_emitted; [done|apply wrap32_u32|by apply next_u32|].
  destruct Hinv as [_ _ _ [_ _ _ H1] [_ H2]]. destruct (H1 Hst) as (n & -> & _ & Hn).
  destruct (H2 ltac:(done)) as (m & -> & Hm & _). rewrite seq_at_succ. split; try done.
  - intros _. exists (n + sent_count (tx c))%nat. split_and!; [done|cbn; lia|apply prefix_nil|done].
  - intros _. by exists m.
Qed.

Lemma step_write c data n sn :
  conn_inv s w h f w' hp g c -> fin_needed (fins c) = false -> open_state (state c) = true ->
  send_buf_write data (tx c) = Done (n, sn) -> left_by (Wrote (take n data)) (set_tx sn c).
Proof.
  intros Hinv Hfn Hst Hwr. pose proof (inv_prefix c Hinv) as Hpre.
  destruct Hinv as [Hok Ha Hp [Hf1 Hf2 Hs1 Hs2] [Hr1 Hr2]].
  destruct (send_buf_write_spec data (tx c) (co_tx _ Hok)) as (n1 & s1 & E & Hsok & _ & Hun & Ena & Esc).
  rewrite E in Hwr. injection Hwr as -> ->.
  assert (Hf : f = false). { destruct f; [|done]. destruct (Hf2 eq_refl) as [? _]. congruence. }
  assert (Hh0 : in_handshake (state c) = false) by by destruct (state c).
  exists h, f. cbn [writes reads fmap list_fmap mjoin list_join]. rewrite !app_nil_r. rewrite Hf in *.
  split_and!; try done; [rewrite length_app; lia|].
  - intros _. split; [by apply set_tx_ok|done|done| |].
    + split; cbn [fins state set_tx tx]; try done; [congruence|].
      intros _. destruct (Hs2 Hh0) as (m & Em & Eu & Hm). exists m. rewrite Ena, Hun, Esc, Eu. split; [done|].
      split; [|lia]. rewrite drop_app_le by lia. done.
    + by split.
Qed.

Lemma step_read c room out r :
  conn_inv s w h f w' hp g c -> recv_buf_read room (rx c) = Done (out, r) -> left_by (Took out) (set_rx r c).
Proof.
  intros Hinv Hrd. destruct Hinv as [Hok Ha Hp Hsd [Hr1 Hr2]].
  destruct (recv_buf_read_spec room (rx c) (co_rx _ Hok)) as (r1 & E & Hrok & Hpe & Hnx).
  rewrite E in Hrd. injection Hrd as <- <-.
  assert (Hsplit : take room (pending (rx c)) ++ pending r1 = pending (rx c)) by (rewrite Hpe; apply take_drop).
  assert (Hinv' : conn_inv s w h f w' hp (g ++ take room (pending (rx c))) (set_rx r1 c)).
  { split; [by apply set_rx_ok|done|done|by destruct Hsd|]. split; cbn [state set_rx rx fins].
    - intros Hst. destruct (Hr1 Hst) as (-> & Hnil & Hpf). rewrite Hpe, Hnil. by rewrite take_nil, drop_nil.
    - intros Hst. destruct (Hr2 Hst) as (m & Em & Hm & Hg & Hpf). exists m. rewrite Hnx, <- app_assoc, Hsplit.
      by split_and!. }
  exists h, f. cbn [writes reads fmap list_fmap mjoin list_join]. rewrite !app_nil_r.
  split_and!; [lia|done|lia|done|done|]. destruct Hinv' as [_ _ _ _ [H1 H2]].
  destruct (decide (state c = SynSent)) as [E'|E'].
  - destruct (H1 E') as [-> _]. apply prefix_nil.
  - destruct (H2 E') as (m & _ & _ & Hg & _). etrans; [by apply prefix_app_r|]. rewrite Hg. apply prefix_take.
Qed.

(** The next segment of data. *)
Lemma step_data now c :
  conn_inv s w h f w' hp g c -> in_handshake (state c) = false ->
  (sent_count (tx c) < send_buffered (tx c))%nat ->
  let k := ((send_buffered (tx c) - sent_count (tx c)) `min` TCP_MSS)%nat in
  let data := take k (drop (sent_count (tx c)) (unacked (tx c))) in
  let c1 := set_tx (set_sent (sent_count (tx c) + length data) (tx c)) c in
  left_by
    (Emitted (segment_of c (send_unacked (tx c) +₃₂ Z.of_nat (sent_count (tx c))) (recv_next (rx c))
                (Z.lor TCP_FLAG_ACK TCP_FLAG_PSH) data))
    (if rto_deadline (timers c1) =? 0
     then set_timers (set_deadline (now +₃₂ rto_ticks (timers c1)) (timers c1)) c1 else c1).
Proof.
  intros Hinv Hst Hlt k data c1. pose proof (inv_prefix c Hinv) as Hpre.
  assert (state c <> SynSent) by (intros E; by rewrite E in Hst).
  pose proof (next_u32 c Hinv ltac:(done)) as Hnx.
  destruct Hinv as [Hok Ha Hp [Hf1 Hf2 Hs1 Hs2] Hrc]. destruct (Hs2 Hst) as (n & En & Eu & Hn).
  assert (Hdl : length data = k).
  { unfold data, k. rewrite length_take, length_drop, unacked_length. lia. }
  pose proof (f_equal length Eu) as Hlen. rewrite unacked_length, length_drop in Hlen.
  assert (Hdata : data `prefix_of` drop (n + sent_count (tx c)) w).
  { unfold data. rewrite Eu, drop_drop. apply prefix_take. }
  exists (h `max` (n + sent_count (tx c) + length data))%nat, f.
  cbn [writes reads fmap list_fmap mjoin list_join]. rewrite !app_nil_r.
  split_and!; [lia|done|unfold k in Hdl; lia| | |done].
  - intros _. assert (Hok1 : conn_ok c1).
    { apply set_tx_ok; [done|]. apply set_sent_ok; [by apply co_tx|unfold k in Hdl; lia]. }
    assert (H1 : conn_inv s w (h `max` (n + sent_count (tx c) + length data)) f w' hp g c1).
    { split; [done..| |by destruct Hrc]. split; try done. cbn [state c1 set_tx]. intros _.
      exists n. unfold c1. cbn [tx set_tx sent_count set_sent send_unacked].
      split; [done|]. split; [exact Eu|lia]. }
    destruct (_ =? 0); [|done]. destruct H1 as [_ ? ? [] []].
    split; [by apply set_deadline_ok|done|done|by split|by split].
  - intros seg [= <-].
    destruct (emitted_parse s c (send_unacked (tx c) +₃₂ Z.of_nat (sent_count (tx c))) (recv_next (rx c))
      (Z.lor TCP_FLAG_ACK TCP_FLAG_PSH) data Hs Ha (wrap32_u32 _) Hnx) as [H1 H2]; [unfold k in Hdl; lia|].
    split; [done|]. eexists. split; [exact H2|]. split; [done|]. split; [done|]. split; try done.
    + intros _. exists (n + sent_count (tx c))%nat. cbn [seq payload_bytes].
      rewrite En, seq_at_succ. split_and!; [done|lia|done|done].
    + intros _. cbn [ack]. destruct Hrc as [_ Hr2]. destruct (Hr2 ltac:(done)) as (m & -> & Hm & _). by exists m.
Qed.

(** The FIN. *)
Lemma step_send_fin now c :
  conn_inv s w h f w' hp g c -> in_handshake (state c) = false -> fin_needed (fins c) = true ->
  fin_sent (fins c) = false -> send_buffered (tx c) = 0%nat ->
  let c1 := set_fins (mkFins (fin_needed (fins c)) true (send_unacked (tx c)) (peer_fin_received (fins c))) c in
  let c2 := set_timers (set_deadline (now +₃₂ rto_ticks (timers c1)) (timers c1)) c1 in
  left_by
    (Emitted (segment_of c (send_unacked (tx c)) (recv_next (rx c)) (Z.lor TCP_FLAG_FIN TCP_FLAG_ACK) []))
    (set_state match state c2 with Established => FinWait1 | CloseWait => LastAck | other => other end c2).
Proof.
  intros Hinv Hst Hneed Hnot Hb c1 c2. pose proof (inv_prefix c Hinv) as Hpre.
  assert (Hss : state c <> SynSent) by (intros E; by rewrite E in Hst).
  pose proof (next_u32 c Hinv Hss) as Hnx. pose proof (una_u32 c Hinv) as Hna.
  destruct Hinv as [Hok Ha Hp [Hf1 Hf2 Hs1 Hs2] [Hr1 Hr2]]. destruct (Hs2 Hst) as (n & En & Eu & Hn).
  pose proof (f_equal length Eu) as Hlen. rewrite unacked_length, length_drop in Hlen.
  assert (f = false) as Ef by congruence. rewrite Ef in Hh.
  assert (n = length w) as -> by lia.
  assert (Hnil : unacked (tx c) = []) by (apply length_zero_iff_nil; by rewrite unacked_length).
  exists (S (length w)), true. cbn [writes reads fmap list_fmap mjoin list_join]. rewrite !app_nil_r.
  split_and!; [lia|done|lia| | |done].
  - intros _. split; [| | | |].
    + apply set_state_ok. apply (set_deadline_ok _ c1). by apply set_fins_ok.
    + done.
    + done.
    + split; cbn [fins tx set_state c2 set_timers c1 set_fins fin_sent fin_needed fin_seq]; try done.
      * intros E. exfalso. cbn [state set_state c2 c1 set_timers set_fins] in E. by destruct (state c).
      * intros _. exists (length w). split_and!; [done|done|]. lia.
    + split; cbn [state set_state c2 c1 set_timers set_fins].
      * intros E. by destruct (state c).
      * intros _. exact (Hr2 Hss).
  - intros seg [= <-].
    destruct (emitted_parse s c (send_unacked (tx c)) (recv_next (rx c)) (Z.lor TCP_FLAG_FIN TCP_FLAG_ACK) []
      Hs Ha Hna Hnx) as [H1 H2]; [cbn; lia|].
    split; [done|]. eexists. split; [exact H2|]. split; [done|]. split; [done|]. split; try done.
    + intros _. exists (length w). cbn [seq payload_bytes length]. rewrite Nat.add_0_r.
      split_and!; [done|lia|apply prefix_nil|]. intros _. split_and!; [done|done|lia].
    + intros _. cbn [ack]. destruct (Hr2 Hss) as (m & -> & Hm & _). by exists m.
Qed.

Lemma step_next now c seg c' :
  conn_inv s w h f w' hp g c -> next_segment now c = Done (Some (seg, c')) -> left_by (Emitted seg) c'.
Proof.
  intros Hinv Hn. destruct (next_segment_inv _ _ _ _ Hn) as (_ & _ & Hact & _).
  assert (Hst : in_handshake (state c) = false) by by destruct (state c).
  unfold next_segment in Hn. destruct (_ || _); [done|]. cbv zeta in Hn.
  pose proof (ci_ok _ _ _ _ _ _ _ _ Hinv) as Hok. pose proof (so_sent _ (co_tx _ Hok)).
  destruct (Nat.ltb_spec 0 (send_buffered (tx c) - sent_count (tx c))).
  - rewrite send_buf_peek_spec in Hn by (done || by apply co_tx). cbn [mbind outcome_bind] in Hn.
    injection Hn as <- <-. apply step_data; [done|done|lia].
  - destruct (_ && _ && _) eqn:Hg; [|done]. injection Hn as <- <-.
    apply andb_true_iff in Hg as [[Hneed Hnot%negb_true_iff]%andb_true_iff Hb%Nat.eqb_eq].
    by apply step_send_fin.
Qed.

(** The end of the handshake. *)
Lemma establish_inv c sg c0 :
  conn_inv s w h f w' hp g c -> sound (irs s) (iss s) w' hp fp h sg ->
  in_handshake (state c) = true -> ack sg = send_unacked (tx c) +₃₂ 1 ->
  (c0 = c /\ state c <> SynSent) \/ (c0 = set_rx (set_next (seq sg +₃₂ 1) (rx c)) c /\ state c = SynSent /\
    has sg TCP_FLAG_SYN = true) ->
  conn_inv s w h f w' hp g (establish (ack sg) c0).
Proof.
  intros Hinv Hsg Hst Hack Hc0.
  destruct Hinv as [Hok Ha Hp [Hf1 Hf2 Hs1 Hs2] [Hr1 Hr2]]. destruct (Hs1 Hst) as (Eun & Eu & Ew & Ef).
  assert (E0 : conn_ok c0 /\ addr c0 = addr c /\ is_listener c0 = false /\ tx c0 = tx c /\ fins c0 = fins c /\
    exists n, recv_next (rx c0) = seq_at (irs s) n /\ (n <= hp)%nat /\ g ++ pending (rx c0) = take n w' /\
      (if peer_fin_received (fins c) then n = S (length w') else (n <= length w')%nat)).
  { destruct Hc0 as [[-> Hns]|(-> & Hss & Hsyn)]; [by split_and!; auto|].
    destruct (Hr1 Hss) as (-> & Hpn & Hpf). destruct (so_syn _ _ _ _ _ _ _ Hsg Hsyn) as [-> _].
    split_and!; try done; [apply set_rx_ok; [done|]; by apply set_next_ok, co_rx|].
    exists 0%nat. rewrite Hpf. cbn [rx set_rx recv_next set_next].
    change (pending (set_next _ ?x)) with (pending x). rewrite Hpn. split_and!; (done || lia). }
  destruct E0 as (Hok0 & Ea0 & El0 & Et0 & Ef0 & Hrc).
  split; [by apply establish_ok|by rewrite <- Ha|done| |].
  - split; cbn [fins establish set_timers set_state set_tx tx state in_handshake]; rewrite ?Ef0; try done.
    + intros E. congruence.
    + intros _. exists 0%nat. rewrite Et0. cbn [set_sent set_una send_unacked sent_count].
      change (unacked (set_sent _ (set_una _ ?x))) with (unacked x).
      rewrite Hack, Eun, Eu, Ew. split_and!; (done || lia).
  - split; cbn [fins establish set_timers set_state set_tx rx state]; [done|]. intros _. by rewrite Ef0.
Qed.

Lemma step_segment now1 now2 c sg c' b :
  conn_inv s w h f w' hp g c -> sound (irs s) (iss s) w' hp fp h sg -> in_handshake (state c) = false ->
  on_segment now1 now2 sg c = Done (c', b) -> conn_inv s w h f w' hp g c'.
Proof.
  intros Hinv Hsg Hst Hseg. destruct (on_segment_frame _ _ _ _ _ _ Hseg Hst) as ((Ea & El & _) & Hst' & _).
  assert (Hss : forall c, in_handshake (state c) = false -> state c <> SynSent) by (intros x Hx E; by rewrite E in Hx).
  destruct Hinv as [Hok Ha Hp Hsd Hrc]. unfold on_segment in Hseg.
  apply bind_Done in Hseg as ([c1 b1] & Hd & Hfin).
  destruct (on_ack_frame now1 sg c) as (_ & _ & Hst1). specialize (Hst1 Hst).
  destruct (on_ack_same sg now1 c) as [Er1 Ef1].
  assert (Hr1 : receives s w' hp g (on_ack now1 sg c)).
  { split; [intros E; by destruct (Hss _ Hst1)|]. intros _. rewrite Er1, Ef1. by apply Hrc, Hss. }
  assert (Hs1 : sends s w h f (on_ack now1 sg c)) by (eapply (on_ack_sends s w h f w' hp fp); eauto).
  destruct (on_data_frame _ _ _ _ Hd) as (_ & Est2 & _ & Ef2 & Et2 & _).
  pose proof (Hss _ Hst1) as Hss1. pose proof (on_ack_ok now1 sg c Hok) as Hok1.
  assert (receives s w' hp g c1 /\ conn_ok c1) as [Hr2 Hok2]
    by (eapply (on_data_receives s w h f w' hp fp); eauto).
  assert (Hss2 : state c1 <> SynSent) by (rewrite Est2; auto).
  assert (Hr3 : receives s w' hp g (on_fin now2 sg c1).1) by (eapply (on_fin_receives s w h f w' hp fp); eauto).
  pose proof (on_fin_ok now2 sg c1 Hok2) as Hok3.
  destruct (on_fin_frame now2 sg c1) as (_ & _ & Et3 & _).
  assert (Ef3 : fin_sent (fins (on_fin now2 sg c1).1) = fin_sent (fins c1) /\
    fin_needed (fins (on_fin now2 sg c1).1) = fin_needed (fins c1) /\
    fin_seq (fins (on_fin now2 sg c1).1) = fin_seq (fins c1)).
  { unfold on_fin. destruct (_ && _); [|done]. cbn [fst]. by destruct (state (set_state _ _)). }
  destruct (on_fin now2 sg c1) as [c2 b2]. cbn [fst] in *. injection Hfin as <- _.
  split; [done|congruence|congruence| |done]. destruct Ef3 as (E1 & E2 & E3), Hs1 as [H1 H2 _ H4].
  split; rewrite ?Et3, ?Et2, ?E1, ?E2, ?E3, ?Ef2; try done; [congruence|]. intros _. by apply H4.
Qed.

Lemma step_timer now c : conn_inv s w h f w' hp g c -> alive (expire now c).1 -> conn_inv s w h f w' hp g (expire now c).1.
Proof.
  intros Hinv [Hu _]. pose proof (expire_ok now c (ci_ok _ _ _ _ _ _ _ _ Hinv)) as Hok'.
  revert Hu Hok'. unfold expire. destruct (in_use c) eqn:Hu; [|done]. cbn [negb].
  assert (Hb : forall t', conn_ok (set_timers t' (set_tx (set_sent 0 (tx c)) c)) ->
    conn_inv s w h f w' hp g (set_timers t' (set_tx (set_sent 0 (tx c)) c))).
  { intros t' Hok'. destruct Hinv as [Hok Ha Hp [Hf1 Hf2 Hs1 Hs2] []]. split; [done|done|done| |by split].
    split; try done. cbn [state set_timers set_tx]. intros Hst. destruct (Hs2 Hst) as (n & En & Eu & Hn).
    exists n. split; [done|]. split; [exact Eu|]. cbn. lia. }
  destruct (state c) eqn:Hst; repeat match goal with |- context [if ?b then _ else _] => destruct b end;
    cbn [fst in_use set_in_use]; try done; intros _ Hok'; auto; eapply inv_frame; eauto.
Qed.

Lemma step_fin c : conn_inv s w h f w' hp g c -> conn_inv s w h f w' hp g (request_fin c).
Proof.
  intros [Hok Ha Hp [Hf1 Hf2 Hs1 Hs2] []]. split; [by apply set_fins_ok|done|done| |by split]. split; try done.
  intros E. destruct (Hf2 E) as (_ & H2 & H3). by split_and!.
Qed.

(** ** Any step of the connection *)
Lemma conn_step c l c' :
  slot_step cs (slot s) c l c' -> alive c -> conn_inv s w h f w' hp g c ->
  (forall ip sg, l = Arrived ip sg -> matches ip sg c = true -> sound (irs s) (iss s) w' hp fp h sg) ->
  left_by l c'.
Proof.
  intros Hstep [Hu Hcl] Hinv Harr.
  destruct Hstep; try congruence; try (by eapply step_write); try (by eapply step_read); try (by eapply step_next);
    try (by apply step_syn); try (by apply step_syn_ack); try (by apply step_ack);
    (eapply left_silent; [exact Hinv|done..|]); intros [Hu' Hcl'].
  - done.
  - done.
  - by apply step_fin.
  - destruct Hinv as [_ _ Hp _ _]. congruence.
  - unfold on_syn_sent in H2. destruct (_ && _ && _) eqn:Hg; [|done]. injection H2 as <-.
    apply andb_true_iff in Hg as [[Hsyn Hack]%andb_true_iff Heq%Z.eqb_eq].
    apply (establish_inv c sg); [done|by eauto|by rewrite H1|done|]. right. by split_and!.
  - apply (establish_inv c sg); [done|by eauto|by rewrite H1|done|]. left. split; congruence.
  - eapply step_segment; eauto.
  - by apply step_timer.
Qed.
End Step.
