(* ===== verification/TcpEnds.v ===== *)
(** * The ends of a connection keep the invariant

    The other connections of a host stay apart from this one; a call at one end keeps the
    invariant of both; so what either application reads is what the other wrote. *)

From S2P Require Import Prelude Ring Bytes Tcp TcpSeg TcpCalls TcpEvolve TcpPackets TcpWire TcpStep.
Local Open Scope Z_scope.
Local Open Scope machine_scope.

(** ** Other connections of the host *)
Section Others.
Context (s : Side) (Hs : side_ok s) (cs : list TcpConn) (c0 : TcpConn).
Context (Hc0 : cs !! slot s = Some c0) (Hlive : alive c0) (Hplain : is_listener c0 = false).
Context (Haddr : addr c0 = mkAddr (port s) (peer_ip s) (peer_port s)).

(** Steps that keep the addresses. *)
Lemma other_same c c' :
  other_ok s c -> addr c' = addr c -> (plain c' = true -> plain c = true) ->
  (plain c' = true -> state c <> Closed -> state c <> SynSent -> state c' <> Closed /\ state c' <> SynSent) ->
  other_ok s c'.
Proof.
  intros Ho Ea Hp Hst Hpl Hport. rewrite Ea in *. destruct (Ho (Hp Hpl) Hport) as (H1 & H2 & H3).
  destruct (Hst Hpl H1 H2). auto.
Qed.

Lemma expire_frame now c :
  addr (expire now c).1 = addr c /\ is_listener (expire now c).1 = is_listener c /\
  state (expire now c).1 = state c /\ (in_use (expire now c).1 = true -> in_use c = true).
Proof.
  unfold expire. destruct (in_use c) eqn:Hu; [|cbn; split_and!; congruence]. cbn [negb].
  destruct (state c) eqn:Hst; repeat match goal with |- context [if ?b then _ else _] => destruct b end; by cbn.
Qed.

Lemma next_segment_frame now c seg c' :
  next_segment now c = Done (Some (seg, c')) ->
  addr c' = addr c /\ state c' <> Closed /\ state c' <> SynSent /\
  exists sq ak fl data, seg = segment_of c sq ak fl data.
Proof.
  intros Hn. destruct (next_segment_inv _ _ _ _ Hn) as (_ & _ & Ha & _). unfold next_segment in Hn.
  destruct (_ || _); [done|]. destruct (_ <? _)%nat.
  - apply bind_Done in Hn as (data & _ & E). injection E as <- <-.
    destruct (_ =? 0); (split_and!; [done|by cbn; destruct (state c)|by cbn; destruct (state c)|by eauto]).
  - destruct (_ && _); [|done]. injection Hn as <- <-. cbn.
    split_and!; [done|by destruct (state c)|by destruct (state c)|by eauto].
Qed.

Lemma other_step k c l c' :
  k <> slot s -> slot_step cs k c l c' -> other_ok s c -> other_ok s c'.
Proof.
  intros Hk Hstep Ho. destruct Hlive as [Hu0 Hst0].
  destruct Hstep; try (eapply other_same; [exact Ho|done|done|done]).
  - intros _ Hport. cbn in Hport. pose proof (sd_port_nz _ Hs). congruence.
  - intros _ Hport. cbn in *. split_and!; [done|done|]. intros [-> Hrp].
    specialize (H0 _ _ Hc0). unfold matches in H0. rewrite Hu0, Hplain, Haddr in H0. cbn in H0.
    rewrite Hport, Hrp, !Z.eqb_refl in H0. done.
  - intros _ Hport. cbn in Hport. subst port. specialize (H4 _ _ Hc0 ltac:(done)).
    unfold port_taken in H4. rewrite Hu0, Haddr in H4. cbn in H4. by rewrite Z.eqb_refl in H4.
  - intros Hp. exfalso. revert Hp. unfold plain. cbn. by rewrite andb_false_r.
  - intros Hp Hport. cbn in Hport. destruct (Ho H Hport) as [? _]. congruence.
  - pose proof (matches_plain _ _ _ H) as Hp. intros _ Hport.
    unfold on_syn_sent in H2. destruct (_ && _); [|done]. injection H2 as <-. cbn in Hport.
    destruct (Ho Hp Hport) as (_ & ? & _). congruence.
  - pose proof (matches_plain _ _ _ H) as Hp.
    destruct (on_segment_frame _ _ _ _ _ _ H2 H1) as ((Ea & _) & Hh & _ & Hcl).
    eapply other_same; [exact Ho|done|done|]. intros Hp' H3 _. split.
    + intros E. apply H3, Hcl; [|done]. unfold plain in Hp'. by apply andb_true_iff in Hp' as [? _].
    + intros E. by rewrite E in Hh.
  - destruct (expire_frame now c) as (Ea & El & Est & Hu). eapply other_same; [exact Ho|done| |by rewrite Est].
    unfold plain. rewrite El. rewrite !andb_true_iff. intros [? ?]. auto.
  - destruct (next_segment_frame _ _ _ _ H) as (Ea & H1 & H2 & _).
    eapply other_same; [exact Ho|done| |done]. intros _.
    destruct (next_segment_inv _ _ _ _ H) as (Hu & Hl & _). unfold plain. by rewrite Hu, Hl.
Qed.

(** What they send is not of this connection. *)
Lemma other_emits k c seg c' :
  slot_step cs k c (Emitted seg) c' -> conn_ok c -> other_ok s c -> from_side s seg = false.
Proof.
  intros Hstep Hok Ho.
  assert (exists sq ak fl data, plain c = true /\ seg = segment_of c sq ak fl data)
    as (sq & ak & fl & data & Hp & ->).
  { inversion Hstep; subst; eauto 6. destruct (next_segment_frame _ _ _ _ H0) as (_ & _ & _ & ? & ? & ? & ? & ->).
    destruct (next_segment_inv _ _ _ _ H0) as (Hu & Hl & _). unfold plain. rewrite Hu, Hl. eauto 6. }
  unfold from_side, segment_of, send_segment. cbn [fst snd]. rewrite parse_header. cbn [src_port dst_port].
  destruct (co_ports _ Hok) as [H1 H2]. rewrite !wrap16_id by done.
  destruct (Z.eqb_spec (remote_ip (addr c)) (peer_ip s)) as [E1|]; [|done].
  destruct (Z.eqb_spec (local_port (addr c)) (port s)) as [E2|]; [|done].
  destruct (Z.eqb_spec (remote_port (addr c)) (peer_port s)) as [E3|]; [|done].
  destruct (Ho Hp E2) as (_ & _ & []). by split.
Qed.

Lemma other_run k c ls c' :
  table_ok cs -> k <> slot s -> slot_run cs k c ls c' -> conn_ok c -> other_ok s c ->
  other_ok s c' /\ forall seg, Emitted seg ∈ ls -> from_side s seg = false.
Proof.
  intros Hcs Hk Hrun Hok Ho. induction Hrun as [|c ls c1 l c2 Hrun IH Hp Hstep].
  { split; [done|]. intros seg Hin. by apply not_elem_of_nil in Hin. }
  destruct (IH Hok Ho) as [Ho1 He]. split; [by eapply other_step|].
  intros seg Hin. apply elem_of_app in Hin as [Hin|Hin]; [by apply He|].
  apply list_elem_of_singleton in Hin as <-. eapply other_emits; eauto using slot_run_ok.
Qed.
End Others.

(** ** The streams grow *)

(** A stream that has grown: nothing is written after the FIN. *)
Definition grown (w : list Z) (h : nat) (f : bool) (w2 : list Z) (h2 : nat) (f2 : bool) : Prop :=
  w `prefix_of` w2 /\ (h <= h2)%nat /\ (f = true -> f2 = true /\ w2 = w).

Lemma grown_refl w h f : grown w h f w h f.
Proof. by split_and!. Qed.

Lemma grown_trans w1 h1 f1 w2 h2 f2 w3 h3 f3 :
  grown w1 h1 f1 w2 h2 f2 -> grown w2 h2 f2 w3 h3 f3 -> grown w1 h1 f1 w3 h3 f3.
Proof.
  intros (P1 & H1 & F1) (P2 & H2 & F2). split_and!; [by etrans|lia|]. intros E. destruct (F1 E) as [E2 ->].
  by apply F2.
Qed.

Lemma prefix_drop_mono (w w2 l : list Z) n : w `prefix_of` w2 -> l `prefix_of` drop n w -> l `prefix_of` drop n w2.
Proof.
  intros [k ->] Hl. destruct (decide (n <= length w)%nat).
  - rewrite drop_app_le by done. by apply prefix_app_r.
  - rewrite (drop_ge w) in Hl by lia. apply prefix_nil_inv in Hl as ->. apply prefix_nil.
Qed.

Lemma sound_grown iss irs w h f hp w2 h2 f2 hp2 sg :
  grown w h f w2 h2 f2 -> (hp <= hp2)%nat -> sound iss irs w h f hp sg -> sound iss irs w2 h2 f2 hp2 sg.
Proof.
  intros (P & H & F) Hp [H1 H2 H3 H4]. split; [done|done| |].
  - intros E. destruct (H3 E) as (off & E1 & E2 & E3 & E4). exists off.
    split_and!; [done|lia|by eapply prefix_drop_mono|]. intros Efin. destruct (E4 Efin) as (Ef & E5 & E6).
    destruct (F Ef) as [-> ->]. split_and!; (done || lia).
  - intros E. destruct (H4 E) as (r & Er & Hr). exists r. split; [done|lia].
Qed.

Lemma prefix_take_same (w w2 : list Z) n : w `prefix_of` w2 -> (n <= length w)%nat -> take n w2 = take n w.
Proof. intros [k ->] Hn. by rewrite take_app_le. Qed.

Lemma receives_grown s w h f w2 h2 f2 g c :
  grown w h f w2 h2 f2 -> (h <= length w + (if f then 1 else 0))%nat ->
  receives s w h g c -> receives s w2 h2 g c.
Proof.
  intros (P & H & F) Hh [H1 H2]. split; [done|]. intros E. destruct (H2 E) as (n & E1 & E2 & E3 & E4).
  exists n. split; [done|]. split; [lia|]. destruct f.
  - destruct (F eq_refl) as [_ ->]. by split.
  - destruct (peer_fin_received (fins c)); [lia|]. rewrite (prefix_take_same w w2 n P E4). split; [done|].
    apply prefix_length in P. lia.
Qed.

(** The invariant of an end when the other end has moved. *)
Lemma end_inv_peer s e h f w' hp fp w2 hp2 fp2 :
  grown w' hp fp w2 hp2 fp2 -> (hp <= length w' + (if fp then 1 else 0))%nat ->
  end_inv s e h f w' hp fp -> end_inv s e h f w2 hp2 fp2.
Proof.
  intros Hgr Hb [H1 H2 H3 H4 H5 H6 H7]. pose proof Hgr as (P & H & F). split; [done|done|done| | | |].
  - intros c Hc Hl. destruct (H4 c Hc Hl) as [[] Ho]. split; [|done]. split; try done. by eapply receives_grown.
  - intros bytes Hin. destruct (H5 bytes Hin) as (sg & E & Hs). exists sg. split; [done|].
    eapply sound_grown; [apply grown_refl|exact H|done].
  - by etrans.
  - intros E. destruct (H7 E) as [Ef Eg]. by destruct (F Ef) as [-> ->].
Qed.

(** ** A call at the connection *)

Lemma writes_app a b : writes (a ++ b) = writes a ++ writes b.
Proof. unfold writes. by rewrite fmap_app, join_app. Qed.
Lemma reads_app a b : reads (a ++ b) = reads a ++ reads b.
Proof. unfold reads. by rewrite fmap_app, join_app. Qed.

Lemma matches_for_side s ip sg c :
  addr c = mkAddr (port s) (peer_ip s) (peer_port s) -> matches ip sg c = true -> for_side s ip sg = true.
Proof. intros Ha. unfold matches, for_side. rewrite Ha. cbn. intros H. repeat (apply andb_true_iff in H as [H ?]). lia. Qed.

Section Run.
Context (s : Side) (Hs : side_ok s) (cs : list TcpConn) (Hcs : table_ok cs).
Context (w : list Z) (h : nat) (f : bool) (w' : list Z) (hp : nat) (fp : bool) (g : list Z).
Context (Hh : (h <= length w + (if f then 1 else 0))%nat).
Context (Hw' : Z.of_nat (length w') < 2147483646) (Hhp : (hp <= length w' + (if fp then 1 else 0))%nat).
Context (c0 : TcpConn) (Hc0 : cs !! slot s = Some c0) (Hlive : alive c0).
Context (Hinv : conn_inv s w h f w' hp g c0).

Lemma conn_run ls c' :
  slot_run cs (slot s) c0 ls c' -> Z.of_nat (length (w ++ writes ls)) < 2147483646 ->
  (forall ip sg, Arrived ip sg ∈ ls -> for_side s ip sg = true -> sound (irs s) (iss s) w' hp fp h sg) ->
  exists h' f', grown w h f (w ++ writes ls) h' f' /\
    (h' <= length (w ++ writes ls) + (if f' then 1 else 0))%nat /\
    (alive c' -> conn_inv s (w ++ writes ls) h' f' w' hp (g ++ reads ls) c') /\
    (forall seg, Emitted seg ∈ ls -> exists sg, parse_segment seg.2 = Done (Some sg) /\
       sound (iss s) (irs s) (w ++ writes ls) h' f' hp sg) /\
    (g ++ reads ls) `prefix_of` w'.
Proof.
  intros Hrun. remember c0 as cc eqn:Ecc. induction Hrun as [c|c ls c1 l c2 Hrun IH Hper Hstep]; subst c.
  { intros _ _. exists h, f. unfold writes, reads. cbn. rewrite !app_nil_r. split_and!; try done.
    - intros seg Hin. by apply not_elem_of_nil in Hin.
    - by eapply inv_prefix. }
  rewrite writes_app, reads_app, !app_assoc. intros Hb Harr.
  destruct (IH eq_refl) as (h1 & f1 & Hg1 & Hh1 & Hinv1 & He1 & _); try done.
  { rewrite length_app in Hb. lia. }
  { intros ip sg Hin. apply Harr. apply elem_of_app. by left. }
  destruct (Hper c0 Hc0) as [Hu1 Hs1]. destruct Hlive as [Hu0 Hs0].
  assert (Hlive1 : alive c1) by (split; auto). specialize (Hinv1 Hlive1).
  destruct (conn_step s Hs cs (w ++ writes ls) h1 f1 w' hp fp (g ++ reads ls)) with c1 l c2
    as (h2 & f2 & Hh12 & Hf12 & Hh2 & Hinv2 & He2 & Hpre); try done.
  { rewrite length_app in Hb. lia. }
  { intros ip sg -> Hm. assert (Hgs : sound (irs s) (iss s) w' hp fp h sg).
    { apply (Harr ip); [apply elem_of_app; right; by left|]. eapply matches_for_side; [|done]. apply Hinv1. }
    eapply sound_grown; [apply grown_refl| |exact Hgs]. apply Hg1. }
  assert (Hg2 : grown (w ++ writes ls) h1 f1 ((w ++ writes ls) ++ writes [l]) h2 f2).
  { split_and!; [by apply prefix_app_r|done|]. intros E. destruct (Hf12 E) as [-> ->]. by rewrite app_nil_r. }
  exists h2, f2. split_and!; [by eapply grown_trans|done|done| |done].
  intros seg Hin. apply elem_of_app in Hin as [Hin|Hin].
  - destruct (He1 seg Hin) as (sg & E & Hsd). exists sg. split; [done|]. by eapply sound_grown.
  - apply list_elem_of_singleton in Hin as <-. destruct (He2 seg eq_refl) as (_ & sg & E & _ & _ & Hsd). eauto.
Qed.
End Run.

(** ** A call at an end *)

(** A read with room answers 0 only at the end of the stream. *)
Lemma read_eof s c a t t' conn :
  conns t !! slot s = Some conn -> do_call c t = Done (a, t') -> says_eof s c a = true -> conn_ok conn ->
  recv_len (rx conn) = 0%nat /\ peer_fin_received (fins conn) = true /\ own_reads c a (slot s) = [].
Proof.
  intros Hc Hdo He Hok. destruct c as [| | | | | | | |id null [|room]| | |]; try done.
  cbn [says_eof] in He. apply andb_true_iff in He as [Eid%bool_decide_eq_true Ecode%bool_decide_eq_true].
  subst id. cbn [do_call] in Hdo. unfold on_table, rust_tcp_recv in Hdo. rewrite Nat2Z.id in Hdo.
  destruct (_ || null); [by injection Hdo as <- _|]. cbv zeta in Hdo. rewrite (index_at Hc) in Hdo.
  cbn [mbind outcome_bind] in Hdo. destruct (negb _ || _); [by injection Hdo as <- _|].
  destruct (Nat.ltb_spec 0 (recv_len (rx conn))).
  - destruct (recv_buf_read_spec (S room) (rx conn) (co_rx _ Hok)) as (r & E & _). rewrite E in Hdo.
    cbn [mbind outcome_bind] in Hdo. rewrite (modify_at _ _ _ _ Hc) in Hdo. cbn [mbind outcome_bind] in Hdo.
    injection Hdo as <- _. cbn [code] in Ecode. injection Ecode as Ecode.
    rewrite length_take, pending_length in Ecode. lia.
  - destruct (peer_fin_received (fins conn)).
    + injection Hdo as <- _. split_and!; [lia|done|]. cbn [own_reads bytes_out]. by case_decide.
    + by destruct (state conn); injection Hdo as <- _.
Qed.

(** All of a stream has been read: there is nothing more to read. *)
Lemma prefix_stays (g w' more : list Z) : g = w' -> (g ++ more) `prefix_of` w' -> g ++ more = w'.
Proof.
  intros -> [k Hk]. rewrite <- app_assoc in Hk. rewrite <- (app_nil_r w') in Hk at 1. apply app_inv_head in Hk.
  symmetry in Hk. apply app_eq_nil in Hk as [-> _]. apply app_nil_r.
Qed.

(** An empty buffer after the peer's FIN: everything has been read, and the FIN was sent. *)
Lemma eof_all s w' hp g c :
  receives s w' hp g c -> recv_len (rx c) = 0%nat -> peer_fin_received (fins c) = true ->
  g = w' /\ (S (length w') <= hp)%nat.
Proof.
  intros [Hr1 Hr2] Hlen Hfin. destruct (decide (state c = SynSent)) as [E|E].
  { destruct (Hr1 E) as (_ & _ & Hnf). congruence. }
  destruct (Hr2 E) as (n & _ & Hn & Hg & Hf). rewrite Hfin in Hf. subst n.
  assert (Hp0 : pending (rx c) = []) by (apply length_zero_iff_nil; by rewrite pending_length).
  rewrite Hp0, app_nil_r, take_ge in Hg by lia. done.
Qed.

Lemma end_step_inv s peer_out e e' h f w' hp fp :
  side_ok s -> end_step s peer_out e e' -> end_inv s e h f w' hp fp ->
  Z.of_nat (length w') < 2147483646 -> (hp <= length w' + (if fp then 1 else 0))%nat ->
  (forall bytes, bytes ∈ peer_out ->
     exists sg, parse_segment bytes = Done (Some sg) /\ sound (irs s) (iss s) w' hp fp h sg) ->
  exists h' f', end_inv s e' h' f' w' hp fp /\ grown (wrote e) h f (wrote e') h' f'.
Proof.
  intros Hs Hstep [Htcp Hh Hbw Hconn Hout Hgot Heof] Hw' Hhp Hpeer.
  destruct Hstep as [c a t' conn Hc Hlive Hcok Hgen Hdo Hb].
  destruct (call_does c (host e) Htcp Hcok) as (a0 & t0 & ls & Hdo0 & Hev & Hex).
  rewrite Hdo in Hdo0. injection Hdo0 as <- <-.
  destruct (Hconn conn Hc Hlive) as [Hinv Hoth].
  destruct (proj2 Hev _ _ Hc) as (conn' & Hc' & Hrun).
  pose proof (ex_writes _ _ _ _ Hex (slot s)) as Ew. pose proof (ex_reads _ _ _ _ Hex (slot s)) as Er.
  rewrite <- Ew in *. rewrite <- Er in *.
  destruct (conn_run s Hs (conns (host e)) (wrote e) h f w' hp fp (got e) Hh Hw' Hhp conn Hc Hlive Hinv _ _ Hrun Hb)
    as (h' & f' & Hgr & Hh' & Hinv' & Hem & Hpre).
  { intros ip sg Hin Hfor. destruct (ex_arrived _ _ _ _ Hex _ _ _ Hin) as (n1 & n2 & data & -> & Hp).
    destruct (Hpeer data (Hgen sg Hp Hfor)) as (sg' & Hp' & Hsd). congruence. }
  assert (Hother : forall k ck, conns t' !! k = Some ck -> k <> slot s ->
    other_ok s ck /\ forall seg, Emitted seg ∈ ls k -> from_side s seg = false).
  { intros k ck Hk Hne. destruct (lookup_lt_is_Some_2 (conns (host e)) k) as [ck0 Hk0].
    { rewrite <- (proj1 Hev). by eapply lookup_lt_Some. }
    destruct (proj2 Hev _ _ Hk0) as (ck' & Hk' & Hrk). simplify_eq.
    eapply (other_run s Hs (conns (host e)) conn); eauto; [apply Hinv|apply Hinv|apply Htcp|].
    eapply Forall_lookup_1; [apply Htcp|done]. }
  exists h', f'. split; [|exact Hgr]. split; cbn [host wrote got eof outbox].
  - by eapply evolves_tcp_ok.
  - done.
  - done.
  - intros c2 Hc2 Hl2. simplify_eq. split; [by apply Hinv'|]. intros k ck Hk Hne. by apply (Hother k ck).
  - intros bytes Hin. apply elem_of_app in Hin as [Hin|Hin].
    + destruct (Hout bytes Hin) as (sg & E & Hsd). exists sg. split; [done|]. by eapply sound_grown.
    + apply list_elem_of_fmap in Hin as (seg & -> & Hseg). apply list_elem_of_filter in Hseg as [Hfrom Hseg].
      destruct (ex_emitted _ _ _ _ Hex seg Hseg) as (k & sc & Hk & Hink).
      destruct (decide (k = slot s)) as [->|Hne]; [by apply Hem|].
      destruct (proj2 Hev _ _ Hk) as (ck' & Hk' & _). destruct (Hother k ck' Hk' Hne) as [_ Hno].
      rewrite (Hno seg Hink) in Hfrom. done.
  - done.
  - intros [He|He]%orb_true_iff.
    + destruct (Heof He) as [Ef Eg]. split; [done|]. apply (prefix_stays _ _ _ Eg Hpre).
    + destruct (read_eof s c a _ _ conn Hc Hdo He (ci_ok _ _ _ _ _ _ _ _ Hinv)) as (Hlen & Hfin & Hno).
      rewrite Er, Hno, app_nil_r. destruct (eof_all s w' hp (got e) conn) as [Eg Hn]; [apply Hinv|done|done|].
      split; [|done]. destruct fp; [done|lia].
Qed.

(** ** Both ends *)

(** The two ends know each other. *)
Record paired (a b : Side) : Prop := {
  pa_a : side_ok a;
  pa_b : side_ok b;
  pa_iss : iss a = irs b;
  pa_irs : irs a = iss b;
}.

Definition wire_inv (a b : Side) (w : End * End) : Prop :=
  exists ha fa hb fb,
    end_inv a w.1 ha fa (wrote w.2) hb fb /\ end_inv b w.2 hb fb (wrote w.1) ha fa.

Lemma wire_step_inv a b w w' : paired a b -> wire_step a b w w' -> wire_inv a b w -> wire_inv a b w'.
Proof.
  intros [Ha Hb E1 E2] Hstep (ha & fa & hb & fb & Ia & Ib). destruct Hstep as [ea eb ea' Hs|ea eb eb' Hs]; cbn in *.
  - destruct (end_step_inv a _ ea ea' ha fa (wrote eb) hb fb Ha Hs Ia) as (ha' & fa' & Ia' & Hg).
    { apply Ib. }
    { apply Ib. }
    { intros bytes Hin. rewrite E1, E2. by apply (ei_out _ _ _ _ _ _ _ Ib). }
    exists ha', fa', hb, fb. split; [done|]. cbn. eapply end_inv_peer; [exact Hg|apply Ia|done].
  - destruct (end_step_inv b _ eb eb' hb fb (wrote ea) ha fa Hb Hs Ib) as (hb' & fb' & Ib' & Hg).
    { apply Ia. }
    { apply Ia. }
    { intros bytes Hin. rewrite <- E1, <- E2. by apply (ei_out _ _ _ _ _ _ _ Ia). }
    exists ha, fa, hb', fb'. split; [|done]. cbn. eapply end_inv_peer; [exact Hg|apply Ib|done].
Qed.

(** ** The start of a connection *)

(** Nothing buffered, nothing closed. *)
Definition blank (c : TcpConn) : Prop :=
  send_buffered (tx c) = 0%nat /\ recv_len (rx c) = 0%nat /\ fin_sent (fins c) = false /\
  peer_fin_received (fins c) = false.

(** A host with a new connection in its slot: an active open that has just sent its SYN, or
    a passive one that has received the peer's. *)
Record opens (s : Side) (st : TcpState) (t : Tcp) : Prop := {
  op_ok : tcp_ok t;
  op_conn : exists c, conns t !! slot s = Some c /\ plain c = true /\ blank c /\ state c = st /\
    addr c = mkAddr (port s) (peer_ip s) (peer_port s) /\ send_unacked (tx c) = iss s /\
    (st = SynReceived -> recv_next (rx c) = irs s +₃₂ 1);
  op_others : forall k ck, conns t !! k = Some ck -> k <> slot s -> other_ok s ck;
}.

Definition new_end (t : Tcp) : End := mkEnd t [] [] false [].

Lemma opens_inv s st t w' :
  opens s st t -> st = SynSent \/ st = SynReceived -> end_inv s (new_end t) 0 false w' 0 false.
Proof.
  intros [Hok (c & Hc & Hp & (B1 & B2 & B3 & B4) & Hst & Ha & Hu & Hr) Ho] Hor. split; cbn; try done.
  - intros c2 Hc2 Hl. assert (c2 = c) as -> by congruence. split; [|done].
    assert (Hun : unacked (tx c) = []) by (apply length_zero_iff_nil; by rewrite unacked_length).
    assert (Hpe : pending (rx c) = []) by (apply length_zero_iff_nil; by rewrite pending_length).
    unfold plain in Hp. apply andb_true_iff in Hp as [_ Hp%negb_true_iff].
    split; [eapply Forall_lookup_1; [apply Hok|done]|done|done| |].
    + split; [done|done|intros _; by split_and!|]. intros Hh. by destruct Hor as [E|E]; rewrite Hst, E in Hh.
    + split; [intros _; by split_and!|]. intros Hne. destruct Hor as [E|E]; [congruence|]. exists 0%nat.
      rewrite Hpe, B4, (Hr E). split_and!; (done || lia).
  - intros bytes Hin. by apply not_elem_of_nil in Hin.
  - apply prefix_nil.
Qed.
