(* ===== verification/TcpDiagram.v ===== *)
(** * TCP: the state diagram, one transition at a time

    Which call or segment takes a connection from which state to which, in terms of the
    call, the segment's flags and numbers and the connection; and that no call of [tcp.rs]
    does anything else to a connection's state. *)

From S2P Require Import Prelude Ring Bytes Tcp TcpSeg TcpCalls TcpEvolve TcpPackets TcpEnds.
Local Open Scope Z_scope.
Local Open Scope machine_scope.

(** ** The diagram *)

(** The segment acknowledges our SYN, or data and the FIN after it. *)
Definition acks_syn (sg : Segment) (x : TcpConn) : Prop :=
  has sg TCP_FLAG_ACK = true /\ ack sg = send_unacked (tx x) +₃₂ 1.
Definition acks_fin (sg : Segment) (x : TcpConn) : Prop :=
  has sg TCP_FLAG_ACK = true /\ fin_sent (fins x) = true /\ seq_gt (ack sg) (send_unacked (tx x)) = true /\
  seq_ge (ack sg) (fin_seq (fins x) +₃₂ 1) = true.

(** The segment ends the peer's stream, and [x'] has received all of it. *)
Definition ends_stream (sg : Segment) (x' : TcpConn) : Prop :=
  has sg TCP_FLAG_FIN = true /\ peer_fin_received (fins x') = true /\
  recv_next (rx x') = seq sg +₃₂ Z.of_nat (length (payload_bytes sg)) +₃₂ 1.

(** The transitions a segment causes. One that acknowledges our FIN and carries the peer's
    passes FIN-WAIT-2 on the way. *)
Inductive heard (sg : Segment) (x x' : TcpConn) : Prop :=
| h_syn_ack : state x = SynSent -> state x' = Established -> has sg TCP_FLAG_SYN = true -> acks_syn sg x -> heard sg x x'
| h_ack_of_syn : state x = SynReceived -> state x' = Established -> acks_syn sg x -> heard sg x x'
| h_fin : state x = Established -> state x' = CloseWait -> ends_stream sg x' -> heard sg x x'
| h_crossing : state x = FinWait1 -> state x' = Closing -> ends_stream sg x' -> ~ acks_fin sg x -> heard sg x x'
| h_ack_of_fin : state x = FinWait1 -> state x' = FinWait2 -> acks_fin sg x -> heard sg x x'
| h_fin_and_ack : state x = FinWait1 -> state x' = TimeWait -> acks_fin sg x -> ends_stream sg x' -> heard sg x x'
| h_fin_2 : state x = FinWait2 -> state x' = TimeWait -> ends_stream sg x' -> heard sg x x'
| h_ack_closing : state x = Closing -> state x' = TimeWait -> acks_fin sg x -> heard sg x x'
| h_ack_last : state x = LastAck -> state x' = Closed -> in_use x' = false -> acks_fin sg x -> heard sg x x'.

(** All is sent and acknowledged, and the application has closed. *)
Definition fin_due (x : TcpConn) : Prop :=
  fin_needed (fins x) = true /\ fin_sent (fins x) = false /\ send_buffered (tx x) = 0%nat.

(** The transitions of the connection in slot [j], by the call that causes them. *)
Inductive transition (c : call) (j : nat) (x x' : TcpConn) : Prop :=
| t_listen id :
    c = ListenOn id -> id = Z.of_nat j -> state x = Closed -> state x' = Listen -> transition c j x x'
| t_connect id ip port now1 now2 now3 :
    c = Connect id ip port now1 now2 now3 -> id = Z.of_nat j -> state x = Closed -> state x' = SynSent -> transition c j x x'
| t_overdue deadline now :
    c = ConnectTurn j deadline now -> deadline <= now -> state x = SynSent -> state x' = Closed -> transition c j x x'
| t_heard now1 now2 ip data sg :
    c = Packet now1 now2 ip (Some data) -> parse_segment data = Done (Some sg) ->
    remote_ip (addr x) = ip -> remote_port (addr x) = src_port sg -> local_port (addr x) = dst_port sg ->
    has sg TCP_FLAG_RST = false -> heard sg x x' -> transition c j x x'
| t_fin now :
    c = Poll now -> fin_due x -> fin_sent (fins x') = true ->
    (state x = Established /\ state x' = FinWait1) \/ (state x = CloseWait /\ state x' = LastAck) -> transition c j x x'.

(** ** What a list of connections keeps *)

Definition kept {A} (g : TcpConn -> A) (cs cs' : list TcpConn) : Prop := g <$> cs' = g <$> cs.

Lemma kept_at {A} (g : TcpConn -> A) cs cs' j x x' :
  kept g cs cs' -> cs !! j = Some x -> cs' !! j = Some x' -> g x' = g x.
Proof.
  intros Hk Hx Hx'. apply (f_equal (lookup j)) in Hk. rewrite !list_lookup_fmap, Hx, Hx' in Hk. by injection Hk.
Qed.

Lemma kept_insert {A} (g : TcpConn -> A) cs i c c' : cs !! i = Some c -> g c' = g c -> kept g cs (<[i := c']> cs).
Proof.
  intros Hc Hg. unfold kept. rewrite list_fmap_insert, Hg. apply list_insert_id. by rewrite list_lookup_fmap, Hc.
Qed.

Lemma kept_then {A} (g : TcpConn -> A) cs1 cs2 cs3 : kept g cs1 cs2 -> kept g cs2 cs3 -> kept g cs1 cs3.
Proof. unfold kept. congruence. Qed.

Lemma store_inv {A} (l : list A) i y l' : store l i y = Done l' -> (i < length l)%nat /\ l' = <[i := y]> l.
Proof. unfold store. case_match eqn:E; [|done]. intros [= <-]. split; [lia|done]. Qed.

Lemma modify_inv i f cs cs' : modify i f cs = Done cs' -> exists c, cs !! i = Some c /\ cs' = <[i := f c]> cs.
Proof.
  unfold modify. intros H. apply bind_Done in H as (c & Hc & H). apply index_Done in Hc. apply store_inv in H as [_ ->]. eauto.
Qed.

Lemma kept_modify {A} (g : TcpConn -> A) i f cs cs' :
  modify i f cs = Done cs' -> (forall c, g (f c) = g c) -> kept g cs cs'.
Proof. intros H Hf. apply modify_inv in H as (c & Hc & ->). by eapply kept_insert. Qed.

(** The entry another one's change leaves alone. *)
Lemma modify_other i f cs cs' j x x' :
  modify i f cs = Done cs' -> cs !! j = Some x -> cs' !! j = Some x' ->
  x' = x \/ (i = j /\ x' = f x).
Proof.
  intros H Hx Hx'. apply modify_inv in H as (c & Hc & ->). destruct (decide (i = j)) as [->|Hij].
  - right. split; [done|]. rewrite list_lookup_insert_eq in Hx' by by eapply lookup_lt_Some. congruence.
  - left. rewrite list_lookup_insert_ne in Hx' by done. congruence.
Qed.

(** ** Calls that leave every state alone *)

Lemma bind_kept id port cs r cs' : rust_tcp_bind id port cs = Done (r, cs') -> kept state cs cs'.
Proof.
  unfold rust_tcp_bind. destruct (bad_id id); [by intros [= _ <-]|]. intros H. apply bind_Done in H as (c & _ & H).
  destruct (_ || _); [by injection H as _ <-|]. destruct (negb (port =? 0)).
  - destruct (taken_by_other _ _ _); [by injection H as _ <-|]. apply bind_Done in H as (cs1 & H & [= _ <-]).
    by eapply kept_modify.
  - apply bind_Done in H as (cand & _ & H). apply bind_Done in H as (cs1 & H & [= _ <-]). by eapply kept_modify.
Qed.

Lemma accept_kept id cs r cs' : rust_tcp_accept id cs = Done (r, cs') -> kept state cs cs'.
Proof.
  unfold rust_tcp_accept, accept_turn. destruct (bad_id id); [by intros [= _ <-]|]. intros H.
  apply bind_Done in H as (c & _ & H). destruct (_ || _); [by injection H as _ <-|].
  destruct (_ <? _)%nat; [|by injection H as _ <-].
  do 3 (apply bind_Done in H as (? & _ & H)). apply bind_Done in H as (cs1 & H & [= _ <-]). by eapply kept_modify.
Qed.

Lemma send_kept id data cs r cs' : rust_tcp_send id data cs = Done (r, cs') -> kept state cs cs'.
Proof.
  unfold rust_tcp_send. destruct data as [data|]; [|by intros [= _ <-]]. destruct (bad_id id); [by intros [= _ <-]|].
  intros H. apply bind_Done in H as (c & _ & H). destruct (_ || _); [by injection H as _ <-|].
  destruct (state c); try (by injection H as _ <-);
    apply bind_Done in H as ([n s] & _ & H); apply bind_Done in H as (cs1 & H & [= _ <-]); by eapply kept_modify.
Qed.

Lemma recv_kept id null n cs r out cs' : rust_tcp_recv id null n cs = Done (r, out, cs') -> kept state cs cs'.
Proof.
  unfold rust_tcp_recv. destruct (_ || _); [by intros [= _ _ <-]|]. intros H. apply bind_Done in H as (c & _ & H).
  destruct (_ || _); [by injection H as _ _ <-|]. destruct (_ <? _)%nat.
  - apply bind_Done in H as ([o s] & _ & H). apply bind_Done in H as (cs1 & H & [= _ _ <-]). by eapply kept_modify.
  - destruct (peer_fin_received _); [by injection H as _ _ <-|]. by destruct (state c); injection H as _ _ <-.
Qed.

Lemma close_loop_kept idx n i cs cs' : close_loop idx n i cs = Done cs' -> kept state cs cs'.
Proof.
  revert i cs. induction n as [|n IH]; intros i cs; cbn [close_loop]; [by intros [= <-]|]. intros H.
  do 2 (apply bind_Done in H as (? & _ & H)). apply bind_Done in H as (cs1 & H1 & H). eapply kept_then; [|by eapply IH].
  destruct (0 <=? _); [by eapply kept_modify|by injection H1 as <-].
Qed.

Lemma close_kept id cs cs' : rust_tcp_close id cs = Done cs' -> kept state cs cs'.
Proof.
  unfold rust_tcp_close. destruct (bad_id id); [by intros [= <-]|]. intros H. apply bind_Done in H as (c & _ & H).
  destruct (negb _); [by injection H as <-|]. destruct (is_listener c).
  - apply bind_Done in H as (cs1 & H1 & H). eapply kept_then; [by eapply close_loop_kept|by eapply kept_modify].
  - destruct (state c); try (by injection H as <-); by eapply kept_modify.
Qed.

(** ** Segments *)

Lemma on_ack_diagram now sg c :
  rx (on_ack now sg c) = rx c /\
  ((~ acks_fin sg c /\ state (on_ack now sg c) = state c) \/
   (acks_fin sg c /\ state (on_ack now sg c) = match state c with
                                               | FinWait1 => FinWait2
                                               | Closing => TimeWait
                                               | LastAck => Closed
                                               | other => other
                                               end /\
    (state c = LastAck -> in_use (on_ack now sg c) = false))).
Proof.
  unfold on_ack, acks_fin. destruct (has sg TCP_FLAG_ACK); [|split; [done|left; split; [intros [? _]; done|done]]].
  destruct (seq_gt _ _); cbn [andb]; [|split; [done|left; split; [intros (_ & _ & ? & _); done|done]]].
  cbv zeta. cbn [set_timers set_tx fins]. destruct (fin_sent (fins c)); cbn [andb].
  2: { split; [done|]. left. split; [intros (_ & ? & _); done|done]. }
  destruct (seq_ge _ _); [|split; [done|left; split; [intros (_ & _ & _ & ?); done|done]]].
  unfold fin_acked. cbn. destruct (state c) eqn:E; cbn; rewrite ?E; (split; [done|right; split_and!; done]).
Qed.

Lemma on_fin_diagram now sg c :
  state (on_fin now sg c).1 = state c \/
  (in_use c = true /\ ends_stream sg (on_fin now sg c).1 /\
   state (on_fin now sg c).1 = match state c with
                               | Established => CloseWait
                               | FinWait1 => Closing
                               | FinWait2 => TimeWait
                               | other => other
                               end).
Proof.
  unfold on_fin, ends_stream. destruct (in_use c); cbn [andb]; [|by left].
  destruct (has sg TCP_FLAG_FIN); cbn [andb]; [|by left].
  destruct (_ =? _) eqn:E; [|by left]. apply Z.eqb_eq in E. right. cbn.
  destruct (state c) eqn:Est; cbn; rewrite ?Est, E; split_and!; done.
Qed.

Lemma on_segment_diagram now1 now2 sg c c' b :
  on_segment now1 now2 sg c = Done (c', b) -> in_handshake (state c) = false ->
  state c' = state c \/ heard sg c c'.
Proof.
  unfold on_segment. intros H Hh. apply bind_Done in H as ([c2 b1] & Hd & H).
  destruct (on_data_frame _ _ _ _ Hd) as (_ & E2 & U2 & _).
  destruct (on_ack_diagram now1 sg c) as [_ Ha]. pose proof (on_fin_diagram now2 sg c2) as Hf.
  destruct (on_fin_frame now2 sg c2) as (_ & U3 & _).
  destruct (on_fin now2 sg c2) as [c3 b3]. injection H as <- _. cbn [fst] in Hf, U3. rewrite E2, U2 in Hf. rewrite U2 in U3.
  destruct Ha as [[Hna E1]|(Haf & E1 & Hu)]; rewrite E1 in Hf.
  - destruct Hf as [Hf|(_ & Hs & Hf)]; [by left|]. destruct (state c) eqn:E; try (by left); right.
    + by apply h_fin.
    + by apply h_crossing.
    + by apply h_fin_2.
  - destruct (state c) eqn:E; try done; cbn in Hf; destruct Hf as [Hf|(Hin & Hs & Hf)]; try (by left); right.
    all: first [by apply h_fin | by apply h_fin_2 | by apply h_ack_of_fin | by apply h_fin_and_ack | by apply h_ack_closing | idtac].
    all: rewrite Hu in * by done; try done.
    by apply h_ack_last.
Qed.

Lemma on_syn_received_accepts sg idx c cs cs' :
  on_syn_received sg idx c cs = Done cs' -> acks_syn sg c ->
  (idx < length cs)%nat /\ kept state (<[idx := establish (ack sg) c]> cs) cs'.
Proof.
  unfold on_syn_received. intros H [Ha Hs]. rewrite Ha, (proj2 (Z.eqb_eq _ _) Hs) in H. cbn [andb] in H.
  apply bind_Done in H as (cs1 & H1 & H). apply store_inv in H1 as [Hi ->]. apply bind_Done in H as (room & _ & H).
  split; [done|]. destruct room; [|by eapply kept_modify]. apply bind_Done in H as (l & Hl & H). apply index_Done in Hl.
  apply bind_Done in H as (b & _ & H). apply store_inv in H as [_ ->]. by eapply kept_insert.
Qed.

Lemma on_syn_received_diagram sg idx c cs cs' j x x' :
  on_syn_received sg idx c cs = Done cs' -> cs !! j = Some x -> cs' !! j = Some x' ->
  (state x' = state x /\ (j = idx -> ~ acks_syn sg c)) \/ (j = idx /\ acks_syn sg c /\ state x' = Established).
Proof.
  intros H Hx Hx'. assert (Hd : acks_syn sg c \/ ~ acks_syn sg c).
  { unfold acks_syn. destruct (has sg TCP_FLAG_ACK); [|right; by intros []].
    destruct (decide (ack sg = send_unacked (tx c) +₃₂ 1)); [by left|right; by intros []]. }
  destruct Hd as [Ha|Ha].
  - destruct (on_syn_received_accepts _ _ _ _ _ H Ha) as [Hi Hk]. destruct (decide (j = idx)) as [->|Hj].
    + right. split_and!; try done.
      by rewrite (kept_at state _ _ idx (establish (ack sg) c) x' Hk (list_lookup_insert_eq _ _ _ Hi) Hx').
    + left. split; [|done]. apply (kept_at state _ _ j x x' Hk); [|done]. by rewrite list_lookup_insert_ne.
  - left. split; [|done]. unfold on_syn_received in H. destruct (_ && _) eqn:E; [|congruence].
    rewrite andb_true_iff, Z.eqb_eq in E. by destruct Ha.
Qed.

Lemma insert_other {A} (l : list A) i y j x x' :
  l !! j = Some x -> <[i := y]> l !! j = Some x' -> x' = x \/ (i = j /\ x' = y).
Proof. intros Hx [(-> & <- & _)|[_ H]]%list_lookup_insert_Some; [by right|left; congruence]. Qed.

Lemma on_matched_diagram now1 now2 sg idx cs r cs' j x x' :
  on_matched now1 now2 sg idx cs = Done (r, cs') -> cs !! j = Some x -> cs' !! j = Some x' ->
  state x' = state x \/ (idx = j /\ has sg TCP_FLAG_RST = false /\ heard sg x x').
Proof.
  unfold on_matched. intros H Hx Hx'. apply bind_Done in H as (c & Hc & H). apply index_Done in Hc.
  destruct (has sg TCP_FLAG_RST) eqn:Hrst.
  { apply bind_Done in H as (cs1 & H & [= _ <-]). apply store_inv in H as [_ ->].
    destruct (insert_other _ _ _ _ _ _ Hx Hx') as [->|[-> ->]]; left; [done|]. by replace x with c by congruence. }
  assert (Hseg : in_handshake (state c) = false ->
    ('(c, answer) ← on_segment now1 now2 sg c;
     cs ← store cs idx c; Done (if (answer : bool) then AckFor idx else NoReply, cs)) = Done (r, cs') ->
    state x' = state x \/ (idx = j /\ false = false /\ heard sg x x')).
  { intros Hh H'. apply bind_Done in H' as ([c1 b] & Hs & H'). apply bind_Done in H' as (cs1 & H' & [= _ <-]).
    apply store_inv in H' as [_ ->]. destruct (insert_other _ _ _ _ _ _ Hx Hx') as [->|[-> ->]]; [by left|].
    assert (c = x) as -> by congruence. destruct (on_segment_diagram _ _ _ _ _ _ Hs Hh); auto. }
  destruct (state c) eqn:Est; try (by apply Hseg); clear Hseg.
  - unfold on_syn_sent in H. destruct (_ && _) eqn:E; [|left; congruence].
    apply bind_Done in H as (cs1 & H & [= _ <-]). apply store_inv in H as [_ ->].
    destruct (insert_other _ _ _ _ _ _ Hx Hx') as [->|[-> ->]]; [by left|]. assert (c = x) as -> by congruence.
    right. split_and!; try done. rewrite !andb_true_iff, Z.eqb_eq in E. destruct E as [[E1 E2] E3]. by apply h_syn_ack.
  - apply bind_Done in H as (cs1 & H & [= _ <-]).
    destruct (on_syn_received_diagram _ _ _ _ _ _ _ _ H Hx Hx') as [[? _]|(-> & Ha & E)]; [by left|]. right.
    assert (c = x) as -> by congruence. split_and!; try done. by apply h_ack_of_syn.
Qed.

Lemma on_packet_diagram now1 now2 ip sg cs r cs' j x x' :
  on_packet now1 now2 ip sg cs = Done (r, cs') -> cs !! j = Some x -> in_use x = true -> cs' !! j = Some x' ->
  state x' = state x \/ (matches ip sg x = true /\ has sg TCP_FLAG_RST = false /\ heard sg x x').
Proof.
  unfold on_packet. intros H Hx Hu Hx'. destruct (position _ _) as [idx|] eqn:Hp.
  - apply position_Some in Hp as (c & Hc & Hm & _).
    destruct (on_matched_diagram _ _ _ _ _ _ _ _ _ _ H Hx Hx') as [?|(-> & ? & ?)]; [by left|]. right.
    assert (c = x) as -> by congruence. done.
  - left. destruct (has sg TCP_FLAG_SYN && _); [|congruence]. injection H as H. unfold on_bare_syn in H. apply (f_equal snd) in H.
    clear Hp. case_match; cbn in H; [|congruence]. case_match eqn:Hn; cbn in H; [|congruence]. subst cs'.
    apply position_Some in Hn as (y & Hy & Hf & _).
    destruct (insert_other _ _ _ _ _ _ Hx Hx') as [->|[-> _]]; [done|]. assert (y = x) as -> by congruence.
    by rewrite Hu in Hf.
Qed.

(** ** Timers and transmission *)

(** What decides whether a FIN is due. *)
Definition closing_part (c : TcpConn) : TcpState * Fins * nat := (state c, fins c, send_buffered (tx c)).

Lemma expire_kept now c : closing_part (expire now c).1 = closing_part c.
Proof.
  unfold expire, closing_part. destruct (in_use c); [|done]. cbn [negb].
  destruct (state c) eqn:Hst; repeat match goal with |- context [if ?b then _ else _] => destruct b end; cbn; by rewrite ?Hst.
Qed.

Lemma expire_loop_kept now n i cs r cs' : expire_loop now n i cs = Done (r, cs') -> kept closing_part cs cs'.
Proof.
  revert i cs. induction n as [|n IH]; intros i cs; cbn [expire_loop]; [by intros [= _ <-]|]. intros H.
  apply bind_Done in H as (c & Hc & H). apply index_Done in Hc. pose proof (expire_kept now c) as He.
  destruct (expire now c) as [c1 again]. apply bind_Done in H as (cs1 & H1 & H). apply store_inv in H1 as [_ ->].
  assert (Hk : kept closing_part cs (<[i := c1]> cs)) by by eapply kept_insert.
  destruct again; [by injection H as _ <-|]. eapply kept_then; [done|by eapply IH].
Qed.

Lemma next_segment_diagram now c seg c' :
  next_segment now c = Done (Some (seg, c')) ->
  state c' = state c \/
  (fin_due c /\ fin_sent (fins c') = true /\
   ((state c = Established /\ state c' = FinWait1) \/ (state c = CloseWait /\ state c' = LastAck))).
Proof.
  unfold next_segment, fin_due. destruct (_ || _); [done|]. destruct (_ <? _)%nat.
  { intros H. apply bind_Done in H as (data & _ & [= _ <-]). left. by destruct (_ =? 0). }
  destruct (_ && _) eqn:E; [|done]. intros [= _ <-]. rewrite !andb_true_iff, negb_true_iff, Nat.eqb_eq in E.
  destruct E as [[E1 E2] E3]. cbn. destruct (state c); try (by left); right; split_and!; auto.
Qed.

Lemma send_loop_diagram now n start stp t segs t' j x x' :
  send_loop now n start stp t = Done (segs, t') -> conns t !! j = Some x -> conns t' !! j = Some x' ->
  state x' = state x \/
  (fin_due x /\ fin_sent (fins x') = true /\
   ((state x = Established /\ state x' = FinWait1) \/ (state x = CloseWait /\ state x' = LastAck))).
Proof.
  revert stp. induction n as [|n IH]; intros stp; cbn [send_loop]; [intros [= _ <-]; intros; left; congruence|].
  intros H Hx Hx'. apply bind_Done in H as (c & Hc & H). apply index_Done in Hc. apply bind_Done in H as (nx & Hn & H).
  destruct nx as [[seg c1]|]; [|by eapply IH]. apply bind_Done in H as (cs1 & H & [= _ <-]). apply store_inv in H as [_ ->].
  cbn [conns] in Hx'. destruct (insert_other _ _ _ _ _ _ Hx Hx') as [->|[<- ->]]; [by left|].
  assert (c = x) as -> by congruence. by eapply next_segment_diagram.
Qed.

Lemma poll_diagram now t segs t' j x x' :
  rust_tcp_poll now t = Done (segs, t') -> conns t !! j = Some x -> conns t' !! j = Some x' ->
  state x' = state x \/
  (fin_due x /\ fin_sent (fins x') = true /\
   ((state x = Established /\ state x' = FinWait1) \/ (state x = CloseWait /\ state x' = LastAck))).
Proof.
  unfold rust_tcp_poll. intros H Hx Hx'. apply bind_Done in H as ([again cs] & He & H). apply expire_loop_kept in He.
  destruct (lookup_lt_is_Some_2 cs j) as [y Hy].
  { apply (f_equal length) in He. rewrite !length_fmap in He. rewrite He. by eapply lookup_lt_Some. }
  pose proof (kept_at _ _ _ _ _ _ He Hx Hy) as Hxy. unfold closing_part in Hxy. injection Hxy as E1 E2 E3.
  destruct again as [i|].
  - apply bind_Done in H as (seg & _ & [= _ <-]). cbn [conns] in Hx'. left. congruence.
  - destruct (send_loop_diagram _ _ _ _ _ _ _ j y x' H Hy Hx') as [->|Hs]; [by left|]. right.
    unfold fin_due in *. by rewrite E1, E2, E3 in Hs.
Qed.

(** ** Every call *)

Lemma good_slot id j : bad_id id = false -> Z.to_nat id = j -> id = Z.of_nat j.
Proof. intros Hb <-. by apply good_id. Qed.

Lemma listen_diagram id cs r cs' j x x' :
  rust_tcp_listen id cs = Done (r, cs') -> cs !! j = Some x -> cs' !! j = Some x' ->
  state x' = state x \/ (id = Z.of_nat j /\ state x = Closed /\ state x' = Listen).
Proof.
  unfold rust_tcp_listen. destruct (bad_id id) eqn:Hb; [intros [= _ <-]; intros; left; congruence|]. intros H Hx Hx'.
  apply bind_Done in H as (c & Hc & H). apply index_Done in Hc.
  destruct (_ || _) eqn:E; [left; congruence|]. apply bind_Done in H as (cs1 & H & [= _ <-]).
  destruct (modify_other _ _ _ _ _ _ _ H Hx Hx') as [->|[Hj ->]]; [by left|]. right.
  split; [by apply good_slot|]. rewrite !orb_false_iff, !negb_false_iff, is_state_true in E. destruct E as [[_ E] _].
  subst j. by replace x with c by congruence.
Qed.

Lemma connect_diagram id ip port now1 now2 now3 cs r segs cs' j x x' :
  connect_start id ip port now1 now2 now3 cs = Done (r, segs, cs') -> cs !! j = Some x -> cs' !! j = Some x' ->
  state x' = state x \/ (id = Z.of_nat j /\ state x = Closed /\ state x' = SynSent).
Proof.
  unfold connect_start. destruct (bad_id id) eqn:Hb; [intros [= _ _ <-]; intros; left; congruence|]. intros H Hx Hx'.
  apply bind_Done in H as (c & Hc & H). apply index_Done in Hc.
  destruct (_ || _) eqn:E; [left; congruence|]. rewrite !orb_false_iff, negb_false_iff in E.
  destruct E as [_ E]. rewrite ?negb_false_iff, is_state_true in E.
  apply bind_Done in H as (cs1 & H1 & H). apply bind_Done in H as (cs2 & H2 & H). apply bind_Done in H as (seg & _ & [= _ _ <-]).
  assert (Hk : kept state cs cs1).
  { destruct (_ =? 0); [|by injection H1 as <-]. apply bind_Done in H1 as (cand & _ & H1). by eapply kept_modify. }
  destruct (lookup_lt_is_Some_2 cs1 j) as [y Hy].
  { apply (f_equal length) in Hk. rewrite !length_fmap in Hk. rewrite Hk. by eapply lookup_lt_Some. }
  pose proof (kept_at _ _ _ _ _ _ Hk Hx Hy) as Hxy.
  destruct (modify_other _ _ _ _ _ _ _ H2 Hy Hx') as [->|[Hj ->]]; [by left|]. right. split; [by apply good_slot|].
  subst j. by replace x with c by congruence.
Qed.

Lemma connect_turn_diagram idx deadline now cs r cs' j x x' :
  connect_turn idx deadline now cs = Done (r, cs') -> cs !! j = Some x -> cs' !! j = Some x' ->
  state x' = state x \/ (idx = j /\ deadline <= now /\ state x = SynSent /\ state x' = Closed).
Proof.
  unfold connect_turn. intros H Hx Hx'. apply bind_Done in H as (c & Hc & H). apply index_Done in Hc.
  destruct (state c) eqn:E; try (left; congruence). destruct (deadline <=? now) eqn:Hd; [|left; congruence].
  apply bind_Done in H as (cs1 & H & [= _ <-]).
  destruct (modify_other _ _ _ _ _ _ _ H Hx Hx') as [->|[-> ->]]; [by left|]. right. split_and!; try done; [lia|].
  by replace x with c by congruence.
Qed.

Lemma packet_diagram now1 now2 ip payload cs segs cs' j x x' :
  rust_tcp_handle_packet now1 now2 ip payload cs = Done (segs, cs') ->
  cs !! j = Some x -> in_use x = true -> cs' !! j = Some x' ->
  state x' = state x \/
  exists data sg, payload = Some data /\ parse_segment data = Done (Some sg) /\ matches ip sg x = true /\
                  has sg TCP_FLAG_RST = false /\ heard sg x x'.
Proof.
  unfold rust_tcp_handle_packet. destruct payload as [data|]; [|intros [= _ <-]; intros; left; congruence].
  intros H Hx Hu Hx'. apply bind_Done in H as (sg & Hs & H). destruct sg as [sg|]; [|left; congruence].
  apply bind_Done in H as ([rep cs1] & H & H2). apply bind_Done in H2 as (out & _ & [= _ <-]).
  destruct (on_packet_diagram _ _ _ _ _ _ _ _ _ _ H Hx Hu Hx') as [?|(? & ? & ?)]; [by left|]. right. eauto 10.
Qed.

Lemma socket_diagram cs j x x' :
  (rust_tcp_socket cs).2 !! j = Some x' -> cs !! j = Some x -> in_use x = true -> state x' = state x.
Proof.
  unfold rust_tcp_socket. intros Hx' Hx Hu. destruct (position _ _) as [i|] eqn:Hp; cbn in Hx'; [|congruence].
  apply position_Some in Hp as (c & Hc & Hf & _). destruct (insert_other _ _ _ _ _ _ Hx Hx') as [->|[-> _]]; [done|].
  assert (c = x) as -> by congruence. by rewrite Hu in Hf.
Qed.

Lemma call_diagram c t a t' j x x' :
  do_call c t = Done (a, t') -> conns t !! j = Some x -> in_use x = true -> conns t' !! j = Some x' ->
  state x' = state x \/ transition c j x x'.
Proof.
  intros H Hx Hu Hx'. destruct c; cbn [do_call] in H; unfold on_table in H;
    try (apply bind_Done in H as ([a1 cs] & H & [= <- <-]); cbn [conns] in Hx').
  - left. destruct (rust_tcp_socket (conns t)) as [r cs1] eqn:E. injection H as _ <-.
    eapply (socket_diagram (conns t) j); [by rewrite E|done|done].
  - apply bind_Done in H as ([r cs1] & H & [= _ <-]). left. eapply kept_at; [by eapply bind_kept|done|done].
  - apply bind_Done in H as ([r cs1] & H & [= _ <-]).
    destruct (listen_diagram _ _ _ _ _ _ _ H Hx Hx') as [?|(? & ? & ?)]; [by left|right; by eapply t_listen].
  - apply bind_Done in H as ([r cs1] & H & [= _ <-]). left. eapply kept_at; [by eapply accept_kept|done|done].
  - apply bind_Done in H as ([r cs1] & H & [= _ <-]). apply bind_Done in H as ([r2 cs2] & H & [= _ <-]).
    left. eapply kept_at; [by eapply accept_kept|done|done].
  - apply bind_Done in H as ([[r segs] cs1] & H & [= _ <-]).
    destruct (connect_diagram _ _ _ _ _ _ _ _ _ _ _ _ _ H Hx Hx') as [?|(? & ? & ?)]; [by left|right; by eapply t_connect].
  - apply bind_Done in H as ([r cs1] & H & [= _ <-]).
    destruct (connect_turn_diagram _ _ _ _ _ _ _ _ _ H Hx Hx') as [?|(-> & ? & ? & ?)]; [by left|right; by eapply t_overdue].
  - apply bind_Done in H as ([r cs1] & H & [= _ <-]). left. eapply kept_at; [by eapply send_kept|done|done].
  - apply bind_Done in H as ([[r o] cs1] & H & [= _ <-]). left. eapply kept_at; [by eapply recv_kept|done|done].
  - apply bind_Done in H as (cs1 & H & [= _ <-]). left. eapply kept_at; [by eapply close_kept|done|done].
  - apply bind_Done in H as ([segs cs1] & H & [= _ <-]).
    destruct (packet_diagram _ _ _ _ _ _ _ _ _ _ H Hx Hu Hx') as [?|(data & sg & -> & Hs & Hm & Hr & Hh)]; [by left|right].
    unfold matches in Hm. rewrite !andb_true_iff, !Z.eqb_eq in Hm. destruct Hm as [[[_ H1] H2] H3]. by eapply t_heard.
  - destruct (poll_diagram _ _ _ _ _ _ _ H Hx Hx') as [?|(? & ? & ?)]; [by left|right; by eapply t_fin].
Qed.

(** ** A segment that is due has its effect *)

(** The acknowledgements a connection waits for move it on. *)
Definition moves_on (sg : Segment) (x x' : TcpConn) : Prop :=
  (acks_syn sg x -> (state x = SynSent /\ has sg TCP_FLAG_SYN = true) \/ state x = SynReceived -> state x' = Established) /\
  (acks_fin sg x -> state x = FinWait1 -> state x' = FinWait2 \/ state x' = TimeWait) /\
  (acks_fin sg x -> state x = Closing -> state x' = TimeWait) /\
  (acks_fin sg x -> state x = LastAck -> state x' = Closed /\ in_use x' = false).

Lemma on_segment_moves now1 now2 sg c c' b :
  on_segment now1 now2 sg c = Done (c', b) -> in_handshake (state c) = false -> moves_on sg c c'.
Proof.
  unfold on_segment, moves_on. intros H Hh. apply bind_Done in H as ([c2 b1] & Hd & H).
  destruct (on_data_frame _ _ _ _ Hd) as (_ & E2 & U2 & _).
  destruct (on_ack_diagram now1 sg c) as [_ Ha]. pose proof (on_fin_diagram now2 sg c2) as Hf.
  destruct (on_fin_frame now2 sg c2) as (_ & U3 & _).
  destruct (on_fin now2 sg c2) as [c3 b3]. injection H as <- _. cbn [fst] in Hf, U3. rewrite E2, U2 in Hf. rewrite U2 in U3.
  split; [intros _ [[E _]|E]; rewrite E in Hh; done|].
  destruct Ha as [[Hna _]|(Haf & E1 & Hu)]; [split_and!; intros; done|]. rewrite E1 in Hf.
  split_and!; intros _ E; rewrite E in *; try specialize (Hu eq_refl); destruct Hf as [Hf|(Hin & _ & Hf)]; try (by auto); try split; congruence.
Qed.

Lemma on_matched_moves now1 now2 sg j cs r cs' x x' :
  on_matched now1 now2 sg j cs = Done (r, cs') -> has sg TCP_FLAG_RST = false ->
  cs !! j = Some x -> cs' !! j = Some x' -> moves_on sg x x'.
Proof.
  unfold on_matched. intros H Hrst Hx Hx'. rewrite (index_at Hx), Hrst in H. cbn [mbind outcome_bind] in H.
  assert (Hseg : in_handshake (state x) = false ->
    ('(c, answer) ← on_segment now1 now2 sg x;
     cs ← store cs j c; Done (if (answer : bool) then AckFor j else NoReply, cs)) = Done (r, cs') -> moves_on sg x x').
  { intros Hh H'. apply bind_Done in H' as ([c1 b] & Hs & H'). apply bind_Done in H' as (cs1 & H' & [= _ <-]).
    apply store_inv in H' as [Hj ->]. rewrite list_lookup_insert_eq in Hx' by done. injection Hx' as <-.
    by eapply on_segment_moves. }
  destruct (state x) eqn:Est; try (by apply Hseg); clear Hseg; unfold moves_on; rewrite Est;
    (split; [|by split_and!]); intros [Ha Hs] Hst.
  - destruct Hst as [[_ Hsyn]|]; [|done]. unfold on_syn_sent in H. rewrite Hsyn, Ha, Hs, Z.eqb_refl in H. cbn [andb] in H.
    apply bind_Done in H as (cs1 & H & [= _ <-]). apply store_inv in H as [Hj ->].
    rewrite list_lookup_insert_eq in Hx' by done. by injection Hx' as <-.
  - clear Hst. apply bind_Done in H as (cs1 & H & [= _ <-]).
    destruct (on_syn_received_diagram _ _ _ _ _ _ _ _ H Hx Hx') as [[_ E]|(_ & _ & E)]; [|done]. by destruct (E eq_refl).
Qed.
