(* ===== verification/TcpLive.v ===== *)
(** * Data arrives

    [tcp_end_to_end] says that nothing wrong is ever read; this file, that on a network which
    delivers, everything is: an exchange of one poll, one segment and its acknowledgement
    moves the next piece of the stream, until all of it has arrived. *)

From S2P Require Import Prelude Ring Bytes Tcp TcpSeg TcpCalls TcpEvolve TcpPackets TcpWire TcpStep TcpEnds.
Local Open Scope Z_scope.
Local Open Scope machine_scope.

(** ** Exchanges *)

(** All segments delivered to a host, in order; what the host sends in response. *)
Fixpoint deliver (now src_ip : Z) (segs : list (Z * list Z)) (t : Tcp) : outcome (list (Z * list Z) * Tcp) :=
  match segs with
  | [] => Done ([], t)
  | seg :: segs =>
      '(out, cs) ← rust_tcp_handle_packet now now src_ip (Some seg.2) (conns t);
      '(out', t) ← deliver now src_ip segs (mkTcp cs (poll_cursor t));
      Done (out ++ out', t)
  end.

(** The first host polls; its segments reach the second, whose answers reach the first. *)
Definition exchange (a b : Side) (now : Z) (w : Tcp * Tcp) : outcome (Tcp * Tcp) :=
  '(segs, ta) ← rust_tcp_poll now w.1;
  '(answers, tb) ← deliver now (peer_ip b) segs w.2;
  '(_, ta) ← deliver now (peer_ip a) answers ta;
  Done (ta, tb).

Fixpoint exchanges (a b : Side) (times : list Z) (w : Tcp * Tcp) : outcome (Tcp * Tcp) :=
  match times with
  | [] => Done w
  | now :: times => w ← exchange a b now w; exchanges a b times w
  end.

(** ** Where they start *)

(** A connection with nothing to do. *)
Definition idle (c : TcpConn) : Prop :=
  forall now, expire now c = (c, false) /\ next_segment now c = Done None.

(** The sender has data, none of it in flight; the receiver waits for exactly that data, and
    has sent nothing that is not acknowledged. *)
Record synced (a b : Side) (ca cb : TcpConn) : Prop := {
  sy_a : conn_ok ca /\ plain ca = true /\ active (state ca) = true /\ sent_count (tx ca) = 0%nat /\
    fin_sent (fins ca) = false /\ addr ca = mkAddr (port a) (peer_ip a) (peer_port a);
  sy_b : conn_ok cb /\ plain cb = true /\ in_handshake (state cb) = false /\ sent_count (tx cb) = 0%nat /\
    addr cb = mkAddr (port b) (peer_ip b) (peer_port b);
  sy_seq : recv_next (rx cb) = send_unacked (tx ca) /\ is_u32 (send_unacked (tx ca));
  sy_back : recv_next (rx ca) = send_unacked (tx cb) /\ is_u32 (send_unacked (tx cb));
}.

(** The host has the connection in its slot, nothing else to do, and no second connection
    with the same addresses. *)
Record hosts (s : Side) (t : Tcp) (c : TcpConn) : Prop := {
  ho_len : length (conns t) = MAX_TCP_CONNS;
  ho_at : conns t !! slot s = Some c;
  ho_idle : forall k ck, conns t !! k = Some ck -> k <> slot s -> idle ck;
  ho_alone : forall k ck, conns t !! k = Some ck -> k <> slot s -> plain ck = true ->
    addr ck <> mkAddr (port s) (peer_ip s) (peer_port s);
}.

Lemma hosts_insert s t c c' n : hosts s t c -> hosts s (mkTcp (<[slot s := c']> (conns t)) n) c'.
Proof.
  intros [Hl Ha Hi Ho]. split; cbn [conns].
  - by rewrite length_insert.
  - apply list_lookup_insert_eq. by eapply lookup_lt_Some.
  - intros k ck Hk Hne. rewrite list_lookup_insert_ne in Hk by done. eauto.
  - intros k ck Hk Hne. rewrite list_lookup_insert_ne in Hk by done. eauto.
Qed.

(** ** One poll *)

Lemma expire_loop_idle now n i cs :
  (i + n <= length cs)%nat -> (forall k c, cs !! k = Some c -> expire now c = (c, false)) ->
  expire_loop now n i cs = Done (None, cs).
Proof.
  revert i. induction n as [|n IH]; intros i Hn Hi; simpl; [done|].
  destruct (lookup_lt_is_Some_2 cs i) as [c Hc]; [lia|]. oindex Hc. rewrite (Hi i c Hc). ostore.
  rewrite list_insert_id by done. apply IH; [lia|done].
Qed.

(** The round robin comes to every slot. *)
Lemma send_loop_reaches now n start step j t seg c c' :
  conns t !! j = Some c -> next_segment now c = Done (Some (seg, c')) ->
  (forall k ck, conns t !! k = Some ck -> k <> j -> next_segment now ck = Done None) ->
  length (conns t) = MAX_TCP_CONNS ->
  (exists d, (d < n)%nat /\ ((start + (step + d)) `mod` MAX_TCP_CONNS)%nat = j) ->
  send_loop now n start step t = Done ([seg], mkTcp (<[j := c']> (conns t)) (j + 1)).
Proof.
  intros Hc Hn Hi Hl. revert step. induction n as [|n IH]; intros step (d & Hd & Ed); [lia|].
  cbn [send_loop]. cbv zeta. set (i := ((start + step) `mod` MAX_TCP_CONNS)%nat).
  destruct (decide (i = j)) as [->|Hne].
  - oindex Hc. rewrite Hn. osimpl. by ostore.
  - destruct (lookup_lt_is_Some_2 (conns t) i) as [ci Hci].
    { rewrite Hl. by apply Nat.mod_upper_bound. }
    oindex Hci. rewrite (Hi i ci Hci Hne). osimpl. apply IH.
    destruct d as [|d]; [by rewrite Nat.add_0_r in Ed|]. exists d. split; [lia|]. rewrite <- Ed. f_equal. lia.
Qed.

Lemma round_robin start j : (j < 8)%nat -> (start < 8)%nat ->
  exists d, (d < 8)%nat /\ ((start + (0 + d)) `mod` 8)%nat = j.
Proof.
  intros Hj Hs. destruct (decide (start <= j)%nat).
  - exists (j - start)%nat. split; [lia|]. replace (start + (0 + (j - start)))%nat with j by lia. by apply Nat.mod_small.
  - exists (j + 8 - start)%nat. split; [lia|].
    replace (start + (0 + (j + 8 - start)))%nat with (j + 1 * 8)%nat by lia.
    rewrite Nat.Div0.mod_add. by apply Nat.mod_small.
Qed.

Lemma poll_sends s t c now seg c' :
  hosts s t c -> expire now c = (c, false) -> next_segment now c = Done (Some (seg, c')) ->
  rust_tcp_poll now t = Done ([seg], mkTcp (<[slot s := c']> (conns t)) (slot s + 1)).
Proof.
  intros [Hl Ha Hi _] He Hn. unfold rust_tcp_poll. rewrite expire_loop_idle.
  - osimpl. assert (slot s < MAX_TCP_CONNS)%nat by (rewrite <- Hl; by eapply lookup_lt_Some).
    apply (send_loop_reaches _ _ _ _ (slot s) (mkTcp (conns t) (poll_cursor t)) seg c c'); try done.
    + intros k ck Hk Hne. by apply (Hi k ck Hk Hne).
    + apply round_robin; [done|]. by apply Nat.mod_upper_bound.
  - by rewrite Hl.
  - intros k ck Hk. destruct (decide (k = slot s)) as [->|Hne]; [congruence|]. by apply (Hi k ck Hk Hne).
Qed.

(** ** One segment *)

Lemma packet_reaches s t c now1 now2 data sg c' (answer : bool) :
  hosts s t c -> plain c = true -> addr c = mkAddr (port s) (peer_ip s) (peer_port s) ->
  parse_segment data = Done (Some sg) -> for_side s (peer_ip s) sg = true ->
  has sg TCP_FLAG_RST = false -> in_handshake (state c) = false ->
  on_segment now1 now2 sg c = Done (c', answer) ->
  rust_tcp_handle_packet now1 now2 (peer_ip s) (Some data) (conns t) =
    Done (if answer then [segment_of c' (send_unacked (tx c') +₃₂ Z.of_nat (sent_count (tx c')))
                            (recv_next (rx c')) TCP_FLAG_ACK []] else [],
          <[slot s := c']> (conns t)).
Proof.
  intros [Hl Hat _ Ho] Hp Ha Hparse Hfor Hrst Hst Hseg.
  assert (Hpos : position (matches (peer_ip s) sg) (conns t) = Some (slot s)).
  { unfold for_side in Hfor. apply andb_true_iff in Hfor as [[_ H1%Z.eqb_eq]%andb_true_iff H2%Z.eqb_eq].
    apply position_Some. exists c. split; [done|]. unfold matches. split.
    - unfold plain in Hp. rewrite Hp, Ha. cbn. rewrite H1, H2, !Z.eqb_refl. done.
    - intros k ck Hk Hck. apply not_true_iff_false. intros Hm.
      repeat (apply andb_true_iff in Hm as [Hm ?]). apply (Ho k ck Hck); [lia|by unfold plain; rewrite Hm|].
      destruct (addr ck). cbn in *. f_equal; lia. }
  unfold rust_tcp_handle_packet. rewrite Hparse. osimpl. unfold on_packet. rewrite Hpos. unfold on_matched.
  oindex Hat. rewrite Hrst. rewrite Hseg. osimpl. ostore.
  assert (Hat' : <[slot s := c']> (conns t) !! slot s = Some c')
    by (apply list_lookup_insert_eq; by eapply lookup_lt_Some).
  destruct (state c); try done; destruct answer; osimpl; try done; unfold send_reply, send_ack_only;
    by rewrite (index_at Hat').
Qed.

(** ** One exchange between two connections *)
Section Exchange.
Context (a b : Side) (Ha : side_ok a) (Hb : side_ok b).
Context (Hp1 : port a = peer_port b) (Hp2 : port b = peer_port a).

(** The sender's segment and the connection after it. *)
Lemma sends_chunk now ca cb :
  synced a b ca cb -> unacked (tx ca) <> [] ->
  let chunk := take TCP_MSS (unacked (tx ca)) in
  exists seg ca1, next_segment now ca = Done (Some (seg, ca1)) /\
    parse_segment seg.2 = Done (Some (mkSegment (port a) (peer_port a) (send_unacked (tx ca)) (recv_next (rx ca))
      (Z.lor TCP_FLAG_ACK TCP_FLAG_PSH) chunk)) /\
    conn_ok ca1 /\ plain ca1 = true /\ state ca1 = state ca /\ fins ca1 = fins ca /\ rx ca1 = rx ca /\
    addr ca1 = addr ca /\ tx ca1 = set_sent (length chunk) (tx ca).
Proof.
  intros [(Hok & Hpl & Hact & Hsent & Hfs & Haddr) _ [_ Hu] [Hrn Hu2]] Hne chunk.
  assert (Hlen : (0 < send_buffered (tx ca))%nat).
  { rewrite <- unacked_length. destruct (unacked (tx ca)); [done|cbn; lia]. }
  assert (Hchunk : take ((send_buffered (tx ca) - 0) `min` TCP_MSS) (drop 0 (unacked (tx ca))) = chunk).
  { rewrite drop_0, Nat.sub_0_r. unfold chunk. rewrite <- unacked_length.
    destruct (decide (length (unacked (tx ca)) <= TCP_MSS)%nat).
    - rewrite Nat.min_l by done. by rewrite !take_ge by lia.
    - by rewrite Nat.min_r by lia. }
  destruct (next_segment_ok now ca Hok) as (next & Hn & Hnok). pose proof Hn as Hn'.
  unfold next_segment in Hn. unfold plain in Hpl. apply andb_true_iff in Hpl as [Hin Hlis%negb_true_iff].
  rewrite Hin, Hlis, Hact, Hsent in Hn. cbn [negb orb] in Hn. cbv zeta in Hn.
  rewrite (proj2 (Nat.ltb_lt 0 (send_buffered (tx ca) - 0))) in Hn by lia.
  rewrite send_buf_peek_spec, Hchunk in Hn by (apply co_tx, Hok || lia). cbn [mbind outcome_bind] in Hn.
  injection Hn as <-. eexists _, _. split; [exact Hn'|].
  split.
  - assert (E0 : send_unacked (tx ca) +₃₂ Z.of_nat 0 = send_unacked (tx ca)).
    { rewrite Z.add_0_r. by apply wrap32_id. }
    rewrite E0. apply (emitted_parse a ca); try done; [by rewrite Hrn|]. unfold chunk. rewrite length_take. lia.
  - split; [by eapply Hnok|]. unfold plain.
    destruct (_ =? 0); cbn; rewrite Hin, Hlis; by split_and!.
Qed.

(** The receiver takes it and acknowledges. *)
Lemma takes_chunk now1 now2 ca cb chunk :
  synced a b ca cb -> chunk <> [] -> (length chunk <= RECV_BUF_CAP - recv_len (rx cb))%nat ->
  let sg := mkSegment (port a) (peer_port a) (send_unacked (tx ca)) (recv_next (rx ca))
              (Z.lor TCP_FLAG_ACK TCP_FLAG_PSH) chunk in
  exists cb1, on_segment now1 now2 sg cb = Done (cb1, true) /\
    conn_ok cb1 /\ plain cb1 = true /\ state cb1 = state cb /\ tx cb1 = tx cb /\ addr cb1 = addr cb /\
    recv_next (rx cb1) = send_unacked (tx ca) +₃₂ Z.of_nat (length chunk) /\
    pending (rx cb1) = pending (rx cb) ++ chunk.
Proof.
  intros [_ (Hok & Hpl & Hst & Hsent & Haddr) [Hrn Hu] [Hrn2 Hu2]] Hne Hroom sg.
  destruct (on_segment_ok now1 now2 sg cb Hok) as (cb1 & ans & Hseg & Hok1).
  unfold plain in Hpl. apply andb_true_iff in Hpl as [Hin Hlis%negb_true_iff].
  assert (Hack : on_ack now1 sg cb = cb).
  { unfold on_ack. cbn [ack sg]. rewrite Hrn2. unfold seq_gt. rewrite Z.sub_diag.
    change (as_i32 (wrap32 0)) with 0. by rewrite andb_false_r. }
  destruct (recv_buf_write_spec chunk (rx cb) (co_rx _ Hok)) as (n & r & Hwr & _ & Hn & Hpe & Hnx).
  rewrite Nat.min_r in Hn by lia. subst n.
  assert (Hlen : (0 < length chunk)%nat) by (destruct chunk; [done|cbn; lia]).
  assert (Hfin : forall c, on_fin now2 sg c = (c, false)).
  { intros c. unfold on_fin. change (has sg TCP_FLAG_FIN) with false. by rewrite andb_false_r. }
  unfold on_segment in Hseg. rewrite Hack in Hseg. unfold on_data in Hseg. cbn [payload_bytes seq sg] in Hseg.
  rewrite Hin, Hrn, Z.eqb_refl in Hseg. rewrite (proj2 (Nat.eqb_neq (length chunk) 0)) in Hseg by lia.
  cbn [negb andb] in Hseg. rewrite Hwr in Hseg. cbn [mbind outcome_bind] in Hseg. rewrite Hfin in Hseg.
  rewrite (proj2 (Nat.ltb_lt 0 (length chunk)) Hlen) in Hseg. cbn [orb] in Hseg. injection Hseg as <- <-.
  eexists. split.
  { unfold on_segment. rewrite Hack. unfold on_data. cbn [payload_bytes seq sg].
    rewrite Hin, Hrn, Z.eqb_refl. rewrite (proj2 (Nat.eqb_neq (length chunk) 0)) by lia. cbn [negb andb].
    rewrite Hwr. osimpl. rewrite Hfin. by rewrite (proj2 (Nat.ltb_lt 0 (length chunk)) Hlen). }
  split; [exact Hok1|]. unfold plain. cbn. rewrite Hin, Hlis. split_and!; try done.
  - by rewrite Hnx, Hrn.
  - rewrite take_ge in Hpe by lia. exact Hpe.
Qed.

Lemma seq_gt_ahead x n : is_u32 x -> 0 < n < 2147483648 -> seq_gt (x +₃₂ n) x = true /\ (x +₃₂ n) -₃₂ x = n.
Proof.
  intros Hx Hn. assert (E : (x +₃₂ n) -₃₂ x = n).
  { unfold wrap32. rewrite Zminus_mod_idemp_l. replace (x + n - x) with n by lia. apply Z.mod_small. lia. }
  split; [|done]. unfold seq_gt. rewrite E. unfold as_i32. destruct (Z.ltb_spec n 2147483648); lia.
Qed.

(** The acknowledgement frees the sender's buffer. *)
Lemma acks_chunk now1 now2 ca1 n sp dp sq :
  conn_ok ca1 -> fin_sent (fins ca1) = false -> is_u32 (send_unacked (tx ca1)) ->
  (0 < n)%nat -> (n <= send_buffered (tx ca1))%nat -> Z.of_nat n < 2147483648 ->
  let sg := mkSegment sp dp sq (send_unacked (tx ca1) +₃₂ Z.of_nat n) TCP_FLAG_ACK [] in
  exists ca2, on_segment now1 now2 sg ca1 = Done (ca2, false) /\
    conn_ok ca2 /\ plain ca2 = plain ca1 /\ state ca2 = state ca1 /\ fins ca2 = fins ca1 /\ rx ca2 = rx ca1 /\
    addr ca2 = addr ca1 /\ send_unacked (tx ca2) = send_unacked (tx ca1) +₃₂ Z.of_nat n /\
    sent_count (tx ca2) = (sent_count (tx ca1) - n)%nat /\ unacked (tx ca2) = drop n (unacked (tx ca1)).
Proof.
  intros Hok Hfs Hu Hn Hle Hbd sg. destruct (seq_gt_ahead (send_unacked (tx ca1)) (Z.of_nat n) Hu) as [Hgt Hraw]; [lia|].
  destruct (send_buf_consume_spec n (tx ca1) (co_tx _ Hok) Hle) as (_ & Hun & Hsent & _).
  exists (on_ack now1 sg ca1). split.
  { unfold on_segment, on_data, on_fin. cbn [payload_bytes sg length Nat.eqb negb]. rewrite andb_false_r. cbn [andb].
    osimpl. change (has sg TCP_FLAG_FIN) with false. by rewrite andb_false_r. }
  split; [by apply on_ack_ok|]. unfold on_ack. cbn [ack sg]. rewrite Hgt, Hraw.
  change (has sg TCP_FLAG_ACK) with true. cbn [andb]. cbv zeta.
  rewrite Z.min_l, Nat2Z.id by lia. cbn [fins set_timers set_tx]. rewrite Hfs. cbn [andb].
  split_and!; try done.
Qed.

Lemma chunk_size (x : Send) :
  unacked x <> [] ->
  (0 < length (take TCP_MSS (unacked x)) <= TCP_MSS)%nat /\
  (length (take TCP_MSS (unacked x)) <= send_buffered x)%nat /\ (TCP_MSS < 2048)%nat.
Proof.
  intros Hne. assert (length (unacked x) <> 0)%nat by (destruct (unacked x); [done|cbn; lia]).
  rewrite length_take. rewrite unacked_length in *. unfold TCP_MSS. lia.
Qed.

(** No timer runs while nothing is in flight. *)
Lemma nothing_in_flight now c :
  plain c = true -> active (state c) = true -> sent_count (tx c) = 0%nat -> expire now c = (c, false).
Proof.
  intros Hp Hact Hs. unfold expire. unfold plain in Hp. apply andb_true_iff in Hp as [-> _]. rewrite Hs.
  by destruct (state c).
Qed.

(** An exchange: the next piece of the stream has arrived. *)
Lemma exchange_spec now ta tb ca cb :
  hosts a ta ca -> hosts b tb cb -> synced a b ca cb -> unacked (tx ca) <> [] ->
  (length (take TCP_MSS (unacked (tx ca))) <= RECV_BUF_CAP - recv_len (rx cb))%nat ->
  exists ta' tb' ca' cb', exchange a b now (ta, tb) = Done (ta', tb') /\
    hosts a ta' ca' /\ hosts b tb' cb' /\ synced a b ca' cb' /\
    unacked (tx ca') = drop TCP_MSS (unacked (tx ca)) /\
    pending (rx cb') = pending (rx cb) ++ take TCP_MSS (unacked (tx ca)).
Proof.
  intros Hta Htb Hsy Hne Hroom. set (chunk := take TCP_MSS (unacked (tx ca))) in *.
  assert (Hcne : chunk <> []) by (unfold chunk; by destruct (unacked (tx ca))).
  destruct (sends_chunk now ca cb Hsy Hne) as (seg & ca1 & Hn & Hparse & Hok1 & Hpl1 & Hst1 & Hf1 & Hr1 & Ha1 & Ht1).
  fold chunk in Hparse, Ht1.
  destruct (takes_chunk now now ca cb chunk Hsy Hcne Hroom) as (cb1 & Hseg & Hbok & Hbp & Hbs & Hbt & Hba & Hbn & Hbpe).
  pose proof Hsy as [(Hok & Hpl & Hact & Hsent & Hfs & Haddr) (Hokb & Hplb & Hstb & Hsentb & Haddrb) [Hrn Hu] [Hrn2 Hu2]].
  pose proof (chunk_size (tx ca) Hne) as Hcl. fold chunk in Hcl.
  destruct (acks_chunk now now ca1 (length chunk) (port b) (peer_port b)
    (send_unacked (tx cb1) +₃₂ Z.of_nat (sent_count (tx cb1)))) as
    (ca2 & Hseg2 & Hok2 & Hpl2 & Hst2 & Hf2 & Hr2 & Ha2 & Hu2' & Hs2 & Hun2); rewrite ?Ht1, ?Hf1; cbn [send_buffered set_sent]; try done; try lia.
  rewrite Ht1 in Hu2', Hs2, Hun2. cbn [send_unacked sent_count set_sent] in Hu2', Hs2.
  change (unacked (set_sent _ ?x)) with (unacked x) in Hun2.
  assert (Hta1 := hosts_insert a ta ca ca1 (slot a + 1) Hta).
  assert (Htb1 := hosts_insert b tb cb cb1 (poll_cursor tb) Htb).
  assert (Hansp : parse_segment (segment_of cb1 (send_unacked (tx cb1) +₃₂ Z.of_nat (sent_count (tx cb1)))
      (recv_next (rx cb1)) TCP_FLAG_ACK []).2 =
    Done (Some (mkSegment (port b) (peer_port b) (send_unacked (tx cb1) +₃₂ Z.of_nat (sent_count (tx cb1)))
      (send_unacked (tx ca) +₃₂ Z.of_nat (length chunk)) TCP_FLAG_ACK []))).
  { rewrite Hbn. apply (emitted_parse b cb1); auto using wrap32_u32; [congruence|cbn; lia]. }
  assert (Hfor : forall sq ak fl d, for_side b (peer_ip b) (mkSegment (port a) (peer_port a) sq ak fl d) = true /\
    for_side a (peer_ip a) (mkSegment (port b) (peer_port b) sq ak fl d) = true).
  { intros *. unfold for_side. cbn. by rewrite Hp1, Hp2, !Z.eqb_refl. }
  assert (Hst1' : in_handshake (state ca1) = false) by (rewrite Hst1; by destruct (state ca)).
  rewrite Ht1 in Hseg2. cbn [send_unacked set_sent] in Hseg2.
  pose proof (packet_reaches b tb cb now now _ _ cb1 true Htb Hplb Haddrb Hparse (proj1 (Hfor _ _ _ _)) eq_refl
    Hstb Hseg) as Hgo.
  pose proof (packet_reaches a _ ca1 now now _ _ ca2 false Hta1 Hpl1 (eq_trans Ha1 Haddr) Hansp
    (proj2 (Hfor _ _ _ _)) eq_refl Hst1' Hseg2) as Hback.
  eexists _, _, ca2, cb1. split; [|split; [|split; [exact Htb1|split; [|split; [|exact Hbpe]]]]].
  - unfold exchange. cbn [fst snd]. rewrite (poll_sends a ta ca now seg ca1) by eauto using nothing_in_flight. osimpl. cbn [deliver].
    rewrite Hgo. osimpl. cbn [deliver app mbind outcome_bind]. rewrite Hback. reflexivity.
  - exact (hosts_insert a _ ca1 ca2 _ Hta1).
  - split.
    + split_and!; congruence || lia.
    + split_and!; congruence.
    + split; [congruence|]. rewrite Hu2'. apply wrap32_u32.
    + split; [congruence|]. by rewrite Hbt.
  - rewrite Hun2. unfold chunk. rewrite length_take. destruct (decide (TCP_MSS <= length (unacked (tx ca)))%nat).
    + by rewrite Nat.min_l.
    + by rewrite !drop_ge by lia.
Qed.
End Exchange.

(** C14: what is written arrives. Take two hosts whose connection is synchronised: the
    sender has data in its buffer and none in flight, the receiver expects the first byte of
    it and has room for all of it, and neither host has anything else to do. Then as many
    exchanges as there are segments of 536 bytes in the data, at any times, bring all of it
    into the receiver's buffer, in order and behind what was there, and leave the sender's
    buffer empty: each poll sends, each segment is accepted, each acknowledgement counts. *)
Theorem tcp_delivers (a b : Side) (ta tb : Tcp) (ca cb : TcpConn) (times : list Z) :
  side_ok a -> side_ok b -> port a = peer_port b -> port b = peer_port a ->
  hosts a ta ca -> hosts b tb cb -> synced a b ca cb ->
  (length (unacked (tx ca)) <= RECV_BUF_CAP - recv_len (rx cb))%nat ->
  (TCP_MSS * (length times - 1) < length (unacked (tx ca)) <= TCP_MSS * length times)%nat ->
  exists ta' tb' ca' cb', exchanges a b times (ta, tb) = Done (ta', tb') /\
    conns ta' !! slot a = Some ca' /\ conns tb' !! slot b = Some cb' /\
    unacked (tx ca') = [] /\ pending (rx cb') = pending (rx cb) ++ unacked (tx ca).
Proof.
  intros Ha Hb Hp1 Hp2. revert ta tb ca cb.
  induction times as [|now times IH]; intros ta tb ca cb Hta Htb Hsy Hroom Hn; [cbn in Hn; lia|].
  assert (Hne : unacked (tx ca) <> []) by (intros E; rewrite E in Hn; cbn in Hn; lia).
  destruct (exchange_spec a b Ha Hb Hp1 Hp2 now ta tb ca cb Hta Htb Hsy Hne)
    as (ta1 & tb1 & ca1 & cb1 & Hex & Hta1 & Htb1 & Hsy1 & Hun & Hpe).
  { rewrite length_take. lia. }
  cbn [exchanges]. rewrite Hex. osimpl.
  pose proof (f_equal length Hun) as Hl. pose proof (f_equal length Hpe) as Hl'.
  rewrite length_drop in Hl. rewrite length_app, length_take, !pending_length in Hl'. cbn [length] in Hn.
  destruct times as [|now' times].
  - exists ta1, tb1, ca1, cb1. cbn [length] in Hn. split; [done|]. split; [apply Hta1|]. split; [apply Htb1|].
    rewrite Hun, Hpe, drop_ge, take_ge by lia. done.
  - destruct (IH ta1 tb1 ca1 cb1 Hta1 Htb1 Hsy1) as (ta' & tb' & ca' & cb' & H1 & H2 & H3 & H4 & H5).
    { lia. }
    { rewrite Hl. cbn [length] in *. lia. }
    exists ta', tb', ca', cb'. split_and!; try done. rewrite H5, Hun, Hpe, <- app_assoc, take_drop. done.
Qed.
