(* ===== verification/TcpProps.v ===== *)
(** * TCP: the theorems

    Safety of every run, the state diagram, what the two ends of a connection read, and
    three things a connection does not survive. *)

From S2P Require Import Prelude Ring Bytes Tcp TcpSeg TcpCalls TcpEvolve TcpPackets TcpWire TcpStep TcpEnds.
From S2P Require Import TcpDiagram TcpLive.
Local Open Scope Z_scope.
Local Open Scope machine_scope.

(** ** Safety *)

Inductive tcp_step (t : Tcp) : Tcp -> Prop :=
| tcp_step_call c a t' : call_ok c -> do_call c t = Done (a, t') -> tcp_step t t'.

Lemma tcp_step_ok t t' : tcp_step t t' -> tcp_ok t -> tcp_ok t'.
Proof.
  intros [c a t2 Hc Hdo] Hok. destruct (call_does c t Hok Hc) as (a0 & t0 & ls & E & Hev & _).
  rewrite Hdo in E. injection E as <- <-. by eapply evolves_tcp_ok.
Qed.

(** C16: in every state that calls, packets and timers can lead to, whatever the packets
    contain, every call returns (no index is out of range, the search for a port ends), and
    in every connection the buffers stay within their capacity, what is in flight within
    what is buffered, the backlog and the links between connections within the table, the
    retransmission timeout between 100 and 800 ticks and its count at most 6. *)
Theorem tcp_safe (t : Tcp) (c : call) :
  rtc tcp_step CONNS t -> call_ok c ->
  exists a t', do_call c t = Done (a, t') /\ length (conns t') = MAX_TCP_CONNS /\ Forall conn_ok (conns t').
Proof.
  intros Hr Hc. assert (Hok : tcp_ok t).
  { eapply (rtc_invariant tcp_step tcp_ok); [exact tcp_step_ok|done|]. apply CONNS_tcp_ok. }
  destruct (call_does c t Hok Hc) as (a & t' & ls & E & Hev & _). exists a, t'. split; [done|].
  by apply (evolves_ok _ _ _ (proj1 Hok) Hev).
Qed.

(** ** The state diagram *)

Lemma step_place cs j c l c' : slot_step cs j c l c' -> in_use c = true -> state c <> Closed -> same_place c c'.
Proof.
  intros Hstep Hu Hne. unfold same_place. destruct Hstep; try congruence; cbn; try (by split_and!).
  - unfold on_syn_sent in H2. destruct (_ && _); [|done]. injection H2 as <-. cbn. by split_and!.
  - by destruct (on_segment_frame _ _ _ _ _ _ H2 H1) as [? _].
  - destruct (expire_frame now c) as (E1 & E2 & _). rewrite E1, E2. split_and!; try done.
    unfold expire. destruct (in_use c); [|done].
    destruct (state c); repeat match goal with |- context [if ?b then _ else _] => destruct b end; done.
  - unfold next_segment in H. destruct (_ || _); [done|]. destruct (_ <? _)%nat.
    + apply bind_Done in H as (data & _ & E). injection E as _ <-. by destruct (_ =? 0).
    + destruct (_ && _); [|done]. by injection H as _ <-.
Qed.

Lemma run_place cs j c ls c' :
  slot_run cs j c ls c' -> cs !! j = Some c -> in_use c = true -> state c <> Closed -> same_place c c'.
Proof.
  intros Hrun. induction Hrun as [|y ls' y1 l y2 Hrun IH Hper Hstep]; intros Hx Hu Hne; [by split_and!|].
  destruct (Hper y Hx) as [Hu1 Hcl]. destruct (IH Hx Hu Hne) as (A1 & A2 & A3).
  destruct (step_place _ _ _ _ _ Hstep (Hu1 Hu)) as (B1 & B2 & B3); [auto|]. split_and!; congruence.
Qed.

(** C23: whatever call is made and whatever packet arrives, a connection in use keeps its
    state or makes exactly the transition of the TCP state diagram that this call or segment
    causes, with its flags and numbers as [transition] lists them; a segment that acknowledges
    the SYN or FIN a connection waits for does move it on; and unless it was in CLOSED a
    connection keeps its addresses, its listener and its role. *)
Theorem tcp_state_machine (t t' : Tcp) (c : call) (a : answer) (j : nat) (x x' : TcpConn) :
  rtc tcp_step CONNS t -> call_ok c -> do_call c t = Done (a, t') ->
  conns t !! j = Some x -> in_use x = true -> conns t' !! j = Some x' ->
  (state x' = state x \/ transition c j x x') /\
  (forall now1 now2 ip data sg, c = Packet now1 now2 ip (Some data) -> parse_segment data = Done (Some sg) ->
     position (matches ip sg) (conns t) = Some j -> has sg TCP_FLAG_RST = false -> moves_on sg x x') /\
  (state x <> Closed -> same_place x x').
Proof.
  intros Hr Hc Hdo Hx Hu Hx'. split_and!.
  - by eapply call_diagram.
  - intros now1 now2 ip data sg -> Hs Hp Hrst. cbn [do_call] in Hdo. unfold on_table, rust_tcp_handle_packet in Hdo.
    apply bind_Done in Hdo as ([a1 cs] & Hdo & [= <- <-]). apply bind_Done in Hdo as ([segs cs1] & Hdo & [= _ <-]).
    rewrite Hs in Hdo. cbn [mbind outcome_bind] in Hdo. apply bind_Done in Hdo as ([r cs2] & Hm & Hdo).
    apply bind_Done in Hdo as (out & _ & [= _ <-]). unfold on_packet in Hm. rewrite Hp in Hm. by eapply on_matched_moves.
  - intros Hne. assert (Hok : tcp_ok t).
    { eapply (rtc_invariant tcp_step tcp_ok); [exact tcp_step_ok|done|]. apply CONNS_tcp_ok. }
    destruct (call_does c t Hok Hc) as (a0 & t0 & ls & E & Hev & _). rewrite Hdo in E. injection E as <- <-.
    destruct (proj2 Hev j x Hx) as (x2 & Hx2 & Hrun). assert (x2 = x') as -> by congruence. by eapply run_place.
Qed.

(** ** The streams *)

(** C3: two hosts open a connection, one with a SYN that the other has received. Then any
    calls are made on either host, on this connection and on others, at any times; packets
    of this connection arrive in any order, any number of times or not at all, and other
    packets with any content. As long as the connection lives, at every moment each
    application has read a prefix of what the other has written; and one that has been told
    the end of the stream has read all of it. (Streams are shorter than 2 GiB, so that
    sequence numbers do not recur.) *)
Theorem tcp_end_to_end (a b : Side) (ta tb : Tcp) (ea eb : End) :
  paired a b -> opens a SynSent ta -> opens b SynReceived tb ->
  rtc (wire_step a b) (new_end ta, new_end tb) (ea, eb) ->
  got eb `prefix_of` wrote ea /\ got ea `prefix_of` wrote eb /\
  (eof eb = true -> got eb = wrote ea) /\ (eof ea = true -> got ea = wrote eb).
Proof.
  intros Hp Ha Hb Hr.
  assert (Hi : wire_inv a b (ea, eb)).
  { eapply (rtc_invariant (wire_step a b)); [intros x y; by apply wire_step_inv|exact Hr|].
    exists 0%nat, false, 0%nat, false. split; eapply opens_inv; eauto. }
  destruct Hi as (ha & fa & hb & fb & [_ _ _ _ _ Ga Fa] & [_ _ _ _ _ Gb Fb]). cbn in *.
  split_and!; [done|done| |]; intros E; [by apply Fb|by apply Fa].
Qed.

(** The window that the peer advertises and the checksum of a segment are not looked at. *)
Lemma window_and_checksum_ignored now1 now2 ip lp rp sq ak fl w ck w2 ck2 data cs :
  rust_tcp_handle_packet now1 now2 ip (Some (header lp rp sq ak fl w ck ++ data)) cs =
  rust_tcp_handle_packet now1 now2 ip (Some (header lp rp sq ak fl w2 ck2 ++ data)) cs.
Proof. unfold rust_tcp_handle_packet. by rewrite !parse_header. Qed.

(** ** What a connection does not survive *)

Lemma expire_loop_keeps now n i j c cs r cs' :
  expire now c = (c, false) -> cs !! j = Some c -> expire_loop now n i cs = Done (r, cs') -> cs' !! j = Some c.
Proof.
  intros He. revert i cs. induction n as [|n IH]; intros i cs Hc; simpl; [by intros [= _ <-]|].
  intros H. apply bind_Done in H as (x & Hx%index_Done & H). destruct (expire now x) as [x' again] eqn:Ex.
  apply bind_Done in H as (cs1 & H1 & H). unfold store in H1. case_decide; [|done]. injection H1 as <-.
  assert (Hc1 : <[i := x']> cs !! j = Some c).
  { destruct (decide (i = j)) as [->|]; [|by rewrite list_lookup_insert_ne].
    rewrite list_lookup_insert_eq by done. congruence. }
  destruct again; [|by eapply IH]. by injection H as _ <-.
Qed.

Lemma send_loop_keeps now n start step j c t out t' :
  next_segment now c = Done None -> conns t !! j = Some c ->
  send_loop now n start step t = Done (out, t') -> conns t' !! j = Some c.
Proof.
  intros Hn Hc. revert step. induction n as [|n IH]; intros step; cbn [send_loop]; [by intros [= _ <-]|].
  cbv zeta. intros H. apply bind_Done in H as (x & Hx%index_Done & H). apply bind_Done in H as (next & Hnx & H).
  destruct next as [[seg x']|]; [|by eapply IH]. apply bind_Done in H as (cs1 & H1 & [= _ <-]).
  unfold store in H1. case_decide; [|done]. injection H1 as <-. cbn [conns].
  destruct (decide (((start + step) `mod` MAX_TCP_CONNS)%nat = j)) as [E|E]; [|by rewrite list_lookup_insert_ne].
  rewrite E in Hx. congruence.
Qed.

Inductive poll_step (t : Tcp) : Tcp -> Prop :=
| poll_at now out t' : rust_tcp_poll now t = Done (out, t') -> poll_step t t'.

(** A FIN is sent once. When it has been sent and its acknowledgement does not come, no
    poll at any time sends it again or gives up: the connection has nothing to send and no
    timer that expires, and stays in its slot of the table of eight as it is. (The comments
    describe a retransmission timer for the FIN too, with at most six attempts.) *)
Theorem tcp_fin_never_resent (t t' : Tcp) (j : nat) (c : TcpConn) :
  conns t !! j = Some c -> in_use c = true -> fin_sent (fins c) = true ->
  state c = FinWait1 \/ state c = Closing \/ state c = LastAck ->
  send_buffered (tx c) = 0%nat -> sent_count (tx c) = 0%nat ->
  rtc poll_step t t' ->
  conns t' !! j = Some c /\ forall now, next_segment now c = Done None /\ expire now c = (c, false).
Proof.
  intros Hc Hu Hf Hst Hb Hs Hr.
  assert (Hidle : forall now, next_segment now c = Done None /\ expire now c = (c, false)).
  { intros now. split.
    - unfold next_segment. destruct (_ || _); [done|]. rewrite Hb, Hs, Hf. cbn. by rewrite andb_false_r.
    - unfold expire. rewrite Hu, Hs. by destruct Hst as [->|[->| ->]]. }
  split; [|done]. revert Hc. induction Hr as [|x y z Hxy _ IH]; intros Hc; [done|]. apply IH.
  destruct Hxy as [now out y Hp]. destruct (Hidle now) as [Hn He]. unfold rust_tcp_poll in Hp.
  apply bind_Done in Hp as ([again cs] & Hex & Hp).
  pose proof (expire_loop_keeps _ _ _ _ _ _ _ _ He Hc Hex) as Hcs.
  destruct again as [i|].
  - by apply bind_Done in Hp as (seg & _ & [= _ <-]).
  - by eapply send_loop_keeps in Hp.
Qed.

(** A refused connection is not noticed. A reset that answers our SYN frees the slot
    and leaves its state at SYN-SENT, so the call that waits for the connection goes on
    waiting until its deadline, looking at a slot that is no longer its own. (The comment at
    that place takes any reset to end the wait.) *)
Theorem tcp_reset_unnoticed (cs : list TcpConn) (idx : nat) (c : TcpConn) (now1 now2 ip : Z)
    (data : list Z) (sg : Segment) :
  cs !! idx = Some c -> state c = SynSent -> position (matches ip sg) cs = Some idx ->
  parse_segment data = Done (Some sg) -> has sg TCP_FLAG_RST = true ->
  exists cs', rust_tcp_handle_packet now1 now2 ip (Some data) cs = Done ([], cs') /\
    cs' !! idx = Some (set_in_use false c) /\
    forall deadline now, now < deadline -> connect_turn idx deadline now cs' = Done (None, cs').
Proof.
  intros Hc Hst Hm Hp Hrst. exists (<[idx := set_in_use false c]> cs).
  assert (Hat : <[idx := set_in_use false c]> cs !! idx = Some (set_in_use false c))
    by (apply list_lookup_insert_eq; by eapply lookup_lt_Some).
  split_and!; [|done|].
  - unfold rust_tcp_handle_packet. rewrite Hp. osimpl. unfold on_packet. rewrite Hm. unfold on_matched.
    oindex Hc. rewrite Hrst. by ostore.
  - intros deadline now Hlt. unfold connect_turn. oindex Hat. cbn [state set_in_use]. rewrite Hst.
    destruct (Z.leb_spec deadline now); [lia|done].
Qed.

(** Data that is not next is not answered. A segment whose data does not start where the
    connection's stream has got to, for example a retransmission of data that has arrived, is
    neither taken nor acknowledged: unless it acknowledges something, ends the stream or
    resets the connection, nothing at all happens. So when an acknowledgement is lost, the
    sender never gets another one for that data. (The comments say that every inbound data
    segment is acknowledged at once.) *)
Theorem tcp_stale_data_unanswered (cs : list TcpConn) (j : nat) (c : TcpConn) (now1 now2 ip : Z)
    (data : list Z) (sg : Segment) :
  parse_segment data = Done (Some sg) -> position (matches ip sg) cs = Some j -> cs !! j = Some c ->
  in_handshake (state c) = false -> has sg TCP_FLAG_RST = false -> has sg TCP_FLAG_FIN = false ->
  seq_gt (ack sg) (send_unacked (tx c)) = false -> seq sg <> recv_next (rx c) ->
  rust_tcp_handle_packet now1 now2 ip (Some data) cs = Done ([], cs).
Proof.
  intros Hs Hp Hc Hh Hrst Hfin Hack Hseq.
  assert (E : on_segment now1 now2 sg c = Done (c, false)).
  { unfold on_segment, on_ack. rewrite Hack, andb_false_r. unfold on_data.
    replace (seq sg =? recv_next (rx c)) with false by lia. rewrite andb_false_r. cbn [mbind outcome_bind].
    unfold on_fin. by rewrite Hfin, andb_false_r. }
  unfold rust_tcp_handle_packet. rewrite Hs. osimpl. unfold on_packet. rewrite Hp. unfold on_matched.
  oindex Hc. rewrite Hrst, E. osimpl. rewrite store_Done by by eapply lookup_lt_Some. osimpl.
  rewrite list_insert_id by done. by destruct (state c).
Qed.

(** * Playing connections

    Runs of two hosts as lists of moves that can be evaluated, with checks that turn an
    evaluation into a run of [wire_step]; and the runs of the examples: a connection that is
    opened, used and closed over a network that repeats segments, and one that loses a single
    acknowledgement. *)

(** ** One host *)

Definition call_okb (c : call) : bool :=
  let u16 p := (0 <=? p) && (p <? 65536) in
  match c with
  | ConnectTurn idx _ _ => (idx <? MAX_TCP_CONNS)%nat
  | Bind _ port | Connect _ _ port _ _ _ => u16 port
  | Packet _ _ _ (Some data) => forallb (fun b => (0 <=? b) && (b <? 256)) data
  | _ => true
  end.

Lemma tcp_call_okb_ok c : call_okb c = true -> call_ok c.
Proof.
  destruct c as [| | | | | |idx ? ?| | | |? ? ? [data|]|]; unfold call_okb, call_ok, is_u16; try done; try lia.
  intros H. apply Forall_forall. intros b Hb. apply list_elem_of_In in Hb.
  apply (proj1 (forallb_forall _ _) H) in Hb. unfold is_u8. lia.
Qed.

(** Calls one after the other, and the answer to one. *)
Definition after_call (t : Tcp) (c : call) : Tcp :=
  match do_call c t with
  | Done (_, t') => t'
  | Panic => t
  end.
Definition after_calls (cs : list call) (t : Tcp) : Tcp := fold_left after_call cs t.
Definition answered (c : call) (t : Tcp) : answer :=
  match do_call c t with
  | Done (a, _) => a
  | Panic => mkAnswer None [] []
  end.

Lemma after_calls_reachable cs t : forallb call_okb cs = true -> rtc tcp_step t (after_calls cs t).
Proof.
  revert t. induction cs as [|c cs IH]; intros t; [done|]. cbn [forallb]. intros [Hc Hcs]%andb_true_iff.
  unfold after_calls. cbn [fold_left]. etrans; [|by apply IH]. unfold after_call.
  destruct (do_call c t) as [[a t']|] eqn:E; [|done]. apply rtc_once. econstructor; eauto using tcp_call_okb_ok.
Qed.

(** ** Two hosts *)

(** A call at one end, or the delivery of the n-th segment the other has sent. *)
Inductive action : Type :=
| Do (c : call)
| Deliver (now1 now2 : Z) (n : nat).

Definition action_call (s : Side) (peer_out : list (list Z)) (x : action) : call :=
  match x with
  | Do c => c
  | Deliver now1 now2 n => Packet now1 now2 (peer_ip s) (peer_out !! n)
  end.

Definition act (s : Side) (peer_out : list (list Z)) (x : action) (e : End) : End :=
  let c := action_call s peer_out x in
  match do_call c (host e) with
  | Done (a, t') =>
      mkEnd t' (wrote e ++ own_writes c a (slot s)) (got e ++ own_reads c a (slot s)) (eof e || says_eof s c a)
        (outbox e ++ (snd <$> filter (fun seg => from_side s seg = true) (segments a)))
  | Panic => e
  end.

Definition aliveb (s : Side) (t : Tcp) : bool :=
  match conns t !! slot s with
  | Some c => in_use c && negb (is_state (state c) Closed)
  | None => false
  end.

(** The action is one of [end_step]. *)
Definition fair (s : Side) (peer_out : list (list Z)) (x : action) (e : End) : bool :=
  let c := action_call s peer_out x in
  aliveb s (host e) && call_okb c &&
  match x with
  | Do (Packet _ _ _ _) => false
  | _ => true
  end &&
  match do_call c (host e) with Done _ => true | Panic => false end &&
  (Z.of_nat (length (wrote (act s peer_out x e))) <? 2147483646).

Lemma fair_step s peer_out x e : fair s peer_out x e = true -> end_step s peer_out e (act s peer_out x e).
Proof.
  unfold fair. cbv zeta. set (c := action_call s peer_out x).
  intros [[[[Hal Hok]%andb_true_iff Hx]%andb_true_iff Hd]%andb_true_iff Hb%Z.ltb_lt]%andb_true_iff.
  unfold act in *. cbv zeta in *. fold c in Hb |- *. destruct (do_call c (host e)) as [[a t']|] eqn:Hdo; [|done].
  unfold aliveb in Hal. destruct (conns (host e) !! slot s) as [conn|] eqn:Hc; [|done].
  apply andb_true_iff in Hal as [Hu Hst]. econstructor; eauto using tcp_call_okb_ok.
  - split; [done|]. intros E. by rewrite E in Hst.
  - unfold c. destruct x as [[]|now1 now2 n]; try done. cbn. destruct (peer_out !! n) as [data|] eqn:Hn; [|done].
    intros sg _ _. by eapply list_elem_of_lookup_2.
Qed.

(** [true] for the first end. *)
Definition move (a b : Side) (m : bool * action) (w : End * End) : End * End :=
  if m.1 then (act a (outbox w.2) m.2 w.1, w.2) else (w.1, act b (outbox w.1) m.2 w.2).

Definition moves (a b : Side) (ms : list (bool * action)) (w : End * End) : End * End :=
  fold_left (fun w m => move a b m w) ms w.

Fixpoint fair_moves (a b : Side) (ms : list (bool * action)) (w : End * End) : bool :=
  match ms with
  | [] => true
  | m :: ms =>
      (if m.1 then fair a (outbox w.2) m.2 w.1 else fair b (outbox w.1) m.2 w.2) &&
      fair_moves a b ms (move a b m w)
  end.

Lemma fair_moves_run a b ms w : fair_moves a b ms w = true -> rtc (wire_step a b) w (moves a b ms w).
Proof.
  revert w. induction ms as [|[side x] ms IH]; intros [ea eb]; [done|]. cbn [fair_moves].
  intros [Hm Hms]%andb_true_iff. eapply rtc_l; [|by apply IH].
  unfold move. destruct side; cbn in *; constructor; by apply fair_step.
Qed.

(** ** The start of a run *)

Definition opensb (s : Side) (st : TcpState) (t : Tcp) : bool :=
  match conns t !! slot s with
  | Some c =>
      plain c && (send_buffered (tx c) =? 0)%nat && (recv_len (rx c) =? 0)%nat &&
      negb (fin_sent (fins c)) && negb (peer_fin_received (fins c)) && is_state (state c) st &&
      (local_port (addr c) =? port s) && (remote_ip (addr c) =? peer_ip s) &&
      (remote_port (addr c) =? peer_port s) && (send_unacked (tx c) =? iss s) &&
      (is_state st SynSent || (recv_next (rx c) =? irs s +₃₂ 1))
  | None => false
  end &&
  forallb (fun '(k, ck) => (k =? slot s)%nat || negb (plain ck) || negb (local_port (addr ck) =? port s))
    (imap pair (conns t)).

Lemma opensb_ok s st t : rtc tcp_step CONNS t -> opensb s st t = true -> opens s st t.
Proof.
  intros Hr. unfold opensb. intros [Hc Ho]%andb_true_iff. split.
  - eapply (rtc_invariant tcp_step tcp_ok); [exact tcp_step_ok|done|]. apply CONNS_tcp_ok.
  - destruct (conns t !! slot s) as [c|] eqn:E; [|done]. exists c. split; [done|].
    repeat (apply andb_true_iff in Hc as [Hc ?]).
    repeat match goal with
    | H : negb _ = true |- _ => apply negb_true_iff in H
    | H : (_ =? _)%nat = true |- _ => apply Nat.eqb_eq in H
    | H : (_ =? _) = true |- _ => apply Z.eqb_eq in H
    | H : is_state (state c) _ = true |- _ => apply is_state_true in H
    end.
    split_and!; try done.
    + unfold plain. by rewrite Hc, H9.
    + trans (mkAddr (local_port (addr c)) (remote_ip (addr c)) (remote_port (addr c))); [by destruct (addr c)|].
      congruence.
    + intros ->. match goal with H : _ || _ = true |- _ => apply orb_true_iff in H as [H|H] end; [done|lia].
  - intros k ck Hk Hne Hp Hport. exfalso.
    assert (Hin : In (k, ck) (imap pair (conns t))).
    { apply list_elem_of_In, (list_elem_of_lookup_2 _ k). by rewrite list_lookup_imap, Hk. }
    apply (proj1 (forallb_forall _ _) Ho) in Hin. cbn beta iota in Hin.
    rewrite Hp, Hport, Z.eqb_refl, (proj2 (Nat.eqb_neq k (slot s)) Hne) in Hin. done.
Qed.

(** * TCP: examples

    A connection from its SYN to the end of its stream, over a network that delivers twice
    and late, and the runs that end badly. *)

(** ** Two hosts *)

Definition client_ip : Z := 0x0A000205.
Definition server_ip : Z := 0x0A000206.

Definition client : Tcp := after_calls [Socket; Connect 0 server_ip 80 100 100 100] CONNS.
Definition syn : list Z :=
  default [] (snd <$> head (segments (answered (Connect 0 server_ip 80 100 100 100) (after_calls [Socket] CONNS)))).

Definition listening : list call := [Socket; Bind 0 80; ListenOn 0].
Definition server : Tcp := after_calls (listening ++ [Packet 100 100 client_ip (Some syn)]) CONNS.

Definition client_side : Side := mkSide 0 49152 server_ip 80 1234501 3450571045.
Definition server_side : Side := mkSide 1 80 client_ip 49152 3450571045 1234501.

Lemma sides_paired : paired client_side server_side.
Proof. split; [split; cbn; (done || unfold is_u16, is_u32; lia)..|done|done]. Qed.

Lemma client_opens : opens client_side SynSent client.
Proof. apply opensb_ok; [by apply after_calls_reachable|]. vm_compute. reflexivity. Qed.

Lemma server_opens : opens server_side SynReceived server.
Proof. apply opensb_ok; [apply after_calls_reachable; vm_compute; reflexivity|]. vm_compute. reflexivity. Qed.

(** The server repeats its SYN-ACK; the client sends HELLO in two writes, the first segment
    of it arrives twice, and closes; the server reads in pieces up to the end. *)
Definition session : list (bool * action) :=
  [(false, Do (Poll 300)); (true, Deliver 310 310 0); (false, Deliver 320 320 0);
   (false, Do (Accept 0)); (true, Do (Write 0 (Some (str "HEL")))); (true, Do (Poll 330));
   (true, Do (Write 0 (Some (str "LO")))); (true, Do (Poll 340));
   (false, Deliver 350 350 2); (false, Deliver 350 350 1); (false, Deliver 350 350 1);
   (false, Do (Read 1 false 2)); (true, Do (Poll 600)); (false, Deliver 610 610 2);
   (true, Do (Close 0)); (true, Deliver 620 620 2); (true, Do (Poll 630)); (false, Deliver 640 640 4);
   (false, Do (Read 1 false 100)); (false, Do (Read 1 false 100))].

Definition opened : End * End := (new_end client, new_end server).
Definition session_end : End * End := moves client_side server_side session opened.

Lemma session_fair : fair_moves client_side server_side session opened = true.
Proof. vm_compute. reflexivity. Qed.

Lemma tcp_end_to_end_witness :
  wrote session_end.1 = str "HELLO" /\ eof session_end.2 = true /\ got session_end.2 = str "HELLO".
Proof.
  assert (Hw : wrote session_end.1 = str "HELLO") by (vm_compute; reflexivity).
  assert (He : eof session_end.2 = true) by (vm_compute; reflexivity).
  split; [exact Hw|]. split; [exact He|]. rewrite <- Hw.
  apply (tcp_end_to_end client_side server_side client server session_end.1 session_end.2 sides_paired
           client_opens server_opens); [|exact He].
  rewrite <- surjective_pairing. exact (fair_moves_run _ _ _ _ session_fair).
Defined.

Lemma tcp_safe_witness :
  exists a t', do_call (Poll 500) client = Done (a, t') /\ length (conns t') = MAX_TCP_CONNS /\ Forall conn_ok (conns t').
Proof.
  apply (tcp_safe client (Poll 500)); [|exact I].
  apply (after_calls_reachable [Socket; Connect 0 server_ip 80 100 100 100]). reflexivity.
Defined.

(** The SYN-ACK that answers the SYN moves the connection to ESTABLISHED. *)
Definition syn_ack : list Z := default [] (outbox (moves client_side server_side [(false, Do (Poll 300))] opened).2 !! 0%nat).
Definition syn_ack_arrives : call := Packet 310 310 server_ip (Some syn_ack).
Definition conn_at (t : Tcp) (j : nat) : TcpConn := default TcpConn_new (conns t !! j).

Definition syn_ack_segment : Segment :=
  match parse_segment syn_ack with Done (Some sg) => sg | _ => mkSegment 0 0 0 0 0 [] end.

Lemma tcp_state_machine_witness :
  transition syn_ack_arrives 0 (conn_at client 0) (conn_at (after_call client syn_ack_arrives) 0) /\
  moves_on syn_ack_segment (conn_at client 0) (conn_at (after_call client syn_ack_arrives) 0) /\
  state (conn_at client 0) = SynSent /\ state (conn_at (after_call client syn_ack_arrives) 0) = Established.
Proof.
  destruct (tcp_state_machine client (after_call client syn_ack_arrives) syn_ack_arrives
    (answered syn_ack_arrives client) 0 (conn_at client 0) (conn_at (after_call client syn_ack_arrives) 0)) as (Ht & Hm & _).
  - apply (after_calls_reachable [Socket; Connect 0 server_ip 80 100 100 100]). reflexivity.
  - apply tcp_call_okb_ok. vm_compute. reflexivity.
  - vm_compute. reflexivity.
  - vm_compute. reflexivity.
  - vm_compute. reflexivity.
  - vm_compute. reflexivity.
  - split; [destruct Ht as [Ht|Ht]; [vm_compute in Ht; discriminate Ht|exact Ht]|].
    split; [|split; vm_compute; reflexivity].
    apply (Hm 310 310 server_ip syn_ack); vm_compute; reflexivity.
Defined.

Lemma tcp_segment_correct_witness :
  exists bytes, send_segment server_ip 49152 80 7 9 24 2048 (str "HELLO") = (server_ip, bytes) /\
    parse_segment bytes = Done (Some (mkSegment 49152 80 7 9 24 (str "HELLO"))) /\
    net_checksum16 (pseudo_header server_ip (length bytes) ++ bytes) = 0.
Proof.
  apply (tcp_segment_correct server_ip 49152 80 7 9 24 2048 (str "HELLO"));
    [split; lia..|]. repeat (constructor; [split; vm_compute; congruence|]). constructor.
Defined.

(** ** A FIN without an answer *)

(** The client after its FIN: it stays for ever. *)
Definition half_closed : Tcp := host session_end.1.

Lemma tcp_fin_never_resent_witness :
  conns (after_calls [Poll 10000; Poll 1000000] half_closed) !! 0%nat = Some (conn_at half_closed 0) /\
  state (conn_at half_closed 0) = FinWait1.
Proof.
  split; [|vm_compute; reflexivity].
  apply (tcp_fin_never_resent half_closed (after_calls [Poll 10000; Poll 1000000] half_closed) 0 (conn_at half_closed 0));
    [vm_compute; reflexivity..|left; vm_compute; reflexivity|vm_compute; reflexivity|vm_compute; reflexivity|].
  apply rtc_l with (after_call half_closed (Poll 10000)).
  - apply (poll_at _ 10000 (segments (answered (Poll 10000) half_closed))). vm_compute. reflexivity.
  - apply rtc_once. apply (poll_at _ 1000000 (segments (answered (Poll 1000000) (after_call half_closed (Poll 10000))))).
    vm_compute. reflexivity.
Defined.

(** ** A lost acknowledgement *)

(** The client's segment arrives; the acknowledgement is lost. From then on everything that
    either side sends is delivered: in round [k] the client polls, what it sends reaches the
    server, and what the server answers reaches the client. *)
Definition acked_once : list (bool * action) :=
  [(false, Do (Poll 300)); (true, Deliver 310 310 0); (false, Deliver 320 320 0);
   (true, Do (Write 0 (Some (str "HELLO")))); (true, Do (Poll 330)); (false, Deliver 340 340 1)].

Definition deliver_all (s : Side) (from to : End) (seen : nat) (now : Z) : End :=
  fold_left (fun e n => act s (outbox from) (Deliver now now n) e) (List.seq seen (length (outbox from) - seen)) to.

Definition round (w : End * End) (k : nat) : End * End :=
  let now := 10000 * (1 + Z.of_nat k) in
  let a := act client_side (outbox w.2) (Do (Poll now)) w.1 in
  let b := deliver_all server_side a w.2 (length (outbox w.1)) now in
  (deliver_all client_side b a (length (outbox w.2)) now, b).

Definition lossy : End * End := moves client_side server_side acked_once opened.

(** One lost acknowledgement ends a connection. The receiver answers data that it
    already has with nothing, neither accepting nor acknowledging it; so after the loss of an
    acknowledgement, even if the network loses nothing more, each of the six retransmissions
    is delivered and ignored, and the sender frees the connection, with all its data
    received. (The comments say that every inbound data segment is acknowledged at once.) *)
Example tcp_lost_ack_kills :
  fair_moves client_side server_side acked_once opened = true /\
  pending (rx (conn_at (host lossy.2) 1)) = str "HELLO" /\ length (outbox lossy.2) = 2%nat /\
  let final := fold_left round (List.seq 0 7) lossy in
  length (outbox final.1) = (length (outbox lossy.1) + 6)%nat /\ outbox final.2 = outbox lossy.2 /\
  in_use (conn_at (host final.1) 0) = false /\ in_use (conn_at (host final.2) 1) = true.
Proof. vm_compute. auto 10. Qed.

Definition hello : list Z := default [] (outbox lossy.1 !! 1%nat).
Definition hello_segment : Segment :=
  match parse_segment hello with Done (Some sg) => sg | _ => mkSegment 0 0 0 0 0 [] end.

Lemma tcp_stale_data_unanswered_witness :
  payload_bytes hello_segment = str "HELLO" /\
  rust_tcp_handle_packet 400 400 client_ip (Some hello) (conns (host lossy.2)) = Done ([], conns (host lossy.2)).
Proof.
  split; [vm_compute; reflexivity|].
  apply (tcp_stale_data_unanswered (conns (host lossy.2)) 1 (conn_at (host lossy.2) 1) 400 400 client_ip hello hello_segment);
    try (vm_compute; reflexivity). vm_compute. discriminate.
Defined.

(** ** A refused connection *)

(** A host that also has a listener connects to a server that refuses. *)
Definition caller : Tcp := after_calls (listening ++ [Socket; Connect 1 server_ip 80 100 100 100]) CONNS.
Definition reset : list Z := (send_segment 0 80 49152 0 1234502 (Z.lor TCP_FLAG_RST TCP_FLAG_ACK) 0 []).2.

Lemma tcp_reset_unnoticed_witness :
  exists cs', rust_tcp_handle_packet 110 110 server_ip (Some reset) (conns caller) = Done ([], cs') /\
    connect_turn 1 1100 1000 cs' = Done (None, cs').
Proof.
  destruct (tcp_reset_unnoticed (conns caller) 1 (conn_at caller 1) 110 110 server_ip reset
    (mkSegment 80 49152 0 1234502 (Z.lor TCP_FLAG_RST TCP_FLAG_ACK) [])) as (cs' & H1 & _ & H2);
    [vm_compute; reflexivity..|].
  exists cs'. split; [exact H1|]. apply H2. reflexivity.
Defined.

(** A client of the listener, whose connection takes the slot that the reset has freed. *)
Definition other_client : Z := 0x0A000263.
Definition other_isn : Z := (120 *₃₂ 2654435761) +₃₂ 1.
Definition intruder : list call :=
  [Packet 120 120 other_client (Some (send_segment 0 5000 80 77 0 TCP_FLAG_SYN 1024 []).2);
   Packet 130 130 other_client (Some (send_segment 0 5000 80 78 (other_isn +₃₂ 1) TCP_FLAG_ACK 1024 []).2)].

(** A refused connect can succeed, with somebody else's connection. The call waits on
    its slot after the reset has freed it; when a client of a listener on the same host gets
    that slot and completes its handshake, the wait finds ESTABLISHED and returns 0: the
    caller then reads and writes the connection of that client, which the listener's
    backlog holds too, so [accept] hands it out a second time. *)
Example tcp_refused_connect_succeeds :
  let refused := after_call caller (Packet 110 110 server_ip (Some reset)) in
  let later := after_calls intruder refused in
  in_use (conn_at refused 1) = false /\
  code (answered (ConnectTurn 1 1100 500) later) = Some 0 /\
  remote_ip (addr (conn_at later 1)) = other_client /\
  code (answered (Accept 0) later) = Some 1.
Proof. vm_compute. auto. Qed.

(** ** A transfer that arrives *)

Definition idleb (c : TcpConn) : bool :=
  negb (in_use c) || (is_listener c && is_state (state c) Listen && (sent_count (tx c) =? 0)%nat).

Lemma idleb_ok c : idleb c = true -> idle c.
Proof.
  intros Hi now. apply orb_true_iff in Hi as [Hi%negb_true_iff|Hi].
  - unfold expire, next_segment. by rewrite Hi.
  - apply andb_true_iff in Hi as [[Hl Hs%is_state_true]%andb_true_iff Hc%Nat.eqb_eq].
    unfold expire, next_segment. rewrite Hl, Hs, Hc. rewrite orb_true_r. by destruct (in_use c).
Qed.

Definition hostsb (s : Side) (t : Tcp) : bool :=
  (slot s <? length (conns t))%nat &&
  forallb (fun '(k, ck) => (k =? slot s)%nat || (idleb ck && negb (plain ck))) (imap pair (conns t)).

Lemma hostsb_ok s t : tcp_ok t -> hostsb s t = true -> hosts s t (conn_at t (slot s)).
Proof.
  intros [[Hl _] _] [Hs%Nat.ltb_lt Ho]%andb_true_iff.
  assert (Hk : forall k ck, conns t !! k = Some ck -> k <> slot s -> idleb ck = true /\ plain ck = false).
  { intros k ck Hk Hne. assert (Hin : In (k, ck) (imap pair (conns t))).
    { apply list_elem_of_In, (list_elem_of_lookup_2 _ k). by rewrite list_lookup_imap, Hk. }
    apply (proj1 (forallb_forall _ _) Ho) in Hin. cbn beta iota in Hin.
    rewrite (proj2 (Nat.eqb_neq k (slot s)) Hne) in Hin. apply andb_true_iff in Hin as [? ?%negb_true_iff]. done. }
  split; [done| | |].
  - unfold conn_at. destruct (lookup_lt_is_Some_2 (conns t) (slot s) Hs) as [c ->]. done.
  - intros k ck Hck Hne. apply idleb_ok. by apply (Hk k ck Hck Hne).
  - intros k ck Hck Hne Hp. destruct (Hk k ck Hck Hne). congruence.
Qed.

(** The client after the handshake, with 600 bytes to send; the server in front of them. *)
Definition bulk : list Z := replicate 600 65.
Definition ready : End * End :=
  moves client_side server_side
    [(false, Do (Poll 300)); (true, Deliver 310 310 0); (false, Deliver 320 320 0); (true, Do (Write 0 (Some bulk)))]
    opened.

Lemma ready_ok : tcp_ok (host ready.1) /\ tcp_ok (host ready.2).
Proof.
  assert (Hi : wire_inv client_side server_side ready).
  { eapply (rtc_invariant (wire_step client_side server_side)).
    - intros x y. apply wire_step_inv, sides_paired.
    - apply fair_moves_run. vm_compute. reflexivity.
    - exists 0%nat, false, 0%nat, false.
      split; [exact (opens_inv _ _ _ _ client_opens (or_introl eq_refl))|
              exact (opens_inv _ _ _ _ server_opens (or_intror eq_refl))]. }
  destruct Hi as (? & ? & ? & ? & [H1 _ _ _ _ _ _] & [H2 _ _ _ _ _ _]). by split.
Qed.

Definition u32b (x : Z) : bool := (0 <=? x) && (x <? 4294967296).
Definition addrb (s : Side) (c : TcpConn) : bool :=
  (local_port (addr c) =? port s) && (remote_ip (addr c) =? peer_ip s) && (remote_port (addr c) =? peer_port s).

Lemma addrb_ok s c : addrb s c = true -> addr c = mkAddr (port s) (peer_ip s) (peer_port s).
Proof.
  unfold addrb. destruct (addr c). cbn. intros [[->%Z.eqb_eq ->%Z.eqb_eq]%andb_true_iff ->%Z.eqb_eq]%andb_true_iff.
  done.
Qed.

Definition syncedb (a b : Side) (ca cb : TcpConn) : bool :=
  (plain ca && active (state ca) && (sent_count (tx ca) =? 0)%nat && negb (fin_sent (fins ca)) && addrb a ca) &&
  (plain cb && negb (in_handshake (state cb)) && (sent_count (tx cb) =? 0)%nat && addrb b cb) &&
  ((recv_next (rx cb) =? send_unacked (tx ca)) && u32b (send_unacked (tx ca))) &&
  ((recv_next (rx ca) =? send_unacked (tx cb)) && u32b (send_unacked (tx cb))).

Lemma syncedb_ok a b ca cb : conn_ok ca -> conn_ok cb -> syncedb a b ca cb = true -> synced a b ca cb.
Proof.
  intros Ha Hb Hs. unfold syncedb, u32b in Hs.
  repeat match goal with
  | H : _ && _ = true |- _ => apply andb_true_iff in H as [? ?]
  | H : negb _ = true |- _ => apply negb_true_iff in H
  | H : (_ =? _)%nat = true |- _ => apply Nat.eqb_eq in H
  | H : addrb _ _ = true |- _ => apply addrb_ok in H
  end.
  split; split_and!; unfold is_u32; try done; try lia.
Qed.

Lemma conn_at_ok t j : tcp_ok t -> conn_ok (conn_at t j).
Proof.
  intros [[_ Hok] _]. unfold conn_at. destruct (conns t !! j) as [c|] eqn:E; [|apply conn_new_ok].
  by eapply Forall_lookup_1.
Qed.

Lemma tcp_delivers_witness :
  exists ta tb ca cb, exchanges client_side server_side [400; 410] (host ready.1, host ready.2) = Done (ta, tb) /\
    conns ta !! 0%nat = Some ca /\ conns tb !! 1%nat = Some cb /\ unacked (tx ca) = [] /\ pending (rx cb) = bulk.
Proof.
  destruct ready_ok as [Ha Hb].
  destruct (tcp_delivers client_side server_side (host ready.1) (host ready.2) (conn_at (host ready.1) 0)
    (conn_at (host ready.2) 1) [400; 410]) as (ta & tb & ca & cb & H1 & H2 & H3 & H4 & H5).
  - apply sides_paired.
  - apply sides_paired.
  - reflexivity.
  - reflexivity.
  - apply (hostsb_ok client_side); [exact Ha|]. vm_compute. reflexivity.
  - apply (hostsb_ok server_side); [exact Hb|]. vm_compute. reflexivity.
  - apply syncedb_ok; [apply conn_at_ok, Ha|apply conn_at_ok, Hb|]. vm_compute. reflexivity.
  - apply Nat.leb_le. vm_compute. reflexivity.
  - split; [apply Nat.ltb_lt|apply Nat.leb_le]; vm_compute; reflexivity.
  - exists ta, tb, ca, cb. split_and!; [exact H1|exact H2|exact H3|exact H4|].
    rewrite H5. vm_compute. reflexivity.
Defined.

(** ** A stale backlog *)

(** A client completes its handshake and resets before anyone accepts it; the next socket
    of the host gets its slot. *)
Definition queued : Tcp := after_calls (listening ++ intruder) CONNS.

(** The backlog of a listener keeps the numbers of connections that are gone. After the
    reset of a connection that nobody has accepted, its slot goes to a new socket; [accept]
    then hands that socket out as the connection, and closing the listener frees it. *)
Example tcp_stale_backlog :
  let gone := after_call queued (Packet 140 140 other_client
    (Some (send_segment 0 5000 80 78 0 TCP_FLAG_RST 0 []).2)) in
  let later := after_call gone Socket in
  in_use (conn_at queued 1) = true /\ in_use (conn_at gone 1) = false /\
  code (answered Socket gone) = Some 1 /\ code (answered (Accept 0) later) = Some 1 /\
  in_use (conn_at later 1) = true /\ in_use (conn_at (after_call later (Close 0)) 1) = false.
Proof. vm_compute. auto 10. Qed.

(** ** The self-test *)

(** At boot the self-test passes. *)
Lemma tcp_selftest_passes : exists cs, rust_tcp_selftest (fun k => 5 + Z.of_nat k) (conns CONNS) = Done (Some 0, cs).
Proof.
  destruct (rust_tcp_selftest (fun k => 5 + Z.of_nat k) (conns CONNS)) as [[r cs]|] eqn:E.
  - exists cs. assert (Hr : (if rust_tcp_selftest (fun k => 5 + Z.of_nat k) (conns CONNS) is Done (Some 0, _)
      then true else false) = true) by (vm_compute; reflexivity).
    rewrite E in Hr. by destruct r as [[]|].
  - assert (Hr : (if rust_tcp_selftest (fun k => 5 + Z.of_nat k) (conns CONNS) is Done _ then true else false) = true)
      by (vm_compute; reflexivity).
    by rewrite E in Hr.
Qed.
