(* ===== verification/Mixer.v ===== *)
(** * The audio mixer ([src/kernel/rust/mixer.rs])

    The mixer is a record of eight streams, two voices, the tap and the bookkeeping of the
    card's ring; a stream's fields are grouped by what they belong to. The card is the
    trait [Hw], here a class: every method may change the card's state. Indices and lengths
    of rings are [nat], samples and counters [Z] at their width. *)

From stdpp Require Import strings.
From S2P Require Import Prelude.
Local Open Scope Z_scope.
Local Open Scope machine_scope.

Definition SAMPLE_RATE : Z := 48000.
Definition PERIOD_FRAMES : nat := Z.to_nat 480.
Definition PERIOD_SAMPLES : nat := PERIOD_FRAMES * 2.
Definition RING_PERIODS : nat := 32.
Definition TARGET_AHEAD : nat := 6.
Definition START_PREFILL : nat := 3.
Definition MAX_STREAMS : nat := 8.
Definition MAX_STREAMS_PER_PROC : nat := 4.
Definition STREAM_RING_SAMPLES : nat := Z.to_nat 16384.
Definition MIN_RATE : Z := 8000.
Definition MAX_RATE : Z := 48000.
Definition TAP_FRAMES : nat := Z.to_nat 4096.
Definition UNITY : Z := 256.
Definition MAX_VOICES : nat := 2.
Definition CLOSE_ABORT : Z := 1.
Definition CTL_SET_VOLUME : Z := 1.
Definition CTL_PAUSE : Z := 2.
Definition CTL_RESUME : Z := 3.
Definition CTL_FLUSH : Z := 4.
Definition CTL_STREAM_STAT : Z := 5.
Definition CTL_MIXER_STAT : Z := 6.
Definition CTL_SET_MASTER : Z := 7.
Definition EPERM : Z := 1.
Definition EBADF : Z := 9.
Definition EAGAIN : Z := 11.
Definition ENODEV : Z := 19.
Definition EINVAL : Z := 22.
Definition ENOSPC : Z := 28.

(** Arithmetic on [i32]. *)
Definition wrap_i32 (z : Z) : Z := (z + 2147483648) mod 4294967296 - 2147483648.
Definition is_i16 (z : Z) : Prop := -32768 <= z < 32768.

(** ** The card *)

Class Hw (H : Type) : Type := {
  present : H -> bool * H;
  ring_start : nat -> H -> H;
  ring_stop : H -> H;
  ring_civ : H -> Z * H;
  ring_running : H -> bool * H;
  ring_set_lvi : nat -> H -> H;
  write_period : nat -> list Z -> H -> H;
}.

(** ** State *)

(** A stereo frame. *)
Definition frame : Type := (Z * Z)%type.

Record Life : Type := mkLife {
  in_use : bool;
  closing : bool;
  paused : bool;
  gen : Z;
  owner : Z;
}.

Record Format : Type := mkFormat {
  channels : nat;
  rate : Z;
  step : Z;
  volume : Z;
}.

Record Buffer : Type := mkBuffer {
  read : nat;
  count : nat;
  pcm : list Z;
}.

Record Resampler : Type := mkResampler {
  have_cur : bool;
  phase : Z;
  cur : frame;
}.

Record Tally : Type := mkTally {
  started : bool;
  in_underrun : bool;
  played : Z;
  written : Z;
  underrun_events : Z;
  underrun_frames : Z;
}.

Record Stream : Type := mkStream {
  life : Life;
  format : Format;
  buffer : Buffer;
  resampler : Resampler;
  tally : Tally;
}.

Record Voice : Type := mkVoice {
  active : bool;
  high : bool;
  half : Z;
  in_half : Z;
  amp : Z;
  left : Z;
}.

Definition EMPTY_STREAM : Stream :=
  mkStream (mkLife false false false 0 0) (mkFormat 0 0 0 0)
    (mkBuffer 0 0 (replicate STREAM_RING_SAMPLES 0)) (mkResampler false 0 (0, 0))
    (mkTally false false 0 0 0 0).
Definition EMPTY_VOICE : Voice := mkVoice false false 0 0 0 0.

Definition next_gen (g : Z) : Z :=
  let n := Z.land (g +₃₂ 1) 0x00FFFFFF in
  if n =? 0 then 1 else n.

(** Assignments. *)
Definition set_life (x : Life) (s : Stream) : Stream :=
  mkStream x (format s) (buffer s) (resampler s) (tally s).
Definition set_format (x : Format) (s : Stream) : Stream :=
  mkStream (life s) x (buffer s) (resampler s) (tally s).
Definition set_buffer (x : Buffer) (s : Stream) : Stream :=
  mkStream (life s) (format s) x (resampler s) (tally s).
Definition set_resampler (x : Resampler) (s : Stream) : Stream :=
  mkStream (life s) (format s) (buffer s) x (tally s).
Definition set_tally (x : Tally) (s : Stream) : Stream :=
  mkStream (life s) (format s) (buffer s) (resampler s) x.

(** ** Streams *)

Definition capacity (f : Format) : outcome nat :=
  if (channels f =? 0)%nat then Panic else Done (STREAM_RING_SAMPLES / channels f)%nat.

(** The frame at the read index; mono is duplicated. *)
Definition frame_at (ch : nat) (b : Buffer) : outcome frame :=
  let base := (read b * ch)%nat in
  if (ch =? 1)%nat then
    v ← index (pcm b) base;
    Done (v, v)
  else
    l ← index (pcm b) base;
    r ← index (pcm b) (base + 1);
    Done (l, r).

Definition pop (s : Stream) : outcome (option frame * Stream) :=
  let b := buffer s in
  if (count b =? 0)%nat then Done (None, s)
  else
    f ← frame_at (channels (format s)) b;
    cap ← capacity (format s);
    Done (Some f, set_buffer (mkBuffer ((read b + 1) `mod` cap) (count b - 1) (pcm b)) s).

Definition peek (s : Stream) : outcome (option frame) :=
  let b := buffer s in
  if (count b =? 0)%nat then Done None
  else f ← frame_at (channels (format s)) b; Done (Some f).

Fixpoint push_loop (n i ch cap start : nat) (samples p : list Z) : outcome (list Z) :=
  match n with
  | O => Done p
  | S n' =>
      let dst := ((start + i) `mod` cap * ch)%nat in
      let src := (i * ch)%nat in
      v ← index samples src;
      p ← store p dst v;
      p ← (if (ch =? 2)%nat then w ← index samples (src + 1); store p (dst + 1) w
           else Done p);
      push_loop n' (S i) ch cap start samples p
  end.

Definition push (samples : list Z) (s : Stream) : outcome (nat * Stream) :=
  let ch := channels (format s) in
  let b := buffer s in
  cap ← capacity (format s);
  let frames := (length samples / ch)%nat in
  let take := (frames `min` (cap - count b))%nat in
  p ← push_loop take 0 ch cap (read b + count b) samples (pcm b);
  let t := tally s in
  Done (take,
        set_tally (mkTally (started t) (in_underrun t) (played t) (written t +₃₂ Z.of_nat take)
                     (underrun_events t) (underrun_frames t))
          (set_buffer (mkBuffer (read b) (count b + take) p) s)).

(** One sample between [a] and [b]. *)
Definition lerp (a b p : Z) : Z :=
  wrap_i32 (a + wrap_i32 (Z.shiftr (wrap_i32 (b - a) * p) 16)).

(** The stream has run dry: an underrun begins. *)
Definition begin_underrun (t : Tally) : Tally :=
  if started t && negb (in_underrun t)
  then mkTally (started t) true (played t) (written t) (underrun_events t +₃₂ 1) (underrun_frames t)
  else t.

(** An output frame that is missing. *)
Definition miss_frame (t : Tally) : Tally :=
  if started t
  then begin_underrun (mkTally (started t) (in_underrun t) (played t) (written t)
                         (underrun_events t) (underrun_frames t +₃₂ 1))
  else t.

(** The loop [while self.phase >= 65536], which takes 65536 off in each of [n] rounds. *)
Fixpoint advance (n : nat) (s : Stream) : outcome Stream :=
  match n with
  | O => Done s
  | S n' =>
      let r := resampler s in
      '(f, s) ← pop (set_resampler (mkResampler (have_cur r) (phase r -₃₂ 65536) (cur r)) s);
      match f with
      | Some f => advance n' (set_resampler (mkResampler (have_cur r) (phase r -₃₂ 65536) f) s)
      | None =>
          Done (set_tally (begin_underrun (tally s))
                  (set_resampler (mkResampler false 0 (cur r)) s))
      end
  end.

(** The frame at the current position, which is between [cur] and the next input frame. *)
Definition frame_here (s : Stream) : outcome frame :=
  let r := resampler s in
  if phase r =? 0 then Done (cur r)
  else
    n ← peek s;
    Done (match n with
          | Some n => (lerp (cur r).1 n.1 (phase r), lerp (cur r).2 n.2 (phase r))
          | None => cur r
          end).

(** The part of [next_frame] that has a current frame. *)
Definition emit_frame (s : Stream) : outcome (option frame * Stream) :=
  let t := tally s in
  let s := set_tally (mkTally (started t) false (played t) (written t) (underrun_events t)
                        (underrun_frames t)) s in
  out ← frame_here s;
  let r := resampler s in
  let p := phase r +₃₂ step (format s) in
  s ← advance (Z.to_nat (p / 65536)) (set_resampler (mkResampler (have_cur r) p (cur r)) s);
  let t := tally s in
  Done (Some out,
        set_tally (mkTally (started t) (in_underrun t) (played t +₃₂ 1) (written t)
                     (underrun_events t) (underrun_frames t)) s).

Definition next_frame (s : Stream) : outcome (option frame * Stream) :=
  if have_cur (resampler s) then emit_frame s
  else
    '(f, s) ← pop s;
    match f with
    | Some f =>
        let t := tally s in
        emit_frame (set_tally (mkTally true (in_underrun t) (played t) (written t)
                                 (underrun_events t) (underrun_frames t))
                      (set_resampler (mkResampler true 0 f) s))
    | None => Done (None, set_tally (miss_frame (tally s)) s)
    end.

Definition wants_to_play (s : Stream) : bool :=
  in_use (life s) && negb (paused (life s)) &&
  ((0 <? count (buffer s))%nat || have_cur (resampler s)).

(** [Voice::next]. *)
Definition voice_next (v : Voice) : Z * Voice :=
  let x := if high v then amp v else wrap_i32 (- amp v) in
  let in_half' := in_half v +₃₂ 1 in
  let '(high', in_half'') :=
    if half v <=? in_half' then (negb (high v), 0) else (high v, in_half') in
  let left' := left v -₃₂ 1 in
  (x, mkVoice (if left' =? 0 then false else active v) high' (half v) in_half'' (amp v) left').

(** ** The mixer *)

Record Dma : Type := mkDma {
  running : bool;
  write_idx : nat;
  queued : nat;
  last_civ : nat;
  hw_underruns : Z;
  restarts : Z;
  periods_written : Z;
}.

Record Mixer : Type := mkMixer {
  streams : list Stream;
  voices : list Voice;
  master_cut : Z;
  muted : bool;
  tap : list Z;
  tap_pos : nat;
  mixed_frames : Z;
  clipped : Z;
  dma : Dma;
}.

Definition Mixer_new : Mixer :=
  mkMixer (replicate MAX_STREAMS EMPTY_STREAM) (replicate MAX_VOICES EMPTY_VOICE) 0 false
    (replicate (TAP_FRAMES * 2) 0) 0 0 0 (mkDma false 0 0 0 0 0 0).

Definition set_streams (x : list Stream) (m : Mixer) : Mixer :=
  mkMixer x (voices m) (master_cut m) (muted m) (tap m) (tap_pos m) (mixed_frames m) (clipped m) (dma m).
Definition set_voices (x : list Voice) (m : Mixer) : Mixer :=
  mkMixer (streams m) x (master_cut m) (muted m) (tap m) (tap_pos m) (mixed_frames m) (clipped m) (dma m).
Definition set_dma (x : Dma) (m : Mixer) : Mixer :=
  mkMixer (streams m) (voices m) (master_cut m) (muted m) (tap m) (tap_pos m) (mixed_frames m) (clipped m) x.

(** *** Handles *)

Definition handle_for (slot : nat) (m : Mixer) : outcome Z :=
  s ← index (streams m) slot;
  Done (Z.lor (wrap32 (Z.shiftl (gen (life s)) 8)) (Z.of_nat slot + 1)).

Definition lookup_any (pid handle : Z) (m : Mixer) : outcome (result nat Z) :=
  let low := Z.land handle 0xFF in
  let g := Z.shiftr handle 8 in
  if (low =? 0) || (Z.of_nat MAX_STREAMS <? low) || (g =? 0) then Done (Err EBADF)
  else
    let slot := Z.to_nat (low - 1) in
    s ← index (streams m) slot;
    let l := life s in
    if negb (in_use l) || negb (gen l =? g) || negb (owner l =? pid) then Done (Err EBADF)
    else Done (Ok slot).

Definition lookup (pid handle : Z) (m : Mixer) : outcome (result nat Z) :=
  r ← lookup_any pid handle m;
  match r with
  | Err e => Done (Err e)
  | Ok slot =>
      s ← index (streams m) slot;
      if closing (life s) then Done (Err EBADF) else Done (Ok slot)
  end.

(** The slot after [free_stream]. *)
Definition freed (s : Stream) : Stream :=
  let b := buffer s in let r := resampler s in
  mkStream (mkLife false false false (next_gen (gen (life s))) (owner (life s))) (format s)
    (mkBuffer (read b) 0 (pcm b)) (mkResampler false (phase r) (cur r)) (tally s).

Definition free_stream (slot : nat) (m : Mixer) : outcome Mixer :=
  s ← index (streams m) slot;
  ss ← store (streams m) slot (freed s);
  Done (set_streams ss m).

(** *** Stream operations *)

Definition of_pid (pid : Z) (s : Stream) : bool := in_use (life s) && (owner (life s) =? pid).

(** What [open] makes of a free slot. *)
Definition opened (pid ch r vol : Z) (s : Stream) : Stream :=
  mkStream
    (mkLife true false false (if gen (life s) =? 0 then 1 else gen (life s)) pid)
    (mkFormat (Z.to_nat ch) r (wrap32 (Z.shiftl r 16) / SAMPLE_RATE) vol)
    (mkBuffer 0 0 (pcm (buffer s))) (mkResampler false 0 (0, 0)) (mkTally false false 0 0 0 0).

Definition open `{Hw H} (pid ch r flags vol : Z) (m : Mixer) (h : H) :
    outcome (result (Z * Z) Z * Mixer * H) :=
  let '(p, h) := present h in
  if negb p then Done (Err ENODEV, m, h)
  else if negb (flags =? 0) || (negb (ch =? 1) && negb (ch =? 2)) || (r <? MIN_RATE)
       || (MAX_RATE <? r) || (UNITY <? vol) || (pid <=? 0) then Done (Err EINVAL, m, h)
  else
    let mine := countb (of_pid pid) (streams m) in
    if (MAX_STREAMS_PER_PROC <=? mine)%nat then Done (Err ENOSPC, m, h)
    else
      match position (fun s => negb (in_use (life s))) (streams m) with
      | None => Done (Err ENOSPC, m, h)
      | Some slot =>
          s ← index (streams m) slot;
          let s' := opened pid ch r vol s in
          ss ← store (streams m) slot s';
          let m := set_streams ss m in
          cap ← capacity (format s');
          handle ← handle_for slot m;
          Done (Ok (handle, Z.of_nat cap), m, h)
      end.

Definition write (pid handle : Z) (samples : list Z) (m : Mixer) : outcome (result Z Z * Mixer) :=
  r ← lookup pid handle m;
  match r with
  | Err e => Done (Err e, m)
  | Ok slot =>
      s ← index (streams m) slot;
      let ch := channels (format s) in
      if (ch =? 0)%nat then Panic
      else if negb (length samples `mod` ch =? 0)%nat then Done (Err EINVAL, m)
      else if (length samples =? 0)%nat then Done (Ok 0, m)
      else
        '(taken, s') ← push samples s;
        ss ← store (streams m) slot s';
        let m := set_streams ss m in
        if (taken =? 0)%nat then Done (Err EAGAIN, m) else Done (Ok (Z.of_nat taken), m)
  end.

Definition drained (s : Stream) : bool :=
  (count (buffer s) =? 0)%nat && negb (have_cur (resampler s)).

Definition set_closing (s : Stream) : Stream :=
  let l := life s in set_life (mkLife (in_use l) true (paused l) (gen l) (owner l)) s.

Definition close (pid handle flags : Z) (m : Mixer) : outcome (result unit Z * Mixer) :=
  if negb (Z.land flags (Z.lnot CLOSE_ABORT) =? 0) then Done (Err EINVAL, m)
  else
    r ← lookup pid handle m;
    match r with
    | Err e => Done (Err e, m)
    | Ok slot =>
        s ← index (streams m) slot;
        if negb (Z.land flags CLOSE_ABORT =? 0) || drained s || paused (life s) then
          m ← free_stream slot m;
          Done (Ok tt, m)
        else
          ss ← store (streams m) slot (set_closing s);
          Done (Ok tt, set_streams ss m)
    end.

Definition with_volume (v : Z) (s : Stream) : Stream :=
  let f := format s in set_format (mkFormat (channels f) (rate f) (step f) v) s.

Definition set_volume (pid handle v : Z) (m : Mixer) : outcome (result unit Z * Mixer) :=
  r ← lookup pid handle m;
  match r with
  | Err e => Done (Err e, m)
  | Ok slot =>
      if UNITY <? v then Done (Err EINVAL, m)
      else
        s ← index (streams m) slot;
        ss ← store (streams m) slot (with_volume v s);
        Done (Ok tt, set_streams ss m)
  end.

Definition with_paused (p : bool) (s : Stream) : Stream :=
  let l := life s in set_life (mkLife (in_use l) (closing l) p (gen l) (owner l)) s.

Definition set_paused (pid handle : Z) (p : bool) (m : Mixer) : outcome (result unit Z * Mixer) :=
  r ← lookup pid handle m;
  match r with
  | Err e => Done (Err e, m)
  | Ok slot =>
      s ← index (streams m) slot;
      ss ← store (streams m) slot (with_paused p s);
      Done (Ok tt, set_streams ss m)
  end.

Definition flushed (s : Stream) : Stream :=
  let t := tally s in
  mkStream (life s) (format s) (mkBuffer 0 0 (pcm (buffer s)))
    (mkResampler false 0 (cur (resampler s)))
    (mkTally false false (played t) (written t) (underrun_events t) (underrun_frames t)).

Definition flush (pid handle : Z) (m : Mixer) : outcome (result unit Z * Mixer) :=
  r ← lookup pid handle m;
  match r with
  | Err e => Done (Err e, m)
  | Ok slot =>
      s ← index (streams m) slot;
      ss ← store (streams m) slot (flushed s);
      Done (Ok tt, set_streams ss m)
  end.

Definition b2z (b : bool) : Z := if b then 1 else 0.

(** [stream_stat], as the array it is handed out in. *)
Definition stream_stat (pid handle : Z) (m : Mixer) : outcome (result (list Z) Z) :=
  r ← lookup_any pid handle m;
  match r with
  | Err e => Done (Err e)
  | Ok slot =>
      s ← index (streams m) slot;
      cap ← capacity (format s);
      let t := tally s in
      Done (Ok [Z.of_nat (count (buffer s)); Z.of_nat cap; played t; written t; underrun_events t;
                underrun_frames t; volume (format s);
                Z.lor (b2z (paused (life s))) (Z.shiftl (b2z (closing (life s))) 1);
                rate (format s); Z.of_nat (channels (format s))])
  end.

(** *** Global controls *)

(** [mixer_stat], as the array it is handed out in. *)
Definition mixer_stat (m : Mixer) : list Z :=
  [Z.of_nat (countb (fun s => in_use (life s)) (streams m)); b2z (running (dma m)); mixed_frames m;
   clipped m; hw_underruns (dma m); restarts (dma m); UNITY -₃₂ master_cut m; b2z (muted m);
   Z.of_nat (queued (dma m)); Z.of_nat (countb active (voices m))].

Definition set_master (uid v : Z) (mute : bool) (m : Mixer) : result unit Z * Mixer :=
  if negb (uid =? 0) then (Err EPERM, m)
  else if UNITY <? v then (Err EINVAL, m)
  else (Ok tt, mkMixer (streams m) (voices m) (UNITY - v) mute (tap m) (tap_pos m) (mixed_frames m)
                 (clipped m) (dma m)).

Fixpoint tap_loop (n i start : nat) (m : Mixer) (out : list Z) : outcome (list Z) :=
  match n with
  | O => Done out
  | S n' =>
      let src := ((start + i) `mod` TAP_FRAMES * 2)%nat in
      l ← index (tap m) src;
      out ← store out (i * 2) l;
      r ← index (tap m) (src + 1);
      out ← store out (i * 2 + 1) r;
      tap_loop n' (S i) start m out
  end.

Definition tap_read (uid : Z) (out : list Z) (frames : Z) (m : Mixer) :
    outcome (result (Z * Z) Z * list Z) :=
  if negb (uid =? 0) then Done (Err EPERM, out)
  else
    let n := Z.to_nat (Z.min (Z.min frames (Z.of_nat TAP_FRAMES)) (mixed_frames m)) in
    if (length out <? n * 2)%nat then Done (Err EINVAL, out)
    else
      out ← tap_loop n 0 ((tap_pos m + TAP_FRAMES - n) `mod` TAP_FRAMES) m out;
      Done (Ok (Z.of_nat n, mixed_frames m), out).

Definition beep_tone `{Hw H} (hz ms a : Z) (m : Mixer) (h : H) : outcome (bool * Mixer * H) :=
  let '(p, h) := present h in
  if negb p || (hz =? 0) then Done (false, m, h)
  else
    let half := Z.max (SAMPLE_RATE / hz / 2) 1 in
    let left := (SAMPLE_RATE / 1000) *₃₂ ms in
    if left =? 0 then Done (false, m, h)
    else
      let slot := default 0%nat (position (fun v => negb (active v)) (voices m)) in
      vs ← store (voices m) slot (mkVoice true true half 0 a left);
      Done (true, set_voices vs m, h).

Definition beep `{Hw H} (m : Mixer) (h : H) : outcome (bool * Mixer * H) :=
  beep_tone 440 300 8000 m h.

(** The loops over the slots that free some of them. *)
Fixpoint free_where (f : Stream -> bool) (n slot : nat) (m : Mixer) : outcome Mixer :=
  match n with
  | O => Done m
  | S n' =>
      s ← index (streams m) slot;
      m ← (if f s then free_stream slot m else Done m);
      free_where f n' (S slot) m
  end.

Definition process_exit (pid : Z) (m : Mixer) : outcome Mixer :=
  free_where (of_pid pid) MAX_STREAMS 0 m.

(** *** Mixing *)

(** Saturation to 16 bits, and whether it had to. *)
Definition clamp16 (v : Z) : Z * Z :=
  if 32767 <? v then (32767, 1) else if v <? -32768 then (-32768, 1) else (v, 0).

(** One output frame of every stream, added up. *)
Fixpoint mix_streams (ss : list Stream) (l r : Z) : outcome (Z * Z * list Stream) :=
  match ss with
  | [] => Done (l, r, [])
  | s :: ss' =>
      if negb (in_use (life s)) || paused (life s) then
        '(l, r, ss'') ← mix_streams ss' l r;
        Done (l, r, s :: ss'')
      else
        '(f, s') ← next_frame s;
        let v := volume (format s') in
        let '(l, r) :=
          match f with
          | Some f => (wrap_i32 (l + Z.shiftr (wrap_i32 (f.1 * v)) 8),
                       wrap_i32 (r + Z.shiftr (wrap_i32 (f.2 * v)) 8))
          | None => (l, r)
          end in
        '(l, r, ss'') ← mix_streams ss' l r;
        Done (l, r, s' :: ss'')
  end.

Fixpoint mix_voices (vs : list Voice) (l r : Z) : Z * Z * list Voice :=
  match vs with
  | [] => (l, r, [])
  | v :: vs' =>
      if active v then
        let '(x, v') := voice_next v in
        let '(l, r, vs'') := mix_voices vs' (wrap_i32 (l + x)) (wrap_i32 (r + x)) in
        (l, r, v' :: vs'')
      else
        let '(l, r, vs'') := mix_voices vs' l r in
        (l, r, v :: vs'')
  end.

Definition mix_frame (master : Z) (f : nat) (m : Mixer) (out : list Z) : outcome (Mixer * list Z) :=
  '(l, r, ss) ← mix_streams (streams m) 0 0;
  let '(l, r, vs) := mix_voices (voices m) l r in
  let l := Z.shiftr (wrap_i32 (l * master)) 8 in
  let r := Z.shiftr (wrap_i32 (r * master)) 8 in
  let '(cl, ol) := clamp16 l in
  let '(cr, or) := clamp16 r in
  out ← store out (f * 2) cl;
  out ← store out (f * 2 + 1) cr;
  let t := (tap_pos m * 2)%nat in
  tp ← store (tap m) t cl;
  tp ← store tp (t + 1) cr;
  Done (mkMixer ss vs (master_cut m) (muted m) tp ((tap_pos m + 1) `mod` TAP_FRAMES) (mixed_frames m)
          (clipped m +₃₂ (ol + or)) (dma m), out).

Fixpoint mix_loop (n f : nat) (master : Z) (m : Mixer) (out : list Z) : outcome (Mixer * list Z) :=
  match n with
  | O => Done (m, out)
  | S n' =>
      '(m, out) ← mix_frame master f m out;
      mix_loop n' (S f) master m out
  end.

(** A stream that was closing and has played out. *)
Definition played_out (s : Stream) : bool := in_use (life s) && closing (life s) && drained s.

Definition mix_block (m : Mixer) (out : list Z) : outcome (Mixer * list Z) :=
  let master := if muted m then 0 else UNITY -₃₂ master_cut m in
  '(m, out) ← mix_loop PERIOD_FRAMES 0 master m out;
  let m := mkMixer (streams m) (voices m) (master_cut m) (muted m) (tap m) (tap_pos m)
             (mixed_frames m +₃₂ Z.of_nat PERIOD_FRAMES) (clipped m) (dma m) in
  m ← free_where played_out MAX_STREAMS 0 m;
  Done (m, out).

Definition has_activity (m : Mixer) : bool :=
  existsb wants_to_play (streams m) || existsb active (voices m).

Definition last_written (m : Mixer) : nat :=
  ((write_idx (dma m) + RING_PERIODS - 1) `mod` RING_PERIODS)%nat.

Definition fill_one `{Hw H} (m : Mixer) (h : H) : outcome (Mixer * H) :=
  '(m, buf) ← mix_block m (replicate PERIOD_SAMPLES 0);
  let d := dma m in
  let h := write_period (write_idx d) buf h in
  Done (set_dma (mkDma (running d) ((write_idx d + 1) `mod` RING_PERIODS) (queued d + 1) (last_civ d)
                   (hw_underruns d) (restarts d) (periods_written d +₃₂ 1)) m, h).

Fixpoint fill_loop `{Hw H} (n : nat) (m : Mixer) (h : H) : outcome (Mixer * H) :=
  match n with
  | O => Done (m, h)
  | S n' => '(m, h) ← fill_one m h; fill_loop n' m h
  end.

(** *** The ring of the card *)

(** The bookkeeping of a tick, from the descriptor the card plays and whether it halted. *)
Definition account (civ : nat) (halted act : bool) (d : Dma) : Dma :=
  let consumed := ((civ + RING_PERIODS - last_civ d) `mod` RING_PERIODS)%nat in
  let '(u, q) :=
    if (queued d <? consumed)%nat then (hw_underruns d +₃₂ 1, 0%nat)
    else (hw_underruns d, (queued d - consumed)%nat) in
  if halted then
    mkDma false (write_idx d) 0 civ (if act then u +₃₂ 1 else u) (restarts d) (periods_written d)
  else mkDma (running d) (write_idx d) q civ u (restarts d) (periods_written d).

(** Cold start: mix a few periods and start the card at descriptor 0. *)
Definition cold_start `{Hw H} (m : Mixer) (h : H) : outcome (Mixer * H) :=
  let d := dma m in
  let m := set_dma (mkDma (running d) 0 0 0 (hw_underruns d) (restarts d) (periods_written d)) m in
  '(m, h) ← fill_loop START_PREFILL m h;
  let h := ring_start (last_written m) h in
  let d := dma m in
  Done (set_dma (mkDma true (write_idx d) (queued d) (last_civ d) (hw_underruns d) (restarts d +₃₂ 1)
                   (periods_written d)) m, h).

Definition pump `{Hw H} (m : Mixer) (h : H) : outcome (Mixer * H) :=
  let '(p, h) := present h in
  if negb p then Done (m, h)
  else
    let act := has_activity m in
    if running (dma m) then
      let '(c, h) := ring_civ h in
      let '(r, h) := ring_running h in
      let m := set_dma (account (Z.to_nat (c mod Z.of_nat RING_PERIODS)) (negb r) act (dma m)) m in
      if negb r then
        if negb act then Done (m, h) else cold_start m h
      else if act then
        '(m, h) ← fill_loop (TARGET_AHEAD - queued (dma m)) m h;
        Done (m, ring_set_lvi (last_written m) h)
      else Done (m, h)
    else if negb act then Done (m, h) else cold_start m h.

Definition halt `{Hw H} (m : Mixer) (h : H) : Mixer * H :=
  let d := dma m in
  let h := if running d then ring_stop h else h in
  (set_dma (mkDma false (write_idx d) 0 (last_civ d) (hw_underruns d) (restarts d)
              (periods_written d)) m, h).

(** *** The self-check *)

Definition check_stream (s : Stream) : outcome (result unit string) :=
  let l := life s in let f := format s in let b := buffer s in
  if negb (in_use l) then Done (Ok tt)
  else if (owner l <=? 0) || (negb (channels f =? 1)%nat && negb (channels f =? 2)%nat) then
    Done (Err "a stream has an impossible owner or channel count"%string)
  else if (rate f <? MIN_RATE) || (MAX_RATE <? rate f)
       || negb (step f =? wrap32 (Z.shiftl (rate f) 16) / SAMPLE_RATE) then
    Done (Err "a stream's rate and resampler step disagree"%string)
  else if UNITY <? volume f then Done (Err "a stream's volume is above unity"%string)
  else
    cap ← capacity f;
    if (cap <? count b)%nat || (cap <=? read b)%nat then
      Done (Err "a stream's ring indices are out of range"%string)
    else if 65536 <=? phase (resampler s) then
      Done (Err "a resampler phase is out of range"%string)
    else if gen l =? 0 then Done (Err "a stream has no generation"%string)
    else Done (Ok tt).

Fixpoint check_streams (ss : list Stream) : outcome (result unit string) :=
  match ss with
  | [] => Done (Ok tt)
  | s :: ss' =>
      r ← check_stream s;
      match r with
      | Err e => Done (Err e)
      | Ok _ => check_streams ss'
      end
  end.

Definition check_owners (ss : list Stream) : result unit string :=
  if existsb (fun s => in_use (life s) &&
                       (MAX_STREAMS_PER_PROC <? countb (of_pid (owner (life s))) ss)%nat) ss
  then Err "a process holds more streams than the limit"%string else Ok tt.

Definition check_counts (m : Mixer) : outcome (result unit string) :=
  let d := dma m in
  if UNITY <? master_cut m then Done (Err "the master volume is above unity"%string)
  else if (RING_PERIODS <? queued d)%nat || (RING_PERIODS <=? write_idx d)%nat
       || (RING_PERIODS <=? last_civ d)%nat then
    Done (Err "the DMA ring bookkeeping is out of range"%string)
  else if (TAP_FRAMES <=? tap_pos m)%nat then Done (Err "the tap position is out of range"%string)
  else
    r ← check_streams (streams m);
    match r with
    | Err e => Done (Err e)
    | Ok _ => Done (check_owners (streams m))
    end.

(** ** The entry points *)

(** The functions of [src/kernel/drivers/sound/ac97.c] behind the kernel's [Hw]; the buffer
    of a descriptor is there or not, and is written as a whole. *)
Class Ac97 (C : Type) : Type := {
  ac97_ring_present : C -> Z * C;
  ac97_ring_period : nat -> C -> bool * C;
  ac97_copy_period : nat -> list Z -> C -> C;
  ac97_ring_start : nat -> C -> C;
  ac97_ring_stop : C -> C;
  ac97_ring_civ : C -> Z * C;
  ac97_ring_running : C -> Z * C;
  ac97_ring_set_lvi : nat -> C -> C;
}.

#[export] Instance KernelHw `{Ac97 C} : Hw C := {|
  present h := let '(x, h) := ac97_ring_present h in (negb (x =? 0), h);
  ring_start := ac97_ring_start;
  ring_stop := ac97_ring_stop;
  ring_civ := ac97_ring_civ;
  ring_running h := let '(x, h) := ac97_ring_running h in (negb (x =? 0), h);
  ring_set_lvi := ac97_ring_set_lvi;
  write_period idx samples h :=
    if negb (length samples =? PERIOD_SAMPLES)%nat || (RING_PERIODS <=? idx)%nat then h
    else
      let '(dst, h) := ac97_ring_period idx h in
      if dst then ac97_copy_period idx samples h else h
|}.

(** What an entry point returns and what it writes through its pointers. *)
Record answer : Type := mkAnswer {
  code : Z;
  outs : list Z;
}.

Definition neg (r : result unit Z) : answer :=
  match r with
  | Ok _ => mkAnswer 0 []
  | Err e => mkAnswer (- e) []
  end.

Definition neg_outs (r : result (list Z) Z) : answer :=
  match r with
  | Ok v => mkAnswer 0 v
  | Err e => mkAnswer (- e) []
  end.

Definition rust_audio_open `{Hw H} (pid ch r flags vol : Z) (m : Mixer) (h : H) :
    outcome (answer * Mixer * H) :=
  '(x, m, h) ← open pid ch r flags vol m h;
  Done (match x with
        | Ok (handle, cap) => mkAnswer 0 [handle; cap]
        | Err e => mkAnswer (- e) []
        end, m, h).

Definition rust_audio_write (pid handle : Z) (samples : list Z) (m : Mixer) :
    outcome (answer * Mixer) :=
  '(x, m) ← write pid handle samples m;
  Done (match x with
        | Ok n => mkAnswer n []
        | Err e => mkAnswer (- e) []
        end, m).

Definition rust_audio_close (pid handle flags : Z) (m : Mixer) : outcome (answer * Mixer) :=
  '(x, m) ← close pid handle flags m;
  Done (neg x, m).

Definition rust_audio_ctl (pid uid op handle arg arg2 : Z) (m : Mixer) : outcome (answer * Mixer) :=
  if op =? CTL_SET_VOLUME then '(x, m) ← set_volume pid handle arg m; Done (neg x, m)
  else if op =? CTL_PAUSE then '(x, m) ← set_paused pid handle true m; Done (neg x, m)
  else if op =? CTL_RESUME then '(x, m) ← set_paused pid handle false m; Done (neg x, m)
  else if op =? CTL_FLUSH then '(x, m) ← flush pid handle m; Done (neg x, m)
  else if op =? CTL_STREAM_STAT then x ← stream_stat pid handle m; Done (neg_outs x, m)
  else if op =? CTL_MIXER_STAT then Done (mkAnswer 0 (mixer_stat m), m)
  else if op =? CTL_SET_MASTER then
    let '(x, m) := set_master uid arg (negb (arg2 =? 0)) m in Done (neg x, m)
  else Done (mkAnswer (- EINVAL) [], m).

(** [buf] is the kernel buffer, of which the call sees the first [2 * frames] samples; the
    answer has the two results and then what the call left of these samples. *)
Definition rust_audio_tap (uid : Z) (buf : list Z) (frames : Z) (m : Mixer) : outcome answer :=
  let frames := Z.min frames 1024 in
  '(x, dst) ← tap_read uid (take (Z.to_nat frames * 2) buf) frames m;
  Done (match x with
        | Ok (n, total) => mkAnswer 0 (n :: total :: dst)
        | Err e => mkAnswer (- e) []
        end).

Definition rust_audio_beep `{Hw H} (m : Mixer) (h : H) : outcome (answer * Mixer * H) :=
  '(b, m, h) ← beep m h;
  Done (mkAnswer (b2z b) [], m, h).

Definition rust_audio_tick `{Hw H} (m : Mixer) (h : H) : outcome (Mixer * H) := pump m h.

Definition rust_audio_process_exit (pid : Z) (m : Mixer) : outcome Mixer := process_exit pid m.

Definition rust_audio_selftest (m : Mixer) : outcome answer :=
  let v := mixer_stat m in
  a ← index v 0; r ← index v 1; x ← index v 6;
  c ← check_counts m;
  Done (mkAnswer (match c with Ok _ => 0 | Err _ => 1 end) [a; r; x]).

(** The calls of the kernel. *)
Inductive call : Type :=
| Open (pid ch r flags vol : Z)
| Write (pid handle : Z) (samples : list Z)
| Close (pid handle flags : Z)
| Ctl (pid uid op handle arg arg2 : Z)
| Tap (uid : Z) (buf : list Z) (frames : Z)
| Beep
| Tick
| Exit (pid : Z)
| Selftest.

Definition do_call `{Hw H} (c : call) (m : Mixer) (h : H) : outcome (answer * Mixer * H) :=
  match c with
  | Open pid ch r flags vol => rust_audio_open pid ch r flags vol m h
  | Write pid handle samples =>
      '(a, m) ← rust_audio_write pid handle samples m; Done (a, m, h)
  | Close pid handle flags => '(a, m) ← rust_audio_close pid handle flags m; Done (a, m, h)
  | Ctl pid uid op handle arg arg2 =>
      '(a, m) ← rust_audio_ctl pid uid op handle arg arg2 m; Done (a, m, h)
  | Tap uid buf frames => a ← rust_audio_tap uid buf frames m; Done (a, m, h)
  | Beep => rust_audio_beep m h
  | Tick => '(m, h) ← rust_audio_tick m h; Done (mkAnswer 0 [], m, h)
  | Exit pid => m ← rust_audio_process_exit pid m; Done (mkAnswer 0 [], m, h)
  | Selftest => a ← rust_audio_selftest m; Done (a, m, h)
  end.

#[global] Opaque STREAM_RING_SAMPLES TAP_FRAMES PERIOD_FRAMES.
