(* ===== verification/MixerStream.v ===== *)
(** * Audio streams

    A stream's buffer is a ring of frames; with the frame the resampler is at, they are its
    track. [next_frame] plays the track: the frame [k] outputs later is the linear
    interpolation at the position that [k] steps of the resampler lead to. *)

From S2P Require Import Prelude Ring Mixer.
Local Open Scope Z_scope.
Local Open Scope machine_scope.

(** ** Signed arithmetic *)

Lemma wrap_i32_id z : is_i32 z -> wrap_i32 z = z.
Proof. unfold wrap_i32, is_i32. intros Hz. rewrite Z.mod_small; lia. Qed.

(** The value [p / 65536] of the way from [a] to [b], rounded down. *)
Definition between (a b p : Z) : Z := a + (b - a) * p / 65536.

Lemma between_bounds a b p :
  0 <= p <= 65536 -> Z.min a b <= between a b p <= Z.max a b.
Proof.
  intros Hp. unfold between. split.
  - enough (Z.min a b - a <= (b - a) * p / 65536) by lia.
    apply Z.div_le_lower_bound; [lia|]. nia.
  - enough ((b - a) * p / 65536 <= Z.max a b - a) by lia.
    apply Z.div_le_upper_bound; [lia|]. nia.
Qed.

Lemma between_i16 a b p : is_i16 a -> is_i16 b -> 0 <= p <= 65536 -> is_i16 (between a b p).
Proof. unfold is_i16. intros ? ? Hp. pose proof (between_bounds a b p Hp). lia. Qed.

Lemma lerp_spec a b p :
  is_i16 a -> is_i16 b -> 0 <= p < 65536 -> lerp a b p = between a b p.
Proof.
  intros Ha Hb Hp. assert (Hi : is_i16 (between a b p)) by (apply between_i16; auto; lia).
  unfold lerp, between, is_i16 in *.
  rewrite (wrap_i32_id (b - a)) by (unfold is_i32; lia).
  rewrite Z.shiftr_div_pow2 by lia. change (2 ^ 16) with 65536.
  generalize dependent ((b - a) * p / 65536). intros x Hx.
  by rewrite !wrap_i32_id by (unfold is_i32; rewrite ?wrap_i32_id; unfold is_i32; lia).
Qed.

(** ** Frames in a buffer *)

(** The [i]-th frame of interleaved samples; mono has one sample for both sides. *)
Definition cell (ch : nat) (p : list Z) (i : nat) : frame :=
  (p !!! (i * ch)%nat, p !!! (i * ch + (ch - 1))%nat).

Definition to_frames (ch : nat) (p : list Z) : list frame :=
  cell ch p <$> seq 0 (length p / ch).

(** The buffer of [ch] channels in frames, and what it holds. *)
Definition cap_of (ch : nat) : nat := (STREAM_RING_SAMPLES / ch)%nat.

Definition held (ch : nat) (b : Buffer) : list frame :=
  ring (cap_of ch) (to_frames ch (pcm b)) (read b) (count b).

(** What is still to be played: the frame the resampler is at, then the buffer. *)
Definition track (s : Stream) : list frame :=
  (if have_cur (resampler s) then [cur (resampler s)] else []) ++
  held (channels (format s)) (buffer s).

Definition stereo (ch : nat) : Prop := ch = 1%nat \/ ch = 2%nat.

Lemma ring_samples : Z.of_nat STREAM_RING_SAMPLES = 16384.
Proof. by vm_compute. Qed.

Lemma cap_mul ch : stereo ch -> (cap_of ch * ch = STREAM_RING_SAMPLES)%nat.
Proof.
  intros Hch. pose proof ring_samples. unfold cap_of.
  destruct Hch as [-> | ->]; [by rewrite Nat.div_1_r, Nat.mul_1_r|].
  pose proof (Nat.div_mod_eq STREAM_RING_SAMPLES 2). lia.
Qed.

Lemma frames_cap_pos ch : stereo ch -> (0 < cap_of ch)%nat.
Proof. intros Hch. pose proof ring_samples. pose proof (cap_mul ch Hch). destruct Hch; nia. Qed.

Lemma to_frames_length ch p : length (to_frames ch p) = (length p / ch)%nat.
Proof. unfold to_frames. by rewrite length_fmap, length_seq. Qed.

Lemma to_frames_lookup ch p i :
  (i < length p / ch)%nat -> to_frames ch p !! i = Some (cell ch p i).
Proof.
  intros Hi. unfold to_frames. rewrite list_lookup_fmap, lookup_seq_lt by done. done.
Qed.

Lemma to_frames_total ch p i :
  (i < length p / ch)%nat -> to_frames ch p !!! i = cell ch p i.
Proof. intros Hi. apply list_lookup_total_correct. by apply to_frames_lookup. Qed.

Lemma lookup_total_in {A} `{Inhabited A} (p : list A) i :
  (i < length p)%nat -> p !! i = Some (p !!! i).
Proof. intros Hi. apply list_lookup_lookup_total_lt. done. Qed.

Lemma held_length ch b : length (held ch b) = count b.
Proof. apply ring_length. Qed.

(** The bounds that keep every access inside the buffer. *)
Record buffer_ok (ch : nat) (b : Buffer) : Prop := {
  bo_ch : stereo ch;
  bo_len : length (pcm b) = STREAM_RING_SAMPLES;
  bo_i16 : Forall is_i16 (pcm b);
  bo_count : (count b <= cap_of ch)%nat;
  bo_read : (read b < cap_of ch)%nat;
}.

Lemma cell_in ch (p : list Z) i :
  stereo ch -> length p = STREAM_RING_SAMPLES -> (i < cap_of ch)%nat ->
  (i * ch + (ch - 1) < length p)%nat.
Proof. intros Hch Hp Hi. pose proof (cap_mul ch Hch). destruct Hch as [-> | ->]; lia. Qed.

Lemma capacity_spec f : stereo (channels f) -> capacity f = Done (cap_of (channels f)).
Proof. unfold capacity. by intros [-> | ->]. Qed.

Lemma frame_at_spec ch b : buffer_ok ch b -> frame_at ch b = Done (cell ch (pcm b) (read b)).
Proof.
  intros [Hch Hl _ _ Hr]. pose proof (cell_in ch (pcm b) (read b) Hch Hl Hr) as Hin.
  unfold frame_at, cell. destruct Hch as [-> | ->]; simpl in *.
  - rewrite Nat.add_0_r in *. by oindex (lookup_total_in (pcm b) (read b * 1)%nat Hin).
  - oindex (lookup_total_in (pcm b) (read b * 2)%nat ltac:(lia)).
    by oindex (lookup_total_in (pcm b) (read b * 2 + 1)%nat Hin).
Qed.

Lemma held_cons ch b :
  buffer_ok ch b -> count b <> 0%nat ->
  held ch b = cell ch (pcm b) (read b) ::
              held ch (mkBuffer ((read b + 1) `mod` cap_of ch) (count b - 1) (pcm b)).
Proof.
  intros [Hch Hl _ Hc Hr] Hn. unfold held. destruct (count b) as [|n]; [done|].
  simpl. rewrite Nat.sub_0_r. rewrite (ring_cons _ (frames_cap_pos ch Hch)) by done. f_equal.
  apply to_frames_total. rewrite Hl. exact Hr.
Qed.

Lemma held_nil ch b : count b = 0%nat -> held ch b = [].
Proof. unfold held. by intros ->. Qed.

Lemma held_i16 ch b f : buffer_ok ch b -> f ∈ held ch b -> is_i16 f.1 /\ is_i16 f.2.
Proof.
  intros [Hch Hl Hi Hc Hr] Hf. unfold held, ring in Hf.
  apply list_elem_of_fmap in Hf as (k & -> & _).
  pose proof (Nat.mod_upper_bound (read b + k) (cap_of ch)) as Hk.
  specialize (Hk ltac:(pose proof (frames_cap_pos ch Hch); lia)).
  rewrite to_frames_total by (rewrite Hl; exact Hk).
  pose proof (cell_in ch (pcm b) _ Hch Hl Hk) as Hin. rewrite Forall_lookup in Hi.
  split; (eapply Hi, lookup_total_in; simpl; lia).
Qed.

(** ** Popping and pushing *)

Definition popped (s : Stream) : Stream :=
  let b := buffer s in
  set_buffer (mkBuffer ((read b + 1) `mod` cap_of (channels (format s))) (count b - 1) (pcm b)) s.

Lemma popped_ok ch b :
  buffer_ok ch b -> buffer_ok ch (mkBuffer ((read b + 1) `mod` cap_of ch) (count b - 1) (pcm b)).
Proof.
  intros [Hch Hl Hi Hc Hr]. split; simpl; try done; [lia|].
  apply Nat.mod_upper_bound. pose proof (frames_cap_pos ch Hch). lia.
Qed.

Lemma pop_spec s :
  buffer_ok (channels (format s)) (buffer s) ->
  pop s = Done (match held (channels (format s)) (buffer s) with
                | [] => (None, s)
                | f :: _ => (Some f, popped s)
                end).
Proof.
  intros Hok. unfold pop. destruct (count (buffer s) =? 0)%nat eqn:E.
  - apply Nat.eqb_eq in E. by rewrite held_nil.
  - apply Nat.eqb_neq in E. rewrite (frame_at_spec _ _ Hok). osimpl.
    rewrite capacity_spec by apply Hok. osimpl. by rewrite (held_cons _ _ Hok E).
Qed.

Lemma peek_spec s :
  buffer_ok (channels (format s)) (buffer s) ->
  peek s = Done (head (held (channels (format s)) (buffer s))).
Proof.
  intros Hok. unfold peek. destruct (count (buffer s) =? 0)%nat eqn:E.
  - apply Nat.eqb_eq in E. by rewrite held_nil.
  - apply Nat.eqb_neq in E. rewrite (frame_at_spec _ _ Hok). osimpl.
    by rewrite (held_cons _ _ Hok E).
Qed.

Lemma held_popped ch b :
  buffer_ok ch b ->
  held ch (mkBuffer ((read b + 1) `mod` cap_of ch) (count b - 1) (pcm b)) = tail (held ch b).
Proof.
  intros Hok. destruct (decide (count b = 0%nat)) as [E|E].
  - rewrite !held_nil by (simpl; lia). done.
  - by rewrite (held_cons _ _ Hok E).
Qed.

(** One frame written over another. *)
Lemma to_frames_insert ch p j v w :
  stereo ch -> length p = STREAM_RING_SAMPLES -> (j < cap_of ch)%nat ->
  (ch = 1%nat -> v = w) ->
  to_frames ch (<[(j * ch + (ch - 1))%nat := w]> (<[(j * ch)%nat := v]> p)) =
  <[j := (v, w)]> (to_frames ch p).
Proof.
  intros Hch Hl Hj Hvw. pose proof (cell_in ch p j Hch Hl Hj) as Hin.
  apply list_eq_same_length with (n := (length p / ch)%nat);
    [by rewrite length_insert, to_frames_length|by rewrite to_frames_length, !length_insert|].
  intros i x y Hi. rewrite to_frames_lookup by (rewrite !length_insert; lia). intros [= <-].
  destruct (decide (i = j)) as [->|Hij].
  - rewrite list_lookup_insert_eq by (rewrite to_frames_length; lia). intros [= <-].
    unfold cell. destruct Hch as [-> | ->]; simpl.
    + rewrite Nat.add_0_r, Hvw, list_insert_insert_eq by done.
      by rewrite list_lookup_total_insert_eq by lia.
    + rewrite list_lookup_total_insert_ne by lia.
      by rewrite !list_lookup_total_insert_eq by (rewrite ?length_insert; lia).
  - rewrite list_lookup_insert_ne, to_frames_lookup by done. intros [= <-].
    unfold cell. destruct Hch as [-> | ->]; rewrite !list_lookup_total_insert_ne by lia; done.
Qed.

Lemma push_step ch samples p i j :
  stereo ch -> length p = STREAM_RING_SAMPLES -> Forall is_i16 p -> Forall is_i16 samples ->
  (j < cap_of ch)%nat -> (i < length samples / ch)%nat ->
  exists p',
    (v ← index samples (i * ch);
     p ← store p (j * ch) v;
     if (ch =? 2)%nat then w ← index samples (i * ch + 1); store p (j * ch + 1) w else Done p)
    = Done p' /\ length p' = STREAM_RING_SAMPLES /\ Forall is_i16 p' /\
    to_frames ch p' = <[j := cell ch samples i]> (to_frames ch p).
Proof.
  intros Hch Hl Hp Hs Hj Hi. pose proof (cell_in ch p j Hch Hl Hj) as Hin.
  assert (Hsrc : (i * ch + (ch - 1) < length samples)%nat).
  { destruct Hch as [-> | ->]; [rewrite Nat.div_1_r in Hi; lia|].
    pose proof (Nat.div_mod_eq (length samples) 2). lia. }
  pose proof (to_frames_insert ch p j (samples !!! (i * ch)%nat)
                (samples !!! (i * ch + (ch - 1))%nat) Hch Hl Hj) as Hins.
  rewrite Forall_lookup in Hs.
  assert (Hv : samples !! (i * ch)%nat = Some (samples !!! (i * ch)%nat))
    by (apply lookup_total_in; lia).
  oindex Hv. ostore. destruct Hch as [-> | ->]; simpl.
  - eexists. split; [reflexivity|]. rewrite length_insert. split; [done|].
    split; [apply Forall_insert; eauto|]. specialize (Hins ltac:(intros _; f_equal; lia)).
    simpl in Hins. rewrite !Nat.add_0_r, list_insert_insert_eq in Hins. unfold cell. simpl.
    by rewrite !Nat.add_0_r.
  - simpl in *. oindex (lookup_total_in samples (i * 2 + 1)%nat ltac:(lia)).
    rewrite store_Done by (rewrite length_insert; lia). eexists. split; [reflexivity|].
    rewrite !length_insert. split; [done|]. split; [|apply Hins; done].
    apply Forall_insert; [apply Forall_insert; eauto|]. eapply Hs, lookup_total_in. lia.
Qed.

Lemma push_loop_spec ch r c samples n :
  stereo ch -> Forall is_i16 samples ->
  forall i p, length p = STREAM_RING_SAMPLES -> Forall is_i16 p ->
  (c + i + n <= cap_of ch)%nat -> (i + n <= length samples / ch)%nat ->
  exists p',
    push_loop n i ch (cap_of ch) (r + c) samples p = Done p' /\
    length p' = STREAM_RING_SAMPLES /\ Forall is_i16 p' /\
    ring (cap_of ch) (to_frames ch p') r (c + i + n) =
    ring (cap_of ch) (to_frames ch p) r (c + i) ++ (cell ch samples <$> seq i n).
Proof.
  intros Hch Hs. pose proof (frames_cap_pos ch Hch) as Hcap.
  induction n as [|n IH]; intros i p Hl Hp Hc Hn; cbn [push_loop].
  { exists p. rewrite Nat.add_0_r, app_nil_r. done. }
  destruct (push_step ch samples p i ((r + c + i) `mod` cap_of ch) Hch Hl Hp Hs)
    as (p1 & Hrun & Hl1 & Hp1 & Hf1); [apply Nat.mod_upper_bound; lia|lia|].
  destruct (IH (S i) p1 Hl1 Hp1) as (p' & Hloop & Hl' & Hp' & Hr'); [lia|lia|].
  exists p'. split; [|split; [done|split; [done|]]].
  - apply bind_Done in Hrun as (v & Hv & Hrun). apply bind_Done in Hrun as (q & Hq & Hrun).
    rewrite Hv. osimpl. rewrite Hq. osimpl. rewrite Hrun. exact Hloop.
  - replace (c + i + S n)%nat with (c + S i + n)%nat by lia. rewrite Hr', Hf1.
    replace (c + S i)%nat with (S (c + i)) by lia.
    replace (r + c + i)%nat with (r + (c + i))%nat by lia.
    rewrite ring_push by (rewrite ?to_frames_length, ?Hl; (done || lia)).
    simpl. by rewrite <- app_assoc.
Qed.

(** Appending to the buffer. *)
Lemma push_spec samples s :
  buffer_ok (channels (format s)) (buffer s) -> Forall is_i16 samples ->
  let ch := channels (format s) in
  let n := ((length samples / ch) `min` (cap_of ch - count (buffer s)))%nat in
  exists p t, let b := mkBuffer (read (buffer s)) (count (buffer s) + n) p in
    push samples s = Done (n, set_tally t (set_buffer b s)) /\
    buffer_ok ch b /\ held ch b = held ch (buffer s) ++ take n (to_frames ch samples) /\
    t = mkTally (started (tally s)) (in_underrun (tally s)) (played (tally s))
          (written (tally s) +₃₂ Z.of_nat n) (underrun_events (tally s)) (underrun_frames (tally s)).
Proof.
  intros [Hch Hl Hi Hc Hr] Hs ch n. subst ch. unfold push.
  rewrite capacity_spec by done. osimpl. fold (cap_of (channels (format s))). fold n.
  assert (Hn : (n <= length samples / channels (format s) /\
                n <= cap_of (channels (format s)) - count (buffer s))%nat) by (unfold n; lia).
  clearbody n.
  destruct (push_loop_spec (channels (format s)) (read (buffer s)) (count (buffer s)) samples n
              Hch Hs 0 (pcm (buffer s)) Hl Hi) as (p & Hrun & Hl' & Hi' & Hring); [lia|lia|].
  rewrite Hrun. osimpl. exists p. eexists. split; [reflexivity|].
  split; [split; simpl; (done || lia)|]. split; [|done].
  unfold held. cbn [read count pcm]. rewrite !Nat.add_0_r in Hring. rewrite Hring. f_equal.
  unfold to_frames. rewrite <- fmap_take, take_seq. f_equal. f_equal. lia.
Qed.

(** ** Playing a track *)

(** The frame [p / 65536] of the way from [f] to the next one, if there is a next one. *)
Definition blend (f : frame) (next : option frame) (p : Z) : frame :=
  match next with
  | Some n => (between f.1 n.1 p, between f.2 n.2 p)
  | None => f
  end.

(** One output frame: what it is, and the track and the phase after it. *)
Definition play (st : Z) (tr : list frame) (p : Z) : option frame * list frame * Z :=
  match tr with
  | [] => (None, [], 0)
  | f :: rest =>
      (Some (blend f (head rest) p),
       if p + st <? 65536 then tr else rest,
       if p + st <? 65536 then p + st else match rest with [] => 0 | _ => p + st - 65536 end)
  end.

Record stream_ok (s : Stream) : Prop := {
  so_buf : buffer_ok (channels (format s)) (buffer s);
  so_rate : MIN_RATE <= rate (format s) <= MAX_RATE;
  so_step : step (format s) = rate (format s) * 65536 / SAMPLE_RATE;
  so_volume : 0 <= volume (format s) <= UNITY;
  so_phase : 0 <= phase (resampler s) < 65536;
  so_idle : have_cur (resampler s) = false -> phase (resampler s) = 0;
  so_cur : is_i16 (cur (resampler s)).1 /\ is_i16 (cur (resampler s)).2;
  so_started : have_cur (resampler s) = true -> started (tally s) = true;
}.

Lemma step_bounds s : stream_ok s -> 0 < step (format s) <= 65536.
Proof.
  intros Hok. rewrite (so_step _ Hok). pose proof (so_rate _ Hok).
  unfold MIN_RATE, MAX_RATE, SAMPLE_RATE in *. split.
  - apply Z.div_str_pos. lia.
  - apply Z.div_le_upper_bound; lia.
Qed.

Definition start_tally (t : Tally) : Tally :=
  mkTally true (in_underrun t) (played t) (written t) (underrun_events t) (underrun_frames t).

(** The counters after an output frame; [dry]: it was the last one of the track. *)
Definition tally_played (dry : bool) (t : Tally) : Tally :=
  let t := mkTally (started t) false (played t) (written t) (underrun_events t) (underrun_frames t) in
  let t := if dry then begin_underrun t else t in
  mkTally (started t) (in_underrun t) (played t +₃₂ 1) (written t) (underrun_events t)
    (underrun_frames t).

Definition is_nil {A} (l : list A) : bool := match l with [] => true | _ => false end.

Lemma frame_here_spec s :
  stream_ok s ->
  frame_here s = Done (blend (cur (resampler s)) (head (held (channels (format s)) (buffer s)))
                         (phase (resampler s))).
Proof.
  intros Hok. unfold frame_here. destruct (phase (resampler s) =? 0) eqn:E.
  - apply Z.eqb_eq in E. rewrite E. destruct (cur (resampler s)) as [l r].
    unfold blend, between. destruct (head _); simpl; [|done].
    by rewrite !Z.mul_0_r, !Z.div_0_l, !Z.add_0_r by lia.
  - rewrite peek_spec by apply Hok. osimpl. f_equal.
    destruct (held _ _) as [|n rest] eqn:Hh; simpl; [done|].
    destruct (held_i16 _ _ n (so_buf _ Hok)) as [Hl Hr]; [rewrite Hh; by left|].
    pose proof (so_cur _ Hok) as [? ?].
    by rewrite !lerp_spec by (done || apply Hok).
Qed.

(** The state the loop [advance] starts from: a phase that may be past the next frame. *)
Lemma advance_spec s p :
  buffer_ok (channels (format s)) (buffer s) -> 0 <= p < 131072 ->
  let r := resampler s in
  advance (Z.to_nat (p / 65536)) (set_resampler (mkResampler (have_cur r) p (cur r)) s) =
  Done (if p <? 65536 then set_resampler (mkResampler (have_cur r) p (cur r)) s
        else match held (channels (format s)) (buffer s) with
             | [] => set_tally (begin_underrun (tally s))
                       (set_resampler (mkResampler false 0 (cur r)) s)
             | f :: _ => set_resampler (mkResampler (have_cur r) (p - 65536) f) (popped s)
             end).
Proof.
  intros Hb Hp r. destruct (p <? 65536) eqn:E.
  - apply Z.ltb_lt in E. by rewrite Z.div_small by lia.
  - apply Z.ltb_ge in E. assert (p / 65536 = 1) as -> by lia. change (Z.to_nat 1) with 1%nat.
    cbn [advance]. cbn [resampler set_resampler phase have_cur cur].
    rewrite wrap32_id by (unfold is_u32; lia).
    rewrite pop_spec by done. osimpl. cbn [format buffer set_resampler].
    by destruct (held _ _).
Qed.

Lemma emit_frame_spec s :
  stream_ok s -> have_cur (resampler s) = true ->
  exists s', emit_frame s = Done ((play (step (format s)) (track s) (phase (resampler s))).1.1, s') /\
    (track s', phase (resampler s')) =
    ((play (step (format s)) (track s) (phase (resampler s))).1.2,
     (play (step (format s)) (track s) (phase (resampler s))).2) /\
    stream_ok s' /\ life s' = life s /\ format s' = format s /\
    tally s' = tally_played (is_nil (track s')) (tally s).
Proof.
  intros Hok Hcur. pose proof (step_bounds _ Hok). pose proof (so_phase _ Hok).
  pose proof (so_started _ Hok Hcur) as Hst.
  destruct Hok as [Hb Hrt Hsp Hv Hph Hi Hc Hs] eqn:Eok. clear Eok.
  unfold emit_frame. rewrite frame_here_spec by (split; done). osimpl.
  cbn [set_tally resampler format buffer].
  rewrite wrap32_id by (unfold is_u32; lia).
  set (t := mkTally _ _ _ _ _ _).
  rewrite (advance_spec (set_tally t s) _ Hb) by lia. osimpl.
  unfold track. rewrite Hcur. cbn [app play set_tally format buffer resampler fst snd].
  eexists. split; [reflexivity|].
  destruct (phase (resampler s) + step (format s) <? 65536) eqn:Ep.
  { apply Z.ltb_lt in Ep. split; [simpl; by rewrite Hcur|].
    split; [split; simpl; (done || lia || by rewrite Hcur)|]. simpl. by rewrite Hcur. }
  apply Z.ltb_ge in Ep.
  destruct (held (channels (format s)) (buffer s)) as [|f rest] eqn:Hh; simpl.
  { rewrite Hh. split; [done|]. split; [split; simpl; (done || lia)|]. done. }
  rewrite Hcur, held_popped by done. rewrite Hh. simpl. split; [done|].
  split; [|done]. split; simpl; try (done || lia).
  - by apply popped_ok.
  - apply (held_i16 _ _ f Hb). rewrite Hh. by left.
Qed.

(** What [next_frame] does: the next output of the track, counted. *)
Lemma next_frame_spec s :
  stream_ok s ->
  exists s', let '(o, tr, p) := play (step (format s)) (track s) (phase (resampler s)) in
    next_frame s = Done (o, s') /\ track s' = tr /\ phase (resampler s') = p /\
    stream_ok s' /\ life s' = life s /\ format s' = format s /\
    tally s' = match o with
               | None => miss_frame (tally s)
               | Some _ => tally_played (is_nil tr) (start_tally (tally s))
               end.
Proof.
  intros Hok. unfold next_frame. destruct (have_cur (resampler s)) eqn:Hcur.
  - destruct (emit_frame_spec s Hok Hcur) as (s' & Hrun & [= Htr Hp] & Hok' & Hl & Hf & Ht).
    exists s'. assert (Hst : start_tally (tally s) = tally s).
    { pose proof (so_started _ Hok Hcur) as E. unfold start_tally. destruct (tally s); simpl in *.
      by subst. }
    destruct (play (step (format s)) (track s) (phase (resampler s))) as [[o tr] p] eqn:Epl.
    assert (Ho : exists f, o = Some f).
    { unfold play, track in Epl. rewrite Hcur in Epl. simpl in Epl. simplify_eq. eauto. }
    destruct Ho as [f ->]. simpl in *. rewrite Hst, Hrun, <- Htr. done.
  - assert (Htk : track s = held (channels (format s)) (buffer s))
      by (unfold track; by rewrite Hcur).
    rewrite pop_spec by apply Hok. osimpl. rewrite Htk.
    destruct (held (channels (format s)) (buffer s)) as [|f rest] eqn:Hh.
    + exists (set_tally (miss_frame (tally s)) s). simpl.
      split; [done|]. split; [unfold track; simpl; by rewrite Hcur, Hh|]. split; [by apply Hok|]. split; [|done].
      destruct Hok. split; simpl; try done. congruence.
    + set (s1 := set_tally _ _).
      assert (Hok1 : stream_ok s1).
      { destruct Hok. split; simpl; try done; try lia; [by apply popped_ok|].
        apply (held_i16 _ _ f so_buf0). rewrite Hh. by left. }
      destruct (emit_frame_spec s1 Hok1 eq_refl) as (s' & Hrun & Hpr & Hok' & Hl & Hf & Ht).
      exists s'. assert (Htr1 : track s1 = f :: rest).
      { unfold track, s1. simpl. by rewrite held_popped, Hh by apply Hok. }
      rewrite Htr1 in *. rewrite (so_idle _ Hok Hcur). cbn [play fst snd] in *.
      change (step (format s1)) with (step (format s)) in *.
      change (phase (resampler s1)) with 0 in *. injection Hpr as Htr Hp.
      rewrite Hrun, Htr, Hp. split; [done|]. split; [done|]. split; [done|]. split; [done|].
      split; [done|]. split; [done|]. by rewrite Ht, Htr.
Qed.

(** [n] output frames. *)
Fixpoint plays (st : Z) (n : nat) (tr : list frame) (p : Z) : list (option frame) * list frame * Z :=
  match n with
  | O => ([], tr, p)
  | S n' =>
      let '(o, tr1, p1) := play st tr p in
      let '(os, tr2, p2) := plays st n' tr1 p1 in
      (o :: os, tr2, p2)
  end.

(** The track at a position, in 65536ths of a frame: the reference resampler. *)
Definition sample_at (tr : list frame) (pos : Z) : option frame :=
  let i := Z.to_nat (pos / 65536) in
  (fun f => blend f (tr !! S i) (pos mod 65536)) <$> tr !! i.

Lemma sample_at_drop tr pos d :
  0 <= pos -> sample_at (drop d tr) pos = sample_at tr (pos + Z.of_nat d * 65536).
Proof.
  intros Hp. unfold sample_at. rewrite Z.div_add, Z.mod_add by lia.
  assert (0 <= pos / 65536) by (apply Z.div_pos; lia).
  rewrite !lookup_drop.
  replace (Z.to_nat (pos / 65536 + Z.of_nat d)) with (d + Z.to_nat (pos / 65536))%nat by lia.
  by rewrite Nat.add_succ_r.
Qed.

Lemma play_spec st tr p :
  0 < st <= 65536 -> 0 <= p < 65536 -> (tr = [] -> p = 0) ->
  let q := p + st in
  play st tr p = (sample_at tr p, drop (Z.to_nat (q / 65536)) tr,
                  if is_nil (drop (Z.to_nat (q / 65536)) tr) then 0 else q mod 65536).
Proof.
  intros Hst Hp Hnil q. unfold play, sample_at. rewrite Z.div_small, Z.mod_small by lia.
  change (Z.to_nat 0) with 0%nat.
  destruct tr as [|f rest]; [by rewrite drop_nil|]. simpl (_ !! _).
  assert (Hh : head rest = rest !! 0%nat) by by destruct rest. rewrite Hh.
  subst q. destruct (p + st <? 65536) eqn:E.
  - apply Z.ltb_lt in E. rewrite (Z.div_small (p + st)), (Z.mod_small (p + st)) by lia.
    done.
  - apply Z.ltb_ge in E. assert ((p + st) / 65536 = 1) as -> by lia.
    assert ((p + st) mod 65536 = p + st - 65536) as -> by lia.
    change (Z.to_nat 1) with 1%nat. cbn [drop skipn]. by destruct rest.
Qed.

(** [n] output frames are the track at [n] equidistant positions, and silence once the track
    has ended; what has been passed is gone. *)
Lemma plays_spec st n tr p :
  0 < st <= 65536 -> 0 <= p < 65536 -> (tr = [] -> p = 0) ->
  let q := p + Z.of_nat n * st in
  plays st n tr p =
    ((fun k => sample_at tr (p + Z.of_nat k * st)) <$> seq 0 n,
     drop (Z.to_nat (q / 65536)) tr,
     if is_nil (drop (Z.to_nat (q / 65536)) tr) then 0 else q mod 65536).
Proof.
  intros Hst. revert tr p. induction n as [|n IH]; intros tr p Hp Hnil q; subst q.
  { rewrite Z.mul_0_l, Z.add_0_r, Z.div_small, Z.mod_small by lia.
    simpl. f_equal. destruct tr; [by rewrite Hnil|done]. }
  cbn [plays]. rewrite play_spec by done. set (d := Z.to_nat ((p + st) / 65536)).
  assert (Hd : p + st = Z.of_nat d * 65536 + (p + st) mod 65536).
  { unfold d. rewrite Z2Nat.id by (apply Z.div_pos; lia). rewrite Z.mul_comm.
    apply Z.div_mod. lia. }
  pose proof (Z.mod_pos_bound (p + st) 65536 ltac:(lia)).
  destruct (is_nil (drop d tr)) eqn:En.
  - (* the track has ended *)
    assert (Hdr : drop d tr = []) by by destruct (drop d tr). rewrite Hdr.
    rewrite (IH [] 0) by (done || lia). rewrite !drop_nil.
    assert (Hlen : (length tr <= d)%nat) by (apply length_zero_iff_nil in Hdr; rewrite length_drop in Hdr; lia).
    assert (Hafter : forall k, (1 <= k)%nat -> sample_at tr (p + Z.of_nat k * st) = None).
    { intros k Hk. unfold sample_at. rewrite (lookup_ge_None_2 tr (Z.to_nat _)); [done|].
      assert (Z.of_nat d <= (p + Z.of_nat k * st) / 65536); [|lia].
      apply Z.div_le_lower_bound; nia. }
    assert (Hend : drop (Z.to_nat ((p + Z.of_nat (S n) * st) / 65536)) tr = []).
    { apply drop_ge. assert (Z.of_nat d <= (p + Z.of_nat (S n) * st) / 65536); [|lia].
      apply Z.div_le_lower_bound; nia. }
    rewrite Hend. simpl. rewrite Z.add_0_r. f_equal. f_equal. f_equal.
    rewrite <- fmap_S_seq, <- list_fmap_compose. apply list_fmap_ext. intros i k Hk. simpl.
    rewrite Hafter by lia. unfold sample_at. by rewrite lookup_nil.
  - rewrite (IH (drop d tr) ((p + st) mod 65536)); [|lia|by intros E; rewrite E in En].
    rewrite drop_drop.
    assert (Hq : p + Z.of_nat (S n) * st = (p + st) mod 65536 + Z.of_nat n * st + Z.of_nat d * 65536)
      by lia.
    rewrite Hq, Z.div_add, Z.mod_add by lia.
    assert (0 <= ((p + st) mod 65536 + Z.of_nat n * st) / 65536) by (apply Z.div_pos; nia).
    rewrite Z2Nat.inj_add, Nat2Z.id, Nat.add_comm by lia. f_equal. f_equal.
    cbn [seq fmap list_fmap]. f_equal; [by rewrite Z.mul_0_l, Z.add_0_r|].
    rewrite <- fmap_S_seq, <- list_fmap_compose. apply list_fmap_ext. intros i k Hk. simpl.
    rewrite sample_at_drop by nia. f_equal. lia.
Qed.

(** At 48 kHz the track comes out as it went in. *)
Lemma sample_at_exact tr k : sample_at tr (Z.of_nat k * 65536) = tr !! k.
Proof.
  unfold sample_at. rewrite Z.div_mul, Z.mod_mul, Nat2Z.id by lia.
  destruct (tr !! k) as [[l r]|]; [|done]. simpl. f_equal. unfold blend, between.
  destruct (tr !! S k); [|done]. simpl. by rewrite !Z.mul_0_r, !Z.div_0_l, !Z.add_0_r by lia.
Qed.
