(* ===== verification/MixerInv.v ===== *)
(** * The mixer's invariant, and the calls on streams

    What holds of the mixer between calls, whatever the card does; and what each call does
    to the one stream it is about. *)

From stdpp Require Import strings.
From S2P Require Import Prelude Ring Mixer MixerStream.
Local Open Scope Z_scope.
Local Open Scope machine_scope.

Record slot_ok (s : Stream) : Prop := {
  sl_len : length (pcm (buffer s)) = STREAM_RING_SAMPLES;
  sl_i16 : Forall is_i16 (pcm (buffer s));
  sl_gen : 0 <= gen (life s) < 16777216;
  sl_used : in_use (life s) = true ->
            stream_ok s /\ 0 < owner (life s) /\ gen (life s) <> 0 /\
            (closing (life s) = true -> paused (life s) = false);
}.

Record voice_ok (v : Voice) : Prop := {
  vo_amp : 0 <= amp v <= 8000;
  vo_left : active v = true -> 0 < left v < 4294967296;
  vo_half : active v = true -> 0 <= in_half v < half v;
  vo_half_u32 : half v < 4294967296;
}.

Record dma_ok (d : Dma) : Prop := {
  do_write : (write_idx d < RING_PERIODS)%nat;
  do_queued : (queued d <= TARGET_AHEAD)%nat;
  do_civ : (last_civ d < RING_PERIODS)%nat;
}.

Record mixer_ok (m : Mixer) : Prop := {
  mo_streams : length (streams m) = MAX_STREAMS;
  mo_slots : Forall slot_ok (streams m);
  mo_limit : forall pid, (countb (of_pid pid) (streams m) <= MAX_STREAMS_PER_PROC)%nat;
  mo_voices : length (voices m) = MAX_VOICES;
  mo_voice : Forall voice_ok (voices m);
  mo_master : 0 <= master_cut m <= UNITY;
  mo_tap : length (tap m) = (TAP_FRAMES * 2)%nat;
  mo_tap_pos : (tap_pos m < TAP_FRAMES)%nat;
  mo_mixed : is_u32 (mixed_frames m);
  mo_dma : dma_ok (dma m);
}.

Lemma tap_frames : Z.of_nat TAP_FRAMES = 4096.
Proof. by vm_compute. Qed.

Lemma period_frames : Z.of_nat PERIOD_FRAMES = 480.
Proof. by vm_compute. Qed.

(** ** The empty mixer *)

Lemma empty_stream_ok : slot_ok EMPTY_STREAM.
Proof.
  split; simpl; [apply length_replicate| |lia|done].
  apply Forall_replicate. unfold is_i16. lia.
Qed.

Lemma mixer_new_ok : mixer_ok Mixer_new.
Proof.
  pose proof tap_frames. split.
  - apply length_replicate.
  - apply Forall_replicate, empty_stream_ok.
  - intros pid. rewrite countb_none; [lia|]. intros i x Hx.
    by apply lookup_replicate in Hx as [-> _].
  - apply length_replicate.
  - apply Forall_replicate. split; simpl; (done || lia).
  - simpl. unfold UNITY. lia.
  - apply length_replicate.
  - simpl. lia.
  - simpl. unfold is_u32. lia.
  - split; simpl; unfold RING_PERIODS; lia.
Qed.

(** ** Handles *)

(** The handle of generation [g] of a slot. *)
Definition handle_of (slot : nat) (g : Z) : Z := g * 256 + Z.of_nat slot + 1.

Lemma lor_low g k : 0 <= k < 256 -> 0 <= g -> Z.lor (g * 256) k = g * 256 + k.
Proof.
  intros Hk Hg. rewrite <- Z.add_lor_land.
  assert (Z.land (g * 256) k = 0) as ->; [|lia].
  replace (g * 256) with (Z.shiftl g 8) by (rewrite Z.shiftl_mul_pow2; lia).
  apply Z.bits_inj'. intros n Hn. rewrite Z.land_spec, Z.bits_0.
  destruct (decide (n < 8)).
  - rewrite Z.shiftl_spec_low by lia. done.
  - rewrite andb_comm, (Z.bits_above_log2 k n); [done|lia|].
    destruct (decide (k = 0)) as [->|]; [simpl; lia|].
    apply Z.log2_lt_pow2; [lia|]. pose proof (Z.pow_le_mono_r 2 8 n). lia.
Qed.

Lemma handle_for_spec m slot s :
  streams m !! slot = Some s -> slot_ok s -> (slot < MAX_STREAMS)%nat ->
  handle_for slot m = Done (handle_of slot (gen (life s))).
Proof.
  intros Hs Hok Hlt. unfold handle_for. oindex Hs. f_equal. pose proof (sl_gen _ Hok).
  unfold MAX_STREAMS in Hlt. rewrite Z.shiftl_mul_pow2 by lia. change (2 ^ 8) with 256.
  rewrite wrap32_id by (unfold is_u32; lia). rewrite lor_low by lia. unfold handle_of. lia.
Qed.

(** The stream that a handle names for a process. *)
Definition names (m : Mixer) (pid handle : Z) (slot : nat) (s : Stream) : Prop :=
  streams m !! slot = Some s /\ in_use (life s) = true /\ owner (life s) = pid /\
  handle = handle_of slot (gen (life s)).

Lemma lookup_any_spec m pid handle :
  mixer_ok m -> 0 <= handle ->
  (exists slot s, names m pid handle slot s /\ lookup_any pid handle m = Done (Ok slot)) \/
  ((forall slot s, ~ names m pid handle slot s) /\ lookup_any pid handle m = Done (Err EBADF)).
Proof.
  intros Hok Hh. unfold lookup_any.
  assert (Hl : Z.land handle 255 = handle mod 256) by (apply (Z.land_ones handle 8); lia).
  rewrite Hl, Z.shiftr_div_pow2 by lia. change (2 ^ 8) with 256. unfold MAX_STREAMS.
  assert (Hbad : forall slot s, names m pid handle slot s ->
            handle mod 256 = Z.of_nat slot + 1 /\ handle / 256 = gen (life s) /\
            (slot < 8)%nat /\ 0 < gen (life s) /\ in_use (life s) = true /\
            owner (life s) = pid /\ streams m !! slot = Some s).
  { intros slot s (Hs & Hu & Ho & Heq). pose proof (lookup_lt_Some _ _ _ Hs) as Hlt.
    rewrite (mo_streams _ Hok) in Hlt. unfold MAX_STREAMS in Hlt.
    pose proof (Forall_lookup_1 _ _ _ _ (mo_slots _ Hok) Hs) as Hsl.
    pose proof (sl_gen _ Hsl). destruct (sl_used _ Hsl Hu) as (_ & _ & Hg & _).
    unfold handle_of in Heq. repeat split; (done || lia). }
  destruct ((handle mod 256 =? 0) || (Z.of_nat 8 <? handle mod 256) || (handle / 256 =? 0)) eqn:E.
  { right. split; [|done]. intros slot s Hn. apply Hbad in Hn. lia. }
  destruct (streams m !! Z.to_nat (handle mod 256 - 1)) as [s|] eqn:Hs.
  2: { apply lookup_ge_None in Hs. rewrite (mo_streams _ Hok) in Hs. unfold MAX_STREAMS in Hs. lia. }
  oindex Hs.
  destruct (negb (in_use (life s)) || negb (gen (life s) =? handle / 256)
            || negb (owner (life s) =? pid)) eqn:E'.
  { right. split; [|done]. intros slot s' Hn. apply Hbad in Hn as (Hm & Hg & Hlt & Hp & Hu & Ho & Hs').
    rewrite Hm in Hs. replace (Z.to_nat (Z.of_nat slot + 1 - 1)) with slot in Hs by lia.
    simplify_eq. rewrite Hu in E'. lia. }
  left. exists (Z.to_nat (handle mod 256 - 1)), s. split; [|done].
  destruct (in_use (life s)) eqn:Hu; [|done]. simpl in E'.
  split; [done|]. split; [done|]. split; [lia|]. unfold handle_of.
  rewrite Z2Nat.id by lia. lia.
Qed.

(** The stream a handle names that is not being drained: the one a process may work on. *)
Definition live (m : Mixer) (pid handle : Z) (slot : nat) (s : Stream) : Prop :=
  names m pid handle slot s /\ closing (life s) = false.

Lemma lookup_spec m pid handle :
  mixer_ok m -> 0 <= handle ->
  (exists slot s, live m pid handle slot s /\ lookup pid handle m = Done (Ok slot)) \/
  ((forall slot s, ~ live m pid handle slot s) /\ lookup pid handle m = Done (Err EBADF)).
Proof.
  intros Hok Hh. unfold lookup.
  destruct (lookup_any_spec m pid handle Hok Hh) as [(slot & s & Hn & ->)|[Hno ->]]; osimpl.
  - destruct Hn as (Hs & Hu & Ho & Heq). oindex Hs. destruct (closing (life s)) eqn:Hc.
    + right. split; [|done]. intros slot' s' [(Hs' & Hu' & Ho' & Heq') Hc'].
      assert (slot = slot') as <-.
      { pose proof (lookup_lt_Some _ _ _ Hs). pose proof (lookup_lt_Some _ _ _ Hs').
        rewrite (mo_streams _ Hok) in *. unfold MAX_STREAMS, handle_of in *. lia. }
      congruence.
    + left. by exists slot, s.
  - right. split; [|done]. intros slot s [Hn _]. by eapply Hno.
Qed.

Definition put (slot : nat) (s : Stream) (m : Mixer) : Mixer :=
  set_streams (<[slot := s]> (streams m)) m.

(** A call on a stream: it is refused, or it is [f] on the one stream the handle names. *)
Definition on_stream {A} (m : Mixer) (pid handle : Z) (f : Stream -> result A Z * Stream)
    (run : outcome (result A Z * Mixer)) : Prop :=
  (exists slot s, live m pid handle slot s /\ run = Done ((f s).1, put slot (f s).2 m)) \/
  ((forall slot s, ~ live m pid handle slot s) /\ run = Done (Err EBADF, m)).

Lemma put_same m slot s : streams m !! slot = Some s -> put slot s m = m.
Proof. intros Hs. unfold put. rewrite list_insert_id by done. by destruct m. Qed.

Lemma live_slot m pid handle slot s :
  mixer_ok m -> live m pid handle slot s ->
  streams m !! slot = Some s /\ slot_ok s /\ stream_ok s /\ in_use (life s) = true /\
  owner (life s) = pid /\ closing (life s) = false.
Proof.
  intros Hok [(Hs & Hu & Ho & _) Hc].
  pose proof (Forall_lookup_1 _ _ _ _ (mo_slots _ Hok) Hs) as Hsl.
  by destruct (sl_used _ Hsl Hu).
Qed.

(** A slot of the table changes hands with nobody. *)
Lemma put_ok m slot s s' :
  mixer_ok m -> streams m !! slot = Some s -> slot_ok s' ->
  (in_use (life s') = true -> in_use (life s) = true /\ owner (life s') = owner (life s)) ->
  mixer_ok (put slot s' m).
Proof.
  intros Hok Hs Hs' Hlife. destruct Hok. split; simpl; try done.
  - by rewrite length_insert.
  - by apply Forall_insert.
  - intros pid. specialize (mo_limit0 pid).
    pose proof (countb_insert (of_pid pid) (streams m) slot s s' Hs) as Hc.
    assert (of_pid pid s' = true -> of_pid pid s = true).
    { unfold of_pid. destruct (in_use (life s')) eqn:E; [|done]. by destruct Hlife as [-> ->]. }
    destruct (of_pid pid s'), (of_pid pid s); simpl in Hc; (lia || naive_solver).
Qed.

(** ** The calls on a stream, as functions of the stream *)

Definition write_fn (samples : list Z) (s : Stream) : result Z Z * Stream :=
  let ch := channels (format s) in
  if negb (length samples `mod` ch =? 0)%nat then (Err EINVAL, s)
  else if (length samples =? 0)%nat then (Ok 0, s)
  else
    match push samples s with
    | Done (n, s') => (if (n =? 0)%nat then Err EAGAIN else Ok (Z.of_nat n), s')
    | Panic => (Err EINVAL, s)
    end.

Definition close_fn (flags : Z) (s : Stream) : result unit Z * Stream :=
  (Ok tt, if negb (Z.land flags CLOSE_ABORT =? 0) || drained s || paused (life s)
          then freed s else set_closing s).

Definition volume_fn (v : Z) (s : Stream) : result unit Z * Stream :=
  if UNITY <? v then (Err EINVAL, s) else (Ok tt, with_volume v s).

Lemma write_on_stream m pid handle samples :
  mixer_ok m -> 0 <= handle -> Forall is_i16 samples ->
  on_stream m pid handle (write_fn samples) (write pid handle samples m).
Proof.
  intros Hok Hh Hs. unfold write.
  destruct (lookup_spec m pid handle Hok Hh) as [(slot & s & Hl & ->)|[Hno ->]]; [left|by right].
  exists slot, s. split; [done|]. osimpl.
  destruct (live_slot _ _ _ _ _ Hok Hl) as (Hat & _ & Hst & _). oindex Hat.
  pose proof (so_buf _ Hst) as Hb.
  assert ((channels (format s) =? 0)%nat = false) as -> by (by destruct (bo_ch _ _ Hb) as [-> | ->]).
  unfold write_fn. destruct (negb _); [by rewrite put_same|].
  destruct (length samples =? 0)%nat; [by rewrite put_same|].
  destruct (push_spec samples s Hb Hs) as (p & t & -> & _). osimpl.
  rewrite store_Done by (by eapply lookup_lt_Some). osimpl. by destruct (_ =? 0)%nat.
Qed.

Lemma close_on_stream m pid handle flags :
  mixer_ok m -> 0 <= handle ->
  if negb (Z.land flags (Z.lnot CLOSE_ABORT) =? 0) then close pid handle flags m = Done (Err EINVAL, m)
  else on_stream m pid handle (close_fn flags) (close pid handle flags m).
Proof.
  intros Hok Hh. unfold close. destruct (negb _); [done|].
  destruct (lookup_spec m pid handle Hok Hh) as [(slot & s & Hl & ->)|[Hno ->]]; [left|by right].
  exists slot, s. split; [done|]. osimpl.
  destruct (live_slot _ _ _ _ _ Hok Hl) as (Hat & _). oindex Hat. unfold close_fn.
  destruct (negb _ || _ || _); simpl.
  - unfold free_stream. oindex Hat. rewrite store_Done by (by eapply lookup_lt_Some). done.
  - rewrite store_Done by (by eapply lookup_lt_Some). done.
Qed.

(** The calls that always succeed on a stream of the caller's. *)
Ltac on_slot Hok Hh :=
  match goal with |- on_stream ?m ?pid ?handle _ _ =>
    destruct (lookup_spec m pid handle Hok Hh) as [(slot & s & Hl & ->)|[Hno ->]]; [left|by right];
    exists slot, s; split; [done|]; osimpl;
    destruct (live_slot _ _ _ _ _ Hok Hl) as (Hat & _)
  end.

Lemma set_volume_on_stream m pid handle v :
  mixer_ok m -> 0 <= handle -> on_stream m pid handle (volume_fn v) (set_volume pid handle v m).
Proof.
  intros Hok Hh. unfold set_volume, volume_fn. on_slot Hok Hh.
  destruct (UNITY <? v); [by rewrite put_same|].
  oindex Hat. rewrite store_Done by (by eapply lookup_lt_Some). done.
Qed.

Lemma set_paused_on_stream m pid handle p :
  mixer_ok m -> 0 <= handle ->
  on_stream m pid handle (fun s => (Ok tt, with_paused p s)) (set_paused pid handle p m).
Proof.
  intros Hok Hh. unfold set_paused. on_slot Hok Hh.
  oindex Hat. rewrite store_Done by (by eapply lookup_lt_Some). done.
Qed.

Lemma flush_on_stream m pid handle :
  mixer_ok m -> 0 <= handle ->
  on_stream m pid handle (fun s => (Ok tt, flushed s)) (flush pid handle m).
Proof.
  intros Hok Hh. unfold flush. on_slot Hok Hh.
  oindex Hat. rewrite store_Done by (by eapply lookup_lt_Some). done.
Qed.

(** ** What the calls keep *)

Lemma track_buffer s b t :
  track (set_tally t (set_buffer b s)) =
  (if have_cur (resampler s) then [cur (resampler s)] else []) ++ held (channels (format s)) b.
Proof. done. Qed.

(** A write appends to the track as many whole frames as fit. *)
Lemma write_fn_spec samples s :
  stream_ok s -> Forall is_i16 samples ->
  let ch := channels (format s) in
  let n := ((length samples / ch) `min` (cap_of ch - count (buffer s)))%nat in
  let '(r, s') := write_fn samples s in
  stream_ok s' /\ life s' = life s /\ format s' = format s /\ resampler s' = resampler s /\
  if negb (length samples `mod` ch =? 0)%nat then r = Err EINVAL /\ s' = s
  else r = (if (length samples =? 0)%nat then Ok 0 else if (n =? 0)%nat then Err EAGAIN else Ok (Z.of_nat n)) /\
       track s' = track s ++ take n (to_frames ch samples) /\
       count (buffer s') = (count (buffer s) + n)%nat.
Proof.
  intros Hst Hs ch n. unfold write_fn. fold ch.
  destruct (negb _) eqn:Em; [done|]. destruct (length samples =? 0)%nat eqn:E0.
  { apply Nat.eqb_eq in E0.
    assert (Hn : n = 0%nat) by (unfold n; by rewrite E0, Nat.Div0.div_0_l).
    clearbody n. subst n. split; [done|]. split; [done|]. split; [done|]. split; [done|].
    split; [done|]. split; [by rewrite take_0, app_nil_r|lia]. }
  destruct (push_spec samples s (so_buf _ Hst) Hs) as (p & t & -> & Hb & Hh & ->). fold ch n.
  set (s' := set_tally _ _). split; [|done || idtac].
  - destruct Hst. split; done.
  - split; [done|]. split; [done|]. split; [done|]. split; [done|]. split; [|done].
    etrans; [exact (f_equal (app _) Hh)|]. unfold track. by rewrite app_assoc.
Qed.

Lemma next_gen_bounds g : 0 <= g < 16777216 -> 0 < next_gen g < 16777216.
Proof.
  intros Hg. unfold next_gen. rewrite wrap32_id by (unfold is_u32; lia).
  change 0x00FFFFFF with (Z.ones 24). rewrite Z.land_ones by lia. change (2 ^ 24) with 16777216.
  destruct (_ =? 0) eqn:E; [lia|]. lia.
Qed.

Lemma freed_ok s : slot_ok s -> slot_ok (freed s).
Proof.
  intros [Hl Hi Hg Hu]. split; simpl; try done. pose proof (next_gen_bounds _ Hg). lia.
Qed.

Lemma used_ok s s' :
  slot_ok s -> in_use (life s) = true -> stream_ok s' -> owner (life s') = owner (life s) ->
  gen (life s') = gen (life s) -> (closing (life s') = true -> paused (life s') = false) -> slot_ok s'.
Proof.
  intros Hs Hu Hst Ho Hg Hc. destruct (sl_used _ Hs Hu) as (_ & Hp & Hg0 & _).
  split; [apply Hst|apply Hst|rewrite Hg; apply Hs|]. intros _. by rewrite Ho, Hg.
Qed.

Lemma flushed_ok s : stream_ok s -> stream_ok (flushed s).
Proof.
  intros [Hb Hr Hsp Hv Hp Hi Hc Hst]. split; simpl; try done; try lia.
  destruct Hb. split; simpl; (done || lia).
Qed.

(** A function on streams that keeps slots sound and gives none away, applied to all. *)
Definition keeps (g : Stream -> Stream) : Prop :=
  forall s, slot_ok s ->
    slot_ok (g s) /\
    (in_use (life (g s)) = true -> in_use (life s) = true /\ owner (life (g s)) = owner (life s)).

Lemma countb_fmap_le {A} (f : A -> bool) (g : A -> A) (P : A -> Prop) l :
  Forall P l -> (forall x, P x -> f (g x) = true -> f x = true) ->
  (countb f (g <$> l) <= countb f l)%nat.
Proof.
  intros Hl Hg. induction Hl as [|x l Hx Hl IH]; [done|]. rewrite fmap_cons. cbn [countb].
  specialize (Hg x Hx). destruct (f (g x)), (f x); lia.
Qed.

Lemma fmap_ok g m : keeps g -> mixer_ok m -> mixer_ok (set_streams (g <$> streams m) m).
Proof.
  intros Hg Hok. destruct Hok. split; simpl; try done.
  - by rewrite length_fmap.
  - apply Forall_fmap. eapply Forall_impl; [done|]. intros s Hs. by apply Hg.
  - intros pid. etrans; [|apply (mo_limit0 pid)]. apply (countb_fmap_le _ _ slot_ok); [done|].
    intros s Hs. unfold of_pid. destruct (Hg s Hs) as [_ Hl].
    destruct (in_use (life (g s))); [|done]. by destruct Hl as [-> ->].
Qed.

Definition free_if (f : Stream -> bool) (s : Stream) : Stream := if f s then freed s else s.

Lemma free_if_keeps f : keeps (free_if f).
Proof.
  intros s Hs. unfold free_if. destruct (f s); [|done]. split; [by apply freed_ok|done].
Qed.

Lemma free_where_spec f n slot m :
  length (streams m) = (slot + n)%nat ->
  free_where f n slot m =
  Done (set_streams (take slot (streams m) ++ (free_if f <$> drop slot (streams m))) m).
Proof.
  revert slot m. induction n as [|n IH]; intros slot m Hlen; cbn [free_where].
  - rewrite drop_ge, take_ge by lia. simpl. rewrite app_nil_r. by destruct m.
  - destruct (lookup_lt_is_Some_2 (streams m) slot) as [s Hs]; [lia|]. oindex Hs.
    rewrite (drop_S _ _ _ Hs). rewrite fmap_cons.
    assert (Hrun : (if f s then free_stream slot m else Done m) = Done (put slot (free_if f s) m)).
    { unfold free_if. destruct (f s); [|by rewrite put_same]. unfold free_stream. oindex Hs.
      rewrite store_Done by (by eapply lookup_lt_Some). done. }
    rewrite Hrun. osimpl. rewrite IH by (simpl; rewrite length_insert; lia). f_equal.
    unfold put, set_streams. simpl. f_equal.
    rewrite (take_S_r _ _ (free_if f s)) by (apply list_lookup_insert_eq; by eapply lookup_lt_Some).
    rewrite take_insert_ge by lia. rewrite drop_insert_lt by lia. by rewrite <- app_assoc.
Qed.

Lemma free_all_spec f m :
  mixer_ok m -> free_where f MAX_STREAMS 0 m = Done (set_streams (free_if f <$> streams m) m).
Proof. intros Hok. rewrite free_where_spec; [done|]. apply (mo_streams _ Hok). Qed.

(** ** Opening *)

Definition open_args_ok (pid ch r flags vol : Z) : bool :=
  (flags =? 0) && ((ch =? 1) || (ch =? 2)) && (MIN_RATE <=? r) && (r <=? MAX_RATE)
  && (vol <=? UNITY) && (0 <? pid).

(** Why a stream is not opened, if it is not. *)
Definition open_refusal (there : bool) (pid ch r flags vol : Z) (m : Mixer) : option Z :=
  if negb there then Some ENODEV
  else if negb (open_args_ok pid ch r flags vol) then Some EINVAL
  else if (MAX_STREAMS_PER_PROC <=? countb (of_pid pid) (streams m))%nat then Some ENOSPC
  else if forallb (fun s => in_use (life s)) (streams m) then Some ENOSPC
  else None.

Lemma opened_ok pid ch r flags vol s :
  slot_ok s -> open_args_ok pid ch r flags vol = true -> 0 <= vol ->
  slot_ok (opened pid ch r vol s) /\ track (opened pid ch r vol s) = [].
Proof.
  intros [Hl Hi Hg Hu] Ha Hv. unfold open_args_ok, MIN_RATE, MAX_RATE, UNITY in Ha.
  assert (Hch : stereo (Z.to_nat ch)) by (unfold stereo; lia).
  assert (Hgen : 0 < gen (life (opened pid ch r vol s)) < 16777216).
  { unfold opened. cbn [life gen]. destruct (gen (life s) =? 0) eqn:E; lia. }
  split; [|done]. split; [done|done|lia|]. intros _.
  split; [|split; [simpl; lia|split; [lia|done]]].
  assert (Hsh : wrap32 (Z.shiftl r 16) = r * 65536).
  { rewrite Z.shiftl_mul_pow2 by lia. apply wrap32_id. unfold is_u32. lia. }
  split; simpl; unfold MIN_RATE, MAX_RATE, UNITY, is_i16; rewrite ?Hsh; try (done || lia).
  split; simpl; try (done || lia). by apply frames_cap_pos.
Qed.

Lemma position_forallb {A} (f : A -> bool) l :
  position (fun x => negb (f x)) l = None <-> forallb f l = true.
Proof.
  rewrite position_None, forallb_forall. split.
  - intros H x Hx. apply list_elem_of_In, list_elem_of_lookup in Hx as [i Hi].
    specialize (H i x Hi). by destruct (f x).
  - intros H i x Hx. rewrite H; [done|]. apply list_elem_of_In, list_elem_of_lookup. eauto.
Qed.

Lemma open_spec `{Hw H} pid ch r flags vol m (h : H) :
  mixer_ok m -> 0 <= vol ->
  exists m' x,
    open pid ch r flags vol m h = Done (x, m', (present h).2) /\ mixer_ok m' /\
    match open_refusal (present h).1 pid ch r flags vol m with
    | Some e => x = Err e /\ m' = m
    | None => exists slot s, streams m !! slot = Some s /\ in_use (life s) = false /\
        open_args_ok pid ch r flags vol = true /\ m' = put slot (opened pid ch r vol s) m /\
        x = Ok (handle_of slot (gen (life (opened pid ch r vol s))), Z.of_nat (cap_of (Z.to_nat ch)))
    end.
Proof.
  intros Hok Hv. unfold open, open_refusal. destruct (present h) as [p h1]. cbn [fst snd].
  destruct p; cbn [negb]; [|by eauto 10].
  assert (Hneg : negb (flags =? 0) || (negb (ch =? 1) && negb (ch =? 2)) || (r <? MIN_RATE)
                 || (MAX_RATE <? r) || (UNITY <? vol) || (pid <=? 0)
                 = negb (open_args_ok pid ch r flags vol)) by (unfold open_args_ok; lia).
  rewrite Hneg. destruct (open_args_ok pid ch r flags vol) eqn:Ha; cbn [negb]; [|by eauto 10].
  destruct (_ <=? _)%nat eqn:Em; [by eauto 10|].
  destruct (position _ (streams m)) as [slot|] eqn:Ep.
  2: { apply position_forallb in Ep. rewrite Ep. eauto 10. }
  assert (forallb (fun s => in_use (life s)) (streams m) = false) as ->.
  { apply not_true_iff_false. rewrite <- position_forallb. congruence. }
  apply position_Some in Ep as (s & Hs & Hfree & _). apply negb_true_iff in Hfree. oindex Hs.
  pose proof (lookup_lt_Some _ _ _ Hs) as Hlt. rewrite store_Done by done. osimpl.
  pose proof (Forall_lookup_1 _ _ _ _ (mo_slots _ Hok) Hs) as Hsl.
  destruct (opened_ok pid ch r flags vol s Hsl Ha Hv) as [Ho _].
  destruct (sl_used _ Ho eq_refl) as (Hst & _). rewrite capacity_spec by apply Hst. osimpl.
  rewrite (handle_for_spec _ slot (opened pid ch r vol s)).
  2: { simpl. by apply list_lookup_insert_eq. }
  2: done. 2: by rewrite <- (mo_streams _ Hok).
  osimpl. eexists _, _. split; [reflexivity|]. split; [|by eauto 10].
  destruct Hok. split; simpl; try done; [by rewrite length_insert|by apply Forall_insert|].
  intros q. specialize (mo_limit0 q).
  pose proof (countb_insert (of_pid q) (streams m) slot s (opened pid ch r vol s) Hs) as Hc.
  unfold of_pid in Hc at 2 4. rewrite Hfree in Hc. simpl in Hc.
  destruct (pid =? q) eqn:Eq; [apply Z.eqb_eq in Eq; subst q|]; lia.
Qed.
