(* ===== verification/MixerMix.v ===== *)
(** * Mixing

    A period is 480 frames, and the frame [k] of it is the saturated sum of what every
    stream and voice has at [k]: of each stream its track at the position of the [k]-th step
    of its resampler, scaled by its volume. The streams do not disturb each other. *)

From S2P Require Import Prelude Ring Mixer MixerStream MixerInv.
Local Open Scope Z_scope.
Local Open Scope machine_scope.

(** ** The reference mix *)

Definition scale (v x : Z) : Z := x * v / 256.

Definition sounds (s : Stream) : bool := in_use (life s) && negb (paused (life s)).

(** What a stream adds to the [k]-th frame from now. *)
Definition part (s : Stream) (k : nat) : frame :=
  if sounds s then
    match sample_at (track s) (phase (resampler s) + Z.of_nat k * step (format s)) with
    | Some f => (scale (volume (format s)) f.1, scale (volume (format s)) f.2)
    | None => (0, 0)
    end
  else (0, 0).

(** What a voice adds: a square wave, for as long as it lasts. *)
Definition wave (v : Voice) (k : nat) : Z :=
  if active v && (Z.of_nat k <? left v) then
    if xorb (high v) (Z.odd ((in_half v + Z.of_nat k) / half v)) then amp v else - amp v
  else 0.

Definition sum (l : list Z) : Z := foldr Z.add 0 l.

(** Both sides of the sum, before the master volume. *)
Definition mixdown (m : Mixer) (k : nat) : frame :=
  (sum ((fun s => (part s k).1) <$> streams m) + sum ((fun v => wave v k) <$> voices m),
   sum ((fun s => (part s k).2) <$> streams m) + sum ((fun v => wave v k) <$> voices m)).

Definition level (m : Mixer) : Z := if muted m then 0 else UNITY - master_cut m.

(** The nearest 16-bit sample, and 1 if that is another one. *)
Definition saturated (v : Z) : Z := Z.max (- 2 ^ 15) (Z.min (2 ^ 15 - 1) v).
Definition exceeds (v : Z) : Z := if decide (saturated v = v) then 0 else 1.

(** The [k]-th frame from now, and how many of its two samples had to be saturated. *)
Definition out_frame (m : Mixer) (k : nat) : frame :=
  (saturated (scale (level m) (mixdown m k).1), saturated (scale (level m) (mixdown m k).2)).
Definition out_clips (m : Mixer) (k : nat) : Z :=
  exceeds (scale (level m) (mixdown m k).1) + exceeds (scale (level m) (mixdown m k).2).

Lemma clamp16_saturated v : clamp16 v = (saturated v, exceeds v).
Proof.
  unfold clamp16, exceeds, saturated. change (2 ^ 15) with 32768.
  destruct (32767 <? v) eqn:E1; [|destruct (v <? -32768) eqn:E2]; case_decide; try lia; f_equal; lia.
Qed.

Definition flatten (l : list frame) : list Z := l ≫= (fun f => [f.1; f.2]).

(** ** One stream *)

Definition stream_next (s : Stream) : Stream :=
  if sounds s then match next_frame s with Done (_, s') => s' | Panic => s end else s.

Lemma sounds_ok s : slot_ok s -> sounds s = true -> stream_ok s.
Proof.
  intros Hs. unfold sounds. destruct (in_use (life s)) eqn:E; [|done]. intros _.
  by apply (sl_used _ Hs E).
Qed.

Lemma track_idle s : stream_ok s -> track s = [] -> phase (resampler s) = 0.
Proof.
  intros Hok Ht. apply Hok. unfold track in Ht. by destruct (have_cur (resampler s)).
Qed.

Lemma next_frame_sounds s :
  slot_ok s -> sounds s = true ->
  let q := phase (resampler s) + step (format s) in
  next_frame s = Done (sample_at (track s) (phase (resampler s)), stream_next s) /\
  stream_ok (stream_next s) /\ life (stream_next s) = life s /\ format (stream_next s) = format s /\
  track (stream_next s) = drop (Z.to_nat (q / 65536)) (track s) /\
  phase (resampler (stream_next s)) = if is_nil (track (stream_next s)) then 0 else q mod 65536.
Proof.
  intros Hs Hp q. pose proof (sounds_ok s Hs Hp) as Hok.
  destruct (next_frame_spec s Hok) as (s' & Hspec).
  rewrite (play_spec _ _ _ (step_bounds s Hok) (so_phase _ Hok) (track_idle s Hok)) in Hspec.
  destruct Hspec as (Hrun & Ht & Hph & Hok' & Hl & Hf & _).
  unfold stream_next. rewrite Hp, Hrun. by rewrite Ht.
Qed.

Lemma stream_next_life s : slot_ok s -> life (stream_next s) = life s /\ format (stream_next s) = format s.
Proof.
  intros Hs. destruct (sounds s) eqn:Hp; [|unfold stream_next; by rewrite Hp].
  by destruct (next_frame_sounds s Hs Hp) as (_ & _ & ? & ? & _).
Qed.

Lemma stream_next_keeps : keeps stream_next.
Proof.
  intros s Hs. destruct (stream_next_life s Hs) as [Hl Hf]. rewrite Hl. split; [|done].
  destruct (sounds s) eqn:Hp; [|unfold stream_next; by rewrite Hp].
  destruct (next_frame_sounds s Hs Hp) as (_ & Hok & _).
  assert (Hu : in_use (life s) = true) by (unfold sounds in Hp; by destruct (in_use (life s))).
  apply (used_ok s _ Hs Hu Hok); rewrite Hl; try done. by apply (sl_used _ Hs Hu).
Qed.

(** One frame later, the parts have moved up by one. *)
Lemma part_next s k : slot_ok s -> part (stream_next s) k = part s (S k).
Proof.
  intros Hs. destruct (stream_next_life s Hs) as [Hl Hf]. unfold part.
  assert (sounds (stream_next s) = sounds s) as -> by (unfold sounds; by rewrite Hl).
  destruct (sounds s) eqn:Hp; [|done]. rewrite Hf.
  destruct (next_frame_sounds s Hs Hp) as (_ & Hok & _ & _ & Ht & Hph).
  pose proof (sounds_ok s Hs Hp) as Hok0. pose proof (step_bounds s Hok0). pose proof (so_phase _ Hok0).
  rewrite Hph, Ht. set (q := phase (resampler s) + step (format s)) in *.
  assert (Hd : q = q mod 65536 + Z.of_nat (Z.to_nat (q / 65536)) * 65536).
  { rewrite Z2Nat.id by (apply Z.div_pos; lia). pose proof (Z.div_mod q 65536). lia. }
  pose proof (Z.mod_pos_bound q 65536 ltac:(lia)).
  replace (phase (resampler s) + Z.of_nat (S k) * step (format s))
    with (q mod 65536 + Z.of_nat k * step (format s) + Z.of_nat (Z.to_nat (q / 65536)) * 65536) by lia.
  rewrite <- sample_at_drop by nia.
  destruct (drop _ _) as [|f rest]; simpl; done.
Qed.

Lemma scale_i16 v x : 0 <= v <= UNITY -> is_i16 x -> is_i16 (scale v x).
Proof.
  unfold scale, UNITY, is_i16. intros Hv Hx. split.
  - apply Z.div_le_lower_bound; nia.
  - apply Z.div_lt_upper_bound; nia.
Qed.

Lemma track_i16 s f : stream_ok s -> f ∈ track s -> is_i16 f.1 /\ is_i16 f.2.
Proof.
  intros Hok Hf. unfold track in Hf. apply elem_of_app in Hf as [Hf|Hf].
  - destruct (have_cur _); [|by apply not_elem_of_nil in Hf].
    apply list_elem_of_singleton in Hf as ->. apply Hok.
  - eapply held_i16; [apply Hok|done].
Qed.

Lemma sample_i16 s pos f :
  stream_ok s -> sample_at (track s) pos = Some f -> is_i16 f.1 /\ is_i16 f.2.
Proof.
  intros Hok Hf. unfold sample_at in Hf. apply fmap_Some in Hf as (g & Hg & ->).
  destruct (track_i16 s g Hok) as [Hl Hr]; [by eapply list_elem_of_lookup_2|].
  pose proof (Z.mod_pos_bound pos 65536 ltac:(lia)).
  destruct (track s !! S _) as [n|] eqn:Hn; simpl; [|done].
  destruct (track_i16 s n Hok) as [Hl' Hr']; [by eapply list_elem_of_lookup_2|].
  split; apply between_i16; (done || lia).
Qed.

Lemma part_i16 s k : slot_ok s -> is_i16 (part s k).1 /\ is_i16 (part s k).2.
Proof.
  intros Hs. unfold part. destruct (sounds s) eqn:Hp; [|unfold is_i16; simpl; lia].
  pose proof (sounds_ok s Hs Hp) as Hok.
  destruct (sample_at _ _) as [f|] eqn:E; [|unfold is_i16; simpl; lia].
  destruct (sample_i16 s _ f Hok E). split; apply scale_i16; (done || apply Hok).
Qed.

(** ** One voice *)

Definition vnext (v : Voice) : Voice := if active v then (voice_next v).2 else v.

Lemma wave_now v : voice_ok v -> active v = true -> (voice_next v).1 = wave v 0.
Proof.
  intros [Ha Hl Hh Hu] Hact. specialize (Hl Hact). specialize (Hh Hact). unfold wave, voice_next.
  destruct (if half v <=? _ then _ else _). cbn [fst]. rewrite Hact.
  change (Z.of_nat 0) with 0. rewrite Z.add_0_r, (Z.div_small (in_half v)) by lia.
  assert (0 <? left v = true) as -> by lia. simpl. rewrite wrap_i32_id by (unfold is_i32; lia).
  by destruct (high v).
Qed.

Lemma vnext_ok v : voice_ok v -> voice_ok (vnext v).
Proof.
  intros Hv. unfold vnext. destruct (active v) eqn:Hact; [|done]. destruct Hv as [Ha Hl Hh Hu].
  specialize (Hl Hact). specialize (Hh Hact). unfold voice_next.
  rewrite (wrap32_id (in_half v + 1)), (wrap32_id (left v - 1)) by (unfold is_u32; lia).
  destruct (half v <=? in_half v + 1) eqn:E; split; cbn [snd amp active left in_half half];
    rewrite ?Hact; try done; intros Hn; destruct (left v - 1 =? 0) eqn:El; (done || lia).
Qed.

Lemma wave_next v k : voice_ok v -> wave (vnext v) k = wave v (S k).
Proof.
  intros Hv. unfold vnext. destruct (active v) eqn:Hact; [|unfold wave; by rewrite Hact].
  destruct Hv as [Ha Hl Hh Hu]. specialize (Hl Hact). specialize (Hh Hact). unfold voice_next.
  rewrite (wrap32_id (in_half v + 1)), (wrap32_id (left v - 1)) by (unfold is_u32; lia).
  unfold wave. rewrite Hact.
  replace (in_half v + Z.of_nat (S k)) with (in_half v + 1 + Z.of_nat k) by lia.
  destruct (half v <=? in_half v + 1) eqn:E; cbn [snd amp active left in_half half high];
    destruct (left v - 1 =? 0) eqn:El; simpl (_ && _).
  1, 3: by assert (Z.of_nat (S k) <? left v = false) as -> by lia.
  1, 2: assert ((Z.of_nat k <? left v - 1) = (Z.of_nat (S k) <? left v)) as -> by lia;
        destruct (_ <? _); [|done].
  - replace (in_half v + 1 + Z.of_nat k) with (0 + Z.of_nat k + 1 * half v) by lia.
    rewrite Z.div_add, Z.odd_add by lia. change (Z.odd 1) with true.
    by destruct (high v), (Z.odd _).
  - done.
Qed.

(** ** One frame *)

Lemma sum_abs_bound {A} (f : A -> Z) (P : A -> Prop) B l :
  Forall P l -> 0 <= B -> (forall x, P x -> Z.abs (f x) <= B) ->
  Z.abs (sum (f <$> l)) <= B * Z.of_nat (length l).
Proof.
  intros Hl HB Hf. induction Hl as [|x l Hx Hl IH]; [simpl; lia|].
  rewrite fmap_cons. specialize (Hf x Hx). cbn [sum foldr length]. fold (sum (f <$> l)). lia.
Qed.

Lemma part_bound s k : slot_ok s -> Z.abs (part s k).1 <= 32768 /\ Z.abs (part s k).2 <= 32768.
Proof. intros Hs. destruct (part_i16 s k Hs). unfold is_i16 in *. lia. Qed.

Lemma wave_bound v k : voice_ok v -> Z.abs (wave v k) <= 8000.
Proof.
  intros [Ha _ _ _]. unfold wave. destruct (_ && _); [|lia]. destruct (xorb _ _); lia.
Qed.

Lemma mix_streams_spec ss l r :
  Forall slot_ok ss ->
  Z.abs l + 32768 * Z.of_nat (length ss) < 2147483648 ->
  Z.abs r + 32768 * Z.of_nat (length ss) < 2147483648 ->
  mix_streams ss l r =
  Done (l + sum ((fun s => (part s 0).1) <$> ss), r + sum ((fun s => (part s 0).2) <$> ss),
        stream_next <$> ss).
Proof.
  intros Hss. revert l r. induction Hss as [|s ss Hs Hss IH]; intros l r Hl Hr.
  { simpl. by rewrite !Z.add_0_r. }
  rewrite !fmap_cons. cbn [sum foldr length mix_streams] in *.
  destruct (part_bound s 0 Hs) as [Bl Br].
  assert (Hpart : part s 0 = if sounds s then
            match sample_at (track s) (phase (resampler s)) with
            | Some f => (scale (volume (format s)) f.1, scale (volume (format s)) f.2)
            | None => (0, 0) end else (0, 0))
    by (unfold part; by rewrite Z.mul_0_l, Z.add_0_r).
  destruct (sounds s) eqn:Hp.
  - assert (negb (in_use (life s)) || paused (life s) = false) as ->.
    { unfold sounds in Hp. by destruct (in_use (life s)), (paused (life s)). }
    destruct (next_frame_sounds s Hs Hp) as (Hrun & _ & _ & Hf & _). rewrite Hrun. osimpl.
    rewrite Hf. pose proof (sounds_ok s Hs Hp) as Hok. pose proof (so_volume _ Hok) as Hv.
    destruct (sample_at _ _) as [f|] eqn:Hsa.
    + destruct (sample_i16 s _ f Hok Hsa) as [I1 I2]. rewrite Hpart in *. cbn [fst snd] in *.
      unfold UNITY, is_i16 in *.
      rewrite (wrap_i32_id (f.1 * _)), (wrap_i32_id (f.2 * _)) by (unfold is_i32; nia).
      rewrite !Z.shiftr_div_pow2 by lia. change (2 ^ 8) with 256.
      fold (scale (volume (format s)) f.1) (scale (volume (format s)) f.2).
      rewrite !wrap_i32_id by (unfold is_i32; lia).
      rewrite IH by lia. osimpl. by rewrite !Z.add_assoc.
    + rewrite Hpart. cbn [fst snd]. rewrite IH by lia. osimpl. by rewrite !Z.add_0_l.
  - assert (negb (in_use (life s)) || paused (life s) = true) as ->.
    { unfold sounds in Hp. by destruct (in_use (life s)), (paused (life s)). }
    rewrite IH by lia. osimpl. rewrite Hpart. cbn [fst snd]. rewrite !Z.add_0_l.
    assert (stream_next s = s) as -> by (unfold stream_next; by rewrite Hp). done.
Qed.

Lemma mix_voices_spec vs l r :
  Forall voice_ok vs ->
  Z.abs l + 8000 * Z.of_nat (length vs) < 2147483648 ->
  Z.abs r + 8000 * Z.of_nat (length vs) < 2147483648 ->
  mix_voices vs l r =
  (l + sum ((fun v => wave v 0) <$> vs), r + sum ((fun v => wave v 0) <$> vs), vnext <$> vs).
Proof.
  intros Hvs. revert l r. induction Hvs as [|v vs Hv Hvs IH]; intros l r Hl Hr.
  { simpl. by rewrite !Z.add_0_r. }
  rewrite !fmap_cons. cbn [sum foldr length mix_voices] in *.
  pose proof (wave_bound v 0 Hv). destruct (active v) eqn:Hact.
  - pose proof (wave_now v Hv Hact) as Hw.
    assert (vnext v = (voice_next v).2) as -> by (unfold vnext; by rewrite Hact).
    destruct (voice_next v) as [x v']. cbn [fst snd] in *. subst x.
    rewrite !wrap_i32_id by (unfold is_i32; lia). rewrite IH by lia. by rewrite !Z.add_assoc.
  - rewrite IH by lia. assert (vnext v = v) as -> by (unfold vnext; by rewrite Hact).
    assert (wave v 0 = 0) as -> by (unfold wave; by rewrite Hact). by rewrite !Z.add_0_l.
Qed.

(** All the frames of the tap, the oldest first. *)
Definition tap_view (m : Mixer) : list frame :=
  ring TAP_FRAMES (to_frames 2 (tap m)) (tap_pos m) TAP_FRAMES.

Lemma tap_pos_ok : (0 < TAP_FRAMES)%nat.
Proof. pose proof tap_frames. lia. Qed.

Lemma pair_insert p j v w n :
  length p = (n * 2)%nat -> (j < n)%nat ->
  to_frames 2 (<[(j * 2 + 1)%nat := w]> (<[(j * 2)%nat := v]> p)) = <[j := (v, w)]> (to_frames 2 p).
Proof.
  intros Hl Hj. assert (Hd : (length p / 2 = n)%nat) by (rewrite Hl; apply Nat.div_mul; lia).
  apply list_eq_same_length with (n := n);
    [by rewrite length_insert, to_frames_length|by rewrite to_frames_length, !length_insert|].
  intros i x y Hi. rewrite to_frames_lookup by (rewrite !length_insert; lia). intros [= <-].
  destruct (decide (i = j)) as [->|Hij].
  - rewrite list_lookup_insert_eq by (rewrite to_frames_length; lia). intros [= <-].
    unfold cell. simpl. rewrite (list_lookup_total_insert_ne _ _ (j * 2)%nat) by lia.
    by rewrite !list_lookup_total_insert_eq by (rewrite ?length_insert; lia).
  - rewrite list_lookup_insert_ne, to_frames_lookup by (done || lia). intros [= <-].
    unfold cell. simpl. by rewrite !list_lookup_total_insert_ne by lia.
Qed.

(** A full ring forgets its oldest element. *)
Lemma ring_turn `{Inhabited A} cap (b : list A) pos x :
  length b = cap -> (pos < cap)%nat ->
  ring cap (<[pos := x]> b) ((pos + 1) `mod` cap) cap = tail (ring cap b pos cap) ++ [x].
Proof.
  intros Hl Hp. assert (Hc : (0 < cap)%nat) by lia. set (c := (cap - 1)%nat).
  assert (Hw : (((pos + 1) `mod` cap + c) `mod` cap = pos)%nat).
  { rewrite Nat.Div0.add_mod_idemp_l. replace (pos + 1 + c)%nat with (pos + 1 * cap)%nat by lia.
    rewrite Nat.Div0.mod_add. by apply Nat.mod_small. }
  replace (<[pos := x]> b) with (<[(((pos + 1) `mod` cap + c) `mod` cap)%nat := x]> b) by by rewrite Hw.
  assert (Hs : forall (b' : list A) r, ring cap b' r cap = ring cap b' r (S c)).
  { intros b' r. f_equal. lia. }
  rewrite !Hs, ring_push by (done || lia). by rewrite ring_cons by done.
Qed.

Lemma tap_push p pos v w :
  length p = (TAP_FRAMES * 2)%nat -> (pos < TAP_FRAMES)%nat ->
  ring TAP_FRAMES (to_frames 2 (<[(pos * 2 + 1)%nat := w]> (<[(pos * 2)%nat := v]> p)))
    ((pos + 1) `mod` TAP_FRAMES) TAP_FRAMES =
  tail (ring TAP_FRAMES (to_frames 2 p) pos TAP_FRAMES) ++ [(v, w)].
Proof.
  intros Hl Hp. rewrite (pair_insert _ _ _ _ _ Hl Hp). apply ring_turn; [|done].
  rewrite to_frames_length, Hl. apply Nat.div_mul. lia.
Qed.

(** The mixer after one frame. *)
Definition mixed_once (m : Mixer) : Mixer :=
  mkMixer (stream_next <$> streams m) (vnext <$> voices m) (master_cut m) (muted m)
    (<[(tap_pos m * 2 + 1)%nat := (out_frame m 0).2]> (<[(tap_pos m * 2)%nat := (out_frame m 0).1]> (tap m)))
    ((tap_pos m + 1) `mod` TAP_FRAMES) (mixed_frames m) (clipped m +₃₂ out_clips m 0) (dma m).

Lemma mixed_once_ok m : mixer_ok m -> mixer_ok (mixed_once m).
Proof.
  intros Hok. pose proof (fmap_ok _ m stream_next_keeps Hok) as [Hs1 Hs2 Hs3 _ _ _ _ _ _ _].
  destruct Hok. split; try done.
  - simpl. by rewrite length_fmap.
  - simpl. apply Forall_fmap. eapply Forall_impl; [done|]. apply vnext_ok.
  - simpl. by rewrite !length_insert.
  - simpl. apply Nat.mod_upper_bound. pose proof tap_pos_ok. lia.
Qed.

Lemma mixdown_next m k : mixer_ok m -> mixdown (mixed_once m) k = mixdown m (S k).
Proof.
  intros Hok. unfold mixdown. simpl (streams _). simpl (voices _).
  rewrite <- !list_fmap_compose.
  assert (Hp : forall (g : frame -> Z), (((fun s => g (part s k)) ∘ stream_next) <$> streams m)
             = ((fun s => g (part s (S k))) <$> streams m)).
  { intros g. apply Forall_fmap_ext_1. eapply Forall_impl; [apply Hok|]. intros s Hs. simpl.
    by rewrite part_next. }
  assert (Hv : (((fun v => wave v k) ∘ vnext) <$> voices m) = ((fun v => wave v (S k)) <$> voices m)).
  { apply Forall_fmap_ext_1. eapply Forall_impl; [apply Hok|]. intros v Hv. by apply wave_next. }
  by rewrite (Hp fst), (Hp snd), Hv.
Qed.

Lemma out_next m k :
  mixer_ok m -> out_frame (mixed_once m) k = out_frame m (S k) /\
                out_clips (mixed_once m) k = out_clips m (S k).
Proof.
  intros Hok. unfold out_frame, out_clips. rewrite mixdown_next by done.
  by change (level (mixed_once m)) with (level m).
Qed.

Lemma mixdown_bound m k :
  mixer_ok m -> Z.abs (mixdown m k).1 <= 278144 /\ Z.abs (mixdown m k).2 <= 278144.
Proof.
  intros Hok. unfold mixdown. cbn [fst snd].
  pose proof (sum_abs_bound (fun s => (part s k).1) slot_ok 32768 _ (mo_slots _ Hok) ltac:(lia)) as H1.
  pose proof (sum_abs_bound (fun s => (part s k).2) slot_ok 32768 _ (mo_slots _ Hok) ltac:(lia)) as H2.
  pose proof (sum_abs_bound (fun v => wave v k) voice_ok 8000 _ (mo_voice _ Hok) ltac:(lia)) as H3.
  rewrite (mo_streams _ Hok) in *. rewrite (mo_voices _ Hok) in *. unfold MAX_STREAMS, MAX_VOICES in *.
  specialize (H1 ltac:(intros x Hx; by apply part_bound)).
  specialize (H2 ltac:(intros x Hx; by apply part_bound)).
  specialize (H3 ltac:(intros x Hx; by apply wave_bound)). lia.
Qed.

Lemma mix_frame_spec f m out :
  mixer_ok m -> (f * 2 + 1 < length out)%nat ->
  mix_frame (level m) f m out =
  Done (mixed_once m,
        <[(f * 2 + 1)%nat := (out_frame m 0).2]> (<[(f * 2)%nat := (out_frame m 0).1]> out)).
Proof.
  intros Hok Hf. unfold mix_frame.
  pose proof (sum_abs_bound (fun s => (part s 0).1) slot_ok 32768 _ (mo_slots _ Hok) ltac:(lia)) as H1.
  pose proof (sum_abs_bound (fun s => (part s 0).2) slot_ok 32768 _ (mo_slots _ Hok) ltac:(lia)) as H2.
  specialize (H1 ltac:(intros x Hx; by apply part_bound)).
  specialize (H2 ltac:(intros x Hx; by apply part_bound)).
  rewrite mix_streams_spec by (rewrite ?(mo_streams _ Hok); (apply Hok || (unfold MAX_STREAMS; lia))).
  osimpl. rewrite (mo_streams _ Hok) in *. unfold MAX_STREAMS in *.
  rewrite mix_voices_spec
    by (rewrite ?(mo_voices _ Hok); (apply Hok || (unfold MAX_VOICES; rewrite Z.add_0_l; lia))).
  cbn [fst snd]. rewrite !Z.add_0_l.
  fold (mixdown m 0).1. fold (mixdown m 0).2. destruct (mixdown_bound m 0 Hok) as [B1 B2].
  assert (Hlv : 0 <= level m <= 256).
  { unfold level. destruct (muted m); [lia|]. pose proof (mo_master _ Hok). unfold UNITY in *. lia. }
  rewrite !(wrap_i32_id (_ * level m)) by (unfold is_i32; unfold mixdown in *; cbn [fst snd] in *; nia).
  rewrite !Z.shiftr_div_pow2 by lia. change (2 ^ 8) with 256.
  unfold mixed_once, out_frame, out_clips, scale. unfold mixdown. cbn [fst snd].
  rewrite !clamp16_saturated. cbn [fst snd].
  pose proof (mo_tap _ Hok). pose proof (mo_tap_pos _ Hok).
  rewrite store_Done by lia. osimpl. rewrite store_Done by (rewrite length_insert; lia). osimpl.
  rewrite store_Done by lia. osimpl. rewrite store_Done by (rewrite length_insert; lia). done.
Qed.

(** ** A period *)

Lemma iter_ok n m : mixer_ok m -> mixer_ok (Nat.iter n mixed_once m).
Proof. intros Hok. induction n as [|n IH]; [done|]. by apply mixed_once_ok. Qed.

Lemma iter_out n m k :
  mixer_ok m -> out_frame (Nat.iter n mixed_once m) k = out_frame m (n + k) /\
                out_clips (Nat.iter n mixed_once m) k = out_clips m (n + k).
Proof.
  intros Hok. revert k. induction n as [|n IH]; intros k; [done|]. simpl.
  destruct (out_next _ k (iter_ok n m Hok)) as [-> ->]. destruct (IH (S k)) as [-> ->].
  by rewrite Nat.add_succ_r.
Qed.

Lemma iter_level n m : level (Nat.iter n mixed_once m) = level m.
Proof. induction n as [|n IH]; [done|]. exact IH. Qed.

Lemma iter_streams n m :
  streams (Nat.iter n mixed_once m) = Nat.iter n stream_next <$> streams m.
Proof.
  induction n as [|n IH]; [simpl; by rewrite list_fmap_id|]. simpl. rewrite IH.
  by rewrite <- list_fmap_compose.
Qed.

Lemma iter_voices n m : voices (Nat.iter n mixed_once m) = Nat.iter n vnext <$> voices m.
Proof.
  induction n as [|n IH]; [simpl; by rewrite list_fmap_id|]. simpl. rewrite IH.
  by rewrite <- list_fmap_compose.
Qed.

Lemma tap_view_length m : length (tap_view m) = TAP_FRAMES.
Proof. apply ring_length. Qed.

Lemma iter_tap n m :
  mixer_ok m ->
  tap_view (Nat.iter n mixed_once m) = drop n (tap_view m ++ (out_frame m <$> seq 0 n)).
Proof.
  intros Hok. induction n as [|n IH]; [simpl; by rewrite app_nil_r|].
  pose proof (iter_ok n m Hok) as Hn. destruct (iter_out n m 0 Hok) as [Ho _].
  rewrite Nat.add_0_r in Ho. rewrite seq_S, fmap_app. simpl.
  change (Nat.iter (S n) mixed_once m) with (mixed_once (Nat.iter n mixed_once m)).
  unfold tap_view at 1. cbn [mixed_once tap tap_pos].
  rewrite tap_push by apply Hn. fold (tap_view (Nat.iter n mixed_once m)). rewrite IH, Ho.
  rewrite app_assoc.
  assert (Hlen : length (tap_view m ++ (out_frame m <$> seq 0 n)) = (TAP_FRAMES + n)%nat).
  { by rewrite length_app, tap_view_length, length_fmap, length_seq. }
  pose proof tap_pos_ok. set (l := tap_view m ++ _) in *.
  rewrite (drop_app_le l) by lia. destruct (out_frame m n). f_equal.
  replace (S n) with (n + 1)%nat by lia. rewrite <- drop_drop. by destruct (drop n l).
Qed.

Lemma flatten_app l k : flatten (l ++ k) = flatten l ++ flatten k.
Proof. unfold flatten. by rewrite bind_app. Qed.

Lemma flatten_length l : length (flatten l) = (length l * 2)%nat.
Proof. induction l as [|x l IH]; [done|]. simpl. by rewrite <- IH. Qed.

Lemma take_insert_middle2 f (x y : Z) out :
  (f * 2 + 1 < length out)%nat ->
  take (S f * 2) (<[(f * 2 + 1)%nat := y]> (<[(f * 2)%nat := x]> out)) = take (f * 2) out ++ [x; y].
Proof.
  intros Hf. replace (S f * 2)%nat with (S (S (f * 2))) by lia.
  rewrite (take_S_r _ _ y).
  2: { rewrite Nat.add_1_r. apply list_lookup_insert_eq. rewrite length_insert. lia. }
  rewrite take_insert_ge by lia.
  rewrite (take_S_r _ _ x) by (apply list_lookup_insert_eq; lia).
  rewrite take_insert_ge by lia. by rewrite <- app_assoc.
Qed.

Lemma mix_loop_spec n f m out :
  mixer_ok m -> length out = PERIOD_SAMPLES -> (f + n <= PERIOD_FRAMES)%nat ->
  mix_loop n f (level m) m out =
  Done (Nat.iter n mixed_once m,
        take (f * 2) out ++ flatten (out_frame m <$> seq 0 n) ++ drop ((f + n) * 2) out).
Proof.
  revert f m out. induction n as [|n IH]; intros f m out Hok Hl Hf; cbn [mix_loop].
  { simpl. rewrite Nat.add_0_r. by rewrite take_drop. }
  unfold PERIOD_SAMPLES in *. rewrite mix_frame_spec by (done || lia). osimpl.
  rewrite <- (iter_level 1 m). simpl (Nat.iter 1 _ _).
  rewrite IH by (first [by apply mixed_once_ok | rewrite !length_insert; lia | lia]).
  rewrite <- Nat.iter_succ_r. f_equal. f_equal.
  assert (Hseq : (out_frame (mixed_once m) <$> seq 0 n) = (out_frame m <$> seq 1 n)).
  { rewrite <- fmap_S_seq, <- list_fmap_compose. apply list_fmap_ext. intros i k _.
    by apply out_next. }
  rewrite Hseq. cbn [seq]. rewrite fmap_cons. cbn [flatten mbind list_bind].
  fold (flatten (out_frame m <$> seq 1 n)). destruct (out_frame m 0) as [x y]. cbn [fst snd].
  replace ((S f + n) * 2)%nat with ((f + S n) * 2)%nat by lia.
  rewrite !drop_insert_lt by lia.
  rewrite (take_insert_middle2 f x y out) by lia. by rewrite <- app_assoc.
Qed.

(** The frames of the next period, and the mixer after it. *)
Definition period_of (m : Mixer) : list frame := out_frame m <$> seq 0 PERIOD_FRAMES.

Definition end_period (m : Mixer) : Mixer :=
  mkMixer (free_if played_out <$> streams m) (voices m) (master_cut m) (muted m) (tap m) (tap_pos m)
    (mixed_frames m +₃₂ Z.of_nat PERIOD_FRAMES) (clipped m) (dma m).

Definition after_period (m : Mixer) : Mixer := end_period (Nat.iter PERIOD_FRAMES mixed_once m).

Lemma count_period_ok m n :
  mixer_ok m ->
  mixer_ok (mkMixer (streams m) (voices m) (master_cut m) (muted m) (tap m) (tap_pos m)
              (mixed_frames m +₃₂ n) (clipped m) (dma m)).
Proof. intros []. split; try done. apply wrap32_u32. Qed.

Lemma mix_block_spec m out :
  mixer_ok m -> length out = PERIOD_SAMPLES ->
  mix_block m out = Done (after_period m, flatten (period_of m)).
Proof.
  intros Hok Hl. unfold mix_block.
  assert ((if muted m then 0 else UNITY -₃₂ master_cut m) = level m) as ->.
  { unfold level. destruct (muted m); [done|]. pose proof (mo_master _ Hok). unfold UNITY in *.
    apply wrap32_id. unfold is_u32. lia. }
  rewrite mix_loop_spec by (done || lia). unfold after_period, period_of, end_period.
  pose proof (iter_ok PERIOD_FRAMES m Hok) as Hn. revert Hn.
  generalize (Nat.iter PERIOD_FRAMES mixed_once m). intros m' Hn. osimpl.
  rewrite free_all_spec by (by apply count_period_ok). osimpl.
  unfold PERIOD_SAMPLES in Hl. rewrite (drop_ge out) by lia. by rewrite app_nil_r.
Qed.

Lemma iter_dma n m : dma (Nat.iter n mixed_once m) = dma m.
Proof. induction n as [|n IH]; [done|]. exact IH. Qed.

Lemma end_period_ok m : mixer_ok m -> mixer_ok (end_period m).
Proof. intros Hok. exact (count_period_ok _ _ (fmap_ok _ _ (free_if_keeps played_out) Hok)). Qed.

Lemma after_period_ok m : mixer_ok m -> mixer_ok (after_period m).
Proof. intros Hok. by apply end_period_ok, iter_ok. Qed.

Lemma period_length m : length (flatten (period_of m)) = PERIOD_SAMPLES.
Proof. unfold period_of. by rewrite flatten_length, length_fmap, length_seq. Qed.

(** What the tap holds after a period. *)
Lemma end_period_tap m : tap_view (end_period m) = tap_view m.
Proof. done. Qed.

Lemma after_period_tap m :
  mixer_ok m -> tap_view (after_period m) = drop PERIOD_FRAMES (tap_view m ++ period_of m).
Proof. intros Hok. unfold after_period. by rewrite end_period_tap, iter_tap. Qed.

(** ** Reading the tap *)

Lemma tap_loop_spec m start n :
  mixer_ok m ->
  forall i out, (n = 0 \/ i * 2 + n * 2 <= length out)%nat ->
  tap_loop n i start m out =
  Done (take (i * 2) out ++
        flatten ((fun k => to_frames 2 (tap m) !!! ((start + k) `mod` TAP_FRAMES)%nat) <$> seq i n) ++
        drop ((i + n) * 2) out).
Proof.
  intros Hok. pose proof tap_pos_ok. pose proof (mo_tap _ Hok) as Hl.
  induction n as [|n IH]; intros i out Hi; cbn [tap_loop].
  { simpl. rewrite Nat.add_0_r. by rewrite take_drop. }
  assert (Hj : ((start + i) `mod` TAP_FRAMES < TAP_FRAMES)%nat) by (apply Nat.mod_upper_bound; lia).
  set (j := ((start + i) `mod` TAP_FRAMES)%nat) in *.
  oindex (lookup_total_in (tap m) (j * 2)%nat ltac:(lia)). ostore.
  oindex (lookup_total_in (tap m) (j * 2 + 1)%nat ltac:(lia)).
  rewrite store_Done by (rewrite length_insert; lia). osimpl.
  rewrite IH by (rewrite !length_insert; lia). f_equal.
  cbn [seq]. rewrite fmap_cons. cbn [flatten mbind list_bind]. fold j.
  rewrite (to_frames_total 2 (tap m) j) by (rewrite Hl, Nat.div_mul; lia).
  unfold cell. simpl (2 - 1)%nat. cbn [fst snd].
  replace ((S i + n) * 2)%nat with ((i + S n) * 2)%nat by lia.
  rewrite !drop_insert_lt by lia. rewrite take_insert_middle2 by lia. by rewrite <- app_assoc.
Qed.

(** Reading the tap: the newest frames, oldest first, over the first samples of the
    buffer. *)
Lemma tap_read_spec uid out frames m :
  mixer_ok m -> 0 <= frames ->
  let n := Z.to_nat (Z.min (Z.min frames (Z.of_nat TAP_FRAMES)) (mixed_frames m)) in
  tap_read uid out frames m =
  Done (if negb (uid =? 0) then (Err EPERM, out)
        else if (length out <? n * 2)%nat then (Err EINVAL, out)
        else (Ok (Z.of_nat n, mixed_frames m),
              flatten (drop (TAP_FRAMES - n) (tap_view m)) ++ drop (n * 2) out)).
Proof.
  intros Hok Hf n. unfold tap_read. destruct (negb _); [done|]. fold n.
  destruct (_ <? _)%nat eqn:El; [done|]. apply Nat.ltb_ge in El.
  rewrite tap_loop_spec by (done || lia). osimpl.
  assert (Hn : (n <= TAP_FRAMES)%nat) by (unfold n; lia). clearbody n. pose proof tap_pos_ok.
  pose proof (mo_tap_pos _ Hok).
  assert (Htap : drop (TAP_FRAMES - n) (tap_view m) =
            ((fun k => to_frames 2 (tap m) !!!
               (((tap_pos m + TAP_FRAMES - n) `mod` TAP_FRAMES + k) `mod` TAP_FRAMES)%nat) <$> seq 0 n)).
  { unfold tap_view. rewrite ring_drop by lia.
    replace (TAP_FRAMES - (TAP_FRAMES - n))%nat with n by lia. by rewrite Nat.add_sub_assoc by lia. }
  by rewrite Htap.
Qed.
