(* ===== verification/MixerCard.v ===== *)
(** * The card's ring

    The pump keeps a few periods ahead of the card in a ring of 32 descriptors. Whatever the
    card does, the mixer's books stay in range; and with a card that plays descriptor after
    descriptor and halts after the last valid one, the ring is a first-in first-out queue. *)

From S2P Require Import Prelude Ring Mixer MixerStream MixerInv MixerMix.
Local Open Scope Z_scope.
Local Open Scope machine_scope.

(** ** Filling the ring, with any card *)

(** The mixer after [fill_one]. *)
Definition filled (m : Mixer) : Mixer :=
  let m' := after_period m in
  let d := dma m' in
  set_dma (mkDma (running d) ((write_idx d + 1) `mod` RING_PERIODS) (queued d + 1) (last_civ d)
             (hw_underruns d) (restarts d) (periods_written d +₃₂ 1)) m'.

Fixpoint fill_hw `{Hw H} (n : nat) (m : Mixer) (h : H) : H :=
  match n with
  | O => h
  | S n' => fill_hw n' (filled m) (write_period (write_idx (dma m)) (flatten (period_of m)) h)
  end.

(** The next periods that are mixed. *)
Fixpoint periods (n : nat) (m : Mixer) : list (list Z) :=
  match n with
  | O => []
  | S n' => flatten (period_of m) :: periods n' (filled m)
  end.

Lemma end_period_dma m : dma (end_period m) = dma m.
Proof. done. Qed.

Lemma after_period_dma m : dma (after_period m) = dma m.
Proof. unfold after_period. by rewrite end_period_dma, iter_dma. Qed.

Lemma set_dma_ok d m : mixer_ok m -> dma_ok d -> mixer_ok (set_dma d m).
Proof. intros [] Hd. by split. Qed.

Lemma filled_dma m :
  let d := dma m in
  dma (filled m) = mkDma (running d) ((write_idx d + 1) `mod` RING_PERIODS) (queued d + 1) (last_civ d)
                     (hw_underruns d) (restarts d) (periods_written d +₃₂ 1).
Proof. unfold filled. cbn [dma set_dma]. by rewrite after_period_dma. Qed.

Lemma filled_ok m : mixer_ok m -> (queued (dma m) < TARGET_AHEAD)%nat -> mixer_ok (filled m).
Proof.
  intros Hok Hq. apply set_dma_ok; [by apply after_period_ok|]. rewrite after_period_dma.
  destruct (mo_dma _ Hok). split; cbn [write_idx queued last_civ]; [|lia|done].
  by apply Nat.mod_upper_bound.
Qed.

Lemma fill_one_spec `{Hw H} m (h : H) :
  mixer_ok m ->
  fill_one m h = Done (filled m, write_period (write_idx (dma m)) (flatten (period_of m)) h).
Proof.
  intros Hok. unfold fill_one. rewrite mix_block_spec by (done || apply length_replicate).
  osimpl. unfold filled. rewrite !after_period_dma. generalize (after_period m). reflexivity.
Qed.

Lemma ring_fill_spec `{Hw H} n m (h : H) :
  mixer_ok m -> (queued (dma m) + n <= TARGET_AHEAD)%nat ->
  fill_loop n m h = Done (Nat.iter n filled m, fill_hw n m h) /\ mixer_ok (Nat.iter n filled m).
Proof.
  revert m h. induction n as [|n IH]; intros m h Hok Hq; [done|].
  cbn [fill_loop fill_hw]. rewrite fill_one_spec by done. osimpl. rewrite Nat.iter_succ_r.
  apply IH; [apply filled_ok; (done || lia)|]. rewrite filled_dma. simpl. lia.
Qed.

Lemma iter_filled_dma n m :
  (write_idx (dma m) < RING_PERIODS)%nat ->
  let d := dma m in
  exists w, dma (Nat.iter n filled m) =
    mkDma (running d) ((write_idx d + n) `mod` RING_PERIODS) (queued d + n) (last_civ d)
      (hw_underruns d) (restarts d) w.
Proof.
  intros Hw d. induction n as [|n [w IH]].
  - exists (periods_written d). change (Nat.iter 0 filled m) with m.
    rewrite !Nat.add_0_r, Nat.mod_small by done. unfold d. by destruct (dma m).
  - exists (w +₃₂ 1). change (Nat.iter (S n) filled m) with (filled (Nat.iter n filled m)).
    rewrite filled_dma, IH. cbn [running write_idx queued last_civ hw_underruns restarts periods_written].
    rewrite Nat.Div0.add_mod_idemp_l. f_equal; [f_equal|]; lia.
Qed.

Lemma audio_account_ok civ halted act d : (civ < RING_PERIODS)%nat -> dma_ok d -> dma_ok (account civ halted act d).
Proof.
  intros Hc [Hw Hq _]. unfold account.
  destruct (_ <? _)%nat, halted; split; simpl; (done || unfold TARGET_AHEAD in *; lia).
Qed.

(** The periods a cold start mixes, and the books after it. *)
Definition reset_dma (m : Mixer) : Mixer :=
  let d := dma m in
  set_dma (mkDma (running d) 0 0 0 (hw_underruns d) (restarts d) (periods_written d)) m.

Definition start_dma (d : Dma) : Dma :=
  mkDma true (write_idx d) (queued d) (last_civ d) (hw_underruns d) (restarts d +₃₂ 1)
    (periods_written d).

Lemma reset_ok m : mixer_ok m -> mixer_ok (reset_dma m).
Proof.
  intros Hok. apply set_dma_ok; [done|]. split; simpl; unfold RING_PERIODS, TARGET_AHEAD; lia.
Qed.

Lemma cold_start_spec `{Hw H} m (h : H) :
  mixer_ok m ->
  let m1 := Nat.iter START_PREFILL filled (reset_dma m) in
  cold_start m h = Done (set_dma (start_dma (dma m1)) m1,
                         ring_start (last_written m1) (fill_hw START_PREFILL (reset_dma m) h)) /\
  mixer_ok (set_dma (start_dma (dma m1)) m1).
Proof.
  intros Hok m1. pose proof (reset_ok m Hok) as Hr. unfold cold_start. fold (reset_dma m).
  destruct (ring_fill_spec START_PREFILL (reset_dma m) h Hr) as [-> Hok1].
  { simpl. unfold START_PREFILL, TARGET_AHEAD. lia. }
  osimpl. split; [done|]. apply set_dma_ok; [done|]. destruct (mo_dma _ Hok1). by split.
Qed.

(** The pump with any card: it returns, and the books stay in range. *)
Lemma pump_ok `{Hw H} m (h : H) :
  mixer_ok m -> exists m' h', pump m h = Done (m', h') /\ mixer_ok m'.
Proof.
  intros Hok. unfold pump. destruct (present h) as [[] h1]; cbn [negb]; [|by eauto].
  assert (Hcold : forall m (h : H), mixer_ok m -> exists m' h', cold_start m h = Done (m', h') /\ mixer_ok m').
  { intros m1 h' Hok1. destruct (cold_start_spec m1 h' Hok1). eauto. }
  destruct (running (dma m)); [|destruct (has_activity m); cbn [negb]; eauto].
  destruct (ring_civ h1) as [c h2]. destruct (ring_running h2) as [r h3].
  set (m1 := set_dma _ _). assert (Hm1 : mixer_ok m1).
  { apply set_dma_ok; [done|]. apply audio_account_ok; [|apply Hok].
    pose proof (Z.mod_pos_bound c (Z.of_nat RING_PERIODS)). unfold RING_PERIODS in *. lia. }
  destruct r; cbn [negb]; destruct (has_activity m); cbn [negb]; eauto.
  destruct (ring_fill_spec (TARGET_AHEAD - queued (dma m1)) m1 h3 Hm1) as [Hrun Hok'].
  { pose proof (do_queued _ (mo_dma _ Hm1)). lia. }
  rewrite Hrun. osimpl. eauto.
Qed.

(** ** A card that plays *)

(** The engine behind the ring: the descriptors, the one it plays and how many of its frames
    it has played, the last valid one, and all the samples that were heard. *)
Record Engine : Type := mkEngine {
  e_ring : list (list Z);
  e_civ : nat;
  e_lvi : nat;
  e_running : bool;
  e_pos : nat;
  e_heard : list Z;
}.

(** One frame: after the last one of the last valid descriptor the engine halts. *)
Definition engine_tick (e : Engine) : Engine :=
  if e_running e then
    let heard := e_heard e ++ take 2 (drop (e_pos e * 2) (e_ring e !!! e_civ e)) in
    if (S (e_pos e) <? PERIOD_FRAMES)%nat then
      mkEngine (e_ring e) (e_civ e) (e_lvi e) true (S (e_pos e)) heard
    else if (e_civ e =? e_lvi e)%nat then
      mkEngine (e_ring e) (e_civ e) (e_lvi e) false 0 heard
    else mkEngine (e_ring e) ((e_civ e + 1) `mod` RING_PERIODS) (e_lvi e) true 0 heard
  else e.

Definition engine_start (lvi : nat) (e : Engine) : Engine :=
  mkEngine (e_ring e) 0 lvi true 0 (e_heard e).
Definition engine_stop (e : Engine) : Engine :=
  mkEngine (e_ring e) (e_civ e) (e_lvi e) false (e_pos e) (e_heard e).
Definition engine_set_lvi (lvi : nat) (e : Engine) : Engine :=
  mkEngine (e_ring e) (e_civ e) lvi (e_running e) (e_pos e) (e_heard e).
Definition engine_write (idx : nat) (s : list Z) (e : Engine) : Engine :=
  mkEngine (<[idx := s]> (e_ring e)) (e_civ e) (e_lvi e) (e_running e) (e_pos e) (e_heard e).

Record engine_ok (e : Engine) : Prop := {
  eo_ring : length (e_ring e) = RING_PERIODS;
  eo_rows : Forall (fun s => length s = PERIOD_SAMPLES) (e_ring e);
  eo_civ : (e_civ e < RING_PERIODS)%nat;
  eo_lvi : (e_lvi e < RING_PERIODS)%nat;
  eo_pos : (e_pos e < PERIOD_FRAMES)%nat;
}.

(** A card with such an engine: [elapse] is time going by, in frames. *)
Class Card (H : Type) `{Hw H} : Type := {
  engine : H -> Engine;
  elapse : nat -> H -> H;
  card_present h : engine (present h).2 = engine h;
  card_start lvi h : engine (ring_start lvi h) = engine_start lvi (engine h);
  card_stop h : engine (ring_stop h) = engine_stop (engine h);
  card_civ h : (ring_civ h).1 = Z.of_nat (e_civ (engine h)) /\ engine (ring_civ h).2 = engine h;
  card_running h : (ring_running h).1 = e_running (engine h) /\ engine (ring_running h).2 = engine h;
  card_set_lvi idx h : engine (ring_set_lvi idx h) = engine_set_lvi idx (engine h);
  card_write idx s h :
    length s = PERIOD_SAMPLES -> (idx < RING_PERIODS)%nat ->
    engine (write_period idx s h) = engine_write idx s (engine h);
  card_elapse n h : engine_ok (engine h) -> engine (elapse n h) = Nat.iter n engine_tick (engine h);
}.

(** A card that records the periods it is given. *)
#[export] Instance recorder `{Hw H} : Hw (H * list (list Z)) := {|
  present hl := let '(b, h) := present hl.1 in (b, (h, hl.2));
  ring_start lvi hl := (ring_start lvi hl.1, hl.2);
  ring_stop hl := (ring_stop hl.1, hl.2);
  ring_civ hl := let '(c, h) := ring_civ hl.1 in (c, (h, hl.2));
  ring_running hl := let '(b, h) := ring_running hl.1 in (b, (h, hl.2));
  ring_set_lvi idx hl := (ring_set_lvi idx hl.1, hl.2);
  write_period idx s hl := (write_period idx s hl.1, hl.2 ++ [s]);
|}.

(** ** The engine as a queue *)

(** From [a] forward to [b] in the ring. *)
Definition dist (a b : nat) : nat := ((b + RING_PERIODS - a) `mod` RING_PERIODS)%nat.

(** What is still to be heard. *)
Definition pend (e : Engine) : list Z :=
  if e_running e
  then drop (e_pos e * 2) (concat (ring RING_PERIODS (e_ring e) (e_civ e) (S (dist (e_civ e) (e_lvi e)))))
  else [].

Lemma ring_32 : (0 < RING_PERIODS)%nat.
Proof. unfold RING_PERIODS. lia. Qed.

Lemma mod_32 a : (a `mod` RING_PERIODS < RING_PERIODS)%nat.
Proof. apply Nat.mod_upper_bound. pose proof ring_32. lia. Qed.

Lemma dist_lt a b : (dist a b < RING_PERIODS)%nat.
Proof. apply Nat.mod_upper_bound. pose proof ring_32. lia. Qed.

Lemma dist_step a b :
  (a < RING_PERIODS)%nat -> (b < RING_PERIODS)%nat -> a <> b ->
  dist a b = S (dist ((a + 1) `mod` RING_PERIODS) b).
Proof.
  unfold dist. intros Ha Hb Hab. unfold RING_PERIODS in *.
  destruct (decide (a = 31)%nat) as [->|].
  - change ((31 + 1) `mod` 32)%nat with 0%nat. Z.to_euclidean_division_equations. lia.
  - rewrite (Nat.mod_small (a + 1)) by lia. Z.to_euclidean_division_equations. lia.
Qed.

Lemma dist_same a : (a < RING_PERIODS)%nat -> dist a a = 0%nat.
Proof. intros Ha. unfold dist. replace (a + RING_PERIODS - a)%nat with RING_PERIODS by lia. by apply Nat.Div0.mod_same. Qed.

(** The row the engine plays, and those behind it. *)
Lemma rows_cons e n :
  engine_ok e ->
  ring RING_PERIODS (e_ring e) (e_civ e) (S n) =
  (e_ring e !!! e_civ e) :: ring RING_PERIODS (e_ring e) ((e_civ e + 1) `mod` RING_PERIODS) n /\
  length (e_ring e !!! e_civ e) = PERIOD_SAMPLES.
Proof.
  intros [Hl Hr Hc _ _]. split; [apply (ring_cons _ ring_32); done|].
  rewrite Forall_lookup in Hr. eapply Hr, lookup_total_in. lia.
Qed.

Lemma tick_spec e :
  engine_ok e ->
  engine_ok (engine_tick e) /\ e_heard (engine_tick e) = e_heard e ++ take 2 (pend e) /\
  pend (engine_tick e) = drop 2 (pend e).
Proof.
  intros Hok. unfold engine_tick, pend. destruct (e_running e) eqn:Hrun.
  2: { rewrite Hrun. split; [done|]. simpl. by rewrite app_nil_r. }
  destruct (rows_cons e (dist (e_civ e) (e_lvi e)) Hok) as [Hrows Hlen].
  pose proof (eo_pos _ Hok) as Hpos. rewrite Hrows. cbn [concat].
  set (row := e_ring e !!! e_civ e) in *. set (rest := concat _).
  unfold PERIOD_SAMPLES in Hlen.
  assert (Ht : take 2 (drop (e_pos e * 2) (row ++ rest)) = take 2 (drop (e_pos e * 2) row)).
  { rewrite drop_app_le by lia. apply take_app_le. rewrite length_drop. lia. }
  assert (Hd : drop 2 (drop (e_pos e * 2) (row ++ rest)) = drop (S (e_pos e) * 2) (row ++ rest)).
  { rewrite drop_drop. f_equal. lia. }
  destruct (S (e_pos e) <? PERIOD_FRAMES)%nat eqn:E1.
  { apply Nat.ltb_lt in E1. cbn [e_running e_ring e_civ e_lvi e_pos e_heard].
    split; [destruct Hok; by split|]. rewrite Ht, Hd, Hrows. done. }
  apply Nat.ltb_ge in E1.
  assert (Hend : drop (S (e_pos e) * 2) (row ++ rest) = rest).
  { replace (S (e_pos e) * 2)%nat with (length row) by lia. apply drop_app_length. }
  destruct (e_civ e =? e_lvi e)%nat eqn:E2; cbn [e_running e_ring e_civ e_lvi e_pos e_heard].
  - apply Nat.eqb_eq in E2. split; [destruct Hok; split; (done || simpl; lia)|].
    rewrite Ht, Hd, Hend. split; [done|]. unfold rest. rewrite E2, dist_same by apply Hok. done.
  - apply Nat.eqb_neq in E2. split.
    { destruct Hok. split; cbn [e_civ e_lvi e_pos e_ring]; try done; [|lia].
      apply Nat.mod_upper_bound. pose proof ring_32. lia. }
    rewrite Ht, Hd, Hend. split; [done|]. unfold rest.
    by rewrite (dist_step (e_civ e)) by (done || apply Hok).
Qed.

(** Time moves samples from the queue to the ear, in order. *)
Lemma run_spec n e :
  engine_ok e ->
  let e' := Nat.iter n engine_tick e in
  engine_ok e' /\ e_heard e' = e_heard e ++ take (n * 2) (pend e) /\ pend e' = drop (n * 2) (pend e).
Proof.
  intros Hok. induction n as [|n (IH1 & IH2 & IH3)]; [simpl; by rewrite app_nil_r|].
  destruct (tick_spec _ IH1) as (H1 & H2 & H3). split; [done|].
  change (Nat.iter (S n) engine_tick e) with (engine_tick (Nat.iter n engine_tick e)).
  rewrite H2, H3, IH2, IH3, drop_drop, <- app_assoc. split; [|f_equal; lia]. f_equal.
  rewrite take_take_drop. f_equal. lia.
Qed.

Lemma pend_length e :
  engine_ok e -> e_running e = true ->
  (length (pend e) + e_pos e * 2 = S (dist (e_civ e) (e_lvi e)) * PERIOD_SAMPLES)%nat.
Proof.
  intros Hok Hrun. unfold pend. rewrite Hrun, length_drop.
  assert (Hrows : forall n r, length (concat (ring RING_PERIODS (e_ring e) r n)) = (n * PERIOD_SAMPLES)%nat).
  { induction n as [|n IH]; intros r; [done|]. rewrite ring_snoc, concat_app, length_app, IH. cbn [concat].
    rewrite app_nil_r. destruct Hok as [Hl Hr _ _ _]. rewrite Forall_lookup in Hr.
    rewrite (Hr _ _ (lookup_total_in (e_ring e) ((r + n) `mod` RING_PERIODS)%nat
              ltac:(rewrite Hl; apply Nat.mod_upper_bound; pose proof ring_32; lia))). lia. }
  rewrite Hrows. pose proof (eo_pos _ Hok). unfold PERIOD_SAMPLES. nia.
Qed.

(** ** The pump keeps the queue *)

Lemma dist_sub a b c :
  (a < RING_PERIODS)%nat -> (b < RING_PERIODS)%nat -> (c < RING_PERIODS)%nat ->
  (dist a b <= dist a c)%nat -> (dist a c - dist a b)%nat = dist b c.
Proof.
  unfold dist, RING_PERIODS. intros Ha Hb Hc Hle.
  destruct (decide (a <= b)%nat), (decide (a <= c)%nat), (decide (b <= c)%nat);
    Z.to_euclidean_division_equations; lia.
Qed.

Lemma dist_succ a b :
  (a < RING_PERIODS)%nat -> (b < RING_PERIODS)%nat -> (dist a b < RING_PERIODS - 1)%nat ->
  dist a ((b + 1) `mod` RING_PERIODS) = S (dist a b).
Proof.
  unfold dist, RING_PERIODS. intros Ha Hb Hlt.
  destruct (decide (b = 31)%nat) as [->|].
  - change ((31 + 1) `mod` 32)%nat with 0%nat. Z.to_euclidean_division_equations. lia.
  - rewrite (Nat.mod_small (b + 1)) by lia. Z.to_euclidean_division_equations. lia.
Qed.

Lemma dist_add a b :
  (a < RING_PERIODS)%nat -> (b < RING_PERIODS)%nat ->
  ((a + S (dist a b)) `mod` RING_PERIODS = (b + 1) `mod` RING_PERIODS)%nat.
Proof.
  unfold dist. intros Ha Hb. replace (a + S ((b + RING_PERIODS - a) `mod` RING_PERIODS))%nat
    with ((b + RING_PERIODS - a) `mod` RING_PERIODS + (a + 1))%nat by lia.
  rewrite Nat.Div0.add_mod_idemp_l.
  replace (b + RING_PERIODS - a + (a + 1))%nat with (b + 1 + 1 * RING_PERIODS)%nat by lia.
  apply Nat.Div0.mod_add.
Qed.

(** The mixer's books and the engine belong together, and every period that was mixed was
    heard or waits in the ring. *)
Record linked (m : Mixer) (e : Engine) (log : list (list Z)) : Prop := {
  lk_engine : engine_ok e;
  lk_queue : e_heard e ++ pend e = concat log;
  lk_idle : running (dma m) = false -> e_running e = false;
  lk_run : running (dma m) = true ->
    write_idx (dma m) = ((e_lvi e + 1) `mod` RING_PERIODS)%nat /\
    queued (dma m) = S (dist (last_civ (dma m)) (e_lvi e)) /\
    (dist (last_civ (dma m)) (e_civ e) <= dist (last_civ (dma m)) (e_lvi e))%nat;
}.

Lemma tick_linked m e log : mixer_ok m -> linked m e log -> linked m (engine_tick e) log.
Proof.
  intros Hok [He Hq Hi Hr]. destruct (tick_spec e He) as (He' & Hh & Hp).
  split; [done|by rewrite Hh, Hp, <- app_assoc, take_drop| |].
  - intros Hn. specialize (Hi Hn). unfold engine_tick. by rewrite Hi.
  - intros Hy. destruct (Hr Hy) as (Hw & Hqd & Hd). pose proof (do_civ _ (mo_dma _ Hok)).
    unfold engine_tick. destruct (e_running e); [|done].
    destruct (_ <? _)%nat; [done|]. destruct (_ =? _)%nat eqn:E; [done|]. apply Nat.eqb_neq in E.
    cbn [e_civ e_lvi]. split; [done|]. split; [done|].
    assert (dist (last_civ (dma m)) (e_civ e) <> dist (last_civ (dma m)) (e_lvi e)).
    { intros Heq. pose proof (dist_sub (last_civ (dma m)) (e_civ e) (e_lvi e)) as Hs.
      rewrite Heq, Nat.sub_diag in Hs. specialize (Hs ltac:(done) (eo_civ _ He) (eo_lvi _ He) ltac:(lia)).
      pose proof (dist_step _ _ (eo_civ _ He) (eo_lvi _ He) E). lia. }
    pose proof (dist_lt (last_civ (dma m)) (e_lvi e)).
    rewrite dist_succ by (first [done | apply He | lia]). lia.
Qed.

Lemma concat_cons_app {A} (x : list A) l k n :
  (n <= length x)%nat -> drop n (concat ((x :: l) ++ k)) = drop n (concat (x :: l)) ++ concat k.
Proof.
  intros Hn. rewrite concat_app. cbn [concat]. rewrite drop_app_le; [done|]. rewrite length_app. lia.
Qed.
Section Playback.
Context `{Card H}.
Implicit Types (h : H) (log : list (list Z)).

Lemma fill_hw_spec n m h log base k :
  engine_ok (engine h) -> (base < RING_PERIODS)%nat -> (k + n < RING_PERIODS)%nat ->
  write_idx (dma m) = ((base + k) `mod` RING_PERIODS)%nat ->
  exists h' rows,
    fill_hw n m (h, log) = (h', log ++ periods n m) /\
    let e := engine h in
    engine h' = mkEngine rows (e_civ e) (e_lvi e) (e_running e) (e_pos e) (e_heard e) /\
    length rows = RING_PERIODS /\ Forall (fun s => length s = PERIOD_SAMPLES) rows /\
    ring RING_PERIODS rows base (k + n) = ring RING_PERIODS (e_ring e) base k ++ periods n m.
Proof.
  revert m h log k. induction n as [|n IH]; intros m h log k He Hb Hk Hw.
  { exists h, (e_ring (engine h)). cbn [fill_hw periods]. rewrite Nat.add_0_r, !app_nil_r.
    split; [done|]. split; [by destruct (engine h)|]. split; [apply He|]. split; [apply He|done]. }
  cbn [fill_hw periods]. cbn [write_period recorder fst snd].
  set (s := flatten (period_of m)). assert (Hs : length s = PERIOD_SAMPLES) by apply period_length.
  assert (Hlt : (write_idx (dma m) < RING_PERIODS)%nat) by (rewrite Hw; apply mod_32).
  pose proof (card_write _ s h Hs Hlt) as Hcw.
  destruct (IH (filled m) (write_period (write_idx (dma m)) s h) (log ++ [s]) (S k))
    as (h' & rows & Hrun & Heng & Hl & Hrows & Hring); [|done|lia| |].
  - rewrite Hcw. destruct He. split; simpl; try done; [by rewrite length_insert|by apply Forall_insert].
  - rewrite filled_dma. cbn [write_idx]. rewrite Hw, Nat.Div0.add_mod_idemp_l. f_equal. lia.
  - rewrite Hcw in Heng, Hring. exists h', rows. rewrite Hrun, <- app_assoc. split; [done|].
    split; [exact Heng|]. split; [done|]. split; [done|].
    replace (k + S n)%nat with (S k + n)%nat by lia. rewrite Hring. cbn [engine_write e_ring].
    rewrite Hw, ring_push by (first [apply ring_32 | apply He | lia]). by rewrite <- app_assoc.
Qed.

(** The cold start: what was heard stays, the new periods are pending. *)
Lemma cold_start_linked m h log :
  mixer_ok m -> linked m (engine h) log -> e_running (engine h) = false ->
  exists m' h',
    cold_start m (h, log) = Done (m', (h', log ++ periods START_PREFILL (reset_dma m))) /\
    mixer_ok m' /\ linked m' (engine h') (log ++ periods START_PREFILL (reset_dma m)) /\
    e_running (engine h') = true /\ dist (e_civ (engine h')) (e_lvi (engine h')) = 2%nat /\
    e_pos (engine h') = 0%nat /\ hw_underruns (dma m') = hw_underruns (dma m).
Proof.
  intros Hok [He Hq _ _] Hstop.
  destruct (cold_start_spec m (h, log) Hok) as [Hrun Hok'].
  destruct (fill_hw_spec START_PREFILL (reset_dma m) h log 0 0 He) as (h1 & rows & Hfill & Heng & Hl & Hrows & Hring);
    [apply ring_32|unfold START_PREFILL, RING_PERIODS; lia|done|].
  destruct (iter_filled_dma START_PREFILL (reset_dma m)) as [w Hd]; [simpl; unfold RING_PERIODS; lia|].
  rewrite Hfill in Hrun. set (m1 := Nat.iter START_PREFILL filled (reset_dma m)) in *. cbv zeta in Hd.
  assert (Hlast : last_written m1 = 2%nat) by (unfold last_written; rewrite Hd; done).
  eexists _, (ring_start 2 h1). split; [rewrite Hrun, Hlast; reflexivity|]. split; [done|].
  rewrite card_start, Heng. unfold engine_start. cbn [e_ring e_running e_civ e_lvi e_pos e_heard].
  assert (Hu : hw_underruns (dma (set_dma (start_dma (dma m1)) m1)) = hw_underruns (dma m))
    by (cbn [dma set_dma start_dma hw_underruns]; by rewrite Hd).
  split; [|by rewrite Hu]. unfold pend in Hq. rewrite Hstop, app_nil_r in Hq.
  split.
  - split; simpl; try done; try (unfold RING_PERIODS; lia). pose proof period_frames. lia.
  - unfold pend. cbn [e_running e_ring e_civ e_lvi e_pos e_heard].
    change (S (dist 0 2)) with (0 + START_PREFILL)%nat. rewrite Hring.
    cbn [Nat.mul]. change (ring _ _ 0 0) with (@nil (list Z)).
    by rewrite drop_0, app_nil_l, concat_app, Hq.
  - done.
  - intros _. cbn [dma set_dma start_dma write_idx queued last_civ e_civ e_lvi]. rewrite Hd.
    split; [done|]. split; [done|]. change (dist _ 0) with 0%nat. lia.
Qed.

(** Six periods ahead of the card, the last one written is the fifth after the current. *)
Lemma last_written_ahead m c :
  (c < RING_PERIODS)%nat -> write_idx (dma m) = ((c + 6) `mod` RING_PERIODS)%nat ->
  last_written m = ((c + 5) `mod` RING_PERIODS)%nat /\ dist c (last_written m) = 5%nat.
Proof.
  intros Hc Hwi.
  assert (Hlw : last_written m = ((c + 5) `mod` RING_PERIODS)%nat).
  { unfold last_written. rewrite Hwi, <- Nat.add_sub_assoc, Nat.Div0.add_mod_idemp_l
      by (unfold RING_PERIODS; lia).
    replace (c + 6 + (RING_PERIODS - 1))%nat with (c + 5 + 1 * RING_PERIODS)%nat
      by (unfold RING_PERIODS; lia).
    apply Nat.Div0.mod_add. }
  split; [done|]. rewrite Hlw. unfold dist, RING_PERIODS in *.
  Z.to_euclidean_division_equations. lia.
Qed.

(** Topping up while the card plays: the new periods follow those in the ring. *)
Lemma topup_linked m h log :
  let e := engine h in
  mixer_ok m -> linked m e log -> running (dma m) = true -> e_running e = true ->
  last_civ (dma m) = e_civ e ->
  exists m' h' log',
    ('(m, h) ← fill_loop (TARGET_AHEAD - queued (dma m)) m (h, log);
     Done (m, ring_set_lvi (last_written m) h)) = Done (m', (h', log')) /\
    mixer_ok m' /\ linked m' (engine h') log' /\ e_running (engine h') = true /\
    2879 < Z.of_nat (length (pend (engine h'))) /\ hw_underruns (dma m') = hw_underruns (dma m).
Proof.
  intros e Hok Hlk Hrun He' Hlast. destruct (lk_run _ _ _ Hlk Hrun) as (Hw & Hqd & _).
  pose proof (lk_engine _ _ _ Hlk) as He. rewrite Hlast in Hqd.
  pose proof (do_queued _ (mo_dma _ Hok)) as Hq6. pose proof (eo_civ _ He). pose proof (eo_lvi _ He).
  assert (Hwq : write_idx (dma m) = ((e_civ e + queued (dma m)) `mod` RING_PERIODS)%nat)
    by (by rewrite Hw, Hqd, dist_add).
  set (n := (TARGET_AHEAD - queued (dma m))%nat).
  destruct (ring_fill_spec n m (h, log) Hok) as [Hfill Hok']; [lia|].
  destruct (fill_hw_spec n m h log (e_civ e) (queued (dma m)) He) as (h1 & rows & Hhw & Heng & Hl & Hrows & Hring);
    [done|unfold n, TARGET_AHEAD, RING_PERIODS in *; lia|done|].
  cbv zeta in Heng, Hring. fold e in Heng, Hring.
  destruct (iter_filled_dma n m) as [w Hd]; [apply Hok|]. cbv zeta in Hd.
  rewrite Hfill, Hhw. osimpl. set (m' := Nat.iter n filled m) in *.
  assert (Hn : (queued (dma m) + n = TARGET_AHEAD)%nat) by lia.
  assert (Hwi : write_idx (dma m') = ((e_civ e + 6) `mod` RING_PERIODS)%nat).
  { rewrite Hd. cbn [write_idx]. rewrite Hwq, Nat.Div0.add_mod_idemp_l. f_equal.
    unfold TARGET_AHEAD in *. lia. }
  destruct (last_written_ahead m' (e_civ e)) as [Hlw Hdist]; [done..|].
  assert (Hlt : (last_written m' < RING_PERIODS)%nat) by apply mod_32.
  eexists m', (ring_set_lvi (last_written m') h1), _. split; [reflexivity|]. split; [done|].
  rewrite card_set_lvi, Heng. unfold engine_set_lvi. cbn [e_ring e_running e_civ e_lvi e_pos e_heard].
  fold e. rewrite He'.
  assert (He1 : engine_ok (mkEngine rows (e_civ e) (last_written m') true (e_pos e) (e_heard e)))
    by (destruct He; by split).
  split; [|split; [done|split]].
  - split; [done| |intros Hf; rewrite Hd in Hf; cbn [running] in Hf; congruence|].
    + unfold pend. cbn [e_ring e_running e_civ e_lvi e_pos e_heard]. rewrite Hdist.
      change 6%nat with TARGET_AHEAD. rewrite <- Hn, Hring, Hqd.
      destruct (rows_cons e (dist (e_civ e) (e_lvi e)) He) as [Hc Hlen]. rewrite Hc.
      pose proof (eo_pos _ He). rewrite concat_cons_app by (unfold PERIOD_SAMPLES in *; lia).
      rewrite <- Hc. cbn [snd]. rewrite concat_app, <- (lk_queue _ _ _ Hlk), app_assoc. unfold pend. by rewrite He'.
    + intros _. cbn [e_civ e_lvi]. rewrite Hwi, Hlw, Hd. cbn [queued last_civ]. rewrite <- Hlw.
      rewrite Hlast, Hdist, Hn, dist_same by done. split; [|split; [done|lia]].
      rewrite Hlw, Nat.Div0.add_mod_idemp_l. f_equal. lia.
  - pose proof (pend_length _ He1 eq_refl) as Hlen. cbn [e_civ e_lvi e_pos] in Hlen. rewrite Hdist in Hlen.
    pose proof (eo_pos _ He). pose proof period_frames. unfold PERIOD_SAMPLES in Hlen. lia.
  - by rewrite Hd.
Qed.

(** A card that has halted is started again with three periods. *)
Lemma cold_linked m h log :
  mixer_ok m -> linked m (engine h) log -> e_running (engine h) = false ->
  exists m' h' log', cold_start m (h, log) = Done (m', (h', log')) /\ mixer_ok m' /\
    linked m' (engine h') log' /\ e_running (engine h') = true /\
    2879 < Z.of_nat (length (pend (engine h'))).
Proof.
  intros Hok Hlk Hst.
  destruct (cold_start_linked m h log Hok Hlk Hst) as (m' & h' & Hrun & Hm' & Hlk' & Hr & Hd & Hpos & _).
  eexists m', h', _. split; [exact Hrun|]. split; [done|]. split; [done|]. split; [done|].
  pose proof (pend_length _ (lk_engine _ _ _ Hlk') Hr) as Hlen. rewrite Hd, Hpos in Hlen.
  pose proof period_frames. unfold PERIOD_SAMPLES in Hlen. lia.
Qed.

(** What a tick finds on a card that was started: the queue is what the card still has, or
    nothing if it has halted. *)
Lemma account_linked m e log r act :
  mixer_ok m -> linked m e log -> running (dma m) = true ->
  account (e_civ e) (negb r) act (dma m) =
  if r then mkDma true (write_idx (dma m)) (S (dist (e_civ e) (e_lvi e))) (e_civ e)
              (hw_underruns (dma m)) (restarts (dma m)) (periods_written (dma m))
  else mkDma false (write_idx (dma m)) 0 (e_civ e)
         (if act then hw_underruns (dma m) +₃₂ 1 else hw_underruns (dma m))
         (restarts (dma m)) (periods_written (dma m)).
Proof.
  intros Hok Hlk Erun. destruct (lk_run _ _ _ Hlk Erun) as (_ & Hqd & Hd).
  pose proof (do_civ _ (mo_dma _ Hok)). pose proof (lk_engine _ _ _ Hlk) as He.
  unfold account. fold (dist (last_civ (dma m)) (e_civ e)).
  assert ((queued (dma m) <? dist (last_civ (dma m)) (e_civ e))%nat = false) as -> by (apply Nat.ltb_ge; lia).
  rewrite Hqd, Erun, Nat.sub_succ_l by done.
  rewrite dist_sub by (first [done | apply He]). by destruct r.
Qed.

(** A tick: the pump returns, and every period it mixed is pending behind the others. After
    a tick with something to play, at least three periods are ahead of the card. *)
Lemma pump_linked m h log :
  mixer_ok m -> linked m (engine h) log ->
  exists m' h' log', pump m (h, log) = Done (m', (h', log')) /\ mixer_ok m' /\
    linked m' (engine h') log' /\
    ((present h).1 = true -> has_activity m = true ->
     e_running (engine h') = true /\ (2879 < Z.of_nat (length (pend (engine h')))) /\
     (e_running (engine h) = true -> hw_underruns (dma m') = hw_underruns (dma m))).
Proof.
  intros Hok Hlk. unfold pump. cbn [present recorder].
  pose proof (card_present h) as Hp. cbn [fst]. destruct (present h) as [[] h1]; cbn [fst snd] in *; cbn [negb].
  2: { exists m, h1, log. rewrite Hp. split; [done|]. split; [done|]. by split. }
  rewrite <- Hp in Hlk. destruct (running (dma m)) eqn:Erun.
  2: { pose proof (lk_idle _ _ _ Hlk Erun) as Hst. destruct (has_activity m) eqn:Eact; cbn [negb].
       - destruct (cold_linked m h1 log Hok Hlk Hst) as (m' & h' & log' & ? & ? & ? & ? & ?).
         exists m', h', log'. rewrite <- Hp. split; [done|]. split; [done|]. split; [done|].
         intros _ _. split; [done|]. split; [done|]. congruence.
       - exists m, h1, log. split; [done|]. split; [done|]. split; [done|]. done. }
  (* the card is playing, or was *)
  cbn [ring_civ ring_running recorder fst snd].
  destruct (card_civ h1) as [Hc1 Hc2]. destruct (ring_civ h1) as [c h2]. cbn [fst snd] in *. subst c.
  cbn [ring_running recorder fst snd].
  destruct (card_running h2) as [Hr1 Hr2]. destruct (ring_running h2) as [r h3]. cbn [fst snd] in *.
  assert (E3 : engine h3 = engine h1) by congruence. rewrite Hc2, <- E3 in Hr1.
  rewrite <- Hp, <- E3. rewrite <- E3 in Hlk.
  destruct (lk_run _ _ _ Hlk Erun) as (Hw & Hqd & Hd).
  pose proof (lk_engine _ _ _ Hlk) as He. pose proof (do_civ _ (mo_dma _ Hok)) as Hciv.
  rewrite Z.mod_small, Nat2Z.id by (pose proof (eo_civ _ He); lia).
  set (e := engine h3) in *.
  pose proof (fun act => account_linked m e log r act Hok Hlk Erun) as Hacc.
  rewrite Hacc. set (m1 := set_dma _ m).
  assert (Hm1 : mixer_ok m1).
  { unfold m1. rewrite <- (Hacc (has_activity m)). apply set_dma_ok; [done|].
    apply audio_account_ok; [apply He|apply Hok]. }
  destruct r; cbn [negb].
  - (* still playing *)
    destruct (has_activity m) eqn:Eact.
    + destruct (topup_linked m1 h3 log Hm1) as (m' & h' & log' & Hrun & Hm' & Hlk' & ? & ? & Hu); try done.
      { split; [done|apply Hlk|done|]. intros _. cbn [m1 dma set_dma write_idx queued last_civ].
        rewrite dist_same by apply He. split; [done|]. split; [done|lia]. }
      exists m', h', log'. split; [exact Hrun|]. split; [done|]. split; [done|]. done.
    + exists m1, h3, log. split; [done|]. split; [done|]. split; [|done].
      destruct Hlk as [_ Hlq _ _]. split; [done|done|done|]. intros _. cbn [m1 dma set_dma write_idx queued last_civ].
      rewrite dist_same by apply He. split; [done|]. split; [done|lia].
  - assert (Hlk1 : linked m1 (engine h3) log).
    { destruct Hlk as [_ Hlq _ _]. split; [done|done|by intros _|done]. }
    destruct (has_activity m) eqn:Eact; cbn [negb].
    + destruct (cold_linked m1 h3 log Hm1 Hlk1 ltac:(done)) as (m' & h' & log' & ? & ? & ? & ? & ?).
      exists m', h', log'. split; [done|]. split; [done|]. split; [done|].
      intros _ _. split; [done|]. split; [done|]. fold e. congruence.
    + exists m1, h3, log. split; [done|]. split; [done|]. split; [done|done].
Qed.
End Playback.

(** ** The simulated card of the tests *)

(** [MockHw] of [src/kernel/rust/mixer.rs]: besides the engine it counts what the tests look
    at. *)
Record MockHw : Type := mkMock {
  mk_present : bool;
  mk_ring : list (list Z);
  mk_fresh : list bool;
  mk_civ : nat;
  mk_lvi : nat;
  mk_running : bool;
  mk_pos : nat;
  mk_heard : list Z;
  mk_starts : Z;
  mk_stale_starts : Z;
  mk_stops : Z;
}.

Definition MockHw_new : MockHw :=
  mkMock true (replicate RING_PERIODS (replicate PERIOD_SAMPLES 0)) (replicate RING_PERIODS false)
    0 0 false 0 [] 0 0 0.

(** One round of [consume]: at most the rest of a descriptor is played. *)
Definition consume_round (n : nat) (hw : MockHw) : MockHw :=
  let c := mk_civ hw in
  let stale := if (mk_pos hw =? 0)%nat && negb (mk_fresh hw !!! c)
               then mk_stale_starts hw +₃₂ 1 else mk_stale_starts hw in
  let fresh := if (mk_pos hw =? 0)%nat then <[c := false]> (mk_fresh hw) else mk_fresh hw in
  let heard := mk_heard hw ++ take (n * 2) (drop (mk_pos hw * 2) (mk_ring hw !!! c)) in
  let pos := (mk_pos hw + n)%nat in
  let '(pos, civ, run) :=
    if (pos =? PERIOD_FRAMES)%nat then
      if (c =? mk_lvi hw)%nat then (0%nat, c, false)
      else (0%nat, ((c + 1) `mod` RING_PERIODS)%nat, true)
    else (pos, c, true) in
  mkMock (mk_present hw) (mk_ring hw) fresh civ (mk_lvi hw) run pos heard (mk_starts hw) stale
    (mk_stops hw).

(** The loop of [consume]; every round plays a frame or more. *)
Fixpoint consume_loop (fuel left : nat) (hw : MockHw) : MockHw :=
  match fuel with
  | O => hw
  | S fuel' =>
      if (0 <? left)%nat && mk_running hw then
        let n := (left `min` (PERIOD_FRAMES - mk_pos hw))%nat in
        consume_loop fuel' (left - n) (consume_round n hw)
      else hw
  end.

Definition consume (frames : nat) (hw : MockHw) : MockHw := consume_loop frames frames hw.

#[export] Instance MockHw_Hw : Hw MockHw := {|
  present hw := (mk_present hw, hw);
  ring_start lvi hw :=
    mkMock (mk_present hw) (mk_ring hw) (mk_fresh hw) 0 lvi true 0 (mk_heard hw) (mk_starts hw +₃₂ 1)
      (mk_stale_starts hw) (mk_stops hw);
  ring_stop hw :=
    mkMock (mk_present hw) (mk_ring hw) (mk_fresh hw) (mk_civ hw) (mk_lvi hw) false (mk_pos hw)
      (mk_heard hw) (mk_starts hw) (mk_stale_starts hw) (mk_stops hw +₃₂ 1);
  ring_civ hw := (Z.of_nat (mk_civ hw), hw);
  ring_running hw := (mk_running hw, hw);
  ring_set_lvi idx hw :=
    mkMock (mk_present hw) (mk_ring hw) (mk_fresh hw) (mk_civ hw) idx (mk_running hw) (mk_pos hw)
      (mk_heard hw) (mk_starts hw) (mk_stale_starts hw) (mk_stops hw);
  write_period idx s hw :=
    mkMock (mk_present hw) (<[idx := s]> (mk_ring hw)) (<[idx := true]> (mk_fresh hw)) (mk_civ hw)
      (mk_lvi hw) (mk_running hw) (mk_pos hw) (mk_heard hw) (mk_starts hw) (mk_stale_starts hw)
      (mk_stops hw);
|}.

Definition mock_engine (hw : MockHw) : Engine :=
  mkEngine (mk_ring hw) (mk_civ hw) (mk_lvi hw) (mk_running hw) (mk_pos hw) (mk_heard hw).

(** The frames up to the end of a descriptor. *)
Lemma ticks_in_row n e :
  e_running e = true -> engine_ok e -> (e_pos e + n < PERIOD_FRAMES)%nat ->
  Nat.iter n engine_tick e =
  mkEngine (e_ring e) (e_civ e) (e_lvi e) true (e_pos e + n)
    (e_heard e ++ take (n * 2) (drop (e_pos e * 2) (e_ring e !!! e_civ e))).
Proof.
  intros Hrun Hok. induction n as [|n IH]; intros Hn.
  - simpl. rewrite app_nil_r, Nat.add_0_r. destruct e; simpl in *. by rewrite Hrun.
  - change (Nat.iter (S n) engine_tick e) with (engine_tick (Nat.iter n engine_tick e)).
    rewrite IH by lia. unfold engine_tick. cbn [e_running e_pos e_heard e_ring e_civ e_lvi].
    assert ((S (e_pos e + n) <? PERIOD_FRAMES)%nat = true) as -> by (apply Nat.ltb_lt; lia).
    f_equal; [lia|]. rewrite <- app_assoc. f_equal.
    replace ((e_pos e + n) * 2)%nat with (e_pos e * 2 + n * 2)%nat by lia.
    rewrite <- drop_drop, take_take_drop. f_equal. lia.
Qed.

Lemma round_ticks n hw :
  mk_running hw = true -> engine_ok (mock_engine hw) -> (0 < n <= PERIOD_FRAMES - mk_pos hw)%nat ->
  mock_engine (consume_round n hw) = Nat.iter n engine_tick (mock_engine hw).
Proof.
  intros Hrun Hok Hn. unfold consume_round. destruct (mk_pos hw + n =? PERIOD_FRAMES)%nat eqn:E.
  - apply Nat.eqb_eq in E. destruct n as [|n]; [lia|].
    change (Nat.iter (S n) engine_tick (mock_engine hw))
      with (engine_tick (Nat.iter n engine_tick (mock_engine hw))).
    rewrite ticks_in_row by (first [done | simpl; lia]). unfold engine_tick, mock_engine.
    cbn [e_running e_pos e_heard e_ring e_civ e_lvi].
    assert ((S (mk_pos hw + n) <? PERIOD_FRAMES)%nat = false) as -> by (apply Nat.ltb_ge; lia).
    assert (Ht : take (S n * 2) (drop (mk_pos hw * 2) (mk_ring hw !!! mk_civ hw)) =
              take (n * 2) (drop (mk_pos hw * 2) (mk_ring hw !!! mk_civ hw)) ++
              take 2 (drop ((mk_pos hw + n) * 2) (mk_ring hw !!! mk_civ hw))).
    { replace ((mk_pos hw + n) * 2)%nat with (mk_pos hw * 2 + n * 2)%nat by lia.
      rewrite <- drop_drop, take_take_drop. f_equal. lia. }
    rewrite Ht, app_assoc. by destruct (mk_civ hw =? mk_lvi hw)%nat.
  - apply Nat.eqb_neq in E. rewrite ticks_in_row by (first [done | simpl; lia]). done.
Qed.

Lemma iter_halted n e : e_running e = false -> Nat.iter n engine_tick e = e.
Proof.
  intros Hrun. induction n as [|n IH]; [done|].
  change (Nat.iter (S n) engine_tick e) with (engine_tick (Nat.iter n engine_tick e)).
  rewrite IH. unfold engine_tick. by rewrite Hrun.
Qed.

Lemma consume_spec fuel left hw :
  (left <= fuel)%nat -> engine_ok (mock_engine hw) ->
  mock_engine (consume_loop fuel left hw) = Nat.iter left engine_tick (mock_engine hw).
Proof.
  revert left hw. induction fuel as [|fuel IH]; intros left hw Hf Hok; cbn [consume_loop].
  { assert (left = 0%nat) as -> by lia. done. }
  destruct (mk_running hw) eqn:Hrun; [|by rewrite andb_false_r, iter_halted].
  destruct left as [|l]; [done|]. rewrite andb_true_r. cbn [Nat.ltb Nat.leb].
  pose proof (eo_pos _ Hok) as Hpos. simpl in Hpos.
  set (n := (S l `min` (PERIOD_FRAMES - mk_pos hw))%nat).
  assert (Hr : mock_engine (consume_round n hw) = Nat.iter n engine_tick (mock_engine hw))
    by (apply round_ticks; (done || lia)).
  rewrite IH by (first [lia | rewrite Hr; by apply run_spec]).
  rewrite Hr, <- Nat.iter_add. f_equal. lia.
Qed.

#[export] Instance MockHw_Card : Card MockHw.
Proof.
  refine {| engine := mock_engine; elapse := consume |}; try done.
  intros n h Hok. by apply consume_spec.
Defined.

(** The card when the machine starts. *)
Lemma mock_new_ok : engine_ok (mock_engine MockHw_new).
Proof.
  pose proof period_frames.
  split; cbn [mock_engine MockHw_new mk_ring mk_civ mk_lvi mk_pos e_ring e_civ e_lvi e_pos];
    [apply length_replicate| |apply ring_32|apply ring_32|lia].
  apply Forall_replicate. apply length_replicate.
Qed.
