(* ===== verification/MixerCalls.v ===== *)
(** * Audio: the calls

    With any card, every call returns, keeps the invariant, passes the self-check and leaves
    alone what is not the caller's; and the tap holds the end of what was mixed. *)

From stdpp Require Import strings.
From S2P Require Import Prelude Ring Mixer MixerStream MixerInv MixerMix MixerCard.
Local Open Scope Z_scope.
Local Open Scope machine_scope.

(** ** The self-check *)

Lemma check_stream_ok s : slot_ok s -> check_stream s = Done (Ok tt).
Proof.
  intros Hs. unfold check_stream. destruct (in_use (life s)) eqn:Hu; [|done]. cbn [negb].
  destruct (sl_used _ Hs Hu) as (Hst & Ho & Hg & _). pose proof (so_buf _ Hst) as Hb.
  pose proof (so_rate _ Hst). pose proof (so_volume _ Hst). pose proof (so_phase _ Hst).
  assert (Hch : negb (channels (format s) =? 1)%nat && negb (channels (format s) =? 2)%nat = false)
    by (destruct (bo_ch _ _ Hb) as [-> | ->]; done).
  rewrite Hch, orb_false_r. assert (owner (life s) <=? 0 = false) as -> by lia.
  assert (Hstep : wrap32 (Z.shiftl (rate (format s)) 16) = rate (format s) * 65536).
  { rewrite Z.shiftl_mul_pow2 by lia. apply wrap32_id. unfold is_u32, MIN_RATE, MAX_RATE in *. lia. }
  rewrite Hstep, <- (so_step _ Hst), Z.eqb_refl. cbn [negb]. rewrite orb_false_r.
  assert ((rate (format s) <? MIN_RATE) || (MAX_RATE <? rate (format s)) = false) as -> by lia.
  assert (UNITY <? volume (format s) = false) as -> by lia.
  rewrite capacity_spec by apply Hb. osimpl.
  assert ((cap_of (channels (format s)) <? count (buffer s))%nat
          || (cap_of (channels (format s)) <=? read (buffer s))%nat = false) as ->.
  { pose proof (bo_count _ _ Hb). pose proof (bo_read _ _ Hb). lia. }
  assert (65536 <=? phase (resampler s) = false) as -> by lia.
  by assert (gen (life s) =? 0 = false) as -> by lia.
Qed.

Lemma check_streams_ok ss : Forall slot_ok ss -> check_streams ss = Done (Ok tt).
Proof.
  induction 1 as [|s ss Hs _ IH]; [done|]. cbn [check_streams]. rewrite check_stream_ok by done.
  osimpl. exact IH.
Qed.

Lemma audio_check_ok m : mixer_ok m -> check_counts m = Done (Ok tt).
Proof.
  intros Hok. unfold check_counts. pose proof (mo_master _ Hok).
  assert (UNITY <? master_cut m = false) as -> by lia.
  destruct (mo_dma _ Hok) as [Hw Hq Hc]. unfold TARGET_AHEAD in Hq.
  assert ((RING_PERIODS <? queued (dma m))%nat || (RING_PERIODS <=? write_idx (dma m))%nat
          || (RING_PERIODS <=? last_civ (dma m))%nat = false) as -> by (unfold RING_PERIODS in *; lia).
  assert ((TAP_FRAMES <=? tap_pos m)%nat = false) as ->.
  { pose proof (mo_tap_pos _ Hok). apply Nat.leb_gt. lia. }
  rewrite check_streams_ok by apply Hok. osimpl. unfold check_owners.
  assert (existsb (fun s => in_use (life s) && (MAX_STREAMS_PER_PROC <? countb (of_pid (owner (life s)))
            (streams m))%nat) (streams m) = false) as ->; [|done].
  apply not_true_iff_false. rewrite existsb_exists. intros (s & _ & Hs).
  pose proof (mo_limit _ Hok (owner (life s))). lia.
Qed.

(** ** One call *)

#[export] Instance call_eq_dec : EqDecision call.
Proof. solve_decision. Defined.

(** Arguments at their width. *)
Definition call_ok (c : call) : Prop :=
  match c with
  | Open pid ch r flags vol => 0 <= vol
  | Write pid handle samples => 0 <= handle /\ Forall is_i16 samples
  | Close pid handle flags => 0 <= handle
  | Ctl pid uid op handle arg arg2 => 0 <= handle /\ 0 <= arg
  | Tap uid buf frames => 0 <= frames
  | Beep | Tick | Exit _ | Selftest => True
  end.

(** The process on whose behalf a call works on streams, and whether it is the
    superuser's. *)
Definition caller (c : call) : option Z :=
  match c with
  | Open pid _ _ _ _ | Write pid _ _ | Close pid _ _ | Ctl pid _ _ _ _ _ | Exit pid => Some pid
  | _ => None
  end.

Definition by_root (c : call) : bool :=
  match c with
  | Ctl _ uid _ _ _ _ | Tap uid _ _ => uid =? 0
  | _ => false
  end.

(** What a call leaves alone, unless it is a tick. *)
Record quiet (c : call) (m m' : Mixer) : Prop := {
  q_dma : dma m' = dma m;
  q_tap : tap m' = tap m;
  q_tap_pos : tap_pos m' = tap_pos m;
  q_mixed : mixed_frames m' = mixed_frames m;
  q_others : forall slot s, streams m !! slot = Some s -> in_use (life s) = true ->
    caller c <> Some (owner (life s)) -> streams m' !! slot = Some s;
  q_master : by_root c = false -> master_cut m' = master_cut m /\ muted m' = muted m;
}.

Lemma quiet_refl c m : quiet c m m.
Proof. by split. Qed.

Lemma put_quiet c m slot s s' :
  streams m !! slot = Some s -> (in_use (life s) = true -> caller c = Some (owner (life s))) ->
  quiet c m (put slot s' m).
Proof.
  intros Hs Hc. split; try done. intros j t Ht Hu Hn. simpl.
  rewrite list_lookup_insert_ne; [done|]. intros ->. simplify_eq. by apply Hn, Hc.
Qed.

(** A call on a stream is sound if its function keeps sound streams sound. *)
Lemma on_stream_ok {A} c m pid handle (f : Stream -> result A Z * Stream) run :
  mixer_ok m -> caller c = Some pid -> on_stream m pid handle f run ->
  (forall s, slot_ok s -> in_use (life s) = true -> closing (life s) = false ->
     slot_ok (f s).2 /\ owner (life (f s).2) = owner (life s)) ->
  exists x m', run = Done (x, m') /\ mixer_ok m' /\ quiet c m m'.
Proof.
  intros Hok Hc Hon Hf. destruct Hon as [(slot & s & Hl & ->)|[_ ->]].
  - destruct (live_slot _ _ _ _ _ Hok Hl) as (Hat & Hs & _ & Hu & Ho & Hcl).
    destruct (Hf s Hs Hu Hcl) as [Hs' Ho'].
    eexists _, _. split; [reflexivity|]. split.
    + by apply (put_ok m slot s).
    + apply (put_quiet _ _ _ s); [done|]. intros _. by rewrite Ho.
  - eexists _, m. split; [reflexivity|]. split; [done|apply quiet_refl].
Qed.

Lemma write_keeps samples s :
  Forall is_i16 samples -> slot_ok s -> in_use (life s) = true -> closing (life s) = false ->
  slot_ok (write_fn samples s).2 /\ owner (life (write_fn samples s).2) = owner (life s).
Proof.
  intros Hsm Hs Hu Hc. destruct (sl_used _ Hs Hu) as (Hst & _).
  pose proof (write_fn_spec samples s Hst Hsm) as Hw. cbv zeta in Hw.
  destruct (write_fn samples s) as [r s']. destruct Hw as (Hst' & Hl & _). simpl.
  split; [|by rewrite Hl]. apply (used_ok s _ Hs Hu Hst'); rewrite Hl; [done|done|congruence].
Qed.

Lemma close_keeps flags s :
  slot_ok s -> in_use (life s) = true -> closing (life s) = false ->
  slot_ok (close_fn flags s).2 /\ owner (life (close_fn flags s).2) = owner (life s).
Proof.
  intros Hs Hu Hc. destruct (sl_used _ Hs Hu) as (Hst & _). unfold close_fn. cbn [snd].
  destruct (_ || drained s || paused (life s)) eqn:E; [by split; [apply freed_ok|]|].
  apply orb_false_iff in E as [_ Hp]. split; [|done].
  apply (used_ok s _ Hs Hu); try done. destruct Hst. by split.
Qed.

Lemma volume_keeps v s :
  0 <= v -> slot_ok s -> in_use (life s) = true -> closing (life s) = false ->
  slot_ok (volume_fn v s).2 /\ owner (life (volume_fn v s).2) = owner (life s).
Proof.
  intros Hv Hs Hu Hc. destruct (sl_used _ Hs Hu) as (Hst & _ & _ & Hp). unfold volume_fn.
  destruct (UNITY <? v) eqn:E; [done|]. split; [|done]. apply (used_ok s _ Hs Hu); try done.
  destruct Hst. split; try done. simpl. lia.
Qed.

Lemma paused_keeps p s :
  slot_ok s -> in_use (life s) = true -> closing (life s) = false ->
  slot_ok (with_paused p s) /\ owner (life (with_paused p s)) = owner (life s).
Proof.
  intros Hs Hu Hc. destruct (sl_used _ Hs Hu) as (Hst & _). split; [|done].
  apply (used_ok s _ Hs Hu); try done; [destruct Hst; by split|]. simpl. congruence.
Qed.

Lemma flush_keeps s :
  slot_ok s -> in_use (life s) = true -> closing (life s) = false ->
  slot_ok (flushed s) /\ owner (life (flushed s)) = owner (life s).
Proof.
  intros Hs Hu Hc. destruct (sl_used _ Hs Hu) as (Hst & _). split; [|done].
  apply (used_ok s _ Hs Hu); try done; [by apply flushed_ok|]. simpl. congruence.
Qed.

Lemma stat_ok m pid handle :
  mixer_ok m -> 0 <= handle -> exists x, stream_stat pid handle m = Done x.
Proof.
  intros Hok Hh. unfold stream_stat.
  destruct (lookup_any_spec m pid handle Hok Hh) as [(slot & s & (Hs & Hu & _) & ->)|[_ ->]]; osimpl.
  - oindex Hs. destruct (sl_used _ (Forall_lookup_1 _ _ _ _ (mo_slots _ Hok) Hs) Hu) as (Hst & _).
    rewrite capacity_spec by apply Hst. osimpl. eauto.
  - eauto.
Qed.

Ltac done_call Hq := destruct Hq as (? & ? & -> & ? & ?); osimpl; by eauto 10.

Lemma ctl_ok m pid uid op handle arg arg2 :
  mixer_ok m -> 0 <= handle -> 0 <= arg ->
  exists a m', rust_audio_ctl pid uid op handle arg arg2 m = Done (a, m') /\ mixer_ok m' /\
    quiet (Ctl pid uid op handle arg arg2) m m'.
Proof.
  intros Hok Hh Ha. unfold rust_audio_ctl. set (c := Ctl _ _ _ _ _ _).
  destruct (_ =? CTL_SET_VOLUME).
  { done_call (on_stream_ok c m pid handle _ _ Hok eq_refl (set_volume_on_stream m pid handle arg Hok Hh)
                 (fun s => volume_keeps arg s Ha)). }
  destruct (_ =? CTL_PAUSE).
  { done_call (on_stream_ok c m pid handle _ _ Hok eq_refl (set_paused_on_stream m pid handle true Hok Hh)
                 (paused_keeps true)). }
  destruct (_ =? CTL_RESUME).
  { done_call (on_stream_ok c m pid handle _ _ Hok eq_refl (set_paused_on_stream m pid handle false Hok Hh)
                 (paused_keeps false)). }
  destruct (_ =? CTL_FLUSH).
  { done_call (on_stream_ok c m pid handle _ _ Hok eq_refl (flush_on_stream m pid handle Hok Hh)
                 flush_keeps). }
  pose proof (quiet_refl c m) as Hq.
  destruct (_ =? CTL_STREAM_STAT); [destruct (stat_ok m pid handle Hok Hh) as [x ->]; osimpl; by eauto 10|].
  destruct (_ =? CTL_MIXER_STAT); [by eauto 10|].
  destruct (_ =? CTL_SET_MASTER); [|by eauto 10].
  unfold set_master. destruct (uid =? 0) eqn:Eu; cbn [negb]; [|by eauto 10].
  destruct (UNITY <? arg) eqn:Ev; [by eauto 10|]. eexists _, _. split; [reflexivity|].
  unfold UNITY in *. split; [destruct Hok; split; try done; simpl; unfold UNITY; lia|].
  split; try done. simpl. congruence.
Qed.

Lemma beep_ok `{Hw H} m (h : H) :
  mixer_ok m ->
  exists a m', rust_audio_beep m h = Done (a, m', (present h).2) /\ mixer_ok m' /\ quiet Beep m m'.
Proof.
  intros Hok. unfold rust_audio_beep, beep, beep_tone. destruct (present h) as [[] h1]; cbn [negb orb fst snd].
  2: { osimpl. eexists _, m. split; [reflexivity|]. split; [done|apply quiet_refl]. }
  change (440 =? 0) with false. change ((SAMPLE_RATE / 1000) *₃₂ 300) with 14400.
  change (14400 =? 0) with false. cbn match.
  assert (Hlt : (default 0 (position (fun v => negb (active v)) (voices m)) < length (voices m))%nat).
  { destruct (position _ _) as [i|] eqn:E; simpl.
    - apply position_Some in E as (v & Hv & _). by eapply lookup_lt_Some.
    - rewrite (mo_voices _ Hok). unfold MAX_VOICES. lia. }
  rewrite store_Done by done. osimpl. eexists _, _. split; [reflexivity|].
  split; [|by split]. destruct Hok. split; try done; simpl; [by rewrite length_insert|].
  apply Forall_insert; [done|]. split; simpl; (done || lia).
Qed.

Lemma exit_ok m pid :
  mixer_ok m ->
  exists m', process_exit pid m = Done m' /\ mixer_ok m' /\ quiet (Exit pid) m m' /\
    forall s, s ∈ streams m' -> of_pid pid s = false.
Proof.
  intros Hok. unfold process_exit. rewrite free_all_spec by done. eexists. split; [reflexivity|].
  split; [apply fmap_ok; [apply free_if_keeps|done]|]. split.
  - split; try done. intros slot s Hs Hu Hn. simpl in Hn. simpl. rewrite list_lookup_fmap, Hs. simpl.
    unfold free_if, of_pid. rewrite Hu. simpl. destruct (owner (life s) =? pid) eqn:E; [|done].
    apply Z.eqb_eq in E. congruence.
  - intros s Hs. simpl in Hs. apply list_elem_of_fmap in Hs as (t & -> & _).
    unfold free_if. by destruct (of_pid pid t) eqn:E.
Qed.

(** Every call but a tick: it returns, keeps the invariant, and leaves alone what is not the
    caller's. *)
Lemma call_quiet `{Hw H} c m (h : H) :
  mixer_ok m -> call_ok c -> c <> Tick ->
  exists a m' h', do_call c m h = Done (a, m', h') /\ mixer_ok m' /\ quiet c m m' /\
    (h' = h \/ h' = (present h).2).
Proof.
  intros Hok Hc Hnt. destruct c as [pid ch r flags vol|pid handle samples|pid handle flags
    |pid uid op handle arg arg2|uid buf frames| | |pid|]; cbn [call_ok do_call] in *.
  - unfold rust_audio_open.
    destruct (open_spec pid ch r flags vol m h Hok Hc) as (m' & x & -> & Hok' & Hx). osimpl.
    eexists _, m', _. split; [reflexivity|]. split; [done|]. split; [|by right].
    destruct (open_refusal _ _ _ _ _ _ _); [destruct Hx as [_ ->]; apply quiet_refl|].
    destruct Hx as (slot & s & Hs & Hfree & _ & -> & _). apply (put_quiet _ _ _ s); [done|congruence].
  - destruct Hc as [Hh Hs]. unfold rust_audio_write.
    destruct (on_stream_ok (Write pid handle samples) m pid handle _ _ Hok eq_refl
                (write_on_stream m pid handle samples Hok Hh Hs) (fun s => write_keeps samples s Hs))
      as (x & m' & -> & Hok' & Hq). osimpl. eexists _, m', h. eauto.
  - unfold rust_audio_close. pose proof (close_on_stream m pid handle flags Hok Hc) as Hcl.
    destruct (negb _).
    + rewrite Hcl. osimpl. eexists _, m, h. split; [reflexivity|]. split; [done|]. split; [apply quiet_refl|by left].
    + destruct (on_stream_ok (Close pid handle flags) m pid handle _ _ Hok eq_refl Hcl (close_keeps flags))
        as (x & m' & -> & Hok' & Hq). osimpl. eexists _, m', h. eauto.
  - destruct Hc as [Hh Ha].
    destruct (ctl_ok m pid uid op handle arg arg2 Hok Hh Ha) as (a & m' & -> & Hok' & Hq). osimpl. eauto 10.
  - unfold rust_audio_tap. rewrite tap_read_spec by (done || lia). osimpl.
    destruct (if negb (uid =? 0) then _ else _). osimpl.
    eexists _, m, h. split; [reflexivity|]. split; [done|]. split; [apply quiet_refl|by left].
  - destruct (beep_ok m h Hok) as (a & m' & -> & Hok' & Hq). eexists _, m', _. eauto.
  - done.
  - unfold rust_audio_process_exit. destruct (exit_ok m pid Hok) as (m' & -> & Hok' & Hq & _). osimpl. eauto 10.
  - unfold rust_audio_selftest. rewrite audio_check_ok by done. osimpl.
    eexists _, m, h. split; [reflexivity|]. split; [done|]. split; [apply quiet_refl|by left].
Qed.

Lemma call_safe `{Hw H} c m (h : H) :
  mixer_ok m -> call_ok c -> exists a m' h', do_call c m h = Done (a, m', h') /\ mixer_ok m'.
Proof.
  intros Hok Hc. destruct (decide (c = Tick)) as [->|Hnt].
  - cbn [do_call]. unfold rust_audio_tick. destruct (pump_ok m h Hok) as (m' & h' & -> & Hok'). osimpl. eauto.
  - destruct (call_quiet c m h Hok Hc Hnt) as (a & m' & h' & ? & ? & _). eauto.
Qed.

(** ** The tap *)

Lemma Done_inj {A B C} (a a' : A) (b b' : B) (c c' : C) :
  Done (a, (b, c)) = Done (a', (b', c')) -> a = a' /\ b = b' /\ c = c'.
Proof. by intros [= -> -> ->]. Qed.

(** The tap holds the last of all the periods that were mixed. *)
Definition tapped (m : Mixer) (log : list (list Z)) : Prop :=
  flatten (tap_view m) = drop (length (concat log)) (replicate (TAP_FRAMES * 2) 0 ++ concat log) /\
  exists n, length (concat log) = (n * 2)%nat /\ mixed_frames m = wrap32 (Z.of_nat n).

Lemma flatten_drop n l : flatten (drop n l) = drop (n * 2) (flatten l).
Proof. revert l. induction n as [|n IH]; intros [|x l]; try done. apply IH. Qed.

Lemma drop_window {A} (z l k : list A) :
  drop (length l + length k) (z ++ l ++ k) = drop (length k) (drop (length l) (z ++ l) ++ k).
Proof.
  rewrite <- drop_drop. rewrite app_assoc. by rewrite (drop_app_le (z ++ l)) by (rewrite length_app; lia).
Qed.

Lemma iter_mixed n m : mixed_frames (Nat.iter n mixed_once m) = mixed_frames m.
Proof. induction n as [|n IH]; [done|]. exact IH. Qed.

Lemma end_period_mixed m : mixed_frames (end_period m) = mixed_frames m +₃₂ Z.of_nat PERIOD_FRAMES.
Proof. done. Qed.

Lemma set_dma_tap d m :
  tap_view (set_dma d m) = tap_view m /\ mixed_frames (set_dma d m) = mixed_frames m.
Proof. done. Qed.

Lemma set_dma_tapped d m log : tapped m log -> tapped (set_dma d m) log.
Proof. unfold tapped. by destruct (set_dma_tap d m) as [-> ->]. Qed.

Lemma filled_tap m :
  mixer_ok m -> tap_view (filled m) = drop PERIOD_FRAMES (tap_view m ++ period_of m) /\
    mixed_frames (filled m) = mixed_frames m +₃₂ Z.of_nat PERIOD_FRAMES.
Proof.
  intros Hok. unfold filled. cbv zeta.
  match goal with |- context [set_dma ?d ?x] => destruct (set_dma_tap d x) as [-> ->] end.
  rewrite after_period_tap by done. split; [done|]. unfold after_period.
  by rewrite end_period_mixed, iter_mixed.
Qed.

Lemma filled_tapped m log :
  mixer_ok m -> tapped m log -> tapped (filled m) (log ++ [flatten (period_of m)]).
Proof.
  intros Hok (Hv & n & Hn & Hm). destruct (filled_tap m Hok) as [Ht Hx]. unfold tapped. rewrite Ht, Hx.
  rewrite concat_app. cbn [concat]. rewrite app_nil_r, length_app. split.
  - rewrite flatten_drop, flatten_app, Hv, drop_window. by rewrite period_length.
  - exists (n + PERIOD_FRAMES)%nat. rewrite period_length. split; [unfold PERIOD_SAMPLES; lia|].
    rewrite Hm. unfold wrap32. rewrite Zplus_mod_idemp_l. f_equal. lia.
Qed.

Lemma fill_tapped n m log :
  mixer_ok m -> (queued (dma m) + n <= TARGET_AHEAD)%nat -> tapped m log ->
  tapped (Nat.iter n filled m) (log ++ periods n m).
Proof.
  revert m log. induction n as [|n IH]; intros m log Hok Hq Ht; [cbn [periods]; by rewrite app_nil_r|].
  rewrite Nat.iter_succ_r. cbn [periods].
  replace (log ++ flatten (period_of m) :: periods n (filled m))
    with ((log ++ [flatten (period_of m)]) ++ periods n (filled m)) by (by rewrite <- app_assoc).
  apply IH; [apply filled_ok; (done || lia)|rewrite filled_dma; cbn [queued]; lia|by apply filled_tapped].
Qed.

Lemma recorded_fill `{Hw H} n m (h : H) log : exists h', fill_hw n m (h, log) = (h', log ++ periods n m).
Proof.
  revert m h log. induction n as [|n IH]; intros m h log; cbn [fill_hw periods].
  - exists h. by rewrite app_nil_r.
  - cbn [write_period recorder fst snd]. destruct (IH (filled m)
      (write_period (write_idx (dma m)) (flatten (period_of m)) h) (log ++ [flatten (period_of m)])) as [h' ->].
    exists h'. by rewrite <- app_assoc.
Qed.

Lemma cold_start_tapped `{Hw H} m (h : H) log m' h' log' :
  mixer_ok m -> tapped m log -> cold_start m (h, log) = Done (m', (h', log')) -> tapped m' log'.
Proof.
  intros Hok Ht Hrun. destruct (cold_start_spec m (h, log) Hok) as [E _]. rewrite E in Hrun. clear E.
  destruct (recorded_fill START_PREFILL (reset_dma m) h log) as [h1 E]. rewrite E in Hrun.
  apply Done_inj in Hrun as (<- & _ & <-).
  apply set_dma_tapped, fill_tapped; [by apply reset_ok| |by apply set_dma_tapped].
  simpl. unfold TARGET_AHEAD, START_PREFILL. lia.
Qed.

Lemma recorder_present `{Hw H} (h : H) log :
  present (h, log) = ((present h).1, ((present h).2, log)).
Proof. simpl. by destruct (present h). Qed.
Lemma recorder_civ `{Hw H} (h : H) log : ring_civ (h, log) = ((ring_civ h).1, ((ring_civ h).2, log)).
Proof. simpl. by destruct (ring_civ h). Qed.
Lemma recorder_running `{Hw H} (h : H) log :
  ring_running (h, log) = ((ring_running h).1, ((ring_running h).2, log)).
Proof. simpl. by destruct (ring_running h). Qed.

Lemma pump_tapped `{Hw H} m (h : H) log m' h' log' :
  mixer_ok m -> tapped m log -> pump m (h, log) = Done (m', (h', log')) -> tapped m' log'.
Proof.
  intros Hok Ht Hrun. unfold pump in Hrun. rewrite recorder_present in Hrun.
  destruct (present h) as [[] h1]; cbn [negb fst snd] in Hrun; [|apply Done_inj in Hrun as (<- & _ & <-); assumption].
  destruct (running (dma m)).
  2: { destruct (has_activity m); cbn [negb] in Hrun; [|apply Done_inj in Hrun as (<- & _ & <-); assumption].
       exact (cold_start_tapped _ _ _ _ _ _ Hok Ht Hrun). }
  rewrite recorder_civ in Hrun. destruct (ring_civ h1) as [c h2]. cbn [fst snd] in Hrun.
  rewrite recorder_running in Hrun. destruct (ring_running h2) as [r h3]. cbn [fst snd] in Hrun. set (m1 := set_dma _ m) in Hrun.
  assert (Hm1 : mixer_ok m1).
  { apply set_dma_ok; [done|]. apply audio_account_ok; [|apply Hok].
    pose proof (Z.mod_pos_bound c (Z.of_nat RING_PERIODS)). unfold RING_PERIODS in *. lia. }
  assert (Ht1 : tapped m1 log) by by apply set_dma_tapped. clearbody m1.
  destruct r, (has_activity m); cbn [negb] in Hrun.
  - pose proof (do_queued _ (mo_dma _ Hm1)).
    destruct (ring_fill_spec (TARGET_AHEAD - queued (dma m1)) m1 (h3, log) Hm1) as [E _]; [lia|].
    rewrite E in Hrun. destruct (recorded_fill (TARGET_AHEAD - queued (dma m1)) m1 h3 log) as [h4 E'].
    rewrite E' in Hrun. cbn [mbind outcome_bind] in Hrun. apply Done_inj in Hrun as (<- & _ & <-). apply fill_tapped; (done || lia).
  - apply Done_inj in Hrun as (<- & _ & <-); assumption.
  - exact (cold_start_tapped _ _ _ _ _ _ Hm1 Ht1 Hrun).
  - apply Done_inj in Hrun as (<- & _ & <-); assumption.
Qed.
