(* ===== verification/MixerProps.v ===== *)
(** * Audio: the theorems

    Every call returns and keeps the invariant, with any card; what a process does reaches
    its own streams only; a period is the sum of what the streams have; the card plays every
    period once and in order; a stream that is closed plays out. *)

From S2P Require Import Prelude Ring Mixer MixerStream MixerInv MixerMix MixerCard MixerCalls.
Local Open Scope Z_scope.
Local Open Scope machine_scope.

(** ** Runs with any card *)

(** The kernel calls the mixer, and the card changes as it likes. *)
Inductive any_step `{Hw H} : Mixer * H -> Mixer * H -> Prop :=
| any_call c a m h m' h' :
    call_ok c -> do_call c m h = Done (a, m', h') -> any_step (m, h) (m', h')
| any_card m h h' : any_step (m, h) (m, h').

Lemma any_run_ok `{Hw H} (h0 : H) m h : rtc any_step (Mixer_new, h0) (m, h) -> mixer_ok m.
Proof.
  intros Hr. apply (rtc_invariant any_step (fun mh => mixer_ok mh.1)) in Hr; [done| |apply mixer_new_ok].
  intros x y [c a m1 h1 m2 h2 Hc Hrun|m1 h1 h2] Hok; [|done]. simpl in *.
  destruct (call_safe c m1 h1 Hok Hc) as (? & ? & ? & Hrun' & Hok'). rewrite Hrun in Hrun'.
  by simplify_eq.
Qed.

(** C22: Whatever calls are made and whatever the card answers, no call of the audio mixer
    leaves an array, the self-test finds nothing wrong, no process has more than four streams,
    and the 32-bit sums of the mixer do not overflow. *)
Theorem audio_safe `{Hw H} (h0 h : H) m :
  rtc any_step (Mixer_new, h0) (m, h) ->
  (forall c, call_ok c -> exists a m' h', do_call c m h = Done (a, m', h')) /\
  (exists a, rust_audio_selftest m = Done a /\ code a = 0) /\
  (forall pid, (countb (of_pid pid) (streams m) <= MAX_STREAMS_PER_PROC)%nat) /\
  (forall k, is_i32 ((mixdown m k).1 * level m) /\ is_i32 ((mixdown m k).2 * level m)).
Proof.
  intros Hr. apply any_run_ok in Hr as Hok. split; [|split; [|split]].
  - intros c Hc. destruct (call_safe c m h Hok Hc) as (a & m' & h' & ? & _). eauto.
  - unfold rust_audio_selftest. rewrite audio_check_ok by done. osimpl. eauto.
  - apply Hok.
  - intros k. destruct (mixdown_bound m k Hok). assert (0 <= level m <= 256).
    { unfold level. pose proof (mo_master _ Hok). unfold UNITY in *. destruct (muted m); lia. }
    unfold is_i32. nia.
Qed.

(** The calls that work on one stream, with the handle they are given. *)
Definition stream_call (c : call) : option (Z * Z) :=
  match c with
  | Write pid handle _ => Some (pid, handle)
  | Close pid handle flags =>
      if Z.land flags (Z.lnot CLOSE_ABORT) =? 0 then Some (pid, handle) else None
  | Ctl pid _ op handle _ _ =>
      if (CTL_SET_VOLUME <=? op) && (op <=? CTL_STREAM_STAT) then Some (pid, handle) else None
  | _ => None
  end.

Lemma no_stream_refused {A} m pid handle (f : Stream -> result A Z * Stream) run :
  (forall slot s, ~ names m pid handle slot s) -> on_stream m pid handle f run ->
  run = Done (Err EBADF, m).
Proof. intros Hno [(slot & s & [Hn _] & _)|[_ ->]]; [by destruct (Hno slot s)|done]. Qed.

Lemma refused_call `{Hw H} c m (h : H) pid handle :
  mixer_ok m -> call_ok c -> stream_call c = Some (pid, handle) ->
  (forall slot s, ~ names m pid handle slot s) ->
  do_call c m h = Done (mkAnswer (- EBADF) [], m, h).
Proof.
  intros Hok Hc Hs Hno. destruct c as [|p hd samples|p hd flags|p uid op hd arg arg2|uid| | | |];
    simplify_eq/=; cbn [do_call].
  - destruct Hc as [Hh Hi]. unfold rust_audio_write.
    by rewrite (no_stream_refused _ _ _ _ _ Hno (write_on_stream m pid handle samples Hok Hh Hi)).
  - unfold rust_audio_close. pose proof (close_on_stream m p hd flags Hok Hc) as Hcl.
    destruct (_ =? 0); [|done]. simplify_eq. cbn [negb] in Hcl.
    by rewrite (no_stream_refused _ _ _ _ _ Hno Hcl).
  - destruct Hc as [Hh Ha]. destruct ((_ <=? op) && _) eqn:E; [|done]. simplify_eq.
    unfold rust_audio_ctl, CTL_SET_VOLUME, CTL_STREAM_STAT, CTL_PAUSE, CTL_RESUME, CTL_FLUSH in *.
    rewrite (no_stream_refused _ _ _ _ _ Hno (set_volume_on_stream m pid handle arg Hok Hh)).
    rewrite (no_stream_refused _ _ _ _ _ Hno (set_paused_on_stream m pid handle true Hok Hh)).
    rewrite (no_stream_refused _ _ _ _ _ Hno (set_paused_on_stream m pid handle false Hok Hh)).
    rewrite (no_stream_refused _ _ _ _ _ Hno (flush_on_stream m pid handle Hok Hh)).
    destruct (op =? 1) eqn:E1; [done|]. destruct (op =? 2) eqn:E2; [done|].
    destruct (op =? 3) eqn:E3; [done|].
    destruct (op =? 4) eqn:E4; [done|]. assert (op = 5) as -> by lia. cbn [Z.eqb Pos.eqb].
    unfold stream_stat. destruct (lookup_any_spec m pid handle Hok Hh) as [(slot & s & Hn & _)|[_ ->]].
    + by destruct (Hno slot s).
    + done.
Qed.

(** C21: A process works on its own streams only. A call leaves every stream of another
    process as it is; a handle that is not the caller's, or not valid any more, is refused with
    EBADF and nothing changes; the master volume changes for the superuser only, and nobody else
    reads the tap. When a process exits, its streams are gone. *)
Theorem audio_isolation `{Hw H} (h0 h h' : H) m m' c a :
  rtc any_step (Mixer_new, h0) (m, h) -> call_ok c -> c <> Tick ->
  do_call c m h = Done (a, m', h') ->
  (forall slot s, streams m !! slot = Some s -> in_use (life s) = true ->
     caller c <> Some (owner (life s)) -> streams m' !! slot = Some s) /\
  (forall pid handle, stream_call c = Some (pid, handle) ->
     (forall slot s, ~ names m pid handle slot s) -> a = mkAnswer (- EBADF) [] /\ m' = m) /\
  (by_root c = false -> master_cut m' = master_cut m /\ muted m' = muted m) /\
  (forall uid buf n, c = Tap uid buf n -> uid <> 0 -> a = mkAnswer (- EPERM) []) /\
  (forall pid s, c = Exit pid -> s ∈ streams m' -> of_pid pid s = false).
Proof.
  intros Hr Hc Hnt Hrun. apply any_run_ok in Hr as Hok.
  destruct (call_quiet c m h Hok Hc Hnt) as (a' & m1 & h1 & Hrun' & Hok' & Hq & _).
  rewrite Hrun in Hrun'. simplify_eq.
  split; [apply Hq|]. split; [|split; [apply Hq|split]].
  - intros pid handle Hs Hno. rewrite (refused_call c m h pid handle Hok Hc Hs Hno) in Hrun.
    by simplify_eq.
  - intros uid buf n -> Hu. cbn [do_call call_ok] in *. unfold rust_audio_tap in Hrun.
    rewrite tap_read_spec in Hrun by (done || lia).
    assert (uid =? 0 = false) as E by lia. rewrite E in Hrun. cbn [negb] in Hrun. cbn [mbind outcome_bind] in Hrun.
    by simplify_eq.
  - intros pid s -> Hin. cbn [do_call] in Hrun. unfold rust_audio_process_exit in Hrun.
    destruct (exit_ok m pid Hok) as (m2 & E & _ & _ & Hgone). rewrite E in Hrun. cbn [mbind outcome_bind] in Hrun.
    simplify_eq. by apply Hgone.
Qed.

(** ** Runs with a card that plays *)

(** The kernel calls the mixer, time goes by, and the periods the card is given are
    recorded. *)
Inductive audio_step `{Card H} : Mixer * (H * list (list Z)) -> Mixer * (H * list (list Z)) -> Prop :=
| audio_call c a m hl m' hl' :
    call_ok c -> do_call c m hl = Done (a, m', hl') -> audio_step (m, hl) (m', hl')
| audio_time n m h log : audio_step (m, (h, log)) (m, (elapse n h, log)).

(** A card nobody has used. *)
Definition silent `{Card H} (h : H) : Prop :=
  engine_ok (engine h) /\ e_running (engine h) = false /\ e_heard (engine h) = [].

Definition audio_inv `{Card H} (x : Mixer * (H * list (list Z))) : Prop :=
  mixer_ok x.1 /\ linked x.1 (engine x.2.1) x.2.2 /\ tapped x.1 x.2.2.

Lemma linked_dma m m' e log : linked m e log -> dma m' = dma m -> linked m' e log.
Proof. intros [? ? ? ?] Hd. by split; rewrite ?Hd. Qed.

Lemma tapped_same m m' log :
  tapped m log -> tap m' = tap m -> tap_pos m' = tap_pos m -> mixed_frames m' = mixed_frames m ->
  tapped m' log.
Proof. unfold tapped, tap_view. by intros ? -> -> ->. Qed.

Section Runs.
Context `{Card H}.
Implicit Types (h : H) (log : list (list Z)).

Lemma tapped_new : tapped Mixer_new [].
Proof.
  split; [|by exists 0%nat]. rewrite app_nil_r, drop_0. unfold tap_view. cbn [Mixer_new tap tap_pos].
  assert (E : forall n, to_frames 2 (replicate (n * 2) 0) = replicate n (0, 0)).
  { intros n. apply list_eq_same_length with (n := n); [by rewrite length_replicate| |].
    - by rewrite to_frames_length, length_replicate, Nat.div_mul.
    - intros i x y Hi. rewrite to_frames_lookup by (rewrite length_replicate, Nat.div_mul; lia).
      rewrite lookup_replicate_2 by done. intros [= <-] [= <-]. unfold cell. simpl.
      by rewrite !lookup_total_replicate_2 by lia. }
  rewrite E. pose proof tap_pos_ok as Hc. generalize dependent TAP_FRAMES. intros c Hc.
  assert (E2 : @ring frame _ c (replicate c (0, 0)) 0 c = replicate c (0, 0)).
  { apply list_eq_same_length with (n := c); [by rewrite length_replicate|by rewrite ring_length|].
    intros i x y Hi. unfold ring. rewrite list_lookup_fmap, lookup_seq_lt by done. simpl.
    rewrite Nat.mod_small, lookup_total_replicate_2, lookup_replicate_2 by done. congruence. }
  rewrite E2. clear. induction c as [|c IH]; [done|]. simpl. by do 2 f_equal.
Qed.

Lemma silent_inv h : silent h -> audio_inv (Mixer_new, (h, [])).
Proof.
  intros (He & Hr & Hh). split; [apply mixer_new_ok|]. split; [|apply tapped_new].
  split; [done| |done|done]. cbn [fst snd]. unfold pend. by rewrite Hr, Hh.
Qed.

Lemma audio_step_inv x y : audio_step x y -> audio_inv x -> audio_inv y.
Proof.
  intros [c a m [h log] m' [h' log'] Hc Hrun|n m h log] (Hok & Hlk & Htp); cbn [fst snd] in *.
  - destruct (decide (c = Tick)) as [->|Hnt].
    + cbn [do_call] in Hrun. unfold rust_audio_tick in Hrun.
      destruct (pump_linked m h log Hok Hlk) as (m1 & h1 & log1 & Hp & Hok1 & Hlk1 & _).
      rewrite Hp in Hrun. cbn [mbind outcome_bind] in Hrun. simplify_eq.
      split; [done|]. split; [done|]. exact (pump_tapped _ _ _ _ _ _ Hok Htp Hp).
    + destruct (call_quiet c m (h, log) Hok Hc Hnt) as (a1 & m1 & hl1 & Hrun1 & Hok1 & Hq & Hh).
      rewrite Hrun in Hrun1. simplify_eq. split; [done|]. cbn [fst snd].
      assert (Hsame : engine h' = engine h /\ log' = log).
      { destruct Hh as [?|Hh]; [by simplify_eq|]. rewrite recorder_present in Hh. simplify_eq/=.
        split; [apply card_present|done]. }
      destruct Hsame as [-> ->]. split; [by apply (linked_dma m), Hq|].
      apply (tapped_same m); (done || apply Hq).
  - split; [done|]. split; [|done]. cbn [fst snd].
    rewrite card_elapse by apply Hlk. clear Htp. induction n as [|n IH]; [done|].
    by apply tick_linked.
Qed.

Lemma run_inv h0 x : silent h0 -> rtc audio_step (Mixer_new, (h0, [])) x -> audio_inv x.
Proof. intros Hs Hr. apply (rtc_invariant _ _ audio_step_inv _ _ Hr). by apply silent_inv. Qed.

(** C12: The card plays what the mixer mixes. Whatever calls are made and however late the
    ticks are, what has been heard is the periods the mixer has mixed, in order, none lost and
    none repeated, but for at most the last six, which wait in the ring; and when the card has
    halted there are none. *)
Theorem audio_playback h0 m h log :
  silent h0 -> rtc audio_step (Mixer_new, (h0, [])) (m, (h, log)) ->
  exists waiting, e_heard (engine h) ++ waiting = concat log /\
    (length waiting <= TARGET_AHEAD * PERIOD_SAMPLES)%nat /\
    (e_running (engine h) = false -> waiting = []).
Proof.
  intros Hs Hr. destruct (run_inv _ _ Hs Hr) as (Hok & Hlk & _). cbn [fst snd] in *.
  exists (pend (engine h)). split; [apply Hlk|]. unfold pend at 2.
  destruct (e_running (engine h)) eqn:E; [|unfold pend; rewrite E; split; [simpl; lia|done]].
  split; [|done]. pose proof (pend_length _ (lk_engine _ _ _ Hlk) E) as Hlen.
  destruct (running (dma m)) eqn:Er; [|by rewrite (lk_idle _ _ _ Hlk Er) in E].
  destruct (lk_run _ _ _ Hlk Er) as (_ & Hq & Hd). pose proof (do_queued _ (mo_dma _ Hok)) as H6.
  destruct (lk_engine _ _ _ Hlk) as [_ _ Hc Hl _].
  rewrite <- (dist_sub (last_civ (dma m)) (e_civ (engine h)) (e_lvi (engine h))) in Hlen
    by (first [done | apply Hok]). nia.
Qed.

(** What the kernel may do between two ticks. *)
Definition other_call (m m' : Mixer) : Prop :=
  exists c a h h', c <> Tick /\ call_ok c /\ do_call c m h = Done (a, m', h').

Lemma other_calls m m' : rtc other_call m m' -> mixer_ok m -> mixer_ok m' /\ dma m' = dma m.
Proof.
  induction 1 as [|m m1 m' (c & a & h & h' & Hnt & Hc & Hrun) _ IH]; [done|]. intros Hok.
  destruct (call_quiet c m h Hok Hc Hnt) as (a1 & m2 & h2 & Hrun1 & Hok1 & Hq & _).
  rewrite Hrun in Hrun1. simplify_eq. destruct (IH Hok1) as [? ->]. split; [done|apply Hq].
Qed.

(** C29: While there is something to play, the sound does not stop. After a tick with an
    active stream or voice, the card plays without a gap for the next 1439 frames, almost three
    periods; and if the next tick comes by then and there is still something to play, it counts
    no underrun, whatever other calls there have been. *)
Theorem audio_gapless h0 m h log m1 h1 log1 a n :
  silent h0 -> rtc audio_step (Mixer_new, (h0, [])) (m, (h, log)) ->
  (present h).1 = true -> has_activity m = true ->
  do_call Tick m (h, log) = Done (a, m1, (h1, log1)) -> Z.of_nat n < 1440 ->
  exists sound, e_heard (engine (elapse n h1)) = e_heard (engine h1) ++ sound /\
    length sound = (n * 2)%nat /\ e_running (engine (elapse n h1)) = true /\
    forall m2 a' m3 h3 log3, rtc other_call m1 m2 -> (present (elapse n h1)).1 = true ->
      has_activity m2 = true -> do_call Tick m2 (elapse n h1, log1) = Done (a', m3, (h3, log3)) ->
      hw_underruns (dma m3) = hw_underruns (dma m1).
Proof.
  intros Hs Hr Hpr Hact Hrun Hn. destruct (run_inv _ _ Hs Hr) as (Hok & Hlk & _). cbn [fst snd do_call] in *.
  unfold rust_audio_tick in *.
  destruct (pump_linked m h log Hok Hlk) as (m' & h' & log' & Hp & Hok1 & Hlk1 & Hplay).
  rewrite Hp in Hrun. cbn [mbind outcome_bind] in Hrun. simplify_eq.
  destruct (Hplay Hpr Hact) as (Hrun1 & Hlen & _).
  pose proof (lk_engine _ _ _ Hlk1) as He1. rewrite card_elapse by done.
  destruct (run_spec n _ He1) as (He2 & Hh2 & Hp2).
  assert (Hr2 : e_running (Nat.iter n engine_tick (engine h1)) = true).
  { destruct (e_running (Nat.iter n engine_tick (engine h1))) eqn:E; [done|].
    unfold pend at 1 in Hp2. rewrite E in Hp2. apply (f_equal length) in Hp2.
    rewrite length_drop in Hp2. simpl in Hp2. lia. }
  exists (take (n * 2) (pend (engine h1))). split; [done|]. split; [rewrite length_take; lia|].
  split; [done|]. intros m2 a' m3 h3 log3 Hoth Hpr2 Hact2 Hrun2.
  destruct (other_calls m1 m2 Hoth Hok1) as [Hok2 Hd].
  assert (Hlk2 : linked m2 (engine (elapse n h1)) log1).
  { apply (linked_dma m1); [|done]. rewrite card_elapse by done. clear -Hok1 Hlk1.
    induction n as [|n IH]; [done|]. by apply tick_linked. }
  destruct (pump_linked m2 _ log1 Hok2 Hlk2) as (m4 & h4 & log4 & Hp4 & _ & _ & Hplay2).
  rewrite Hp4 in Hrun2. cbn [mbind outcome_bind] in Hrun2. simplify_eq.
  destruct (Hplay2 Hpr2 Hact2) as (_ & _ & Hu). rewrite Hu, Hd; [done|]. by rewrite card_elapse.
Qed.

(** The tap is the end of what was mixed. The superuser reads from it the newest
    frames of all that the mixer ever gave to the card, as many as were asked for, as there
    have been, and as the tap holds (for the first 24 hours, after which the count of frames
    starts over). *)
Theorem audio_tap_newest h0 m h log buf frames :
  silent h0 -> rtc audio_step (Mixer_new, (h0, [])) (m, (h, log)) ->
  0 <= frames <= 1024 -> length buf = (Z.to_nat frames * 2)%nat ->
  Z.of_nat (length (concat log)) < 2 * 4294967296 ->
  let n := (Z.to_nat frames `min` (length (concat log) / 2))%nat in
  exists rest, rust_audio_tap 0 buf frames m =
    Done (mkAnswer 0 (Z.of_nat n :: mixed_frames m ::
            drop (length (concat log) - n * 2) (concat log) ++ rest)).
Proof.
  intros Hs Hr Hf Hb Hlen n. destruct (run_inv _ _ Hs Hr) as (Hok & _ & Hv & k & Hk & Hm). cbn [fst snd] in *.
  assert (Hmix : mixed_frames m = Z.of_nat k) by (rewrite Hm; apply wrap32_id; unfold is_u32; lia).
  pose proof tap_frames as Htf. pose proof (tap_read_spec 0 buf frames m Hok ltac:(lia)) as Hrd.
  cbv zeta in Hrd. unfold rust_audio_tap. rewrite Z.min_l, take_ge by lia.
  rewrite Hrd. cbn [Z.eqb negb].
  assert (Hn : Z.to_nat (Z.min (Z.min frames (Z.of_nat TAP_FRAMES)) (mixed_frames m)) = n).
  { unfold n. rewrite Hk, Nat.div_mul, Hmix by lia. lia. }
  rewrite Hn. assert (Hn2 : (n <= Z.to_nat frames /\ n <= k)%nat).
  { unfold n. rewrite Hk, Nat.div_mul by lia. lia. }
  clearbody n. assert ((length buf <? n * 2)%nat = false) as -> by (apply Nat.ltb_ge; lia). osimpl.
  eexists. do 3 f_equal. f_equal. f_equal.
  rewrite flatten_drop, Hv, drop_drop. rewrite drop_app_ge; rewrite length_replicate; [|lia].
  f_equal. lia.
Qed.
End Runs.

(** ** Mixing *)

Lemma iter_next_spec n s :
  slot_ok s -> sounds s = true ->
  let s' := Nat.iter n stream_next s in
  let q := phase (resampler s) + Z.of_nat n * step (format s) in
  slot_ok s' /\ life s' = life s /\ format s' = format s /\
  track s' = drop (Z.to_nat (q / 65536)) (track s) /\
  phase (resampler s') = if is_nil (track s') then 0 else q mod 65536.
Proof.
  intros Hs Hp. pose proof (sounds_ok s Hs Hp) as Hok.
  pose proof (plays_spec (step (format s)) n (track s) (phase (resampler s)) (step_bounds s Hok)
                (so_phase _ Hok) (track_idle s Hok)) as Hplays. cbv zeta in *.
  assert (Hit : forall n s, slot_ok s -> sounds s = true ->
            slot_ok (Nat.iter n stream_next s) /\ life (Nat.iter n stream_next s) = life s /\
            format (Nat.iter n stream_next s) = format s /\
            exists os, plays (step (format s)) n (track s) (phase (resampler s)) =
                       (os, track (Nat.iter n stream_next s), phase (resampler (Nat.iter n stream_next s)))).
  { clear. induction n as [|n IH]; intros s Hs Hp; [simpl; by eauto|].
    pose proof (sounds_ok s Hs Hp) as Hok.
    destruct (next_frame_sounds s Hs Hp) as (_ & Hok' & Hl & Hf & Ht & Hph).
    destruct (stream_next_keeps s Hs) as [Hs' _].
    destruct (IH (stream_next s) Hs') as (H1 & H2 & H3 & os & H4); [unfold sounds; by rewrite Hl|].
    rewrite Nat.iter_succ_r. split; [done|]. split; [by rewrite H2|]. split; [by rewrite H3|].
    cbn [plays]. rewrite (play_spec _ _ _ (step_bounds s Hok) (so_phase _ Hok) (track_idle s Hok)).
    rewrite <- Ht, <- Hph, <- Hf, H4. eauto. }
  destruct (Hit n s Hs Hp) as (H1 & H2 & H3 & os & H4). rewrite H4 in Hplays.
  injection Hplays as _ Htr Hph. by rewrite Htr.
Qed.

Lemma end_period_streams m : streams (end_period m) = free_if played_out <$> streams m.
Proof. done. Qed.

Lemma drained_track s : drained s = is_nil (track s).
Proof.
  unfold drained, track, held. destruct (have_cur (resampler s)); [by rewrite andb_false_r|].
  by destruct (count (buffer s)).
Qed.

(** C13: A period is the sum of what is playing. In every reachable state the next period
    consists of 480 frames, the [k]-th of which is the sum of all streams and voices at [k],
    scaled by the master volume and saturated: of a stream that plays, its buffered frames at
    the position of the [k]-th step of its resampler, interpolated linearly and scaled by its
    volume, and silence beyond their end. Afterwards each stream has moved on by 480 steps,
    whatever the others did, and a closed stream that has been played to its end is free. *)
Theorem audio_mix_correct `{Hw H} (h0 h : H) m :
  rtc any_step (Mixer_new, h0) (m, h) ->
  exists m', mix_block m (replicate PERIOD_SAMPLES 0) =
      Done (m', flatten (out_frame m <$> seq 0 PERIOD_FRAMES)) /\
    forall slot s, streams m !! slot = Some s ->
      exists s', streams m' !! slot = Some s' /\
        if sounds s then
          let q := phase (resampler s) + Z.of_nat PERIOD_FRAMES * step (format s) in
          let rest := drop (Z.to_nat (q / 65536)) (track s) in
          if is_nil rest && closing (life s) then in_use (life s') = false
          else track s' = rest /\ life s' = life s /\ format s' = format s /\
               phase (resampler s') = if is_nil rest then 0 else q mod 65536
        else s' = free_if played_out s.
Proof.
  intros Hr. apply any_run_ok in Hr as Hok. exists (after_period m).
  split; [by apply mix_block_spec, length_replicate|]. intros slot s Hs.
  pose proof (Forall_lookup_1 _ _ _ _ (mo_slots _ Hok) Hs) as Hsl.
  unfold after_period. rewrite end_period_streams, iter_streams.
  generalize PERIOD_FRAMES. intros n. rewrite !list_lookup_fmap, Hs. cbn [fmap option_fmap option_map].
  eexists. split; [reflexivity|]. destruct (sounds s) eqn:Hp; cbv zeta.
  - destruct (iter_next_spec n s Hsl Hp) as (Hs' & Hl & Hf & Ht & Hph). rewrite <- Ht.
    set (s' := Nat.iter n stream_next s) in *.
    assert (Hu : in_use (life s) = true) by (unfold sounds in Hp; by destruct (in_use (life s))).
    assert (Hpo : played_out s' = is_nil (track s') && closing (life s)).
    { unfold played_out. rewrite Hl, Hu, drained_track. by destruct (closing (life s)), (is_nil (track s')). }
    unfold free_if. rewrite Hpo. by destruct (is_nil (track s') && closing (life s)).
  - f_equal. clear -Hp. induction n as [|n IH]; [done|].
    change (Nat.iter (S n) stream_next s) with (stream_next (Nat.iter n stream_next s)).
    rewrite IH. unfold stream_next. by rewrite Hp.
Qed.

(** ** Writing and closing *)

(** A write appends to its stream. It takes as many whole frames as there is room for,
    behind those that were written before, and says how many; it refuses a part of a frame,
    a full buffer, and a handle that is not an open stream of the caller's; and it changes
    nothing else. *)
Theorem audio_write_correct `{Hw H} (h0 h : H) m pid handle samples :
  rtc any_step (Mixer_new, h0) (m, h) -> 0 <= handle -> Forall is_i16 samples ->
  exists r m', write pid handle samples m = Done (r, m') /\
    (((forall slot s, ~ live m pid handle slot s) /\ r = Err EBADF /\ m' = m) \/
     exists slot s s', live m pid handle slot s /\ m' = put slot s' m /\
       let ch := channels (format s) in
       let n := ((length samples / ch) `min` (cap_of ch - count (buffer s)))%nat in
       if negb (length samples `mod` ch =? 0)%nat then r = Err EINVAL /\ s' = s
       else r = (if (length samples =? 0)%nat then Ok 0
                 else if (n =? 0)%nat then Err EAGAIN else Ok (Z.of_nat n)) /\
            track s' = track s ++ take n (to_frames ch samples) /\
            count (buffer s') = (count (buffer s) + n)%nat /\
            life s' = life s /\ format s' = format s /\ resampler s' = resampler s).
Proof.
  intros Hr Hh Hs. apply any_run_ok in Hr as Hok.
  destruct (write_on_stream m pid handle samples Hok Hh Hs) as [(slot & s & Hl & ->)|[Hno ->]].
  2: { eexists _, m. split; [reflexivity|]. by left. }
  destruct (live_slot _ _ _ _ _ Hok Hl) as (_ & _ & Hst & _).
  pose proof (write_fn_spec samples s Hst Hs) as Hw. cbv zeta in Hw.
  destruct (write_fn samples s) as [r s']. cbn [fst snd]. eexists r, _. split; [reflexivity|].
  right. exists slot, s, s'. split; [done|]. split; [done|].
  destruct Hw as (_ & H1 & H2 & H3 & Hw). cbv zeta. destruct (negb _); [done|].
  by destruct Hw as (-> & -> & ->).
Qed.

(** What an application does to a stream and what the mixer takes from it. *)
Inductive stream_event : Type :=
| Put (samples : list Z)
| Take.

(** The frames that were accepted and those that were handed out. *)
Fixpoint stream_run (evs : list stream_event) (s : Stream) :
    outcome (list frame * list frame * Stream) :=
  match evs with
  | [] => Done ([], [], s)
  | Put samples :: evs' =>
      '(n, s1) ← push samples s;
      '(acc, out, s2) ← stream_run evs' s1;
      Done (take n (to_frames (channels (format s)) samples) ++ acc, out, s2)
  | Take :: evs' =>
      '(f, s) ← next_frame s;
      '(acc, out, s) ← stream_run evs' s;
      Done (acc, option_list f ++ out, s)
  end.

Definition event_ok (e : stream_event) : Prop :=
  match e with Put samples => Forall is_i16 samples | Take => True end.

Lemma push_ok samples s :
  stream_ok s -> Forall is_i16 samples ->
  exists n s', push samples s = Done (n, s') /\ stream_ok s' /\ format s' = format s /\
    resampler s' = resampler s /\ track s' = track s ++ take n (to_frames (channels (format s)) samples).
Proof.
  intros Hst Hs. destruct (push_spec samples s (so_buf _ Hst) Hs) as (p & t & Hrun & Hb & Hh & ->).
  eexists _, _. split; [exact Hrun|]. split; [destruct Hst; by split|]. split; [done|]. split; [done|].
  etrans; [exact (f_equal (app _) Hh)|]. unfold track. by rewrite app_assoc.
Qed.

(** C30: At 48 kHz a stream is lossless. However writes and mixing take turns, every frame
    comes out exactly as it was accepted, once and in order: what was handed out and what is
    still buffered are together what was buffered before and has been accepted since. *)
Theorem audio_exact_48k s evs :
  stream_ok s -> rate (format s) = SAMPLE_RATE -> phase (resampler s) = 0 -> Forall event_ok evs ->
  exists acc out s', stream_run evs s = Done (acc, out, s') /\ out ++ track s' = track s ++ acc.
Proof.
  intros Hst Hr Hp Hev. revert s Hst Hr Hp.
  induction Hev as [|e evs He Hev IH]; intros s Hst Hr Hp; cbn [stream_run].
  { eexists [], [], s. by rewrite app_nil_r. }
  assert (Hstep : step (format s) = 65536) by (rewrite (so_step _ Hst), Hr; done).
  destruct e as [samples|].
  - destruct (push_ok samples s Hst He) as (n & s1 & -> & Hst1 & Hf & Hrs & Ht). osimpl.
    destruct (IH s1 Hst1) as (acc & out & s' & -> & Hcons); [by rewrite Hf|by rewrite Hrs|]. osimpl.
    eexists _, _, s'. split; [reflexivity|]. rewrite Hcons, Ht. by rewrite <- app_assoc.
  - destruct (next_frame_spec s Hst) as (s1 & Hn).
    rewrite play_spec in Hn by (first [apply step_bounds, Hst | apply Hst | by apply track_idle]).
    rewrite Hp, Hstep in Hn. change (Z.to_nat ((0 + 65536) / 65536)) with 1%nat in Hn.
    change ((0 + 65536) mod 65536) with 0 in Hn.
    destruct Hn as (-> & Ht & Hph & Hst1 & _ & Hf & _). osimpl.
    destruct (IH s1 Hst1) as (acc & out & s' & -> & Hcons);
      [by rewrite Hf|rewrite Hph; by destruct (is_nil _)|]. osimpl.
    eexists _, _, s'. split; [reflexivity|]. rewrite <- app_assoc, Hcons, Ht.
    pose proof (sample_at_exact (track s) 0) as E. rewrite Z.mul_0_l in E. rewrite E.
    by destruct (track s).
Qed.

(** Several periods. *)
Fixpoint mix_blocks (n : nat) (m : Mixer) : outcome Mixer :=
  match n with
  | O => Done m
  | S n' => '(m, _) ← mix_block m (replicate PERIOD_SAMPLES 0); mix_blocks n' m
  end.

Definition period_slot (s : Stream) : Stream := free_if played_out (Nat.iter PERIOD_FRAMES stream_next s).

Lemma after_period_streams m : streams (after_period m) = period_slot <$> streams m.
Proof. unfold after_period. by rewrite end_period_streams, iter_streams, <- list_fmap_compose. Qed.

Lemma mix_blocks_spec n m :
  mixer_ok m ->
  exists m', mix_blocks n m = Done m' /\ mixer_ok m' /\ streams m' = Nat.iter n period_slot <$> streams m.
Proof.
  revert m. induction n as [|n IH]; intros m Hok; cbn [mix_blocks].
  { exists m. by rewrite list_fmap_id. }
  rewrite mix_block_spec by (done || apply length_replicate). osimpl.
  destruct (IH (after_period m) (after_period_ok m Hok)) as (m' & -> & Hok' & Hs). exists m'.
  split; [done|]. split; [done|]. rewrite Hs, after_period_streams, <- list_fmap_compose.
  apply list_fmap_ext. intros i s _. cbn [compose]. by rewrite Nat.iter_succ_r.
Qed.

Lemma idle_period n s : in_use (life s) = false -> Nat.iter n period_slot s = s.
Proof.
  intros Hu. induction n as [|n IH]; [done|].
  change (Nat.iter (S n) period_slot s) with (period_slot (Nat.iter n period_slot s)). rewrite IH.
  unfold period_slot, free_if. assert (Hit : Nat.iter PERIOD_FRAMES stream_next s = s).
  { generalize PERIOD_FRAMES. intros k. induction k as [|k IHk]; [done|].
    change (Nat.iter (S k) stream_next s) with (stream_next (Nat.iter k stream_next s)).
    rewrite IHk. unfold stream_next, sounds. by rewrite Hu. }
  rewrite Hit. unfold played_out. by rewrite Hu.
Qed.

(** One period of a stream that is closing. *)
Lemma closing_period s :
  slot_ok s -> sounds s = true -> closing (life s) = true ->
  let q := phase (resampler s) + Z.of_nat PERIOD_FRAMES * step (format s) in
  if q / 65536 <? Z.of_nat (length (track s)) then
    slot_ok (period_slot s) /\ life (period_slot s) = life s /\ format (period_slot s) = format s /\
    track (period_slot s) = drop (Z.to_nat (q / 65536)) (track s) /\
    phase (resampler (period_slot s)) = q mod 65536
  else in_use (life (period_slot s)) = false.
Proof.
  intros Hs Hp Hc q. destruct (iter_next_spec PERIOD_FRAMES s Hs Hp) as (Hs' & Hl & Hf & Ht & Hph).
  fold q in Ht, Hph. unfold period_slot, free_if, played_out.
  revert Hs' Hl Hf Ht Hph. generalize (Nat.iter PERIOD_FRAMES stream_next s). intros s' Hs' Hl Hf Ht Hph.
  assert (Hu : in_use (life s) = true) by (unfold sounds in Hp; by destruct (in_use (life s))).
  rewrite Hl, Hu, Hc, drained_track. cbn [andb].
  pose proof (sounds_ok s Hs Hp) as Hok. pose proof (step_bounds s Hok). pose proof (so_phase _ Hok).
  assert (Hq : 0 <= q / 65536) by (apply Z.div_pos; [|lia]; unfold q; lia).
  assert (Hlen : length (track s') = (length (track s) - Z.to_nat (q / 65536))%nat)
    by (by rewrite Ht, length_drop).
  destruct (q / 65536 <? Z.of_nat (length (track s))) eqn:E.
  - destruct (track s') as [|f rest] eqn:Etr; [simpl in Hlen; lia|]. cbn [is_nil] in *. by rewrite Etr.
  - destruct (track s') as [|f rest]; [done|]. simpl in Hlen. lia.
Qed.

(** A closing stream is in use for as long as its track lasts. *)
Lemma closing_periods n s :
  slot_ok s -> sounds s = true -> closing (life s) = true -> track s <> [] ->
  in_use (life (Nat.iter n period_slot s)) =
  ((phase (resampler s) + Z.of_nat n * (Z.of_nat PERIOD_FRAMES * step (format s))) / 65536
   <? Z.of_nat (length (track s))).
Proof.
  revert s. induction n as [|n IH]; intros s Hs Hp Hc Hne;
    pose proof (sounds_ok s Hs Hp) as Hok; pose proof (step_bounds s Hok); pose proof (so_phase _ Hok).
  - rewrite Z.mul_0_l, Z.add_0_r, Z.div_small by lia. simpl.
    unfold sounds in Hp. destruct (in_use (life s)); [|done]. destruct (track s); [done|]. simpl. lia.
  - rewrite Nat.iter_succ_r. pose proof (closing_period s Hs Hp Hc) as Hstep. cbv zeta in Hstep.
    set (c := Z.of_nat PERIOD_FRAMES * step (format s)) in *.
    set (q := phase (resampler s) + c) in *.
    assert (0 <= c) by (unfold c; lia).
    replace (phase (resampler s) + Z.of_nat (S n) * c) with (q + Z.of_nat n * c) by lia.
    pose proof (Z.div_mod q 65536 ltac:(lia)) as Hdm. pose proof (Z.mod_pos_bound q 65536 ltac:(lia)).
    assert (Hq : 0 <= q / 65536) by (apply Z.div_pos; lia).
    destruct (q / 65536 <? Z.of_nat (length (track s))) eqn:E.
    + destruct Hstep as (Hs' & Hl & Hf & Ht & Hph).
      assert (Hlen : length (track (period_slot s)) = (length (track s) - Z.to_nat (q / 65536))%nat)
        by (by rewrite Ht, length_drop).
      rewrite IH; [|done|unfold sounds; by rewrite Hl|by rewrite Hl|].
      2: { intros Hnil. rewrite Hnil in Hlen. simpl in Hlen. lia. }
      rewrite Hph, Hf, Hlen. fold c.
      replace (q + Z.of_nat n * c) with (q mod 65536 + Z.of_nat n * c + q / 65536 * 65536) by lia.
      rewrite Z.div_add by lia. lia.
    + rewrite idle_period, Hstep by done. symmetry. apply Z.ltb_ge. apply Z.ltb_ge in E.
      etrans; [exact E|]. apply Z.div_le_mono; nia.
Qed.

Lemma step_min s : stream_ok s -> 10922 <= step (format s).
Proof.
  intros Hok. rewrite (so_step _ Hok). pose proof (so_rate _ Hok). unfold MIN_RATE, SAMPLE_RATE in *.
  apply Z.div_le_lower_bound; lia.
Qed.

Lemma live_slot_eq m pid handle i s j t :
  mixer_ok m -> live m pid handle i s -> live m pid handle j t -> i = j.
Proof.
  intros Hok [(Hi & _ & _ & E1) _] [(Hj & _ & _ & E2) _].
  pose proof (lookup_lt_Some _ _ _ Hi). pose proof (lookup_lt_Some _ _ _ Hj).
  rewrite (mo_streams _ Hok) in *. unfold MAX_STREAMS, handle_of in *. lia.
Qed.

Lemma track_length s : stream_ok s -> Z.of_nat (length (track s)) <= 16385.
Proof.
  intros Hok. unfold track. rewrite length_app, held_length. pose proof (bo_count _ _ (so_buf _ Hok)).
  pose proof ring_samples. pose proof (cap_mul _ (bo_ch _ _ (so_buf _ Hok))).
  destruct (bo_ch _ _ (so_buf _ Hok)) as [E|E]; rewrite E in *; destruct (have_cur _); simpl; lia.
Qed.

(** C31: Closing a stream plays it out. Closing a stream that has something left and is not
    paused changes nothing of what it adds to the mix, and the stream is freed in the period in
    which its last frame is played, after 205 periods (about two seconds) at the latest. *)
Theorem audio_close_drains `{Hw H} (h0 h : H) m pid handle slot s :
  rtc any_step (Mixer_new, h0) (m, h) -> 0 <= handle -> live m pid handle slot s ->
  paused (life s) = false -> track s <> [] ->
  exists (m1 : Mixer) (s1 : Stream), close pid handle 0 m = Done (Ok tt, m1) /\ streams m1 !! slot = Some s1 /\
    (forall k, part s1 k = part s k) /\
    forall n, exists (m2 : Mixer) (s2 : Stream), mix_blocks n m1 = Done m2 /\ streams m2 !! slot = Some s2 /\
      (in_use (life s2) = true <->
       (phase (resampler s) + Z.of_nat n * (Z.of_nat PERIOD_FRAMES * step (format s))) / 65536
       < Z.of_nat (length (track s))) /\
      (205 <= Z.of_nat n -> in_use (life s2) = false).
Proof.
  intros Hr Hh Hl Hpa Hne. apply any_run_ok in Hr as Hok.
  destruct (live_slot _ _ _ _ _ Hok Hl) as (Hat & Hsl & Hst & Hu & _ & Hcl).
  pose proof (close_on_stream m pid handle 0 Hok Hh) as Hc. cbn [Z.land Z.eqb negb] in Hc.
  assert (Hset : close_fn 0 s = (Ok tt, set_closing s)).
  { unfold close_fn. cbn [Z.land Z.eqb negb orb]. rewrite drained_track, Hpa, orb_false_r.
    by destruct (track s). }
  destruct Hc as [(slot' & s' & Hl' & Hrun)|[Hno _]]; [|by destruct (Hno slot s)].
  assert (slot' = slot) as -> by (by apply (live_slot_eq m pid handle slot' s' slot s)).
  destruct (live_slot _ _ _ _ _ Hok Hl') as (Hat' & _). simplify_eq. rewrite Hset in Hrun. cbn [fst snd] in Hrun.
  assert (Hs1 : slot_ok (set_closing s)).
  { apply (used_ok s _ Hsl Hu); [destruct Hst; by split|done|done|done]. }
  assert (Hok1 : mixer_ok (put slot (set_closing s) m)) by (by apply (put_ok m slot s)).
  eexists _, (set_closing s). split; [exact Hrun|].
  split; [simpl; apply list_lookup_insert_eq; by eapply lookup_lt_Some|]. split; [done|].
  intros n. destruct (mix_blocks_spec n _ Hok1) as (m2 & Hm2 & _ & Hss).
  eexists m2, _. split; [done|]. split.
  { rewrite Hss, list_lookup_fmap. simpl. rewrite list_lookup_insert_eq by (by eapply lookup_lt_Some). done. }
  assert (Hsd : sounds (set_closing s) = true) by (unfold sounds; simpl; by rewrite Hu, Hpa).
  rewrite (closing_periods n (set_closing s) Hs1 Hsd eq_refl Hne).
  split; [apply Z.ltb_lt|]. intros Hn. apply Z.ltb_ge.
  pose proof (track_length s Hst). change (track (set_closing s)) with (track s). etrans; [done|].
  change (resampler (set_closing s)) with (resampler s). change (format (set_closing s)) with (format s).
  apply Z.div_le_lower_bound; [lia|]. pose proof (so_phase _ Hst). pose proof (step_min s Hst).
  pose proof period_frames as ->. nia.
Qed.

(** * Audio: examples

    A run of the mixer with the simulated card, to which the theorems are applied. *)

(** A run with a card that plays is a run with any card. *)
Lemma audio_any x y : rtc (@audio_step MockHw _ _) x y -> rtc any_step x y.
Proof.
  induction 1 as [|x y z [c a m hl m' hl' Hc Hr|n m h log] _ IH]; [done| |].
  - eapply rtc_l; [|done]. by eapply any_call.
  - eapply rtc_l; [|done]. apply any_card.
Qed.

Lemma mock_silent : silent MockHw_new.
Proof. split; [apply mock_new_ok|done]. Qed.

Definition demo_start : Mixer * (MockHw * list (list Z)) := (Mixer_new, (MockHw_new, [])).

Lemma put_at m slot s s' : streams m !! slot = Some s -> streams (put slot s' m) !! slot = Some s'.
Proof. intros Hs. simpl. apply list_lookup_insert_eq. by eapply lookup_lt_Some. Qed.

(** Process 1 opens a stereo stream at 48 kHz and full volume. *)
Lemma demo_opened :
  exists m hd slot s, rtc audio_step demo_start (m, (MockHw_new, [])) /\ live m 1 hd slot s /\ 0 <= hd /\
    exists s0, s = opened 1 2 48000 256 s0.
Proof.
  destruct (open_spec 1 2 48000 0 256 Mixer_new (MockHw_new, [] : list (list Z)) mixer_new_ok ltac:(lia))
    as (m & x & Hrun & Hok & Hx).
  assert (E : open_refusal (present (MockHw_new, [] : list (list Z))).1 1 2 48000 0 256 Mixer_new = None)
    by reflexivity.
  rewrite E in Hx. destruct Hx as (slot & s & Hs & _ & _ & -> & ->).
  pose proof (Forall_lookup_1 _ _ _ _ (mo_slots _ mixer_new_ok) Hs) as Hsl.
  destruct (opened_ok 1 2 48000 0 256 s Hsl eq_refl ltac:(lia)) as [Hsl' _].
  eexists _, _, slot, _. split; [|split; [|split; [|by exists s]]].
  - apply rtc_once. eapply (audio_call (Open 1 2 48000 0 256)); [simpl; lia|].
    cbn [do_call]. unfold rust_audio_open. rewrite Hrun. reflexivity.
  - split; [|reflexivity]. split; [exact (put_at _ _ _ _ Hs)|]. split; [reflexivity|]. split; reflexivity.
  - unfold handle_of. pose proof (sl_gen _ Hsl'). lia.
Qed.

(** It writes two frames. *)
Lemma demo_written :
  exists m hd slot s, rtc audio_step demo_start (m, (MockHw_new, [])) /\ live m 1 hd slot s /\ 0 <= hd /\
    paused (life s) = false /\ track s <> [] /\ has_activity m = true.
Proof.
  destruct demo_opened as (m & hd & slot & s & Hr & Hl & Hh & s0 & ->).
  assert (Hok : mixer_ok m) by (by apply (run_inv _ _ mock_silent) in Hr as (? & _)).
  assert (Hi : Forall is_i16 [100; -100; 200; -200]) by (repeat constructor; unfold is_i16; lia).
  destruct (write_on_stream m 1 hd [100; -100; 200; -200] Hok Hh Hi) as [(i & t & Hl' & Hrun)|[Hno _]].
  2: { by destruct (Hno slot (opened 1 2 48000 256 s0)). }
  assert (i = slot) as -> by (by eapply live_slot_eq).
  destruct (live_slot _ _ _ _ _ Hok Hl) as (Hat & _ & Hst & _).
  destruct (live_slot _ _ _ _ _ Hok Hl') as (Hat' & _). simplify_eq.
  pose proof (write_fn_spec [100; -100; 200; -200] _ Hst Hi) as Hw. cbv zeta in Hw.
  destruct (write_fn _ _) as [r s']. destruct Hw as (Hst' & Hlife & _ & _ & Hw).
  cbn [fst snd] in Hrun. destruct Hw as (_ & Htr & _).
  assert (Hne : track s' <> []).
  { rewrite Htr. pose proof (frames_cap_pos 2 ltac:(by right)). intros Hnil. apply (f_equal length) in Hnil.
    rewrite length_app, length_take, to_frames_length in Hnil.
    change (channels (format (opened 1 2 48000 256 s0))) with 2%nat in Hnil.
    change (count (buffer (opened 1 2 48000 256 s0))) with 0%nat in Hnil.
    change (length [100; -100; 200; -200]%Z / 2)%nat with 2%nat in Hnil. simpl length in Hnil. lia. }
  assert (Hput : streams (put slot s' m) !! slot = Some s') by (by eapply put_at).
  destruct Hl as [(_ & Hu & Ho & Heq) Hc].
  exists (put slot s' m), hd, slot, s'. split; [|split; [|split; [done|split; [by rewrite Hlife|split; [done|]]]]].
  - eapply rtc_r; [exact Hr|]. eapply (audio_call (Write 1 hd [100; -100; 200; -200])); [by split|].
    cbn [do_call]. unfold rust_audio_write. rewrite Hrun. reflexivity.
  - split; [|by rewrite Hlife]. split; [exact Hput|]. rewrite Hlife.
    split; [exact Hu|]. split; [exact Ho|exact Heq].
  - unfold has_activity. apply orb_true_iff. left. apply existsb_exists. exists s'.
    split; [apply list_elem_of_In; by eapply list_elem_of_lookup_2|].
    unfold wants_to_play. rewrite Hlife. simpl. pose proof (drained_track s') as Hd.
    unfold drained in Hd. destruct (track s'); [contradiction|]. simpl in Hd.
    destruct (count (buffer s')), (have_cur (resampler s')); done.
Qed.

(** A tick, and 700 frames later. *)
Lemma demo_played :
  exists m h log, rtc audio_step demo_start (m, (h, log)) /\ 1400 <= Z.of_nat (length (e_heard (engine h))).
Proof.
  destruct demo_written as (m & hd & slot & s & Hr & _ & _ & _ & _ & Hact).
  destruct (run_inv _ _ mock_silent Hr) as (Hok & Hlk & _). cbn [fst snd] in *.
  destruct (pump_linked m MockHw_new [] Hok Hlk) as (m1 & h1 & log1 & Hp & _ & Hlk1 & Hplay).
  destruct (Hplay eq_refl Hact) as (_ & Hlen & _).
  exists m1, (elapse (Z.to_nat 700) h1), log1. split.
  - eapply rtc_r; [eapply rtc_r; [exact Hr|]|].
    + eapply (audio_call Tick); [exact I|]. cbn [do_call]. unfold rust_audio_tick. rewrite Hp. reflexivity.
    + apply audio_time.
  - pose proof (lk_engine _ _ _ Hlk1) as He. rewrite card_elapse by done.
    destruct (run_spec (Z.to_nat 700) _ He) as (_ & Hh & _). rewrite Hh, length_app, length_take. lia.
Qed.

(** ** The theorems at these runs *)

Lemma audio_playback_witness :
  exists m h log waiting, rtc audio_step demo_start (m, (h, log)) /\
    1400 <= Z.of_nat (length (e_heard (engine h))) /\ e_heard (engine h) ++ waiting = concat log.
Proof.
  destruct demo_played as (m & h & log & Hr & Hlen).
  destruct (audio_playback MockHw_new m h log mock_silent Hr) as (w & Hw & _). by exists m, h, log, w.
Defined.

Lemma audio_gapless_witness :
  exists (h1 : MockHw) sound,
    e_heard (engine (elapse (Z.to_nat 1000) h1)) = e_heard (engine h1) ++ sound /\
    length sound = (Z.to_nat 1000 * 2)%nat.
Proof.
  destruct demo_written as (m & hd & slot & s & Hr & _ & _ & _ & _ & Hact).
  destruct (run_inv _ _ mock_silent Hr) as (Hok & _). cbn [fst] in Hok.
  destruct (call_safe Tick m (MockHw_new, [] : list (list Z)) Hok I) as (a & m1 & [h1 log1] & Hrun & _).
  destruct (audio_gapless MockHw_new m MockHw_new [] m1 h1 log1 a (Z.to_nat 1000) mock_silent Hr eq_refl Hact
              Hrun ltac:(lia)) as (sound & Hs & Hl & _).
  by exists h1, sound.
Defined.

Lemma audio_tap_newest_witness :
  exists m a, rust_audio_tap 0 (replicate 20 0) 10 m = Done a /\ code a = 0.
Proof.
  destruct demo_written as (m & hd & slot & s & Hr & _).
  destruct (audio_tap_newest MockHw_new m MockHw_new [] (replicate 20 0) 10 mock_silent Hr ltac:(lia) eq_refl
              ltac:(simpl; lia)) as (rest & Hrun).
  eexists m, _. split; [exact Hrun|reflexivity].
Defined.

Lemma audio_safe_witness :
  exists m, rtc any_step demo_start (m, (MockHw_new, [])) /\ has_activity m = true /\
    exists a, rust_audio_selftest m = Done a /\ code a = 0.
Proof.
  destruct demo_written as (m & hd & slot & s & Hr & _ & _ & _ & _ & Hact). apply audio_any in Hr.
  exists m. split; [exact Hr|]. split; [exact Hact|].
  by destruct (audio_safe (MockHw_new, [] : list (list Z)) (MockHw_new, []) m Hr) as (_ & Hst & _).
Defined.

(** Process 2 cannot write to the stream of process 1. *)
Lemma audio_isolation_witness :
  exists m hd slot s a m' h', live m 1 hd slot s /\
    do_call (Write 2 hd [1; 2]) m (MockHw_new, [] : list (list Z)) = Done (a, m', h') /\
    streams m' !! slot = Some s.
Proof.
  destruct demo_written as (m & hd & slot & s & Hr & Hl & Hh & _). apply audio_any in Hr as Hany.
  assert (Hok : mixer_ok m) by exact (any_run_ok _ _ _ Hany).
  assert (Hc : call_ok (Write 2 hd [1; 2])) by (split; [exact Hh|repeat constructor; unfold is_i16; lia]).
  destruct (call_safe _ m (MockHw_new, [] : list (list Z)) Hok Hc) as (a & m' & h' & Hrun & _).
  destruct (audio_isolation (MockHw_new, [] : list (list Z)) (MockHw_new, []) h' m m' _ a Hany Hc
              ltac:(discriminate) Hrun) as (Hoth & _).
  destruct (live_slot _ _ _ _ _ Hok Hl) as (Hat & _ & _ & Hu & Ho & _).
  exists m, hd, slot, s, a, m', h'. split; [exact Hl|]. split; [exact Hrun|].
  apply Hoth; [exact Hat|exact Hu|]. rewrite Ho. discriminate.
Defined.

Lemma audio_mix_correct_witness :
  exists m m', has_activity m = true /\
    mix_block m (replicate PERIOD_SAMPLES 0) = Done (m', flatten (out_frame m <$> seq 0 PERIOD_FRAMES)).
Proof.
  destruct demo_written as (m & hd & slot & s & Hr & _ & _ & _ & _ & Hact). apply audio_any in Hr.
  destruct (audio_mix_correct (MockHw_new, [] : list (list Z)) (MockHw_new, []) m Hr) as (m' & Hrun & _).
  by exists m, m'.
Defined.

Lemma audio_write_correct_witness :
  exists m hd r m', write 1 hd [1; 2] m = Done (r, m') /\ exists slot s, live m 1 hd slot s.
Proof.
  destruct demo_written as (m & hd & slot & s & Hr & Hl & Hh & _). apply audio_any in Hr.
  destruct (audio_write_correct (MockHw_new, [] : list (list Z)) (MockHw_new, []) m 1 hd [1; 2] Hr Hh
              ltac:(repeat constructor; unfold is_i16; lia)) as (r & m' & Hrun & _).
  exists m, hd, r, m'. split; [exact Hrun|]. by exists slot, s.
Defined.

Lemma audio_close_drains_witness :
  exists m hd slot m1, close 1 hd 0 m = Done (Ok tt, m1) /\
    exists m2 (s2 : Stream), mix_blocks (Z.to_nat 205) m1 = Done m2 /\ streams m2 !! slot = Some s2 /\
      in_use (life s2) = false.
Proof.
  destruct demo_written as (m & hd & slot & s & Hr & Hl & Hh & Hp & Hne & _). apply audio_any in Hr.
  destruct (audio_close_drains (MockHw_new, [] : list (list Z)) (MockHw_new, []) m 1 hd slot s Hr Hh Hl Hp Hne)
    as (m1 & s1 & Hc & _ & _ & Hn).
  destruct (Hn (Z.to_nat 205)) as (m2 & s2 & Hm2 & Hs2 & _ & Hfree).
  exists m, hd, slot, m1. split; [exact Hc|]. exists m2, s2. split; [exact Hm2|]. split; [exact Hs2|].
  apply Hfree. lia.
Defined.

Lemma audio_exact_48k_witness :
  exists s acc out s', stream_run [Put [5; 6; 7; 8]; Take; Take; Take] s = Done (acc, out, s') /\
    out ++ track s' = track s ++ acc.
Proof.
  destruct demo_opened as (m & hd & slot & s & Hr & Hl & _ & s0 & ->).
  destruct (run_inv _ _ mock_silent Hr) as (Hok & _). cbn [fst] in Hok.
  destruct (live_slot _ _ _ _ _ Hok Hl) as (_ & _ & Hst & _).
  exists (opened 1 2 48000 256 s0).
  destruct (audio_exact_48k (opened 1 2 48000 256 s0) [Put [5; 6; 7; 8]; Take; Take; Take] Hst eq_refl eq_refl
              ltac:(repeat constructor; unfold is_i16; lia)) as (acc & out & s' & Hrun & Heq).
  exists acc, out, s'. split; [exact Hrun|exact Heq].
Defined.
